(* ===== verification/_CoqProject ===== *)
-Q . S2P
Prelude.v
Uint256.v
Params.v
Errors.v
Common.v
Analysis.v
Stack.v
Memory.v
AccessList.v
StateDB.v
Machine.v
GasTable.v
Instructions.v
JumpTable.v
Interpreter.v
MemoryGas.v
FrameOk.v
GasSafe.v
ExecSafe.v
TableSafe.v
ForkSafe.v
Instances.v
InstrSpec.v
TableSpec.v
InterpSafe.v
IntraBlockState.v
JournalSpec.v
SnapshotSpec.v
RevertSafe.v
TxState.v
Rlp.v
RlpSpec.v
RlpParse.v
RlpWriter.v
Authorization.v
ChainConfig.v
ChainConfigSpec.v
FeeMarket.v
FeeMarketSpec.v
TxGas.v
Sha256.v
Blake2b.v
Blake2bSpec.v
Precompiles.v
PrecompilesSpec.v
Evm.v
EvmSpec.v
StateTransition.v
StateTransitionSpec.v
Receipts.v
HashFn.v
BlockExec.v
BlockExecSpec.v
Select.v
EliasFano.v
EliasFanoSpec.v
EliasFanoIterSpec.v
MultiEncSeq.v
MultiEncSeqSpec.v
ValidatorSet.v
ValidatorSetSpec.v
ValidatorUpdateSpec.v
ForkId.v
HeaderRlp.v
RlpStream.v
RlpStreamSpec.v
HeaderDecode.v
Consensus.v
Clique.v
CliqueSpec.v
CliqueReplaySpec.v
CliqueChainSpec.v
CliqueSealSpec.v
CliqueDemo.v
Ethash.v
EthashSpec.v
EthashRules.v
EthashRulesSpec.v
Merge.v
MergeSpec.v
