(* ===== verification/Prelude.v ===== *)
(** * Erigon's execution core: a verification development

    A model, definition by definition, of the parts of this Erigon client (Go, under
    [src/]) that compute: the virtual machine and everything it needs to execute a block,
    block headers and the engines that decide who may make one (Clique, Ethash, the Merge,
    and the validator set of Bor), the identifiers by which nodes compare their forks, and
    the compressed number sequences the history files are made of. Each definition is
    translated from the function named in its comment or next to it; the theorems say what
    makes the component correct.

    ** The parts and how they interact

    A block is executed by [core/blockchain.go] and [core/state_processor.go], transaction
    by transaction. Each is a message of [core/state_transition.go], which buys its gas,
    calls the EVM ([core/vm/evm.go]) and settles the bill. The EVM opens a frame per call
    and runs the interpreter ([core/vm/interpreter.go]), which takes an operation from the
    jump table of the active fork, charges its gas ([gas_table.go], [operations_acl.go]),
    grows the memory and executes it ([instructions.go]); a call instruction re-enters the
    EVM. All of them change the intra-block state ([core/state]), whose journal is what a
    failed call is undone with. Which rules apply is read off the chain configuration
    ([execution/chain]), prices come from the fee market ([execution/consensus/misc]),
    encodings from [execution/rlp]. A header ([execution/types]) is written and read with
    the latter; its hash is what the next one refers to, and what the seal of a
    proof-of-authority engine signs. Clique ([execution/consensus/clique]) replays headers to
    know the signers; Bor ([polygon/heimdall]) rotates the proposer of its validator set.
    Ethash ([execution/consensus/ethash]) checks difficulty, proof of work and uncles and
    pays the rewards; the Merge ([execution/consensus/merge]) hands a block to the engine
    before it until the terminal difficulty is reached, and after that checks headers
    against the fee market and runs the system operations of a block.
    Peers exchange fork identifiers ([p2p/forkid]) made from the chain configuration.
    Independently, [db/recsplit] stores sorted lists of transaction numbers.

    ** Files

    - [Prelude]: machine integers ([u64], [i64]), bytes, the results of a Go function
      ([Res]: a value, a panic, or fuel exhausted), slices and indices with Go's bounds
      checks, state-passing computations with their weakest-precondition rules and tactics.
      [Uint256]: the 256-bit integers of a third-party module as a class with laws, and a
      reference implementation. [Params], [Errors], [Common]: constants, opcodes, errors and
      the helpers of [core/vm/common.go].
    - The virtual machine: [Analysis] (jump destinations), [Stack], [Memory], [StateDB] (the
      state as an interface), [Machine] (contracts, frames), [GasTable], [Instructions],
      [JumpTable], [Interpreter]. Their theorems: [MemoryGas], [FrameOk], [GasSafe],
      [ExecSafe], [TableSafe], [ForkSafe] (the invariant of a frame and that every gas
      function, instruction and table entry keeps it), [InterpSafe] (the loop), [InstrSpec]
      and [TableSpec] (what single instructions and tables do), [Instances] (concrete
      instances the witnesses evaluate on).
    - The state: [AccessList], [IntraBlockState], [TxState]; [JournalSpec], [SnapshotSpec],
      [RevertSafe] (reverting to a snapshot).
    - Calls: [Evm], [EvmSpec]; precompiled contracts: [Precompiles], [PrecompilesSpec], with
      [Blake2b], [Blake2bSpec] and [Sha256].
    - Transactions and blocks: [TxGas], [FeeMarket], [FeeMarketSpec], [ChainConfig],
      [ChainConfigSpec], [Authorization], [StateTransition], [StateTransitionSpec],
      [Receipts], [HashFn], [BlockExec], [BlockExecSpec].
    - Encodings: [Rlp], [RlpSpec], [RlpParse] ([encode_rlp2.go], [parse.go]), [RlpWriter]
      ([encode.go]), [RlpStream], [RlpStreamSpec] ([Stream] of [decode.go]); block headers
      and withdrawals: [HeaderRlp] (encoding, hash), [HeaderDecode] (decoding).
    - Consensus: [ValidatorSet] with [ValidatorSetSpec] (rotation) and [ValidatorUpdateSpec]
      (updates, succession); [Consensus] (what the engines share); [Clique] with [CliqueSpec]
      (votes and recent signers), [CliqueReplaySpec] (replaying headers, checking a seal),
      [CliqueChainSpec] (the snapshot of a block, over caches and a database),
      [CliqueSealSpec] (preparing, sealing and verifying a header) and [CliqueDemo] (a
      concrete chain); [Ethash] (difficulty, dataset, hashimoto) with [EthashSpec],
      [EthashRules] (headers, seals, uncles, rewards) with [EthashRulesSpec]; [Merge] (the
      engine, deposits, requests, withdrawals, beacon roots and block hashes) with
      [MergeSpec].
    - Networking: [ForkId].
    - Sequences: [Select], [EliasFano], [EliasFanoSpec], [EliasFanoIterSpec], [MultiEncSeq],
      [MultiEncSeqSpec].

    ** Conventions

    A [uint64] is a [Z] in [0, 2^64) whose arithmetic is written with [u64], an [int] one
    with [i64]; bit operations are those of [Z]. A Go panic is a value, [Panic], so that its
    absence can be stated; an error is a value the function returns. Stateful code takes and
    returns its state: a [Frame] for an instruction, the [IntraBlockState] for a state
    operation, the [World] for what outlives a call. Code outside the repository
    (third-party modules, the tables of a database, Merkle roots) is an argument, a class of
    operations with the documented laws as hypotheses, and the witnesses instantiate it.

    ** What the theorems show

    - Safety of execution: on a well-formed frame, for the instruction set of any fork and
      over callees that do the same, the interpreter never panics, never creates gas, keeps
      the stack within its limit and stops ([InterpSafe]); writing instructions fail in a
      static call ([InstrSpec]); no precompiled contract that is paid for panics
      ([PrecompilesSpec]).
    - Exactness of gas: memory expansion is charged by the quadratic formula however it is
      reached ([MemoryGas]), calls keep back one 64th ([InstrSpec]), the price of MODEXP and
      of a transaction is that of the EIPs ([PrecompilesSpec], [TxGas]).
    - Atomicity: reverting to a snapshot restores every observable part of the state
      ([RevertSafe]), hence failed calls and creations leave no trace ([EvmSpec]); what a
      transaction bills for the gas the EVM leaves, and what a block adds up to, is exact
      ([StateTransitionSpec], [BlockExecSpec]).
    - Equivalence with reference definitions: jump-destination bitmaps ([Analysis]), RLP
      ([RlpSpec], [RlpParse], [RlpWriter]), BLAKE2b against its RFC ([Blake2bSpec]), the fake
      exponential ([FeeMarketSpec]), fork order and compatibility ([ChainConfigSpec]), the
      log bloom ([Receipts]), block hashes under concurrent use ([HashFn]), selection in a
      word ([Select]).
    - Round trips and refinement: sequences ([EliasFanoIterSpec], [MultiEncSeqSpec]): every
      item, both iterators, seeking, and the bytes.
      A block header that is written is read back, and the stream decoder accepts nothing
      but canonical encodings ([HeaderDecode]).
    - Consensus: the rotation of Bor's proposer is fair, and an update of its validator set
      gives each address the power asked for or leaves the set alone ([ValidatorSetSpec],
      [ValidatorUpdateSpec]). Replaying Clique headers is what a machine of ballots does with
      the votes in them, at least half of the signers may always sign, the snapshot of a
      block does not depend on which snapshots are cached or stored, and what a signer prepares and seals
      every node accepts ([CliqueReplaySpec], [CliqueChainSpec], [CliqueSealSpec]).
      Ethash's difficulty is the same over 256-bit and over big integers and bounded, its
      proof of work the same from the dataset, however many goroutines generate it, and from
      the cache ([EthashSpec]); the uncles of an accepted block are children of
      recent ancestors, distinct and not included before, and the rewards exact ([EthashRulesSpec]). After the merge the accepted
      headers form a chain that can always be continued, an assembled block finalizes to the
      same requests, and the deposit request is exactly the deposits in the logs ([MergeSpec]).
      Nodes with the same forks accept each other's identifiers ([ForkId]).
    - Where the code does not do what it means to, a theorem or an evaluated example shows
      it: the fake exponential cut short, the reverted self-destruction, the skipped extra
      EIPs, the second item of [Get2], a peer rejected at a fork block, a header that can be
      decoded but not hashed, a repeated signer accepted on a short chain, announcements
      that are not canonical, a rewind that goes too far.

    ** Fuel

    Loops whose termination is not structural take fuel; every theorem that the code returns
    chooses it and shows that it is enough: the interpreter [Gas + 1] iterations (each costs
    at least one unit); nested calls the depth limit, as the depth of [evm_run];
    [codeBitmap] and the parsers the length of their input; [sort.Search] the size of its
    range; [CheckCompatible] one round per fork; [FakeExponential] as many terms as a
    256-bit number allows (1281); the block-hash walk the distance to the block; the scans
    of Elias-Fano sequences the number of words (bits, for the iterators); the search for a
    Clique snapshot the number of the block and one more.

    ** Limits of the theorems

    That the whole EVM never panics is stated for one frame over callees that keep the
    invariant ([calls_ok]), not for the closed knot: the cache of jump destinations is keyed
    by code hash, so it holds only if hashes do not collide. The context of a frame has a
    blob base fee only where the fork has BLOBBASEFEE ([blob_fork]). Where a contract is
    marked to skip the analysis, a jump into push data is accepted, and the theorem on jumps
    says so. The theorems on calls, transactions and blocks are about any interpreter that
    does not panic, creates no gas and whose effects the journal can undo ([run_tracks]).
    The undo theorem excludes a credit of
    zero to the RIPEMD address (which the code deliberately does not undo) and the
    self-destruction of a contract created in the same transaction (which it undoes
    incompletely, see [RevertSafe]). The block theorem is for execution that keeps receipts
    and commits. A precompiled contract is given less than 2^64 - 1 gas, the price MODEXP
    asks for lengths over 32 bits, and inputs below 4 GiB; memory is unbounded in the model,
    so that the allocation of such a length is not seen to fail. Sequences are stated for up to 2^30 items. The fairness of Bor's rotation
    assumes a total power that leaves room for the priorities ([room]); the round trip of a
    header, integers of at most 31 bytes and an AuRa seal of other than one byte (the
    encoder fails beyond that); the Clique theorems, that the hashes of the headers in play
    tell their signers apart and, for the snapshot of a block, that the genesis or a
    snapshot at hand lies among its last 5000 ancestors ([anchored]), since otherwise the
    search ends at a checkpoint the node trusts. The height [CheckCompatible] rewinds to is
    exact where a Petersburg block comes with a Constantinople block not above it. The two difficulties
    agree where 256 bits have room ([u256_room]: a difficulty below 2^254, a block number
    below 25,599,999) and time increases; the two proofs of work for a dataset of less than
    2^32 words, as the offset in [hashimotoFull] is a [uint32]; the theorem on uncles is for
    a reader that gives headers under their numbers and has their uncles ([reader_ok]) and no uncle whose parent
    is the block itself. The chain after the merge is one on which London is active and whose
    blob schedule has no nil entry; from Osaka on the blob price of the parent must fit 256
    bits, as [CalcExcessBlobGas] panics otherwise. An assembled block is finalized again
    under an engine other than AuRa.

    ** Not modelled

    Tracing hooks; the version map of parallel execution; the arithmetic of curves, pairings
    and commitments, RIPEMD-160 and signature recovery (third-party code: arguments); the
    assembly BLAKE2b; reflection-driven RLP; bodies and assembly of blocks; Merkle roots,
    transaction and log hashes; for Clique, the warm-up of its cache, the timer that delivers
    a sealed block and the queries of its RPC interface; for Ethash, the generation and the
    files of caches, mining and the balances moved by the DAO fork; for the Merge, the channel
    a sealed block is sent on, and of the ABI all types but [bytes]; the state-sync receipt of Bor; fee
    estimates read from a database; the control-flow analysis tool of [core/vm]; double and 16-bit Elias-Fano
    sequences and the perfect hash index built on them. The consensus layer, storage,
    staged sync, networking, RPC and the transaction pool are separate subsystems, mostly
    input and output. *)

From Stdlib Require Export ZArith Lia Strings.Byte.
From stdpp Require Export base list gmap option strings.
Open Scope Z_scope.

(** ** Machine integers

    A Go [uint64] is a [Z] in [0, 2^64); arithmetic wraps with [u64]. A Go
    [int] (64-bit platforms) is a [Z] in [-2^63, 2^63); conversions wrap with
    [i64]. *)

Definition two64 : Z := 18446744073709551616.
Definition MaxUint64 : Z := 18446744073709551615.
Definition u64 (z : Z) : Z := z mod two64.
Definition i64 (z : Z) : Z :=
  let w := z mod two64 in if w <? 9223372036854775808 then w else w - two64.
Definition is_u64 (z : Z) : Prop := 0 <= z < two64.
Definition two256 : Z := 2 ^ 256.
Definition is_u256 (z : Z) : Prop := 0 <= z < two256.
Definition two160 : Z := 2 ^ 160.

Lemma two64_pow : two64 = 2 ^ 64.
Proof. reflexivity. Qed.

Lemma u64_range z : is_u64 (u64 z).
Proof. unfold is_u64, u64, two64. apply Z.mod_pos_bound. lia. Qed.

Lemma u64_id z : is_u64 z -> u64 z = z.
Proof. intros H. unfold u64. apply Z.mod_small. exact H. Qed.

Lemma u64_wrap a b : is_u64 a -> is_u64 b -> two64 <= a + b -> u64 (a + b) = a + b - two64.
Proof.
  unfold is_u64, u64. intros Ha Hb H.
  replace (a + b) with (a + b - two64 + 1 * two64) at 1 by lia.
  rewrite Z.mod_add by (unfold two64; lia). apply Z.mod_small. lia.
Qed.

Lemma i64_id z : 0 <= z < 9223372036854775808 -> i64 z = z.
Proof.
  intros H. unfold i64. rewrite Z.mod_small by (unfold two64; lia).
  destruct (Z.ltb_spec z 9223372036854775808); lia.
Qed.

Create HintDb machine.
#[export] Hint Constants Opaque : machine.
#[export] Hint Resolve u64_range : machine.

(** ** Bytes and big-endian numbers *)

Abbreviation bytes := (list byte).

Definition byteZ (b : byte) : Z := Z.of_N (Byte.to_N b).

(** [byte(z)]: the low eight bits. *)
Definition Zbyte (z : Z) : byte :=
  match Byte.of_N (Z.to_N (z mod 256)) with Some b => b | None => x00 end.

Lemma byteZ_range b : 0 <= byteZ b < 256.
Proof.
  unfold byteZ. pose proof (Byte.to_N_bounded b). lia.
Qed.

Lemma byteZ_Zbyte z : byteZ (Zbyte z) = z mod 256.
Proof.
  unfold byteZ, Zbyte.
  assert (Hm : 0 <= z mod 256 < 256) by (apply Z.mod_pos_bound; lia).
  destruct (Byte.of_N (Z.to_N (z mod 256))) as [b|] eqn:E.
  - apply Byte.to_of_N in E. rewrite E. lia.
  - apply Byte.of_N_None_iff in E. lia.
Qed.

Lemma Zbyte_byteZ b : Zbyte (byteZ b) = b.
Proof.
  unfold Zbyte. pose proof (byteZ_range b).
  rewrite Z.mod_small by lia. unfold byteZ. rewrite N2Z.id, Byte.of_to_N.
  reflexivity.
Qed.

Lemma byteZ_inj b c : byteZ b = byteZ c -> b = c.
Proof. intros H. rewrite <- (Zbyte_byteZ b), <- (Zbyte_byteZ c), H. reflexivity. Qed.

#[export] Instance byte_eq_dec : EqDecision byte := Byte.byte_eq_dec.

(** The number a big-endian byte string denotes. *)
Definition be_to_Z (l : bytes) : Z :=
  fold_left (fun acc b => acc * 256 + byteZ b) l 0.

(** The [n] low bytes of [z], most significant first. *)
Fixpoint Z_to_be (n : nat) (z : Z) : bytes :=
  match n with
  | O => []
  | S n' => Z_to_be n' (z / 256) ++ [Zbyte z]
  end.

Lemma be_to_Z_snoc l b : be_to_Z (l ++ [b]) = be_to_Z l * 256 + byteZ b.
Proof. unfold be_to_Z. rewrite fold_left_app. reflexivity. Qed.

Lemma length_Z_to_be n z : length (Z_to_be n z) = n.
Proof.
  revert z. induction n as [|n IH]; intros z; simpl; [reflexivity|].
  rewrite length_app, IH. simpl. lia.
Qed.

Lemma be_to_Z_nonneg l : 0 <= be_to_Z l.
Proof.
  induction l as [|b l IH] using rev_ind; [reflexivity|].
  rewrite be_to_Z_snoc. pose proof (byteZ_range b). lia.
Qed.

Lemma be_to_Z_bound l : be_to_Z l < 256 ^ Z.of_nat (length l).
Proof.
  induction l as [|b l IH] using rev_ind; [reflexivity|].
  rewrite be_to_Z_snoc, length_app. simpl length.
  replace (Z.of_nat (length l + 1)) with (Z.succ (Z.of_nat (length l))) by lia.
  rewrite Z.pow_succ_r by lia. pose proof (byteZ_range b). lia.
Qed.

Lemma be_to_Z_Z_to_be n z : 0 <= z -> be_to_Z (Z_to_be n z) = z mod 256 ^ Z.of_nat n.
Proof.
  revert z. induction n as [|n IH]; intros z Hz; simpl Z_to_be.
  - simpl. rewrite Z.mod_1_r. reflexivity.
  - rewrite be_to_Z_snoc, IH by (apply Z.div_pos; lia). rewrite byteZ_Zbyte.
    replace (Z.of_nat (S n)) with (Z.succ (Z.of_nat n)) by lia.
    rewrite Z.pow_succ_r by lia.
    rewrite Z.rem_mul_r by (try apply Z.pow_nonzero; lia). lia.
Qed.

Lemma Z_to_be_be_to_Z l : Z_to_be (length l) (be_to_Z l) = l.
Proof.
  induction l as [|b l IH] using rev_ind; [reflexivity|].
  rewrite length_app. simpl length. rewrite Nat.add_1_r. simpl Z_to_be.
  rewrite be_to_Z_snoc. pose proof (byteZ_range b).
  rewrite Z.div_add_l, Z.div_small, Z.add_0_r, IH by lia.
  f_equal. f_equal. rewrite <- (Zbyte_byteZ b) at 2. unfold Zbyte.
  rewrite Z.add_comm, Z.mod_add by lia. reflexivity.
Qed.

Lemma be_to_Z_app l1 l2 :
  be_to_Z (l1 ++ l2) = be_to_Z l1 * 256 ^ Z.of_nat (length l2) + be_to_Z l2.
Proof.
  induction l2 as [|b l2 IH] using rev_ind.
  - rewrite app_nil_r. change (be_to_Z []) with 0. change (256 ^ _) with 1. lia.
  - rewrite app_assoc, !be_to_Z_snoc, IH, length_app. simpl length.
    replace (Z.of_nat (length l2 + 1)) with (Z.succ (Z.of_nat (length l2))) by lia.
    rewrite Z.pow_succ_r by lia. lia.
Qed.

Lemma be_to_Z_zeros n : be_to_Z (replicate n x00) = 0.
Proof.
  induction n as [|n IH]; [reflexivity|].
  rewrite replicate_S_end, be_to_Z_snoc, IH. reflexivity.
Qed.

(** ** Computations that may panic

    A Go call either returns, or panics (an index or slice out of range, a nil
    dereference, an explicit [panic]). [OutOfFuel] is the model's own outcome:
    a bounded unrolling of a loop or of the call recursion was exhausted; the
    termination theorems show it is not reached. *)

Inductive Res (A : Type) : Type :=
| Val (a : A)
| Panic (msg : string)
| OutOfFuel.
Arguments Val {A} a.
Arguments Panic {A} msg.
Arguments OutOfFuel {A}.

#[export] Instance Res_ret : MRet Res := fun A a => Val a.
#[export] Instance Res_bind : MBind Res := fun A B k m =>
  match m with Val a => k a | Panic e => Panic e | OutOfFuel => OutOfFuel end.

(** State passing over [Res]: [S] is what the Go code mutates. *)
Definition M (S A : Type) : Type := S -> Res (A * S).

#[export] Instance M_ret S : MRet (M S) := fun A a s => Val (a, s).
#[export] Instance M_bind S : MBind (M S) := fun A B k m s =>
  match m s with
  | Val (a, s') => k a s'
  | Panic e => Panic e
  | OutOfFuel => OutOfFuel
  end.

Definition gets {S A} (f : S -> A) : M S A := fun s => Val (f s, s).
Definition modify {S} (f : S -> S) : M S unit := fun s => Val (tt, f s).
Definition lift {S A} (r : Res A) : M S A := fun s =>
  match r with Val a => Val (a, s) | Panic e => Panic e | OutOfFuel => OutOfFuel end.
Definition gopanic {S A} (msg : string) : M S A := fun _ => Panic msg.

(** Run a computation on one field of a larger state. *)
Definition zoom {S T A} (get : S -> T) (set : T -> S -> S) (m : M T A) : M S A :=
  fun s => match m (get s) with
           | Val (a, t) => Val (a, set t s)
           | Panic e => Panic e
           | OutOfFuel => OutOfFuel
           end.

(** [l[i]] and [l[lo:hi]] with Go's bounds checks (against the length: the
    capacity of a slice is not part of the model, so the model panics at least
    where Go does). *)
Definition zlen {A} (l : list A) : Z := Z.of_nat (length l).

(** A slice fits in the 48-bit address space. *)
Definition go_len {A} (l : list A) : Prop := zlen l < 281474976710656.

Definition go_index {A} (l : list A) (i : Z) : Res A :=
  if (0 <=? i) && (i <? zlen l) then
    match l !! Z.to_nat i with
    | Some a => Val a
    | None => Panic "index out of range"
    end
  else Panic "index out of range".

Definition go_slice {A} (l : list A) (lo hi : Z) : Res (list A) :=
  if (0 <=? lo) && (lo <=? hi) && (hi <=? zlen l) then
    Val (take (Z.to_nat (hi - lo)) (drop (Z.to_nat lo) l))
  else Panic "slice bounds out of range".

(** [copy(l[at:], src)] where both ranges are in bounds. *)
Definition splice {A} (l : list A) (at_ : Z) (src : list A) : list A :=
  take (Z.to_nat at_) l ++ src ++ drop (Z.to_nat at_ + length src) l.

(** ** Postconditions

    [wp ok m s Q]: [m] started in [s] does not panic, and if it returns [a] in
    state [s'] then [Q a s']. [ok] says whether exhausted fuel is tolerated:
    [wp False] is total correctness, [wp True] is safety for every fuel. *)

Definition wp (ok : Prop) {S A} (m : M S A) (s : S) (Q : A -> S -> Prop) : Prop :=
  match m s with
  | Val (a, s') => Q a s'
  | Panic _ => False
  | OutOfFuel => ok
  end.

Lemma wp_ret ok {S A} (a : A) (s : S) Q : Q a s -> wp ok (mret a) s Q.
Proof. exact (fun H => H). Qed.

Lemma wp_bind ok {S A B} (m : M S A) (k : A -> M S B) s Q :
  wp ok m s (fun a s' => wp ok (k a) s' Q) -> wp ok (m ≫= k) s Q.
Proof.
  unfold wp, mbind, M_bind. destruct (m s) as [[a s']|e|]; auto.
Qed.

Lemma wp_mono ok {S A} (m : M S A) s (Q R : A -> S -> Prop) :
  wp ok m s Q -> (forall a s', Q a s' -> R a s') -> wp ok m s R.
Proof. unfold wp. destruct (m s) as [[a s']|e|]; auto. Qed.

Lemma wp_gets ok {S A} (f : S -> A) s Q : Q (f s) s -> wp ok (gets f) s Q.
Proof. exact (fun H => H). Qed.

Lemma wp_modify ok {S} (f : S -> S) s Q : Q tt (f s) -> wp ok (modify f) s Q.
Proof. exact (fun H => H). Qed.

Lemma wp_lift ok {S A} (r : Res A) (s : S) Q a :
  r = Val a -> Q a s -> wp ok (lift r) s Q.
Proof. intros -> H. exact H. Qed.

Lemma wp_zoom ok {S T A} (get : S -> T) set (m : M T A) s Q :
  wp ok m (get s) (fun a t => Q a (set t s)) -> wp ok (zoom get set m) s Q.
Proof. unfold wp, zoom. destruct (m (get s)) as [[a t]|e|]; auto. Qed.

Lemma wp_conj ok {S A} (m : M S A) s (Q R : A -> S -> Prop) :
  wp ok m s Q -> wp ok m s R -> wp ok m s (fun a s' => Q a s' /\ R a s').
Proof. unfold wp. destruct (m s) as [[a s']|e|]; auto. Qed.

Lemma wp_val {S A} (m : M S A) s Q :
  wp False m s Q -> exists a s', m s = Val (a, s') /\ Q a s'.
Proof. unfold wp. destruct (m s) as [[a s']|e|]; [eauto|done|done]. Qed.

Lemma wp_no_panic {S A} ok (m : M S A) s Q e : wp ok m s Q -> m s <> Panic e.
Proof. unfold wp. destruct (m s) as [[a s']|?|]; done. Qed.

(** ** Generic lemmas *)

(** Case split on every boolean comparison of [Z] in sight. *)
Ltac zbool :=
  repeat match goal with
  | H : context [Z.eqb ?a ?b] |- _ => destruct (Z.eqb_spec a b)
  | H : context [Z.ltb ?a ?b] |- _ => destruct (Z.ltb_spec a b)
  | H : context [Z.leb ?a ?b] |- _ => destruct (Z.leb_spec a b)
  | |- context [Z.eqb ?a ?b] => destruct (Z.eqb_spec a b)
  | |- context [Z.ltb ?a ?b] => destruct (Z.ltb_spec a b)
  | |- context [Z.leb ?a ?b] => destruct (Z.leb_spec a b)
  end.


Lemma zlen_nonneg {A} (l : list A) : 0 <= zlen l.
Proof. unfold zlen. lia. Qed.

Lemma zlen_app {A} (l k : list A) : zlen (l ++ k) = zlen l + zlen k.
Proof. unfold zlen. rewrite length_app. lia. Qed.

Lemma zlen_cons {A} (a : A) l : zlen (a :: l) = 1 + zlen l.
Proof. unfold zlen. simpl. lia. Qed.

Lemma zlen_replicate {A} n (a : A) : zlen (replicate n a) = Z.of_nat n.
Proof. unfold zlen. rewrite length_replicate. reflexivity. Qed.

Lemma filter_all {A} (P : A -> Prop) `{!forall x, Decision (P x)} l : Forall P l -> filter P l = l.
Proof. induction 1 as [|x l Hx _ IH]; [reflexivity|]. by rewrite filter_cons_True, IH. Qed.

Lemma go_index_val {A} (l : list A) i :
  0 <= i < zlen l -> exists a, go_index l i = Val a /\ l !! Z.to_nat i = Some a.
Proof.
  intros H. unfold go_index.
  destruct (Z.leb_spec 0 i); [|lia]. destruct (Z.ltb_spec i (zlen l)); [|lia].
  simpl. destruct (l !! Z.to_nat i) eqn:E; [eauto|].
  apply lookup_ge_None in E. unfold zlen in *. lia.
Qed.

Lemma go_slice_val {A} (l : list A) lo hi :
  0 <= lo <= hi -> hi <= zlen l ->
  go_slice l lo hi = Val (take (Z.to_nat (hi - lo)) (drop (Z.to_nat lo) l)).
Proof.
  intros H1 H2. unfold go_slice.
  destruct (Z.leb_spec 0 lo); [|lia]. destruct (Z.leb_spec lo hi); [|lia].
  destruct (Z.leb_spec hi (zlen l)); [|lia]. reflexivity.
Qed.

Lemma zlen_slice {A} (l : list A) lo hi :
  0 <= lo <= hi -> hi <= zlen l ->
  zlen (take (Z.to_nat (hi - lo)) (drop (Z.to_nat lo) l)) = hi - lo.
Proof. unfold zlen. intros. rewrite length_take, length_drop. lia. Qed.

Lemma zlen_splice {A} (l : list A) at_ src :
  0 <= at_ -> at_ + zlen src <= zlen l -> zlen (splice l at_ src) = zlen l.
Proof.
  unfold splice, zlen. intros. rewrite !length_app, length_take, length_drop. lia.
Qed.

(** The bytes of a spliced list: those of [src] inside the window, the old ones
    outside. *)
Lemma splice_lookup {A} (l : list A) at_ src i :
  0 <= at_ -> at_ + zlen src <= zlen l -> 0 <= i ->
  splice l at_ src !! Z.to_nat i =
  if (at_ <=? i) && (i <? at_ + zlen src) then src !! Z.to_nat (i - at_) else l !! Z.to_nat i.
Proof.
  unfold splice, zlen. intros Ha Hl Hi. destruct (Z.leb_spec at_ i); cbn [andb].
  - rewrite lookup_app_r by (rewrite length_take; lia). rewrite length_take. zbool.
    + rewrite lookup_app_l by lia. f_equal. lia.
    + rewrite lookup_app_r by lia. rewrite lookup_drop. f_equal. lia.
  - rewrite lookup_app_l by (rewrite length_take; lia). rewrite lookup_take_lt by lia. reflexivity.
Qed.

Lemma slice_lookup {A} (l : list A) lo hi i :
  0 <= lo <= hi -> 0 <= i < hi - lo ->
  take (Z.to_nat (hi - lo)) (drop (Z.to_nat lo) l) !! Z.to_nat i = l !! Z.to_nat (lo + i).
Proof.
  intros H1 H2. rewrite lookup_take_lt, lookup_drop by lia. f_equal. lia.
Qed.

(** ** Tactics *)

(** One step of a postcondition proof: monad structure only. *)
Ltac wp_step :=
  lazymatch goal with
  | |- wp _ (mret _) _ _ => apply wp_ret
  | |- wp _ (_ ≫= _) _ _ => apply wp_bind
  | |- wp _ (gets _) _ _ => apply wp_gets
  | |- wp _ (modify _) _ _ => apply wp_modify
  | |- wp _ (zoom _ _ _) _ _ => apply wp_zoom
  end; cbn beta.
