(* ===== verification/Uint256.v ===== *)
(** * The uint256 package

    [github.com/holiman/uint256] is a third-party module: the code of this
    repository only calls it. Its operations are the fields of [Uint256], an
    argument of every definition that uses them, and the documented behaviour
    the code relies on is [Uint256Spec]. A value of type [uint256.Int] is the
    number in [0, 2^256) it holds. [uint256_ref] is an executable implementation (not a global
    instance: definitions must stay parametric): it shows the specification can hold and lets examples be evaluated. *)

From S2P Require Import Prelude.
From Stdlib Require Import Zpow_facts.

Class Uint256 : Type := {
  u_Add : Z -> Z -> Z;
  u_Sub : Z -> Z -> Z;
  u_Mul : Z -> Z -> Z;
  u_Div : Z -> Z -> Z;
  u_SDiv : Z -> Z -> Z;
  u_Mod : Z -> Z -> Z;
  u_SMod : Z -> Z -> Z;
  u_Exp : Z -> Z -> Z;
  u_ExtendSign : Z -> Z -> Z;
  u_AddMod : Z -> Z -> Z -> Z;
  u_MulMod : Z -> Z -> Z -> Z;
  u_AddOverflow : Z -> Z -> Z * bool;
  u_MulOverflow : Z -> Z -> Z * bool;
  u_MulDivOverflow : Z -> Z -> Z -> Z * bool;
  u_Not : Z -> Z;
  u_And : Z -> Z -> Z;
  u_Or : Z -> Z -> Z;
  u_Xor : Z -> Z -> Z;
  u_Byte : Z -> Z -> Z;               (* receiver, index *)
  u_Lsh : Z -> Z -> Z;
  u_Rsh : Z -> Z -> Z;
  u_SRsh : Z -> Z -> Z;
  u_Lt : Z -> Z -> bool;
  u_Gt : Z -> Z -> bool;
  u_Slt : Z -> Z -> bool;
  u_Sgt : Z -> Z -> bool;
  u_Eq : Z -> Z -> bool;
  u_IsZero : Z -> bool;
  u_Sign : Z -> Z;
  u_LtUint64 : Z -> Z -> bool;
  u_GtUint64 : Z -> Z -> bool;
  u_IsUint64 : Z -> bool;
  u_Uint64 : Z -> Z;
  u_Uint64WithOverflow : Z -> Z * bool;
  u_BitLen : Z -> Z;
  u_SetBytes : bytes -> Z;
  u_Bytes20 : Z -> Z;                 (* an address *)
  u_Bytes32 : Z -> Z;                 (* a hash *)
  u_PutUint256 : Z -> bytes;          (* the 32 bytes written *)
  u_FromBig : Z -> Z * bool
}.

(** Two's complement reading of a 256-bit value. *)
Definition s256 (z : Z) : Z := if z <? 2 ^ 255 then z else z - two256.

(** Sign extension of the low [8 * (n + 1)] bits of [x]. *)
Definition sext (x n : Z) : Z :=
  if 30 <? n then x
  else let k := 8 * n + 7 in
       let low := x mod 2 ^ (k + 1) in
       (if Z.testbit x k then low - 2 ^ (k + 1) else low) mod two256.

Class Uint256Spec (U : Uint256) : Prop := {
  Add_spec x y : is_u256 x -> is_u256 y -> u_Add x y = (x + y) mod two256;
  Sub_spec x y : is_u256 x -> is_u256 y -> u_Sub x y = (x - y) mod two256;
  Mul_spec x y : is_u256 x -> is_u256 y -> u_Mul x y = (x * y) mod two256;
  Div_spec x y : is_u256 x -> is_u256 y -> u_Div x y = if y =? 0 then 0 else x / y;
  SDiv_spec x y : is_u256 x -> is_u256 y ->
    u_SDiv x y = if y =? 0 then 0 else Z.quot (s256 x) (s256 y) mod two256;
  Mod_spec x y : is_u256 x -> is_u256 y -> u_Mod x y = if y =? 0 then 0 else x mod y;
  SMod_spec x y : is_u256 x -> is_u256 y ->
    u_SMod x y = if y =? 0 then 0 else Z.rem (s256 x) (s256 y) mod two256;
  Exp_spec x y : is_u256 x -> is_u256 y -> u_Exp x y = x ^ y mod two256;
  ExtendSign_spec x n : is_u256 x -> is_u256 n -> u_ExtendSign x n = sext x n;
  AddMod_spec x y m : is_u256 x -> is_u256 y -> is_u256 m ->
    u_AddMod x y m = if m =? 0 then 0 else (x + y) mod m;
  MulMod_spec x y m : is_u256 x -> is_u256 y -> is_u256 m ->
    u_MulMod x y m = if m =? 0 then 0 else (x * y) mod m;
  AddOverflow_spec x y : is_u256 x -> is_u256 y ->
    u_AddOverflow x y = ((x + y) mod two256, two256 <=? x + y);
  MulOverflow_spec x y : is_u256 x -> is_u256 y ->
    u_MulOverflow x y = ((x * y) mod two256, two256 <=? x * y);
  MulDivOverflow_spec x y d : is_u256 x -> is_u256 y -> is_u256 d ->
    u_MulDivOverflow x y d =
      if d =? 0 then (0, false) else ((x * y / d) mod two256, two256 <=? x * y / d);
  Not_spec x : is_u256 x -> u_Not x = two256 - 1 - x;
  And_spec x y : is_u256 x -> is_u256 y -> u_And x y = Z.land x y;
  Or_spec x y : is_u256 x -> is_u256 y -> u_Or x y = Z.lor x y;
  Xor_spec x y : is_u256 x -> is_u256 y -> u_Xor x y = Z.lxor x y;
  Byte_spec x n : is_u256 x -> is_u256 n ->
    u_Byte x n = if n <? 32 then x / 2 ^ (8 * (31 - n)) mod 256 else 0;
  Lsh_spec x n : is_u256 x -> 0 <= n -> u_Lsh x n = (x * 2 ^ n) mod two256;
  Rsh_spec x n : is_u256 x -> 0 <= n -> u_Rsh x n = x / 2 ^ n;
  SRsh_spec x n : is_u256 x -> 0 <= n -> u_SRsh x n = (s256 x / 2 ^ n) mod two256;
  Lt_spec x y : is_u256 x -> is_u256 y -> u_Lt x y = (x <? y);
  Gt_spec x y : is_u256 x -> is_u256 y -> u_Gt x y = (y <? x);
  Slt_spec x y : is_u256 x -> is_u256 y -> u_Slt x y = (s256 x <? s256 y);
  Sgt_spec x y : is_u256 x -> is_u256 y -> u_Sgt x y = (s256 y <? s256 x);
  Eq_spec x y : is_u256 x -> is_u256 y -> u_Eq x y = (x =? y);
  IsZero_spec x : is_u256 x -> u_IsZero x = (x =? 0);
  Sign_spec x : is_u256 x -> u_Sign x = Z.sgn (s256 x);
  LtUint64_spec x n : is_u256 x -> is_u64 n -> u_LtUint64 x n = (x <? n);
  GtUint64_spec x n : is_u256 x -> is_u64 n -> u_GtUint64 x n = (n <? x);
  IsUint64_spec x : is_u256 x -> u_IsUint64 x = (x <? two64);
  Uint64_spec x : is_u256 x -> u_Uint64 x = x mod two64;
  Uint64WithOverflow_spec x : is_u256 x ->
    u_Uint64WithOverflow x = (x mod two64, two64 <=? x);
  BitLen_spec x : is_u256 x -> u_BitLen x = if x =? 0 then 0 else Z.log2 x + 1;
  SetBytes_spec l : (length l <= 32)%nat -> u_SetBytes l = be_to_Z l;
  Bytes20_spec x : is_u256 x -> u_Bytes20 x = x mod two160;
  Bytes32_spec x : is_u256 x -> u_Bytes32 x = x;
  PutUint256_spec x : is_u256 x -> u_PutUint256 x = Z_to_be 32 x;
  FromBig_spec x : 0 <= x -> u_FromBig x = (x mod two256, two256 <=? x)
}.

Definition uint256_ref : Uint256 := {|
  u_Add x y := (x + y) mod two256;
  u_Sub x y := (x - y) mod two256;
  u_Mul x y := (x * y) mod two256;
  u_Div x y := if y =? 0 then 0 else x / y;
  u_SDiv x y := if y =? 0 then 0 else Z.quot (s256 x) (s256 y) mod two256;
  u_Mod x y := if y =? 0 then 0 else x mod y;
  u_SMod x y := if y =? 0 then 0 else Z.rem (s256 x) (s256 y) mod two256;
  u_Exp x y := Zpow_mod x y two256;
  u_ExtendSign x n := sext x n;
  u_AddMod x y m := if m =? 0 then 0 else (x + y) mod m;
  u_MulMod x y m := if m =? 0 then 0 else (x * y) mod m;
  u_AddOverflow x y := ((x + y) mod two256, two256 <=? x + y);
  u_MulOverflow x y := ((x * y) mod two256, two256 <=? x * y);
  u_MulDivOverflow x y d :=
    if d =? 0 then (0, false) else ((x * y / d) mod two256, two256 <=? x * y / d);
  u_Not x := two256 - 1 - x;
  u_And x y := Z.land x y;
  u_Or x y := Z.lor x y;
  u_Xor x y := Z.lxor x y;
  u_Byte x n := if n <? 32 then x / 2 ^ (8 * (31 - n)) mod 256 else 0;
  u_Lsh x n := (x * 2 ^ n) mod two256;
  u_Rsh x n := x / 2 ^ n;
  u_SRsh x n := (s256 x / 2 ^ n) mod two256;
  u_Lt x y := x <? y;
  u_Gt x y := y <? x;
  u_Slt x y := s256 x <? s256 y;
  u_Sgt x y := s256 y <? s256 x;
  u_Eq x y := x =? y;
  u_IsZero x := x =? 0;
  u_Sign x := Z.sgn (s256 x);
  u_LtUint64 x n := x <? n;
  u_GtUint64 x n := n <? x;
  u_IsUint64 x := x <? two64;
  u_Uint64 x := x mod two64;
  u_Uint64WithOverflow x := (x mod two64, two64 <=? x);
  u_BitLen x := if x =? 0 then 0 else Z.log2 x + 1;
  u_SetBytes l := be_to_Z l mod two256;
  u_Bytes20 x := x mod two160;
  u_Bytes32 x := x;
  u_PutUint256 x := Z_to_be 32 x;
  u_FromBig x := (x mod two256, two256 <=? x)
|}.

Lemma be_to_Z_32 l : (length l <= 32)%nat -> is_u256 (be_to_Z l).
Proof.
  intros H. split; [apply be_to_Z_nonneg|].
  eapply Z.lt_le_trans; [apply be_to_Z_bound|].
  change two256 with (256 ^ 32). apply Z.pow_le_mono_r; lia.
Qed.

Lemma uint256_ref_spec : Uint256Spec uint256_ref.
Proof.
  split; intros; try reflexivity.
  - simpl u_Exp. apply Zpow_mod_correct. unfold two256. lia.
  - simpl u_SetBytes. apply Z.mod_small. apply be_to_Z_32. assumption.
Qed.

(** ** Consequences: results stay in range *)

Section Range.
Context {U : Uint256} {US : Uint256Spec U}.

Lemma mod256_range z : is_u256 (z mod two256).
Proof. apply Z.mod_pos_bound. reflexivity. Qed.

Lemma u64_u256 z : is_u64 z -> is_u256 z.
Proof. unfold is_u64, is_u256, two64, two256. lia. Qed.

Lemma is_u256_mono z w : is_u256 w -> 0 <= z <= w -> is_u256 z.
Proof. unfold is_u256. lia. Qed.

Lemma is_u256_bits z : 0 <= z -> (forall i, 256 <= i -> Z.testbit z i = false) -> is_u256 z.
Proof.
  intros Hz H. split; [assumption|].
  destruct (Z.eq_dec z 0) as [->|Hnz]; [reflexivity|].
  unfold two256. apply Z.log2_lt_pow2; [lia|].
  destruct (Z.lt_ge_cases (Z.log2 z) 256); [assumption|].
  specialize (H _ H0). rewrite Z.bit_log2 in H by lia. discriminate.
Qed.

Lemma u256_high_bits z i : is_u256 z -> 256 <= i -> Z.testbit z i = false.
Proof.
  intros [H0 H1] Hi. destruct (Z.eq_dec z 0) as [->|Hz]; [apply Z.bits_0|].
  apply Z.bits_above_log2; [assumption|].
  eapply Z.lt_le_trans; [|exact Hi]. apply Z.log2_lt_pow2; [lia|exact H1].
Qed.

Lemma land_range x y : is_u256 x -> is_u256 y -> is_u256 (Z.land x y).
Proof.
  intros Hx Hy. apply is_u256_bits; [apply Z.land_nonneg; left; apply Hx|].
  intros i Hi. rewrite Z.land_spec, (u256_high_bits x) by assumption. reflexivity.
Qed.

Lemma lor_range x y : is_u256 x -> is_u256 y -> is_u256 (Z.lor x y).
Proof.
  intros Hx Hy. apply is_u256_bits; [apply Z.lor_nonneg; split; [apply Hx|apply Hy]|].
  intros i Hi. rewrite Z.lor_spec, !u256_high_bits by assumption. reflexivity.
Qed.

Lemma lxor_range x y : is_u256 x -> is_u256 y -> is_u256 (Z.lxor x y).
Proof.
  intros Hx Hy.
  apply is_u256_bits; [apply Z.lxor_nonneg; split; intros; [apply Hy|apply Hx]|].
  intros i Hi. rewrite Z.lxor_spec, !u256_high_bits by assumption. reflexivity.
Qed.

Lemma ifz_range (b : bool) x : is_u256 x -> is_u256 (if b then 0 else x).
Proof. destruct b; [intros _; split; reflexivity|auto]. Qed.

Lemma Add_range x y : is_u256 x -> is_u256 y -> is_u256 (u_Add x y).
Proof. intros. rewrite Add_spec by assumption. apply mod256_range. Qed.
Lemma Sub_range x y : is_u256 x -> is_u256 y -> is_u256 (u_Sub x y).
Proof. intros. rewrite Sub_spec by assumption. apply mod256_range. Qed.
Lemma Mul_range x y : is_u256 x -> is_u256 y -> is_u256 (u_Mul x y).
Proof. intros. rewrite Mul_spec by assumption. apply mod256_range. Qed.

Lemma mod_range_u256 a m : is_u256 m -> m <> 0 -> is_u256 (a mod m).
Proof.
  intros [H0 H1] Hm. pose proof (Z.mod_pos_bound a m ltac:(lia)).
  unfold is_u256. lia.
Qed.

Lemma div_range_u256 a m : is_u256 a -> 0 < m -> is_u256 (a / m).
Proof.
  intros [H0 H1] Hm. split; [apply Z.div_pos; lia|].
  eapply Z.le_lt_trans; [|exact H1]. apply Z.div_le_upper_bound; [lia|]. nia.
Qed.

Lemma Div_range x y : is_u256 x -> is_u256 y -> is_u256 (u_Div x y).
Proof.
  intros Hx Hy. rewrite Div_spec by assumption. zbool; [done|].
  apply div_range_u256; [assumption|]. destruct Hy. lia.
Qed.
Lemma SDiv_range x y : is_u256 x -> is_u256 y -> is_u256 (u_SDiv x y).
Proof. intros. rewrite SDiv_spec by assumption. apply ifz_range, mod256_range. Qed.
Lemma Mod_range x y : is_u256 x -> is_u256 y -> is_u256 (u_Mod x y).
Proof. intros. rewrite Mod_spec by assumption. zbool; [done|]. by apply mod_range_u256. Qed.
Lemma SMod_range x y : is_u256 x -> is_u256 y -> is_u256 (u_SMod x y).
Proof. intros. rewrite SMod_spec by assumption. apply ifz_range, mod256_range. Qed.
Lemma Exp_range x y : is_u256 x -> is_u256 y -> is_u256 (u_Exp x y).
Proof. intros. rewrite Exp_spec by assumption. apply mod256_range. Qed.
Lemma ExtendSign_range x y : is_u256 x -> is_u256 y -> is_u256 (u_ExtendSign x y).
Proof.
  intros. rewrite ExtendSign_spec by assumption. unfold sext.
  destruct (30 <? y); [assumption|apply mod256_range].
Qed.
Lemma AddMod_range x y m : is_u256 x -> is_u256 y -> is_u256 m -> is_u256 (u_AddMod x y m).
Proof. intros. rewrite AddMod_spec by assumption. zbool; [done|]. by apply mod_range_u256. Qed.
Lemma MulMod_range x y m : is_u256 x -> is_u256 y -> is_u256 m -> is_u256 (u_MulMod x y m).
Proof. intros. rewrite MulMod_spec by assumption. zbool; [done|]. by apply mod_range_u256. Qed.
Lemma Not_range x : is_u256 x -> is_u256 (u_Not x).
Proof. intros H. rewrite Not_spec by assumption. unfold is_u256 in *. lia. Qed.
Lemma And_range x y : is_u256 x -> is_u256 y -> is_u256 (u_And x y).
Proof. intros. rewrite And_spec by assumption. by apply land_range. Qed.
Lemma Or_range x y : is_u256 x -> is_u256 y -> is_u256 (u_Or x y).
Proof. intros. rewrite Or_spec by assumption. by apply lor_range. Qed.
Lemma Xor_range x y : is_u256 x -> is_u256 y -> is_u256 (u_Xor x y).
Proof. intros. rewrite Xor_spec by assumption. by apply lxor_range. Qed.
Lemma Byte_range x n : is_u256 x -> is_u256 n -> is_u256 (u_Byte x n).
Proof.
  intros. rewrite Byte_spec by assumption. zbool; [|done].
  apply mod_range_u256; [done|lia].
Qed.
Lemma Lsh_range x n : is_u256 x -> 0 <= n -> is_u256 (u_Lsh x n).
Proof. intros. rewrite Lsh_spec by assumption. apply mod256_range. Qed.
Lemma Rsh_range x n : is_u256 x -> 0 <= n -> is_u256 (u_Rsh x n).
Proof.
  intros. rewrite Rsh_spec by assumption.
  apply div_range_u256; [assumption|]. apply Z.pow_pos_nonneg; lia.
Qed.
Lemma SRsh_range x n : is_u256 x -> 0 <= n -> is_u256 (u_SRsh x n).
Proof. intros. rewrite SRsh_spec by assumption. apply mod256_range. Qed.
Lemma SetBytes_range l : (length l <= 32)%nat -> is_u256 (u_SetBytes l).
Proof. intros. rewrite SetBytes_spec by assumption. by apply be_to_Z_32. Qed.
Lemma Uint64_range x : is_u256 x -> is_u64 (u_Uint64 x).
Proof. intros. rewrite Uint64_spec by assumption. apply u64_range. Qed.
Lemma BitLen_range x : is_u256 x -> 0 <= u_BitLen x <= 256.
Proof.
  intros H. rewrite BitLen_spec by assumption. zbool; [lia|].
  pose proof (Z.log2_nonneg x).
  assert (Z.log2 x < 256); [|lia].
  apply Z.log2_lt_pow2; destruct H; [lia|]. exact H1.
Qed.
End Range.

#[export] Hint Resolve mod256_range Add_range Sub_range Mul_range Div_range SDiv_range
  Mod_range SMod_range Exp_range ExtendSign_range AddMod_range MulMod_range Not_range
  And_range Or_range Xor_range Byte_range Lsh_range Rsh_range SRsh_range SetBytes_range
  Uint64_range u64_u256 : machine.
