(* ===== verification/Params.v ===== *)
(** * Protocol parameters and opcodes

    The gas and size constants of [execution/chain/params/protocol.go], the gas
    steps of [core/vm/gas.go] and the opcode bytes of [core/vm/opcodes.go],
    under the source's names. *)

From S2P Require Import Prelude.

Module params.
Definition GasLimitBoundDivisor : Z := 1024.
Definition MinBlockGasLimit : Z := 5000.
Definition MaxTxnGasLimit : Z := 16777216.
Definition TxAAGas : Z := 15000.
Definition BaseFeeChangeDenominator : Z := 8.
Definition BaseFeeChangeDenominatorPostDelhi : Z := 16.
Definition BaseFeeChangeDenominatorPostBhilai : Z := 64.
Definition ElasticityMultiplier : Z := 2.
Definition InitialBaseFee : Z := 1000000000.
Definition GasPerBlob : Z := 131072.
Definition BlobBaseCost : Z := 8192.
Definition PerEmptyAccountCost : Z := 25000.
Definition PerAuthBaseCost : Z := 12500.
Definition CallValueTransferGas : Z := 9000.
Definition CallNewAccountGas : Z := 25000.
Definition TxGas : Z := 21000.
Definition TxGasContractCreation : Z := 53000.
Definition TxDataZeroGas : Z := 4.
Definition QuadCoeffDiv : Z := 512.
Definition LogDataGas : Z := 8.
Definition CallStipend : Z := 2300.
Definition Keccak256Gas : Z := 30.
Definition Keccak256WordGas : Z := 6.
Definition InitCodeWordGas : Z := 2.
Definition SstoreSetGas : Z := 20000.
Definition SstoreResetGas : Z := 5000.
Definition SstoreClearGas : Z := 5000.
Definition SstoreRefundGas : Z := 15000.
Definition NetSstoreNoopGas : Z := 200.
Definition NetSstoreInitGas : Z := 20000.
Definition NetSstoreCleanGas : Z := 5000.
Definition NetSstoreDirtyGas : Z := 200.
Definition NetSstoreClearRefund : Z := 15000.
Definition NetSstoreResetRefund : Z := 4800.
Definition NetSstoreResetClearRefund : Z := 19800.
Definition SstoreSentryGasEIP2200 : Z := 2300.
Definition SstoreSetGasEIP2200 : Z := 20000.
Definition SstoreResetGasEIP2200 : Z := 5000.
Definition SstoreClearsScheduleRefundEIP2200 : Z := 15000.
Definition ColdAccountAccessCostEIP2929 : Z := 2600.
Definition ColdSloadCostEIP2929 : Z := 2100.
Definition WarmStorageReadCostEIP2929 : Z := 100.
Definition JumpdestGas : Z := 1.
Definition CreateDataGas : Z := 200.
Definition CallCreateDepth : Z := 1024.
Definition ExpGas : Z := 10.
Definition LogGas : Z := 375.
Definition CopyGas : Z := 3.
Definition StackLimit : Z := 1024.
Definition LogTopicGas : Z := 375.
Definition CreateGas : Z := 32000.
Definition Create2Gas : Z := 32000.
Definition SelfdestructRefundGas : Z := 24000.
Definition MemoryGas : Z := 3.
Definition TxDataNonZeroGasFrontier : Z := 68.
Definition TxDataNonZeroGasEIP2028 : Z := 16.
Definition TxAccessListAddressGas : Z := 2400.
Definition TxAccessListStorageKeyGas : Z := 1900.
Definition TxTotalCostFloorPerToken : Z := 10.
Definition CallGasFrontier : Z := 40.
Definition CallGasEIP150 : Z := 700.
Definition BalanceGasFrontier : Z := 20.
Definition BalanceGasEIP150 : Z := 400.
Definition BalanceGasEIP1884 : Z := 700.
Definition ExtcodeSizeGasFrontier : Z := 20.
Definition ExtcodeSizeGasEIP150 : Z := 700.
Definition SloadGasFrontier : Z := 50.
Definition SloadGasEIP150 : Z := 200.
Definition SloadGasEIP1884 : Z := 800.
Definition SloadGasEIP2200 : Z := 800.
Definition ExtcodeHashGasConstantinople : Z := 400.
Definition ExtcodeHashGasEIP1884 : Z := 700.
Definition SelfdestructGasEIP150 : Z := 5000.
Definition ExpByteFrontier : Z := 10.
Definition ExpByteEIP160 : Z := 50.
Definition ExtcodeCopyBaseFrontier : Z := 20.
Definition ExtcodeCopyBaseEIP150 : Z := 700.
Definition CreateBySelfdestructGas : Z := 25000.
Definition MaxCodeSize : Z := 24576.
Definition MaxCodeSizePostAhmedabad : Z := 32768.
Definition IdentityBaseGas : Z := 15.
Definition IdentityPerWordGas : Z := 3.
Definition RefundQuotient : Z := 2.
Definition RefundQuotientEIP3529 : Z := 5.
Definition BlockHashOldWindow : Z := 256.
Definition SstoreClearsScheduleRefundEIP3529 : Z :=
  SstoreResetGasEIP2200 - ColdSloadCostEIP2929 + TxAccessListStorageKeyGas.
Definition MaxInitCodeSize : Z := 2 * MaxCodeSize.
Definition DelegatedDesignationPrefix : bytes := [xef; x01; x00].
Definition MaxBlockSize : Z := 10485760.
Definition MaxBlockSizeSafetyMargin : Z := 2097152.
Definition MaxRlpBlockSize : Z := MaxBlockSize - MaxBlockSizeSafetyMargin.
Definition BeaconRootsAddress : Z := 0x000F3df6D732807Ef1319fB7B8bB8522d0Beac02.
Definition HistoryStorageAddress : Z := 0x0000F90827F1C53a10cb7A02335B175320002935.
Definition WithdrawalRequestAddress : Z := 0x00000961Ef480Eb55e80D19ad83579A64c007002.
Definition ConsolidationRequestAddress : Z := 0x0000BBdDc7CE488642fb579F8B00f3a590007251.
Definition SetCodeMagicPrefix : Z := 0x05.
Definition EcrecoverGas : Z := 3000.
Definition Sha256BaseGas : Z := 60.
Definition Sha256PerWordGas : Z := 12.
Definition Ripemd160BaseGas : Z := 600.
Definition Ripemd160PerWordGas : Z := 120.
Definition Bn254AddGasByzantium : Z := 500.
Definition Bn254AddGasIstanbul : Z := 150.
Definition Bn254ScalarMulGasByzantium : Z := 40000.
Definition Bn254ScalarMulGasIstanbul : Z := 6000.
Definition Bn254PairingBaseGasByzantium : Z := 100000.
Definition Bn254PairingBaseGasIstanbul : Z := 45000.
Definition Bn254PairingPerPointGasByzantium : Z := 80000.
Definition Bn254PairingPerPointGasIstanbul : Z := 34000.
Definition Bls12381G1AddGas : Z := 375.
Definition Bls12381G1MulGas : Z := 12000.
Definition Bls12381G2AddGas : Z := 600.
Definition Bls12381G2MulGas : Z := 22500.
Definition Bls12381PairingBaseGas : Z := 37700.
Definition Bls12381PairingPerPairGas : Z := 32600.
Definition Bls12381MapFpToG1Gas : Z := 5500.
Definition Bls12381MapFp2ToG2Gas : Z := 23800.
Definition PointEvaluationGas : Z := 50000.
Definition P256VerifyGas : Z := 3450.
Definition P256VerifyGasEIP7951 : Z := 6900.
Definition Bls12381MSMDiscountTableG1 : list Z :=
  [1000; 949; 848; 797; 764; 750; 738; 728; 719; 712; 705; 698; 692; 687; 682; 677; 673; 669; 665; 661;
   658; 654; 651; 648; 645; 642; 640; 637; 635; 632; 630; 627; 625; 623; 621; 619; 617; 615; 613; 611;
   609; 608; 606; 604; 603; 601; 599; 598; 596; 595; 593; 592; 591; 589; 588; 586; 585; 584; 582; 581;
   580; 579; 577; 576; 575; 574; 573; 572; 570; 569; 568; 567; 566; 565; 564; 563; 562; 561; 560; 559;
   558; 557; 556; 555; 554; 553; 552; 551; 550; 549; 548; 547; 547; 546; 545; 544; 543; 542; 541; 540;
   540; 539; 538; 537; 536; 536; 535; 534; 533; 532; 532; 531; 530; 529; 528; 528; 527; 526; 525; 525;
   524; 523; 522; 522; 521; 520; 520; 519].
Definition Bls12381MSMDiscountTableG2 : list Z :=
  [1000; 1000; 923; 884; 855; 832; 812; 796; 782; 770; 759; 749; 740; 732; 724; 717; 711; 704; 699;
   693; 688; 683; 679; 674; 670; 666; 663; 659; 655; 652; 649; 646; 643; 640; 637; 634; 632; 629; 627;
   624; 622; 620; 618; 615; 613; 611; 609; 607; 606; 604; 602; 600; 598; 597; 595; 593; 592; 590; 589;
   587; 586; 584; 583; 582; 580; 579; 578; 576; 575; 574; 573; 571; 570; 569; 568; 567; 566; 565; 563;
   562; 561; 560; 559; 558; 557; 556; 555; 554; 553; 552; 552; 551; 550; 549; 548; 547; 546; 545; 545;
   544; 543; 542; 541; 541; 540; 539; 538; 537; 537; 536; 535; 535; 534; 533; 532; 532; 531; 530; 530;
   529; 528; 528; 527; 526; 526; 525; 524; 524].
End params.

(** The constants, for arithmetic. *)
Create HintDb params.
#[export] Hint Unfold params.CallValueTransferGas params.CallNewAccountGas params.TxGas
  params.TxGasContractCreation params.TxDataZeroGas params.QuadCoeffDiv params.LogDataGas
  params.CallStipend params.Keccak256Gas params.Keccak256WordGas params.InitCodeWordGas
  params.SstoreSetGas params.SstoreResetGas params.SstoreClearGas params.SstoreRefundGas
  params.NetSstoreNoopGas params.NetSstoreInitGas params.NetSstoreCleanGas
  params.NetSstoreDirtyGas params.NetSstoreClearRefund params.NetSstoreResetRefund
  params.NetSstoreResetClearRefund params.SstoreSentryGasEIP2200 params.SstoreSetGasEIP2200
  params.SstoreResetGasEIP2200 params.SstoreClearsScheduleRefundEIP2200
  params.ColdAccountAccessCostEIP2929 params.ColdSloadCostEIP2929
  params.WarmStorageReadCostEIP2929 params.JumpdestGas params.CreateDataGas
  params.CallCreateDepth params.ExpGas params.LogGas params.CopyGas params.StackLimit
  params.LogTopicGas params.CreateGas params.Create2Gas params.SelfdestructRefundGas
  params.MemoryGas params.TxDataNonZeroGasFrontier params.TxDataNonZeroGasEIP2028
  params.TxAccessListAddressGas params.TxAccessListStorageKeyGas
  params.TxTotalCostFloorPerToken params.CallGasFrontier params.CallGasEIP150
  params.BalanceGasFrontier params.BalanceGasEIP150 params.BalanceGasEIP1884
  params.ExtcodeSizeGasFrontier params.ExtcodeSizeGasEIP150 params.SloadGasFrontier
  params.SloadGasEIP150 params.SloadGasEIP1884 params.SloadGasEIP2200
  params.ExtcodeHashGasConstantinople params.ExtcodeHashGasEIP1884
  params.SelfdestructGasEIP150 params.ExpByteFrontier params.ExpByteEIP160
  params.ExtcodeCopyBaseFrontier params.ExtcodeCopyBaseEIP150
  params.CreateBySelfdestructGas params.MaxCodeSize params.MaxCodeSizePostAhmedabad
  params.IdentityBaseGas params.IdentityPerWordGas params.RefundQuotient
  params.RefundQuotientEIP3529 params.BlockHashOldWindow
  params.SstoreClearsScheduleRefundEIP3529 params.MaxInitCodeSize : params.


(** Gas steps, [core/vm/gas.go]. *)
Definition GasQuickStep : Z := 2.
Definition GasFastestStep : Z := 3.
Definition GasFastStep : Z := 5.
Definition GasMidStep : Z := 8.
Definition GasSlowStep : Z := 10.
Definition GasExtStep : Z := 20.
#[export] Hint Unfold GasQuickStep GasFastestStep GasFastStep GasMidStep GasSlowStep GasExtStep : params.

(** Opcode bytes. *)
Module OpCode.
Definition STOP : Z := 0.
Definition ADD : Z := 1.
Definition MUL : Z := 2.
Definition SUB : Z := 3.
Definition DIV : Z := 4.
Definition SDIV : Z := 5.
Definition MOD : Z := 6.
Definition SMOD : Z := 7.
Definition ADDMOD : Z := 8.
Definition MULMOD : Z := 9.
Definition EXP : Z := 10.
Definition SIGNEXTEND : Z := 11.
Definition LT : Z := 16.
Definition GT : Z := 17.
Definition SLT : Z := 18.
Definition SGT : Z := 19.
Definition EQ : Z := 20.
Definition ISZERO : Z := 21.
Definition AND : Z := 22.
Definition OR : Z := 23.
Definition XOR : Z := 24.
Definition NOT : Z := 25.
Definition BYTE : Z := 26.
Definition SHL : Z := 27.
Definition SHR : Z := 28.
Definition SAR : Z := 29.
Definition CLZ : Z := 30.
Definition KECCAK256 : Z := 32.
Definition ADDRESS : Z := 48.
Definition BALANCE : Z := 49.
Definition ORIGIN : Z := 50.
Definition CALLER : Z := 51.
Definition CALLVALUE : Z := 52.
Definition CALLDATALOAD : Z := 53.
Definition CALLDATASIZE : Z := 54.
Definition CALLDATACOPY : Z := 55.
Definition CODESIZE : Z := 56.
Definition CODECOPY : Z := 57.
Definition GASPRICE : Z := 58.
Definition EXTCODESIZE : Z := 59.
Definition EXTCODECOPY : Z := 60.
Definition RETURNDATASIZE : Z := 61.
Definition RETURNDATACOPY : Z := 62.
Definition EXTCODEHASH : Z := 63.
Definition BLOCKHASH : Z := 64.
Definition COINBASE : Z := 65.
Definition TIMESTAMP : Z := 66.
Definition NUMBER : Z := 67.
Definition DIFFICULTY : Z := 68.
Definition GASLIMIT : Z := 69.
Definition CHAINID : Z := 70.
Definition SELFBALANCE : Z := 71.
Definition BASEFEE : Z := 72.
Definition BLOBHASH : Z := 73.
Definition BLOBBASEFEE : Z := 74.
Definition POP : Z := 80.
Definition MLOAD : Z := 81.
Definition MSTORE : Z := 82.
Definition MSTORE8 : Z := 83.
Definition SLOAD : Z := 84.
Definition SSTORE : Z := 85.
Definition JUMP : Z := 86.
Definition JUMPI : Z := 87.
Definition PC : Z := 88.
Definition MSIZE : Z := 89.
Definition GAS : Z := 90.
Definition JUMPDEST : Z := 91.
Definition TLOAD : Z := 92.
Definition TSTORE : Z := 93.
Definition MCOPY : Z := 94.
Definition PUSH0 : Z := 95.
Definition PUSH1 : Z := 96.
Definition PUSH2 : Z := 97.
Definition PUSH3 : Z := 98.
Definition PUSH4 : Z := 99.
Definition PUSH5 : Z := 100.
Definition PUSH6 : Z := 101.
Definition PUSH7 : Z := 102.
Definition PUSH8 : Z := 103.
Definition PUSH9 : Z := 104.
Definition PUSH10 : Z := 105.
Definition PUSH11 : Z := 106.
Definition PUSH12 : Z := 107.
Definition PUSH13 : Z := 108.
Definition PUSH14 : Z := 109.
Definition PUSH15 : Z := 110.
Definition PUSH16 : Z := 111.
Definition PUSH17 : Z := 112.
Definition PUSH18 : Z := 113.
Definition PUSH19 : Z := 114.
Definition PUSH20 : Z := 115.
Definition PUSH21 : Z := 116.
Definition PUSH22 : Z := 117.
Definition PUSH23 : Z := 118.
Definition PUSH24 : Z := 119.
Definition PUSH25 : Z := 120.
Definition PUSH26 : Z := 121.
Definition PUSH27 : Z := 122.
Definition PUSH28 : Z := 123.
Definition PUSH29 : Z := 124.
Definition PUSH30 : Z := 125.
Definition PUSH31 : Z := 126.
Definition PUSH32 : Z := 127.
Definition DUP1 : Z := 128.
Definition DUP2 : Z := 129.
Definition DUP3 : Z := 130.
Definition DUP4 : Z := 131.
Definition DUP5 : Z := 132.
Definition DUP6 : Z := 133.
Definition DUP7 : Z := 134.
Definition DUP8 : Z := 135.
Definition DUP9 : Z := 136.
Definition DUP10 : Z := 137.
Definition DUP11 : Z := 138.
Definition DUP12 : Z := 139.
Definition DUP13 : Z := 140.
Definition DUP14 : Z := 141.
Definition DUP15 : Z := 142.
Definition DUP16 : Z := 143.
Definition SWAP1 : Z := 144.
Definition SWAP2 : Z := 145.
Definition SWAP3 : Z := 146.
Definition SWAP4 : Z := 147.
Definition SWAP5 : Z := 148.
Definition SWAP6 : Z := 149.
Definition SWAP7 : Z := 150.
Definition SWAP8 : Z := 151.
Definition SWAP9 : Z := 152.
Definition SWAP10 : Z := 153.
Definition SWAP11 : Z := 154.
Definition SWAP12 : Z := 155.
Definition SWAP13 : Z := 156.
Definition SWAP14 : Z := 157.
Definition SWAP15 : Z := 158.
Definition SWAP16 : Z := 159.
Definition LOG0 : Z := 160.
Definition LOG1 : Z := 161.
Definition LOG2 : Z := 162.
Definition LOG3 : Z := 163.
Definition LOG4 : Z := 164.
Definition CREATE : Z := 240.
Definition CALL : Z := 241.
Definition CALLCODE : Z := 242.
Definition RETURN : Z := 243.
Definition DELEGATECALL : Z := 244.
Definition CREATE2 : Z := 245.
Definition STATICCALL : Z := 250.
Definition REVERT : Z := 253.
Definition INVALID : Z := 254.
Definition SELFDESTRUCT : Z := 255.

Definition IsPushWithImmediateArgs (op : Z) : bool := (PUSH1 <=? op) && (op <=? PUSH32).
End OpCode.
