(* ===== verification/Errors.v ===== *)
(** * VM errors

    The error values of [core/vm/errors.go] and the numeric codes they are
    reported with. Go errors are values: a function that fails returns one, and
    callers compare with [==] (here: decidable equality on the sentinels) or with
    [errors.Is], which walks the chain of wrapped errors. *)

From S2P Require Import Prelude.

Inductive Error : Type :=
| ErrInvalidSubroutineEntry
| ErrOutOfGas
| ErrCodeStoreOutOfGas
| ErrDepth
| ErrInsufficientBalance
| ErrContractAddressCollision
| ErrExecutionReverted
| ErrMaxCodeSizeExceeded
| ErrMaxInitCodeSizeExceeded
| ErrInvalidJump
| ErrWriteProtection
| ErrReturnDataOutOfBounds
| ErrGasUintOverflow
| ErrInvalidRetsub
| ErrReturnStackExceeded
| ErrInvalidCode
| ErrNonceUintOverflow
| errStopToken
| ErrIntraBlockStateFailed
| ErrStackUnderflow (stackLen required : Z)
| ErrStackOverflow (stackLen limit : Z)
| ErrInvalidOpCode (opcode : Z)
(* errors.New of a text, and the three fmt.Errorf forms the code uses *)
| NewError (msg : string)
| ErrorfW (w : Error) (detail : string)      (* "%w: ..." *)
| ErrorfWV (w v : Error)                     (* "%w: %v": only w is wrapped *)
| ErrorfWW (w1 w2 : Error).                  (* "%w: %w": both are wrapped *)

#[export] Instance Error_eq_dec : EqDecision Error.
Proof. solve_decision. Defined.

Definition error_eqb (a b : Error) : bool := bool_decide (a = b).

(** [err == e] for an [error] that may be nil. *)
Definition err_is (err : option Error) (e : Error) : bool := bool_decide (err = Some e).

(** [errors.Is(err, target)] for a sentinel target: the error itself or one it
    wraps. *)
Fixpoint errors_Is (err target : Error) : bool :=
  error_eqb err target ||
  match err with
  | ErrorfW w _ => errors_Is w target
  | ErrorfWV w _ => errors_Is w target
  | ErrorfWW w1 w2 => errors_Is w1 target || errors_Is w2 target
  | _ => false
  end.

(** [errors.As] for the three dynamic error types. *)
Fixpoint errors_As (p : Error -> bool) (err : Error) : bool :=
  p err ||
  match err with
  | ErrorfW w _ => errors_As p w
  | ErrorfWV w _ => errors_As p w
  | ErrorfWW w1 w2 => errors_As p w1 || errors_As p w2
  | _ => false
  end.

Definition isStackUnderflow (e : Error) : bool :=
  match e with ErrStackUnderflow _ _ => true | _ => false end.
Definition isStackOverflow (e : Error) : bool :=
  match e with ErrStackOverflow _ _ => true | _ => false end.
Definition isInvalidOpCode (e : Error) : bool :=
  match e with ErrInvalidOpCode _ => true | _ => false end.

Definition VMErrorCodeOutOfGas : Z := 1.
Definition VMErrorCodeCodeStoreOutOfGas : Z := 2.
Definition VMErrorCodeDepth : Z := 3.
Definition VMErrorCodeInsufficientBalance : Z := 4.
Definition VMErrorCodeContractAddressCollision : Z := 5.
Definition VMErrorCodeExecutionReverted : Z := 6.
Definition VMErrorCodeMaxInitCodeSizeExceeded : Z := 7.
Definition VMErrorCodeMaxCodeSizeExceeded : Z := 8.
Definition VMErrorCodeInvalidJump : Z := 9.
Definition VMErrorCodeWriteProtection : Z := 10.
Definition VMErrorCodeReturnDataOutOfBounds : Z := 11.
Definition VMErrorCodeGasUintOverflow : Z := 12.
Definition VMErrorCodeInvalidCode : Z := 13.
Definition VMErrorCodeNonceUintOverflow : Z := 14.
Definition VMErrorCodeStackUnderflow : Z := 15.
Definition VMErrorCodeStackOverflow : Z := 16.
Definition VMErrorCodeInvalidOpCode : Z := 17.
Definition VMErrorInvalidSubroutineEntry : Z := 18.
Definition VMErrorInvalidRetsub : Z := 19.
Definition VMErrorReturnStackExceeded : Z := 20.
Definition VMErrorCodeUnknown : Z := 9223372036854775807 - 1.

(** The cases of the switch, in its order. *)
Definition vmErrorCases : list (Error * Z) := [
  (ErrOutOfGas, VMErrorCodeOutOfGas);
  (ErrCodeStoreOutOfGas, VMErrorCodeCodeStoreOutOfGas);
  (ErrDepth, VMErrorCodeDepth);
  (ErrInsufficientBalance, VMErrorCodeInsufficientBalance);
  (ErrContractAddressCollision, VMErrorCodeContractAddressCollision);
  (ErrExecutionReverted, VMErrorCodeExecutionReverted);
  (ErrMaxCodeSizeExceeded, VMErrorCodeMaxCodeSizeExceeded);
  (ErrInvalidJump, VMErrorCodeInvalidJump);
  (ErrWriteProtection, VMErrorCodeWriteProtection);
  (ErrReturnDataOutOfBounds, VMErrorCodeReturnDataOutOfBounds);
  (ErrGasUintOverflow, VMErrorCodeGasUintOverflow);
  (ErrInvalidCode, VMErrorCodeInvalidCode);
  (ErrNonceUintOverflow, VMErrorCodeNonceUintOverflow);
  (ErrInvalidSubroutineEntry, VMErrorInvalidSubroutineEntry);
  (ErrInvalidRetsub, VMErrorInvalidRetsub);
  (ErrReturnStackExceeded, VMErrorReturnStackExceeded)].

Fixpoint switchIs (cases : list (Error * Z)) (default : Z) (err : Error) : Z :=
  match cases with
  | [] => default
  | (target, code) :: rest => if errors_Is err target then code else switchIs rest default err
  end.

Definition vmErrorCodeFromErr (err : Error) : Z :=
  switchIs vmErrorCases
    (if errors_As isStackUnderflow err then VMErrorCodeStackUnderflow
     else if errors_As isStackOverflow err then VMErrorCodeStackOverflow
     else if errors_As isInvalidOpCode err then VMErrorCodeInvalidOpCode
     else VMErrorCodeUnknown) err.

(** [VMErrorFromErr]: nil stays nil, any other error is wrapped with its code. *)
Definition VMErrorFromErr (err : option Error) : option (Error * Z) :=
  match err with
  | None => None
  | Some e => Some (ErrorfW e "", vmErrorCodeFromErr e)
  end.

(** ** Lemmas *)

(** Wrapping changes neither what [errors.Is] finds among the cases of the switch nor
    what [errors.As] finds. *)
Lemma switchIs_wrap cases d err v :
  Forall (fun c => c.1 <> ErrorfWV err v) cases ->
  switchIs cases d (ErrorfWV err v) = switchIs cases d err.
Proof.
  induction cases as [|[t c] cases IH]; intros H; simpl; [reflexivity|].
  inversion_clear H as [|? ? Ht Hrest]. simpl in Ht.
  unfold error_eqb at 1. rewrite bool_decide_false by congruence. simpl.
  rewrite IH by assumption. reflexivity.
Qed.

Lemma switchIs_wrapW cases d err v :
  Forall (fun c => c.1 <> ErrorfW err v) cases ->
  switchIs cases d (ErrorfW err v) = switchIs cases d err.
Proof.
  induction cases as [|[t c] cases IH]; intros H; simpl; [reflexivity|].
  inversion_clear H as [|? ? Ht Hrest]. simpl in Ht.
  unfold error_eqb at 1. rewrite bool_decide_false by congruence. simpl.
  rewrite IH by assumption. reflexivity.
Qed.

(** ** Properties *)

(** Wrapping an error keeps its code: a failure wrapped with further detail, by
    "%w: %v" (as [Run] wraps the gas functions' errors) or "%w: ...", is reported
    with the code of what it wraps, and [VMErrorFromErr] is idempotent on codes; every
    sentinel the switch lists has its own code. *)
Theorem vmErrorCode_wrapping err v detail :
  vmErrorCodeFromErr (ErrorfWV err v) = vmErrorCodeFromErr err /\
  vmErrorCodeFromErr (ErrorfW err detail) = vmErrorCodeFromErr err /\
  (forall e c, VMErrorFromErr (Some err) = Some (e, c) -> vmErrorCodeFromErr e = c) /\
  Forall (fun c => vmErrorCodeFromErr c.1 = c.2) vmErrorCases /\ NoDup (vmErrorCases.*2).
Proof.
  assert (HW : forall d, vmErrorCodeFromErr (ErrorfW err d) = vmErrorCodeFromErr err).
  { intros d. unfold vmErrorCodeFromErr. rewrite switchIs_wrapW; [reflexivity|].
    repeat constructor; discriminate. }
  split; [|split; [apply HW|split; [|split]]].
  - unfold vmErrorCodeFromErr. rewrite switchIs_wrap; [reflexivity|]. repeat constructor; discriminate.
  - intros e c [= <- <-]. apply HW.
  - repeat constructor.
  - apply (bool_decide_unpack _). vm_compute. exact I.
Qed.

(** The error of an init code over the size limit is reported as unknown although
    a code is reserved for it: the switch has no case for it. *)
Theorem init_code_error_unknown :
  vmErrorCodeFromErr ErrMaxInitCodeSizeExceeded = VMErrorCodeUnknown /\
  VMErrorCodeUnknown <> VMErrorCodeMaxInitCodeSizeExceeded /\
  VMErrorCodeMaxInitCodeSizeExceeded ∉ (vmErrorCases.*2).
Proof.
  split; [reflexivity|]. split; [discriminate|]. apply (bool_decide_unpack _). vm_compute. exact I.
Qed.
