(* ===== verification/Common.v ===== *)
(** * Shared helpers of the virtual machine

    Overflow-checked arithmetic ([erigon-lib/common/math]), padding
    ([erigon-lib/common/bytes.go]) and the memory-size and data-window helpers of
    [core/vm/common.go]. *)

From S2P Require Import Prelude Uint256.

(** ** [erigon-lib/common/math/integer.go] *)

Definition SafeMul (x y : Z) : Z * bool := (u64 (x * y), negb (x * y / two64 =? 0)).
Definition SafeAdd (x y : Z) : Z * bool := (u64 (x + y), negb ((x + y) / two64 =? 0)).

(** ** [erigon-lib/common/bytes.go] *)

Definition BitLenToByteLen (bitLen : Z) : Z := (bitLen + 7) / 8.

Definition RightPadBytes (slice : bytes) (l : Z) : bytes :=
  if l <=? zlen slice then slice
  else slice ++ replicate (Z.to_nat (l - zlen slice)) x00.

(** ** [core/vm/common.go] *)

Section Common.
Context {U : Uint256}.

Definition calcMemSize64WithUint (off : Z) (length64 : Z) : Z * bool :=
  if length64 =? 0 then (0, false)
  else
    let '(offset64, overflow) := u_Uint64WithOverflow off in
    if overflow then (0, true)
    else let val := u64 (offset64 + length64) in (val, val <? offset64).

Definition calcMemSize64 (off l : Z) : Z * bool :=
  if negb (u_IsUint64 l) then (0, true) else calcMemSize64WithUint off (u_Uint64 l).

Definition getData (data : bytes) (start size : Z) : Res bytes :=
  let length := zlen data in
  let start := if length <? start then length else start in
  let '(end_, overflow) := SafeAdd start size in
  let end_ := if (length <? end_) || overflow then length else end_ in
  s ← go_slice data start end_;
  mret (RightPadBytes s (i64 size)).

Definition getDataBig (data : bytes) (start size : Z) : Res bytes :=
  let '(start64, overflow) := u_Uint64WithOverflow start in
  getData data (if overflow then MaxUint64 else start64) size.

End Common.

Definition ToWordSize (size : Z) : Z :=
  if MaxUint64 - 31 <? size then MaxUint64 / 32 + 1 else (size + 31) / 32.

(** [binary.NativeEndian.Uint64] of eight bytes, for either byte order. *)
Definition NativeEndian_Uint64 (little : bool) (b : bytes) : Z :=
  be_to_Z (if little then reverse b else b).

(** The 8-byte strides of [allZero]: [k] words from the front of [b]. *)
Fixpoint allZero_words (little : bool) (k : nat) (b : bytes) : bool :=
  match k with
  | O => true
  | S k' =>
      if negb (0 =? NativeEndian_Uint64 little (take 8 b)) then false
      else allZero_words little k' (drop 8 b)
  end.

Definition allZero (little : bool) (b : bytes) : bool :=
  let n8 := (length b - length b `mod` 8)%nat in
  allZero_words little (n8 / 8)%nat b &&
  forallb (fun c => byteZ c =? 0) (drop n8 b).

(** ** Lemmas *)

Lemma SafeAdd_exact x y :
  is_u64 x -> is_u64 y -> x + y < two64 -> SafeAdd x y = (x + y, false).
Proof.
  unfold SafeAdd, is_u64. intros Hx Hy H. rewrite u64_id by (unfold is_u64; lia).
  rewrite Z.div_small by lia. reflexivity.
Qed.

Lemma SafeAdd_overflow x y :
  is_u64 x -> is_u64 y -> (SafeAdd x y).2 = (two64 <=? x + y).
Proof.
  unfold SafeAdd, is_u64. intros Hx Hy. simpl. zbool; try reflexivity; exfalso.
  - rewrite Z.div_small_iff in e by (unfold two64; lia). unfold two64 in *; lia.
  - apply n. apply Z.div_small. lia.
Qed.

Lemma SafeAdd_cases x y :
  is_u64 x -> is_u64 y ->
  (x + y < two64 /\ SafeAdd x y = (x + y, false)) \/
  (two64 <= x + y /\ exists s, SafeAdd x y = (s, true)).
Proof.
  intros Hx Hy. pose proof (SafeAdd_overflow x y Hx Hy) as H.
  destruct (Z.leb_spec two64 (x + y)).
  - right. split; [assumption|]. destruct (SafeAdd x y) as [s b]. simpl in H. subst. eauto.
  - left. split; [assumption|]. apply SafeAdd_exact; assumption.
Qed.

Lemma SafeMul_cases x y :
  is_u64 x -> is_u64 y ->
  (x * y < two64 /\ SafeMul x y = (x * y, false)) \/
  (two64 <= x * y /\ exists s, SafeMul x y = (s, true)).
Proof.
  intros Hx Hy. unfold is_u64 in *. destruct (Z.lt_ge_cases (x * y) two64) as [H|H].
  - left. split; [assumption|]. unfold SafeMul.
    rewrite u64_id by (unfold is_u64; nia). rewrite Z.div_small by nia. reflexivity.
  - right. split; [lia|]. exists (u64 (x * y)). unfold SafeMul. f_equal.
    assert (x * y / two64 <> 0).
    { rewrite Z.div_small_iff by (unfold two64; lia). unfold two64 in *. lia. }
    zbool; [contradiction|reflexivity].
Qed.

Lemma ToWordSize_spec size :
  is_u64 size -> ToWordSize size = (size + 31) / 32.
Proof.
  unfold is_u64, ToWordSize, MaxUint64, two64. intros H. zbool; [|reflexivity].
  change (18446744073709551615 / 32 + 1) with 576460752303423488.
  apply Z.div_unique with (r := size + 31 - 32 * 576460752303423488); lia.
Qed.

Lemma ToWordSize_bounds size :
  is_u64 size -> size <= 32 * ToWordSize size < size + 32.
Proof.
  intros H. rewrite ToWordSize_spec by assumption.
  pose proof (Z.div_mod (size + 31) 32 ltac:(lia)).
  pose proof (Z.mod_pos_bound (size + 31) 32 ltac:(lia)). lia.
Qed.

Lemma ToWordSize_u64 size : is_u64 size -> is_u64 (ToWordSize size).
Proof.
  intros H. pose proof (ToWordSize_bounds size H). unfold is_u64, two64 in *. lia.
Qed.

Lemma zlen_RightPadBytes s l : zlen (RightPadBytes s l) = Z.max l (zlen s).
Proof.
  unfold RightPadBytes. zbool; [lia|]. rewrite zlen_app, zlen_replicate. lia.
Qed.

(** The window [getData] reads: the bytes of [data] from [start], zero-padded to
    [size]. *)
Definition data_window (data : bytes) (start size : Z) : bytes :=
  let avail := take (Z.to_nat size) (drop (Z.to_nat start) data) in
  avail ++ replicate (Z.to_nat size - length avail) x00.

Lemma zlen_data_window data start size :
  0 <= size -> zlen (data_window data start size) = size.
Proof.
  intros H. unfold data_window, zlen. rewrite length_app, length_replicate, length_take. lia.
Qed.

Lemma RightPadBytes_window s n :
  zlen s <= n -> RightPadBytes s n = s ++ replicate (Z.to_nat n - length s) x00.
Proof.
  intros H. unfold RightPadBytes. zbool.
  - unfold zlen in *. replace (Z.to_nat n - length s)%nat with 0%nat by lia.
    rewrite app_nil_r. reflexivity.
  - unfold zlen in *. f_equal. f_equal. lia.
Qed.

Lemma getData_window data start size :
  zlen data < 9223372036854775808 -> is_u64 start -> 0 <= size < 9223372036854775808 ->
  getData data start size = Val (data_window data start size).
Proof.
  intros Hd Hs Hsz. pose proof (zlen_nonneg data) as Hn. unfold getData.
  set (st := if zlen data <? start then zlen data else start).
  assert (Hst : 0 <= st <= zlen data) by (unfold st, is_u64 in *; zbool; lia).
  rewrite SafeAdd_exact by (unfold is_u64, two64; lia). rewrite orb_false_r.
  set (en := if zlen data <? st + size then zlen data else st + size).
  assert (Hen : st <= en <= zlen data /\ en <= st + size) by (unfold en; zbool; lia).
  rewrite go_slice_val by lia. simpl. rewrite i64_id by lia.
  rewrite RightPadBytes_window by (rewrite zlen_slice; lia).
  assert (E : take (Z.to_nat (en - st)) (drop (Z.to_nat st) data) =
              take (Z.to_nat size) (drop (Z.to_nat start) data)).
  { unfold en, st, is_u64, zlen in *. zbool;
      first [ rewrite !drop_ge by lia; rewrite !take_nil; reflexivity
            | rewrite !take_ge by (rewrite length_drop; lia); reflexivity
            | f_equal; lia ]. }
  unfold data_window. rewrite E. reflexivity.
Qed.

Lemma forallb_take_drop {A} (f : A -> bool) n l :
  forallb f l = forallb f (take n l) && forallb f (drop n l).
Proof. rewrite <- forallb_app, take_drop. reflexivity. Qed.

Lemma be_to_Z_zero l : (be_to_Z l =? 0) = forallb (fun c => byteZ c =? 0) l.
Proof.
  induction l as [|b l IH] using rev_ind; [reflexivity|].
  rewrite be_to_Z_snoc, forallb_app, <- IH. simpl. rewrite andb_true_r.
  pose proof (be_to_Z_nonneg l). pose proof (byteZ_range b). zbool; simpl; lia.
Qed.

Lemma forallb_reverse {A} (f : A -> bool) l : forallb f (reverse l) = forallb f l.
Proof.
  induction l as [|a l IH]; [reflexivity|].
  rewrite reverse_cons, forallb_app, IH. simpl. rewrite andb_true_r. apply andb_comm.
Qed.

Lemma NativeEndian_zero little l :
  (0 =? NativeEndian_Uint64 little l) = forallb (fun c => byteZ c =? 0) l.
Proof.
  unfold NativeEndian_Uint64. rewrite Z.eqb_sym, be_to_Z_zero.
  destruct little; [apply forallb_reverse|reflexivity].
Qed.

Lemma allZero_words_spec little k b :
  allZero_words little k b = forallb (fun c => byteZ c =? 0) (take (8 * k) b).
Proof.
  revert b. induction k as [|k IH]; intros b; [rewrite Nat.mul_0_r; reflexivity|].
  cbn [allZero_words]. rewrite NativeEndian_zero, IH.
  rewrite (forallb_take_drop _ 8 (take (8 * S k) b)).
  rewrite take_take, skipn_firstn_comm.
  replace (8 `min` (8 * S k))%nat with 8%nat by lia.
  replace (8 * S k - 8)%nat with (8 * k)%nat by lia.
  destruct (forallb _ (take 8 b)); reflexivity.
Qed.

(** The three outcomes of [calcMemSize64WithUint] for a 64-bit length. *)
Lemma calcMemSize64WithUint_cases {U : Uint256} {US : Uint256Spec U} off l :
  is_u256 off -> is_u64 l ->
  (l = 0 /\ calcMemSize64WithUint off l = (0, false)) \/
  (l <> 0 /\ off + l < two64 /\ calcMemSize64WithUint off l = (off + l, false)) \/
  (l <> 0 /\ two64 <= off + l /\ exists v, calcMemSize64WithUint off l = (v, true)).
Proof.
  intros Ho Hl. unfold calcMemSize64WithUint. rewrite Uint64WithOverflow_spec by assumption.
  unfold is_u256, is_u64 in *. destruct (Z.eqb_spec l 0) as [->|Hnz]; [auto|right].
  destruct (Z.leb_spec two64 off) as [Hoff|Hoff].
  { right. split; [assumption|]. split; [lia|]. eauto. }
  rewrite (Z.mod_small off) by lia.
  destruct (Z.lt_ge_cases (off + l) two64) as [Hs|Hs].
  - left. rewrite u64_id by (unfold is_u64; lia). zbool; [lia|]. auto.
  - right. rewrite u64_wrap by (unfold is_u64; lia). zbool; [|lia]. eauto.
Qed.

Lemma calcMemSize64_cases {U : Uint256} {US : Uint256Spec U} off l :
  is_u256 off -> is_u256 l ->
  (l = 0 /\ calcMemSize64 off l = (0, false)) \/
  (l <> 0 /\ off + l < two64 /\ calcMemSize64 off l = (off + l, false)) \/
  (l <> 0 /\ two64 <= off + l /\ exists v, calcMemSize64 off l = (v, true)).
Proof.
  intros Ho Hl. unfold calcMemSize64. rewrite IsUint64_spec, Uint64_spec by assumption.
  unfold is_u256 in Hl, Ho. destruct (Z.ltb_spec l two64) as [Hl'|Hl']; simpl negb; cbn iota.
  - rewrite (Z.mod_small l) by lia. apply calcMemSize64WithUint_cases; unfold is_u256, is_u64; lia.
  - right. right. unfold two64 in *. split; [lia|]. split; [lia|]. eauto.
Qed.

(** ** Properties *)

(** [calcMemSize64] flags overflow exactly when a non-empty window ends at
    or past 2^64, and otherwise returns the exact end of the window (0 for an empty
    one, whatever its offset). *)
Theorem calcMemSize64_correct {U : Uint256} (US : Uint256Spec U) off l :
  is_u256 off -> is_u256 l ->
  ((calcMemSize64 off l).2 = true <-> l <> 0 /\ two64 <= off + l) /\
  ((calcMemSize64 off l).2 = false ->
   (calcMemSize64 off l).1 = if l =? 0 then 0 else off + l).
Proof.
  intros Ho Hl.
  destruct (calcMemSize64_cases off l Ho Hl) as [[-> ->]|[(Hn & Hlt & ->)|(Hn & Hge & v & ->)]]; simpl.
  - split; [split; [discriminate|lia]|reflexivity].
  - split; [split; [discriminate|lia]|]. zbool; [contradiction|reflexivity].
  - split; [split; auto|discriminate].
Qed.

Section Witness.
#[local] Existing Instance uint256_ref.

Lemma calcMemSize64_correct_witness :
  (calcMemSize64 (two64 - 1) 2).2 = true /\ calcMemSize64 5 7 = (12, false).
Proof.
  split.
  - apply (calcMemSize64_correct uint256_ref_spec (two64 - 1) 2);
      unfold is_u256, two64, two256; lia.
  - reflexivity.
Defined.
End Witness.

(** [getData] never panics and returns exactly [size] bytes: the data from
    [start] on, truncated to the end of [data] and padded with zeroes, for any
    64-bit start. *)
Theorem getData_correct data start size :
  zlen data < 9223372036854775808 -> is_u64 start -> 0 <= size < 9223372036854775808 ->
  exists w, getData data start size = Val w /\ zlen w = size /\
    forall i, 0 <= i < size ->
      w !! Z.to_nat i = Some (default x00 (data !! Z.to_nat (start + i))).
Proof.
  intros Hd Hs Hsz. exists (data_window data start size).
  split; [by apply getData_window|]. split; [apply zlen_data_window; lia|].
  intros i Hi. unfold data_window, is_u64 in *.
  set (avail := take _ _).
  destruct (decide (Z.to_nat i < length avail)%nat) as [H|H].
  - rewrite lookup_app_l by assumption. unfold avail in *.
    rewrite length_take, length_drop in H.
    rewrite lookup_take_lt, lookup_drop by lia.
    replace (Z.to_nat start + Z.to_nat i)%nat with (Z.to_nat (start + i)) by lia.
    destruct (data !! Z.to_nat (start + i)) eqn:E; [reflexivity|].
    apply lookup_ge_None in E. lia.
  - rewrite lookup_app_r, lookup_replicate_2 by lia.
    assert (E : data !! Z.to_nat (start + i) = None).
    { apply lookup_ge_None. unfold avail in H. rewrite length_take, length_drop in H. lia. }
    rewrite E. reflexivity.
Qed.

Lemma getData_correct_witness :
  exists w, getData [x01; x02; x03] 1 4 = Val w /\ zlen w = 4.
Proof.
  destruct (getData_correct [x01; x02; x03] 1 4) as (w & H1 & H2 & _);
    [reflexivity|split; [lia|reflexivity]|lia|].
  exists w. split; assumption.
Defined.

(** The word-strided [allZero] is the byte-by-byte test, for both byte orders. *)
Theorem allZero_correct little b :
  allZero little b = forallb (fun c => byteZ c =? 0) b.
Proof.
  unfold allZero. rewrite allZero_words_spec.
  set (n8 := (length b - length b `mod` 8)%nat).
  assert (E : (8 * (n8 / 8))%nat = n8).
  { unfold n8. pose proof (Nat.div_mod_eq (length b) 8) as H.
    replace (length b - length b `mod` 8)%nat with (length b / 8 * 8)%nat by lia.
    rewrite Nat.div_mul by lia. lia. }
  rewrite E, <- forallb_take_drop. reflexivity.
Qed.
