(* ===== verification/Analysis.v ===== *)
(** * JUMPDEST analysis

    [core/vm/analysis.go]: [codeBitmap] walks the code once and marks, in a vector
    of 64-bit words, the bytes that are immediate data of PUSH instructions. The
    theorem is its equivalence with the reference reading of the code: a position
    is a code segment iff an instruction starts there. *)

From S2P Require Import Prelude Params.
Import OpCode.

Abbreviation bitvec := (list Z).

(** Go's [int8(b)] of a byte. *)
Definition int8 (b : Z) : Z := if b <? 128 then b else b - 256.

Definition set1 (bits : bitvec) (pos : Z) : Res bitvec :=
  w ← go_index bits (pos / 64);
  mret (<[Z.to_nat (pos / 64) := Z.lor w (u64 (Z.shiftl 1 (pos mod 64)))]> bits).

Definition setN (bits : bitvec) (flag pc : Z) : Res bitvec :=
  let shift := pc mod 64 in
  w ← go_index bits (pc / 64);
  let bits := <[Z.to_nat (pc / 64) := Z.lor w (u64 (Z.shiftl flag shift))]> bits in
  if 32 <? shift then
    _ ← go_index bits (pc / 64 + 1);
    mret (<[Z.to_nat (pc / 64 + 1) := Z.shiftr flag (64 - shift)]> bits)
  else mret bits.

Definition codeSegment (bits : bitvec) (pos : Z) : Res bool :=
  w ← go_index bits (pos / 64);
  mret (Z.land (Z.shiftr w (pos mod 64)) 1 =? 0).

(** The loop of [codeBitmap]; every iteration advances [pc], so [length code]
    iterations are enough. *)
Fixpoint codeBitmap_loop (fuel : nat) (code : bytes) (bits : bitvec) (pc : Z) : Res bitvec :=
  if negb (pc <? zlen code) then mret bits
  else
    match fuel with
    | O => OutOfFuel
    | S fuel' =>
        b ← go_index code pc;
        let op := byteZ b in
        let pc := pc + 1 in
        if int8 op <? int8 PUSH1 then codeBitmap_loop fuel' code bits pc
        else if op =? PUSH1 then
          bits ← set1 bits pc;
          codeBitmap_loop fuel' code bits (pc + 1)
        else
          let numbits := op - PUSH1 + 1 in
          bits ← setN bits (u64 (Z.shiftl 1 numbits) - 1) pc;
          codeBitmap_loop fuel' code bits (pc + numbits)
    end.

Definition codeBitmap (code : bytes) : Res bitvec :=
  codeBitmap_loop (length code) code
    (replicate (Z.to_nat ((zlen code + 32 + 63) / 64)) 0) 0.

(** ** Reference: where instructions start *)

(** The number of immediate bytes of an opcode. *)
Definition immediates (op : Z) : Z := if IsPushWithImmediateArgs op then op - PUSH1 + 1 else 0.

Definition next_start (code : bytes) (pc : Z) : Z :=
  match code !! Z.to_nat pc with
  | Some b => pc + 1 + immediates (byteZ b)
  | None => pc + 1
  end.

(** The offset of the [k]-th instruction. *)
Fixpoint start_at (code : bytes) (k : nat) : Z :=
  match k with O => 0 | S k' => next_start code (start_at code k') end.

Definition instr_start (code : bytes) (pos : Z) : Prop := exists k, start_at code k = pos.

(** ** Lemmas *)

Lemma immediates_range b : 0 <= immediates (byteZ b) <= 32.
Proof.
  unfold immediates, IsPushWithImmediateArgs, PUSH1, PUSH32. pose proof (byteZ_range b).
  zbool; simpl; lia.
Qed.

Lemma next_start_gt code pc : pc < next_start code pc.
Proof.
  unfold next_start. destruct (code !! Z.to_nat pc) as [b|]; [|lia].
  pose proof (immediates_range b). lia.
Qed.

Lemma start_at_mono code i j : (i <= j)%nat -> start_at code i <= start_at code j.
Proof.
  induction 1 as [|j _ IH]; [lia|]. simpl. pose proof (next_start_gt code (start_at code j)). lia.
Qed.

Lemma start_at_nonneg code k : 0 <= start_at code k.
Proof. apply (start_at_mono code 0 k). lia. Qed.

(** No instruction starts inside another one. *)
Lemma start_gap code k pos :
  instr_start code pos -> start_at code k < pos -> next_start code (start_at code k) <= pos.
Proof.
  intros [j <-] H. destruct (decide (j <= k)%nat) as [Hjk|Hjk].
  - pose proof (start_at_mono code j k Hjk). lia.
  - apply (start_at_mono code (S k) j). lia.
Qed.

Lemma start_at_ge code k : Z.of_nat k <= start_at code k.
Proof.
  induction k as [|k IH]; [simpl; lia|]. cbn [start_at].
  pose proof (next_start_gt code (start_at code k)). lia.
Qed.

#[export] Instance instr_start_dec code pos : Decision (instr_start code pos).
Proof.
  refine (cast_if (decide (Exists (fun k => start_at code k = pos) (seq 0 (S (Z.to_nat pos)))))).
  - apply Exists_exists in e. destruct e as (k & _ & Hk). exists k. exact Hk.
  - intros [k Hk]. apply n, Exists_exists. exists k. split; [|exact Hk].
    apply elem_of_seq. pose proof (start_at_ge code k). lia.
Defined.

(** *** Bits of a word vector *)

Definition bit_of (bits : bitvec) (pos : Z) : bool :=
  match bits !! Z.to_nat (pos / 64) with
  | Some w => Z.testbit w (pos mod 64)
  | None => false
  end.

Lemma bit_pos pos q : 0 <= pos -> 0 <= q ->
  (pos / 64 = q / 64 -> pos mod 64 = q mod 64 -> pos = q).
Proof.
  intros Hp Hq H1 H2. rewrite (Z.div_mod pos 64), (Z.div_mod q 64) by lia. lia.
Qed.

Lemma shl_u64_testbit x s i :
  0 <= x -> 0 <= s -> 0 <= i < 64 -> Z.testbit (u64 (Z.shiftl x s)) i = Z.testbit x (i - s).
Proof.
  intros Hx Hs Hi. unfold u64. rewrite two64_pow, Z.mod_pow2_bits_low by lia.
  rewrite Z.shiftl_spec by lia. reflexivity.
Qed.

Lemma ones_testbit n i : 0 <= n -> 0 <= i -> Z.testbit (2 ^ n - 1) i = (i <? n).
Proof.
  intros Hn Hi. replace (2 ^ n - 1) with (Z.ones n) by (rewrite Z.ones_equiv; lia).
  rewrite Z.testbit_ones_nonneg by assumption. reflexivity.
Qed.

Lemma lookup_bits (bits : bitvec) i :
  0 <= i < zlen bits -> exists w, bits !! Z.to_nat i = Some w /\ go_index bits i = Val w.
Proof. intros H. destruct (go_index_val bits i H) as (w & H1 & H2). eauto. Qed.

Lemma codeSegment_bit bits pos :
  0 <= pos -> pos / 64 < zlen bits -> codeSegment bits pos = Val (negb (bit_of bits pos)).
Proof.
  intros Hp Hl. unfold codeSegment, bit_of.
  destruct (lookup_bits bits (pos / 64)) as (w & -> & ->); [split; [apply Z.div_pos; lia|lia]|].
  simpl. change 1 with (Z.ones 1). rewrite Z.land_ones by lia. change (2 ^ 1) with 2.
  rewrite <- Z.bit0_mod, Z.shiftr_spec, Z.add_0_l by lia.
  destruct (Z.testbit w (pos mod 64)); reflexivity.
Qed.


Lemma bit_of_insert bits k w q :
  0 <= k < zlen bits -> 0 <= q ->
  bit_of (<[Z.to_nat k := w]> bits) q =
  if q / 64 =? k then Z.testbit w (q mod 64) else bit_of bits q.
Proof.
  intros Hk Hq. unfold bit_of. assert (0 <= q / 64) by (apply Z.div_pos; lia).
  destruct (Z.eqb_spec (q / 64) k) as [->|Hne].
  - rewrite list_lookup_insert_eq by (unfold zlen in *; lia). reflexivity.
  - rewrite list_lookup_insert_ne by lia. reflexivity.
Qed.

Lemma bit_of_word bits k w q :
  bits !! Z.to_nat k = Some w -> q / 64 = k -> Z.testbit w (q mod 64) = bit_of bits q.
Proof. intros E <-. unfold bit_of. rewrite E. reflexivity. Qed.

(** Setting the bits [s .. s+n-1] of a word, as [set1] and [setN] do it. *)
Lemma word_run w s n i :
  0 <= s < 64 -> 0 <= n -> 0 <= i < 64 ->
  Z.testbit (Z.lor w (u64 (Z.shiftl (2 ^ n - 1) s))) i =
  Z.testbit w i || ((s <=? i) && (i <? s + n)).
Proof.
  intros Hs Hn Hi.
  assert (0 <= 2 ^ n - 1) by (pose proof (Z.pow_pos_nonneg 2 n ltac:(lia) ltac:(lia)); lia).
  rewrite Z.lor_spec, shl_u64_testbit by lia. f_equal.
  destruct (Z.lt_ge_cases (i - s) 0).
  - rewrite Z.testbit_neg_r by lia. zbool; simpl; lia.
  - rewrite ones_testbit by lia. zbool; simpl; lia.
Qed.

(** Decompose a bit position into its word and offset. *)
Ltac split_pos q k s :=
  pose proof (Z.mod_pos_bound q 64 ltac:(lia));
  pose proof (Z.div_mod q 64 ltac:(lia));
  assert (0 <= q / 64) by (apply Z.div_pos; lia);
  set (k := q / 64) in *; set (s := q mod 64) in *.

Lemma set1_ok bits pos :
  0 <= pos -> pos / 64 < zlen bits ->
  exists bits', set1 bits pos = Val bits' /\ length bits' = length bits /\
    forall q, 0 <= q -> bit_of bits' q = bit_of bits q || (q =? pos).
Proof.
  intros Hp Hl. unfold set1. split_pos pos k s.
  destruct (lookup_bits bits k) as (w & Ew & ->); [lia|].
  eexists. split; [reflexivity|]. split; [apply length_insert|].
  intros q Hq. rewrite bit_of_insert by lia.
  destruct (Z.eqb_spec (q / 64) k) as [E|E].
  - rewrite <- (bit_of_word bits k w q Ew E). change 1 with (2 ^ 1 - 1).
    split_pos q kq sq. rewrite word_run by lia. f_equal. zbool; simpl; lia.
  - destruct (Z.eqb_spec q pos) as [->|]; [contradiction|]. rewrite orb_false_r. reflexivity.
Qed.

(** [setN] marks [n <= 32] consecutive bits; it overwrites the following word when
    the run may spill into it, so no bit past [pc] may be set yet. *)
Lemma setN_ok bits pc n :
  0 <= pc -> 1 <= n <= 32 -> (pc + 95) / 64 <= zlen bits ->
  (forall q, pc <= q -> bit_of bits q = false) ->
  exists bits', setN bits (2 ^ n - 1) pc = Val bits' /\ length bits' = length bits /\
    forall q, 0 <= q -> bit_of bits' q = bit_of bits q || ((pc <=? q) && (q <? pc + n)).
Proof.
  intros Hp Hn Hl Hfree. unfold setN. split_pos pc k s.
  assert (Hk : k + 1 <= (pc + 95) / 64) by (apply Z.div_le_lower_bound; lia).
  destruct (lookup_bits bits k) as (w & Ew & ->); [lia|]. cbn [mbind Res_bind].
  destruct (Z.ltb_spec 32 s) as [Hs|Hs].
  - assert (Hk2 : k + 2 <= (pc + 95) / 64) by (apply Z.div_le_lower_bound; lia).
    set (w' := Z.lor w _).
    assert (Hlen : zlen (<[Z.to_nat k:=w']> bits) = zlen bits)
      by (unfold zlen; rewrite length_insert; reflexivity).
    destruct (lookup_bits (<[Z.to_nat k:=w']> bits) (k + 1)) as (w1 & _ & ->); [lia|].
    eexists. split; [reflexivity|]. split; [rewrite !length_insert; reflexivity|].
    intros q Hq. rewrite !bit_of_insert by lia.
    destruct (Z.eqb_spec (q / 64) (k + 1)) as [E|E].
    + split_pos q kq sq. rewrite Z.shiftr_spec, ones_testbit by lia.
      rewrite (Hfree q) by lia. zbool; simpl; lia.
    + destruct (Z.eqb_spec (q / 64) k) as [E'|E'].
      * rewrite <- (bit_of_word bits k w q Ew E'). split_pos q kq sq.
        unfold w'. rewrite word_run by lia. f_equal. zbool; simpl; lia.
      * split_pos q kq sq. destruct (bit_of bits q); [reflexivity|]. zbool; simpl; lia.
  - eexists. split; [reflexivity|]. split; [apply length_insert|].
    intros q Hq. rewrite bit_of_insert by lia.
    destruct (Z.eqb_spec (q / 64) k) as [E|E].
    + rewrite <- (bit_of_word bits k w q Ew E). split_pos q kq sq.
      rewrite word_run by lia. f_equal. zbool; simpl; lia.
    + split_pos q kq sq. destruct (bit_of bits q); [reflexivity|]. zbool; simpl; lia.
Qed.

(** *** The loop invariant: the marked positions are the data bytes before [pc] *)

Definition marked (code : bytes) (bits : bitvec) (pc : Z) : Prop :=
  forall q, 0 <= q -> bit_of bits q = true <-> q < pc /\ ~ instr_start code q.

Lemma marked_step code bits bits' k imm :
  let pc := start_at code k in
  next_start code pc = pc + 1 + imm ->
  marked code bits pc ->
  (forall q, 0 <= q ->
     bit_of bits' q = bit_of bits q || ((pc + 1 <=? q) && (q <? pc + 1 + imm))) ->
  marked code bits' (start_at code (S k)).
Proof.
  intros pc Hn Hm Hb q Hq. rewrite Hb by assumption. cbn [start_at]. fold pc. rewrite Hn.
  rewrite orb_true_iff, (Hm q Hq), andb_true_iff, Z.leb_le, Z.ltb_lt.
  pose proof (next_start_gt code pc). split.
  - intros [[H1 H2]|[H1 H2]]; [split; [lia|assumption]|]. split; [lia|].
    intros Hs. pose proof (start_gap code k q Hs ltac:(fold pc; lia)) as Hg.
    fold pc in Hg. lia.
  - intros [H1 H2]. destruct (Z.lt_trichotomy q pc) as [H3|[H3|H3]].
    + left. split; assumption.
    + subst q. exfalso. apply H2. exists k. reflexivity.
    + right. lia.
Qed.

Lemma immediates_push op : immediates op = if (96 <=? op) && (op <=? 127) then op - 95 else 0.
Proof. unfold immediates, IsPushWithImmediateArgs, PUSH1, PUSH32. destruct (_ && _); lia. Qed.

(** One iteration marks the immediates of the instruction at [pc] and moves to the
    next instruction. *)
Lemma codeBitmap_iter code bits k fuel :
  let pc := start_at code k in
  pc < zlen code -> (zlen code + 95) / 64 <= zlen bits -> marked code bits pc ->
  exists bits', codeBitmap_loop (S fuel) code bits pc =
                codeBitmap_loop fuel code bits' (start_at code (S k)) /\
    zlen bits' = zlen bits /\ marked code bits' (start_at code (S k)).
Proof.
  intros pc Hlt Hl Hm. pose proof (start_at_nonneg code k) as Hpos. fold pc in Hpos.
  cbn [codeBitmap_loop]. destruct (Z.ltb_spec pc (zlen code)); [|lia]. simpl negb. cbn iota.
  destruct (go_index_val code pc) as (b & -> & Eb); [lia|]. cbn [mbind Res_bind].
  assert (En : next_start code pc = pc + 1 + immediates (byteZ b))
    by (unfold next_start; rewrite Eb; reflexivity).
  pose proof (fun b' => marked_step code bits b' k _ En Hm) as Hstep. fold pc in Hstep.
  assert (Es : start_at code (S k) = pc + 1 + immediates (byteZ b)) by exact En.
  rewrite Es in *. rewrite immediates_push in *. pose proof (byteZ_range b) as Hb.
  assert (Hbound : (pc + 1 + 95) / 64 <= zlen bits)
    by (etransitivity; [|exact Hl]; apply Z.div_le_mono; lia).
  unfold int8, PUSH1. change (96 <? 128) with true. cbn iota.
  destruct (Z.ltb_spec (if byteZ b <? 128 then byteZ b else byteZ b - 256) 96) as [Hnp|Hp].
  { assert (E : (96 <=? byteZ b) && (byteZ b <=? 127) = false) by (zbool; simpl; lia).
    rewrite E in *. exists bits. rewrite Z.add_0_r in *. split; [reflexivity|].
    split; [reflexivity|]. apply Hstep. intros q _. zbool; simpl; rewrite ?orb_false_r; lia || reflexivity. }
  assert (E : (96 <=? byteZ b) && (byteZ b <=? 127) = true) by (zbool; simpl; lia).
  rewrite E in *. destruct (Z.eqb_spec (byteZ b) 96) as [E'|E'].
  - rewrite E' in *. destruct (set1_ok bits (pc + 1)) as (bits' & -> & Hl' & Hb'); [lia| |].
    { apply Z.lt_le_trans with ((pc + 1 + 95) / 64); [|assumption].
      apply Z.lt_le_trans with ((pc + 1) / 64 + 1); [lia|].
      rewrite <- Z.div_add by lia. apply Z.div_le_mono; lia. }
    exists bits'. split; [reflexivity|]. split; [unfold zlen; congruence|]. apply Hstep.
    intros q Hq. rewrite Hb' by assumption. f_equal. zbool; simpl; lia.
  - replace (byteZ b - 96 + 1) with (byteZ b - 95) by lia.
    assert (Ef : u64 (Z.shiftl 1 (byteZ b - 95)) = 2 ^ (byteZ b - 95)).
    { rewrite Z.shiftl_1_l. apply u64_id. unfold is_u64. rewrite two64_pow.
      split; [apply Z.pow_nonneg|apply Z.pow_lt_mono_r]; zbool; simpl in *; lia. }
    rewrite Ef. destruct (setN_ok bits (pc + 1) (byteZ b - 95)) as (bits' & -> & Hl' & Hb');
      [lia|zbool; simpl in *; lia|assumption| |].
    { intros q Hq. destruct (bit_of bits q) eqn:Eq; [|reflexivity]. apply Hm in Eq; lia. }
    exists bits'. split; [reflexivity|]. split; [unfold zlen; congruence|]. exact (Hstep _ Hb').
Qed.

Lemma codeBitmap_loop_ok code fuel : forall bits k,
  zlen code - start_at code k <= Z.of_nat fuel ->
  zlen bits = (zlen code + 95) / 64 ->
  marked code bits (start_at code k) ->
  exists bits' k', codeBitmap_loop fuel code bits (start_at code k) = Val bits' /\
    zlen bits' = (zlen code + 95) / 64 /\ zlen code <= start_at code k' /\
    marked code bits' (start_at code k').
Proof.
  induction fuel as [|fuel IH]; intros bits k Hf Hl Hm;
    (destruct (Z.lt_ge_cases (start_at code k) (zlen code)) as [Hlt|Hge];
     [|exists bits, k; split; [|auto]; unfold codeBitmap_loop;
       destruct (Z.ltb_spec (start_at code k) (zlen code)); [lia|reflexivity]]).
  - lia.
  - destruct (codeBitmap_iter code bits k fuel Hlt ltac:(lia) Hm) as (bits1 & E1 & El & Hm1).
    rewrite E1. apply IH; [|congruence|assumption].
    cbn [start_at]. pose proof (next_start_gt code (start_at code k)). lia.
Qed.

(** The finished bitmap: large enough for every code position, and marking exactly
    the positions inside push data. *)
Lemma codeBitmap_marked code :
  exists bits k, codeBitmap code = Val bits /\ zlen bits = (zlen code + 95) / 64 /\
    zlen code <= start_at code k /\ marked code bits (start_at code k).
Proof.
  pose proof (zlen_nonneg code) as Hn. unfold codeBitmap.
  replace (zlen code + 32 + 63) with (zlen code + 95) by lia.
  set (bits0 := replicate _ 0).
  destruct (codeBitmap_loop_ok code (length code) bits0 0) as (bits & k & E & Hl & Hk & Hm).
  - simpl. unfold zlen. lia.
  - unfold bits0. rewrite zlen_replicate. rewrite Z2Nat.id; [reflexivity|]. apply Z.div_pos; lia.
  - intros q Hq. simpl start_at. split; [|lia]. unfold bit_of, bits0.
    destruct (replicate _ _ !! _) as [w|] eqn:E; [|discriminate].
    apply lookup_replicate in E. destruct E as [-> _]. rewrite Z.bits_0. discriminate.
  - exists bits, k. auto.
Qed.

Lemma codeSegment_in (code : bytes) (bits : bitvec) pos :
  zlen bits = (zlen code + 95) / 64 -> 0 <= pos < zlen code ->
  codeSegment bits pos = Val (negb (bit_of bits pos)).
Proof.
  intros Hl Hp. apply codeSegment_bit; [lia|]. rewrite Hl.
  apply Z.lt_le_trans with (pos / 64 + 1); [lia|].
  rewrite <- Z.div_add by lia. apply Z.div_le_mono; lia.
Qed.

(** ** Properties *)

(** C5 [codeBitmap] never indexes out of range and its result classifies every byte
    of the code exactly: [codeSegment] holds at a position iff an instruction of
    the code starts there (equivalently, iff it is not PUSH data). *)
Theorem codeBitmap_correct code :
  exists bits, codeBitmap code = Val bits /\
    forall pos, 0 <= pos < zlen code ->
      exists r, codeSegment bits pos = Val r /\ (r = true <-> instr_start code pos).
Proof.
  destruct (codeBitmap_marked code) as (bits & k & E & Hl & Hk & Hm).
  exists bits. split; [exact E|]. intros pos Hp. exists (negb (bit_of bits pos)).
  split; [by apply (codeSegment_in code)|]. rewrite negb_true_iff.
  pose proof (Hm pos ltac:(lia)) as Hpos. destruct (bit_of bits pos); split; intros H.
  - discriminate.
  - exfalso. apply (proj1 Hpos eq_refl). exact H.
  - destruct (decide (instr_start code pos)) as [Hs|Hs]; [exact Hs|].
    exfalso. assert (false = true); [|discriminate]. apply Hpos. split; [lia|exact Hs].
  - reflexivity.
Qed.
