(* ===== verification/Stack.v ===== *)
(** * The EVM stack

    [core/vm/stack.go]. [Stack.data] grows at its end in Go; the model keeps the
    same items with the top first, so [data[len-1-n]] is the [n]-th element here.
    Popping an empty stack, or reaching below it, is the index panic it is in Go:
    the interpreter's own checks are what excludes it. *)

From S2P Require Import Prelude.

Abbreviation stack := (list Z).

Definition push (d : Z) (st : stack) : stack := d :: st.

Definition pop (st : stack) : Res (Z * stack) :=
  match st with
  | [] => Panic "index out of range"
  | d :: st' => Val (d, st')
  end.

Definition peek (st : stack) : Res Z :=
  match st with
  | [] => Panic "index out of range"
  | d :: _ => Val d
  end.

(** Writing through the pointer [peek] returns. *)
Definition poke (d : Z) (st : stack) : Res stack :=
  match st with
  | [] => Panic "index out of range"
  | _ :: st' => Val (d :: st')
  end.

(** Exchange the top with the [n]-th item below it. *)
Definition swap_at (n : nat) (st : stack) : Res stack :=
  match st !! n, st !! 0%nat with
  | Some d, Some t => Val (<[0%nat := d]> (<[n := t]> st))
  | _, _ => Panic "index out of range"
  end.

Definition swap1 (st : stack) : Res stack := swap_at 1 st.
Definition swap2 (st : stack) : Res stack := swap_at 2 st.
Definition swap3 (st : stack) : Res stack := swap_at 3 st.
Definition swap4 (st : stack) : Res stack := swap_at 4 st.
Definition swap5 (st : stack) : Res stack := swap_at 5 st.
Definition swap6 (st : stack) : Res stack := swap_at 6 st.
Definition swap7 (st : stack) : Res stack := swap_at 7 st.
Definition swap8 (st : stack) : Res stack := swap_at 8 st.
Definition swap9 (st : stack) : Res stack := swap_at 9 st.
Definition swap10 (st : stack) : Res stack := swap_at 10 st.
Definition swap11 (st : stack) : Res stack := swap_at 11 st.
Definition swap12 (st : stack) : Res stack := swap_at 12 st.
Definition swap13 (st : stack) : Res stack := swap_at 13 st.
Definition swap14 (st : stack) : Res stack := swap_at 14 st.
Definition swap15 (st : stack) : Res stack := swap_at 15 st.
Definition swap16 (st : stack) : Res stack := swap_at 16 st.

Definition dup (n : Z) (st : stack) : Res stack :=
  d ← go_index st (n - 1); mret (d :: st).

(** [Back]: the [n]-th item from the top. *)
Definition Back (n : Z) (st : stack) : Res Z := go_index st n.

Definition Reset (st : stack) : stack := [].

Definition stack_len (st : stack) : Z := zlen st.

(** ** Lemmas *)

Lemma swap_at_ok n (st : stack) :
  (n < length st)%nat ->
  exists d t, st !! n = Some d /\ st !! 0%nat = Some t /\
    swap_at n st = Val (<[0%nat := d]> (<[n := t]> st)).
Proof.
  intros H. destruct (lookup_lt_is_Some_2 st n) as [d Hd]; [lia|].
  destruct (lookup_lt_is_Some_2 st 0) as [t Ht]; [lia|].
  exists d, t. unfold swap_at. rewrite Hd, Ht. auto.
Qed.

Lemma swap_at_forall (P : Z -> Prop) n st st' :
  swap_at n st = Val st' -> Forall P st -> Forall P st' /\ length st' = length st.
Proof.
  unfold swap_at. destruct (st !! n) as [d|] eqn:Ed; [|discriminate].
  destruct (st !! 0%nat) as [t|] eqn:Et; [|discriminate].
  injection 1 as <-. intros HP. rewrite !length_insert. split; [|reflexivity].
  pose proof (Forall_lookup_1 _ _ _ _ HP Ed). pose proof (Forall_lookup_1 _ _ _ _ HP Et).
  apply Forall_insert; [apply Forall_insert|]; assumption.
Qed.

Lemma Back_ok n st : 0 <= n < zlen st -> exists d, Back n st = Val d /\ st !! Z.to_nat n = Some d.
Proof. apply go_index_val. Qed.

(** ** Properties *)

(** Each SWAPn exchanges the top with the item [n] below it, leaves the rest of
    the stack alone, and undoes itself; it panics exactly on a stack of at most [n]
    items. *)
Theorem swap_correct n (st : stack) :
  (0 < n)%nat ->
  ((n < length st)%nat ->
   exists st', swap_at n st = Val st' /\
     st' !! 0%nat = st !! n /\ st' !! n = st !! 0%nat /\
     (forall j, j <> 0%nat -> j <> n -> st' !! j = st !! j) /\
     swap_at n st' = Val st) /\
  ((length st <= n)%nat -> exists msg, swap_at n st = Panic msg).
Proof.
  intros Hn. split.
  - intros H. destruct (swap_at_ok n st H) as (d & t & Hd & Ht & E).
    eexists. split; [exact E|].
    assert (L0 : <[0%nat:=d]> (<[n:=t]> st) !! 0%nat = Some d)
      by (apply list_lookup_insert_eq; rewrite length_insert; lia).
    assert (Ln : <[0%nat:=d]> (<[n:=t]> st) !! n = Some t)
      by (rewrite list_lookup_insert_ne by lia; apply list_lookup_insert_eq; lia).
    split; [congruence|]. split; [congruence|]. split.
    + intros j Hj0 Hjn. rewrite !list_lookup_insert_ne by congruence. reflexivity.
    + unfold swap_at. rewrite L0, Ln. f_equal. apply list_eq. intros j.
      destruct (decide (j = 0%nat)) as [->|Hj0].
      * rewrite list_lookup_insert_eq by (rewrite !length_insert; lia). congruence.
      * rewrite list_lookup_insert_ne by congruence.
        destruct (decide (j = n)) as [->|Hjn].
        -- rewrite list_lookup_insert_eq by (rewrite !length_insert; lia). congruence.
        -- rewrite !list_lookup_insert_ne by congruence. reflexivity.
  - intros H. unfold swap_at. rewrite lookup_ge_None_2 by lia. eauto.
Qed.

Lemma swap_correct_witness : exists st', swap_at 2 [1; 2; 3] = Val st' /\ st' = [3; 2; 1].
Proof.
  destruct (swap_correct 2 [1; 2; 3] ltac:(lia)) as [H _].
  destruct (H ltac:(simpl; lia)) as (st' & E & _). exists st'. split; [exact E|].
  vm_compute in E. congruence.
Defined.
