(* ===== verification/Memory.v ===== *)
(** * EVM memory

    [core/vm/memory.go]: a byte store that only grows, in 32-byte words, with the
    gas already paid for its size. The pool the objects are recycled through is
    not modelled: [NewMemory] returns an empty, reset memory either way. *)

From S2P Require Import Prelude Uint256.

Record Memory : Type := mkMemory { store : bytes; lastGasCost : Z }.

Definition NewMemory : Memory := mkMemory [] 0.

Definition reset (m : Memory) : Memory := mkMemory [] 0.

Definition Len (m : Memory) : Z := zlen (store m).

Definition with_store (m : Memory) (s : bytes) : Memory := mkMemory s (lastGasCost m).
Definition with_lastGasCost (m : Memory) (c : Z) : Memory := mkMemory (store m) c.

Definition Set_ (offset size : Z) (value : bytes) (m : Memory) : Res Memory :=
  if 0 <? size then
    if Len m <? u64 (offset + size) then Panic "invalid memory: store empty"
    else
      dst ← go_slice (store m) offset (u64 (offset + size));
      mret (with_store m (splice (store m) offset (take (length dst) value)))
  else mret m.

Section Memory.
Context {U : Uint256}.

Definition Set32 (offset val : Z) (m : Memory) : Res Memory :=
  if Len m <? u64 (offset + 32) then Panic "invalid memory: store empty"
  else
    dst ← go_slice (store m) offset (zlen (store m));
    if zlen dst <? 32 then Panic "index out of range"
    else mret (with_store m (splice (store m) offset (u_PutUint256 val))).
End Memory.

Definition zeroes_len : Z := 4 * 4096.

Definition Resize (size : Z) (m : Memory) : Memory :=
  let l := i64 size - Len m in
  if l <=? 0 then m
  else if zeroes_len <=? l then with_store m (store m ++ replicate (Z.to_nat l) x00)
  else with_store m (store m ++ take (Z.to_nat l) (replicate (Z.to_nat zeroes_len) x00)).

Definition GetCopy (offset size : Z) (m : Memory) : Res bytes :=
  if size =? 0 then mret [] else go_slice (store m) offset (u64 (offset + size)).

Definition GetPtr (offset size : Z) (m : Memory) : Res bytes :=
  if size =? 0 then mret [] else go_slice (store m) offset (u64 (offset + size)).

Definition Data (m : Memory) : bytes := store m.

(** [copy(m.store[dst:], m.store[src:src+len])], with Go's overlap-safe copy. *)
Definition Copy (dst src len : Z) (m : Memory) : Res Memory :=
  if len =? 0 then mret m
  else
    d ← go_slice (store m) dst (zlen (store m));
    s ← go_slice (store m) src (u64 (src + len));
    mret (with_store m (splice (store m) dst (take (length d) s))).

(** ** Lemmas *)

(** A window lies inside the memory (empty windows always do). *)
Definition in_mem (m : Memory) (offset size : Z) : Prop :=
  size = 0 \/ (0 <= offset /\ 0 < size /\ offset + size <= Len m).

Lemma Len_u64 m offset size :
  Len m < two64 -> in_mem m offset size -> size <> 0 -> u64 (offset + size) = offset + size.
Proof.
  intros Hl [H|(H1 & H2 & H3)] Hs; [contradiction|]. apply u64_id. unfold is_u64. lia.
Qed.

Lemma GetPtr_ok m offset size :
  Len m < two64 -> 0 <= size -> in_mem m offset size ->
  exists d, GetPtr offset size m = Val d /\ zlen d = size.
Proof.
  intros Hl Hs Hin. unfold GetPtr. destruct (Z.eqb_spec size 0) as [->|Hne]; [exists []; done|].
  rewrite (Len_u64 m) by assumption.
  destruct Hin as [|(H1 & H2 & H3)]; [contradiction|]. unfold Len in *.
  rewrite go_slice_val by lia. eexists. split; [reflexivity|]. rewrite zlen_slice by lia. lia.
Qed.

Lemma GetCopy_ok m offset size :
  Len m < two64 -> 0 <= size -> in_mem m offset size ->
  exists d, GetCopy offset size m = Val d /\ zlen d = size.
Proof. apply GetPtr_ok. Qed.

Lemma Set_ok m offset size value :
  Len m < two64 -> 0 <= size -> in_mem m offset size ->
  exists m', Set_ offset size value m = Val m' /\ Len m' = Len m /\
             lastGasCost m' = lastGasCost m.
Proof.
  intros Hl Hs Hin. unfold Set_. destruct (Z.ltb_spec 0 size) as [Hp|]; [|eauto].
  rewrite (Len_u64 m) by (assumption || lia).
  destruct Hin as [|(H1 & H2 & H3)]; [lia|]. destruct (Z.ltb_spec (Len m) (offset + size)); [lia|].
  unfold Len in *. rewrite go_slice_val by lia. cbn [mbind Res_bind].
  eexists. split; [reflexivity|]. split; [|reflexivity]. cbn [store with_store].
  apply zlen_splice; [lia|].
  pose proof (zlen_slice (store m) offset (offset + size) ltac:(lia) ltac:(lia)) as E.
  unfold zlen in *. rewrite length_take. lia.
Qed.

Lemma Set32_ok {U : Uint256} {US : Uint256Spec U} m offset val :
  Len m < two64 -> in_mem m offset 32 -> is_u256 val ->
  exists m', Set32 offset val m = Val m' /\ Len m' = Len m /\ lastGasCost m' = lastGasCost m.
Proof.
  intros Hl Hin Hv. unfold Set32. rewrite (Len_u64 m) by (assumption || lia).
  destruct Hin as [|(H1 & H2 & H3)]; [lia|]. destruct (Z.ltb_spec (Len m) (offset + 32)); [lia|].
  unfold Len in *. rewrite go_slice_val by lia. cbn [mbind Res_bind].
  rewrite zlen_slice by lia. destruct (Z.ltb_spec (zlen (store m) - offset) 32); [lia|].
  eexists. split; [reflexivity|]. split; [|reflexivity]. cbn [store with_store].
  rewrite PutUint256_spec by assumption. apply zlen_splice; [lia|].
  unfold zlen at 1. rewrite length_Z_to_be. lia.
Qed.

Lemma Copy_ok m dst src len :
  Len m < two64 -> 0 <= len -> in_mem m dst len -> in_mem m src len ->
  exists m', Copy dst src len m = Val m' /\ Len m' = Len m /\ lastGasCost m' = lastGasCost m.
Proof.
  intros Hl Hs Hd Hsrc. unfold Copy. destruct (Z.eqb_spec len 0) as [->|Hne]; [eauto|].
  rewrite (Len_u64 m) by assumption.
  destruct Hd as [|(H1 & H2 & H3)]; [lia|]. destruct Hsrc as [|(H4 & H5 & H6)]; [lia|].
  unfold Len in *. rewrite !go_slice_val by lia. cbn [mbind Res_bind].
  eexists. split; [reflexivity|]. split; [|reflexivity]. cbn [store with_store].
  apply zlen_splice; [lia|].
  pose proof (zlen_slice (store m) dst (zlen (store m)) ltac:(lia) ltac:(lia)).
  unfold zlen in *. rewrite length_take. lia.
Qed.

Lemma Resize_store m size :
  0 <= size < 9223372036854775808 ->
  store (Resize size m) = store m ++ replicate (Z.to_nat (size - Len m)) x00.
Proof.
  intros H. unfold Resize. rewrite i64_id by assumption.
  destruct (Z.leb_spec (size - Len m) 0).
  - replace (Z.to_nat (size - Len m)) with 0%nat by lia. rewrite app_nil_r. reflexivity.
  - destruct (Z.leb_spec zeroes_len (size - Len m)); cbn [store with_store]; [reflexivity|].
    rewrite take_replicate. f_equal. f_equal. lia.
Qed.

Lemma Resize_len m size :
  0 <= size < 9223372036854775808 -> Len (Resize size m) = Z.max (Len m) size.
Proof.
  intros H. unfold Len. rewrite Resize_store by assumption.
  rewrite zlen_app, zlen_replicate. unfold Len. pose proof (zlen_nonneg (store m)). lia.
Qed.

Lemma Resize_lastGasCost m size : lastGasCost (Resize size m) = lastGasCost m.
Proof. unfold Resize. destruct (_ <=? 0); [reflexivity|]. destruct (_ <=? _); reflexivity. Qed.

(** ** Properties *)

(** A 32-byte store succeeds whenever its window lies inside the memory, reads
    back exactly (as the big-endian bytes of the value), and changes no other byte
    and no length. *)
Theorem Set32_roundtrip {U : Uint256} (US : Uint256Spec U) m offset val :
  Len m < two64 -> 0 <= offset -> offset + 32 <= Len m -> is_u256 val ->
  exists m', Set32 offset val m = Val m' /\
    GetPtr offset 32 m' = Val (Z_to_be 32 val) /\
    (forall d, GetPtr offset 32 m' = Val d -> be_to_Z d = val) /\
    Len m' = Len m /\
    forall i, 0 <= i -> i < offset \/ offset + 32 <= i ->
      store m' !! Z.to_nat i = store m !! Z.to_nat i.
Proof.
  intros Hl Ho Hin Hv. unfold Set32, GetPtr. simpl (32 =? 0). cbn iota.
  assert (Eu : u64 (offset + 32) = offset + 32) by (apply u64_id; unfold is_u64; lia).
  rewrite Eu. destruct (Z.ltb_spec (Len m) (offset + 32)); [lia|]. unfold Len in *.
  rewrite go_slice_val by lia. cbn [mbind Res_bind]. rewrite zlen_slice by lia.
  destruct (Z.ltb_spec (zlen (store m) - offset) 32); [lia|].
  rewrite PutUint256_spec by assumption.
  set (b := Z_to_be 32 val). assert (Lb : zlen b = 32) by (unfold zlen, b; rewrite length_Z_to_be; lia).
  eexists. split; [reflexivity|]. cbn [store with_store].
  assert (Ls : zlen (splice (store m) offset b) = zlen (store m)) by (apply zlen_splice; lia).
  assert (Eg : go_slice (splice (store m) offset b) offset (offset + 32) = Val b).
  { rewrite go_slice_val by lia. f_equal. apply list_eq. intros j.
    destruct (decide (j < 32)%nat) as [Hj|Hj].
    - rewrite <- (Nat2Z.id j). rewrite slice_lookup by lia.
      rewrite splice_lookup by lia. zbool; simpl; try lia. f_equal. lia.
    - rewrite !lookup_ge_None_2; [reflexivity| |].
      + unfold zlen in Lb. lia.
      + rewrite length_take. lia. }
  rewrite Eg. repeat split.
  - intros d [= <-]. unfold b. rewrite be_to_Z_Z_to_be by apply Hv. apply Z.mod_small. exact Hv.
  - exact Ls.
  - intros i Hi Hout. rewrite splice_lookup by lia. zbool; simpl; lia || reflexivity.
Qed.

Section Witness.
#[local] Existing Instance uint256_ref.
Lemma Set32_roundtrip_witness :
  exists m', Set32 1 77 (mkMemory (replicate 40 x00) 0) = Val m' /\
             GetPtr 1 32 m' = Val (Z_to_be 32 77).
Proof.
  destruct (Set32_roundtrip uint256_ref_spec (mkMemory (replicate 40 x00) 0) 1 77)
    as (m' & H1 & H2 & _);
    [reflexivity|lia|vm_compute; discriminate|split; [lia|reflexivity]|].
  exists m'. split; assumption.
Defined.
End Witness.

(** [Copy] is a memmove: when both windows lie inside the memory it succeeds, the
    destination holds the old source bytes even if the windows overlap, and every
    byte outside the destination is unchanged. *)
Theorem Copy_correct m dst src len :
  Len m < two64 -> 0 <= dst -> 0 <= src -> 0 < len ->
  dst + len <= Len m -> src + len <= Len m ->
  exists m', Copy dst src len m = Val m' /\ Len m' = Len m /\
    (forall i, 0 <= i < len ->
       store m' !! Z.to_nat (dst + i) = store m !! Z.to_nat (src + i)) /\
    (forall i, 0 <= i -> i < dst \/ dst + len <= i ->
       store m' !! Z.to_nat i = store m !! Z.to_nat i).
Proof.
  intros Hl Hd Hs Hlen Hdl Hsl. unfold Copy. destruct (Z.eqb_spec len 0); [lia|].
  rewrite (u64_id (src + len)) by (unfold is_u64; lia). unfold Len in *.
  rewrite !go_slice_val by lia. cbn [mbind Res_bind].
  set (d := take _ (drop (Z.to_nat dst) _)). set (w := take _ (drop (Z.to_nat src) _)).
  assert (Lw : zlen w = len) by (unfold w; rewrite zlen_slice by lia; lia).
  assert (Ld : len <= zlen d) by (unfold d; rewrite zlen_slice by lia; lia).
  rewrite (take_ge w) by (unfold zlen in *; lia).
  eexists. split; [reflexivity|]. cbn [store with_store].
  split; [apply zlen_splice; lia|]. split; intros i Hi.
  - rewrite splice_lookup by lia. rewrite Lw. zbool; simpl; try lia.
    unfold w. replace (dst + i - dst) with i by lia. rewrite slice_lookup by lia. reflexivity.
  - intros Hout. rewrite splice_lookup by lia. rewrite Lw. zbool; simpl; lia || reflexivity.
Qed.

Lemma Copy_correct_witness :
  exists m', Copy 1 0 3 (mkMemory [x01; x02; x03; x04] 0) = Val m' /\
             store m' = [x01; x01; x02; x03].
Proof.
  destruct (Copy_correct (mkMemory [x01; x02; x03; x04] 0) 1 0 3) as (m' & H1 & _);
    [reflexivity|lia|lia|lia|vm_compute; discriminate|vm_compute; discriminate|].
  exists m'. split; [exact H1|]. vm_compute in H1. injection H1 as <-. reflexivity.
Defined.
