(* ===== verification/AccessList.v ===== *)
(** * Access list and transient storage

    [core/state/access_list.go] (EIP-2929/2930) and
    [core/state/transient_storage.go] (EIP-1153). The access list maps an address
    to its set of slots; in Go that inner map may be nil (an address with no slot
    yet), which is [None] here. *)

From S2P Require Import Prelude.

Abbreviation Address := Z (only parsing).
Abbreviation Hash := Z (only parsing).

Module accessList.

Record t : Type := mk { addresses : gmap Z (option (gset Z)) }.

Definition newAccessList : t := mk ∅.

Definition ContainsAddress (al : t) (address : Address) : bool :=
  match addresses al !! address with Some _ => true | None => false end.

Definition Contains (al : t) (address : Address) (slot : Hash) : bool * bool :=
  match addresses al !! address with
  | None => (false, false)
  | Some None => (true, false)
  | Some (Some slots) => (true, bool_decide (slot ∈ slots))
  end.

(** A copy has its own inner maps; nil inner maps stay nil. *)
Definition Copy (al : t) : t :=
  mk (map_fold (fun k v cp =>
        match v with
        | None => <[k := None]> cp
        | Some s => <[k := Some (set_fold (fun h acc => {[h]} ∪ acc) ∅ s)]> cp
        end) ∅ (addresses al)).

Definition AddAddress (al : t) (address : Address) : t * bool :=
  match addresses al !! address with
  | Some _ => (al, false)
  | None => (mk (<[address := None]> (addresses al)), true)
  end.

Definition AddSlot (al : t) (address : Address) (slot : Hash) : t * (bool * bool) :=
  match addresses al !! address with
  | None => (mk (<[address := Some {[slot]}]> (addresses al)), (true, true))
  | Some None => (mk (<[address := Some {[slot]}]> (addresses al)), (false, true))
  | Some (Some slots) =>
      if bool_decide (slot ∈ slots) then (al, (false, false))
      else (mk (<[address := Some ({[slot]} ∪ slots)]> (addresses al)), (false, true))
  end.

(** [len(slot)]: the length of the 32-byte hash, which the code tests where the
    number of remaining slots is meant. *)
Definition hash_length : Z := 32.

Definition DeleteSlot (al : t) (address : Address) (slot : Hash) : Res t :=
  match addresses al !! address with
  | None => Panic "reverting slot change, address not present in list"
  | Some slots =>
      let slots := (fun s : gset Z => s ∖ {[slot]}) <$> slots in
      let al := mk (<[address := slots]> (addresses al)) in
      if hash_length =? 0 then Val (mk (<[address := None]> (addresses al))) else Val al
  end.

Definition DeleteAddress (al : t) (address : Address) : Res t :=
  match addresses al !! address with
  | None => Panic "reverting address change, address not present in list"
  | Some slots =>
      if bool_decide (0 < size (default ∅ slots))%nat
      then Panic "reverting address change, address has slots"
      else Val (mk (delete address (addresses al)))
  end.

(** ** Observations

    What the rest of the state can see of an access list. Removing the last slot
    of an address leaves an empty inner map where a nil one was, so undoing an
    addition restores the observations, not the representation. *)

Definition has_address (al : t) (a : Address) : Prop := is_Some (addresses al !! a).
Definition has_slot (al : t) (a : Address) (s : Hash) : Prop :=
  exists slots, addresses al !! a = Some (Some slots) /\ s ∈ slots.

#[export] Instance al_equiv : Equiv t := fun al1 al2 =>
  forall a s, Contains al1 a s = Contains al2 a s.

#[export] Instance al_equivalence : Equivalence (≡@{t}).
Proof.
  split; unfold Reflexive, Symmetric, Transitive, equiv, al_equiv.
  - reflexivity.
  - intros x y H a s. symmetry. apply H.
  - intros x y z H1 H2 a s. rewrite H1. apply H2.
Qed.

Lemma Contains_has al a s :
  Contains al a s = (bool_decide (is_Some (addresses al !! a)),
                     match addresses al !! a with
                     | Some (Some slots) => bool_decide (s ∈ slots)
                     | _ => false
                     end).
Proof. unfold Contains. destruct (addresses al !! a) as [[slots|]|]; reflexivity. Qed.

Lemma ContainsAddress_Contains al a s : ContainsAddress al a = (Contains al a s).1.
Proof. unfold ContainsAddress, Contains. destruct (addresses al !! a) as [[|]|]; reflexivity. Qed.

#[export] Instance ContainsAddress_proper : Proper ((≡) ==> eq ==> eq) ContainsAddress.
Proof.
  intros x y H a ? <-. rewrite (ContainsAddress_Contains x a 0), (ContainsAddress_Contains y a 0).
  rewrite (H a 0). reflexivity.
Qed.

#[export] Instance Contains_proper : Proper ((≡) ==> eq ==> eq ==> eq) Contains.
Proof. intros x y H a ? <- s ? <-. apply H. Qed.

Lemma AddAddress_Contains al a b s :
  Contains (AddAddress al a).1 b s =
  (bool_decide (b = a) || (Contains al b s).1, (Contains al b s).2).
Proof.
  unfold AddAddress. destruct (addresses al !! a) as [o|] eqn:E; cbn [fst].
  - destruct (bool_decide_reflect (b = a)) as [->|]; [|destruct (Contains al b s); reflexivity].
    unfold Contains. rewrite E. destruct o; reflexivity.
  - unfold Contains. cbn [addresses]. rewrite lookup_insert.
    case_decide as Hd.
    + subst b. rewrite E, bool_decide_true by reflexivity. reflexivity.
    + rewrite bool_decide_false by congruence.
      destruct (addresses al !! b) as [[|]|]; reflexivity.
Qed.

Lemma AddSlot_Contains al a s b k :
  Contains (AddSlot al a s).1 b k =
  (bool_decide (b = a) || (Contains al b k).1,
   bool_decide (b = a /\ k = s) || (Contains al b k).2).
Proof.
  assert (Hne : b <> a -> Contains (AddSlot al a s).1 b k = Contains al b k).
  { intros Hb. unfold AddSlot. destruct (addresses al !! a) as [[slots|]|]; cbn [fst];
      [case_bool_decide|..]; unfold Contains; cbn [fst addresses];
      rewrite ?lookup_insert_ne by congruence; reflexivity. }
  destruct (bool_decide_reflect (b = a)) as [->|Hb].
  2: { rewrite Hne by assumption. rewrite bool_decide_false by tauto.
       destruct (Contains al b k); reflexivity. }
  clear Hne. unfold AddSlot. destruct (addresses al !! a) as [[slots|]|] eqn:E; cbn [fst].
  - case_bool_decide as Hin; cbn [fst]; unfold Contains; cbn [addresses];
      rewrite ?lookup_insert_eq, ?E; cbn [fst snd]; f_equal.
    + destruct (bool_decide_reflect (a = a /\ k = s)) as [[_ ->]|]; [|reflexivity].
      rewrite bool_decide_true by assumption. reflexivity.
    + rewrite <- bool_decide_or. apply bool_decide_ext.
      rewrite elem_of_union, elem_of_singleton. tauto.
  - unfold Contains. cbn [addresses]. rewrite lookup_insert_eq, E. cbn [fst snd].
    rewrite !orb_false_r. f_equal. apply bool_decide_ext. rewrite elem_of_singleton. tauto.
  - unfold Contains. cbn [addresses]. rewrite lookup_insert_eq, E. cbn [fst snd].
    rewrite !orb_false_r. f_equal. apply bool_decide_ext. rewrite elem_of_singleton. tauto.
Qed.

Lemma AddAddress_flag al a : (AddAddress al a).2 = negb (ContainsAddress al a).
Proof. unfold AddAddress, ContainsAddress. destruct (addresses al !! a); reflexivity. Qed.

Lemma AddSlot_flags al a s :
  (AddSlot al a s).2 = (negb (Contains al a s).1, negb (Contains al a s).2).
Proof.
  unfold AddSlot, Contains. destruct (addresses al !! a) as [[slots|]|]; cbn; try reflexivity.
  case_bool_decide; reflexivity.
Qed.

(** Deleting the slot of a present address removes exactly that slot. *)
Lemma DeleteSlot_Contains al a s :
  ContainsAddress al a = true ->
  exists al', DeleteSlot al a s = Val al' /\
    forall b k, Contains al' b k =
      ((Contains al b k).1, negb (bool_decide (b = a /\ k = s)) && (Contains al b k).2).
Proof.
  unfold ContainsAddress, DeleteSlot. destruct (addresses al !! a) as [o|] eqn:E; [|discriminate].
  intros _. eexists. split; [reflexivity|]. intros b k. unfold Contains. cbn [addresses].
  rewrite lookup_insert. case_decide as Hd.
  - subst b. rewrite E. destruct o as [slots|]; cbn; [|rewrite andb_false_r; reflexivity].
    f_equal. rewrite <- bool_decide_not, <- bool_decide_and. apply bool_decide_ext.
    rewrite elem_of_difference, elem_of_singleton. tauto.
  - rewrite bool_decide_false by (intros [? _]; congruence). cbn.
    destruct (addresses al !! b) as [[|]|]; reflexivity.
Qed.

(** Deleting an address with no slot left removes exactly that address. *)
Lemma DeleteAddress_Contains al a :
  ContainsAddress al a = true -> (forall s, (Contains al a s).2 = false) ->
  exists al', DeleteAddress al a = Val al' /\
    forall b k, Contains al' b k =
      (negb (bool_decide (b = a)) && (Contains al b k).1, (Contains al b k).2).
Proof.
  unfold ContainsAddress, DeleteAddress. intros H Hs.
  destruct (addresses al !! a) as [o|] eqn:E; [|discriminate].
  assert (Hempty : default ∅ o = (∅ : gset Z)).
  { destruct o as [slots|]; [|reflexivity]. apply set_eq. intros x. split; [|set_solver].
    intros Hx. specialize (Hs x). unfold Contains in Hs. rewrite E in Hs. cbn in Hs.
    rewrite bool_decide_true in Hs by assumption. discriminate. }
  rewrite Hempty, size_empty, bool_decide_false by lia.
  eexists. split; [reflexivity|]. intros b k. unfold Contains at 1. cbn [addresses].
  rewrite lookup_delete. case_decide as Hd.
  - subst b. rewrite bool_decide_true by reflexivity. cbn. rewrite Hs. reflexivity.
  - rewrite bool_decide_false by congruence. cbn. unfold Contains.
    destruct (addresses al !! b) as [[|]|]; reflexivity.
Qed.

(** Each deletion undoes the addition it is paired with. *)
Lemma AddAddress_back al a :
  ContainsAddress al a = false ->
  exists al', DeleteAddress (AddAddress al a).1 a = Val al' /\ al' ≡ al.
Proof.
  intros Ha.
  assert (Hn : forall k, Contains al a k = (false, false)).
  { intros k. unfold ContainsAddress, Contains in *. by destruct (addresses al !! a). }
  destruct (DeleteAddress_Contains (AddAddress al a).1 a) as (al' & E & H).
  - rewrite (ContainsAddress_Contains _ _ 0), AddAddress_Contains, bool_decide_true; reflexivity.
  - intros k. by rewrite AddAddress_Contains, Hn.
  - exists al'. split; [exact E|]. intros b k. rewrite H, AddAddress_Contains. cbn [fst snd].
    destruct (bool_decide_reflect (b = a)) as [->|]; [by rewrite Hn|by destruct (Contains al b k)].
Qed.

Lemma AddSlot_back al a s :
  Contains al a s = (true, false) ->
  exists al', DeleteSlot (AddSlot al a s).1 a s = Val al' /\ al' ≡ al.
Proof.
  intros Hc. destruct (DeleteSlot_Contains (AddSlot al a s).1 a s) as (al' & E & H).
  - rewrite (ContainsAddress_Contains _ _ s), AddSlot_Contains, bool_decide_true; reflexivity.
  - exists al'. split; [exact E|]. intros b k. rewrite H, AddSlot_Contains. cbn [fst snd].
    destruct (bool_decide_reflect (b = a /\ k = s)) as [[-> ->]|Hbk]; cbn [negb andb orb].
    + by rewrite Hc, orb_true_r.
    + destruct (bool_decide_reflect (b = a)) as [->|]; [|by destruct (Contains al b k)].
      cbn [orb].
      assert (Hk : (Contains al a k).1 = true)
        by (rewrite <- (ContainsAddress_Contains al a k), (ContainsAddress_Contains al a s); by rewrite Hc).
      destruct (Contains al a k); cbn in *. by subst.
Qed.

(** With the address absent, adding a slot adds the address first. *)
Lemma AddSlot_split al a s :
  ContainsAddress al a = false -> AddSlot al a s = ((AddSlot (AddAddress al a).1 a s).1, (true, true)).
Proof.
  unfold ContainsAddress, AddSlot, AddAddress. destruct (addresses al !! a) eqn:E; [done|]. intros _.
  cbn. rewrite lookup_insert_eq. cbn. by rewrite insert_insert_eq.
Qed.

(** The deletions cannot tell equivalent lists apart. *)
Lemma DeleteAddress_inv al al' a :
  DeleteAddress al a = Val al' -> ContainsAddress al a = true /\ forall s, (Contains al a s).2 = false.
Proof.
  unfold DeleteAddress, ContainsAddress, Contains.
  destruct (addresses al !! a) as [o|]; [|discriminate]. case_bool_decide as Hs; [discriminate|].
  intros _. split; [reflexivity|]. intros s. destruct o as [slots|]; [|reflexivity]. cbn in *.
  assert (E : size slots = 0%nat) by lia. apply size_empty_iff in E.
  apply bool_decide_false. set_solver.
Qed.

Lemma DeleteAddress_equiv al1 al2 al1' a :
  al1 ≡ al2 -> DeleteAddress al1 a = Val al1' ->
  exists al2', DeleteAddress al2 a = Val al2' /\ al1' ≡ al2'.
Proof.
  intros E H. destruct (DeleteAddress_inv _ _ _ H) as [Hc Hs].
  destruct (DeleteAddress_Contains al1 a Hc Hs) as (x & Ex & Hx). rewrite H in Ex. injection Ex as <-.
  destruct (DeleteAddress_Contains al2 a) as (y & Ey & Hy).
  - by rewrite <- E.
  - intros s. rewrite <- (E a s). apply Hs.
  - exists y. split; [exact Ey|]. intros b k. by rewrite Hx, Hy, (E b k).
Qed.

Lemma DeleteSlot_equiv al1 al2 al1' a s :
  al1 ≡ al2 -> DeleteSlot al1 a s = Val al1' ->
  exists al2', DeleteSlot al2 a s = Val al2' /\ al1' ≡ al2'.
Proof.
  intros E H. assert (Hc : ContainsAddress al1 a = true).
  { unfold DeleteSlot in H. unfold ContainsAddress. by destruct (addresses al1 !! a). }
  destruct (DeleteSlot_Contains al1 a s Hc) as (x & Ex & Hx). rewrite H in Ex. injection Ex as <-.
  destruct (DeleteSlot_Contains al2 a s) as (y & Ey & Hy); [by rewrite <- E|].
  exists y. split; [exact Ey|]. intros b k. by rewrite Hx, Hy, (E b k).
Qed.

(** Undoing an addition the way the journal does: the slot first, then the address,
    each only if it was new. *)
Definition undo_add (al : t) (a : Address) (s : Hash) (addrMod slotMod : bool) : Res t :=
  al ← (if slotMod then DeleteSlot al a s else Val al);
  if addrMod then DeleteAddress al a else Val al.

Lemma Contains_absent al a s : (Contains al a s).1 = false -> forall k, (Contains al a k).2 = false.
Proof.
  unfold Contains. intros H k. destruct (addresses al !! a) as [[|]|]; [discriminate..|reflexivity].
Qed.

(** Adding a slot warms exactly that address and slot and reports which of them were
    cold; undoing it in the journal's order never panics and restores every
    observation of the list. *)
Theorem AddSlot_undo al a s :
  let '(al', (addrMod, slotMod)) := AddSlot al a s in
  (addrMod, slotMod) = (negb (ContainsAddress al a), negb (Contains al a s).2) /\
  (forall b k, Contains al' b k =
     (bool_decide (b = a) || (Contains al b k).1,
      bool_decide (b = a /\ k = s) || (Contains al b k).2)) /\
  exists al'', undo_add al' a s addrMod slotMod = Val al'' /\ al'' ≡ al.
Proof.
  pose proof (AddSlot_Contains al a s) as Hin. pose proof (AddSlot_flags al a s) as Hf.
  destruct (AddSlot al a s) as [al' [am sm]]. cbn [fst snd] in Hin, Hf.
  rewrite (ContainsAddress_Contains al a s). split; [exact Hf|]. split; [exact Hin|].
  injection Hf as -> ->. unfold undo_add.
  assert (Hpres : forall x, (forall b k, (Contains x b k).1 = (Contains al' b k).1) -> ContainsAddress x a = true).
  { intros x Hx. rewrite (ContainsAddress_Contains x a s), Hx, Hin, bool_decide_true by reflexivity.
    reflexivity. }
  assert (Hstep : exists x, (if negb (Contains al a s).2 then DeleteSlot al' a s else Val al') = Val x /\
    forall b k, Contains x b k = (bool_decide (b = a) || (Contains al b k).1, (Contains al b k).2)).
  { destruct (Contains al a s).2 eqn:Es; cbn [negb].
    - exists al'. split; [reflexivity|]. intros b k. rewrite Hin. f_equal.
      destruct (bool_decide_reflect (b = a /\ k = s)) as [[-> ->]|]; [by rewrite Es|reflexivity].
    - destruct (DeleteSlot_Contains al' a s) as (x & -> & Hx); [by apply Hpres|].
      exists x. split; [reflexivity|]. intros b k. rewrite Hx, Hin. cbn [fst snd]. f_equal.
      destruct (bool_decide_reflect (b = a /\ k = s)) as [[-> ->]|]; [by rewrite Es|reflexivity]. }
  destruct Hstep as (x & -> & Hx). cbn [mbind Res_bind].
  destruct (Contains al a s).1 eqn:Ea; cbn [negb].
  - exists x. split; [reflexivity|]. intros b k. rewrite Hx.
    destruct (bool_decide_reflect (b = a)) as [->|]; [|by destruct (Contains al b k)].
    rewrite <- (ContainsAddress_Contains al a s), (ContainsAddress_Contains al a k) in Ea.
    cbn [orb]. by destruct (Contains al a k) as [b1 b2]; cbn in *; subst.
  - pose proof (Contains_absent al a s Ea) as Habs.
    destruct (DeleteAddress_Contains x a) as (y & -> & Hy).
    + apply Hpres. intros b k. rewrite Hx, Hin. reflexivity.
    + intros k. rewrite Hx. apply Habs.
    + exists y. split; [reflexivity|]. intros b k. rewrite Hy, Hx. cbn [fst snd].
      destruct (bool_decide_reflect (b = a)) as [->|]; cbn; [|by destruct (Contains al b k)].
      rewrite <- (ContainsAddress_Contains al a s), (ContainsAddress_Contains al a k) in Ea.
      by destruct (Contains al a k) as [b1 b2]; cbn in *; subst.
Qed.
End accessList.

Module transientStorage.

Abbreviation t := (gmap Z (gmap Z Z)).

Definition newTransientStorage : t := ∅.

Definition Set_ (ts : t) (addr : Address) (key : Hash) (value : Z) : t :=
  let ts := match ts !! addr with Some _ => ts | None => <[addr := ∅]> ts end in
  <[addr := <[key := value]> (default ∅ (ts !! addr))]> ts.

Definition Get (ts : t) (addr : Address) (key : Hash) : Z :=
  match ts !! addr with
  | None => 0
  | Some val => default 0 (val !! key)
  end.

Lemma Get_Set ts addr key v a k :
  Get (Set_ ts addr key v) a k = if decide (a = addr /\ k = key) then v else Get ts a k.
Proof.
  unfold Get, Set_. rewrite lookup_insert. destruct (decide (addr = a)) as [->|Ha].
  - assert (E : default ∅ ((match ts !! a with Some _ => ts | None => <[a:=∅]> ts end) !! a)
                = (default ∅ (ts !! a) : gmap Z Z)).
    { destruct (ts !! a) eqn:Ea; [rewrite Ea; reflexivity|]. rewrite lookup_insert_eq. reflexivity. }
    rewrite E, lookup_insert. destruct (decide (key = k)) as [->|Hk].
    + rewrite decide_True by auto. reflexivity.
    + rewrite decide_False by (intros [_ ->]; contradiction).
      destruct (ts !! a); [reflexivity|]. cbn. rewrite lookup_empty. reflexivity.
  - rewrite decide_False by (intros [-> _]; contradiction).
    destruct (ts !! addr); [reflexivity|]. rewrite lookup_insert_ne by assumption. reflexivity.
Qed.
End transientStorage.
