(* ===== verification/StateDB.v ===== *)
(** * The state interface of the virtual machine

    The operations of [state.IntraBlockState] the EVM calls, as a class: the
    virtual machine is defined and proved against it, and the state component
    provides the implementation. Each operation is a state transformer returning
    what the Go method returns, the [error] included (an error does not undo the
    mutations made before it). *)

From S2P Require Import Prelude Errors AccessList.

Record Log : Type := mkLog {
  log_Address : Z;
  log_Topics : list Z;
  log_Data : bytes;
  log_BlockNumber : Z
}.

Class StateDB : Type := {
  ibs : Type;
  GetBalance : Z -> M ibs (Z * option Error);
  AddBalance : Z -> Z -> M ibs (option Error);
  SubBalance : Z -> Z -> M ibs (option Error);
  GetNonce : Z -> M ibs (Z * option Error);
  SetNonce : Z -> Z -> M ibs (option Error);
  GetCode : Z -> M ibs (bytes * option Error);
  GetCodeSize : Z -> M ibs (Z * option Error);
  GetCodeHash : Z -> M ibs (Z * option Error);
  SetCode : Z -> bytes -> M ibs (option Error);
  ResolveCode : Z -> M ibs (bytes * option Error);
  ResolveCodeHash : Z -> M ibs (Z * option Error);
  GetDelegatedDesignation : Z -> M ibs (Z * bool * option Error);
  GetState : Z -> Z -> M ibs (Z * option Error);
  GetCommittedState : Z -> Z -> M ibs (Z * option Error);
  SetState : Z -> Z -> Z -> M ibs (option Error);
  HasStorage : Z -> M ibs (bool * option Error);
  GetTransientState : Z -> Z -> M ibs Z;
  SetTransientState : Z -> Z -> Z -> M ibs unit;
  Exist : Z -> M ibs (bool * option Error);
  Empty : Z -> M ibs (bool * option Error);
  HasSelfdestructed : Z -> M ibs (bool * option Error);
  Selfdestruct : Z -> M ibs (bool * option Error);
  Selfdestruct6780 : Z -> M ibs (option Error);
  CreateAccount : Z -> bool -> M ibs (option Error);
  AddLog : Log -> M ibs unit;
  AddRefund : Z -> M ibs unit;
  SubRefund : Z -> M ibs (option Error);
  AddAddressToAccessList : Z -> M ibs bool;
  AddSlotToAccessList : Z -> Z -> M ibs (bool * bool);
  Snapshot : M ibs Z;
  RevertToSnapshot : Z -> M ibs unit
}.

(** What the virtual machine relies on for its own safety: on well-formed states
    the operations return (no panic), keep the state well formed, and return
    numbers of the right width. *)
Class StateDBSafe (DB : StateDB) : Type := {
  wf : ibs -> Prop;
  GetBalance_safe a s : wf s ->
    wp False (GetBalance a) s (fun r s' => wf s' /\ is_u256 r.1);
  AddBalance_safe a v s : wf s -> is_u256 v ->
    wp False (AddBalance a v) s (fun _ s' => wf s');
  SubBalance_safe a v s : wf s -> is_u256 v ->
    wp False (SubBalance a v) s (fun _ s' => wf s');
  GetCode_safe a s : wf s ->
    wp False (GetCode a) s (fun r s' => wf s' /\ go_len r.1);
  GetCodeSize_safe a s : wf s ->
    wp False (GetCodeSize a) s (fun r s' => wf s' /\ is_u64 r.1);
  GetCodeHash_safe a s : wf s ->
    wp False (GetCodeHash a) s (fun r s' => wf s' /\ is_u256 r.1);
  GetDelegatedDesignation_safe a s : wf s ->
    wp False (GetDelegatedDesignation a) s (fun _ s' => wf s');
  GetState_safe a k s : wf s ->
    wp False (GetState a k) s (fun r s' => wf s' /\ is_u256 r.1);
  GetCommittedState_safe a k s : wf s ->
    wp False (GetCommittedState a k) s (fun r s' => wf s' /\ is_u256 r.1);
  SetState_safe a k v s : wf s -> is_u256 v ->
    wp False (SetState a k v) s (fun _ s' => wf s');
  GetTransientState_safe a k s : wf s ->
    wp False (GetTransientState a k) s (fun r s' => wf s' /\ is_u256 r);
  SetTransientState_safe a k v s : wf s -> is_u256 v ->
    wp False (SetTransientState a k v) s (fun _ s' => wf s');
  Exist_safe a s : wf s -> wp False (Exist a) s (fun _ s' => wf s');
  Empty_safe a s : wf s -> wp False (Empty a) s (fun _ s' => wf s');
  HasSelfdestructed_safe a s : wf s -> wp False (HasSelfdestructed a) s (fun _ s' => wf s');
  Selfdestruct_safe a s : wf s -> wp False (Selfdestruct a) s (fun _ s' => wf s');
  Selfdestruct6780_safe a s : wf s -> wp False (Selfdestruct6780 a) s (fun _ s' => wf s');
  AddLog_safe l s : wf s -> wp False (AddLog l) s (fun _ s' => wf s');
  AddRefund_safe g s : wf s -> wp False (AddRefund g) s (fun _ s' => wf s');
  SubRefund_safe g s : wf s -> wp False (SubRefund g) s (fun _ s' => wf s');
  AddAddressToAccessList_safe a s : wf s ->
    wp False (AddAddressToAccessList a) s (fun _ s' => wf s');
  AddSlotToAccessList_safe a k s : wf s ->
    wp False (AddSlotToAccessList a k) s (fun _ s' => wf s')
}.
