(* ===== verification/Machine.v ===== *)
(** * The machine: contexts, contract, frame

    The records the interpreter works on: chain rules, block and transaction
    context, configuration, the [Contract] of a call ([core/vm/contract.go]), the
    part of [EVM] and [VM] that outlives a call ([World]) and the state of one
    running call ([Frame]). *)

From S2P Require Export Prelude Uint256 Params Errors Common Analysis Stack Memory AccessList StateDB.

(** ** Third-party parameters *)

(** [sha3.NewLegacyKeccak256]: the 32-byte digest as a number. *)
Class Keccak : Type := keccak256 : bytes -> Z.
Class KeccakSpec (K : Keccak) : Prop := keccak256_range b : is_u256 (keccak256 b).

(** [simplelru.LRU[common.Hash, bitvec]]: [lru_Get] may refresh recency, [lru_Add]
    may evict. [lru_contents] is what a lookup would find. *)
Class LRU : Type := {
  lru : Type;
  lru_Get : Z -> lru -> option bitvec * lru;
  lru_Add : Z -> bitvec -> lru -> lru
}.
Class LRUSpec (L : LRU) : Type := {
  lru_contents : lru -> Z -> option bitvec;
  lru_Get_spec k c : (lru_Get k c).1 = lru_contents c k /\
                     forall k', lru_contents (lru_Get k c).2 k' = lru_contents c k';
  lru_Add_spec k v c k' v' :
    lru_contents (lru_Add k v c) k' = Some v' -> (k' = k /\ v' = v) \/ lru_contents c k' = Some v'
}.

(** ** Contexts *)

(** [chain.Rules]. *)
Record Rules : Type := mkRules {
  ChainID : Z;
  IsHomestead : bool; IsTangerineWhistle : bool; IsSpuriousDragon : bool;
  IsByzantium : bool; IsConstantinople : bool; IsPetersburg : bool;
  IsIstanbul : bool; IsBerlin : bool; IsLondon : bool; IsShanghai : bool;
  IsCancun : bool; IsNapoli : bool; IsBhilai : bool;
  IsPrague : bool; IsOsaka : bool; IsAura : bool
}.

(** [vm.Config], less the tracer and the flags that only steer callers. *)
Record Config : Type := mkConfig {
  NoRecursion : bool;
  SkipAnalysis : bool;
  RestoreState : bool;
  NoBaseFee : bool;
  ExtraEips : list Z
}.

Definition HasEip3860 (c : Config) (rules : Rules) : bool :=
  existsb (Z.eqb 3860) (ExtraEips c) || IsShanghai rules.

(** A precompiled contract: its price and its body, neither of which changes the state. *)
Record PrecompiledContract : Type := mkPrecompiled {
  RequiredGas : bytes -> Res Z;
  RunPrecompile : bytes -> Res (bytes * option Error)
}.

(** A precompile states a price, and returns when it is paid. *)
Definition priced_ok (p : PrecompiledContract) (input : bytes) (gas : Z) : Prop :=
  exists g, RequiredGas p input = Val g /\ 0 <= g /\ (g <= gas -> exists r, RunPrecompile p input = Val r).

Section Machine.
Context {DB : StateDB} {L : LRU}.

(** [evmtypes.BlockContext]; nilable pointers are options. *)
Record BlockContext : Type := mkBlockContext {
  CanTransfer : Z -> Z -> M ibs (bool * option Error);
  Transfer : Z -> Z -> Z -> bool -> M ibs (option Error);
  GetHash : Z -> Z * option Error;
  Coinbase : Z;
  GasLimit : Z;
  MaxGasLimit : bool;
  BlockNumber : Z;
  Time : Z;
  Difficulty : option Z;
  BaseFee : option Z;
  PrevRanDao : option Z;
  BlobBaseFee : option Z
}.

(** [evmtypes.TxContext], the fields opcodes read. *)
Record TxContext : Type := mkTxContext {
  Origin : Z;
  GasPrice : option Z;
  BlobHashes : list Z
}.

(** The immutable part of [EVM]. [precompiles] is [Precompiles(chainRules)];
    [borIsAhmedabad] is [chainConfig.Bor] with its [IsAhmedabad]; [abortLoad n] is
    what the [n]-th load of the [abort] flag observes (another goroutine may call
    [Cancel] at any time). *)
Record Env : Type := mkEnv {
  Context : BlockContext;
  Tx : TxContext;
  chainRules : Rules;
  config : Config;
  precompiles : Z -> option PrecompiledContract;
  borIsAhmedabad : option (Z -> bool);
  abortLoad : nat -> bool
}.

(** ** Contract *)

(** [ContractRef]: an externally owned caller, or a running contract of which the
    callee may read the address and, for a delegate call, the caller and value. *)
Inductive ContractRef : Type :=
| AccountRef (a : Z)
| ContractOf (self callerAddress : Z) (value : option Z).

Definition ref_Address (r : ContractRef) : Z :=
  match r with AccountRef a => a | ContractOf self _ _ => self end.

Record Contract : Type := mkContract {
  CallerAddress : Z;
  caller : ContractRef;
  self : Z;
  analysis : option bitvec;
  skipAnalysis : bool;
  Code : bytes;
  CodeHash : Z;
  CodeAddr : option Z;
  Input : bytes;
  Gas : Z;
  value : option Z
}.

Definition NewContract (c : ContractRef) (addr : Z) (v : option Z) (gas : Z) (skip : bool)
    : Contract :=
  mkContract (ref_Address c) c addr None skip [] 0 None [] gas v.

Definition with_Gas (c : Contract) (g : Z) : Contract :=
  mkContract (CallerAddress c) (caller c) (self c) (analysis c) (skipAnalysis c) (Code c)
    (CodeHash c) (CodeAddr c) (Input c) g (value c).
Definition with_analysis (c : Contract) (a : option bitvec) : Contract :=
  mkContract (CallerAddress c) (caller c) (self c) a (skipAnalysis c) (Code c)
    (CodeHash c) (CodeAddr c) (Input c) (Gas c) (value c).
Definition with_Input (c : Contract) (i : bytes) : Contract :=
  mkContract (CallerAddress c) (caller c) (self c) (analysis c) (skipAnalysis c) (Code c)
    (CodeHash c) (CodeAddr c) i (Gas c) (value c).

Definition SetCallCode (addr : Z) (hash : Z) (code : bytes) (c : Contract) : Contract :=
  mkContract (CallerAddress c) (caller c) (self c) (analysis c) (skipAnalysis c) code
    hash (Some addr) (Input c) (Gas c) (value c).

(** [AsDelegate]: the type assertion on the caller panics when it is not a contract. *)
Definition AsDelegate (c : Contract) : Res Contract :=
  match caller c with
  | AccountRef _ => Panic "interface conversion: vm.ContractRef is vm.AccountRef"
  | ContractOf _ callerAddress v =>
      Val (mkContract callerAddress (caller c) (self c) (analysis c) (skipAnalysis c) (Code c)
             (CodeHash c) (CodeAddr c) (Input c) (Gas c) v)
  end.

Definition GetOp (c : Contract) (n : Z) : Res Z :=
  if n <? zlen (Code c) then b ← go_index (Code c) n; mret (byteZ b) else mret OpCode.STOP.

Definition UseGas (gas : Z) (c : Contract) : Contract * bool :=
  if Gas c <? gas then (c, false) else (with_Gas c (Gas c - gas), true).

Definition RefundGas (gas : Z) (c : Contract) : Contract :=
  if gas =? 0 then c else with_Gas c (u64 (Gas c + gas)).

(** [JumpDestCache]: the LRU and its statistics. *)
Record JumpDestCache : Type := mkJumpDestCache { jd_lru : lru; hit : Z; total : Z }.

Definition isCode (c : Contract) (jd : JumpDestCache) (udest : Z)
    : Res (bool * Contract * JumpDestCache) :=
  if negb (CodeHash c =? 0) then
    let jd := mkJumpDestCache (jd_lru jd) (hit jd) (total jd + 1) in
    let '(found, l) := lru_Get (CodeHash c) (jd_lru jd) in
    '(an, jd) ← match found with
                | None =>
                    an ← codeBitmap (Code c);
                    mret (an, mkJumpDestCache (lru_Add (CodeHash c) an l) (hit jd) (total jd))
                | Some an => mret (an, mkJumpDestCache l (hit jd + 1) (total jd))
                end;
    r ← codeSegment an udest;
    mret (r, with_analysis c (Some an), jd)
  else
    an ← match analysis c with None => codeBitmap (Code c) | Some an => mret an end;
    r ← codeSegment an udest;
    mret (r, with_analysis c (Some an), jd).

(** [World]: the state shared by nested calls. [readOnly], [returnData] and [depth]
    live in the interpreter, the rest in [EVM]. *)
Record World : Type := mkWorld {
  readOnly : bool;
  returnData : bytes;
  depth : Z;
  callGasTemp : Z;
  statedb : ibs;
  jumpDests : JumpDestCache;
  abortLoads : nat
}.

Definition with_readOnly (w : World) b :=
  mkWorld b (returnData w) (depth w) (callGasTemp w) (statedb w) (jumpDests w) (abortLoads w).
Definition with_returnData (w : World) d :=
  mkWorld (readOnly w) d (depth w) (callGasTemp w) (statedb w) (jumpDests w) (abortLoads w).
Definition with_depth (w : World) d :=
  mkWorld (readOnly w) (returnData w) d (callGasTemp w) (statedb w) (jumpDests w) (abortLoads w).
Definition SetCallGasTemp (gas : Z) (w : World) :=
  mkWorld (readOnly w) (returnData w) (depth w) gas (statedb w) (jumpDests w) (abortLoads w).
Definition with_statedb (s : ibs) (w : World) :=
  mkWorld (readOnly w) (returnData w) (depth w) (callGasTemp w) s (jumpDests w) (abortLoads w).
Definition with_jumpDests (w : World) j :=
  mkWorld (readOnly w) (returnData w) (depth w) (callGasTemp w) (statedb w) j (abortLoads w).
Definition with_abortLoads (w : World) n :=
  mkWorld (readOnly w) (returnData w) (depth w) (callGasTemp w) (statedb w) (jumpDests w) n.

(** [evm.abort.Load()]. *)
Definition Cancelled (env : Env) : M World bool := fun w =>
  Val (abortLoad env (abortLoads w), with_abortLoads w (S (abortLoads w))).

(** ** Frame: one call being interpreted *)

Record Frame : Type := mkFrame {
  pc : Z;
  stk : stack;
  mem : Memory;
  contract : Contract;
  world : World
}.

Definition with_pc (f : Frame) p := mkFrame p (stk f) (mem f) (contract f) (world f).
Definition with_stk (f : Frame) s := mkFrame (pc f) s (mem f) (contract f) (world f).
Definition with_mem (f : Frame) m := mkFrame (pc f) (stk f) m (contract f) (world f).
Definition with_contract (f : Frame) c := mkFrame (pc f) (stk f) (mem f) c (world f).
Definition with_world (w : World) (f : Frame) := mkFrame (pc f) (stk f) (mem f) (contract f) w.

(** Lifting of the component operations to the frame. *)
Definition onWorld {A} (m : M World A) : M Frame A := zoom world with_world m.
Definition onState {A} (m : M ibs A) : M Frame A := onWorld (zoom statedb with_statedb m).

Definition s_pop : M Frame Z := fun f =>
  match pop (stk f) with
  | Val (d, st) => Val (d, with_stk f st)
  | Panic e => Panic e
  | OutOfFuel => OutOfFuel
  end.
Definition s_push (d : Z) : M Frame unit := modify (fun f => with_stk f (push d (stk f))).
(** [push] of a pointer: a nil dereference panics. *)
Definition s_push_ptr (d : option Z) : M Frame unit :=
  match d with Some d => s_push d | None => gopanic "invalid memory address or nil pointer dereference" end.
Definition s_peek : M Frame Z := fun f => lift (peek (stk f)) f.
Definition s_poke (d : Z) : M Frame unit := fun f =>
  match poke d (stk f) with
  | Val st => Val (tt, with_stk f st)
  | Panic e => Panic e
  | OutOfFuel => OutOfFuel
  end.
Definition s_back (n : Z) : M Frame Z := fun f => lift (Back n (stk f)) f.
Definition s_lift (g : stack -> Res stack) : M Frame unit := fun f =>
  match g (stk f) with
  | Val st => Val (tt, with_stk f st)
  | Panic e => Panic e
  | OutOfFuel => OutOfFuel
  end.
Definition m_read (g : Memory -> Res bytes) : M Frame bytes := fun f => lift (g (mem f)) f.
Definition m_write (g : Memory -> Res Memory) : M Frame unit := fun f =>
  match g (mem f) with
  | Val m => Val (tt, with_mem f m)
  | Panic e => Panic e
  | OutOfFuel => OutOfFuel
  end.
Definition get_contract : M Frame Contract := gets contract.
Definition get_world : M Frame World := gets world.
Definition useGas (gas : Z) : M Frame bool := fun f =>
  let '(c, ok) := UseGas gas (contract f) in Val (ok, with_contract f c).
Definition refundGas (gas : Z) : M Frame unit :=
  modify (fun f => with_contract f (RefundGas gas (contract f))).

Section ValidJumpdest.
Context {U : Uint256}.

(** [validJumpdest]: first whether the destination is valid, second whether the
    bitmap was used. *)
Definition validJumpdest (dest : Z) : M Frame (bool * bool) := fun f =>
  let c := contract f in
  let '(udest, overflow) := u_Uint64WithOverflow dest in
  if overflow || (zlen (Code c) <=? udest) then Val ((false, false), f)
  else
    match go_index (Code c) udest with
    | Val b =>
        if negb (byteZ b =? OpCode.JUMPDEST) then Val ((false, false), f)
        else if skipAnalysis c then Val ((true, false), f)
        else
          match isCode c (jumpDests (world f)) udest with
          | Val (r, c', jd) =>
              Val ((r, true),
                   with_world (with_jumpDests (world f) jd) (with_contract f c'))
          | Panic e => Panic e
          | OutOfFuel => OutOfFuel
          end
    | Panic e => Panic e
    | OutOfFuel => OutOfFuel
    end.
End ValidJumpdest.

(** ** The calls an instruction may make

    [interpreter.evm.Call], [CallCode], [DelegateCall], [StaticCall], [Create] and
    [Create2]: instructions reach them through the interpreter they are given. *)
Record CallOps : Type := mkCallOps {
  evm_Call : ContractRef -> Z -> bytes -> Z -> Z -> bool -> M World (bytes * Z * option Error);
  evm_CallCode : ContractRef -> Z -> bytes -> Z -> Z -> M World (bytes * Z * option Error);
  evm_DelegateCall : ContractRef -> Z -> bytes -> Z -> M World (bytes * Z * option Error);
  evm_StaticCall : ContractRef -> Z -> bytes -> Z -> M World (bytes * Z * option Error);
  evm_Create : ContractRef -> bytes -> Z -> Z -> bool -> M World (bytes * Z * Z * option Error);
  evm_Create2 : ContractRef -> bytes -> Z -> Z -> Z -> bool -> M World (bytes * Z * Z * option Error)
}.

(** What an instruction sees of the interpreter. *)
Record Interp : Type := mkInterp { env : Env; calls : CallOps }.

(** The reference a running contract passes to its callees. *)
Definition self_ref (c : Contract) : ContractRef := ContractOf (self c) (CallerAddress c) (value c).

(** ** Function types of the jump table *)
Definition executionFunc : Type := Interp -> M Frame (bytes * option Error).
Definition gasFunc : Type := Interp -> Z -> M Frame (Z * option Error).
Definition memorySizeFunc : Type := stack -> Res (Z * bool).

End Machine.
