(* ===== verification/GasTable.v ===== *)
(** * Gas and memory-size functions of the jump table

    [core/vm/memory_table.go], [core/vm/gas.go], [core/vm/gas_table.go] and
    [core/vm/operations_acl.go]. A memory-size function reads the operands it needs
    from the stack; a dynamic gas function runs before the instruction, may charge
    the contract, update the memory's paid-for cost, the refund counter and the
    access list, and returns the cost or an error. *)

From S2P Require Import Machine.
Import params.

Section GasTable.
Context {U : Uint256} {DB : StateDB} {L : LRU}.

(** ** [memory_table.go] *)

Definition memoryKeccak256 : memorySizeFunc := fun st =>
  x ← Back 0 st; y ← Back 1 st; mret (calcMemSize64 x y).
Definition memoryCallDataCopy : memorySizeFunc := fun st =>
  x ← Back 0 st; y ← Back 2 st; mret (calcMemSize64 x y).
Definition memoryReturnDataCopy : memorySizeFunc := fun st =>
  x ← Back 0 st; y ← Back 2 st; mret (calcMemSize64 x y).
Definition memoryCodeCopy : memorySizeFunc := fun st =>
  x ← Back 0 st; y ← Back 2 st; mret (calcMemSize64 x y).
Definition memoryExtCodeCopy : memorySizeFunc := fun st =>
  x ← Back 1 st; y ← Back 3 st; mret (calcMemSize64 x y).
Definition memoryMLoad : memorySizeFunc := fun st =>
  x ← Back 0 st; mret (calcMemSize64WithUint x 32).
Definition memoryMStore8 : memorySizeFunc := fun st =>
  x ← Back 0 st; mret (calcMemSize64WithUint x 1).
Definition memoryMStore : memorySizeFunc := fun st =>
  x ← Back 0 st; mret (calcMemSize64WithUint x 32).
Definition memoryMcopy : memorySizeFunc := fun st =>
  dest ← Back 0 st; src ← Back 1 st;
  let mStart := if u_Gt src dest then src else dest in
  l ← Back 2 st; mret (calcMemSize64 mStart l).
Definition memoryCreate : memorySizeFunc := fun st =>
  x ← Back 1 st; y ← Back 2 st; mret (calcMemSize64 x y).
Definition memoryCreate2 : memorySizeFunc := fun st =>
  x ← Back 1 st; y ← Back 2 st; mret (calcMemSize64 x y).

(** Both windows of a call: the larger of the two ends. *)
Definition memoryCall : memorySizeFunc := fun st =>
  o1 ← Back 5 st; l1 ← Back 6 st;
  let '(x, overflow) := calcMemSize64 o1 l1 in
  if overflow then mret (0, true)
  else
    o2 ← Back 3 st; l2 ← Back 4 st;
    let '(y, overflow) := calcMemSize64 o2 l2 in
    if overflow then mret (0, true) else mret (Z.max x y, false).
Definition memoryDelegateCall : memorySizeFunc := fun st =>
  o1 ← Back 4 st; l1 ← Back 5 st;
  let '(x, overflow) := calcMemSize64 o1 l1 in
  if overflow then mret (0, true)
  else
    o2 ← Back 2 st; l2 ← Back 3 st;
    let '(y, overflow) := calcMemSize64 o2 l2 in
    if overflow then mret (0, true) else mret (Z.max x y, false).
Definition memoryStaticCall : memorySizeFunc := fun st =>
  o1 ← Back 4 st; l1 ← Back 5 st;
  let '(x, overflow) := calcMemSize64 o1 l1 in
  if overflow then mret (0, true)
  else
    o2 ← Back 2 st; l2 ← Back 3 st;
    let '(y, overflow) := calcMemSize64 o2 l2 in
    if overflow then mret (0, true) else mret (Z.max x y, false).
Definition memoryReturn : memorySizeFunc := fun st =>
  x ← Back 0 st; y ← Back 1 st; mret (calcMemSize64 x y).
Definition memoryRevert : memorySizeFunc := fun st =>
  x ← Back 0 st; y ← Back 1 st; mret (calcMemSize64 x y).
Definition memoryLog : memorySizeFunc := fun st =>
  x ← Back 0 st; y ← Back 1 st; mret (calcMemSize64 x y).

(** ** [gas.go] *)

Definition callGas (isEip150 : bool) (availableGas base callCost : Z) : Z * option Error :=
  let availableGas := if isEip150 then u64 (availableGas - base) else availableGas in
  let gas := availableGas - availableGas / 64 in
  if isEip150 && (negb (u_IsUint64 callCost) || (gas <? u_Uint64 callCost)) then (gas, None)
  else if negb (u_IsUint64 callCost) then (0, Some ErrGasUintOverflow)
  else (u_Uint64 callCost, None).

(** ** [gas_table.go] *)

Definition memoryGasCost (m : Memory) (newMemSize : Z) : (Z * option Error) * Memory :=
  if newMemSize =? 0 then ((0, None), m)
  else if 0x1FFFFFFFE0 <? newMemSize then ((0, Some ErrGasUintOverflow), m)
  else
    let newMemSizeWords := ToWordSize newMemSize in
    let newMemSize := u64 (newMemSizeWords * 32) in
    if Len m <? newMemSize then
      let square := u64 (newMemSizeWords * newMemSizeWords) in
      let linCoef := u64 (newMemSizeWords * MemoryGas) in
      let quadCoef := square / QuadCoeffDiv in
      let newTotalFee := u64 (linCoef + quadCoef) in
      let fee := u64 (newTotalFee - lastGasCost m) in
      ((fee, None), with_lastGasCost m newTotalFee)
    else ((0, None), m).

(** [memoryGasCost] on the frame's memory. *)
Definition memGas (newMemSize : Z) : M Frame (Z * option Error) := fun f =>
  let '(r, m) := memoryGasCost (mem f) newMemSize in Val (r, with_mem f m).

(** The two ways the code checks a sum or product: on overflow return the error. *)
Definition checked (r : Z * bool) (k : Z -> M Frame (Z * option Error)) : M Frame (Z * option Error) :=
  let '(v, overflow) := r in
  if overflow then mret (0, Some ErrGasUintOverflow) else k v.

(** [gas, err := ...; if err != nil { return 0, err }]. *)
Definition orFail (r : Z * option Error) (k : Z -> M Frame (Z * option Error))
    : M Frame (Z * option Error) :=
  match r.2 with Some e => mret (0, Some e) | None => k r.1 end.

Definition memoryCopierGas (stackpos : Z) : gasFunc := fun _ memorySize =>
  r ← memGas memorySize;
  orFail r (fun gas =>
    b ← s_back stackpos;
    checked (u_Uint64WithOverflow b) (fun words =>
      checked (SafeMul (ToWordSize words) CopyGas) (fun words =>
        checked (SafeAdd gas words) (fun gas => mret (gas, None))))).

Definition gasCallDataCopy : gasFunc := memoryCopierGas 2.
Definition gasCodeCopy : gasFunc := memoryCopierGas 2.
Definition gasMcopy : gasFunc := memoryCopierGas 2.
Definition gasExtCodeCopy : gasFunc := memoryCopierGas 3.
Definition gasReturnDataCopy : gasFunc := memoryCopierGas 2.

Definition contractAddress : M Frame Z := c ← get_contract; mret (self c).

Definition gasSStore : gasFunc := fun ip memorySize =>
  value ← s_back 1; x ← s_back 0;
  let key := u_Bytes32 x in
  addr ← contractAddress;
  '(current, _) ← onState (GetState addr key);
  let rules := chainRules (env ip) in
  if IsPetersburg rules || negb (IsConstantinople rules) then
    if u_IsZero current && negb (u_IsZero value) then mret (SstoreSetGas, None)
    else if negb (u_IsZero current) && u_IsZero value then
      _ ← onState (AddRefund SstoreRefundGas); mret (SstoreClearGas, None)
    else mret (SstoreResetGas, None)
  else if u_Eq current value then mret (NetSstoreNoopGas, None)
  else
    '(original, _) ← onState (GetCommittedState addr key);
    if original =? current then
      if u_IsZero original then mret (NetSstoreInitGas, None)
      else
        _ ← (if u_IsZero value then onState (AddRefund NetSstoreClearRefund) else mret tt);
        mret (NetSstoreCleanGas, None)
    else
      _ ← (if negb (u_IsZero original) then
             if u_IsZero current then _ ← onState (SubRefund NetSstoreClearRefund); mret tt
             else if u_IsZero value then onState (AddRefund NetSstoreClearRefund)
             else mret tt
           else mret tt);
      _ ← (if u_Eq original value then
             if u_IsZero original then onState (AddRefund NetSstoreResetClearRefund)
             else onState (AddRefund NetSstoreResetRefund)
           else mret tt);
      mret (NetSstoreDirtyGas, None).

Definition errSentry : Error := NewError "not enough gas for reentrancy sentry".

Definition gasSStoreEIP2200 : gasFunc := fun ip memorySize =>
  c ← get_contract;
  if Gas c <=? SstoreSentryGasEIP2200 then mret (0, Some errSentry)
  else
    value ← s_back 1; x ← s_back 0;
    let key := u_Bytes32 x in
    '(current, _) ← onState (GetState (self c) key);
    if u_Eq current value then mret (SloadGasEIP2200, None)
    else
      '(original, _) ← onState (GetCommittedState (self c) key);
      if original =? current then
        if u_IsZero original then mret (SstoreSetGasEIP2200, None)
        else
          _ ← (if u_IsZero value then onState (AddRefund SstoreClearsScheduleRefundEIP2200)
               else mret tt);
          mret (SstoreResetGasEIP2200, None)
      else
        _ ← (if negb (u_IsZero original) then
               if u_IsZero current then
                 _ ← onState (SubRefund SstoreClearsScheduleRefundEIP2200); mret tt
               else if u_IsZero value then onState (AddRefund SstoreClearsScheduleRefundEIP2200)
               else mret tt
             else mret tt);
        _ ← (if u_Eq original value then
               if u_IsZero original then onState (AddRefund (SstoreSetGasEIP2200 - SloadGasEIP2200))
               else onState (AddRefund (SstoreResetGasEIP2200 - SloadGasEIP2200))
             else mret tt);
        mret (SloadGasEIP2200, None).

Definition makeGasLog (n : Z) : gasFunc := fun _ memorySize =>
  b ← s_back 1;
  checked (u_Uint64WithOverflow b) (fun requestedSize =>
    r ← memGas memorySize;
    orFail r (fun gas =>
      checked (SafeAdd gas LogGas) (fun gas =>
        checked (SafeAdd gas (u64 (n * LogTopicGas))) (fun gas =>
          checked (SafeMul requestedSize LogDataGas) (fun memorySizeGas =>
            checked (SafeAdd gas memorySizeGas) (fun gas => mret (gas, None))))))).

Definition gasKeccak256 : gasFunc := fun _ memorySize =>
  r ← memGas memorySize;
  orFail r (fun gas =>
    b ← s_back 1;
    checked (u_Uint64WithOverflow b) (fun wordGas =>
      checked (SafeMul (ToWordSize wordGas) Keccak256WordGas) (fun wordGas =>
        checked (SafeAdd gas wordGas) (fun gas => mret (gas, None))))).

Definition pureMemoryGascost : gasFunc := fun _ memorySize => memGas memorySize.

Definition gasReturn : gasFunc := pureMemoryGascost.
Definition gasRevert : gasFunc := pureMemoryGascost.
Definition gasMLoad : gasFunc := pureMemoryGascost.
Definition gasMStore8 : gasFunc := pureMemoryGascost.
Definition gasMStore : gasFunc := pureMemoryGascost.
Definition gasCreate : gasFunc := pureMemoryGascost.

Definition gasCreate2 : gasFunc := fun _ memorySize =>
  r ← memGas memorySize;
  orFail r (fun gas =>
    b ← s_back 2;
    checked (u_Uint64WithOverflow b) (fun size =>
      checked (SafeMul (ToWordSize size) Keccak256WordGas) (fun wordGas =>
        checked (SafeAdd gas wordGas) (fun gas => mret (gas, None))))).

Definition gasCreateEip3860 : gasFunc := fun _ memorySize =>
  r ← memGas memorySize;
  orFail r (fun gas =>
    b ← s_back 2;
    checked (u_Uint64WithOverflow b) (fun size =>
      if MaxInitCodeSize <? size then mret (0, Some (ErrorfW ErrMaxInitCodeSizeExceeded "size"))
      else
        let wordGas := u64 (InitCodeWordGas * ToWordSize size) in
        checked (SafeAdd gas wordGas) (fun gas => mret (gas, None)))).

Definition gasCreate2Eip3860 : gasFunc := fun _ memorySize =>
  r ← memGas memorySize;
  orFail r (fun gas =>
    b ← s_back 2;
    checked (u_Uint64WithOverflow b) (fun size =>
      if MaxInitCodeSize <? size then mret (0, Some (ErrorfW ErrMaxInitCodeSizeExceeded "size"))
      else
        let wordGas := u64 ((InitCodeWordGas + Keccak256WordGas) * ToWordSize size) in
        checked (SafeAdd gas wordGas) (fun gas => mret (gas, None)))).

Definition gasExpFrontier : gasFunc := fun _ memorySize =>
  e ← s_back 1;
  let expByteLen := BitLenToByteLen (u_BitLen e) in
  let gas := u64 (expByteLen * ExpByteFrontier) in
  checked (SafeAdd gas ExpGas) (fun gas => mret (gas, None)).

Definition gasExpEIP160 : gasFunc := fun _ memorySize =>
  e ← s_back 1;
  let expByteLen := BitLenToByteLen (u_BitLen e) in
  let gas := u64 (expByteLen * ExpByteEIP160) in
  checked (SafeAdd gas ExpGas) (fun gas => mret (gas, None)).

(** The common tail of the call gas functions: the 63/64 rule, remembered in
    [callGasTemp], then added to the cost. *)
Definition callGasTail (ip : Interp) (gas : Z) : M Frame (Z * option Error) :=
  c ← get_contract; b ← s_back 0;
  let '(callGasTemp, err) := callGas (IsTangerineWhistle (chainRules (env ip))) (Gas c) gas b in
  _ ← onWorld (modify (SetCallGasTemp callGasTemp));
  match err with
  | Some e => mret (0, Some e)
  | None => checked (SafeAdd gas callGasTemp) (fun gas => mret (gas, None))
  end.

Definition gasCall : gasFunc := fun ip memorySize =>
  v ← s_back 2; a ← s_back 1;
  let transfersValue := negb (u_IsZero v) in
  let address := u_Bytes20 a in
  r ← (if IsSpuriousDragon (chainRules (env ip)) then
         '(empty, err) ← onState (Empty address);
         mret (if transfersValue && empty then CallNewAccountGas else 0, err)
       else
         '(exists_, err) ← onState (Exist address);
         mret (if negb exists_ then CallNewAccountGas else 0, err));
  orFail r (fun gas =>
    let gas := if transfersValue then gas + CallValueTransferGas else gas in
    rm ← memGas memorySize;
    orFail rm (fun memoryGas =>
      checked (SafeAdd gas memoryGas) (fun gas => callGasTail ip gas))).

Definition gasCallCode : gasFunc := fun ip memorySize =>
  rm ← memGas memorySize;
  orFail rm (fun memoryGas =>
    v ← s_back 2;
    let gas := if negb (u_IsZero v) then CallValueTransferGas else 0 in
    checked (SafeAdd gas memoryGas) (fun gas => callGasTail ip gas)).

Definition gasDelegateCall : gasFunc := fun ip memorySize =>
  rm ← memGas memorySize;
  orFail rm (fun gas => callGasTail ip gas).

Definition gasStaticCall : gasFunc := fun ip memorySize =>
  rm ← memGas memorySize;
  orFail rm (fun gas => callGasTail ip gas).

Definition gasSelfdestruct : gasFunc := fun ip memorySize =>
  self_ ← contractAddress;
  r ← (if IsTangerineWhistle (chainRules (env ip)) then
         b ← s_back 0;
         let address := u_Bytes20 b in
         if IsSpuriousDragon (chainRules (env ip)) then
           '(empty, err) ← onState (Empty address);
           match err with
           | Some e => mret (0, Some e)
           | None =>
               '(balance, err) ← onState (GetBalance self_);
               match err with
               | Some e => mret (0, Some e)
               | None =>
                   mret (if empty && negb (u_IsZero balance)
                         then SelfdestructGasEIP150 + CreateBySelfdestructGas
                         else SelfdestructGasEIP150, None)
               end
           end
         else
           '(isExist, err) ← onState (Exist address);
           match err with
           | Some e => mret (0, Some e)
           | None => mret (if negb isExist then SelfdestructGasEIP150 + CreateBySelfdestructGas
                           else SelfdestructGasEIP150, None)
           end
       else mret (0, None));
  orFail r (fun gas =>
    '(hasSelfdestructed, err) ← onState (HasSelfdestructed self_);
    match err with
    | Some e => mret (0, Some e)
    | None =>
        _ ← (if negb hasSelfdestructed then onState (AddRefund SelfdestructRefundGas) else mret tt);
        mret (gas, None)
    end).

(** ** [operations_acl.go] *)

Definition makeGasSStoreFunc (clearingRefund : Z) : gasFunc := fun ip memorySize =>
  c ← get_contract;
  if Gas c <=? SstoreSentryGasEIP2200 then mret (0, Some errSentry)
  else
    value ← s_back 1; x ← s_peek;
    let slot := u_Bytes32 x in
    '(current, _) ← onState (GetState (self c) slot);
    '(_, slotMod) ← onState (AddSlotToAccessList (self c) slot);
    let cost := if slotMod : bool then ColdSloadCostEIP2929 else 0 in
    if u_Eq current value then mret (u64 (cost + WarmStorageReadCostEIP2929), None)
    else
      '(original, _) ← onState (GetCommittedState (self c) slot);
      if u_Eq original current then
        if u_IsZero original then mret (u64 (cost + SstoreSetGasEIP2200), None)
        else
          _ ← (if u_IsZero value then onState (AddRefund clearingRefund) else mret tt);
          mret (u64 (cost + (SstoreResetGasEIP2200 - ColdSloadCostEIP2929)), None)
      else
        _ ← (if negb (u_IsZero original) then
               if u_IsZero current then _ ← onState (SubRefund clearingRefund); mret tt
               else if u_IsZero value then onState (AddRefund clearingRefund)
               else mret tt
             else mret tt);
        _ ← (if u_Eq original value then
               if u_IsZero original then
                 onState (AddRefund (SstoreSetGasEIP2200 - WarmStorageReadCostEIP2929))
               else
                 onState (AddRefund ((SstoreResetGasEIP2200 - ColdSloadCostEIP2929)
                                     - WarmStorageReadCostEIP2929))
             else mret tt);
        mret (u64 (cost + WarmStorageReadCostEIP2929), None).

Definition gasSLoadEIP2929 : gasFunc := fun ip memorySize =>
  loc ← s_peek; addr ← contractAddress;
  '(_, slotMod) ← onState (AddSlotToAccessList addr (u_Bytes32 loc));
  mret (if slotMod : bool then ColdSloadCostEIP2929 else WarmStorageReadCostEIP2929, None).

Definition gasExtCodeCopyEIP2929 : gasFunc := fun ip memorySize =>
  r ← gasExtCodeCopy ip memorySize;
  orFail r (fun gas =>
    p ← s_peek;
    mod_ ← onState (AddAddressToAccessList (u_Bytes20 p));
    if mod_ : bool then
      checked (SafeAdd gas (ColdAccountAccessCostEIP2929 - WarmStorageReadCostEIP2929))
        (fun gas => mret (gas, None))
    else mret (gas, None)).

Definition gasEip2929AccountCheck : gasFunc := fun ip memorySize =>
  p ← s_peek;
  mod_ ← onState (AddAddressToAccessList (u_Bytes20 p));
  mret (if mod_ : bool then ColdAccountAccessCostEIP2929 - WarmStorageReadCostEIP2929 else 0, None).

Definition makeCallVariantGasCallEIP2929 (oldCalculator : gasFunc) : gasFunc := fun ip memorySize =>
  b ← s_back 1;
  let addr := u_Bytes20 b in
  let coldCost := ColdAccountAccessCostEIP2929 - WarmStorageReadCostEIP2929 in
  addrMod ← onState (AddAddressToAccessList addr);
  ok ← (if addrMod : bool then useGas coldCost else mret true);
  if negb ok then mret (0, Some ErrOutOfGas)
  else
    '(gas, err) ← oldCalculator ip memorySize;
    if negb addrMod || bool_decide (err <> None) then mret (gas, err)
    else
      _ ← modify (fun f => with_contract f (with_Gas (contract f) (u64 (Gas (contract f) + coldCost))));
      mret (u64 (gas + coldCost), None).

Definition gasCallEIP2929 : gasFunc := makeCallVariantGasCallEIP2929 gasCall.
Definition gasDelegateCallEIP2929 : gasFunc := makeCallVariantGasCallEIP2929 gasDelegateCall.
Definition gasStaticCallEIP2929 : gasFunc := makeCallVariantGasCallEIP2929 gasStaticCall.
Definition gasCallCodeEIP2929 : gasFunc := makeCallVariantGasCallEIP2929 gasCallCode.

Definition makeSelfdestructGasFn (refundsEnabled : bool) : gasFunc := fun ip memorySize =>
  p ← s_peek; self_ ← contractAddress;
  let address := u_Bytes20 p in
  mod_ ← onState (AddAddressToAccessList address);
  let gas := if mod_ : bool then ColdAccountAccessCostEIP2929 else 0 in
  '(empty, err) ← onState (Empty address);
  match err with
  | Some e => mret (0, Some e)
  | None =>
      '(balance, err) ← onState (GetBalance self_);
      match err with
      | Some e => mret (0, Some e)
      | None =>
          let gas := if empty && negb (u_IsZero balance) then gas + CreateBySelfdestructGas else gas in
          '(hasSelfdestructed, err) ← onState (HasSelfdestructed self_);
          match err with
          | Some e => mret (0, Some e)
          | None =>
              _ ← (if refundsEnabled && negb hasSelfdestructed
                   then onState (AddRefund SelfdestructRefundGas) else mret tt);
              mret (gas, None)
          end
      end
  end.

Definition gasSelfdestructEIP2929 : gasFunc := makeSelfdestructGasFn true.
Definition gasSelfdestructEIP3529 : gasFunc := makeSelfdestructGasFn false.
Definition gasSStoreEIP2929 : gasFunc := makeGasSStoreFunc SstoreClearsScheduleRefundEIP2200.
Definition gasSStoreEIP3529 : gasFunc := makeGasSStoreFunc SstoreClearsScheduleRefundEIP3529.

Definition makeCallVariantGasCallEIP7702 (oldCalculator : gasFunc) : gasFunc := fun ip memorySize =>
  b ← s_back 1;
  let addr := u_Bytes20 b in
  addrMod ← onState (AddAddressToAccessList addr);
  let dynCost := if addrMod : bool then ColdAccountAccessCostEIP2929 - WarmStorageReadCostEIP2929 else 0 in
  ok ← (if addrMod : bool then useGas dynCost else mret true);
  if negb ok then mret (0, Some ErrOutOfGas)
  else
    '(dd, isDelegation, err) ← onState (GetDelegatedDesignation addr);
    match err with
    | Some e => mret (0, Some e)
    | None =>
        '(dynCost, ok) ←
          (if isDelegation : bool then
             ddMod ← onState (AddAddressToAccessList dd);
             let ddCost := if ddMod : bool then ColdAccountAccessCostEIP2929 else WarmStorageReadCostEIP2929 in
             ok ← useGas ddCost;
             mret (dynCost + ddCost, ok)
           else mret (dynCost, true));
        if negb ok then mret (0, Some ErrOutOfGas)
        else
          '(gas, err) ← oldCalculator ip memorySize;
          if (dynCost =? 0) || bool_decide (err <> None) then mret (gas, err)
          else
            _ ← modify (fun f => with_contract f (with_Gas (contract f) (u64 (Gas (contract f) + dynCost))));
            checked (SafeAdd gas dynCost) (fun gas => mret (gas, None))
    end.

Definition gasCallEIP7702 : gasFunc := makeCallVariantGasCallEIP7702 gasCall.
Definition gasDelegateCallEIP7702 : gasFunc := makeCallVariantGasCallEIP7702 gasDelegateCall.
Definition gasStaticCallEIP7702 : gasFunc := makeCallVariantGasCallEIP7702 gasStaticCall.
Definition gasCallCodeEIP7702 : gasFunc := makeCallVariantGasCallEIP7702 gasCallCode.

End GasTable.
