(* ===== verification/Instructions.v ===== *)
(** * Instructions

    [core/vm/instructions.go] and the instructions of [core/vm/eips.go]: each
    [op*] function as a computation on the running [Frame], returning what the Go
    function returns, the result bytes and the error. A result written through the
    pointer [Stack.peek] returns is [s_poke]. *)

From S2P Require Import Machine.
Import params.

Section Instructions.
Context {U : Uint256} {K : Keccak} {DB : StateDB} {L : LRU}.

(** [return nil, nil] and [return nil, err]. *)
Definition ok : M Frame (bytes * option Error) := mret ([], None).
Definition fail (e : Error) : M Frame (bytes * option Error) := mret ([], Some e).

Definition setBool (b : bool) : Z := if b then 1 else 0.

(** ** Arithmetic, comparison and bitwise operations *)

Definition opAdd : executionFunc := fun _ =>
  x ← s_pop; y ← s_peek; _ ← s_poke (u_Add x y); ok.
Definition opSub : executionFunc := fun _ =>
  x ← s_pop; y ← s_peek; _ ← s_poke (u_Sub x y); ok.
Definition opMul : executionFunc := fun _ =>
  x ← s_pop; y ← s_peek; _ ← s_poke (u_Mul x y); ok.
Definition opDiv : executionFunc := fun _ =>
  x ← s_pop; y ← s_peek; _ ← s_poke (u_Div x y); ok.
Definition opSdiv : executionFunc := fun _ =>
  x ← s_pop; y ← s_peek; _ ← s_poke (u_SDiv x y); ok.
Definition opMod : executionFunc := fun _ =>
  x ← s_pop; y ← s_peek; _ ← s_poke (u_Mod x y); ok.
Definition opSmod : executionFunc := fun _ =>
  x ← s_pop; y ← s_peek; _ ← s_poke (u_SMod x y); ok.

Definition opExp : executionFunc := fun _ =>
  base ← s_pop; exponent ← s_peek;
  _ ← (if u_IsZero exponent then s_poke 1
       else if u_IsZero base then s_poke 0
       else if u_LtUint64 exponent 2 then s_poke base
       else if u_LtUint64 base 2 then s_poke 1
       else if u_LtUint64 base 3 then
         if u_LtUint64 exponent 256 then s_poke (u_Lsh 1 (u_Uint64 exponent))
         else s_poke 0
       else s_poke (u_Exp base exponent));
  ok.

Definition opSignExtend : executionFunc := fun _ =>
  back ← s_pop; num ← s_peek; _ ← s_poke (u_ExtendSign num back); ok.
Definition opNot : executionFunc := fun _ =>
  x ← s_peek; _ ← s_poke (u_Not x); ok.
Definition opLt : executionFunc := fun _ =>
  x ← s_pop; y ← s_peek; _ ← s_poke (setBool (u_Lt x y)); ok.
Definition opGt : executionFunc := fun _ =>
  x ← s_pop; y ← s_peek; _ ← s_poke (setBool (u_Gt x y)); ok.
Definition opSlt : executionFunc := fun _ =>
  x ← s_pop; y ← s_peek; _ ← s_poke (setBool (u_Slt x y)); ok.
Definition opSgt : executionFunc := fun _ =>
  x ← s_pop; y ← s_peek; _ ← s_poke (setBool (u_Sgt x y)); ok.
Definition opEq : executionFunc := fun _ =>
  x ← s_pop; y ← s_peek; _ ← s_poke (setBool (u_Eq x y)); ok.
Definition opIszero : executionFunc := fun _ =>
  x ← s_peek; _ ← s_poke (setBool (u_IsZero x)); ok.
Definition opAnd : executionFunc := fun _ =>
  x ← s_pop; y ← s_peek; _ ← s_poke (u_And x y); ok.
Definition opOr : executionFunc := fun _ =>
  x ← s_pop; y ← s_peek; _ ← s_poke (u_Or x y); ok.
Definition opXor : executionFunc := fun _ =>
  x ← s_pop; y ← s_peek; _ ← s_poke (u_Xor x y); ok.
Definition opByte : executionFunc := fun _ =>
  th ← s_pop; val ← s_peek; _ ← s_poke (u_Byte val th); ok.
Definition opAddmod : executionFunc := fun _ =>
  x ← s_pop; y ← s_pop; z ← s_peek; _ ← s_poke (u_AddMod x y z); ok.
Definition opMulmod : executionFunc := fun _ =>
  x ← s_pop; y ← s_pop; z ← s_peek; _ ← s_poke (u_MulMod x y z); ok.

Definition opSHL : executionFunc := fun _ =>
  shift ← s_pop; value ← s_peek;
  _ ← (if u_LtUint64 shift 256 then s_poke (u_Lsh value (u_Uint64 shift)) else s_poke 0);
  ok.
Definition opSHR : executionFunc := fun _ =>
  shift ← s_pop; value ← s_peek;
  _ ← (if u_LtUint64 shift 256 then s_poke (u_Rsh value (u_Uint64 shift)) else s_poke 0);
  ok.
Definition opSAR : executionFunc := fun _ =>
  shift ← s_pop; value ← s_peek;
  if u_GtUint64 shift 255 then
    _ ← (if 0 <=? u_Sign value then s_poke 0 else s_poke (two256 - 1));
    ok
  else
    _ ← s_poke (u_SRsh value (u_Uint64 shift));
    ok.

Definition opCLZ : executionFunc := fun _ =>
  x ← s_peek; _ ← s_poke (u64 (256 - u_BitLen x)); ok.

(** ** Environment *)

(** The hasher is reset before each use, so hashing is a function of the data. *)
Definition opKeccak256 : executionFunc := fun _ =>
  offset ← s_pop; size ← s_peek;
  data ← m_read (GetPtr (u_Uint64 offset) (u_Uint64 size));
  _ ← s_poke (keccak256 data); ok.

Definition opAddress : executionFunc := fun _ =>
  c ← get_contract; _ ← s_push (self c); ok.

Definition opBalance : executionFunc := fun _ =>
  slot ← s_peek;
  let address := u_Bytes20 slot in
  '(balance, err) ← onState (GetBalance address);
  match err with
  | Some e => fail (ErrorfWW ErrIntraBlockStateFailed e)
  | None => _ ← s_poke balance; ok
  end.

Definition opOrigin : executionFunc := fun ip =>
  _ ← s_push (Origin (Tx (env ip))); ok.
Definition opCaller : executionFunc := fun _ =>
  c ← get_contract; _ ← s_push (CallerAddress c); ok.
Definition opCallValue : executionFunc := fun _ =>
  c ← get_contract; _ ← s_push_ptr (value c); ok.

Definition opCallDataLoad : executionFunc := fun _ =>
  x ← s_peek; c ← get_contract;
  let '(offset, overflow) := u_Uint64WithOverflow x in
  _ ← (if negb overflow then
         data ← lift (getData (Input c) offset 32);
         s_poke (u_SetBytes data)
       else s_poke 0);
  ok.

Definition opCallDataSize : executionFunc := fun _ =>
  c ← get_contract; _ ← s_push (zlen (Input c)); ok.

Definition opCallDataCopy : executionFunc := fun _ =>
  memOffset ← s_pop; dataOffset ← s_pop; length ← s_pop; c ← get_contract;
  let '(dataOffset64, overflow) := u_Uint64WithOverflow dataOffset in
  let dataOffset64 := if overflow then MaxUint64 else dataOffset64 in
  let memOffset64 := u_Uint64 memOffset in
  let length64 := u_Uint64 length in
  data ← lift (getData (Input c) dataOffset64 length64);
  _ ← m_write (Set_ memOffset64 length64 data); ok.

Definition opReturnDataSize : executionFunc := fun _ =>
  w ← get_world; _ ← s_push (zlen (returnData w)); ok.

Definition opReturnDataCopy : executionFunc := fun _ =>
  memOffset ← s_pop; dataOffset ← s_pop; length ← s_pop; w ← get_world;
  let '(offset64, overflow) := u_Uint64WithOverflow dataOffset in
  if overflow then fail ErrReturnDataOutOfBounds
  else
    let '(end_, overflow) := u_AddOverflow dataOffset length in
    if overflow then fail ErrReturnDataOutOfBounds
    else
      let '(end64, overflow) := u_Uint64WithOverflow end_ in
      if overflow || (zlen (returnData w) <? end64) then fail ErrReturnDataOutOfBounds
      else
        data ← lift (go_slice (returnData w) offset64 end64);
        _ ← m_write (Set_ (u_Uint64 memOffset) (u_Uint64 length) data); ok.

Definition opExtCodeSize : executionFunc := fun _ =>
  slot ← s_peek;
  let addr := u_Bytes20 slot in
  '(codeSize, err) ← onState (GetCodeSize addr);
  match err with
  | Some e => fail (ErrorfWW ErrIntraBlockStateFailed e)
  | None => _ ← s_poke (u64 codeSize); ok
  end.

Definition opCodeSize : executionFunc := fun _ =>
  c ← get_contract; _ ← s_push (zlen (Code c)); ok.

Definition opCodeCopy : executionFunc := fun _ =>
  memOffset ← s_pop; codeOffset ← s_pop; length ← s_pop; c ← get_contract;
  let '(uint64CodeOffset, overflow) := u_Uint64WithOverflow codeOffset in
  let uint64CodeOffset := if overflow then MaxUint64 else uint64CodeOffset in
  codeCopy ← lift (getData (Code c) uint64CodeOffset (u_Uint64 length));
  _ ← m_write (Set_ (u_Uint64 memOffset) (u_Uint64 length) codeCopy); ok.

Definition opExtCodeCopy : executionFunc := fun _ =>
  a ← s_pop; memOffset ← s_pop; codeOffset ← s_pop; length ← s_pop;
  let addr := u_Bytes20 a in
  let len64 := u_Uint64 length in
  '(code, err) ← onState (GetCode addr);
  match err with
  | Some e => fail (ErrorfWW ErrIntraBlockStateFailed e)
  | None =>
      codeCopy ← lift (getDataBig code codeOffset len64);
      _ ← m_write (Set_ (u_Uint64 memOffset) len64 codeCopy); ok
  end.

Definition opExtCodeHash : executionFunc := fun _ =>
  slot ← s_peek;
  let address := u_Bytes20 slot in
  '(empty, err) ← onState (Empty address);
  match err with
  | Some e => fail e
  | None =>
      if empty : bool then _ ← s_poke 0; ok
      else
        '(codeHash, err) ← onState (GetCodeHash address);
        match err with
        | Some e => fail (ErrorfWW ErrIntraBlockStateFailed e)
        | None => _ ← s_poke codeHash; ok
        end
  end.

Definition opGasprice : executionFunc := fun ip =>
  _ ← s_push_ptr (GasPrice (Tx (env ip))); ok.

Definition opBlockhash : executionFunc := fun ip =>
  arg ← s_peek;
  let '(arg64, overflow) := u_Uint64WithOverflow arg in
  if overflow then _ ← s_poke 0; ok
  else
    let upper := BlockNumber (Context (env ip)) in
    let lower := if upper <=? BlockHashOldWindow then 0 else upper - BlockHashOldWindow in
    if (lower <=? arg64) && (arg64 <? upper) then
      let '(hash, err) := GetHash (Context (env ip)) arg64 in
      match err with
      | Some e => _ ← s_poke 0; fail e
      | None => _ ← s_poke hash; ok
      end
    else _ ← s_poke 0; ok.

Definition opCoinbase : executionFunc := fun ip =>
  _ ← s_push (Coinbase (Context (env ip))); ok.
Definition opTimestamp : executionFunc := fun ip =>
  _ ← s_push (Time (Context (env ip))); ok.
Definition opNumber : executionFunc := fun ip =>
  _ ← s_push (BlockNumber (Context (env ip))); ok.

(** [uint256.FromBig(nil)] is nil, and pushing nil panics. *)
Definition opDifficulty : executionFunc := fun ip =>
  match PrevRanDao (Context (env ip)) with
  | Some r => _ ← s_push r; ok
  | None =>
      match Difficulty (Context (env ip)) with
      | None => _ ← s_push_ptr None; ok
      | Some d =>
          let '(v, overflow) := u_FromBig d in
          if overflow then fail (NewError "interpreter.evm.Context.Difficulty higher than 2^256-1")
          else _ ← s_push v; ok
      end
  end.

Definition opGasLimit : executionFunc := fun ip =>
  _ ← (if MaxGasLimit (Context (env ip)) then s_push (two256 - 1)
       else s_push (GasLimit (Context (env ip))));
  ok.

(** ** Stack, memory, storage and flow *)

Definition opPop : executionFunc := fun _ => _ ← s_pop; ok.

Definition opMload : executionFunc := fun _ =>
  v ← s_peek;
  let offset := u_Uint64 v in
  data ← m_read (GetPtr offset 32);
  _ ← s_poke (u_SetBytes data); ok.

Definition opMstore : executionFunc := fun _ =>
  mStart ← s_pop; val ← s_pop;
  _ ← m_write (Set32 (u_Uint64 mStart) val); ok.

(** [store[off] = byte(val)]: a single-byte splice at a checked index. *)
Definition opMstore8 : executionFunc := fun _ =>
  off ← s_pop; val ← s_pop;
  _ ← m_write (fun m =>
         _ ← go_index (store m) (u_Uint64 off);
         mret (with_store m (splice (store m) (u_Uint64 off) [Zbyte (u_Uint64 val)])));
  ok.

Definition opSload : executionFunc := fun _ =>
  loc ← s_peek; c ← get_contract;
  '(v, err) ← onState (GetState (self c) (u_Bytes32 loc));
  _ ← s_poke v;
  mret ([], err).

Definition opSstore : executionFunc := fun _ =>
  w ← get_world;
  if readOnly w then fail ErrWriteProtection
  else
    loc ← s_pop; val ← s_pop; c ← get_contract;
    err ← onState (SetState (self c) (u_Bytes32 loc) val);
    mret ([], err).

Definition opJump : executionFunc := fun _ =>
  pos ← s_pop;
  '(valid, usedBitmap) ← validJumpdest pos;
  if negb valid then fail ErrInvalidJump
  else
    _ ← modify (fun f => with_pc f (u64 (u_Uint64 pos - 1)));
    ok.

Definition opJumpi : executionFunc := fun _ =>
  pos ← s_pop; cond ← s_pop;
  if negb (u_IsZero cond) then
    '(valid, usedBitmap) ← validJumpdest pos;
    if negb valid then fail ErrInvalidJump
    else
      _ ← modify (fun f => with_pc f (u64 (u_Uint64 pos - 1)));
      ok
  else ok.

Definition opJumpdest : executionFunc := fun _ => ok.
Definition opPc : executionFunc := fun _ => p ← gets pc; _ ← s_push p; ok.
Definition opMsize : executionFunc := fun _ => m ← gets mem; _ ← s_push (u64 (Len m)); ok.
Definition opGas : executionFunc := fun _ => c ← get_contract; _ ← s_push (Gas c); ok.

Definition opSwap1 : executionFunc := fun _ => _ ← s_lift swap1; ok.
Definition opSwap2 : executionFunc := fun _ => _ ← s_lift swap2; ok.
Definition opSwap3 : executionFunc := fun _ => _ ← s_lift swap3; ok.
Definition opSwap4 : executionFunc := fun _ => _ ← s_lift swap4; ok.
Definition opSwap5 : executionFunc := fun _ => _ ← s_lift swap5; ok.
Definition opSwap6 : executionFunc := fun _ => _ ← s_lift swap6; ok.
Definition opSwap7 : executionFunc := fun _ => _ ← s_lift swap7; ok.
Definition opSwap8 : executionFunc := fun _ => _ ← s_lift swap8; ok.
Definition opSwap9 : executionFunc := fun _ => _ ← s_lift swap9; ok.
Definition opSwap10 : executionFunc := fun _ => _ ← s_lift swap10; ok.
Definition opSwap11 : executionFunc := fun _ => _ ← s_lift swap11; ok.
Definition opSwap12 : executionFunc := fun _ => _ ← s_lift swap12; ok.
Definition opSwap13 : executionFunc := fun _ => _ ← s_lift swap13; ok.
Definition opSwap14 : executionFunc := fun _ => _ ← s_lift swap14; ok.
Definition opSwap15 : executionFunc := fun _ => _ ← s_lift swap15; ok.
Definition opSwap16 : executionFunc := fun _ => _ ← s_lift swap16; ok.

(** ** Calls and creations *)

Definition setReturnData (d : bytes) : M Frame unit :=
  onWorld (modify (fun w => with_returnData w d)).

Definition opCreate : executionFunc := fun ip =>
  w ← get_world;
  if readOnly w then fail ErrWriteProtection
  else
    value ← s_pop; offset ← s_pop; size ← s_peek;
    input ← m_read (GetCopy (u_Uint64 offset) (u_Uint64 size));
    c ← get_contract;
    let gas := Gas c in
    let gas := if IsTangerineWhistle (chainRules (env ip)) then gas - gas / 64 else gas in
    _ ← useGas gas;
    c ← get_contract;
    '(res, addr, returnGas, suberr) ←
      onWorld (evm_Create (calls ip) (self_ref c) input gas value false);
    _ ← (if IsHomestead (chainRules (env ip)) && err_is suberr ErrCodeStoreOutOfGas then s_poke 0
         else if bool_decide (suberr <> None) && negb (err_is suberr ErrCodeStoreOutOfGas)
         then s_poke 0
         else s_poke addr);
    _ ← refundGas returnGas;
    if err_is suberr ErrExecutionReverted then
      _ ← setReturnData res; mret (res, None)
    else _ ← setReturnData []; ok.

Definition opCreate2 : executionFunc := fun ip =>
  w ← get_world;
  if readOnly w then fail ErrWriteProtection
  else
    endowment ← s_pop; offset ← s_pop; size ← s_pop; salt ← s_pop;
    input ← m_read (GetCopy (u_Uint64 offset) (u_Uint64 size));
    c ← get_contract;
    let gas := Gas c in
    let gas := gas - gas / 64 in
    _ ← useGas gas;
    c ← get_contract;
    '(res, addr, returnGas, suberr) ←
      onWorld (evm_Create2 (calls ip) (self_ref c) input gas endowment salt false);
    _ ← s_push (if bool_decide (suberr <> None) then 0 else addr);
    _ ← refundGas returnGas;
    if err_is suberr ErrExecutionReverted then
      _ ← setReturnData res; mret (res, None)
    else _ ← setReturnData []; ok.

(** What the four call instructions do with the callee's result: push the flag,
    copy the returned bytes to memory, take the unused gas back, and keep the bytes
    as return data. *)
Definition finishCall (retOffset retSize : Z) (r : bytes * Z * option Error)
    : M Frame (bytes * option Error) :=
  let '(ret, returnGas, err) := r in
  _ ← s_push (if bool_decide (err <> None) then 0 else 1);
  _ ← (if bool_decide (err = None) || err_is err ErrExecutionReverted
       then m_write (Set_ (u_Uint64 retOffset) (u_Uint64 retSize) ret)
       else mret tt);
  _ ← refundGas returnGas;
  _ ← setReturnData ret;
  mret (ret, None).

Definition opCall : executionFunc := fun ip =>
  _ ← s_pop; w ← get_world;
  let gas := callGasTemp w in
  addr ← s_pop; value ← s_pop; inOffset ← s_pop; inSize ← s_pop;
  retOffset ← s_pop; retSize ← s_pop;
  let toAddr := u_Bytes20 addr in
  args ← m_read (GetPtr (u_Uint64 inOffset) (u_Uint64 inSize));
  if negb (u_IsZero value) && readOnly w then fail ErrWriteProtection
  else
    let gas := if negb (u_IsZero value) then u64 (gas + CallStipend) else gas in
    c ← get_contract;
    r ← onWorld (evm_Call (calls ip) (self_ref c) toAddr args gas value false);
    finishCall retOffset retSize r.

Definition opCallCode : executionFunc := fun ip =>
  _ ← s_pop; w ← get_world;
  let gas := callGasTemp w in
  addr ← s_pop; value ← s_pop; inOffset ← s_pop; inSize ← s_pop;
  retOffset ← s_pop; retSize ← s_pop;
  let toAddr := u_Bytes20 addr in
  args ← m_read (GetPtr (u_Uint64 inOffset) (u_Uint64 inSize));
  let gas := if negb (u_IsZero value) then u64 (gas + CallStipend) else gas in
  c ← get_contract;
  r ← onWorld (evm_CallCode (calls ip) (self_ref c) toAddr args gas value);
  finishCall retOffset retSize r.

Definition opDelegateCall : executionFunc := fun ip =>
  _ ← s_pop; w ← get_world;
  let gas := callGasTemp w in
  addr ← s_pop; inOffset ← s_pop; inSize ← s_pop; retOffset ← s_pop; retSize ← s_pop;
  let toAddr := u_Bytes20 addr in
  args ← m_read (GetPtr (u_Uint64 inOffset) (u_Uint64 inSize));
  c ← get_contract;
  r ← onWorld (evm_DelegateCall (calls ip) (self_ref c) toAddr args gas);
  finishCall retOffset retSize r.

Definition opStaticCall : executionFunc := fun ip =>
  _ ← s_pop; w ← get_world;
  let gas := callGasTemp w in
  addr ← s_pop; inOffset ← s_pop; inSize ← s_pop; retOffset ← s_pop; retSize ← s_pop;
  let toAddr := u_Bytes20 addr in
  args ← m_read (GetPtr (u_Uint64 inOffset) (u_Uint64 inSize));
  c ← get_contract;
  r ← onWorld (evm_StaticCall (calls ip) (self_ref c) toAddr args gas);
  finishCall retOffset retSize r.

Definition opReturn : executionFunc := fun _ =>
  offset ← s_pop; size ← s_pop;
  ret ← m_read (GetCopy (u_Uint64 offset) (u_Uint64 size));
  mret (ret, Some errStopToken).

Definition opRevert : executionFunc := fun _ =>
  offset ← s_pop; size ← s_pop;
  ret ← m_read (GetCopy (u_Uint64 offset) (u_Uint64 size));
  _ ← setReturnData ret;
  mret (ret, Some ErrExecutionReverted).

(** [Code[*pc]]: the index panics past the end, which the interpreter never reaches
    since it executes STOP there. *)
Definition opUndefined : executionFunc := fun _ =>
  p ← gets pc; c ← get_contract;
  b ← lift (go_index (Code c) p);
  fail (ErrInvalidOpCode (byteZ b)).

Definition opStop : executionFunc := fun _ => fail errStopToken.

Definition opSelfdestruct : executionFunc := fun _ =>
  w ← get_world;
  if readOnly w then fail ErrWriteProtection
  else
    beneficiary ← s_pop; c ← get_contract;
    let callerAddr := self c in
    let beneficiaryAddr := u_Bytes20 beneficiary in
    '(balance, err) ← onState (GetBalance callerAddr);
    match err with
    | Some e => fail e
    | None =>
        _ ← onState (AddBalance beneficiaryAddr balance);
        _ ← onState (Selfdestruct callerAddr);
        fail errStopToken
    end.

Definition opSelfdestruct6780 : executionFunc := fun _ =>
  w ← get_world;
  if readOnly w then fail ErrWriteProtection
  else
    beneficiary ← s_pop; c ← get_contract;
    let callerAddr := self c in
    let beneficiaryAddr := u_Bytes20 beneficiary in
    '(balance, err) ← onState (GetBalance callerAddr);
    match err with
    | Some e => fail e
    | None =>
        _ ← onState (SubBalance callerAddr balance);
        _ ← onState (AddBalance beneficiaryAddr balance);
        _ ← onState (Selfdestruct6780 callerAddr);
        fail errStopToken
    end.

(** The loop [topics[i] = stack.pop().Bytes32()]. *)
Fixpoint popTopics (size : nat) : M Frame (list Z) :=
  match size with
  | O => mret []
  | S n => addr ← s_pop; rest ← popTopics n; mret (u_Bytes32 addr :: rest)
  end.

Definition makeLog (size : nat) : executionFunc := fun ip =>
  w ← get_world;
  if readOnly w then fail ErrWriteProtection
  else
    mStart ← s_pop; mSize ← s_pop;
    topics ← popTopics size;
    d ← m_read (GetCopy (u_Uint64 mStart) (u_Uint64 mSize));
    c ← get_contract;
    _ ← onState (AddLog (mkLog (self c) topics d (BlockNumber (Context (env ip)))));
    ok.

(** ** Push and dup *)

Definition opPush1 : executionFunc := fun _ =>
  c ← get_contract;
  let codeLen := zlen (Code c) in
  _ ← modify (fun f => with_pc f (u64 (pc f + 1)));
  p ← gets pc;
  _ ← (if p <? codeLen then b ← lift (go_index (Code c) p); s_push (byteZ b)
       else s_push 0);
  ok.

Definition opPush2 : executionFunc := fun _ =>
  c ← get_contract;
  let codeLen := zlen (Code c) in
  p ← gets pc;
  _ ← (if u64 (p + 2) <? codeLen then
         b ← lift (go_slice (Code c) (u64 (p + 1)) (u64 (p + 3)));
         s_push (u_SetBytes b)
       else if u64 (p + 1) <? codeLen then
         b ← lift (go_index (Code c) (u64 (p + 1)));
         s_push (u64 (Z.shiftl (byteZ b) 8))
       else s_push 0);
  _ ← modify (fun f => with_pc f (u64 (pc f + 2)));
  ok.

Definition makePush (size pushByteSize : Z) : executionFunc := fun _ =>
  c ← get_contract;
  let codeLen := zlen (Code c) in
  p ← gets pc;
  let startMin := i64 (u64 (p + 1)) in
  let startMin := if codeLen <=? startMin then codeLen else startMin in
  let endMin := i64 (startMin + pushByteSize) in
  let endMin := if codeLen <=? i64 (startMin + pushByteSize) then codeLen else endMin in
  b ← lift (go_slice (Code c) startMin endMin);
  _ ← s_push (u_SetBytes (RightPadBytes b pushByteSize));
  _ ← modify (fun f => with_pc f (u64 (pc f + size)));
  ok.

Definition makeDup (size : Z) : executionFunc := fun _ => _ ← s_lift (dup size); ok.

Definition opPush0 : executionFunc := fun _ => _ ← s_push 0; ok.

(** ** The instructions of [eips.go] *)

Definition opSelfBalance : executionFunc := fun _ =>
  c ← get_contract;
  '(balance, err) ← onState (GetBalance (self c));
  match err with
  | Some e => fail e
  | None => _ ← s_push balance; ok
  end.

Definition opChainID : executionFunc := fun ip =>
  let '(chainId, _) := u_FromBig (ChainID (chainRules (env ip))) in
  _ ← s_push chainId; ok.

Definition opTload : executionFunc := fun _ =>
  loc ← s_peek; c ← get_contract;
  let hash := u_Bytes32 loc in
  val ← onState (GetTransientState (self c) hash);
  _ ← s_poke val; ok.

Definition opTstore : executionFunc := fun _ =>
  w ← get_world;
  if readOnly w then fail ErrWriteProtection
  else
    loc ← s_pop; val ← s_pop; c ← get_contract;
    _ ← onState (SetTransientState (self c) (u_Bytes32 loc) val);
    ok.

Definition opBaseFee : executionFunc := fun ip =>
  _ ← s_push_ptr (BaseFee (Context (env ip))); ok.

Definition opBlobHash : executionFunc := fun ip =>
  idx ← s_peek;
  let hashes := BlobHashes (Tx (env ip)) in
  _ ← (if u_LtUint64 idx (zlen hashes) then
         hash ← lift (go_index hashes (u_Uint64 idx)); s_poke hash
       else s_poke 0);
  ok.

Definition opMcopy : executionFunc := fun _ =>
  dst ← s_pop; src ← s_pop; length ← s_pop;
  _ ← m_write (Copy (u_Uint64 dst) (u_Uint64 src) (u_Uint64 length)); ok.

Definition opBlobBaseFee : executionFunc := fun ip =>
  _ ← s_push_ptr (BlobBaseFee (Context (env ip))); ok.

End Instructions.
