(* ===== verification/JumpTable.v ===== *)
(** * Jump tables

    [core/vm/jump_table.go], [core/vm/stack_table.go] and the table editing of
    [core/vm/eips.go]: one [operation] per opcode, the instruction set of every
    fork, each built from its predecessor, and the activation of single EIPs.
    A [JumpTable] is an array of pointers: a nil entry is [None], and writing
    through it panics. *)

From S2P Require Import Machine GasTable Instructions.
Import params.

Module stack_table.
Definition maxStack (pop push : Z) : Z := i64 (i64 (StackLimit + pop) - push).
End stack_table.

Section JumpTable.
Context {U : Uint256} {K : Keccak} {DB : StateDB} {L : LRU}.

Record operation : Type := mkOperation {
  execute : executionFunc;
  constantGas : Z;
  dynamicGas : option gasFunc;
  maxStack : Z;
  numPop : Z;
  numPush : Z;
  isPush : bool;
  isSwap : bool;
  isDup : bool;
  opNum : Z;
  memorySize : option memorySizeFunc
}.

Definition JumpTable : Type := list (option operation).

(** A composite literal with the fields it does not name at their zero value. *)
Definition op_ (e : executionFunc) (g : Z) (d : option gasFunc) (pops pushes : Z)
    (m : option memorySizeFunc) : operation :=
  mkOperation e g d 0 pops pushes false false false 0 m.
Definition pushOp (n : Z) (o : operation) : operation :=
  mkOperation (execute o) (constantGas o) (dynamicGas o) (maxStack o) (numPop o) (numPush o)
    true (isSwap o) (isDup o) n (memorySize o).
Definition swapOp (n : Z) (o : operation) : operation :=
  mkOperation (execute o) (constantGas o) (dynamicGas o) (maxStack o) (numPop o) (numPush o)
    (isPush o) true (isDup o) n (memorySize o).
Definition dupOp (n : Z) (o : operation) : operation :=
  mkOperation (execute o) (constantGas o) (dynamicGas o) (maxStack o) (numPop o) (numPush o)
    (isPush o) (isSwap o) true n (memorySize o).

(** The assignments [jt[op].field = ...]. *)
Definition with_constantGas (g : Z) (o : operation) : operation :=
  mkOperation (execute o) g (dynamicGas o) (maxStack o) (numPop o) (numPush o)
    (isPush o) (isSwap o) (isDup o) (opNum o) (memorySize o).
Definition with_dynamicGas (d : gasFunc) (o : operation) : operation :=
  mkOperation (execute o) (constantGas o) (Some d) (maxStack o) (numPop o) (numPush o)
    (isPush o) (isSwap o) (isDup o) (opNum o) (memorySize o).
Definition with_execute (e : executionFunc) (o : operation) : operation :=
  mkOperation e (constantGas o) (dynamicGas o) (maxStack o) (numPop o) (numPush o)
    (isPush o) (isSwap o) (isDup o) (opNum o) (memorySize o).
Definition with_maxStack (m : Z) (o : operation) : operation :=
  mkOperation (execute o) (constantGas o) (dynamicGas o) m (numPop o) (numPush o)
    (isPush o) (isSwap o) (isDup o) (opNum o) (memorySize o).

(** [jt[op] = &operation{...}] and a write through the pointer [jt[op]]. *)
Definition jt_set (op : Z) (o : operation) (jt : JumpTable) : Res JumpTable :=
  mret (<[Z.to_nat op := Some o]> jt).
Definition jt_upd (op : Z) (g : operation -> operation) (jt : JumpTable) : Res JumpTable :=
  match jt !! Z.to_nat op with
  | Some (Some o) => mret (<[Z.to_nat op := Some (g o)]> jt)
  | _ => Panic "invalid memory address or nil pointer dereference"
  end.

Definition isSome {A} (o : option A) : bool := match o with Some _ => true | None => false end.

Fixpoint validateAndFillMaxStack (jt : JumpTable) : Res JumpTable :=
  match jt with
  | [] => mret []
  | None :: _ => Panic "op is not set"
  | Some op :: rest =>
      if isSome (memorySize op) && negb (isSome (dynamicGas op))
      then Panic "op has dynamic memory but not dynamic gas"
      else
        rest' ← validateAndFillMaxStack rest;
        mret (Some (with_maxStack (stack_table.maxStack (numPop op) (numPush op)) op) :: rest')
  end.

(** ** The frontier table *)

Definition frontier_arithmetic : list (Z * operation) := [
  (OpCode.STOP, op_ opStop 0 None 0 0 None);
  (OpCode.ADD, op_ opAdd GasFastestStep None 2 1 None);
  (OpCode.MUL, op_ opMul GasFastStep None 2 1 None);
  (OpCode.SUB, op_ opSub GasFastestStep None 2 1 None);
  (OpCode.DIV, op_ opDiv GasFastStep None 2 1 None);
  (OpCode.SDIV, op_ opSdiv GasFastStep None 2 1 None);
  (OpCode.MOD, op_ opMod GasFastStep None 2 1 None);
  (OpCode.SMOD, op_ opSmod GasFastStep None 2 1 None);
  (OpCode.ADDMOD, op_ opAddmod GasMidStep None 3 1 None);
  (OpCode.MULMOD, op_ opMulmod GasMidStep None 3 1 None)].

Definition frontier_comparison : list (Z * operation) := [
  (OpCode.EXP, op_ opExp 0 (Some gasExpFrontier) 2 1 None);
  (OpCode.SIGNEXTEND, op_ opSignExtend GasFastStep None 2 1 None);
  (OpCode.LT, op_ opLt GasFastestStep None 2 1 None);
  (OpCode.GT, op_ opGt GasFastestStep None 2 1 None);
  (OpCode.SLT, op_ opSlt GasFastestStep None 2 1 None);
  (OpCode.SGT, op_ opSgt GasFastestStep None 2 1 None);
  (OpCode.EQ, op_ opEq GasFastestStep None 2 1 None);
  (OpCode.ISZERO, op_ opIszero GasFastestStep None 1 1 None);
  (OpCode.AND, op_ opAnd GasFastestStep None 2 1 None);
  (OpCode.XOR, op_ opXor GasFastestStep None 2 1 None);
  (OpCode.OR, op_ opOr GasFastestStep None 2 1 None);
  (OpCode.NOT, op_ opNot GasFastestStep None 1 1 None);
  (OpCode.BYTE, op_ opByte GasFastestStep None 2 1 None)].

Definition frontier_environment : list (Z * operation) := [
  (OpCode.KECCAK256, op_ opKeccak256 Keccak256Gas (Some gasKeccak256) 2 1 (Some memoryKeccak256));
  (OpCode.ADDRESS, op_ opAddress GasQuickStep None 0 1 None);
  (OpCode.BALANCE, op_ opBalance BalanceGasFrontier None 1 1 None);
  (OpCode.ORIGIN, op_ opOrigin GasQuickStep None 0 1 None);
  (OpCode.CALLER, op_ opCaller GasQuickStep None 0 1 None);
  (OpCode.CALLVALUE, op_ opCallValue GasQuickStep None 0 1 None);
  (OpCode.CALLDATALOAD, op_ opCallDataLoad GasFastestStep None 1 1 None);
  (OpCode.CALLDATASIZE, op_ opCallDataSize GasQuickStep None 0 1 None);
  (OpCode.CALLDATACOPY, op_ opCallDataCopy GasFastestStep (Some gasCallDataCopy) 3 0 (Some memoryCallDataCopy));
  (OpCode.CODESIZE, op_ opCodeSize GasQuickStep None 0 1 None);
  (OpCode.CODECOPY, op_ opCodeCopy GasFastestStep (Some gasCodeCopy) 3 0 (Some memoryCodeCopy));
  (OpCode.GASPRICE, op_ opGasprice GasQuickStep None 0 1 None);
  (OpCode.EXTCODESIZE, op_ opExtCodeSize ExtcodeSizeGasFrontier None 1 1 None);
  (OpCode.EXTCODECOPY, op_ opExtCodeCopy ExtcodeCopyBaseFrontier (Some gasExtCodeCopy) 4 0 (Some memoryExtCodeCopy));
  (OpCode.BLOCKHASH, op_ opBlockhash GasExtStep None 1 1 None);
  (OpCode.COINBASE, op_ opCoinbase GasQuickStep None 0 1 None);
  (OpCode.TIMESTAMP, op_ opTimestamp GasQuickStep None 0 1 None);
  (OpCode.NUMBER, op_ opNumber GasQuickStep None 0 1 None);
  (OpCode.DIFFICULTY, op_ opDifficulty GasQuickStep None 0 1 None);
  (OpCode.GASLIMIT, op_ opGasLimit GasQuickStep None 0 1 None)].

Definition frontier_memory : list (Z * operation) := [
  (OpCode.POP, op_ opPop GasQuickStep None 1 0 None);
  (OpCode.MLOAD, op_ opMload GasFastestStep (Some gasMLoad) 1 1 (Some memoryMLoad));
  (OpCode.MSTORE, op_ opMstore GasFastestStep (Some gasMStore) 2 0 (Some memoryMStore));
  (OpCode.MSTORE8, op_ opMstore8 GasFastestStep (Some gasMStore8) 2 0 (Some memoryMStore8));
  (OpCode.SLOAD, op_ opSload SloadGasFrontier None 1 1 None);
  (OpCode.SSTORE, op_ opSstore 0 (Some gasSStore) 2 0 None);
  (OpCode.JUMP, op_ opJump GasMidStep None 1 0 None);
  (OpCode.JUMPI, op_ opJumpi GasSlowStep None 2 0 None);
  (OpCode.PC, op_ opPc GasQuickStep None 0 1 None);
  (OpCode.MSIZE, op_ opMsize GasQuickStep None 0 1 None);
  (OpCode.GAS, op_ opGas GasQuickStep None 0 1 None);
  (OpCode.JUMPDEST, op_ opJumpdest JumpdestGas None 0 0 None)].

Definition frontier_push1_16 : list (Z * operation) := [
  (OpCode.PUSH1, pushOp 1 (op_ opPush1 GasFastestStep None 0 1 None));
  (OpCode.PUSH2, pushOp 2 (op_ opPush2 GasFastestStep None 0 1 None));
  (OpCode.PUSH3, pushOp 3 (op_ (makePush 3 3) GasFastestStep None 0 1 None));
  (OpCode.PUSH4, pushOp 4 (op_ (makePush 4 4) GasFastestStep None 0 1 None));
  (OpCode.PUSH5, pushOp 5 (op_ (makePush 5 5) GasFastestStep None 0 1 None));
  (OpCode.PUSH6, pushOp 6 (op_ (makePush 6 6) GasFastestStep None 0 1 None));
  (OpCode.PUSH7, pushOp 7 (op_ (makePush 7 7) GasFastestStep None 0 1 None));
  (OpCode.PUSH8, pushOp 8 (op_ (makePush 8 8) GasFastestStep None 0 1 None));
  (OpCode.PUSH9, pushOp 9 (op_ (makePush 9 9) GasFastestStep None 0 1 None));
  (OpCode.PUSH10, pushOp 10 (op_ (makePush 10 10) GasFastestStep None 0 1 None));
  (OpCode.PUSH11, pushOp 11 (op_ (makePush 11 11) GasFastestStep None 0 1 None));
  (OpCode.PUSH12, pushOp 12 (op_ (makePush 12 12) GasFastestStep None 0 1 None));
  (OpCode.PUSH13, pushOp 13 (op_ (makePush 13 13) GasFastestStep None 0 1 None));
  (OpCode.PUSH14, pushOp 14 (op_ (makePush 14 14) GasFastestStep None 0 1 None));
  (OpCode.PUSH15, pushOp 15 (op_ (makePush 15 15) GasFastestStep None 0 1 None));
  (OpCode.PUSH16, pushOp 16 (op_ (makePush 16 16) GasFastestStep None 0 1 None))].

Definition frontier_push17_32 : list (Z * operation) := [
  (OpCode.PUSH17, pushOp 17 (op_ (makePush 17 17) GasFastestStep None 0 1 None));
  (OpCode.PUSH18, pushOp 18 (op_ (makePush 18 18) GasFastestStep None 0 1 None));
  (OpCode.PUSH19, pushOp 19 (op_ (makePush 19 19) GasFastestStep None 0 1 None));
  (OpCode.PUSH20, pushOp 20 (op_ (makePush 20 20) GasFastestStep None 0 1 None));
  (OpCode.PUSH21, pushOp 21 (op_ (makePush 21 21) GasFastestStep None 0 1 None));
  (OpCode.PUSH22, pushOp 22 (op_ (makePush 22 22) GasFastestStep None 0 1 None));
  (OpCode.PUSH23, pushOp 23 (op_ (makePush 23 23) GasFastestStep None 0 1 None));
  (OpCode.PUSH24, pushOp 24 (op_ (makePush 24 24) GasFastestStep None 0 1 None));
  (OpCode.PUSH25, pushOp 25 (op_ (makePush 25 25) GasFastestStep None 0 1 None));
  (OpCode.PUSH26, pushOp 26 (op_ (makePush 26 26) GasFastestStep None 0 1 None));
  (OpCode.PUSH27, pushOp 27 (op_ (makePush 27 27) GasFastestStep None 0 1 None));
  (OpCode.PUSH28, pushOp 28 (op_ (makePush 28 28) GasFastestStep None 0 1 None));
  (OpCode.PUSH29, pushOp 29 (op_ (makePush 29 29) GasFastestStep None 0 1 None));
  (OpCode.PUSH30, pushOp 30 (op_ (makePush 30 30) GasFastestStep None 0 1 None));
  (OpCode.PUSH31, pushOp 31 (op_ (makePush 31 31) GasFastestStep None 0 1 None));
  (OpCode.PUSH32, pushOp 32 (op_ (makePush 32 32) GasFastestStep None 0 1 None))].

Definition frontier_dup : list (Z * operation) := [
  (OpCode.DUP1, dupOp 1 (op_ (makeDup 1) GasFastestStep None 1 2 None));
  (OpCode.DUP2, dupOp 2 (op_ (makeDup 2) GasFastestStep None 2 3 None));
  (OpCode.DUP3, dupOp 3 (op_ (makeDup 3) GasFastestStep None 3 4 None));
  (OpCode.DUP4, dupOp 4 (op_ (makeDup 4) GasFastestStep None 4 5 None));
  (OpCode.DUP5, dupOp 5 (op_ (makeDup 5) GasFastestStep None 5 6 None));
  (OpCode.DUP6, dupOp 6 (op_ (makeDup 6) GasFastestStep None 6 7 None));
  (OpCode.DUP7, dupOp 7 (op_ (makeDup 7) GasFastestStep None 7 8 None));
  (OpCode.DUP8, dupOp 8 (op_ (makeDup 8) GasFastestStep None 8 9 None));
  (OpCode.DUP9, dupOp 9 (op_ (makeDup 9) GasFastestStep None 9 10 None));
  (OpCode.DUP10, dupOp 10 (op_ (makeDup 10) GasFastestStep None 10 11 None));
  (OpCode.DUP11, dupOp 11 (op_ (makeDup 11) GasFastestStep None 11 12 None));
  (OpCode.DUP12, dupOp 12 (op_ (makeDup 12) GasFastestStep None 12 13 None));
  (OpCode.DUP13, dupOp 13 (op_ (makeDup 13) GasFastestStep None 13 14 None));
  (OpCode.DUP14, dupOp 14 (op_ (makeDup 14) GasFastestStep None 14 15 None));
  (OpCode.DUP15, dupOp 15 (op_ (makeDup 15) GasFastestStep None 15 16 None));
  (OpCode.DUP16, dupOp 16 (op_ (makeDup 16) GasFastestStep None 16 17 None))].

Definition frontier_swap : list (Z * operation) := [
  (OpCode.SWAP1, swapOp 1 (op_ opSwap1 GasFastestStep None 2 2 None));
  (OpCode.SWAP2, swapOp 2 (op_ opSwap2 GasFastestStep None 3 3 None));
  (OpCode.SWAP3, swapOp 3 (op_ opSwap3 GasFastestStep None 4 4 None));
  (OpCode.SWAP4, swapOp 4 (op_ opSwap4 GasFastestStep None 5 5 None));
  (OpCode.SWAP5, swapOp 5 (op_ opSwap5 GasFastestStep None 6 6 None));
  (OpCode.SWAP6, swapOp 6 (op_ opSwap6 GasFastestStep None 7 7 None));
  (OpCode.SWAP7, swapOp 7 (op_ opSwap7 GasFastestStep None 8 8 None));
  (OpCode.SWAP8, swapOp 8 (op_ opSwap8 GasFastestStep None 9 9 None));
  (OpCode.SWAP9, swapOp 9 (op_ opSwap9 GasFastestStep None 10 10 None));
  (OpCode.SWAP10, swapOp 10 (op_ opSwap10 GasFastestStep None 11 11 None));
  (OpCode.SWAP11, swapOp 11 (op_ opSwap11 GasFastestStep None 12 12 None));
  (OpCode.SWAP12, swapOp 12 (op_ opSwap12 GasFastestStep None 13 13 None));
  (OpCode.SWAP13, swapOp 13 (op_ opSwap13 GasFastestStep None 14 14 None));
  (OpCode.SWAP14, swapOp 14 (op_ opSwap14 GasFastestStep None 15 15 None));
  (OpCode.SWAP15, swapOp 15 (op_ opSwap15 GasFastestStep None 16 16 None));
  (OpCode.SWAP16, swapOp 16 (op_ opSwap16 GasFastestStep None 17 17 None))].

Definition frontier_log_call : list (Z * operation) := [
  (OpCode.LOG0, op_ (makeLog 0) 0 (Some (makeGasLog 0)) 2 0 (Some memoryLog));
  (OpCode.LOG1, op_ (makeLog 1) 0 (Some (makeGasLog 1)) 3 0 (Some memoryLog));
  (OpCode.LOG2, op_ (makeLog 2) 0 (Some (makeGasLog 2)) 4 0 (Some memoryLog));
  (OpCode.LOG3, op_ (makeLog 3) 0 (Some (makeGasLog 3)) 5 0 (Some memoryLog));
  (OpCode.LOG4, op_ (makeLog 4) 0 (Some (makeGasLog 4)) 6 0 (Some memoryLog));
  (OpCode.CREATE, op_ opCreate CreateGas (Some gasCreate) 3 1 (Some memoryCreate));
  (OpCode.CALL, op_ opCall CallGasFrontier (Some gasCall) 7 1 (Some memoryCall));
  (OpCode.CALLCODE, op_ opCallCode CallGasFrontier (Some gasCallCode) 7 1 (Some memoryCall));
  (OpCode.RETURN, op_ opReturn 0 (Some gasReturn) 2 0 (Some memoryReturn));
  (OpCode.SELFDESTRUCT, op_ opSelfdestruct 0 (Some gasSelfdestruct) 1 0 None)].

Definition frontier_literal : list (Z * operation) :=
  frontier_arithmetic ++ frontier_comparison ++ frontier_environment ++ frontier_memory ++
  frontier_push1_16 ++ frontier_push17_32 ++ frontier_dup ++ frontier_swap ++ frontier_log_call.

(** [tbl[i] = &operation{execute: opUndefined}] where [entry == nil]. *)
Definition fillUndefined (jt : JumpTable) : JumpTable :=
  map (fun entry => match entry with
                    | Some o => Some o
                    | None => Some (op_ opUndefined 0 None 0 0 None)
                    end) jt.

Definition newFrontierInstructionSet : Res JumpTable :=
  let tbl := foldl (fun jt e => <[Z.to_nat e.1 := Some e.2]> jt)
                   (replicate 256 None) frontier_literal in
  validateAndFillMaxStack (fillUndefined tbl).

(** ** EIPs *)

Definition enable1884 (jt : JumpTable) : Res JumpTable :=
  jt ← jt_upd OpCode.SLOAD (with_constantGas SloadGasEIP1884) jt;
  jt ← jt_upd OpCode.BALANCE (with_constantGas BalanceGasEIP1884) jt;
  jt ← jt_upd OpCode.EXTCODEHASH (with_constantGas ExtcodeHashGasEIP1884) jt;
  jt_set OpCode.SELFBALANCE (op_ opSelfBalance GasFastStep None 0 1 None) jt.

Definition enable1344 (jt : JumpTable) : Res JumpTable :=
  jt_set OpCode.CHAINID (op_ opChainID GasQuickStep None 0 1 None) jt.

Definition enable2200 (jt : JumpTable) : Res JumpTable :=
  jt ← jt_upd OpCode.SLOAD (with_constantGas SloadGasEIP2200) jt;
  jt_upd OpCode.SSTORE (with_dynamicGas gasSStoreEIP2200) jt.

Definition enable2929 (jt : JumpTable) : Res JumpTable :=
  jt ← jt_upd OpCode.SSTORE (with_dynamicGas gasSStoreEIP2929) jt;
  jt ← jt_upd OpCode.SLOAD (with_constantGas 0) jt;
  jt ← jt_upd OpCode.SLOAD (with_dynamicGas gasSLoadEIP2929) jt;
  jt ← jt_upd OpCode.EXTCODECOPY (with_constantGas WarmStorageReadCostEIP2929) jt;
  jt ← jt_upd OpCode.EXTCODECOPY (with_dynamicGas gasExtCodeCopyEIP2929) jt;
  jt ← jt_upd OpCode.EXTCODESIZE (with_constantGas WarmStorageReadCostEIP2929) jt;
  jt ← jt_upd OpCode.EXTCODESIZE (with_dynamicGas gasEip2929AccountCheck) jt;
  jt ← jt_upd OpCode.EXTCODEHASH (with_constantGas WarmStorageReadCostEIP2929) jt;
  jt ← jt_upd OpCode.EXTCODEHASH (with_dynamicGas gasEip2929AccountCheck) jt;
  jt ← jt_upd OpCode.BALANCE (with_constantGas WarmStorageReadCostEIP2929) jt;
  jt ← jt_upd OpCode.BALANCE (with_dynamicGas gasEip2929AccountCheck) jt;
  jt ← jt_upd OpCode.CALL (with_constantGas WarmStorageReadCostEIP2929) jt;
  jt ← jt_upd OpCode.CALL (with_dynamicGas gasCallEIP2929) jt;
  jt ← jt_upd OpCode.CALLCODE (with_constantGas WarmStorageReadCostEIP2929) jt;
  jt ← jt_upd OpCode.CALLCODE (with_dynamicGas gasCallCodeEIP2929) jt;
  jt ← jt_upd OpCode.STATICCALL (with_constantGas WarmStorageReadCostEIP2929) jt;
  jt ← jt_upd OpCode.STATICCALL (with_dynamicGas gasStaticCallEIP2929) jt;
  jt ← jt_upd OpCode.DELEGATECALL (with_constantGas WarmStorageReadCostEIP2929) jt;
  jt ← jt_upd OpCode.DELEGATECALL (with_dynamicGas gasDelegateCallEIP2929) jt;
  jt ← jt_upd OpCode.SELFDESTRUCT (with_constantGas SelfdestructGasEIP150) jt;
  jt_upd OpCode.SELFDESTRUCT (with_dynamicGas gasSelfdestructEIP2929) jt.

Definition enable3529 (jt : JumpTable) : Res JumpTable :=
  jt ← jt_upd OpCode.SSTORE (with_dynamicGas gasSStoreEIP3529) jt;
  jt_upd OpCode.SELFDESTRUCT (with_dynamicGas gasSelfdestructEIP3529) jt.

Definition enable3198 (jt : JumpTable) : Res JumpTable :=
  jt_set OpCode.BASEFEE (op_ opBaseFee GasQuickStep None 0 1 None) jt.

Definition enable1153 (jt : JumpTable) : Res JumpTable :=
  jt ← jt_set OpCode.TLOAD (op_ opTload WarmStorageReadCostEIP2929 None 1 1 None) jt;
  jt_set OpCode.TSTORE (op_ opTstore WarmStorageReadCostEIP2929 None 2 0 None) jt.

Definition enable3855 (jt : JumpTable) : Res JumpTable :=
  jt_set OpCode.PUSH0 (op_ opPush0 GasQuickStep None 0 1 None) jt.

Definition enable3860 (jt : JumpTable) : Res JumpTable :=
  jt ← jt_upd OpCode.CREATE (with_dynamicGas gasCreateEip3860) jt;
  jt_upd OpCode.CREATE2 (with_dynamicGas gasCreate2Eip3860) jt.

Definition enable4844 (jt : JumpTable) : Res JumpTable :=
  jt_set OpCode.BLOBHASH (op_ opBlobHash GasFastestStep None 1 1 None) jt.

Definition enable5656 (jt : JumpTable) : Res JumpTable :=
  jt_set OpCode.MCOPY (op_ opMcopy GasFastestStep (Some gasMcopy) 3 0 (Some memoryMcopy)) jt.

Definition enable6780 (jt : JumpTable) : Res JumpTable :=
  jt_upd OpCode.SELFDESTRUCT (with_execute opSelfdestruct6780) jt.

Definition enable7516 (jt : JumpTable) : Res JumpTable :=
  jt_set OpCode.BLOBBASEFEE (op_ opBlobBaseFee GasQuickStep None 0 1 None) jt.

Definition enable7702 (jt : JumpTable) : Res JumpTable :=
  jt ← jt_upd OpCode.CALL (with_dynamicGas gasCallEIP7702) jt;
  jt ← jt_upd OpCode.CALLCODE (with_dynamicGas gasCallCodeEIP7702) jt;
  jt ← jt_upd OpCode.STATICCALL (with_dynamicGas gasStaticCallEIP7702) jt;
  jt_upd OpCode.DELEGATECALL (with_dynamicGas gasDelegateCallEIP7702) jt.

Definition enable7939 (jt : JumpTable) : Res JumpTable :=
  jt_set OpCode.CLZ (op_ opCLZ GasFastStep None 1 1 None) jt.

Definition activators : list (Z * (JumpTable -> Res JumpTable)) := [
  (7702, enable7702); (7516, enable7516); (6780, enable6780); (5656, enable5656);
  (4844, enable4844); (3860, enable3860); (3855, enable3855); (3529, enable3529);
  (3198, enable3198); (2929, enable2929); (2200, enable2200); (1884, enable1884);
  (1344, enable1344); (1153, enable1153)].

Fixpoint lookupEip {A} (eipNum : Z) (l : list (Z * A)) : option A :=
  match l with
  | [] => None
  | (n, a) :: rest => if n =? eipNum then Some a else lookupEip eipNum rest
  end.

Definition errUndefinedEip : Error := NewError "undefined eip".

(** The table is written in place; an unknown number leaves it alone. *)
Definition EnableEIP (eipNum : Z) (jt : JumpTable) : Res (JumpTable * option Error) :=
  match lookupEip eipNum activators with
  | None => mret (jt, Some errUndefinedEip)
  | Some enablerFn =>
      jt ← enablerFn jt;
      jt ← validateAndFillMaxStack jt;
      mret (jt, None)
  end.

Definition ValidEip (eipNum : Z) : bool := isSome (lookupEip eipNum activators).

(** ** The instruction sets of the forks *)

Definition newHomesteadInstructionSet : Res JumpTable :=
  jt ← newFrontierInstructionSet;
  jt ← jt_set OpCode.DELEGATECALL
         (op_ opDelegateCall CallGasFrontier (Some gasDelegateCall) 6 1 (Some memoryDelegateCall)) jt;
  validateAndFillMaxStack jt.

Definition newTangerineWhistleInstructionSet : Res JumpTable :=
  jt ← newHomesteadInstructionSet;
  jt ← jt_upd OpCode.BALANCE (with_constantGas BalanceGasEIP150) jt;
  jt ← jt_upd OpCode.EXTCODESIZE (with_constantGas ExtcodeSizeGasEIP150) jt;
  jt ← jt_upd OpCode.SLOAD (with_constantGas SloadGasEIP150) jt;
  jt ← jt_upd OpCode.EXTCODECOPY (with_constantGas ExtcodeCopyBaseEIP150) jt;
  jt ← jt_upd OpCode.CALL (with_constantGas CallGasEIP150) jt;
  jt ← jt_upd OpCode.CALLCODE (with_constantGas CallGasEIP150) jt;
  jt ← jt_upd OpCode.DELEGATECALL (with_constantGas CallGasEIP150) jt;
  validateAndFillMaxStack jt.

Definition newSpuriousDragonInstructionSet : Res JumpTable :=
  jt ← newTangerineWhistleInstructionSet;
  jt ← jt_upd OpCode.EXP (with_dynamicGas gasExpEIP160) jt;
  validateAndFillMaxStack jt.

Definition newByzantiumInstructionSet : Res JumpTable :=
  jt ← newSpuriousDragonInstructionSet;
  jt ← jt_set OpCode.STATICCALL
         (op_ opStaticCall CallGasEIP150 (Some gasStaticCall) 6 1 (Some memoryStaticCall)) jt;
  jt ← jt_set OpCode.RETURNDATASIZE (op_ opReturnDataSize GasQuickStep None 0 1 None) jt;
  jt ← jt_set OpCode.RETURNDATACOPY
         (op_ opReturnDataCopy GasFastestStep (Some gasReturnDataCopy) 3 0 (Some memoryReturnDataCopy)) jt;
  jt ← jt_set OpCode.REVERT (op_ opRevert 0 (Some gasRevert) 2 0 (Some memoryRevert)) jt;
  validateAndFillMaxStack jt.

Definition newConstantinopleInstructionSet : Res JumpTable :=
  jt ← newByzantiumInstructionSet;
  jt ← jt_set OpCode.SHL (op_ opSHL GasFastestStep None 2 1 None) jt;
  jt ← jt_set OpCode.SHR (op_ opSHR GasFastestStep None 2 1 None) jt;
  jt ← jt_set OpCode.SAR (op_ opSAR GasFastestStep None 2 1 None) jt;
  jt ← jt_set OpCode.EXTCODEHASH (op_ opExtCodeHash ExtcodeHashGasConstantinople None 1 1 None) jt;
  jt ← jt_set OpCode.CREATE2
         (op_ opCreate2 Create2Gas (Some gasCreate2) 4 1 (Some memoryCreate2)) jt;
  validateAndFillMaxStack jt.

Definition newIstanbulInstructionSet : Res JumpTable :=
  jt ← newConstantinopleInstructionSet;
  jt ← enable1344 jt; jt ← enable1884 jt; jt ← enable2200 jt;
  validateAndFillMaxStack jt.

Definition newBerlinInstructionSet : Res JumpTable :=
  jt ← newIstanbulInstructionSet; jt ← enable2929 jt; validateAndFillMaxStack jt.

Definition newLondonInstructionSet : Res JumpTable :=
  jt ← newBerlinInstructionSet; jt ← enable3529 jt; jt ← enable3198 jt;
  validateAndFillMaxStack jt.

Definition newShanghaiInstructionSet : Res JumpTable :=
  jt ← newLondonInstructionSet; jt ← enable3855 jt; jt ← enable3860 jt;
  validateAndFillMaxStack jt.

Definition newNapoliInstructionSet : Res JumpTable :=
  jt ← newShanghaiInstructionSet; jt ← enable1153 jt; jt ← enable5656 jt; jt ← enable6780 jt;
  validateAndFillMaxStack jt.

Definition newBhilaiInstructionSet : Res JumpTable :=
  jt ← newNapoliInstructionSet; jt ← enable7702 jt; validateAndFillMaxStack jt.

Definition newCancunInstructionSet : Res JumpTable :=
  jt ← newNapoliInstructionSet; jt ← enable4844 jt; jt ← enable7516 jt;
  validateAndFillMaxStack jt.

Definition newPragueInstructionSet : Res JumpTable :=
  jt ← newCancunInstructionSet; jt ← enable7702 jt; validateAndFillMaxStack jt.

Definition newOsakaInstructionSet : Res JumpTable :=
  jt ← newPragueInstructionSet; jt ← enable7939 jt; validateAndFillMaxStack jt.

(** ** Selecting and extending a table: [NewEVMInterpreter] *)

Definition selectInstructionSet (rules : Rules) : Res JumpTable :=
  if IsOsaka rules then newOsakaInstructionSet
  else if IsBhilai rules then newBhilaiInstructionSet
  else if IsPrague rules then newPragueInstructionSet
  else if IsCancun rules then newCancunInstructionSet
  else if IsNapoli rules then newNapoliInstructionSet
  else if IsShanghai rules then newShanghaiInstructionSet
  else if IsLondon rules then newLondonInstructionSet
  else if IsBerlin rules then newBerlinInstructionSet
  else if IsIstanbul rules then newIstanbulInstructionSet
  else if IsConstantinople rules then newConstantinopleInstructionSet
  else if IsByzantium rules then newByzantiumInstructionSet
  else if IsSpuriousDragon rules then newSpuriousDragonInstructionSet
  else if IsTangerineWhistle rules then newTangerineWhistleInstructionSet
  else if IsHomestead rules then newHomesteadInstructionSet
  else newFrontierInstructionSet.

(** [copyJumpTable]: the operations are copied, nil stays nil. *)
Definition copyJumpTable (jt : JumpTable) : JumpTable :=
  map (fun op => match op with Some o => Some o | None => None end) jt.

(** [for i, eip := range cfg.ExtraEips]: the range keeps the slice it started with,
    of the original length, over the array [arr]; [append(s[:i], s[i+1:]...)] shifts
    that same array in place and leaves [cfg.ExtraEips] one shorter ([len]). [k]
    counts the iterations left. *)
Fixpoint extraEips_loop (k : nat) (i : Z) (arr : list Z) (len : Z) (jt : JumpTable)
    : Res (JumpTable * list Z * Z) :=
  match k with
  | O => mret (jt, arr, len)
  | S k' =>
      eip ← go_index arr i;
      '(jt, err) ← EnableEIP eip jt;
      match err with
      | None => extraEips_loop k' (i + 1) arr len jt
      | Some _ =>
          if len <? i + 1 then Panic "slice bounds out of range"
          else
            let tail := take (Z.to_nat (len - (i + 1))) (drop (Z.to_nat (i + 1)) arr) in
            extraEips_loop k' (i + 1) (splice arr i tail) (len - 1) jt
      end
  end.

(** The table of a new interpreter and the [ExtraEips] its configuration keeps. *)
Definition NewEVMInterpreter (rules : Rules) (cfg : Config) : Res (JumpTable * list Z) :=
  jt ← selectInstructionSet rules;
  if 0 <? zlen (ExtraEips cfg) then
    '(jt, arr, len) ← extraEips_loop (length (ExtraEips cfg)) 0 (ExtraEips cfg)
                        (zlen (ExtraEips cfg)) (copyJumpTable jt);
    mret (jt, take (Z.to_nat len) arr)
  else mret (jt, ExtraEips cfg).

End JumpTable.
