(* ===== verification/Interpreter.v ===== *)
(** * The interpreter loop

    [EVMInterpreter.Run] of [core/vm/interpreter.go]: fetch, stack check, gas, memory
    expansion, execution, until an instruction stops the loop or fails. Tracing is
    not modelled. The loop is unrolled with fuel; [run_loop_terminates] shows that
    one unit per unit of gas, plus one, is enough. *)

From S2P Require Import Machine GasTable Instructions JumpTable.
Import params.

Section Interpreter.
Context {U : Uint256} {K : Keccak} {DB : StateDB} {L : LRU}.

(** [in.jt[op]] and the dereference of the entry. *)
Definition fetch (jt : JumpTable) (op : Z) : Res operation :=
  e ← go_index jt op;
  match e with
  | Some o => mret o
  | None => Panic "invalid memory address or nil pointer dereference"
  end.

(** The dynamic part of the price: the requested memory size in whole words, then the
    gas function, then the charge. [inl] is the error [Run] returns, [inr] the size
    the memory must have. *)
Definition chargeDynamic (ip : Interp) (operation : operation) : M Frame (Error + Z) :=
  match dynamicGas operation with
  | None => mret (inr 0)
  | Some dynamicGas =>
      st ← gets stk;
      sz ← match memorySize operation with
           | None => mret (inr 0)
           | Some memorySize =>
               '(memSize, overflow) ← lift (memorySize st);
               if overflow : bool then mret (inl ErrGasUintOverflow)
               else
                 let '(size, overflow) := SafeMul (ToWordSize memSize) 32 in
                 if overflow : bool then mret (inl ErrGasUintOverflow) else mret (inr size)
           end;
      match sz with
      | inl e => mret (inl e)
      | inr memorySize =>
          '(dynamicCost, err) ← dynamicGas ip memorySize;
          match err with
          | Some e => mret (inl (ErrorfWV ErrOutOfGas e))
          | None =>
              ok ← useGas dynamicCost;
              if ok : bool then mret (inr memorySize) else mret (inl ErrOutOfGas)
          end
      end
  end.

(** One iteration of the main loop: [inl] is what [Run] returns, [inr] the result the
    next iteration starts with. [steps] and [res] are the Go locals of the same
    names. *)
Definition iteration (ip : Interp) (jt : JumpTable) (steps : Z) (res : bytes)
    : M Frame ((bytes * option Error) + bytes) :=
  cancelled ← (if steps mod 5000 =? 0 then onWorld (Cancelled (env ip)) else mret false);
  if cancelled : bool then mret (inl (res, None))
  else
    c ← get_contract; p ← gets pc;
    op ← lift (GetOp c p);
    operation ← lift (fetch jt op);
    st ← gets stk;
    let sLen := stack_len st in
    if sLen <? numPop operation
    then mret (inl ([], Some (ErrStackUnderflow sLen (numPop operation))))
    else if maxStack operation <? sLen
    then mret (inl ([], Some (ErrStackOverflow sLen (maxStack operation))))
    else
      ok ← useGas (constantGas operation);
      if negb ok then mret (inl ([], Some ErrOutOfGas))
      else
        charged ← chargeDynamic ip operation;
        match charged with
        | inl e => mret (inl ([], Some e))
        | inr memorySize =>
            _ ← (if 0 <? memorySize
                 then modify (fun f => with_mem f (Resize memorySize (mem f)))
                 else mret tt);
            '(res, err) ← execute operation ip;
            match err with
            | Some e => mret (inl (res, if error_eqb e errStopToken then None else Some e))
            | None =>
                _ ← modify (fun f => with_pc f (u64 (pc f + 1)));
                mret (inr res)
            end
        end.

Fixpoint run_loop (fuel : nat) (ip : Interp) (jt : JumpTable) (steps : Z) (res : bytes)
    : M Frame (bytes * option Error) :=
  match fuel with
  | O => fun _ => OutOfFuel
  | S fuel' =>
      let steps := steps + 1 in
      r ← iteration ip jt steps res;
      match r with
      | inl r => mret r
      | inr res => run_loop fuel' ip jt steps res
      end
  end.

(** [Run]: the frame is set up, the loop runs, and the deferred clean-up restores the
    read-only flag and the depth. The contract is passed by reference in Go: the
    caller reads the gas left in it. *)
Definition Run (fuel : nat) (ip : Interp) (jt : JumpTable) (c : Contract) (input : bytes)
    (readOnly_ : bool) : M World (bytes * option Error * Contract) := fun w =>
  if zlen (Code c) =? 0 then Val (([], None, c), w)
  else
    let w := with_returnData w [] in
    let c := with_Input c input in
    let restoreReadonly := readOnly_ && negb (readOnly w) in
    let w := if restoreReadonly then with_readOnly w true else w in
    let w := with_depth w (depth w + 1) in
    match run_loop fuel ip jt 0 [] (mkFrame 0 [] NewMemory c w) with
    | Val (r, f) =>
        let w := world f in
        let w := if restoreReadonly then with_readOnly w false else w in
        let w := with_depth w (depth w - 1) in
        Val ((r.1, r.2, contract f), w)
    | Panic e => Panic e
    | OutOfFuel => OutOfFuel
    end.

End Interpreter.
