(* ===== verification/MemoryGas.v ===== *)
(** * Memory expansion is charged exactly

    The reference cost of a memory of [n] words is [Cmem n] = 3n + n²/512. The
    invariant [mem_ok] says a memory is whole words, within the schedule's limit, and
    paid for; [memoryGasCost] charges exactly the difference, with no 64-bit
    wrap-around, and charging then resizing keeps the invariant. *)

From S2P Require Import Machine GasTable.
Import params.

(** The largest memory the gas schedule admits (bytes). *)
Definition MaxMem : Z := 0x1FFFFFFFE0.

Definition Cmem (words : Z) : Z := MemoryGas * words + words * words / QuadCoeffDiv.

Definition mem_ok (m : Memory) : Prop :=
  Len m <= MaxMem /\ Len m mod 32 = 0 /\ lastGasCost m = Cmem (Len m / 32).

(** The words a requested size occupies, at least those the memory has. *)
Definition words_after (m : Memory) (size : Z) : Z := Z.max (Len m / 32) (ToWordSize size).

Lemma Cmem_mono a b : 0 <= a <= b -> Cmem a <= Cmem b.
Proof.
  intros H. unfold Cmem, MemoryGas, QuadCoeffDiv.
  assert (a * a / 512 <= b * b / 512) by (apply Z.div_le_mono; nia). lia.
Qed.

Lemma Cmem_bound w : 0 <= w <= 0xFFFFFFFF -> 0 <= Cmem w <= 36028809887088637.
Proof.
  intros H. change 0 with (Cmem 0) at 1. change 36028809887088637 with (Cmem 0xFFFFFFFF).
  split; apply Cmem_mono; lia.
Qed.

Lemma mem_ok_words m : mem_ok m -> Len m = 32 * (Len m / 32) /\ 0 <= Len m / 32 <= 0xFFFFFFFF.
Proof.
  intros (H1 & H2 & _). pose proof (zlen_nonneg (store m)) as Hn. unfold Len, MaxMem in *.
  pose proof (Z.div_mod (zlen (store m)) 32 ltac:(lia)). lia.
Qed.

Lemma words_bound size :
  0 <= size <= MaxMem -> 0 <= ToWordSize size <= 0xFFFFFFFF /\ size <= 32 * ToWordSize size.
Proof.
  intros H. unfold MaxMem in H. assert (Hs : is_u64 size) by (unfold is_u64, two64; lia).
  pose proof (ToWordSize_bounds size Hs). pose proof (ToWordSize_u64 size Hs).
  unfold is_u64 in *. lia.
Qed.

(** [memoryGasCost] on a paid-for memory: the three outcomes. *)
Lemma memoryGasCost_cases m size :
  mem_ok m -> is_u64 size ->
  (MaxMem < size /\ memoryGasCost m size = ((0, Some ErrGasUintOverflow), m)) \/
  (size <= MaxMem /\
   memoryGasCost m size =
     ((Cmem (words_after m size) - Cmem (Len m / 32), None),
      with_lastGasCost m (Cmem (words_after m size)))).
Proof.
  intros Hm Hs. pose proof (mem_ok_words m Hm) as [HL HW]. unfold memoryGasCost, words_after.
  assert (Em : m = with_lastGasCost m (Cmem (Len m / 32))).
  { destruct Hm as (_ & _ & <-). by destruct m. }
  destruct (Z.eqb_spec size 0) as [->|Hz].
  { right. split; [discriminate|]. change (ToWordSize 0) with 0. rewrite Z.max_l by lia.
    rewrite Z.sub_diag, <- Em. reflexivity. }
  change 0x1FFFFFFFE0 with MaxMem.
  destruct (Z.ltb_spec MaxMem size) as [Hb|Hb]; [left; auto|right; split; [assumption|]].
  destruct (words_bound size) as [Hw Hge]; [unfold is_u64 in *; lia|].
  set (w := ToWordSize size) in *.
  rewrite (u64_id (w * 32)) by (unfold is_u64, two64; lia).
  destruct (Z.ltb_spec (Len m) (w * 32)) as [Hlt|Hlt].
  - rewrite Z.max_r by lia.
    assert (Hsq : 0 <= w * w <= 18446744065119617025) by nia.
    assert (Hq : 0 <= w * w / QuadCoeffDiv <= 36028797002186752).
    { change QuadCoeffDiv with 512. split; [apply Z.div_pos; lia|].
      change 36028797002186752 with (18446744065119617025 / 512). apply Z.div_le_mono; lia. }
    rewrite (u64_id (w * w)) by (unfold is_u64, two64; lia).
    rewrite (u64_id (w * MemoryGas)) by (unfold is_u64, two64, MemoryGas; lia).
    rewrite (u64_id (w * MemoryGas + _)) by (unfold is_u64, two64, MemoryGas in *; lia).
    replace (w * MemoryGas + w * w / QuadCoeffDiv) with (Cmem w) by (unfold Cmem; lia).
    destruct Hm as (_ & _ & Hlast). rewrite Hlast.
    pose proof (Cmem_mono (Len m / 32) w ltac:(lia)). pose proof (Cmem_bound w ltac:(lia)).
    pose proof (Cmem_bound (Len m / 32) ltac:(lia)).
    rewrite u64_id by (unfold is_u64, two64; lia). reflexivity.
  - rewrite Z.max_l by lia. rewrite Z.sub_diag, <- Em. reflexivity.
Qed.

(** Charging for [size] and resizing to its whole words keeps the invariant. *)
Lemma mem_ok_resize m size :
  mem_ok m -> 0 <= size <= MaxMem ->
  mem_ok (Resize (32 * ToWordSize size) (with_lastGasCost m (Cmem (words_after m size)))) /\
  Len (Resize (32 * ToWordSize size) (with_lastGasCost m (Cmem (words_after m size)))) =
    32 * words_after m size.
Proof.
  intros Hm Hs. pose proof (mem_ok_words m Hm) as [HL HW].
  destruct (words_bound size Hs) as [Hw Hge].
  set (m1 := with_lastGasCost _ _).
  assert (HR : Len (Resize (32 * ToWordSize size) m1) = 32 * words_after m size).
  { rewrite Resize_len by lia. change (Len m1) with (Len m). unfold words_after. lia. }
  split; [|exact HR]. unfold mem_ok. rewrite HR, Resize_lastGasCost.
  split; [unfold words_after, MaxMem; lia|].
  replace (32 * words_after m size) with (words_after m size * 32) by lia.
  rewrite Z.mod_mul, Z.div_mul by lia. auto.
Qed.

(** ** Properties *)

(** C6 Memory expansion is charged exactly: on a paid-for memory, [memoryGasCost]
    fails iff the requested size exceeds the schedule's limit; otherwise it returns
    the difference of the quadratic costs (never negative, no 64-bit wrap-around) and
    records the new total, so that resizing to the charged size leaves the memory
    paid for again. *)
Theorem memoryGasCost_exact m size :
  mem_ok m -> is_u64 size ->
  let '((fee, err), m') := memoryGasCost m size in
  (err = Some ErrGasUintOverflow <-> MaxMem < size) /\
  (err = None ->
     fee = Cmem (words_after m size) - Cmem (Len m / 32) /\ is_u64 fee /\
     store m' = store m /\ mem_ok (Resize (32 * ToWordSize size) m')).
Proof.
  intros Hm Hs. pose proof (mem_ok_words m Hm) as [HL HW].
  destruct (memoryGasCost_cases m size Hm Hs) as [[Hb ->]|[Hb ->]].
  - split; [split; auto|discriminate].
  - split; [split; [discriminate|lia]|]. intros _. split; [reflexivity|].
    destruct (words_bound size) as [Hw _]; [unfold is_u64 in *; lia|].
    pose proof (Cmem_mono (Len m / 32) (words_after m size) ltac:(unfold words_after; lia)).
    pose proof (Cmem_bound (words_after m size) ltac:(unfold words_after; lia)).
    pose proof (Cmem_bound (Len m / 32) ltac:(lia)).
    split; [unfold is_u64, two64; lia|]. split; [reflexivity|].
    apply mem_ok_resize; [assumption|]. unfold is_u64 in *. lia.
Qed.

Lemma memoryGasCost_exact_witness :
  memoryGasCost NewMemory 1024 = ((98, None), with_lastGasCost NewMemory 98) /\
  mem_ok (Resize 1024 (with_lastGasCost NewMemory 98)).
Proof.
  split; [reflexivity|].
  assert (H1 : mem_ok NewMemory) by (split; [discriminate|split; reflexivity]).
  assert (H2 : is_u64 1024) by (split; [lia|reflexivity]).
  exact (proj2 (proj2 (proj2 (proj2 (memoryGasCost_exact NewMemory 1024 H1 H2) eq_refl)))).
Defined.

(** Expanding through a list of requests, each charged and then resized. *)
Fixpoint expand_all (m : Memory) (sizes : list Z) : Z * Memory :=
  match sizes with
  | [] => (0, m)
  | s :: rest =>
      let '((fee, _), m') := memoryGasCost m s in
      let '(total, m'') := expand_all (Resize (32 * ToWordSize s) m') rest in
      (fee + total, m'')
  end.

(** The price of memory is path independent: however a program grows its memory,
    the fees it pays add up to the cost of the largest size it asked for, less the
    cost of the memory it started with. *)
Theorem memory_gas_path_independent sizes : forall m,
  mem_ok m -> Forall (fun s => 0 <= s <= MaxMem) sizes ->
  (expand_all m sizes).1 =
    Cmem (foldl Z.max (Len m / 32) (map ToWordSize sizes)) - Cmem (Len m / 32).
Proof.
  induction sizes as [|s rest IH]; intros m Hm Hs; [simpl; lia|].
  apply Forall_cons in Hs. destruct Hs as [Hs Hrest].
  destruct (mem_ok_resize m s Hm Hs) as [Hm' HL']. cbn [expand_all map foldl].
  destruct (memoryGasCost_cases m s Hm) as [[Hb _]|[_ ->]];
    [unfold is_u64, two64, MaxMem in *; lia|lia|].
  specialize (IH _ Hm' Hrest). rewrite HL' in IH.
  replace (32 * words_after m s / 32) with (words_after m s) in IH
    by (rewrite Z.mul_comm, Z.div_mul; lia).
  destruct (expand_all _ rest) as [total m'']. cbn [fst] in *. rewrite IH.
  unfold words_after. lia.
Qed.

Lemma memory_gas_path_independent_witness :
  (expand_all NewMemory [32; 96; 64; 1000]).1 = Cmem 32.
Proof.
  rewrite (memory_gas_path_independent [32; 96; 64; 1000] NewMemory);
    [vm_compute; reflexivity|split; [discriminate|split; reflexivity]|].
  repeat constructor; vm_compute; discriminate.
Defined.
