(* ===== verification/FrameOk.v ===== *)
(** * The frame invariant

    What holds of a call frame between two instructions, what the nested calls
    promise, and the proof rules for the frame operations: the common vocabulary of
    the safety proofs of the gas functions ([GasSafe]), the instructions
    ([ExecSafe]) and the interpreter loop ([Interpreter]). *)

From S2P Require Import Machine GasTable MemoryGas.

(** Whether BLOBBASEFEE is among the instructions: before EIP-7516 the blob base fee of the
    block context is nil. *)
Class BlobFork : Type := blobs : bool.

(** It is in the instruction set these rules select. *)
Definition blob_fork (rules : Rules) : BlobFork :=
  IsOsaka rules || (negb (IsBhilai rules) && (IsPrague rules || IsCancun rules)).

Section FrameOk.
Context {U : Uint256} {K : Keccak} {DB : StateDB} {DS : StateDBSafe DB} {L : LRU} {LS : LRUSpec L} {BF : BlobFork}.

(** [code_of h]: the code whose hash is [h]. Cached analyses and contracts that carry
    a code hash agree with it. *)
Context (code_of : Z -> bytes).

(** [tol]: whether a nested call may exhaust the model's fuel ([True]: safety for any
    fuel; [False]: it returns). *)
Context (tol : Prop).

Definition cache_ok (jd : JumpDestCache) : Prop :=
  forall h bits, lru_contents (jd_lru jd) h = Some bits -> codeBitmap (code_of h) = Val bits.

Record contract_ok (c : Contract) : Prop := mkContractOk {
  co_gas : is_u64 (Gas c);
  co_value : exists v, value c = Some v /\ is_u256 v;
  co_caller : is_u256 (CallerAddress c);
  co_self : is_u256 (self c);
  co_code : go_len (Code c);
  co_input : go_len (Input c);
  co_hash : CodeHash c <> 0 -> code_of (CodeHash c) = Code c;
  co_analysis an : analysis c = Some an -> codeBitmap (Code c) = Val an
}.

Record world_ok (w : World) : Prop := mkWorldOk {
  wo_state : wf (statedb w);
  wo_temp : is_u64 (callGasTemp w);
  wo_data : go_len (returnData w);
  wo_cache : cache_ok (jumpDests w)
}.

Record frame_ok (f : Frame) : Prop := mkFrameOk {
  fo_pc : is_u64 (pc f);
  fo_stk : Forall is_u256 (stk f);
  fo_mem : mem_ok (mem f);
  fo_contract : contract_ok (contract f);
  fo_world : world_ok (world f)
}.

(** The context the instructions read: the pointers they push are not nil and the
    numbers have their width; the blob base fee is set where an instruction reads it. *)
Record env_ok (e : Env) : Prop := mkEnvOk {
  eo_origin : is_u256 (Origin (Tx e));
  eo_gasprice : exists p, GasPrice (Tx e) = Some p /\ is_u256 p;
  eo_blobs : Forall is_u256 (BlobHashes (Tx e)) /\ is_u64 (zlen (BlobHashes (Tx e)));
  eo_hash n : is_u256 (GetHash (Context e) n).1;
  eo_coinbase : is_u256 (Coinbase (Context e));
  eo_time : is_u64 (Time (Context e));
  eo_number : is_u64 (BlockNumber (Context e));
  eo_limit : is_u64 (GasLimit (Context e));
  eo_difficulty : (exists r, PrevRanDao (Context e) = Some r /\ is_u256 r) \/
                  (PrevRanDao (Context e) = None /\ exists d, Difficulty (Context e) = Some d /\ 0 <= d);
  eo_basefee : exists p, BaseFee (Context e) = Some p /\ is_u256 p;
  eo_blobfee : blobs = true -> exists p, BlobBaseFee (Context e) = Some p /\ is_u256 p;
  eo_chain : 0 <= ChainID (chainRules e)
}.

(** ** What a nested call promises *)

(** It does not panic, keeps the shared state well formed and the read-only flag and
    depth as they were, and returns at most the gas it was given. *)
Definition call_post (w : World) (gas : Z) (ret : bytes) (left : Z) (w' : World) : Prop :=
  world_ok w' /\ go_len ret /\ 0 <= left <= gas /\ readOnly w' = readOnly w /\ depth w' = depth w.

Definition call_ok (gas : Z) (m : M World (bytes * Z * option Error)) : Prop :=
  forall w, world_ok w -> is_u64 gas ->
    wp tol m w (fun r w' => call_post w gas r.1.1 r.1.2 w').
Definition create_ok (gas : Z) (m : M World (bytes * Z * Z * option Error)) : Prop :=
  forall w, world_ok w -> is_u64 gas ->
    wp tol m w (fun r w' => call_post w gas r.1.1.1 r.1.2 w' /\ is_u256 r.1.1.2).

Record calls_ok (c : CallOps) : Prop := mkCallsOk {
  ok_Call caller a input gas v b : is_u256 v -> call_ok gas (evm_Call c caller a input gas v b);
  ok_CallCode caller a input gas v : is_u256 v -> call_ok gas (evm_CallCode c caller a input gas v);
  ok_DelegateCall self ca v a input gas :
    call_ok gas (evm_DelegateCall c (ContractOf self ca v) a input gas);
  ok_StaticCall caller a input gas : call_ok gas (evm_StaticCall c caller a input gas);
  ok_Create caller code gas v b : is_u256 v -> create_ok gas (evm_Create c caller code gas v b);
  ok_Create2 caller code gas v s b : is_u256 v -> is_u256 s ->
    create_ok gas (evm_Create2 c caller code gas v s b)
}.

Record interp_ok (ip : Interp) : Prop := mkInterpOk {
  io_env : env_ok (env ip);
  io_calls : calls_ok (calls ip)
}.

(** ** Rules for the frame operations *)

Section Rules.
Context (ok : Prop).

Lemma wp_pop p d st m c w Q :
  Q d (mkFrame p st m c w) -> wp ok s_pop (mkFrame p (d :: st) m c w) Q.
Proof. exact (fun H => H). Qed.

Lemma wp_peek p d st m c w Q :
  Q d (mkFrame p (d :: st) m c w) -> wp ok s_peek (mkFrame p (d :: st) m c w) Q.
Proof. exact (fun H => H). Qed.

Lemma wp_poke p d e st m c w Q :
  Q tt (mkFrame p (e :: st) m c w) -> wp ok (s_poke e) (mkFrame p (d :: st) m c w) Q.
Proof. exact (fun H => H). Qed.

Lemma wp_push p d st m c w Q :
  Q tt (mkFrame p (d :: st) m c w) -> wp ok (s_push d) (mkFrame p st m c w) Q.
Proof. exact (fun H => H). Qed.

Lemma wp_push_ptr d e f Q : d = Some e -> wp ok (s_push e) f Q -> wp ok (s_push_ptr d) f Q.
Proof. intros ->. exact (fun H => H). Qed.

Lemma go_index_lookup {A} (l : list A) n d :
  0 <= n -> l !! Z.to_nat n = Some d -> go_index l n = Val d.
Proof.
  intros Hn H. pose proof (lookup_lt_Some _ _ _ H) as Hl. unfold go_index, zlen.
  zbool; try lia. cbn [andb]. rewrite H. reflexivity.
Qed.

Lemma wp_back n d f Q :
  0 <= n -> stk f !! Z.to_nat n = Some d -> Q d f -> wp ok (s_back n) f Q.
Proof.
  intros Hn H HQ. unfold wp, s_back, Back. rewrite (go_index_lookup _ _ d) by assumption.
  exact HQ.
Qed.

Lemma wp_s_lift g st' f Q :
  g (stk f) = Val st' -> Q tt (with_stk f st') -> wp ok (s_lift g) f Q.
Proof. intros H HQ. unfold wp, s_lift. rewrite H. exact HQ. Qed.

Lemma wp_m_read g d f Q : g (mem f) = Val d -> Q d f -> wp ok (m_read g) f Q.
Proof. intros H HQ. unfold wp, m_read. rewrite H. exact HQ. Qed.

Lemma wp_m_write g m' f Q :
  g (mem f) = Val m' -> Q tt (with_mem f m') -> wp ok (m_write g) f Q.
Proof. intros H HQ. unfold wp, m_write. rewrite H. exact HQ. Qed.

Lemma wp_onWorld {A} (m : M World A) f Q :
  wp ok m (world f) (fun a w => Q a (with_world w f)) -> wp ok (onWorld m) f Q.
Proof. apply wp_zoom. Qed.

Lemma wp_onState {A} (m : M ibs A) f Q :
  wp ok m (statedb (world f)) (fun a s => Q a (with_world (with_statedb s (world f)) f)) ->
  wp ok (onState m) f Q.
Proof. intros H. apply wp_zoom, wp_zoom. exact H. Qed.

Lemma wp_total {A S} (m : M S A) s Q : wp False m s Q -> wp ok m s Q.
Proof. unfold wp. destruct (m s) as [[a s']|e|]; auto. contradiction. Qed.

(** A state operation with a law [P -> wp False op s R]. *)
Lemma wp_state {A} (m : M ibs A) f (R Q : _ -> _ -> Prop) :
  wp False m (statedb (world f)) R ->
  (forall a s, R a s -> Q a (with_world (with_statedb s (world f)) f)) ->
  wp ok (onState m) f Q.
Proof. intros H HQ. apply wp_onState, wp_total. eapply wp_mono; [exact H|]. exact HQ. Qed.
End Rules.

Lemma world_ok_state w s : world_ok w -> wf s -> world_ok (with_statedb s w).
Proof. intros [] H. split; assumption. Qed.

Lemma contract_ok_gas c g : contract_ok c -> is_u64 g -> contract_ok (with_Gas c g).
Proof. intros [] H. split; assumption. Qed.

Lemma contract_ok_analysis c an :
  contract_ok c -> codeBitmap (Code c) = Val an -> contract_ok (with_analysis c (Some an)).
Proof. intros [] H. split; try assumption. cbn. intros an' [= <-]. exact H. Qed.

(** ** Jump destinations *)

Lemma isCode_ok c jd udest :
  contract_ok c -> cache_ok jd -> 0 <= udest < zlen (Code c) ->
  exists r an jd', isCode c jd udest = Val (r, with_analysis c (Some an), jd') /\
    codeBitmap (Code c) = Val an /\ codeSegment an udest = Val r /\ cache_ok jd'.
Proof.
  intros Hc Hj Hd. destruct (codeBitmap_marked (Code c)) as (bits & k & E & Hl & _).
  pose proof (codeSegment_in _ _ _ Hl Hd) as Hs.
  assert (Hret : forall an, codeBitmap (Code c) = Val an -> an = bits) by (intros; congruence).
  unfold isCode. destruct (Z.eqb_spec (CodeHash c) 0) as [Hz|Hz]; simpl negb; cbn iota.
  - assert (Ean : match analysis c with Some an => mret an | None => codeBitmap (Code c) end = Val bits).
    { destruct (analysis c) as [an|] eqn:Ea; [|exact E].
      apply (co_analysis _ Hc) in Ea. apply Hret in Ea. subst. reflexivity. }
    rewrite Ean. cbn [mbind Res_bind]. rewrite Hs. do 3 eexists. split; [reflexivity|]. auto.
  - cbn [jd_lru]. pose proof (lru_Get_spec (CodeHash c) (jd_lru jd)) as [Hg Hk].
    destruct (lru_Get (CodeHash c) (jd_lru jd)) as [found l]. cbn [fst snd] in *.
    pose proof (co_hash _ Hc Hz) as Hcode. destruct found as [an|].
    + symmetry in Hg. apply Hj in Hg. rewrite Hcode in Hg. apply Hret in Hg. subst.
      cbn [mret Res_ret mbind Res_bind]. rewrite Hs. do 3 eexists. split; [reflexivity|].
      split; [exact E|]. split; [exact Hs|]. intros h b. cbn. rewrite Hk. apply Hj.
    + rewrite E. cbn [mret Res_ret mbind Res_bind]. rewrite Hs. do 3 eexists. split; [reflexivity|].
      split; [reflexivity|]. split; [assumption|]. intros h b. cbn. intros Hadd.
      apply lru_Add_spec in Hadd. destruct Hadd as [[-> ->]|Hold]; [congruence|].
      rewrite Hk in Hold. apply Hj. exact Hold.
Qed.

(** [validJumpdest] only refreshes the analysis and the cache. A destination found
    valid is a JUMPDEST byte of the code. *)
Lemma validJumpdest_ok {US : Uint256Spec U} ok dest p st m c w Q :
  is_u256 dest -> contract_ok c -> world_ok w ->
  (forall r c' w', contract_ok c' -> world_ok w' -> with_analysis c' (analysis c) = c ->
     readOnly w' = readOnly w -> depth w' = depth w -> callGasTemp w' = callGasTemp w ->
     (r.1 = true -> 0 <= dest < zlen (Code c)) ->
     Q r (mkFrame p st m c' w')) ->
  wp ok (validJumpdest dest) (mkFrame p st m c w) Q.
Proof.
  intros Hd Hc Hw HQ. unfold wp, validJumpdest. cbn [contract world].
  assert (Hrefl : with_analysis c (analysis c) = c) by (destruct c; reflexivity).
  rewrite Uint64WithOverflow_spec by assumption.
  destruct (_ || _) eqn:Eo; [apply HQ; try assumption; try reflexivity; discriminate|].
  apply orb_false_iff in Eo. destruct Eo as [E1 E2]. apply Z.leb_gt in E1, E2.
  rewrite Z.mod_small in * by (destruct Hd; lia).
  destruct (go_index_val (Code c) dest) as (b & -> & _); [destruct Hd; lia|].
  destruct (negb _); [apply HQ; try assumption; try reflexivity; discriminate|].
  assert (Hin : 0 <= dest < zlen (Code c)) by (destruct Hd; lia).
  destruct (skipAnalysis c); [apply HQ; auto|].
  destruct (isCode_ok c (jumpDests w) dest) as (r & an & jd & -> & Ha & _ & Hj);
    [assumption|apply Hw|lia|].
  apply HQ; try reflexivity; [by apply contract_ok_analysis| | |exact (fun _ => Hin)]; cbn.
  - destruct Hw. split; assumption.
  - destruct c. reflexivity.
Qed.

End FrameOk.

(** One step of a frame proof: monad structure and the stack operations. *)
Ltac fstep :=
  lazymatch goal with
  | |- wp _ s_pop _ _ => apply wp_pop
  | |- wp _ s_peek _ _ => apply wp_peek
  | |- wp _ (s_poke _) _ _ => apply wp_poke
  | |- wp _ (s_push _) _ _ => apply wp_push
  | |- wp _ (s_back _) _ _ => eapply wp_back; [lia|reflexivity|]
  | |- wp _ get_contract _ _ => apply wp_gets
  | |- wp _ get_world _ _ => apply wp_gets
  | |- wp _ (if ?b then _ else _) _ _ => destruct b eqn:?
  | |- wp _ (match ?x with (_, _) => _ end) _ _ => destruct x eqn:?
  | _ => wp_step
  end; cbn beta; cbn [pc stk mem contract world with_pc with_stk with_mem with_contract with_world].
