(* ===== verification/GasSafe.v ===== *)
(** * Safety of the gas and memory-size functions

    Every dynamic gas function, run on a frame whose stack has the items the
    operation declares, returns (no index panic), keeps the frame invariant, changes
    only the paid-for memory cost, the contract's gas (never upwards) and the shared
    state, and yields a 64-bit cost; when it reports no error the requested memory is
    within the schedule's limit and the cost has the stated lower bound. *)

From S2P Require Import Machine GasTable MemoryGas FrameOk.
Import params.

Section GasSafe.
Context {U : Uint256} {US : Uint256Spec U} {K : Keccak} {DB : StateDB} {DS : StateDBSafe DB}
  {L : LRU} {LS : LRUSpec L} (code_of : Z -> bytes).

(** ** Memory-size functions *)

(** [ms] reads only the first [n] items. *)
Definition ms_safe (n : Z) (ms : memorySizeFunc) : Prop :=
  forall st, n <= zlen st -> Forall is_u256 st -> exists r, ms st = Val r /\ is_u64 r.1.

Lemma Back_u256 k st :
  Forall is_u256 st -> 0 <= k < zlen st ->
  exists x, Back k st = Val x /\ st !! Z.to_nat k = Some x /\ is_u256 x.
Proof.
  intros Hst Hk. destruct (Back_ok k st Hk) as (x & E & El). exists x.
  split; [exact E|]. split; [exact El|]. eapply Forall_lookup_1; eauto.
Qed.

Lemma calcMemSize64_u64 off l : is_u256 off -> is_u256 l -> is_u64 (calcMemSize64 off l).1.
Proof.
  intros Ho Hl. unfold calcMemSize64, calcMemSize64WithUint.
  destruct (negb _); [done|]. destruct (_ =? 0); [done|].
  destruct (u_Uint64WithOverflow off) as [o b]. destruct b; [done|]. apply u64_range.
Qed.

Lemma calcMemSize64WithUint_u64 off l : is_u64 (calcMemSize64WithUint off l).1.
Proof.
  unfold calcMemSize64WithUint. destruct (_ =? 0); [done|].
  destruct (u_Uint64WithOverflow off) as [o b]. destruct b; [done|]. apply u64_range.
Qed.

(** Read the operands one by one, then the arithmetic is total. *)
Ltac ms_back :=
  match goal with
  | Hst : Forall is_u256 ?st |- context [Back ?k ?st] =>
      let x := fresh "x" in let E := fresh "E" in let Hx := fresh "Hx" in
      destruct (Back_u256 k st Hst ltac:(lia)) as (x & E & _ & Hx); rewrite E; cbn [mbind Res_bind]
  end.

Lemma ms_pair_safe n i j :
  0 <= i < n -> 0 <= j < n ->
  ms_safe n (fun st => x ← Back i st; y ← Back j st; mret (calcMemSize64 x y)).
Proof.
  intros Hi Hj st Hn Hst. repeat ms_back. eexists. split; [reflexivity|].
  by apply calcMemSize64_u64.
Qed.

Lemma ms_one_safe n i l :
  0 <= i < n -> ms_safe n (fun st => x ← Back i st; mret (calcMemSize64WithUint x l)).
Proof.
  intros Hi st Hn Hst. repeat ms_back. eexists. split; [reflexivity|].
  apply calcMemSize64WithUint_u64.
Qed.

Lemma memoryMcopy_safe : ms_safe 3 memoryMcopy.
Proof.
  intros st Hn Hst. unfold memoryMcopy. repeat ms_back. eexists. split; [reflexivity|].
  apply calcMemSize64_u64; [|assumption]. case_match; assumption.
Qed.

(** Two windows, the larger end. *)
Definition ms_two (i1 l1 i2 l2 : Z) : memorySizeFunc := fun st =>
  o1 ← Back i1 st; l1 ← Back l1 st;
  let '(x, overflow) := calcMemSize64 o1 l1 in
  if overflow then mret (0, true)
  else
    o2 ← Back i2 st; l2 ← Back l2 st;
    let '(y, overflow) := calcMemSize64 o2 l2 in
    if overflow then mret (0, true) else mret (Z.max x y, false).

Lemma ms_two_safe n i1 l1 i2 l2 :
  0 <= i1 < n -> 0 <= l1 < n -> 0 <= i2 < n -> 0 <= l2 < n -> ms_safe n (ms_two i1 l1 i2 l2).
Proof.
  intros H1 H2 H3 H4 st Hn Hst. unfold ms_two. repeat ms_back.
  match goal with
  | |- context [calcMemSize64 ?o1 ?s1] => pose proof (calcMemSize64_u64 o1 s1) as Ha;
      destruct (calcMemSize64 o1 s1) as [a oa]
  end.
  destruct oa; [by eexists|]. repeat ms_back.
  match goal with
  | |- context [calcMemSize64 ?o1 ?s1] => pose proof (calcMemSize64_u64 o1 s1) as Hb;
      destruct (calcMemSize64 o1 s1) as [b ob]
  end.
  destruct ob; [by eexists|]. eexists. split; [reflexivity|].
  specialize (Ha ltac:(assumption) ltac:(assumption)).
  specialize (Hb ltac:(assumption) ltac:(assumption)). unfold is_u64 in *. simpl in *. lia.
Qed.

(** ** Dynamic gas functions *)

(** [n] items are on the stack; [hasmem]: the operation has a memory-size function
    (otherwise the requested size is 0); [eip150]: the 63/64 rule is known to be on.
    [ms] is a whole number of words, as the interpreter passes it. *)
Definition gas_safe (n : Z) (hasmem eip150 : bool) (lo : World -> stack -> Z) (g : gasFunc) : Prop :=
  forall ip p st m c w ms,
    n <= zlen st -> Forall is_u256 st -> mem_ok m -> contract_ok code_of c -> world_ok code_of w ->
    is_u64 ms -> (hasmem = false -> ms = 0) ->
    (eip150 = true -> IsTangerineWhistle (chainRules (env ip)) = true) ->
    wp False (g ip ms) (mkFrame p st m c w) (fun r f' =>
      exists lg g' w', f' = mkFrame p st (with_lastGasCost m lg) (with_Gas c g') w' /\
        world_ok code_of w' /\ readOnly w' = readOnly w /\ depth w' = depth w /\
        0 <= g' <= Gas c /\ is_u64 r.1 /\
        (r.2 = None -> ms <= MaxMem /\ lg = Cmem (words_after m ms) /\ lo w' st <= r.1)).

(** Lower bounds: a constant, and what a call instruction may hand to its callee. *)
Definition lo_const (k : Z) : World -> stack -> Z := fun _ _ => k.
Definition transfers (st : stack) : bool :=
  match st !! 2%nat with Some v => negb (v =? 0) | None => false end.
Definition lo_call : World -> stack -> Z := fun w _ => callGasTemp w.
Definition lo_call_value : World -> stack -> Z := fun w st =>
  callGasTemp w + if transfers st then CallValueTransferGas else 0.

Section Frame.
Context (p : Z) (st : stack) (m : Memory) (c : Contract).
Context (Hst : Forall is_u256 st) (Hm : mem_ok m) (Hc : contract_ok code_of c).

(** The frames a gas function moves through. *)
Definition Fr (lg g : Z) (w : World) : Frame :=
  mkFrame p st (with_lastGasCost m lg) (with_Gas c g) w.

Lemma Fr_start w : mkFrame p st m c w = Fr (lastGasCost m) (Gas c) w.
Proof. clear Hm Hc. unfold Fr. destruct m, c. reflexivity. Qed.

Lemma wp_back_Fr k lg g w Q :
  0 <= k < zlen st ->
  (forall x, st !! Z.to_nat k = Some x -> is_u256 x -> Q x (Fr lg g w)) ->
  wp False (s_back k) (Fr lg g w) Q.
Proof.
  intros Hk HQ. destruct (Back_u256 k st Hst Hk) as (x & _ & El & Hx).
  eapply wp_back; [lia|exact El|]. auto.
Qed.

Lemma wp_peek_Fr lg g w Q :
  1 <= zlen st -> (forall x, st !! 0%nat = Some x -> is_u256 x -> Q x (Fr lg g w)) ->
  wp False s_peek (Fr lg g w) Q.
Proof.
  intros Hk HQ. destruct (Back_u256 0 st Hst ltac:(lia)) as (x & _ & El & Hx).
  assert (E : peek st = Val x) by (destruct st; [done|]; by injection El as ->).
  unfold wp, s_peek. cbn [stk Fr]. rewrite E. by apply HQ.
Qed.

(** [memGas] as the first memory charge: at most 2^56, and recorded. *)
Lemma wp_memGas_Fr ms g w Q :
  is_u64 ms ->
  Q (0, Some ErrGasUintOverflow) (Fr (lastGasCost m) g w) ->
  (forall fee, 0 <= fee <= 36028809887088637 -> ms <= MaxMem ->
     Q (fee, None) (Fr (Cmem (words_after m ms)) g w)) ->
  wp False (memGas ms) (Fr (lastGasCost m) g w) Q.
Proof.
  intros Hms He HQ. unfold wp, memGas. cbn [mem Fr].
  assert (E : with_lastGasCost m (lastGasCost m) = m) by (by destruct m). rewrite E.
  pose proof (mem_ok_words m Hm) as [HL HW].
  destruct (memoryGasCost_cases m ms Hm Hms) as [[Hb ->]|[Hb ->]].
  - unfold Fr in He. rewrite E in He. unfold Fr, with_mem. cbn [pc stk contract world]. exact He.
  - apply HQ; [|assumption]. destruct (words_bound ms) as [Hw _]; [unfold is_u64 in *; lia|].
    pose proof (Cmem_mono (Len m / 32) (words_after m ms) ltac:(unfold words_after; lia)).
    pose proof (Cmem_bound (words_after m ms) ltac:(unfold words_after; lia)).
    pose proof (Cmem_bound (Len m / 32) ltac:(lia)). lia.
Qed.

Lemma wp_orFail r k (f : Frame) Q :
  (forall e, r.2 = Some e -> Q (0, Some e) f) ->
  (r.2 = None -> wp False (k r.1) f Q) -> wp False (orFail r k) f Q.
Proof. intros H1 H2. unfold orFail. destruct r.2; [apply wp_ret|]; auto. Qed.

Lemma wp_checked_add a b k (f : Frame) Q :
  is_u64 a -> is_u64 b -> Q (0, Some ErrGasUintOverflow) f ->
  (a <= a + b < two64 -> wp False (k (a + b)) f Q) -> wp False (checked (SafeAdd a b) k) f Q.
Proof.
  intros Ha Hb He Hk. destruct (SafeAdd_cases a b Ha Hb) as [[H ->]|[H [s ->]]]; simpl; auto.
  apply Hk. unfold is_u64 in *. lia.
Qed.

Lemma wp_checked_mul a b k (f : Frame) Q :
  is_u64 a -> is_u64 b -> Q (0, Some ErrGasUintOverflow) f ->
  (0 <= a * b < two64 -> wp False (k (a * b)) f Q) -> wp False (checked (SafeMul a b) k) f Q.
Proof.
  intros Ha Hb He Hk. destruct (SafeMul_cases a b Ha Hb) as [[H ->]|[H [s ->]]]; simpl; auto.
  apply Hk. unfold is_u64 in *. nia.
Qed.

Lemma wp_checked_u64 x k (f : Frame) Q :
  is_u256 x -> Q (0, Some ErrGasUintOverflow) f ->
  (is_u64 x -> wp False (k x) f Q) -> wp False (checked (u_Uint64WithOverflow x) k) f Q.
Proof.
  intros Hx He Hk. rewrite Uint64WithOverflow_spec by assumption. unfold checked.
  destruct (Z.leb_spec two64 x); [exact He|]. rewrite Z.mod_small by (destruct Hx; lia).
  apply Hk. destruct Hx. unfold is_u64. lia.
Qed.

(** The postcondition, relative to the initial world [w0]. *)
Definition gpost (w0 : World) (g0 ms : Z) (lo : World -> stack -> Z) (r : Z * option Error) (f' : Frame)
    : Prop :=
  exists lg g w, f' = Fr lg g w /\ world_ok code_of w /\ readOnly w = readOnly w0 /\
    depth w = depth w0 /\ 0 <= g <= g0 /\ is_u64 r.1 /\
    (r.2 = None -> ms <= MaxMem /\ lg = Cmem (words_after m ms) /\ lo w st <= r.1).

(** What is known of the current world while the function runs. *)
Definition wrel (w0 w : World) : Prop :=
  world_ok code_of w /\ readOnly w = readOnly w0 /\ depth w = depth w0.

Lemma wrel_state w0 w s : wrel w0 w -> wf s -> wrel w0 (with_statedb s w).
Proof. intros (H1 & H2 & H3) H. repeat split; try assumption; try apply H1. Qed.

Lemma gpost_err w0 g0 ms lo e lg g w :
  wrel w0 w -> 0 <= g <= g0 -> gpost w0 g0 ms lo (0, Some e) (Fr lg g w).
Proof.
  intros (H1 & H2 & H3) Hg. exists lg, g, w. repeat split; try assumption; try apply H1; try lia;
    discriminate.
Qed.

Lemma gpost_val w0 g0 ms lo v lg g w :
  wrel w0 w -> 0 <= g <= g0 -> ms <= MaxMem -> lg = Cmem (words_after m ms) ->
  is_u64 v -> lo w st <= v -> gpost w0 g0 ms lo (v, None) (Fr lg g w).
Proof.
  intros (H1 & H2 & H3) Hg Hms Hlg Hv Hl. exists lg, g, w.
  repeat split; try assumption; try apply H1; try apply Hv; try lia.
Qed.

(** No memory requested: what is paid for stays paid for. *)
Lemma paid_zero : lastGasCost m = Cmem (words_after m 0).
Proof.
  pose proof (mem_ok_words m Hm) as [HL HW]. destruct Hm as (_ & _ & ->).
  unfold words_after. change (ToWordSize 0) with 0. rewrite Z.max_l by lia. reflexivity.
Qed.

(** A state operation whose law gives [wf] of the new state. *)
Lemma wp_st {A} (op : M ibs A) (R : A -> ibs -> Prop) lg g w Q :
  wp False op (statedb w) R -> (forall a s, R a s -> Q a (Fr lg g (with_statedb s w))) ->
  wp False (onState op) (Fr lg g w) Q.
Proof. intros H HQ. eapply wp_state; [exact H|]. intros a s Ha. apply HQ. exact Ha. Qed.
End Frame.

Lemma gas_safe_intro n hasmem e lo g :
  (forall ip p st m c w ms,
     n <= zlen st -> Forall is_u256 st -> mem_ok m -> contract_ok code_of c -> wrel w w ->
     is_u64 (Gas c) -> is_u64 ms -> (hasmem = false -> ms = 0) ->
     (e = true -> IsTangerineWhistle (chainRules (env ip)) = true) ->
     wp False (g ip ms) (Fr p st m c (lastGasCost m) (Gas c) w) (gpost p st m c w (Gas c) ms lo)) ->
  gas_safe n hasmem e lo g.
Proof.
  intros H ip p st m c w ms Hn Hst Hm Hc Hw Hms Hh He. rewrite Fr_start.
  eapply wp_mono; [apply H; try assumption; [split; [exact Hw|done]|apply Hc]|].
  intros r f Hr. exact Hr.
Qed.

Lemma gas_safe_mono n n' h h' e e' lo lo' g :
  gas_safe n h e lo g -> n <= n' -> (h = false -> h' = false) -> (e = true -> e' = true) ->
  (forall w st, n' <= zlen st -> lo' w st <= lo w st) -> gas_safe n' h' e' lo' g.
Proof.
  intros H Hn Hh He Hlo ip p st m c w ms Hl Hst Hm Hc Hw Hms Hh' He'.
  eapply wp_mono; [apply H; try assumption; [lia|tauto|tauto]|].
  intros r f (lg & g' & w' & -> & H1 & H2 & H3 & H4 & H5 & H6). exists lg, g', w'.
  repeat (split; [assumption || reflexivity|]). intros Hr. destruct (H6 Hr) as (? & ? & ?).
  repeat (split; [assumption|]). specialize (Hlo w' st Hl). lia.
Qed.

End GasSafe.

#[export] Hint Extern 1 (is_u64 _) => assumption : machine.
#[export] Hint Resolve ToWordSize_u64 : machine.

(** Linear arithmetic over the protocol constants. *)
Ltac zlia := unfold is_u64, two64 in *; first [lia | autounfold with params in *; lia].

Ltac u64_solve :=
  first [ assumption | solve [eauto 4 with machine] | zlia ].

Ltac wrel_solve := solve [eauto 8 using wrel_state].

(** One step through a gas function on [Fr] frames. *)
Ltac gstep :=
  lazymatch goal with
  | |- gpost _ _ _ _ _ _ _ _ _ (_, Some _) _ => apply gpost_err; [wrel_solve|zlia]
  | |- gpost _ _ _ _ _ _ _ _ _ (if ?b then _ else _, None) _ => destruct b eqn:?
  | |- gpost _ _ _ _ _ _ _ _ _ (_, None) _ => apply gpost_val;
      [wrel_solve|zlia|first [assumption | done]|first [reflexivity | by apply paid_zero]|u64_solve
      |try solve [unfold lo_const; zlia]]
  | |- wp _ (_ ≫= _) _ _ => apply wp_bind
  | |- wp _ (mret _) _ _ => apply wp_ret
  | |- wp _ (s_back _) _ _ => apply wp_back_Fr; [assumption|lia|intros ? ? ?]
  | |- wp _ s_peek _ _ => apply wp_peek_Fr; [assumption|lia|intros ? ? ?]
  | |- wp _ get_contract _ _ => apply wp_gets
  | |- wp _ contractAddress _ _ => apply wp_bind
  | |- wp _ (memGas _) _ _ => apply wp_memGas_Fr; [assumption|assumption| |intros ? ? ?]
  | |- wp _ (orFail (_, Some _) _) _ _ => apply wp_ret
  | |- wp _ (orFail (_, None) _) _ _ => unfold orFail
  | |- wp _ (checked (SafeAdd _ _) _) _ _ => apply wp_checked_add; [u64_solve|u64_solve| |intros ?]
  | |- wp _ (checked (SafeMul _ _) _) _ _ => apply wp_checked_mul; [u64_solve|u64_solve| |intros ?]
  | |- wp _ (checked (u_Uint64WithOverflow _) _) _ _ => apply wp_checked_u64; [assumption| |intros ?]
  | |- wp _ (if ?b then _ else _) _ _ => destruct b eqn:?
  end; cbn beta iota; cbn [fst snd].

(** A state operation, by its law. *)
Ltac gstate law :=
  eapply wp_st; [apply law; solve [auto | apply wo_state; match goal with H : wrel _ _ _ |- _ => apply H end]|];
  intros ? ? ?; cbn beta iota.

(** Replace each wrapped subterm by a fresh 64-bit number. *)
Ltac gen_u64 :=
  repeat match goal with
  | |- context [u64 ?x] =>
      let H := fresh "Hu" in pose proof (u64_range x) as H; revert H; generalize (u64 x); intros ? H
  end.

(** Start a gas-function proof; [ms] is 0 when the operation has no memory. *)
Ltac gstart :=
  apply gas_safe_intro; intros ip p st m c w ms Hn Hst Hm Hc Hw Hgas Hms Hmem He;
  try (rewrite (Hmem eq_refl) in *; clear Hmem).

Section GasFunctions.
Context {U : Uint256} {US : Uint256Spec U} {K : Keccak} {DB : StateDB} {DS : StateDBSafe DB}
  {L : LRU} {LS : LRUSpec L} (code_of : Z -> bytes).

Lemma memoryCopierGas_safe k n :
  0 <= k < n -> gas_safe code_of n true false (lo_const 0) (memoryCopierGas k).
Proof. intros Hk. gstart. unfold memoryCopierGas. repeat gstep. Qed.

Lemma pureMemoryGascost_safe : gas_safe code_of 0 true false (lo_const 0) pureMemoryGascost.
Proof. gstart. unfold pureMemoryGascost. repeat gstep. Qed.

Lemma makeGasLog_safe n : 0 <= n <= 4 -> gas_safe code_of 2 true false (lo_const 1) (makeGasLog n).
Proof.
  intros Hk. gstart. unfold makeGasLog.
  assert (E : u64 (n * LogTopicGas) = n * LogTopicGas) by (apply u64_id; zlia). rewrite E.
  repeat gstep.
Qed.

Lemma gasKeccak256_safe : gas_safe code_of 2 true false (lo_const 0) gasKeccak256.
Proof. gstart. unfold gasKeccak256. repeat gstep. Qed.

Lemma gasCreate2_safe : gas_safe code_of 3 true false (lo_const 0) gasCreate2.
Proof. gstart. unfold gasCreate2. repeat gstep. Qed.

Lemma gasCreateEip3860_safe : gas_safe code_of 3 true false (lo_const 0) gasCreateEip3860.
Proof. gstart. unfold gasCreateEip3860. repeat gstep. Qed.

Lemma gasCreate2Eip3860_safe : gas_safe code_of 3 true false (lo_const 0) gasCreate2Eip3860.
Proof. gstart. unfold gasCreate2Eip3860. repeat gstep. Qed.

Lemma gasExpFrontier_safe : gas_safe code_of 2 false false (lo_const 1) gasExpFrontier.
Proof. gstart. unfold gasExpFrontier. do 2 gstep. gen_u64. repeat gstep. Qed.

Lemma gasExpEIP160_safe : gas_safe code_of 2 false false (lo_const 1) gasExpEIP160.
Proof. gstart. unfold gasExpEIP160. do 2 gstep. gen_u64. repeat gstep. Qed.

(** ** Storage *)

Ltac wf_solve :=
  first [ assumption
        | match goal with H : wrel _ ?w0 ?w |- wf (statedb ?w) => apply (wo_state _ _ (proj1 H)) end
        | apply wo_state; match goal with H : wrel _ _ _ |- _ => apply H end ].

(** The state operations of the gas functions. *)
Ltac gop :=
  lazymatch goal with
  | |- wp _ (onState (GetState _ _)) _ _ =>
      eapply wp_st; [apply GetState_safe; wf_solve|]; intros [? ?] ? [? ?]
  | |- wp _ (onState (GetCommittedState _ _)) _ _ =>
      eapply wp_st; [apply GetCommittedState_safe; wf_solve|]; intros [? ?] ? [? ?]
  | |- wp _ (onState (GetBalance _)) _ _ =>
      eapply wp_st; [apply GetBalance_safe; wf_solve|]; intros [? [?|]] ? [? ?]
  | |- wp _ (onState (AddRefund _)) _ _ =>
      eapply wp_st; [apply AddRefund_safe; wf_solve|]; intros ? ? ?
  | |- wp _ (onState (SubRefund _)) _ _ =>
      eapply wp_st; [apply SubRefund_safe; wf_solve|]; intros ? ? ?
  | |- wp _ (onState (AddAddressToAccessList _)) _ _ =>
      eapply wp_st; [apply AddAddressToAccessList_safe; wf_solve|]; intros ? ? ?
  | |- wp _ (onState (AddSlotToAccessList _ _)) _ _ =>
      eapply wp_st; [apply AddSlotToAccessList_safe; wf_solve|]; intros [? ?] ? ?
  | |- wp _ (onState (Empty _)) _ _ =>
      eapply wp_st; [apply Empty_safe; wf_solve|]; intros [? [?|]] ? ?
  | |- wp _ (onState (Exist _)) _ _ =>
      eapply wp_st; [apply Exist_safe; wf_solve|]; intros [? [?|]] ? ?
  | |- wp _ (onState (HasSelfdestructed _)) _ _ =>
      eapply wp_st; [apply HasSelfdestructed_safe; wf_solve|]; intros [? [?|]] ? ?
  | |- wp _ (onState (GetDelegatedDesignation _)) _ _ =>
      eapply wp_st; [apply GetDelegatedDesignation_safe; wf_solve|]; intros [[? ?] [?|]] ? ?
  end; cbn beta iota; cbn [fst snd statedb with_statedb].

Lemma gasSStore_safe : gas_safe code_of 2 false false (lo_const 1) gasSStore.
Proof. gstart. unfold gasSStore. repeat first [gstep | gop]. Qed.

Lemma gasSStoreEIP2200_safe : gas_safe code_of 2 false false (lo_const 1) gasSStoreEIP2200.
Proof. gstart. unfold gasSStoreEIP2200. repeat first [gstep | gop]. Qed.

Lemma makeGasSStoreFunc_safe k : gas_safe code_of 2 false false (lo_const 1) (makeGasSStoreFunc k).
Proof.
  gstart. unfold makeGasSStoreFunc. repeat first [gstep | gop].
  all: rewrite u64_id by (case_match; zlia).
  all: unfold lo_const; case_match; zlia.
Qed.

Lemma gasSLoadEIP2929_safe : gas_safe code_of 1 false false (lo_const 1) gasSLoadEIP2929.
Proof. gstart. unfold gasSLoadEIP2929. repeat first [gstep | gop]. Qed.

Lemma gasExtCodeCopyEIP2929_safe : gas_safe code_of 4 true false (lo_const 0) gasExtCodeCopyEIP2929.
Proof.
  gstart. unfold gasExtCodeCopyEIP2929, gasExtCodeCopy, memoryCopierGas. repeat first [gstep | gop].
Qed.

Lemma gasEip2929AccountCheck_safe : gas_safe code_of 1 false false (lo_const 0) gasEip2929AccountCheck.
Proof. gstart. unfold gasEip2929AccountCheck. repeat first [gstep | gop]. Qed.

(** ** Self-destruction *)

Lemma gasSelfdestruct_safe : gas_safe code_of 1 false false (lo_const 0) gasSelfdestruct.
Proof.
  gstart. unfold gasSelfdestruct. repeat first [gstep | gop].
Qed.

Lemma makeSelfdestructGasFn_safe b : gas_safe code_of 1 false false (lo_const 0) (makeSelfdestructGasFn b).
Proof.
  gstart. unfold makeSelfdestructGasFn. repeat first [gstep | gop]; repeat case_match; repeat gstep.
Qed.

(** ** Calls *)

(** The most gas the 63/64 rule hands out of any 64-bit amount. *)
Definition call_cap : Z := 18158513697557839872.

Lemma callGas_cases eip150 avail base cost :
  is_u256 cost ->
  let '(g, err) := callGas eip150 avail base cost in
  is_u64 g /\ (err = None -> eip150 = true -> g <= call_cap).
Proof.
  intros Hc. unfold callGas, call_cap. rewrite IsUint64_spec, Uint64_spec by assumption.
  pose proof (u64_range (avail - base)) as Ha. pose proof (u64_range cost) as Hco.
  set (a := u64 (avail - base)) in *. change (cost mod two64) with (u64 cost).
  pose proof (Z.div_mod a 64 ltac:(lia)). pose proof (Z.mod_pos_bound a 64 ltac:(lia)).
  destruct eip150; cbn [andb].
  - destruct (negb (cost <? two64) || _) eqn:E; [split; [zlia|intros; zlia]|].
    apply orb_false_iff in E. destruct E as [E1 E2]. rewrite E1. apply Z.ltb_ge in E2.
    split; [assumption|]. intros. zlia.
  - destruct (negb _); split; try assumption; try discriminate; zlia.
Qed.

Lemma wp_callGasTail ip p st m c lg g w base Q :
  Forall is_u256 st -> 1 <= zlen st -> is_u64 base ->
  (forall e t, is_u64 t -> Q (0, Some e) (Fr p st m c lg g (SetCallGasTemp t w))) ->
  (forall t, is_u64 t -> base + t < two64 ->
     (IsTangerineWhistle (chainRules (env ip)) = true -> t <= call_cap) ->
     Q (base + t, None) (Fr p st m c lg g (SetCallGasTemp t w))) ->
  wp False (callGasTail ip base) (Fr p st m c lg g w) Q.
Proof.
  intros Hst Hn Hb He HQ. unfold callGasTail. do 4 gstep.
  pose proof (callGas_cases (IsTangerineWhistle (chainRules (env ip)))
    (Gas (contract (Fr p st m c lg g w))) base x ltac:(assumption)) as Hcg.
  destruct (callGas _ _ _ _) as [t err]. destruct Hcg as [Ht Hcap].
  apply wp_bind, wp_onWorld, wp_modify. cbn beta. destruct err as [e|]; [apply wp_ret; by apply He|].
  gstep; [by apply He|]. apply wp_ret. apply HQ; try assumption; [lia|]. auto.
Qed.

Lemma wrel_temp w0 w t : wrel code_of w0 w -> is_u64 t -> wrel code_of w0 (SetCallGasTemp t w).
Proof. intros ([] & H2 & H3) H. split; [split; assumption|]. split; assumption. Qed.

(** A calculator of call cost, run with any remaining gas [g]: it never changes [g],
    and under EIP-150 its result leaves room for the access surcharges. *)
Definition calc_safe (n : Z) (lo : World -> stack -> Z) (calc : gasFunc) : Prop :=
  forall ip p st m c w0 w g ms,
    n <= zlen st -> Forall is_u256 st -> mem_ok m -> wrel code_of w0 w -> is_u64 g -> is_u64 ms ->
    wp False (calc ip ms) (Fr p st m c (lastGasCost m) g w) (fun r f' =>
      exists lg w', f' = Fr p st m c lg g w' /\ wrel code_of w0 w' /\ is_u64 r.1 /\
        (r.2 = None -> ms <= MaxMem /\ lg = Cmem (words_after m ms) /\ lo w' st <= r.1 /\
           (IsTangerineWhistle (chainRules (env ip)) = true -> r.1 <= two64 - 1000000))).

Ltac calc_err := do 2 eexists; split; [reflexivity|]; split; [eauto using wrel_temp, wrel_state|];
  split; [done|discriminate].
Ltac calc_val := do 2 eexists; split; [reflexivity|]; split; [eauto using wrel_temp, wrel_state|];
  cbn [fst snd]; split; [zlia|]; intros _; split; [assumption|]; split; [reflexivity|].

Lemma gasDelegateCall_calc : calc_safe 1 lo_call gasDelegateCall.
Proof.
  intros ip p st m c w0 w g ms Hn Hst Hm Hw Hg Hms. unfold gasDelegateCall.
  repeat gstep; [calc_err|]. apply wp_callGasTail; [assumption|lia|zlia|intros; calc_err|intros].
  calc_val. unfold lo_call, call_cap in *. cbn [callGasTemp SetCallGasTemp]. split; [lia|]. intros HT. specialize (H3 HT). zlia.
Qed.

Lemma gasStaticCall_calc : calc_safe 1 lo_call gasStaticCall.
Proof. exact gasDelegateCall_calc. Qed.

Lemma transfers_eq st x :
  is_u256 x -> st !! 2%nat = Some x -> transfers st = negb (u_IsZero x).
Proof. intros Hx E. unfold transfers. rewrite E, IsZero_spec by assumption. reflexivity. Qed.

Lemma gasCallCode_calc : calc_safe 3 lo_call_value gasCallCode.
Proof.
  intros ip p st m c w0 w g ms Hn Hst Hm Hw Hg Hms. unfold gasCallCode.
  do 2 gstep; [apply wp_ret; calc_err|]. do 3 gstep.
  pose proof (transfers_eq st x ltac:(assumption) ltac:(assumption)) as Et.
  set (v := if negb (u_IsZero x) then CallValueTransferGas else 0).
  assert (Hv : 0 <= v <= 9000) by (unfold v; case_match; zlia).
  gstep; [calc_err|]. apply wp_callGasTail; [assumption|lia|zlia|intros; calc_err|intros].
  calc_val. unfold lo_call_value, call_cap in *. cbn [callGasTemp SetCallGasTemp]. rewrite Et. fold v.
  split; [lia|]. intros HT. specialize (H6 HT). zlia.
Qed.

(** The new-account surcharge of CALL. *)
Lemma wp_newAccount ip p st m c lg g w0 w address (tv : bool) Q :
  wrel code_of w0 w ->
  (forall e v w', wrel code_of w0 w' -> Q (v, Some e) (Fr p st m c lg g w')) ->
  (forall v w', 0 <= v <= 25000 -> wrel code_of w0 w' -> Q (v, None) (Fr p st m c lg g w')) ->
  wp False (if IsSpuriousDragon (chainRules (env ip)) then
         '(empty, err) ← onState (Empty address);
         mret (if tv && empty then CallNewAccountGas else 0, err)
       else
         '(exists_, err) ← onState (Exist address);
         mret (if negb exists_ then CallNewAccountGas else 0, err))
    (Fr p st m c lg g w) Q.
Proof.
  intros Hw He HQ. repeat first [gstep | gop]; try (apply He; eauto using wrel_state).
  all: apply HQ; [repeat case_match; zlia|eauto using wrel_state].
Qed.

Lemma gasCall_calc : calc_safe 3 lo_call_value gasCall.
Proof.
  intros ip p st m c w0 w g ms Hn Hst Hm Hw Hg Hms. unfold gasCall. do 4 gstep.
  pose proof (transfers_eq st x ltac:(assumption) ltac:(assumption)) as Et.
  apply wp_bind, (wp_newAccount _ _ _ _ _ _ _ w0); [assumption| |]; cbn beta iota.
  { intros e v w' Hw'. apply wp_ret. calc_err. }
  intros v w' Hv Hw'. unfold orFail at 1. cbn [fst snd].
  set (v1 := if negb (u_IsZero x) then v + CallValueTransferGas else v).
  assert (Hv1 : 0 <= v1 <= 34000 /\ (negb (u_IsZero x) = true -> 9000 <= v1))
    by (unfold v1; case_match; split; intros; try discriminate; zlia).
  do 2 gstep; [apply wp_ret; calc_err|]. do 2 gstep; [calc_err|].
  apply wp_callGasTail; [assumption|lia|zlia|intros; calc_err|intros].
  calc_val. unfold lo_call_value, call_cap in *. cbn [callGasTemp SetCallGasTemp]. rewrite Et.
  split; [destruct (negb _); [destruct Hv1 as [? Hv1]; specialize (Hv1 eq_refl)|]; zlia|].
  intros HT. match goal with H : _ -> t <= _ |- _ => specialize (H HT) end. zlia.
Qed.

Lemma calc_gas_safe n lo calc : calc_safe n lo calc -> gas_safe code_of n true false lo calc.
Proof.
  intros H. gstart. eapply wp_mono; [apply (H ip p st m c w w (Gas c) ms); assumption|].
  intros r f (lg & w' & -> & (H1 & H2 & H3) & Hr & Hv). exists lg, (Gas c), w'.
  repeat (split; [reflexivity || assumption || zlia|]). intros E. destruct (Hv E) as (? & ? & ? & _). auto.
Qed.

(** [contract.UseGas] on the frame. *)
Lemma wp_useGas_Fr p st m c lg g w k Q :
  (g < k -> Q false (Fr p st m c lg g w)) ->
  (k <= g -> Q true (Fr p st m c lg (g - k) w)) ->
  wp False (useGas k) (Fr p st m c lg g w) Q.
Proof.
  intros H1 H2. unfold wp, useGas, UseGas. cbn [contract Fr Gas with_Gas].
  destruct (Z.ltb_spec g k); [apply H1; lia|apply H2; lia].
Qed.

Lemma makeCallVariantGasCallEIP2929_safe n lo calc :
  2 <= n -> calc_safe n lo calc ->
  gas_safe code_of n true true lo (makeCallVariantGasCallEIP2929 calc).
Proof.
  intros Hn2 Hcalc. gstart. specialize (He eq_refl). unfold makeCallVariantGasCallEIP2929.
  do 3 gstep. gop. apply wp_bind.
  (* the inner calculator, from whatever gas the cold charge leaves *)
  assert (Hin : forall g (addrMod : bool), is_u64 g ->
    (if addrMod then g = Gas c - 2500 else g = Gas c) ->
    wp False (
      '(gas, err) ← calc ip ms;
      if negb addrMod || bool_decide (err <> None) then mret (gas, err)
      else
        _ ← modify (fun f => with_contract f (with_Gas (contract f) (u64 (Gas (contract f) + 2500))));
        mret (u64 (gas + 2500), None)) (Fr p st m c (lastGasCost m) g (with_statedb s w))
      (gpost code_of p st m c w (Gas c) ms lo)).
  { intros g b Hg Hb. apply wp_bind.
    eapply wp_mono; [apply (Hcalc ip p st m c w); try assumption; eauto using wrel_state|].
    intros [gas err] f (lg & w' & -> & Hw' & Hr & Hv). cbn [fst snd] in *. cbn beta iota.
    destruct err as [e|].
    - rewrite bool_decide_eq_true_2, orb_true_r by discriminate. apply wp_ret.
      exists lg, g, w'. destruct Hw' as (A1 & A2 & A3).
      repeat (split; [reflexivity || assumption || (destruct b; zlia)|]). discriminate.
    - rewrite bool_decide_eq_false_2, orb_false_r by (intros X; apply X; reflexivity).
      destruct (Hv eq_refl) as (A1 & A2 & A3 & A4). specialize (A4 He). destruct b; cbn [negb].
      + apply wp_bind, wp_modify, wp_ret. subst g lg. cbn [Fr contract with_Gas Gas].
        replace (u64 (Gas c - 2500 + 2500)) with (Gas c) by (rewrite u64_id; zlia).
        rewrite u64_id by zlia.
        change (gpost code_of p st m c w (Gas c) ms lo (gas + 2500, None)
                  (Fr p st m c (Cmem (words_after m ms)) (Gas c) w')).
        apply gpost_val; try assumption; try reflexivity; zlia.
      + apply wp_ret. subst lg g. apply gpost_val; try assumption; try reflexivity; zlia. }
  destruct a.
  - apply wp_useGas_Fr; intros Hg; cbn [negb]; [gstep; gstep|].
    apply (Hin (Gas c - 2500) true); [zlia|reflexivity].
  - gstep. cbn [negb]. apply (Hin (Gas c) false); [assumption|reflexivity].
Qed.

(** The tail of the EIP-7702 wrapper: [dyn] was charged ahead and is moved into the
    reported cost. *)
Lemma wp_7702_tail n lo calc ip p st m c w ms g dyn w1 :
  calc_safe n lo calc -> n <= zlen st -> Forall is_u256 st -> mem_ok m -> is_u64 (Gas c) ->
  is_u64 ms -> wrel code_of w w1 -> 0 <= dyn <= 10000 -> 0 <= g -> g = Gas c - dyn ->
  wp False (
    '(gas, err) ← calc ip ms;
    if (dyn =? 0) || bool_decide (err <> None) then mret (gas, err)
    else
      _ ← modify (fun f => with_contract f (with_Gas (contract f) (u64 (Gas (contract f) + dyn))));
      checked (SafeAdd gas dyn) (fun gas => mret (gas, None)))
    (Fr p st m c (lastGasCost m) g w1) (gpost code_of p st m c w (Gas c) ms lo).
Proof.
  intros Hcalc Hn Hst Hm Hgas Hms Hw1 Hdyn Hg Eg. apply wp_bind.
  eapply wp_mono; [apply (Hcalc ip p st m c w); try assumption; zlia|].
  intros [gas err] f (lg & w' & -> & Hw' & Hr & Hv). cbn [fst snd] in *. cbn beta iota.
  destruct err as [e|].
  { rewrite bool_decide_eq_true_2, orb_true_r by discriminate. apply wp_ret.
    exists lg, g, w'. destruct Hw' as (A1 & A2 & A3).
    repeat (split; [reflexivity || assumption || zlia|]). discriminate. }
  rewrite bool_decide_eq_false_2, orb_false_r by (intros X; apply X; reflexivity).
  destruct (Hv eq_refl) as (A1 & A2 & A3 & _). subst lg. destruct (Z.eqb_spec dyn 0).
  - apply wp_ret. apply gpost_val; try assumption; try reflexivity; zlia.
  - apply wp_bind, wp_modify. cbn [Fr contract with_Gas Gas].
    replace (u64 (g + dyn)) with (Gas c) by (rewrite u64_id; zlia).
    change (wp False (checked (SafeAdd gas dyn) (fun gas => mret (gas, None)))
              (Fr p st m c (Cmem (words_after m ms)) (Gas c) w') (gpost code_of p st m c w (Gas c) ms lo)).
    repeat gstep.
Qed.

Lemma makeCallVariantGasCallEIP7702_safe n lo calc :
  2 <= n -> calc_safe n lo calc ->
  gas_safe code_of n true false lo (makeCallVariantGasCallEIP7702 calc).
Proof.
  intros Hn2 Hcalc. gstart. unfold makeCallVariantGasCallEIP7702. do 3 gstep. gop. apply wp_bind.
  set (dyn := if a then ColdAccountAccessCostEIP2929 - WarmStorageReadCostEIP2929 else 0).
  match goal with |- wp _ _ _ ?P => assert (Hrest : 0 <= Gas c - dyn ->
    P true (Fr p st m c (lastGasCost m) (Gas c - dyn) (with_statedb s w))) end.
  { intros Hd. assert (0 <= dyn <= 2500) by (unfold dyn; case_match; zlia). cbn beta iota. cbn [negb].
    gstep. gop; [gstep; gstep|]. apply wp_bind. destruct b.
    - gstep. gop. apply wp_bind.
      set (dd := if a0 then ColdAccountAccessCostEIP2929 else WarmStorageReadCostEIP2929).
      assert (0 <= dd <= 2600) by (unfold dd; case_match; zlia).
      apply wp_useGas_Fr; intros Hdd; apply wp_ret; cbn beta iota; cbn [negb]; [gstep; gstep|].
      eapply wp_7702_tail; eauto using wrel_state; zlia.
    - apply wp_ret. cbn beta iota. cbn [negb]. eapply wp_7702_tail; eauto using wrel_state; zlia. }
  destruct a; unfold dyn in *.
  - apply wp_useGas_Fr; intros Hg; [cbn [negb]; gstep; gstep|]. apply Hrest. zlia.
  - gstep. rewrite Z.sub_0_r in Hrest. apply Hrest. zlia.
Qed.

End GasFunctions.
