(* ===== verification/ExecSafe.v ===== *)
(** * Safety of the instructions

    Every [op*] function, run on a frame that satisfies the invariant, has the stack
    items its table entry declares and whose memory already covers the windows its
    memory-size function announces, does not panic and re-establishes the invariant;
    unless it stops the loop it leaves exactly the declared number of items, and it
    never adds more gas than [extra] (what a call instruction may get back). *)

From S2P Require Import Machine GasTable Instructions MemoryGas FrameOk GasSafe.
Import params.

Section ExecSafe.
Context {U : Uint256} {US : Uint256Spec U} {K : Keccak} {KS : KeccakSpec K} {DB : StateDB}
  {DS : StateDBSafe DB} {L : LRU} {LS : LRUSpec L} {BF : BlobFork} (code_of : Z -> bytes) (tol : Prop).

(** The memory covers what the memory-size function asked for. *)
Definition covers (ms : option memorySizeFunc) (st : stack) (m : Memory) : Prop :=
  match ms with
  | None => True
  | Some g => exists sz, g st = Val (sz, false) /\ sz <= Len m
  end.

Record exec_post (n k : Z) (st : stack) (c : Contract) (w : World) (extra : Z) (halts : bool)
    (r : bytes * option Error) (f' : Frame) : Prop := mkExecPost {
  ep_frame : frame_ok code_of f';
  ep_ret : go_len r.1;
  ep_ro : readOnly (world f') = readOnly w;
  ep_depth : depth (world f') = depth w;
  ep_gas : Gas (contract f') <= Gas c + extra;
  ep_code : Code (contract f') = Code c;
  ep_next : r.2 = None -> halts = false /\ zlen (stk f') = zlen st - n + k
}.

Definition exec_safe (n k : Z) (ms : option memorySizeFunc) (extra : World -> stack -> Z)
    (halts incode : bool) (e : executionFunc) : Prop :=
  forall ip p st m c w,
    interp_ok code_of tol ip -> n <= zlen st -> Forall is_u256 st -> is_u64 p ->
    (incode = true -> p < zlen (Code c)) -> mem_ok m -> covers ms st m ->
    contract_ok code_of c -> world_ok code_of w ->
    wp tol (e ip) (mkFrame p st m c w) (exec_post n k st c w (extra w st) halts).

Definition no_extra : World -> stack -> Z := fun _ _ => 0.

(** ** Windows *)

Lemma Back_lookup k (st : stack) x : 0 <= k -> st !! Z.to_nat k = Some x -> Back k st = Val x.
Proof. apply go_index_lookup. Qed.

Lemma window_in off l m sz :
  is_u256 off -> is_u256 l -> calcMemSize64 off l = (sz, false) -> sz <= Len m ->
  in_mem m (u_Uint64 off) (u_Uint64 l) /\ is_u64 l /\ u_Uint64 l = l.
Proof.
  intros Ho Hl E Hsz. rewrite !Uint64_spec by assumption. unfold in_mem, is_u256, is_u64 in *.
  destruct (calcMemSize64_cases off l Ho Hl) as [[-> _]|[(Hn & Hlt & E')|(Hn & Hge & v & E')]].
  - repeat split; auto; reflexivity.
  - rewrite E' in E. injection E as <-. rewrite !Z.mod_small by lia. lia.
  - congruence.
Qed.

Lemma window_in_uint off l m sz :
  is_u256 off -> is_u64 l -> calcMemSize64WithUint off l = (sz, false) -> sz <= Len m ->
  in_mem m (u_Uint64 off) l.
Proof.
  intros Ho Hl E Hsz. rewrite !Uint64_spec by assumption. unfold in_mem, is_u256, is_u64 in *.
  destruct (calcMemSize64WithUint_cases off l Ho Hl) as [[-> _]|[(Hn & Hlt & E')|(Hn & Hge & v & E')]].
  - auto.
  - rewrite E' in E. injection E as <-. rewrite !Z.mod_small by lia. lia.
  - congruence.
Qed.

Lemma cov_pair i j st m off l :
  covers (Some (fun st => x ← Back i st; y ← Back j st; mret (calcMemSize64 x y))) st m ->
  0 <= i -> 0 <= j -> st !! Z.to_nat i = Some off -> st !! Z.to_nat j = Some l ->
  is_u256 off -> is_u256 l ->
  in_mem m (u_Uint64 off) (u_Uint64 l) /\ is_u64 l /\ u_Uint64 l = l.
Proof.
  intros (sz & E & Hsz) Hi Hj Ei Ej Ho Hl.
  rewrite (Back_lookup i st off), (Back_lookup j st l) in E by assumption.
  injection E as E. by apply (window_in off l m sz).
Qed.

Lemma cov_one i k st m off :
  covers (Some (fun st => x ← Back i st; mret (calcMemSize64WithUint x k))) st m ->
  0 <= i -> is_u64 k -> st !! Z.to_nat i = Some off -> is_u256 off -> in_mem m (u_Uint64 off) k.
Proof.
  intros (sz & E & Hsz) Hi Hk Ei Ho. rewrite (Back_lookup i st off) in E by assumption.
  injection E as E. by apply (window_in_uint off k m sz).
Qed.

Lemma cov_two i1 l1 i2 l2 st m o1 s1 o2 s2 :
  covers (Some (ms_two i1 l1 i2 l2)) st m ->
  0 <= i1 -> 0 <= l1 -> 0 <= i2 -> 0 <= l2 ->
  st !! Z.to_nat i1 = Some o1 -> st !! Z.to_nat l1 = Some s1 ->
  st !! Z.to_nat i2 = Some o2 -> st !! Z.to_nat l2 = Some s2 ->
  is_u256 o1 -> is_u256 s1 -> is_u256 o2 -> is_u256 s2 ->
  (in_mem m (u_Uint64 o1) (u_Uint64 s1) /\ is_u64 s1 /\ u_Uint64 s1 = s1) /\
  (in_mem m (u_Uint64 o2) (u_Uint64 s2) /\ is_u64 s2 /\ u_Uint64 s2 = s2).
Proof.
  intros (sz & E & Hsz) H1 H2 H3 H4 E1 E2 E3 E4 Ho1 Hs1 Ho2 Hs2. unfold ms_two in E.
  rewrite (Back_lookup i1 st o1), (Back_lookup l1 st s1) in E by assumption.
  cbn [mbind Res_bind] in E. destruct (calcMemSize64 o1 s1) as [x ov] eqn:Ea. destruct ov; [discriminate|].
  rewrite (Back_lookup i2 st o2), (Back_lookup l2 st s2) in E by assumption.
  cbn [mbind Res_bind] in E. destruct (calcMemSize64 o2 s2) as [y ov] eqn:Eb. destruct ov; [discriminate|].
  injection E as E. split; eapply window_in; eauto; lia.
Qed.

Lemma cov_mcopy st m dst src l :
  covers (Some memoryMcopy) st m ->
  st !! 0%nat = Some dst -> st !! 1%nat = Some src -> st !! 2%nat = Some l ->
  is_u256 dst -> is_u256 src -> is_u256 l ->
  in_mem m (u_Uint64 dst) (u_Uint64 l) /\ in_mem m (u_Uint64 src) (u_Uint64 l) /\ is_u64 (u_Uint64 l).
Proof.
  intros (sz & E & Hsz) E0 E1 E2 Hd Hs Hl. unfold memoryMcopy in E.
  rewrite (Back_lookup 0 st dst), (Back_lookup 1 st src), (Back_lookup 2 st l) in E by (assumption || lia).
  cbn [mbind Res_bind] in E. rewrite Gt_spec in E by assumption. injection E as E.
  set (b := if dst <? src then src else dst) in *.
  assert (Hb : is_u256 b /\ dst <= b /\ src <= b) by (unfold b; zbool; repeat split; try apply Hd; try apply Hs; lia).
  destruct Hb as (Hb & Hdb & Hsb). rewrite !Uint64_spec by assumption.
  destruct (calcMemSize64_cases b l Hb Hl) as [[-> _]|[(Hn & Hlt & E')|(_ & _ & v & E')]].
  - by split; [left|split; [left|]].
  - rewrite E' in E. injection E as <-. unfold in_mem, is_u256, is_u64 in *.
    rewrite !Z.mod_small by lia. lia.
  - rewrite E' in E. discriminate.
Qed.

End ExecSafe.

Lemma setBool_range b : is_u256 (setBool b).
Proof. destruct b; done. Qed.

Lemma zlen_u256 {A} (l : list A) : go_len l -> is_u256 (zlen l).
Proof. unfold go_len, is_u256, two256. pose proof (zlen_nonneg l). lia. Qed.

Lemma go_len_nil {A} : go_len (@nil A).
Proof. done. Qed.

Lemma const_u256 z : 0 <= z < two64 -> is_u256 z.
Proof. exact (u64_u256 z). Qed.

Lemma Uint64_nonneg {U : Uint256} {US : Uint256Spec U} x : is_u256 x -> 0 <= u_Uint64 x.
Proof. intros H. apply (Uint64_range x H). Qed.

#[export] Hint Resolve setBool_range zlen_u256 go_len_nil Uint64_nonneg : machine.
#[export] Hint Extern 1 (is_u256 1) => done : machine.
#[export] Hint Extern 2 (is_u256 _) => assumption : machine.

Ltac u256_solve :=
  first [ assumption | solve [eauto 5 with machine] | done
        | apply u64_u256; zlia | unfold is_u256, two256 in *; zlia ].

(** Open an [exec_safe] goal with [n] named stack items. *)
Tactic Notation "estart" integer(n) :=
  intros ip p st m c w Hip Hn Hst Hp Hin Hm Hcov Hc Hw;
  do n (destruct st as [|? st]; [exfalso; unfold zlen in Hn; cbn in Hn; lia|]);
  repeat match type of Hst with Forall _ (_ :: _) => apply Forall_cons in Hst; destruct Hst as [? Hst] end.

Ltac eframe :=
  apply mkFrameOk; cbn [pc stk mem contract world with_mem with_stk with_contract with_world with_pc];
  [ u64_solve | repeat (apply Forall_cons; split; [u256_solve|]); assumption
  | try assumption | try assumption | try assumption ].

(** Close an [exec_post] goal on an explicit frame. *)
Ltac edone :=
  apply mkExecPost; cbn [pc stk mem contract world fst snd with_mem with_stk with_contract with_world with_pc];
  [ eframe | first [apply go_len_nil | assumption] | reflexivity | reflexivity
  | unfold no_extra; cbn; lia | reflexivity
  | first [ discriminate | intros _; split; [reflexivity|rewrite ?zlen_cons; lia] ] ].

Ltac epure := repeat fstep; edone.

Section Arithmetic.
Context {U : Uint256} {US : Uint256Spec U} {K : Keccak} {KS : KeccakSpec K} {DB : StateDB}
  {DS : StateDBSafe DB} {L : LRU} {LS : LRUSpec L} {BF : BlobFork} (code_of : Z -> bytes) (tol : Prop).

Abbreviation pure_safe n k e := (exec_safe code_of tol n k None no_extra false false e).

Lemma opAdd_safe : pure_safe 2 1 opAdd.
Proof. estart 2. unfold opAdd, ok. epure. Qed.
Lemma opSub_safe : pure_safe 2 1 opSub.
Proof. estart 2. unfold opSub, ok. epure. Qed.
Lemma opMul_safe : pure_safe 2 1 opMul.
Proof. estart 2. unfold opMul, ok. epure. Qed.
Lemma opDiv_safe : pure_safe 2 1 opDiv.
Proof. estart 2. unfold opDiv, ok. epure. Qed.
Lemma opSdiv_safe : pure_safe 2 1 opSdiv.
Proof. estart 2. unfold opSdiv, ok. epure. Qed.
Lemma opMod_safe : pure_safe 2 1 opMod.
Proof. estart 2. unfold opMod, ok. epure. Qed.
Lemma opSmod_safe : pure_safe 2 1 opSmod.
Proof. estart 2. unfold opSmod, ok. epure. Qed.
Lemma opExp_safe : pure_safe 2 1 opExp.
Proof. estart 2. unfold opExp, ok. epure. Qed.
Lemma opSignExtend_safe : pure_safe 2 1 opSignExtend.
Proof. estart 2. unfold opSignExtend, ok. epure. Qed.
Lemma opNot_safe : pure_safe 1 1 opNot.
Proof. estart 1. unfold opNot, ok. epure. Qed.
Lemma opLt_safe : pure_safe 2 1 opLt.
Proof. estart 2. unfold opLt, ok. epure. Qed.
Lemma opGt_safe : pure_safe 2 1 opGt.
Proof. estart 2. unfold opGt, ok. epure. Qed.
Lemma opSlt_safe : pure_safe 2 1 opSlt.
Proof. estart 2. unfold opSlt, ok. epure. Qed.
Lemma opSgt_safe : pure_safe 2 1 opSgt.
Proof. estart 2. unfold opSgt, ok. epure. Qed.
Lemma opEq_safe : pure_safe 2 1 opEq.
Proof. estart 2. unfold opEq, ok. epure. Qed.
Lemma opIszero_safe : pure_safe 1 1 opIszero.
Proof. estart 1. unfold opIszero, ok. epure. Qed.
Lemma opAnd_safe : pure_safe 2 1 opAnd.
Proof. estart 2. unfold opAnd, ok. epure. Qed.
Lemma opOr_safe : pure_safe 2 1 opOr.
Proof. estart 2. unfold opOr, ok. epure. Qed.
Lemma opXor_safe : pure_safe 2 1 opXor.
Proof. estart 2. unfold opXor, ok. epure. Qed.
Lemma opByte_safe : pure_safe 2 1 opByte.
Proof. estart 2. unfold opByte, ok. epure. Qed.
Lemma opAddmod_safe : pure_safe 3 1 opAddmod.
Proof. estart 3. unfold opAddmod, ok. epure. Qed.
Lemma opMulmod_safe : pure_safe 3 1 opMulmod.
Proof. estart 3. unfold opMulmod, ok. epure. Qed.
Lemma opSHL_safe : pure_safe 2 1 opSHL.
Proof. estart 2. unfold opSHL, ok. epure. Qed.
Lemma opSHR_safe : pure_safe 2 1 opSHR.
Proof. estart 2. unfold opSHR, ok. epure. Qed.
Lemma opSAR_safe : pure_safe 2 1 opSAR.
Proof. estart 2. unfold opSAR, ok. epure. Qed.
Lemma opCLZ_safe : pure_safe 1 1 opCLZ.
Proof. estart 1. unfold opCLZ, ok. epure. Qed.
Lemma opPop_safe : pure_safe 1 0 opPop.
Proof. estart 1. unfold opPop, ok. epure. Qed.
Lemma opJumpdest_safe : pure_safe 0 0 opJumpdest.
Proof. estart 0. unfold opJumpdest, ok. epure. Qed.
Lemma opPush0_safe : pure_safe 0 1 opPush0.
Proof. estart 0. unfold opPush0, ok. epure. Qed.

End Arithmetic.

(** A state operation inside an instruction, by its law. *)
Ltac estate law :=
  eapply wp_state;
  [apply law; cbn [world statedb with_statedb]; solve [assumption | eapply wo_state; eassumption | u256_solve]|];
  cbn beta.

Ltac ewo := first [assumption | apply world_ok_state; [ewo|assumption]].
Ltac edone' :=
  apply mkExecPost; cbn [pc stk mem contract world fst snd with_mem with_stk with_contract with_world with_pc];
  [ eframe; try ewo | first [apply go_len_nil | assumption] | reflexivity | reflexivity
  | unfold no_extra; cbn; lia | reflexivity
  | first [ discriminate | intros _; split; [reflexivity|rewrite ?zlen_cons; lia] ] ].

Section Environment.
Context {U : Uint256} {US : Uint256Spec U} {K : Keccak} {KS : KeccakSpec K} {DB : StateDB}
  {DS : StateDBSafe DB} {L : LRU} {LS : LRUSpec L} {BF : BlobFork} (code_of : Z -> bytes) (tol : Prop).

Abbreviation pure_safe n k e := (exec_safe code_of tol n k None no_extra false false e).
Abbreviation mem_safe n k ms e := (exec_safe code_of tol n k (Some ms) no_extra false false e).

Lemma mem_ok_u64 m : mem_ok m -> Len m < two64.
Proof. intros (H & _). unfold MaxMem, two64 in *. lia. Qed.

Lemma opKeccak256_safe : mem_safe 2 1 memoryKeccak256 opKeccak256.
Proof.
  estart 2. unfold opKeccak256, ok.
  destruct (cov_pair 0 1 _ m z z0 Hcov) as (Hin' & Hl & El); try done.
  destruct (GetPtr_ok m (u_Uint64 z) (u_Uint64 z0)) as (d & Ed & _);
    [by apply mem_ok_u64|by apply Uint64_nonneg|exact Hin'|].
  do 4 fstep. apply wp_bind. eapply wp_m_read; [exact Ed|]. repeat fstep.
  pose proof (keccak256_range d). edone.
Qed.

Lemma opAddress_safe : pure_safe 0 1 opAddress.
Proof. estart 0. unfold opAddress, ok. repeat fstep. pose proof (co_self _ _ Hc). edone. Qed.
Lemma opCaller_safe : pure_safe 0 1 opCaller.
Proof. estart 0. unfold opCaller, ok. repeat fstep. pose proof (co_caller _ _ Hc). edone. Qed.
Lemma opOrigin_safe : pure_safe 0 1 opOrigin.
Proof. estart 0. unfold opOrigin, ok. repeat fstep. pose proof (eo_origin _ (io_env _ _ _ Hip)). edone. Qed.

Lemma opCallValue_safe : pure_safe 0 1 opCallValue.
Proof.
  estart 0. unfold opCallValue, ok. destruct (co_value _ _ Hc) as (v & Ev & Hv). do 3 fstep.
  eapply wp_push_ptr; [exact Ev|]. repeat fstep. edone.
Qed.
Lemma opGasprice_safe : pure_safe 0 1 opGasprice.
Proof.
  estart 0. unfold opGasprice, ok. destruct (eo_gasprice _ (io_env _ _ _ Hip)) as (v & Ev & Hv). fstep.
  eapply wp_push_ptr; [exact Ev|]. repeat fstep. edone.
Qed.
Lemma opBaseFee_safe : pure_safe 0 1 opBaseFee.
Proof.
  estart 0. unfold opBaseFee, ok. destruct (eo_basefee _ (io_env _ _ _ Hip)) as (v & Ev & Hv). fstep.
  eapply wp_push_ptr; [exact Ev|]. repeat fstep. edone.
Qed.
Lemma opBlobBaseFee_safe : blobs = true -> pure_safe 0 1 opBlobBaseFee.
Proof.
  intros Hb. estart 0. unfold opBlobBaseFee, ok. destruct (eo_blobfee _ (io_env _ _ _ Hip) Hb) as (v & Ev & Hv). fstep.
  eapply wp_push_ptr; [exact Ev|]. repeat fstep. edone.
Qed.
Lemma opCoinbase_safe : pure_safe 0 1 opCoinbase.
Proof. estart 0. unfold opCoinbase, ok. repeat fstep. pose proof (eo_coinbase _ (io_env _ _ _ Hip)). edone. Qed.
Lemma opTimestamp_safe : pure_safe 0 1 opTimestamp.
Proof. estart 0. unfold opTimestamp, ok. repeat fstep. pose proof (eo_time _ (io_env _ _ _ Hip)). edone. Qed.
Lemma opNumber_safe : pure_safe 0 1 opNumber.
Proof. estart 0. unfold opNumber, ok. repeat fstep. pose proof (eo_number _ (io_env _ _ _ Hip)). edone. Qed.
Lemma opGasLimit_safe : pure_safe 0 1 opGasLimit.
Proof. estart 0. unfold opGasLimit, ok. pose proof (eo_limit _ (io_env _ _ _ Hip)). repeat fstep; edone. Qed.

Lemma opDifficulty_safe : pure_safe 0 1 opDifficulty.
Proof.
  estart 0. unfold opDifficulty, ok, fail.
  destruct (eo_difficulty _ (io_env _ _ _ Hip)) as [(r & -> & Hr)|(-> & d & -> & Hd)].
  - repeat fstep. edone.
  - rewrite FromBig_spec by assumption. destruct (two256 <=? d); repeat fstep; edone.
Qed.

Lemma opChainID_safe : pure_safe 0 1 opChainID.
Proof.
  estart 0. unfold opChainID, ok. rewrite FromBig_spec by apply (eo_chain _ (io_env _ _ _ Hip)).
  repeat fstep. edone.
Qed.

Lemma opBlockhash_safe : pure_safe 1 1 opBlockhash.
Proof.
  estart 1. unfold opBlockhash, ok, fail.
  do 2 fstep. destruct (u_Uint64WithOverflow z) as [a ov]. destruct ov; [repeat fstep; edone|].
  match goal with |- wp _ (if ?b then _ else _) _ _ => destruct b end; [|repeat fstep; edone].
  pose proof (eo_hash _ (io_env _ _ _ Hip) a) as Hh.
  destruct (GetHash _ a) as [h err]. destruct err; repeat fstep; edone.
Qed.

Lemma opBlobHash_safe : pure_safe 1 1 opBlobHash.
Proof.
  estart 1. unfold opBlobHash, ok. destruct (eo_blobs _ (io_env _ _ _ Hip)) as [Hb Hl].
  do 3 fstep. rewrite LtUint64_spec by assumption. fstep; [|repeat fstep; edone].
  apply Z.ltb_lt in Heqb. rewrite Uint64_spec, Z.mod_small by (try assumption; destruct Hl, H; lia).
  destruct (go_index_val (BlobHashes (Tx (env ip))) z) as (h & E & El); [destruct H; lia|].
  fstep. eapply wp_lift; [exact E|]. repeat fstep.
  assert (is_u256 h) by (eapply Forall_lookup_1; eauto). edone.
Qed.

(** Sizes, and the frame's own numbers. *)
Lemma opCallDataSize_safe : pure_safe 0 1 opCallDataSize.
Proof. estart 0. unfold opCallDataSize, ok. repeat fstep. pose proof (co_input _ _ Hc). edone. Qed.
Lemma opCodeSize_safe : pure_safe 0 1 opCodeSize.
Proof. estart 0. unfold opCodeSize, ok. repeat fstep. pose proof (co_code _ _ Hc). edone. Qed.
Lemma opReturnDataSize_safe : pure_safe 0 1 opReturnDataSize.
Proof. estart 0. unfold opReturnDataSize, ok. repeat fstep. pose proof (wo_data _ _ Hw). edone. Qed.
Lemma opPc_safe : pure_safe 0 1 opPc.
Proof. estart 0. unfold opPc, ok. repeat fstep. edone. Qed.
Lemma opMsize_safe : pure_safe 0 1 opMsize.
Proof. estart 0. unfold opMsize, ok. repeat fstep. edone. Qed.
Lemma opGas_safe : pure_safe 0 1 opGas.
Proof. estart 0. unfold opGas, ok. repeat fstep. pose proof (co_gas _ _ Hc). edone. Qed.

(** ** Copying data *)

Lemma mem_ok_same_len m m' :
  mem_ok m -> Len m' = Len m -> lastGasCost m' = lastGasCost m -> mem_ok m'.
Proof. unfold mem_ok. intros H -> ->. exact H. Qed.

Lemma in_mem_small m off l : mem_ok m -> 0 <= l -> in_mem m off l -> l <= MaxMem.
Proof. intros (H & _) Hl [->|(H1 & H2 & H3)]; unfold MaxMem in *; lia. Qed.

(** [getData] of a window that fits in memory, then the write. *)
Lemma wp_copy data start off l p st m c w Q :
  go_len data -> is_u64 start -> mem_ok m -> 0 <= l -> in_mem m off l ->
  (forall m', mem_ok m' -> Q tt (mkFrame p st m' c w)) ->
  wp tol (d ← lift (getData data start l); m_write (Set_ off l d)) (mkFrame p st m c w) Q.
Proof.
  intros Hd Hs Hm Hl Hin HQ. pose proof (in_mem_small m off l Hm Hl Hin) as Hsm.
  apply wp_bind. eapply wp_lift; [apply getData_window; try assumption; unfold go_len, MaxMem in *; lia|].
  cbn beta. destruct (Set_ok m off l (data_window data start l)) as (m' & E & HL & Hg);
    [by apply mem_ok_u64|assumption|assumption|].
  eapply wp_m_write; [exact E|]. apply HQ. by eapply mem_ok_same_len.
Qed.

Lemma wp_assoc {S A B C} ok (m : M S A) (k : A -> M S B) (h : B -> M S C) s Q :
  wp ok ((m ≫= k) ≫= h) s Q -> wp ok (m ≫= (fun a => k a ≫= h)) s Q.
Proof. unfold wp, mbind, M_bind. destruct (m s) as [[a s']|e|]; auto. Qed.

Lemma MaxUint64_u64 : is_u64 MaxUint64.
Proof. done. Qed.

Lemma opCallDataCopy_safe : mem_safe 3 0 memoryCallDataCopy opCallDataCopy.
Proof.
  estart 3. unfold opCallDataCopy, ok.
  destruct (cov_pair 0 2 _ m z z1 Hcov) as (Hin' & Hl & El); try done.
  do 8 fstep. rewrite Uint64WithOverflow_spec by assumption.
  apply wp_assoc, wp_bind, wp_copy; try assumption; [apply (co_input _ _ Hc)| |by apply Uint64_nonneg|].
  - case_match; [done|apply u64_range].
  - intros m' Hm'. repeat fstep. edone.
Qed.

Lemma opCodeCopy_safe : mem_safe 3 0 memoryCodeCopy opCodeCopy.
Proof.
  estart 3. unfold opCodeCopy, ok.
  destruct (cov_pair 0 2 _ m z z1 Hcov) as (Hin' & Hl & El); try done.
  do 8 fstep. rewrite Uint64WithOverflow_spec by assumption.
  apply wp_assoc, wp_bind, wp_copy; try assumption; [apply (co_code _ _ Hc)| |by apply Uint64_nonneg|].
  - case_match; [done|apply u64_range].
  - intros m' Hm'. repeat fstep. edone.
Qed.

Lemma opExtCodeCopy_safe : mem_safe 4 0 memoryExtCodeCopy opExtCodeCopy.
Proof.
  estart 4. unfold opExtCodeCopy, ok, fail.
  destruct (cov_pair 1 3 _ m z0 z2 Hcov) as (Hin' & Hl & El); try done.
  do 9 fstep. estate GetCode_safe. intros [code err] s (Hs & Hcode). cbn [fst snd] in *. cbn beta iota.
  destruct err as [e|]; [repeat fstep; edone'|]. unfold getDataBig.
  rewrite Uint64WithOverflow_spec by assumption.
  apply wp_assoc, wp_bind, wp_copy; try assumption; [|by apply Uint64_nonneg|].
  - case_match; [done|apply u64_range].
  - intros m' Hm'. repeat fstep. edone'.
Qed.

Lemma opReturnDataCopy_safe : mem_safe 3 0 memoryReturnDataCopy opReturnDataCopy.
Proof.
  estart 3. unfold opReturnDataCopy, ok, fail.
  destruct (cov_pair 0 2 _ m z z1 Hcov) as (Hin' & Hl & El); try done.
  do 8 fstep. rewrite Uint64WithOverflow_spec, AddOverflow_spec by assumption.
  destruct (Z.leb_spec two64 z0); [repeat fstep; edone|].
  destruct (Z.leb_spec two256 (z0 + z1)); [repeat fstep; edone|].
  assert (B0 : 0 <= z0 < two256) by assumption. assert (B1 : 0 <= z1 < two64) by assumption.
  rewrite (Z.mod_small (z0 + z1)) by lia.
  rewrite Uint64WithOverflow_spec by (unfold is_u256; lia).
  destruct (Z.leb_spec two64 (z0 + z1)); cbn [orb]; [repeat fstep; edone|].
  rewrite !Z.mod_small by lia.
  destruct (Z.ltb_spec (zlen (returnData w)) (z0 + z1)); [repeat fstep; edone|].
  apply wp_bind. eapply wp_lift; [apply go_slice_val; lia|]. cbn beta. apply wp_bind.
  destruct (Set_ok m (u_Uint64 z) (u_Uint64 z1)
              (take (Z.to_nat (z0 + z1 - z0)) (drop (Z.to_nat z0) (returnData w))))
    as (m' & E & HL & Hg); [by apply mem_ok_u64|by rewrite El; lia|assumption|].
  eapply wp_m_write; [exact E|]. pose proof (mem_ok_same_len _ _ Hm HL Hg). repeat fstep. edone.
Qed.

Lemma opCallDataLoad_safe : pure_safe 1 1 opCallDataLoad.
Proof.
  estart 1. unfold opCallDataLoad, ok. do 4 fstep. rewrite Uint64WithOverflow_spec by assumption.
  destruct (two64 <=? z); cbn [negb]; [repeat fstep; edone|]. do 2 fstep.
  eapply wp_lift; [apply getData_window; [pose proof (co_input _ _ Hc); unfold go_len in *; lia|apply u64_range|lia]|].
  repeat fstep. pose proof (zlen_data_window (Input c) (u64 z) 32 ltac:(lia)) as Hz.
  assert (is_u256 (u_SetBytes (data_window (Input c) (u64 z) 32)))
    by (apply SetBytes_range; unfold zlen in Hz; lia).
  edone.
Qed.

End Environment.

Section MemoryFlow.
Context {U : Uint256} {US : Uint256Spec U} {K : Keccak} {KS : KeccakSpec K} {DB : StateDB}
  {DS : StateDBSafe DB} {L : LRU} {LS : LRUSpec L} {BF : BlobFork} (code_of : Z -> bytes) (tol : Prop).

Abbreviation pure_safe n k e := (exec_safe code_of tol n k None no_extra false false e).
Abbreviation mem_safe n k ms e := (exec_safe code_of tol n k (Some ms) no_extra false false e).
Abbreviation halt_safe n ms e := (exec_safe code_of tol n 0 ms no_extra true false e).

(** ** Memory *)

Lemma opMload_safe : mem_safe 1 1 memoryMLoad opMload.
Proof.
  estart 1. unfold opMload, ok. pose proof (cov_one 0 32 _ m z Hcov) as Hin'.
  destruct (GetPtr_ok m (u_Uint64 z) 32) as (d & Ed & Hd); [by apply mem_ok_u64|lia|by apply Hin'|].
  do 3 fstep. eapply wp_m_read; [exact Ed|]. repeat fstep.
  assert (is_u256 (u_SetBytes d)) by (apply SetBytes_range; unfold zlen in Hd; lia). edone.
Qed.

Lemma opMstore_safe : mem_safe 2 0 memoryMStore opMstore.
Proof.
  estart 2. unfold opMstore, ok. pose proof (cov_one 0 32 _ m z Hcov) as Hin'.
  destruct (Set32_ok m (u_Uint64 z) z0) as (m' & E & HL & Hg); [by apply mem_ok_u64|by apply Hin'|assumption|].
  do 5 fstep. eapply wp_m_write; [exact E|]. pose proof (mem_ok_same_len _ _ Hm HL Hg). repeat fstep. edone.
Qed.

Lemma opMstore8_safe : mem_safe 2 0 memoryMStore8 opMstore8.
Proof.
  estart 2. unfold opMstore8, ok. pose proof (cov_one 0 1 _ m z Hcov) as Hin'.
  destruct Hin' as [?|(A & B & C)]; try done.
  destruct (go_index_val (store m) (u_Uint64 z)) as (b & E & _); [unfold Len in C; lia|].
  do 5 fstep. eapply wp_m_write; [cbn [mem]; rewrite E; reflexivity|].
  set (m' := with_store _ _). assert (HL : Len m' = Len m).
  { unfold Len, m'. cbn [store with_store mem]. apply zlen_splice; [lia|]. unfold Len in C. exact C. }
  pose proof (mem_ok_same_len _ _ Hm HL eq_refl). repeat fstep. edone.
Qed.

Lemma opMcopy_safe : mem_safe 3 0 memoryMcopy opMcopy.
Proof.
  estart 3. unfold opMcopy, ok. destruct (cov_mcopy _ m z z0 z1 Hcov) as (Hd & Hs & Hl); try done.
  destruct (Copy_ok m (u_Uint64 z) (u_Uint64 z0) (u_Uint64 z1)) as (m' & E & HL & Hg);
    [by apply mem_ok_u64|apply Hl|assumption|assumption|].
  do 7 fstep. eapply wp_m_write; [exact E|]. pose proof (mem_ok_same_len _ _ Hm HL Hg). repeat fstep. edone.
Qed.

(** ** Stopping *)

Lemma opReturn_safe : halt_safe 2 (Some memoryReturn) opReturn.
Proof.
  estart 2. unfold opReturn. destruct (cov_pair 0 1 _ m z z0 Hcov) as (Hin' & Hl & El); try done.
  destruct (GetCopy_ok m (u_Uint64 z) (u_Uint64 z0)) as (d & Ed & Hd);
    [by apply mem_ok_u64|by apply Uint64_nonneg|exact Hin'|].
  do 5 fstep. eapply wp_m_read; [exact Ed|]. repeat fstep.
  assert (go_len d).
  { unfold go_len. rewrite Hd. pose proof (in_mem_small _ _ _ Hm (Uint64_nonneg z0 H0) Hin').
    unfold MaxMem in *. lia. }
  edone.
Qed.

Lemma world_ok_returnData w d : world_ok code_of w -> go_len d -> world_ok code_of (with_returnData w d).
Proof. intros [] H. split; assumption. Qed.

Lemma opRevert_safe : halt_safe 2 (Some memoryRevert) opRevert.
Proof.
  estart 2. unfold opRevert, setReturnData.
  destruct (cov_pair 0 1 _ m z z0 Hcov) as (Hin' & Hl & El); try done.
  destruct (GetCopy_ok m (u_Uint64 z) (u_Uint64 z0)) as (d & Ed & Hd);
    [by apply mem_ok_u64|by apply Uint64_nonneg|exact Hin'|].
  do 5 fstep. eapply wp_m_read; [exact Ed|].
  assert (go_len d).
  { unfold go_len. rewrite Hd. pose proof (in_mem_small _ _ _ Hm (Uint64_nonneg z0 H0) Hin').
    unfold MaxMem in *. lia. }
  fstep. apply wp_onWorld. repeat fstep. pose proof (world_ok_returnData w d Hw). edone; auto.
Qed.

Lemma opStop_safe : halt_safe 0 None opStop.
Proof. estart 0. unfold opStop, fail. repeat fstep. edone. Qed.

Lemma opUndefined_safe : exec_safe code_of tol 0 0 None no_extra true true opUndefined.
Proof.
  estart 0. unfold opUndefined, fail.
  destruct (go_index_val (Code c) p) as (b & E & _); [destruct Hp; auto|].
  do 5 fstep. eapply wp_lift; [exact E|]. repeat fstep. edone.
Qed.

(** ** Jumps *)

Lemma jump_gas c' c an : with_analysis c' an = c -> Gas c' = Gas c /\ Code c' = Code c.
Proof. intros <-. done. Qed.

Lemma opJump_safe : pure_safe 1 0 opJump.
Proof.
  estart 1. unfold opJump, ok, fail. do 3 fstep. eapply validJumpdest_ok; try eassumption.
  intros [valid used] c' w' Hc' Hw' Ec Hro Hd _ _. destruct (jump_gas _ _ _ Ec) as [Eg Ecode].
  cbn beta iota. destruct valid; cbn [negb]; repeat fstep.
  all: apply mkExecPost; cbn; try assumption; try done; try (unfold no_extra; lia).
  all: try (apply mkFrameOk; cbn; try assumption; apply u64_range).
  intros _. split; [reflexivity|]. rewrite zlen_cons. lia.
Qed.

Lemma opJumpi_safe : pure_safe 2 0 opJumpi.
Proof.
  estart 2. unfold opJumpi, ok, fail. do 5 fstep; [|repeat fstep; edone].
  fstep. eapply validJumpdest_ok; try eassumption.
  intros [valid used] c' w' Hc' Hw' Ec Hro Hd _ _. destruct (jump_gas _ _ _ Ec) as [Eg Ecode].
  cbn beta iota. destruct valid; cbn [negb]; repeat fstep.
  all: apply mkExecPost; cbn; try assumption; try done; try (unfold no_extra; lia).
  all: try (apply mkFrameOk; cbn; try assumption; apply u64_range).
  intros _. split; [reflexivity|]. rewrite !zlen_cons. lia.
Qed.

End MemoryFlow.

Section StateOps.
Context {U : Uint256} {US : Uint256Spec U} {K : Keccak} {KS : KeccakSpec K} {DB : StateDB}
  {DS : StateDBSafe DB} {L : LRU} {LS : LRUSpec L} {BF : BlobFork} (code_of : Z -> bytes) (tol : Prop).

Abbreviation pure_safe n k e := (exec_safe code_of tol n k None no_extra false false e).
Abbreviation mem_safe n k ms e := (exec_safe code_of tol n k (Some ms) no_extra false false e).
Abbreviation halt_safe n ms e := (exec_safe code_of tol n 0 ms no_extra true false e).

Lemma opBalance_safe : pure_safe 1 1 opBalance.
Proof.
  estart 1. unfold opBalance, ok, fail. do 3 fstep. estate GetBalance_safe.
  intros [v [e|]] s (Hs & Hv); cbn [fst snd] in *; repeat fstep; edone'.
Qed.
Lemma opSelfBalance_safe : pure_safe 0 1 opSelfBalance.
Proof.
  estart 0. unfold opSelfBalance, ok, fail. do 3 fstep. estate GetBalance_safe.
  intros [v [e|]] s (Hs & Hv); cbn [fst snd] in *; repeat fstep; edone'.
Qed.
Lemma opExtCodeSize_safe : pure_safe 1 1 opExtCodeSize.
Proof.
  estart 1. unfold opExtCodeSize, ok, fail. do 3 fstep. estate GetCodeSize_safe.
  intros [v [e|]] s (Hs & Hv); cbn [fst snd] in *; repeat fstep; edone'.
Qed.
Lemma opExtCodeHash_safe : pure_safe 1 1 opExtCodeHash.
Proof.
  estart 1. unfold opExtCodeHash, ok, fail. do 3 fstep. estate Empty_safe.
  intros [b [e|]] s Hs; cbn [fst snd] in *; [repeat fstep; edone'|].
  destruct b; [repeat fstep; edone'|]. fstep. estate GetCodeHash_safe.
  intros [v [e|]] s' (Hs' & Hv); cbn [fst snd] in *; repeat fstep; edone'.
Qed.
Lemma opSload_safe : pure_safe 1 1 opSload.
Proof.
  estart 1. unfold opSload. do 5 fstep. estate GetState_safe.
  intros [v err] s (Hs & Hv); cbn [fst snd] in *; repeat fstep. edone'.
Qed.
Lemma opTload_safe : pure_safe 1 1 opTload.
Proof.
  estart 1. unfold opTload, ok. do 5 fstep. estate GetTransientState_safe.
  intros v s (Hs & Hv); repeat fstep. edone'.
Qed.
Lemma opSstore_safe : pure_safe 2 0 opSstore.
Proof.
  estart 2. unfold opSstore, fail. do 3 fstep; [repeat fstep; edone|]. do 7 fstep. estate SetState_safe.
  intros err s Hs; repeat fstep. edone'.
Qed.
Lemma opTstore_safe : pure_safe 2 0 opTstore.
Proof.
  estart 2. unfold opTstore, ok, fail. do 3 fstep; [repeat fstep; edone|]. do 7 fstep.
  estate SetTransientState_safe. intros err s Hs; repeat fstep. edone'.
Qed.

Lemma opSelfdestruct_safe : halt_safe 1 None opSelfdestruct.
Proof.
  estart 1. unfold opSelfdestruct, ok, fail. do 3 fstep; [repeat fstep; edone|]. do 5 fstep.
  estate GetBalance_safe. intros [v [e|]] s (Hs & Hv); cbn [fst snd] in *; [repeat fstep; edone'|].
  fstep. estate AddBalance_safe. intros ? s1 Hs1. fstep. estate Selfdestruct_safe.
  intros ? s2 Hs2. repeat fstep. edone'.
Qed.
Lemma opSelfdestruct6780_safe : halt_safe 1 None opSelfdestruct6780.
Proof.
  estart 1. unfold opSelfdestruct6780, ok, fail. do 3 fstep; [repeat fstep; edone|]. do 5 fstep.
  estate GetBalance_safe. intros [v [e|]] s (Hs & Hv); cbn [fst snd] in *; [repeat fstep; edone'|].
  fstep. estate SubBalance_safe. intros ? s1 Hs1. fstep. estate AddBalance_safe.
  intros ? s2 Hs2. fstep. estate Selfdestruct6780_safe. intros ? s3 Hs3. repeat fstep. edone'.
Qed.

(** ** Logs *)

Lemma popTopics_ok k p st m c w Q :
  (k <= length st)%nat -> Forall is_u256 st ->
  (forall ts, Q ts (mkFrame p (drop k st) m c w)) ->
  wp tol (popTopics k) (mkFrame p st m c w) Q.
Proof.
  revert st Q. induction k as [|k IH]; intros st Q Hk Hst HQ; [apply (HQ [])|].
  destruct st as [|d st]; [simpl in Hk; lia|]. apply Forall_cons in Hst. destruct Hst as [Hd Hst].
  cbn [popTopics]. do 3 fstep. apply IH; [simpl in Hk; lia|assumption|]. intros ts. fstep. apply HQ.
Qed.

Lemma makeLog_safe k : mem_safe (2 + Z.of_nat k) 0 memoryLog (makeLog k).
Proof.
  intros ip p st m c w Hip Hn Hst Hp Hin Hm Hcov Hc Hw.
  destruct st as [|z st]; [unfold zlen in Hn; simpl in Hn; lia|].
  destruct st as [|z0 st]; [unfold zlen in Hn; simpl in Hn; lia|].
  rewrite !Forall_cons in Hst. destruct Hst as (H & H0 & Hst).
  destruct (cov_pair 0 1 _ m z z0 Hcov) as (Hin' & Hl & El); try done.
  destruct (GetCopy_ok m (u_Uint64 z) (u_Uint64 z0)) as (d & Ed & Hd);
    [by apply mem_ok_u64|by apply Uint64_nonneg|exact Hin'|].
  unfold makeLog, ok, fail. do 3 fstep; [repeat fstep; edone|]. do 5 fstep.
  apply popTopics_ok; [unfold zlen in Hn; simpl in Hn; lia|assumption|]. intros ts. fstep.
  eapply wp_m_read; [exact Ed|]. do 3 fstep. estate AddLog_safe. intros ? s Hs. repeat fstep.
  apply mkExecPost; cbn; try done; [|unfold no_extra; lia|].
  - apply mkFrameOk; cbn; try assumption; [by apply Forall_drop|ewo].
  - intros _. split; [reflexivity|]. unfold zlen in *. simpl in *. rewrite length_drop. lia.
Qed.

(** ** Push, dup and swap *)

Lemma opPush1_safe : pure_safe 0 1 opPush1.
Proof.
  estart 0. unfold opPush1, ok. do 8 fstep.
  - apply Z.ltb_lt in Heqb. destruct (go_index_val (Code c) (u64 (p + 1))) as (b & E & _);
      [pose proof (u64_range (p + 1)) as [? _]; lia|].
    fstep. eapply wp_lift; [exact E|]. repeat fstep. pose proof (byteZ_range b). edone.
  - repeat fstep. edone.
Qed.

(** The position of a push instruction lies inside the code, so the immediates'
    positions do not wrap. *)
Abbreviation push_safe e := (exec_safe code_of tol 0 1 None no_extra false true e).

Lemma push_pc p c : is_u64 p -> contract_ok code_of c -> (true = true -> p < zlen (Code c)) ->
  0 <= p < zlen (Code c) /\ zlen (Code c) < 281474976710656.
Proof. intros Hp Hc H. pose proof (co_code _ _ Hc). specialize (H eq_refl). unfold go_len, is_u64 in *. lia. Qed.

Lemma opPush2_safe : push_safe opPush2.
Proof.
  estart 0. unfold opPush2, ok. destruct (push_pc p c Hp Hc Hin) as [Hpc Hlen].
  do 4 fstep.
  rewrite !u64_id by (unfold is_u64, two64; lia). apply wp_bind. fstep; [|fstep].
  - apply Z.ltb_lt in Heqb. fstep. eapply wp_lift; [apply go_slice_val; lia|]. repeat fstep.
    match goal with |- context [u_SetBytes ?l] => assert (is_u256 (u_SetBytes l)) end.
    { apply SetBytes_range. rewrite length_take. lia. }
    edone.
  - apply Z.ltb_lt in Heqb0. destruct (go_index_val (Code c) (p + 1)) as (b & E & _); [lia|].
    fstep. eapply wp_lift; [exact E|]. repeat fstep. edone.
  - repeat fstep. edone.
Qed.

Lemma makePush_safe size n : 0 <= n <= 32 -> push_safe (makePush size n).
Proof.
  intros Hs. estart 0. unfold makePush, ok. destruct (push_pc p c Hp Hc Hin) as [Hpc Hlen].
  do 4 fstep. rewrite (u64_id (p + 1)) by (unfold is_u64, two64; lia).
  rewrite (i64_id (p + 1)) by lia.
  set (start := if zlen (Code c) <=? p + 1 then zlen (Code c) else p + 1).
  assert (Hstart : 0 <= start <= zlen (Code c)) by (unfold start; zbool; lia).
  rewrite !(i64_id (start + n)) by lia.
  set (end_ := if zlen (Code c) <=? start + n then zlen (Code c) else start + n).
  assert (Hend : start <= end_ <= zlen (Code c) /\ end_ <= start + n) by (unfold end_; zbool; lia).
  fstep. eapply wp_lift; [apply go_slice_val; lia|]. repeat fstep.
  match goal with |- context [u_SetBytes ?l] => assert (is_u256 (u_SetBytes l)) end.
  { apply SetBytes_range. pose proof (zlen_slice (Code c) start end_ ltac:(lia) ltac:(lia)) as Hz.
    match goal with |- (length (RightPadBytes ?b ?k) <= _)%nat => pose proof (zlen_RightPadBytes b k) as Hr end.
    unfold zlen in Hr, Hz. lia. }
  edone.
Qed.

Lemma makeDup_safe n : 1 <= n -> pure_safe n (n + 1) (makeDup n).
Proof.
  intros Hn1. intros ip p st m c w Hip Hn Hst Hp Hin Hm Hcov Hc Hw. unfold makeDup, ok.
  destruct (go_index_val st (n - 1)) as (d & E & El); [lia|]. fstep.
  eapply wp_s_lift; [cbn [stk]; unfold dup; rewrite E; reflexivity|]. repeat fstep.
  assert (is_u256 d) by (eapply Forall_lookup_1; eauto). edone.
Qed.

(** All sixteen swaps at once. *)
Lemma opSwap_safe (n : nat) : (1 <= n)%nat ->
  pure_safe (Z.of_nat n + 1) (Z.of_nat n + 1) (fun _ => _ ← s_lift (swap_at n); ok).
Proof.
  intros Hn1 ip p st m c w Hip Hn Hst Hp Hin Hm Hcov Hc Hw. unfold ok.
  destruct (swap_at_ok n st) as (d & t & _ & _ & E); [unfold zlen in Hn; lia|]. fstep.
  eapply wp_s_lift; [exact E|]. repeat fstep.
  destruct (swap_at_forall is_u256 n st _ E Hst) as [Hf Hlen].
  apply mkExecPost; cbn; try done; try (unfold no_extra; lia).
  intros _. split; [reflexivity|]. unfold zlen. rewrite Hlen. lia.
Qed.

End StateOps.

Section Calls.
Context {U : Uint256} {US : Uint256Spec U} {K : Keccak} {KS : KeccakSpec K} {DB : StateDB}
  {DS : StateDBSafe DB} {L : LRU} {LS : LRUSpec L} {BF : BlobFork} (code_of : Z -> bytes) (tol : Prop).

(** What a call instruction may get back: the gas set aside for it and, when it
    transfers value, the stipend. *)
Definition extra_call : World -> stack -> Z := fun w _ => callGasTemp w.
Definition extra_call_value : World -> stack -> Z := fun w st =>
  callGasTemp w + if transfers st then CallStipend else 0.

Lemma u64_le z : 0 <= z -> 0 <= u64 z <= z.
Proof.
  intros H. pose proof (u64_range z) as [H0 _]. split; [exact H0|].
  unfold u64. apply Z.mod_le; [assumption|reflexivity].
Qed.

Lemma RefundGas_ok c left :
  contract_ok code_of c -> 0 <= left ->
  contract_ok code_of (RefundGas left c) /\ Gas (RefundGas left c) <= Gas c + left /\
  Code (RefundGas left c) = Code c.
Proof.
  intros Hc Hl. unfold RefundGas. destruct (left =? 0); [split; [assumption|split; [lia|done]]|].
  split; [apply contract_ok_gas; [assumption|apply u64_range]|].
  pose proof (co_gas _ _ Hc) as [Hg _]. cbn. split; [apply u64_le; lia|done].
Qed.

(** The common tail of the call instructions. *)
Lemma finishCall_ok n k st0 p st m c w0 w gas retOffset retSize r extra :
  contract_ok code_of c -> is_u64 p -> Forall is_u256 st -> mem_ok m ->
  call_post code_of w0 gas r.1.1 r.1.2 w -> gas <= extra ->
  in_mem m (u_Uint64 retOffset) (u_Uint64 retSize) -> is_u256 retSize ->
  1 + zlen st = zlen st0 - n + k ->
  wp tol (finishCall retOffset retSize r) (mkFrame p st m c w)
    (exec_post code_of n k st0 c w0 extra false).
Proof.
  intros Hc Hp Hst Hm (Hw & Hret & Hleft & Hro & Hdep) Hex Hin Hrs Hlen.
  destruct r as [[ret left] err]. cbn [fst snd] in *. unfold finishCall, setReturnData, refundGas.
  destruct (RefundGas_ok c left Hc ltac:(lia)) as (Hc' & Hgas & Hcode).
  assert (Hend : forall m', mem_ok m' ->
    wp tol (_ ← modify (fun f => with_contract f (RefundGas left (contract f)));
             _ ← onWorld (modify (fun w => with_returnData w ret)); mret (ret, None))
      (mkFrame p ((if bool_decide (err <> None) then 0 else 1) :: st) m' c w)
      (exec_post code_of n k st0 c w0 extra false)).
  { intros m' Hm'. do 3 fstep. apply wp_onWorld. repeat fstep.
    apply mkExecPost; cbn; try assumption; try done; [|lia|].
    - apply mkFrameOk; cbn; try assumption; [|by apply world_ok_returnData].
      apply Forall_cons. split; [case_match; done|assumption].
    - intros _. split; [reflexivity|]. rewrite zlen_cons. lia. }
  do 3 fstep. fstep; [|fstep; by apply Hend].
  destruct (Set_ok m (u_Uint64 retOffset) (u_Uint64 retSize) ret) as (m' & E & HL & Hg);
    [by apply mem_ok_u64|by apply Uint64_nonneg|assumption|].
  eapply wp_m_write; [exact E|]. apply Hend. by eapply mem_ok_same_len.
Qed.

Ltac call_args Hcov o1 s1 :=
  match goal with m : Memory |- _ =>
    destruct (GetPtr_ok m (u_Uint64 o1) (u_Uint64 s1)) as (args & Eargs & _);
      [by apply mem_ok_u64|by apply Uint64_nonneg|assumption|] end.

Lemma opDelegateCall_safe :
  exec_safe code_of tol 6 1 (Some memoryDelegateCall) extra_call false false opDelegateCall.
Proof.
  estart 6. unfold opDelegateCall.
  destruct (cov_two 4 5 2 3 _ m z3 z4 z1 z2 Hcov) as ((Hin1 & _) & (Hin2 & _)); try done.
  call_args Hcov z1 z2. do 15 fstep. eapply wp_m_read; [exact Eargs|]. do 3 fstep.
  apply wp_onWorld. eapply wp_mono; [apply (ok_DelegateCall _ _ _ (io_calls _ _ _ Hip)); [assumption|apply Hw]|].
  intros r w' Hr. apply (finishCall_ok _ _ _ _ _ _ _ w w' (callGasTemp w)); try assumption; [done|].
  cbn [stk]. rewrite !zlen_cons. lia.
Qed.

Lemma opStaticCall_safe :
  exec_safe code_of tol 6 1 (Some memoryStaticCall) extra_call false false opStaticCall.
Proof.
  estart 6. unfold opStaticCall.
  destruct (cov_two 4 5 2 3 _ m z3 z4 z1 z2 Hcov) as ((Hin1 & _) & (Hin2 & _)); try done.
  call_args Hcov z1 z2. do 15 fstep. eapply wp_m_read; [exact Eargs|]. do 3 fstep.
  apply wp_onWorld. eapply wp_mono; [apply (ok_StaticCall _ _ _ (io_calls _ _ _ Hip)); [assumption|apply Hw]|].
  intros r w' Hr. apply (finishCall_ok _ _ _ _ _ _ _ w w' (callGasTemp w)); try assumption; [done|].
  cbn [stk]. rewrite !zlen_cons. lia.
Qed.

Lemma stipend_ok w z z0 v st :
  is_u256 v -> world_ok code_of w ->
  let gas := if negb (u_IsZero v) then u64 (callGasTemp w + CallStipend) else callGasTemp w in
  is_u64 gas /\ gas <= extra_call_value w (z :: z0 :: v :: st).
Proof.
  intros Hv Hw. pose proof (wo_temp _ _ Hw) as Ht. unfold extra_call_value.
  rewrite (transfers_eq (z :: z0 :: v :: st) v) by done. destruct (negb (u_IsZero v)).
  - split; [apply u64_range|]. apply u64_le. zlia.
  - split; [assumption|lia].
Qed.

Lemma opCallCode_safe :
  exec_safe code_of tol 7 1 (Some memoryCall) extra_call_value false false opCallCode.
Proof.
  estart 7. unfold opCallCode.
  destruct (cov_two 5 6 3 4 _ m z4 z5 z2 z3 Hcov) as ((Hin1 & _) & (Hin2 & _)); try done.
  destruct (stipend_ok w z z0 z1 (z2 :: z3 :: z4 :: z5 :: st)) as [Hg Hle]; try assumption.
  call_args Hcov z2 z3. do 17 fstep. eapply wp_m_read; [exact Eargs|]. do 3 fstep.
  apply wp_onWorld. eapply wp_mono; [apply (ok_CallCode _ _ _ (io_calls _ _ _ Hip)); [assumption|assumption|exact Hg]|].
  intros r w' Hr. eapply (finishCall_ok _ _ _ _ _ _ _ w w'); try eassumption; [exact Hr|].
  cbn [stk]. rewrite !zlen_cons. lia.
Qed.

Lemma opCall_safe :
  exec_safe code_of tol 7 1 (Some memoryCall) extra_call_value false false opCall.
Proof.
  estart 7. unfold opCall, fail.
  destruct (cov_two 5 6 3 4 _ m z4 z5 z2 z3 Hcov) as ((Hin1 & _) & (Hin2 & _)); try done.
  destruct (stipend_ok w z z0 z1 (z2 :: z3 :: z4 :: z5 :: st)) as [Hg Hle]; try assumption.
  call_args Hcov z2 z3. do 17 fstep. eapply wp_m_read; [exact Eargs|]. fstep.
  { fstep. apply mkExecPost; cbn; try assumption; try done. destruct Hg. lia. }
  do 3 fstep.
  apply wp_onWorld. eapply wp_mono; [apply (ok_Call _ _ _ (io_calls _ _ _ Hip)); [assumption|assumption|exact Hg]|].
  intros r w' Hr. eapply (finishCall_ok _ _ _ _ _ _ _ w w'); try eassumption; [exact Hr|].
  cbn [stk]. rewrite !zlen_cons. lia.
Qed.

(** [UseGas] of part of the gas always succeeds. *)
Lemma wp_useGas_part p st m c w gas Q :
  gas <= Gas c -> Q true (mkFrame p st m (with_Gas c (Gas c - gas)) w) ->
  wp tol (useGas gas) (mkFrame p st m c w) Q.
Proof.
  intros Hg HQ. unfold wp, useGas, UseGas. cbn [contract].
  destruct (Z.ltb_spec (Gas c) gas); [lia|]. exact HQ.
Qed.

(** The common tail of the create instructions: [c] has [gas] less than [c0]. *)
Lemma finishCreate_ok n k st0 p st m c0 w0 w gas res left (suberr : option Error) :
  contract_ok code_of c0 -> 0 <= gas <= Gas c0 -> is_u64 p -> Forall is_u256 st -> mem_ok m ->
  call_post code_of w0 gas res left w -> zlen st = zlen st0 - n + k ->
  wp tol (_ ← refundGas left;
           if err_is suberr ErrExecutionReverted then _ ← setReturnData res; mret (res, None)
           else _ ← setReturnData []; ok)
    (mkFrame p st m (with_Gas c0 (Gas c0 - gas)) w)
    (exec_post code_of n k st0 c0 w0 0 false).
Proof.
  intros Hc Hg Hp Hst Hm (Hw & Hret & Hleft & Hro & Hdep) Hlen.
  assert (Hc1 : contract_ok code_of (with_Gas c0 (Gas c0 - gas))).
  { apply contract_ok_gas; [assumption|]. pose proof (co_gas _ _ Hc). zlia. }
  destruct (RefundGas_ok _ left Hc1 ltac:(lia)) as (Hc' & Hgas & Hcode). cbn [Gas with_Gas] in Hgas.
  unfold refundGas, setReturnData, ok. do 3 fstep.
  all: fstep; apply wp_onWorld; repeat fstep; apply mkExecPost; cbn; try assumption; try done; try lia.
  all: try (apply mkFrameOk; cbn; try assumption; by apply world_ok_returnData).
Qed.

Lemma opCreate_safe :
  exec_safe code_of tol 3 1 (Some memoryCreate) no_extra false false opCreate.
Proof.
  estart 3. unfold opCreate, fail. do 3 fstep; [repeat fstep; edone|].
  destruct (cov_pair 1 2 _ m z0 z1 Hcov) as (Hin' & _); try done.
  destruct (GetCopy_ok m (u_Uint64 z0) (u_Uint64 z1)) as (d & Ed & _);
    [by apply mem_ok_u64|by apply Uint64_nonneg|exact Hin'|].
  do 7 fstep. eapply wp_m_read; [exact Ed|]. do 3 fstep.
  set (gas := if IsTangerineWhistle _ then _ else _).
  pose proof (co_gas _ _ Hc) as Hg0.
  assert (Hg : 0 <= gas <= Gas c).
  { unfold gas. pose proof (Z.div_mod (Gas c) 64 ltac:(lia)). pose proof (Z.mod_pos_bound (Gas c) 64 ltac:(lia)).
    unfold is_u64 in Hg0. case_match; lia. }
  apply wp_useGas_part; [lia|]. do 3 fstep. apply wp_onWorld.
  eapply wp_mono; [apply (ok_Create _ _ _ (io_calls _ _ _ Hip)); [assumption|assumption|zlia]|].
  intros [[[res addr] left] suberr] w' [Hr Ha]. cbn [fst snd] in Hr, Ha. cbn beta iota.
  cbn [with_world pc stk mem contract world] in *. apply wp_bind.
  assert (Hpoke : exists v, is_u256 v /\
    (if IsHomestead (chainRules (env ip)) && err_is suberr ErrCodeStoreOutOfGas then s_poke 0
     else if bool_decide (suberr <> None) && negb (err_is suberr ErrCodeStoreOutOfGas)
          then s_poke 0 else s_poke addr) = s_poke v).
  { repeat case_match; [exists 0|exists 0|exists addr]; split; try reflexivity; try assumption; done. }
  destruct Hpoke as (v & Hv & ->). fstep.
  apply finishCreate_ok; try assumption; [by apply Forall_cons|rewrite !zlen_cons; lia].
Qed.

Lemma opCreate2_safe :
  exec_safe code_of tol 4 1 (Some memoryCreate2) no_extra false false opCreate2.
Proof.
  estart 4. unfold opCreate2, fail. do 3 fstep; [repeat fstep; edone|].
  destruct (cov_pair 1 2 _ m z0 z1 Hcov) as (Hin' & _); try done.
  destruct (GetCopy_ok m (u_Uint64 z0) (u_Uint64 z1)) as (d & Ed & _);
    [by apply mem_ok_u64|by apply Uint64_nonneg|exact Hin'|].
  do 9 fstep. eapply wp_m_read; [exact Ed|]. do 3 fstep.
  set (gas := Gas c - Gas c / 64). pose proof (co_gas _ _ Hc) as Hg0.
  assert (Hg : 0 <= gas <= Gas c).
  { unfold gas. pose proof (Z.div_mod (Gas c) 64 ltac:(lia)). pose proof (Z.mod_pos_bound (Gas c) 64 ltac:(lia)).
    unfold is_u64 in Hg0. lia. }
  apply wp_useGas_part; [lia|]. do 3 fstep. apply wp_onWorld.
  eapply wp_mono; [apply (ok_Create2 _ _ _ (io_calls _ _ _ Hip)); [assumption|assumption|assumption|zlia]|].
  intros [[[res addr] left] suberr] w' [Hr Ha]. cbn [fst snd] in Hr, Ha. cbn beta iota.
  cbn [with_world pc stk mem contract world] in *. do 2 fstep.
  apply finishCreate_ok; try assumption; [|rewrite !zlen_cons; lia].
  apply Forall_cons. split; [case_match; [done|assumption]|assumption].
Qed.

End Calls.
