(* ===== verification/TableSafe.v ===== *)
(** * The instruction sets are safe

    Each entry of each fork's jump table is consistent: its stack arities, its
    memory-size function, its gas function and its instruction fit together
    ([op_ok]). The proof follows the construction of the tables: the frontier
    literal, then the edits each fork makes; a [pin] records what later edits rely
    on at an index. *)

From S2P Require Import Machine GasTable Instructions JumpTable MemoryGas FrameOk GasSafe ExecSafe.
Import params.

(** ** Automation

    One hint per instruction; [op_entry] closes the [op_ok] goal of a table entry. *)

Create HintDb opsafe.
#[export] Hint Constants Opaque : opsafe.
#[export] Hint Resolve opAdd_safe opSub_safe opMul_safe opDiv_safe opSdiv_safe opMod_safe opSmod_safe opExp_safe
  opSignExtend_safe opNot_safe opLt_safe opGt_safe opSlt_safe opSgt_safe opEq_safe
  opIszero_safe opAnd_safe opOr_safe opXor_safe opByte_safe opAddmod_safe opMulmod_safe
  opSHL_safe opSHR_safe opSAR_safe opCLZ_safe opPop_safe opJumpdest_safe opPush0_safe
  opKeccak256_safe opAddress_safe opCaller_safe opOrigin_safe opCallValue_safe
  opGasprice_safe opBaseFee_safe opBlobBaseFee_safe opCoinbase_safe opTimestamp_safe
  opNumber_safe opGasLimit_safe opDifficulty_safe opChainID_safe opBlockhash_safe
  opBlobHash_safe opCallDataSize_safe opCodeSize_safe opReturnDataSize_safe opPc_safe
  opMsize_safe opGas_safe opCallDataCopy_safe opCodeCopy_safe opExtCodeCopy_safe
  opReturnDataCopy_safe opCallDataLoad_safe opMload_safe opMstore_safe opMstore8_safe
  opMcopy_safe opReturn_safe opRevert_safe opStop_safe opUndefined_safe opJump_safe
  opJumpi_safe opBalance_safe opSelfBalance_safe opExtCodeSize_safe opExtCodeHash_safe
  opSload_safe opTload_safe opSstore_safe opTstore_safe opSelfdestruct_safe
  opSelfdestruct6780_safe opPush1_safe opPush2_safe opDelegateCall_safe opStaticCall_safe
  opCallCode_safe opCall_safe opCreate_safe opCreate2_safe : opsafe.
#[export] Hint Extern 1 (exec_safe _ _ _ _ _ _ _ _ (makePush _ _)) => apply makePush_safe; lia : opsafe.
#[export] Hint Extern 1 (exec_safe _ _ _ _ _ _ _ _ (makeDup ?n)) =>
  exact (makeDup_safe _ _ n ltac:(lia)) : opsafe.
#[export] Hint Extern 1 (exec_safe _ _ _ _ _ _ _ _ (makeLog ?n)) => exact (makeLog_safe _ _ n) : opsafe.

Section TableSafe.
Context {U : Uint256} {US : Uint256Spec U} {K : Keccak} {KS : KeccakSpec K} {DB : StateDB}
  {DS : StateDBSafe DB} {L : LRU} {LS : LRUSpec L} {BF : BlobFork} (code_of : Z -> bytes) (tol : Prop).
Context (e150 : bool).

(** What the instruction at an opcode may add to the gas: only calls return any. *)
Definition extra_of (i : Z) : World -> stack -> Z :=
  if (i =? OpCode.CALL) || (i =? OpCode.CALLCODE) then extra_call_value
  else if (i =? OpCode.DELEGATECALL) || (i =? OpCode.STATICCALL) then extra_call
  else no_extra.

Definition extra_at (i : Z) (o : operation) : World -> stack -> Z :=
  if isSome (dynamicGas o) then extra_of i else no_extra.

Definition plus1 (lo : World -> stack -> Z) : World -> stack -> Z := fun w st => lo w st + 1.

(** Executing the operation, after its gas was charged. *)
Definition op_exec (halts : bool) (i : Z) (o : operation) : Prop :=
  exists incode, (incode = true -> i <> OpCode.STOP) /\
    exec_safe code_of tol (numPop o) (numPush o) (memorySize o) (extra_at i o) halts incode (execute o).

Definition op_gas (lo : World -> stack -> Z) (o : operation) : Prop :=
  forall g, dynamicGas o = Some g ->
    gas_safe code_of (numPop o) (isSome (memorySize o)) e150 lo g.

Record op_ok (i : Z) (o : operation) : Prop := mkOpOk {
  oo_arity : 0 <= numPop o <= 100 /\ 0 <= numPush o <= 100;
  oo_const : is_u64 (constantGas o);
  oo_ms g : memorySize o = Some g -> ms_safe (numPop o) g /\ isSome (dynamicGas o) = true;
  oo_gas : op_gas (extra_of i) o;
  oo_exec : op_exec false i o;
  (* the loop makes progress: the operation stops it, or costs something *)
  oo_progress : op_exec true i o \/ 1 <= constantGas o \/
                (isSome (dynamicGas o) = true /\ op_gas (plus1 (extra_of i)) o)
}.

(** ** Tables *)

Definition pin : Type := option (Z * bool * Z).
Definition pins : Type := Z -> pin.
Definition pin_ok (x : pin) (o : operation) : Prop :=
  match x with
  | None => True
  | Some (n, h, k) => numPop o = n /\ isSome (memorySize o) = h /\ k <= constantGas o
  end.
Definition no_pins : pins := fun _ => None.
Definition pin_set (i : Z) (x : Z * bool * Z) (r : pins) : pins :=
  fun j => if j =? i then Some x else r j.

Definition jt_ok (r : pins) (jt : list (option operation)) : Prop :=
  length jt = 256%nat /\
  forall i, 0 <= i < 256 -> exists o, jt !! Z.to_nat i = Some (Some o) /\ op_ok i o /\ pin_ok (r i) o.

(** The maximum stack lengths are filled in. *)
Definition jt_filled (jt : list (option operation)) : Prop :=
  forall i o, jt !! i = Some (Some o) -> maxStack o = StackLimit + numPop o - numPush o.

Lemma op_ok_maxStack i o m : op_ok i o -> op_ok i (with_maxStack m o).
Proof. intros []. split; assumption. Qed.

Lemma pin_ok_maxStack x o m : pin_ok x o -> pin_ok x (with_maxStack m o).
Proof. destruct x as [[[? ?] ?]|]; exact (fun H => H). Qed.

Lemma maxStack_small n k : 0 <= n <= 100 -> 0 <= k <= 100 ->
  stack_table.maxStack n k = StackLimit + n - k.
Proof. intros. unfold stack_table.maxStack. change StackLimit with 1024. rewrite (i64_id (1024 + n)) by lia. rewrite i64_id by lia. reflexivity. Qed.

(** Every entry of a list of operations is set and [P]; shifted indices. *)
Lemma validate_spec (P : nat -> operation -> Prop) : forall jt : list (option operation),
  (forall i e, jt !! i = Some e -> exists o, e = Some o /\ P i o /\
     (0 <= numPop o <= 100 /\ 0 <= numPush o <= 100) /\
     (isSome (memorySize o) = true -> isSome (dynamicGas o) = true)) ->
  exists jt' : list (option operation), validateAndFillMaxStack jt = Val jt' /\ length jt' = length jt /\
    (forall i o', jt' !! i = Some o' -> exists o, jt !! i = Some (Some o) /\
       o' = Some (with_maxStack (StackLimit + numPop o - numPush o) o)).
Proof.
  intros jt. revert P. induction jt as [|e jt IH]; intros P H.
  - exists []. split; [reflexivity|]. split; [reflexivity|]. intros i o' E. discriminate.
  - destruct (H 0%nat e eq_refl) as (o & -> & _ & [Ha Hb] & Hm). cbn [validateAndFillMaxStack].
    destruct (IH (fun i => P (S i))) as (jt' & E & Hlen & Hall).
    { intros i e E. apply (H (S i) e E). }
    rewrite E. replace (isSome (memorySize o) && negb (isSome (dynamicGas o))) with false
      by (destruct (isSome (memorySize o)); [rewrite Hm by reflexivity|]; reflexivity).
    eexists. split; [reflexivity|]. split; [simpl; congruence|].
    intros [|i] o' Ei; [|by apply Hall]. exists o. split; [reflexivity|]. injection Ei as <-.
    rewrite maxStack_small by assumption. reflexivity.
Qed.

Lemma validate_ok r jt : jt_ok r jt ->
  exists jt', validateAndFillMaxStack jt = Val jt' /\ jt_ok r jt' /\ jt_filled jt'.
Proof.
  intros [Hlen H]. destruct (validate_spec (fun _ _ => True) jt) as (jt' & E & Hlen' & Hall).
  - intros i e Ei. pose proof (lookup_lt_Some _ _ _ Ei) as Hi.
    destruct (H (Z.of_nat i) ltac:(lia)) as (o & Eo & Ho & _). rewrite Nat2Z.id in Eo.
    exists o. split; [congruence|]. split; [exact I|]. split; [apply (oo_arity _ _ Ho)|].
    intros Hm. destruct (memorySize o) as [g|] eqn:Em; [|discriminate]. by apply (oo_ms _ _ Ho g).
  - exists jt'. split; [exact E|]. split; [split; [congruence|]|].
    + intros i Hi. destruct (H i Hi) as (o & Eo & Ho & Hp).
      destruct (lookup_lt_is_Some_2 jt' (Z.to_nat i)) as [o' Eo']; [lia|].
      destruct (Hall _ _ Eo') as (o1 & Eo1 & ->). assert (o1 = o) as -> by congruence.
      eexists. split; [exact Eo'|]. split; [by apply op_ok_maxStack|by apply pin_ok_maxStack].
    + intros i o Ei. destruct (Hall _ _ Ei) as (o1 & _ & [= ->]). reflexivity.
Qed.

Lemma jt_set_ok r i o jt x :
  jt_ok r jt -> 0 <= i < 256 -> op_ok i o -> pin_ok (Some x) o ->
  exists jt', jt_set i o jt = Val jt' /\ jt_ok (pin_set i x r) jt'.
Proof.
  unfold JumpTable in *. intros [Hlen H] Hi Ho Hp. exists (<[Z.to_nat i := Some o]> jt). split; [reflexivity|].
  split; [by rewrite length_insert|].
  intros j Hj. unfold pin_set. destruct (Z.eqb_spec j i) as [->|Hne].
  - exists o. rewrite list_lookup_insert_eq by lia. auto.
  - rewrite list_lookup_insert_ne by lia. apply H. exact Hj.
Qed.

Lemma jt_set_nopin r i o jt :
  jt_ok r jt -> 0 <= i < 256 -> op_ok i o -> r i = None ->
  exists jt', jt_set i o jt = Val jt' /\ jt_ok r jt'.
Proof.
  unfold JumpTable in *. intros [Hlen H] Hi Ho Hp. exists (<[Z.to_nat i := Some o]> jt). split; [reflexivity|].
  split; [by rewrite length_insert|].
  intros j Hj. destruct (Z.eq_dec j i) as [->|Hne].
  - exists o. rewrite list_lookup_insert_eq by lia. rewrite Hp. done.
  - rewrite list_lookup_insert_ne by lia. apply H. exact Hj.
Qed.

Lemma jt_upd_ok r i g jt :
  jt_ok r jt -> 0 <= i < 256 ->
  (forall o, op_ok i o -> pin_ok (r i) o -> op_ok i (g o) /\ pin_ok (r i) (g o)) ->
  exists jt', jt_upd i g jt = Val jt' /\ jt_ok r jt'.
Proof.
  unfold JumpTable in *. intros [Hlen H] Hi Hg. destruct (H i Hi) as (o & E & Ho & Hp). unfold jt_upd, JumpTable. rewrite E.
  exists (<[Z.to_nat i := Some (g o)]> jt). split; [reflexivity|]. split; [by rewrite length_insert|].
  intros j Hj. destruct (Z.eq_dec j i) as [->|Hne].
  - exists (g o). rewrite list_lookup_insert_eq by lia. split; [reflexivity|]. by apply Hg.
  - rewrite list_lookup_insert_ne by lia. apply H. exact Hj.
Qed.

(** Two writes through the same pointer. *)
Lemma jt_upd_twice i g h (jt : list (option operation)) :
  (jt_upd i g jt ≫= jt_upd i h) = jt_upd i (fun o => h (g o)) jt.
Proof.
  unfold jt_upd, JumpTable. destruct (jt !! Z.to_nat i) as [[o|]|] eqn:E; try reflexivity.
  cbn [mbind Res_bind mret Res_ret]. pose proof (lookup_lt_Some _ _ _ E) as Hi.
  pose proof (list_lookup_insert_eq jt (Z.to_nat i) (Some (g o)) Hi) as ->.
  by rewrite list_insert_insert_eq.
Qed.

(** ** Entries *)

Lemma exec_safe_mono n k ms extra extra' halts halts' incode e :
  exec_safe code_of tol n k ms extra halts incode e ->
  (halts' = true -> halts = true) ->
  (forall w st, world_ok code_of w -> extra w st <= extra' w st) ->
  exec_safe code_of tol n k ms extra' halts' incode e.
Proof.
  intros H Hh Hx ip p st m c w Hip Hn Hst Hp Hin Hm Hcov Hc Hw.
  eapply wp_mono; [by apply H|]. intros r f [? ? ? ? ? ? Hnext]. specialize (Hx w st Hw).
  split; try assumption; [lia|]. intros Hr. destruct (Hnext Hr) as [-> ?].
  split; [destruct halts'; [discriminate (Hh eq_refl)|reflexivity]|assumption].
Qed.

Lemma extra_of_nonneg i w st : world_ok code_of w -> 0 <= extra_of i w st.
Proof.
  intros Hw. pose proof (wo_temp _ _ Hw) as [Ht _]. unfold extra_of.
  destruct (_ || _); [unfold extra_call_value; case_match; unfold CallStipend; lia|].
  destruct (_ || _); [exact Ht|reflexivity].
Qed.

Lemma op_exec_intro i o extra halts halts' incode :
  exec_safe code_of tol (numPop o) (numPush o) (memorySize o) extra halts incode (execute o) ->
  (incode = true -> i <> OpCode.STOP) -> (halts' = true -> halts = true) ->
  (forall w st, world_ok code_of w -> extra w st <= extra_at i o w st) -> op_exec halts' i o.
Proof. intros H Hi Hh Hx. exists incode. split; [exact Hi|]. by eapply exec_safe_mono. Qed.

(** An operation with a constant price. *)
Lemma op_ok_plain i e g n k incode :
  exec_safe code_of tol n k None no_extra false incode e -> (incode = true -> i <> OpCode.STOP) ->
  0 <= n <= 100 -> 0 <= k <= 100 -> is_u64 g -> 1 <= g -> op_ok i (op_ e g None n k None).
Proof.
  intros He Hi Hn Hk Hg H1. split; cbn; auto; try discriminate.
  eapply op_exec_intro; eauto. reflexivity.
Qed.

(** An operation that always stops the loop. *)
Lemma op_ok_halt i e n incode :
  exec_safe code_of tol n 0 None no_extra true incode e -> (incode = true -> i <> OpCode.STOP) ->
  0 <= n <= 100 -> op_ok i (op_ e 0 None n 0 None).
Proof.
  intros He Hi Hn. split; cbn; auto; try discriminate; try done.
  - eapply op_exec_intro; eauto; try discriminate; reflexivity.
  - left. eapply op_exec_intro; eauto. reflexivity.
Qed.

(** Gas functions at an index that is not a call: a constant lower bound. *)
Lemma gas_at n n' h h' e lo g i k :
  gas_safe code_of n h e (lo_const lo) g -> n <= n' -> (h = false -> h' = false) ->
  (e = true -> e150 = true) -> extra_of i = no_extra -> k <= lo ->
  gas_safe code_of n' h' e150 (fun w st => extra_of i w st + k) g.
Proof.
  intros H Hn Hh He Hx Hk. eapply gas_safe_mono; eauto. intros w st _. rewrite Hx. exact Hk.
Qed.

Lemma gas_safe_ext n h e lo lo' g :
  gas_safe code_of n h e lo g -> (forall w st, lo' w st = lo w st) -> gas_safe code_of n h e lo' g.
Proof. intros H Hl. eapply gas_safe_mono; eauto; [lia|]. intros w st _. rewrite Hl. lia. Qed.

Lemma op_ok_dyn i e cg d n k ms n' h lo extra :
  extra_of i = no_extra -> gas_safe code_of n' h false (lo_const lo) d -> n' <= n ->
  (h = false -> isSome ms = false) -> 0 <= lo -> 1 <= cg \/ 1 <= lo ->
  exec_safe code_of tol n k ms extra false false e -> extra = no_extra ->
  (forall g, ms = Some g -> ms_safe n g) ->
  0 <= n <= 100 -> 0 <= k <= 100 -> is_u64 cg -> op_ok i (op_ e cg (Some d) n k ms).
Proof.
  intros Hx Hg Hnn Hh Hlo H1 He -> Hms Hn Hk Hcg. split; cbn; auto.
  - intros g [= <-]. eapply gas_safe_ext; [apply (gas_at n' n h (isSome ms) false lo d i 0); auto; discriminate|].
    intros. cbn. lia.
  - eapply op_exec_intro; eauto; try discriminate. intros. unfold extra_at. cbn. rewrite Hx. reflexivity.
  - right. destruct H1 as [H1|H1]; [by left|right]. split; [reflexivity|]. intros g [= <-].
    apply (gas_at n' n h (isSome ms) false lo d i 1); auto; discriminate.
Qed.

Lemma op_ok_dyn_halt i e cg d n ms n' h :
  extra_of i = no_extra -> gas_safe code_of n' h false (lo_const 0) d -> n' <= n ->
  (h = false -> isSome ms = false) ->
  exec_safe code_of tol n 0 ms no_extra true false e -> (forall g, ms = Some g -> ms_safe n g) ->
  0 <= n <= 100 -> is_u64 cg -> op_ok i (op_ e cg (Some d) n 0 ms).
Proof.
  intros Hx Hg Hnn Hh He Hms Hn Hcg. split; cbn; auto; try done.
  - intros g [= <-]. eapply gas_safe_ext; [apply (gas_at n' n h (isSome ms) false 0 d i 0); auto; discriminate|].
    intros. cbn. lia.
  - eapply op_exec_intro; eauto; try discriminate. intros. unfold extra_at. cbn. rewrite Hx. reflexivity.
  - left. eapply op_exec_intro; eauto; try discriminate. intros. unfold extra_at. cbn. rewrite Hx. reflexivity.
Qed.

(** A call instruction: the price covers what it may return. *)
Lemma op_ok_call i e cg d n k g n' lo :
  gas_safe code_of n' true false lo d -> n' <= n -> (forall w st, extra_of i w st <= lo w st) ->
  exec_safe code_of tol n k (Some g) (extra_of i) false false e -> ms_safe n g ->
  0 <= n <= 100 -> 0 <= k <= 100 -> is_u64 cg -> 1 <= cg -> op_ok i (op_ e cg (Some d) n k (Some g)).
Proof.
  intros Hg Hnn Hlo He Hms Hn Hk Hcg H1. split; cbn; auto.
  - intros g' [= <-]. auto.
  - intros d' [= <-]. eapply gas_safe_mono; eauto; discriminate.
  - eapply op_exec_intro; eauto; try discriminate; reflexivity.
Qed.

Lemma op_ok_push i n o : op_ok i o -> op_ok i (pushOp n o).
Proof. intros []. split; assumption. Qed.
Lemma op_ok_swap i n o : op_ok i o -> op_ok i (swapOp n o).
Proof. intros []. split; assumption. Qed.
Lemma op_ok_dup i n o : op_ok i o -> op_ok i (dupOp n o).
Proof. intros []. split; assumption. Qed.

Lemma call_lo_le w st : extra_call_value w st <= lo_call_value w st.
Proof. unfold extra_call_value, lo_call_value, CallStipend, CallValueTransferGas. case_match; lia. Qed.

End TableSafe.

Ltac ms_tac :=
  first [apply ms_pair_safe; lia | apply ms_one_safe; lia | apply memoryMcopy_safe | apply ms_two_safe; lia].

Ltac gas_tac :=
  first [ apply pureMemoryGascost_safe | apply gasKeccak256_safe | apply gasExpFrontier_safe
        | apply gasSStore_safe | apply gasSelfdestruct_safe | apply gasCreate2_safe
        | apply makeGasLog_safe; lia
        | exact (memoryCopierGas_safe _ 2 3 ltac:(lia))
        | exact (memoryCopierGas_safe _ 3 4 ltac:(lia)) ].

Ltac swap_tac :=
  first [ exact (opSwap_safe _ _ 1 ltac:(lia)) | exact (opSwap_safe _ _ 2 ltac:(lia))
            | exact (opSwap_safe _ _ 3 ltac:(lia)) | exact (opSwap_safe _ _ 4 ltac:(lia))
            | exact (opSwap_safe _ _ 5 ltac:(lia)) | exact (opSwap_safe _ _ 6 ltac:(lia))
            | exact (opSwap_safe _ _ 7 ltac:(lia)) | exact (opSwap_safe _ _ 8 ltac:(lia))
            | exact (opSwap_safe _ _ 9 ltac:(lia)) | exact (opSwap_safe _ _ 10 ltac:(lia))
            | exact (opSwap_safe _ _ 11 ltac:(lia)) | exact (opSwap_safe _ _ 12 ltac:(lia))
            | exact (opSwap_safe _ _ 13 ltac:(lia)) | exact (opSwap_safe _ _ 14 ltac:(lia))
            | exact (opSwap_safe _ _ 15 ltac:(lia)) | exact (opSwap_safe _ _ 16 ltac:(lia)) ].

Ltac ne_stop := first [discriminate | intros _; vm_compute; discriminate].
Ltac op_plain := eapply op_ok_plain; [solve [eauto 2 with opsafe]|ne_stop|lia|lia|u64_solve|done].
Ltac op_swap_ := eapply op_ok_plain; [swap_tac|discriminate|lia|lia|u64_solve|done].
Ltac op_halt := eapply op_ok_halt; [solve [eauto 2 with opsafe]|ne_stop|lia].
Ltac op_dyn :=
  eapply op_ok_dyn; [reflexivity|gas_tac|lia|done|done|first [left; done | right; done]
    |solve [eauto 2 with opsafe]|reflexivity|intros ? [= <-]; ms_tac|lia|lia|u64_solve].
Ltac op_dyn_halt :=
  eapply op_ok_dyn_halt; [reflexivity|gas_tac|lia|done|solve [eauto 2 with opsafe]
    |intros ? [= <-]; ms_tac|lia|u64_solve].
Ltac op_entry :=
  first [ op_plain | op_halt | op_dyn | op_dyn_halt
        | apply op_ok_push; op_plain | apply op_ok_dup; op_plain | apply op_ok_swap; op_swap_ ].

Section Frontier.
Context {U : Uint256} {US : Uint256Spec U} {K : Keccak} {KS : KeccakSpec K} {DB : StateDB}
  {DS : StateDBSafe DB} {L : LRU} {LS : LRUSpec L} {BF : BlobFork} (code_of : Z -> bytes) (tol : Prop).
Context (e150 : bool).

Abbreviation op_ok := (op_ok code_of tol e150).
Abbreviation jt_ok := (jt_ok code_of tol e150).

(** ** The frontier table *)

Definition frontier_pins : pins :=
  pin_set OpCode.BALANCE (1, false, 0) (pin_set OpCode.EXTCODESIZE (1, false, 0)
  (pin_set OpCode.EXTCODECOPY (4, true, 0) (pin_set OpCode.SLOAD (1, false, 0)
  (pin_set OpCode.SSTORE (2, false, 0) (pin_set OpCode.EXP (2, false, 0)
  (pin_set OpCode.CALL (7, true, 1) (pin_set OpCode.CALLCODE (7, true, 1)
  (pin_set OpCode.CREATE (3, true, 1) (pin_set OpCode.SELFDESTRUCT (1, false, 0) no_pins))))))))).

Definition entry_ok (e : Z * operation) : Prop :=
  0 <= e.1 < 256 /\ op_ok e.1 e.2 /\ pin_ok (frontier_pins e.1) e.2.

Lemma opCall_entry : op_ok OpCode.CALL (op_ opCall CallGasFrontier (Some gasCall) 7 1 (Some memoryCall)).
Proof.
  eapply op_ok_call; [apply calc_gas_safe, gasCall_calc|lia|apply call_lo_le|apply opCall_safe
    |apply ms_two_safe; lia|lia|lia|u64_solve|done].
Qed.

Lemma opCallCode_entry :
  op_ok OpCode.CALLCODE (op_ opCallCode CallGasFrontier (Some gasCallCode) 7 1 (Some memoryCall)).
Proof.
  eapply op_ok_call; [apply calc_gas_safe, gasCallCode_calc|lia|apply call_lo_le|apply opCallCode_safe
    |apply ms_two_safe; lia|lia|lia|u64_solve|done].
Qed.

Ltac entry_tac :=
  split; [split; [discriminate|reflexivity]|]; split;
  [cbn [fst snd]; first [op_entry | exact opCall_entry | exact opCallCode_entry]
  |vm_compute; first [exact I | repeat split; discriminate]].
Ltac group_tac := repeat (apply Forall_cons; split; [entry_tac|]); apply Forall_nil; exact I.

Lemma frontier_arithmetic_ok : Forall entry_ok frontier_arithmetic.
Proof. group_tac. Qed.
Lemma frontier_comparison_ok : Forall entry_ok frontier_comparison.
Proof. group_tac. Qed.
Lemma frontier_environment_ok : Forall entry_ok frontier_environment.
Proof. group_tac. Qed.
Lemma frontier_memory_ok : Forall entry_ok frontier_memory.
Proof. group_tac. Qed.
Lemma frontier_push1_16_ok : Forall entry_ok frontier_push1_16.
Proof. group_tac. Qed.
Lemma frontier_push17_32_ok : Forall entry_ok frontier_push17_32.
Proof. group_tac. Qed.
Lemma frontier_dup_ok : Forall entry_ok frontier_dup.
Proof. group_tac. Qed.
Lemma frontier_swap_ok : Forall entry_ok frontier_swap.
Proof. group_tac. Qed.
Lemma frontier_log_call_ok : Forall entry_ok frontier_log_call.
Proof. group_tac. Qed.

Lemma opUndefined_entry i : i <> OpCode.STOP -> op_ok i (op_ opUndefined 0 None 0 0 None).
Proof. intros Hi. eapply op_ok_halt; [apply opUndefined_safe|auto|lia]. Qed.

(** While the literal is being filled in, entries are missing or fine. *)
Definition partial_ok (jt : list (option operation)) : Prop :=
  length jt = 256%nat /\
  forall i o, 0 <= i -> jt !! Z.to_nat i = Some (Some o) -> op_ok i o /\ pin_ok (frontier_pins i) o.

Lemma fill_literal lit : forall jt, Forall entry_ok lit -> partial_ok jt ->
  partial_ok (foldl (fun jt e => <[Z.to_nat e.1 := Some e.2]> jt) jt lit).
Proof.
  induction lit as [|[i o] lit IH]; intros jt Hl Hjt; [exact Hjt|]. apply Forall_cons in Hl.
  destruct Hl as [[Hi Ho] Hl]. cbn [foldl fst snd] in *. apply IH; [assumption|].
  destruct Hjt as [Hlen Hjt]. split; [by rewrite length_insert|]. intros j o' Hj E.
  destruct (Z.eq_dec j i) as [->|Hne].
  - rewrite list_lookup_insert_eq in E by lia. injection E as <-. exact Ho.
  - rewrite list_lookup_insert_ne in E by lia. by apply Hjt.
Qed.

Definition frontier_raw : list (option operation) :=
  foldl (fun jt e => <[Z.to_nat e.1 := Some e.2]> jt) (replicate 256 None) frontier_literal.

Lemma frontier_raw_ok : partial_ok frontier_raw.
Proof.
  apply fill_literal.
  - unfold frontier_literal. repeat (apply Forall_app; split).
    all: auto using frontier_arithmetic_ok, frontier_comparison_ok, frontier_environment_ok,
      frontier_memory_ok, frontier_push1_16_ok, frontier_push17_32_ok, frontier_dup_ok,
      frontier_swap_ok, frontier_log_call_ok.
  - split; [apply length_replicate|]. intros i o _ E. apply lookup_replicate in E. destruct E. discriminate.
Qed.

(** The pinned opcodes, and STOP, are in the literal. *)
Definition absent (jt : list (option operation)) (i : Z) : bool :=
  match jt !! Z.to_nat i with Some (Some _) => false | _ => true end.

Lemma frontier_present i :
  absent frontier_raw i = true -> frontier_pins i = None /\ i <> OpCode.STOP.
Proof.
  intros E. split.
  - unfold frontier_pins, pin_set, no_pins.
    repeat (match goal with |- (if i =? ?k then _ else _) = _ =>
      destruct (Z.eqb_spec i k); [subst; assert (absent frontier_raw k = false) by (vm_compute; reflexivity); congruence|] end).
    reflexivity.
  - intros ->. assert (absent frontier_raw OpCode.STOP = false) by (vm_compute; reflexivity). congruence.
Qed.

Lemma frontier_filled : jt_ok frontier_pins (fillUndefined frontier_raw).
Proof.
  destruct frontier_raw_ok as [Hlen H]. unfold fillUndefined. split; [by rewrite length_map|].
  intros i Hi. destruct (lookup_lt_is_Some_2 frontier_raw (Z.to_nat i)) as [e E]; [lia|].
  change (map ?f frontier_raw) with (f <$> frontier_raw). rewrite list_lookup_fmap, E.
  destruct e as [o|]; cbn.
  - exists o. split; [reflexivity|]. apply H; [lia|exact E].
  - destruct (frontier_present i) as [-> Hs]; [unfold absent; by rewrite E|]. eexists. split; [reflexivity|].
    split; [by apply opUndefined_entry|exact I].
Qed.

(** A table under construction: it is built without a panic, and it is fine. *)
Definition built (r : pins) (m : Res JumpTable) : Prop := exists jt, m = Val jt /\ jt_ok r jt.
Definition finished (r : pins) (m : Res JumpTable) : Prop :=
  exists jt, m = Val jt /\ jt_ok r jt /\ jt_filled jt.

Lemma finished_built r m : finished r m -> built r m.
Proof. intros (jt & H1 & H2 & _). exists jt. auto. Qed.

Lemma built_validate r m : built r m -> finished r (jt ← m; validateAndFillMaxStack jt).
Proof. intros (jt & -> & H). destruct (validate_ok code_of tol e150 r jt H) as (jt' & E & H1 & H2). exists jt'. auto. Qed.

Lemma newFrontierInstructionSet_ok : finished frontier_pins newFrontierInstructionSet.
Proof. apply (built_validate _ (Val (fillUndefined frontier_raw))). exists (fillUndefined frontier_raw). split; [reflexivity|apply frontier_filled]. Qed.

End Frontier.
