(* ===== verification/ForkSafe.v ===== *)
(** * The forks' tables are safe

    The edits each fork and each EIP makes keep every entry consistent; hence the
    instruction set selected for any chain rules is safe. *)

From S2P Require Import Machine GasTable Instructions JumpTable MemoryGas FrameOk GasSafe ExecSafe TableSafe.
Import params.

Section ForkSafe.
Context {U : Uint256} {US : Uint256Spec U} {K : Keccak} {KS : KeccakSpec K} {DB : StateDB}
  {DS : StateDBSafe DB} {L : LRU} {LS : LRUSpec L} {BF : BlobFork} (code_of : Z -> bytes) (tol : Prop).
Context (e150 : bool).

Abbreviation op_ok := (op_ok code_of tol e150).
Abbreviation jt_ok := (jt_ok code_of tol e150).
Abbreviation built := (built code_of tol e150).
Abbreviation finished := (finished code_of tol e150).
Abbreviation op_exec := (op_exec code_of tol).

(** ** Edits *)

(** [m] returns a value that satisfies [Q]. *)
Definition returns {A} (m : Res A) (Q : A -> Prop) : Prop := exists a, m = Val a /\ Q a.

Lemma returns_bind {A B} (m : Res A) (k : A -> Res B) P Q :
  returns m P -> (forall a, P a -> returns (k a) Q) -> returns (m ≫= k) Q.
Proof. intros (a & -> & Ha) H. exact (H a Ha). Qed.

Lemma returns_val {A} (a : A) (Q : A -> Prop) : Q a -> returns (mret a) Q.
Proof. intros H. by exists a. Qed.

(** Two writes through one pointer, then the rest. *)
Lemma returns_upd2 i g h (jt : list (option operation)) (k : JumpTable -> Res JumpTable) P Q :
  returns (jt_upd i (fun o => h (g o)) jt) P -> (forall jt', P jt' -> returns (k jt') Q) ->
  returns (jt ← jt_upd i g jt; jt ← jt_upd i h jt; k jt) Q.
Proof.
  intros H Hk. rewrite <- jt_upd_twice in H. destruct (jt_upd i g jt) as [j| |]; cbn in *.
  - by eapply returns_bind.
  - destruct H as (? & ? & _). discriminate.
  - destruct H as (? & ? & _). discriminate.
Qed.

Lemma returns_upd2' i g h (jt : list (option operation)) P :
  returns (jt_upd i (fun o => h (g o)) jt) P ->
  returns (jt ← jt_upd i g jt; jt_upd i h jt) P.
Proof. intros H. by rewrite <- jt_upd_twice in H. Qed.

(** A price change to a positive constant. *)
Lemma const_ok i k r o :
  is_u64 k -> 1 <= k -> (forall n h k', r = Some (n, h, k') -> k' <= k) ->
  op_ok i o -> pin_ok r o -> op_ok i (with_constantGas k o) /\ pin_ok r (with_constantGas k o).
Proof.
  intros Hk H1 Hr [] Hp. split; [split; try assumption; cbn; auto|].
  destruct r as [[[n h] k']|]; [|exact I]. destruct Hp as (? & ? & ?). cbn. repeat split; try assumption.
  by apply (Hr n h k').
Qed.

(** A new gas function. The operation already had one, or is not a call. *)
Lemma op_exec_dyn b i o g : op_exec b i o -> op_exec b i (with_dynamicGas g o).
Proof.
  intros (incode & H1 & H2). exists incode. split; [exact H1|]. cbn.
  eapply exec_safe_mono; [exact H2|done|]. intros w st Hw. unfold extra_at. cbn.
  pose proof (extra_of_nonneg code_of i w st Hw). destruct (isSome (dynamicGas o)); [lia|]. unfold no_extra. lia.
Qed.

Lemma dyn_ok i g n h k o :
  gas_safe code_of n h e150 (extra_of i) g ->
  (1 <= k \/ gas_safe code_of n h e150 (plus1 (extra_of i)) g) ->
  op_ok i o -> pin_ok (Some (n, h, k)) o ->
  op_ok i (with_dynamicGas g o) /\ pin_ok (Some (n, h, k)) (with_dynamicGas g o).
Proof.
  intros Hg H1 [? ? oo_ms ? ? ?] (Hn & Hh & Hk). split; [|done]. split; try assumption; cbn.
  - intros g' E. destruct (oo_ms g' E). auto.
  - intros d [= <-]. cbn [numPop memorySize with_dynamicGas with_constantGas]. by rewrite Hn, Hh.
  - by apply op_exec_dyn.
  - destruct H1 as [H1|H1]; right; [left; lia|right]. split; [reflexivity|].
    intros d [= <-]. cbn [numPop memorySize with_dynamicGas with_constantGas]. by rewrite Hn, Hh.
Qed.

(** A price change together with a gas function. *)
Lemma const_dyn_ok i c g n h k o :
  is_u64 c -> k <= c -> gas_safe code_of n h e150 (extra_of i) g ->
  (1 <= c \/ gas_safe code_of n h e150 (plus1 (extra_of i)) g) ->
  op_ok i o -> pin_ok (Some (n, h, k)) o ->
  op_ok i (with_dynamicGas g (with_constantGas c o)) /\
  pin_ok (Some (n, h, k)) (with_dynamicGas g (with_constantGas c o)).
Proof.
  intros Hc Hkc Hg H1 [? ? oo_ms ? ? ?] (Hn & Hh & Hk). split; [|done]. split; try assumption; cbn.
  - intros g' E. destruct (oo_ms g' E). auto.
  - intros d [= <-]. cbn [numPop memorySize with_dynamicGas with_constantGas]. by rewrite Hn, Hh.
  - by apply op_exec_dyn.
  - destruct H1 as [H1|H1]; right; [left; lia|right]. split; [reflexivity|].
    intros d [= <-]. cbn [numPop memorySize with_dynamicGas with_constantGas]. by rewrite Hn, Hh.
Qed.

(** At an index that is not a call, a constant bound is enough. *)
Lemma gas_const n h e lo g i :
  gas_safe code_of n h e (lo_const lo) g -> (e = true -> e150 = true) -> 0 <= lo ->
  extra_of i = no_extra ->
  gas_safe code_of n h e150 (extra_of i) g /\
  (1 <= lo -> gas_safe code_of n h e150 (plus1 (extra_of i)) g).
Proof.
  intros H He Hlo Hx. split; [|intros H1]; (eapply gas_safe_mono; [exact H|lia|done|exact He|]);
    intros w st _; unfold plus1; rewrite Hx; cbn; unfold no_extra, lo_const; lia.
Qed.

(** ** The EIPs

    Each [enable] function on a table whose entries are fine: it returns, and the
    entries of the result are fine. [has r i x] says index [i] is pinned to [x]. *)

Ltac in_table := split; [discriminate|reflexivity].

Lemma upd_pinned r i g n h k (jt : list (option operation)) :
  jt_ok r jt -> 0 <= i < 256 -> r i = Some (n, h, k) ->
  (forall o, op_ok i o -> pin_ok (Some (n, h, k)) o -> op_ok i (g o) /\ pin_ok (Some (n, h, k)) (g o)) ->
  returns (jt_upd i g jt) (jt_ok r).
Proof. intros H Hi Hr Hg. apply jt_upd_ok; [assumption|assumption|]. rewrite Hr. exact Hg. Qed.

Lemma upd_const r i c n h k (jt : list (option operation)) :
  jt_ok r jt -> 0 <= i < 256 -> r i = Some (n, h, k) -> is_u64 c -> 1 <= c -> k <= c ->
  returns (jt_upd i (with_constantGas c) jt) (jt_ok r).
Proof.
  intros H Hi Hr Hc H1 Hk. eapply upd_pinned; eauto. intros o Ho Hp.
  apply const_ok; try assumption. intros n' h' k' [= <- <- <-]. assumption.
Qed.

Lemma upd_dyn r i g n h k lo e (jt : list (option operation)) :
  jt_ok r jt -> 0 <= i < 256 -> r i = Some (n, h, k) -> extra_of i = no_extra ->
  gas_safe code_of n h e (lo_const lo) g -> (e = true -> e150 = true) -> 0 <= lo -> 1 <= k \/ 1 <= lo ->
  returns (jt_upd i (with_dynamicGas g) jt) (jt_ok r).
Proof.
  intros H Hi Hr Hx Hg He Hlo H1. eapply upd_pinned; eauto. intros o Ho Hp.
  destruct (gas_const n h e lo g i Hg He Hlo Hx) as [G0 G1]. apply dyn_ok; auto. tauto.
Qed.

Lemma upd_const_dyn r i c g n h k lo e (jt : list (option operation)) :
  jt_ok r jt -> 0 <= i < 256 -> r i = Some (n, h, k) -> extra_of i = no_extra ->
  is_u64 c -> k <= c ->
  gas_safe code_of n h e (lo_const lo) g -> (e = true -> e150 = true) -> 0 <= lo -> 1 <= c \/ 1 <= lo ->
  returns (jt_upd i (fun o => with_dynamicGas g (with_constantGas c o)) jt) (jt_ok r).
Proof.
  intros H Hi Hr Hx Hc Hk Hg He Hlo H1. eapply upd_pinned; eauto. intros o Ho Hp.
  destruct (gas_const n h e lo g i Hg He Hlo Hx) as [G0 G1]. apply const_dyn_ok; auto. tauto.
Qed.

(** A new gas function of a call instruction. *)
Lemma upd_call r i g n k lo e (jt : list (option operation)) :
  jt_ok r jt -> 0 <= i < 256 -> r i = Some (n, true, k) -> 1 <= k ->
  gas_safe code_of n true e lo g -> (e = true -> e150 = true) ->
  (forall w st, extra_of i w st <= lo w st) -> returns (jt_upd i (with_dynamicGas g) jt) (jt_ok r).
Proof.
  intros H Hi Hr Hk Hg He Hlo. eapply upd_pinned; eauto. intros o Ho Hp. apply dyn_ok; auto.
  eapply gas_safe_mono; eauto. lia.
Qed.

Lemma upd_const_call r i c g n k lo e (jt : list (option operation)) :
  jt_ok r jt -> 0 <= i < 256 -> r i = Some (n, true, k) -> is_u64 c -> k <= c -> 1 <= c ->
  gas_safe code_of n true e lo g -> (e = true -> e150 = true) ->
  (forall w st, extra_of i w st <= lo w st) ->
  returns (jt_upd i (fun o => with_dynamicGas g (with_constantGas c o)) jt) (jt_ok r).
Proof.
  intros H Hi Hr Hc Hk H1 Hg He Hlo. eapply upd_pinned; eauto. intros o Ho Hp. apply const_dyn_ok; auto.
  eapply gas_safe_mono; eauto. lia.
Qed.

Lemma set_new r i o (jt : list (option operation)) :
  jt_ok r jt -> 0 <= i < 256 -> r i = None -> op_ok i o -> returns (jt_set i o jt) (jt_ok r).
Proof. intros H Hi Hr Ho. by apply jt_set_nopin. Qed.

Lemma set_pin r i o x (jt : list (option operation)) :
  jt_ok r jt -> 0 <= i < 256 -> op_ok i o -> pin_ok (Some x) o ->
  returns (jt_set i o jt) (jt_ok (pin_set i x r)).
Proof. intros H Hi Ho Hp. by apply jt_set_ok. Qed.

(** ** The forks *)

Ltac pinned := vm_compute; reflexivity.
Ltac bound_ := first [done | u64_solve].
Ltac e_const := eapply upd_const; [eassumption|in_table|pinned|u64_solve|done|done].
Ltac e_new := eapply set_new; [eassumption|in_table|pinned|op_entry].
Ltac fin := by apply validate_ok.
(** Peel one edit off the front of a table expression. *)
Ltac edit tac := eapply returns_bind; [tac|clear; intros ? ?].

Definition filled_ok (r : pins) (jt : JumpTable) : Prop := jt_ok r jt /\ jt_filled jt.

Definition homestead_pins : pins := pin_set OpCode.DELEGATECALL (6, true, 1) frontier_pins.
Definition byzantium_pins : pins := pin_set OpCode.STATICCALL (6, true, 1) homestead_pins.
Definition constantinople_pins : pins :=
  pin_set OpCode.CREATE2 (4, true, 1) (pin_set OpCode.EXTCODEHASH (1, false, 0) byzantium_pins).

Lemma frontier_ok : returns newFrontierInstructionSet (filled_ok frontier_pins).
Proof. apply newFrontierInstructionSet_ok. Qed.

Lemma delegatecall_entry cg : is_u64 cg -> 1 <= cg ->
  op_ok OpCode.DELEGATECALL (op_ opDelegateCall cg (Some gasDelegateCall) 6 1 (Some memoryDelegateCall)).
Proof.
  intros. eapply op_ok_call; [apply calc_gas_safe, gasDelegateCall_calc|lia|reflexivity
    |apply opDelegateCall_safe|apply ms_two_safe; lia|lia|lia|assumption|assumption].
Qed.

Lemma staticcall_entry cg : is_u64 cg -> 1 <= cg ->
  op_ok OpCode.STATICCALL (op_ opStaticCall cg (Some gasStaticCall) 6 1 (Some memoryStaticCall)).
Proof.
  intros. eapply op_ok_call; [apply calc_gas_safe, gasStaticCall_calc|lia|reflexivity
    |apply opStaticCall_safe|apply ms_two_safe; lia|lia|lia|assumption|assumption].
Qed.

Lemma homestead_ok : returns newHomesteadInstructionSet (filled_ok homestead_pins).
Proof.
  unfold newHomesteadInstructionSet. eapply returns_bind; [apply frontier_ok|]. intros jt [H _].
  eapply returns_bind; [apply set_pin with (x := (6, true, 1)); [exact H|in_table
    |apply delegatecall_entry; [u64_solve|done]|repeat split; done]|].
  intros jt1 H1. fin.
Qed.

Lemma tangerine_ok : returns newTangerineWhistleInstructionSet (filled_ok homestead_pins).
Proof.
  unfold newTangerineWhistleInstructionSet. eapply returns_bind; [apply homestead_ok|]. intros jt [H _].
  do 7 (eapply returns_bind; [e_const|]; clear jt H; intros jt H). fin.
Qed.

Lemma spurious_ok : returns newSpuriousDragonInstructionSet (filled_ok homestead_pins).
Proof.
  unfold newSpuriousDragonInstructionSet. eapply returns_bind; [apply tangerine_ok|]. intros jt [H _].
  eapply returns_bind; [eapply upd_dyn; [exact H|in_table|pinned|reflexivity|apply gasExpEIP160_safe|done|done|by right]|].
  intros jt1 H1. fin.
Qed.

Lemma byzantium_ok : returns newByzantiumInstructionSet (filled_ok byzantium_pins).
Proof.
  unfold newByzantiumInstructionSet. eapply returns_bind; [apply spurious_ok|]. intros jt [H _].
  eapply returns_bind; [apply set_pin with (x := (6, true, 1)); [exact H|in_table
    |apply staticcall_entry; [u64_solve|done]|repeat split; done]|].
  clear jt H. intros jt H.
  do 3 (eapply returns_bind; [e_new|]; clear jt H; intros jt H). fin.
Qed.

Lemma constantinople_ok : returns newConstantinopleInstructionSet (filled_ok constantinople_pins).
Proof.
  unfold newConstantinopleInstructionSet. eapply returns_bind; [apply byzantium_ok|]. intros jt [H _].
  do 3 (eapply returns_bind; [e_new|]; clear jt H; intros jt H).
  eapply returns_bind; [apply set_pin with (x := (1, false, 0)); [exact H|in_table|op_entry|repeat split; done]|].
  clear jt H. intros jt H.
  eapply returns_bind; [apply set_pin with (x := (4, true, 1)); [exact H|in_table|op_entry|repeat split; done]|].
  clear jt H. intros jt H. fin.
Qed.

(** ** Each EIP on its own *)

Section Enable.
Context (r : pins) (jt : list (option operation)) (H : jt_ok r jt).

Ltac e_next := eapply returns_bind; [|clear dependent jt; intros jt H].
Ltac e_dyn law side := eapply upd_dyn; [eassumption|in_table|eassumption|reflexivity|apply law|done|done|side].
Ltac e_cdyn law side :=
  eapply upd_const_dyn; [eassumption|in_table|eassumption|reflexivity|u64_solve|done|apply law|done|done|side].
Ltac e_call law :=
  eapply upd_call; [eassumption|in_table|eassumption|done|exact law|done|try apply call_lo_le; reflexivity].

Lemma enable1344_ok : r OpCode.CHAINID = None -> returns (enable1344 jt) (jt_ok r).
Proof. intros. unfold enable1344. eapply set_new; [eassumption|in_table|assumption|op_entry]. Qed.

Lemma enable1884_ok :
  r OpCode.SLOAD = Some (1, false, 0) -> r OpCode.BALANCE = Some (1, false, 0) ->
  r OpCode.EXTCODEHASH = Some (1, false, 0) -> r OpCode.SELFBALANCE = None ->
  returns (enable1884 jt) (jt_ok r).
Proof.
  intros. unfold enable1884.
  do 3 (eapply returns_bind; [eapply upd_const; [eassumption|in_table|eassumption|u64_solve|done|done]|];
        clear dependent jt; intros jt H).
  eapply set_new; [eassumption|in_table|assumption|op_entry].
Qed.

Lemma enable2200_ok :
  r OpCode.SLOAD = Some (1, false, 0) -> r OpCode.SSTORE = Some (2, false, 0) ->
  returns (enable2200 jt) (jt_ok r).
Proof.
  intros. unfold enable2200.
  eapply returns_bind; [eapply upd_const; [eassumption|in_table|eassumption|u64_solve|done|done]|].
  clear dependent jt; intros jt H. e_dyn gasSStoreEIP2200_safe ltac:(by right).
Qed.

Lemma enable3529_ok :
  r OpCode.SSTORE = Some (2, false, 0) -> r OpCode.SELFDESTRUCT = Some (1, false, 1) ->
  returns (enable3529 jt) (jt_ok r).
Proof.
  intros. unfold enable3529. eapply returns_bind; [e_dyn makeGasSStoreFunc_safe ltac:(by right)|].
  clear dependent jt; intros jt H. e_dyn makeSelfdestructGasFn_safe ltac:(by left).
Qed.

Lemma enable3198_ok : r OpCode.BASEFEE = None -> returns (enable3198 jt) (jt_ok r).
Proof. intros. unfold enable3198. eapply set_new; [eassumption|in_table|assumption|op_entry]. Qed.

Lemma enable1153_ok :
  r OpCode.TLOAD = None -> r OpCode.TSTORE = None -> returns (enable1153 jt) (jt_ok r).
Proof.
  intros. unfold enable1153. eapply returns_bind; [eapply set_new; [eassumption|in_table|assumption|op_entry]|].
  clear dependent jt; intros jt H. eapply set_new; [eassumption|in_table|assumption|op_entry].
Qed.

Lemma enable3855_ok : r OpCode.PUSH0 = None -> returns (enable3855 jt) (jt_ok r).
Proof. intros. unfold enable3855. eapply set_new; [eassumption|in_table|assumption|op_entry]. Qed.

Lemma enable4844_ok : r OpCode.BLOBHASH = None -> returns (enable4844 jt) (jt_ok r).
Proof. intros. unfold enable4844. eapply set_new; [eassumption|in_table|assumption|op_entry]. Qed.

Lemma enable7516_ok : blobs = true -> r OpCode.BLOBBASEFEE = None -> returns (enable7516 jt) (jt_ok r).
Proof. intros. unfold enable7516. eapply set_new; [eassumption|in_table|assumption|op_entry]. Qed.

Lemma enable7939_ok : r OpCode.CLZ = None -> returns (enable7939 jt) (jt_ok r).
Proof. intros. unfold enable7939. eapply set_new; [eassumption|in_table|assumption|op_entry]. Qed.

Lemma enable5656_ok : r OpCode.MCOPY = None -> returns (enable5656 jt) (jt_ok r).
Proof. intros. unfold enable5656. eapply set_new; [eassumption|in_table|assumption|op_entry]. Qed.

Lemma enable3860_ok :
  r OpCode.CREATE = Some (3, true, 1) -> r OpCode.CREATE2 = Some (4, true, 1) ->
  returns (enable3860 jt) (jt_ok r).
Proof.
  intros. unfold enable3860. eapply returns_bind; [e_dyn gasCreateEip3860_safe ltac:(by left)|].
  clear dependent jt; intros jt H.
  eapply upd_dyn with (lo := 0) (e := false); [eassumption|in_table|eassumption|reflexivity| |done|done|by left].
  eapply gas_safe_mono; [apply gasCreate2Eip3860_safe|lia|done|done|done].
Qed.

Lemma enable7702_ok :
  r OpCode.CALL = Some (7, true, 1) -> r OpCode.CALLCODE = Some (7, true, 1) ->
  r OpCode.STATICCALL = Some (6, true, 1) -> r OpCode.DELEGATECALL = Some (6, true, 1) ->
  returns (enable7702 jt) (jt_ok r).
Proof.
  intros. unfold enable7702.
  assert (G1 : gas_safe code_of 7 true false lo_call_value gasCallEIP7702).
  { eapply gas_safe_mono; [apply makeCallVariantGasCallEIP7702_safe; [|apply gasCall_calc]; lia|..]; try done. }
  assert (G2 : gas_safe code_of 7 true false lo_call_value gasCallCodeEIP7702).
  { eapply gas_safe_mono; [apply makeCallVariantGasCallEIP7702_safe; [|apply gasCallCode_calc]; lia|..]; try done. }
  assert (G3 : gas_safe code_of 6 true false lo_call gasStaticCallEIP7702).
  { apply makeCallVariantGasCallEIP7702_safe; [lia|]. intros ip p st m c w0 w g ms Hn. intros.
    apply gasStaticCall_calc; try assumption. lia. }
  assert (G4 : gas_safe code_of 6 true false lo_call gasDelegateCallEIP7702).
  { apply makeCallVariantGasCallEIP7702_safe; [lia|]. intros ip p st m c w0 w g ms Hn. intros.
    apply gasDelegateCall_calc; try assumption. lia. }
  do 2 (eapply returns_bind; [eapply upd_call; [eassumption|in_table|eassumption|done|eassumption|done|apply call_lo_le]|];
        clear dependent jt; intros jt H).
  eapply returns_bind; [eapply upd_call; [eassumption|in_table|eassumption|done|exact G3|done|reflexivity]|].
  clear dependent jt; intros jt H.
  eapply upd_call; [eassumption|in_table|eassumption|done|exact G4|done|reflexivity].
Qed.

Lemma exec_halt_any n k ms extra incode e :
  exec_safe code_of tol n 0 ms extra true incode e -> exec_safe code_of tol n k ms extra true incode e.
Proof.
  intros He ip p st m c w Hip Hn Hst Hp Hin Hm Hcov Hc Hw. eapply wp_mono; [by apply He|].
  intros res f [? ? ? ? ? ? Hnext]. split; try assumption. intros Hr. destruct (Hnext Hr). discriminate.
Qed.

Lemma enable6780_ok k :
  r OpCode.SELFDESTRUCT = Some (1, false, k) -> returns (enable6780 jt) (jt_ok r).
Proof.
  intros Hr. unfold enable6780. eapply upd_pinned; [exact H|in_table|exact Hr|].
  intros o [] (Hn & Hh & Hk). split; [|done].
  assert (Hx : forall b, op_exec b OpCode.SELFDESTRUCT (with_execute opSelfdestruct6780 o)).
  { intros b. exists false. split; [discriminate|]. cbn. rewrite Hn.
    destruct (memorySize o); [discriminate|]. eapply exec_safe_mono; [apply exec_halt_any, opSelfdestruct6780_safe|done|].
    intros. unfold extra_at. cbn. destruct (isSome _); reflexivity. }
  split; try assumption; [apply Hx|]. left. apply Hx.
Qed.

End Enable.

(** EIP-2929 raises the price of SELFDESTRUCT, which later edits rely on. *)
Definition berlin_pins (r : pins) : pins := pin_set OpCode.SELFDESTRUCT (1, false, 1) r.

Lemma upd_pin r i g x (jt : list (option operation)) :
  jt_ok r jt -> 0 <= i < 256 ->
  (forall o, op_ok i o -> pin_ok (r i) o -> op_ok i (g o) /\ pin_ok (Some x) (g o)) ->
  returns (jt_upd i g jt) (jt_ok (pin_set i x r)).
Proof.
  intros H Hi Hg. assert (H' : jt_ok (fun j => if j =? i then None else r j) jt).
  { destruct H as [Hlen H]. split; [exact Hlen|]. intros j Hj. destruct (H j Hj) as (o & E & Ho & Hp).
    exists o. split; [exact E|]. split; [exact Ho|]. by destruct (j =? i). }
  destruct H as [Hlen H]. destruct (H i Hi) as (o & E & Ho & Hp).
  destruct (Hg o Ho Hp) as [Hgo Hgp]. unfold jt_upd, JumpTable. rewrite E.
  destruct (jt_set_ok code_of tol e150 _ i (g o) jt x H' Hi Hgo Hgp) as (jt' & Ej & [Hl' Hj]).
  injection Ej as Ej. exists jt'. split; [by rewrite <- Ej|]. split; [exact Hl'|]. intros j Hjj.
  destruct (Hj j Hjj) as (o' & E' & Ho' & Hp'). exists o'. split; [exact E'|]. split; [exact Ho'|].
  unfold pin_set in *. by destruct (j =? i).
Qed.

Lemma enable2929_ok r (jt : list (option operation)) :
  e150 = true -> jt_ok r jt ->
  r OpCode.SSTORE = Some (2, false, 0) -> r OpCode.SLOAD = Some (1, false, 0) ->
  r OpCode.EXTCODECOPY = Some (4, true, 0) -> r OpCode.EXTCODESIZE = Some (1, false, 0) ->
  r OpCode.EXTCODEHASH = Some (1, false, 0) -> r OpCode.BALANCE = Some (1, false, 0) ->
  r OpCode.CALL = Some (7, true, 1) -> r OpCode.CALLCODE = Some (7, true, 1) ->
  r OpCode.STATICCALL = Some (6, true, 1) -> r OpCode.DELEGATECALL = Some (6, true, 1) ->
  r OpCode.SELFDESTRUCT = Some (1, false, 0) ->
  returns (enable2929 jt) (jt_ok (berlin_pins r)).
Proof.
  intros He H. intros. unfold enable2929.
  assert (G1 : gas_safe code_of 7 true true lo_call_value gasCallEIP2929).
  { eapply gas_safe_mono; [apply makeCallVariantGasCallEIP2929_safe; [|apply gasCall_calc]; lia|..]; try done. }
  assert (G2 : gas_safe code_of 7 true true lo_call_value gasCallCodeEIP2929).
  { eapply gas_safe_mono; [apply makeCallVariantGasCallEIP2929_safe; [|apply gasCallCode_calc]; lia|..]; try done. }
  assert (G3 : gas_safe code_of 6 true true lo_call gasStaticCallEIP2929).
  { apply makeCallVariantGasCallEIP2929_safe; [lia|]. intros ip p st m c w0 w g ms Hn. intros.
    apply gasStaticCall_calc; try assumption. lia. }
  assert (G4 : gas_safe code_of 6 true true lo_call gasDelegateCallEIP2929).
  { apply makeCallVariantGasCallEIP2929_safe; [lia|]. intros ip p st m c w0 w g ms Hn. intros.
    apply gasDelegateCall_calc; try assumption. lia. }
  eapply returns_bind; [eapply upd_dyn; [eassumption|in_table|eassumption|reflexivity
    |apply makeGasSStoreFunc_safe|done|done|by right]|]. clear dependent jt; intros jt H.
  eapply returns_upd2; [eapply upd_const_dyn; [eassumption|in_table|eassumption|reflexivity|u64_solve|done
    |apply gasSLoadEIP2929_safe|done|done|by right]|]. clear dependent jt; intros jt H.
  eapply returns_upd2; [eapply upd_const_dyn; [eassumption|in_table|eassumption|reflexivity|u64_solve|done
    |apply gasExtCodeCopyEIP2929_safe|done|done|by left]|]. clear dependent jt; intros jt H.
  do 3 (eapply returns_upd2; [eapply upd_const_dyn; [eassumption|in_table|eassumption|reflexivity|u64_solve|done
    |apply gasEip2929AccountCheck_safe|done|done|by left]|]; clear dependent jt; intros jt H).
  do 2 (eapply returns_upd2; [eapply upd_const_call; [eassumption|in_table|eassumption|u64_solve|done|done
    |eassumption|done|apply call_lo_le]|]; clear dependent jt; intros jt H).
  eapply returns_upd2; [eapply upd_const_call; [eassumption|in_table|eassumption|u64_solve|done|done
    |exact G3|done|reflexivity]|]. clear dependent jt; intros jt H.
  eapply returns_upd2; [eapply upd_const_call; [eassumption|in_table|eassumption|u64_solve|done|done
    |exact G4|done|reflexivity]|]. clear dependent jt; intros jt H.
  apply returns_upd2', upd_pin; [exact H|in_table|]. intros o Ho Hp.
  match goal with E : r OpCode.SELFDESTRUCT = _ |- _ => rewrite E in Hp end.
  assert (Hc : op_ok OpCode.SELFDESTRUCT (with_constantGas SelfdestructGasEIP150 o)
               /\ pin_ok (Some (1, false, 1)) (with_constantGas SelfdestructGasEIP150 o)).
  { destruct Hp as (? & ? & ?). split; [|done]. eapply const_ok with (r := None); try done. }
  destruct Hc. destruct (gas_const 1 false false 0 gasSelfdestructEIP2929 OpCode.SELFDESTRUCT) as [G0 _];
    [apply makeSelfdestructGasFn_safe|done|done|reflexivity|].
  apply dyn_ok; auto. left. lia.
Qed.

Lemma istanbul_ok : returns newIstanbulInstructionSet (filled_ok constantinople_pins).
Proof.
  unfold newIstanbulInstructionSet. eapply returns_bind; [apply constantinople_ok|]. intros jt [H _].
  eapply returns_bind; [apply enable1344_ok; [exact H|pinned]|]. clear jt H; intros jt H.
  eapply returns_bind; [apply enable1884_ok; [exact H|pinned..]|]. clear jt H; intros jt H.
  eapply returns_bind; [apply enable2200_ok; [exact H|pinned..]|]. clear jt H; intros jt H. fin.
Qed.

Context (He150 : e150 = true).

Abbreviation late_pins := (berlin_pins constantinople_pins).

Lemma berlin_ok : returns newBerlinInstructionSet (filled_ok late_pins).
Proof.
  unfold newBerlinInstructionSet. eapply returns_bind; [apply istanbul_ok|]. intros jt [H _].
  eapply returns_bind; [apply enable2929_ok; [exact He150|exact H|pinned..]|]. clear jt H; intros jt H. fin.
Qed.

Lemma london_ok : returns newLondonInstructionSet (filled_ok late_pins).
Proof.
  unfold newLondonInstructionSet. eapply returns_bind; [apply berlin_ok|]. intros jt [H _].
  eapply returns_bind; [apply enable3529_ok; [exact H|pinned..]|]. clear jt H; intros jt H.
  eapply returns_bind; [apply enable3198_ok; [exact H|pinned]|]. clear jt H; intros jt H. fin.
Qed.

Lemma shanghai_ok : returns newShanghaiInstructionSet (filled_ok late_pins).
Proof.
  unfold newShanghaiInstructionSet. eapply returns_bind; [apply london_ok|]. intros jt [H _].
  eapply returns_bind; [apply enable3855_ok; [exact H|pinned]|]. clear jt H; intros jt H.
  eapply returns_bind; [apply enable3860_ok; [exact H|pinned..]|]. clear jt H; intros jt H. fin.
Qed.

Lemma napoli_ok : returns newNapoliInstructionSet (filled_ok late_pins).
Proof.
  unfold newNapoliInstructionSet. eapply returns_bind; [apply shanghai_ok|]. intros jt [H _].
  eapply returns_bind; [apply enable1153_ok; [exact H|pinned..]|]. clear jt H; intros jt H.
  eapply returns_bind; [apply enable5656_ok; [exact H|pinned]|]. clear jt H; intros jt H.
  eapply returns_bind; [eapply enable6780_ok; [exact H|pinned]|]. clear jt H; intros jt H. fin.
Qed.

Lemma bhilai_ok : returns newBhilaiInstructionSet (filled_ok late_pins).
Proof.
  unfold newBhilaiInstructionSet. eapply returns_bind; [apply napoli_ok|]. intros jt [H _].
  eapply returns_bind; [apply enable7702_ok; [exact H|pinned..]|]. clear jt H; intros jt H. fin.
Qed.

Context (Hblobs : blobs = true).

Lemma cancun_ok : returns newCancunInstructionSet (filled_ok late_pins).
Proof.
  unfold newCancunInstructionSet. eapply returns_bind; [apply napoli_ok|]. intros jt [H _].
  eapply returns_bind; [apply enable4844_ok; [exact H|pinned]|]. clear jt H; intros jt H.
  eapply returns_bind; [apply enable7516_ok; [exact H|exact Hblobs|pinned]|]. clear jt H; intros jt H. fin.
Qed.

Lemma prague_ok : returns newPragueInstructionSet (filled_ok late_pins).
Proof.
  unfold newPragueInstructionSet. eapply returns_bind; [apply cancun_ok|]. intros jt [H _].
  eapply returns_bind; [apply enable7702_ok; [exact H|pinned..]|]. clear jt H; intros jt H. fin.
Qed.

Lemma osaka_ok : returns newOsakaInstructionSet (filled_ok late_pins).
Proof.
  unfold newOsakaInstructionSet. eapply returns_bind; [apply prague_ok|]. intros jt [H _].
  eapply returns_bind; [apply enable7939_ok; [exact H|pinned]|]. clear jt H; intros jt H. fin.
Qed.

End ForkSafe.

(** The rules select a table with access-list pricing. *)
Definition berlin_or_later (rules : Rules) : bool :=
  IsOsaka rules || IsBhilai rules || IsPrague rules || IsCancun rules || IsNapoli rules ||
  IsShanghai rules || IsLondon rules || IsBerlin rules.

(** They then include EIP-150. *)
Definition rules_ok (rules : Rules) : Prop :=
  berlin_or_later rules = true -> IsTangerineWhistle rules = true.

Section Select.
Context {U : Uint256} {US : Uint256Spec U} {K : Keccak} {KS : KeccakSpec K} {DB : StateDB}
  {DS : StateDBSafe DB} {L : LRU} {LS : LRUSpec L} {BF : BlobFork} (code_of : Z -> bytes) (tol : Prop).

(** A table the interpreter can run: every entry consistent, stack limits filled. *)
Definition table_ok (e150 : bool) (jt : JumpTable) : Prop :=
  jt_ok code_of tol e150 no_pins jt /\ jt_filled jt.

Lemma jt_ok_forget e150 r jt : filled_ok code_of tol e150 r jt -> table_ok e150 jt.
Proof.
  intros [[Hlen H] Hf]. split; [|exact Hf]. split; [exact Hlen|]. intros i Hi.
  destruct (H i Hi) as (o & E & Ho & _). exists o. done.
Qed.

Lemma returns_mono {A} (m : Res A) (P Q : A -> Prop) :
  returns m P -> (forall a, P a -> Q a) -> returns m Q.
Proof. intros (a & E & H) HQ. exists a. auto. Qed.

Lemma selectInstructionSet_gen rules e150 :
  (berlin_or_later rules = true -> e150 = true) -> (blob_fork rules = true -> blobs = true) ->
  returns (selectInstructionSet rules) (table_ok e150).
Proof.
  unfold berlin_or_later, blob_fork, selectInstructionSet. intros H Hb.
  repeat match goal with
  | |- returns (if ?b then _ else _) _ => destruct b; cbn [orb andb negb] in *; rewrite ?orb_true_r in *
  end.
  all: eapply returns_mono; [|apply jt_ok_forget].
  - apply osaka_ok; auto.
  - apply bhilai_ok; auto.
  - apply prague_ok; auto.
  - apply cancun_ok; auto.
  - apply napoli_ok; auto.
  - apply shanghai_ok; auto.
  - apply london_ok; auto.
  - apply berlin_ok; auto.
  - apply istanbul_ok.
  - apply constantinople_ok.
  - apply byzantium_ok.
  - apply spurious_ok.
  - apply tangerine_ok.
  - apply homestead_ok.
  - apply frontier_ok.
Qed.

(** The instruction set selected for any rules is built without a panic and safe. *)
Lemma selectInstructionSet_ok rules :
  rules_ok rules -> (blob_fork rules = true -> blobs = true) ->
  returns (selectInstructionSet rules) (table_ok (IsTangerineWhistle rules)).
Proof. apply selectInstructionSet_gen. Qed.
End Select.
