(* ===== verification/Instances.v ===== *)
(** * Concrete instances

    Small instances of the interfaces, on which the witnesses evaluate: the reference
    arithmetic, a toy digest, an association-list cache, a state with no accounts, a
    context, and callees that are already at the depth limit. *)

From S2P Require Import Machine GasTable MemoryGas FrameOk JumpTable ForkSafe.

#[export] Instance the_uint256 : Uint256 := uint256_ref.
#[export] Instance the_uint256_spec : Uint256Spec the_uint256 := uint256_ref_spec.

#[export] Instance toy_keccak : Keccak := fun b => be_to_Z b mod two256.
#[export] Instance toy_keccak_spec : KeccakSpec toy_keccak.
Proof. intros b. apply mod256_range. Qed.

(** An unbounded cache. *)
#[export] Instance list_lru : LRU := {|
  lru := gmap Z bitvec;
  lru_Get k c := (c !! k, c);
  lru_Add k v c := <[k := v]> c
|}.
#[export] Instance list_lru_spec : LRUSpec list_lru.
Proof.
  refine (@Build_LRUSpec list_lru (fun (c : gmap Z bitvec) k => c !! k) _ _).
  - done.
  - intros k v c k' v'. cbn. destruct (decide (k' = k)) as [->|H].
    + rewrite lookup_insert_eq. intros [= ->]. auto.
    + rewrite lookup_insert_ne by done. auto.
Defined.

(** A state in which no account exists and writes are dropped. *)
#[export] Instance void_state : StateDB := {|
  ibs := unit;
  GetBalance _ := mret (0, None);
  AddBalance _ _ := mret None;
  SubBalance _ _ := mret None;
  GetNonce _ := mret (0, None);
  SetNonce _ _ := mret None;
  GetCode _ := mret ([], None);
  GetCodeSize _ := mret (0, None);
  GetCodeHash _ := mret (0, None);
  SetCode _ _ := mret None;
  ResolveCode _ := mret ([], None);
  ResolveCodeHash _ := mret (0, None);
  GetDelegatedDesignation _ := mret (0, false, None);
  GetState _ _ := mret (0, None);
  GetCommittedState _ _ := mret (0, None);
  SetState _ _ _ := mret None;
  HasStorage _ := mret (false, None);
  GetTransientState _ _ := mret 0;
  SetTransientState _ _ _ := mret tt;
  Exist _ := mret (false, None);
  Empty _ := mret (true, None);
  HasSelfdestructed _ := mret (false, None);
  Selfdestruct _ := mret (false, None);
  Selfdestruct6780 _ := mret None;
  CreateAccount _ _ := mret None;
  AddLog _ := mret tt;
  AddRefund _ := mret tt;
  SubRefund _ := mret None;
  AddAddressToAccessList _ := mret true;
  AddSlotToAccessList _ _ := mret (true, true);
  Snapshot := mret 0;
  RevertToSnapshot _ := mret tt
|}.

#[export] Instance void_safe : StateDBSafe void_state.
Proof. refine {| wf := fun _ => True |}; done. Defined.

(** Rules of the latest fork, and of a chain before its first fork. *)
Definition all_forks : Rules :=
  mkRules 1 true true true true true true true true true true true false false true true false.
Definition no_forks : Rules :=
  mkRules 1 false false false false false false false false false false false false false false
    false false.

(** The blob base fee is nil before the fork that reads it. *)
Definition demo_context (rules : Rules) : BlockContext :=
  mkBlockContext (fun _ _ => mret (true, None)) (fun _ _ _ _ => mret None) (fun _ => (0, None))
    7 30000000 false 100 1700000000 (Some 0) (Some 7) (Some 5) (if blob_fork rules then Some 1 else None).
Definition demo_env (rules : Rules) : Env :=
  mkEnv (demo_context rules) (mkTxContext 9 (Some 3) []) rules (mkConfig false false false false [])
    (fun _ => None) None (fun _ => false).

Definition depth_calls : CallOps :=
  mkCallOps (fun _ _ _ gas _ _ => mret ([], gas, Some ErrDepth))
    (fun _ _ _ gas _ => mret ([], gas, Some ErrDepth))
    (fun _ _ _ gas => mret ([], gas, Some ErrDepth))
    (fun _ _ _ gas => mret ([], gas, Some ErrDepth))
    (fun _ _ gas _ _ => mret ([], 0, gas, Some ErrDepth))
    (fun _ _ gas _ _ _ => mret ([], 0, gas, Some ErrDepth)).

Definition demo_interp (rules : Rules) : Interp := mkInterp (demo_env rules) depth_calls.

Definition demo_contract (code : bytes) (gas : Z) : Contract :=
  mkContract 9 (AccountRef 9) 11 None false code 0 (Some 11) [] gas (Some 0).

Definition demo_world : World := mkWorld false [] 0 0 tt (mkJumpDestCache (∅ : gmap Z bitvec) 0 0) 0.

(** The code behind no hash: nothing is cached and contracts carry no hash. *)
Definition demo_code_of : Z -> bytes := fun _ => [].

Lemma demo_world_ok : world_ok demo_code_of demo_world.
Proof. split; done. Qed.

Lemma demo_contract_ok code gas :
  go_len code -> is_u64 gas -> contract_ok demo_code_of (demo_contract code gas).
Proof. intros. split; cbn; try done. by exists 0. Qed.

Lemma demo_env_ok rules : 0 <= ChainID rules -> env_ok (BF := blob_fork rules) (demo_env rules).
Proof.
  intros H. split; cbn; try done; try (eexists; split; [reflexivity|done]).
  - left. eexists. split; [reflexivity|done].
  - unfold blobs. intros ->. by exists 1.
Qed.

Lemma depth_calls_ok tol : calls_ok demo_code_of tol depth_calls.
Proof.
  split; intros; intros w Hw [Hg0 Hg1]; unfold wp; cbn; unfold call_post; repeat split; cbn;
    try done; try lia; apply Hw.
Qed.

Lemma demo_interp_ok tol rules :
  0 <= ChainID rules -> interp_ok (BF := blob_fork rules) demo_code_of tol (demo_interp rules).
Proof. intros H. split; [by apply demo_env_ok|apply depth_calls_ok]. Qed.
