(* ===== verification/InstrSpec.v ===== *)
(** * What the instructions compute

    Functional correctness where the code does not just call the arithmetic library:
    the exponentiation shortcuts, the shift guards, the specialised push
    instructions, jump validity, write protection, and the 63/64 rule. Results are
    stated against the mathematical definition, for operands of the full width. *)

From S2P Require Import Machine GasTable Instructions MemoryGas FrameOk Instances.
Import params.

Section InstrSpec.
Context {U : Uint256} {US : Uint256Spec U} {K : Keccak} {DB : StateDB} {L : LRU}.

(** [e] replaces the first two items by [r] and succeeds. *)
Definition computes2 (e : executionFunc) (x y r : Z) : Prop :=
  forall ip p st m c w,
    e ip (mkFrame p (x :: y :: st) m c w) = Val (([], None), mkFrame p (r :: st) m c w).

(** ** Arithmetic *)

Lemma two256_div k : 256 <= k -> 2 ^ k mod two256 = 0.
Proof.
  intros H. replace k with (256 + (k - 256)) by lia. rewrite Z.pow_add_r by lia.
  rewrite Z.mul_comm. apply Z.mod_mul. unfold two256. lia.
Qed.

Lemma pow_u256 k : 0 <= k < 256 -> is_u256 (2 ^ k).
Proof.
  intros H. split; [lia|]. apply Z.pow_lt_mono_r; lia.
Qed.

(** Every branch of [opExp] agrees with the power. *)
Lemma opExp_value base e :
  is_u256 base -> is_u256 e ->
  (if u_IsZero e then 1
   else if u_IsZero base then 0
   else if u_LtUint64 e 2 then base
   else if u_LtUint64 base 2 then 1
   else if u_LtUint64 base 3 then if u_LtUint64 e 256 then u_Lsh 1 (u_Uint64 e) else 0
   else u_Exp base e) = base ^ e mod two256.
Proof.
  intros Hb He. rewrite !IsZero_spec, !LtUint64_spec, Exp_spec by (assumption || done).
  unfold is_u256 in *. destruct (Z.eqb_spec e 0) as [->|H0]; [by rewrite Z.mod_small|].
  destruct (Z.eqb_spec base 0) as [->|H1]; [rewrite Z.pow_0_l by lia; reflexivity|].
  destruct (Z.ltb_spec e 2). { replace e with 1 by lia. rewrite Z.pow_1_r, Z.mod_small; lia. }
  destruct (Z.ltb_spec base 2). { replace base with 1 by lia. rewrite Z.pow_1_l by lia. reflexivity. }
  destruct (Z.ltb_spec base 3); [|reflexivity]. replace base with 2 by lia.
  destruct (Z.ltb_spec e 256); [|symmetry; apply two256_div; lia].
  rewrite Uint64_spec, (Z.mod_small e two64) by (unfold is_u256, two64 in *; lia).
  rewrite Lsh_spec by (done || lia). f_equal. lia.
Qed.

Lemma s256_bounds v : is_u256 v -> - 2 ^ 255 <= s256 v < 2 ^ 255.
Proof. unfold is_u256, s256, two256. intros H. zbool; lia. Qed.

Lemma floor_far a k : 256 <= k -> - 2 ^ 255 <= a < 2 ^ 255 -> a / 2 ^ k = if 0 <=? a then 0 else -1.
Proof.
  intros Hk Ha. assert (2 ^ 255 < 2 ^ k) by (apply Z.pow_lt_mono_r; lia).
  destruct (Z.leb_spec 0 a); [apply Z.div_small; lia|].
  symmetry. apply (Z.div_unique _ _ _ (a + 2 ^ k)); [left; lia|lia].
Qed.

(** The shift amount, once known to be small. *)
Lemma shift_small s : is_u256 s -> s < 256 -> u_Uint64 s = s.
Proof. intros [H0 H1] H. rewrite Uint64_spec by done. apply Z.mod_small. unfold two64. lia. Qed.

(** ** Push *)

(** The bytes after the opcode at [p], zero past the end of the code, as a number. *)
Definition immediate (code : bytes) (p n : Z) : Z := be_to_Z (data_window code (p + 1) n).

Lemma slice_window code p n :
  0 <= p < zlen code -> 0 <= n ->
  let start := if zlen code <=? p + 1 then zlen code else p + 1 in
  let end_ := if zlen code <=? start + n then zlen code else start + n in
  RightPadBytes (take (Z.to_nat (end_ - start)) (drop (Z.to_nat start) code)) n =
  data_window code (p + 1) n.
Proof.
  intros Hp Hn start end_. unfold data_window.
  assert (Hs : start = p + 1) by (unfold start; zbool; lia).
  assert (He : end_ = Z.min (zlen code) (p + 1 + n)) by (unfold end_; rewrite Hs; zbool; lia).
  assert (E : take (Z.to_nat (end_ - start)) (drop (Z.to_nat start) code) =
              take (Z.to_nat n) (drop (Z.to_nat (p + 1)) code)).
  { rewrite He, Hs. unfold zlen in *. destruct (decide (p + 1 + n <= Z.of_nat (length code))).
    - f_equal. lia.
    - rewrite !take_ge by (rewrite length_drop; lia). reflexivity. }
  rewrite <- E. apply RightPadBytes_window. rewrite zlen_slice; lia.
Qed.

Lemma makePush_run size n ip p st m c w :
  go_len (Code c) -> 0 <= p < zlen (Code c) -> 0 <= n <= 32 ->
  makePush size n ip (mkFrame p st m c w) =
  Val (([], None), mkFrame (u64 (p + size)) (immediate (Code c) p n :: st) m c w).
Proof.
  intros Hc Hp Hn. unfold go_len in Hc. unfold makePush, mbind, M_bind, get_contract, gets.
  cbn [contract pc]. rewrite (u64_id (p + 1)) by (unfold is_u64, two64; lia).
  rewrite (i64_id (p + 1)) by lia. pose proof (slice_window (Code c) p n Hp ltac:(lia)) as E.
  cbn zeta in E. set (start := if zlen (Code c) <=? p + 1 then zlen (Code c) else p + 1) in *.
  assert (Hstart : 0 <= start <= zlen (Code c)) by (unfold start; zbool; lia).
  rewrite !(i64_id (start + n)) by lia.
  set (end_ := if zlen (Code c) <=? start + n then zlen (Code c) else start + n) in *.
  assert (Hend : start <= end_ <= zlen (Code c)) by (unfold end_; zbool; lia).
  unfold lift. rewrite go_slice_val by lia. rewrite E, SetBytes_spec; [reflexivity|].
  pose proof (zlen_data_window (Code c) (p + 1) n ltac:(lia)). unfold zlen in *. lia.
Qed.

Lemma window_cons code q n b :
  0 <= q -> 0 < n -> code !! Z.to_nat q = Some b ->
  data_window code q n = b :: data_window code (q + 1) (n - 1).
Proof.
  intros Hq Hn E. unfold data_window. rewrite (drop_S _ _ _ E).
  replace (Z.to_nat n) with (S (Z.to_nat (n - 1))) by lia.
  replace (Z.to_nat (q + 1)) with (S (Z.to_nat q)) by lia. reflexivity.
Qed.

Lemma window_past code q n :
  zlen code <= q -> data_window code q n = replicate (Z.to_nat n) x00.
Proof.
  intros H. unfold data_window. rewrite drop_ge by (unfold zlen in H; lia).
  rewrite take_nil. cbn. f_equal. lia.
Qed.

Lemma opPush1_run ip p st m c w :
  go_len (Code c) -> 0 <= p < zlen (Code c) ->
  opPush1 ip (mkFrame p st m c w) =
  Val (([], None), mkFrame (u64 (p + 1)) (immediate (Code c) p 1 :: st) m c w).
Proof.
  intros Hc Hp. unfold go_len in Hc. unfold opPush1, mbind, M_bind, get_contract, gets, modify.
  cbn [contract pc with_pc]. rewrite (u64_id (p + 1)) by (unfold is_u64, two64; lia).
  unfold immediate. destruct (Z.ltb_spec (p + 1) (zlen (Code c))) as [H|H].
  - destruct (go_index_val (Code c) (p + 1)) as (b & E & El); [lia|]. unfold lift. rewrite E.
    rewrite (window_cons _ _ _ b) by (assumption || lia). reflexivity.
  - rewrite window_past by lia. reflexivity.
Qed.

Lemma opPush2_run ip p st m c w :
  go_len (Code c) -> 0 <= p < zlen (Code c) ->
  opPush2 ip (mkFrame p st m c w) =
  Val (([], None), mkFrame (u64 (p + 2)) (immediate (Code c) p 2 :: st) m c w).
Proof.
  intros Hc Hp. unfold go_len in Hc. unfold opPush2, mbind, M_bind, get_contract, gets, modify.
  cbn [contract pc with_pc].
  assert (E2 : u64 (p + 2) = p + 2) by (apply u64_id; unfold is_u64, two64; lia).
  replace (u64 (p + 2) <? zlen (Code c)) with (p + 2 <? zlen (Code c)) by (by rewrite E2).
  rewrite (u64_id (p + 1)), (u64_id (p + 3)) by (unfold is_u64, two64; lia).
  unfold immediate. destruct (Z.ltb_spec (p + 2) (zlen (Code c))) as [H2|H2].
  - unfold lift. rewrite go_slice_val by lia.
    assert (E : data_window (Code c) (p + 1) 2 = take 2 (drop (Z.to_nat (p + 1)) (Code c))).
    { unfold data_window. rewrite length_take, length_drop. unfold zlen in *.
      replace (Z.to_nat 2 - _)%nat with 0%nat by lia. apply app_nil_r. }
    replace (Z.to_nat (p + 3 - (p + 1))) with 2%nat by lia. rewrite E, SetBytes_spec; [reflexivity|].
    rewrite length_take. lia.
  - destruct (Z.ltb_spec (p + 1) (zlen (Code c))) as [H1|H1].
    + destruct (go_index_val (Code c) (p + 1)) as (b & E & El); [lia|]. unfold lift. rewrite E.
      rewrite (window_cons _ _ _ b) by (assumption || lia). rewrite window_past by lia.
      pose proof (byteZ_range b). change (be_to_Z _) with (byteZ b * 256 + 0).
      rewrite Z.shiftl_mul_pow2, u64_id by (unfold is_u64, two64; lia).
      rewrite Z.add_0_r. reflexivity.
    + rewrite window_past by lia. reflexivity.
Qed.

(** ** Jumps *)

(** A destination that is accepted: its byte is JUMPDEST and, unless the analysis is
    skipped, an instruction starts there. *)
Definition valid_dest (c : Contract) (d : Z) : Prop :=
  Code c !! Z.to_nat d = Some x5b /\ (skipAnalysis c = false -> instr_start (Code c) d).

Lemma codeSegment_start code bits pos r :
  codeBitmap code = Val bits -> 0 <= pos < zlen code -> codeSegment bits pos = Val r ->
  (r = true <-> instr_start code pos).
Proof.
  intros Eb Hp Er. destruct (codeBitmap_marked code) as (bits' & k & E & Hl & Hk & Hm).
  rewrite E in Eb. injection Eb as ->. rewrite (codeSegment_in code) in Er by assumption.
  injection Er as <-. rewrite negb_true_iff, <- not_true_iff_false, (Hm pos ltac:(lia)).
  destruct (decide (instr_start code pos)); split; try tauto.
  intros H. exfalso. apply H. split; [lia|assumption].
Qed.

Lemma JUMPDEST_byte b : (byteZ b =? OpCode.JUMPDEST) = true <-> b = x5b.
Proof.
  rewrite Z.eqb_eq. split; [|by intros ->]. intros H. apply byteZ_inj. exact H.
Qed.

Context {DS : StateDBSafe DB} {LS : LRUSpec L} (code_of : Z -> bytes).

Lemma validJumpdest_run dest p st m c w :
  is_u256 dest -> contract_ok code_of c -> world_ok code_of w ->
  exists r c' w',
    validJumpdest dest (mkFrame p st m c w) = Val (r, mkFrame p st m c' w') /\
    (r.1 = true <-> valid_dest c dest).
Proof.
  intros Hd Hc Hw. unfold validJumpdest, valid_dest. cbn [contract world].
  rewrite Uint64WithOverflow_spec by assumption. pose proof (co_code _ _ Hc) as Hlen.
  unfold go_len, is_u256 in *.
  destruct (Z.leb_spec two64 dest) as [H1|H1]; cbn [orb].
  { do 3 eexists. split; [reflexivity|]. cbn. split; [discriminate|]. intros [H _].
    apply lookup_lt_Some in H. unfold two64, zlen in *. lia. }
  rewrite Z.mod_small by lia. destruct (Z.leb_spec (zlen (Code c)) dest) as [H2|H2].
  { do 3 eexists. split; [reflexivity|]. cbn. split; [discriminate|]. intros [H _].
    apply lookup_lt_Some in H. unfold zlen in *. lia. }
  destruct (go_index_val (Code c) dest) as (b & -> & Eb); [lia|]. rewrite Eb.
  pose proof (JUMPDEST_byte b) as Hb. destruct (byteZ b =? OpCode.JUMPDEST); cbn [negb].
  - destruct (skipAnalysis c) eqn:Hs.
    { do 3 eexists. split; [reflexivity|]. cbn [fst]. split; [|done]. intros _. split; [|discriminate]. f_equal. by apply Hb. }
    destruct (isCode_ok code_of c (jumpDests w) dest) as (r & an & jd & -> & Ha & Hr & _);
      [assumption|apply Hw|lia|]. do 3 eexists. split; [reflexivity|]. cbn [fst].
    rewrite (codeSegment_start (Code c) an dest r) by (assumption || lia).
    split; [|tauto]. intros H. split; [|by intros _]. f_equal. by apply Hb.
  - do 3 eexists. split; [reflexivity|]. cbn. split; [discriminate|]. intros [[= ->] _].
    discriminate (proj2 Hb eq_refl).
Qed.

End InstrSpec.

(** ** Properties *)

Section Properties.
Context {U : Uint256} {US : Uint256Spec U} {K : Keccak} {DB : StateDB} {DS : StateDBSafe DB}
  {L : LRU} {LS : LRUSpec L}.

(** EXP computes the power modulo 2^256, whichever of its shortcuts (exponent or
    base 0, 1 or 2) is taken. *)
Theorem opExp_correct base e :
  is_u256 base -> is_u256 e -> computes2 opExp base e (base ^ e mod two256).
Proof.
  intros Hb He ip p st m c w. rewrite <- opExp_value by assumption.
  unfold opExp, ok, mbind, M_bind, s_pop, s_peek, lift. cbn [stk pop peek with_stk].
  repeat match goal with |- context [if ?b then _ else _] => destruct b end; reflexivity.
Qed.

(** SHL, SHR and SAR compute the mathematical shifts for every 256-bit shift amount,
    the amounts of 256 and more included: multiplication, unsigned floor division and
    signed floor division by 2^shift. *)
Theorem shifts_correct s v :
  is_u256 s -> is_u256 v ->
  computes2 opSHL s v (v * 2 ^ s mod two256) /\
  computes2 opSHR s v (v / 2 ^ s) /\
  computes2 opSAR s v (s256 v / 2 ^ s mod two256).
Proof.
  intros Hs Hv.
  assert (Hlow : s < 256 -> u_Uint64 s = s) by (by apply shift_small).
  pose proof (s256_bounds v Hv) as Hsv. destruct Hs as [Hs0 Hs1]. pose proof Hv as [Hv0 Hv1].
  repeat split; intros ip p st m c w; unfold opSHL, opSHR, opSAR, ok, mbind, M_bind, s_pop, s_peek, lift;
    cbn [stk pop peek with_stk].
  - rewrite LtUint64_spec by done. destruct (Z.ltb_spec s 256) as [H|H].
    + rewrite Hlow, Lsh_spec by (assumption || lia). reflexivity.
    + rewrite <- Zmult_mod_idemp_r, two256_div, Z.mul_0_r by lia. reflexivity.
  - rewrite LtUint64_spec by done. destruct (Z.ltb_spec s 256) as [H|H].
    + rewrite Hlow, Rsh_spec by (assumption || lia). reflexivity.
    + rewrite Z.div_small; [reflexivity|]. split; [lia|].
      apply Z.lt_le_trans with two256; [lia|]. apply Z.pow_le_mono_r; lia.
  - rewrite GtUint64_spec by done. destruct (Z.ltb_spec 255 s) as [H|H].
    + rewrite floor_far, Sign_spec by (assumption || lia).
      replace (0 <=? Z.sgn (s256 v)) with (0 <=? s256 v) by (destruct (s256 v); reflexivity).
      destruct (0 <=? s256 v); reflexivity.
    + rewrite Hlow, SRsh_spec by (assumption || lia). reflexivity.
Qed.

(** The specialised push instructions agree with the generic one: PUSH1, PUSH2 and
    [makePush n n] push the [n] bytes after the opcode as a big-endian number, with
    zeroes for the bytes past the end of the code, and step over them. *)
Theorem push_correct n ip p st m c w :
  go_len (Code c) -> 0 <= p < zlen (Code c) -> 0 <= n <= 32 ->
  let result k := Val (([], None), mkFrame (p + k) (immediate (Code c) p k :: st) m c w) in
  makePush n n ip (mkFrame p st m c w) = result n /\
  opPush1 ip (mkFrame p st m c w) = result 1 /\
  opPush2 ip (mkFrame p st m c w) = result 2.
Proof.
  intros Hc Hp Hn result. rewrite makePush_run, opPush1_run, opPush2_run by assumption.
  unfold go_len in Hc. rewrite !u64_id by (unfold is_u64, two64; lia). auto.
Qed.

(** C4 A jump is taken exactly to valid destinations: JUMP to [dest] succeeds iff the byte
    at [dest] is JUMPDEST and, unless the contract is marked to skip the analysis, an
    instruction of the code starts there (bytes that only look like one inside push data are
    refused), and then execution goes on at [dest]; otherwise it fails with the invalid-jump
    error. The analysis comes from the contract, from the cache or is computed, with the same
    outcome. Where the analysis is skipped, as it is for blocks on a list of blocks known not
    to need it, a JUMPDEST byte inside push data is accepted. *)
Theorem opJump_correct code_of dest ip p st m c w :
  is_u256 dest -> contract_ok code_of c -> world_ok code_of w ->
  exists r c' w' p', opJump ip (mkFrame p (dest :: st) m c w) = Val (([], r), mkFrame p' st m c' w') /\
    (valid_dest c dest -> r = None /\ u64 (p' + 1) = dest) /\
    (~ valid_dest c dest -> r = Some ErrInvalidJump).
Proof.
  intros Hd Hc Hw.
  destruct (validJumpdest_run code_of dest p st m c w Hd Hc Hw) as ([b u] & c' & w' & E & Hb).
  unfold opJump, fail, ok, mbind, M_bind, s_pop. cbn [stk pop with_stk pc mem contract world].
  unfold with_stk. cbn [pc mem contract world]. rewrite E. cbn [fst] in Hb. destruct b; cbn [negb].
  - do 4 eexists. split; [reflexivity|]. split; [intros [H _]|tauto]. split; [reflexivity|].
    apply lookup_lt_Some in H. pose proof (co_code _ _ Hc) as Hlen. unfold go_len, zlen, is_u256 in *.
    rewrite Uint64_spec, (Z.mod_small dest) by (unfold is_u256, two64; lia).
    unfold u64. rewrite Zplus_mod_idemp_l, Z.mod_small by (unfold two64; lia). lia.
  - do 4 eexists. split; [reflexivity|]. split; [|auto]. intros H. by apply Hb in H.
Qed.

(** Write protection: under the read-only flag every instruction that writes to the
    state fails with the write-protection error and leaves the frame, and so the
    state, untouched; CALL does when it transfers value. *)
Theorem write_protection ip f :
  readOnly (world f) = true ->
  (forall e, e ∈ [opSstore; opTstore; opCreate; opCreate2; opSelfdestruct; opSelfdestruct6780] ++
                 (makeLog <$> [0; 1; 2; 3; 4]%nat) ->
     e ip f = Val (([], Some ErrWriteProtection), f)) /\
  (forall g a v x1 x2 x3 x4 st,
     stk f = g :: a :: v :: x1 :: x2 :: x3 :: x4 :: st -> is_u256 v -> is_u256 x2 -> v <> 0 ->
     Len (mem f) < two64 -> in_mem (mem f) (u_Uint64 x1) (u_Uint64 x2) ->
     opCall ip f = Val (([], Some ErrWriteProtection), with_stk f st)).
Proof.
  intros Hro. split.
  - intros e He. cbn in He.
    repeat (apply elem_of_cons in He; destruct He as [->|He]); [..|by apply elem_of_nil in He];
      unfold opSstore, opTstore, opCreate, opCreate2, opSelfdestruct, opSelfdestruct6780, makeLog,
        fail, mbind, M_bind, get_world, gets; rewrite Hro; reflexivity.
  - intros g a v x1 x2 x3 x4 st Es Hv H2 Hnz Hlen Hin. destruct f as [p st0 m c w]. cbn in Es, Hro, Hlen, Hin.
    destruct (GetPtr_ok m (u_Uint64 x1) (u_Uint64 x2)) as (d & E & _); try assumption.
    { rewrite Uint64_spec by assumption. apply Z.mod_pos_bound. reflexivity. }
    subst st0. unfold opCall, fail, mbind, M_bind, s_pop, get_world, gets, m_read, lift.
    cbn [stk pop with_stk pc mem contract world].
    rewrite IsZero_spec, Hro by assumption. destruct (Z.eqb_spec v 0); [contradiction|]. cbn [negb andb].
    rewrite E. reflexivity.
Qed.

(** The 63/64 rule: when the base cost is affordable, a call gets what it asks for, at
    most all but one 64th of what is left after the base cost; the result always
    fits in 64 bits. Before EIP-150 it gets exactly what it asks for, or overflows. *)
Theorem callGas_correct avail base callCost :
  is_u64 avail -> is_u64 base -> is_u256 callCost ->
  (base <= avail ->
     let rest := avail - base in
     callGas true avail base callCost = (Z.min callCost (rest - rest / 64), None)) /\
  (exists gas, callGas true avail base callCost = (gas, None) /\ is_u64 gas) /\
  callGas false avail base callCost =
    (if callCost <? two64 then (callCost, None) else (0, Some ErrGasUintOverflow)).
Proof.
  intros Ha Hb Hc. unfold callGas. rewrite !IsUint64_spec, !Uint64_spec by assumption.
  cbn [andb]. pose proof (u64_range (avail - base)) as Hr.
  set (av := u64 (avail - base)) in *. unfold is_u64, is_u256 in *.
  assert (Hd : 0 <= av / 64 <= av) by (split; [apply Z.div_pos; lia|apply Z.div_le_upper_bound; lia]).
  split; [|split].
  - intros Hle. assert (Eav : av = avail - base) by (apply u64_id; unfold is_u64; lia). rewrite <- Eav.
    destruct (Z.ltb_spec callCost two64) as [H|H]; cbn [negb orb].
    + rewrite Z.mod_small by lia. zbool; f_equal; lia.
    + f_equal. lia.
  - destruct (Z.ltb_spec callCost two64) as [H|H]; cbn [negb orb].
    + rewrite Z.mod_small by lia. zbool; eexists; (split; [reflexivity|lia]).
    + eexists. split; [reflexivity|]. lia.
  - destruct (Z.ltb_spec callCost two64) as [H|H]; cbn [negb]; [rewrite Z.mod_small by lia|]; reflexivity.
Qed.
End Properties.

(** Witnesses. *)

Lemma opExp_correct_witness : computes2 opExp 2 255 (2 ^ 255).
Proof. apply (opExp_correct 2 255); done. Defined.

Lemma shifts_correct_witness :
  computes2 opSAR 300 (two256 - 5) (two256 - 1) /\ computes2 opSHL 4 3 48.
Proof.
  split; [apply (shifts_correct 300 (two256 - 5))|apply (shifts_correct 4 3)]; done.
Defined.

Lemma push_correct_witness :
  let c := demo_contract [x61; xff] 100 in
  opPush2 (demo_interp all_forks) (mkFrame 0 [] NewMemory c demo_world) =
    Val (([], None), mkFrame 2 [65280] NewMemory c demo_world).
Proof.
  apply (push_correct 2 (demo_interp all_forks) 0 [] NewMemory (demo_contract [x61; xff] 100) demo_world);
    done.
Defined.

(** JUMPDEST inside push data: PUSH1 0x5b, JUMPDEST. *)
Lemma opJump_correct_witness :
  exists r c' w' p', opJump (demo_interp all_forks)
      (mkFrame 3 [2] NewMemory (demo_contract [x60; x5b; x5b; x56] 100) demo_world) =
    Val (([], r), mkFrame p' [] NewMemory c' w') /\ r = None /\ u64 (p' + 1) = 2.
Proof.
  destruct (opJump_correct demo_code_of 2 (demo_interp all_forks) 3 [] NewMemory
    (demo_contract [x60; x5b; x5b; x56] 100) demo_world) as (r & c' & w' & p' & E & H1 & _).
  - done.
  - by apply demo_contract_ok.
  - apply demo_world_ok.
  - exists r, c', w', p'. split; [exact E|]. apply H1. split; [reflexivity|]. intros _. by exists 1%nat.
Defined.

Lemma write_protection_witness :
  let f := mkFrame 0 [1; 2] NewMemory (demo_contract [x55] 100) (with_readOnly demo_world true) in
  opSstore (demo_interp all_forks) f = Val (([], Some ErrWriteProtection), f).
Proof.
  apply (write_protection (demo_interp all_forks)
    (mkFrame 0 [1; 2] NewMemory (demo_contract [x55] 100) (with_readOnly demo_world true)));
    [reflexivity|]. left.
Defined.

Lemma callGas_correct_witness : callGas true 6500 100 two64 = (6300, None).
Proof.
  destruct (callGas_correct 6500 100 two64) as (H & _); [done..|]. apply H. discriminate.
Defined.
