(* ===== verification/TableSpec.v ===== *)
(** * Instruction tables: shape, and the configuration's extra EIPs

    Every fork's table is complete and its stack bounds exact; enabling EIPs through
    the configuration keeps a table complete, and does what it says when every number
    is known. Two theorems record what happens otherwise. *)

From S2P Require Import Machine GasTable Instructions JumpTable Interpreter MemoryGas FrameOk.
From S2P Require Import GasSafe ExecSafe TableSafe ForkSafe Instances.
Import params.

Section TableSpec.
Context {U : Uint256} {K : Keccak} {DB : StateDB} {L : LRU}.

(** An entry whose arities are small and whose dynamic memory is paid for. *)
Definition entry_ok (o : operation) : Prop :=
  (0 <= numPop o <= 100 /\ 0 <= numPush o <= 100) /\
  (isSome (memorySize o) = true -> isSome (dynamicGas o) = true).

(** All 256 entries are set. *)
Definition complete (jt : list (option operation)) : Prop :=
  length jt = 256%nat /\ forall i e, jt !! i = Some e -> exists o, e = Some o /\ entry_ok o.

Lemma jt_set_complete i o (jt : list (option operation)) :
  complete jt -> entry_ok o -> returns (jt_set i o jt) complete.
Proof.
  unfold jt_set, JumpTable in *. intros [Hl H] Ho. eexists. split; [reflexivity|].
  split; [by rewrite length_insert|].
  intros j e. destruct (decide (Z.to_nat i = j)) as [<-|Hj].
  - intros E. pose proof (lookup_lt_Some _ _ _ E) as Hlt. rewrite length_insert in Hlt.
    rewrite list_lookup_insert_eq in E by assumption. injection E as <-. eauto.
  - rewrite list_lookup_insert_ne by assumption. apply H.
Qed.

Lemma jt_upd_complete i g (jt : list (option operation)) :
  complete jt -> 0 <= i < 256 -> (forall o, entry_ok o -> entry_ok (g o)) ->
  returns (jt_upd i g jt) complete.
Proof.
  intros Hc Hi Hg. pose proof Hc as [Hl H]. unfold jt_upd, JumpTable in *.
  destruct (lookup_lt_is_Some_2 jt (Z.to_nat i)) as [e E]; [lia|]. rewrite E.
  destruct (H _ _ E) as (o & -> & Ho). apply (jt_set_complete i (g o) jt); auto.
Qed.

Lemma validate_complete (jt : list (option operation)) :
  complete jt -> returns (validateAndFillMaxStack jt) complete.
Proof.
  intros [Hl H]. destruct (validate_spec (fun _ _ => True) jt) as (jt' & E & Hl' & H').
  - intros i e Ei. destruct (H _ _ Ei) as (o & -> & Ho & Hm). exists o. auto.
  - exists jt'. split; [exact E|]. split; [congruence|]. intros i e Ei.
    destruct (H' _ _ Ei) as (o & Eo & ->). destruct (H _ _ Eo) as (o' & [= <-] & Ho).
    eexists. split; [reflexivity|]. exact Ho.
Qed.

Lemma keep_const k o : entry_ok o -> entry_ok (with_constantGas k o).
Proof. exact (fun H => H). Qed.
Lemma keep_dyn g o : entry_ok o -> entry_ok (with_dynamicGas g o).
Proof. intros [H1 H2]. by split. Qed.
Lemma keep_exec e o : entry_ok o -> entry_ok (with_execute e o).
Proof. exact (fun H => H). Qed.

(** Follow a chain of table writes. *)
Ltac table_writes :=
  repeat match goal with
  | |- returns (_ ≫= _) _ => eapply returns_bind; [|intros ? ?]
  | |- returns (jt_upd _ _ _) _ =>
      apply jt_upd_complete; [assumption|done|by (apply keep_const || apply keep_dyn || apply keep_exec)]
  | |- returns (jt_set _ _ _) _ => apply jt_set_complete; [assumption|]
  | |- entry_ok _ => split; cbn; [lia|done]
  end.

Lemma lookupEip_in {A} n (l : list (Z * A)) a : lookupEip n l = Some a -> (n, a) ∈ l.
Proof.
  induction l as [|[k b] l IH]; cbn; [discriminate|]. destruct (Z.eqb_spec k n) as [->|].
  - intros [= ->]. left.
  - intros H. right. auto.
Qed.

Lemma activators_complete n f (jt : list (option operation)) :
  lookupEip n activators = Some f -> complete jt -> returns (f jt) complete.
Proof.
  intros E Hc. apply lookupEip_in in E. unfold activators in E.
  repeat (apply elem_of_cons in E; destruct E as [[= -> ->]|E]); [..|by apply elem_of_nil in E];
    unfold enable7702, enable7516, enable6780, enable5656, enable4844, enable3860, enable3855,
      enable3529, enable3198, enable2929, enable2200, enable1884, enable1344, enable1153;
    table_writes.
Qed.

Lemma EnableEIP_complete n (jt : list (option operation)) :
  complete jt -> ValidEip n = true ->
  exists jt', EnableEIP n jt = Val (jt', None) /\ complete jt'.
Proof.
  unfold ValidEip, EnableEIP. intros Hc H. destruct (lookupEip n activators) as [f|] eqn:E; [|discriminate].
  destruct (activators_complete n f jt E Hc) as (j1 & -> & H1). cbn [mbind Res_bind].
  destruct (validate_complete j1 H1) as (j2 & -> & H2). eauto.
Qed.

(** Enabling a list of EIPs in order. *)
Fixpoint enable_all (eips : list Z) (jt : JumpTable) : Res JumpTable :=
  match eips with
  | [] => Val jt
  | n :: rest => '(jt, _) ← EnableEIP n jt; enable_all rest jt
  end.

Lemma extraEips_loop_valid rest : forall pre jt,
  Forall (fun n => ValidEip n = true) rest -> complete jt ->
  exists jt', enable_all rest jt = Val jt' /\ complete jt' /\
    extraEips_loop (length rest) (zlen pre) (pre ++ rest) (zlen (pre ++ rest)) jt =
      Val (jt', pre ++ rest, zlen (pre ++ rest)).
Proof.
  induction rest as [|n rest IH]; intros pre jt Hv Hc; cbn [enable_all length extraEips_loop].
  - exists jt. auto.
  - apply Forall_cons in Hv. destruct Hv as [Hn Hv].
    rewrite (go_index_lookup _ _ n); [|apply zlen_nonneg|].
    2: { unfold zlen. rewrite Nat2Z.id, lookup_app_r, Nat.sub_diag by lia. reflexivity. }
    destruct (EnableEIP_complete n jt Hc Hn) as (j1 & E & H1). cbn [mbind Res_bind].
    rewrite E. cbn [mbind Res_bind]. destruct (IH (pre ++ [n]) j1 Hv H1) as (j2 & E2 & H2 & E3).
    exists j2. split; [exact E2|]. split; [exact H2|].
    rewrite <- (app_assoc pre [n] rest) in E3. cbn [app] in E3.
    rewrite zlen_app in E3. exact E3.
Qed.

Lemma copyJumpTable_id jt : copyJumpTable jt = jt.
Proof. unfold copyJumpTable. induction jt as [|[o|] jt IH]; cbn; by rewrite ?IH. Qed.

Context {US : Uint256Spec U} {KS : KeccakSpec K} {DS : StateDBSafe DB} {LS : LRUSpec L}.

Lemma selectInstructionSet_complete rules :
  returns (selectInstructionSet rules) (fun jt => complete jt /\ jt_filled jt).
Proof.
  destruct (selectInstructionSet_gen (BF := true) (fun _ => []) True rules true) as (jt & E & [Hl H] & Hf);
    [reflexivity|reflexivity|]. exists jt. split; [exact E|]. split; [|exact Hf]. split; [exact Hl|].
  intros i e Ei. pose proof (lookup_lt_Some _ _ _ Ei) as Hi. destruct (H (Z.of_nat i)) as (o & Eo & Ho & _); [lia|].
  rewrite Nat2Z.id, Ei in Eo. injection Eo as ->. exists o. split; [reflexivity|].
  split; [apply (oo_arity _ _ _ _ _ Ho)|]. intros Hm. destruct (memorySize o) as [g|] eqn:Em; [|discriminate].
  by apply (oo_ms _ _ _ _ _ Ho g).
Qed.

(** ** Properties *)

(** C7 For any chain rules the instruction set is built without a panic and is
    complete: all 256 opcodes have an entry, the entry's stack limit is exactly 1024
    plus what it pops less what it pushes, and an entry that grows memory has a gas
    function that charges for it. *)
Theorem selectInstructionSet_total rules :
  exists jt, selectInstructionSet rules = Val jt /\ length jt = 256%nat /\
    forall op, 0 <= op < 256 ->
      exists o, fetch jt op = Val o /\ 0 <= numPop o /\ 0 <= numPush o /\
        maxStack o = StackLimit + numPop o - numPush o /\
        (isSome (memorySize o) = true -> isSome (dynamicGas o) = true).
Proof.
  destruct (selectInstructionSet_complete rules) as (jt & E & [Hl H] & Hf).
  exists jt. split; [exact E|]. split; [exact Hl|]. intros op Hop.
  destruct (lookup_lt_is_Some_2 jt (Z.to_nat op)) as [e Ee]; [lia|].
  destruct (H _ _ Ee) as (o & -> & Ha & Hm). exists o.
  unfold fetch. rewrite (go_index_lookup jt op (Some o)) by (assumption || lia).
  repeat split; try lia; [|exact Hm]. by apply (Hf (Z.to_nat op)).
Qed.

(** When every extra EIP of the configuration is known, [NewEVMInterpreter] never
    panics, keeps the list as it is and enables exactly those EIPs in order. *)
Theorem NewEVMInterpreter_valid rules cfg :
  Forall (fun n => ValidEip n = true) (ExtraEips cfg) ->
  exists jt base, selectInstructionSet rules = Val base /\
    NewEVMInterpreter rules cfg = Val (jt, ExtraEips cfg) /\
    enable_all (ExtraEips cfg) base = Val jt /\ length jt = 256%nat.
Proof.
  intros Hv. destruct (selectInstructionSet_complete rules) as (base & E & Hc & _).
  destruct (extraEips_loop_valid (ExtraEips cfg) [] base Hv Hc) as (jt & Ea & Hj & El).
  exists jt, base. split; [exact E|]. split; [|split; [exact Ea|apply Hj]].
  unfold NewEVMInterpreter. rewrite E. cbn [mbind Res_bind]. destruct (Z.ltb_spec 0 (zlen (ExtraEips cfg))).
  - rewrite copyJumpTable_id. cbn [app] in El. change (zlen []) with 0 in El. rewrite El.
    cbn [mbind Res_bind]. unfold zlen. rewrite Nat2Z.id, take_ge by lia. reflexivity.
  - destruct (ExtraEips cfg) as [|n l]; [injection Ea as <-; reflexivity|].
    rewrite zlen_cons in *. pose proof (zlen_nonneg l). lia.
Qed.
End TableSpec.

Lemma selectInstructionSet_total_witness :
  exists jt, selectInstructionSet all_forks = Val jt /\ length jt = 256%nat.
Proof.
  destruct (selectInstructionSet_total all_forks) as (jt & H1 & H2 & _). exists jt. auto.
Defined.

Lemma NewEVMInterpreter_valid_witness :
  exists jt base, selectInstructionSet all_forks = Val base /\
    NewEVMInterpreter all_forks (mkConfig false false false false [3855; 1344]) = Val (jt, [3855; 1344]) /\
    length jt = 256%nat.
Proof.
  destruct (NewEVMInterpreter_valid all_forks (mkConfig false false false false [3855; 1344]))
    as (jt & base & H1 & H2 & _ & H3); [repeat constructor|]. exists jt, base. auto.
Defined.

Definition table_of (rules : Rules) (eips : list Z) : Res (JumpTable * list Z) :=
  NewEVMInterpreter rules (mkConfig false false false false eips).

(** What the entry of an opcode pushes, and the EIPs the configuration keeps. *)
Definition pushes_at (op : Z) (r : Res (JumpTable * list Z)) : option (Z * list Z) :=
  match r with
  | Val (jt, eips) => match fetch jt op with Val o => Some (numPush o, eips) | _ => None end
  | _ => None
  end.

(** The loop over the extra EIPs removes an unknown number from the slice it is
    ranging over: the EIP after it is skipped, although the configuration keeps it
    (PUSH0 stays undefined while EIP-3855 is listed as enabled), and two unknown
    numbers in a row make it panic. *)
Theorem ExtraEips_skipped :
  pushes_at OpCode.PUSH0 (table_of no_forks [3855; 1344]) = Some (1, [3855; 1344]) /\
  pushes_at OpCode.PUSH0 (table_of no_forks [9999; 3855; 1344]) = Some (0, [3855; 1344]) /\
  table_of no_forks [9998; 9999] = Panic "slice bounds out of range".
Proof. vm_compute. auto. Qed.

(** Enabling EIP-2929 through the configuration on a fork that does not define
    EXTCODEHASH installs a gas function that reads the stack on an entry that requires
    no operand: executing the byte on an empty stack panics instead of failing with
    the invalid-opcode error. *)
Theorem enable2929_undefined_panics :
  match table_of no_forks [2929], table_of no_forks [] with
  | Val (jt2929, _), Val (jt, _) =>
      Run 10 (demo_interp no_forks) jt2929 (demo_contract [x3f] 1000) [] false demo_world =
        Panic "index out of range" /\
      exists c w, Run 10 (demo_interp no_forks) jt (demo_contract [x3f] 1000) [] false demo_world =
        Val (([], Some (ErrInvalidOpCode 63), c), w)
  | _, _ => False
  end.
Proof. vm_compute. split; [reflexivity|]. do 2 eexists. reflexivity. Qed.
