(* ===== verification/InterpSafe.v ===== *)
(** * The interpreter is safe and terminates

    [run_loop] run on a well-formed frame with a consistent table never panics, never
    creates gas, keeps the shared state well formed and the stack within its limit;
    every iteration that does not leave the loop costs at least one unit of gas, so
    [Gas + 1] iterations are enough. [Run] inherits both, for the instruction set of
    every fork. *)

From S2P Require Import Machine GasTable Instructions JumpTable Interpreter MemoryGas FrameOk.
From S2P Require Import GasSafe ExecSafe TableSafe ForkSafe Instances.
Import params.

Section InterpSafe.
Context {U : Uint256} {US : Uint256Spec U} {K : Keccak} {KS : KeccakSpec K} {DB : StateDB}
  {DS : StateDBSafe DB} {L : LRU} {LS : LRUSpec L} {BF : BlobFork} (code_of : Z -> bytes) (tol : Prop).
Context (e150 : bool).

(** ** The price of one operation *)

(** Either the operation ends the loop, or its price exceeds what it may give back. *)
Lemma op_ok_progress i o :
  op_ok code_of tol e150 i o ->
  exists d halts, 0 <= d /\ op_gas code_of e150 (fun w st => extra_of i w st + d) o /\
    op_exec code_of tol halts i o /\
    (halts = true \/ 1 <= constantGas o + if isSome (dynamicGas o) then d else 0).
Proof.
  intros Ho. pose proof (oo_gas _ _ _ _ _ Ho) as Hg. pose proof (oo_exec _ _ _ _ _ Ho) as He.
  assert (Hg0 : op_gas code_of e150 (fun w st => extra_of i w st + 0) o).
  { intros g E. eapply gas_safe_mono; [exact (Hg g E)|lia|done|done|]. intros. simpl. lia. }
  pose proof (oo_const _ _ _ _ _ Ho) as [Hc _].
  destruct (oo_progress _ _ _ _ _ Ho) as [H|[H|[Hd H]]].
  - exists 0, true. split; [lia|]. split; [exact Hg0|]. split; [exact H|]. by left.
  - exists 0, false. repeat split; try assumption; [lia|right]. destruct (isSome _); lia.
  - exists 1, false. rewrite Hd. repeat split; try assumption; [lia|]. right. lia.
Qed.

(** The memory the operation runs on. *)
Definition grown (sz : Z) (m : Memory) : Memory := if 0 <? sz then Resize sz m else m.

Lemma wp_useGas ok gas p st m c w (Q : bool -> Frame -> Prop) :
  (Gas c < gas -> Q false (mkFrame p st m c w)) ->
  (gas <= Gas c -> Q true (mkFrame p st m (with_Gas c (Gas c - gas)) w)) ->
  wp ok (useGas gas) (mkFrame p st m c w) Q.
Proof.
  intros H1 H2. unfold wp, useGas, UseGas. cbn [contract]. zbool; cbn iota; [by apply H1|].
  apply H2. lia.
Qed.

Lemma grown_ok m sz w :
  mem_ok m -> 0 <= sz <= MaxMem -> sz = 32 * w -> 0 <= w ->
  mem_ok (grown sz (with_lastGasCost m (Cmem (words_after m sz)))) /\
  sz <= Len (grown sz (with_lastGasCost m (Cmem (words_after m sz)))).
Proof.
  intros Hm Hs -> Hw. assert (Hu : is_u64 (32 * w)) by (unfold is_u64, two64, MaxMem in *; lia).
  assert (E : ToWordSize (32 * w) = w).
  { pose proof (ToWordSize_bounds _ Hu). lia. }
  unfold grown. destruct (Z.ltb_spec 0 (32 * w)) as [H|H].
  - destruct (mem_ok_resize m (32 * w) Hm Hs) as [H1 H2]. rewrite E in H1, H2.
    split; [exact H1|]. rewrite H2. unfold words_after. rewrite E. lia.
  - assert (w = 0) as -> by lia. change (32 * 0) with 0. rewrite <- paid_zero by assumption.
    replace (with_lastGasCost m (lastGasCost m)) with m by (by destruct m).
    split; [assumption|]. apply zlen_nonneg.
Qed.

(** After [chargeDynamic]: on success the memory, once grown, is paid for and covers
    the operation's windows, and the charge is at least [lo]. *)
Definition charge_post (o : operation) (lo : World -> stack -> Z) (p : Z) (st : stack) (m : Memory)
    (c : Contract) (w : World) (r : Error + Z) (f' : Frame) : Prop :=
  exists lg g w', f' = mkFrame p st (with_lastGasCost m lg) (with_Gas c g) w' /\
    world_ok code_of w' /\ readOnly w' = readOnly w /\ depth w' = depth w /\ 0 <= g <= Gas c /\
    forall sz, r = inr sz ->
      let m' := grown sz (with_lastGasCost m lg) in
      mem_ok m' /\ covers (memorySize o) st m' /\
      (isSome (dynamicGas o) = true -> g + lo w' st <= Gas c).

Lemma charge_err o lo p st m c w lg g w' e :
  world_ok code_of w' -> readOnly w' = readOnly w -> depth w' = depth w -> 0 <= g <= Gas c ->
  charge_post o lo p st m c w (inl e) (mkFrame p st (with_lastGasCost m lg) (with_Gas c g) w').
Proof.
  intros H1 H2 H3 H4. exists lg, g, w'. do 5 (split; [assumption || reflexivity|]).
  intros sz [=].
Qed.

Lemma mkFrame_same p st m c w :
  mkFrame p st m c w = mkFrame p st (with_lastGasCost m (lastGasCost m)) (with_Gas c (Gas c)) w.
Proof. by destruct m, c. Qed.

(** The gas function and its charge, once the memory size is known. *)
Lemma charge_gas_ok ip o lo g p st m c w sz k :
  gas_safe code_of (numPop o) (isSome (memorySize o)) e150 lo g ->
  dynamicGas o = Some g ->
  (e150 = true -> IsTangerineWhistle (chainRules (env ip)) = true) ->
  numPop o <= zlen st -> Forall is_u256 st -> mem_ok m -> contract_ok code_of c -> world_ok code_of w ->
  is_u64 sz -> sz = 32 * k -> (isSome (memorySize o) = false -> sz = 0) ->
  (forall m', sz <= Len m' -> covers (memorySize o) st m') ->
  wp False ('(dynamicCost, err) ← g ip sz;
            match err with
            | Some e => mret (inl (ErrorfWV ErrOutOfGas e))
            | None =>
                ok ← useGas dynamicCost;
                if ok : bool then mret (inr sz) else mret (inl ErrOutOfGas)
            end) (mkFrame p st m c w) (charge_post o lo p st m c w).
Proof.
  intros Hg Ed He Hn Hst Hm Hc Hw Hsz Hk Hno Hcov. apply wp_bind.
  eapply wp_mono; [by apply Hg|].
  intros [cost err] f' (lg & g' & w' & -> & Hw' & Hro & Hdep & Hgas & Hcost & Hok). cbn [fst snd] in *.
  destruct err as [e|]; [by apply wp_ret, charge_err|].
  destruct (Hok eq_refl) as (Hmax & -> & Hlo). apply wp_bind, wp_useGas; cbn [Gas with_Gas]; intros H.
  { apply wp_ret, charge_err; auto. }
  apply wp_ret. exists (Cmem (words_after m sz)), (g' - cost), w'.
  destruct (grown_ok m sz k Hm) as [H1 H2]; [unfold is_u64 in *; lia|assumption|unfold is_u64 in *; lia|].
  split; [reflexivity|]. destruct Hcost as [Hcost _]. repeat (split; [assumption||lia|]).
  intros ? [= <-]. split; [exact H1|]. split; [by apply Hcov|]. intros _. lia.
Qed.

Lemma chargeDynamic_ok ip i o lo p st m c w :
  op_ok code_of tol e150 i o -> op_gas code_of e150 lo o ->
  (e150 = true -> IsTangerineWhistle (chainRules (env ip)) = true) ->
  numPop o <= zlen st -> Forall is_u256 st -> mem_ok m -> contract_ok code_of c -> world_ok code_of w ->
  wp False (chargeDynamic ip o) (mkFrame p st m c w) (charge_post o lo p st m c w).
Proof.
  intros Ho Hlo He Hn Hst Hm Hc Hw. unfold chargeDynamic.
  pose proof (co_gas _ _ Hc) as [Hgas _].
  destruct (dynamicGas o) as [g|] eqn:Ed.
  - specialize (Hlo g Ed). apply wp_bind, wp_gets. cbn [stk]. apply wp_bind.
    destruct (memorySize o) as [ms|] eqn:Em.
    + destruct (oo_ms _ _ _ _ _ Ho ms Em) as [Hms _].
      destruct (Hms st Hn Hst) as ([memSize ov] & Er & Hr). cbn [fst] in Hr.
      apply wp_bind. eapply wp_lift; [exact Er|]. destruct ov.
      { apply wp_ret, wp_ret. rewrite mkFrame_same. apply charge_err; auto; lia. }
      pose proof (ToWordSize_u64 _ Hr) as Hts. pose proof (ToWordSize_bounds _ Hr) as Htb.
      destruct (SafeMul_cases (ToWordSize memSize) 32 Hts ltac:(done)) as [[Hlt ->]|[_ [s ->]]].
      * apply wp_ret. apply (charge_gas_ok ip o lo g p st m c w _ (ToWordSize memSize)); try assumption.
        -- by rewrite Em.
        -- unfold is_u64 in *. lia.
        -- lia.
        -- rewrite Em. discriminate.
        -- intros m' Hlen. rewrite Em. exists memSize. split; [exact Er|lia].
      * apply wp_ret, wp_ret. rewrite mkFrame_same. apply charge_err; auto; lia.
    + apply wp_ret. apply (charge_gas_ok ip o lo g p st m c w 0 0); try assumption; try done.
      * by rewrite Em.
      * rewrite Em. done.
  - apply wp_ret. rewrite mkFrame_same. exists (lastGasCost m), (Gas c), w.
    split; [reflexivity|]. repeat (split; [assumption||reflexivity||lia|]).
    intros sz [= <-]. unfold grown. cbn [Z.ltb Z.compare].
    replace (with_lastGasCost m (lastGasCost m)) with m by (by destruct m).
    split; [assumption|]. rewrite Ed. split; [|discriminate].
    destruct (memorySize o) as [g|] eqn:Em; [|exact I].
    destruct (oo_ms _ _ _ _ _ Ho g Em) as [_ H]. by rewrite Ed in H.
Qed.

(** ** One iteration *)

(** Between iterations: the frame invariant and the stack limit. *)
Record loop_ok (f : Frame) : Prop := mkLoopOk {
  lo_frame : frame_ok code_of f;
  lo_stack : zlen (stk f) <= StackLimit
}.

(** What the loop, or an iteration that ends it, leaves behind. *)
Record run_post (c : Contract) (w : World) (r : bytes * option Error) (f' : Frame) : Prop := mkRunPost {
  rp_world : world_ok code_of (world f');
  rp_ret : go_len r.1;
  rp_ro : readOnly (world f') = readOnly w;
  rp_depth : depth (world f') = depth w;
  rp_gas : 0 <= Gas (contract f') <= Gas c;
  rp_code : Code (contract f') = Code c
}.

Definition iter_post (f : Frame) (r : (bytes * option Error) + bytes) (f' : Frame) : Prop :=
  match r with
  | inl r => run_post (contract f) (world f) r f'
  | inr res => loop_ok f' /\ run_post (contract f) (world f) (res, None) f' /\
               Gas (contract f') < Gas (contract f)
  end.

Lemma run_post_ret c w p st m c' w' e :
  world_ok code_of w' -> readOnly w' = readOnly w -> depth w' = depth w ->
  0 <= Gas c' <= Gas c -> Code c' = Code c ->
  run_post c w ([], e) (mkFrame p st m c' w').
Proof. intros. split; try assumption. done. Qed.

Lemma GetOp_ok c p :
  is_u64 p -> exists op, GetOp c p = Val op /\ 0 <= op < 256 /\ (op <> OpCode.STOP -> p < zlen (Code c)).
Proof.
  intros Hp. unfold GetOp. destruct (Z.ltb_spec p (zlen (Code c))) as [H|H].
  - destruct (go_index_val (Code c) p) as (b & -> & _); [unfold is_u64 in *; lia|].
    exists (byteZ b). split; [reflexivity|]. pose proof (byteZ_range b). split; [lia|auto].
  - exists OpCode.STOP. split; [reflexivity|]. split; [done|]. intros []. reflexivity.
Qed.

Lemma fetch_ok jt op :
  table_ok code_of tol e150 jt -> 0 <= op < 256 ->
  exists o, fetch jt op = Val o /\ op_ok code_of tol e150 op o /\
    maxStack o = StackLimit + numPop o - numPush o.
Proof.
  intros [[Hlen H] Hf] Hop. destruct (H op Hop) as (o & E & Ho & _). exists o.
  unfold fetch. rewrite (go_index_lookup jt op (Some o)) by (assumption || lia).
  split; [reflexivity|]. split; [exact Ho|]. by apply (Hf (Z.to_nat op)).
Qed.

(** Executing an operation whose price was paid. *)
Lemma execute_ok ip i o halts d p st m c c0 w w0 :
  interp_ok code_of tol ip -> op_exec code_of tol halts i o ->
  (i <> OpCode.STOP -> p < zlen (Code c)) ->
  (halts = true \/ Gas c + extra_at i o w st + 1 <= Gas c0) -> d = extra_at i o w st ->
  Gas c + d <= Gas c0 -> Code c = Code c0 ->
  0 <= numPop o <= zlen st -> zlen st <= StackLimit + numPop o - numPush o ->
  Forall is_u256 st -> is_u64 p -> mem_ok m -> covers (memorySize o) st m ->
  contract_ok code_of c -> world_ok code_of w ->
  readOnly w = readOnly w0 -> depth w = depth w0 ->
  wp tol ('(res, err) ← execute o ip;
          match err with
          | Some e => mret (inl (res, if error_eqb e errStopToken then None else Some e))
          | None =>
              _ ← modify (fun f => with_pc f (u64 (pc f + 1)));
              mret (inr res)
          end) (mkFrame p st m c w)
     (fun r f' => match r with
                  | inl r => run_post c0 w0 r f'
                  | inr res => loop_ok f' /\ run_post c0 w0 (res, None) f' /\
                               Gas (contract f') < Gas c0
                  end).
Proof.
  intros Hip (incode & Hin & He) Hp Hprog -> Hgas Hcode Hn Hmax Hst Hpc Hm Hcov Hc Hw Hro Hdep.
  apply wp_bind. eapply wp_mono.
  { apply He; try assumption; [lia|]. intros Hi. apply Hp, Hin, Hi. }
  intros [res err] f' [Hf Hr Hro' Hdep' Hg Hco Hnext]. cbn [fst snd] in *.
  pose proof (co_gas _ _ (fo_contract _ _ Hf)) as [Hg0 _].
  assert (Hpost : forall e, run_post c0 w0 (res, e) f').
  { intros e. split; try apply Hf; try assumption; try congruence. lia. }
  destruct err as [e|]; [apply wp_ret, Hpost|].
  destruct (Hnext eq_refl) as [-> Hlen]. destruct Hprog as [?|Hprog]; [discriminate|].
  apply wp_bind, wp_modify, wp_ret. split; [|split].
  - destruct Hf. split; [split; try assumption; apply u64_range|]. cbn. lia.
  - destruct (Hpost None). by split.
  - cbn. lia.
Qed.

Lemma iteration_ok ip jt steps res f :
  interp_ok code_of tol ip -> table_ok code_of tol e150 jt ->
  (e150 = true -> IsTangerineWhistle (chainRules (env ip)) = true) ->
  go_len res -> loop_ok f ->
  wp tol (iteration ip jt steps res) f (iter_post f).
Proof.
  intros Hip Hjt He Hres [Hf Hsl].
  assert (Hcan : wp tol (if steps mod 5000 =? 0 then onWorld (Cancelled (env ip)) else mret false) f
    (fun b f' => exists n, f' = with_world (with_abortLoads (world f) n) f)).
  { destruct (_ =? 0).
    - eexists. reflexivity.
    - apply wp_ret. exists (abortLoads (world f)). by destruct f as [? ? ? ? []]. }
  apply wp_bind. eapply wp_mono; [exact Hcan|]. clear Hcan. intros cancelled f' [n ->].
  destruct f as [p st m c w]. cbn [world with_world pc stk mem contract] in *.
  set (w1 := with_abortLoads w n). unfold with_world at 1. cbn [pc stk mem contract]. destruct Hf as [Hpc Hst Hm Hc Hw]. cbn in Hpc, Hst, Hm, Hc, Hw, Hsl.
  assert (Hw1 : world_ok code_of w1) by (destruct Hw; by split).
  pose proof (co_gas _ _ Hc) as Hgas. unfold iter_post. cbn [contract world].
  destruct cancelled.
  { apply wp_ret. split; try assumption; try reflexivity. unfold is_u64 in *. cbn. lia. }
  do 4 fstep. destruct (GetOp_ok c p Hpc) as (op & Eop & Hop & Hin).
  wp_step. eapply wp_lift; [exact Eop|]. destruct (fetch_ok jt op Hjt Hop) as (o & Eo & Ho & Emax).
  wp_step. eapply wp_lift; [exact Eo|]. do 2 fstep.
  pose proof (oo_arity _ _ _ _ _ Ho) as [Hpop Hpush]. pose proof (oo_const _ _ _ _ _ Ho) as [Hconst _].
  unfold stack_len. rewrite Emax. destruct (Z.ltb_spec (zlen st) (numPop o)) as [H1|H1].
  { apply wp_ret, run_post_ret; auto. unfold is_u64 in *. lia. }
  destruct (Z.ltb_spec (StackLimit + numPop o - numPush o) (zlen st)) as [H2|H2].
  { apply wp_ret, run_post_ret; auto. unfold is_u64 in *. lia. }
  wp_step. apply wp_useGas; intros Hafford; cbn [negb].
  { apply wp_ret, run_post_ret; auto. unfold is_u64 in *. lia. }
  destruct (op_ok_progress op o Ho) as (d & halts & Hd & Hg & Hex & Hprog).
  wp_step. apply wp_total. eapply wp_mono.
  { eapply chargeDynamic_ok; try eassumption. apply contract_ok_gas; [assumption|]. unfold is_u64 in *. lia. }
  intros charged f' (lg & g & w' & -> & Hw' & Hro & Hdep & Hgle & Hok). cbn [Gas with_Gas] in Hgle, Hok.
  destruct charged as [e|sz].
  { apply wp_ret, run_post_ret; auto. cbn. unfold is_u64 in *. lia. }
  destruct (Hok sz eq_refl) as (Hm' & Hcov & Hpaid). wp_step.
  assert (Hgrow : forall m1 c1 w1 Q, Q tt (mkFrame p st (grown sz m1) c1 w1) ->
    wp tol (if 0 <? sz then modify (fun f => with_mem f (Resize sz (mem f))) else mret tt)
      (mkFrame p st m1 c1 w1) Q).
  { intros m1 c1 w2 Q HQ. unfold grown in HQ. by destruct (0 <? sz). }
  apply Hgrow. eapply (execute_ok ip op o halts); try eassumption; try reflexivity.
  - destruct Hprog as [Hh|Hh]; [by left|right]. cbn [Gas with_Gas] in *. unfold extra_at.
    destruct (isSome (dynamicGas o)); [specialize (Hpaid eq_refl)|unfold no_extra]; lia.
  - cbn [Gas with_Gas] in *. unfold extra_at.
    destruct (isSome (dynamicGas o)); [specialize (Hpaid eq_refl)|unfold no_extra]; lia.
  - lia.
  - apply contract_ok_gas; [apply contract_ok_gas; [assumption|]|]; unfold is_u64 in *; lia.
Qed.

(** ** The loop *)

Lemma run_post_trans c w r c' w' r' f f' :
  contract f = c' -> world f = w' ->
  run_post c w r f -> run_post c' w' r' f' -> run_post c w r' f'.
Proof.
  intros <- <- [] []. split; try assumption; try congruence. lia.
Qed.

Lemma run_loop_ok ip jt :
  interp_ok code_of tol ip -> table_ok code_of tol e150 jt ->
  (e150 = true -> IsTangerineWhistle (chainRules (env ip)) = true) ->
  forall fuel steps res f,
    go_len res -> loop_ok f -> (tol \/ Gas (contract f) < Z.of_nat fuel) ->
    wp tol (run_loop fuel ip jt steps res) f (run_post (contract f) (world f)).
Proof.
  intros Hip Hjt He. induction fuel as [|fuel IH]; intros steps res f Hres Hf Hfuel.
  - destruct Hfuel as [H|H]; [exact H|]. destruct (co_gas _ _ (fo_contract _ _ (lo_frame _ Hf))). lia.
  - cbn [run_loop]. apply wp_bind. eapply wp_mono; [by apply iteration_ok|].
    intros [r|r] f' Hr; [by apply wp_ret|]. destruct Hr as (Hf' & Hpost & Hlt).
    eapply wp_mono; [apply IH; [apply Hpost|exact Hf'|]|].
    + destruct Hfuel; [by left|right; lia].
    + intros r' f''. by apply (run_post_trans _ _ (r, None) _ _ _ f').
Qed.

(** ** [Run] *)

Definition Run_post (c : Contract) (w : World) (r : bytes * option Error * Contract) (w' : World)
    : Prop :=
  world_ok code_of w' /\ go_len r.1.1 /\ readOnly w' = readOnly w /\ depth w' = depth w /\
  0 <= Gas r.2 <= Gas c /\ Code r.2 = Code c.

Lemma contract_ok_input c i : contract_ok code_of c -> go_len i -> contract_ok code_of (with_Input c i).
Proof. intros [] H. by split. Qed.

Lemma world_ok_entry w b d :
  world_ok code_of w -> world_ok code_of (with_depth (with_readOnly w b) d) /\
  world_ok code_of (with_depth w d).
Proof. intros []. by split; split. Qed.

Lemma Run_ok ip jt c input ro w fuel :
  interp_ok code_of tol ip -> table_ok code_of tol e150 jt ->
  (e150 = true -> IsTangerineWhistle (chainRules (env ip)) = true) ->
  contract_ok code_of c -> go_len input -> world_ok code_of w ->
  (tol \/ Gas c < Z.of_nat fuel) ->
  wp tol (Run fuel ip jt c input ro) w (Run_post c w).
Proof.
  intros Hip Hjt He Hc Hin Hw Hfuel. unfold wp, Run.
  pose proof (co_gas _ _ Hc) as [Hg0 _].
  destruct (zlen (Code c) =? 0).
  { split; [exact Hw|]. split; [apply go_len_nil|]. repeat split; cbn; lia. }
  set (w1 := with_returnData w []). assert (Hw1 : world_ok code_of w1) by (destruct Hw; by split).
  set (w2 := with_depth _ _). set (f := mkFrame _ _ _ _ _).
  assert (Hw2 : world_ok code_of w2).
  { unfold w2. destruct (ro && _); by apply (world_ok_entry w1 true). }
  assert (Hf : loop_ok f).
  { split; [|done]. split; try done. by apply contract_ok_input. }
  pose proof (run_loop_ok ip jt Hip Hjt He fuel 0 [] f (go_len_nil) Hf Hfuel) as H.
  unfold wp in H. destruct (run_loop fuel ip jt 0 [] f) as [[r f']| |]; try assumption.
  destruct H as [H1 H2 H3 H4 H5 H6]. cbn in H3, H4, H5, H6. unfold Run_post. cbn [fst snd].
  assert (Er : readOnly w2 = (ro && negb (readOnly w)) || readOnly w).
  { unfold w2. cbn. destruct ro, (readOnly w) eqn:E; cbn; congruence. }
  assert (Ed : depth w2 = depth w + 1) by (unfold w2; by destruct (ro && _)).
  change (readOnly w1) with (readOnly w). split; [|split; [exact H2|split; [|split; [|done]]]].
  - destruct (ro && _); by apply (world_ok_entry (world f') false).
  - destruct ro, (readOnly w) eqn:E; cbn in *; congruence.
  - destruct (ro && _); cbn in *; lia.
Qed.
End InterpSafe.

(** ** Properties *)

Section Properties.
Context {U : Uint256} {US : Uint256Spec U} {K : Keccak} {KS : KeccakSpec K} {DB : StateDB}
  {DS : StateDBSafe DB} {L : LRU} {LS : LRUSpec L} (code_of : Z -> bytes).

(** C1 A call frame is memory safe and conserves gas on every fork, given that the calls it
    makes do: for any chain rules the instruction set is built, and running any code on any
    input with it, for any number of steps, never panics; when it returns, the gas left is
    at most the gas given, the read-only flag and the call depth are restored and the shared
    state is well formed. What is assumed of nested calls ([calls_ok]) is what is proved of
    the frame: no panic, a well-formed state, at most the gas given, the read-only flag and
    the depth restored. The context has the pointers the instructions of the fork read (the
    blob base fee only where BLOBBASEFEE exists), and cached analyses belong to the code
    their hash names. *)
Theorem Run_safe ip c input ro w fuel :
  interp_ok (BF := blob_fork (chainRules (env ip))) code_of True ip -> rules_ok (chainRules (env ip)) ->
  contract_ok code_of c -> go_len input -> world_ok code_of w ->
  exists jt, selectInstructionSet (chainRules (env ip)) = Val jt /\
    wp True (Run fuel ip jt c input ro) w (fun r w' =>
      world_ok code_of w' /\ go_len r.1.1 /\ readOnly w' = readOnly w /\ depth w' = depth w /\
      0 <= Gas r.2 <= Gas c /\ Code r.2 = Code c).
Proof.
  intros Hip Hr Hc Hin Hw.
  destruct (selectInstructionSet_ok (BF := blob_fork (chainRules (env ip))) code_of True _ Hr (fun H => H)) as (jt & E & Hjt).
  exists jt. split; [exact E|].
  apply (Run_ok (BF := blob_fork (chainRules (env ip))) code_of True (IsTangerineWhistle (chainRules (env ip)))); auto.
Qed.

(** C2 A call frame terminates: whenever the calls it makes return, without a panic, with at
    most the gas given and a well-formed state ([calls_ok]), [Run] returns after at most one
    iteration per unit of gas and one more, on every fork, whatever the code does. The
    context has the pointers the instructions of the fork read, and cached analyses belong to
    the code their hash names. *)
Theorem Run_terminates ip c input ro w fuel :
  interp_ok (BF := blob_fork (chainRules (env ip))) code_of False ip -> rules_ok (chainRules (env ip)) ->
  contract_ok code_of c -> go_len input -> world_ok code_of w -> Gas c < Z.of_nat fuel ->
  exists jt ret err c' w', selectInstructionSet (chainRules (env ip)) = Val jt /\
    Run fuel ip jt c input ro w = Val ((ret, err, c'), w') /\ 0 <= Gas c' <= Gas c.
Proof.
  intros Hip Hr Hc Hin Hw Hf.
  destruct (selectInstructionSet_ok (BF := blob_fork (chainRules (env ip))) code_of False _ Hr (fun H => H)) as (jt & E & Hjt).
  destruct (wp_val _ _ _ (Run_ok code_of False _ ip jt c input ro w fuel Hip Hjt (fun H => H) Hc Hin Hw
    (or_intror Hf))) as ([[ret err] c'] & w' & Er & _ & _ & _ & _ & Hg & _).
  exists jt, ret, err, c', w'. auto.
Qed.

(** C3 Every iteration keeps the loop invariant and makes progress: from a frame whose
    stack is within the limit, with a table whose entries are consistent and callees that
    behave ([calls_ok]), an iteration does not panic and either ends the loop or leaves a
    frame whose stack is again within the limit, whose memory is paid for and whose gas is
    strictly smaller. The context has the pointers the instructions of the fork read. *)
Theorem iteration_progress ip jt steps res f :
  interp_ok (BF := blob_fork (chainRules (env ip))) code_of True ip ->
  table_ok (BF := blob_fork (chainRules (env ip))) code_of True (IsTangerineWhistle (chainRules (env ip))) jt ->
  go_len res -> frame_ok code_of f -> zlen (stk f) <= StackLimit ->
  wp True (iteration ip jt steps res) f (fun r f' =>
    0 <= Gas (contract f') <= Gas (contract f) /\
    match r with
    | inl _ => True
    | inr _ => frame_ok code_of f' /\ mem_ok (mem f') /\ zlen (stk f') <= StackLimit /\
               Gas (contract f') < Gas (contract f)
    end).
Proof.
  intros Hip Hjt Hres Hf Hs.
  eapply wp_mono; [by apply (iteration_ok (BF := blob_fork (chainRules (env ip))) code_of True _ ip jt steps res f Hip Hjt)|].
  intros [r|r] f' Hr; [split; [apply Hr|exact I]|]. destruct Hr as ([Hf' Hs'] & Hp & Hlt).
  split; [apply Hp|]. split; [exact Hf'|]. split; [apply Hf'|]. auto.
Qed.
End Properties.

(** PUSH1 2, PUSH1 3, MUL, PUSH1 0, MSTORE, PUSH1 32, PUSH1 0, RETURN. *)
Definition demo_code : bytes :=
  [x60; x02; x60; x03; x02; x60; x00; x52; x60; x20; x60; x00; xf3].

Lemma Run_safe_witness :
  exists jt, selectInstructionSet all_forks = Val jt /\
    wp True (Run 20 (demo_interp all_forks) jt (demo_contract demo_code 1000) [] false) demo_world
      (fun r w' => 0 <= Gas r.2 <= 1000).
Proof.
  destruct (Run_safe demo_code_of (demo_interp all_forks) (demo_contract demo_code 1000) [] false
    demo_world 20 (demo_interp_ok True all_forks ltac:(done)) ltac:(done)
    (demo_contract_ok demo_code 1000 ltac:(done) ltac:(done)) ltac:(done) demo_world_ok) as (jt & E & H).
  exists jt. split; [exact E|]. eapply wp_mono; [exact H|]. intros r w' Hr. apply Hr.
Defined.

Lemma Run_terminates_witness :
  exists jt ret err c' w', selectInstructionSet no_forks = Val jt /\
    Run 101 (demo_interp no_forks) jt (demo_contract demo_code 100) [] false demo_world =
      Val ((ret, err, c'), w') /\ 0 <= Gas c' <= 100.
Proof.
  apply (Run_terminates demo_code_of (demo_interp no_forks) (demo_contract demo_code 100) [] false
    demo_world 101).
  - by apply demo_interp_ok.
  - done.
  - by apply demo_contract_ok.
  - done.
  - apply demo_world_ok.
  - done.
Defined.

Lemma iteration_progress_witness :
  exists jt, table_ok (BF := blob_fork all_forks) demo_code_of True true jt /\
    wp True (iteration (demo_interp all_forks) jt 1 [])
      (mkFrame 4 [3; 2] NewMemory (demo_contract demo_code 1000) demo_world)
      (fun r f' => 0 <= Gas (contract f') <= 1000).
Proof.
  destruct (selectInstructionSet_ok (BF := blob_fork all_forks) demo_code_of True all_forks ltac:(done) ltac:(done)) as (jt & _ & Hjt).
  exists jt. split; [exact Hjt|]. eapply wp_mono.
  - apply (iteration_progress demo_code_of (demo_interp all_forks) jt 1 []).
    + by apply demo_interp_ok.
    + exact Hjt.
    + done.
    + split; try done; [repeat constructor; done|by apply demo_contract_ok].
    + done.
  - intros r f' Hr. apply Hr.
Defined.
