(* ===== verification/IntraBlockState.v ===== *)
(** * The intra-block state

    [core/state/intra_block_state.go], [state_object.go] and [journal.go], for a state
    without a version map (sequential execution) and without tracing: the cache of
    account objects over a [StateReader], the journal of undo entries, snapshots, the
    refund counter, logs, the access list and transient storage.

    An object is reached through the map of live objects: the Go code mutates it
    through the pointer the map holds, here the entry of the map is replaced. A
    [BalanceIncrease] is shared between the map and the journal, so the map holds
    references into a heap. *)

From S2P Require Import Prelude Uint256 Params Errors AccessList StateDB Machine.
Import params.

(** ** Data *)

(** [accounts.Account]. *)
Record Account : Type := mkAccount {
  Initialised : bool;
  Nonce : Z;
  Balance : Z;
  Root : Z;
  acc_CodeHash : Z;
  Incarnation : Z;
  PrevIncarnation : Z
}.

Definition zeroAccount : Account := mkAccount false 0 0 0 0 0 0.

(** [Account.Copy] into a fresh account: [PrevIncarnation] is not copied. *)
Definition Account_Copy (image : Account) : Account :=
  mkAccount (Initialised image) (Nonce image) (Balance image) (Root image) (acc_CodeHash image)
    (Incarnation image) 0.

(** [empty.CodeHash] and [empty.RootHash]. *)
Definition empty_CodeHash : Z := 0xc5d2460186f7233c927e7db2dcc703c0e500b653ca82273b7bfad8045d85a470.
Definition empty_RootHash : Z := 0x56e81f171bcc55a6ff8345e692c0f86e5b48e01b996cadc001622fb5e363b421.

(** [StateReader]: the database below the cache. *)
Class StateReader : Type := {
  ReadAccountData : Z -> option Account * option Error;
  ReadAccountStorage : Z -> Z -> Z * bool * option Error;
  reader_HasStorage : Z -> bool * option Error;
  ReadAccountCode : Z -> option bytes * option Error;
  ReadAccountCodeSize : Z -> Z * option Error
}.

Abbreviation Storage := (gmap Z Z).

(** A nil slice or map is [None]. *)
Record stateObject : Type := mkStateObject {
  address : Z;
  data : Account;
  original : Account;
  so_code : option bytes;
  originStorage : Storage;
  blockOriginStorage : Storage;
  dirtyStorage : Storage;
  fakeStorage : option Storage;
  dirtyCode : bool;
  selfdestructed : bool;
  deleted : bool;
  newlyCreated : bool;
  createdContract : bool
}.

Record BalanceIncrease : Type := mkBalanceIncrease {
  increase : Z;
  transferred : bool;
  count : Z
}.

(** The journal entries; [bi] is a reference into the heap of balance increases. *)
Inductive journalEntry : Type :=
| createObjectChange (account : Z)
| resetObjectChange (account : Z) (prev : stateObject)
| selfdestructChange (account : Z) (prev : bool) (prevbalance : Z)
| balanceChange (account : Z) (prev : Z)
| balanceIncrease (account : Z) (increase : Z)
| balanceIncreaseTransfer (bi : nat)
| nonceChange (account : Z) (prev : Z)
| storageChange (account key prevalue : Z) (wasCommited : bool)
| fakeStorageChange (account key prevalue : Z)
| codeChange (account : Z) (prevcode : option bytes) (prevhash : Z)
| refundChange (prev : Z)
| addLogChange (txIndex : Z)
| touchChange (account : Z)
| accessListAddAccountChange (account : Z)
| accessListAddSlotChange (account slot : Z)
| transientStorageChange (account key prevalue : Z).

Record revision : Type := mkRevision { id : Z; journalIndex : Z }.

(** [entries] holds the journal newest entry first. *)
Record IntraBlockState : Type := mkIBS {
  stateObjects : gmap Z stateObject;
  stateObjectsDirty : gset Z;
  nilAccounts : gset Z;
  refund : Z;
  txIndex : Z;
  logs : list (list Log);
  logSize : Z;
  access_list : accessList.t;
  transient_storage : transientStorage.t;
  entries : list journalEntry;
  dirties : gmap Z Z;
  validRevisions : list revision;
  nextRevisionId : Z;
  balanceInc : gmap Z nat;
  bis : list BalanceIncrease
}.

(** Field updates. *)
Definition with_objects (s : IntraBlockState) x := mkIBS x (stateObjectsDirty s) (nilAccounts s)
  (refund s) (txIndex s) (logs s) (logSize s) (access_list s) (transient_storage s) (entries s)
  (dirties s) (validRevisions s) (nextRevisionId s) (balanceInc s) (bis s).
Definition with_objectsDirty (s : IntraBlockState) x := mkIBS (stateObjects s) x (nilAccounts s)
  (refund s) (txIndex s) (logs s) (logSize s) (access_list s) (transient_storage s) (entries s)
  (dirties s) (validRevisions s) (nextRevisionId s) (balanceInc s) (bis s).
Definition with_nilAccounts (s : IntraBlockState) x := mkIBS (stateObjects s) (stateObjectsDirty s) x
  (refund s) (txIndex s) (logs s) (logSize s) (access_list s) (transient_storage s) (entries s)
  (dirties s) (validRevisions s) (nextRevisionId s) (balanceInc s) (bis s).
Definition with_refund (s : IntraBlockState) x := mkIBS (stateObjects s) (stateObjectsDirty s)
  (nilAccounts s) x (txIndex s) (logs s) (logSize s) (access_list s) (transient_storage s) (entries s)
  (dirties s) (validRevisions s) (nextRevisionId s) (balanceInc s) (bis s).
Definition with_logs (s : IntraBlockState) x n := mkIBS (stateObjects s) (stateObjectsDirty s)
  (nilAccounts s) (refund s) (txIndex s) x n (access_list s) (transient_storage s) (entries s)
  (dirties s) (validRevisions s) (nextRevisionId s) (balanceInc s) (bis s).
Definition with_access_list (s : IntraBlockState) x := mkIBS (stateObjects s) (stateObjectsDirty s)
  (nilAccounts s) (refund s) (txIndex s) (logs s) (logSize s) x (transient_storage s) (entries s)
  (dirties s) (validRevisions s) (nextRevisionId s) (balanceInc s) (bis s).
Definition with_transient (s : IntraBlockState) x := mkIBS (stateObjects s) (stateObjectsDirty s)
  (nilAccounts s) (refund s) (txIndex s) (logs s) (logSize s) (access_list s) x (entries s)
  (dirties s) (validRevisions s) (nextRevisionId s) (balanceInc s) (bis s).
Definition with_journal (s : IntraBlockState) e d := mkIBS (stateObjects s) (stateObjectsDirty s)
  (nilAccounts s) (refund s) (txIndex s) (logs s) (logSize s) (access_list s) (transient_storage s) e
  d (validRevisions s) (nextRevisionId s) (balanceInc s) (bis s).
Definition with_revisions (s : IntraBlockState) v n := mkIBS (stateObjects s) (stateObjectsDirty s)
  (nilAccounts s) (refund s) (txIndex s) (logs s) (logSize s) (access_list s) (transient_storage s)
  (entries s) (dirties s) v n (balanceInc s) (bis s).
Definition with_balanceInc (s : IntraBlockState) b h := mkIBS (stateObjects s) (stateObjectsDirty s)
  (nilAccounts s) (refund s) (txIndex s) (logs s) (logSize s) (access_list s) (transient_storage s)
  (entries s) (dirties s) (validRevisions s) (nextRevisionId s) b h.
Definition with_txIndex (s : IntraBlockState) x := mkIBS (stateObjects s) (stateObjectsDirty s)
  (nilAccounts s) (refund s) x (logs s) (logSize s) (access_list s) (transient_storage s) (entries s)
  (dirties s) (validRevisions s) (nextRevisionId s) (balanceInc s) (bis s).

(** [New]. *)
Definition New : IntraBlockState :=
  mkIBS ∅ ∅ ∅ 0 0 [] 0 accessList.newAccessList transientStorage.newTransientStorage [] ∅ [] 0 ∅ [].

(** ** Account and object updates *)

Definition acc_with_Balance (a : Account) b :=
  mkAccount (Initialised a) (Nonce a) b (Root a) (acc_CodeHash a) (Incarnation a) (PrevIncarnation a).
Definition acc_with_Nonce (a : Account) n :=
  mkAccount (Initialised a) n (Balance a) (Root a) (acc_CodeHash a) (Incarnation a) (PrevIncarnation a).
Definition acc_with_CodeHash (a : Account) h :=
  mkAccount (Initialised a) (Nonce a) (Balance a) (Root a) h (Incarnation a) (PrevIncarnation a).
Definition acc_with_Root (a : Account) r :=
  mkAccount (Initialised a) (Nonce a) (Balance a) r (acc_CodeHash a) (Incarnation a) (PrevIncarnation a).
Definition acc_with_Initialised (a : Account) i :=
  mkAccount i (Nonce a) (Balance a) (Root a) (acc_CodeHash a) (Incarnation a) (PrevIncarnation a).
Definition acc_with_Incarnation (a : Account) i :=
  mkAccount (Initialised a) (Nonce a) (Balance a) (Root a) (acc_CodeHash a) i (PrevIncarnation a).
Definition acc_with_PrevIncarnation (a : Account) i :=
  mkAccount (Initialised a) (Nonce a) (Balance a) (Root a) (acc_CodeHash a) (Incarnation a) i.

Definition so_with_data (o : stateObject) d := mkStateObject (address o) d (original o) (so_code o)
  (originStorage o) (blockOriginStorage o) (dirtyStorage o) (fakeStorage o) (dirtyCode o)
  (selfdestructed o) (deleted o) (newlyCreated o) (createdContract o).
Definition so_with_code (o : stateObject) c := mkStateObject (address o) (data o) (original o) c
  (originStorage o) (blockOriginStorage o) (dirtyStorage o) (fakeStorage o) (dirtyCode o)
  (selfdestructed o) (deleted o) (newlyCreated o) (createdContract o).
Definition so_with_dirtyCode (o : stateObject) b := mkStateObject (address o) (data o) (original o)
  (so_code o) (originStorage o) (blockOriginStorage o) (dirtyStorage o) (fakeStorage o) b
  (selfdestructed o) (deleted o) (newlyCreated o) (createdContract o).
Definition so_with_origin (o : stateObject) x y := mkStateObject (address o) (data o) (original o)
  (so_code o) x y (dirtyStorage o) (fakeStorage o) (dirtyCode o)
  (selfdestructed o) (deleted o) (newlyCreated o) (createdContract o).
Definition so_with_dirty (o : stateObject) x := mkStateObject (address o) (data o) (original o)
  (so_code o) (originStorage o) (blockOriginStorage o) x (fakeStorage o) (dirtyCode o)
  (selfdestructed o) (deleted o) (newlyCreated o) (createdContract o).
Definition so_with_fake (o : stateObject) x := mkStateObject (address o) (data o) (original o)
  (so_code o) (originStorage o) (blockOriginStorage o) (dirtyStorage o) x (dirtyCode o)
  (selfdestructed o) (deleted o) (newlyCreated o) (createdContract o).
Definition so_with_flags (o : stateObject) sd nc cc := mkStateObject (address o) (data o) (original o)
  (so_code o) (originStorage o) (blockOriginStorage o) (dirtyStorage o) (fakeStorage o) (dirtyCode o)
  sd (deleted o) nc cc.

(** [stateObject.empty]. *)
Definition so_empty (o : stateObject) : bool :=
  (Nonce (data o) =? 0) && (Balance (data o) =? 0) && (acc_CodeHash (data o) =? empty_CodeHash).

Definition newObject (addr : Z) (d orig : Account) : stateObject :=
  let d := Account_Copy d in
  let d := if negb (Initialised d) then acc_with_Initialised (acc_with_Balance d 0) true else d in
  let d := if acc_CodeHash d =? 0 then acc_with_CodeHash d empty_CodeHash else d in
  let d := if Root d =? 0 then acc_with_Root d empty_RootHash else d in
  mkStateObject addr d (Account_Copy orig) None ∅ ∅ ∅ None false false false false false.

(** The unjournalled setters of [stateObject]. *)
Definition setBalance (amount : Z) (o : stateObject) : stateObject :=
  so_with_data o (acc_with_Initialised (acc_with_Balance (data o) amount) true).
Definition setNonce (nonce : Z) (o : stateObject) : stateObject :=
  so_with_data o (acc_with_Nonce (data o) nonce).
Definition setCode (codeHash : Z) (code : option bytes) (o : stateObject) : stateObject :=
  so_with_dirtyCode (so_with_code (so_with_data o (acc_with_CodeHash (data o) codeHash)) code) true.
Definition setState (key value : Z) (o : stateObject) : stateObject :=
  so_with_dirty o (<[key := value]> (dirtyStorage o)).

(** ** The journal *)

Definition dirtied (e : journalEntry) : option Z :=
  match e with
  | createObjectChange a => Some a
  | resetObjectChange _ _ => None
  | selfdestructChange a _ _ => Some a
  | balanceChange a _ => Some a
  | balanceIncrease a _ => Some a
  | balanceIncreaseTransfer _ => None
  | nonceChange a _ => Some a
  | storageChange a _ _ _ => Some a
  | fakeStorageChange a _ _ => Some a
  | codeChange a _ _ => Some a
  | refundChange _ => None
  | addLogChange _ => None
  | touchChange a => Some a
  | accessListAddAccountChange _ => None
  | accessListAddSlotChange _ _ => None
  | transientStorageChange _ _ _ => None
  end.

(** [j.dirties[addr]++]. *)
Definition journal_dirty (addr : Z) (s : IntraBlockState) : IntraBlockState :=
  with_journal s (entries s) (<[addr := default 0 (dirties s !! addr) + 1]> (dirties s)).

Definition journal_append (e : journalEntry) (s : IntraBlockState) : IntraBlockState :=
  let s := with_journal s (e :: entries s) (dirties s) in
  match dirtied e with Some addr => journal_dirty addr s | None => s end.

Definition ripemd : Z := 3.

Section IBS.
Context {U : Uint256} {K : Keccak} {R : StateReader}.

(** Mutate the live object at [addr]: the pointer the caller holds. *)
Definition upd_object (addr : Z) (g : stateObject -> stateObject) : M IntraBlockState unit :=
  modify (fun s => with_objects s (alter g addr (stateObjects s))).

Definition append_ (e : journalEntry) : M IntraBlockState unit := modify (journal_append e).

(** ** Live objects *)

(** [bi, ok := sdb.balanceInc[addr]; ok && !bi.transferred]. *)
Definition pendingIncrease (addr : Z) (s : IntraBlockState) : option (nat * BalanceIncrease) :=
  match balanceInc s !! addr with
  | Some r => match bis s !! r with
              | Some bi => if negb (transferred bi) then Some (r, bi) else None
              | None => None
              end
  | None => None
  end.

Definition setStateObject (addr : Z) (object : stateObject) : M IntraBlockState stateObject := fun s =>
  let '(object, s) :=
    match pendingIncrease addr s with
    | Some (r, bi) =>
        let object := so_with_data object
          (acc_with_Balance (data object) (u_Add (Balance (data object)) (increase bi))) in
        let s := with_balanceInc s (balanceInc s)
          (<[r := mkBalanceIncrease (increase bi) true (count bi)]> (bis s)) in
        (object, journal_append (balanceIncreaseTransfer r) s)
    | None => (object, s)
    end in
  Val (object, with_objects s (<[addr := object]> (stateObjects s))).

Definition createObject (addr : Z) (previous : option stateObject) : M IntraBlockState stateObject :=
  let account := acc_with_Root zeroAccount empty_RootHash in
  let original := match previous with None => zeroAccount | Some p => original p end in
  let newobj := setNonce 0 (newObject addr account original) in
  _ ← append_ (match previous with
               | None => createObjectChange addr
               | Some p => resetObjectChange addr p
               end);
  let newobj := so_with_flags newobj (selfdestructed newobj) true (createdContract newobj) in
  setStateObject addr newobj.

Definition getStateObject (addr : Z) : M IntraBlockState (option stateObject * option Error) := fun s =>
  match stateObjects s !! addr with
  | Some so => Val ((Some so, None), s)
  | None =>
      let ifPending (s : IntraBlockState) :=
        match pendingIncrease addr s with
        | Some _ => (so ← createObject addr None; mret (Some so, None)) s
        | None => Val ((None, None), s)
        end in
      if bool_decide (addr ∈ nilAccounts s) then ifPending s
      else
        match ReadAccountData addr with
        | (_, Some e) => Val ((None, Some e), s)
        | (None, None) => ifPending (with_nilAccounts s ({[addr]} ∪ nilAccounts s))
        | (Some account, None) =>
            (so ← setStateObject addr (newObject addr account account); mret (Some so, None)) s
        end
  end.

Definition GetOrNewStateObject (addr : Z) : M IntraBlockState (option stateObject * option Error) :=
  '(so, err) ← getStateObject addr;
  match err with
  | Some e => mret (None, Some e)
  | None =>
      match so with
      | Some o => if deleted o then so ← createObject addr (Some o); mret (Some so, None)
                  else mret (Some o, None)
      | None => so ← createObject addr None; mret (Some so, None)
      end
  end.

(** A reader of the object at [addr]: [z] when it is absent or deleted. *)
Definition readObject {A} (addr : Z) (z : A) (read : stateObject -> M IntraBlockState (A * option Error))
    : M IntraBlockState (A * option Error) :=
  '(so, err) ← getStateObject addr;
  match err with
  | Some e => mret (z, Some e)
  | None =>
      match so with
      | Some o => if deleted o then mret (z, None) else read o
      | None => mret (z, None)
      end
  end.

(** ** State objects *)

Definition so_GetCommittedState (key : Z) (o : stateObject) : M IntraBlockState Z :=
  match fakeStorage o with
  | Some fake => mret (default 0 (fake !! key))
  | None =>
      match originStorage o !! key with
      | Some value => mret value
      | None =>
          if createdContract o then mret 0
          else
            match ReadAccountStorage (address o) key with
            | (_, _, Some _) => mret 0
            | (res, ok, None) =>
                let out := if ok : bool then res else 0 in
                _ ← upd_object (address o) (fun o =>
                      so_with_origin o (<[key := out]> (originStorage o))
                        (<[key := out]> (blockOriginStorage o)));
                mret out
            end
      end
  end.

(** The value, and whether it came from the committed storage. *)
Definition so_GetState (key : Z) (o : stateObject) : M IntraBlockState (Z * bool) :=
  match fakeStorage o with
  | Some fake => mret (default 0 (fake !! key), false)
  | None =>
      match dirtyStorage o !! key with
      | Some value => mret (value, false)
      | None => v ← so_GetCommittedState key o; mret (v, true)
      end
  end.

Definition so_SetState (key value : Z) (force : bool) (o : stateObject) : M IntraBlockState bool :=
  match fakeStorage o with
  | Some fake =>
      _ ← append_ (fakeStorageChange (address o) key (default 0 (fake !! key)));
      _ ← upd_object (address o) (fun o => so_with_fake o (Some (<[key := value]> fake)));
      mret true
  | None =>
      (* versionedRead without a version map: the object itself *)
      '(r, err) ← getStateObject (address o);
      '(prev, commited) ← match r with
                          | Some s => if deleted s then mret (0, false) else so_GetState key s
                          | None => mret (0, false)
                          end;
      if negb force && (prev =? value) then mret false
      else
        _ ← append_ (storageChange (address o) key prev commited);
        _ ← upd_object (address o) (setState key value);
        mret true
  end.

Definition so_Code (o : stateObject) : M IntraBlockState (option bytes * option Error) :=
  match so_code o with
  | Some c => mret (Some c, None)
  | None =>
      if acc_CodeHash (data o) =? empty_CodeHash then mret (None, None)
      else
        match ReadAccountCode (address o) with
        | (_, Some e) => mret (None, Some (ErrorfW e "can't code"))
        | (code, None) =>
            _ ← upd_object (address o) (fun o => so_with_code o code);
            mret (code, None)
        end
  end.

Definition so_SetCode (codeHash : Z) (code : bytes) (o : stateObject) : M IntraBlockState (option Error) :=
  '(prevcode, err) ← so_Code o;
  match err with
  | Some e => mret (Some e)
  | None =>
      _ ← append_ (codeChange (address o) prevcode (acc_CodeHash (data o)));
      _ ← upd_object (address o) (setCode codeHash (Some code));
      mret None
  end.

Definition so_SetBalance (amount : Z) (o : stateObject) : M IntraBlockState unit :=
  _ ← append_ (balanceChange (address o) (Balance (data o)));
  upd_object (address o) (setBalance amount).

Definition so_SetNonce (nonce : Z) (o : stateObject) : M IntraBlockState unit :=
  _ ← append_ (nonceChange (address o) (Nonce (data o)));
  upd_object (address o) (setNonce nonce).

Definition so_touch (o : stateObject) : M IntraBlockState unit :=
  _ ← append_ (touchChange (address o));
  if address o =? ripemd then modify (journal_dirty (address o)) else mret tt.

(** ** Operations of [IntraBlockState] *)

Definition nonzero (m : Storage) : bool := existsb (fun kv => negb (kv.2 =? 0)) (map_to_list m).

Definition ibs_HasStorage (addr : Z) : M IntraBlockState (bool * option Error) :=
  '(so, err) ← getStateObject addr;
  match err with
  | Some e => mret (false, Some e)
  | None =>
      match so with
      | None => mret (false, None)
      | Some o =>
          if selfdestructed o || deleted o then mret (false, None)
          else if bool_decide (default ∅ (fakeStorage o) <> ∅) then
            mret (nonzero (default ∅ (fakeStorage o)), None)
          else if nonzero (originStorage o) || nonzero (dirtyStorage o) then mret (true, None)
          else mret (reader_HasStorage addr)
      end
  end.

Definition ibs_AddLog (log : Log) : M IntraBlockState unit := fun s =>
  let s := journal_append (addLogChange (txIndex s)) s in
  let ls := logs s ++ replicate (Z.to_nat (txIndex s + 1 - zlen (logs s))) [] in
  Val (tt, with_logs s (alter (fun l => l ++ [log]) (Z.to_nat (txIndex s)) ls) (logSize s + 1)).

Definition ibs_AddRefund (gas : Z) : M IntraBlockState unit := fun s =>
  let s := journal_append (refundChange (refund s)) s in
  Val (tt, with_refund s (u64 (refund s + gas))).

Definition errRefund : Error := NewError "refund counter below zero".

Definition ibs_SubRefund (gas : Z) : M IntraBlockState (option Error) := fun s =>
  let s := journal_append (refundChange (refund s)) s in
  if refund s <? gas then Val (Some errRefund, s)
  else Val (None, with_refund s (refund s - gas)).

Definition ibs_Exist (addr : Z) : M IntraBlockState (bool * option Error) :=
  '(so, err) ← getStateObject addr;
  match err with
  | Some e => mret (false, Some e)
  | None => mret (match so with Some o => negb (deleted o) | None => false end, None)
  end.

Definition ibs_Empty (addr : Z) : M IntraBlockState (bool * option Error) :=
  '(so, err) ← getStateObject addr;
  match err with
  | Some e => mret (false, Some e)
  | None => mret (match so with Some o => deleted o || so_empty o | None => true end, None)
  end.

Definition ibs_GetBalance (addr : Z) : M IntraBlockState (Z * option Error) :=
  readObject addr 0 (fun o => mret (Balance (data o), None)).
Definition ibs_GetNonce (addr : Z) : M IntraBlockState (Z * option Error) :=
  readObject addr 0 (fun o => mret (Nonce (data o), None)).
Definition ibs_GetCode (addr : Z) : M IntraBlockState (bytes * option Error) :=
  readObject addr [] (fun o => '(c, err) ← so_Code o; mret (default [] c, err)).
Definition ibs_GetCodeSize (addr : Z) : M IntraBlockState (Z * option Error) :=
  readObject addr 0 (fun o =>
    match so_code o with
    | Some c => mret (zlen c, None)
    | None => if acc_CodeHash (data o) =? empty_CodeHash then mret (0, None)
              else mret (ReadAccountCodeSize addr)
    end).
Definition ibs_GetCodeHash (addr : Z) : M IntraBlockState (Z * option Error) :=
  readObject addr 0 (fun o => mret (acc_CodeHash (data o), None)).

(** [types.ParseDelegation]. *)
Definition ParseDelegation (code : bytes) : option Z :=
  if negb (zlen code =? 23) || negb (bool_decide (take 3 code = DelegatedDesignationPrefix)) then None
  else Some (be_to_Z (drop 3 code)).

Definition ibs_GetDelegatedDesignation (addr : Z) : M IntraBlockState (Z * bool * option Error) :=
  '(code, err) ← ibs_GetCode addr;
  match err with
  | Some e => mret (0, false, Some e)
  | None => match ParseDelegation code with
            | Some d => mret (d, true, None)
            | None => mret (0, false, None)
            end
  end.

Definition ibs_ResolveCodeHash (addr : Z) : M IntraBlockState (Z * option Error) :=
  '(dd, ok, err) ← ibs_GetDelegatedDesignation addr;
  if ok : bool then ibs_GetCodeHash dd
  else match err with Some e => mret (0, Some e) | None => ibs_GetCodeHash addr end.

Definition ibs_ResolveCode (addr : Z) : M IntraBlockState (bytes * option Error) :=
  '(dd, ok, err) ← ibs_GetDelegatedDesignation addr;
  if ok : bool then ibs_GetCode dd
  else match err with Some e => mret ([], Some e) | None => ibs_GetCode addr end.

(** [GetState] and [GetCommittedState]: a read error of the storage is dropped. *)
Definition ibs_GetState (addr key : Z) : M IntraBlockState (Z * option Error) :=
  readObject addr 0 (fun o => '(v, _) ← so_GetState key o; mret (v, None)).
Definition ibs_GetCommittedState (addr key : Z) : M IntraBlockState (Z * option Error) :=
  readObject addr 0 (fun o => v ← so_GetCommittedState key o; mret (v, None)).

Definition ibs_HasSelfdestructed (addr : Z) : M IntraBlockState (bool * option Error) :=
  readObject addr false (fun o =>
    mret (if createdContract o then false else selfdestructed o, None)).

Definition ibs_AddBalance (addr amount : Z) : M IntraBlockState (option Error) := fun s =>
  if bool_decide (stateObjects s !! addr = None) && (addr =? ripemd) && u_IsZero amount then
    let s := journal_append (balanceIncrease addr amount) s in
    let '(r, s) := match balanceInc s !! addr with
                   | Some r => (r, s)
                   | None =>
                       let r := length (bis s) in
                       (r, with_balanceInc s (<[addr := r]> (balanceInc s))
                             (bis s ++ [mkBalanceIncrease 0 false 0]))
                   end in
    Val (None, with_balanceInc s (balanceInc s)
      (alter (fun bi => mkBalanceIncrease (u_Add (increase bi) amount) (transferred bi) (count bi + 1))
         r (bis s)))
  else
    ('(so, err) ← GetOrNewStateObject addr;
     match err, so with
     | None, Some o =>
         if u_IsZero amount then
           _ ← (if so_empty o then so_touch o else mret tt); mret None
         else
           _ ← so_SetBalance (u_Add (Balance (data o)) amount) o; mret None
     | _, _ => mret err
     end) s.

Definition ibs_SubBalance (addr amount : Z) : M IntraBlockState (option Error) :=
  if u_IsZero amount then mret None
  else
    '(so, err) ← GetOrNewStateObject addr;
    match err, so with
    | None, Some o => _ ← so_SetBalance (u_Sub (Balance (data o)) amount) o; mret None
    | _, _ => mret err
    end.

Definition ibs_SetNonce (addr nonce : Z) : M IntraBlockState (option Error) :=
  '(so, err) ← GetOrNewStateObject addr;
  match err, so with
  | None, Some o => _ ← so_SetNonce nonce o; mret None
  | _, _ => mret err
  end.

(** The error of [stateObject.SetCode] is dropped. *)
Definition ibs_SetCode (addr : Z) (code : bytes) : M IntraBlockState (option Error) :=
  '(so, err) ← GetOrNewStateObject addr;
  match err, so with
  | None, Some o => _ ← so_SetCode (keccak256 code) code o; mret None
  | _, _ => mret err
  end.

Definition ibs_setState (addr key value : Z) (force : bool) : M IntraBlockState (option Error) :=
  '(so, err) ← GetOrNewStateObject addr;
  match err, so with
  | None, Some o => _ ← so_SetState key value force o; mret None
  | _, _ => mret err
  end.
Definition ibs_SetState (addr key value : Z) : M IntraBlockState (option Error) :=
  ibs_setState addr key value false.

Definition ibs_Selfdestruct (addr : Z) : M IntraBlockState (bool * option Error) :=
  '(so, err) ← getStateObject addr;
  match err with
  | Some e => mret (false, Some e)
  | None =>
      match so with
      | None => mret (false, None)
      | Some o =>
          if deleted o then mret (false, None)
          else
            _ ← append_ (selfdestructChange addr (selfdestructed o) (Balance (data o)));
            _ ← upd_object addr (fun o =>
                  let o := so_with_flags o true (newlyCreated o) false in
                  so_with_data o (acc_with_Balance (data o) 0));
            mret (true, None)
      end
  end.

Definition ibs_Selfdestruct6780 (addr : Z) : M IntraBlockState (option Error) :=
  '(so, err) ← getStateObject addr;
  match err with
  | Some e => mret (Some e)
  | None =>
      match so with
      | None => mret None
      | Some o =>
          if newlyCreated o then
            '(code, err) ← ibs_GetCode addr;
            match err with
            | Some e => mret (Some e)
            | None => match ParseDelegation code with
                      | Some _ => mret None
                      | None => _ ← ibs_Selfdestruct addr; mret None
                      end
            end
          else mret None
      end
  end.

Definition ibs_GetTransientState (addr key : Z) : M IntraBlockState Z :=
  gets (fun s => transientStorage.Get (transient_storage s) addr key).

Definition ibs_SetTransientState (addr key value : Z) : M IntraBlockState unit :=
  prev ← ibs_GetTransientState addr key;
  if prev =? value then mret tt
  else
    _ ← append_ (transientStorageChange addr key prev);
    modify (fun s => with_transient s (transientStorage.Set_ (transient_storage s) addr key value)).

Definition ibs_CreateAccount (addr : Z) (contractCreation : bool) : M IntraBlockState (option Error) :=
  '(previous, err) ← getStateObject addr;
  match err with
  | Some e => mret (Some e)
  | None =>
      let prevInc := match previous with
                     | Some p => if selfdestructed p then Incarnation (data p) else 0
                     | None => 0
                     end in
      let prevInc := match previous with
                     | Some p => if prevInc <? PrevIncarnation (data p)
                                 then PrevIncarnation (data p) else prevInc
                     | None => prevInc
                     end in
      newObj ← createObject addr previous;
      _ ← upd_object addr (fun o =>
            let d := data o in
            let d := match previous with
                     | Some p => if negb (selfdestructed p)
                                 then acc_with_Balance d (Balance (data p)) else d
                     | None => d
                     end in
            let d := acc_with_PrevIncarnation (acc_with_Initialised d true) prevInc in
            if contractCreation
            then so_with_data (so_with_flags o (selfdestructed o) (newlyCreated o) true)
                   (acc_with_Incarnation d (u64 (prevInc + 1)))
            else so_with_data (so_with_flags o false (newlyCreated o) (createdContract o)) d);
      mret None
  end.

Definition ibs_AddAddressToAccessList (addr : Z) : M IntraBlockState bool := fun s =>
  let '(al, addrMod) := accessList.AddAddress (access_list s) addr in
  let s := with_access_list s al in
  Val (addrMod, if addrMod then journal_append (accessListAddAccountChange addr) s else s).

Definition ibs_AddSlotToAccessList (addr slot : Z) : M IntraBlockState (bool * bool) := fun s =>
  let '(al, (addrMod, slotMod)) := accessList.AddSlot (access_list s) addr slot in
  let s := with_access_list s al in
  let s := if addrMod : bool then journal_append (accessListAddAccountChange addr) s else s in
  let s := if slotMod : bool then journal_append (accessListAddSlotChange addr slot) s else s in
  Val ((addrMod, slotMod), s).

(** ** Snapshots *)

Definition ibs_Snapshot : M IntraBlockState Z := fun s =>
  let id := nextRevisionId s in
  Val (id, with_revisions s (validRevisions s ++ [mkRevision id (zlen (entries s))]) (id + 1)).

(** [revert] of one entry. Objects are looked up again: a nil object is dereferenced
    except where the code tests it, and an error leaves the entry undone. *)
Definition revertObject (addr : Z) (g : stateObject -> stateObject) : M IntraBlockState unit :=
  '(obj, err) ← getStateObject addr;
  match err with
  | Some _ => mret tt
  | None => match obj with
            | Some _ => upd_object addr g
            | None => gopanic "invalid memory address or nil pointer dereference"
            end
  end.

Definition revert_entry (e : journalEntry) : M IntraBlockState unit :=
  match e with
  | createObjectChange a =>
      modify (fun s => with_objectsDirty (with_objects s (delete a (stateObjects s)))
                         (stateObjectsDirty s ∖ {[a]}))
  | resetObjectChange a prev => _ ← setStateObject a prev; mret tt
  | selfdestructChange a prev prevbalance =>
      '(obj, err) ← getStateObject a;
      match err with
      | Some _ => mret tt
      | None => match obj with
                | Some _ => upd_object a (fun o =>
                    setBalance prevbalance (so_with_flags o prev (newlyCreated o) (createdContract o)))
                | None => mret tt
                end
      end
  | balanceChange a prev => revertObject a (setBalance prev)
  | balanceIncrease a inc => modify (fun s =>
      match balanceInc s !! a with
      | None => s
      | Some r =>
          let h := alter (fun bi => mkBalanceIncrease (u_Sub (increase bi) inc) (transferred bi) (count bi - 1))
                     r (bis s) in
          let gone := match h !! r with Some bi => count bi =? 0 | None => false end in
          with_balanceInc s (if gone then delete a (balanceInc s) else balanceInc s) h
      end)
  | balanceIncreaseTransfer r => modify (fun s =>
      with_balanceInc s (balanceInc s)
        (alter (fun bi => mkBalanceIncrease (increase bi) false (count bi)) r (bis s)))
  | nonceChange a prev => revertObject a (setNonce prev)
  | storageChange a key prevalue _ => revertObject a (setState key prevalue)
  | fakeStorageChange a key prevalue =>
      '(obj, err) ← getStateObject a;
      match err with
      | Some _ => mret tt
      | None => match obj ≫= fakeStorage with
                | Some fake => upd_object a (fun o => so_with_fake o (Some (<[key := prevalue]> fake)))
                | None => gopanic "invalid memory address or assignment to entry in nil map"
                end
      end
  | codeChange a prevcode prevhash => revertObject a (setCode prevhash prevcode)
  | refundChange prev => modify (fun s => with_refund s prev)
  | addLogChange ti => fun s =>
      if zlen (logs s) <=? ti then Panic "can't revert log index"
      else
        match logs s !! Z.to_nat ti with
        | None | Some [] => Panic "slice bounds out of range"
        | Some txnLogs =>
            let ls := <[Z.to_nat ti := take (length txnLogs - 1) txnLogs]> (logs s) in
            let ls := if (length txnLogs =? 1)%nat then take (length ls - 1) ls else ls in
            Val (tt, with_logs s ls (logSize s - 1))
        end
  | touchChange _ => mret tt
  | accessListAddAccountChange a => fun s =>
      match accessList.DeleteAddress (access_list s) a with
      | Val al => Val (tt, with_access_list s al)
      | Panic e => Panic e
      | OutOfFuel => OutOfFuel
      end
  | accessListAddSlotChange a slot => fun s =>
      match accessList.DeleteSlot (access_list s) a slot with
      | Val al => Val (tt, with_access_list s al)
      | Panic e => Panic e
      | OutOfFuel => OutOfFuel
      end
  | transientStorageChange a key prevalue =>
      modify (fun s => with_transient s (transientStorage.Set_ (transient_storage s) a key prevalue))
  end.

(** [if j.dirties[*addr]--; j.dirties[*addr] == 0 { delete(...) }]. *)
Definition undirty (e : journalEntry) (s : IntraBlockState) : IntraBlockState :=
  match dirtied e with
  | None => s
  | Some addr =>
      let n := default 0 (dirties s !! addr) - 1 in
      with_journal s (entries s) (if n =? 0 then delete addr (dirties s) else <[addr := n]> (dirties s))
  end.

(** The loop of [journal.revert]: the entries above the snapshot, newest first. Entries
    a revert appends lie above them and are cut off at the end. *)
Fixpoint revert_entries (todo : list journalEntry) : M IntraBlockState unit :=
  match todo with
  | [] => mret tt
  | e :: todo => _ ← revert_entry e; _ ← modify (undirty e); revert_entries todo
  end.

Definition journal_revert (snapshot : Z) : M IntraBlockState unit := fun s =>
  let n := (length (entries s) - Z.to_nat snapshot)%nat in
  (_ ← revert_entries (take n (entries s));
   modify (fun s => with_journal s (drop (length (entries s) - Z.to_nat snapshot) (entries s)) (dirties s))) s.

(** [sort.Search]: binary search for the first index at which [f] holds. *)
Fixpoint sort_Search_loop (fuel : nat) (f : Z -> bool) (i j : Z) : Z :=
  match fuel with
  | O => i
  | S fuel => if i <? j then
                let h := (i + j) / 2 in
                if negb (f h) then sort_Search_loop fuel f (h + 1) j else sort_Search_loop fuel f i h
              else i
  end.
Definition sort_Search (n : Z) (f : Z -> bool) : Z := sort_Search_loop (Z.to_nat n) f 0 n.

Definition rev_at (s : IntraBlockState) (i : Z) : option revision := validRevisions s !! Z.to_nat i.

Definition ibs_RevertToSnapshot (revid : Z) : M IntraBlockState unit := fun s =>
  let n := zlen (validRevisions s) in
  let idx := sort_Search n (fun i => match rev_at s i with Some r => revid <=? id r | None => false end) in
  match (if idx =? n then None else rev_at s idx) with
  | Some r =>
      if negb (id r =? revid) then Panic "revision id cannot be reverted"
      else
        (_ ← journal_revert (journalIndex r);
         modify (fun s => with_revisions s (take (Z.to_nat idx) (validRevisions s)) (nextRevisionId s))) s
  | None => Panic "revision id cannot be reverted"
  end.

Definition GetRefund : M IntraBlockState Z := gets refund.

(** [clearJournalAndRefund], at the end of a transaction. *)
Definition clearJournalAndRefund (s : IntraBlockState) : IntraBlockState :=
  with_refund (with_revisions (with_journal s [] ∅) [] (nextRevisionId s)) 0.

Definition SetTxContext (ti : Z) (s : IntraBlockState) : IntraBlockState := with_txIndex s ti.

(** ** The state interface of the virtual machine *)

Definition ibs_db : StateDB := {|
  ibs := IntraBlockState;
  GetBalance := ibs_GetBalance;
  AddBalance := ibs_AddBalance;
  SubBalance := ibs_SubBalance;
  GetNonce := ibs_GetNonce;
  SetNonce := ibs_SetNonce;
  GetCode := ibs_GetCode;
  GetCodeSize := ibs_GetCodeSize;
  GetCodeHash := ibs_GetCodeHash;
  SetCode := ibs_SetCode;
  ResolveCode := ibs_ResolveCode;
  ResolveCodeHash := ibs_ResolveCodeHash;
  GetDelegatedDesignation := ibs_GetDelegatedDesignation;
  GetState := ibs_GetState;
  GetCommittedState := ibs_GetCommittedState;
  SetState := ibs_SetState;
  HasStorage := ibs_HasStorage;
  GetTransientState := ibs_GetTransientState;
  SetTransientState := ibs_SetTransientState;
  Exist := ibs_Exist;
  Empty := ibs_Empty;
  HasSelfdestructed := ibs_HasSelfdestructed;
  Selfdestruct := ibs_Selfdestruct;
  Selfdestruct6780 := ibs_Selfdestruct6780;
  CreateAccount := ibs_CreateAccount;
  AddLog := ibs_AddLog;
  AddRefund := ibs_AddRefund;
  SubRefund := ibs_SubRefund;
  AddAddressToAccessList := ibs_AddAddressToAccessList;
  AddSlotToAccessList := ibs_AddSlotToAccessList;
  Snapshot := ibs_Snapshot;
  RevertToSnapshot := ibs_RevertToSnapshot
|}.
End IBS.
