(* ===== verification/JournalSpec.v ===== *)
(** * Snapshots: the journal undoes what was journalled

    Two states are equivalent when no operation of the state can tell them apart,
    whatever has been cached: the same accounts (through the live objects or the
    reader below), storage, refund, logs, access list and transient storage. Every
    operation leaves a state from which reverting the journal entries it appended
    leads back to an equivalent one; hence reverting to a snapshot, after any sequence
    of operations and nested snapshots, restores the state the snapshot was taken in.

    Not covered: a zero credit to the RIPEMD precompile address, which the code
    deliberately lets survive a revert, and SELFDESTRUCT of a contract created in the
    same transaction ([selfdestruct_revert_incomplete]). *)

From S2P Require Import Prelude Uint256 Params Errors AccessList StateDB Machine IntraBlockState.

#[local] Existing Instances accessList.al_equiv accessList.al_equivalence.

Section JournalSpec.
Context {U : Uint256} {K : Keccak} {R : StateReader}.

(** ** What can be observed of an object *)

Definition committed (o : stateObject) (k : Z) : Z :=
  match fakeStorage o with
  | Some fake => default 0 (fake !! k)
  | None =>
      match originStorage o !! k with
      | Some v => v
      | None =>
          if createdContract o then 0
          else match ReadAccountStorage (address o) k with
               | (_, _, Some _) => 0
               | (v, ok, None) => if ok : bool then v else 0
               end
      end
  end.

Definition stored (o : stateObject) (k : Z) : Z :=
  match fakeStorage o with
  | Some fake => default 0 (fake !! k)
  | None => match dirtyStorage o !! k with Some v => v | None => committed o k end
  end.

Definition codev (o : stateObject) : option bytes * option Error :=
  match so_code o with
  | Some c => (Some c, None)
  | None =>
      if acc_CodeHash (data o) =? empty_CodeHash then (None, None)
      else match ReadAccountCode (address o) with
           | (_, Some e) => (None, Some (ErrorfW e "can't code"))
           | (c, None) => (c, None)
           end
  end.

Definition isSome_ {A} (x : option A) : bool := match x with Some _ => true | None => false end.

Record obj_eq (o o' : stateObject) : Prop := mkObjEq {
  oe_address : address o = address o';
  oe_data : data o = data o';
  oe_original : original o = original o';
  oe_code : codev o = codev o';
  oe_committed k : committed o k = committed o' k;
  oe_stored k : stored o k = stored o' k;
  oe_fake : isSome_ (fakeStorage o) = isSome_ (fakeStorage o');
  oe_flags : (selfdestructed o, deleted o, newlyCreated o, createdContract o) =
             (selfdestructed o', deleted o', newlyCreated o', createdContract o')
}.

#[export] Instance obj_equiv : Equiv stateObject := obj_eq.

#[export] Instance obj_equivalence : Equivalence (≡@{stateObject}).
Proof.
  split.
  - intros o. by split.
  - intros o o' []. by split.
  - intros o1 o2 o3 [] []. split; intros; congruence.
Qed.

(** The setters cannot tell equivalent objects apart. *)
Lemma setBalance_proper v o o' : o ≡ o' -> setBalance v o ≡ setBalance v o'.
Proof. intros []. split; try assumption. cbn. congruence. Qed.

Lemma setNonce_proper v o o' : o ≡ o' -> setNonce v o ≡ setNonce v o'.
Proof. intros []. split; try assumption. cbn. congruence. Qed.

Lemma setCode_proper h c o o' : o ≡ o' -> setCode h c o ≡ setCode h c o'.
Proof.
  intros []. split; try assumption; cbn; [congruence|]. unfold codev. cbn. by rewrite oe_address0.
Qed.

Lemma stored_setState k v o j :
  stored (setState k v o) j =
  if isSome_ (fakeStorage o) then stored o j else if decide (k = j) then v else stored o j.
Proof.
  unfold stored. cbn [fakeStorage setState so_with_dirty dirtyStorage].
  destruct (fakeStorage o) as [f|] eqn:E; cbn [isSome_]; [reflexivity|].
  rewrite lookup_insert. destruct (decide (k = j)); [reflexivity|].
  unfold committed. cbn [fakeStorage setState so_with_dirty]. rewrite E. reflexivity.
Qed.

Lemma setState_proper k v o o' : o ≡ o' -> setState k v o ≡ setState k v o'.
Proof.
  intros []. split; try assumption. intros j. rewrite !stored_setState, oe_fake0.
  destruct (isSome_ (fakeStorage o')), (decide (k = j)); auto.
Qed.

Lemma setFake_proper k v o o' :
  o ≡ o' ->
  forall f f', fakeStorage o = Some f -> fakeStorage o' = Some f' ->
  so_with_fake o (Some (<[k := v]> f)) ≡ so_with_fake o' (Some (<[k := v]> f')).
Proof.
  intros [] f f' E E'.
  assert (Hf : forall j, default 0 (f !! j) = default 0 (f' !! j)).
  { intros j. specialize (oe_committed0 j). unfold committed in oe_committed0. by rewrite E, E' in oe_committed0. }
  split; try assumption; try reflexivity; intros j; unfold stored, committed; cbn [fakeStorage so_with_fake];
    rewrite !lookup_insert; destruct (decide (k = j)); auto.
Qed.

Lemma undestruct_proper b v o o' : o ≡ o' ->
  setBalance v (so_with_flags o b (newlyCreated o) (createdContract o)) ≡
  setBalance v (so_with_flags o' b (newlyCreated o') (createdContract o')).
Proof.
  intros []. split; try assumption; cbn; congruence.
Qed.

(** ** What can be observed of a state *)

(** What [getStateObject] returns when no balance increase is pending. *)
Definition vobj (s : IntraBlockState) (a : Z) : Error + option stateObject :=
  match stateObjects s !! a with
  | Some o => inr (Some o)
  | None =>
      match ReadAccountData a with
      | (_, Some e) => inl e
      | (None, None) => inr None
      | (Some acc, None) => inr (Some (newObject a acc acc))
      end
  end.

Definition vobj_eq (x y : Error + option stateObject) : Prop :=
  match x, y with
  | inl e, inl e' => e = e'
  | inr None, inr None => True
  | inr (Some o), inr (Some o') => o ≡ o'
  | _, _ => False
  end.

Record st_eq (s s' : IntraBlockState) : Prop := mkStEq {
  se_objects a : vobj_eq (vobj s a) (vobj s' a);
  se_refund : refund s = refund s';
  se_txIndex : txIndex s = txIndex s';
  se_logs i : default [] (logs s !! i) = default [] (logs s' !! i);
  se_logSize : logSize s = logSize s';
  se_access : access_list s ≡ access_list s';
  se_transient a k : transientStorage.Get (transient_storage s) a k =
                     transientStorage.Get (transient_storage s') a k;
  se_dirties a : a <> ripemd -> dirties s !! a = dirties s' !! a
}.
#[export] Instance st_equiv : Equiv IntraBlockState := st_eq.

Lemma vobj_eq_refl x : vobj_eq x x.
Proof. destruct x as [e|[o|]]; cbn; [reflexivity|reflexivity|exact I]. Qed.
Lemma vobj_eq_sym x y : vobj_eq x y -> vobj_eq y x.
Proof. destruct x as [e|[o|]], y as [e'|[o'|]]; cbn; try done; by intros ->. Qed.
Lemma vobj_eq_trans x y z : vobj_eq x y -> vobj_eq y z -> vobj_eq x z.
Proof.
  destruct x as [e|[o|]], y as [e'|[o'|]], z as [e''|[o''|]]; cbn; try done; [congruence|].
  by intros -> ->.
Qed.

#[export] Instance st_equivalence : Equivalence (≡@{IntraBlockState}).
Proof.
  split.
  - intros s. split; try done. intros a. apply vobj_eq_refl.
  - intros s s' []. split; try done.
    + intros a. by apply vobj_eq_sym.
    + intros a Ha. symmetry. auto.
  - intros s1 s2 s3 [] []. split; intros; try congruence.
    + by eapply vobj_eq_trans.
    + rewrite se_dirties0 by assumption. auto.
Qed.

(** The invariant of the states considered. *)
Record wfj (s : IntraBlockState) : Prop := mkWfj {
  wj_inc : balanceInc s = ∅;
  wj_nil a : a ∈ nilAccounts s -> ReadAccountData a = (None, None);
  wj_obj a o : stateObjects s !! a = Some o -> address o = a /\ Initialised (data o) = true;
  wj_tx : 0 <= txIndex s;
  wj_logs : zlen (logs s) <= txIndex s + 1;
  wj_refund : is_u64 (refund s)
}.

Lemma newObject_ok a acc orig : address (newObject a acc orig) = a /\ Initialised (data (newObject a acc orig)) = true.
Proof.
  unfold newObject. destruct acc as [[|] n b r h i p]; cbn;
    destruct (h =? 0); cbn; destruct (r =? 0); done.
Qed.

(** ** Updates of the live objects *)

Lemma vobj_insert s a o b :
  vobj (with_objects s (<[a := o]> (stateObjects s))) b =
  if decide (a = b) then inr (Some o) else vobj s b.
Proof.
  unfold vobj. cbn [stateObjects with_objects]. rewrite lookup_insert.
  destruct (decide (a = b)); reflexivity.
Qed.

Lemma vobj_live s a o : stateObjects s !! a = Some o -> vobj s a = inr (Some o).
Proof. intros E. unfold vobj. by rewrite E. Qed.

(** Only the live objects changed. *)
Record same_rest (s s' : IntraBlockState) : Prop := mkSameRest {
  sr_refund : refund s' = refund s;
  sr_tx : txIndex s' = txIndex s;
  sr_logs : logs s' = logs s;
  sr_logSize : logSize s' = logSize s;
  sr_access : access_list s' = access_list s;
  sr_transient : transient_storage s' = transient_storage s;
  sr_dirties : dirties s' = dirties s
}.

(** The journal and the snapshots did not change. *)
Record frame (s s' : IntraBlockState) : Prop := mkFrame_ {
  fr_entries : entries s' = entries s;
  fr_revisions : validRevisions s' = validRevisions s;
  fr_next : nextRevisionId s' = nextRevisionId s;
  fr_tx : txIndex s' = txIndex s
}.

Lemma frame_refl s : frame s s.
Proof. by split. Qed.
Lemma frame_trans s1 s2 s3 : frame s1 s2 -> frame s2 s3 -> frame s1 s3.
Proof. intros [] []. split; congruence. Qed.

Lemma st_eq_rest s1 s2 s1' s2' :
  s1 ≡ s2 -> same_rest s1 s1' -> same_rest s2 s2' ->
  (forall a, vobj_eq (vobj s1' a) (vobj s2' a)) -> s1' ≡ s2'.
Proof.
  intros E [] [] H. destruct E. split; try (congruence || exact H).
  by rewrite sr_dirties0, sr_dirties1.
Qed.

Lemma wfj_rest s s' :
  wfj s -> same_rest s s' -> balanceInc s' = balanceInc s -> nilAccounts s' = nilAccounts s ->
  (forall a o, stateObjects s' !! a = Some o -> address o = a /\ Initialised (data o) = true) -> wfj s'.
Proof.
  intros [] [] Hb Hn Ho. split; [congruence| |exact Ho|congruence| |congruence].
  - rewrite Hn. exact wj_nil0.
  - by rewrite sr_logs0, sr_tx0.
Qed.

Lemma wfj_insert s a o :
  wfj s -> address o = a -> Initialised (data o) = true ->
  wfj (with_objects s (<[a := o]> (stateObjects s))).
Proof.
  intros H Ha Hi. apply (wfj_rest s); try done.
  intros b o'. cbn [stateObjects with_objects]. rewrite lookup_insert.
  destruct (decide (a = b)) as [<-|]; [intros [= <-]; auto|apply (wj_obj _ H)].
Qed.

Lemma no_pending s a : wfj s -> pendingIncrease a s = None.
Proof. intros H. unfold pendingIncrease. rewrite (wj_inc _ H). reflexivity. Qed.

Lemma setStateObject_eq s a o :
  wfj s -> setStateObject a o s = Val (o, with_objects s (<[a := o]> (stateObjects s))).
Proof. intros H. unfold setStateObject. by rewrite no_pending. Qed.

(** [getStateObject] returns the object that can be observed, and only fills caches. *)
Lemma getStateObject_spec s a :
  wfj s -> exists r s', getStateObject a s = Val (r, s') /\ wfj s' /\ s' ≡ s /\ frame s s' /\
    dirties s' = dirties s /\ vobj s' a = vobj s a /\
    match vobj s a with
    | inl e => r = (None, Some e)
    | inr None => r = (None, None) /\ stateObjects s' !! a = None
    | inr (Some o) => r = (Some o, None) /\ stateObjects s' !! a = Some o /\ address o = a /\
                      Initialised (data o) = true
    end.
Proof.
  intros H. unfold getStateObject, vobj. destruct (stateObjects s !! a) as [o|] eqn:E.
  { exists (Some o, None), s. pose proof (wj_obj _ H a o E) as [H1 H2].
    rewrite E. do 6 (split; [done|]). auto. }
  destruct (bool_decide_reflect (a ∈ nilAccounts s)) as [Hn|Hn].
  { rewrite (no_pending s a H), (wj_nil _ H a Hn). exists (None, None), s.
    rewrite E. repeat (split; [done|]). auto. }
  destruct (ReadAccountData a) as [acc err] eqn:Er. destruct err as [e|].
  { eexists _, s. split; [by destruct acc|]. rewrite E. by destruct acc. }
  destruct acc as [acc|].
  - unfold mbind, M_bind. rewrite (setStateObject_eq s a _ H).
    destruct (newObject_ok a acc acc) as [H1 H2].
    eexists _, _. split; [reflexivity|]. split; [by apply wfj_insert|].
    split; [|split; [done|split; [done|]]].
    + split; try done. intros b. rewrite vobj_insert. destruct (decide (a = b)) as [<-|]; [|apply vobj_eq_refl].
      unfold vobj. rewrite E, Er. apply vobj_eq_refl.
    + cbn [stateObjects with_objects]. rewrite lookup_insert_eq. auto.
  - set (s' := with_nilAccounts s _). assert (Hs : wfj s').
    { destruct H. split; try assumption. intros b. cbn. intros Hb.
      apply elem_of_union in Hb. destruct Hb as [Hb|Hb]; [|auto].
      apply elem_of_singleton in Hb. subst b. exact Er. }
    rewrite (no_pending s' a Hs). exists (None, None), s'. split; [reflexivity|]. split; [exact Hs|].
    split; [|split; [done|split; [done|]]].
    + split; try done. intros b. apply vobj_eq_refl.
    + cbn [stateObjects with_nilAccounts s']. rewrite E. auto.
Qed.

(** ** Reverting respects the equivalence *)

(** The entries this development covers, for a transaction index [ti]. *)
Definition good (ti : Z) (e : journalEntry) : Prop :=
  match e with
  | addLogChange t => t = ti
  | resetObjectChange a p => address p = a /\ Initialised (data p) = true
  | refundChange p => is_u64 p
  | balanceIncrease _ _ | balanceIncreaseTransfer _ => False
  | _ => True
  end.

Lemma upd_live a g s o :
  stateObjects s !! a = Some o ->
  upd_object a g s = Val (tt, with_objects s (<[a := g o]> (stateObjects s))).
Proof.
  intros E. unfold upd_object, modify. do 3 f_equal. apply map_eq. intros b.
  rewrite lookup_insert. destruct (decide (a = b)) as [<-|Hb].
  - rewrite lookup_alter_eq, E. reflexivity.
  - rewrite lookup_alter_ne by assumption. reflexivity.
Qed.

(** From equivalent states, [m] behaves equivalently and leaves the journal alone. *)
Definition sim (s1 s2 : IntraBlockState) (m : M IntraBlockState unit) : Prop :=
  forall s1', m s1 = Val (tt, s1') ->
  exists s2', m s2 = Val (tt, s2') /\ wfj s1' /\ wfj s2' /\ s1' ≡ s2' /\ frame s1 s1' /\ frame s2 s2'.

Definition keeps (g : stateObject -> stateObject) : Prop :=
  forall o, address (g o) = address o /\ (Initialised (data o) = true -> Initialised (data (g o)) = true).

Lemma insert_equiv s1 s2 a o1 o2 :
  s1 ≡ s2 -> o1 ≡ o2 ->
  with_objects s1 (<[a := o1]> (stateObjects s1)) ≡ with_objects s2 (<[a := o2]> (stateObjects s2)).
Proof.
  intros Hs Ho. apply (st_eq_rest s1 s2); [assumption|by split..|]. intros b. rewrite !vobj_insert.
  destruct (decide (a = b)); [exact Ho|apply (se_objects _ _ Hs)].
Qed.

(** Looking an object up in two equivalent states. *)
Lemma getStateObject_sim s1 s2 a :
  wfj s1 -> wfj s2 -> s1 ≡ s2 ->
  exists r1 r2 t1 t2, getStateObject a s1 = Val (r1, t1) /\ getStateObject a s2 = Val (r2, t2) /\
    wfj t1 /\ wfj t2 /\ t1 ≡ t2 /\ frame s1 t1 /\ frame s2 t2 /\
    ((exists e, r1 = (None, Some e) /\ r2 = (None, Some e)) \/
     (r1 = (None, None) /\ r2 = (None, None)) \/
     (exists o1 o2, r1 = (Some o1, None) /\ r2 = (Some o2, None) /\ o1 ≡ o2 /\
        stateObjects t1 !! a = Some o1 /\ stateObjects t2 !! a = Some o2)).
Proof.
  intros H1 H2 E.
  destruct (getStateObject_spec s1 a H1) as (r1 & t1 & E1 & W1 & Q1 & F1 & _ & _ & R1).
  destruct (getStateObject_spec s2 a H2) as (r2 & t2 & E2 & W2 & Q2 & F2 & _ & _ & R2).
  exists r1, r2, t1, t2. split; [exact E1|]. split; [exact E2|]. split; [exact W1|]. split; [exact W2|].
  split; [by rewrite Q1, Q2|]. split; [exact F1|]. split; [exact F2|].
  pose proof (se_objects _ _ E a) as Hv.
  destruct (vobj s1 a) as [e1|[o1|]], (vobj s2 a) as [e2|[o2|]]; try contradiction; cbn in Hv.
  - left. exists e1. split; congruence.
  - right; right. destruct R1 as (-> & L1 & _), R2 as (-> & L2 & _). eauto 10.
  - right; left. by destruct R1 as [-> _], R2 as [-> _].
Qed.

Lemma update_sim s1 s2 a o1 o2 g :
  wfj s1 -> wfj s2 -> s1 ≡ s2 -> keeps g ->
  stateObjects s1 !! a = Some o1 -> stateObjects s2 !! a = Some o2 -> g o1 ≡ g o2 ->
  sim s1 s2 (upd_object a g).
Proof.
  intros H1 H2 E Hk L1 L2 Hg s1' E1. rewrite (upd_live a g s1 o1 L1) in E1. injection E1 as <-.
  rewrite (upd_live a g s2 o2 L2). eexists. split; [reflexivity|].
  destruct (wj_obj _ H1 _ _ L1) as [A1 I1], (wj_obj _ H2 _ _ L2) as [A2 I2].
  destruct (Hk o1) as [K1 J1], (Hk o2) as [K2 J2].
  split; [apply wfj_insert; [assumption|congruence|auto]|].
  split; [apply wfj_insert; [assumption|congruence|auto]|].
  split; [by apply insert_equiv|done].
Qed.

Lemma revertObject_sim s1 s2 a g :
  wfj s1 -> wfj s2 -> s1 ≡ s2 -> keeps g -> (forall o o', o ≡ o' -> g o ≡ g o') ->
  sim s1 s2 (revertObject a g).
Proof.
  intros H1 H2 E Hk Hg s1'. unfold revertObject, mbind, M_bind.
  destruct (getStateObject_sim s1 s2 a H1 H2 E)
    as (r1 & r2 & t1 & t2 & -> & -> & W1 & W2 & Et & F1 & F2 & [(e & -> & ->)|[(-> & ->)|(o1 & o2 & -> & -> & Eo & L1 & L2)]]).
  - intros [= <-]. exists t2. auto 10.
  - discriminate.
  - intros Eu. destruct (update_sim t1 t2 a o1 o2 g W1 W2 Et Hk L1 L2 (Hg _ _ Eo) s1' Eu)
      as (s2' & -> & ? & ? & ? & ? & ?).
    eexists. split; [reflexivity|]. do 3 (split; [assumption|]). split; by eapply frame_trans.
Qed.

Lemma keeps_balance v : keeps (setBalance v).
Proof. by split. Qed.
Lemma keeps_nonce v : keeps (setNonce v).
Proof. by split. Qed.
Lemma keeps_code h c : keeps (setCode h c).
Proof. by split. Qed.
Lemma keeps_state k v : keeps (setState k v).
Proof. by split. Qed.

Lemma vobj_delete s d a b :
  vobj (with_objectsDirty (with_objects s (delete a (stateObjects s))) d) b =
  if decide (a = b)
  then match ReadAccountData a with
       | (_, Some e) => inl e
       | (None, None) => inr None
       | (Some acc, None) => inr (Some (newObject a acc acc))
       end
  else vobj s b.
Proof.
  unfold vobj. cbn [stateObjects with_objects with_objectsDirty]. rewrite lookup_delete.
  destruct (decide (a = b)) as [<-|]; reflexivity.
Qed.

(** Dropping the last log of the last transaction. *)
Definition pop_log (ls : list (list Log)) (ti : nat) (txnLogs : list Log) : list (list Log) :=
  let ls := <[ti := take (length txnLogs - 1) txnLogs]> ls in
  if (length txnLogs =? 1)%nat then take (length ls - 1) ls else ls.

Lemma pop_log_spec ls ti L :
  length ls = S ti -> ls !! ti = Some L -> L <> [] ->
  (forall i, default [] (pop_log ls ti L !! i) =
     if decide (i = ti) then take (length L - 1) L else default [] (ls !! i)) /\
  (length (pop_log ls ti L) <= length ls)%nat.
Proof.
  intros Hl E Hne. unfold pop_log. set (ls' := <[ti := _]> ls).
  assert (Hl' : length ls' = S ti) by (unfold ls'; by rewrite length_insert).
  assert (Hat : forall i, ls' !! i = if decide (i = ti) then Some (take (length L - 1) L) else ls !! i).
  { intros i. unfold ls'. destruct (decide (i = ti)) as [->|Hi].
    - apply list_lookup_insert_eq. lia.
    - by apply list_lookup_insert_ne. }
  destruct (Nat.eqb_spec (length L) 1) as [H1|H1].
  - split; [|rewrite length_take; lia]. intros i. destruct (decide (i = ti)) as [->|Hi].
    + rewrite lookup_take_ge by lia. rewrite H1. reflexivity.
    + destruct (decide (i < ti)%nat).
      * rewrite lookup_take_lt by lia. rewrite Hat, decide_False by assumption. reflexivity.
      * rewrite lookup_take_ge by lia. rewrite lookup_ge_None_2 by lia. reflexivity.
  - split; [|lia]. intros i. rewrite Hat. destruct (decide (i = ti)); reflexivity.
Qed.

Lemma addLog_inv s s' ti :
  revert_entry (addLogChange ti) s = Val (tt, s') ->
  exists L, logs s !! Z.to_nat ti = Some L /\ L <> [] /\ ti < zlen (logs s) /\
    s' = with_logs s (pop_log (logs s) (Z.to_nat ti) L) (logSize s - 1).
Proof.
  cbn [revert_entry]. destruct (Z.leb_spec (zlen (logs s)) ti); [discriminate|].
  destruct (logs s !! Z.to_nat ti) as [[|l L]|] eqn:E; [discriminate| |discriminate].
  intros [= <-]. exists (l :: L). done.
Qed.

Lemma addLog_run s ti L :
  logs s !! Z.to_nat ti = Some L -> L <> [] -> ti < zlen (logs s) ->
  revert_entry (addLogChange ti) s =
    Val (tt, with_logs s (pop_log (logs s) (Z.to_nat ti) L) (logSize s - 1)).
Proof.
  intros E Hne Hlt. cbn [revert_entry]. destruct (Z.leb_spec (zlen (logs s)) ti); [lia|].
  rewrite E. by destruct L.
Qed.

Lemma addLog_sim s1 s2 ti :
  wfj s1 -> wfj s2 -> s1 ≡ s2 -> ti = txIndex s1 -> sim s1 s2 (revert_entry (addLogChange ti)).
Proof.
  intros H1 H2 E Hti s1' E1. destruct (addLog_inv _ _ _ E1) as (L & El & Hne & Hlt & ->).
  pose proof (se_logs _ _ E (Z.to_nat ti)) as Hl. rewrite El in Hl. cbn in Hl.
  assert (El2 : logs s2 !! Z.to_nat ti = Some L).
  { destruct (logs s2 !! Z.to_nat ti); cbn in Hl; congruence. }
  pose proof (wj_tx _ H1). pose proof (wj_logs _ H1). pose proof (wj_logs _ H2).
  pose proof (lookup_lt_Some _ _ _ El2). pose proof (se_txIndex _ _ E). unfold zlen in *.
  rewrite (addLog_run s2 ti L) by (assumption || (unfold zlen; lia)).
  destruct (pop_log_spec (logs s1) (Z.to_nat ti) L) as [P1 Q1]; [lia|assumption|assumption|].
  destruct (pop_log_spec (logs s2) (Z.to_nat ti) L) as [P2 Q2]; [lia|assumption|assumption|].
  eexists. split; [reflexivity|]. split; [|split; [|split; [|done]]].
  - destruct H1. split; try assumption. cbn. unfold zlen. lia.
  - destruct H2. split; try assumption. cbn. unfold zlen. lia.
  - destruct E. split; try assumption; cbn; [|lia]. intros i. rewrite P1, P2. destruct (decide _); auto.
Qed.

Lemma create_sim s1 s2 a :
  wfj s1 -> wfj s2 -> s1 ≡ s2 -> sim s1 s2 (revert_entry (createObjectChange a)).
Proof.
  intros H1 H2 E s1' [= <-]. eexists. split; [reflexivity|].
  assert (Hw : forall s, wfj s -> wfj (with_objectsDirty (with_objects s (delete a (stateObjects s)))
    (stateObjectsDirty s ∖ {[a]}))).
  { intros s H. apply (wfj_rest s); try done. intros b o Hb. cbn in Hb.
    apply lookup_delete_Some in Hb. apply (wj_obj _ H). tauto. }
  split; [by apply Hw|]. split; [by apply Hw|]. split; [|done].
  apply (st_eq_rest s1 s2); [assumption|done..|]. intros b. rewrite !vobj_delete.
  destruct (decide (a = b)); [apply vobj_eq_refl|apply (se_objects _ _ E)].
Qed.

Lemma selfdestruct_sim s1 s2 a b v :
  wfj s1 -> wfj s2 -> s1 ≡ s2 -> sim s1 s2 (revert_entry (selfdestructChange a b v)).
Proof.
  intros H1 H2 E s1'. cbn [revert_entry]. unfold mbind, M_bind.
  destruct (getStateObject_sim s1 s2 a H1 H2 E)
    as (r1 & r2 & t1 & t2 & -> & -> & W1 & W2 & Et & F1 & F2 & [(e & -> & ->)|[(-> & ->)|(o1 & o2 & -> & -> & Eo & L1 & L2)]]).
  - intros [= <-]. exists t2. auto 10.
  - intros [= <-]. exists t2. auto 10.
  - intros Eu. match type of Eu with upd_object _ ?g _ = _ =>
      destruct (update_sim t1 t2 a o1 o2 g W1 W2 Et) with (s1' := s1') as (s2' & -> & ? & ? & ? & ? & ?) end;
      [by split|assumption|assumption|by apply undestruct_proper|exact Eu|].
    eexists. split; [reflexivity|]. do 3 (split; [assumption|]). split; by eapply frame_trans.
Qed.

Lemma fake_sim s1 s2 a k v :
  wfj s1 -> wfj s2 -> s1 ≡ s2 -> sim s1 s2 (revert_entry (fakeStorageChange a k v)).
Proof.
  intros H1 H2 E s1'. cbn [revert_entry]. unfold mbind, M_bind.
  destruct (getStateObject_sim s1 s2 a H1 H2 E)
    as (r1 & r2 & t1 & t2 & -> & -> & W1 & W2 & Et & F1 & F2 & [(e & -> & ->)|[(-> & ->)|(o1 & o2 & -> & -> & Eo & L1 & L2)]]).
  - intros [= <-]. exists t2. auto 10.
  - discriminate.
  - cbn [option_bind mbind]. destruct (fakeStorage o1) as [f1|] eqn:Ef1; [|discriminate].
    pose proof (oe_fake _ _ Eo) as Hf. rewrite Ef1 in Hf.
    destruct (fakeStorage o2) as [f2|] eqn:Ef2; [|discriminate].
    rewrite (upd_live _ _ _ _ L1), (upd_live _ _ _ _ L2). intros [= <-]. eexists. split; [reflexivity|].
    destruct (wj_obj _ W1 _ _ L1), (wj_obj _ W2 _ _ L2).
    split; [by apply wfj_insert|]. split; [by apply wfj_insert|].
    split; [apply insert_equiv; [assumption|by apply setFake_proper]|].
    split; by eapply frame_trans.
Qed.

Lemma revert_entry_sim e s1 s2 :
  wfj s1 -> wfj s2 -> s1 ≡ s2 -> good (txIndex s1) e -> sim s1 s2 (revert_entry e).
Proof.
  intros H1 H2 E He.
  destruct e as [a|a p|a b v|a v|a v|r|a n|a k v b|a k v|a c h|v|ti|a|a|a k|a k v]; cbn [good] in He.
  - by apply create_sim.
  - intros s1' E1. destruct He as [Ha Hi]. cbn [revert_entry] in *. unfold mbind, M_bind in *.
    rewrite setStateObject_eq in E1 by assumption. injection E1 as <-. rewrite setStateObject_eq by assumption.
    eexists. split; [reflexivity|]. split; [by apply wfj_insert|]. split; [by apply wfj_insert|].
    split; [by apply insert_equiv|done].
  - by apply selfdestruct_sim.
  - apply revertObject_sim; auto using keeps_balance, setBalance_proper.
  - contradiction.
  - contradiction.
  - apply revertObject_sim; auto using keeps_nonce, setNonce_proper.
  - apply revertObject_sim; auto using keeps_state, setState_proper.
  - by apply fake_sim.
  - apply revertObject_sim; auto using keeps_code, setCode_proper.
  - intros s1' [= <-]. eexists. split; [reflexivity|]. destruct H1, H2, E. do 2 (split; [by split|]). by split.
  - by apply addLog_sim.
  - intros s1' [= <-]. exists s2. auto 10 using frame_refl.
  - intros s1'. cbn [revert_entry].
    destruct (accessList.DeleteAddress (access_list s1) a) as [al1| |] eqn:E1; [|discriminate..].
    destruct (accessList.DeleteAddress_equiv _ _ _ _ (se_access _ _ E) E1) as (al2 & -> & Hal).
    intros [= <-]. eexists. split; [reflexivity|]. destruct H1, H2, E. do 2 (split; [by split|]). by split.
  - intros s1'. cbn [revert_entry].
    destruct (accessList.DeleteSlot (access_list s1) a k) as [al1| |] eqn:E1; [|discriminate..].
    destruct (accessList.DeleteSlot_equiv _ _ _ _ _ (se_access _ _ E) E1) as (al2 & -> & Hal).
    intros [= <-]. eexists. split; [reflexivity|]. destruct H1, H2, E. do 2 (split; [by split|]). by split.
  - intros s1' [= <-]. eexists. split; [reflexivity|]. destruct H1, H2, E. do 2 (split; [by split|]).
    split; [|by split]. split; try assumption. intros b j. cbn [transient_storage with_transient].
    rewrite !transientStorage.Get_Set. destruct (decide _); auto.
Qed.

(** ** Reverting a list of entries *)

Lemma undirty_sim e s1 s2 :
  wfj s1 -> wfj s2 -> s1 ≡ s2 ->
  wfj (undirty e s1) /\ wfj (undirty e s2) /\ undirty e s1 ≡ undirty e s2 /\
  frame s1 (undirty e s1) /\ frame s2 (undirty e s2).
Proof.
  intros H1 H2 E. unfold undirty. destruct (dirtied e) as [a|]; [|by auto using frame_refl].
  destruct H1, H2, E. do 2 (split; [by split|]). split; [|done]. split; try assumption.
  intros b Hb. cbn [dirties with_journal].
  destruct (decide (a = b)) as [<-|Hab].
  - rewrite se_dirties0 by assumption. destruct (_ =? 0); [by rewrite !lookup_delete_eq|by rewrite !lookup_insert_eq].
  - destruct (_ - 1 =? 0), (_ - 1 =? 0);
      rewrite ?lookup_delete_ne, ?lookup_insert_ne by assumption; auto.
Qed.

Lemma revert_entries_sim E s1 s2 :
  wfj s1 -> wfj s2 -> s1 ≡ s2 -> Forall (good (txIndex s1)) E -> sim s1 s2 (revert_entries E).
Proof.
  intros H1 H2 Eq HE. revert s1 s2 H1 H2 Eq HE. induction E as [|e E IH]; intros s1 s2 H1 H2 Eq HE s1'.
  { intros [= <-]. exists s2. auto 10 using frame_refl. }
  apply Forall_cons in HE as [He HE]. cbn [revert_entries]. unfold mbind, M_bind.
  destruct (revert_entry e s1) as [[[] t1]| |] eqn:E1; [|discriminate..].
  destruct (revert_entry_sim e s1 s2 H1 H2 Eq He t1 E1) as (t2 & -> & W1 & W2 & Et & F1 & F2).
  cbn [modify]. destruct (undirty_sim e t1 t2 W1 W2 Et) as (V1 & V2 & Ev & G1 & G2). intros Er.
  destruct (IH (undirty e t1) (undirty e t2) V1 V2 Ev) with (s1' := s1') as (s2' & -> & ? & ? & ? & ? & ?).
  - by rewrite (fr_tx _ _ G1), (fr_tx _ _ F1).
  - exact Er.
  - eexists. split; [reflexivity|]. do 3 (split; [assumption|]).
    split; (eapply frame_trans; [|eassumption]); by eapply frame_trans.
Qed.

Lemma revert_entries_app E1 E2 s :
  revert_entries (E1 ++ E2) s = (_ ← revert_entries E1; revert_entries E2) s.
Proof.
  revert s. induction E1 as [|e E1 IH]; intros s; [reflexivity|].
  cbn [revert_entries app]. unfold mbind, M_bind in *. destruct (revert_entry e s) as [[u t]| |]; [|done..].
  cbn [modify]. apply IH.
Qed.
End JournalSpec.
