(* ===== verification/SnapshotSpec.v ===== *)
(** * Snapshots: reverting restores the state

    Each operation of the intra-block state leaves a state from which reverting the
    entries it appended to the journal leads back to an equivalent state
    ([undoable]). A program, as the virtual machine runs it, is a sequence of
    operations and of nested calls, each call bracketed by a snapshot and, when it
    fails, a revert. The theorem of the file: a snapshot, any program, and the revert to
    that snapshot return, and restore the accounts, storage, code, logs, refund, access
    list and transient storage, the journal and the list of snapshots. *)

From S2P Require Import Prelude Uint256 Params Errors AccessList StateDB Machine.
From S2P Require Import IntraBlockState JournalSpec.

#[local] Existing Instances accessList.al_equiv accessList.al_equivalence.

Section SnapshotSpec.
Context {U : Uint256} {K : Keccak} {R : StateReader}.

(** ** Undoable changes *)

Definition ids (s : IntraBlockState) : list Z := id <$> validRevisions s.

(** The invariant: the cache is well formed, the dirty counters count, and snapshot
    identifiers increase. *)
Record snap_ok (s : IntraBlockState) : Prop := mkSnapOk {
  so_wfj : wfj s;
  so_dirties a n : a <> ripemd -> dirties s !! a = Some n -> 0 < n;
  so_ids i j x y : (i < j)%nat -> ids s !! i = Some x -> ids s !! j = Some y -> x < y;
  so_next i x : ids s !! i = Some x -> x < nextRevisionId s
}.

Record undoable (s s' : IntraBlockState) : Prop := mkUndoable {
  un_ok : snap_ok s';
  un_tx : txIndex s' = txIndex s;
  un_next : nextRevisionId s <= nextRevisionId s';
  un_revisions : exists V, validRevisions s' = validRevisions s ++ V;
  un_entries : exists E, entries s' = E ++ entries s /\ Forall (good (txIndex s)) E /\
    exists t, revert_entries E s' = Val (tt, t) /\ wfj t /\ t ≡ s /\ frame s' t
}.

(** [m] returns, with an undoable change of the state, and [Q] of the result. *)
Definition tracks {A} (m : M IntraBlockState A) (s : IntraBlockState)
    (Q : A -> IntraBlockState -> Prop) : Prop :=
  wp False m s (fun r s' => undoable s s' /\ Q r s').

Lemma dirties_equiv s t :
  t ≡ s -> (forall a n, a <> ripemd -> dirties s !! a = Some n -> 0 < n) ->
  forall a n, a <> ripemd -> dirties t !! a = Some n -> 0 < n.
Proof. intros E H a n Ha. rewrite (se_dirties _ _ E) by assumption. by apply H. Qed.

(** A change that is not journalled because it cannot be observed. *)
Lemma undoable_quiet s s' : snap_ok s -> wfj s' -> s' ≡ s -> frame s s' -> undoable s s'.
Proof.
  intros [] Hw E [Fe Fr Fn Ft]. split.
  - split; [assumption|by eapply dirties_equiv|unfold ids; by rewrite Fr|].
    unfold ids. rewrite Fr, Fn. assumption.
  - assumption.
  - lia.
  - exists []. by rewrite app_nil_r.
  - exists []. split; [assumption|]. split; [constructor|].
    exists s'. split; [reflexivity|]. split; [assumption|]. split; [assumption|]. apply frame_refl.
Qed.

Lemma undoable_refl s : snap_ok s -> undoable s s.
Proof. intros H. apply undoable_quiet; [assumption|apply H|reflexivity|apply frame_refl]. Qed.

Lemma undoable_trans s1 s2 s3 :
  snap_ok s1 -> snap_ok s2 -> undoable s1 s2 -> undoable s2 s3 -> undoable s1 s3.
Proof.
  intros K1 K2 [O1 T1 N1 [V1 R1] (E1 & D1 & G1 & t1 & X1 & W1 & Q1 & F1)]
    [O2 T2 N2 [V2 R2] (E2 & D2 & G2 & t2 & X2 & W2 & Q2 & F2)].
  split; [assumption|congruence|lia| |].
  - exists (V1 ++ V2). by rewrite R2, R1, app_assoc.
  - exists (E2 ++ E1). split; [by rewrite D2, D1, app_assoc|].
    rewrite T1 in G2. split; [by apply Forall_app|].
    rewrite revert_entries_app. unfold mbind, M_bind. rewrite X2.
    assert (G1' : Forall (good (txIndex s2)) E1) by by rewrite T1.
    destruct (revert_entries_sim E1 s2 t2 (so_wfj _ K2) W2) with (s1' := t1) as (t & -> & _ & Wt & Qt & _ & Ft);
      [by symmetry|assumption|assumption|].
    exists t. split; [reflexivity|]. split; [assumption|]. split; [by rewrite <- Qt|by eapply frame_trans].
Qed.

Lemma tracks_ret {A} (a : A) s Q : snap_ok s -> Q a s -> tracks (mret a) s Q.
Proof. intros H HQ. apply wp_ret. split; [by apply undoable_refl|exact HQ]. Qed.

Lemma tracks_bind {A B} (m : M IntraBlockState A) (k : A -> M IntraBlockState B) s Q :
  snap_ok s -> tracks m s (fun a s' => snap_ok s' -> tracks (k a) s' Q) -> tracks (m ≫= k) s Q.
Proof.
  intros H Hm. apply wp_bind. eapply wp_mono; [exact Hm|]. intros a s' [Hu Hk].
  eapply wp_mono; [exact (Hk (un_ok _ _ Hu))|]. intros b s'' [Hu' HQ]. split; [|exact HQ].
  eapply undoable_trans; [exact H|exact (un_ok _ _ Hu)|exact Hu|exact Hu'].
Qed.

Lemma tracks_mono {A} (m : M IntraBlockState A) s (Q Q' : A -> IntraBlockState -> Prop) :
  tracks m s Q -> (forall a s', snap_ok s' -> Q a s' -> Q' a s') -> tracks m s Q'.
Proof.
  intros H HQ. eapply wp_mono; [exact H|]. intros a s' [Hu Hq]. split; [exact Hu|].
  apply HQ; [apply Hu|exact Hq].
Qed.

(** ** One journal entry *)

Lemma dirties_append e s a :
  dirties (journal_append e s) !! a =
  if bool_decide (dirtied e = Some a) then Some (default 0 (dirties s !! a) + 1) else dirties s !! a.
Proof.
  unfold journal_append. destruct (dirtied e) as [b|]; cbn; [|reflexivity].
  rewrite lookup_insert. destruct (decide (b = a)) as [->|Hb].
  - by rewrite bool_decide_true.
  - rewrite bool_decide_false by congruence. reflexivity.
Qed.

Lemma dirties_undirty e t a :
  dirties (undirty e t) !! a =
  if bool_decide (dirtied e = Some a)
  then if default 0 (dirties t !! a) - 1 =? 0 then None else Some (default 0 (dirties t !! a) - 1)
  else dirties t !! a.
Proof.
  unfold undirty. destruct (dirtied e) as [b|]; cbn [dirties with_journal].
  - destruct (decide (b = a)) as [->|Hb].
    + rewrite bool_decide_true by reflexivity.
      destruct (_ =? 0); [apply lookup_delete_eq|apply lookup_insert_eq].
    + rewrite bool_decide_false by congruence.
      destruct (_ =? 0); [by apply lookup_delete_ne|by apply lookup_insert_ne].
  - by rewrite bool_decide_false.
Qed.

(** [s'] is [s] with [e] journalled and something else changed, and reverting [e] undoes
    that change. *)
Lemma undoable_entry e s s' t :
  snap_ok s -> wfj s' -> good (txIndex s) e ->
  frame (journal_append e s) s' -> dirties s' = dirties (journal_append e s) ->
  revert_entry e s' = Val (tt, t) -> wfj t -> frame s' t -> dirties t = dirties s' ->
  with_journal t (entries s) (dirties s) ≡ s -> undoable s s'.
Proof.
  intros [] Hw Hg [Fe Fr Fn Ft] Hd He Hwt [Ge Gr Gn Gt] Hdt Hq.
  assert (J : entries (journal_append e s) = e :: entries s /\
    validRevisions (journal_append e s) = validRevisions s /\
    nextRevisionId (journal_append e s) = nextRevisionId s /\
    txIndex (journal_append e s) = txIndex s)
    by (unfold journal_append; destruct (dirtied e); auto).
  destruct J as (Je & Jr & Jn & Jt).
  assert (Hdp : forall a n, a <> ripemd -> dirties s' !! a = Some n -> 0 < n).
  { intros a n Ha. rewrite Hd, dirties_append.
    destruct (bool_decide_reflect (dirtied e = Some a)); [|by apply so_dirties0].
    intros [= <-]. destruct (dirties s !! a) as [m|] eqn:Em; cbn; [|lia].
    specialize (so_dirties0 a m Ha Em). lia. }
  split.
  - split; [assumption|exact Hdp|unfold ids; rewrite Fr, Jr; exact so_ids0|].
    unfold ids. rewrite Fr, Jr, Fn, Jn. exact so_next0.
  - congruence.
  - rewrite Fn, Jn. lia.
  - exists []. rewrite app_nil_r. congruence.
  - exists [e]. split; [by rewrite Fe, Je|]. split; [by repeat constructor|].
    exists (undirty e t). cbn [revert_entries]. unfold mbind, M_bind. rewrite He. cbn [modify].
    destruct (undirty_sim e t t Hwt Hwt (reflexivity t)) as (Wu & _ & _ & Fu & _).
    split; [reflexivity|]. split; [assumption|]. split; [|by eapply frame_trans].
    assert (Hqu : forall a, vobj (undirty e t) a = vobj t a)
      by (intros a; unfold undirty; by destruct (dirtied e)).
    assert (Hru : refund (undirty e t) = refund t /\ logs (undirty e t) = logs t /\
      logSize (undirty e t) = logSize t /\ access_list (undirty e t) = access_list t /\
      transient_storage (undirty e t) = transient_storage t /\ txIndex (undirty e t) = txIndex t)
      by (unfold undirty; by destruct (dirtied e)).
    destruct Hru as (U1 & U2 & U3 & U4 & U5 & U6). destruct Hq.
    split; rewrite ?Hqu, ?U1, ?U2, ?U3, ?U4, ?U5, ?U6; try assumption.
    + intros a. rewrite Hqu. apply se_objects.
    + intros a Ha. rewrite dirties_undirty, Hdt, Hd, dirties_append.
      destruct (bool_decide_reflect (dirtied e = Some a)); [|reflexivity]. cbn.
      rewrite Z.add_simpl_r. destruct (dirties s !! a) as [m|] eqn:Em; cbn; [|reflexivity].
      specialize (so_dirties0 a m Ha Em). destruct (Z.eqb_spec m 0); [lia|reflexivity].
Qed.

Lemma wfj_append e s : wfj s -> wfj (journal_append e s).
Proof. intros []. unfold journal_append. destruct (dirtied e); by split. Qed.

(** The state after journalling [e] and replacing the live object at [a]. *)
Definition put (e : journalEntry) (a : Z) (o : stateObject) (s : IntraBlockState) : IntraBlockState :=
  with_objects (journal_append e s) (<[a := o]> (stateObjects s)).

Lemma stateObjects_append e s : stateObjects (journal_append e s) = stateObjects s.
Proof. unfold journal_append. by destruct (dirtied e). Qed.

Lemma wfj_put e a o s :
  wfj s -> address o = a -> Initialised (data o) = true -> wfj (put e a o s).
Proof.
  intros H Ha Hi. unfold put. rewrite <- (stateObjects_append e s).
  apply wfj_insert; [by apply wfj_append|assumption..].
Qed.

(** The rest of the state is as it was, once the counters are set back. *)
Lemma put_rest e a o s x :
  same_rest s (with_journal (with_objects (put e a o s) x) (entries s) (dirties s)).
Proof. unfold put, journal_append. destruct (dirtied e); by split. Qed.

(** An entry that restores the object at [a]. *)
Lemma undoable_put e a o o' s :
  snap_ok s -> good (txIndex s) e -> stateObjects s !! a = Some o ->
  address o' = a -> Initialised (data o') = true ->
  (forall s', wfj s' -> stateObjects s' !! a = Some o' ->
     exists o'', revert_entry e s' = Val (tt, with_objects s' (<[a := o'']> (stateObjects s'))) /\
       address o'' = a /\ Initialised (data o'') = true /\ o'' ≡ o) ->
  undoable s (put e a o' s).
Proof.
  intros Hs Hg Hl Ha Hi Hr. pose proof (wfj_put e a o' s (so_wfj _ Hs) Ha Hi) as Hw.
  destruct (Hr (put e a o' s)) as (o'' & He & Ha' & Hi' & Ho); [assumption|apply lookup_insert_eq|].
  eapply undoable_entry; [exact Hs|exact Hw|exact Hg|done|done|exact He|by apply wfj_insert|done|done|].
  eapply st_eq_rest; [reflexivity|apply put_rest|by split|].
  intros b. change (vobj (with_journal ?t _ _) b) with (vobj t b). rewrite vobj_insert.
  destruct (decide (a = b)) as [<-|Hb]; [by rewrite (vobj_live s a o Hl)|].
  unfold put, vobj. cbn [stateObjects with_objects]. rewrite lookup_insert_ne by assumption.
  apply vobj_eq_refl.
Qed.

(** The entries whose reversal is a setter of the live object. *)
Lemma undoable_set e a o o' g s :
  snap_ok s -> good (txIndex s) e -> revert_entry e = revertObject a g -> keeps g ->
  stateObjects s !! a = Some o -> address o' = a -> Initialised (data o') = true -> g o' ≡ o ->
  undoable s (put e a o' s).
Proof.
  intros Hs Hg He Hk Hl Ha Hi Ho. apply (undoable_put e a o o'); try assumption.
  intros s' Hw Hl'. exists (g o'). destruct (Hk o') as [K1 K2].
  split; [|split; [congruence|auto]].
  rewrite He. unfold revertObject, getStateObject, mbind, M_bind. rewrite Hl'. by apply upd_live.
Qed.

Definition create_entry (a : Z) (previous : option stateObject) : journalEntry :=
  match previous with None => createObjectChange a | Some p => resetObjectChange a p end.

(** [previous] is what a lookup of [a] returned. *)
Definition found (s : IntraBlockState) (a : Z) (previous : option stateObject) : Prop :=
  match previous with None => vobj s a = inr None | Some p => stateObjects s !! a = Some p end.

Lemma undoable_create a previous o s :
  snap_ok s -> found s a previous -> address o = a -> Initialised (data o) = true ->
  undoable s (put (create_entry a previous) a o s).
Proof.
  intros Hs Hf Ha Hi. destruct previous as [p|]; cbn [create_entry found] in *.
  - destruct (wj_obj _ (so_wfj _ Hs) _ _ Hf) as [Pa Pi].
    apply (undoable_put _ a p o); try assumption; [by split|]. intros s' Hw Hl. exists p.
    split; [|done]. cbn [revert_entry]. unfold mbind, M_bind. by rewrite setStateObject_eq.
  - assert (Hw : wfj (put (createObjectChange a) a o s)) by (apply wfj_put; [by apply so_wfj|assumption..]).
    destruct (create_sim _ _ a Hw Hw (reflexivity _) _ eq_refl) as (t & E & W & _).
    eapply (undoable_entry (createObjectChange a)); [exact Hs|exact Hw|exact I|done|done|reflexivity| |done|done|].
    + exact W.
    + eapply (st_eq_rest s s); [reflexivity|by split|by split|].
      intros b. change (vobj (with_journal ?t _ _) b) with (vobj t b).
      unfold vobj in *. cbn [stateObjects with_objects with_objectsDirty put].
      rewrite lookup_delete, lookup_insert. destruct (decide (a = b)) as [<-|Hb]; [|apply vobj_eq_refl].
      destruct (stateObjects s !! a); [discriminate|]. rewrite Hf. apply vobj_eq_refl.
Qed.

(** ** Lookups *)

Inductive looked (a : Z) (s : IntraBlockState) : option stateObject * option Error -> Prop :=
| looked_error e : looked a s (None, Some e)
| looked_none : vobj s a = inr None -> looked a s (None, None)
| looked_live o : stateObjects s !! a = Some o -> address o = a -> Initialised (data o) = true ->
    looked a s (Some o, None).

Lemma getStateObject_tracks a s : snap_ok s -> tracks (getStateObject a) s (fun r s' => looked a s' r).
Proof.
  intros H. destruct (getStateObject_spec s a (so_wfj _ H)) as (r & s' & E & W & Q & F & _ & V & Hr).
  unfold tracks, wp. rewrite E. split; [by apply undoable_quiet|].
  destruct (vobj s a) as [e|[o|]].
  - subst r. constructor.
  - destruct Hr as (-> & ? & ? & ?). by constructor.
  - destruct Hr as [-> _]. by constructor.
Qed.

Definition fresh (a : Z) (previous : option stateObject) : stateObject :=
  let original := match previous with None => zeroAccount | Some p => original p end in
  let o := setNonce 0 (newObject a (acc_with_Root zeroAccount empty_RootHash) original) in
  so_with_flags o (selfdestructed o) true (createdContract o).

Lemma createObject_eq a previous s :
  wfj s -> createObject a previous s = Val (fresh a previous, put (create_entry a previous) a (fresh a previous) s).
Proof.
  intros H. unfold createObject, append_, modify, mbind, M_bind.
  destruct previous; cbn [create_entry]; rewrite setStateObject_eq by (by apply wfj_append); reflexivity.
Qed.

Lemma createObject_tracks a previous s :
  snap_ok s -> found s a previous ->
  tracks (createObject a previous) s (fun o s' => stateObjects s' !! a = Some o /\ address o = a /\
    Initialised (data o) = true /\ deleted o = false).
Proof.
  intros H Hf. unfold tracks, wp. rewrite createObject_eq by apply H.
  split; [by apply undoable_create|]. split; [apply lookup_insert_eq|done].
Qed.

Lemma GetOrNewStateObject_tracks a s :
  snap_ok s -> tracks (GetOrNewStateObject a) s (fun r s' =>
    (exists e, r = (None, Some e)) \/
    exists o, r = (Some o, None) /\ stateObjects s' !! a = Some o /\ address o = a /\
      Initialised (data o) = true /\ deleted o = false).
Proof.
  intros H. apply tracks_bind; [assumption|].
  eapply tracks_mono; [by apply getStateObject_tracks|]. intros r s1 _ Hr H1.
  destruct Hr as [e|Hv|o Hl Ha Hi].
  - apply tracks_ret; eauto.
  - apply tracks_bind; [assumption|]. eapply tracks_mono; [by apply createObject_tracks|].
    intros o s2 _ (L2 & A2 & I2 & D2) H2. apply tracks_ret; [assumption|]. eauto 10.
  - destruct (deleted o) eqn:Ed; [|apply tracks_ret; eauto 10].
    apply tracks_bind; [assumption|]. eapply tracks_mono; [by apply createObject_tracks|].
    intros o' s2 _ (L2 & A2 & I2 & D2) H2. apply tracks_ret; [assumption|]. eauto 10.
Qed.

Lemma tracks_seq {A B} (m : M IntraBlockState A) (k : A -> M IntraBlockState B) s P Q :
  snap_ok s -> tracks m s P -> (forall r s', snap_ok s' -> P r s' -> tracks (k r) s' Q) ->
  tracks (m ≫= k) s Q.
Proof.
  intros H Hm Hk. apply tracks_bind; [assumption|]. eapply tracks_mono; [exact Hm|]. auto.
Qed.

(** A read of the object at [a], which may fill its caches. *)
Lemma readObject_tracks {A} a (z : A) read s :
  snap_ok s ->
  (forall o s', snap_ok s' -> stateObjects s' !! a = Some o -> address o = a -> tracks (read o) s' (fun _ _ => True)) ->
  tracks (readObject a z read) s (fun _ _ => True).
Proof.
  intros H Hr. eapply tracks_seq; [assumption|by apply getStateObject_tracks|]. intros r s' H' [e|Hv|o Hl Ha Hi].
  - by apply tracks_ret.
  - by apply tracks_ret.
  - destruct (deleted o); [by apply tracks_ret|auto].
Qed.

(** Replacing a live object by an equivalent one is not observed. *)
Lemma undoable_cache a o o' s :
  snap_ok s -> stateObjects s !! a = Some o -> o' ≡ o ->
  undoable s (with_objects s (<[a := o']> (stateObjects s))).
Proof.
  intros H Hl E. destruct (wj_obj _ (so_wfj _ H) _ _ Hl) as [Ha Hi]. destruct E eqn:EE.
  apply undoable_quiet; [assumption| | |done].
  - apply wfj_insert; [apply H|congruence|congruence].
  - apply (st_eq_rest s s); [reflexivity|by split..|]. intros b. rewrite vobj_insert.
    destruct (decide (a = b)) as [<-|]; [rewrite (vobj_live s a o Hl); exact E|apply vobj_eq_refl].
Qed.

(** The live object at [a] is still the one the caller saw, up to its caches. *)
Definition still (a : Z) (o : stateObject) (s : IntraBlockState) : Prop :=
  exists o', stateObjects s !! a = Some o' /\ o' ≡ o /\ fakeStorage o' = fakeStorage o.

Lemma cache_origin k o v :
  fakeStorage o = None -> originStorage o !! k = None -> committed o k = v ->
  so_with_origin o (<[k := v]> (originStorage o)) (<[k := v]> (blockOriginStorage o)) ≡ o.
Proof.
  intros Hf Ho Hv. assert (Hc : forall j, committed (so_with_origin o (<[k := v]> (originStorage o))
    (<[k := v]> (blockOriginStorage o))) j = committed o j).
  { intros j. unfold committed in *. cbn [fakeStorage so_with_origin originStorage createdContract address].
    rewrite Hf in *. rewrite lookup_insert. destruct (decide (k = j)) as [<-|]; [by rewrite Ho in *|reflexivity]. }
  split; try reflexivity; intros j; [apply Hc|].
  unfold stored. cbn [fakeStorage dirtyStorage so_with_origin]. by rewrite Hc.
Qed.

Lemma so_GetCommittedState_tracks k a o s :
  snap_ok s -> stateObjects s !! a = Some o -> address o = a ->
  tracks (so_GetCommittedState k o) s (fun v s' => v = committed o k /\ still a o s').
Proof.
  intros H Hl Ha. assert (Hst : still a o s) by (by exists o). unfold so_GetCommittedState.
  destruct (fakeStorage o) as [f|] eqn:Ef.
  { apply tracks_ret; [assumption|]. unfold committed. by rewrite Ef. }
  destruct (originStorage o !! k) as [v|] eqn:Eo.
  { apply tracks_ret; [assumption|]. unfold committed. by rewrite Ef, Eo. }
  assert (Hc : committed o k = (if createdContract o then 0 else
    match ReadAccountStorage (address o) k with
    | (_, _, Some _) => 0 | (v, ok, None) => if ok : bool then v else 0 end))
    by (unfold committed; by rewrite Ef, Eo).
  destruct (createdContract o); [by apply tracks_ret|].
  destruct (ReadAccountStorage (address o) k) as [[v ok] [e|]]; [by apply tracks_ret|].
  unfold tracks, wp, mbind, M_bind. rewrite Ha, (upd_live a _ s o Hl).
  split; [|split; [done|]].
  - apply (undoable_cache a o); [assumption..|]. by apply cache_origin.
  - eexists. split; [apply lookup_insert_eq|]. split; [by apply cache_origin|reflexivity].
Qed.

Lemma so_GetState_tracks k a o s :
  snap_ok s -> stateObjects s !! a = Some o -> address o = a ->
  tracks (so_GetState k o) s (fun r s' => r.1 = stored o k /\ still a o s').
Proof.
  intros H Hl Ha. assert (Hst : still a o s) by (by exists o). unfold so_GetState.
  destruct (fakeStorage o) as [f|] eqn:Ef.
  { apply tracks_ret; [assumption|]. unfold stored. by rewrite Ef. }
  destruct (dirtyStorage o !! k) as [v|] eqn:Ed.
  { apply tracks_ret; [assumption|]. unfold stored. by rewrite Ef, Ed. }
  eapply tracks_seq; [assumption|by apply so_GetCommittedState_tracks|].
  intros v s' H' [-> Hs']. apply tracks_ret; [assumption|]. unfold stored. by rewrite Ef, Ed.
Qed.

Lemma cache_code o c :
  so_code o = None -> codev o = (c, None) -> (acc_CodeHash (data o) =? empty_CodeHash) = false ->
  so_with_code o c ≡ o.
Proof.
  intros Hn Hc Hh. split; try reflexivity. rewrite Hc. unfold codev in *.
  cbn [so_code so_with_code data address]. rewrite Hn in Hc. rewrite Hh in *.
  destruct (ReadAccountCode (address o)) as [c' [e|]]; [discriminate|]. injection Hc as ->.
  by destruct c.
Qed.

Lemma so_Code_tracks a o s :
  snap_ok s -> stateObjects s !! a = Some o -> address o = a ->
  tracks (so_Code o) s (fun r s' => r = codev o /\ still a o s').
Proof.
  intros H Hl Ha. assert (Hst : still a o s) by (by exists o). unfold so_Code.
  destruct (so_code o) as [c|] eqn:Ec.
  { apply tracks_ret; [assumption|]. unfold codev. by rewrite Ec. }
  destruct (acc_CodeHash (data o) =? empty_CodeHash) eqn:Eh.
  { apply tracks_ret; [assumption|]. unfold codev. by rewrite Ec, Eh. }
  destruct (ReadAccountCode (address o)) as [c [e|]] eqn:Er.
  { apply tracks_ret; [assumption|]. unfold codev. by rewrite Ec, Eh, Er. }
  assert (Hv : codev o = (c, None)) by (unfold codev; by rewrite Ec, Eh, Er).
  unfold tracks, wp, mbind, M_bind. rewrite Ha, (upd_live a _ s o Hl). split; [|split; [done|]].
  - apply (undoable_cache a o); [assumption..|]. by apply cache_code.
  - eexists. split; [apply lookup_insert_eq|]. split; [by apply cache_code|reflexivity].
Qed.

(** ** Writes of the live object *)

Lemma append_upd e a g o s :
  stateObjects s !! a = Some o -> upd_object a g (journal_append e s) = Val (tt, put e a (g o) s).
Proof.
  intros Hl. rewrite (upd_live a g _ o) by (by rewrite stateObjects_append).
  unfold put. by rewrite stateObjects_append.
Qed.

Lemma setBalance_back v o : Initialised (data o) = true -> setBalance (Balance (data o)) (setBalance v o) ≡ o.
Proof. intros Hi. split; try reflexivity. destruct o as [? [] ? ? ? ? ? ? ? ? ? ? ?]; cbn in *. by subst. Qed.

Lemma setNonce_back v o : setNonce (Nonce (data o)) (setNonce v o) ≡ o.
Proof. split; try reflexivity. by destruct o as [? [] ? ? ? ? ? ? ? ? ? ? ?]. Qed.

Lemma setCode_back h c c0 o : codev o = (c0, None) -> setCode (acc_CodeHash (data o)) c0 (setCode h c o) ≡ o.
Proof.
  intros Hc. split; try reflexivity; [by destruct o as [? [] ? ? ? ? ? ? ? ? ? ? ?]|].
  rewrite Hc. unfold codev in *. cbn. destruct c0 as [c0|]; [reflexivity|].
  by destruct (so_code o).
Qed.

Lemma setState_back k v o : fakeStorage o = None -> setState k (stored o k) (setState k v o) ≡ o.
Proof.
  intros Hf. split; try reflexivity. intros j. rewrite !stored_setState. cbn [fakeStorage setState so_with_dirty].
  rewrite Hf. cbn. destruct (decide (k = j)); [congruence|reflexivity].
Qed.

Definition any {A} : A -> IntraBlockState -> Prop := fun _ _ => True.

Lemma so_SetBalance_tracks v a o s :
  snap_ok s -> stateObjects s !! a = Some o -> address o = a -> Initialised (data o) = true ->
  tracks (so_SetBalance v o) s any.
Proof.
  intros H Hl Ha Hi. unfold tracks, wp, so_SetBalance, append_, modify, mbind, M_bind.
  rewrite Ha, (append_upd _ a _ o s Hl). split; [|done].
  eapply (undoable_set _ a o _ _ s); try exact I; auto using keeps_balance, setBalance_back.
Qed.

Lemma so_SetNonce_tracks v a o s :
  snap_ok s -> stateObjects s !! a = Some o -> address o = a -> Initialised (data o) = true ->
  tracks (so_SetNonce v o) s any.
Proof.
  intros H Hl Ha Hi. unfold tracks, wp, so_SetNonce, append_, modify, mbind, M_bind.
  rewrite Ha, (append_upd _ a _ o s Hl). split; [|done].
  eapply (undoable_set _ a o _ _ s); try exact I; auto using keeps_nonce, setNonce_back.
Qed.

Lemma so_SetCode_tracks h c a o s :
  snap_ok s -> stateObjects s !! a = Some o -> address o = a -> Initialised (data o) = true ->
  tracks (so_SetCode h c o) s any.
Proof.
  intros H Hl Ha Hi. eapply tracks_seq; [assumption|by apply (so_Code_tracks a)|].
  intros [c0 err] s' H' [Hc (o' & Hl' & Eo & _)]. destruct err as [e|]; [by apply tracks_ret|].
  unfold tracks, wp, append_, modify, mbind, M_bind. rewrite Ha, (append_upd _ a _ o' s' Hl'). split; [|done].
  rewrite <- (oe_address _ _ Eo) in Ha. rewrite <- (oe_data _ _ Eo) in *. rewrite <- (oe_code _ _ Eo) in Hc.
  eapply (undoable_set _ a o' _ _ s'); try exact I; auto using keeps_code, setCode_back.
Qed.

Lemma fake_back k v f o :
  fakeStorage o = Some f ->
  so_with_fake (so_with_fake o (Some (<[k := v]> f))) (Some (<[k := default 0 (f !! k)]> (<[k := v]> f))) ≡ o.
Proof.
  intros Hf. split; try reflexivity; [| |by rewrite Hf]; intros j; unfold stored, committed; cbn; rewrite Hf;
    rewrite !lookup_insert; by destruct (decide (k = j)) as [<-|].
Qed.

Lemma so_SetState_tracks k v force a o s :
  snap_ok s -> stateObjects s !! a = Some o -> address o = a -> Initialised (data o) = true ->
  deleted o = false -> tracks (so_SetState k v force o) s any.
Proof.
  intros H Hl Ha Hi Hd. unfold so_SetState. destruct (fakeStorage o) as [f|] eqn:Ef.
  { unfold tracks, wp, append_, modify, mbind, M_bind. rewrite Ha, (append_upd _ a _ o s Hl). split; [|done].
    apply (undoable_put _ a o); [assumption|exact I|assumption..|]. intros s' Hw Hl'.
    eexists. split.
    { cbn [revert_entry]. unfold getStateObject, mbind, M_bind. rewrite Hl'. cbn. by apply upd_live. }
    split; [done|]. split; [done|]. by apply fake_back. }
  rewrite Ha. eapply (tracks_seq _ _ s (fun r s' => r = (Some o, None) /\ s' = s)); [assumption| |].
  { unfold tracks, wp, getStateObject. rewrite Hl. split; [by apply undoable_refl|done]. }
  intros r s0 _ [-> ->]. rewrite Hd.
  eapply tracks_seq; [assumption|by apply (so_GetState_tracks k a)|].
  intros [prev commited] s' H' [Hp (o' & Hl' & Eo & Hf')]. cbn in Hp. subst prev.
  destruct (_ && _); [by apply tracks_ret|].
  unfold tracks, wp, append_, modify, mbind, M_bind. rewrite (append_upd _ a _ o' s' Hl'). split; [|done].
  rewrite <- (oe_address _ _ Eo) in Ha. rewrite <- (oe_data _ _ Eo) in Hi. rewrite <- (oe_stored _ _ Eo).
  eapply (undoable_set _ a o' _ _ s'); try exact I; auto using keeps_state.
  apply setState_back. congruence.
Qed.

(** ** The rest of the state *)

(** Solve the record goals that hold field by field. *)
Ltac fields := first [done | split; try done; try assumption; try reflexivity].

Lemma undoable_refund s x :
  snap_ok s -> is_u64 x -> undoable s (with_refund (journal_append (refundChange (refund s)) s) x).
Proof.
  intros H Hx. destruct (so_wfj _ H). eapply (undoable_entry (refundChange (refund s)));
    [exact H|fields|assumption|done|done|reflexivity|fields|done|done|]. fields. intros b. apply vobj_eq_refl.
Qed.

(** Appending to the counters alone. *)
Lemma undoable_touch s a : snap_ok s -> undoable s (journal_append (touchChange a) s).
Proof.
  intros H. destruct (so_wfj _ H). eapply (undoable_entry (touchChange a));
    [exact H|fields|exact I|done|done|reflexivity|fields|done|done|]. fields. intros b. apply vobj_eq_refl.
Qed.

(** The extra mark on the RIPEMD address is not undone, and not observed either. *)
Lemma undoable_mark s : snap_ok s -> undoable s (journal_dirty ripemd s).
Proof.
  intros H. destruct (so_wfj _ H). apply undoable_quiet; [assumption|fields| |done]. fields.
  - intros b. apply vobj_eq_refl.
  - intros b Hb. cbn. by rewrite lookup_insert_ne.
Qed.

Lemma so_touch_tracks o s : snap_ok s -> tracks (so_touch o) s any.
Proof.
  intros H. eapply (tracks_seq _ _ s any); [assumption|split; [by apply undoable_touch|exact I]|].
  intros _ s' H' _. destruct (Z.eqb_spec (address o) ripemd) as [->|].
  - split; [by apply undoable_mark|exact I].
  - by apply tracks_ret.
Qed.

Lemma undoable_transient s a k v :
  snap_ok s ->
  undoable s (with_transient
    (journal_append (transientStorageChange a k (transientStorage.Get (transient_storage s) a k)) s)
    (transientStorage.Set_ (transient_storage s) a k v)).
Proof.
  intros H. destruct (so_wfj _ H).
  eapply (undoable_entry (transientStorageChange a k (transientStorage.Get (transient_storage s) a k)));
    [exact H|fields|exact I|done|done|reflexivity|fields|done|done|]. fields.
  - intros b. apply vobj_eq_refl.
  - intros b j. cbn. rewrite !transientStorage.Get_Set. destruct (decide _) as [[-> ->]|]; reflexivity.
Qed.

Lemma undoable_access e s al al' :
  snap_ok s -> good (txIndex s) e -> dirtied e = None ->
  revert_entry e (with_access_list (journal_append e s) al) =
    Val (tt, with_access_list (with_access_list (journal_append e s) al) al') ->
  al' ≡ access_list s -> undoable s (with_access_list (journal_append e s) al).
Proof.
  intros H Hg Hd Hr Hal. destruct (so_wfj _ H).
  eapply (undoable_entry e); [exact H| |exact Hg|done|done|exact Hr| | | |];
    unfold journal_append; rewrite Hd; fields. intros b. apply vobj_eq_refl.
Qed.

Lemma undoable_addAddress s a :
  snap_ok s -> accessList.ContainsAddress (access_list s) a = false ->
  undoable s (with_access_list (journal_append (accessListAddAccountChange a) s)
    (accessList.AddAddress (access_list s) a).1).
Proof.
  intros H Ha. destruct (accessList.AddAddress_back _ _ Ha) as (al & E & Hal).
  apply (undoable_access _ s _ al); [assumption|exact I|reflexivity| |assumption]. cbn [revert_entry].
  change (access_list (with_access_list _ ?x)) with x. by rewrite E.
Qed.

Lemma undoable_addSlot s a k :
  snap_ok s -> accessList.Contains (access_list s) a k = (true, false) ->
  undoable s (with_access_list (journal_append (accessListAddSlotChange a k) s)
    (accessList.AddSlot (access_list s) a k).1).
Proof.
  intros H Ha. destruct (accessList.AddSlot_back _ _ _ Ha) as (al & E & Hal).
  apply (undoable_access _ s _ al); [assumption|exact I|reflexivity| |assumption]. cbn [revert_entry].
  change (access_list (with_access_list _ ?x)) with x. by rewrite E.
Qed.

(** The log slots of the block, up to and including the current transaction. *)
Definition grown (s : IntraBlockState) : list (list Log) :=
  logs s ++ replicate (Z.to_nat (txIndex s + 1 - zlen (logs s))) [].

Lemma grown_spec s :
  wfj s -> length (grown s) = S (Z.to_nat (txIndex s)) /\
  forall i, default [] (grown s !! i) = default [] (logs s !! i).
Proof.
  intros []. unfold grown, zlen in *. split; [rewrite length_app, length_replicate; lia|].
  intros i. destruct (decide (i < length (logs s))%nat).
  - by rewrite lookup_app_l by assumption.
  - rewrite lookup_app_r, (lookup_ge_None_2 (logs s)) by lia.
    destruct (replicate _ _ !! _) eqn:E; [|reflexivity]. by apply lookup_replicate in E as [-> _].
Qed.

Lemma undoable_log l s :
  snap_ok s ->
  undoable s (with_logs (journal_append (addLogChange (txIndex s)) s)
    (alter (fun x => x ++ [l]) (Z.to_nat (txIndex s)) (grown s)) (logSize s + 1)).
Proof.
  intros H. destruct (grown_spec s (so_wfj _ H)) as [Hlen Hgrown].
  destruct (lookup_lt_is_Some_2 (grown s) (Z.to_nat (txIndex s))) as [L HL]; [lia|].
  set (ls := alter _ _ _). set (s' := with_logs _ _ _).
  assert (Hat : ls !! Z.to_nat (txIndex s) = Some (L ++ [l])) by (unfold ls; by rewrite list_lookup_alter_eq, HL).
  assert (Hls : length ls = S (Z.to_nat (txIndex s))) by (unfold ls; by rewrite length_alter).
  destruct (pop_log_spec ls (Z.to_nat (txIndex s)) (L ++ [l]) Hls Hat) as [P Q]; [by destruct L|].
  destruct (so_wfj _ H).
  apply (undoable_entry (addLogChange (txIndex s)) s s'
    (with_logs s' (pop_log ls (Z.to_nat (txIndex s)) (L ++ [l])) (logSize s))); [exact H| |reflexivity|done|done| | |done|done|].
  - split; try assumption. unfold s', zlen. cbn [logs with_logs txIndex]. rewrite Hls. cbn. lia.
  - replace (logSize s) with (logSize s' - 1) by (cbn; lia).
    apply (addLog_run s' (txIndex s) (L ++ [l])); [exact Hat|by destruct L|]. unfold s', zlen. cbn [logs with_logs]. lia.
  - split; try assumption. unfold zlen. cbn [logs with_logs txIndex s']. cbn. lia.
  - split; try done; cbn [logs logSize with_logs with_journal s']; [intros b; apply vobj_eq_refl|].
    intros i. rewrite P, <- Hgrown, length_app, take_app_le by (cbn; lia).
    destruct (decide (i = Z.to_nat (txIndex s))) as [->|Hi].
    + rewrite HL. cbn. rewrite Nat.add_sub. apply firstn_all.
    + unfold ls. by rewrite list_lookup_alter_ne.
Qed.

(** The contracts created in this transaction are excluded: the entry does not keep
    the flag the operation clears. *)
Lemma undoable_selfdestruct a o s :
  snap_ok s -> stateObjects s !! a = Some o -> createdContract o = false ->
  undoable s (put (selfdestructChange a (selfdestructed o) (Balance (data o))) a
    (so_with_data (so_with_flags o true (newlyCreated o) false) (acc_with_Balance (data o) 0)) s).
Proof.
  intros H Hl Hc. destruct (wj_obj _ (so_wfj _ H) _ _ Hl) as [Ha Hi].
  apply (undoable_put _ a o); try assumption; [exact I|]. intros s' Hw Hl'. eexists. split.
  { cbn [revert_entry]. unfold getStateObject, mbind, M_bind. rewrite Hl'. by apply upd_live. }
  split; [done|]. split; [done|]. split; try reflexivity.
  - destruct o as [? [] ? ? ? ? ? ? ? ? ? ? ?]; cbn in *. by subst.
  - intros k. unfold committed. cbn. by rewrite Hc.
  - intros k. unfold stored, committed. cbn. by rewrite Hc.
  - cbn. by rewrite Hc.
Qed.
End SnapshotSpec.
