(* ===== verification/RevertSafe.v ===== *)
(** * Reverting to a snapshot

    A program, as the virtual machine runs it against the intra-block state, is a
    sequence of operations and of nested calls; a call takes a snapshot, runs its body
    and, when the body failed, reverts to the snapshot. The file proves that every
    operation is undoable, that the binary search of [RevertToSnapshot] finds the
    snapshot, and that a snapshot, any permitted program and the revert to that
    snapshot return and restore the state. *)

From S2P Require Import Prelude Uint256 Params Errors AccessList StateDB Machine Instances.
From S2P Require Import IntraBlockState JournalSpec SnapshotSpec.

(** ** Programs over the state *)

(** The calls of the state interface. *)
Inductive jop : Type :=
| JGetBalance (a : Z) | JGetNonce (a : Z) | JGetCode (a : Z) | JGetCodeSize (a : Z) | JGetCodeHash (a : Z)
| JResolveCode (a : Z) | JResolveCodeHash (a : Z) | JGetDelegatedDesignation (a : Z)
| JGetState (a k : Z) | JGetCommittedState (a k : Z) | JHasStorage (a : Z) | JGetTransientState (a k : Z)
| JExist (a : Z) | JEmpty (a : Z) | JHasSelfdestructed (a : Z)
| JAddBalance (a v : Z) | JSubBalance (a v : Z) | JSetNonce (a n : Z) | JSetCode (a : Z) (c : bytes)
| JSetState (a k v : Z) | JSetTransientState (a k v : Z)
| JSelfdestruct (a : Z) | JSelfdestruct6780 (a : Z) | JCreateAccount (a : Z) (contractCreation : bool)
| JAddLog (l : Log) | JAddRefund (g : Z) | JSubRefund (g : Z)
| JAddAddress (a : Z) | JAddSlot (a k : Z).

Inductive prog : Type :=
| Done
| Then (o : jop) (p : prog)
| Call (body : prog) (failed : bool) (p : prog).

Section Programs.
Context {U : Uint256} {K : Keccak} {R : StateReader}.

(** Run an operation and drop its result. *)
Definition void {A} (m : M IntraBlockState A) : M IntraBlockState unit := _ ← m; mret tt.

Definition jop_run (o : jop) : M IntraBlockState unit :=
  match o with
  | JGetBalance a => void (ibs_GetBalance a)
  | JGetNonce a => void (ibs_GetNonce a)
  | JGetCode a => void (ibs_GetCode a)
  | JGetCodeSize a => void (ibs_GetCodeSize a)
  | JGetCodeHash a => void (ibs_GetCodeHash a)
  | JResolveCode a => void (ibs_ResolveCode a)
  | JResolveCodeHash a => void (ibs_ResolveCodeHash a)
  | JGetDelegatedDesignation a => void (ibs_GetDelegatedDesignation a)
  | JGetState a k => void (ibs_GetState a k)
  | JGetCommittedState a k => void (ibs_GetCommittedState a k)
  | JHasStorage a => void (ibs_HasStorage a)
  | JGetTransientState a k => void (ibs_GetTransientState a k)
  | JExist a => void (ibs_Exist a)
  | JEmpty a => void (ibs_Empty a)
  | JHasSelfdestructed a => void (ibs_HasSelfdestructed a)
  | JAddBalance a v => void (ibs_AddBalance a v)
  | JSubBalance a v => void (ibs_SubBalance a v)
  | JSetNonce a n => void (ibs_SetNonce a n)
  | JSetCode a c => void (ibs_SetCode a c)
  | JSetState a k v => void (ibs_SetState a k v)
  | JSetTransientState a k v => void (ibs_SetTransientState a k v)
  | JSelfdestruct a => void (ibs_Selfdestruct a)
  | JSelfdestruct6780 a => void (ibs_Selfdestruct6780 a)
  | JCreateAccount a c => void (ibs_CreateAccount a c)
  | JAddLog l => void (ibs_AddLog l)
  | JAddRefund g => void (ibs_AddRefund g)
  | JSubRefund g => void (ibs_SubRefund g)
  | JAddAddress a => void (ibs_AddAddressToAccessList a)
  | JAddSlot a k => void (ibs_AddSlotToAccessList a k)
  end.

Fixpoint run_prog (p : prog) : M IntraBlockState unit :=
  match p with
  | Done => mret tt
  | Then o p => _ ← jop_run o; run_prog p
  | Call body failed p =>
      id ← ibs_Snapshot;
      _ ← run_prog body;
      _ ← (if failed then ibs_RevertToSnapshot id else mret tt);
      run_prog p
  end.

(** Is the account at [a] a contract created in this transaction? *)
Definition created (a : Z) (s : IntraBlockState) : bool :=
  match stateObjects s !! a with Some o => createdContract o | None => false end.

(** A zero credit to the RIPEMD address is meant to survive a revert; the destruction of
    a contract created in the same transaction is not undone completely. *)
Definition permitted (o : jop) (s : IntraBlockState) : bool :=
  match o with
  | JAddBalance a v => negb ((a =? ripemd) && u_IsZero v)
  | JSelfdestruct a | JSelfdestruct6780 a => negb (created a s)
  | JSubRefund g => 0 <=? g
  | _ => true
  end.

Fixpoint allowed (p : prog) (s : IntraBlockState) : bool :=
  match p with
  | Done => true
  | Then o p =>
      permitted o s && match jop_run o s with Val (_, s') => allowed p s' | _ => true end
  | Call body failed p =>
      match ibs_Snapshot s with
      | Val (id, s1) =>
          allowed body s1 &&
          match (_ ← run_prog body; if failed then ibs_RevertToSnapshot id else mret tt) s1 with
          | Val (_, s2) => allowed p s2
          | _ => true
          end
      | _ => true
      end
  end.

(** ** Every operation is undoable *)

Lemma void_tracks {A} (m : M IntraBlockState A) s Q : snap_ok s -> tracks m s Q -> tracks (void m) s any.
Proof. intros H Hm. eapply tracks_seq; [assumption|exact Hm|]. intros. by apply tracks_ret. Qed.

(** After a lookup: an error, nothing, or a live object. *)
Ltac lookup a :=
  (eapply tracks_seq; [assumption|by apply (getStateObject_tracks a)|]);
  let e := fresh "e" in let o := fresh "o" in
  intros ? ? ? [e|?|o ? ? ?]; [by apply tracks_ret|try by apply tracks_ret|].

Lemma GetCode_live a o s :
  snap_ok s -> stateObjects s !! a = Some o -> address o = a ->
  tracks (ibs_GetCode a) s (fun _ s' => still a o s').
Proof.
  intros H Hl Ha. unfold ibs_GetCode, readObject.
  eapply (tracks_seq _ _ s (fun r s' => r = (Some o, None) /\ s' = s)); [assumption| |].
  { unfold tracks, wp, getStateObject. rewrite Hl. split; [by apply undoable_refl|done]. }
  intros r s0 _ [-> ->]. assert (Hst : still a o s) by by exists o.
  destruct (deleted o); [by apply tracks_ret|].
  eapply tracks_seq; [assumption|by apply (so_Code_tracks a)|]. intros [c err] s' H' [_ Hs'].
  by apply tracks_ret.
Qed.

Lemma GetCode_tracks a s : snap_ok s -> tracks (ibs_GetCode a) s any.
Proof.
  intros H. apply readObject_tracks; [assumption|]. intros o s' H' Hl Ha.
  eapply tracks_seq; [assumption|by apply (so_Code_tracks a)|]. intros [c err] s'' ? ?. by apply tracks_ret.
Qed.

Lemma GetCodeHash_tracks a s : snap_ok s -> tracks (ibs_GetCodeHash a) s any.
Proof. intros H. apply readObject_tracks; [assumption|]. intros. by apply tracks_ret. Qed.

Lemma GetDelegatedDesignation_tracks a s : snap_ok s -> tracks (ibs_GetDelegatedDesignation a) s any.
Proof.
  intros H. eapply tracks_seq; [assumption|by apply GetCode_tracks|]. intros [c err] s' H' _.
  destruct err; [by apply tracks_ret|]. destruct (ParseDelegation c); by apply tracks_ret.
Qed.

(** [GetOrNewStateObject], then a write of the object. *)
Lemma write_tracks a (write : stateObject -> M IntraBlockState (option Error)) s :
  snap_ok s ->
  (forall o s', snap_ok s' -> stateObjects s' !! a = Some o -> address o = a ->
     Initialised (data o) = true -> deleted o = false -> tracks (write o) s' any) ->
  tracks ('(so, err) ← GetOrNewStateObject a;
          match err, so with None, Some o => write o | _, _ => mret err end) s any.
Proof.
  intros H Hw. eapply tracks_seq; [assumption|by apply GetOrNewStateObject_tracks|].
  intros r s' H' [(e & ->)|(o & -> & Hl & Ha & Hi & Hd)]; [by apply tracks_ret|eauto].
Qed.

(** Run a tracked step and return. *)
Lemma then_ret {A B} (m : M IntraBlockState A) (b : B) s Q :
  snap_ok s -> tracks m s Q -> tracks (_ ← m; mret b) s any.
Proof. intros H Hm. eapply tracks_seq; [assumption|exact Hm|]. intros. by apply tracks_ret. Qed.

Lemma AddBalance_tracks a v s :
  snap_ok s -> (a =? ripemd) && u_IsZero v = false -> tracks (ibs_AddBalance a v) s any.
Proof.
  intros H Hp. unfold tracks, ibs_AddBalance, wp.
  rewrite <- andb_assoc, Hp, andb_false_r. apply write_tracks; [assumption|].
  intros o s' H' Hl Ha Hi Hd. destruct (u_IsZero v).
  - eapply then_ret; [assumption|]. destruct (so_empty o); [by apply so_touch_tracks|by apply tracks_ret].
  - eapply then_ret; [assumption|]. by apply (so_SetBalance_tracks _ a).
Qed.

Lemma SubBalance_tracks a v s : snap_ok s -> tracks (ibs_SubBalance a v) s any.
Proof.
  intros H. unfold ibs_SubBalance. destruct (u_IsZero v); [by apply tracks_ret|].
  apply write_tracks; [assumption|]. intros o s' H' Hl Ha Hi Hd.
  eapply then_ret; [assumption|]. by apply (so_SetBalance_tracks _ a).
Qed.

Lemma SetNonce_tracks a n s : snap_ok s -> tracks (ibs_SetNonce a n) s any.
Proof.
  intros H. apply write_tracks; [assumption|]. intros o s' H' Hl Ha Hi Hd.
  eapply then_ret; [assumption|]. by apply (so_SetNonce_tracks _ a).
Qed.

Lemma SetCode_tracks a c s : snap_ok s -> tracks (ibs_SetCode a c) s any.
Proof.
  intros H. apply write_tracks; [assumption|]. intros o s' H' Hl Ha Hi Hd.
  eapply then_ret; [assumption|]. by apply (so_SetCode_tracks _ _ a).
Qed.

Lemma SetState_tracks a k v s : snap_ok s -> tracks (ibs_SetState a k v) s any.
Proof.
  intros H. apply write_tracks; [assumption|]. intros o s' H' Hl Ha Hi Hd.
  eapply then_ret; [assumption|]. by apply (so_SetState_tracks _ _ _ a).
Qed.

Lemma SetTransientState_tracks a k v s : snap_ok s -> tracks (ibs_SetTransientState a k v) s any.
Proof.
  intros H. unfold tracks, wp, ibs_SetTransientState, ibs_GetTransientState, gets, append_, modify, mbind, M_bind.
  destruct (_ =? _); [split; [by apply undoable_refl|exact I]|].
  split; [exact (undoable_transient s a k v H)|exact I].
Qed.

Lemma Selfdestruct_live a o s :
  snap_ok s -> stateObjects s !! a = Some o -> createdContract o = false ->
  tracks (ibs_Selfdestruct a) s any.
Proof.
  intros H Hl Hc. unfold tracks, wp, ibs_Selfdestruct, getStateObject, mbind, M_bind. rewrite Hl.
  destruct (deleted o); [split; [by apply undoable_refl|exact I]|].
  unfold append_, modify. rewrite (append_upd _ a _ o s Hl). split; [|exact I].
  exact (undoable_selfdestruct a o s H Hl Hc).
Qed.

(** A lookup does not make a contract one created in this transaction. *)
Lemma getStateObject_created a s :
  snap_ok s -> created a s = false ->
  tracks (getStateObject a) s (fun r s' => looked a s' r /\ forall o, r.1 = Some o -> createdContract o = false).
Proof.
  intros H Hc. destruct (wp_val _ _ _ (getStateObject_tracks a s H)) as (r & s' & E & Hu & Hr).
  unfold tracks, wp. rewrite E. split; [assumption|]. split; [assumption|]. intros o Ho.
  destruct (getStateObject_spec s a (so_wfj _ H)) as (r' & s'' & E' & _ & _ & _ & _ & _ & Hv).
  rewrite E in E'. injection E' as <- <-. unfold created, vobj in *.
  destruct (stateObjects s !! a) as [o'|]; [destruct Hv as [-> _]; cbn in Ho; congruence|].
  destruct (ReadAccountData a) as [[acc|] [e|]]; try (subst r; discriminate).
  - destruct Hv as [-> _]. injection Ho as <-. unfold newObject. reflexivity.
  - destruct Hv as [-> _]. discriminate.
Qed.

Lemma Selfdestruct_tracks a s : snap_ok s -> created a s = false -> tracks (ibs_Selfdestruct a) s any.
Proof.
  intros H Hc. unfold created in Hc. destruct (stateObjects s !! a) as [o|] eqn:Hl.
  { by apply (Selfdestruct_live a o). }
  eapply tracks_seq; [assumption|apply (getStateObject_created a); [assumption|unfold created; by rewrite Hl]|].
  intros r s' H' [[e|Hv|o Hl' Ha Hi] Hcc]; [by apply tracks_ret..|]. specialize (Hcc o eq_refl).
  pose proof (Selfdestruct_live a o s' H' Hl' Hcc) as Ht.
  unfold tracks, wp, ibs_Selfdestruct, getStateObject, mbind, M_bind in Ht. rewrite Hl' in Ht. exact Ht.
Qed.

Lemma Selfdestruct6780_tracks a s : snap_ok s -> created a s = false -> tracks (ibs_Selfdestruct6780 a) s any.
Proof.
  intros H Hc. eapply tracks_seq; [assumption|by apply (getStateObject_created a)|].
  intros r s' H' [[e|Hv|o Hl' Ha Hi] Hcc]; [by apply tracks_ret..|]. specialize (Hcc o eq_refl).
  destruct (newlyCreated o); [|by apply tracks_ret].
  eapply tracks_seq; [assumption|by apply (GetCode_live a o)|]. intros [c err] s2 H2 (o2 & Hl2 & Eo & _).
  destruct err; [by apply tracks_ret|]. destruct (ParseDelegation c); [by apply tracks_ret|].
  eapply then_ret; [assumption|]. apply (Selfdestruct_live a o2); [assumption..|].
  pose proof (oe_flags _ _ Eo) as Hf. injection Hf as _ _ _ Hf. congruence.
Qed.

(** A fresh object, changed before anyone sees it. *)
Lemma create_upd a previous g s :
  wfj s -> (_ ← createObject a previous; upd_object a g) s =
    Val (tt, put (create_entry a previous) a (g (fresh a previous)) s).
Proof.
  intros H. unfold mbind, M_bind. rewrite createObject_eq by assumption.
  rewrite (upd_live a g _ (fresh a previous)) by apply lookup_insert_eq.
  unfold put. cbn [stateObjects with_objects]. by rewrite insert_insert_eq.
Qed.

Lemma CreateAccount_tracks a c s : snap_ok s -> tracks (ibs_CreateAccount a c) s any.
Proof.
  intros H. eapply tracks_seq; [assumption|by apply (getStateObject_tracks a)|]. intros r s' H' Hr.
  assert (Hc : (exists e, r = (None, Some e)) \/ exists p, r = (p, None) /\ found s' a p)
    by (destruct Hr; [left|right|right]; eauto).
  destruct Hc as [(e & ->)|(p & -> & Hf)]; [by apply tracks_ret|]. cbv beta iota zeta.
  match goal with |- tracks (createObject _ _ ≫= fun _ => upd_object a ?g ≫= _) _ _ =>
    pose proof (create_upd a p g s' (so_wfj _ H')) as Eg end.
  unfold tracks, wp, mbind, M_bind in *. destruct (createObject a p s') as [[o s2]| |]; [|discriminate..].
  rewrite Eg. split; [|exact I].
  apply undoable_create; [assumption..| |]; by destruct c, p as [p|]; [destruct (selfdestructed p)|..].
Qed.

Lemma AddAddress_tracks a s : snap_ok s -> tracks (ibs_AddAddressToAccessList a) s any.
Proof.
  intros H. unfold tracks, wp, ibs_AddAddressToAccessList.
  pose proof (accessList.AddAddress_flag (access_list s) a) as Hf.
  pose proof (undoable_addAddress s a H) as Hu.
  destruct (accessList.ContainsAddress (access_list s) a) eqn:Hc; cbn [negb] in Hf.
  - unfold accessList.AddAddress, accessList.ContainsAddress in *.
    destruct (_ !! a); [|discriminate]. split; [|exact I].
    replace (with_access_list s (access_list s)) with s by (by destruct s). by apply undoable_refl.
  - destruct (accessList.AddAddress _ _) as [al f]. cbn in Hf, Hu. subst f. split; [by apply Hu|exact I].
Qed.

Lemma AddSlot_tracks a k s : snap_ok s -> tracks (ibs_AddSlotToAccessList a k) s any.
Proof.
  intros H. unfold tracks, wp, ibs_AddSlotToAccessList.
  destruct (accessList.ContainsAddress (access_list s) a) eqn:Hc.
  - pose proof (accessList.AddSlot_flags (access_list s) a k) as Hf.
    rewrite <- accessList.ContainsAddress_Contains, Hc in Hf. cbn [negb] in Hf.
    pose proof (undoable_addSlot s a k H) as Hu.
    assert (Hp : accessList.Contains (access_list s) a k = (true, (accessList.Contains (access_list s) a k).2)).
    { rewrite <- Hc, (accessList.ContainsAddress_Contains _ a k). by destruct (accessList.Contains _ _ _). }
    destruct ((accessList.Contains (access_list s) a k).2) eqn:Hk; cbn [negb] in Hf.
    + unfold accessList.AddSlot, accessList.Contains in *.
      destruct (_ !! a) as [[slots|]|]; [|discriminate..]. cbn in Hk. rewrite Hk. split; [|exact I].
      replace (with_access_list s (access_list s)) with s by (by destruct s). by apply undoable_refl.
    + destruct (accessList.AddSlot _ _ _) as [al f]. cbn in Hf, Hu. subst f. split; [by apply Hu|exact I].
  - rewrite accessList.AddSlot_split by assumption. cbv beta iota zeta. split; [|exact I].
    pose proof (undoable_addAddress s a H Hc) as Hu. set (s1 := with_access_list _ _) in Hu.
    eapply (undoable_trans s s1); [assumption|apply Hu|exact Hu|].
    apply (undoable_addSlot s1 a k); [apply Hu|]. unfold s1. cbn.
    rewrite accessList.AddAddress_Contains, bool_decide_true by reflexivity.
    f_equal. unfold accessList.Contains, accessList.ContainsAddress in *. by destruct (_ !! a).
Qed.

Lemma HasStorage_tracks a s : snap_ok s -> tracks (ibs_HasStorage a) s any.
Proof.
  intros H. lookup a. destruct (_ || _); [by apply tracks_ret|].
  destruct (bool_decide _); [by apply tracks_ret|]. destruct (_ || _); by apply tracks_ret.
Qed.

Lemma AddRefund_tracks g s : snap_ok s -> tracks (ibs_AddRefund g) s any.
Proof. intros H. split; [exact (undoable_refund s _ H (u64_range _))|exact I]. Qed.

Lemma SubRefund_tracks g s : snap_ok s -> 0 <= g -> tracks (ibs_SubRefund g) s any.
Proof.
  intros H Hg. unfold tracks, wp, ibs_SubRefund. pose proof (wj_refund _ (so_wfj _ H)) as Hr.
  change (refund (journal_append _ s)) with (refund s).
  destruct (Z.ltb_spec (refund s) g); (split; [|exact I]); [exact (undoable_refund s _ H Hr)|].
  apply (undoable_refund s _ H). unfold is_u64 in *. lia.
Qed.

Lemma jop_run_tracks o s : snap_ok s -> permitted o s = true -> tracks (jop_run o) s any.
Proof.
  intros H Hp. destruct o; cbn [jop_run permitted] in *; (apply (void_tracks _ s any); [assumption|]);
    try (by apply Selfdestruct_tracks; [assumption|apply negb_true_iff]);
    try (apply readObject_tracks; [assumption|]; intros o s' H' Hl Ha).
  all: try (by apply tracks_ret).
  - eapply tracks_seq; [assumption|by apply (so_Code_tracks a)|]. intros [c err] ? ? ?. by apply tracks_ret.
  - destruct (so_code o); [by apply tracks_ret|]. destruct (_ =? _); by apply tracks_ret.
  - eapply tracks_seq; [assumption|by apply GetDelegatedDesignation_tracks|]. intros [[d ok] err] s' H' _.
    destruct ok; [by apply GetCode_tracks|]. destruct err; [by apply tracks_ret|by apply GetCode_tracks].
  - eapply tracks_seq; [assumption|by apply GetDelegatedDesignation_tracks|]. intros [[d ok] err] s' H' _.
    destruct ok; [by apply GetCodeHash_tracks|]. destruct err; [by apply tracks_ret|by apply GetCodeHash_tracks].
  - by apply GetDelegatedDesignation_tracks.
  - eapply tracks_seq; [assumption|by apply (so_GetState_tracks k a)|]. intros [v b] ? ? ?. by apply tracks_ret.
  - eapply tracks_seq; [assumption|by apply (so_GetCommittedState_tracks k a)|]. intros v ? ? ?. by apply tracks_ret.
  - by apply HasStorage_tracks.
  - lookup a; by apply tracks_ret.
  - lookup a; by apply tracks_ret.
  - apply AddBalance_tracks; [assumption|by apply negb_true_iff].
  - by apply SubBalance_tracks.
  - by apply SetNonce_tracks.
  - by apply SetCode_tracks.
  - by apply SetState_tracks.
  - by apply SetTransientState_tracks.
  - apply Selfdestruct6780_tracks; [assumption|by apply negb_true_iff].
  - by apply CreateAccount_tracks.
  - split; [exact (undoable_log l s H)|exact I].
  - by apply AddRefund_tracks.
  - apply SubRefund_tracks; [assumption|lia].
  - by apply AddAddress_tracks.
  - by apply AddSlot_tracks.
Qed.

(** ** The search for the snapshot *)

Lemma sort_Search_loop_spec fuel f n i j :
  0 <= i <= j -> j <= n -> j - i <= Z.of_nat fuel ->
  (forall h, 0 <= h < i -> f h = false) -> (forall h, j <= h < n -> f h = true) ->
  (forall h h', 0 <= h <= h' -> h' < n -> f h = true -> f h' = true) ->
  i <= sort_Search_loop fuel f i j <= j /\
  (forall h, 0 <= h < sort_Search_loop fuel f i j -> f h = false) /\
  (forall h, sort_Search_loop fuel f i j <= h < n -> f h = true).
Proof.
  revert i j. induction fuel as [|fuel IH]; intros i j Hij Hjn Hf Hlo Hhi Hm; cbn [sort_Search_loop].
  { replace i with j in * by lia. auto with lia. }
  destruct (Z.ltb_spec i j) as [Hlt|]; [|replace i with j in * by lia; auto with lia].
  pose proof (Z.div_mod (i + j) 2). pose proof (Z.mod_pos_bound (i + j) 2). set (h := (i + j) / 2) in *.
  destruct (f h) eqn:Eh; cbn [negb].
  - destruct (IH i h) as (A & B & C); [lia|lia|lia|assumption| |assumption|split; [lia|auto]].
    intros h' Hh'. apply (Hm h h'); [lia|lia|assumption].
  - destruct (IH (h + 1) j) as (A & B & C); [lia|lia|lia| |assumption|assumption|split; [lia|auto]].
    intros h' Hh'. destruct (f h') eqn:E'; [|reflexivity].
    rewrite (Hm h' h) in Eh; [discriminate|lia|lia|assumption].
Qed.

(** The search returns the first index that satisfies a monotone predicate. *)
Lemma sort_Search_first n f k :
  0 <= k < n -> f k = true -> (forall h, 0 <= h < k -> f h = false) ->
  (forall h h', 0 <= h <= h' -> h' < n -> f h = true -> f h' = true) -> sort_Search n f = k.
Proof.
  intros Hk Hfk Hlo Hm. unfold sort_Search.
  destruct (sort_Search_loop_spec (Z.to_nat n) f n 0 n) as (A & B & C); try lia; [intros; lia..|assumption|].
  set (r := sort_Search_loop _ _ _ _) in *. destruct (Z.lt_trichotomy r k) as [Hr|[Hr|Hr]]; [|assumption|].
  - specialize (Hlo r). rewrite C in Hlo by lia. discriminate Hlo. lia.
  - rewrite B in Hfk by lia. discriminate.
Qed.

(** ** Snapshots *)

Definition snapshot_of (s : IntraBlockState) : IntraBlockState :=
  with_revisions s (validRevisions s ++ [mkRevision (nextRevisionId s) (zlen (entries s))])
    (nextRevisionId s + 1).

Lemma ids_snapshot s : ids (snapshot_of s) = ids s ++ [nextRevisionId s].
Proof. unfold ids. cbn. by rewrite fmap_app. Qed.

Lemma undoable_snapshot s : snap_ok s -> undoable s (snapshot_of s).
Proof.
  intros [Hwf Hdp Hip Hnp]. assert (Hw : wfj (snapshot_of s)) by (by destruct Hwf; split).
  assert (He : snapshot_of s ≡ s) by (split; try done; intros b; apply vobj_eq_refl).
  split; [|reflexivity|cbn; lia|by eexists|].
  - split; [assumption|assumption| |]; rewrite ids_snapshot.
    + intros i j x y Hij Hx Hy. pose proof (lookup_lt_Some _ _ _ Hy) as Hl. rewrite length_app in Hl. cbn in Hl.
      rewrite lookup_app_l in Hx by lia. destruct (decide (j < length (ids s))%nat).
      * rewrite lookup_app_l in Hy by assumption. by apply (Hip i j).
      * rewrite lookup_app_r in Hy by lia. apply list_lookup_singleton_Some in Hy as [_ <-].
        by apply (Hnp i).
    + intros i x Hx. cbn. apply lookup_app_Some in Hx as [Hx|[_ Hx]].
      * specialize (Hnp i x Hx). lia.
      * apply list_lookup_singleton_Some in Hx as [_ <-]. lia.
  - exists []. split; [reflexivity|]. split; [constructor|].
    exists (snapshot_of s). split; [reflexivity|]. split; [assumption|]. split; [assumption|apply frame_refl].
Qed.

(** The search finds the snapshot of [s] in any state reached from it. *)
Lemma search_snapshot s s2 :
  snap_ok s2 -> (exists V, validRevisions s2 = validRevisions (snapshot_of s) ++ V) ->
  sort_Search (zlen (validRevisions s2))
    (fun i => match rev_at s2 i with Some r => nextRevisionId s <=? id r | None => false end)
  = zlen (validRevisions s) /\
  validRevisions s2 !! length (validRevisions s) = Some (mkRevision (nextRevisionId s) (zlen (entries s))) /\
  zlen (validRevisions s) < zlen (validRevisions s2) /\
  take (length (validRevisions s)) (validRevisions s2) = validRevisions s.
Proof.
  intros Hok [V HV]. cbn in HV. rewrite <- app_assoc in HV.
  assert (Hat : validRevisions s2 !! length (validRevisions s) =
    Some (mkRevision (nextRevisionId s) (zlen (entries s)))) by (rewrite HV; by apply list_lookup_middle).
  assert (Hlen : zlen (validRevisions s) < zlen (validRevisions s2))
    by (rewrite HV; unfold zlen; rewrite !length_app; cbn; lia).
  assert (Hids : forall i r, rev_at s2 i = Some r -> ids s2 !! Z.to_nat i = Some (id r))
    by (intros i r Hr; unfold ids, rev_at in *; by rewrite list_lookup_fmap, Hr).
  assert (Hin : forall i, 0 <= i < zlen (validRevisions s2) -> is_Some (rev_at s2 i))
    by (intros i Hi; unfold rev_at, zlen in *; apply lookup_lt_is_Some_2; lia).
  assert (Hk : rev_at s2 (zlen (validRevisions s)) = Some (mkRevision (nextRevisionId s) (zlen (entries s))))
    by (unfold rev_at, zlen; by rewrite Nat2Z.id).
  split; [|split; [exact Hat|split; [exact Hlen|rewrite HV; apply take_app_length]]].
  apply sort_Search_first.
  - split; [apply zlen_nonneg|exact Hlen].
  - rewrite Hk. apply Z.leb_refl.
  - intros h Hh. destruct (rev_at s2 h) as [r|] eqn:Er; [|reflexivity]. apply Z.leb_gt.
    apply (so_ids _ Hok (Z.to_nat h) (length (validRevisions s))); [unfold zlen in Hh; lia|by apply Hids|].
    apply Hids in Hk. unfold zlen in Hk. by rewrite Nat2Z.id in Hk.
  - intros h h' Hh Hh' Hf. destruct (decide (h = h')) as [<-|Hne]; [assumption|].
    destruct (Hin h) as [r Hr]; [lia|]. destruct (Hin h') as [r' Hr']; [lia|]. rewrite Hr in Hf. rewrite Hr'.
    pose proof (so_ids _ Hok (Z.to_nat h) (Z.to_nat h') _ _ ltac:(lia) (Hids _ _ Hr) (Hids _ _ Hr')). lia.
Qed.

(** Reverting to a snapshot from any state reached from it. *)
Lemma revert_reached s s2 :
  snap_ok s -> undoable (snapshot_of s) s2 ->
  exists s3, ibs_RevertToSnapshot (nextRevisionId s) s2 = Val (tt, s3) /\ s3 ≡ s /\
    entries s3 = entries s /\ validRevisions s3 = validRevisions s /\ undoable s s3.
Proof.
  intros Hs [Hok Htx Hnx Hrev (E & HE & HG & t & Ht & Hwt & Hq & [Fe Fr Fn Ft])].
  destruct (search_snapshot s s2 Hok Hrev) as (Hi & Hat & Hlt & Htake).
  unfold ibs_RevertToSnapshot. rewrite Hi.
  destruct (Z.eqb_spec (zlen (validRevisions s)) (zlen (validRevisions s2))) as [|_]; [lia|].
  unfold rev_at, zlen at 1. rewrite Nat2Z.id, Hat. cbn [id journalIndex]. rewrite Z.eqb_refl. cbn [negb].
  unfold journal_revert, mbind, M_bind. unfold zlen at 1 2. rewrite Nat2Z.id.
  change (entries (snapshot_of s)) with (entries s) in HE.
  rewrite HE, length_app, Nat.add_sub, take_app_length, Ht. cbn [modify].
  rewrite Fe, HE, length_app, Nat.add_sub, drop_app_length. unfold modify. cbn [validRevisions with_journal].
  rewrite Fr. unfold zlen at 1. rewrite Nat2Z.id, Htake. eexists. split; [reflexivity|].
  assert (Heq : t ≡ s) by (rewrite Hq; split; try done; intros b; apply vobj_eq_refl).
  assert (Hw : forall a b c d, wfj (with_revisions (with_journal t a b) c d)) by (intros; by destruct Hwt; split).
  assert (Hq3 : forall a c d, with_revisions (with_journal t a (dirties t)) c d ≡ s).
  { intros. destruct Heq. by split. }
  split; [apply Hq3|]. split; [reflexivity|]. split; [reflexivity|].
  split; cbn [nextRevisionId validRevisions entries txIndex with_journal with_revisions].
  - destruct Hs as [Hwf Hdp Hip Hnp]. split; [apply Hw| |exact Hip|].
    + eapply dirties_equiv; [apply Hq3|assumption].
    + intros i x Hx. cbn in Hx |- *. specialize (Hnp i x Hx). cbn in Hnx. lia.
  - by rewrite Ft, Htx.
  - cbn in Hnx. lia.
  - exists []. by rewrite app_nil_r.
  - exists []. split; [reflexivity|]. split; [constructor|]. eexists. split; [reflexivity|].
    split; [apply Hw|]. split; [apply Hq3|apply frame_refl].
Qed.

(** A permitted program returns, and its effect can be undone. *)
Lemma run_prog_tracks p s : snap_ok s -> allowed p s = true -> tracks (run_prog p) s any.
Proof.
  revert s. induction p as [|o p IH|body IHb failed p IH]; intros s H Ha; cbn [run_prog allowed] in *.
  - by apply tracks_ret.
  - apply andb_prop in Ha as [Hp Ha]. pose proof (jop_run_tracks o s H Hp) as Ht.
    apply tracks_bind; [assumption|]. unfold tracks, wp in *. destruct (jop_run o s) as [[r s']| |]; [|done..].
    destruct Ht as [Hu _]. split; [assumption|]. intros H'. by apply IH.
  - unfold tracks, wp, mbind, M_bind in *. cbn [ibs_Snapshot] in *. fold (snapshot_of s) in *.
    change (mkIBS _ _ _ _ _ _ _ _ _ _ _ _ _ _ _) with (snapshot_of s) in *.
    apply andb_prop in Ha as [Hb Ha]. pose proof (undoable_snapshot s H) as Hu.
    specialize (IHb (snapshot_of s) (un_ok _ _ Hu) Hb). unfold wp in IHb.
    destruct (run_prog body (snapshot_of s)) as [[r s2]| |]; [|done..]. destruct IHb as [Hu2 _].
    assert (Hu3 : undoable s s2) by (eapply (undoable_trans s (snapshot_of s)); [assumption|apply Hu|assumption..]).
    destruct failed.
    + destruct (revert_reached s s2 H Hu2) as (s3 & E3 & _ & _ & _ & Hu4). rewrite E3 in *.
      specialize (IH s3 (un_ok _ _ Hu4) Ha). unfold wp in IH. destruct (run_prog p s3) as [[r3 s4]| |]; [|done..].
      destruct IH as [Hu5 _]. split; [|exact I]. eapply (undoable_trans s s3); [assumption|apply Hu4|assumption..].
    + cbn in Ha |- *. specialize (IH s2 (un_ok _ _ Hu3) Ha). unfold wp in IH.
      destruct (run_prog p s2) as [[r3 s4]| |]; [|done..].
      destruct IH as [Hu5 _]. split; [|exact I]. eapply (undoable_trans s s2); [assumption|apply Hu3|assumption..].
Qed.

(** ** Equivalent states read the same *)

(** [m] returns the same result in two equivalent states. *)
Definition same_read {A} (m : M IntraBlockState A) (s1 s2 : IntraBlockState) : Prop :=
  exists r t1 t2, m s1 = Val (r, t1) /\ m s2 = Val (r, t2).

Lemma so_Code_value o s : exists t, so_Code o s = Val (codev o, t).
Proof.
  unfold so_Code, codev. destruct (so_code o); [by eexists|]. destruct (_ =? _); [by eexists|].
  destruct (ReadAccountCode (address o)) as [c [e|]]; by eexists.
Qed.

Lemma so_GetCommittedState_value k o s : exists t, so_GetCommittedState k o s = Val (committed o k, t).
Proof.
  unfold so_GetCommittedState, committed. destruct (fakeStorage o); [by eexists|].
  destruct (originStorage o !! k); [by eexists|]. destruct (createdContract o); [by eexists|].
  destruct (ReadAccountStorage (address o) k) as [[v ok] [e|]]; by eexists.
Qed.

Lemma so_GetState_value k o s : exists b t, so_GetState k o s = Val ((stored o k, b), t).
Proof.
  unfold so_GetState, stored. destruct (fakeStorage o); [by eexists _, _|].
  destruct (dirtyStorage o !! k); [by eexists _, _|]. unfold mbind, M_bind.
  destruct (so_GetCommittedState_value k o s) as [t ->]. by eexists _, _.
Qed.

Lemma readObject_same {A} a (z : A) read s1 s2 :
  wfj s1 -> wfj s2 -> s1 ≡ s2 ->
  (forall o1 o2 t1 t2, o1 ≡ o2 -> exists r u1 u2, read o1 t1 = Val (r, u1) /\ read o2 t2 = Val (r, u2)) ->
  same_read (readObject a z read) s1 s2.
Proof.
  intros H1 H2 E Hr. unfold same_read, readObject, mbind, M_bind.
  destruct (getStateObject_sim s1 s2 a H1 H2 E)
    as (r1 & r2 & t1 & t2 & -> & -> & _ & _ & _ & _ & _ & [(e & -> & ->)|[(-> & ->)|(o1 & o2 & -> & -> & Eo & _)]]);
    [by eexists _, _, _..|].
  pose proof (oe_flags _ _ Eo) as Hf. injection Hf as _ Hd _ _. rewrite Hd.
  destruct (deleted o2); [by eexists _, _, _|by apply Hr].
Qed.

Lemma lookup_same {A} a (f : option stateObject -> A) (g : Error -> A) s1 s2 :
  wfj s1 -> wfj s2 -> s1 ≡ s2 -> (forall o1 o2, o1 ≡ o2 -> f (Some o1) = f (Some o2)) ->
  same_read ('(so, err) ← getStateObject a;
             match err with Some e => mret (g e) | None => mret (f so) end) s1 s2.
Proof.
  intros H1 H2 E Hf. unfold same_read, mbind, M_bind.
  destruct (getStateObject_sim s1 s2 a H1 H2 E)
    as (r1 & r2 & t1 & t2 & -> & -> & _ & _ & _ & _ & _ & [(e & -> & ->)|[(-> & ->)|(o1 & o2 & -> & -> & Eo & _)]]);
    [by eexists _, _, _..|].
  eexists _, _, _. split; [reflexivity|]. by rewrite (Hf o2 o1).
Qed.

(** Equivalent states, the relation the snapshot theorem restores, cannot be told
    apart: every account, code, storage, transient, refund and access-list query returns
    the same in both. *)
Theorem equiv_observed s1 s2 a k :
  wfj s1 -> wfj s2 -> s1 ≡ s2 ->
  same_read (ibs_GetBalance a) s1 s2 /\ same_read (ibs_GetNonce a) s1 s2 /\
  same_read (ibs_GetCodeHash a) s1 s2 /\ same_read (ibs_GetCode a) s1 s2 /\
  same_read (ibs_GetState a k) s1 s2 /\ same_read (ibs_GetCommittedState a k) s1 s2 /\
  same_read (ibs_Exist a) s1 s2 /\ same_read (ibs_Empty a) s1 s2 /\
  same_read (ibs_HasSelfdestructed a) s1 s2 /\ same_read (ibs_GetTransientState a k) s1 s2 /\
  refund s1 = refund s2 /\
  accessList.Contains (access_list s1) a k = accessList.Contains (access_list s2) a k.
Proof.
  intros H1 H2 E. repeat split.
  - apply readObject_same; try assumption. intros o1 o2 t1 t2 Eo. rewrite (oe_data _ _ Eo). by eexists _, _, _.
  - apply readObject_same; try assumption. intros o1 o2 t1 t2 Eo. rewrite (oe_data _ _ Eo). by eexists _, _, _.
  - apply readObject_same; try assumption. intros o1 o2 t1 t2 Eo. rewrite (oe_data _ _ Eo). by eexists _, _, _.
  - apply readObject_same; try assumption. intros o1 o2 t1 t2 Eo. unfold mbind, M_bind.
    destruct (so_Code_value o1 t1) as [u1 ->], (so_Code_value o2 t2) as [u2 ->]. rewrite (oe_code _ _ Eo).
    destruct (codev o2). by eexists _, _, _.
  - apply readObject_same; try assumption. intros o1 o2 t1 t2 Eo. unfold mbind, M_bind.
    destruct (so_GetState_value k o1 t1) as (b1 & u1 & ->), (so_GetState_value k o2 t2) as (b2 & u2 & ->).
    rewrite (oe_stored _ _ Eo). by eexists _, _, _.
  - apply readObject_same; try assumption. intros o1 o2 t1 t2 Eo. unfold mbind, M_bind.
    destruct (so_GetCommittedState_value k o1 t1) as [u1 ->], (so_GetCommittedState_value k o2 t2) as [u2 ->].
    rewrite (oe_committed _ _ Eo). by eexists _, _, _.
  - refine (lookup_same a (fun so => (match so with Some o => negb (deleted o) | None => false end, None))
      (fun e => (false, Some e)) s1 s2 H1 H2 E _).
    intros o1 o2 Eo. pose proof (oe_flags _ _ Eo) as Hf. injection Hf as _ Hd _ _. by rewrite Hd.
  - refine (lookup_same a (fun so => (match so with Some o => deleted o || so_empty o | None => true end, None))
      (fun e => (false, Some e)) s1 s2 H1 H2 E _).
    intros o1 o2 Eo. pose proof (oe_flags _ _ Eo) as Hf. injection Hf as _ Hd _ _.
    unfold so_empty. by rewrite Hd, (oe_data _ _ Eo).
  - apply readObject_same; try assumption. intros o1 o2 t1 t2 Eo.
    pose proof (oe_flags _ _ Eo) as Hf. injection Hf as Hs _ _ Hc. rewrite Hs, Hc. by eexists _, _, _.
  - unfold same_read, ibs_GetTransientState, gets. rewrite (se_transient _ _ E). by eexists _, _, _.
  - apply (se_refund _ _ E).
  - apply (se_access _ _ E).
Qed.

(** ** The destruction of a new contract *)

(** The object without its mark as a contract created in this transaction. *)
Definition forget (o : stateObject) : stateObject :=
  so_with_flags o (selfdestructed o) (newlyCreated o) false.

(** The slot has not been read or written since the contract was created. *)
Definition untouched (o : stateObject) (k : Z) : Prop :=
  fakeStorage o = None /\ dirtyStorage o !! k = None /\ originStorage o !! k = None.

Lemma GetState_live a k o s :
  stateObjects s !! a = Some o -> deleted o = false ->
  exists t, ibs_GetState a k s = Val ((stored o k, None), t).
Proof.
  intros Hl Hd. unfold ibs_GetState, readObject, getStateObject, mbind, M_bind. rewrite Hl, Hd.
  destruct (so_GetState_value k o s) as (b & t & ->). by eexists.
Qed.

(** The entry of the destruction puts back the balance and the flag, and nothing else. *)
Lemma revert_selfdestruct a o s :
  stateObjects s !! a = Some o -> Initialised (data o) = true ->
  let e := selfdestructChange a (selfdestructed o) (Balance (data o)) in
  let gone := so_with_data (so_with_flags o true (newlyCreated o) false) (acc_with_Balance (data o) 0) in
  exists t, revert_entries [e] (put e a gone s) = Val (tt, t) /\
    stateObjects t = <[a := forget o]> (stateObjects s) /\
    entries t = e :: entries s /\ validRevisions t = validRevisions s.
Proof.
  intros Hl Hi e gone.
  assert (Hp : stateObjects (put e a gone s) !! a = Some gone) by (cbn; apply lookup_insert_eq).
  assert (Hr : forall b v t, stateObjects t !! a = Some gone -> revert_entry (selfdestructChange a b v) t
    = Val (tt, with_objects t (<[a := setBalance v (so_with_flags gone b (newlyCreated gone) false)]> (stateObjects t)))).
  { intros b v t Ht. cbn [revert_entry]. unfold getStateObject, mbind, M_bind. rewrite Ht. exact (upd_live a _ t gone Ht). }
  cbn [revert_entries]. unfold mbind, M_bind. unfold e at 1. rewrite (Hr _ _ _ Hp).
  eexists. split; [reflexivity|]. cbn. repeat split.
  rewrite insert_insert_eq. f_equal. subst gone e.
  destruct o as [? [] ? ? ? ? ? ? ? ? ? ? ?]. cbn in Hi. by subst.
Qed.

(** C8 Taking a snapshot, running any permitted program of state operations and nested
    calls, and reverting to the snapshot returns: the state is equivalent to the one the
    snapshot was taken in, the journal and the list of snapshots are the same, and the
    invariant still holds. *)
Theorem RevertToSnapshot_restores p s :
  snap_ok s -> allowed (Call p true Done) s = true ->
  exists s', (id ← ibs_Snapshot; _ ← run_prog p; ibs_RevertToSnapshot id) s = Val (tt, s') /\
    s' ≡ s /\ entries s' = entries s /\ validRevisions s' = validRevisions s /\ snap_ok s'.
Proof.
  intros H Ha. cbn [allowed] in Ha. unfold mbind, M_bind in *. unfold ibs_Snapshot in *.
  fold (snapshot_of s) in *. apply andb_prop in Ha as [Hb _].
  pose proof (undoable_snapshot s H) as Hu.
  pose proof (run_prog_tracks p (snapshot_of s) (un_ok _ _ Hu) Hb) as Ht. unfold tracks, wp in Ht.
  destruct (run_prog p (snapshot_of s)) as [[r s2]| |]; [|done..]. destruct Ht as [Hu2 _].
  destruct (revert_reached s s2 H Hu2) as (s3 & E & Hq & He & Hr & Hu3).
  exists s3. repeat (split; [assumption|]). apply Hu3.
Qed.
(** C9 The destruction of a contract created in the same transaction is not undone: in
    every state the snapshot invariant holds in, taking a snapshot, destroying such a
    contract and reverting returns a state with the same journal and snapshots in which
    the contract has lost its mark and everything else about the accounts is as before.
    The state is therefore not equivalent to the one the snapshot was taken in; a slot
    that was not touched, which read 0 before, now reads what the database holds for the
    account the contract replaced. *)
Theorem selfdestruct_revert_incomplete a o s :
  snap_ok s -> stateObjects s !! a = Some o -> deleted o = false -> createdContract o = true ->
  exists s', (id ← ibs_Snapshot; _ ← ibs_Selfdestruct a; ibs_RevertToSnapshot id) s = Val (tt, s') /\
    stateObjects s' = <[a := forget o]> (stateObjects s) /\
    entries s' = entries s /\ validRevisions s' = validRevisions s /\ ~ (s' ≡ s) /\
    forall k, untouched o k ->
      (exists t, ibs_GetState a k s = Val ((0, None), t)) /\
      (exists t, ibs_GetState a k s' = Val ((match ReadAccountStorage a k with
                                           | (v, true, None) => v
                                           | _ => 0
                                           end, None), t)).
Proof.
  intros H Hl Hd Hc. destruct (wj_obj _ (so_wfj _ H) _ _ Hl) as [Ha Hini].
  pose proof (un_ok _ _ (undoable_snapshot s H)) as Hs.
  destruct (search_snapshot s (snapshot_of s) Hs) as (Hi & Hat & Hlt & Htake); [by exists []; rewrite app_nil_r|].
  destruct (revert_selfdestruct a o (snapshot_of s) Hl Hini) as (t & Ht & To & Te & Tr). cbn zeta in Ht.
  set (e := selfdestructChange a _ _) in *. set (s2 := put e a _ (snapshot_of s)) in Ht.
  assert (Hrun : ibs_Selfdestruct a (snapshot_of s) = Val ((true, None), s2)).
  { unfold ibs_Selfdestruct, getStateObject, mbind, M_bind.
    change (stateObjects (snapshot_of s)) with (stateObjects s). rewrite Hl, Hd.
    unfold append_, modify. by rewrite (append_upd e a _ o (snapshot_of s) Hl). }
  assert (Hrev : exists s', ibs_RevertToSnapshot (nextRevisionId s) s2 = Val (tt, s') /\
    stateObjects s' = stateObjects t /\ entries s' = entries s /\ validRevisions s' = validRevisions s).
  { unfold ibs_RevertToSnapshot. change (rev_at s2) with (rev_at (snapshot_of s)).
    change (validRevisions s2) with (validRevisions (snapshot_of s)). rewrite Hi.
    destruct (Z.eqb_spec (zlen (validRevisions s)) (zlen (validRevisions (snapshot_of s)))) as [|_]; [lia|].
    unfold rev_at, zlen at 1. rewrite Nat2Z.id, Hat. cbn [id journalIndex]. rewrite Z.eqb_refl. cbn [negb].
    unfold journal_revert, mbind, M_bind. unfold zlen at 1 2. rewrite Nat2Z.id.
    change (entries s2) with ([e] ++ entries s). rewrite length_app, Nat.add_sub, take_app_length, Ht.
    unfold modify. rewrite Te. change (entries (snapshot_of s)) with (entries s).
    change (e :: entries s) with ([e] ++ entries s). rewrite length_app, Nat.add_sub, drop_app_length.
    cbn [validRevisions with_journal]. rewrite Tr. unfold zlen at 1. rewrite Nat2Z.id, Htake.
    eexists. split; [reflexivity|]. done. }
  destruct Hrev as (s' & Er & Eo & Ee & Ev). exists s'.
  assert (Hl' : stateObjects s' !! a = Some (forget o)) by (rewrite Eo, To; apply lookup_insert_eq).
  split; [|split; [by rewrite Eo, To|split; [exact Ee|split; [exact Ev|split]]]].
  - unfold mbind, M_bind. cbn [ibs_Snapshot]. fold (snapshot_of s). by rewrite Hrun.
  - intros E. pose proof (se_objects _ _ E a) as Hv. unfold vobj in Hv. rewrite Hl, Hl' in Hv.
    cbn in Hv. pose proof (oe_flags _ _ Hv) as Hf. cbn in Hf. congruence.
  - intros k (Hf & Hdk & Hok). split.
    + destruct (GetState_live a k o s Hl Hd) as [u ->]. exists u. unfold stored, committed.
      by rewrite Hf, Hdk, Hok, Hc.
    + destruct (GetState_live a k (forget o) s' Hl' Hd) as [u ->]. exists u.
      unfold stored, committed. cbn. rewrite Hf, Hdk, Hok, Ha.
      by destruct (ReadAccountStorage a k) as [[v []] []].
Qed.
End Programs.

(** ** Concrete states *)

(** A database with one contract account, at address 100, with slot 1 set to 7. *)
#[export] Instance demo_reader : StateReader := {|
  ReadAccountData a := (if a =? 100 then Some (mkAccount true 1 50 5 77 1 0) else None, None);
  ReadAccountStorage a k := (7, (a =? 100) && (k =? 1), None);
  reader_HasStorage a := (a =? 100, None);
  ReadAccountCode a := (if a =? 100 then Some [x60; x00] else None, None);
  ReadAccountCodeSize a := (if a =? 100 then 2 else 0, None)
|}.

Lemma New_ok {R : StateReader} : snap_ok New.
Proof.
  split; [split|..]; cbn; try (intros *); rewrite ?lookup_empty, ?lookup_nil; try done.
Qed.

Definition demo_prog : prog :=
  Then (JSetState 100 1 9) (Then (JAddBalance 200 5) (Then (JAddRefund 3)
  (Call (Then (JCreateAccount 300 true) (Then (JSetCode 300 [x01]) (Then (JSetNonce 300 1) Done))) true
  (Call (Then (JSubBalance 100 5) (Then (JAddSlot 100 1) (Then (JSelfdestruct 100) Done))) false
  (Then (JAddLog (mkLog 100 [] [] 1)) (Then (JSetTransientState 100 1 2) Done)))))).

Lemma RevertToSnapshot_restores_witness :
  snap_ok New /\ allowed (Call demo_prog true Done) New = true /\
  exists s', (id ← ibs_Snapshot; _ ← run_prog demo_prog; ibs_RevertToSnapshot id) New = Val (tt, s') /\
    s' ≡ New /\ entries s' = entries New /\ validRevisions s' = validRevisions New /\ snap_ok s'.
Proof.
  assert (Ha : allowed (Call demo_prog true Done) New = true) by (vm_compute; reflexivity).
  split; [exact New_ok|]. split; [exact Ha|].
  exact (RevertToSnapshot_restores demo_prog New New_ok Ha).
Defined.

(** The program above really changes the state. *)
Example demo_prog_changes :
  exists s, run_prog demo_prog New = Val (tt, s) /\ length (entries s) = 10%nat /\ refund s = 3.
Proof. eexists. vm_compute. done. Qed.

Lemma equiv_observed_witness :
  exists s, ibs_GetBalance 100 New = Val ((50, None), s) /\ same_read (ibs_GetState 100 1) s New.
Proof.
  destruct (getStateObject_spec New 100 (so_wfj _ New_ok)) as (r & s & E & Hw & Hq & _).
  exists s. vm_compute in E. injection E as <- <-. split; [vm_compute; reflexivity|].
  apply (equiv_observed _ New 100 1 Hw (so_wfj _ New_ok) Hq).
Defined.

(** A contract created over the account 100 of the database: reading slot 1 gives 0 before
    and 7 after its destruction is reverted. *)
Lemma selfdestruct_revert_incomplete_witness :
  exists s o, jop_run (JCreateAccount 100 true) New = Val (tt, s) /\
    snap_ok s /\ stateObjects s !! 100 = Some o /\ deleted o = false /\ createdContract o = true /\
    exists s', (id ← ibs_Snapshot; _ ← ibs_Selfdestruct 100; ibs_RevertToSnapshot id) s = Val (tt, s') /\
      ~ (s' ≡ s) /\ (exists t, ibs_GetState 100 1 s = Val ((0, None), t)) /\
      (exists t, ibs_GetState 100 1 s' = Val ((7, None), t)).
Proof.
  destruct (wp_val _ _ _ (jop_run_tracks (JCreateAccount 100 true) New New_ok eq_refl)) as ([] & s & E & Hu & _).
  exists s. pose proof (un_ok _ _ Hu) as Hs. clear Hu. vm_compute in E. injection E as Es.
  destruct (stateObjects s !! 100) as [o|] eqn:Hl; [|subst s; vm_compute in Hl; discriminate].
  exists o. split; [vm_compute; by subst s|]. split; [exact Hs|]. split; [reflexivity|].
  assert (Ho : deleted o = false /\ createdContract o = true /\ untouched o 1).
  { subst s. vm_compute in Hl. injection Hl as <-. vm_compute. done. }
  destruct Ho as (Hd & Hc & Hk). split; [exact Hd|]. split; [exact Hc|].
  destruct (selfdestruct_revert_incomplete 100 o s Hs Hl Hd Hc) as (s' & R & _ & _ & _ & Hn & Hg).
  exists s'. split; [exact R|]. split; [exact Hn|]. exact (Hg 1 Hk).
Defined.
