(* ===== verification/TxState.v ===== *)
(** * The intra-block state around a transaction

    The operations of [core/state/intra_block_state.go] that frame a transaction:
    [Prepare] before it, [FinalizeTx], [SoftFinalise], [MakeWriteSet] and [CommitBlock]
    after it, with [updateAccount] and [updateStotage], the log queries and the unjournalled
    setters. The [StateWriter] below is an interface: a state of its own and one operation
    per method.

    Go visits the entries of a map in an unspecified order: [order k m] is the order of the
    [k]-th loop. *)

From S2P Require Import Prelude Uint256 Params Errors AccessList StateDB Machine IntraBlockState.

(** The calls of [StateWriter]. *)
Inductive write : Type :=
| UpdateAccountData (addr : Z) (original account : Account)
| UpdateAccountCode (addr incarnation codeHash : Z) (code : bytes)
| DeleteAccount (addr : Z) (original : Account)
| WriteAccountStorage (addr incarnation key original value : Z)
| CreateContract (addr : Z).

Class StateWriter : Type := {
  writer : Type;
  write_ : write -> M writer (option Error)
}.

(** [state.SystemAddress]. *)
Definition SystemAddress : Z := 0xfffffffffffffffffffffffffffffffffffffffe.

Definition so_with_deleted (o : stateObject) b := mkStateObject (address o) (data o) (original o)
  (so_code o) (originStorage o) (blockOriginStorage o) (dirtyStorage o) (fakeStorage o) (dirtyCode o)
  (selfdestructed o) b (newlyCreated o) (createdContract o).

(** [types.AccessTuple]. *)
Record AccessTuple : Type := mkAccessTuple { at_Address : Z; StorageKeys : list Z }.

(** [AccessList.StorageKeys]: the number of keys. *)
Definition access_StorageKeys (al : list AccessTuple) : Z :=
  fold_left (fun sum t => sum + zlen (StorageKeys t)) al 0.

Section TxState.
Context {U : Uint256} {K : Keccak} {R : StateReader}.

(** ** Before a transaction *)

Definition add_slots (addr : Z) (keys : list Z) (al : accessList.t) : accessList.t :=
  fold_left (fun al key => (accessList.AddSlot al addr key).1) keys al.
Definition add_addresses (addrs : list Z) (al : accessList.t) : accessList.t :=
  fold_left (fun al addr => (accessList.AddAddress al addr).1) addrs al.
Definition add_tuples (l : list AccessTuple) (al : accessList.t) : accessList.t :=
  fold_left (fun al el => add_slots (at_Address el) (StorageKeys el)
                            (accessList.AddAddress al (at_Address el)).1) l al.

(** The access list of EIP-2929 and EIP-2930, rebuilt. *)
Definition berlin_list (rules : Rules) (sender coinbase : Z) (dst : option Z) (precompiles : list Z)
    (list_ : list AccessTuple) : accessList.t :=
  let al := accessList.newAccessList in
  let al := (accessList.AddAddress al sender).1 in
  let al := match dst with Some d => (accessList.AddAddress al d).1 | None => al end in
  let al := add_addresses precompiles al in
  let al := add_tuples list_ al in
  if IsShanghai rules then (accessList.AddAddress al coinbase).1 else al.

Fixpoint add_authorities (authorities : list Z) : M IntraBlockState unit :=
  match authorities with
  | [] => mret tt
  | addr :: authorities => _ ← ibs_AddAddressToAccessList addr; add_authorities authorities
  end.

Definition Prepare (rules : Rules) (sender coinbase : Z) (dst : option Z) (precompiles : list Z)
    (list_ : list AccessTuple) (authorities : list Z) : M IntraBlockState (option Error) :=
  _ ← (if IsBerlin rules
       then modify (fun s => with_access_list s (berlin_list rules sender coinbase dst precompiles list_))
       else mret tt);
  err ← (if IsPrague rules then
           _ ← add_authorities authorities;
           match dst with
           | Some d =>
               '(dd, ok, err) ← ibs_GetDelegatedDesignation d;
               match err with
               | Some e => mret (Some e)
               | None => if ok : bool then _ ← ibs_AddAddressToAccessList dd; mret None else mret None
               end
           | None => mret None
           end
         else mret None);
  match err with
  | Some e => mret (Some e)
  | None => _ ← modify (fun s => with_transient s transientStorage.newTransientStorage); mret None
  end.

(** ** Unjournalled setters and queries *)

Definition ibs_SetBalance (addr amount : Z) : M IntraBlockState (option Error) :=
  '(so, err) ← GetOrNewStateObject addr;
  match err, so with
  | None, Some o => _ ← so_SetBalance amount o; mret None
  | _, _ => mret err
  end.

Definition ibs_SetStorage (addr : Z) (storage : Storage) : M IntraBlockState (option Error) :=
  '(so, err) ← GetOrNewStateObject addr;
  match err, so with
  | None, Some o =>
      _ ← upd_object (address o) (fun o => so_with_fake o (Some (storage ∪ default ∅ (fakeStorage o)))); mret None
  | _, _ => mret err
  end.

Definition SetIncarnation (addr incarnation : Z) : M IntraBlockState (option Error) :=
  '(so, err) ← GetOrNewStateObject addr;
  match err, so with
  | None, Some o =>
      _ ← upd_object (address o) (fun o => so_with_data o (acc_with_Incarnation (data o) incarnation)); mret None
  | _, _ => mret err
  end.

Definition GetIncarnation (addr : Z) : M IntraBlockState (Z * option Error) :=
  '(so, err) ← getStateObject addr;
  match err with
  | Some e => mret (0, Some e)
  | None => mret (match so with Some o => Incarnation (data o) | None => 0 end, None)
  end.

Definition AddressInAccessList (addr : Z) : M IntraBlockState bool :=
  gets (fun s => accessList.ContainsAddress (access_list s) addr).
Definition SlotInAccessList (addr slot : Z) : M IntraBlockState (bool * bool) :=
  gets (fun s => accessList.Contains (access_list s) addr slot).

Definition GetRawLogs (txIndex : Z) : M IntraBlockState (list Log) := fun s =>
  if zlen (logs s) <=? txIndex then Val ([], s)
  else match go_index (logs s) txIndex with
       | Val l => Val (l, s)
       | Panic e => Panic e
       | OutOfFuel => OutOfFuel
       end.

Definition Logs : M IntraBlockState (list Log) := gets (fun s => fold_left (fun acc l => acc ++ l) (logs s) []).

(** [Reset]; the inner log slices are emptied, not dropped; the access list and the
    transient storage stay. *)
Definition Reset (s : IntraBlockState) : IntraBlockState :=
  mkIBS ∅ ∅ ∅ 0 0 (map (fun _ => []) (logs s)) 0 (access_list s) (transient_storage s) [] ∅ [] 0 ∅ [].

(** The pending increases, by address. *)
Definition BalanceIncreaseSet (s : IntraBlockState) : gmap Z Z :=
  omap (fun r => match bis s !! r with
                 | Some bi => if negb (transferred bi) then Some (increase bi) else None
                 | None => None
                 end) (balanceInc s).

(** ** After a transaction *)

Context {W : StateWriter}.
Context (order : nat -> list Z -> list Z).

Definition onState {A} (m : M IntraBlockState A) : M (IntraBlockState * writer) A :=
  zoom fst (fun s w => (s, w.2)) m.
Definition onWriter {A} (m : M writer A) : M (IntraBlockState * writer) A :=
  zoom snd (fun x w => (w.1, x)) m.

(** [order] applied to the keys of a map. *)
Definition range {A} (k : nat) (m : gmap Z A) : list Z := order k (map fst (map_to_list m)).

Fixpoint updateStotage_loop (addr : Z) (keys : list Z) : M (IntraBlockState * writer) (option Error) :=
  match keys with
  | [] => mret None
  | key :: keys =>
      so ← onState (gets (fun s => stateObjects s !! addr));
      match so with
      | None => gopanic "invalid memory address or nil pointer dereference"
      | Some o =>
          let value := default 0 (dirtyStorage o !! key) in
          err ← onWriter (write_ (WriteAccountStorage (address o) (Incarnation (data o)) key
                            (default 0 (blockOriginStorage o !! key)) value));
          match err with
          | Some e => mret (Some e)
          | None =>
              _ ← onState (upd_object addr (fun o =>
                    so_with_origin o (<[key := value]> (originStorage o)) (blockOriginStorage o)));
              updateStotage_loop addr keys
          end
      end
  end.

Definition updateStotage (addr : Z) (o : stateObject) : M (IntraBlockState * writer) (option Error) :=
  updateStotage_loop addr (range 0 (dirtyStorage o)).

(** [if err := ...; err != nil { return err }]. *)
Definition try_ {S} (m k : M S (option Error)) : M S (option Error) :=
  err ← m; match err with Some e => mret (Some e) | None => k end.

(** [addr] is the key of [stateObject] in the map of live objects. *)
Definition updateAccount (EIP161Enabled isAura : bool) (addr : Z) (o : stateObject) (isDirty : bool)
    : M (IntraBlockState * writer) (option Error) :=
  let emptyRemoval := EIP161Enabled && so_empty o && (negb isAura || negb (addr =? SystemAddress)) in
  try_ (if selfdestructed o || (isDirty && emptyRemoval) then
          try_ (onWriter (write_ (DeleteAccount addr (original o))))
            (_ ← onState (upd_object addr (fun o => so_with_deleted o true)); mret None)
        else mret None)
    (if isDirty && (createdContract o || negb (selfdestructed o)) && negb emptyRemoval then
       _ ← onState (upd_object addr (fun o => so_with_deleted o false));
       try_ (match so_code o with
             | Some code =>
                 if dirtyCode o
                 then onWriter (write_ (UpdateAccountCode addr (Incarnation (data o)) (acc_CodeHash (data o)) code))
                 else mret None
             | None => mret None
             end)
         (try_ (if createdContract o then onWriter (write_ (CreateContract addr)) else mret None)
            (try_ (updateStotage addr o)
               (onWriter (write_ (UpdateAccountData addr (original o) (data o))))))
     else mret None).

(** [for addr, bi := range sdb.balanceInc { if !bi.transferred { sdb.getStateObject(addr) } }]. *)
Fixpoint load_increases (addrs : list Z) : M IntraBlockState unit :=
  match addrs with
  | [] => mret tt
  | addr :: addrs =>
      pending ← gets (pendingIncrease addr);
      _ ← (match pending with Some _ => _ ← getStateObject addr; mret tt | None => mret tt end);
      load_increases addrs
  end.

Definition mark_dirty (addr : Z) : M IntraBlockState unit :=
  modify (fun s => with_objectsDirty s ({[addr]} ∪ stateObjectsDirty s)).

Fixpoint finalize_loop (rules : Rules) (addrs : list Z) : M (IntraBlockState * writer) (option Error) :=
  match addrs with
  | [] => mret None
  | addr :: addrs =>
      so ← onState (gets (fun s => stateObjects s !! addr));
      match so with
      | None => finalize_loop rules addrs
      | Some o =>
          try_ (updateAccount (IsSpuriousDragon rules) (IsAura rules) addr o true)
            (_ ← onState (upd_object addr (fun o => so_with_flags o (selfdestructed o) false (createdContract o)));
             _ ← onState (mark_dirty addr);
             finalize_loop rules addrs)
      end
  end.

Definition FinalizeTx (rules : Rules) : M (IntraBlockState * writer) (option Error) :=
  incs ← onState (gets (fun s => range 1 (balanceInc s)));
  _ ← onState (load_increases incs);
  addrs ← onState (gets (fun s => range 2 (dirties s)));
  try_ (finalize_loop rules addrs)
    (_ ← onState (modify clearJournalAndRefund); mret None).

Definition SoftFinalise (s : IntraBlockState) : IntraBlockState :=
  clearJournalAndRefund
    (with_objectsDirty s (dom (filter (fun kv => is_Some (stateObjects s !! kv.1)) (dirties s)) ∪ stateObjectsDirty s)).

Fixpoint write_set_loop (rules : Rules) (addrs : list Z) : M (IntraBlockState * writer) (option Error) :=
  match addrs with
  | [] => mret None
  | addr :: addrs =>
      s ← onState (gets (fun s => s));
      match stateObjects s !! addr with
      | None => write_set_loop rules addrs
      | Some o =>
          try_ (updateAccount (IsSpuriousDragon rules) (IsAura rules) addr o (bool_decide (addr ∈ stateObjectsDirty s)))
            (write_set_loop rules addrs)
      end
  end.

Definition MakeWriteSet (rules : Rules) : M (IntraBlockState * writer) (option Error) :=
  _ ← onState (modify (fun s => with_objectsDirty s (dom (dirties s) ∪ stateObjectsDirty s)));
  addrs ← onState (gets (fun s => range 3 (stateObjects s)));
  try_ (write_set_loop rules addrs)
    (_ ← onState (modify clearJournalAndRefund); mret None).

Definition CommitBlock (rules : Rules) : M (IntraBlockState * writer) (option Error) :=
  incs ← onState (gets (fun s => range 1 (balanceInc s)));
  _ ← onState (load_increases incs);
  MakeWriteSet rules.
End TxState.
