(* ===== verification/Rlp.v ===== *)
(** * RLP: the buffer encoders and the parsers

    [execution/rlp/encode_rlp2.go] and [execution/rlp/parse.go]. An encoder writes to
    the front of the slice it is given and returns the number of bytes it used: a
    computation on that slice, which panics where Go's bounds checks do. A parser reads
    a payload at a position; [int] is 64 bits wide, so the length read from the wire may
    wrap around. *)

From S2P Require Import Prelude Uint256 Errors.

(** ** Slices *)

(** [common.BitLenToByteLen] and [bits.Len64]. *)
Definition BitLenToByteLen (bitLen : Z) : Z := (bitLen + 7) / 8.
Definition Len64 (x : Z) : Z := if x =? 0 then 0 else Z.log2 x + 1.

(** [to[i] = b]. *)
Definition put (i : Z) (b : byte) : M bytes unit := fun to =>
  if (0 <=? i) && (i <? zlen to) then Val (tt, <[Z.to_nat i := b]> to) else Panic "index out of range".

(** [to[i] = b0; to[i+1] = b1; ...]. *)
Fixpoint puts (i : Z) (bs : bytes) : M bytes unit :=
  match bs with
  | [] => mret tt
  | b :: bs => _ ← put i b; puts (i + 1) bs
  end.

(** [_ = to[i]]. *)
Definition check_index (i : Z) : M bytes unit := fun to =>
  if (0 <=? i) && (i <? zlen to) then Val (tt, to) else Panic "index out of range".

(** [to[lo:hi]], read. *)
Definition read_slice (lo hi : Z) : M bytes bytes := fun to =>
  match go_slice to lo hi with Val b => Val (b, to) | Panic e => Panic e | OutOfFuel => OutOfFuel end.

(** [copy(to[at:hi], src)]: as many bytes as fit. *)
Definition copy_to (at_ hi : Z) (src : bytes) : M bytes unit := fun to =>
  if (0 <=? at_) && (at_ <=? hi) && (hi <=? zlen to)
  then Val (tt, splice to at_ (take (Z.to_nat (hi - at_)) src))
  else Panic "slice bounds out of range".

Definition buf_len : M bytes Z := gets zlen.

(** An encoder called on [to[pos:]]. *)
Definition sub_ {A} (pos : Z) (enc : M bytes A) : M bytes A := fun to =>
  if (0 <=? pos) && (pos <=? zlen to) then
    match enc (drop (Z.to_nat pos) to) with
    | Val (a, tail) => Val (a, take (Z.to_nat pos) to ++ tail)
    | Panic e => Panic e
    | OutOfFuel => OutOfFuel
    end
  else Panic "slice bounds out of range".

(** [binary.BigEndian.PutUint64(to[at:], v)]. *)
Definition PutUint64 (at_ v : Z) : M bytes unit :=
  sub_ at_ (_ ← check_index 7; puts 0 (Z_to_be 8 v)).

(** ** Encoders *)

Definition ListPrefixLen (dataLen : Z) : Z :=
  if 56 <=? dataLen then 1 + BitLenToByteLen (Len64 (u64 dataLen)) else 1.

Definition EncodeListPrefix (dataLen : Z) : M bytes Z :=
  if 56 <=? dataLen then
    _ ← check_index 9;
    let beLen := BitLenToByteLen (Len64 (u64 dataLen)) in
    _ ← PutUint64 1 (u64 dataLen);
    _ ← put (8 - beLen) (Zbyte (247 + beLen));
    prefix ← read_slice (8 - beLen) 9;
    n ← buf_len;
    _ ← copy_to 0 n prefix;
    mret (1 + beLen)
  else
    _ ← put 0 (Zbyte (192 + dataLen));
    mret 1.

Definition U32Len (i : Z) : Z := if i <? 128 then 1 else 1 + BitLenToByteLen (Len64 i).
Definition U64Len (i : Z) : Z := if i <? 128 then 1 else 1 + BitLenToByteLen (Len64 i).

(** [i >> n] as a byte. *)
Definition shr (i n : Z) : byte := Zbyte (Z.shiftr i n).

(** The bytes the switch of [EncodeU32] writes. *)
Definition be_switch32 (i : Z) : bytes :=
  if i <? Z.shiftl 1 8 then [shr i 0]
  else if i <? Z.shiftl 1 16 then [shr i 8; shr i 0]
  else if i <? Z.shiftl 1 24 then [shr i 16; shr i 8; shr i 0]
  else [shr i 24; shr i 16; shr i 8; shr i 0].

(** The bytes the switch of [EncodeU64] writes. *)
Definition be_switch64 (i : Z) : bytes :=
  if i <? Z.shiftl 1 8 then [shr i 0]
  else if i <? Z.shiftl 1 16 then [shr i 8; shr i 0]
  else if i <? Z.shiftl 1 24 then [shr i 16; shr i 8; shr i 0]
  else if i <? Z.shiftl 1 32 then [shr i 24; shr i 16; shr i 8; shr i 0]
  else if i <? Z.shiftl 1 40 then [shr i 32; shr i 24; shr i 16; shr i 8; shr i 0]
  else if i <? Z.shiftl 1 48 then [shr i 40; shr i 32; shr i 24; shr i 16; shr i 8; shr i 0]
  else if i <? Z.shiftl 1 56 then [shr i 48; shr i 40; shr i 32; shr i 24; shr i 16; shr i 8; shr i 0]
  else [shr i 56; shr i 48; shr i 40; shr i 32; shr i 24; shr i 16; shr i 8; shr i 0].

(** The common body: [b := to[1:]], the writes to [b], then the first byte. *)
Definition encode_uint (switch : Z -> bytes) (i : Z) : M bytes Z :=
  if i =? 0 then _ ← put 0 (Zbyte 128); mret 1
  else if i <? 128 then _ ← put 0 (Zbyte i); mret 1
  else
    let bs := switch i in
    _ ← sub_ 1 (puts 0 bs);
    _ ← put 0 (Zbyte (128 + zlen bs));
    mret (1 + zlen bs).

Definition EncodeU32 (i : Z) : M bytes Z := encode_uint be_switch32 i.
Definition EncodeU64 (i : Z) : M bytes Z := encode_uint be_switch64 i.

Definition StringLen (s : bytes) : Z :=
  let sLen := zlen s in
  if 56 <=? sLen then 1 + BitLenToByteLen (Len64 sLen) + sLen
  else match s with
       | [] => 1
       | [b] => if byteZ b <? 128 then 1 else 1 + sLen
       | _ => 1 + sLen
       end.

Definition EncodeString2 (src : bytes) : M bytes Z :=
  let n := zlen src in
  if 56 <=? n then
    let beLen := BitLenToByteLen (Len64 n) in
    _ ← PutUint64 1 n;
    _ ← check_index (beLen + n);
    _ ← put (8 - beLen) (Zbyte (beLen + 183));
    prefix ← read_slice (8 - beLen) 9;
    l ← buf_len;
    _ ← copy_to 0 l prefix;
    _ ← copy_to (1 + beLen) l src;
    mret (1 + beLen + n)
  else
    match src with
    | [] => _ ← put 0 (Zbyte 128); mret 1
    | [b] =>
        if byteZ b <? 128 then _ ← put 0 b; mret 1
        else _ ← put 0 (Zbyte 129); _ ← put 1 b; mret 2
    | _ =>
        _ ← check_index n;
        _ ← put 0 (Zbyte (n + 128));
        l ← buf_len;
        _ ← copy_to 1 l src;
        mret (1 + n)
    end.

Definition EncodeAddress (a : bytes) : M bytes Z :=
  _ ← check_index 20;
  _ ← put 0 (Zbyte (128 + 20));
  src ← lift (go_slice a 0 20);
  _ ← copy_to 1 21 src;
  mret 21.

Definition EncodeHash (h : bytes) : M bytes Z :=
  _ ← check_index 32;
  _ ← put 0 (Zbyte (128 + 32));
  src ← lift (go_slice h 0 32);
  _ ← copy_to 1 33 src;
  mret 33.

Definition HashesLen (hashes : bytes) : Z :=
  let hashesLen := zlen hashes / 32 * 33 in ListPrefixLen hashesLen + hashesLen.

(** [for i := 0; i < len(hashes); i += 32]: [n] iterations remain. *)
Fixpoint encode_hashes_loop (n : nat) (hashes : bytes) (i pos : Z) : M bytes Z :=
  match n with
  | O => mret pos
  | S n =>
      h ← lift (go_slice hashes i (zlen hashes));
      l ← sub_ pos (EncodeHash h);
      encode_hashes_loop n hashes (i + 32) (pos + l)
  end.

(** The number of iterations: [len/32] rounded up. *)
Definition hash_iterations (len : Z) : nat := Z.to_nat ((len + 31) / 32).

Definition EncodeHashes (hashes : bytes) : M bytes Z :=
  let hashesLen := zlen hashes / 32 * 33 in
  pos ← EncodeListPrefix hashesLen;
  encode_hashes_loop (hash_iterations (zlen hashes)) hashes 0 pos.

Definition sum_u32 (sizes : list Z) : Z := fold_left (fun acc size => acc + U32Len size) sizes 0.

Definition announcements_total (types : bytes) (sizes : list Z) (hashes : bytes) : Z :=
  let typesLen := StringLen types in
  let sizesLen := sum_u32 sizes in
  let hashesLen := zlen hashes / 32 * 33 in
  typesLen + sizesLen + ListPrefixLen sizesLen + hashesLen + ListPrefixLen hashesLen.

Definition AnnouncementsLen (types : bytes) (sizes : list Z) (hashes : bytes) : Z :=
  if zlen types =? 0 then 4
  else let totalLen := announcements_total types sizes hashes in ListPrefixLen totalLen + totalLen.

Fixpoint encode_sizes_loop (sizes : list Z) (pos : Z) : M bytes Z :=
  match sizes with
  | [] => mret pos
  | size :: sizes => l ← sub_ pos (EncodeU32 size); encode_sizes_loop sizes (pos + l)
  end.

Definition EncodeAnnouncements (types : bytes) (sizes : list Z) (hashes : bytes) : M bytes Z :=
  if zlen types =? 0 then
    _ ← puts 0 [xc3; x80; xc0; xc0]; mret 4
  else
    let sizesLen := sum_u32 sizes in
    let hashesLen := zlen hashes / 32 * 33 in
    pos ← EncodeListPrefix (announcements_total types sizes hashes);
    l ← sub_ pos (EncodeString2 types);
    let pos := pos + l in
    l ← sub_ pos (EncodeListPrefix sizesLen);
    pos ← encode_sizes_loop sizes (pos + l);
    l ← sub_ pos (EncodeListPrefix hashesLen);
    encode_hashes_loop (hash_iterations (zlen hashes)) hashes 0 (pos + l).

(** ** Parsers *)

Definition ErrBase : Error := NewError "rlp".
Definition ErrParse : Error := ErrorfW ErrBase "parse".
Definition ErrDecode : Error := ErrorfW ErrBase "decode".
Definition IsRLPError (err : Error) : bool := errors_Is err ErrBase.

Definition perr (msg : string) : option Error := Some (ErrorfW ErrParse msg).
Definition errEnd := perr "unexpected end of payload".
Definition errZeros := perr "integer encoding for RLP must not have leading zeros".
Definition errSize := perr "non-canonical size information".

(** [for _, b := range ... { r = (r << 8) | int(b) }]. *)
Definition accumulate (wrap : Z -> Z) (l : bytes) : Z :=
  fold_left (fun r b => wrap (Z.lor (Z.shiftl r 8) (byteZ b))) l 0.

Definition BeInt (payload : bytes) (pos length : Z) : Res (Z * option Error) :=
  if zlen payload <=? pos + length then mret (0, errEnd)
  else
    zero ← (if 0 <? length then b ← go_index payload pos; mret (byteZ b =? 0) else mret false);
    if zero : bool then _ ← go_slice payload pos (pos + length); mret (0, errZeros)
    else
      s ← go_slice payload pos (pos + length);
      mret (accumulate i64 s, None).

Definition Prefix (payload : bytes) (pos : Z) : Res (Z * Z * bool * option Error) :=
  if pos <? 0 then mret (0, 0, false, perr "negative position not allowed")
  else if zlen payload <=? pos then mret (0, 0, false, errEnd)
  else
    first ← go_index payload pos;
    let first := byteZ first in
    '(dataPos, dataLen, isList, err) ←
      (if first <? 128 then mret (pos, 1, false, None)
       else if first <? 184 then
         let dataPos := pos + 1 in
         let dataLen := first - 128 in
         err ← (if (dataLen =? 1) && (dataPos <? zlen payload)
                then b ← go_index payload dataPos; mret (if byteZ b <? 128 then errSize else None)
                else mret None);
         mret (dataPos, dataLen, false, err)
       else if first <? 192 then
         let beLen := first - 183 in
         '(dataLen, err) ← BeInt payload (pos + 1) beLen;
         mret (pos + 1 + beLen, dataLen, false, if dataLen <? 56 then errSize else err)
       else if first <? 248 then mret (pos + 1, first - 192, true, None)
       else
         let beLen := first - 247 in
         '(dataLen, err) ← BeInt payload (pos + 1) beLen;
         mret (pos + 1 + beLen, dataLen, true, if dataLen <? 56 then errSize else err));
    let err := match err with
               | Some e => Some e
               | None => if zlen payload <? i64 (dataPos + dataLen) then errEnd
                         else if i64 (dataPos + dataLen) <? 0 then perr "found too big len" else None
               end in
    mret (dataPos, dataLen, isList, err).

Definition ParseList (payload : bytes) (pos : Z) : Res (Z * Z * option Error) :=
  '(dataPos, dataLen, isList, err) ← Prefix payload pos;
  match err with
  | Some e => mret (0, 0, Some e)
  | None => if negb isList then mret (0, 0, perr "must be a list") else mret (dataPos, dataLen, None)
  end.

Definition ParseString (payload : bytes) (pos : Z) : Res (Z * Z * option Error) :=
  '(dataPos, dataLen, isList, err) ← Prefix payload pos;
  match err with
  | Some e => mret (0, 0, Some e)
  | None => if isList : bool then mret (0, 0, perr "must be a string, instead of a list")
            else mret (dataPos, dataLen, None)
  end.

Definition StringOfLen (payload : bytes) (pos expectedLen : Z) : Res (Z * option Error) :=
  '(dataPos, dataLen, err) ← ParseString payload pos;
  match err with
  | Some e => mret (0, Some e)
  | None => if negb (dataLen =? expectedLen) then mret (0, perr "expected string of len") else mret (dataPos, None)
  end.

(** The common body of [ParseU64] and [ParseU32], for integers of [size] bytes. *)
Definition parse_uint (size : Z) (wrap : Z -> Z) (payload : bytes) (pos : Z) : Res (Z * Z * option Error) :=
  '(dataPos, dataLen, isList, err) ← Prefix payload pos;
  match err with
  | Some e => mret (0, 0, Some e)
  | None =>
      if isList : bool then mret (0, 0, perr "must be a string, not isList")
      else if size <? dataLen then mret (0, 0, perr "too many bytes")
      else
        zero ← (if 0 <? dataLen then b ← go_index payload dataPos; mret (byteZ b =? 0) else mret false);
        s ← go_slice payload dataPos (dataPos + dataLen);
        if zero : bool then mret (0, 0, errZeros)
        else mret (dataPos + dataLen, accumulate wrap s, None)
  end.

Definition ParseU64 : bytes -> Z -> Res (Z * Z * option Error) := parse_uint 8 u64.
Definition u32 (z : Z) : Z := z mod 2 ^ 32.
Definition ParseU32 : bytes -> Z -> Res (Z * Z * option Error) := parse_uint 4 u32.

(** The number parsed is the second component; it is unchanged ([None]) on an error. *)
Definition ParseU256 (payload : bytes) (pos : Z) : Res (Z * option Z * option Error) :=
  '(dataPos, dataLen, err) ← ParseString payload pos;
  match err with
  | Some e => mret (0, None, Some e)
  | None =>
      if 32 <? dataLen then mret (0, None, perr "uint256 must not be more than 32 bytes long")
      else
        zero ← (if 0 <? dataLen then b ← go_index payload dataPos; mret (byteZ b =? 0) else mret false);
        s ← go_slice payload dataPos (dataPos + dataLen);
        if zero : bool then mret (0, None, errZeros)
        else mret (dataPos + dataLen, Some (be_to_Z s), None)
  end.

Definition U256Len (z : option Z) : Z :=
  match z with
  | None => 1
  | Some z =>
      let nBits := Len64 z in
      if nBits =? 0 then 1 else if nBits <=? 7 then 1 else 1 + BitLenToByteLen nBits
  end.

(** [hashbuf] is the slice the hash is copied to. *)
Definition ParseHash (payload : bytes) (pos : Z) (hashbuf : bytes) : Res (bytes * Z * option Error) :=
  '(pos, err) ← StringOfLen payload pos 32;
  match err with
  | Some e => mret (hashbuf, 0, Some (ErrorfW e "parse hash payload: hash len"))
  | None =>
      src ← go_slice payload pos (pos + 32);
      mret (splice hashbuf 0 (take (length hashbuf) src), pos + 32, None)
  end.

Fixpoint parse_sizes (n : nat) (payload : bytes) (pos : Z) : Res (Z * list Z * option Error) :=
  match n with
  | O => mret (pos, [], None)
  | S n =>
      '(pos, size, err) ← ParseU32 payload pos;
      match err with
      | Some e => mret (pos, [], Some e)
      | None =>
          '(pos, sizes, err) ← parse_sizes n payload pos;
          mret (pos, size :: sizes, err)
      end
  end.

(** [hashes] from index [i] on; [n] iterations remain. *)
Fixpoint parse_hashes (n : nat) (payload : bytes) (pos : Z) (hashes : bytes) (i : Z)
    : Res (Z * bytes * option Error) :=
  match n with
  | O => mret (pos, hashes, None)
  | S n =>
      tail ← go_slice hashes i (zlen hashes);
      '(tail, pos, err) ← ParseHash payload pos tail;
      let hashes := take (Z.to_nat i) hashes ++ tail in
      match err with
      | Some e => mret (pos, hashes, Some e)
      | None => parse_hashes n payload pos hashes (i + 32)
      end
  end.

Definition isSome_err (e : option Error) : bool := match e with Some _ => true | None => false end.
Definition aerr (msg : string) : option Error := Some (NewError msg).

Definition ParseAnnouncements (payload : bytes) (pos : Z)
    : Res (bytes * list Z * bytes * Z * option Error) :=
  let fail pos err := mret ([], [], [], pos, err) in
  '(pos, totalLen, err) ← ParseList payload pos;
  if isSome_err err then fail pos err
  else if zlen payload <? pos + totalLen then fail pos (aerr "totalLen is beyond the end of payload")
  else
    '(pos, typesLen, err) ← ParseString payload pos;
    if isSome_err err then fail pos err
    else if zlen payload <? pos + typesLen then fail pos (aerr "typesLen is beyond the end of payload")
    else
      types ← go_slice payload pos (pos + typesLen);
      let pos := pos + typesLen in
      '(pos, sizesLen, err) ← ParseList payload pos;
      if isSome_err err then fail pos err
      else if zlen payload <? pos + sizesLen then fail pos (aerr "sizesLen is beyond the end of payload")
      else
        '(pos, sizes, err) ← parse_sizes (Z.to_nat typesLen) payload pos;
        if isSome_err err then fail pos err
        else
          '(pos, hashesLen, err) ← ParseList payload pos;
          if isSome_err err then fail pos err
          else if zlen payload <? pos + hashesLen then fail pos (aerr "hashesLen is beyond the end of payload")
          else
            let n := 32 * (hashesLen / 33) in
            '(pos, hashes, err) ← parse_hashes (hash_iterations n) payload pos (replicate (Z.to_nat n) x00) 0;
            if isSome_err err then fail pos err
            else mret (types, sizes, hashes, pos, None).
