(* ===== verification/RlpSpec.v ===== *)
(** * RLP: encoders and parsers agree

    The buffer encoders write exactly the reference encoding, whatever the buffer held
    before, and use exactly the announced length; the parsers read it back, never panic
    on any input, and accept nothing but the reference encoding. *)

From S2P Require Import Prelude Uint256 Errors Rlp.

(** Arithmetic about lengths of explicit lists. *)
Ltac zl := unfold zlen in *; cbn [length] in *; lia.

(** ** Minimal big-endian numbers *)

Definition byteLen (z : Z) : nat := Z.to_nat (BitLenToByteLen (Len64 z)).
Definition be (z : Z) : bytes := Z_to_be (byteLen z) z.

Lemma byteLen_bounds z :
  0 < z -> (0 < byteLen z)%nat /\ 256 ^ (Z.of_nat (byteLen z) - 1) <= z < 256 ^ Z.of_nat (byteLen z).
Proof.
  intros Hz. unfold byteLen, BitLenToByteLen, Len64. destruct (Z.eqb_spec z 0) as [|_]; [lia|].
  pose proof (Z.log2_nonneg z). pose proof (Z.log2_spec z Hz) as [Hlo Hhi].
  set (k := Z.log2 z) in *. replace (k + 1 + 7) with (k + 8) by lia.
  pose proof (Z.div_mod (k + 8) 8). pose proof (Z.mod_pos_bound (k + 8) 8).
  set (n := (k + 8) / 8) in *. rewrite Z2Nat.id by lia. split; [lia|].
  change 256 with (2 ^ 8). rewrite <- !Z.pow_mul_r by lia. split.
  - etransitivity; [|exact Hlo]. apply Z.pow_le_mono_r; lia.
  - eapply Z.lt_le_trans; [exact Hhi|]. apply Z.pow_le_mono_r; lia.
Qed.

Lemma byteLen_unique z n : (0 < n)%nat -> 256 ^ (Z.of_nat n - 1) <= z < 256 ^ Z.of_nat n -> byteLen z = n.
Proof.
  intros Hn Hz. assert (0 < z) by (pose proof (Z.pow_pos_nonneg 256 (Z.of_nat n - 1)); lia).
  destruct (byteLen_bounds z) as [Hb Hb']; [assumption|]. set (m := byteLen z) in *.
  destruct (Nat.lt_trichotomy m n) as [H1|[H1|H1]]; [|assumption|].
  - pose proof (Z.pow_le_mono_r 256 (Z.of_nat m) (Z.of_nat n - 1) ltac:(lia) ltac:(lia)). lia.
  - pose proof (Z.pow_le_mono_r 256 (Z.of_nat n) (Z.of_nat m - 1) ltac:(lia) ltac:(lia)). lia.
Qed.

Lemma byteLen_le z k : 0 <= z < 256 ^ Z.of_nat k -> (byteLen z <= k)%nat.
Proof.
  intros Hz. destruct (decide (z = 0)) as [->|]; [change (byteLen 0) with 0%nat; lia|].
  destruct (byteLen_bounds z) as [Hb Hb']; [lia|].
  destruct (le_lt_dec (byteLen z) k); [assumption|].
  pose proof (Z.pow_le_mono_r 256 (Z.of_nat k) (Z.of_nat (byteLen z) - 1) ltac:(lia) ltac:(lia)). lia.
Qed.

Lemma byteLen_Z z : 0 <= z -> BitLenToByteLen (Len64 z) = Z.of_nat (byteLen z).
Proof.
  intros Hz. unfold byteLen. rewrite Z2Nat.id; [reflexivity|]. unfold BitLenToByteLen, Len64.
  apply Z.div_pos; [|lia]. destruct (z =? 0); [lia|]. pose proof (Z.log2_nonneg z). lia.
Qed.

Lemma length_be z : length (be z) = byteLen z.
Proof. apply length_Z_to_be. Qed.

Lemma be_value z : 0 <= z -> be_to_Z (be z) = z.
Proof.
  intros Hz. unfold be. rewrite be_to_Z_Z_to_be by assumption.
  destruct (decide (z = 0)) as [->|]; [reflexivity|]. apply Z.mod_small.
  destruct (byteLen_bounds z); lia.
Qed.

Lemma be_to_Z_cons b l : be_to_Z (b :: l) = byteZ b * 256 ^ Z.of_nat (length l) + be_to_Z l.
Proof. apply (be_to_Z_app [b] l). Qed.

(** A byte string without leading zero is the minimal encoding of its number. *)
Lemma be_canonical b l : byteZ b <> 0 -> be (be_to_Z (b :: l)) = b :: l.
Proof.
  intros Hb. unfold be. rewrite (byteLen_unique _ (length (b :: l))); [apply Z_to_be_be_to_Z|cbn; lia|].
  pose proof (byteZ_range b). pose proof (be_to_Z_nonneg l). pose proof (be_to_Z_bound (b :: l)) as Hu.
  split; [|exact Hu]. rewrite be_to_Z_cons. cbn [length].
  replace (Z.of_nat (S (length l)) - 1) with (Z.of_nat (length l)) by lia.
  pose proof (Z.pow_pos_nonneg 256 (Z.of_nat (length l))). nia.
Qed.

Lemma be_head z : 0 < z -> exists b l, be z = b :: l /\ byteZ b <> 0.
Proof.
  intros Hz. destruct (byteLen_bounds z Hz) as [Hn [Hlo _]].
  pose proof (length_be z) as Hl. pose proof (be_value z ltac:(lia)) as Hv.
  destruct (be z) as [|b l]; [cbn in Hl; lia|]. exists b, l. split; [reflexivity|]. intros H0.
  rewrite be_to_Z_cons, H0 in Hv. pose proof (be_to_Z_bound l). cbn [length] in Hl.
  replace (Z.of_nat (byteLen z) - 1) with (Z.of_nat (length l)) in Hlo by lia. lia.
Qed.

(** The shift cascade writes the low bytes, most significant first. *)
Fixpoint shr_bytes (n : nat) (i : Z) : bytes :=
  match n with O => [] | S n => shr i (8 * Z.of_nat n) :: shr_bytes n i end.

Lemma Z_to_be_app n m i : 0 <= i -> Z_to_be (n + m) i = Z_to_be n (i / 256 ^ Z.of_nat m) ++ Z_to_be m i.
Proof.
  revert i. induction m as [|m IH]; intros i Hi.
  - by rewrite Nat.add_0_r, Z.div_1_r, app_nil_r.
  - rewrite Nat.add_succ_r. cbn [Z_to_be]. rewrite IH by (apply Z.div_pos; lia).
    rewrite Z.div_div by lia. rewrite <- Z.pow_succ_r by lia.
    replace (Z.succ (Z.of_nat m)) with (Z.of_nat (S m)) by lia. by rewrite app_assoc.
Qed.

Lemma shr_bytes_be n i : 0 <= i -> shr_bytes n i = Z_to_be n i.
Proof.
  intros Hi. induction n as [|n IH]; [reflexivity|]. cbn [shr_bytes].
  change (S n) with (1 + n)%nat. rewrite Z_to_be_app by assumption. cbn [Z_to_be app].
  rewrite IH. f_equal. unfold shr. rewrite Z.shiftr_div_pow2 by lia.
  change 256 with (2 ^ 8). by rewrite <- Z.pow_mul_r by lia.
Qed.

Lemma be_switch64_be i : 0 < i < two64 -> be_switch64 i = be i.
Proof.
  intros Hi. unfold be_switch64, be. rewrite !Z.shiftl_1_l. rewrite <- shr_bytes_be by lia.
  destruct (Z.ltb_spec i (2 ^ 8)); [rewrite (byteLen_unique i 1); [reflexivity|lia|cbn; lia]|].
  destruct (Z.ltb_spec i (2 ^ 16)); [rewrite (byteLen_unique i 2); [reflexivity|lia|cbn; lia]|].
  destruct (Z.ltb_spec i (2 ^ 24)); [rewrite (byteLen_unique i 3); [reflexivity|lia|cbn; lia]|].
  destruct (Z.ltb_spec i (2 ^ 32)); [rewrite (byteLen_unique i 4); [reflexivity|lia|cbn; lia]|].
  destruct (Z.ltb_spec i (2 ^ 40)); [rewrite (byteLen_unique i 5); [reflexivity|lia|cbn; lia]|].
  destruct (Z.ltb_spec i (2 ^ 48)); [rewrite (byteLen_unique i 6); [reflexivity|lia|cbn; lia]|].
  destruct (Z.ltb_spec i (2 ^ 56)); [rewrite (byteLen_unique i 7); [reflexivity|lia|cbn; lia]|].
  rewrite (byteLen_unique i 8); [reflexivity|lia|]. unfold two64 in Hi. cbn. lia.
Qed.

Lemma be_switch32_be i : 0 < i < 2 ^ 32 -> be_switch32 i = be i.
Proof.
  intros Hi. unfold be_switch32, be. rewrite !Z.shiftl_1_l. rewrite <- shr_bytes_be by lia.
  destruct (Z.ltb_spec i (2 ^ 8)); [rewrite (byteLen_unique i 1); [reflexivity|lia|cbn; lia]|].
  destruct (Z.ltb_spec i (2 ^ 16)); [rewrite (byteLen_unique i 2); [reflexivity|lia|cbn; lia]|].
  destruct (Z.ltb_spec i (2 ^ 24)); [rewrite (byteLen_unique i 3); [reflexivity|lia|cbn; lia]|].
  rewrite (byteLen_unique i 4); [reflexivity|lia|cbn; lia].
Qed.

(** ** Reference encodings *)

(** The header of a list payload of [n] bytes. *)
Definition rlp_list_header (n : Z) : bytes :=
  if 56 <=? n then Zbyte (247 + Z.of_nat (byteLen n)) :: be n else [Zbyte (192 + n)].

Definition rlp_string (s : bytes) : bytes :=
  if 56 <=? zlen s then Zbyte (183 + Z.of_nat (byteLen (zlen s))) :: be (zlen s) ++ s
  else match s with
       | [b] => if byteZ b <? 128 then [b] else [Zbyte 129; b]
       | _ => Zbyte (128 + zlen s) :: s
       end.

Definition rlp_uint (i : Z) : bytes := rlp_string (be i).

(** ** What an encoder writes *)

(** On a buffer of at least [need] bytes, [enc] puts [out] at its front. *)
Definition writes (enc : M bytes Z) (need : Z) (out : bytes) : Prop :=
  forall to, need <= zlen to ->
    exists to', enc to = Val (zlen out, to') /\ zlen to' = zlen to /\ take (length out) to' = out.

Lemma put_eq i b to : 0 <= i < zlen to -> put i b to = Val (tt, <[Z.to_nat i := b]> to).
Proof. intros H. unfold put. destruct (Z.leb_spec 0 i), (Z.ltb_spec i (zlen to)); [reflexivity|lia..]. Qed.

Lemma check_index_eq i to : 0 <= i < zlen to -> check_index i to = Val (tt, to).
Proof. intros H. unfold check_index. destruct (Z.leb_spec 0 i), (Z.ltb_spec i (zlen to)); [reflexivity|lia..]. Qed.

Lemma copy_to_eq at_ hi src to :
  0 <= at_ <= hi -> hi <= zlen to ->
  copy_to at_ hi src to = Val (tt, splice to at_ (take (Z.to_nat (hi - at_)) src)).
Proof.
  intros H1 H2. unfold copy_to.
  destruct (Z.leb_spec 0 at_), (Z.leb_spec at_ hi), (Z.leb_spec hi (zlen to)); [reflexivity|lia..].
Qed.

Lemma insert_splice {A} (l : list A) i a :
  0 <= i < zlen l -> <[Z.to_nat i := a]> l = splice l i [a].
Proof.
  intros H. unfold splice, zlen in *. rewrite insert_take_drop by lia. cbn [length app].
  do 2 f_equal. f_equal. lia.
Qed.

Lemma splice_splice {A} (l : list A) i a x :
  0 <= i -> i + 1 + zlen x <= zlen l -> splice (splice l i [a]) (i + 1) x = splice l i (a :: x).
Proof.
  intros Hi Hl. unfold zlen in *. unfold splice at 1.
  assert (HS : splice l i [a] = (take (Z.to_nat i) l ++ [a]) ++ drop (Z.to_nat i + 1) l)
    by (unfold splice; by rewrite <- app_assoc).
  assert (Hn : length (take (Z.to_nat i) l ++ [a]) = Z.to_nat (i + 1))
    by (rewrite length_app, length_take; cbn; lia).
  rewrite HS, take_app_length' by lia. rewrite drop_app_ge, Hn, drop_drop by lia.
  unfold splice. rewrite <- app_assoc. cbn [app length]. do 4 f_equal. lia.
Qed.

Lemma splice_nil {A} (l : list A) i : splice l i [] = l.
Proof. unfold splice. cbn. rewrite Nat.add_0_r. apply take_drop. Qed.

Lemma puts_eq bs : forall i to, 0 <= i -> i + zlen bs <= zlen to -> puts i bs to = Val (tt, splice to i bs).
Proof.
  induction bs as [|b bs IH]; intros i to Hi Hl; cbn [puts].
  - by rewrite splice_nil.
  - rewrite zlen_cons in Hl. pose proof (zlen_nonneg bs). unfold mbind, M_bind.
    rewrite put_eq, insert_splice by lia.
    rewrite IH; [by rewrite splice_splice by lia|lia|]. rewrite zlen_splice; [lia|lia|]. change (zlen [b]) with 1. lia.
Qed.

Lemma sub_eq {A} pos (enc : M bytes A) to a tail :
  0 <= pos <= zlen to -> enc (drop (Z.to_nat pos) to) = Val (a, tail) ->
  sub_ pos enc to = Val (a, take (Z.to_nat pos) to ++ tail).
Proof.
  intros H E. unfold sub_. destruct (Z.leb_spec 0 pos), (Z.leb_spec pos (zlen to)); try lia. cbn. by rewrite E.
Qed.

Lemma PutUint64_eq at_ v to :
  0 <= at_ -> at_ + 8 <= zlen to -> PutUint64 at_ v to = Val (tt, splice to at_ (Z_to_be 8 v)).
Proof.
  intros H1 H2. unfold PutUint64. assert (Hd : zlen (drop (Z.to_nat at_) to) = zlen to - at_)
    by (unfold zlen in *; rewrite length_drop; lia).
  erewrite (sub_eq at_ _ to tt); [|lia|].
  2: { unfold mbind, M_bind. rewrite check_index_eq by lia. apply puts_eq; [lia|].
       unfold zlen at 1. rewrite length_Z_to_be. lia. }
  unfold splice at 1. cbn [Z.to_nat take app]. rewrite drop_drop. reflexivity.
Qed.

(** The length prefix, built at the end of a nine-byte area and moved to its front. *)
Lemma move_prefix n p v to :
  (1 <= n <= 8)%nat -> 0 <= v -> 9 <= zlen to ->
  let A := <[Z.to_nat (8 - Z.of_nat n) := p]> (splice to 1 (Z_to_be 8 v)) in
  zlen A = zlen to /\ go_slice A (8 - Z.of_nat n) 9 = Val (p :: Z_to_be n v).
Proof.
  intros Hn Hv Hl A. set (V := Z_to_be 8 v) in *.
  assert (HV : length V = 8%nat) by apply length_Z_to_be.
  assert (HA : zlen A = zlen to).
  { unfold A, zlen. rewrite length_insert. apply (zlen_splice to 1 V); unfold zlen in *; lia. }
  split; [exact HA|]. rewrite go_slice_val by lia. f_equal. unfold A.
  rewrite insert_take_drop.
  2: { assert (zlen (splice to 1 V) = zlen to) by (apply zlen_splice; unfold zlen in *; lia). unfold zlen in *. lia. }
  assert (Hlen : length (splice to 1 V) = length to).
  { apply Nat2Z.inj. apply (zlen_splice to 1 V); unfold zlen in *; lia. }
  unfold zlen in Hl. rewrite drop_app_length' by (rewrite length_take; lia).
  replace (Z.to_nat (9 - (8 - Z.of_nat n))) with (S n) by lia. cbn [take]. f_equal.
  unfold splice. rewrite drop_app_ge by (rewrite length_take; lia).
  rewrite length_take. replace (S (Z.to_nat (8 - Z.of_nat n)) - Z.to_nat 1 `min` length to)%nat with (8 - n)%nat by lia.
  rewrite drop_app_le, take_app_le by (rewrite ?length_drop; lia).
  rewrite take_ge by (rewrite length_drop; lia).
  unfold V. replace 8%nat with (8 - n + n)%nat at 2 by lia.
  rewrite Z_to_be_app by assumption. apply drop_app_length'. by rewrite length_Z_to_be.
Qed.

Lemma take_front {A} (l src : list A) : take (length src) (splice l 0 src) = src.
Proof. unfold splice. change (Z.to_nat 0) with 0%nat. rewrite take_0, app_nil_l. apply take_app_length. Qed.

Lemma zlen_be z : zlen (be z) = Z.of_nat (byteLen z).
Proof. unfold zlen. by rewrite length_be. Qed.

Lemma byteLen_64 z : 0 < z < two64 -> (1 <= byteLen z <= 8)%nat.
Proof.
  intros Hz. destruct (byteLen_bounds z) as [H _]; [lia|].
  pose proof (byteLen_le z 8) as H8. unfold two64 in Hz. cbn in H8. lia.
Qed.

(** [copy(to, src)] for a source that fits. *)
Lemma copy_front src to :
  zlen src <= zlen to -> copy_to 0 (zlen to) src to = Val (tt, splice to 0 src).
Proof.
  intros H. pose proof (zlen_nonneg to). rewrite copy_to_eq by lia. do 3 f_equal.
  apply take_ge. unfold zlen in *. lia.
Qed.

Lemma EncodeListPrefix_writes n :
  0 <= n < two64 / 2 -> writes (EncodeListPrefix n) (if 56 <=? n then 10 else 1) (rlp_list_header n).
Proof.
  intros Hn to Hl. assert (Hu : u64 n = n) by (apply u64_id; unfold is_u64; change (two64 / 2) with 9223372036854775808 in Hn; unfold two64; lia).
  change (two64 / 2) with 9223372036854775808 in Hn.
  unfold EncodeListPrefix, rlp_list_header. rewrite Hu. destruct (Z.leb_spec 56 n).
  - rewrite byteLen_Z by lia. unfold mbind, M_bind, read_slice, buf_len, gets.
    pose proof (byteLen_64 n ltac:(unfold two64 in *; lia)) as Hb.
    rewrite check_index_eq, PutUint64_eq by lia.
    assert (Hs : zlen (splice to 1 (Z_to_be 8 n)) = zlen to)
      by (apply zlen_splice; [lia|unfold zlen at 1; rewrite length_Z_to_be; lia]).
    rewrite put_eq by lia.
    destruct (move_prefix (byteLen n) (Zbyte (247 + Z.of_nat (byteLen n))) n to) as [HA HS]; [lia|lia|lia|].
    cbv zeta in HA, HS. rewrite HS. fold (be n).
    assert (Hz : zlen (Zbyte (247 + Z.of_nat (byteLen n)) :: be n) = 1 + Z.of_nat (byteLen n))
      by (rewrite zlen_cons, zlen_be; lia).
    rewrite copy_front by lia. eexists. split; [by rewrite Hz|].
    split; [rewrite zlen_splice by lia; exact HA|].
    apply take_front.
  - unfold mbind, M_bind. rewrite put_eq, insert_splice by lia. eexists. split; [reflexivity|].
    split; [apply zlen_splice; [lia|]; change (zlen [_]) with 1; lia|]. apply take_front.
Qed.

Lemma rlp_string_short s :
  zlen s < 56 -> (forall b, s = [b] -> 128 <= byteZ b) -> rlp_string s = Zbyte (128 + zlen s) :: s.
Proof.
  intros Hs Hb. unfold rlp_string. destruct (Z.leb_spec 56 (zlen s)); [lia|].
  destruct s as [|b [|]]; try reflexivity. specialize (Hb b eq_refl).
  destruct (Z.ltb_spec (byteZ b) 128); [lia|reflexivity].
Qed.

(** A short write of known bytes. *)
Lemma front_writes (out to : bytes) :
  zlen out <= zlen to -> zlen (splice to 0 out) = zlen to /\ take (length out) (splice to 0 out) = out.
Proof. intros H. split; [apply zlen_splice; lia|apply take_front]. Qed.

Lemma header_then_body (b : byte) (src to : bytes) :
  1 + zlen src <= zlen to ->
  splice (<[Z.to_nat 0 := b]> to) 1 src = splice to 0 (b :: src).
Proof.
  intros H. pose proof (zlen_nonneg src). rewrite insert_splice by lia. apply (splice_splice to 0 b src); lia.
Qed.

Lemma zlen_insert {A} (l : list A) i a : zlen (<[i := a]> l) = zlen l.
Proof. unfold zlen. by rewrite length_insert. Qed.

(** [to[0] = b; copy(to[1:hi], src)]. *)
Lemma put_copy b src hi to :
  hi <= zlen to -> 1 + zlen src <= hi ->
  (_ ← put 0 b; copy_to 1 hi src) to = Val (tt, splice to 0 (b :: src)).
Proof.
  intros H1 H2. pose proof (zlen_nonneg src). unfold mbind, M_bind. rewrite put_eq by lia.
  rewrite copy_to_eq by (rewrite ?zlen_insert; lia).
  rewrite take_ge by (unfold zlen in *; lia). by rewrite header_then_body by lia.
Qed.

Lemma EncodeString2_writes src :
  zlen src < two64 / 2 -> writes (EncodeString2 src) (zlen (rlp_string src)) (rlp_string src).
Proof.
  intros Hn to Hl. change (two64 / 2) with 9223372036854775808 in Hn.
  unfold EncodeString2. destruct (Z.leb_spec 56 (zlen src)) as [Hbig|Hsmall].
  - unfold rlp_string in *. destruct (Z.leb_spec 56 (zlen src)); [|lia].
    rewrite byteLen_Z by lia. unfold mbind, M_bind, read_slice, buf_len, gets.
    pose proof (byteLen_64 (zlen src) ltac:(unfold two64; lia)) as Hb. set (n := byteLen (zlen src)) in *.
    rewrite zlen_cons, zlen_app, zlen_be in Hl. fold n in Hl.
    rewrite PutUint64_eq by lia.
    assert (Hs : zlen (splice to 1 (Z_to_be 8 (zlen src))) = zlen to)
      by (apply zlen_splice; [lia|unfold zlen at 1; rewrite length_Z_to_be; lia]).
    rewrite check_index_eq, put_eq by lia.
    destruct (move_prefix n (Zbyte (Z.of_nat n + 183)) (zlen src) to) as [HA HS]; [lia|lia|lia|].
    cbv zeta in HA, HS. rewrite HS. clear HS. change (Z_to_be n (zlen src)) with (be (zlen src)).
    set (A := <[_ := _]> _) in *. rewrite copy_front by (rewrite zlen_cons, zlen_be; fold n; lia).
    set (hd := _ :: be _). assert (Hhd : zlen hd = 1 + Z.of_nat n) by (unfold hd; rewrite zlen_cons, zlen_be; fold n; lia).
    assert (HB : zlen (splice A 0 hd) = zlen A) by (apply zlen_splice; lia).
    rewrite copy_to_eq by lia. rewrite take_ge by (unfold zlen in *; lia).
    assert (Hout : Zbyte (183 + Z.of_nat n) :: be (zlen src) ++ src = hd ++ src)
      by (unfold hd; by rewrite Z.add_comm).
    rewrite Hout. eexists. split; [rewrite zlen_app, Hhd; reflexivity|].
    split; [rewrite zlen_splice by lia; lia|].
    unfold splice at 1. replace (Z.to_nat (1 + Z.of_nat n)) with (length hd) by (unfold zlen in *; lia).
    rewrite take_front, app_assoc. apply take_app_length.
  - destruct src as [|b [|c src']].
    + assert (1 <= zlen to) by exact Hl. unfold mbind, M_bind. rewrite put_eq, insert_splice by lia. eexists. split; [reflexivity|].
      by apply (front_writes [Zbyte 128]).
    + unfold rlp_string in *. change (56 <=? zlen [b]) with false in *. cbv iota in *.
      destruct (byteZ b <? 128).
      * assert (1 <= zlen to) by exact Hl. unfold mbind, M_bind. rewrite put_eq, insert_splice by lia. eexists. split; [reflexivity|].
        by apply (front_writes [b]).
      * unfold mbind, M_bind. change (zlen [Zbyte 129; b]) with 2 in Hl. rewrite put_eq, put_eq by (rewrite ?zlen_insert; lia).
        eexists. split; [reflexivity|]. rewrite (insert_splice _ 1) by (rewrite zlen_insert; lia).
        rewrite header_then_body by (change (zlen [b]) with 1; lia). by apply (front_writes [Zbyte 129; b]).
    + set (s := b :: c :: src') in *. assert (Hne : forall b', s = [b'] -> 128 <= byteZ b') by (unfold s; congruence).
      rewrite (rlp_string_short s) in * by assumption. rewrite zlen_cons in Hl.
      assert (2 <= zlen s) by (unfold s; rewrite !zlen_cons; pose proof (zlen_nonneg src'); lia).
      unfold mbind at 1, M_bind at 1. rewrite check_index_eq by lia.
      unfold buf_len, gets. unfold mbind at 1, M_bind at 1. rewrite put_eq by lia.
      unfold mbind, M_bind. rewrite zlen_insert. rewrite copy_to_eq by (rewrite ?zlen_insert; lia).
      rewrite take_ge by (unfold zlen in *; lia). rewrite header_then_body, (Z.add_comm (zlen s) 128) by lia.
      eexists. split; [rewrite zlen_cons; reflexivity|]. apply front_writes. rewrite zlen_cons. lia.
Qed.

Lemma rlp_uint_small i : 0 < i < 128 -> rlp_uint i = [Zbyte i].
Proof.
  intros Hi. unfold rlp_uint, be. rewrite (byteLen_unique i 1) by (cbn; lia). cbn [Z_to_be app].
  unfold rlp_string. change (56 <=? zlen [Zbyte i]) with false. cbv iota.
  rewrite byteZ_Zbyte, Z.mod_small by lia. destruct (Z.ltb_spec i 128); [reflexivity|lia].
Qed.

Lemma rlp_uint_big i :
  128 <= i < two64 -> rlp_uint i = Zbyte (128 + zlen (be i)) :: be i.
Proof.
  intros Hi. pose proof (byteLen_64 i ltac:(lia)). apply rlp_string_short; [rewrite zlen_be; lia|].
  intros b Hb. pose proof (be_value i ltac:(lia)) as Hv. rewrite Hb in Hv. unfold be_to_Z in Hv. cbn in Hv. lia.
Qed.

Lemma encode_uint_writes switch i :
  0 <= i < two64 -> (0 < i -> switch i = be i) ->
  writes (encode_uint switch i) (zlen (rlp_uint i)) (rlp_uint i).
Proof.
  intros Hi Hsw to Hl. unfold encode_uint. destruct (Z.eqb_spec i 0) as [->|Hne].
  { assert (1 <= zlen to) by exact Hl. unfold mbind, M_bind. rewrite put_eq, insert_splice by lia. eexists. split; [reflexivity|].
    by apply (front_writes [Zbyte 128]). }
  destruct (Z.ltb_spec i 128).
  { rewrite rlp_uint_small in * by lia. assert (1 <= zlen to) by exact Hl.
    unfold mbind, M_bind. rewrite put_eq, insert_splice by lia. eexists. split; [reflexivity|]. by apply (front_writes [Zbyte i]). }
  rewrite Hsw, rlp_uint_big in * by lia. rewrite zlen_cons in Hl. pose proof (zlen_nonneg (be i)).
  assert (Hd : zlen (drop (Z.to_nat 1) to) = zlen to - 1) by (unfold zlen in *; rewrite length_drop; lia).
  unfold mbind, M_bind. erewrite (sub_eq 1 _ to tt); [|lia|apply puts_eq; lia].
  set (to1 := take _ to ++ _). assert (H1 : zlen to1 = zlen to).
  { unfold to1. rewrite zlen_app, zlen_splice by lia. rewrite Hd. unfold zlen in *. rewrite length_take. lia. }
  rewrite put_eq by lia. eexists. split; [rewrite zlen_cons; reflexivity|].
  rewrite zlen_insert. split; [assumption|]. rewrite insert_take_drop by (unfold zlen in *; lia).
  rewrite take_0, app_nil_l. cbn [length take]. f_equal. unfold to1.
  rewrite drop_app_ge by (rewrite length_take; lia). rewrite length_take.
  replace (S (Z.to_nat 0) - Z.to_nat 1 `min` length to)%nat with 0%nat by (unfold zlen in *; lia). rewrite drop_0. apply take_front.
Qed.

(** A fixed-width string of [n] bytes, 2 to 55. *)
Lemma fixed_writes n s :
  2 <= n < 56 -> n <= zlen s -> writes
    (_ ← check_index n; _ ← put 0 (Zbyte (128 + n)); src ← lift (go_slice s 0 n);
     _ ← copy_to 1 (n + 1) src; mret (n + 1)) (n + 1) (rlp_string (take (Z.to_nat n) s)).
Proof.
  intros Hn Hs to Hl. assert (Ht : zlen (take (Z.to_nat n) s) = n) by (unfold zlen in *; rewrite length_take; lia).
  rewrite rlp_string_short; [|lia|intros b Hb; rewrite Hb in Ht; change (zlen [b]) with 1 in Ht; lia].
  unfold mbind, M_bind, lift. rewrite check_index_eq, put_eq by lia.
  rewrite go_slice_val by lia. rewrite Z.sub_0_r, drop_0.
  rewrite copy_to_eq by (rewrite ?zlen_insert; lia). rewrite take_ge by (unfold zlen in *; lia).
  rewrite header_then_body by lia. rewrite Ht. eexists. split; [rewrite zlen_cons, Ht, Z.add_comm; reflexivity|].
  apply front_writes. rewrite zlen_cons. lia.
Qed.

Lemma EncodeHash_writes h : 32 <= zlen h -> writes (EncodeHash h) 33 (rlp_string (take 32 h)).
Proof. intros Hh. apply (fixed_writes 32 h); [lia|exact Hh]. Qed.

Lemma EncodeAddress_writes a : 20 <= zlen a -> writes (EncodeAddress a) 21 (rlp_string (take 20 a)).
Proof. intros Ha. apply (fixed_writes 20 a); [lia|exact Ha]. Qed.

(** The buffer starts with [out]. *)
Definition holds (to out : bytes) : Prop := take (length out) to = out.

Lemma holds_le to out : holds to out -> zlen out <= zlen to.
Proof. unfold holds, zlen. intros H. rewrite <- H, length_take. lia. Qed.

(** An encoder called after [out] has been written appends to it. *)
Lemma sub_writes enc need out out2 to :
  writes enc need out2 -> holds to out -> zlen out + need <= zlen to ->
  exists to', sub_ (zlen out) enc to = Val (zlen out2, to') /\ zlen to' = zlen to /\ holds to' (out ++ out2).
Proof.
  intros Hw Ht Hl. pose proof (holds_le _ _ Ht). pose proof (zlen_nonneg out).
  assert (Hd : zlen (drop (Z.to_nat (zlen out)) to) = zlen to - zlen out)
    by (unfold zlen in *; rewrite length_drop; lia).
  destruct (Hw (drop (Z.to_nat (zlen out)) to)) as (tail & E & Hl2 & Ht2); [lia|].
  rewrite (sub_eq (zlen out) enc to _ _ (conj H0 H) E). eexists. split; [reflexivity|].
  assert (Hz : Z.to_nat (zlen out) = length out) by (unfold zlen; lia).
  unfold holds in *. rewrite Hz, Ht.
  split; [rewrite zlen_app, Hl2, Hd; lia|]. rewrite length_app, take_app_add. by rewrite Ht2.
Qed.

(** The encoding of the sizes, and of the hashes, one after the other. *)
Definition rlp_sizes (sizes : list Z) : bytes := mjoin (rlp_uint <$> sizes).

Fixpoint rlp_hashes (n : nat) (hashes : bytes) : bytes :=
  match n with O => [] | S n => rlp_string (take 32 hashes) ++ rlp_hashes n (drop 32 hashes) end.

Lemma encode_sizes_writes sizes : forall out to,
  Forall (fun i => 0 <= i < 2 ^ 32) sizes -> holds to out -> zlen out + zlen (rlp_sizes sizes) <= zlen to ->
  exists to', encode_sizes_loop sizes (zlen out) to = Val (zlen (out ++ rlp_sizes sizes), to') /\
    zlen to' = zlen to /\ holds to' (out ++ rlp_sizes sizes).
Proof.
  induction sizes as [|i sizes IH]; intros out to Hs Ht Hl.
  - exists to. rewrite app_nil_r. done.
  - apply Forall_cons in Hs as [Hi Hs]. change (rlp_sizes (i :: sizes)) with (rlp_uint i ++ rlp_sizes sizes) in *.
    rewrite zlen_app in Hl. pose proof (zlen_nonneg (rlp_sizes sizes)).
    destruct (sub_writes (EncodeU32 i) (zlen (rlp_uint i)) out (rlp_uint i) to) as (to1 & E & Hl1 & Ht1);
      [|assumption|lia|].
    { apply encode_uint_writes; [unfold two64; lia|intros; apply be_switch32_be; lia]. }
    cbn [encode_sizes_loop]. unfold mbind, M_bind. rewrite E, <- zlen_app.
    destruct (IH (out ++ rlp_uint i) to1) as (to2 & E2 & Hl2 & Ht2); [assumption|assumption|rewrite zlen_app; lia|].
    rewrite app_assoc. exists to2. split; [exact E2|]. split; [lia|assumption].
Qed.

Lemma zlen_rlp_hash h : 32 <= zlen h -> zlen (rlp_string (take 32 h)) = 33.
Proof.
  intros Hh. assert (Ht : zlen (take 32 h) = 32) by (unfold zlen in *; rewrite length_take; lia).
  rewrite rlp_string_short; [rewrite zlen_cons; lia|lia|].
  intros b Hb. rewrite Hb in Ht. discriminate.
Qed.

Lemma zlen_rlp_hashes n hashes : 32 * Z.of_nat n <= zlen hashes -> zlen (rlp_hashes n hashes) = 33 * Z.of_nat n.
Proof.
  revert hashes. induction n as [|n IH]; intros hashes H; [reflexivity|]. cbn [rlp_hashes].
  rewrite zlen_app, zlen_rlp_hash, IH by (unfold zlen in *; rewrite ?length_drop; lia). lia.
Qed.

Lemma encode_hashes_writes n : forall hashes i out to,
  0 <= i -> i + 32 * Z.of_nat n <= zlen hashes -> holds to out -> zlen out + 33 * Z.of_nat n <= zlen to ->
  exists to', encode_hashes_loop n hashes i (zlen out) to =
      Val (zlen (out ++ rlp_hashes n (drop (Z.to_nat i) hashes)), to') /\
    zlen to' = zlen to /\ holds to' (out ++ rlp_hashes n (drop (Z.to_nat i) hashes)).
Proof.
  induction n as [|n IH]; intros hashes i out to Hi Hh Ht Hl.
  - exists to. cbn [rlp_hashes]. rewrite app_nil_r. done.
  - cbn [encode_hashes_loop rlp_hashes]. unfold mbind, M_bind, lift. rewrite go_slice_val by lia.
    set (h := drop (Z.to_nat i) hashes).
    assert (Hd : zlen h = zlen hashes - i) by (unfold h, zlen in *; rewrite length_drop; lia).
    rewrite take_ge by (unfold zlen in *; lia).
    destruct (sub_writes (EncodeHash h) 33 out (rlp_string (take 32 h)) to) as (to1 & E & Hl1 & Ht1);
      [apply EncodeHash_writes; lia|assumption|lia|].
    rewrite E, <- zlen_app. rewrite zlen_rlp_hash in E by lia.
    destruct (IH hashes (i + 32) (out ++ rlp_string (take 32 h)) to1) as (to2 & E2 & Hl2 & Ht2);
      [lia|lia|assumption|rewrite zlen_app, zlen_rlp_hash by lia; lia|].
    replace (drop 32 h) with (drop (Z.to_nat (i + 32)) hashes) by (unfold h; rewrite drop_drop; f_equal; lia).
    rewrite app_assoc. exists to2. split; [exact E2|]. split; [lia|assumption].
Qed.

(** ** The announced lengths are exact *)

Lemma ListPrefixLen_exact n : 0 <= n < two64 -> ListPrefixLen n = zlen (rlp_list_header n).
Proof.
  intros Hn. unfold ListPrefixLen, rlp_list_header. rewrite u64_id by assumption.
  destruct (Z.leb_spec 56 n); [|reflexivity]. by rewrite zlen_cons, zlen_be, byteLen_Z by lia.
Qed.

Lemma StringLen_exact s : StringLen s = zlen (rlp_string s).
Proof.
  unfold StringLen, rlp_string. pose proof (zlen_nonneg s). destruct (Z.leb_spec 56 (zlen s)).
  - rewrite byteLen_Z, zlen_cons, zlen_app, zlen_be by lia. lia.
  - destruct s as [|b [|]]; [reflexivity| |by rewrite !zlen_cons]. by destruct (byteZ b <? 128).
Qed.

Lemma uint_len_exact i : 0 <= i < two64 -> (if i <? 128 then 1 else 1 + BitLenToByteLen (Len64 i)) = zlen (rlp_uint i).
Proof.
  intros Hi. destruct (Z.ltb_spec i 128).
  - destruct (decide (i = 0)) as [->|]; [reflexivity|]. by rewrite rlp_uint_small by lia.
  - rewrite rlp_uint_big, zlen_cons, zlen_be, byteLen_Z by lia. reflexivity.
Qed.

Lemma sum_u32_exact sizes : Forall (fun i => 0 <= i < 2 ^ 32) sizes -> sum_u32 sizes = zlen (rlp_sizes sizes).
Proof.
  intros Hs. unfold sum_u32. change (zlen (rlp_sizes sizes)) with (0 + zlen (rlp_sizes sizes)).
  generalize 0. induction Hs as [|i sizes Hi Hs IH]; intros acc; [change (zlen (rlp_sizes [])) with 0; cbn; lia|].
  cbn [fold_left]. rewrite IH. change (rlp_sizes (i :: sizes)) with (rlp_uint i ++ rlp_sizes sizes).
  rewrite zlen_app. unfold U32Len. rewrite uint_len_exact by (unfold two64; lia). lia.
Qed.

(** ** Announcements *)

(** The arguments the encoder is meant for: one size and one hash per type. *)
Record announcements_ok (types : bytes) (sizes : list Z) (hashes : bytes) : Prop := mkAnnOk {
  an_sizes : length sizes = length types;
  an_hashes : zlen hashes = 32 * zlen types;
  an_u32 : Forall (fun i => 0 <= i < 2 ^ 32) sizes;
  an_len : zlen types < 2 ^ 32
}.

Definition rlp_announcements (types : bytes) (sizes : list Z) (hashes : bytes) : bytes :=
  let body := rlp_string types ++ (rlp_list_header (zlen (rlp_sizes sizes)) ++ rlp_sizes sizes) ++
              rlp_list_header (33 * zlen types) ++ rlp_hashes (length types) hashes in
  rlp_list_header (zlen body) ++ body.

Lemma zlen_header_bound n : 0 <= n < two64 -> 1 <= zlen (rlp_list_header n) <= 9.
Proof.
  intros Hn. unfold rlp_list_header. destruct (Z.leb_spec 56 n); [|zl].
  rewrite zlen_cons, zlen_be. pose proof (byteLen_64 n ltac:(lia)). lia.
Qed.

Lemma zlen_rlp_string_bound s : zlen s < two64 -> zlen s <= zlen (rlp_string s) <= zlen s + 9.
Proof.
  intros Hs. pose proof (zlen_nonneg s). unfold rlp_string. destruct (Z.leb_spec 56 (zlen s)).
  - rewrite zlen_cons, zlen_app, zlen_be. pose proof (byteLen_64 (zlen s) ltac:(lia)). lia.
  - destruct s as [|b [|]]; rewrite ?zlen_cons; try zl. destruct (byteZ b <? 128); zl.
Qed.

Lemma zlen_rlp_sizes_bound sizes :
  Forall (fun i => 0 <= i < 2 ^ 32) sizes -> zlen sizes <= zlen (rlp_sizes sizes) <= 9 * zlen sizes.
Proof.
  induction 1 as [|i sizes Hi Hs IH]; [change (zlen (rlp_sizes [])) with 0; zl|].
  change (rlp_sizes (i :: sizes)) with (rlp_uint i ++ rlp_sizes sizes). rewrite zlen_app, zlen_cons.
  assert (1 <= zlen (rlp_uint i) <= 9); [|lia].
  rewrite <- uint_len_exact by (unfold two64; lia). destruct (Z.ltb_spec i 128); [lia|].
  rewrite byteLen_Z by lia. pose proof (byteLen_64 i ltac:(unfold two64; lia)). lia.
Qed.

Lemma hash_iterations_mul q : hash_iterations (32 * q) = Z.to_nat q.
Proof. unfold hash_iterations. by rewrite (Z.mul_comm 32), Z.div_add_l, Z.div_small, Z.add_0_r by lia. Qed.

Section Announcements.
Context (types : bytes) (sizes : list Z) (hashes : bytes) (H : announcements_ok types sizes hashes).

Lemma ann_sizes_len : zlen sizes = zlen types.
Proof. destruct H. unfold zlen. by rewrite an_sizes0. Qed.

Lemma ann_hashes_len : zlen (rlp_hashes (length types) hashes) = 33 * zlen types.
Proof. destruct H. apply zlen_rlp_hashes. unfold zlen in *. lia. Qed.

Lemma ann_hashes_div : zlen hashes / 32 * 33 = 33 * zlen types.
Proof. destruct H. rewrite an_hashes0, Z.mul_comm, (Z.mul_comm 32), Z.div_mul by lia. lia. Qed.

Lemma ann_total :
  announcements_total types sizes hashes =
    zlen (rlp_string types ++ (rlp_list_header (zlen (rlp_sizes sizes)) ++ rlp_sizes sizes) ++
          rlp_list_header (33 * zlen types) ++ rlp_hashes (length types) hashes) /\
  0 <= announcements_total types sizes hashes < 2 ^ 40.
Proof.
  pose proof (zlen_nonneg types). pose proof (zlen_rlp_sizes_bound sizes (an_u32 _ _ _ H)) as Hsz.
  pose proof (an_len _ _ _ H). rewrite ann_sizes_len in Hsz.
  pose proof (zlen_rlp_string_bound types ltac:(unfold two64; lia)).
  pose proof (zlen_header_bound (zlen (rlp_sizes sizes)) ltac:(unfold two64; lia)).
  pose proof (zlen_header_bound (33 * zlen types) ltac:(unfold two64; lia)).
  unfold announcements_total. rewrite ann_hashes_div, StringLen_exact, sum_u32_exact by apply H.
  rewrite !ListPrefixLen_exact by (unfold two64; lia). rewrite !zlen_app, ann_hashes_len. lia.
Qed.

Lemma EncodeAnnouncements_writes :
  writes (EncodeAnnouncements types sizes hashes) (zlen (rlp_announcements types sizes hashes))
    (rlp_announcements types sizes hashes) /\
  AnnouncementsLen types sizes hashes = zlen (rlp_announcements types sizes hashes).
Proof.
  pose proof ann_total as [Ht Hb]. unfold AnnouncementsLen, EncodeAnnouncements.
  destruct (Z.eqb_spec (zlen types) 0) as [H0|Hne].
  { destruct H. destruct types; [|discriminate]. destruct sizes; [|discriminate].
    split; [|reflexivity]. intros to Hl. change (zlen (rlp_announcements [] [] hashes)) with 4 in Hl.
    unfold mbind, M_bind. rewrite puts_eq by (try lia; exact Hl). eexists. split; [reflexivity|].
    apply (front_writes [xc3; x80; xc0; xc0] to). exact Hl. }
  set (body := rlp_string types ++ _) in Ht.
  assert (HL : AnnouncementsLen types sizes hashes = zlen (rlp_announcements types sizes hashes)).
  { unfold AnnouncementsLen. destruct (Z.eqb_spec (zlen types) 0); [contradiction|].
    rewrite ListPrefixLen_exact by (unfold two64; lia). unfold rlp_announcements. fold body.
    rewrite zlen_app, <- Ht. reflexivity. }
  unfold AnnouncementsLen in HL. destruct (Z.eqb_spec (zlen types) 0); [contradiction|].
  split; [|exact HL]. intros to Hl. pose proof (zlen_nonneg types).
  pose proof (zlen_rlp_string_bound types ltac:(pose proof (an_len _ _ _ H); unfold two64; lia)) as Hst.
  pose proof (zlen_rlp_sizes_bound sizes (an_u32 _ _ _ H)) as Hsz. rewrite ann_sizes_len in Hsz.
  pose proof (an_len _ _ _ H) as Htl.
  pose proof (zlen_header_bound (zlen body) ltac:(unfold two64; lia)) as Hh0.
  pose proof (zlen_header_bound (zlen (rlp_sizes sizes)) ltac:(unfold two64; lia)) as Hh1.
  pose proof (zlen_header_bound (33 * zlen types) ltac:(unfold two64; lia)) as Hh2.
  assert (Hlen : zlen (rlp_announcements types sizes hashes) = zlen (rlp_list_header (zlen body)) + zlen body)
    by (unfold rlp_announcements; by rewrite zlen_app).
  assert (Hbody : zlen body = zlen (rlp_string types) + (zlen (rlp_list_header (zlen (rlp_sizes sizes))) +
    zlen (rlp_sizes sizes)) + (zlen (rlp_list_header (33 * zlen types)) + 33 * zlen types))
    by (unfold body; rewrite !zlen_app, ann_hashes_len; lia).
  assert (Hhalf : two64 / 2 = 9223372036854775808) by reflexivity.
  rewrite Ht, sum_u32_exact, ann_hashes_div by apply H. unfold mbind, M_bind.
  destruct (EncodeListPrefix_writes (zlen body) ltac:(lia) to) as (to1 & -> & L1 & T1);
    [destruct (Z.leb_spec 56 (zlen body)); lia|].
  destruct (sub_writes _ _ _ _ to1 (EncodeString2_writes types ltac:(lia)) T1) as (to2 & -> & L2 & T2); [lia|].
  rewrite <- zlen_app.
  destruct (sub_writes _ _ _ _ to2 (EncodeListPrefix_writes (zlen (rlp_sizes sizes)) ltac:(lia)) T2)
    as (to3 & -> & L3 & T3); [rewrite zlen_app; destruct (Z.leb_spec 56 (zlen (rlp_sizes sizes))); lia|].
  rewrite <- zlen_app.
  destruct (encode_sizes_writes sizes _ to3 (an_u32 _ _ _ H) T3) as (to4 & -> & L4 & T4); [rewrite !zlen_app; lia|].
  destruct (sub_writes _ _ _ _ to4 (EncodeListPrefix_writes (33 * zlen types) ltac:(lia)) T4)
    as (to5 & -> & L5 & T5); [rewrite !zlen_app; destruct (Z.leb_spec 56 (33 * zlen types)); lia|].
  rewrite <- zlen_app.
  assert (Hit : hash_iterations (zlen hashes) = length types).
  { rewrite (an_hashes _ _ _ H), hash_iterations_mul. zl. }
  assert (Hroom : 0 + 32 * Z.of_nat (length types) <= zlen hashes) by (rewrite (an_hashes _ _ _ H); zl).
  destruct (encode_hashes_writes (length types) hashes 0 _ to5 (Z.le_refl 0) Hroom T5) as (to6 & E6 & L6 & T6);
    [rewrite !zlen_app; fold (zlen types); lia|].
  rewrite Hit, E6. change (drop (Z.to_nat 0) hashes) with hashes in *.
  replace (rlp_announcements types sizes hashes) with
    (((((rlp_list_header (zlen body) ++ rlp_string types) ++ rlp_list_header (zlen (rlp_sizes sizes))) ++
       rlp_sizes sizes) ++ rlp_list_header (33 * zlen types)) ++ rlp_hashes (length types) hashes)
    by (unfold rlp_announcements, body; by rewrite <- !app_assoc).
  exists to6. split; [reflexivity|]. split; [lia|exact T6].
Qed.
End Announcements.
