(* ===== verification/RlpParse.v ===== *)
(** * RLP: the parsers

    On any payload the parsers return without panicking, the window they report lies
    inside the payload, and what they accept is exactly the reference encoding
    ([RlpSpec]): together with the encoders, the round trips. *)

From S2P Require Import Prelude Uint256 Errors Rlp RlpSpec.

(** ** Numbers read byte by byte *)

Lemma lor_byte r b : Z.lor (Z.shiftl r 8) (byteZ b) = r * 256 + byteZ b.
Proof.
  pose proof (byteZ_range b) as Hb.
  assert (H0 : Z.land (Z.shiftl r 8) (byteZ b) = 0).
  { apply Z.bits_inj'. intros n Hn. rewrite Z.land_spec, Z.bits_0, Z.shiftl_spec by lia.
    destruct (Z.ltb_spec n 8).
    - by rewrite Z.testbit_neg_r by lia.
    - rewrite (Z.bits_above_log2 (byteZ b)), andb_false_r; [reflexivity|lia|].
      destruct (decide (byteZ b = 0)) as [->|]; [cbn; lia|]. apply Z.log2_lt_pow2; [lia|].
      pose proof (Z.pow_le_mono_r 2 8 n ltac:(lia) ltac:(lia)). lia. }
  pose proof (Z.add_lor_land (Z.shiftl r 8) (byteZ b)) as H. rewrite H0, Z.shiftl_mul_pow2 in * by lia. lia.
Qed.

Lemma accumulate_snoc wrap l b :
  accumulate wrap (l ++ [b]) = wrap (accumulate wrap l * 256 + byteZ b).
Proof. unfold accumulate. rewrite fold_left_app. cbn. by rewrite lor_byte. Qed.

(** No wrap-around while every intermediate value is in range. *)
Lemma accumulate_value wrap l :
  (forall z, 0 <= z <= be_to_Z l -> wrap z = z) -> accumulate wrap l = be_to_Z l.
Proof.
  induction l as [|b l IH] using rev_ind; intros Hw; [reflexivity|].
  rewrite accumulate_snoc, be_to_Z_snoc in *. pose proof (byteZ_range b). pose proof (be_to_Z_nonneg l).
  rewrite IH by (intros z Hz; apply Hw; lia). apply Hw. lia.
Qed.

Lemma i64_cong x y : x mod two64 = y mod two64 -> i64 x = i64 y.
Proof. intros H. unfold i64. by rewrite H. Qed.

Lemma i64_mod x : i64 x mod two64 = x mod two64.
Proof.
  unfold i64. assert (0 < two64) by reflexivity. cbv zeta. destruct (_ <? _).
  - apply Z.mod_mod. lia.
  - rewrite <- (Z.mod_add (_ - two64) 1) by lia. rewrite Z.mul_1_l, Z.sub_add. apply Z.mod_mod. lia.
Qed.

Lemma accumulate_i64 l : accumulate i64 l = i64 (be_to_Z l).
Proof.
  induction l as [|b l IH] using rev_ind; [reflexivity|].
  rewrite accumulate_snoc, be_to_Z_snoc, IH. apply i64_cong.
  rewrite <- Z.add_mod_idemp_l, <- Z.mul_mod_idemp_l, i64_mod by (unfold two64; lia).
  by rewrite Z.mul_mod_idemp_l, Z.add_mod_idemp_l by (unfold two64; lia).
Qed.

Lemma i64_neg z : 9223372036854775808 <= z < two64 -> i64 z = z - two64.
Proof.
  intros H. unfold i64. rewrite Z.mod_small by lia. destruct (Z.ltb_spec z 9223372036854775808); lia.
Qed.

(** ** The window of an element *)

(** [payload[lo:hi]]. *)
Definition window (payload : bytes) (lo hi : Z) : bytes :=
  take (Z.to_nat (hi - lo)) (drop (Z.to_nat lo) payload).

Lemma window_split (payload : bytes) pos :
  0 <= pos < zlen payload -> exists first rest, drop (Z.to_nat pos) payload = first :: rest /\
    go_index payload pos = Val first /\ zlen rest = zlen payload - pos - 1 /\
    (forall k, 0 <= k -> drop (Z.to_nat (pos + 1 + k)) payload = drop (Z.to_nat k) rest).
Proof.
  intros H. destruct (go_index_val payload pos H) as (first & E & L).
  assert (Hl : (Z.to_nat pos < length payload)%nat) by (unfold zlen in H; lia).
  exists first, (drop (S (Z.to_nat pos)) payload). split; [by apply drop_S|]. split; [exact E|].
  split; [unfold zlen in *; rewrite length_drop; lia|].
  intros k Hk. rewrite drop_drop. f_equal. lia.
Qed.

Lemma BeInt_spec payload pos n :
  0 <= pos -> 0 < n ->
  exists v err, BeInt payload pos n = Val (v, err) /\
    (err = None -> pos + n < zlen payload /\ v = i64 (be_to_Z (window payload pos (pos + n))) /\
       exists b l, window payload pos (pos + n) = b :: l /\ byteZ b <> 0) /\
    (pos + n < zlen payload -> forall b l, window payload pos (pos + n) = b :: l -> byteZ b <> 0 -> err = None).
Proof.
  intros Hp Hn. unfold BeInt. destruct (Z.leb_spec (zlen payload) (pos + n)).
  { eexists _, _. split; [reflexivity|]. split; [discriminate|lia]. }
  destruct (Z.ltb_spec 0 n); [|lia].
  destruct (window_split payload pos ltac:(lia)) as (b & l & Hd & Hi & Hl & _). rewrite Hi. cbn.
  assert (Hw : window payload pos (pos + n) = b :: take (Z.to_nat (n - 1)) l).
  { unfold window. rewrite Hd. replace (Z.to_nat (pos + n - pos)) with (S (Z.to_nat (n - 1))) by lia. reflexivity. }
  rewrite go_slice_val by lia. fold (window payload pos (pos + n)). cbn.
  destruct (Z.eqb_spec (byteZ b) 0) as [Hb|Hb].
  - eexists _, _. split; [reflexivity|]. split; [discriminate|]. rewrite Hw. intros _ b' l' [= <- <-] ?. contradiction.
  - eexists _, _. split; [reflexivity|]. rewrite accumulate_i64. split; [|done].
    intros _. split; [assumption|]. split; [reflexivity|]. rewrite Hw. eauto.
Qed.

(** The final test of [Prefix]. *)
Definition end_error (payload : bytes) (dataPos dataLen : Z) : option Error :=
  if zlen payload <? i64 (dataPos + dataLen) then errEnd
  else if i64 (dataPos + dataLen) <? 0 then perr "found too big len" else None.

Lemma end_error_spec payload dp dl :
  go_len payload -> 0 <= dp <= zlen payload + 9 -> 0 <= dl < 9223372036854775808 ->
  end_error payload dp dl = None <-> dp + dl <= zlen payload.
Proof.
  unfold go_len, end_error. intros Hg Hdp Hdl. destruct (Z.ltb_spec (dp + dl) 9223372036854775808).
  - rewrite i64_id by lia. destruct (Z.ltb_spec (zlen payload) (dp + dl)); [split; [discriminate|lia]|].
    destruct (Z.ltb_spec (dp + dl) 0); [lia|split; [lia|reflexivity]].
  - rewrite i64_neg by (unfold two64; lia). unfold two64. pose proof (zlen_nonneg payload).
    destruct (Z.ltb_spec (zlen payload) (dp + dl - 18446744073709551616)); [split; [discriminate|lia]|].
    destruct (Z.ltb_spec (dp + dl - 18446744073709551616) 0); [split; [discriminate|lia]|lia].
Qed.

Lemma Zbyte_first first z : z = byteZ first -> Zbyte z = first.
Proof. intros ->. apply Zbyte_byteZ. Qed.

Lemma zlen_take (l : bytes) n : 0 <= n <= zlen l -> zlen (take (Z.to_nat n) l) = n.
Proof. intros H. unfold zlen in *. rewrite length_take. lia. Qed.

(** What a parser accepts at [pos]: an element whose data is the window
    [dataPos, dataPos + dataLen). *)
Definition element (payload : bytes) (pos dp dl : Z) (isList : bool) : Prop :=
  0 <= pos <= dp /\ 0 <= dl /\ dp + dl <= zlen payload /\
  if isList then window payload pos dp = rlp_list_header dl
  else window payload pos (dp + dl) = rlp_string (window payload dp (dp + dl)).

(** The byte at [pos] and what follows it. *)
Section AtPos.
Context (payload : bytes) (pos : Z) (first : byte) (rest : bytes).
Context (Hg : go_len payload) (Hp : 0 <= pos < zlen payload).
Context (Hd : drop (Z.to_nat pos) payload = first :: rest) (Hl : zlen rest = zlen payload - pos - 1).
Context (Hk : forall k, 0 <= k -> drop (Z.to_nat (pos + 1 + k)) payload = drop (Z.to_nat k) rest).

Lemma rest_at : drop (Z.to_nat (pos + 1)) payload = rest.
Proof. specialize (Hk 0 ltac:(lia)). by rewrite Z.add_0_r in Hk. Qed.

Lemma window_from_cons n : 0 <= n -> window payload pos (pos + 1 + n) = first :: take (Z.to_nat n) rest.
Proof.
  intros Hn. unfold window. rewrite Hd.
  replace (Z.to_nat (pos + 1 + n - pos)) with (S (Z.to_nat n)) by lia. reflexivity.
Qed.

Lemma window_rest n v : 0 <= n -> 0 <= v ->
  window payload (pos + 1 + n) (pos + 1 + n + v) = take (Z.to_nat v) (drop (Z.to_nat n) rest).
Proof. intros Hn Hv. unfold window. rewrite Hk by lia. f_equal. lia. Qed.

(** A length of [n] bytes without leading zero, read in a long header. *)
Lemma long_header n :
  0 < n <= 8 -> exists v err, BeInt payload (pos + 1) n = Val (v, err) /\
    (56 <= v -> err = None -> v < 9223372036854775808 /\ take (Z.to_nat n) rest = be v /\
       pos + 1 + n < zlen payload /\ Z.of_nat (byteLen v) = n).
Proof.
  intros Hn. destruct (BeInt_spec payload (pos + 1) n) as (v & err & E & H1 & _); [lia|lia|].
  exists v, err. split; [exact E|]. intros Hv Herr. destruct (H1 Herr) as (Hlt & -> & b & l & Hw & Hb).
  pose proof (window_rest 0 n ltac:(lia) ltac:(lia)) as Hwin. rewrite Z.add_0_r, drop_0 in Hwin.
  rewrite Hwin in *. pose proof (be_to_Z_nonneg (take (Z.to_nat n) rest)) as Hnn.
  pose proof (be_to_Z_bound (take (Z.to_nat n) rest)) as Hb64.
  assert (Hlen : Z.of_nat (length (take (Z.to_nat n) rest)) = n) by (apply zlen_take; lia).
  rewrite Hlen in Hb64. pose proof (Z.pow_le_mono_r 256 n 8 ltac:(lia) ltac:(lia)) as H8.
  change (256 ^ 8) with two64 in H8. set (z := be_to_Z (take (Z.to_nat n) rest)) in *.
  destruct (Z.ltb_spec z 9223372036854775808).
  - rewrite i64_id in * by lia. split; [assumption|].
    assert (Hbe : take (Z.to_nat n) rest = be z) by (unfold z; rewrite Hw; symmetry; by apply be_canonical).
    split; [exact Hbe|]. split; [assumption|]. by rewrite <- length_be, <- Hbe.
  - rewrite i64_neg in Hv by lia. lia.
Qed.

Lemma single_byte : byteZ first < 128 -> element payload pos pos 1 false.
Proof.
  intros Hb. split; [lia|]. split; [lia|]. split; [lia|].
  pose proof (window_from_cons 0 ltac:(lia)) as Hw. rewrite Z.add_0_r, take_0 in Hw.
  rewrite Hw. unfold rlp_string. change (56 <=? zlen [first]) with false. cbv iota.
  destruct (Z.ltb_spec (byteZ first) 128); [reflexivity|lia].
Qed.

(** The test for a single byte that needed no header. *)
Lemma single_check dl :
  exists err, (if (dl =? 1) && (pos + 1 <? zlen payload)
      then b ← go_index payload (pos + 1); mret (if byteZ b <? 128 then errSize else None)
      else mret None) = Val err /\
    (err = None <-> (pos + 1 + dl <= zlen payload -> 0 <= dl ->
       forall b, take (Z.to_nat dl) rest = [b] -> 128 <= byteZ b)).
Proof.
  destruct (Z.eqb_spec dl 1) as [->|D1]; cbn [andb].
  2: { eexists. split; [reflexivity|]. split; [|done]. intros _ Hle H0 b Hb. apply (f_equal zlen) in Hb.
       rewrite zlen_take in Hb by lia. change (zlen [b]) with 1 in Hb. lia. }
  destruct (Z.ltb_spec (pos + 1) (zlen payload)); [|eexists; split; [reflexivity|split; [lia|done]]].
  destruct (window_split payload (pos + 1) ltac:(lia)) as (b & l & Hd1 & Hi1 & _). rewrite Hi1.
  eexists. split; [reflexivity|]. rewrite rest_at in Hd1. rewrite Hd1. split.
  - intros Hb _ _ b' [= <-]. destruct (Z.ltb_spec (byteZ b) 128); [discriminate|assumption].
  - intros Hb. specialize (Hb ltac:(lia) ltac:(lia) b eq_refl). destruct (Z.ltb_spec (byteZ b) 128); [lia|reflexivity].
Qed.

Lemma short_string dl :
  byteZ first = 128 + dl -> 0 <= dl < 56 -> pos + 1 + dl <= zlen payload ->
  (forall b, take (Z.to_nat dl) rest = [b] -> 128 <= byteZ b) -> element payload pos (pos + 1) dl false.
Proof.
  intros Hf Hdl Hle Hb. split; [lia|]. split; [lia|]. split; [lia|].
  rewrite window_from_cons by lia. pose proof (window_rest 0 dl ltac:(lia) ltac:(lia)) as Hw.
  rewrite Z.add_0_r, drop_0 in Hw. rewrite Hw, rlp_string_short; [|rewrite zlen_take by lia; lia|exact Hb]. f_equal.
  symmetry. apply Zbyte_first. rewrite zlen_take by lia. lia.
Qed.

Lemma long_string n v :
  byteZ first = 183 + n -> 0 < n -> 56 <= v -> take (Z.to_nat n) rest = be v -> Z.of_nat (byteLen v) = n ->
  pos + 1 + n + v <= zlen payload -> element payload pos (pos + 1 + n) v false.
Proof.
  intros Hf Hn Hv Hbe Hbl Hle. split; [lia|]. split; [lia|]. split; [lia|].
  rewrite window_rest by lia. replace (pos + 1 + n + v) with (pos + 1 + (n + v)) by lia.
  rewrite window_from_cons by lia.
  assert (Hzl : zlen (take (Z.to_nat v) (drop (Z.to_nat n) rest)) = v).
  { apply zlen_take. unfold zlen in *. rewrite length_drop. lia. }
  unfold rlp_string. rewrite Hzl. destruct (Z.leb_spec 56 v); [|lia]. f_equal.
  - symmetry. apply Zbyte_first. lia.
  - rewrite <- Hbe. rewrite Z2Nat.inj_add by lia. by rewrite take_take_drop.
Qed.

Lemma short_list dl :
  byteZ first = 192 + dl -> 0 <= dl < 56 -> pos + 1 + dl <= zlen payload -> element payload pos (pos + 1) dl true.
Proof.
  intros Hf Hdl Hle. split; [lia|]. split; [lia|]. split; [lia|].
  pose proof (window_from_cons 0 ltac:(lia)) as Hw. rewrite Z.add_0_r, take_0 in Hw. rewrite Hw.
  unfold rlp_list_header. destruct (Z.leb_spec 56 dl); [lia|]. f_equal. symmetry. by apply Zbyte_first.
Qed.

Lemma long_list n v :
  byteZ first = 247 + n -> 0 < n -> 56 <= v -> take (Z.to_nat n) rest = be v -> Z.of_nat (byteLen v) = n ->
  pos + 1 + n + v <= zlen payload -> element payload pos (pos + 1 + n) v true.
Proof.
  intros Hf Hn Hv Hbe Hbl Hle. split; [lia|]. split; [lia|]. split; [lia|].
  rewrite window_from_cons, Hbe by lia. unfold rlp_list_header. destruct (Z.leb_spec 56 v); [|lia]. f_equal.
  symmetry. apply Zbyte_first. lia.
Qed.
End AtPos.

(** [Prefix] returns on every input, and what it accepts is canonical. *)
Lemma Prefix_sound payload pos :
  go_len payload -> exists dp dl isList err, Prefix payload pos = Val (dp, dl, isList, err) /\
    (err = None -> element payload pos dp dl isList).
Proof.
  intros Hg. unfold Prefix. destruct (Z.ltb_spec pos 0) as [|Hp0]; [by eexists _, _, _, _|].
  destruct (Z.leb_spec (zlen payload) pos) as [|Hp1]; [by eexists _, _, _, _|]. assert (Hp : 0 <= pos < zlen payload) by lia.
  destruct (window_split payload pos Hp) as (first & rest & Hd & Hi & Hl & Hk). rewrite Hi.
  cbn [mbind Res_bind]. pose proof (byteZ_range first) as Hf.
  destruct (Z.ltb_spec (byteZ first) 128) as [C1|C1]; cbn [mbind Res_bind mret Res_ret].
  { eexists _, _, _, _. split; [reflexivity|]. intros _. by apply (single_byte payload pos first rest). }
  destruct (Z.ltb_spec (byteZ first) 184) as [C2|C2]; cbn [mbind Res_bind mret Res_ret].
  { destruct (single_check payload pos rest Hp Hl Hk (byteZ first - 128)) as (err & -> & Herr).
    eexists _, _, _, _. split; [reflexivity|]. destruct err as [e|]; [discriminate|].
    fold (end_error payload (pos + 1) (byteZ first - 128)). rewrite end_error_spec by (assumption || lia). intros Hle.
    apply (short_string payload pos first rest); try assumption; try lia. apply Herr; [reflexivity|assumption|lia]. }
  destruct (Z.ltb_spec (byteZ first) 192) as [C3|C3]; cbn [mbind Res_bind mret Res_ret].
  { destruct (long_header payload pos rest Hp Hl Hk (byteZ first - 183)) as (v & err & -> & Hv); [lia|].
    cbn [mbind Res_bind mret Res_ret]. eexists _, _, _, _. split; [reflexivity|].
    destruct (Z.ltb_spec v 56) as [|Hbig]; [discriminate|]. destruct err as [e|]; [discriminate|].
    destruct (Hv Hbig eq_refl) as (Hv63 & Hbe & Hlt & Hbl). fold (end_error payload (pos + 1 + (byteZ first - 183)) v).
    rewrite end_error_spec by (assumption || lia). intros Hle.
    apply (long_string payload pos first rest); assumption || lia. }
  destruct (Z.ltb_spec (byteZ first) 248) as [C4|C4]; cbn [mbind Res_bind mret Res_ret].
  { eexists _, _, _, _. split; [reflexivity|].
    fold (end_error payload (pos + 1) (byteZ first - 192)). rewrite end_error_spec by (assumption || lia). intros Hle.
    apply (short_list payload pos first rest); assumption || lia. }
  destruct (long_header payload pos rest Hp Hl Hk (byteZ first - 247)) as (v & err & -> & Hv); [lia|].
  cbn [mbind Res_bind mret Res_ret]. eexists _, _, _, _. split; [reflexivity|].
  destruct (Z.ltb_spec v 56) as [|Hbig]; [discriminate|]. destruct err as [e|]; [discriminate|].
  destruct (Hv Hbig eq_refl) as (Hv63 & Hbe & Hlt & Hbl). fold (end_error payload (pos + 1 + (byteZ first - 247)) v).
  rewrite end_error_spec by (assumption || lia). intros Hle.
  apply (long_list payload pos first rest); assumption || lia.
Qed.

(** ** Reading a reference encoding back *)

Lemma drop_pre (pre l : bytes) : drop (Z.to_nat (zlen pre)) (pre ++ l) = l.
Proof. unfold zlen. rewrite Nat2Z.id. apply drop_app_length. Qed.

Lemma index_pre (pre l : bytes) b : go_index (pre ++ b :: l) (zlen pre) = Val b.
Proof.
  pose proof (zlen_nonneg pre). pose proof (zlen_nonneg l).
  destruct (go_index_val (pre ++ b :: l) (zlen pre)) as (x & -> & Hx); [rewrite zlen_app, zlen_cons; lia|].
  unfold zlen in Hx. rewrite Nat2Z.id, list_lookup_middle in Hx by reflexivity. congruence.
Qed.

Lemma window_pre (pre l post : bytes) k :
  0 <= k -> window (pre ++ l ++ post) (zlen pre + k) (zlen pre + zlen l) = drop (Z.to_nat k) l.
Proof.
  intros Hk. pose proof (zlen_nonneg pre). unfold window. unfold zlen at 2.
  rewrite drop_app_ge by (unfold zlen; lia). unfold zlen.
  replace (Z.to_nat (Z.of_nat (length pre) + k) - length pre)%nat with (Z.to_nat k) by lia.
  destruct (decide (Z.to_nat k <= length l)%nat).
  - rewrite drop_app_le by assumption. rewrite take_app_le by (rewrite length_drop; lia).
    apply take_ge. rewrite length_drop. lia.
  - rewrite (drop_ge l) by lia. replace (Z.to_nat _) with 0%nat by lia. reflexivity.
Qed.

(** A canonical length, read back. *)
Lemma BeInt_be pre v tail :
  0 < v < 9223372036854775808 -> 0 < zlen tail ->
  BeInt (pre ++ be v ++ tail) (zlen pre) (Z.of_nat (byteLen v)) = Val (v, None).
Proof.
  intros Hv Ht. destruct (byteLen_bounds v) as [Hn _]; [lia|].
  destruct (BeInt_spec (pre ++ be v ++ tail) (zlen pre) (Z.of_nat (byteLen v))) as (w & err & -> & H1 & H2);
    [apply zlen_nonneg|lia|].
  pose proof (window_pre pre (be v) tail 0 ltac:(lia)) as Hw.
  rewrite Z.add_0_r, drop_0, zlen_be in Hw. rewrite Hw in *.
  destruct (be_head v) as (b & l & Hb & Hb0); [lia|].
  assert (Herr : err = None) by (apply (H2 ltac:(rewrite !zlen_app, zlen_be; lia) b l); assumption).
  destruct (H1 Herr) as (_ & -> & _). by rewrite be_value, i64_id, Herr by lia.
Qed.

Lemma byteZ_head z : 0 <= z < 256 -> byteZ (Zbyte z) = z.
Proof. intros H. rewrite byteZ_Zbyte. by apply Z.mod_small. Qed.

(** [Prefix] at a byte: the case analysis on the first byte is all that is left. *)
Lemma Prefix_at pre first rest :
  Prefix (pre ++ first :: rest) (zlen pre) =
    ('(dataPos, dataLen, isList, err) ←
      (if byteZ first <? 128 then mret (zlen pre, 1, false, None)
       else if byteZ first <? 184 then
         err ← (if (byteZ first - 128 =? 1) && (zlen pre + 1 <? zlen (pre ++ first :: rest))
                then b ← go_index (pre ++ first :: rest) (zlen pre + 1); mret (if byteZ b <? 128 then errSize else None)
                else mret None);
         mret (zlen pre + 1, byteZ first - 128, false, err)
       else if byteZ first <? 192 then
         '(dataLen, err) ← BeInt (pre ++ first :: rest) (zlen pre + 1) (byteZ first - 183);
         mret (zlen pre + 1 + (byteZ first - 183), dataLen, false, if dataLen <? 56 then errSize else err)
       else if byteZ first <? 248 then mret (zlen pre + 1, byteZ first - 192, true, None)
       else
         '(dataLen, err) ← BeInt (pre ++ first :: rest) (zlen pre + 1) (byteZ first - 247);
         mret (zlen pre + 1 + (byteZ first - 247), dataLen, true, if dataLen <? 56 then errSize else err));
     mret (dataPos, dataLen, isList,
       match err with Some e => Some e | None => end_error (pre ++ first :: rest) dataPos dataLen end)).
Proof.
  unfold Prefix. pose proof (zlen_nonneg pre). pose proof (zlen_nonneg rest).
  destruct (Z.ltb_spec (zlen pre) 0); [lia|].
  destruct (Z.leb_spec (zlen (pre ++ first :: rest)) (zlen pre)) as [Hle|]; [rewrite zlen_app, zlen_cons in Hle; lia|].
  rewrite index_pre. reflexivity.
Qed.

(** The long forms, for a base of 183 (strings) or 247 (lists). *)
Lemma BeInt_at pre first v tail :
  56 <= v < 9223372036854775808 -> 0 < zlen tail ->
  BeInt (pre ++ first :: be v ++ tail) (zlen pre + 1) (Z.of_nat (byteLen v)) = Val (v, None).
Proof.
  intros Hv Ht. replace (pre ++ first :: be v ++ tail) with ((pre ++ [first]) ++ be v ++ tail)
    by (by rewrite <- app_assoc).
  replace (zlen pre + 1) with (zlen (pre ++ [first])) by (rewrite zlen_app; zl). apply BeInt_be; lia.
Qed.

Lemma Prefix_list pre v tail :
  0 <= v <= zlen tail -> go_len (pre ++ rlp_list_header v ++ tail) ->
  Prefix (pre ++ rlp_list_header v ++ tail) (zlen pre) =
    Val (zlen pre + zlen (rlp_list_header v), v, true, None).
Proof.
  intros Hv Hg. pose proof Hg as Hlen. unfold go_len in Hlen. rewrite !zlen_app in Hlen.
  pose proof (zlen_nonneg pre). unfold rlp_list_header in *. destruct (Z.leb_spec 56 v) as [Hbig|Hsmall]; cbn [app] in *.
  - rewrite zlen_cons, zlen_be in *. pose proof (byteLen_64 v ltac:(unfold two64; lia)) as Hbl.
    rewrite Prefix_at, byteZ_head by lia. zbool; try lia.
    replace (247 + Z.of_nat (byteLen v) - 247) with (Z.of_nat (byteLen v)) by lia.
    rewrite BeInt_at by lia. cbn [mbind Res_bind mret Res_ret]. destruct (Z.ltb_spec v 56); [lia|].
    rewrite (proj2 (end_error_spec _ (zlen pre + 1 + Z.of_nat (byteLen v)) v Hg ltac:(rewrite zlen_app, zlen_cons, zlen_app, zlen_be; lia) ltac:(lia)))
      by (rewrite zlen_app, zlen_cons, zlen_app, zlen_be; lia).
    by rewrite Z.add_assoc.
  - change (zlen [_]) with 1 in *. rewrite Prefix_at, byteZ_head by lia. zbool; try lia.
    cbn [mbind Res_bind mret Res_ret]. replace (192 + v - 192) with v by lia.
    rewrite (proj2 (end_error_spec _ (zlen pre + 1) v Hg ltac:(rewrite zlen_app, zlen_cons; lia) ltac:(lia)))
      by (rewrite zlen_app, zlen_cons; lia). reflexivity.
Qed.

Lemma Prefix_string pre s post :
  go_len (pre ++ rlp_string s ++ post) ->
  Prefix (pre ++ rlp_string s ++ post) (zlen pre) =
    Val (zlen pre + (zlen (rlp_string s) - zlen s), zlen s, false, None).
Proof.
  intros Hg. pose proof Hg as Hlen. unfold go_len in Hlen. rewrite !zlen_app in Hlen.
  pose proof (zlen_nonneg pre). pose proof (zlen_nonneg s). pose proof (zlen_nonneg post).
  destruct (Z.leb_spec 56 (zlen s)) as [Hbig|Hsmall].
  { unfold rlp_string in *. destruct (Z.leb_spec 56 (zlen s)); [|lia]. cbn [app] in *. rewrite <- app_assoc in *.
    rewrite zlen_cons, zlen_app, zlen_be in *. pose proof (byteLen_64 (zlen s) ltac:(unfold two64; lia)) as Hbl.
    rewrite Prefix_at, byteZ_head by lia. zbool; try lia.
    replace (183 + Z.of_nat (byteLen (zlen s)) - 183) with (Z.of_nat (byteLen (zlen s))) by lia.
    rewrite BeInt_at by (rewrite ?zlen_app; lia). cbn [mbind Res_bind mret Res_ret]. destruct (Z.ltb_spec (zlen s) 56); [lia|].
    rewrite (proj2 (end_error_spec _ (zlen pre + 1 + Z.of_nat (byteLen (zlen s))) (zlen s) Hg ltac:(rewrite zlen_app, zlen_cons, !zlen_app, zlen_be; lia) ltac:(lia)))
      by (rewrite zlen_app, zlen_cons, !zlen_app, zlen_be; lia).
    do 4 f_equal. lia. }
  assert (Hs : (exists b, s = [b] /\ byteZ b < 128) \/ rlp_string s = Zbyte (128 + zlen s) :: s /\
    forall b, s = [b] -> 128 <= byteZ b).
  { assert (Hlong : (forall b, s <> [b]) -> rlp_string s = Zbyte (128 + zlen s) :: s /\ forall b, s = [b] -> 128 <= byteZ b).
    { intros Hne. split; [apply rlp_string_short; [assumption|]|]; intros b Hb; by apply Hne in Hb. }
    destruct s as [|b [|c s']]; [right; by apply Hlong| |right; by apply Hlong].
    destruct (Z.ltb_spec (byteZ b) 128) as [Hb|Hb]; [left; eauto|right].
    assert (Hb' : forall b', [b] = [b'] -> 128 <= byteZ b') by (intros b' [= <-]; assumption).
    by rewrite rlp_string_short. }
  destruct Hs as [(b & -> & Hb)|[Hs Hb]].
  - assert (Hr : rlp_string [b] = [b]).
    { unfold rlp_string. change (56 <=? zlen [b]) with false. cbv iota. destruct (Z.ltb_spec (byteZ b) 128); [reflexivity|lia]. }
    rewrite Hr in *. cbn [app] in *. rewrite Prefix_at. destruct (Z.ltb_spec (byteZ b) 128); [|lia].
    cbn [mbind Res_bind mret Res_ret]. change (zlen [b]) with 1 in *.
    rewrite (proj2 (end_error_spec _ (zlen pre) 1 Hg ltac:(rewrite zlen_app, zlen_cons; lia) ltac:(lia)))
      by (rewrite zlen_app, zlen_cons; lia). by rewrite Z.add_0_r.
  - rewrite Hs in *. rewrite zlen_cons in *. cbn [app] in *. rewrite Prefix_at, byteZ_head by lia.
    destruct (Z.ltb_spec (128 + zlen s) 128); [lia|]. destruct (Z.ltb_spec (128 + zlen s) 184); [|lia].
    replace (128 + zlen s - 128) with (zlen s) by lia.
    destruct (window_split (pre ++ Zbyte (128 + zlen s) :: s ++ post) (zlen pre)) as (first & rest & Hd & _ & Hl & Hk);
      [rewrite zlen_app, zlen_cons, zlen_app; lia|]. rewrite drop_pre in Hd. injection Hd as <- <-.
    destruct (single_check (pre ++ Zbyte (128 + zlen s) :: s ++ post) (zlen pre) (s ++ post)) with (dl := zlen s)
      as (err & -> & Herr); [rewrite zlen_app, zlen_cons, zlen_app; lia|exact Hl|exact Hk|]. cbn [mbind Res_bind mret Res_ret].
    assert (err = None) as ->.
    { apply Herr. intros _ _ b. unfold zlen. rewrite Nat2Z.id, take_app_length. apply Hb. }
    rewrite (proj2 (end_error_spec _ (zlen pre + 1) (zlen s) Hg ltac:(rewrite zlen_app, zlen_cons, zlen_app; lia) ltac:(lia)))
      by (rewrite zlen_app, zlen_cons, zlen_app; lia). do 4 f_equal. lia.
Qed.

Lemma rlp_string_data s : drop (Z.to_nat (zlen (rlp_string s) - zlen s)) (rlp_string s) = s.
Proof.
  pose proof (zlen_nonneg s). unfold rlp_string. destruct (Z.leb_spec 56 (zlen s)).
  - rewrite zlen_cons, zlen_app, zlen_be.
    replace (Z.to_nat _) with (S (length (be (zlen s)))) by (rewrite length_be; lia). cbn [drop]. apply drop_app_length.
  - assert (Hcons : forall b, drop (Z.to_nat (zlen (b :: s) - zlen s)) (b :: s) = s).
    { intros b. rewrite zlen_cons. replace (Z.to_nat _) with 1%nat by lia. reflexivity. }
    destruct s as [|b [|c s']]; [apply Hcons| |apply Hcons].
    destruct (byteZ b <? 128); [reflexivity|apply Hcons].
Qed.

Lemma rlp_string_ge s : zlen s <= zlen (rlp_string s).
Proof. rewrite <- (rlp_string_data s) at 1. unfold zlen. rewrite length_drop. lia. Qed.

Lemma window_string pre s post :
  window (pre ++ rlp_string s ++ post) (zlen pre + (zlen (rlp_string s) - zlen s))
    (zlen pre + (zlen (rlp_string s) - zlen s) + zlen s) = s.
Proof.
  rewrite <- (rlp_string_data s) at 7. rewrite <- (window_pre pre (rlp_string s) post).
  - f_equal. lia.
  - pose proof (rlp_string_ge s). lia.
Qed.

Lemma ParseString_string pre s post :
  go_len (pre ++ rlp_string s ++ post) ->
  ParseString (pre ++ rlp_string s ++ post) (zlen pre) =
    Val (zlen pre + (zlen (rlp_string s) - zlen s), zlen s, None).
Proof. intros Hg. unfold ParseString. by rewrite Prefix_string. Qed.

Lemma ParseList_list pre v tail :
  0 <= v <= zlen tail -> go_len (pre ++ rlp_list_header v ++ tail) ->
  ParseList (pre ++ rlp_list_header v ++ tail) (zlen pre) = Val (zlen pre + zlen (rlp_list_header v), v, None).
Proof. intros Hv Hg. unfold ParseList. by rewrite Prefix_list. Qed.

Lemma parse_uint_value size wrap pre i post :
  0 <= i -> Z.of_nat (byteLen i) <= size -> (forall z, 0 <= z <= i -> wrap z = z) ->
  go_len (pre ++ rlp_uint i ++ post) ->
  parse_uint size wrap (pre ++ rlp_uint i ++ post) (zlen pre) = Val (zlen pre + zlen (rlp_uint i), i, None).
Proof.
  intros Hi Hs Hw Hg. unfold parse_uint, rlp_uint in *. rewrite Prefix_string by assumption.
  cbn [mbind Res_bind]. rewrite zlen_be. destruct (Z.ltb_spec size (Z.of_nat (byteLen i))); [lia|].
  pose proof (window_string pre (be i) post) as Hwin. rewrite zlen_be in Hwin.
  set (dp := zlen pre + _) in *. set (payload := pre ++ _) in *.
  assert (Hdp : 0 <= dp /\ dp + Z.of_nat (byteLen i) <= zlen payload).
  { pose proof (rlp_string_ge (be i)) as Hb. rewrite zlen_be in Hb. pose proof (zlen_nonneg pre).
    pose proof (zlen_nonneg post). unfold dp, payload. rewrite !zlen_app. lia. }
  destruct Hdp as [Hdp0 Hdp1].
  assert (Hz : (if 0 <? Z.of_nat (byteLen i) then b ← go_index payload dp; mret (byteZ b =? 0) else mret false)
    = Val false).
  { destruct (Z.ltb_spec 0 (Z.of_nat (byteLen i))) as [Hn|]; [|reflexivity].
    destruct (window_split payload dp ltac:(lia)) as (b & l & Hd & -> & _ & _).
    destruct (decide (i = 0)) as [->|]; [change (byteLen 0) with 0%nat in Hn; lia|].
    destruct (be_head i) as (b' & l' & Hb & Hb0); [lia|]. unfold window in Hwin. rewrite Hd, Hb in Hwin.
    replace (Z.to_nat (dp + Z.of_nat (byteLen i) - dp)) with (S (byteLen i - 1)) in Hwin by lia.
    injection Hwin as <- _. cbn [mbind Res_bind]. by destruct (Z.eqb_spec (byteZ b) 0). }
  rewrite Hz. cbn [mbind Res_bind]. rewrite go_slice_val by lia.
  change (take (Z.to_nat (dp + Z.of_nat (byteLen i) - dp)) (drop (Z.to_nat dp) payload))
    with (window payload dp (dp + Z.of_nat (byteLen i))).
  rewrite Hwin. cbn [mbind Res_bind mret Res_ret].
  rewrite accumulate_value by (rewrite be_value by assumption; exact Hw). rewrite be_value by assumption.
  do 3 f_equal. unfold dp. lia.
Qed.

(** ** Loops *)

Lemma parse_sizes_value sizes : forall pre post,
  Forall (fun i => 0 <= i < 2 ^ 32) sizes -> go_len (pre ++ rlp_sizes sizes ++ post) ->
  parse_sizes (length sizes) (pre ++ rlp_sizes sizes ++ post) (zlen pre) =
    Val (zlen pre + zlen (rlp_sizes sizes), sizes, None).
Proof.
  induction sizes as [|i sizes IH]; intros pre post Hs Hg.
  - cbn [parse_sizes length]. do 3 f_equal. change (zlen (rlp_sizes [])) with 0. lia.
  - apply Forall_cons in Hs as [Hi Hs]. change (rlp_sizes (i :: sizes)) with (rlp_uint i ++ rlp_sizes sizes) in *.
    rewrite <- app_assoc in *. cbn [parse_sizes length]. unfold ParseU32.
    rewrite parse_uint_value; [|lia| |intros z Hz; unfold u32; apply Z.mod_small; lia|assumption].
    2: { pose proof (byteLen_le i 4) as Hb. cbn in Hb. lia. }
    cbn [mbind Res_bind]. rewrite <- zlen_app.
    rewrite app_assoc in *. rewrite IH by assumption. cbn [mbind Res_bind mret Res_ret].
    do 3 f_equal. rewrite !zlen_app. lia.
Qed.

(** One hash, copied to the front of a buffer that has room for it. *)
Lemma ParseHash_value pre h post buf :
  32 <= zlen h -> 32 <= zlen buf -> go_len (pre ++ rlp_string (take 32 h) ++ post) ->
  ParseHash (pre ++ rlp_string (take 32 h) ++ post) (zlen pre) buf =
    Val (splice buf 0 (take 32 h), zlen pre + 33, None).
Proof.
  intros Hh Hb Hg. pose proof (zlen_rlp_hash h Hh) as Hz.
  assert (Ht : zlen (take 32 h) = 32) by (unfold zlen in *; rewrite length_take; lia).
  pose proof (window_string pre (take 32 h) post) as Hw. rewrite Hz, Ht in Hw.
  unfold ParseHash, StringOfLen. rewrite ParseString_string by assumption. cbn [mbind Res_bind].
  rewrite Hz, Ht. cbn [Z.eqb Pos.eqb negb mbind Res_bind mret Res_ret].
  pose proof (zlen_nonneg pre). pose proof (zlen_nonneg post).
  rewrite go_slice_val by (rewrite ?zlen_app; lia). fold (window (pre ++ rlp_string (take 32 h) ++ post)
    (zlen pre + (33 - 32)) (zlen pre + (33 - 32) + 32)). rewrite Hw. cbn [mbind Res_bind mret Res_ret].
  rewrite (take_ge (take 32 h)) by (unfold zlen in *; lia). do 3 f_equal. lia.
Qed.

Lemma parse_hashes_value n : forall hashes k buf pre post,
  zlen hashes = 32 * (Z.of_nat k + Z.of_nat n) -> zlen buf = zlen hashes ->
  take (32 * k) buf = take (32 * k) hashes ->
  go_len (pre ++ rlp_hashes n (drop (32 * k) hashes) ++ post) ->
  parse_hashes n (pre ++ rlp_hashes n (drop (32 * k) hashes) ++ post) (zlen pre) buf (32 * Z.of_nat k) =
    Val (zlen pre + 33 * Z.of_nat n, hashes, None).
Proof.
  induction n as [|n IH]; intros hashes k buf pre post Hl Hb Ht Hg.
  - cbn [parse_hashes]. do 3 f_equal; [lia|]. rewrite !take_ge in Ht by (unfold zlen in *; lia). by rewrite Ht.
  - cbn [parse_hashes rlp_hashes] in *. set (h := drop (32 * k) hashes) in *. rewrite <- app_assoc in *.
    assert (Hh : zlen h = 32 * Z.of_nat (S n)) by (unfold h, zlen in *; rewrite length_drop; lia).
    rewrite go_slice_val by lia. replace (Z.to_nat (32 * Z.of_nat k)) with (32 * k)%nat by lia.
    rewrite (take_ge (drop _ buf)) by (rewrite length_drop; unfold zlen in *; lia). cbn [mbind Res_bind].
    rewrite ParseHash_value by (assumption || (unfold zlen in *; rewrite ?length_drop; lia)). cbn [mbind Res_bind].
    rewrite app_assoc. replace (zlen pre + 33) with (zlen (pre ++ rlp_string (take 32 h)))
      by (rewrite zlen_app, zlen_rlp_hash by lia; lia).
    replace (drop 32 h) with (drop (32 * S k) hashes) in * by (unfold h; rewrite drop_drop; f_equal; lia).
    replace (32 * Z.of_nat k + 32) with (32 * Z.of_nat (S k)) by lia.
    rewrite IH; [do 3 f_equal; rewrite zlen_app, zlen_rlp_hash by lia; lia|lia| | |by rewrite <- app_assoc].
    + rewrite zlen_app, zlen_splice by (unfold zlen in *; rewrite ?length_take, ?length_drop; lia).
      unfold zlen in *. rewrite length_take, length_drop. lia.
    + assert (Hc : (32 * S k = 32 * k + 32)%nat) by lia. rewrite Hc.
      rewrite <- (take_take_drop hashes (32 * k) 32). fold h. rewrite Ht.
      assert (Hlk : length (take (32 * k) hashes) = (32 * k)%nat) by (rewrite length_take; unfold zlen in *; lia).
      rewrite <- Hlk at 1. rewrite take_app_add. f_equal.
      assert (H32 : length (take 32 h) = 32%nat) by (rewrite length_take; unfold zlen in *; lia).
      rewrite <- H32 at 1. apply take_front.
Qed.

(** ** Round trips *)

(** C32 What the RLP encoders write, the parsers read back, wherever it stands in the
    payload and whatever the buffer held: strings of any length and 64- and 32-bit
    integers, using exactly the announced number of bytes. *)
Theorem Encode_roundtrip pre post :
  (forall s to, StringLen s <= zlen to -> go_len (pre ++ to ++ post) ->
     exists to' dp, EncodeString2 s to = Val (StringLen s, to') /\ zlen to' = zlen to /\
       ParseString (pre ++ to' ++ post) (zlen pre) = Val (dp, zlen s, None) /\
       dp + zlen s = zlen pre + StringLen s /\ window (pre ++ to' ++ post) dp (dp + zlen s) = s) /\
  (forall i to, is_u64 i -> U64Len i <= zlen to -> go_len (pre ++ to ++ post) ->
     exists to', EncodeU64 i to = Val (U64Len i, to') /\ zlen to' = zlen to /\
       ParseU64 (pre ++ to' ++ post) (zlen pre) = Val (zlen pre + U64Len i, i, None)) /\
  (forall i to, 0 <= i < 2 ^ 32 -> U32Len i <= zlen to -> go_len (pre ++ to ++ post) ->
     exists to', EncodeU32 i to = Val (U32Len i, to') /\ zlen to' = zlen to /\
       ParseU32 (pre ++ to' ++ post) (zlen pre) = Val (zlen pre + U32Len i, i, None)).
Proof.
  assert (Hg' : forall (to to' : bytes) out, zlen to' = zlen to -> take (length out) to' = out ->
    go_len (pre ++ to ++ post) -> exists tail, to' = out ++ tail /\ go_len (pre ++ out ++ tail ++ post)).
  { intros to to' out Hl Ht Hg. exists (drop (length out) to'). rewrite <- Ht at 1. rewrite take_drop.
    split; [reflexivity|]. unfold go_len in *. rewrite app_assoc with (l := out). rewrite <- Ht at 1.
    rewrite take_drop, !zlen_app in *. lia. }
  split; [|split].
  - intros s to Hl Hg. rewrite StringLen_exact in *.
    assert (Hs : zlen s < two64 / 2).
    { change (two64 / 2) with 9223372036854775808. pose proof (rlp_string_ge s). unfold go_len in Hg.
      rewrite !zlen_app in Hg. pose proof (zlen_nonneg pre). pose proof (zlen_nonneg post). lia. }
    destruct (EncodeString2_writes s Hs to Hl) as (to' & E & Hl' & Ht).
    destruct (Hg' to to' _ Hl' Ht Hg) as (tail & -> & Hg2).
    exists (rlp_string s ++ tail), (zlen pre + (zlen (rlp_string s) - zlen s)). rewrite <- app_assoc.
    rewrite ParseString_string, window_string by assumption. repeat (split; [done|]). split; [lia|reflexivity].
  - intros i to Hi Hl Hg. unfold U64Len in *. rewrite uint_len_exact in * by assumption.
    destruct (encode_uint_writes be_switch64 i Hi) with (to := to) as (to' & E & Hl' & Ht);
      [intros; apply be_switch64_be; unfold is_u64 in Hi; lia|exact Hl|].
    destruct (Hg' to to' _ Hl' Ht Hg) as (tail & -> & Hg2). exists (rlp_uint i ++ tail). rewrite <- app_assoc.
    split; [exact E|]. split; [exact Hl'|]. unfold is_u64 in Hi.
    apply parse_uint_value; [lia| |intros z Hz; apply u64_id; unfold is_u64; lia|assumption].
    pose proof (byteLen_le i 8) as Hb. change (256 ^ Z.of_nat 8) with two64 in Hb. lia.
  - intros i to Hi Hl Hg. unfold U32Len in *. rewrite uint_len_exact in * by (unfold two64; lia).
    destruct (encode_uint_writes be_switch32 i) with (to := to) as (to' & E & Hl' & Ht);
      [unfold two64; lia|intros; apply be_switch32_be; lia|exact Hl|].
    destruct (Hg' to to' _ Hl' Ht Hg) as (tail & -> & Hg2). exists (rlp_uint i ++ tail). rewrite <- app_assoc.
    split; [exact E|]. split; [exact Hl'|].
    apply parse_uint_value; [lia| |intros z Hz; unfold u32; apply Z.mod_small; lia|assumption].
    pose proof (byteLen_le i 4) as Hb. change (256 ^ Z.of_nat 4) with (2 ^ 32) in Hb. lia.
Qed.

(** The parts of an announcement, each behind what precedes it. *)
Section AnnouncementParts.
Context (types : bytes) (sizes : list Z) (hashes pre post : bytes).
Context (H : announcements_ok types sizes hashes).

Let T := rlp_string types.
Let S2 := rlp_sizes sizes.
Let S1 := rlp_list_header (zlen S2).
Let H1 := rlp_list_header (33 * zlen types).
Let H2 := rlp_hashes (length types) hashes.
Let body := T ++ (S1 ++ S2) ++ H1 ++ H2.
Let hd := rlp_list_header (zlen body).
Let p1 := pre ++ hd.
Let p2 := p1 ++ T.
Let p3 := p2 ++ S1.
Let p4 := p3 ++ S2.
Let p5 := p4 ++ H1.
Let payload := pre ++ rlp_announcements types sizes hashes ++ post.
Context (Hg : go_len payload).

Lemma payload1 : payload = pre ++ hd ++ body ++ post.
Proof. unfold payload, rlp_announcements. by rewrite <- app_assoc. Qed.
Lemma payload2 : payload = p1 ++ T ++ (S1 ++ S2) ++ H1 ++ H2 ++ post.
Proof. rewrite payload1. unfold p1, body. by rewrite <- !app_assoc. Qed.
Lemma payload3 : payload = p2 ++ S1 ++ S2 ++ H1 ++ H2 ++ post.
Proof. rewrite payload2. unfold p2. by rewrite <- !app_assoc. Qed.
Lemma payload4 : payload = p3 ++ S2 ++ H1 ++ H2 ++ post.
Proof. rewrite payload3. unfold p3. by rewrite <- !app_assoc. Qed.
Lemma payload5 : payload = p4 ++ H1 ++ H2 ++ post.
Proof. rewrite payload4. unfold p4. by rewrite <- !app_assoc. Qed.
Lemma payload6 : payload = p5 ++ H2 ++ post.
Proof. rewrite payload5. unfold p5. by rewrite <- !app_assoc. Qed.

Lemma payload_len :
  zlen payload = zlen pre + zlen (rlp_announcements types sizes hashes) + zlen post /\
  zlen p1 + zlen body <= zlen payload /\ zlen p3 + zlen S2 <= zlen payload /\
  zlen p5 + 33 * zlen types + zlen post = zlen payload /\ zlen p2 = zlen p1 + zlen T /\ zlen p2 <= zlen payload.
Proof.
  pose proof (ann_hashes_len types sizes hashes H) as Hh. fold H2 in Hh.
  pose proof (zlen_nonneg post). pose proof (zlen_nonneg types). pose proof (zlen_nonneg H1).
  split; [unfold payload; rewrite !zlen_app; lia|].
  split; [rewrite payload1, !zlen_app; unfold p1; rewrite zlen_app; lia|].
  split; [rewrite payload4, !zlen_app; lia|]. split; [rewrite payload6, !zlen_app; lia|].
  split; [unfold p2; by rewrite zlen_app|]. rewrite payload3, !zlen_app.
  pose proof (zlen_nonneg S1). pose proof (zlen_nonneg S2). lia.
Qed.

Lemma parse1 : ParseList payload (zlen pre) = Val (zlen p1, zlen body, None).
Proof.
  unfold p1. rewrite zlen_app. rewrite payload1 in *. apply ParseList_list; [|assumption].
  rewrite zlen_app. pose proof (zlen_nonneg body). pose proof (zlen_nonneg post). lia.
Qed.

Lemma parse2 :
  ParseString payload (zlen p1) = Val (zlen p1 + (zlen T - zlen types), zlen types, None) /\
  go_slice payload (zlen p1 + (zlen T - zlen types)) (zlen p1 + (zlen T - zlen types) + zlen types) = Val types.
Proof.
  pose proof (window_string p1 types ((S1 ++ S2) ++ H1 ++ H2 ++ post)) as Hw.
  pose proof (rlp_string_ge types) as Hge. fold T in Hw, Hge. rewrite <- payload2 in Hw.
  destruct payload_len as (_ & _ & _ & _ & L2 & L3). pose proof (zlen_nonneg types). pose proof (zlen_nonneg p1).
  split; [rewrite payload2 in *; by apply ParseString_string|].
  rewrite go_slice_val by lia. f_equal. exact Hw.
Qed.

Lemma parse3 : ParseList payload (zlen p2) = Val (zlen p3, zlen S2, None).
Proof.
  unfold p3. rewrite zlen_app. rewrite payload3 in *. apply ParseList_list; [|assumption].
  rewrite zlen_app. pose proof (zlen_nonneg S2). pose proof (zlen_nonneg (H1 ++ H2 ++ post)). lia.
Qed.

Lemma parse4 : parse_sizes (length types) payload (zlen p3) = Val (zlen p4, sizes, None).
Proof.
  rewrite <- (an_sizes _ _ _ H). unfold p4. rewrite zlen_app. rewrite payload4 in *.
  apply parse_sizes_value; [apply H|assumption].
Qed.

Lemma parse5 : ParseList payload (zlen p4) = Val (zlen p5, 33 * zlen types, None).
Proof.
  unfold p5. rewrite zlen_app. rewrite payload5 in *. apply ParseList_list; [|assumption].
  rewrite zlen_app. pose proof (ann_hashes_len types sizes hashes H) as Hh. fold H2 in Hh. rewrite Hh.
  pose proof (zlen_nonneg types). pose proof (zlen_nonneg post). lia.
Qed.

Lemma parse6 :
  parse_hashes (length types) payload (zlen p5) (replicate (Z.to_nat (32 * zlen types)) x00) 0 =
    Val (zlen p5 + 33 * zlen types, hashes, None).
Proof.
  rewrite payload6 in *. apply (parse_hashes_value (length types) hashes 0); [| |reflexivity|exact Hg].
  - rewrite (an_hashes _ _ _ H). zl.
  - rewrite zlen_replicate, (an_hashes _ _ _ H). pose proof (zlen_nonneg types). lia.
Qed.

Lemma ParseAnnouncements_value :
  ParseAnnouncements payload (zlen pre) =
    Val (types, sizes, hashes, zlen pre + zlen (rlp_announcements types sizes hashes), None).
Proof.
  destruct payload_len as (L0 & L1 & L3 & L5 & L2 & L2'). pose proof (zlen_nonneg post).
  pose proof (zlen_nonneg types). destruct parse2 as [Q2 W2].
  unfold ParseAnnouncements. rewrite parse1. cbn [mbind Res_bind isSome_err].
  destruct (Z.ltb_spec (zlen payload) (zlen p1 + zlen body)); [lia|].
  rewrite Q2. cbn [mbind Res_bind isSome_err].
  destruct (Z.ltb_spec (zlen payload) (zlen p1 + (zlen T - zlen types) + zlen types)); [lia|].
  rewrite W2. cbn [mbind Res_bind].
  replace (zlen p1 + (zlen T - zlen types) + zlen types) with (zlen p2) by lia.
  rewrite parse3. cbn [mbind Res_bind isSome_err].
  destruct (Z.ltb_spec (zlen payload) (zlen p3 + zlen S2)); [lia|].
  replace (Z.to_nat (zlen types)) with (length types) by zl. rewrite parse4. cbn [mbind Res_bind isSome_err].
  rewrite parse5. cbn [mbind Res_bind isSome_err].
  destruct (Z.ltb_spec (zlen payload) (zlen p5 + 33 * zlen types)); [lia|].
  rewrite (Z.mul_comm 33), Z.div_mul by lia.
  assert (Hit : hash_iterations (32 * zlen types) = length types).
  { rewrite hash_iterations_mul. zl. }
  rewrite Hit, parse6. cbn [mbind Res_bind isSome_err mret Res_ret]. do 3 f_equal. lia.
Qed.
End AnnouncementParts.

(** A transaction announcement survives the wire: [ParseAnnouncements] reads back the
    types, sizes and hashes [EncodeAnnouncements] wrote, which uses exactly
    [AnnouncementsLen] bytes. *)
Theorem EncodeAnnouncements_roundtrip types sizes hashes pre to post :
  announcements_ok types sizes hashes -> AnnouncementsLen types sizes hashes <= zlen to ->
  go_len (pre ++ to ++ post) ->
  exists to', EncodeAnnouncements types sizes hashes to = Val (AnnouncementsLen types sizes hashes, to') /\
    ParseAnnouncements (pre ++ to' ++ post) (zlen pre) =
      Val (types, sizes, hashes, zlen pre + AnnouncementsLen types sizes hashes, None).
Proof.
  intros H Hl Hg. destruct (EncodeAnnouncements_writes types sizes hashes H) as [Hw HL]. rewrite HL in *.
  destruct (Hw to Hl) as (to' & E & Hl' & Ht). exists to'. split; [exact E|].
  assert (Hto : to' = rlp_announcements types sizes hashes ++ drop (length (rlp_announcements types sizes hashes)) to')
    by (rewrite <- Ht at 1; by rewrite take_drop).
  rewrite Hto, <- app_assoc. apply ParseAnnouncements_value; [assumption|].
  unfold go_len in *. rewrite app_assoc with (l := rlp_announcements types sizes hashes), <- Hto, !zlen_app in *. lia.
Qed.

(** ** Every input *)

Lemma ParseString_sound payload pos :
  go_len payload -> exists dp dl err, ParseString payload pos = Val (dp, dl, err) /\
    (err = None -> element payload pos dp dl false).
Proof.
  intros Hg. destruct (Prefix_sound payload pos Hg) as (dp & dl & isList & err & E & He).
  unfold ParseString. rewrite E. cbn [mbind Res_bind]. destruct err as [e|]; [by eexists _, _, _|].
  destruct isList; eexists _, _, _; (split; [reflexivity|]); [discriminate|auto].
Qed.

Lemma ParseList_sound payload pos :
  go_len payload -> exists dp dl err, ParseList payload pos = Val (dp, dl, err) /\
    (err = None -> element payload pos dp dl true).
Proof.
  intros Hg. destruct (Prefix_sound payload pos Hg) as (dp & dl & isList & err & E & He).
  unfold ParseList. rewrite E. cbn [mbind Res_bind]. destruct err as [e|]; [by eexists _, _, _|].
  destruct isList; eexists _, _, _; (split; [reflexivity|]); [auto|discriminate].
Qed.

(** The data of an accepted element, and the test for a leading zero. *)
Lemma zero_check payload dp dl :
  0 <= dp -> 0 <= dl -> dp + dl <= zlen payload ->
  exists zero, (if 0 <? dl then b ← go_index payload dp; mret (byteZ b =? 0) else mret false) = Val zero /\
    go_slice payload dp (dp + dl) = Val (window payload dp (dp + dl)) /\
    (zero = false -> be (be_to_Z (window payload dp (dp + dl))) = window payload dp (dp + dl)) /\
    zlen (window payload dp (dp + dl)) = dl.
Proof.
  intros H1 H2 H3. rewrite go_slice_val by lia. fold (window payload dp (dp + dl)).
  assert (Hz : zlen (window payload dp (dp + dl)) = dl).
  { unfold window. replace (dp + dl - dp) with dl by lia. apply zlen_take. unfold zlen in *. rewrite length_drop. lia. }
  destruct (Z.ltb_spec 0 dl).
  - destruct (window_split payload dp ltac:(lia)) as (b & l & Hd & -> & _). cbn [mbind Res_bind].
    eexists. split; [reflexivity|]. split; [reflexivity|]. split; [|exact Hz]. intros Hb. unfold window. rewrite Hd.
    replace (Z.to_nat (dp + dl - dp)) with (S (Z.to_nat (dl - 1))) by lia. cbn [take]. apply be_canonical.
    by destruct (Z.eqb_spec (byteZ b) 0).
  - eexists. split; [reflexivity|]. split; [reflexivity|]. split; [|exact Hz]. intros _.
    replace dl with 0 by lia. unfold window. rewrite Z.add_0_r, Z.sub_diag. reflexivity.
Qed.

Lemma parse_uint_sound size wrap payload pos :
  go_len payload -> (forall z, 0 <= z < 256 ^ size -> wrap z = z) -> 0 <= size ->
  exists p v err, parse_uint size wrap payload pos = Val (p, v, err) /\
    (err = None -> 0 <= pos <= p /\ p <= zlen payload /\ 0 <= v < 256 ^ size /\ window payload pos p = rlp_uint v).
Proof.
  intros Hg Hw Hs. destruct (Prefix_sound payload pos Hg) as (dp & dl & isList & err & E & He).
  unfold parse_uint. rewrite E. cbn [mbind Res_bind]. destruct err as [e|]; [by eexists _, _, _|].
  destruct isList; [by eexists _, _, _|]. destruct (Z.ltb_spec size dl); [by eexists _, _, _|].
  destruct (He eq_refl) as (Hp & Hdl & Hend & Hwin).
  destruct (zero_check payload dp dl) as (zero & -> & -> & Hbe & Hz); [lia..|]. cbn [mbind Res_bind].
  destruct zero; [by eexists _, _, _|]. eexists _, _, _. split; [reflexivity|]. intros _. specialize (Hbe eq_refl).
  set (s := window payload dp (dp + dl)) in *. pose proof (be_to_Z_nonneg s) as Hnn. pose proof (be_to_Z_bound s) as Hb.
  fold (zlen s) in Hb. rewrite Hz in Hb. pose proof (Z.pow_le_mono_r 256 dl size ltac:(lia) ltac:(lia)).
  rewrite accumulate_value by (intros; apply Hw; lia). unfold rlp_uint. rewrite Hbe.
  split; [lia|]. split; [lia|]. split; [lia|exact Hwin].
Qed.

Lemma ParseHash_total payload pos buf :
  go_len payload -> exists buf' p err, ParseHash payload pos buf = Val (buf', p, err) /\ zlen buf' = zlen buf.
Proof.
  intros Hg. destruct (ParseString_sound payload pos Hg) as (dp & dl & err & E & He).
  unfold ParseHash, StringOfLen. rewrite E. cbn [mbind Res_bind]. destruct err as [e|]; [by eexists _, _, _|].
  destruct (Z.eqb_spec dl 32) as [->|]; cbn [negb mbind Res_bind mret Res_ret]; [|by eexists _, _, _].
  destruct (He eq_refl) as (Hp & _ & Hend & _). rewrite go_slice_val by lia. cbn [mbind Res_bind mret Res_ret].
  eexists _, _, _. split; [reflexivity|]. apply zlen_splice; [lia|]. unfold zlen. rewrite length_take. lia.
Qed.

Lemma parse_sizes_total n : forall payload pos,
  go_len payload -> exists p sizes err, parse_sizes n payload pos = Val (p, sizes, err).
Proof.
  induction n as [|n IH]; intros payload pos Hg; [by eexists _, _, _|]. cbn [parse_sizes].
  destruct (parse_uint_sound 4 u32 payload pos Hg) as (p & v & err & E & _);
    [intros z Hz; unfold u32; by apply Z.mod_small|lia|].
  unfold ParseU32. rewrite E. cbn [mbind Res_bind]. destruct err as [e|]; [by eexists _, _, _|].
  destruct (IH payload p Hg) as (p' & sizes & err & ->). by eexists _, _, _.
Qed.

Lemma parse_hashes_total n : forall payload pos hashes i,
  go_len payload -> 0 <= i -> i + 32 * Z.of_nat n <= zlen hashes ->
  exists p hs err, parse_hashes n payload pos hashes i = Val (p, hs, err).
Proof.
  induction n as [|n IH]; intros payload pos hashes i Hg Hi Hl; [by eexists _, _, _|]. cbn [parse_hashes].
  rewrite go_slice_val by lia. cbn [mbind Res_bind].
  destruct (ParseHash_total payload pos (take (Z.to_nat (zlen hashes - i)) (drop (Z.to_nat i) hashes)) Hg)
    as (buf & p & err & -> & Hb). cbn [mbind Res_bind]. destruct err as [e|]; [by eexists _, _, _|].
  apply IH; [assumption|lia|]. rewrite zlen_app, Hb, zlen_slice by lia. unfold zlen in *. rewrite length_take. lia.
Qed.

Lemma ParseU256_sound payload pos :
  go_len payload -> exists p v err, ParseU256 payload pos = Val (p, v, err) /\
    (err = None -> exists z, v = Some z /\ 0 <= pos <= p /\ p <= zlen payload /\ 0 <= z < 2 ^ 256 /\ window payload pos p = rlp_uint z).
Proof.
  intros Hg. destruct (ParseString_sound payload pos Hg) as (dp & dl & err & E & He).
  unfold ParseU256. rewrite E. cbn [mbind Res_bind]. destruct err as [e|]; [by eexists _, _, _|].
  destruct (Z.ltb_spec 32 dl); [by eexists _, _, _|]. destruct (He eq_refl) as (Hp & Hdl & Hend & Hwin).
  destruct (zero_check payload dp dl) as (zero & -> & -> & Hbe & Hz); [lia..|]. cbn [mbind Res_bind].
  destruct zero; [by eexists _, _, _|]. eexists _, _, _. split; [reflexivity|]. intros _. specialize (Hbe eq_refl).
  set (s := window payload dp (dp + dl)) in *. pose proof (be_to_Z_nonneg s) as Hnn. pose proof (be_to_Z_bound s) as Hb.
  fold (zlen s) in Hb. rewrite Hz in Hb. pose proof (Z.pow_le_mono_r 256 dl 32 ltac:(lia) ltac:(lia)).
  exists (be_to_Z s). split; [reflexivity|]. split; [lia|]. split; [lia|]. split; [change (2 ^ 256) with (256 ^ 32); lia|].
  unfold rlp_uint. by rewrite Hbe.
Qed.

(** Into a buffer of 32 bytes. *)
Lemma ParseHash_sound payload pos buf :
  go_len payload -> zlen buf = 32 -> exists h p err, ParseHash payload pos buf = Val (h, p, err) /\
    (err = None -> 0 <= pos <= p /\ p <= zlen payload /\ zlen h = 32 /\ window payload pos p = rlp_string h).
Proof.
  intros Hg Hb. destruct (ParseString_sound payload pos Hg) as (dp & dl & err & E & He).
  unfold ParseHash, StringOfLen. rewrite E. cbn [mbind Res_bind]. destruct err as [e|]; [by eexists _, _, _|].
  destruct (Z.eqb_spec dl 32) as [->|]; cbn [negb mbind Res_bind mret Res_ret]; [|by eexists _, _, _].
  destruct (He eq_refl) as (Hp & _ & Hend & Hwin).
  destruct (zero_check payload dp 32) as (_ & _ & -> & _ & Hz); [lia..|]. cbn [mbind Res_bind mret Res_ret].
  eexists _, _, _. split; [reflexivity|]. intros _. rewrite take_ge by (unfold zlen in *; lia).
  assert (Hs : splice buf 0 (window payload dp (dp + 32)) = window payload dp (dp + 32)).
  { unfold splice. cbn [take app]. rewrite drop_ge by (unfold zlen in *; lia). apply app_nil_r. }
  rewrite Hs. split; [lia|]. split; [lia|]. split; [exact Hz|exact Hwin].
Qed.

Lemma ParseAnnouncements_total payload pos :
  go_len payload -> exists types sizes hashes p err, ParseAnnouncements payload pos = Val (types, sizes, hashes, p, err).
Proof.
  intros Hg. unfold ParseAnnouncements.
  destruct (ParseList_sound payload pos Hg) as (p1 & n1 & e1 & -> & _). cbn [mbind Res_bind].
  destruct (isSome_err e1); [by eexists _, _, _, _, _|]. destruct (_ <? _); [by eexists _, _, _, _, _|].
  destruct (ParseString_sound payload p1 Hg) as (p2 & n2 & e2 & -> & H2). cbn [mbind Res_bind].
  destruct e2; [by eexists _, _, _, _, _|]. cbn [isSome_err]. destruct (_ <? _); [by eexists _, _, _, _, _|].
  destruct (H2 eq_refl) as (Hp2 & Hn2 & Hend & _). rewrite go_slice_val by lia. cbn [mbind Res_bind].
  destruct (ParseList_sound payload (p2 + n2) Hg) as (p3 & n3 & e3 & -> & _). cbn [mbind Res_bind].
  destruct (isSome_err e3); [by eexists _, _, _, _, _|]. destruct (_ <? _); [by eexists _, _, _, _, _|].
  destruct (parse_sizes_total (Z.to_nat n2) payload p3 Hg) as (p4 & sizes & e4 & ->). cbn [mbind Res_bind].
  destruct (isSome_err e4); [by eexists _, _, _, _, _|].
  destruct (ParseList_sound payload p4 Hg) as (p5 & n5 & e5 & -> & H5). cbn [mbind Res_bind].
  destruct e5; [by eexists _, _, _, _, _|]. cbn [isSome_err]. destruct (_ <? _); [by eexists _, _, _, _, _|].
  destruct (H5 eq_refl) as (_ & Hn5 & _). pose proof (Z.div_pos n5 33 ltac:(lia) ltac:(lia)).
  destruct (parse_hashes_total (hash_iterations (32 * (n5 / 33))) payload p5
    (replicate (Z.to_nat (32 * (n5 / 33))) x00) 0 Hg ltac:(lia)) as (p6 & hs & e6 & ->).
  { rewrite zlen_replicate, hash_iterations_mul. lia. }
  cbn [mbind Res_bind]. destruct (isSome_err e6); by eexists _, _, _, _, _.
Qed.

(** C33 The RLP parsers of strings, list headers, integers and hashes accept only canonical
    encodings: on any payload [ParseString], [ParseList], [ParseU64], [ParseU32], [ParseU256]
    and [ParseHash] (into 32 bytes) return, and when they accept, the bytes consumed lie
    inside the payload and are exactly the encoding of what is returned (for a list, of its
    header), so no such value has two accepted encodings. [ParseAnnouncements] returns as
    well; it does not check that its lists end where their headers say, so what it accepts
    need not be canonical. *)
Theorem Parse_canonical payload pos :
  go_len payload ->
  (exists dp dl err, ParseString payload pos = Val (dp, dl, err) /\
     (err = None -> 0 <= pos <= dp /\ 0 <= dl /\ dp + dl <= zlen payload /\
        window payload pos (dp + dl) = rlp_string (window payload dp (dp + dl)))) /\
  (exists dp dl err, ParseList payload pos = Val (dp, dl, err) /\
     (err = None -> 0 <= pos <= dp /\ 0 <= dl /\ dp + dl <= zlen payload /\
        window payload pos dp = rlp_list_header dl)) /\
  (exists p v err, ParseU64 payload pos = Val (p, v, err) /\
     (err = None -> 0 <= pos <= p /\ p <= zlen payload /\ is_u64 v /\ window payload pos p = rlp_uint v)) /\
  (exists p v err, ParseU32 payload pos = Val (p, v, err) /\
     (err = None -> 0 <= pos <= p /\ p <= zlen payload /\ 0 <= v < 2 ^ 32 /\ window payload pos p = rlp_uint v)) /\
  (exists p v err, ParseU256 payload pos = Val (p, v, err) /\
     (err = None -> exists z, v = Some z /\ 0 <= pos <= p /\ p <= zlen payload /\ 0 <= z < 2 ^ 256 /\ window payload pos p = rlp_uint z)) /\
  (forall buf, zlen buf = 32 -> exists h p err, ParseHash payload pos buf = Val (h, p, err) /\
     (err = None -> 0 <= pos <= p /\ p <= zlen payload /\ zlen h = 32 /\ window payload pos p = rlp_string h)) /\
  (exists types sizes hashes p err, ParseAnnouncements payload pos = Val (types, sizes, hashes, p, err)).
Proof.
  intros Hg. repeat apply conj.
  - destruct (ParseString_sound payload pos Hg) as (dp & dl & err & E & He). by exists dp, dl, err.
  - destruct (ParseList_sound payload pos Hg) as (dp & dl & err & E & He). by exists dp, dl, err.
  - destruct (parse_uint_sound 8 u64 payload pos Hg) as (p & v & err & E & He);
      [intros z Hz; by apply u64_id|lia|]. by exists p, v, err.
  - destruct (parse_uint_sound 4 u32 payload pos Hg) as (p & v & err & E & He);
      [intros z Hz; unfold u32; by apply Z.mod_small|lia|]. by exists p, v, err.
  - by apply ParseU256_sound.
  - intros buf. by apply ParseHash_sound.
  - by apply ParseAnnouncements_total.
Qed.

(** The outer list announces four bytes and its three elements fill three: accepted, though
    the canonical encoding of the same value is another. *)
Example ParseAnnouncements_not_canonical :
  ParseAnnouncements [xc4; x80; xc0; xc0; x00] 0 = ParseAnnouncements [xc3; x80; xc0; xc0] 0 /\
  ParseAnnouncements [xc3; x80; xc0; xc0] 0 = Val ([], [], [], 4, None).
Proof. by vm_compute. Qed.

(** ** Witnesses *)

Lemma Encode_roundtrip_witness :
  exists to', EncodeU64 1024 (replicate 4 x00) = Val (3, to') /\ zlen to' = 4 /\
    ParseU64 ([x07] ++ to' ++ []) 1 = Val (4, 1024, None).
Proof.
  destruct (Encode_roundtrip [x07] []) as (_ & H & _).
  apply (H 1024 (replicate 4 x00)); vm_compute; intuition discriminate.
Defined.

Lemma Parse_canonical_witness :
  go_len [xc2; x01; x02] /\
  (exists dp dl err, ParseList [xc2; x01; x02] 0 = Val (dp, dl, err) /\ err = None /\ dp = 1 /\ dl = 2) /\
  exists types sizes hashes p err,
    ParseAnnouncements [xc2; x01; x02] 0 = Val (types, sizes, hashes, p, err).
Proof.
  assert (Hg : go_len [xc2; x01; x02]) by reflexivity.
  split; [exact Hg|]. split; [by eexists _, _, _|]. apply (Parse_canonical [xc2; x01; x02] 0 Hg).
Defined.

Lemma EncodeAnnouncements_roundtrip_witness :
  announcements_ok [x01; x02] [300; 5] (replicate 64 xaa) /\
  exists to', EncodeAnnouncements [x01; x02] [300; 5] (replicate 64 xaa) (replicate 80 x00) = Val (78, to') /\
    ParseAnnouncements ([] ++ to' ++ []) 0 = Val ([x01; x02], [300; 5], replicate 64 xaa, 78, None).
Proof.
  assert (Ha : announcements_ok [x01; x02] [300; 5] (replicate 64 xaa)).
  { split; [reflexivity|reflexivity| |reflexivity].
    apply (bool_decide_eq_true_1 _). vm_compute. reflexivity. }
  split; [exact Ha|].
  apply (EncodeAnnouncements_roundtrip [x01; x02] [300; 5] (replicate 64 xaa) [] (replicate 80 x00) [] Ha);
    vm_compute; intuition discriminate.
Defined.
