(* ===== verification/RlpWriter.v ===== *)
(** * RLP: the stream encoders

    The encoders of [execution/rlp/encode.go] that transactions, headers and authorizations
    are written with: each formats an item in a scratch buffer it is given and writes it to
    a [bytes.Buffer]. The state is the pair of what has been written and the scratch buffer,
    which the calls share. [bytes.Buffer.Write] never fails, so the error is always nil; it
    is kept because the callers test it. *)

From S2P Require Import Prelude Uint256 Errors Rlp RlpSpec RlpParse.

(** ** Encoders *)

Section RlpWriter.
Context {U : Uint256}.

Definition scratch {A} (m : M bytes A) : M (bytes * bytes) A := zoom snd (fun b s => (s.1, b)) m.
(** [w.Write(p)]. *)
Definition w_Write (p : bytes) : M (bytes * bytes) (option Error) := fun s => Val (None, (s.1 ++ p, s.2)).
(** [w.Write(buffer[lo:hi])]. *)
Definition w_WriteSlice (lo hi : Z) : M (bytes * bytes) (option Error) := p ← scratch (read_slice lo hi); w_Write p.

(** [if err := m; err != nil { return err }]. *)
Definition try_w (m k : M (bytes * bytes) (option Error)) : M (bytes * bytes) (option Error) :=
  err ← m; match err with Some e => mret (Some e) | None => k end.

Definition intsize (i : Z) : Z := BitLenToByteLen (Len64 i).

Definition IntLenExcludingHead (i : Z) : Z := if i <? 128 then 0 else intsize i.

(** [big.Int]: the magnitude's length, also for negative numbers. *)
Definition BigIntLenExcludingHead (i : Z) : Z :=
  let bitLen := Len64 (Z.abs i) in if bitLen <? 8 then 0 else BitLenToByteLen bitLen.

Definition Uint256LenExcludingHead (i : Z) : Z :=
  let bitLen := u_BitLen i in if bitLen <? 8 then 0 else BitLenToByteLen bitLen.

Definition EncodeInt (i : Z) : M (bytes * bytes) (option Error) :=
  if (0 <? i) && (i <? 128) then
    _ ← scratch (put 0 (Zbyte i)); w_WriteSlice 0 1
  else
    _ ← scratch (PutUint64 1 i);
    let size := intsize i in
    _ ← scratch (put (8 - size) (Zbyte (128 + size)));
    w_WriteSlice (8 - size) 9.

(** [i.FillBytes(buffer[1:1+size])] for a number of [size] bytes. *)
Definition EncodeBigInt (i : option Z) : M (bytes * bytes) (option Error) :=
  let bitLen := match i with Some i => Len64 (Z.abs i) | None => 0 end in
  let i := default 0 i in
  if bitLen <? 8 then
    _ ← scratch (put 0 (if 0 <? bitLen then Zbyte (Z.abs i) else Zbyte 128)); w_WriteSlice 0 1
  else
    let size := BitLenToByteLen bitLen in
    _ ← scratch (put 0 (Zbyte (128 + size)));
    _ ← scratch (copy_to 1 (1 + size) (Z_to_be (Z.to_nat size) (Z.abs i)));
    w_WriteSlice 0 (1 + size).

Definition EncodeUint256 (i : option Z) : M (bytes * bytes) (option Error) :=
  _ ← scratch (put 0 (Zbyte 128));
  match i with
  | None => w_WriteSlice 0 1
  | Some i =>
      let nBits := u_BitLen i in
      if nBits =? 0 then w_WriteSlice 0 1
      else
        _ ← scratch (put 0 (Zbyte (u_Uint64 i)));
        if nBits <=? 7 then w_WriteSlice 0 1
        else
          let nBytes := BitLenToByteLen nBits in
          _ ← scratch (put 0 (Zbyte (128 + nBytes)));
          try_w (w_WriteSlice 0 1)
            (_ ← scratch (_ ← check_index 31; puts 0 (Z_to_be 32 i));
             w_WriteSlice (32 - nBytes) 32)
  end.

Definition size_prefix (short long size : Z) : M (bytes * bytes) (option Error) :=
  if 56 <=? size then
    let beSize := BitLenToByteLen (Len64 (u64 size)) in
    _ ← scratch (PutUint64 1 (u64 size));
    _ ← scratch (put (8 - beSize) (Zbyte (beSize + long)));
    try_w (w_WriteSlice (8 - beSize) 9) (mret None)
  else
    _ ← scratch (put 0 (Zbyte (size + short)));
    try_w (w_WriteSlice 0 1) (mret None).

Definition EncodeStringSizePrefix : Z -> M (bytes * bytes) (option Error) := size_prefix 128 183.
Definition EncodeStructSizePrefix : Z -> M (bytes * bytes) (option Error) := size_prefix 192 247.

Definition EncodeString (s : bytes) : M (bytes * bytes) (option Error) :=
  match s with
  | [] => _ ← scratch (put 0 (Zbyte 128)); try_w (w_WriteSlice 0 1) (mret None)
  | [b] =>
      try_w (if 128 <=? byteZ b then _ ← scratch (put 0 (Zbyte 129)); w_WriteSlice 0 1 else mret None)
        (try_w (w_Write s) (mret None))
  | _ => try_w (EncodeStringSizePrefix (zlen s)) (try_w (w_Write s) (mret None))
  end.

(** The twenty bytes of an address. *)
Definition addr_bytes (a : Z) : bytes := Z_to_be 20 a.

Definition EncodeOptionalAddress (addr : option Z) : M (bytes * bytes) (option Error) :=
  _ ← scratch (put 0 (match addr with None => Zbyte 128 | Some _ => Zbyte (128 + 20) end));
  try_w (w_WriteSlice 0 1)
    (match addr with
     | Some a => try_w (w_Write (addr_bytes a)) (mret None)
     | None => mret None
     end).

Definition strings_size (bb : list bytes) : Z := fold_left (fun size b => size + StringLen b) bb 0.

Definition ByteSliceSliceSize (bb : list bytes) : Z :=
  let size := strings_size bb in size + ListPrefixLen size.

Fixpoint encode_strings (bb : list bytes) : M (bytes * bytes) (option Error) :=
  match bb with
  | [] => mret None
  | b :: bb => try_w (EncodeString b) (encode_strings bb)
  end.

Definition EncodeByteSliceSlice (bb : list bytes) : M (bytes * bytes) (option Error) :=
  try_w (EncodeStructSizePrefix (strings_size bb)) (encode_strings bb).

(** ** What they write *)

(** With a scratch buffer of at least [need] bytes, [enc] writes [x] and returns nil. *)
Definition emits (need : Z) (enc : M (bytes * bytes) (option Error)) (x : bytes) : Prop :=
  forall out buf, need <= zlen buf ->
    exists buf', enc (out, buf) = Val (None, (out ++ x, buf')) /\ zlen buf' = zlen buf.

Lemma emits_seq need m k x y : emits need m x -> emits need k y -> emits need (try_w m k) (x ++ y).
Proof.
  intros Hm Hk out buf Hb. destruct (Hm out buf Hb) as (b1 & E1 & L1).
  destruct (Hk (out ++ x) b1 ltac:(lia)) as (b2 & E2 & L2). exists b2. rewrite app_assoc, <- L1.
  split; [|exact L2]. unfold try_w, mbind, M_bind. rewrite E1. exact E2.
Qed.

Lemma emits_nil need : emits need (mret None) [].
Proof. intros out buf _. exists buf. by rewrite app_nil_r. Qed.

Lemma emits_end need m x : emits need m x -> emits need (try_w m (mret None)) x.
Proof. intros H. rewrite <- (app_nil_r x). apply emits_seq; [exact H|apply emits_nil]. Qed.

Lemma emits_assoc {A} need (m : M (bytes * bytes) A) f k x :
  emits need (try_w (m ≫= f) k) x -> emits need (m ≫= fun a => try_w (f a) k) x.
Proof.
  intros H out buf Hb. destruct (H out buf Hb) as (buf' & E & L). exists buf'. split; [|exact L]. rewrite <- E.
  unfold try_w, mbind, M_bind. by destruct (m (out, buf)) as [[a s]|e|].
Qed.

(** The last test of an error changes nothing. *)
Lemma try_w_end m : forall s, try_w m (mret None) s = m s.
Proof. intros s. unfold try_w, mbind, M_bind. by destruct (m s) as [[[e|] s']|e|]. Qed.

Lemma emits_ext need m m' x : (forall s, m s = m' s) -> emits need m' x -> emits need m x.
Proof. intros E H out buf Hb. rewrite E. by apply H. Qed.

Lemma bind_ext {A} (m : M (bytes * bytes) A) (k k' : A -> M (bytes * bytes) (option Error)) s :
  (forall a s, k a s = k' a s) -> (m ≫= k) s = (m ≫= k') s.
Proof. intros E. unfold mbind, M_bind. destruct (m s) as [[a s']|e|]; auto. Qed.

Lemma emits_weaken n n' m x : n <= n' -> emits n m x -> emits n' m x.
Proof. intros Hn H out buf Hb. apply H. lia. Qed.

Lemma emits_write need p : emits need (w_Write p) p.
Proof. intros out buf _. by exists buf. Qed.

(** One formatting step of the scratch buffer. *)
Lemma scratch_step {A} (m : M bytes A) a buf buf' out (k : A -> M (bytes * bytes) (option Error)) :
  m buf = Val (a, buf') -> (scratch m ≫= k) (out, buf) = k a (out, buf').
Proof. intros E. unfold mbind, M_bind, scratch, zoom. cbn [snd]. by rewrite E. Qed.

Lemma w_WriteSlice_eq lo hi out buf p :
  go_slice buf lo hi = Val p -> w_WriteSlice lo hi (out, buf) = Val (None, (out ++ p, buf)).
Proof.
  intros E. unfold w_WriteSlice. rewrite (scratch_step _ p buf buf); [reflexivity|].
  unfold read_slice. by rewrite E.
Qed.

Lemma slice_head b (buf : bytes) : 1 <= zlen buf -> go_slice (<[0%nat := b]> buf) 0 1 = Val [b].
Proof.
  intros H. destruct buf as [|x buf]; [unfold zlen in H; cbn in H; lia|]. cbn [insert list_insert].
  rewrite go_slice_val by (rewrite zlen_cons in *; pose proof (zlen_nonneg buf); lia). reflexivity.
Qed.

Lemma put0 b (buf : bytes) : 1 <= zlen buf -> put 0 b buf = Val (tt, <[0%nat := b]> buf).
Proof. intros H. rewrite put_eq by lia. reflexivity. Qed.

(** One byte through the scratch buffer. *)
Lemma emits_byte b : emits 1 (_ ← scratch (put 0 b); w_WriteSlice 0 1) [b].
Proof.
  intros out buf Hb. exists (<[0%nat := b]> buf). split; [|apply zlen_insert].
  rewrite (scratch_step _ tt buf (<[0%nat := b]> buf)) by (by apply put0).
  apply w_WriteSlice_eq. by apply slice_head.
Qed.

Lemma emits_single b : emits 9 (_ ← scratch (put 0 b); try_w (w_WriteSlice 0 1) (mret None)) [b].
Proof.
  apply (emits_ext _ _ (_ ← scratch (put 0 b); w_WriteSlice 0 1)).
  - intros s. apply bind_ext. intros ? s1. apply try_w_end.
  - eapply emits_weaken; [|apply emits_byte]. lia.
Qed.

(** A tagged number through the scratch buffer. *)
Lemma emits_tagged n p v :
  (1 <= n <= 8)%nat -> 0 <= v ->
  emits 9 (_ ← scratch (PutUint64 1 v); _ ← scratch (put (8 - Z.of_nat n) p); w_WriteSlice (8 - Z.of_nat n) 9)
    (p :: Z_to_be n v).
Proof.
  intros Hn Hv out buf Hb. destruct (move_prefix n p v buf Hn Hv Hb) as [HL HS].
  eexists. split; [|exact HL].
  rewrite (scratch_step _ tt buf (splice buf 1 (Z_to_be 8 v))) by (apply PutUint64_eq; lia).
  assert (zlen (splice buf 1 (Z_to_be 8 v)) = zlen buf).
  { rewrite <- HL. unfold zlen. by rewrite length_insert. }
  rewrite (scratch_step _ tt _ (<[Z.to_nat (8 - Z.of_nat n) := p]> (splice buf 1 (Z_to_be 8 v)))) by (apply put_eq; lia).
  by apply w_WriteSlice_eq.
Qed.

Lemma slice_at i b (buf : bytes) : 0 <= i < zlen buf -> go_slice (<[Z.to_nat i := b]> buf) i (i + 1) = Val [b].
Proof.
  intros H. rewrite go_slice_val by (rewrite ?zlen_insert; lia). f_equal.
  replace (Z.to_nat (i + 1 - i)) with 1%nat by lia. rewrite insert_take_drop by (unfold zlen in *; lia).
  rewrite drop_app_length' by (rewrite length_take; unfold zlen in *; lia). reflexivity.
Qed.

(** The bit length tells the single bytes apart. *)
Lemma Len64_small i : 0 <= i -> (Len64 i <? 8) = (i <? 128).
Proof.
  intros Hi. unfold Len64. destruct (Z.eqb_spec i 0) as [->|]; [reflexivity|].
  destruct (Z.ltb_spec i 128).
  - apply Z.ltb_lt. assert (Z.log2 i < 7); [|lia]. apply Z.log2_lt_pow2; lia.
  - apply Z.ltb_ge. assert (7 <= Z.log2 i); [|lia]. apply Z.log2_le_pow2; lia.
Qed.

Lemma Len64_zero i : 0 <= i -> (Len64 i =? 0) = (i =? 0).
Proof.
  intros Hi. unfold Len64. destruct (Z.eqb_spec i 0); [reflexivity|]. pose proof (Z.log2_nonneg i).
  apply Z.eqb_neq. lia.
Qed.

Lemma rlp_uint_wide i : 128 <= i -> (byteLen i < 56)%nat -> rlp_uint i = Zbyte (128 + Z.of_nat (byteLen i)) :: be i.
Proof.
  intros Hi Hl. rewrite <- zlen_be. apply rlp_string_short; [rewrite zlen_be; lia|].
  intros b Hb. pose proof (be_value i ltac:(lia)) as Hv. rewrite Hb in Hv. unfold be_to_Z in Hv. cbn in Hv. lia.
Qed.

Lemma byteLen_256 i : 128 <= i < two256 -> (1 <= byteLen i <= 32)%nat.
Proof.
  intros Hi. destruct (byteLen_bounds i) as [H1 _]; [lia|]. pose proof (byteLen_le i 32) as H2.
  change (256 ^ Z.of_nat 32) with two256 in H2. lia.
Qed.

(** [EncodeInt] writes the canonical integer. *)
Lemma EncodeInt_emits i : is_u64 i -> emits 9 (EncodeInt i) (rlp_uint i).
Proof.
  intros Hi. unfold is_u64 in Hi. unfold EncodeInt. destruct (Z.ltb_spec 0 i); cbn [andb].
  - destruct (Z.ltb_spec i 128).
    + rewrite rlp_uint_small by lia. eapply emits_weaken; [|apply emits_byte]. lia.
    + pose proof (byteLen_64 i ltac:(lia)). unfold intsize. rewrite byteLen_Z, rlp_uint_wide by lia.
      apply emits_tagged; lia.
  - assert (i = 0) as -> by lia. change (intsize 0) with 0. intros out buf Hb. eexists. split.
    + rewrite (scratch_step _ tt buf (splice buf 1 (Z_to_be 8 0))) by (apply PutUint64_eq; lia).
      assert (HL : zlen (splice buf 1 (Z_to_be 8 0)) = zlen buf) by (apply zlen_splice; [lia|change (zlen (Z_to_be 8 0)) with 8; lia]).
      rewrite (scratch_step _ tt _ (<[Z.to_nat (8 - 0) := Zbyte (128 + 0)]> (splice buf 1 (Z_to_be 8 0)))) by (apply put_eq; lia).
      apply w_WriteSlice_eq. apply (slice_at (8 - 0)). lia.
    + rewrite zlen_insert. apply zlen_splice; [lia|change (zlen (Z_to_be 8 0)) with 8; lia].
Qed.

(** [EncodeUint256] and [EncodeBigInt] write the canonical integer too. *)
Lemma EncodeUint256_emits `{US : !Uint256Spec U} i : is_u256 i -> emits 32 (EncodeUint256 (Some i)) (rlp_uint i).
Proof.
  intros Hi. pose proof Hi as [Hi0 Hi1]. unfold EncodeUint256. rewrite BitLen_spec by assumption. fold (Len64 i).
  rewrite Len64_zero by lia. intros out buf Hb.
  rewrite (scratch_step _ tt buf (<[0%nat := Zbyte 128]> buf)) by (apply put0; lia).
  destruct (Z.eqb_spec i 0) as [->|Hne].
  { eexists. split; [apply w_WriteSlice_eq, slice_head; lia|apply zlen_insert]. }
  assert (HL : forall b, zlen (<[0%nat := b]> buf) = zlen buf) by (intros; apply zlen_insert).
  rewrite (scratch_step _ tt _ (<[0%nat := Zbyte (u_Uint64 i)]> buf)) by (rewrite put0 by (rewrite HL; lia); by rewrite list_insert_insert_eq).
  assert (Hc : (Len64 i <=? 7) = (i <? 128)).
  { rewrite <- Len64_small by lia. destruct (Z.leb_spec (Len64 i) 7), (Z.ltb_spec (Len64 i) 8); lia || reflexivity. }
  rewrite Hc. destruct (Z.ltb_spec i 128) as [Hs|Hbig].
  { rewrite rlp_uint_small by lia. rewrite Uint64_spec by assumption. rewrite Z.mod_small by (unfold two64; lia).
    eexists. split; [apply w_WriteSlice_eq, slice_head; lia|apply HL]. }
  pose proof (byteLen_256 i ltac:(unfold is_u256 in *; lia)) as Hn. rewrite byteLen_Z, rlp_uint_wide by lia.
  set (n := byteLen i) in *.
  rewrite (scratch_step _ tt _ (<[0%nat := Zbyte (128 + Z.of_nat n)]> buf)) by (rewrite put0 by (rewrite HL; lia); by rewrite list_insert_insert_eq).
  unfold try_w at 1, mbind at 1, M_bind at 1. rewrite (w_WriteSlice_eq 0 1 out _ [Zbyte (128 + Z.of_nat n)]) by (apply slice_head; lia).
  set (B := <[0%nat := Zbyte (128 + Z.of_nat n)]> buf).
  assert (HB : zlen B = zlen buf) by apply HL. assert (HZ : zlen (Z_to_be 32 i) = 32) by (unfold zlen; by rewrite length_Z_to_be).
  rewrite (scratch_step _ tt B (splice B 0 (Z_to_be 32 i))).
  2: { unfold mbind, M_bind. rewrite check_index_eq by lia. apply puts_eq; lia. }
  exists (splice B 0 (Z_to_be 32 i)). split.
  - rewrite (w_WriteSlice_eq _ _ _ _ (be i)); [by rewrite <- app_assoc|].
    rewrite go_slice_val by (rewrite ?zlen_splice by lia; lia). f_equal. unfold splice. change (Z.to_nat 0) with 0%nat.
    rewrite take_0, app_nil_l, drop_app_le, take_app_le by (rewrite ?length_drop, length_Z_to_be; lia).
    rewrite take_ge by (rewrite length_drop, length_Z_to_be; lia).
    replace (Z_to_be 32 i) with (Z_to_be (32 - n + n) i) by (f_equal; lia). rewrite Z_to_be_app by lia.
    rewrite drop_app_length' by (rewrite length_Z_to_be; lia). reflexivity.
  - rewrite zlen_splice; lia.
Qed.

Lemma EncodeBigInt_emits_in n i : 0 <= i < two256 -> 1 + Z.of_nat (byteLen i) <= n -> emits n (EncodeBigInt (Some i)) (rlp_uint i).
Proof.
  intros Hi Hlen. unfold EncodeBigInt. change (default 0 (Some i)) with i. rewrite !Z.abs_eq by lia. rewrite Len64_small by lia.
  destruct (Z.ltb_spec i 128) as [Hs|Hbig].
  - eapply emits_weaken; [|replace (rlp_uint i) with [if 0 <? Len64 i then Zbyte i else Zbyte 128]; [apply emits_byte|]]; [lia|].
    pose proof (Len64_zero i ltac:(lia)) as H0. destruct (Z.eqb_spec i 0) as [->|]; [reflexivity|].
    apply Z.eqb_neq in H0. assert (0 <= Len64 i) by (unfold Len64; destruct (i =? 0); [lia|pose proof (Z.log2_nonneg i); lia]).
    destruct (Z.ltb_spec 0 (Len64 i)); [|lia]. by rewrite rlp_uint_small by lia.
  - pose proof (byteLen_256 i ltac:(lia)) as Hn. rewrite byteLen_Z, rlp_uint_wide by lia. rewrite Nat2Z.id. fold (be i).
    intros out buf Hb. set (p := Zbyte _). assert (HL : zlen (be i) = Z.of_nat (byteLen i)) by apply zlen_be.
    exists (splice buf 0 (p :: be i)). split; [|rewrite zlen_splice; rewrite ?zlen_cons; lia].
    rewrite (scratch_step _ tt buf (<[0%nat := p]> buf)) by (apply put0; lia).
    rewrite (scratch_step _ tt _ (splice buf 0 (p :: be i))).
    2: { rewrite copy_to_eq by (rewrite ?zlen_insert; lia). rewrite take_ge by (unfold zlen in HL; lia).
         rewrite <- header_then_body by lia. reflexivity. }
    apply w_WriteSlice_eq. rewrite go_slice_val by (rewrite ?zlen_splice by (rewrite ?zlen_cons; lia); lia). f_equal.
    change (Z.to_nat 0) with 0%nat. rewrite drop_0. replace (Z.to_nat (1 + Z.of_nat (byteLen i) - 0)) with (length (p :: be i)).
    + apply take_front.
    + cbn [length]. rewrite length_be. lia.
Qed.

Lemma EncodeBigInt_emits i : 0 <= i < two256 -> emits 33 (EncodeBigInt (Some i)) (rlp_uint i).
Proof.
  intros Hi. apply EncodeBigInt_emits_in; [exact Hi|]. pose proof (byteLen_le i 32) as H2.
  change (256 ^ Z.of_nat 32) with two256 in H2. lia.
Qed.

Lemma wide_len_exact i :
  is_u256 i -> 1 + (if Len64 i <? 8 then 0 else BitLenToByteLen (Len64 i)) = zlen (rlp_uint i).
Proof.
  intros [H0 H1]. rewrite Len64_small by lia. destruct (Z.ltb_spec i 128).
  - destruct (decide (i = 0)) as [->|]; [reflexivity|]. by rewrite rlp_uint_small by lia.
  - pose proof (byteLen_256 i ltac:(lia)). rewrite rlp_uint_wide, zlen_cons, zlen_be, byteLen_Z by lia. lia.
Qed.

Lemma IntLen_exact i : is_u64 i -> 1 + IntLenExcludingHead i = zlen (rlp_uint i).
Proof.
  intros Hi. unfold is_u64, two64 in Hi. rewrite <- wide_len_exact by (unfold is_u256, two256; lia).
  unfold IntLenExcludingHead, intsize. by rewrite Len64_small by lia.
Qed.

Lemma size_prefix_emits short long n :
  0 <= n < two64 ->
  emits 9 (size_prefix short long n)
    (if 56 <=? n then Zbyte (long + Z.of_nat (byteLen n)) :: be n else [Zbyte (short + n)]).
Proof.
  intros Hn. unfold size_prefix. rewrite u64_id by exact Hn. destruct (Z.leb_spec 56 n).
  - rewrite byteLen_Z by lia. pose proof (byteLen_64 n ltac:(lia)). rewrite (Z.add_comm (Z.of_nat _) long).
    eapply emits_ext; [|apply (emits_tagged (byteLen n) (Zbyte (long + Z.of_nat (byteLen n))) n); lia].
    intros s. apply bind_ext. intros ? s1. apply bind_ext. intros ? s2. apply try_w_end.
  - rewrite (Z.add_comm n short). apply emits_single.
Qed.

Lemma EncodeStructSizePrefix_emits n : 0 <= n < two64 -> emits 9 (EncodeStructSizePrefix n) (rlp_list_header n).
Proof. apply size_prefix_emits. Qed.

Lemma EncodeString_emits s : zlen s < two64 -> emits 9 (EncodeString s) (rlp_string s).
Proof.
  intros Hs. pose proof (zlen_nonneg s). unfold EncodeString. destruct s as [|b [|b' s]].
  - apply emits_single.
  - unfold rlp_string. change (56 <=? zlen [b]) with false. cbv iota. destruct (Z.leb_spec 128 (byteZ b)).
    + destruct (Z.ltb_spec (byteZ b) 128); [lia|]. change [Zbyte 129; b] with ([Zbyte 129] ++ [b]).
      apply emits_seq; [|apply emits_end, emits_write]. eapply emits_weaken; [|apply emits_byte]. lia.
    + destruct (Z.ltb_spec (byteZ b) 128); [|lia]. apply (emits_seq 9 _ _ [] [b]); [apply emits_nil|apply emits_end, emits_write].
  - set (l := b :: b' :: s) in *. replace (rlp_string l) with
      ((if 56 <=? zlen l then Zbyte (183 + Z.of_nat (byteLen (zlen l))) :: be (zlen l) else [Zbyte (128 + zlen l)]) ++ l).
    + apply emits_seq; [apply size_prefix_emits; lia|apply emits_end, emits_write].
    + unfold rlp_string. subst l. destruct (56 <=? zlen (b :: b' :: s)); reflexivity.
Qed.

Lemma EncodeOptionalAddress_emits a :
  emits 9 (EncodeOptionalAddress a) (rlp_string (match a with Some a => addr_bytes a | None => [] end)).
Proof.
  destruct a as [a|]; unfold EncodeOptionalAddress.
  - assert (HL : zlen (addr_bytes a) = 20) by (unfold zlen, addr_bytes; by rewrite length_Z_to_be).
    rewrite rlp_string_short, HL; [|lia|intros b Hb; apply (f_equal zlen) in Hb; rewrite HL in Hb; discriminate].
    apply emits_assoc. apply (emits_seq 9 _ _ [Zbyte (128 + 20)]); [|apply emits_end, emits_write].
    eapply emits_weaken; [|apply emits_byte]. lia.
  - apply emits_single.
Qed.

Definition rlp_strings (bb : list bytes) : bytes := mjoin (rlp_string <$> bb).

Lemma strings_size_exact bb : strings_size bb = zlen (rlp_strings bb).
Proof.
  unfold strings_size. change (zlen (rlp_strings bb)) with (0 + zlen (rlp_strings bb)). generalize 0.
  induction bb as [|b bb IH]; intros acc; [change (zlen (rlp_strings [])) with 0; cbn; lia|].
  cbn [fold_left]. rewrite IH. change (rlp_strings (b :: bb)) with (rlp_string b ++ rlp_strings bb).
  rewrite zlen_app, StringLen_exact. lia.
Qed.

Lemma encode_strings_emits bb :
  Forall (fun b => zlen b < two64) bb -> emits 9 (encode_strings bb) (rlp_strings bb).
Proof.
  induction 1 as [|b bb Hb _ IH]; [apply emits_nil|].
  change (rlp_strings (b :: bb)) with (rlp_string b ++ rlp_strings bb). cbn [encode_strings].
  apply emits_seq; [by apply EncodeString_emits|exact IH].
Qed.

(** The stream encoders agree with the canonical encoding, and so with the buffer encoders
    and the parsers: given a scratch buffer of 33 bytes, whatever it holds, each of them
    returns nil and writes exactly the canonical bytes of its argument, and the lengths
    announced for 64- and 256-bit integers and for lists of strings are the lengths written. *)
Theorem writers_canonical `{US : !Uint256Spec U} :
  (forall i, is_u64 i -> emits 33 (EncodeInt i) (rlp_uint i) /\ 1 + IntLenExcludingHead i = zlen (rlp_uint i)) /\
  (forall i, is_u256 i -> emits 33 (EncodeUint256 (Some i)) (rlp_uint i) /\
     emits 33 (EncodeBigInt (Some i)) (rlp_uint i) /\
     1 + Uint256LenExcludingHead i = zlen (rlp_uint i) /\ 1 + BigIntLenExcludingHead i = zlen (rlp_uint i)) /\
  (forall a, emits 33 (EncodeOptionalAddress a) (rlp_string (match a with Some a => addr_bytes a | None => [] end))) /\
  (forall bb, Forall (fun b => zlen b < two64) bb -> zlen (rlp_strings bb) < two64 ->
     let out := rlp_list_header (zlen (rlp_strings bb)) ++ rlp_strings bb in
     emits 33 (EncodeByteSliceSlice bb) out /\ ByteSliceSliceSize bb = zlen out).
Proof.
  split; [|split; [|split]].
  - intros i Hi. split; [eapply emits_weaken; [|by apply EncodeInt_emits]; lia|]. apply IntLen_exact; exact Hi.
  - intros i Hi. pose proof Hi as [H0 H1].
    split; [eapply emits_weaken; [|by apply EncodeUint256_emits]; lia|]. split; [by apply EncodeBigInt_emits|].
    unfold Uint256LenExcludingHead, BigIntLenExcludingHead. rewrite BitLen_spec, Z.abs_eq by (assumption || lia).
    fold (Len64 i). split; by apply wide_len_exact.
  - intros a. eapply emits_weaken; [|apply EncodeOptionalAddress_emits]. lia.
  - intros bb Hbb Hl. pose proof (zlen_nonneg (rlp_strings bb)). cbv zeta. split.
    + unfold EncodeByteSliceSlice. rewrite strings_size_exact. apply (emits_weaken 9); [lia|].
      apply emits_seq; [by apply EncodeStructSizePrefix_emits|by apply encode_strings_emits].
    + unfold ByteSliceSliceSize. rewrite strings_size_exact, ListPrefixLen_exact, zlen_app by lia. lia.
Qed.
End RlpWriter.

Lemma writers_canonical_witness :
  exists buf, EncodeByteSliceSlice [[x61]; []; [x80]] ([], replicate 33 x07) =
    Val (None, ([xc4; x61; x80; x81; x80], buf)).
Proof.
  destruct (writers_canonical (US := uint256_ref_spec)) as (_ & _ & _ & H).
  destruct (H [[x61]; []; [x80]]) as [He _]; [repeat constructor; reflexivity|reflexivity|].
  destruct (He [] (replicate 33 x07)) as (buf & E & _); [discriminate|]. exists buf. exact E.
Defined.
