(* ===== verification/Authorization.v ===== *)
(** * Set-code authorizations

    [execution/types/authorization.go] (EIP-7702): the message an authority signs, the
    recovery of the signer, the encoding of a list of authorizations; the signature check of
    [erigon-lib/crypto/crypto.go]; the delegation code of [set_code_tx.go]. The recovery of
    a public key is libsecp256k1's: a parameter, [Ecrecover]. *)

From S2P Require Import Prelude Uint256 Params Errors Machine IntraBlockState Rlp RlpSpec RlpParse RlpWriter.

(** [crypto.Ecrecover(hash, sig)]. *)
Class Secp256k1 : Type := Ecrecover : bytes -> bytes -> Error + bytes.
(** A recovered public key is not empty (it has 65 bytes). *)
Class Secp256k1Spec (E : Secp256k1) : Prop := Ecrecover_key hash sig key : Ecrecover hash sig = inr key -> 1 <= zlen key.

Definition secp256k1N : Z := 0xfffffffffffffffffffffffffffffffebaaedce6af48a03bbfd25e8cd0364141.
Definition secp256k1halfN : Z := Z.shiftr secp256k1N 1.

Section Authorization.
Context {U : Uint256} {K : Keccak} {E : Secp256k1}.

Definition TransactionSignatureIsValid (v r s : Z) (allowPreEip2s : bool) : bool :=
  if u_IsZero r || u_IsZero s then false
  else if negb allowPreEip2s && u_Gt s secp256k1halfN then false
  else u_Lt r secp256k1N && u_Lt s secp256k1N && ((v =? 0) || (v =? 1)).

Record Authorization : Type := mkAuth {
  a_ChainID : Z; a_Address : Z; a_Nonce : Z; a_YParity : Z; a_R : Z; a_S : Z
}.

Definition RecoverSignerFromRLP (rlp : bytes) (yParity r s : Z) : Error + Z :=
  let hash := keccak256 (Zbyte params.SetCodeMagicPrefix :: rlp) in
  if 1 <? yParity then inl (NewError "invalid y parity value")
  else
    let sig := Z_to_be 32 r ++ Z_to_be 32 s ++ [Zbyte yParity] in
    if negb (TransactionSignatureIsValid yParity r s false) then inl (NewError "invalid signature")
    else
      match Ecrecover (Z_to_be 32 hash) sig with
      | inl err => inl err
      | inr pubKey =>
          match pubKey with
          | b :: key => if byteZ b =? 4 then inr (keccak256 key mod two160) else inl (NewError "invalid public key")
          | [] => inl (NewError "invalid public key")
          end
      end.

(** The state is the pair [data], [buf]. *)
Definition RecoverSigner (ath : Authorization) : M (bytes * bytes) (Error + Z) :=
  if a_Nonce ath =? MaxUint64 then mret (inl (NewError "failed assertion: auth.nonce < 2**64 - 1"))
  else
    let authLen := 1 + Uint256LenExcludingHead (a_ChainID ath) in
    let authLen := authLen + (1 + 20) in
    let authLen := authLen + U64Len (a_Nonce ath) in
    err ← try_w (EncodeStructSizePrefix authLen)
      (try_w (EncodeUint256 (Some (a_ChainID ath)))
      (try_w (EncodeOptionalAddress (Some (a_Address ath)))
             (EncodeInt (a_Nonce ath))));
    match err with
    | Some e => mret (inl e)
    | None => data ← gets fst; mret (RecoverSignerFromRLP data (a_YParity ath) (a_R ath) (a_S ath))
    end.

Definition authorizationSize (auth : Authorization) : Z :=
  let authLen := 1 + Uint256LenExcludingHead (a_ChainID auth) in
  let authLen := authLen + U64Len (a_Nonce auth) in
  let authLen := authLen + (1 + 20) in
  authLen + (U64Len (a_YParity auth) + (1 + Uint256LenExcludingHead (a_R auth)) + (1 + Uint256LenExcludingHead (a_S auth))).

Definition authorizationsSize (auths : list Authorization) : Z :=
  fold_left (fun totalSize auth => let authLen := authorizationSize auth in totalSize + (ListPrefixLen authLen + authLen))
    auths 0.

Definition encode_authorization (auth : Authorization) (k : M (bytes * bytes) (option Error)) : M (bytes * bytes) (option Error) :=
  try_w (EncodeStructSizePrefix (authorizationSize auth))
    (try_w (EncodeUint256 (Some (a_ChainID auth)))
    (try_w (EncodeOptionalAddress (Some (a_Address auth)))
    (try_w (EncodeInt (a_Nonce auth))
    (try_w (EncodeInt (a_YParity auth))
    (try_w (EncodeUint256 (Some (a_R auth)))
    (try_w (EncodeUint256 (Some (a_S auth))) k)))))).

Fixpoint encodeAuthorizations (auths : list Authorization) : M (bytes * bytes) (option Error) :=
  match auths with
  | [] => mret None
  | auth :: auths => encode_authorization auth (encodeAuthorizations auths)
  end.

(** The code that delegates to [addr]. *)
Definition AddressToDelegation (addr : Z) : bytes := params.DelegatedDesignationPrefix ++ addr_bytes addr.

(** ** Canonical encodings *)

Context {US : Uint256Spec U}.

(** The ranges of the fields. *)
Record auth_ok (a : Authorization) : Prop := mkAuthOk {
  ao_chain : is_u256 (a_ChainID a); ao_address : 0 <= a_Address a < two160; ao_nonce : is_u64 (a_Nonce a);
  ao_parity : 0 <= a_YParity a < 256; ao_r : is_u256 (a_R a); ao_s : is_u256 (a_S a)
}.

Definition rlp_list (body : bytes) : bytes := rlp_list_header (zlen body) ++ body.

(** What is signed, less the magic byte. *)
Definition signed_body (a : Authorization) : bytes :=
  rlp_uint (a_ChainID a) ++ rlp_string (addr_bytes (a_Address a)) ++ rlp_uint (a_Nonce a).
Definition auth_body (a : Authorization) : bytes :=
  signed_body a ++ rlp_uint (a_YParity a) ++ rlp_uint (a_R a) ++ rlp_uint (a_S a).

Lemma Uint256Len_exact i : is_u256 i -> 1 + Uint256LenExcludingHead i = zlen (rlp_uint i).
Proof.
  intros Hi. unfold Uint256LenExcludingHead. rewrite BitLen_spec by assumption. fold (Len64 i). by apply wide_len_exact.
Qed.

Lemma zlen_rlp_address a : zlen (rlp_string (addr_bytes a)) = 21.
Proof.
  assert (HL : zlen (addr_bytes a) = 20) by (unfold zlen, addr_bytes; by rewrite length_Z_to_be).
  rewrite rlp_string_short, zlen_cons, HL; [reflexivity|lia|].
  intros b Hb. apply (f_equal zlen) in Hb. rewrite HL in Hb. discriminate.
Qed.

Lemma zlen_rlp_uint_bound i : is_u256 i -> 1 <= zlen (rlp_uint i) <= 33.
Proof.
  intros Hi. rewrite <- wide_len_exact by exact Hi. destruct Hi as [H0 H1]. rewrite Len64_small by lia.
  destruct (Z.ltb_spec i 128); [lia|]. rewrite byteLen_Z by lia. pose proof (byteLen_256 i ltac:(lia)). lia.
Qed.

Lemma signed_body_bound a : auth_ok a -> 0 <= zlen (signed_body a) <= 87.
Proof.
  intros []. unfold signed_body. rewrite !zlen_app, zlen_rlp_address.
  pose proof (zlen_rlp_uint_bound _ ao_chain0). pose proof (zlen_rlp_uint_bound _ (u64_u256 _ ao_nonce0)). lia.
Qed.

Lemma parity_u64 a : auth_ok a -> is_u64 (a_YParity a).
Proof. intros []. unfold is_u64, two64. lia. Qed.

Lemma auth_body_bound a : auth_ok a -> 0 <= zlen (auth_body a) <= 186.
Proof.
  intros Ha. pose proof (signed_body_bound a Ha). unfold auth_body. rewrite !zlen_app.
  pose proof (zlen_rlp_uint_bound _ (ao_r _ Ha)). pose proof (zlen_rlp_uint_bound _ (ao_s _ Ha)).
  pose proof (zlen_rlp_uint_bound _ (u64_u256 _ (parity_u64 a Ha))). lia.
Qed.

Lemma U64Len_exact i : is_u64 i -> U64Len i = zlen (rlp_uint i).
Proof. apply uint_len_exact. Qed.

Lemma authorizationSize_exact a : auth_ok a -> authorizationSize a = zlen (auth_body a).
Proof.
  intros Ha. unfold authorizationSize, auth_body, signed_body.
  rewrite !Uint256Len_exact by apply Ha. rewrite !U64Len_exact by (apply Ha || by apply parity_u64).
  rewrite !zlen_app, zlen_rlp_address. lia.
Qed.

Lemma emits32_int i : is_u64 i -> emits 32 (EncodeInt i) (rlp_uint i).
Proof. intros H. eapply emits_weaken; [|by apply EncodeInt_emits]. lia. Qed.
Lemma emits32_address a : emits 32 (EncodeOptionalAddress (Some a)) (rlp_string (addr_bytes a)).
Proof. apply (emits_weaken 9); [lia|]. exact (EncodeOptionalAddress_emits (Some a)). Qed.
Lemma emits32_header n : 0 <= n < two64 -> emits 32 (EncodeStructSizePrefix n) (rlp_list_header n).
Proof. intros H. eapply emits_weaken; [|by apply EncodeStructSizePrefix_emits]. lia. Qed.

Lemma encodeAuthorizations_emits auths :
  Forall auth_ok auths -> emits 32 (encodeAuthorizations auths) (mjoin (rlp_list <$> (auth_body <$> auths))).
Proof.
  induction 1 as [|a auths Ha _ IH]; [apply emits_nil|]. pose proof (auth_body_bound a Ha).
  cbn [encodeAuthorizations fmap list_fmap mjoin list_join]. unfold encode_authorization.
  rewrite authorizationSize_exact by exact Ha. unfold rlp_list at 1.
  set (n := zlen (auth_body a)) in *. unfold auth_body at 1, signed_body. rewrite <- !app_assoc.
  repeat apply emits_seq; auto using emits32_address, emits32_int, EncodeUint256_emits, ao_chain, ao_nonce, ao_r, ao_s, parity_u64.
  apply emits32_header. unfold two64. lia.
Qed.

Lemma authorizationsSize_exact auths :
  Forall auth_ok auths -> authorizationsSize auths = zlen (mjoin (rlp_list <$> (auth_body <$> auths))).
Proof.
  intros H. unfold authorizationsSize. set (z := zlen _). change z with (0 + z). unfold z. clear z. generalize 0.
  induction H as [|a auths Ha _ IH]; intros acc; [change (acc = acc + 0); lia|]. pose proof (auth_body_bound a Ha).
  cbn [fold_left fmap list_fmap mjoin list_join]. rewrite IH, zlen_app.
  assert (zlen (rlp_list (auth_body a)) = zlen (rlp_list_header (zlen (auth_body a))) + zlen (auth_body a)) by apply zlen_app.
  rewrite authorizationSize_exact, ListPrefixLen_exact by (assumption || (unfold two64; lia)). rewrite H0, <- !Z.add_assoc. reflexivity.
Qed.

(** ** Reading the message back *)

Lemma rlp_string_inj s t p q :
  go_len (rlp_string s ++ p) -> rlp_string s ++ p = rlp_string t ++ q -> s = t /\ p = q.
Proof.
  intros Hg Heq. pose proof (ParseString_string [] s p Hg) as E1. pose proof Hg as Hg'. rewrite Heq in Hg'.
  pose proof (ParseString_string [] t q Hg') as E2. cbn [app] in E1, E2. rewrite Heq, E2 in E1. injection E1 as H1 H2.
  pose proof (window_string [] s p) as W1. pose proof (window_string [] t q) as W2. cbn [app] in W1, W2.
  rewrite Heq, <- H1, <- H2, W2 in W1. subst t. split; [reflexivity|]. by apply app_inv_head in Heq.
Qed.

Lemma rlp_uint_inj i j p q :
  0 <= i -> 0 <= j -> go_len (rlp_uint i ++ p) -> rlp_uint i ++ p = rlp_uint j ++ q -> i = j /\ p = q.
Proof.
  intros Hi Hj Hg Heq. destruct (rlp_string_inj _ _ _ _ Hg Heq) as [Hb ->].
  split; [|reflexivity]. rewrite <- (be_value i Hi), <- (be_value j Hj). by rewrite Hb.
Qed.

Lemma rlp_list_inj x y : go_len (rlp_list x) -> rlp_list x = rlp_list y -> x = y.
Proof.
  intros Hg Heq. unfold rlp_list in *. pose proof (zlen_nonneg x). pose proof (zlen_nonneg y).
  pose proof (ParseList_list [] (zlen x) x ltac:(lia) Hg) as E1. pose proof Hg as Hg'. rewrite Heq in Hg'.
  pose proof (ParseList_list [] (zlen y) y ltac:(lia) Hg') as E2. cbn [app] in E1, E2. rewrite Heq, E2 in E1.
  injection E1 as _ H2. rewrite H2 in Heq. by apply app_inv_head in Heq.
Qed.

Lemma addr_bytes_inj a b : 0 <= a < two160 -> 0 <= b < two160 -> addr_bytes a = addr_bytes b -> a = b.
Proof.
  intros Ha Hb E1. apply (f_equal be_to_Z) in E1. unfold addr_bytes in E1. rewrite !be_to_Z_Z_to_be in E1 by lia.
  change (256 ^ Z.of_nat 20) with two160 in E1. by rewrite !Z.mod_small in E1.
Qed.

Lemma go_len_short (l : bytes) : zlen l <= 1000 -> go_len l.
Proof. unfold go_len. lia. Qed.

Lemma signed_body_inj a b : auth_ok a -> auth_ok b -> signed_body a = signed_body b ->
  a_ChainID a = a_ChainID b /\ a_Address a = a_Address b /\ a_Nonce a = a_Nonce b.
Proof.
  intros Ha Hb Heq. pose proof (signed_body_bound a Ha) as La. unfold signed_body in *.
  apply rlp_uint_inj in Heq as [Hc Heq2]; [|apply Ha|apply Hb|apply go_len_short; lia].
  rewrite zlen_app in La. pose proof (zlen_nonneg (rlp_uint (a_ChainID a))).
  apply rlp_string_inj in Heq2 as [Hd Heq3]; [|apply go_len_short; lia]. rewrite zlen_app, zlen_rlp_address in La.
  rewrite <- (app_nil_r (rlp_uint (a_Nonce a))), <- (app_nil_r (rlp_uint (a_Nonce b))) in Heq3.
  apply rlp_uint_inj in Heq3 as [Hn _]; [|apply Ha|apply Hb|apply go_len_short; rewrite app_nil_r; lia].
  split; [exact Hc|]. split; [|exact Hn]. by apply addr_bytes_inj; [apply Ha|apply Hb|].
Qed.

Lemma RecoverSigner_exact a buf :
  auth_ok a -> a_Nonce a <> MaxUint64 -> 32 <= zlen buf ->
  exists buf', RecoverSigner a ([], buf) =
     Val (RecoverSignerFromRLP (rlp_list (signed_body a)) (a_YParity a) (a_R a) (a_S a), (rlp_list (signed_body a), buf')) /\
     zlen buf' = zlen buf.
Proof.
  intros Ha Hn Hb. pose proof (signed_body_bound a Ha) as La.
  unfold RecoverSigner. destruct (Z.eqb_spec (a_Nonce a) MaxUint64) as [|_]; [done|].
  rewrite Uint256Len_exact, U64Len_exact by apply Ha.
  replace (zlen (rlp_uint (a_ChainID a)) + (1 + 20) + zlen (rlp_uint (a_Nonce a))) with (zlen (signed_body a))
    by (unfold signed_body; rewrite !zlen_app, zlen_rlp_address; lia).
  assert (He : emits 32 (try_w (EncodeStructSizePrefix (zlen (signed_body a)))
    (try_w (EncodeUint256 (Some (a_ChainID a))) (try_w (EncodeOptionalAddress (Some (a_Address a))) (EncodeInt (a_Nonce a)))))
    (rlp_list (signed_body a))).
  { unfold rlp_list. set (n := zlen (signed_body a)) in *. unfold signed_body.
    repeat apply emits_seq; auto using emits32_address, emits32_int, EncodeUint256_emits, ao_chain, ao_nonce.
    apply emits32_header. unfold two64. lia. }
  destruct (He [] buf Hb) as (buf' & E1 & Hl). exists buf'. split; [|exact Hl].
  cbv zeta. unfold mbind, M_bind. rewrite E1. reflexivity.
Qed.

(** C29 An authorization signs what it says: with the 32-byte scratch buffer of the caller and
    a nonce other than the last one (2^64 - 1), the signer is recovered from the canonical
    list of chain, address and nonce, a message that determines the three (two authorizations
    with the same message agree on all of them); the delegation code written for an
    address names that address; and a list of authorizations is encoded in exactly
    [authorizationsSize] bytes. *)
Theorem authorization_signs a buf :
  auth_ok a -> a_Nonce a <> MaxUint64 -> 32 <= zlen buf ->
  (exists buf', RecoverSigner a ([], buf) =
     Val (RecoverSignerFromRLP (rlp_list (signed_body a)) (a_YParity a) (a_R a) (a_S a), (rlp_list (signed_body a), buf'))) /\
  (forall b, auth_ok b -> rlp_list (signed_body b) = rlp_list (signed_body a) ->
     a_ChainID b = a_ChainID a /\ a_Address b = a_Address a /\ a_Nonce b = a_Nonce a) /\
  ParseDelegation (AddressToDelegation (a_Address a)) = Some (a_Address a) /\
  (forall auths, Forall auth_ok auths ->
     exists out buf', encodeAuthorizations auths ([], buf) = Val (None, (out, buf')) /\ zlen out = authorizationsSize auths).
Proof.
  intros Ha Hn Hb. pose proof (signed_body_bound a Ha) as La. split; [|split; [|split]].
  - destruct (RecoverSigner_exact a buf Ha Hn Hb) as (buf' & E1 & _). by exists buf'.
  - intros b Hb' Heq. pose proof (signed_body_bound b Hb'). apply signed_body_inj; [assumption..|].
    apply rlp_list_inj; [|exact Heq]. apply go_len_short. unfold rlp_list. rewrite zlen_app.
    pose proof (zlen_header_bound (zlen (signed_body b)) ltac:(unfold two64; lia)). lia.
  - unfold ParseDelegation, AddressToDelegation. rewrite zlen_app.
    assert (HL : zlen (addr_bytes (a_Address a)) = 20) by (unfold zlen, addr_bytes; by rewrite length_Z_to_be).
    rewrite HL. change (zlen params.DelegatedDesignationPrefix + 20 =? 23) with true.
    rewrite (take_app_length' params.DelegatedDesignationPrefix), (drop_app_length' params.DelegatedDesignationPrefix) by reflexivity.
    rewrite bool_decide_eq_true_2 by reflexivity. cbn [negb orb]. f_equal. unfold addr_bytes.
    rewrite be_to_Z_Z_to_be by apply Ha. apply Z.mod_small. apply Ha.
  - intros auths Hauths. destruct (encodeAuthorizations_emits auths Hauths [] buf Hb) as (buf' & E1 & _).
    eexists _, buf'. split; [exact E1|]. by rewrite authorizationsSize_exact.
Qed.
End Authorization.

(** An authorization for chain 1, delegating to address 0x77 at nonce 5. *)
Definition demo_auth : Authorization := mkAuth 1 0x77 5 0 12 34.
Definition no_recovery : Secp256k1 := fun _ _ => inl (NewError "recovery failed").
Definition zero_hash : Keccak := fun _ => 0.

Lemma authorization_signs_witness :
  exists buf', RecoverSigner (U := uint256_ref) (K := zero_hash) (E := no_recovery) demo_auth ([], replicate 32 x00) =
    Val (inl (NewError "recovery failed"), (xd7 :: x01 :: x94 :: Z_to_be 20 0x77 ++ [x05], buf')).
Proof.
  destruct (authorization_signs (K := zero_hash) (E := no_recovery) (US := uint256_ref_spec) demo_auth (replicate 32 x00))
    as ((buf' & Eq) & _); [split; split; (discriminate || reflexivity)|discriminate|discriminate|].
  exists buf'. exact Eq.
Defined.
