(* ===== verification/ChainConfig.v ===== *)
(** * Chain configuration

    [execution/chain/chain_config.go], the fork fields of [polygon/bor/borcfg/bor_config.go]
    and [BlockContext.Rules] of [core/vm/evmtypes/rules.go]: which forks are active when,
    the blob schedule, and the two checks made on a configuration: that forks are in order
    ([CheckConfigForkOrder]) and that a new configuration does not change the past
    ([CheckCompatible]). *)

From stdpp Require Import sorting.
From S2P Require Import Prelude Params Errors Machine.

(** [x.Uint64()] of a [*big.Int]: the low 64 bits of the magnitude. *)
Definition big_Uint64 (x : Z) : Z := Z.abs x mod two64.

(** ** Parsing the keys of a configuration map *)

(** [strconv.ParseUint(s, 10, 64)]; [None] is a syntax or range error. *)
Fixpoint parse_digits (acc : Z) (s : string) : option Z :=
  match s with
  | EmptyString => Some acc
  | String c s =>
      let d := Z.of_nat (Ascii.nat_of_ascii c) - 48 in
      if (0 <=? d) && (d <=? 9) && (acc * 10 + d <? two64) then parse_digits (acc * 10 + d) s else None
  end.
Definition ParseUint (s : string) : option Z :=
  match s with EmptyString => None | _ => parse_digits 0 s end.

(** [for k, v := range m]: [m] lists the entries in the order of the iteration. *)
Fixpoint ParseMapKeysIntoUint64 {T} (m : list (string * T)) (res : gmap Z T) : Res (gmap Z T) :=
  match m with
  | [] => mret res
  | (k, v) :: m =>
      match ParseUint k with
      | Some keyU64 => ParseMapKeysIntoUint64 m (<[keyU64 := v]> res)
      | None => Panic "strconv.ParseUint: invalid syntax"
      end
  end.

Definition SortedKeys {T} (m : gmap Z T) : list Z := merge_sort Z.le (map fst (map_to_list m)).

(** The loop over consecutive keys, then the last one. *)
Fixpoint lookup_keys {T} (zero : T) (field : gmap Z T) (number : Z) (keys : list Z) : T :=
  match keys with
  | [] => zero
  | [k] => default zero (field !! k)
  | k :: (k' :: _) as rest =>
      if (k <=? number) && (number <? k') then default zero (field !! k)
      else lookup_keys zero field number rest
  end.

(** [zero] is the zero value of [T]. *)
Definition ConfigValueLookup {T} (zero : T) (field : gmap Z T) (number : Z) : Res T :=
  let keys := SortedKeys field in
  k0 ← go_index keys 0;
  if number <? k0 then mret zero else mret (lookup_keys zero field number keys).

(** ** Data *)

(** [params.BlobConfig]. *)
Record BlobConfig : Type := mkBlobConfig { BaseFeeUpdateFraction : Z; Max : Z; Target : Z }.
Definition zeroBlobConfig : BlobConfig := mkBlobConfig 0 0 0.
Definition DefaultCancunBlobConfig : BlobConfig := mkBlobConfig 3338477 6 3.
Definition DefaultPragueBlobConfig : BlobConfig := mkBlobConfig 5007716 9 6.
Definition DefaultOsakaBlobConfig : BlobConfig := mkBlobConfig 5007716 9 6.

(** The fork blocks of [borcfg.BorConfig], the implementation of the [BorConfig]
    interface. *)
Record BorConfig : Type := mkBorConfig {
  JaipurBlock : option Z; DelhiBlock : option Z; IndoreBlock : option Z; AgraBlock : option Z;
  NapoliBlock : option Z; AhmedabadBlock : option Z; BhilaiBlock : option Z; VeBlopBlock : option Z
}.

Module chain.
(** [chain.Config], less the names and the engine parameters that are never read here;
    [Aura] says whether the pointer is set. A nil [*BlobConfig] in the schedule is [None]. *)
Record Config : Type := mkConfig {
  ChainID : option Z;
  HomesteadBlock : option Z; DAOForkBlock : option Z; TangerineWhistleBlock : option Z;
  SpuriousDragonBlock : option Z; ByzantiumBlock : option Z; ConstantinopleBlock : option Z;
  PetersburgBlock : option Z; IstanbulBlock : option Z; MuirGlacierBlock : option Z;
  BerlinBlock : option Z; LondonBlock : option Z; ArrowGlacierBlock : option Z;
  GrayGlacierBlock : option Z; MergeNetsplitBlock : option Z; MergeHeight : option Z;
  ShanghaiTime : option Z; CancunTime : option Z; PragueTime : option Z; OsakaTime : option Z;
  MinBlobGasPrice : option Z;
  BlobSchedule : gmap string (option BlobConfig);
  Bpo1Time : option Z; Bpo2Time : option Z; Bpo3Time : option Z; Bpo4Time : option Z; Bpo5Time : option Z;
  BurntContract : list (string * Z);
  DepositContract : Z;
  Aura : bool;
  Bor : option BorConfig
}.

(** [TestChainConfig] and [AllProtocolChanges] of the source. *)
Definition TestChainConfig : Config :=
  mkConfig (Some 1337) (Some 0) None (Some 0) (Some 0) (Some 0) (Some 0) (Some 0) (Some 0) (Some 0) (Some 0)
    None None None None None None None None None None ∅ None None None None None [] 0 false None.
Definition AllProtocolChanges : Config :=
  mkConfig (Some 1337) (Some 0) None (Some 0) (Some 0) (Some 0) (Some 0) (Some 0) (Some 0) (Some 0) (Some 0)
    (Some 0) (Some 0) (Some 0) None None (Some 0) (Some 0) (Some 0) None None ∅ None None None None None [] 0 false None.

(** ** Forks *)

Definition isForked (s : option Z) (head : Z) : bool :=
  match s with None => false | Some s => big_Uint64 s <=? head end.

Definition IsHomestead (c : Config) (num : Z) : bool := isForked (HomesteadBlock c) num.
Definition IsDAOFork (c : Config) (num : Z) : bool := isForked (DAOForkBlock c) num.
Definition IsTangerineWhistle (c : Config) (num : Z) : bool := isForked (TangerineWhistleBlock c) num.
Definition IsSpuriousDragon (c : Config) (num : Z) : bool := isForked (SpuriousDragonBlock c) num.
Definition IsByzantium (c : Config) (num : Z) : bool := isForked (ByzantiumBlock c) num.
Definition IsConstantinople (c : Config) (num : Z) : bool := isForked (ConstantinopleBlock c) num.
Definition IsMuirGlacier (c : Config) (num : Z) : bool := isForked (MuirGlacierBlock c) num.
Definition IsPetersburg (c : Config) (num : Z) : bool :=
  isForked (PetersburgBlock c) num ||
  match PetersburgBlock c with None => isForked (ConstantinopleBlock c) num | Some _ => false end.
Definition IsIstanbul (c : Config) (num : Z) : bool := isForked (IstanbulBlock c) num.
Definition IsBerlin (c : Config) (num : Z) : bool := isForked (BerlinBlock c) num.
Definition IsLondon (c : Config) (num : Z) : bool := isForked (LondonBlock c) num.
Definition IsArrowGlacier (c : Config) (num : Z) : bool := isForked (ArrowGlacierBlock c) num.
Definition IsGrayGlacier (c : Config) (num : Z) : bool := isForked (GrayGlacierBlock c) num.
Definition IsShanghai (c : Config) (time : Z) : bool := isForked (ShanghaiTime c) time.
Definition IsCancun (c : Config) (time : Z) : bool := isForked (CancunTime c) time.
Definition IsPrague (c : Config) (time : Z) : bool := isForked (PragueTime c) time.
Definition IsOsaka (c : Config) (time : Z) : bool := isForked (OsakaTime c) time.

(** The forks of a Bor chain: [(c.Bor != nil) && c.Bor.IsX(num)]. *)
Definition bor_forked (block : BorConfig -> option Z) (c : Config) (num : Z) : bool :=
  match Bor c with None => false | Some b => isForked (block b) num end.
Definition IsAgra : Config -> Z -> bool := bor_forked AgraBlock.
Definition IsNapoli : Config -> Z -> bool := bor_forked NapoliBlock.
Definition IsBhilai : Config -> Z -> bool := bor_forked BhilaiBlock.

Definition IsPreMerge (c : Config) (blockNumber : Z) : bool :=
  match MergeHeight c with Some h => blockNumber <? big_Uint64 h | None => false end.

(** [BlockContext.Rules]. *)
Definition BlockContext_Rules (number time : Z) (c : Config) : Rules :=
  mkRules (default 0 (ChainID c))
    (IsHomestead c number) (IsTangerineWhistle c number) (IsSpuriousDragon c number)
    (IsByzantium c number) (IsConstantinople c number) (IsPetersburg c number)
    (IsIstanbul c number) (IsBerlin c number) (IsLondon c number)
    (IsShanghai c time || IsAgra c number)
    (IsCancun c time) (IsNapoli c number) (IsBhilai c number)
    (IsPrague c time || IsBhilai c number) (IsOsaka c time) (Aura c).

(** ** Values that change with the forks *)

Definition GetBurntContract (c : Config) (num : Z) : Res (option Z) :=
  match BurntContract c with
  | [] => mret None
  | m => field ← ParseMapKeysIntoUint64 m ∅;
         addr ← ConfigValueLookup 0 field num;
         mret (Some addr)
  end.

Definition GetMinBlobGasPrice (c : Config) : Z := default 1 (MinBlobGasPrice c).

(** One default of the schedule: set when the fork is scheduled. *)
Definition set_default (t : option Z) (v : BlobConfig) (m : gmap Z (option BlobConfig)) :=
  match t with Some t => <[big_Uint64 t := Some v]> m | None => m end.
(** One override: set when it is supplied and the fork is scheduled. *)
Definition set_override (c : Config) (name : string) (t : option Z) (m : gmap Z (option BlobConfig)) :=
  match BlobSchedule c !! name, t with
  | Some v, Some t => <[big_Uint64 t := v]> m
  | _, _ => m
  end.

(** What [parseBlobScheduleOnce] computes, the first time the configuration is asked. *)
Definition parsedBlobSchedule (c : Config) : gmap Z (option BlobConfig) :=
  let m := {[ 0 := Some zeroBlobConfig ]} in
  let m := set_default (CancunTime c) DefaultCancunBlobConfig m in
  let m := set_default (PragueTime c) DefaultPragueBlobConfig m in
  let m := set_default (OsakaTime c) DefaultOsakaBlobConfig m in
  let m := set_override c "cancun" (CancunTime c) m in
  let m := set_override c "prague" (PragueTime c) m in
  let m := set_override c "osaka" (OsakaTime c) m in
  let m := set_override c "bpo1" (Bpo1Time c) m in
  let m := set_override c "bpo2" (Bpo2Time c) m in
  let m := set_override c "bpo3" (Bpo3Time c) m in
  let m := set_override c "bpo4" (Bpo4Time c) m in
  set_override c "bpo5" (Bpo5Time c) m.

Definition GetBlobConfig (c : Config) (time : Z) : Res (option BlobConfig) :=
  ConfigValueLookup None (parsedBlobSchedule c) time.

(** Reading a field through the pointer. *)
Definition blob_field (f : BlobConfig -> Z) (c : Config) (time : Z) : Res Z :=
  b ← GetBlobConfig c time;
  match b with
  | Some b => mret (f b)
  | None => Panic "invalid memory address or nil pointer dereference"
  end.
Definition GetMaxBlobsPerBlock : Config -> Z -> Res Z := blob_field Max.
Definition GetMaxBlobGasPerBlock (c : Config) (time : Z) : Res Z :=
  n ← GetMaxBlobsPerBlock c time; mret (u64 (n * params.GasPerBlob)).
Definition GetTargetBlobsPerBlock : Config -> Z -> Res Z := blob_field Target.
Definition GetBlobGasPriceUpdateFraction : Config -> Z -> Res Z := blob_field BaseFeeUpdateFraction.

Definition SecondsPerSlot (c : Config) : Z :=
  match Bor c with Some _ => 2 | None => if Aura c then 5 else 12 end.

(** [math.MaxInt] is that of a 64-bit platform. *)
Definition GetMaxRlpBlockSize (c : Config) (time : Z) : Z :=
  if IsOsaka c time then params.MaxRlpBlockSize else 2 ^ 63 - 1.

Definition SystemContracts (c : Config) (time : Z) : gmap string Z :=
  let contracts : gmap string Z := ∅ in
  let contracts :=
    if IsCancun c time then <["BEACON_ROOTS_ADDRESS"%string := params.BeaconRootsAddress]> contracts else contracts in
  if IsPrague c time then
    <["WITHDRAWAL_REQUEST_PREDEPLOY_ADDRESS"%string := params.WithdrawalRequestAddress]>
    (<["HISTORY_STORAGE_ADDRESS"%string := params.HistoryStorageAddress]>
    (<["DEPOSIT_CONTRACT_ADDRESS"%string := DepositContract c]>
    (<["CONSOLIDATION_REQUEST_PREDEPLOY_ADDRESS"%string := params.ConsolidationRequestAddress]> contracts)))
  else contracts.

(** ** The order of the forks *)

Record forkBlockNumber : Type := mkFork { name : string; blockNumber : option Z; optional : bool }.

Definition forkBlockNumbers (c : Config) : list forkBlockNumber :=
  [ mkFork "homesteadBlock" (HomesteadBlock c) false;
    mkFork "daoForkBlock" (DAOForkBlock c) true;
    mkFork "eip150Block" (TangerineWhistleBlock c) false;
    mkFork "eip155Block" (SpuriousDragonBlock c) false;
    mkFork "byzantiumBlock" (ByzantiumBlock c) false;
    mkFork "constantinopleBlock" (ConstantinopleBlock c) false;
    mkFork "petersburgBlock" (PetersburgBlock c) false;
    mkFork "istanbulBlock" (IstanbulBlock c) false;
    mkFork "muirGlacierBlock" (MuirGlacierBlock c) true;
    mkFork "berlinBlock" (BerlinBlock c) false;
    mkFork "londonBlock" (LondonBlock c) false;
    mkFork "arrowGlacierBlock" (ArrowGlacierBlock c) true;
    mkFork "grayGlacierBlock" (GrayGlacierBlock c) true;
    mkFork "mergeNetsplitBlock" (MergeNetsplitBlock c) true ].

Definition errForkOrder : Error := NewError "unsupported fork ordering".

Fixpoint fork_order_loop (lastFork : forkBlockNumber) (forks : list forkBlockNumber) : option Error :=
  match forks with
  | [] => None
  | fork :: forks =>
      let bad :=
        if negb (String.eqb (name lastFork) "") then
          match blockNumber lastFork, blockNumber fork with
          | None, Some _ => true
          | Some l, Some f => f <? l
          | _, None => false
          end
        else false in
      if bad then Some errForkOrder
      else fork_order_loop
             (if negb (optional fork) || match blockNumber fork with Some _ => true | None => false end
              then fork else lastFork) forks
  end.

Definition CheckConfigForkOrder (c : Config) : option Error :=
  if match ChainID c with Some id => big_Uint64 id =? 77 | None => false end then None
  else fork_order_loop (mkFork "" None false) (forkBlockNumbers c).

(** ** Compatibility of a new configuration *)

Definition numEqual (x y : option Z) : bool :=
  match x, y with
  | None, None => true
  | Some x, Some y => x =? y
  | _, _ => false
  end.

Record ConfigCompatError : Type := mkCompatError {
  What : string; StoredConfig : option Z; NewConfig : option Z; RewindTo : Z
}.

Definition newCompatError (what : string) (storedblock newblock : option Z) : ConfigCompatError :=
  let rew := match storedblock, newblock with
             | None, n => n
             | Some s, None => Some s
             | Some s, Some n => if s <? n then Some s else Some n
             end in
  mkCompatError what storedblock newblock
    (match rew with
     | Some r => if 0 <? r then u64 (big_Uint64 r - 1) else 0
     | None => 0
     end).

Definition incompatible (s1 s2 : option Z) (head : Z) : bool :=
  (isForked s1 head || isForked s2 head) && negb (numEqual s1 s2).

Definition checkCompatible (c newcfg : Config) (head : Z) : option ConfigCompatError :=
  if incompatible (HomesteadBlock c) (HomesteadBlock newcfg) head then
    Some (newCompatError "Homestead fork block" (HomesteadBlock c) (HomesteadBlock newcfg))
  else if incompatible (DAOForkBlock c) (DAOForkBlock newcfg) head then
    Some (newCompatError "DAO fork block" (DAOForkBlock c) (DAOForkBlock newcfg))
  else if incompatible (TangerineWhistleBlock c) (TangerineWhistleBlock newcfg) head then
    Some (newCompatError "Tangerine Whistle fork block" (TangerineWhistleBlock c) (TangerineWhistleBlock newcfg))
  else if incompatible (SpuriousDragonBlock c) (SpuriousDragonBlock newcfg) head then
    Some (newCompatError "Spurious Dragon fork block" (SpuriousDragonBlock c) (SpuriousDragonBlock newcfg))
  else if IsSpuriousDragon c head && negb (numEqual (ChainID c) (ChainID newcfg)) then
    Some (newCompatError "EIP155 chain ID" (SpuriousDragonBlock c) (SpuriousDragonBlock newcfg))
  else if incompatible (ByzantiumBlock c) (ByzantiumBlock newcfg) head then
    Some (newCompatError "Byzantium fork block" (ByzantiumBlock c) (ByzantiumBlock newcfg))
  else if incompatible (ConstantinopleBlock c) (ConstantinopleBlock newcfg) head then
    Some (newCompatError "Constantinople fork block" (ConstantinopleBlock c) (ConstantinopleBlock newcfg))
  else if incompatible (PetersburgBlock c) (PetersburgBlock newcfg) head &&
          incompatible (ConstantinopleBlock c) (PetersburgBlock newcfg) head then
    Some (newCompatError "Petersburg fork block" (PetersburgBlock c) (PetersburgBlock newcfg))
  else if incompatible (IstanbulBlock c) (IstanbulBlock newcfg) head then
    Some (newCompatError "Istanbul fork block" (IstanbulBlock c) (IstanbulBlock newcfg))
  else if incompatible (MuirGlacierBlock c) (MuirGlacierBlock newcfg) head then
    Some (newCompatError "Muir Glacier fork block" (MuirGlacierBlock c) (MuirGlacierBlock newcfg))
  else if incompatible (BerlinBlock c) (BerlinBlock newcfg) head then
    Some (newCompatError "Berlin fork block" (BerlinBlock c) (BerlinBlock newcfg))
  else if incompatible (LondonBlock c) (LondonBlock newcfg) head then
    Some (newCompatError "London fork block" (LondonBlock c) (LondonBlock newcfg))
  else if incompatible (ArrowGlacierBlock c) (ArrowGlacierBlock newcfg) head then
    Some (newCompatError "Arrow Glacier fork block" (ArrowGlacierBlock c) (ArrowGlacierBlock newcfg))
  else if incompatible (GrayGlacierBlock c) (GrayGlacierBlock newcfg) head then
    Some (newCompatError "Gray Glacier fork block" (GrayGlacierBlock c) (GrayGlacierBlock newcfg))
  else if incompatible (MergeNetsplitBlock c) (MergeNetsplitBlock newcfg) head then
    Some (newCompatError "Merge netsplit block" (MergeNetsplitBlock c) (MergeNetsplitBlock newcfg))
  else None.

Fixpoint compatible_loop (fuel : nat) (c newcfg : Config) (bhead : Z) (lasterr : option ConfigCompatError)
    : Res (option ConfigCompatError) :=
  match fuel with
  | O => OutOfFuel
  | S fuel =>
      match checkCompatible c newcfg bhead with
      | None => Val lasterr
      | Some err =>
          if match lasterr with Some l => RewindTo err =? RewindTo l | None => false end then Val lasterr
          else compatible_loop fuel c newcfg (RewindTo err) (Some err)
      end
  end.

(** The loop ends within two iterations more than there are tests (15), see
    [CheckCompatible_lowest]. *)
Definition CheckCompatible (c newcfg : Config) (height : Z) : Res (option ConfigCompatError) :=
  compatible_loop 17 c newcfg height None.
End chain.
