(* ===== verification/ChainConfigSpec.v ===== *)
(** * Chain configuration: the checks are right

    [CheckConfigForkOrder] accepts exactly the configurations whose forks are in order,
    and then every fork comes with the forks before it. [CheckCompatible] stops and
    returns the highest compatible height. [ConfigValueLookup] is the càdlàg lookup its
    comment describes. *)

From stdpp Require Import sorting.
From S2P Require Import Prelude Params Errors Machine ChainConfig.
Import chain.

(** ** Looking up a value *)

Lemma SortedKeys_perm {T} (m : gmap Z T) : Permutation (SortedKeys m) (map fst (map_to_list m)).
Proof. apply merge_sort_Permutation. Qed.

Lemma SortedKeys_sorted {T} (m : gmap Z T) : StronglySorted Z.le (SortedKeys m).
Proof. apply Sorted_StronglySorted; [intros a b c; lia|]. apply Sorted_merge_sort. intros a b; lia. Qed.

Lemma elem_of_SortedKeys {T} (m : gmap Z T) k : k ∈ SortedKeys m <-> exists v, m !! k = Some v.
Proof.
  rewrite (SortedKeys_perm m). change (map fst) with (fmap (M := list) (@fst Z T)).
  rewrite list_elem_of_fmap. split.
  - intros ([k' v] & -> & H). apply elem_of_map_to_list in H. eauto.
  - intros (v & H). exists (k, v). split; [reflexivity|]. by apply elem_of_map_to_list.
Qed.

(** The greatest key at most [number], and its value. *)
Definition value_as_of {T} (zero : T) (field : gmap Z T) (number : Z) (v : T) : Prop :=
  ((forall k w, field !! k = Some w -> number < k) /\ v = zero) \/
  (exists k, field !! k = Some v /\ k <= number /\ forall k' w, field !! k' = Some w -> k' <= number -> k' <= k).

Lemma lookup_keys_spec {T} (zero : T) field number keys :
  StronglySorted Z.le keys -> (forall k, k ∈ keys -> exists v, field !! k = Some v) ->
  (exists k, head keys = Some k /\ k <= number) ->
  exists k, k ∈ keys /\ k <= number /\ field !! k = Some (lookup_keys zero field number keys) /\
    forall k', k' ∈ keys -> k' <= number -> k' <= k.
Proof.
  induction keys as [|k keys IH]; intros Hs Hk (k0 & Hh & Hn); [done|]. injection Hh as <-.
  apply StronglySorted_inv in Hs as [Hs Hall]. rewrite Forall_forall in Hall.
  destruct (Hk k ltac:(left)) as [v Hv]. destruct keys as [|k1 keys].
  - exists k. cbn. rewrite Hv. repeat split; [by left|assumption|]. intros k' ->%list_elem_of_singleton. lia.
  - cbn [lookup_keys]. destruct (Z.leb_spec k number); [|lia]. cbn [andb]. destruct (Z.ltb_spec number k1).
    + exists k. rewrite Hv. repeat split; [by left|assumption|]. intros k' Hin Hle.
      apply elem_of_cons in Hin as [->|Hin]; [lia|]. exfalso.
      apply elem_of_cons in Hin as [->|Hin]; [lia|].
      apply StronglySorted_inv in Hs as [_ Hs]. rewrite Forall_forall in Hs. specialize (Hs _ Hin). lia.
    + destruct IH as (k2 & Hin & Hle & Hl & Hmax); [assumption|intros; apply Hk; by right|by exists k1|].
      exists k2. repeat split; [by right|assumption|assumption|]. intros k' Hin' Hle'.
      apply elem_of_cons in Hin' as [->|Hin']; [|by apply Hmax]. apply Hall, Hin.
Qed.

(** A lookup in a non-empty map returns the value as of [number]. *)
Lemma ConfigValueLookup_spec {T} (zero : T) (field : gmap Z T) number :
  field <> ∅ -> exists v, ConfigValueLookup zero field number = Val v /\ value_as_of zero field number v.
Proof.
  intros Hne. unfold ConfigValueLookup.
  pose proof (SortedKeys_sorted field) as Hs.
  assert (Hk : forall k, k ∈ SortedKeys field <-> exists v, field !! k = Some v) by apply elem_of_SortedKeys.
  destruct (SortedKeys field) as [|k0 keys] eqn:E.
  { exfalso. apply map_choose in Hne as (k & v & H). apply (not_elem_of_nil k). apply Hk. eauto. }
  change (go_index (k0 :: keys) 0) with (Val k0 : Res Z). cbn [mbind Res_bind].
  destruct (Z.ltb_spec number k0).
  - exists zero. split; [reflexivity|]. left. split; [|reflexivity]. intros k w H'.
    assert (Hin : k ∈ k0 :: keys) by (apply Hk; eauto).
    apply elem_of_cons in Hin as [->|Hin]; [assumption|].
    apply StronglySorted_inv in Hs as [_ Hs]. rewrite Forall_forall in Hs. specialize (Hs _ Hin). lia.
  - eexists. split; [reflexivity|]. right.
    destruct (lookup_keys_spec zero field number (k0 :: keys)) as (k & Hin & Hle & Hl & Hmax);
      [assumption|by intros; apply Hk|by exists k0|].
    exists k. repeat split; [assumption|assumption|]. intros k' w Hw. apply Hmax, Hk. eauto.
Qed.

Lemma parsedBlobSchedule_nonempty c : parsedBlobSchedule c <> ∅.
Proof.
  unfold parsedBlobSchedule.
  assert (Hd : forall t v m, m <> ∅ -> set_default t v m <> ∅).
  { intros [t|] v m H; [apply insert_non_empty|assumption]. }
  assert (Ho : forall n t m, m <> ∅ -> set_override c n t m <> ∅).
  { intros n t m H. unfold set_override. destruct (BlobSchedule c !! n), t; try assumption; apply insert_non_empty. }
  do 8 apply Ho. do 3 apply Hd. apply map_non_empty_singleton.
Qed.

(** ** The order of the forks *)

(** A fork that counts: required, or scheduled. *)
Definition counts (f : forkBlockNumber) : bool :=
  negb (optional f) || match blockNumber f with Some _ => true | None => false end.

(** [f2] may follow [f1]. *)
Definition may_follow (f1 f2 : forkBlockNumber) : Prop :=
  forall b, blockNumber f2 = Some b -> exists a, blockNumber f1 = Some a /\ a <= b.

#[export] Instance may_follow_trans : Transitive may_follow.
Proof.
  intros f1 f2 f3 H12 H23 c Hc. destruct (H23 c Hc) as (b & Hb & Hle). destruct (H12 b Hb) as (a & Ha & Hle').
  exists a. split; [assumption|lia].
Qed.

Lemma fork_order_loop_spec last forks :
  name last <> "" -> (forall f, f ∈ forks -> name f <> "") ->
  fork_order_loop last forks = None <-> Sorted may_follow (last :: filter (fun f => Is_true (counts f)) forks).
Proof.
  revert last. induction forks as [|f forks IH]; intros last Hl Hn.
  { rewrite filter_nil. split; [intros _; repeat constructor|reflexivity]. }
  cbn [fork_order_loop]. rewrite (proj2 (String.eqb_neq _ _) Hl). cbn [negb].
  assert (Hbad : match blockNumber last, blockNumber f with
                 | None, Some _ => true | Some l, Some f => f <? l | _, None => false end = false
                 <-> may_follow last f).
  { unfold may_follow. destruct (blockNumber last) as [l|], (blockNumber f) as [b|]; split; intros H.
    - intros ? [= <-]. exists l. split; [reflexivity|]. by apply Z.ltb_ge.
    - destruct (H b eq_refl) as (a & [= <-] & Hle). by apply Z.ltb_ge.
    - by intros ? [=].
    - reflexivity.
    - discriminate.
    - by destruct (H b eq_refl) as (a & [=] & _).
    - by intros ? [=].
    - reflexivity. }
  fold (counts f). rewrite filter_cons. destruct (match blockNumber last with Some _ => _ | None => _ end) eqn:E.
  - split; [discriminate|]. intros Hs. exfalso. enough (may_follow last f) by (apply Hbad in H; discriminate).
    intros b Hb. assert (Hc : counts f = true) by (unfold counts; rewrite Hb; apply orb_true_r).
    rewrite Hc in Hs. cbn in Hs. rewrite decide_True in Hs by done.
    inversion Hs as [|? ? _ Hr]; subst. inversion Hr as [|? ? Hm]; subst. by apply Hm.
  - destruct Hbad as [Hbad _]. specialize (Hbad eq_refl). destruct (counts f) eqn:Hc; cbn.
    + rewrite decide_True by done. rewrite IH; [|apply Hn; by left|intros; apply Hn; by right].
      split; [intros Hs; constructor; [assumption|by constructor]|by inversion 1].
    + rewrite decide_False by tauto. apply IH; [assumption|]. intros; apply Hn; by right.
Qed.

(** The first fork is not compared; when it is required the loop goes on from it. *)
Lemma fork_order_loop_start f forks :
  optional f = false -> fork_order_loop (mkFork "" None false) (f :: forks) = fork_order_loop f forks.
Proof. intros H. cbn [fork_order_loop name String.eqb negb]. by rewrite H. Qed.

Lemma CheckConfigForkOrder_sorted c :
  (forall id, ChainID c = Some id -> big_Uint64 id <> 77) ->
  CheckConfigForkOrder c = None <->
  StronglySorted may_follow (filter (fun f => Is_true (counts f)) (forkBlockNumbers c)).
Proof.
  intros Hid. unfold CheckConfigForkOrder.
  replace (match ChainID c with Some id => big_Uint64 id =? 77 | None => false end) with false.
  2:{ destruct (ChainID c) as [id|]; [|reflexivity]. symmetry. apply Z.eqb_neq. by apply Hid. }
  unfold forkBlockNumbers. rewrite fork_order_loop_start by reflexivity.
  rewrite fork_order_loop_spec; [|discriminate|].
  2:{ intros f Hf. repeat (apply elem_of_cons in Hf as [->|Hf]; [discriminate|]). by apply not_elem_of_nil in Hf. }
  rewrite (filter_cons_True _ (mkFork "homesteadBlock" _ _)) by done.
  split; [apply Sorted_StronglySorted; apply _|apply StronglySorted_Sorted].
Qed.

Lemma big_Uint64_id b : is_u64 b -> big_Uint64 b = b.
Proof. unfold is_u64, big_Uint64. intros. rewrite Z.abs_eq by lia. apply Z.mod_small. lia. Qed.

(** All fork blocks of a configuration fit in 64 bits. *)
Definition blocks_u64 (c : Config) : Prop :=
  forall f b, f ∈ forkBlockNumbers c -> blockNumber f = Some b -> is_u64 b.

(** In an accepted configuration a required fork is active whenever a later one is. *)
Lemma fork_order_active c l1 f1 l2 f2 l3 n :
  (forall id, ChainID c = Some id -> big_Uint64 id <> 77) -> CheckConfigForkOrder c = None -> blocks_u64 c ->
  forkBlockNumbers c = l1 ++ f1 :: l2 ++ f2 :: l3 -> optional f1 = false ->
  isForked (blockNumber f2) n = true -> isForked (blockNumber f1) n = true.
Proof.
  intros Hid Hc Hu Hl Ho Hf. rewrite CheckConfigForkOrder_sorted in Hc by assumption.
  unfold isForked in Hf. destruct (blockNumber f2) as [b|] eqn:Eb; [|discriminate].
  assert (H1 : counts f1 = true) by (unfold counts; by rewrite Ho).
  assert (H2 : counts f2 = true) by (unfold counts; rewrite Eb; apply orb_true_r).
  rewrite Hl, filter_app, filter_cons_True, filter_app, filter_cons_True in Hc by (by rewrite ?H1, ?H2).
  assert (Hm : may_follow f1 f2).
  { clear -Hc. induction (filter _ l1) as [|f l IH]; cbn in Hc; apply StronglySorted_inv in Hc as [Hc Hall]; [|by apply IH].
    rewrite Forall_forall in Hall. apply Hall. apply elem_of_app. right. by left. }
  destruct (Hm b Eb) as (a & Ea & Hle).
  assert (is_u64 a). { apply (Hu f1); [rewrite Hl|assumption]. apply elem_of_app. right. by left. }
  assert (is_u64 b). { apply (Hu f2); [rewrite Hl|assumption]. apply elem_of_app. right. right. apply elem_of_app. right. by left. }
  rewrite Ea. cbn. rewrite big_Uint64_id in * by assumption. apply Z.leb_le in Hf. apply Z.leb_le. lia.
Qed.

(** The same, by position. *)
Lemma fork_order_active_at c n :
  (forall id, ChainID c = Some id -> big_Uint64 id <> 77) -> CheckConfigForkOrder c = None -> blocks_u64 c ->
  forall i j f1 f2, forkBlockNumbers c !! i = Some f1 -> forkBlockNumbers c !! j = Some f2 -> (i < j)%nat ->
  optional f1 = false -> isForked (blockNumber f2) n = true -> isForked (blockNumber f1) n = true.
Proof.
  intros Hid Hc Hu i j f1 f2 H1 H2 Hij. pose proof (take_drop_middle _ _ _ H1) as E1.
  assert (H2' : drop (S i) (forkBlockNumbers c) !! (j - S i)%nat = Some f2)
    by (rewrite lookup_drop; by replace (S i + (j - S i))%nat with j by lia).
  pose proof (take_drop_middle _ _ _ H2') as E2. rewrite <- E2 in E1. symmetry in E1.
  by apply (fork_order_active c _ _ _ _ _ n Hid Hc Hu E1).
Qed.

(** Each block-numbered fork implies the one before it. *)
Definition cumulative (r : Rules) : Prop :=
  (Machine.IsLondon r = true -> Machine.IsBerlin r = true) /\
  (Machine.IsBerlin r = true -> Machine.IsIstanbul r = true) /\
  (Machine.IsIstanbul r = true -> Machine.IsPetersburg r = true) /\
  (Machine.IsPetersburg r = true -> Machine.IsConstantinople r = true) /\
  (Machine.IsConstantinople r = true -> Machine.IsByzantium r = true) /\
  (Machine.IsByzantium r = true -> Machine.IsSpuriousDragon r = true) /\
  (Machine.IsSpuriousDragon r = true -> Machine.IsTangerineWhistle r = true) /\
  (Machine.IsTangerineWhistle r = true -> Machine.IsHomestead r = true).

(** [CheckConfigForkOrder] is exact: it accepts a configuration if and only if, among
    the forks that are required or scheduled, each may follow the ones before it (they
    are scheduled, no later); and under the rules of an accepted configuration every
    block-numbered fork comes with all the earlier ones, at any block. *)
Theorem CheckConfigForkOrder_correct c :
  (forall id, ChainID c = Some id -> big_Uint64 id <> 77) ->
  (CheckConfigForkOrder c = None <->
   StronglySorted may_follow (filter (fun f => Is_true (counts f)) (forkBlockNumbers c))) /\
  (CheckConfigForkOrder c = None -> blocks_u64 c -> forall number time, cumulative (BlockContext_Rules number time c)).
Proof.
  intros Hid. split; [by apply CheckConfigForkOrder_sorted|]. intros Hc Hu n t.
  pose proof (fork_order_active_at c n Hid Hc Hu) as A.
  repeat split; cbn.
  - exact (A 9%nat 10%nat _ _ eq_refl eq_refl ltac:(lia) eq_refl).
  - exact (A 7%nat 9%nat _ _ eq_refl eq_refl ltac:(lia) eq_refl).
  - unfold IsPetersburg. intros Hi. apply orb_true_iff. left. revert Hi.
    exact (A 6%nat 7%nat _ _ eq_refl eq_refl ltac:(lia) eq_refl).
  - unfold IsPetersburg. intros [Hp|Hp]%orb_true_iff; [|by destruct (PetersburgBlock c)]. revert Hp.
    exact (A 5%nat 6%nat _ _ eq_refl eq_refl ltac:(lia) eq_refl).
  - exact (A 4%nat 5%nat _ _ eq_refl eq_refl ltac:(lia) eq_refl).
  - exact (A 3%nat 4%nat _ _ eq_refl eq_refl ltac:(lia) eq_refl).
  - exact (A 2%nat 3%nat _ _ eq_refl eq_refl ltac:(lia) eq_refl).
  - exact (A 0%nat 2%nat _ _ eq_refl eq_refl ltac:(lia) eq_refl).
Qed.

(** ** Compatibility *)

(** A test of [checkCompatible]: when it fires, and the two blocks it reports. *)
Record compat_test : Type := mkTest {
  t_what : string; t_fires : Z -> bool; t_stored : option Z; t_new : option Z
}.

Definition pair_test (what : string) (s1 s2 : option Z) : compat_test :=
  mkTest what (incompatible s1 s2) s1 s2.

Definition compat_tests (c newcfg : Config) : list compat_test :=
  [ pair_test "Homestead fork block" (HomesteadBlock c) (HomesteadBlock newcfg);
    pair_test "DAO fork block" (DAOForkBlock c) (DAOForkBlock newcfg);
    pair_test "Tangerine Whistle fork block" (TangerineWhistleBlock c) (TangerineWhistleBlock newcfg);
    pair_test "Spurious Dragon fork block" (SpuriousDragonBlock c) (SpuriousDragonBlock newcfg);
    mkTest "EIP155 chain ID"
      (fun h => IsSpuriousDragon c h && numEqual (SpuriousDragonBlock c) (SpuriousDragonBlock newcfg)
                && negb (numEqual (ChainID c) (ChainID newcfg)))
      (SpuriousDragonBlock c) (SpuriousDragonBlock newcfg);
    pair_test "Byzantium fork block" (ByzantiumBlock c) (ByzantiumBlock newcfg);
    pair_test "Constantinople fork block" (ConstantinopleBlock c) (ConstantinopleBlock newcfg);
    mkTest "Petersburg fork block"
      (fun h => incompatible (PetersburgBlock c) (PetersburgBlock newcfg) h
                && incompatible (ConstantinopleBlock c) (PetersburgBlock newcfg) h)
      (PetersburgBlock c) (PetersburgBlock newcfg);
    pair_test "Istanbul fork block" (IstanbulBlock c) (IstanbulBlock newcfg);
    pair_test "Muir Glacier fork block" (MuirGlacierBlock c) (MuirGlacierBlock newcfg);
    pair_test "Berlin fork block" (BerlinBlock c) (BerlinBlock newcfg);
    pair_test "London fork block" (LondonBlock c) (LondonBlock newcfg);
    pair_test "Arrow Glacier fork block" (ArrowGlacierBlock c) (ArrowGlacierBlock newcfg);
    pair_test "Gray Glacier fork block" (GrayGlacierBlock c) (GrayGlacierBlock newcfg);
    pair_test "Merge netsplit block" (MergeNetsplitBlock c) (MergeNetsplitBlock newcfg) ].

(** The error of the first test that fires. *)
Definition first_error (l : list compat_test) (head : Z) : option ConfigCompatError :=
  match List.find (fun t => t_fires t head) l with
  | Some t => Some (newCompatError (t_what t) (t_stored t) (t_new t))
  | None => None
  end.

Lemma first_error_cons t l head :
  first_error (t :: l) head =
  if t_fires t head then Some (newCompatError (t_what t) (t_stored t) (t_new t)) else first_error l head.
Proof. unfold first_error. cbn. by destruct (t_fires t head). Qed.

(** Where the chain-ID test of the source differs from the one listed, the test of the
    Spurious Dragon block has fired already. *)
Lemma checkCompatible_first c newcfg head :
  checkCompatible c newcfg head = first_error (compat_tests c newcfg) head.
Proof.
  unfold checkCompatible, compat_tests. rewrite !first_error_cons. cbn [t_fires t_what t_stored t_new pair_test].
  destruct (incompatible (HomesteadBlock c) _ head); [reflexivity|].
  destruct (incompatible (DAOForkBlock c) _ head); [reflexivity|].
  destruct (incompatible (TangerineWhistleBlock c) _ head); [reflexivity|].
  destruct (incompatible (SpuriousDragonBlock c) _ head) eqn:E; [reflexivity|].
  replace (IsSpuriousDragon c head && numEqual (SpuriousDragonBlock c) (SpuriousDragonBlock newcfg))
    with (IsSpuriousDragon c head); [reflexivity|].
  unfold IsSpuriousDragon. unfold incompatible in E. destruct (isForked (SpuriousDragonBlock c) head); [|reflexivity].
  cbn in *. by destruct (numEqual _ _).
Qed.

(** The block a reported conflict starts at. *)
Definition conflict_block (stored new : option Z) : option Z :=
  match stored, new with
  | None, n => n
  | Some s, None => Some s
  | Some s, Some n => Some (Z.min s n)
  end.

Lemma RewindTo_block what s n r :
  conflict_block s n = Some r -> is_u64 r -> RewindTo (newCompatError what s n) = Z.max 0 (r - 1).
Proof.
  unfold conflict_block, newCompatError. intros H Hr. cbn [RewindTo].
  replace (match s with Some s0 => match n with Some n0 => if s0 <? n0 then Some s0 else Some n0 | None => Some s0 end
           | None => n end) with (Some r).
  - unfold is_u64 in Hr. destruct (Z.ltb_spec 0 r); [|lia]. rewrite big_Uint64_id by assumption.
    rewrite u64_id by (unfold is_u64; lia). lia.
  - destruct s as [s|], n as [n|]; simplify_eq; try reflexivity. destruct (Z.ltb_spec s n); f_equal; lia.
Qed.

(** A sound test fires exactly from its conflict block on. *)
Definition test_exact (t : compat_test) : Prop :=
  (forall h, t_fires t h = false) \/
  exists r, conflict_block (t_stored t) (t_new t) = Some r /\ is_u64 r /\ forall h, t_fires t h = (r <=? h).

Definition opt_u64 (s : option Z) : Prop := forall b, s = Some b -> is_u64 b.

Lemma isForked_leb s h : opt_u64 s -> isForked s h = match s with Some b => b <=? h | None => false end.
Proof. intros H. destruct s as [b|]; [|reflexivity]. cbn. by rewrite big_Uint64_id by (by apply H). Qed.

Lemma numEqual_spec x y : numEqual x y = bool_decide (x = y).
Proof.
  destruct x as [x|], y as [y|]; cbn; try (symmetry; apply bool_decide_eq_false_2; discriminate); [|reflexivity].
  destruct (Z.eqb_spec x y); symmetry; [apply bool_decide_eq_true_2|apply bool_decide_eq_false_2]; congruence.
Qed.

Lemma incompatible_exact s1 s2 :
  opt_u64 s1 -> opt_u64 s2 -> s1 <> s2 ->
  exists r, conflict_block s1 s2 = Some r /\ is_u64 r /\ forall h, incompatible s1 s2 h = (r <=? h).
Proof.
  intros H1 H2 Hne. unfold incompatible.
  assert (E : numEqual s1 s2 = false) by (rewrite numEqual_spec; by apply bool_decide_eq_false_2).
  destruct s1 as [a|], s2 as [b|]; [| | |done]; eexists; (split; [reflexivity|]).
  - specialize (H1 a eq_refl) as Ha. specialize (H2 b eq_refl) as Hb. split; [unfold is_u64 in *; lia|].
    intros h. rewrite E, !isForked_leb, andb_true_r by assumption. zbool; cbn; lia.
  - split; [by apply H1|]. intros h. rewrite E, !isForked_leb, orb_false_r by assumption. apply andb_true_r.
  - split; [by apply H2|]. intros h. rewrite E, !isForked_leb by assumption. cbn. apply andb_true_r.
Qed.

Lemma pair_test_exact what s1 s2 : opt_u64 s1 -> opt_u64 s2 -> test_exact (pair_test what s1 s2).
Proof.
  intros H1 H2. destruct (decide (s1 = s2)) as [->|Hne].
  - left. intros h. cbn. unfold incompatible. rewrite numEqual_spec, bool_decide_eq_true_2 by reflexivity. apply andb_false_r.
  - right. by apply incompatible_exact.
Qed.

(** Petersburg may have been set late, at Constantinople: two tests, the second implied
    by the order of the forks from the conflict block on. *)
Lemma petersburg_test_exact what cst p p' :
  opt_u64 cst -> opt_u64 p -> opt_u64 p' ->
  (forall b, p = Some b -> exists a, cst = Some a /\ a <= b) ->
  test_exact (mkTest what (fun h => incompatible p p' h && incompatible cst p' h) p p').
Proof.
  intros Hc Hp Hp' Ho. assert (Hno : forall s h, incompatible s s h = false).
  { intros s h. unfold incompatible. rewrite numEqual_spec, bool_decide_eq_true_2 by reflexivity. apply andb_false_r. }
  destruct (decide (p = p')) as [->|H1]; [left; intros h; cbn; by rewrite Hno|].
  destruct (decide (cst = p')) as [->|H2]; [left; intros h; cbn; rewrite Hno; apply andb_false_r|].
  right. destruct (incompatible_exact p p' Hp Hp' H1) as (r1 & E1 & Hr1 & F1).
  destruct (incompatible_exact cst p' Hc Hp' H2) as (r2 & E2 & Hr2 & F2).
  exists r1. split; [exact E1|]. split; [assumption|]. intros h. cbn. rewrite F1, F2.
  assert (r2 <= r1).
  { unfold conflict_block in *. destruct p as [b|].
    - destruct (Ho b eq_refl) as (a & -> & Hle). destruct p' as [b'|]; simplify_eq; lia.
    - subst p'. destruct cst as [a|]; simplify_eq; lia. }
  zbool; cbn; lia.
Qed.

Lemma chain_id_exact what s1 s2 id1 id2 :
  opt_u64 s1 ->
  test_exact (mkTest what (fun h => isForked s1 h && numEqual s1 s2 && negb (numEqual id1 id2)) s1 s2).
Proof.
  intros H1. destruct (numEqual id1 id2) eqn:Ei; [left; intros h; cbn; rewrite ?Ei; apply andb_false_r|].
  destruct (numEqual s1 s2) eqn:Es; [|left; intros h; cbn; by rewrite andb_false_r].
  rewrite numEqual_spec in Es. apply bool_decide_eq_true_1 in Es as <-.
  destruct s1 as [b|]; [|left; intros h; reflexivity]. right. exists b. split; [cbn; f_equal; lia|].
  split; [by apply H1|]. intros h. cbn. rewrite big_Uint64_id by (by apply H1). by rewrite !andb_true_r.
Qed.

Section Compatible.
Context (c newcfg : Config).
Hypothesis Hu : blocks_u64 c.
Hypothesis Hu' : blocks_u64 newcfg.
Hypothesis Hpet : forall b, PetersburgBlock c = Some b -> exists a, ConstantinopleBlock c = Some a /\ a <= b.

Lemma block_u64 cfg i f : blocks_u64 cfg -> forkBlockNumbers cfg !! i = Some f -> opt_u64 (blockNumber f).
Proof. intros H Hi b Hb. apply (H f b); [|assumption]. by apply list_elem_of_lookup_2 with i. Qed.

Lemma compat_tests_exact : Forall test_exact (compat_tests c newcfg).
Proof.
  assert (A : forall i f, forkBlockNumbers c !! i = Some f -> opt_u64 (blockNumber f)) by (intros; by apply (block_u64 c i)).
  assert (B : forall i f, forkBlockNumbers newcfg !! i = Some f -> opt_u64 (blockNumber f)) by (intros; by apply (block_u64 newcfg i)).
  assert (P : forall what i f f', forkBlockNumbers c !! i = Some f -> forkBlockNumbers newcfg !! i = Some f' ->
    test_exact (pair_test what (blockNumber f) (blockNumber f'))) by (intros; apply pair_test_exact; eauto).
  unfold compat_tests.
  apply Forall_cons; split; [exact (P _ 0%nat _ _ eq_refl eq_refl)|].
  apply Forall_cons; split; [exact (P _ 1%nat _ _ eq_refl eq_refl)|].
  apply Forall_cons; split; [exact (P _ 2%nat _ _ eq_refl eq_refl)|].
  apply Forall_cons; split; [exact (P _ 3%nat _ _ eq_refl eq_refl)|].
  apply Forall_cons; split; [apply chain_id_exact; exact (A 3%nat _ eq_refl)|].
  apply Forall_cons; split; [exact (P _ 4%nat _ _ eq_refl eq_refl)|].
  apply Forall_cons; split; [exact (P _ 5%nat _ _ eq_refl eq_refl)|].
  apply Forall_cons; split; [apply petersburg_test_exact; [exact (A 5%nat _ eq_refl)|exact (A 6%nat _ eq_refl)|exact (B 6%nat _ eq_refl)|exact Hpet]|].
  apply Forall_cons; split; [exact (P _ 7%nat _ _ eq_refl eq_refl)|].
  apply Forall_cons; split; [exact (P _ 8%nat _ _ eq_refl eq_refl)|].
  apply Forall_cons; split; [exact (P _ 9%nat _ _ eq_refl eq_refl)|].
  apply Forall_cons; split; [exact (P _ 10%nat _ _ eq_refl eq_refl)|].
  apply Forall_cons; split; [exact (P _ 11%nat _ _ eq_refl eq_refl)|].
  apply Forall_cons; split; [exact (P _ 12%nat _ _ eq_refl eq_refl)|].
  apply Forall_cons; split; [exact (P _ 13%nat _ _ eq_refl eq_refl)|]. constructor.
Qed.

(** An error at [h] rewinds strictly below [h] or to 0, to just below a height from which
    on there is always an error. *)
Lemma checkCompatible_error h e :
  checkCompatible c newcfg h = Some e ->
  exists t, t ∈ compat_tests c newcfg /\ t_fires t h = true /\
    (0 < RewindTo e -> t_fires t (RewindTo e) = false) /\
    0 <= RewindTo e /\ (RewindTo e < h \/ RewindTo e = 0) /\
    forall h', RewindTo e < h' -> checkCompatible c newcfg h' <> None.
Proof.
  rewrite checkCompatible_first. unfold first_error.
  destruct (List.find _ _) as [t|] eqn:E; [|discriminate]. intros [= <-].
  apply List.find_some in E as [Hin Hf]. apply list_elem_of_In in Hin.
  pose proof compat_tests_exact as Hx. rewrite Forall_forall in Hx.
  destruct (Hx t Hin) as [Hno|(r & Er & Hr & Hfires)]; [by rewrite Hno in Hf|].
  exists t. rewrite (RewindTo_block _ _ _ r) by assumption. rewrite Hfires in Hf. apply Z.leb_le in Hf.
  unfold is_u64 in Hr. repeat split; [assumption|rewrite Hfires; by apply Z.leb_le| |lia|lia|].
  - intros Hpos. rewrite Hfires. apply Z.leb_gt. lia.
  - intros h' Hh'. rewrite checkCompatible_first. unfold first_error.
    destruct (List.find _ _) eqn:E; [discriminate|].
    pose proof (List.find_none _ _ E t (proj1 (list_elem_of_In _ _) Hin)) as Hz. cbn in Hz.
    rewrite Hfires in Hz. apply Z.leb_gt in Hz. lia.
Qed.

(** How many tests fire at a height: the loop's measure. *)
Definition firing (h : Z) : nat := length (List.filter (fun t => t_fires t h) (compat_tests c newcfg)).

Lemma filter_shrinks (l : list compat_test) h h' :
  Forall test_exact l -> h <= h' ->
  (length (List.filter (fun t => t_fires t h) l) <= length (List.filter (fun t => t_fires t h') l))%nat /\
  ((exists t, t ∈ l /\ t_fires t h' = true /\ t_fires t h = false) ->
   (length (List.filter (fun t => t_fires t h) l) < length (List.filter (fun t => t_fires t h') l))%nat).
Proof.
  intros Hl Hh. induction Hl as [|t l Ht Hl [IH1 IH2]]; cbn.
  { split; [lia|]. intros (t & Hin & _). by apply not_elem_of_nil in Hin. }
  assert (Hmono : t_fires t h = true -> t_fires t h' = true).
  { destruct Ht as [Hno|(r & _ & _ & Hf)]; [by rewrite Hno|]. rewrite !Hf, !Z.leb_le. lia. }
  destruct (t_fires t h) eqn:E1, (t_fires t h') eqn:E2; cbn; [| |split; [lia|intros; lia]|].
  - split; [lia|]. intros (t1 & Hin & F1 & F2). apply -> Nat.succ_lt_mono. apply IH2.
    apply elem_of_cons in Hin as [->|Hin]; [congruence|eauto].
  - by specialize (Hmono eq_refl).
  - split; [lia|]. intros (t1 & Hin & F1 & F2). apply IH2.
    apply elem_of_cons in Hin as [->|Hin]; [congruence|eauto].
Qed.

Lemma firing_le h : (firing h <= 15)%nat.
Proof. unfold firing. etrans; [apply List.filter_length_le|]. reflexivity. Qed.

(** [e] is a conflict found at or below [height]: all heights above it are in conflict. *)
Definition conflict_from (height : Z) (e : ConfigCompatError) : Prop :=
  0 <= RewindTo e <= height /\ forall h', RewindTo e < h' <= height -> checkCompatible c newcfg h' <> None.

Lemma compatible_loop_spec fuel height l :
  conflict_from height l -> (1 <= fuel)%nat -> (0 < RewindTo l -> (firing (RewindTo l) + 2 <= fuel)%nat) ->
  exists e, compatible_loop fuel c newcfg (RewindTo l) (Some l) = Val (Some e) /\ conflict_from height e /\
    (RewindTo e = 0 \/ checkCompatible c newcfg (RewindTo e) = None).
Proof.
  revert l. induction fuel as [|fuel IH]; intros l Hl Hf1 Hf; [lia|]. cbn [compatible_loop].
  destruct (checkCompatible c newcfg (RewindTo l)) as [e|] eqn:E; [|exists l; auto].
  destruct (checkCompatible_error _ _ E) as (t & Hin & F1 & F2 & H0 & Hlt & Hup).
  destruct (Z.eqb_spec (RewindTo e) (RewindTo l)) as [Heq|Hne].
  { exists l. split; [reflexivity|]. split; [assumption|]. left. lia. }
  assert (Hlt' : RewindTo e < RewindTo l) by (destruct Hl; lia).
  assert (Hc : conflict_from height e). { destruct Hl. split; [lia|]. intros; apply Hup; lia. }
  specialize (Hf ltac:(lia)). apply IH; [exact Hc|lia|]. intros Hpos.
  destruct (filter_shrinks _ (RewindTo e) (RewindTo l) compat_tests_exact ltac:(lia)) as [_ Hstrict].
  fold (firing (RewindTo e)) (firing (RewindTo l)) in Hstrict.
  enough (firing (RewindTo e) < firing (RewindTo l))%nat by lia. apply Hstrict. exists t. auto.
Qed.
End Compatible.

(** C34 [CheckCompatible] ends and finds the highest height that agrees with the new
    configuration: it returns nil exactly when the two configurations agree at [height];
    otherwise it returns an error whose [RewindTo] is compatible (or 0) while every
    height above it, up to [height], is not. The fork blocks of both configurations are
    64-bit numbers, and a stored configuration with a Petersburg block has a Constantinople
    block that is not above it; the other forks may be in any order. Without that, the
    height named can be too low (see [petersburg_alone_rewinds_too_far]). *)
Theorem CheckCompatible_lowest c newcfg height :
  (forall b, PetersburgBlock c = Some b -> exists a, ConstantinopleBlock c = Some a /\ a <= b) ->
  blocks_u64 c -> blocks_u64 newcfg -> 0 <= height ->
  exists r, CheckCompatible c newcfg height = Val r /\
    match r with
    | None => checkCompatible c newcfg height = None
    | Some e =>
        0 <= RewindTo e <= height /\
        checkCompatible c newcfg height <> None /\
        (RewindTo e = 0 \/ checkCompatible c newcfg (RewindTo e) = None) /\
        forall h', RewindTo e < h' <= height -> checkCompatible c newcfg h' <> None
    end.
Proof.
  intros Hpet Hu Hu' Hh. unfold CheckCompatible.
  change 17%nat with (S 16). cbn [compatible_loop].
  destruct (checkCompatible c newcfg height) as [l|] eqn:E; [|by exists None].
  destruct (checkCompatible_error c newcfg Hu Hu' Hpet _ _ E) as (t & Hin & F1 & F2 & H0 & Hlt & Hup).
  assert (Hcl : conflict_from c newcfg height l). { split; [lia|]. intros; apply Hup; lia. }
  destruct (compatible_loop_spec c newcfg Hu Hu' Hpet 16 height l Hcl ltac:(lia)) as (e & Ee & [He1 He2] & He3).
  { intros Hpos. pose proof (firing_le c newcfg height).
    destruct (filter_shrinks _ (RewindTo l) height (compat_tests_exact c newcfg Hu Hu' Hpet) ltac:(lia)) as [_ Hs].
    specialize (Hs ltac:(exists t; auto)). unfold firing in *. lia. }
  exists (Some e). split; [exact Ee|]. repeat split; [lia|lia|discriminate|assumption|assumption].
Qed.

(** ** Witnesses *)

(** A chain on which London, due at 100 here, is due at [london] instead. *)
Definition london_at (london : Z) : Config :=
  mkConfig (Some 1) (Some 0) None (Some 0) (Some 0) (Some 0) (Some 0) (Some 0) (Some 0) (Some 0) (Some 0)
    (Some london) None None None None None None None None None ∅ None None None None None [] 0 false None.

Lemma blocks_u64_decide c :
  forallb (fun f => match blockNumber f with Some b => (0 <=? b) && (b <? two64) | None => true end)
    (forkBlockNumbers c) = true -> blocks_u64 c.
Proof.
  intros H f b Hf Hb. rewrite List.forallb_forall in H. apply list_elem_of_In in Hf. specialize (H f Hf).
  rewrite Hb in H. unfold is_u64. lia.
Qed.

Lemma CheckConfigForkOrder_correct_witness : cumulative (BlockContext_Rules 5 5 AllProtocolChanges).
Proof.
  destruct (CheckConfigForkOrder_correct AllProtocolChanges) as [_ H]; [by intros ? [= <-]|].
  apply H; [reflexivity|by apply blocks_u64_decide].
Defined.

Lemma CheckCompatible_lowest_witness :
  exists e, CheckCompatible (london_at 100) (london_at 50) 200 = Val (Some e) /\ RewindTo e = 49 /\
    checkCompatible (london_at 100) (london_at 50) 49 = None.
Proof.
  destruct (CheckCompatible_lowest (london_at 100) (london_at 50) 200) as (r & E & H);
    [intros b [= <-]; exists 0; split; [reflexivity|lia]|by apply blocks_u64_decide|by apply blocks_u64_decide|lia|].
  vm_compute in E. injection E as <-. eexists. split; [vm_compute; reflexivity|]. split; [reflexivity|].
  destruct H as (_ & _ & [H|H] & _); [discriminate|exact H].
Defined.

(** A stored configuration with a Petersburg block and no Constantinople block. *)
Definition petersburg_at (petersburg : Z) : Config :=
  mkConfig (Some 1) (Some 0) None (Some 0) (Some 0) (Some 0) None (Some petersburg) None None None
    None None None None None None None None None None ∅ None None None None None [] 0 false None.

(** Its heights from 10 on agree with a Petersburg block at 100 as far as 99, but the rewind
    goes down to 9. *)
Example petersburg_alone_rewinds_too_far :
  CheckCompatible (petersburg_at 10) (petersburg_at 100) 200
    = Val (Some (mkCompatError "Petersburg fork block" (Some 10) (Some 100) 9)) /\
  checkCompatible (petersburg_at 10) (petersburg_at 100) 99 = None.
Proof. by vm_compute. Qed.
