(* ===== verification/FeeMarket.v ===== *)
(** * Fee market

    The base fee of EIP-1559 ([execution/consensus/misc/eip1559.go]), the blob gas price
    of EIP-4844 ([eip4844.go]) and the gas-limit bound ([gaslimit.go]), as functions of the
    parent header. *)

From S2P Require Import Prelude Uint256 Params Errors Machine ChainConfig.

(** The fields of [types.Header] that are read here; [Number] is a non-nil [*big.Int]. *)
Record Header : Type := mkHeader {
  Number : Z; h_GasLimit : Z; h_GasUsed : Z; h_Time : Z; h_BaseFee : option Z;
  h_BlobGasUsed : option Z; h_ExcessBlobGas : option Z; h_ParentBeaconBlockRoot : option Z
}.

(** Reading through a pointer that may be nil. *)
Definition nonnil {A} (p : option A) : Res A :=
  match p with Some a => mret a | None => Panic "invalid memory address or nil pointer dereference" end.

(** [z.Div(x, y)] of [*big.Int] for non-negative [x] and positive [y]; it panics on 0. *)
Definition big_Div (x y : Z) : Res Z := if y =? 0 then Panic "division by zero" else mret (x / y).

Definition BigMax (x y : Z) : Z := if x <? y then y else x.

(** ** EIP-1559 *)

Definition getBaseFeeChangeDenominator (borConfig : option BorConfig) (number : Z) : Z :=
  match borConfig with
  | Some b =>
      if chain.isForked (BhilaiBlock b) number then params.BaseFeeChangeDenominatorPostBhilai
      else if chain.isForked (DelhiBlock b) number then params.BaseFeeChangeDenominatorPostDelhi
      else params.BaseFeeChangeDenominator
  | None => params.BaseFeeChangeDenominator
  end.

Definition CalcBaseFee (config : chain.Config) (parent : Header) : Res Z :=
  if negb (chain.IsLondon config (big_Uint64 (Number parent))) then mret params.InitialBaseFee
  else
    let parentGasTarget := h_GasLimit parent / params.ElasticityMultiplier in
    let baseFeeChangeDenominator := getBaseFeeChangeDenominator (chain.Bor config) (big_Uint64 (Number parent)) in
    baseFee ← nonnil (h_BaseFee parent);
    if h_GasUsed parent =? parentGasTarget then mret baseFee
    else if parentGasTarget <? h_GasUsed parent then
      let gasUsedDelta := h_GasUsed parent - parentGasTarget in
      y ← big_Div (baseFee * gasUsedDelta) parentGasTarget;
      d ← big_Div y baseFeeChangeDenominator;
      mret (baseFee + BigMax d 1)
    else
      let gasUsedDelta := parentGasTarget - h_GasUsed parent in
      y ← big_Div (baseFee * gasUsedDelta) parentGasTarget;
      d ← big_Div y baseFeeChangeDenominator;
      mret (BigMax (baseFee - d) 0).

(** [int64] arithmetic wraps. *)
Definition VerifyGaslimit (parentGasLimit headerGasLimit : Z) : option Error :=
  let diff := i64 (i64 parentGasLimit - i64 headerGasLimit) in
  let diff := if diff <? 0 then i64 (diff * -1) else diff in
  let limit := parentGasLimit / params.GasLimitBoundDivisor in
  if limit <=? u64 diff then Some (NewError "invalid gas limit")
  else if headerGasLimit <? params.MinBlockGasLimit then Some (NewError "invalid gas limit below minimum")
  else None.

Definition VerifyEip1559Header (config : chain.Config) (parent header : Header) (skipGasLimit : bool)
    : Res (option Error) :=
  let early :=
    if negb skipGasLimit then
      let parentGasLimit :=
        if negb (chain.IsLondon config (big_Uint64 (Number parent)))
        then u64 (h_GasLimit parent * params.ElasticityMultiplier) else h_GasLimit parent in
      VerifyGaslimit parentGasLimit (h_GasLimit header)
    else None in
  match early with
  | Some err => mret (Some err)
  | None =>
      match h_BaseFee header with
      | None => mret (Some (NewError "header is missing baseFee"))
      | Some baseFee =>
          expectedBaseFee ← CalcBaseFee config parent;
          mret (if negb (baseFee =? expectedBaseFee) then Some (NewError "invalid baseFee") else None)
      end
  end.

(** ** EIP-4844 *)

Section Blob.
Context {U : Uint256}.

(** The loop of [FakeExponential]; [i] is the [int] counter. Note that [Sign] reads its
    receiver as a two's complement number. *)
Fixpoint exponential_loop (fuel : nat) (denom numerator output numeratorAccum i : Z)
    : Res (Z * option Error) :=
  match fuel with
  | O => OutOfFuel
  | S fuel =>
      if 0 <? u_Sign numeratorAccum then
        let '(output, overflow) := u_AddOverflow output numeratorAccum in
        if overflow : bool then mret (0, Some (NewError "FakeExponential: overflow in AddOverflow")) else
        let '(divisor, overflow) := u_MulOverflow denom (u64 i) in
        if overflow : bool then mret (0, Some (NewError "FakeExponential: overflow in MulOverflow")) else
        let '(numeratorAccum, overflow) := u_MulDivOverflow numeratorAccum numerator divisor in
        if overflow : bool then mret (0, Some (NewError "FakeExponential: overflow in MulDivOverflow")) else
        exponential_loop fuel denom numerator output numeratorAccum (i64 (i + 1))
      else mret (output, None)
  end.

(** The value is 0 where the source returns a nil pointer with the error. 1281 iterations
    are always enough, see [FakeExponential_exact]. *)
Definition FakeExponential (factor denom excessBlobGas : Z) : Res (Z * option Error) :=
  let numerator := excessBlobGas in
  let '(numeratorAccum, overflow) := u_MulOverflow factor denom in
  if overflow : bool then mret (0, Some (NewError "FakeExponential: overflow in MulOverflow"))
  else
    '(output, err) ← exponential_loop 1281 denom numerator 0 numeratorAccum 1;
    match err with
    | Some e => mret (0, Some e)
    | None => mret (u_Div output denom, None)
    end.

Definition GetBlobGasPrice (config : chain.Config) (excessBlobGas headerTime : Z) : Res (Z * option Error) :=
  fraction ← chain.GetBlobGasPriceUpdateFraction config headerTime;
  FakeExponential (chain.GetMinBlobGasPrice config) fraction excessBlobGas.

Definition GetBlobGasUsed (numBlobs : Z) : Z := u64 (u64 numBlobs * params.GasPerBlob).

Definition CalcExcessBlobGas (config : chain.Config) (parent : Header) (currentHeaderTime : Z) : Res Z :=
  let parentExcessBlobGas := default 0 (h_ExcessBlobGas parent) in
  let parentBlobGasUsed := default 0 (h_BlobGasUsed parent) in
  target ← chain.GetTargetBlobsPerBlock config currentHeaderTime;
  let targetBlobGas := u64 (target * params.GasPerBlob) in
  if u64 (parentExcessBlobGas + parentBlobGasUsed) <? targetBlobGas then mret 0
  else
    bounded ← (if chain.IsOsaka config currentHeaderTime then
                 max ← chain.GetMaxBlobsPerBlock config currentHeaderTime;
                 '(refBlobBaseFee, err) ← GetBlobGasPrice config parentExcessBlobGas currentHeaderTime;
                 match err with
                 | Some _ => Panic "FakeExponential: overflow"
                 | None =>
                     baseFee ← nonnil (h_BaseFee parent);
                     if params.GasPerBlob * refBlobBaseFee <? params.BlobBaseCost * baseFee then
                       if max =? 0 then Panic "integer divide by zero"
                       else mret (Some (u64 (parentExcessBlobGas +
                                    u64 (parentBlobGasUsed * u64 (max - target)) / max)))
                     else mret None
                 end
               else mret None);
    match bounded : option Z with
    | Some r => mret r
    | None => mret (u64 (u64 (parentExcessBlobGas + parentBlobGasUsed) - targetBlobGas))
    end.

Definition VerifyPresenceOfCancunHeaderFields (header : Header) : option Error :=
  match h_BlobGasUsed header, h_ExcessBlobGas header, h_ParentBeaconBlockRoot header with
  | None, _, _ => Some (NewError "header is missing blobGasUsed")
  | Some _, None, _ => Some (NewError "header is missing excessBlobGas")
  | Some _, Some _, None => Some (NewError "header is missing parentBeaconBlockRoot")
  | Some _, Some _, Some _ => None
  end.

Definition VerifyAbsenceOfCancunHeaderFields (header : Header) : option Error :=
  match h_BlobGasUsed header, h_ExcessBlobGas header, h_ParentBeaconBlockRoot header with
  | Some _, _, _ => Some (NewError "invalid blobGasUsed before fork")
  | None, Some _, _ => Some (NewError "invalid excessBlobGas before fork")
  | None, None, Some _ => Some (NewError "invalid parentBeaconBlockRoot before fork")
  | None, None, None => None
  end.
End Blob.
