(* ===== verification/FeeMarketSpec.v ===== *)
(** * Fee market: bounds, responsiveness, exactness

    The base fee moves by at most one part in the change denominator, in the direction
    demand asks for; empty blocks bring it to its floor and full blocks raise it without
    bound. [FakeExponential] always returns and is the truncated Taylor sum of EIP-4844 as
    long as no term reaches 2^255. *)

From S2P Require Import Prelude Uint256 Params Errors Machine ChainConfig ChainConfigSpec FeeMarket.

(** ** The base fee *)

Lemma denominator_values b n :
  let d := getBaseFeeChangeDenominator b n in d = 8 \/ d = 16 \/ d = 64.
Proof. unfold getBaseFeeChangeDenominator. destruct b as [b|]; [|auto]. repeat case_match; auto. Qed.

Lemma big_Div_val x y : 0 < y -> big_Div x y = Val (x / y).
Proof. intros H. unfold big_Div. destruct (Z.eqb_spec y 0); [lia|reflexivity]. Qed.

(** A header whose child's base fee is computed from it. *)
Record priced (config : chain.Config) (h : Header) (b : Z) : Prop := {
  pr_london : chain.IsLondon config (big_Uint64 (Number h)) = true;
  pr_fee : h_BaseFee h = Some b;
  pr_nonneg : 0 <= b;
  pr_limit : 2 <= h_GasLimit h;
  pr_used : 0 <= h_GasUsed h
}.

(** The change, as the formula of EIP-1559. *)
Definition base_fee_step (d b used target : Z) : Z :=
  if used =? target then b
  else if target <? used then b + Z.max (b * (used - target) / target / d) 1
  else b - b * (target - used) / target / d.

Lemma CalcBaseFee_step config h b :
  priced config h b ->
  CalcBaseFee config h =
  Val (base_fee_step (getBaseFeeChangeDenominator (chain.Bor config) (big_Uint64 (Number h))) b
         (h_GasUsed h) (h_GasLimit h / 2)).
Proof.
  intros [Hl Hf Hb Hg Hu]. unfold CalcBaseFee, base_fee_step. rewrite Hl, Hf. cbn [negb nonnil mret Res_ret mbind Res_bind].
  change params.ElasticityMultiplier with 2.
  assert (Ht : 0 < h_GasLimit h / 2) by (apply Z.div_str_pos; lia).
  pose proof (denominator_values (chain.Bor config) (big_Uint64 (Number h))) as Hd. cbn in Hd.
  set (d := getBaseFeeChangeDenominator _ _) in *. set (t := h_GasLimit h / 2) in *.
  destruct (Z.eqb_spec (h_GasUsed h) t); [reflexivity|].
  destruct (Z.ltb_spec t (h_GasUsed h)); rewrite !big_Div_val by lia; cbn [mbind Res_bind]; rewrite !big_Div_val by lia;
    cbn [mbind Res_bind mret Res_ret]; unfold BigMax; f_equal.
  - destruct (Z.ltb_spec (b * (h_GasUsed h - t) / t / d) 1); lia.
  - assert (b * (t - h_GasUsed h) / t / d <= b).
    { apply Z.div_le_upper_bound; [lia|]. apply Z.div_le_upper_bound; [lia|]. nia. }
    destruct (Z.ltb_spec (b - b * (t - h_GasUsed h) / t / d) 0); lia.
Qed.

Lemma div_div_le b x t d : 0 <= b -> 0 <= x <= t -> 0 < t -> 0 < d -> 0 <= b * x / t / d <= b / d.
Proof.
  intros Hb Hx Ht Hd. split; [apply Z.div_pos; [apply Z.div_pos; nia|lia]|].
  apply Z.div_le_mono; [lia|]. apply Z.div_le_upper_bound; [lia|]. nia.
Qed.

(** The base fee follows demand within bounds: it is unchanged at the gas target,
    strictly higher above it and no higher below it, never negative, and one block moves
    it by at most one part in the change denominator (8, or 16 and 64 on later Bor forks),
    or by 1 wei when that is more. *)
Theorem CalcBaseFee_bounds config h b :
  priced config h b -> h_GasUsed h <= 2 * (h_GasLimit h / 2) ->
  let d := getBaseFeeChangeDenominator (chain.Bor config) (big_Uint64 (Number h)) in
  exists r, CalcBaseFee config h = Val r /\ 0 <= r /\ Z.abs (r - b) <= Z.max (b / d) 1 /\
    (h_GasUsed h = h_GasLimit h / 2 -> r = b) /\
    (h_GasLimit h / 2 < h_GasUsed h -> b < r) /\
    (h_GasUsed h < h_GasLimit h / 2 -> r <= b).
Proof.
  intros Hp Hu d. eexists. split; [by apply CalcBaseFee_step|]. fold d. destruct Hp as [_ _ Hb Hg Hu0].
  pose proof (denominator_values (chain.Bor config) (big_Uint64 (Number h))) as Hd. cbn in Hd. fold d in Hd.
  assert (Ht : 0 < h_GasLimit h / 2) by (apply Z.div_str_pos; lia). set (t := h_GasLimit h / 2) in *.
  assert (0 <= b / d <= b) by (split; [apply Z.div_pos; lia|apply Z.div_le_upper_bound; nia]).
  unfold base_fee_step. destruct (Z.eqb_spec (h_GasUsed h) t); [lia|].
  destruct (Z.ltb_spec t (h_GasUsed h)).
  - pose proof (div_div_le b (h_GasUsed h - t) t d). lia.
  - pose proof (div_div_le b (t - h_GasUsed h) t d). lia.
Qed.

(** ** Responsiveness *)

(** [n] verified London headers from [h] to [h'], the blocks before [h'] satisfying [P]. *)
Inductive verified_chain (config : chain.Config) (P : Header -> Prop) : Header -> nat -> Header -> Prop :=
| vc_here h : verified_chain config P h 0 h
| vc_next h h1 n h' skipGasLimit :
    P h -> chain.IsLondon config (big_Uint64 (Number h)) = true -> 2 <= h_GasLimit h -> 0 <= h_GasUsed h ->
    VerifyEip1559Header config h h1 skipGasLimit = Val None ->
    verified_chain config P h1 n h' -> verified_chain config P h (S n) h'.

(** The fee of a verified header is the one computed from its parent. *)
Lemma verified_fee config h h1 skip b :
  priced config h b -> VerifyEip1559Header config h h1 skip = Val None ->
  h_BaseFee h1 = Some (base_fee_step (getBaseFeeChangeDenominator (chain.Bor config) (big_Uint64 (Number h))) b
                         (h_GasUsed h) (h_GasLimit h / 2)).
Proof.
  intros Hp. unfold VerifyEip1559Header.
  destruct (if negb skip then VerifyGaslimit _ _ else None); [discriminate|].
  destruct (h_BaseFee h1) as [b1|]; [|discriminate]. rewrite (CalcBaseFee_step _ _ _ Hp). cbn [mbind Res_bind].
  destruct (Z.eqb_spec b1 (base_fee_step (getBaseFeeChangeDenominator (chain.Bor config) (big_Uint64 (Number h))) b
                         (h_GasUsed h) (h_GasLimit h / 2))); [by subst|discriminate].
Qed.

(** One empty block, and one full block, under the denominator 8. *)
Definition fall (b : Z) : Z := b - b / 8.
Definition rise (b : Z) : Z := b + Z.max (b / 8) 1.

Lemma step_empty b t : 0 <= b -> 0 < t -> base_fee_step 8 b 0 t = fall b.
Proof.
  intros Hb Ht. unfold base_fee_step, fall. destruct (Z.eqb_spec 0 t); [lia|].
  destruct (Z.ltb_spec t 0); [lia|]. rewrite Z.sub_0_r, Z.div_mul by lia. reflexivity.
Qed.

Lemma step_full b limit : 0 <= b -> 2 <= limit -> rise b <= base_fee_step 8 b limit (limit / 2).
Proof.
  intros Hb Hl. unfold base_fee_step, rise.
  assert (Ht : 0 < limit / 2) by (apply Z.div_str_pos; lia).
  assert (H2 : 2 * (limit / 2) <= limit) by (apply Z.mul_div_le; lia).
  destruct (Z.eqb_spec limit (limit / 2)); [lia|]. destruct (Z.ltb_spec (limit / 2) limit); [|lia].
  enough (b / 8 <= b * (limit - limit / 2) / (limit / 2) / 8) by lia.
  apply Z.div_le_mono; [lia|]. apply Z.div_le_lower_bound; [lia|]. nia.
Qed.

Lemma fall_nonneg b : 0 <= b -> 0 <= fall b <= b.
Proof. unfold fall. intros. pose proof (Z.div_mod b 8 ltac:(lia)). pose proof (Z.mod_pos_bound b 8 ltac:(lia)). lia. Qed.

Lemma fall_excess b : 8 * (fall b - 7) <= 7 * (b - 7).
Proof. unfold fall. pose proof (Z.div_mod b 8 ltac:(lia)). pose proof (Z.mod_pos_bound b 8 ltac:(lia)). lia. Qed.

(** Six empty blocks at least halve what exceeds 7 wei. *)
Lemma fall6 b : 7 <= b -> 2 * (Nat.iter 6 fall b - 7) <= b - 7.
Proof.
  intros Hb. cbn [Nat.iter nat_rect]. pose proof (fall_excess b).
  pose proof (fall_excess (fall b)). pose proof (fall_excess (fall (fall b))).
  pose proof (fall_excess (fall (fall (fall b)))). pose proof (fall_excess (fall (fall (fall (fall b))))).
  pose proof (fall_excess (fall (fall (fall (fall (fall b)))))). lia.
Qed.

Lemma fall_iter_nonneg n b : 0 <= b -> 0 <= Nat.iter n fall b <= b.
Proof. intros Hb. induction n as [|n IH]; [cbn; lia|]. rewrite Nat.iter_succ. pose proof (fall_nonneg (Nat.iter n fall b) ltac:(lia)). lia. Qed.

Lemma fall_floor k b : 0 <= b -> b - 7 < 2 ^ Z.of_nat k -> Nat.iter (6 * k) fall b <= 7.
Proof.
  revert b. induction k as [|k IH]; intros b Hb Hk; [cbn in *; lia|].
  replace (6 * S k)%nat with (6 * k + 6)%nat by lia. rewrite Nat.iter_add.
  pose proof (fall_iter_nonneg 6 b Hb). apply IH; [lia|].
  rewrite Nat2Z.inj_succ, Z.pow_succ_r in Hk by lia.
  destruct (decide (7 <= b)); [pose proof (fall6 b ltac:(lia))|pose proof (Z.pow_pos_nonneg 2 (Z.of_nat k) ltac:(lia) ltac:(lia))]; lia.
Qed.

Lemma rise_mono a b : a <= b -> rise a <= rise b.
Proof. intros H. unfold rise. pose proof (Z.div_le_mono a b 8 ltac:(lia) H). lia. Qed.

Lemma rise_iter n b : 0 <= b -> b + Z.of_nat n * Z.max (b / 8) 1 <= Nat.iter n rise b.
Proof.
  intros Hb. induction n as [|n IH]; [cbn; lia|]. rewrite Nat.iter_succ.
  assert (b <= Nat.iter n rise b) by nia. pose proof (Z.div_le_mono b (Nat.iter n rise b) 8 ltac:(lia) H).
  unfold rise at 1. lia.
Qed.

(** Fifteen full blocks at least double the fee. *)
Lemma rise_doubles k b : 0 <= b -> 2 ^ Z.of_nat k * b <= Nat.iter (15 * k) rise b.
Proof.
  revert b. induction k as [|k IH]; intros b Hb; [cbn; lia|].
  replace (15 * S k)%nat with (15 * k + 15)%nat by lia. rewrite Nat.iter_add.
  pose proof (rise_iter 15 b Hb) as H. pose proof (Z.div_mod b 8 ltac:(lia)). pose proof (Z.mod_pos_bound b 8 ltac:(lia)).
  specialize (IH (Nat.iter 15 rise b) ltac:(lia)). rewrite Nat2Z.inj_succ, Z.pow_succ_r by lia.
  pose proof (Z.pow_pos_nonneg 2 (Z.of_nat k) ltac:(lia) ltac:(lia)). nia.
Qed.

Lemma chain_falls config h n h' b :
  chain.Bor config = None -> verified_chain config (fun h => h_GasUsed h = 0) h n h' ->
  h_BaseFee h = Some b -> 0 <= b -> h_BaseFee h' = Some (Nat.iter n fall b).
Proof.
  intros Hbor Hc. revert b. induction Hc as [h|h h1 n h' skip Hp Hl Hg Hu Hv Hc IH]; intros b Hb Hb0; [exact Hb|].
  rewrite Nat.iter_succ_r. apply IH; [|apply fall_nonneg; lia].
  rewrite (verified_fee config h h1 skip b) by (by try constructor).
  rewrite Hp, Hbor. f_equal. apply step_empty; [lia|]. apply Z.div_str_pos. lia.
Qed.

Lemma chain_rises config h n h' b :
  chain.Bor config = None -> verified_chain config (fun h => h_GasUsed h = h_GasLimit h) h n h' ->
  h_BaseFee h = Some b -> 0 <= b -> exists b', h_BaseFee h' = Some b' /\ Nat.iter n rise b <= b'.
Proof.
  intros Hbor Hc. revert b. induction Hc as [h|h h1 n h' skip Hp Hl Hg Hu Hv Hc IH]; intros b Hb Hb0; [eexists; split; [done|cbn; lia]|].
  pose proof (verified_fee config h h1 skip b ltac:(by constructor) Hv) as E. rewrite Hp, Hbor in E.
  pose proof (step_full b (h_GasLimit h) Hb0 Hg) as Hs. assert (0 <= b / 8) by (apply Z.div_pos; lia).
  destruct (IH _ E) as (b' & Hb' & Hle); [unfold rise in Hs; change (getBaseFeeChangeDenominator None _) with 8; lia|].
  exists b'. split; [assumption|]. etrans; [|exact Hle]. rewrite Nat.iter_succ_r.
  clear -Hs. change (getBaseFeeChangeDenominator None _) with 8. revert Hs. generalize (rise b). intros a.
  generalize (base_fee_step 8 b (h_GasLimit h) (h_GasLimit h / 2)). intros c Hac.
  induction n as [|n IH]; [exact Hac|]. rewrite !Nat.iter_succ. by apply rise_mono.
Qed.

(** The base fee always responds: on verified London headers (denominator 8), [6 k]
    empty blocks bring a fee below [2^k + 7] wei to at most 7 wei, where it stays, and
    [15 k] full blocks multiply any fee by at least [2^k] (each adds at least 1 wei), so
    it passes any bound. *)
Theorem base_fee_responds config h n h' b k :
  chain.Bor config = None -> h_BaseFee h = Some b -> 0 <= b ->
  (verified_chain config (fun h => h_GasUsed h = 0) h n h' -> b - 7 < 2 ^ Z.of_nat k -> (6 * k <= n)%nat ->
   exists b', h_BaseFee h' = Some b' /\ 0 <= b' <= 7) /\
  (verified_chain config (fun h => h_GasUsed h = h_GasLimit h) h n h' -> (15 * k <= n)%nat ->
   exists b', h_BaseFee h' = Some b' /\ 2 ^ Z.of_nat k * b <= b' /\ b + Z.of_nat n <= b').
Proof.
  intros Hbor Hb Hb0. split.
  - intros Hc Hk Hn. eexists. split; [by eapply chain_falls|]. pose proof (fall_floor k b Hb0 Hk).
    replace n with ((n - 6 * k) + 6 * k)%nat by lia. rewrite Nat.iter_add.
    pose proof (fall_iter_nonneg (6 * k) b Hb0).
    pose proof (fall_iter_nonneg (n - 6 * k) (Nat.iter (6 * k) fall b) ltac:(lia)). lia.
  - intros Hc Hn. destruct (chain_rises _ _ _ _ _ Hbor Hc Hb Hb0) as (b' & Hb' & Hle). exists b'. split; [assumption|].
    pose proof (rise_iter n b Hb0). pose proof (rise_doubles k b Hb0) as Hd.
    replace n with ((n - 15 * k) + 15 * k)%nat in Hle by lia. rewrite Nat.iter_add in Hle.
    assert (0 <= 2 ^ Z.of_nat k * b) by (pose proof (Z.pow_nonneg 2 (Z.of_nat k) ltac:(lia)); nia).
    pose proof (rise_iter (n - 15 * k) (Nat.iter (15 * k) rise b) ltac:(lia)).
    split; [nia|]. rewrite <- Nat.iter_add in Hle. replace (n - 15 * k + 15 * k)%nat with n in Hle by lia. nia.
Qed.

(** ** The blob gas price *)

(** The terms and the partial sums of the Taylor expansion of EIP-4844, over the integers. *)
Fixpoint taylor_term (factor denom num : Z) (n : nat) : Z :=
  match n with
  | O => factor * denom
  | S m => taylor_term factor denom num m * num / (denom * (Z.of_nat m + 1))
  end.
Fixpoint taylor_sum (factor denom num : Z) (n : nat) : Z :=
  match n with
  | O => 0
  | S m => taylor_sum factor denom num m + taylor_term factor denom num m
  end.

(** A bounded search for the first failure. *)
Lemma first_failure (P : nat -> Prop) `{forall n, Decision (P n)} n :
  (forall j, (j < n)%nat -> P j) \/ exists N, (N < n)%nat /\ ~ P N /\ forall j, (j < N)%nat -> P j.
Proof.
  induction n as [|n [IH|(N & Hn & HN)]]; [left; lia| |right; exists N; split; [lia|assumption]].
  destruct (decide (P n)); [left|right; exists n; auto].
  intros j Hj. destruct (decide (j = n)) as [->|]; [assumption|]. apply IH. lia.
Qed.

Section Taylor.
Context (factor denom num : Z).
Hypothesis Hf : is_u64 factor.
Hypothesis Hd : 0 < denom < two64.
Hypothesis Hn : is_u64 num.
Let t := taylor_term factor denom num.
Let sum := taylor_sum factor denom num.

Lemma term_nonneg j : 0 <= t j.
Proof.
  unfold t. induction j as [|j IH]; cbn; [unfold is_u64 in Hf; nia|]. unfold is_u64 in Hn.
  apply Z.div_pos; nia.
Qed.

Lemma sum_mono i j : (i <= j)%nat -> 0 <= sum i <= sum j.
Proof.
  unfold sum. intros Hij. split.
  - clear j Hij. induction i as [|i IH]; cbn; [lia|]. pose proof (term_nonneg i). fold (t i). lia.
  - induction Hij as [|j Hij IH]; [lia|]. cbn. pose proof (term_nonneg j). fold (t j). lia.
Qed.

(** A large ratio doubles the early terms; a small one halves the late ones. *)
Lemma term_doubles j : 512 * denom <= num -> 0 < t 0 -> (j <= 256)%nat -> 2 ^ Z.of_nat j <= t j.
Proof.
  intros Hr H0. induction j as [|j IH]; intros Hj; [change (2 ^ Z.of_nat 0) with 1; lia|].
  specialize (IH ltac:(lia)). rewrite Nat2Z.inj_succ, Z.pow_succ_r by lia. unfold t. cbn [taylor_term]. fold (t j).
  apply Z.div_le_lower_bound; [nia|].
  assert (denom * (Z.of_nat j + 1) <= denom * 256) by nia. nia.
Qed.

Lemma term_halves m : num < 512 * denom -> (1023 <= m)%nat -> 2 * t (S m) <= t m.
Proof.
  intros Hr Hm. pose proof (term_nonneg m) as H0. unfold t in *. cbn [taylor_term]. fold (t m) in *.
  pose proof (Z.mul_div_le (t m * num) (denom * (Z.of_nat m + 1)) ltac:(nia)) as H.
  set (q := t m * num / (denom * (Z.of_nat m + 1))) in *. assert (0 <= q) by (apply Z.div_pos; unfold is_u64 in Hn; nia).
  assert (denom * 1024 * q <= t m * (512 * denom)) by nia. nia.
Qed.

Definition in_range (j : nat) : Prop := 0 < t j < 2 ^ 255.

Lemma term_stops : exists N, (N <= 1280)%nat /\ (t N = 0 \/ 2 ^ 255 <= t N) /\ forall j, (j < N)%nat -> in_range j.
Proof.
  destruct (first_failure in_range 1281) as [Hall|(N & HN & Hbad & Hlt)].
  - exfalso. destruct (decide (512 * denom <= num)) as [Hr|Hr].
    + pose proof (term_doubles 255 Hr (proj1 (Hall 0%nat ltac:(lia))) ltac:(lia)) as H.
      destruct (Hall 255%nat ltac:(lia)). change (Z.of_nat 255) with 255 in H. lia.
    + assert (H : forall k, (k <= 256)%nat -> t (1023 + k)%nat * 2 ^ Z.of_nat k < 2 ^ 255).
      { induction k as [|k IH]; intros Hk; [rewrite Nat.add_0_r; pose proof (Hall 1023%nat ltac:(lia)); unfold in_range in *; lia|].
        pose proof (term_halves (1023 + k) ltac:(lia) ltac:(lia)). specialize (IH ltac:(lia)).
        rewrite Nat2Z.inj_succ, Z.pow_succ_r by lia. replace (1023 + S k)%nat with (S (1023 + k)) by lia. nia. }
      specialize (H 256%nat ltac:(lia)). pose proof (Hall 1279%nat ltac:(lia)) as Ha. unfold in_range in Ha.
      change (1023 + 256)%nat with 1279%nat in H. change (Z.of_nat 256) with 256 in H. lia.
  - exists N. split; [lia|]. split; [|assumption]. unfold in_range in Hbad. pose proof (term_nonneg N). lia.
Qed.

Context {U : Uint256} {US : Uint256Spec U}.

Lemma sign_stops x : is_u256 x -> (0 <? u_Sign x) = (0 <? x) && (x <? 2 ^ 255).
Proof.
  intros Hx. rewrite Sign_spec by assumption. unfold s256. unfold is_u256 in Hx. change two256 with (2 ^ 255 * 2) in *.
  destruct (Z.ltb_spec x (2 ^ 255)).
  - destruct x; [reflexivity|reflexivity|lia].
  - rewrite andb_false_r. apply Z.ltb_ge. rewrite Z.sgn_neg by lia. lia.
Qed.

Lemma exponential_loop_run fuel j N :
  (N <= 1280)%nat -> (t N = 0 \/ 2 ^ 255 <= t N) -> (forall j, (j < N)%nat -> in_range j) ->
  (j <= N)%nat -> (N - j < fuel)%nat -> sum j < two256 -> t j < two256 ->
  exists out err, exponential_loop fuel denom num (sum j) (t j) (Z.of_nat j + 1) = Val (out, err) /\
    match err with
    | None => out = sum N /\ sum N < two256
    | Some _ => two256 <= sum N \/ two256 <= t N
    end.
Proof.
  intros HN Hstop Hr. revert j. induction fuel as [|fuel IH]; intros j Hj Hfu Hs Ht; [lia|].
  pose proof (term_nonneg j) as Ht0. destruct (sum_mono j N Hj) as [Hs0 HsN]. unfold is_u64 in *.
  cbn [exponential_loop]. rewrite sign_stops by (unfold is_u256; lia).
  destruct (decide (j = N)) as [->|Hne].
  { replace ((0 <? t N) && (t N <? 2 ^ 255)) with false by (symmetry; apply andb_false_iff; rewrite !Z.ltb_ge; lia).
    by eexists _, None. }
  pose proof (Hr j ltac:(lia)) as Hin. unfold in_range in Hin.
  replace ((0 <? t j) && (t j <? 2 ^ 255)) with true by (symmetry; apply andb_true_iff; rewrite !Z.ltb_lt; lia).
  rewrite AddOverflow_spec by (unfold is_u256; lia). change (sum j + t j) with (sum (S j)).
  destruct (sum_mono (S j) N ltac:(lia)) as [Hsj HsN'].
  destruct (Z.leb_spec two256 (sum (S j))); [eexists _, _; split; [reflexivity|left; lia]|].
  rewrite (Z.mod_small (sum (S j))) by lia. rewrite (u64_id (Z.of_nat j + 1)) by (unfold is_u64, two64; lia).
  assert (Hdiv : 0 < denom * (Z.of_nat j + 1) < two256) by (unfold two64 in Hd; change two256 with (2 ^ 256); nia).
  rewrite MulOverflow_spec by (unfold is_u256; change two256 with (2 ^ 256); unfold two64 in Hd; lia).
  destruct (Z.leb_spec two256 (denom * (Z.of_nat j + 1))); [lia|]. rewrite (Z.mod_small (denom * _)) by lia.
  rewrite MulDivOverflow_spec by (unfold is_u256 in *; change two256 with (2 ^ 256) in *; unfold two64 in *; lia).
  destruct (Z.eqb_spec (denom * (Z.of_nat j + 1)) 0); [lia|].
  change (t j * num / (denom * (Z.of_nat j + 1))) with (t (S j)). pose proof (term_nonneg (S j)).
  destruct (Z.leb_spec two256 (t (S j))).
  { eexists _, _. split; [reflexivity|]. right. destruct (decide (S j = N)) as [<-|]; [lia|].
    pose proof (Hr (S j) ltac:(lia)) as Hr'. unfold in_range in Hr'. change two256 with (2 ^ 255 * 2) in *. lia. }
  rewrite (Z.mod_small (t (S j))) by lia. rewrite i64_id by lia.
  replace (Z.of_nat j + 1 + 1) with (Z.of_nat (S j) + 1) by lia. apply IH; lia.
Qed.
End Taylor.

(** C35 For a 64-bit factor, denominator (not 0) and excess, [FakeExponential] always returns,
    and computes the Taylor sum of EIP-4844: with
    [N] the first term that is 0 or reaches 2^255, it returns the sum of the terms before
    [N] divided by the denominator, never below the factor, and reports an error only
    when that sum or the term itself needs more than 256 bits; so where the series of the
    EIP ends below 2^255, the result is exact or the error is justified. *)
Theorem FakeExponential_exact `{US : !Uint256Spec U} factor denom excess :
  is_u64 factor -> 0 < denom < two64 -> is_u64 excess ->
  exists N v err, FakeExponential factor denom excess = Val (v, err) /\
    (taylor_term factor denom excess N = 0 \/ 2 ^ 255 <= taylor_term factor denom excess N) /\
    (forall j, (j < N)%nat -> 0 < taylor_term factor denom excess j < 2 ^ 255) /\
    match err with
    | None => v = taylor_sum factor denom excess N / denom /\ factor <= v
    | Some _ => two256 <= taylor_sum factor denom excess N \/ two256 <= taylor_term factor denom excess N
    end.
Proof.
  intros Hf Hd Hn. destruct (term_stops factor denom excess Hf Hd Hn) as (N & HN & Hstop & Hr).
  destruct (sum_mono factor denom excess Hf Hd Hn 0 N ltac:(lia)) as [_ H0]. exists N. unfold FakeExponential.
  assert (Hfd : 0 <= factor * denom < 2 ^ 128) by (unfold is_u64, two64 in *; nia).
  rewrite MulOverflow_spec by (unfold is_u256, is_u64, two64 in *; change two256 with (2 ^ 256); lia).
  destruct (Z.leb_spec two256 (factor * denom)); [change two256 with (2 ^ 256) in *; lia|].
  rewrite Z.mod_small by lia.
  destruct (exponential_loop_run factor denom excess Hf Hd Hn 1281 0 N HN Hstop Hr) as (out & err & E & He);
    [lia|lia|change two256 with (2 ^ 256); cbn; lia|change two256 with (2 ^ 256); cbn; lia|].
  change (taylor_sum factor denom excess 0) with 0 in E. change (taylor_term factor denom excess 0) with (factor * denom) in E.
  change (Z.of_nat 0 + 1) with 1 in E. rewrite E. cbn [mbind Res_bind].
  destruct err as [e|]; [by exists 0, (Some e)|]. destruct He as [-> Hlt]. eexists _, None. split; [reflexivity|].
  split; [assumption|]. split; [assumption|].
  rewrite Div_spec by (unfold is_u256; cbn in H0; unfold two64 in Hd; change two256 with (2 ^ 256) in *; lia).
  destruct (Z.eqb_spec denom 0); [lia|]. split; [reflexivity|]. apply Z.div_le_lower_bound; [lia|].
  destruct N as [|N].
  - destruct Hstop as [Hz|Hz]; cbn in Hz |- *; lia.
  - destruct (sum_mono factor denom excess Hf Hd Hn 1 (S N) ltac:(lia)) as [_ H1]. cbn [taylor_sum taylor_term] in H1 |- *. lia.
Qed.

(** ** Where the source departs from the EIP *)

#[local] Existing Instance uint256_ref | 0.

(** The loop of [FakeExponential] tests the term with [Sign], which reads it as a signed
    number: a term between 2^255 and 2^256 ends the loop as if it were 0. At this excess
    blob gas the price is returned without an error although the sum of EIP-4844 needs
    more than 256 bits. *)
Theorem FakeExponential_truncates :
  exists v, GetBlobGasPrice chain.AllProtocolChanges 1502314800 0 = Val (v, None) /\
    v < 2 ^ 240 /\ two256 <= taylor_sum 1 5007716 1502314800 77 / 5007716.
Proof. eexists. split; [vm_compute; reflexivity|]. split; vm_compute; [reflexivity|discriminate]. Qed.

(** ** Witnesses *)

Definition london_header (number used baseFee : Z) : Header :=
  mkHeader number 30000000 used 0 (Some baseFee) None None None.

Lemma CalcBaseFee_bounds_witness :
  exists r, CalcBaseFee chain.AllProtocolChanges (london_header 1 30000000 1000) = Val r /\ 1000 < r /\ r <= 1125.
Proof.
  destruct (CalcBaseFee_bounds chain.AllProtocolChanges (london_header 1 30000000 1000) 1000)
    as (r & E & _ & Hb & _ & Hup & _); [split; cbn; (reflexivity || lia)|vm_compute; discriminate|].
  exists r. split; [exact E|]. split; [apply Hup; reflexivity|].
  assert (Hd : Z.max (1000 / getBaseFeeChangeDenominator (chain.Bor chain.AllProtocolChanges)
    (big_Uint64 (Number (london_header 1 30000000 1000)))) 1 = 125) by reflexivity.
  rewrite Hd in Hb. lia.
Defined.

Lemma base_fee_responds_witness :
  exists b', h_BaseFee (london_header 7 0 7) = Some b' /\ 0 <= b' <= 7.
Proof.
  apply (base_fee_responds chain.AllProtocolChanges (london_header 1 0 8) 6 (london_header 7 0 7) 8 1
    eq_refl eq_refl ltac:(lia)); [|cbn; lia|lia].
  apply (vc_next _ _ _ (london_header 2 0 7) _ _ true); [reflexivity|reflexivity|cbn; lia|cbn; lia|reflexivity|].
  apply (vc_next _ _ _ (london_header 3 0 7) _ _ true); [reflexivity|reflexivity|cbn; lia|cbn; lia|reflexivity|].
  apply (vc_next _ _ _ (london_header 4 0 7) _ _ true); [reflexivity|reflexivity|cbn; lia|cbn; lia|reflexivity|].
  apply (vc_next _ _ _ (london_header 5 0 7) _ _ true); [reflexivity|reflexivity|cbn; lia|cbn; lia|reflexivity|].
  apply (vc_next _ _ _ (london_header 6 0 7) _ _ true); [reflexivity|reflexivity|cbn; lia|cbn; lia|reflexivity|].
  apply (vc_next _ _ _ (london_header 7 0 7) _ _ true); [reflexivity|reflexivity|cbn; lia|cbn; lia|reflexivity|].
  constructor.
Defined.

Lemma FakeExponential_exact_witness :
  exists v, FakeExponential 1 3338477 10000000 = Val (v, None) /\ 1 <= v.
Proof.
  destruct (FakeExponential_exact (US := uint256_ref_spec) 1 3338477 10000000) as (N & v & err & E & _ & _ & H);
    [split; reflexivity || discriminate|split; reflexivity|split; reflexivity || discriminate|].
  exists v. destruct err as [e|]; [vm_compute in E; discriminate|]. split; [exact E|]. apply H.
Defined.
