(* ===== verification/TxGas.v ===== *)
(** * The gas of a transaction

    The intrinsic gas of a transaction ([execution/fixedgas/intrinsic_gas.go]) and the gas
    pool of a block ([core/gaspool.go]). *)

From S2P Require Import Prelude Params Errors Common.
Import params.

(** ** Intrinsic gas *)

Definition toWordSize (size : Z) : Z :=
  if MaxUint64 - 31 <? size then MaxUint64 / 32 + 1 else (size + 31) / 32.

(** [product, overflow := SafeMul(n, price); gas, overflow = SafeAdd(gas, product)]:
    [None] where the source returns [0, 0, true]. *)
Definition charge (gas n price : Z) : option Z :=
  let '(product, overflow) := SafeMul n price in
  if overflow : bool then None
  else let '(gas, overflow) := SafeAdd gas product in
       if overflow : bool then None else Some gas.

Definition data_gas (gas dataLen nz : Z) (isContractCreation isEIP2028 isEIP3860 : bool) : option Z :=
  let nonZeroGas := if isEIP2028 then TxDataNonZeroGasEIP2028 else TxDataNonZeroGasFrontier in
  gas ← charge gas nz nonZeroGas;
  let z := u64 (dataLen - nz) in
  gas ← charge gas z TxDataZeroGas;
  if isContractCreation && isEIP3860 then charge gas (toWordSize dataLen) InitCodeWordGas else Some gas.

(** The gas and the floor of EIP-7623; [None] is overflow. *)
Definition intrinsic (dataLen dataNonZeroLen authorizationsLen accessListLen storageKeysLen : Z)
    (isContractCreation isEIP2 isEIP2028 isEIP3860 isEIP7623 isAATxn : bool) : option (Z * Z) :=
  let gas := if isContractCreation && isEIP2 then TxGasContractCreation
             else if isAATxn then TxAAGas else TxGas in
  let floorGas7623 := TxGas in
  '(gas, floorGas7623) ←
    (if 0 <? dataLen then
       let nz := dataNonZeroLen in
       gas ← data_gas gas dataLen nz isContractCreation isEIP2028 isEIP3860;
       if isEIP7623 then
         let tokenLen := u64 (dataLen + u64 (3 * nz)) in
         floorGas7623 ← charge floorGas7623 tokenLen TxTotalCostFloorPerToken;
         Some (gas, floorGas7623)
       else Some (gas, floorGas7623)
     else Some (gas, floorGas7623));
  gas ← (if 0 <? accessListLen then
           gas ← charge gas accessListLen TxAccessListAddressGas;
           charge gas storageKeysLen TxAccessListStorageKeyGas
         else Some gas);
  gas ← charge gas authorizationsLen PerEmptyAccountCost;
  Some (gas, floorGas7623).

Definition CalcIntrinsicGas (dataLen dataNonZeroLen authorizationsLen accessListLen storageKeysLen : Z)
    (isContractCreation isEIP2 isEIP2028 isEIP3860 isEIP7623 isAATxn : bool) : Z * Z * bool :=
  match intrinsic dataLen dataNonZeroLen authorizationsLen accessListLen storageKeysLen
          isContractCreation isEIP2 isEIP2028 isEIP3860 isEIP7623 isAATxn with
  | Some (gas, floorGas7623) => (gas, floorGas7623, false)
  | None => (0, 0, true)
  end.

Definition nonzero_bytes (data : bytes) : Z :=
  fold_left (fun n b => if negb (byteZ b =? 0) then n + 1 else n) data 0.

Definition IntrinsicGas (data : bytes) (accessListLen storageKeysLen : Z)
    (isContractCreation isEIP2 isEIP2028 isEIP3860 isEIP7623 isAATxn : bool) (authorizationsLen : Z)
    : Z * Z * bool :=
  CalcIntrinsicGas (zlen data) (nonzero_bytes data) authorizationsLen accessListLen storageKeysLen
    isContractCreation isEIP2 isEIP2028 isEIP3860 isEIP7623 isAATxn.

(** ** The gas pool *)

(** The lock is held for the whole of each method: the methods are atomic. *)
Record GasPool : Type := mkGasPool { gp_gas : Z; gp_blobGas : Z }.

Definition core_ErrGasLimitReached : Error := NewError "gas limit reached".
Definition core_ErrBlobGasLimitReached : Error := NewError "blob gas limit reached".

Definition AddGas (amount : Z) : M GasPool unit := fun gp =>
  if u64 (MaxUint64 - amount) <? gp_gas gp then Panic "gas pool pushed above uint64"
  else Val (tt, mkGasPool (u64 (gp_gas gp + amount)) (gp_blobGas gp)).
Definition SubGas (amount : Z) : M GasPool (option Error) := fun gp =>
  if gp_gas gp <? amount then Val (Some core_ErrGasLimitReached, gp)
  else Val (None, mkGasPool (gp_gas gp - amount) (gp_blobGas gp)).
Definition AddBlobGas (amount : Z) : M GasPool unit := fun gp =>
  if u64 (MaxUint64 - amount) <? gp_blobGas gp then Panic "blob gas pool pushed above uint64"
  else Val (tt, mkGasPool (gp_gas gp) (u64 (gp_blobGas gp + amount))).
Definition SubBlobGas (amount : Z) : M GasPool (option Error) := fun gp =>
  if gp_blobGas gp <? amount then Val (Some core_ErrBlobGasLimitReached, gp)
  else Val (None, mkGasPool (gp_gas gp) (gp_blobGas gp - amount)).

(** ** Exactness *)

Lemma charge_exact gas n price :
  is_u64 gas -> is_u64 n -> is_u64 price ->
  charge gas n price = if two64 <=? gas + n * price then None else Some (gas + n * price).
Proof.
  intros Hg Hn Hp. unfold charge. unfold is_u64 in *.
  destruct (SafeMul_cases n price Hn Hp) as [[Hlt ->]|[Hge (s & ->)]].
  - destruct (SafeAdd_cases gas (n * price)) as [[Hlt' ->]|[Hge' (s & ->)]]; [assumption|unfold is_u64; nia| |].
    + by destruct (Z.leb_spec two64 (gas + n * price)); [lia|].
    + by destruct (Z.leb_spec two64 (gas + n * price)); [|lia].
  - by destruct (Z.leb_spec two64 (gas + n * price)); [|lia].
Qed.

Lemma toWordSize_exact size : is_u64 size -> toWordSize size = (size + 31) / 32.
Proof.
  unfold toWordSize, is_u64. intros H. destruct (Z.ltb_spec (MaxUint64 - 31) size); [|reflexivity].
  change (MaxUint64 / 32 + 1) with 576460752303423488. unfold MaxUint64, two64 in *.
  apply (Z.div_unique _ 32 _ (size + 31 - 32 * 576460752303423488)); lia.
Qed.

(** The price list, over the integers. *)
Definition data_cost (dataLen nz : Z) (isContractCreation isEIP2028 isEIP3860 : bool) : Z :=
  nz * (if isEIP2028 then 16 else 68) + (dataLen - nz) * 4 +
  (if isContractCreation && isEIP3860 then (dataLen + 31) / 32 * 2 else 0).
Definition access_cost (accessListLen storageKeysLen : Z) : Z :=
  if 0 <? accessListLen then accessListLen * 2400 + storageKeysLen * 1900 else 0.
Definition base_cost (isContractCreation isEIP2 isAATxn : bool) : Z :=
  if isContractCreation && isEIP2 then 53000 else if isAATxn then 15000 else 21000.
Definition floor_cost (dataLen nz : Z) (isEIP7623 : bool) : Z :=
  21000 + (if isEIP7623 then (dataLen + 3 * nz) * 10 else 0).

(** [charge] as a guarded addition, for chaining. *)
Definition within (z : Z) : option Z := if two64 <=? z then None else Some z.

Lemma charge_within gas n price k :
  is_u64 n -> is_u64 price -> 0 <= gas -> k = n * price ->
  (g ← within gas; charge g n price) = within (gas + k).
Proof.
  intros Hn Hp Hg ->. unfold within. assert (0 <= n * price) by (unfold is_u64 in *; nia).
  destruct (Z.leb_spec two64 gas); cbn.
  - by destruct (Z.leb_spec two64 (gas + n * price)); [|lia].
  - apply charge_exact; [unfold is_u64; lia|assumption|assumption].
Qed.

Lemma data_gas_exact gas dataLen nz cc e2028 e3860 :
  is_u64 gas -> is_u64 dataLen -> 0 <= nz <= dataLen ->
  data_gas gas dataLen nz cc e2028 e3860 = within (gas + data_cost dataLen nz cc e2028 e3860).
Proof.
  intros Hg Hd Hn. unfold data_gas, data_cost. assert (is_u64 nz) by (unfold is_u64 in *; lia).
  rewrite (u64_id (dataLen - nz)) by (unfold is_u64 in *; lia).
  replace (charge gas nz _) with (within (gas + nz * (if e2028 then 16 else 68))).
  2:{ destruct e2028; symmetry; by apply charge_exact. }
  set (c := if e2028 then 16 else 68). assert (0 <= nz * c) by (unfold c; destruct e2028; lia).
  assert (E : (g ← within (gas + nz * c); charge g (dataLen - nz) TxDataZeroGas)
              = within (gas + nz * c + (dataLen - nz) * 4)).
  { apply charge_within; [unfold is_u64 in *; lia|split; reflexivity||discriminate|unfold is_u64 in *; lia|reflexivity]. }
  pose proof (Z.div_pos (dataLen + 31) 32 ltac:(unfold is_u64 in *; lia) ltac:(lia)).
  assert ((dataLen + 31) / 32 <= dataLen + 31) by (apply Z.div_le_upper_bound; unfold is_u64 in *; lia).
  destruct (cc && e3860).
  - rewrite toWordSize_exact by assumption.
    transitivity (g ← (g ← within (gas + nz * c); charge g (dataLen - nz) TxDataZeroGas);
                  charge g ((dataLen + 31) / 32) InitCodeWordGas).
    { by destruct (within (gas + nz * c)). }
    rewrite E. rewrite (charge_within _ _ _ ((dataLen + 31) / 32 * 2)); [f_equal; lia| |split; reflexivity||discriminate|unfold is_u64 in *; lia|reflexivity].
    split; [lia|]. apply Z.div_lt_upper_bound; unfold is_u64, two64 in *; lia.
  - transitivity (g ← (g ← within (gas + nz * c); charge g (dataLen - nz) TxDataZeroGas); Some g).
    { by destruct (within (gas + nz * c)). }
    rewrite E. replace (gas + (nz * c + (dataLen - nz) * 4 + 0)) with (gas + nz * c + (dataLen - nz) * 4) by lia.
    destruct (within (gas + nz * c + (dataLen - nz) * 4)); reflexivity.
Qed.

(** The data part, with the floor of EIP-7623. *)
Lemma data_part_exact gas dataLen nz cc e2028 e3860 (e7623 : bool) :
  is_u64 gas -> is_u64 dataLen -> 0 <= nz <= dataLen ->
  (if 0 <? dataLen then
     g ← data_gas gas dataLen nz cc e2028 e3860;
     if e7623 then f ← charge TxGas (u64 (dataLen + u64 (3 * nz))) TxTotalCostFloorPerToken; Some (g, f)
     else Some (g, TxGas)
   else Some (gas, TxGas)) =
  (g ← within (gas + (if 0 <? dataLen then data_cost dataLen nz cc e2028 e3860 else 0));
   f ← within (floor_cost dataLen nz e7623);
   Some (g, f)).
Proof.
  intros Hg Hd Hn. unfold floor_cost. destruct (Z.ltb_spec 0 dataLen).
  - rewrite data_gas_exact by assumption. unfold within.
    destruct (Z.leb_spec two64 (gas + data_cost dataLen nz cc e2028 e3860)) as [|Hlt]; [reflexivity|]. cbn [mbind option_bind].
    destruct e7623; [|reflexivity].
    assert (Hdc : 16 * nz + (dataLen - nz) * 4 <= data_cost dataLen nz cc e2028 e3860).
    { unfold data_cost. pose proof (Z.div_pos (dataLen + 31) 32 ltac:(lia) ltac:(lia)).
      destruct e2028, (cc && e3860); lia. }
    unfold is_u64, two64 in *. rewrite (u64_id (3 * nz)) by (unfold is_u64, two64; lia).
    rewrite u64_id by (unfold is_u64, two64; lia).
    rewrite charge_exact by (unfold is_u64, two64, TxGas, TxTotalCostFloorPerToken; lia). reflexivity.
  - unfold within. assert (dataLen = 0) by lia. assert (nz = 0) by lia. subst. rewrite (Z.add_0_r gas).
    unfold is_u64 in Hg. destruct (Z.leb_spec two64 gas); [lia|]. destruct e7623; reflexivity.
Qed.

(** The intrinsic gas is exact: for all 64-bit arguments the computation yields the
    schedule's price over the integers (base, zero and non-zero data bytes, init code
    words, access list, authorizations) and the EIP-7623 floor, and reports overflow
    exactly when one of the two does not fit in 64 bits. *)
Theorem CalcIntrinsicGas_exact dataLen nz auths al keys cc e2 e2028 e3860 e7623 aa :
  is_u64 dataLen -> 0 <= nz <= dataLen -> is_u64 auths -> is_u64 al -> is_u64 keys ->
  let total := base_cost cc e2 aa + (if 0 <? dataLen then data_cost dataLen nz cc e2028 e3860 else 0)
               + access_cost al keys + auths * 25000 in
  let floor := floor_cost dataLen nz e7623 in
  CalcIntrinsicGas dataLen nz auths al keys cc e2 e2028 e3860 e7623 aa =
  if (two64 <=? total) || (two64 <=? floor) then (0, 0, true) else (total, floor, false).
Proof.
  intros Hd Hn Ha Hl Hk total floor. unfold CalcIntrinsicGas, intrinsic.
  change (if cc && e2 then TxGasContractCreation else if aa then TxAAGas else TxGas) with (base_cost cc e2 aa).
  assert (Hb : 0 <= base_cost cc e2 aa <= 53000) by (unfold base_cost; destruct (cc && e2), aa; lia).
  rewrite data_part_exact by (try assumption; unfold is_u64, two64; lia).
  set (D := if 0 <? dataLen then _ else 0) in *.
  assert (HD : 0 <= D).
  { unfold D, data_cost. destruct (0 <? dataLen); [|lia].
    pose proof (Z.div_pos (dataLen + 31) 32 ltac:(unfold is_u64 in *; lia) ltac:(lia)).
    destruct e2028, (cc && e3860); unfold is_u64 in *; lia. }
  assert (HA : forall g, 0 <= g ->
    (g' ← within g; if 0 <? al then x ← charge g' al TxAccessListAddressGas; charge x keys TxAccessListStorageKeyGas else Some g')
    = within (g + access_cost al keys)).
  { intros g Hg. unfold access_cost. destruct (Z.ltb_spec 0 al).
    - transitivity (x ← (g' ← within g; charge g' al TxAccessListAddressGas); charge x keys TxAccessListStorageKeyGas).
      { by destruct (within g). }
      rewrite (charge_within g al TxAccessListAddressGas (al * 2400)) by (try assumption; split; reflexivity||discriminate).
      rewrite (charge_within _ keys TxAccessListStorageKeyGas (keys * 1900)); [f_equal; lia|assumption|split; reflexivity||discriminate| |reflexivity].
      unfold is_u64 in *; lia.
    - rewrite Z.add_0_r. by destruct (within g). }
  assert (HAc : 0 <= access_cost al keys) by (unfold access_cost, is_u64 in *; destruct (0 <? al); lia).
  assert (HT : (g ← (g ← within (base_cost cc e2 aa + D);
                     if 0 <? al then x ← charge g al TxAccessListAddressGas; charge x keys TxAccessListStorageKeyGas else Some g);
                charge g auths PerEmptyAccountCost) = within total).
  { rewrite HA by lia. rewrite (charge_within _ auths PerEmptyAccountCost (auths * 25000));
      [reflexivity|assumption|split; reflexivity||discriminate|lia|reflexivity]. }
  revert HT. destruct (within (base_cost cc e2 aa + D)) as [g|] eqn:Eg; cbn [mbind option_bind]; intros HT.
  - destruct (within floor) as [f|] eqn:Ef; unfold floor in Ef; rewrite Ef; cbn [mbind option_bind].
    + assert (Hf : (two64 <=? floor) = false /\ f = floor) by (unfold within in Ef; fold floor in Ef; destruct (two64 <=? floor); simplify_eq; auto).
      destruct Hf as [-> ->]. rewrite orb_false_r.
      destruct (if 0 <? al then _ else _) as [x|]; cbn [mbind option_bind] in *; [rewrite HT|];
        unfold within in *; destruct (two64 <=? total); simplify_eq; reflexivity.
    + assert (Hf : (two64 <=? floor) = true) by (unfold within in Ef; fold floor in Ef; by destruct (two64 <=? floor)).
      by rewrite Hf, orb_true_r.
  - unfold within in *. destruct (two64 <=? total); [reflexivity|discriminate].
Qed.

(** Whatever the arguments, the results are machine integers. *)
Lemma charge_u64 gas n price g : charge gas n price = Some g -> is_u64 g.
Proof.
  unfold charge, SafeMul, SafeAdd. destruct (negb _); [discriminate|]. destruct (negb _); [discriminate|].
  intros [= <-]. apply u64_range.
Qed.

Lemma IntrinsicGas_u64 data al keys cc e2 e2028 e3860 e7623 aa auths g f o :
  IntrinsicGas data al keys cc e2 e2028 e3860 e7623 aa auths = (g, f, o) -> is_u64 g /\ is_u64 f.
Proof.
  unfold IntrinsicGas, CalcIntrinsicGas, intrinsic. intros E.
  assert (H0 : is_u64 0 /\ is_u64 TxGas) by (unfold is_u64, two64, TxGas; lia).
  repeat case_match; simplify_option_eq; repeat case_match; simplify_option_eq;
    (split; [eauto using charge_u64|]); first [by eauto using charge_u64 | apply H0].
Qed.

Lemma nonzero_bytes_le data : 0 <= nonzero_bytes data <= zlen data.
Proof.
  unfold nonzero_bytes. assert (H : forall n, n <= fold_left (fun n b => if negb (byteZ b =? 0) then n + 1 else n) data n <= n + zlen data).
  { induction data as [|b data IH]; intros n; [cbn; unfold zlen; cbn; lia|]. cbn [fold_left]. rewrite zlen_cons.
    destruct (negb (byteZ b =? 0)); [specialize (IH (n + 1))|specialize (IH n)]; lia. }
  specialize (H 0). lia.
Qed.

Lemma CalcIntrinsicGas_exact_witness :
  CalcIntrinsicGas 100 40 1 1 2 false true true true true false = (21000 + 40 * 16 + 60 * 4 + 2400 + 3800 + 25000, 23200, false).
Proof.
  rewrite (CalcIntrinsicGas_exact 100 40 1 1 2 false true true true true false); [reflexivity|..]; unfold is_u64, two64; lia.
Defined.
