(* ===== verification/Sha256.v ===== *)
(** * SHA-256

    [sha256.Sum256] of Go's standard library, which the SHA256 precompile and the versioned
    hashes of blobs call: FIPS 180-4 on 32-bit words. *)

From S2P Require Import Prelude.

Definition w32 (z : Z) : Z := z mod 2 ^ 32.
Definition rotr32 (x n : Z) : Z := Z.lor (Z.shiftr x n) (w32 (Z.shiftl x (32 - n))).

(** The constants of the standard: the first 32 bits of the fractional parts of the cube
    roots of the first 64 primes, and of the square roots of the first eight. *)
Definition first_primes : list Z :=
  filter (fun n => forallb (fun d => negb (n mod (Z.of_nat d) =? 0)) (seq 2 (Z.to_nat (Z.sqrt n) - 1)) = true)
    (map Z.of_nat (seq 2 310)).

(** The integer cube root, bit by bit from [2^k]. *)
Fixpoint cube_root (k : nat) (r n : Z) : Z :=
  let r' := r + 2 ^ Z.of_nat k in
  let r := if r' ^ 3 <=? n then r' else r in
  match k with O => r | S k => cube_root k r n end.

Definition sha256_K : list Z := Eval vm_compute in map (fun p => w32 (cube_root 36 0 (p * 2 ^ 96))) first_primes.
Definition sha256_H : list Z := Eval vm_compute in map (fun p => w32 (Z.sqrt (p * 2 ^ 64))) (take 8 first_primes).

(** The schedule, latest word first. *)
Fixpoint sha256_schedule (k : nat) (w : list Z) : list Z :=
  match k with
  | O => w
  | S k =>
      let a := nth 14 w 0 in
      let b := nth 1 w 0 in
      let s0 := Z.lxor (Z.lxor (rotr32 a 7) (rotr32 a 18)) (Z.shiftr a 3) in
      let s1 := Z.lxor (Z.lxor (rotr32 b 17) (rotr32 b 19)) (Z.shiftr b 10) in
      sha256_schedule k (w32 (nth 15 w 0 + s0 + nth 6 w 0 + s1) :: w)
  end.

Fixpoint sha256_rounds (kw : list (Z * Z)) (v : list Z) : list Z :=
  match kw, v with
  | (k, w) :: kw, [a; b; c; d; e; f; g; h] =>
      let S1 := Z.lxor (Z.lxor (rotr32 e 6) (rotr32 e 11)) (rotr32 e 25) in
      let ch := Z.lxor (Z.land e f) (Z.land (Z.lxor e 0xffffffff) g) in
      let t1 := w32 (h + S1 + ch + k + w) in
      let S0 := Z.lxor (Z.lxor (rotr32 a 2) (rotr32 a 13)) (rotr32 a 22) in
      let maj := Z.lxor (Z.lxor (Z.land a b) (Z.land a c)) (Z.land b c) in
      sha256_rounds kw [w32 (t1 + w32 (S0 + maj)); a; b; c; w32 (d + t1); e; f; g]
  | _, v => v
  end.

(** The sixteen words of a 64-byte block. *)
Definition sha256_words (block : bytes) : list Z :=
  map (fun j => be_to_Z (take 4 (drop (4 * j) block))) (seq 0 16).

Definition sha256_block (h : list Z) (block : bytes) : list Z :=
  let w := rev (sha256_schedule 48 (rev (sha256_words block))) in
  map (fun p => w32 (p.1 + p.2)) (combine h (sha256_rounds (combine sha256_K w) h)).

Fixpoint sha256_blocks (k : nat) (h : list Z) (data : bytes) : list Z :=
  match k with
  | O => h
  | S k => sha256_blocks k (sha256_block h (take 64 data)) (drop 64 data)
  end.

(** The message, a one bit, zeroes to 56 modulo 64, the bit length. *)
Definition sha256_pad (data : bytes) : bytes :=
  data ++ [x80] ++ replicate (Z.to_nat ((55 - zlen data) mod 64)) x00 ++ Z_to_be 8 (8 * zlen data).

Definition Sum256 (data : bytes) : bytes :=
  let m := sha256_pad data in
  concat (map (Z_to_be 4) (sha256_blocks (length m / 64) sha256_H m)).

(** The first test vector of the standard. *)
Example sha256_abc :
  be_to_Z (Sum256 [x61; x62; x63]) = 0xba7816bf8f01cfea414140de5dae2223b00361a396177a9cb410ff61f20015ad.
Proof. vm_compute. reflexivity. Qed.
