(* ===== verification/Blake2b.v ===== *)
(** * BLAKE2b

    [erigon-lib/crypto/blake2b]: the compression function with a variable number of rounds
    behind the BLAKE2F precompile ([blake2b_generic.go], the portable one), and the hash in
    one shot ([checkSum]) and streaming ([digest]) of [blake2b.go]. Go arrays of fixed size
    are lists of that length. *)

From S2P Require Import Prelude Errors.

(** ** Words *)

(** [bits.RotateLeft64]; a negative [k] rotates right. *)
Definition RotateLeft64 (x k : Z) : Z :=
  let x := u64 x in
  let s := k mod 64 in
  Z.lor (u64 (Z.shiftl x s)) (Z.shiftr x (64 - s)).

(** Addition of [uint64]. *)
Definition add64 (a b : Z) : Z := u64 (a + b).
Declare Scope word_scope.
Delimit Scope word_scope with word.
Infix "+w" := add64 (at level 50, left associativity) : word_scope.

(** [binary.LittleEndian.Uint64] and [PutUint64] on eight bytes. *)
Definition le_Uint64 (b : bytes) : Z := be_to_Z (rev (take 8 b)).
Definition le_PutUint64 (x : Z) : bytes := rev (Z_to_be 8 x).

Definition iv : list Z :=
  [0x6a09e667f3bcc908; 0xbb67ae8584caa73b; 0x3c6ef372fe94f82b; 0xa54ff53a5f1d36f1;
   0x510e527fade682d1; 0x9b05688c2b3e6c1f; 0x1f83d9abfb41bd6b; 0x5be0cd19137e2179].

Definition precomputed : list (list nat) :=
  ([[0; 2; 4; 6; 1; 3; 5; 7; 8; 10; 12; 14; 9; 11; 13; 15];
    [14; 4; 9; 13; 10; 8; 15; 6; 1; 0; 11; 5; 12; 2; 7; 3];
    [11; 12; 5; 15; 8; 0; 2; 13; 10; 3; 7; 9; 14; 6; 1; 4];
    [7; 3; 13; 11; 9; 1; 12; 14; 2; 5; 4; 15; 6; 10; 0; 8];
    [9; 5; 2; 10; 0; 7; 4; 15; 14; 11; 6; 3; 1; 12; 8; 13];
    [2; 6; 0; 8; 12; 10; 11; 3; 4; 7; 15; 1; 13; 5; 14; 9];
    [12; 1; 14; 4; 5; 15; 13; 10; 0; 6; 9; 8; 7; 3; 2; 11];
    [13; 7; 12; 3; 11; 14; 1; 9; 5; 15; 8; 2; 0; 4; 6; 10];
    [6; 14; 11; 0; 15; 9; 3; 8; 12; 13; 1; 10; 2; 7; 4; 5];
    [10; 8; 7; 1; 2; 4; 6; 5; 15; 9; 3; 13; 11; 14; 12; 0]])%nat.

(** ** The compression function *)

(** The sixteen working words. *)
Record work : Type := mkWork {
  w0 : Z; w1 : Z; w2 : Z; w3 : Z; w4 : Z; w5 : Z; w6 : Z; w7 : Z;
  w8 : Z; w9 : Z; w10 : Z; w11 : Z; w12 : Z; w13 : Z; w14 : Z; w15 : Z
}.

Open Scope word_scope.

(** The four paragraphs of the loop body of [fGeneric]; [x j] is [m[s[j]]]. *)
Definition round_part1 (x : nat -> Z) (v : work) : work :=
  let '(mkWork v0 v1 v2 v3 v4 v5 v6 v7 v8 v9 v10 v11 v12 v13 v14 v15) := v in
  let v0 := v0 +w x 0%nat in let v0 := v0 +w v4 in let v12 := Z.lxor v12 v0 in
  let v12 := RotateLeft64 v12 (-32) in let v8 := v8 +w v12 in let v4 := Z.lxor v4 v8 in
  let v4 := RotateLeft64 v4 (-24) in let v1 := v1 +w x 1%nat in let v1 := v1 +w v5 in
  let v13 := Z.lxor v13 v1 in let v13 := RotateLeft64 v13 (-32) in let v9 := v9 +w v13 in
  let v5 := Z.lxor v5 v9 in let v5 := RotateLeft64 v5 (-24) in let v2 := v2 +w x 2%nat in
  let v2 := v2 +w v6 in let v14 := Z.lxor v14 v2 in let v14 := RotateLeft64 v14 (-32) in
  let v10 := v10 +w v14 in let v6 := Z.lxor v6 v10 in let v6 := RotateLeft64 v6 (-24) in
  let v3 := v3 +w x 3%nat in let v3 := v3 +w v7 in let v15 := Z.lxor v15 v3 in
  let v15 := RotateLeft64 v15 (-32) in let v11 := v11 +w v15 in let v7 := Z.lxor v7 v11 in
  let v7 := RotateLeft64 v7 (-24) in
  mkWork v0 v1 v2 v3 v4 v5 v6 v7 v8 v9 v10 v11 v12 v13 v14 v15.

Definition round_part2 (x : nat -> Z) (v : work) : work :=
  let '(mkWork v0 v1 v2 v3 v4 v5 v6 v7 v8 v9 v10 v11 v12 v13 v14 v15) := v in
  let v0 := v0 +w x 4%nat in let v0 := v0 +w v4 in let v12 := Z.lxor v12 v0 in
  let v12 := RotateLeft64 v12 (-16) in let v8 := v8 +w v12 in let v4 := Z.lxor v4 v8 in
  let v4 := RotateLeft64 v4 (-63) in let v1 := v1 +w x 5%nat in let v1 := v1 +w v5 in
  let v13 := Z.lxor v13 v1 in let v13 := RotateLeft64 v13 (-16) in let v9 := v9 +w v13 in
  let v5 := Z.lxor v5 v9 in let v5 := RotateLeft64 v5 (-63) in let v2 := v2 +w x 6%nat in
  let v2 := v2 +w v6 in let v14 := Z.lxor v14 v2 in let v14 := RotateLeft64 v14 (-16) in
  let v10 := v10 +w v14 in let v6 := Z.lxor v6 v10 in let v6 := RotateLeft64 v6 (-63) in
  let v3 := v3 +w x 7%nat in let v3 := v3 +w v7 in let v15 := Z.lxor v15 v3 in
  let v15 := RotateLeft64 v15 (-16) in let v11 := v11 +w v15 in let v7 := Z.lxor v7 v11 in
  let v7 := RotateLeft64 v7 (-63) in
  mkWork v0 v1 v2 v3 v4 v5 v6 v7 v8 v9 v10 v11 v12 v13 v14 v15.

Definition round_part3 (x : nat -> Z) (v : work) : work :=
  let '(mkWork v0 v1 v2 v3 v4 v5 v6 v7 v8 v9 v10 v11 v12 v13 v14 v15) := v in
  let v0 := v0 +w x 8%nat in let v0 := v0 +w v5 in let v15 := Z.lxor v15 v0 in
  let v15 := RotateLeft64 v15 (-32) in let v10 := v10 +w v15 in let v5 := Z.lxor v5 v10 in
  let v5 := RotateLeft64 v5 (-24) in let v1 := v1 +w x 9%nat in let v1 := v1 +w v6 in
  let v12 := Z.lxor v12 v1 in let v12 := RotateLeft64 v12 (-32) in let v11 := v11 +w v12 in
  let v6 := Z.lxor v6 v11 in let v6 := RotateLeft64 v6 (-24) in let v2 := v2 +w x 10%nat in
  let v2 := v2 +w v7 in let v13 := Z.lxor v13 v2 in let v13 := RotateLeft64 v13 (-32) in
  let v8 := v8 +w v13 in let v7 := Z.lxor v7 v8 in let v7 := RotateLeft64 v7 (-24) in
  let v3 := v3 +w x 11%nat in let v3 := v3 +w v4 in let v14 := Z.lxor v14 v3 in
  let v14 := RotateLeft64 v14 (-32) in let v9 := v9 +w v14 in let v4 := Z.lxor v4 v9 in
  let v4 := RotateLeft64 v4 (-24) in
  mkWork v0 v1 v2 v3 v4 v5 v6 v7 v8 v9 v10 v11 v12 v13 v14 v15.

Definition round_part4 (x : nat -> Z) (v : work) : work :=
  let '(mkWork v0 v1 v2 v3 v4 v5 v6 v7 v8 v9 v10 v11 v12 v13 v14 v15) := v in
  let v0 := v0 +w x 12%nat in let v0 := v0 +w v5 in let v15 := Z.lxor v15 v0 in
  let v15 := RotateLeft64 v15 (-16) in let v10 := v10 +w v15 in let v5 := Z.lxor v5 v10 in
  let v5 := RotateLeft64 v5 (-63) in let v1 := v1 +w x 13%nat in let v1 := v1 +w v6 in
  let v12 := Z.lxor v12 v1 in let v12 := RotateLeft64 v12 (-16) in let v11 := v11 +w v12 in
  let v6 := Z.lxor v6 v11 in let v6 := RotateLeft64 v6 (-63) in let v2 := v2 +w x 14%nat in
  let v2 := v2 +w v7 in let v13 := Z.lxor v13 v2 in let v13 := RotateLeft64 v13 (-16) in
  let v8 := v8 +w v13 in let v7 := Z.lxor v7 v8 in let v7 := RotateLeft64 v7 (-63) in
  let v3 := v3 +w x 15%nat in let v3 := v3 +w v4 in let v14 := Z.lxor v14 v3 in
  let v14 := RotateLeft64 v14 (-16) in let v9 := v9 +w v14 in let v4 := Z.lxor v4 v9 in
  let v4 := RotateLeft64 v4 (-63) in
  mkWork v0 v1 v2 v3 v4 v5 v6 v7 v8 v9 v10 v11 v12 v13 v14 v15.

Definition round (x : nat -> Z) (v : work) : work :=
  round_part4 x (round_part3 x (round_part2 x (round_part1 x v))).

(** [for i := 0; i < int(rounds); i++], [k] iterations left. *)
Fixpoint rounds_loop (k : nat) (i : nat) (m : list Z) (v : work) : work :=
  match k with
  | O => v
  | S k =>
      let s := nth (i mod 10) precomputed [] in
      rounds_loop k (S i) m (round (fun j => nth (nth j s 0%nat) m 0) v)
  end.

Definition fGeneric (h m : list Z) (c0 c1 flag rounds : Z) : list Z :=
  let v := mkWork (nth 0 h 0) (nth 1 h 0) (nth 2 h 0) (nth 3 h 0) (nth 4 h 0) (nth 5 h 0) (nth 6 h 0) (nth 7 h 0)
             (nth 0 iv 0) (nth 1 iv 0) (nth 2 iv 0) (nth 3 iv 0) (Z.lxor (nth 4 iv 0) c0) (Z.lxor (nth 5 iv 0) c1)
             (Z.lxor (nth 6 iv 0) flag) (nth 7 iv 0) in
  let '(mkWork v0 v1 v2 v3 v4 v5 v6 v7 v8 v9 v10 v11 v12 v13 v14 v15) := rounds_loop (Z.to_nat rounds) 0 m v in
  [Z.lxor (nth 0 h 0) (Z.lxor v0 v8); Z.lxor (nth 1 h 0) (Z.lxor v1 v9); Z.lxor (nth 2 h 0) (Z.lxor v2 v10);
   Z.lxor (nth 3 h 0) (Z.lxor v3 v11); Z.lxor (nth 4 h 0) (Z.lxor v4 v12); Z.lxor (nth 5 h 0) (Z.lxor v5 v13);
   Z.lxor (nth 6 h 0) (Z.lxor v6 v14); Z.lxor (nth 7 h 0) (Z.lxor v7 v15)].

Definition F (h m : list Z) (c0 c1 : Z) (final : bool) (rounds : Z) : list Z :=
  fGeneric h m c0 c1 (if final then MaxUint64 else 0) rounds.

(** ** Hashing *)

Definition BlockSize : Z := 128.
Definition Size : Z := 64.

(** The sixteen words of one block. *)
Definition block_words (block : bytes) : list Z :=
  map (fun j => le_Uint64 (drop (8 * j) block)) (seq 0 16).

(** [hashBlocks] on [k] blocks; the callers pass whole blocks. *)
Fixpoint hashBlocks_loop (k : nat) (h : list Z) (c : Z * Z) (flag : Z) (blocks : bytes) : list Z * (Z * Z) :=
  match k with
  | O => (h, c)
  | S k =>
      let c0 := c.1 +w BlockSize in
      let c1 := if c0 <? BlockSize then c.2 +w 1 else c.2 in
      hashBlocks_loop k (fGeneric h (block_words (take 128 blocks)) c0 c1 flag 12) (c0, c1) flag (drop 128 blocks)
  end.
Definition hashBlocks (h : list Z) (c : Z * Z) (flag : Z) (blocks : bytes) : list Z * (Z * Z) :=
  hashBlocks_loop (length blocks / 128) h c flag blocks.

(** [length &^ (BlockSize-1)], one block less when nothing would be left. *)
Definition full_prefix (n : nat) : nat :=
  let nn := (n / 128 * 128)%nat in if (n =? nn)%nat then (nn - 128)%nat else nn.

(** The last block, padded with zeroes, and the counter set so that the next increment
    gives the length of the data. *)
Definition last_block (h : list Z) (c : Z * Z) (data : bytes) : list Z :=
  let block := data ++ replicate (128 - length data) x00 in
  let remaining := BlockSize - zlen data in
  let c1 := if c.1 <? remaining then u64 (c.2 - 1) else c.2 in
  let c0 := u64 (c.1 - remaining) in
  (hashBlocks h (c0, c1) MaxUint64 block).1.

(** The bytes of the first [(hashSize+7)/8] words; the rest of the array stays zero. *)
Definition checkSum (hashSize : Z) (data : bytes) : bytes :=
  let h := match iv with
           | h0 :: t => Z.lxor h0 (Z.lor (Z.lor hashSize (Z.shiftl 1 16)) (Z.shiftl 1 24)) :: t
           | [] => []
           end in
  let '(h, c, data) :=
    if BlockSize <? zlen data then
      let n := full_prefix (length data) in
      let '(h, c) := hashBlocks h (0, 0) 0 (take n data) in
      (h, c, drop n data)
    else (h, (0, 0), data) in
  let h := last_block h c data in
  let k := Z.to_nat ((hashSize + 7) / 8) in
  concat (map le_PutUint64 (take k h)) ++ replicate (64 - 8 * k) x00.

(** ** Streaming *)

Record digest : Type := mkDigest {
  d_h : list Z; d_c : Z * Z; d_size : Z; d_block : bytes; d_offset : Z; d_key : bytes; d_keyLen : Z
}.

Definition d_Reset (d : digest) : digest :=
  let h := match iv with
           | h0 :: t => Z.lxor h0 (Z.lor (Z.lor (Z.lor (d_size d) (Z.shiftl (d_keyLen d) 8)) (Z.shiftl 1 16))
                                     (Z.shiftl 1 24)) :: t
           | [] => []
           end in
  if 0 <? d_keyLen d then mkDigest h (0, 0) (d_size d) (d_key d) BlockSize (d_key d) (d_keyLen d)
  else mkDigest h (0, 0) (d_size d) (d_block d) 0 (d_key d) (d_keyLen d).

Definition errKeySize : Error := NewError "blake2b: invalid key size".
Definition errHashSize : Error := NewError "blake2b: invalid hash size".

Definition newDigest (hashSize : Z) (key : bytes) : Error + digest :=
  if (hashSize <? 1) || (Size <? hashSize) then inl errHashSize
  else if Size <? zlen key then inl errKeySize
  else inr (d_Reset (mkDigest (replicate 8 0) (0, 0) hashSize (replicate 128 x00) 0
                       (key ++ replicate (128 - length key) x00) (zlen key))).

(** [copy(d.block[off:], p)] for [p] that fits. *)
Definition fill_block (block : bytes) (off : nat) (p : bytes) : bytes :=
  take off block ++ p ++ drop (off + length p) block.

Definition d_Write (p : bytes) (d : digest) : digest :=
  let flush d p :=
    let '(d, p) :=
      if BlockSize <? zlen p then
        let nn := full_prefix (length p) in
        let '(h, c) := hashBlocks (d_h d) (d_c d) 0 (take nn p) in
        (mkDigest h c (d_size d) (d_block d) (d_offset d) (d_key d) (d_keyLen d), drop nn p)
      else (d, p) in
    if 0 <? zlen p
    then mkDigest (d_h d) (d_c d) (d_size d) (fill_block (d_block d) 0 p) (d_offset d + zlen p) (d_key d) (d_keyLen d)
    else d in
  if 0 <? d_offset d then
    let remaining := BlockSize - d_offset d in
    if zlen p <=? remaining then
      mkDigest (d_h d) (d_c d) (d_size d) (fill_block (d_block d) (Z.to_nat (d_offset d)) p) (d_offset d + zlen p)
        (d_key d) (d_keyLen d)
    else
      let block := fill_block (d_block d) (Z.to_nat (d_offset d)) (take (Z.to_nat remaining) p) in
      let '(h, c) := hashBlocks (d_h d) (d_c d) 0 block in
      flush (mkDigest h c (d_size d) block 0 (d_key d) (d_keyLen d)) (drop (Z.to_nat remaining) p)
  else flush d p.

Definition d_finalize (d : digest) : bytes :=
  concat (map le_PutUint64 (last_block (d_h d) (d_c d) (take (Z.to_nat (d_offset d)) (d_block d)))).

Definition d_Sum (sum : bytes) (d : digest) : bytes := sum ++ take (Z.to_nat (d_size d)) (d_finalize d).

(** ** The fixed sizes *)

Definition Size384 : Z := 48.
Definition Size256 : Z := 32.

Definition Sum512 (data : bytes) : bytes := checkSum Size data.
Definition Sum384 (data : bytes) : bytes := take (Z.to_nat Size384) (checkSum Size384 data).
Definition Sum256 (data : bytes) : bytes := take (Z.to_nat Size256) (checkSum Size256 data).

Definition New512 (key : bytes) : Error + digest := newDigest Size key.
Definition New384 (key : bytes) : Error + digest := newDigest Size384 key.
Definition New256 (key : bytes) : Error + digest := newDigest Size256 key.
Definition New (size : Z) (key : bytes) : Error + digest := newDigest size key.

(** ** Saving and restoring a running digest *)

Definition appendUint64 (b : bytes) (x : Z) : bytes := b ++ Z_to_be 8 x.
Definition consumeUint64 (b : bytes) : bytes * Z := (drop 8 b, be_to_Z (take 8 b)).

(** ["b2b"]. *)
Definition magic : bytes := [x62; x32; x62].
Definition marshaledSize : Z := zlen magic + 8 * 8 + 2 * 8 + 1 + BlockSize + 1.

Definition MarshalBinary (d : digest) : Error + bytes :=
  if negb (d_keyLen d =? 0) then inl (NewError "crypto/blake2b: cannot marshal MACs")
  else
    let b := magic in
    let b := fold_left appendUint64 (d_h d) b in
    let b := appendUint64 b (d_c d).1 in
    let b := appendUint64 b (d_c d).2 in
    let b := b ++ [Zbyte (d_size d)] in
    let b := b ++ d_block d in
    inr (b ++ [Zbyte (d_offset d)]).

(** [k] calls of [consumeUint64]. *)
Fixpoint consume_words (k : nat) (b : bytes) : bytes * list Z :=
  match k with
  | O => (b, [])
  | S k =>
      let '(b, x) := consumeUint64 b in
      let '(b, xs) := consume_words k b in (b, x :: xs)
  end.

Definition UnmarshalBinary (b : bytes) (d : digest) : digest * option Error :=
  if (zlen b <? zlen magic) || negb (bool_decide (take (length magic) b = magic))
  then (d, Some (NewError "crypto/blake2b: invalid hash state identifier"))
  else if negb (zlen b =? marshaledSize)
  then (d, Some (NewError "crypto/blake2b: invalid hash state size"))
  else
    let b := drop (length magic) b in
    let '(b, h) := consume_words 8 b in
    let '(b, c0) := consumeUint64 b in
    let '(b, c1) := consumeUint64 b in
    let size := byteZ (hd x00 b) in
    let b := drop 1 b in
    let block := take 128 b in
    let b := drop 128 b in
    let offset := byteZ (hd x00 b) in
    (mkDigest h (c0, c1) size block offset (d_key d) (d_keyLen d), None).

Close Scope word_scope.
