(* ===== verification/Precompiles.v ===== *)
(** * Precompiled contracts

    [core/vm/contracts.go]: the tables of each fork, the price of each contract and its
    body, with the wrappers of [erigon-lib/crypto] ([bn254], [kzg], [secp256r1]). The
    arithmetic of curves and the RIPEMD-160 hash come from libraries outside the repository
    (gnark-crypto, go-eth-kzg, libsecp256k1, x/crypto): the class [Crypto] holds the
    functions the code calls. Curve points are pairs of field elements. *)

From Stdlib Require Import Zpow_facts.
From S2P Require Import Prelude Uint256 Params Errors Common Machine Rlp Blake2b Sha256 Authorization.

(** The functions of the libraries. A G2 coordinate is a pair [(A0, A1)]. *)
Class Crypto : Type := {
  ripemd160_Sum : bytes -> bytes;
  (* gnark-crypto/ecc/bn254 *)
  bn_SetBytesCanonical : bytes -> Error + Z;
  bn_Bytes : Z -> bytes;
  bn_G1_IsInSubGroup : Z * Z -> bool;
  bn_G2_IsInSubGroup : (Z * Z) * (Z * Z) -> bool;
  bn_Add : Z * Z -> Z * Z -> Z * Z;
  bn_ScalarMultiplication : Z * Z -> Z -> Z * Z;
  bn_PairingCheck : list (Z * Z) -> list ((Z * Z) * (Z * Z)) -> Error + bool;
  (* gnark-crypto/ecc/bls12-381 *)
  fp_Element : bytes -> Error + Z;
  fp_PutElement : Z -> bytes;
  fr_SetBytes : bytes -> Z;
  g1_IsOnCurve : Z * Z -> bool;
  g1_IsInSubGroup : Z * Z -> bool;
  g1_Add : Z * Z -> Z * Z -> Z * Z;
  g1_MultiExp : list (Z * Z) -> list Z -> Z * Z;
  g2_IsOnCurve : (Z * Z) * (Z * Z) -> bool;
  g2_IsInSubGroup : (Z * Z) * (Z * Z) -> bool;
  g2_Add : (Z * Z) * (Z * Z) -> (Z * Z) * (Z * Z) -> (Z * Z) * (Z * Z);
  g2_MultiExp : list ((Z * Z) * (Z * Z)) -> list Z -> (Z * Z) * (Z * Z);
  bls_PairingCheck : list (Z * Z) -> list ((Z * Z) * (Z * Z)) -> Error + bool;
  MapToG1 : Z -> Z * Z;
  MapToG2 : Z * Z -> (Z * Z) * (Z * Z);
  (* go-eth-kzg *)
  ScalarsPerBlob : Z;
  BlsModulus : bytes;
  VerifyKZGProof : bytes -> bytes -> bytes -> bytes -> option Error;
  (* crypto/elliptic, crypto/ecdsa *)
  p256_IsOnCurve : Z -> Z -> bool;
  p256_Verify : Z * Z -> bytes -> Z -> Z -> bool
}.

Section Precompiles.
Context {U : Uint256} {K : Keccak} {E : Secp256k1} {C : Crypto} (little : bool).

Definition fail_ (e : Error) : Res (bytes * option Error) := mret ([], Some e).

(** [common.LeftPadBytes]. *)
Definition LeftPadBytes (slice : bytes) (l : Z) : bytes :=
  if l <=? zlen slice then slice else replicate (Z.to_nat l - length slice) x00 ++ slice.

(** [x.Bytes()] of a [big.Int]. *)
Definition big_Bytes (x : Z) : bytes := Z_to_be (Z.to_nat (BitLenToByteLen (Len64 x))) x.

(** ** Hashes, copies and signatures *)

Definition per_word (input : bytes) (word base : Z) : Z := u64 (u64 (zlen input + 31) / 32 * word + base).

Definition ecrecover_Run (input : bytes) : Res (bytes * option Error) :=
  let input := RightPadBytes input 128 in
  r ← go_slice input 64 96;
  s ← go_slice input 96 128;
  let r := u_SetBytes r in
  let s := u_SetBytes s in
  v ← go_index input 63;
  let v := (byteZ v - 27) mod 256 in
  high ← go_slice input 32 63;
  if negb (allZero little high) || negb (TransactionSignatureIsValid v r s true) then mret ([], None)
  else
    rs ← go_slice input 64 128;
    hash ← go_slice input 0 32;
    match Ecrecover hash (rs ++ [Zbyte v]) with
    | inl _ => mret ([], None)
    | inr pubKey =>
        key ← go_slice pubKey 1 (zlen pubKey);
        mret (LeftPadBytes (drop 12 (Z_to_be 32 (keccak256 key))) 32, None)
    end.

(** ** MODEXP *)

Definition modExpMultComplexityEip2565 (x : Z) : Z :=
  let numWords := u64 (x + 7) / 8 in u64 (numWords * numWords).

Definition modExpMultComplexityEip7883 (x : Z) : Z :=
  if 32 <? x then u64 (modExpMultComplexityEip2565 x * 2) else 16.

Definition modExpMultComplexityEip198 (x : Z) : Z :=
  let xx := u64 (x * x) in
  if x <=? 64 then xx
  else if x <=? 1024 then u64 (xx / 4 + 96 * x - 3072)
  else u64 (xx / 16 + 480 * x - 199680).

(** [8 - bits.LeadingZeros8(b)]. *)
Definition width8 (b : byte) : Z := Len64 (byteZ b).

(** The loop over the explicit bytes of the exponent's head, from index [i]. *)
Fixpoint exp_width (expHeadLen i : Z) (bs : bytes) : Z :=
  match bs with
  | [] => 0
  | b :: bs =>
      if byteZ b =? 0 then exp_width expHeadLen (i + 1) bs
      else u32 (8 * (expHeadLen - i - 1) + width8 b)
  end.

(** [RequiredGas] once the parameters of the fork are chosen. *)
Definition modexp_gas (osaka : bool) (minGas adjExpFactor finalDivisor : Z) (calcMultComplexity : Z -> Z)
    (input : bytes) : Res Z :=
  header ← getData input 0 96;
  b ← go_slice header 0 32;
  e ← go_slice header 32 64;
  m ← go_slice header 64 96;
  let baseLen256 := u_SetBytes b in
  let expLen256 := u_SetBytes e in
  let modLen256 := u_SetBytes m in
  let lenLimit := 4294967295 in
  if u_GtUint64 baseLen256 lenLimit || u_GtUint64 modLen256 lenLimit then mret MaxUint64
  else if u_GtUint64 expLen256 lenLimit then
    if negb osaka && u_IsZero baseLen256 && u_IsZero modLen256 then mret minGas else mret MaxUint64
  else
    let baseLen := u32 (u_Uint64 baseLen256) in
    let expLen := u32 (u_Uint64 expLen256) in
    let modLen := u32 (u_Uint64 modLen256) in
    input ← (if 96 <? zlen input then go_slice input 96 (zlen input) else go_slice input 0 0);
    let expHeadLen := Z.min expLen 32 in
    let expOffset := baseLen in
    let len := u32 (zlen input) in
    explicit ← (if expOffset <? len
                then go_slice input expOffset (u32 (expOffset + Z.min expHeadLen (u32 (len - expOffset))))
                else mret []);
    let expBitWidth := exp_width expHeadLen 0 explicit in
    let expTailLen := u32 (expLen - expHeadLen) in
    let expHeadBits := Z.max expBitWidth 1 - 1 in
    let adjExpLen := Z.max (u64 (adjExpFactor * expTailLen + expHeadBits)) 1 in
    let maxLen := Z.max baseLen modLen in
    let multComplexity := calcMultComplexity maxLen in
    let gasHi := multComplexity * adjExpLen / two64 in
    let gasLo := u64 (multComplexity * adjExpLen) in
    if negb (gasHi =? 0) then mret MaxUint64
    else mret (Z.max (gasLo / finalDivisor) minGas).

Definition bigModExp_RequiredGas (eip2565 osaka : bool) (input : bytes) : Res Z :=
  if osaka then modexp_gas osaka 500 16 1 modExpMultComplexityEip7883 input
  else if eip2565 then modexp_gas osaka 200 8 3 modExpMultComplexityEip2565 input
  else modexp_gas osaka 0 8 20 modExpMultComplexityEip198 input.

Definition errModExpBaseLengthTooLarge : Error := NewError "base length is too large".
Definition errModExpExponentLengthTooLarge : Error := NewError "exponent length is too large".
Definition errModExpModulusLengthTooLarge : Error := NewError "modulus length is too large".

(** [base.Exp(base, exp, mod)] for [mod > 1]. *)
Definition big_Exp (base exp mod_ : Z) : Z := Zpow_mod base exp mod_.

Definition bigModExp_Run (osaka : bool) (input : bytes) : Res (bytes * option Error) :=
  header ← getData input 0 96;
  b ← go_slice header 24 32;
  e ← go_slice header 56 64;
  m ← go_slice header 88 96;
  let baseLen := be_to_Z b in
  let expLen := be_to_Z e in
  let modLen := be_to_Z m in
  bh ← go_slice header 0 24;
  eh ← go_slice header 32 56;
  mh ← go_slice header 64 88;
  let baseLenHighBitsAreZero := allZero little bh in
  let expLenHighBitsAreZero := allZero little eh in
  let modLenHighBitsAreZero := allZero little mh in
  if osaka && (negb baseLenHighBitsAreZero || (1024 <? baseLen)) then fail_ errModExpBaseLengthTooLarge
  else if osaka && (negb expLenHighBitsAreZero || (1024 <? expLen)) then fail_ errModExpExponentLengthTooLarge
  else if osaka && (negb modLenHighBitsAreZero || (1024 <? modLen)) then fail_ errModExpModulusLengthTooLarge
  else if (modLen =? 0) && modLenHighBitsAreZero then mret ([], None)
  else if negb baseLenHighBitsAreZero || negb expLenHighBitsAreZero || negb modLenHighBitsAreZero
  then fail_ ErrOutOfGas
  else
    input ← (if 96 <? zlen input then go_slice input 96 (zlen input) else go_slice input 0 0);
    b ← getData input 0 baseLen;
    e ← getData input baseLen expLen;
    m ← getData input (u64 (baseLen + expLen)) modLen;
    let base := be_to_Z b in
    let exp := be_to_Z e in
    let mod_ := be_to_Z m in
    let v := if mod_ <=? 1 then []
             else if base =? 1 then big_Bytes 1
             else big_Bytes (big_Exp base exp mod_) in
    mret (LeftPadBytes v (i64 modLen), None).

(** ** BN254 *)

(** The loop over 8-byte words, [k] left. *)
Fixpoint words_zero (k : nat) (i : Z) (input : bytes) : Res bool :=
  match k with
  | O => mret true
  | S k =>
      w ← go_slice input i (i + 8);
      if negb (be_to_Z w =? 0) then mret false else words_zero k (i + 8) input
  end.

(** [if err := m; err != nil { return err }]. *)
Definition decode {A B} (r : Error + A) (k : A -> Res (Error + B)) : Res (Error + B) :=
  match r with inl e => mret (inl e) | inr a => k a end.

(** The point is returned; all zeroes leave it at its zero value. *)
Definition UnmarshalCurvePointG1 (input : bytes) : Res (Error + (Z * Z)) :=
  if negb (zlen input =? 64) then mret (inl (NewError "invalid input size"))
  else
    isAllZeroes ← words_zero 8 0 input;
    if isAllZeroes : bool then mret (inr (0, 0))
    else
      x ← go_slice input 0 32;
      decode (bn_SetBytesCanonical x) (fun x =>
      y ← go_slice input 32 64;
      decode (bn_SetBytesCanonical y) (fun y =>
      if negb (bn_G1_IsInSubGroup (x, y)) then mret (inl (NewError "invalid point: subgroup check failed"))
      else mret (inr (x, y)))).

Definition MarshalCurvePointG1 (point : Z * Z) : bytes := bn_Bytes point.1 ++ bn_Bytes point.2.

Definition UnmarshalCurvePointG2 (input : bytes) : Res (Error + ((Z * Z) * (Z * Z))) :=
  if negb (zlen input =? 128) then mret (inl (NewError "invalid input size"))
  else
    isAllZeroes ← words_zero 16 0 input;
    if isAllZeroes : bool then mret (inr ((0, 0), (0, 0)))
    else
      x1 ← go_slice input 0 32;
      decode (bn_SetBytesCanonical x1) (fun x1 =>
      x0 ← go_slice input 32 64;
      decode (bn_SetBytesCanonical x0) (fun x0 =>
      y1 ← go_slice input 64 96;
      decode (bn_SetBytesCanonical y1) (fun y1 =>
      y0 ← go_slice input 96 128;
      decode (bn_SetBytesCanonical y0) (fun y0 =>
      let p := ((x0, x1), (y0, y1)) in
      if negb (bn_G2_IsInSubGroup p) then mret (inl (NewError "invalid point: subgroup check failed"))
      else mret (inr p))))).

Definition MarshalCurvePointG2 (point : (Z * Z) * (Z * Z)) : bytes :=
  bn_Bytes point.1.2 ++ bn_Bytes point.1.1 ++ bn_Bytes point.2.2 ++ bn_Bytes point.2.1.

Definition runBn254Add (input : bytes) : Res (bytes * option Error) :=
  d ← getData input 0 64;
  x ← UnmarshalCurvePointG1 d;
  match x with
  | inl e => fail_ e
  | inr x =>
      d ← getData input 64 64;
      y ← UnmarshalCurvePointG1 d;
      match y with
      | inl e => fail_ e
      | inr y => mret (MarshalCurvePointG1 (bn_Add x y), None)
      end
  end.

Definition runBn254ScalarMul (input : bytes) : Res (bytes * option Error) :=
  d ← getData input 0 64;
  x ← UnmarshalCurvePointG1 d;
  match x with
  | inl e => fail_ e
  | inr x =>
      d ← getData input 64 32;
      mret (MarshalCurvePointG1 (bn_ScalarMultiplication x (be_to_Z d)), None)
  end.

Definition true32Byte : bytes := replicate 31 x00 ++ [x01].
Definition false32Byte : bytes := replicate 32 x00.
Definition errBadPairingInput : Error := NewError "bad elliptic curve pairing size".

(** [k] pairs from index [i] on. *)
Fixpoint bn_pairs (k : nat) (i : Z) (input : bytes) : Res (Error + list (Z * Z) * list ((Z * Z) * (Z * Z))) :=
  match k with
  | O => mret (inr ([], []))
  | S k =>
      a ← go_slice input i (i + 64);
      ai ← UnmarshalCurvePointG1 a;
      decode ai (fun ai =>
      b ← go_slice input (i + 64) (i + 192);
      bi ← UnmarshalCurvePointG2 b;
      decode bi (fun bi =>
      rest ← bn_pairs k (i + 192) input;
      decode rest (fun '(as_, bs) => mret (inr (ai :: as_, bi :: bs)))))
  end.

Definition runBn254Pairing (input : bytes) : Res (bytes * option Error) :=
  if zlen input =? 0 then mret (true32Byte, None)
  else if 0 <? zlen input mod 192 then fail_ errBadPairingInput
  else
    pairs ← bn_pairs (Z.to_nat (zlen input / 192)) 0 input;
    match pairs with
    | inl e => fail_ e
    | inr (as_, bs) =>
        match bn_PairingCheck as_ bs with
        | inl e => fail_ e
        | inr success => mret (if success : bool then true32Byte else false32Byte, None)
        end
    end.

(** ** BLAKE2F *)

Definition blake2FInputLength : Z := 213.
Definition errBlake2FInvalidInputLength : Error := NewError "invalid input length".
Definition errBlake2FInvalidFinalFlag : Error := NewError "invalid final flag".

Definition blake2F_RequiredGas (input : bytes) : Res Z :=
  if negb (zlen input =? blake2FInputLength) then mret 0
  else b ← go_slice input 0 4; mret (be_to_Z b).

(** [k] little-endian words from [offset] on. *)
Fixpoint le_words (k : nat) (offset : Z) (input : bytes) : Res (list Z) :=
  match k with
  | O => mret []
  | S k => b ← go_slice input offset (offset + 8); rest ← le_words k (offset + 8) input; mret (le_Uint64 b :: rest)
  end.

Definition blake2F_Run (input : bytes) : Res (bytes * option Error) :=
  if negb (zlen input =? blake2FInputLength) then fail_ errBlake2FInvalidInputLength
  else
    flag ← go_index input 212;
    if negb (byteZ flag =? 0) && negb (byteZ flag =? 1) then fail_ errBlake2FInvalidFinalFlag
    else
      b ← go_slice input 0 4;
      let rounds := be_to_Z b in
      let final := byteZ flag =? 1 in
      h ← le_words 8 4 input;
      m ← le_words 16 68 input;
      t ← le_words 2 196 input;
      let h := F h m (nth 0 t 0) (nth 1 t 0) final rounds in
      mret (concat (map le_PutUint64 h), None).

(** ** BLS12-381 *)

Definition errBLS12381InvalidInputLength : Error := NewError "invalid input length".
Definition errBLS12381InvalidFieldElementTopBytes : Error := NewError "invalid field element top bytes".
Definition errBLS12381G1PointSubgroup : Error := NewError "g1 point is not on correct subgroup".
Definition errBLS12381G2PointSubgroup : Error := NewError "g2 point is not on correct subgroup".

(** [for i := 0; i < 16; i++ { if in[i] != 0 ... }], from [i] on. *)
Fixpoint top_zero (k : nat) (i : Z) (in_ : bytes) : Res bool :=
  match k with
  | O => mret true
  | S k => b ← go_index in_ i; if negb (byteZ b =? 0) then mret false else top_zero k (i + 1) in_
  end.

Definition decodeBLS12381FieldElement (in_ : bytes) : Res (Error + Z) :=
  if negb (zlen in_ =? 64) then mret (inl (NewError "invalid field element length"))
  else
    ok ← top_zero 16 0 in_;
    if negb ok then mret (inl errBLS12381InvalidFieldElementTopBytes)
    else res ← go_slice in_ 16 64; mret (fp_Element res).

(** A coordinate of a point: the field element in [in_[lo:hi]]. *)
Definition coordinate (in_ : bytes) (lo hi : Z) {B} (k : Z -> Res (Error + B)) : Res (Error + B) :=
  s ← go_slice in_ lo hi; x ← decodeBLS12381FieldElement s; decode x k.

Definition decodePointG1 (in_ : bytes) : Res (Error + (Z * Z)) :=
  if negb (zlen in_ =? 128) then mret (inl (NewError "invalid g1 point length"))
  else
    coordinate in_ 0 64 (fun x =>
    coordinate in_ 64 128 (fun y =>
    if negb (g1_IsOnCurve (x, y)) then mret (inl (NewError "invalid point: not on curve"))
    else mret (inr (x, y)))).

Definition decodePointG2 (in_ : bytes) : Res (Error + ((Z * Z) * (Z * Z))) :=
  if negb (zlen in_ =? 256) then mret (inl (NewError "invalid g2 point length"))
  else
    coordinate in_ 0 64 (fun x0 =>
    coordinate in_ 64 128 (fun x1 =>
    coordinate in_ 128 192 (fun y0 =>
    coordinate in_ 192 256 (fun y1 =>
    let p := ((x0, x1), (y0, y1)) in
    if negb (g2_IsOnCurve p) then mret (inl (NewError "invalid point: not on curve")) else mret (inr p))))).

(** Sixteen zeroes, then the 48 bytes of each coordinate. *)
Definition encodePointG1 (p : Z * Z) : bytes :=
  replicate 16 x00 ++ fp_PutElement p.1 ++ replicate 16 x00 ++ fp_PutElement p.2.
Definition encodePointG2 (p : (Z * Z) * (Z * Z)) : bytes :=
  replicate 16 x00 ++ fp_PutElement p.1.1 ++ replicate 16 x00 ++ fp_PutElement p.1.2 ++
  replicate 16 x00 ++ fp_PutElement p.2.1 ++ replicate 16 x00 ++ fp_PutElement p.2.2.

Definition bls12381G1Add_Run (input : bytes) : Res (bytes * option Error) :=
  if negb (zlen input =? 256) then fail_ errBLS12381InvalidInputLength
  else
    s ← go_slice input 0 128;
    p0 ← decodePointG1 s;
    match p0 with
    | inl e => fail_ e
    | inr p0 =>
        s ← go_slice input 128 256;
        p1 ← decodePointG1 s;
        match p1 with
        | inl e => fail_ e
        | inr p1 => mret (encodePointG1 (g1_Add p0 p1), None)
        end
    end.

Definition bls12381G2Add_Run (input : bytes) : Res (bytes * option Error) :=
  if negb (zlen input =? 512) then fail_ errBLS12381InvalidInputLength
  else
    s ← go_slice input 0 256;
    p0 ← decodePointG2 s;
    match p0 with
    | inl e => fail_ e
    | inr p0 =>
        s ← go_slice input 256 512;
        p1 ← decodePointG2 s;
        match p1 with
        | inl e => fail_ e
        | inr p1 => mret (encodePointG2 (g2_Add p0 p1), None)
        end
    end.

(** The discount is looked up in a table of 128 entries; [k] is at least 1. *)
Definition msm_gas (table : list Z) (mulGas k : Z) : Res Z :=
  if k =? 0 then mret 0
  else
    let dLen := zlen table in
    discount ← (if k <? dLen then go_index table (k - 1) else go_index table (dLen - 1));
    mret (u64 (k * mulGas * discount) / 1000).

Definition bls12381G1MultiExp_RequiredGas (input : bytes) : Res Z :=
  msm_gas params.Bls12381MSMDiscountTableG1 params.Bls12381G1MulGas (zlen input / 160).
Definition bls12381G2MultiExp_RequiredGas (input : bytes) : Res Z :=
  msm_gas params.Bls12381MSMDiscountTableG2 params.Bls12381G2MulGas (zlen input / 288).

(** [k] pairs of a point of [size] bytes and a scalar, from [off] on. *)
Fixpoint point_scalars {P} (decodePoint : bytes -> Res (Error + P)) (inSubGroup : P -> bool) (errSubgroup : Error)
    (size : Z) (k : nat) (off : Z) (input : bytes) : Res (Error + list P * list Z) :=
  match k with
  | O => mret (inr ([], []))
  | S k =>
      s ← go_slice input off (off + size);
      p ← decodePoint s;
      decode p (fun p =>
      if negb (inSubGroup p) then mret (inl errSubgroup)
      else
        t ← go_slice input (off + size) (off + size + 32);
        rest ← point_scalars decodePoint inSubGroup errSubgroup size k (off + size + 32) input;
        decode rest (fun '(points, scalars) => mret (inr (p :: points, fr_SetBytes t :: scalars))))
  end.

Definition bls12381G1MultiExp_Run (input : bytes) : Res (bytes * option Error) :=
  let k := zlen input / 160 in
  if (zlen input =? 0) || negb (zlen input mod 160 =? 0) then fail_ errBLS12381InvalidInputLength
  else
    ps ← point_scalars decodePointG1 g1_IsInSubGroup errBLS12381G1PointSubgroup 128 (Z.to_nat k) 0 input;
    match ps with
    | inl e => fail_ e
    | inr (points, scalars) => mret (encodePointG1 (g1_MultiExp points scalars), None)
    end.

Definition bls12381G2MultiExp_Run (input : bytes) : Res (bytes * option Error) :=
  let k := zlen input / 288 in
  if (zlen input =? 0) || negb (zlen input mod 288 =? 0) then fail_ errBLS12381InvalidInputLength
  else
    ps ← point_scalars decodePointG2 g2_IsInSubGroup errBLS12381G2PointSubgroup 256 (Z.to_nat k) 0 input;
    match ps with
    | inl e => fail_ e
    | inr (points, scalars) => mret (encodePointG2 (g2_MultiExp points scalars), None)
    end.

(** [k] pairs from [off] on. *)
Fixpoint bls_pairs (k : nat) (off : Z) (input : bytes) : Res (Error + list (Z * Z) * list ((Z * Z) * (Z * Z))) :=
  match k with
  | O => mret (inr ([], []))
  | S k =>
      s ← go_slice input off (off + 128);
      p1 ← decodePointG1 s;
      decode p1 (fun p1 =>
      t ← go_slice input (off + 128) (off + 384);
      p2 ← decodePointG2 t;
      decode p2 (fun p2 =>
      if negb (g1_IsInSubGroup p1) then mret (inl errBLS12381G1PointSubgroup)
      else if negb (g2_IsInSubGroup p2) then mret (inl errBLS12381G2PointSubgroup)
      else
        rest ← bls_pairs k (off + 384) input;
        decode rest (fun '(p, q) => mret (inr (p1 :: p, p2 :: q)))))
  end.

Definition bls12381Pairing_Run (input : bytes) : Res (bytes * option Error) :=
  let k := zlen input / 384 in
  if (zlen input =? 0) || negb (zlen input mod 384 =? 0) then fail_ errBLS12381InvalidInputLength
  else
    ps ← bls_pairs (Z.to_nat k) 0 input;
    match ps with
    | inl e => fail_ e
    | inr (p, q) =>
        mret (match bls_PairingCheck p q with inr true => true32Byte | _ => false32Byte end, None)
    end.

Definition bls12381MapFpToG1_Run (input : bytes) : Res (bytes * option Error) :=
  if negb (zlen input =? 64) then fail_ errBLS12381InvalidInputLength
  else
    fe ← decodeBLS12381FieldElement input;
    match fe with
    | inl e => fail_ e
    | inr fe => mret (encodePointG1 (MapToG1 fe), None)
    end.

Definition bls12381MapFp2ToG2_Run (input : bytes) : Res (bytes * option Error) :=
  if negb (zlen input =? 128) then fail_ errBLS12381InvalidInputLength
  else
    r ← coordinate input 0 64 (fun c0 => coordinate input 64 128 (fun c1 => mret (inr (c0, c1))));
    match r with
    | inl e => fail_ e
    | inr c => mret (encodePointG2 (MapToG2 c), None)
    end.

(** ** KZG point evaluation and P256VERIFY *)

Definition BlobCommitmentVersionKZG : Z := 0x01.
Definition PrecompileInputLength : Z := 192.
Definition errInvalidInputLength : Error := NewError "invalid input length".
Definition precompileReturnValue : bytes := Z_to_be 32 ScalarsPerBlob ++ BlsModulus.

Definition KZGToVersionedHash (kzg : bytes) : bytes := Zbyte BlobCommitmentVersionKZG :: drop 1 (Sum256 kzg).

Definition PointEvaluationPrecompile (input : bytes) : Res (bytes * option Error) :=
  if negb (zlen input =? PrecompileInputLength) then fail_ errInvalidInputLength
  else
    versionedHash ← go_slice input 0 32;
    x ← go_slice input 32 64;
    y ← go_slice input 64 96;
    dataKZG ← go_slice input 96 144;
    if negb (bool_decide (KZGToVersionedHash dataKZG = versionedHash)) then fail_ (NewError "mismatched versioned hash")
    else
      quotientKZG ← go_slice input 144 192;
      match VerifyKZGProof dataKZG x y quotientKZG with
      | Some e => fail_ (ErrorfW e "verify_kzg_proof error")
      | None => mret (precompileReturnValue, None)
      end.

(** [newPublicKey] and [Verify] of [secp256r1]. *)
Definition newPublicKey (x y : Z) : option (Z * Z) :=
  if negb (p256_IsOnCurve x y) then None
  else if (Z.sgn x =? 0) && (Z.sgn y =? 0) then None
  else Some (x, y).
Definition secp256r1_Verify (hash : bytes) (r s x y : Z) : bool :=
  match newPublicKey x y with None => false | Some pk => p256_Verify pk hash r s end.

Definition p256Verify_Run (input : bytes) : Res (bytes * option Error) :=
  if negb (zlen input =? 160) then mret ([], None)
  else
    hash ← go_slice input 0 32;
    r ← go_slice input 32 64;
    s ← go_slice input 64 96;
    x ← go_slice input 96 128;
    y ← go_slice input 128 160;
    if secp256r1_Verify hash (be_to_Z r) (be_to_Z s) (be_to_Z x) (be_to_Z y)
    then mret (LeftPadBytes (big_Bytes 1) 32, None)
    else mret ([], None).

(** ** The tables *)

(** The contract types of the source, with their fields. *)
Inductive precompile : Type :=
| ecrecover | sha256hash | ripemd160hash | dataCopy
| bigModExp (eip2565 osaka : bool)
| bn254AddByzantium | bn254AddIstanbul | bn254ScalarMulByzantium | bn254ScalarMulIstanbul
| bn254PairingByzantium | bn254PairingIstanbul
| blake2F
| bls12381G1Add | bls12381G1MultiExp | bls12381G2Add | bls12381G2MultiExp | bls12381Pairing
| bls12381MapFpToG1 | bls12381MapFp2ToG2
| pointEvaluation
| p256Verify (eip7951 : bool).

Definition p_RequiredGas (c : precompile) (input : bytes) : Res Z :=
  match c with
  | ecrecover => mret params.EcrecoverGas
  | sha256hash => mret (per_word input params.Sha256PerWordGas params.Sha256BaseGas)
  | ripemd160hash => mret (per_word input params.Ripemd160PerWordGas params.Ripemd160BaseGas)
  | dataCopy => mret (per_word input params.IdentityPerWordGas params.IdentityBaseGas)
  | bigModExp eip2565 osaka => bigModExp_RequiredGas eip2565 osaka input
  | bn254AddByzantium => mret params.Bn254AddGasByzantium
  | bn254AddIstanbul => mret params.Bn254AddGasIstanbul
  | bn254ScalarMulByzantium => mret params.Bn254ScalarMulGasByzantium
  | bn254ScalarMulIstanbul => mret params.Bn254ScalarMulGasIstanbul
  | bn254PairingByzantium =>
      mret (u64 (params.Bn254PairingBaseGasByzantium + zlen input / 192 * params.Bn254PairingPerPointGasByzantium))
  | bn254PairingIstanbul =>
      mret (u64 (params.Bn254PairingBaseGasIstanbul + zlen input / 192 * params.Bn254PairingPerPointGasIstanbul))
  | blake2F => blake2F_RequiredGas input
  | bls12381G1Add => mret params.Bls12381G1AddGas
  | bls12381G1MultiExp => bls12381G1MultiExp_RequiredGas input
  | bls12381G2Add => mret params.Bls12381G2AddGas
  | bls12381G2MultiExp => bls12381G2MultiExp_RequiredGas input
  | bls12381Pairing => mret (u64 (params.Bls12381PairingBaseGas + zlen input / 384 * params.Bls12381PairingPerPairGas))
  | bls12381MapFpToG1 => mret params.Bls12381MapFpToG1Gas
  | bls12381MapFp2ToG2 => mret params.Bls12381MapFp2ToG2Gas
  | pointEvaluation => mret params.PointEvaluationGas
  | p256Verify eip7951 => mret (if eip7951 : bool then params.P256VerifyGasEIP7951 else params.P256VerifyGas)
  end.

Definition p_Run (c : precompile) (input : bytes) : Res (bytes * option Error) :=
  match c with
  | ecrecover => ecrecover_Run input
  | sha256hash => mret (Sum256 input, None)
  | ripemd160hash => mret (LeftPadBytes (ripemd160_Sum input) 32, None)
  | dataCopy => mret (input, None)
  | bigModExp _ osaka => bigModExp_Run osaka input
  | bn254AddByzantium | bn254AddIstanbul => runBn254Add input
  | bn254ScalarMulByzantium | bn254ScalarMulIstanbul => runBn254ScalarMul input
  | bn254PairingByzantium | bn254PairingIstanbul => runBn254Pairing input
  | blake2F => blake2F_Run input
  | bls12381G1Add => bls12381G1Add_Run input
  | bls12381G1MultiExp => bls12381G1MultiExp_Run input
  | bls12381G2Add => bls12381G2Add_Run input
  | bls12381G2MultiExp => bls12381G2MultiExp_Run input
  | bls12381Pairing => bls12381Pairing_Run input
  | bls12381MapFpToG1 => bls12381MapFpToG1_Run input
  | bls12381MapFp2ToG2 => bls12381MapFp2ToG2_Run input
  | pointEvaluation => PointEvaluationPrecompile input
  | p256Verify _ => p256Verify_Run input
  end.

Definition native (c : precompile) : PrecompiledContract := mkPrecompiled (p_RequiredGas c) (p_Run c).

(** The tables, as lists of address and contract. *)
Definition PrecompiledContractsHomestead : list (Z * precompile) :=
  [(1, ecrecover); (2, sha256hash); (3, ripemd160hash); (4, dataCopy)].

Definition PrecompiledContractsByzantium : list (Z * precompile) :=
  [(1, ecrecover); (2, sha256hash); (3, ripemd160hash); (4, dataCopy); (5, bigModExp false false);
   (6, bn254AddByzantium); (7, bn254ScalarMulByzantium); (8, bn254PairingByzantium)].

Definition PrecompiledContractsIstanbul : list (Z * precompile) :=
  [(1, ecrecover); (2, sha256hash); (3, ripemd160hash); (4, dataCopy); (5, bigModExp false false);
   (6, bn254AddIstanbul); (7, bn254ScalarMulIstanbul); (8, bn254PairingIstanbul); (9, blake2F)].

Definition PrecompiledContractsBerlin : list (Z * precompile) :=
  [(1, ecrecover); (2, sha256hash); (3, ripemd160hash); (4, dataCopy); (5, bigModExp true false);
   (6, bn254AddIstanbul); (7, bn254ScalarMulIstanbul); (8, bn254PairingIstanbul); (9, blake2F)].

Definition PrecompiledContractsCancun : list (Z * precompile) :=
  [(0x01, ecrecover); (0x02, sha256hash); (0x03, ripemd160hash); (0x04, dataCopy); (0x05, bigModExp true false);
   (0x06, bn254AddIstanbul); (0x07, bn254ScalarMulIstanbul); (0x08, bn254PairingIstanbul); (0x09, blake2F);
   (0x0a, pointEvaluation)].

Definition PrecompiledContractsNapoli : list (Z * precompile) :=
  [(0x01, ecrecover); (0x02, sha256hash); (0x03, ripemd160hash); (0x04, dataCopy); (0x05, bigModExp true false);
   (0x06, bn254AddIstanbul); (0x07, bn254ScalarMulIstanbul); (0x08, bn254PairingIstanbul); (0x09, blake2F);
   (0x0100, p256Verify false)].

Definition PrecompiledContractsBhilai : list (Z * precompile) :=
  [(0x01, ecrecover); (0x02, sha256hash); (0x03, ripemd160hash); (0x04, dataCopy); (0x05, bigModExp true false);
   (0x06, bn254AddIstanbul); (0x07, bn254ScalarMulIstanbul); (0x08, bn254PairingIstanbul); (0x09, blake2F);
   (0x0b, bls12381G1Add); (0x0c, bls12381G1MultiExp); (0x0d, bls12381G2Add); (0x0e, bls12381G2MultiExp);
   (0x0f, bls12381Pairing); (0x10, bls12381MapFpToG1); (0x11, bls12381MapFp2ToG2); (0x0100, p256Verify false)].

Definition PrecompiledContractsPrague : list (Z * precompile) :=
  [(0x01, ecrecover); (0x02, sha256hash); (0x03, ripemd160hash); (0x04, dataCopy); (0x05, bigModExp true false);
   (0x06, bn254AddIstanbul); (0x07, bn254ScalarMulIstanbul); (0x08, bn254PairingIstanbul); (0x09, blake2F);
   (0x0a, pointEvaluation); (0x0b, bls12381G1Add); (0x0c, bls12381G1MultiExp); (0x0d, bls12381G2Add);
   (0x0e, bls12381G2MultiExp); (0x0f, bls12381Pairing); (0x10, bls12381MapFpToG1); (0x11, bls12381MapFp2ToG2)].

Definition PrecompiledContractsOsaka : list (Z * precompile) :=
  [(0x01, ecrecover); (0x02, sha256hash); (0x03, ripemd160hash); (0x04, dataCopy); (0x05, bigModExp false true);
   (0x06, bn254AddIstanbul); (0x07, bn254ScalarMulIstanbul); (0x08, bn254PairingIstanbul); (0x09, blake2F);
   (0x0a, pointEvaluation); (0x0b, bls12381G1Add); (0x0c, bls12381G1MultiExp); (0x0d, bls12381G2Add);
   (0x0e, bls12381G2MultiExp); (0x0f, bls12381Pairing); (0x10, bls12381MapFpToG1); (0x11, bls12381MapFp2ToG2);
   (0x0100, p256Verify true)].

Definition table_of (rules : Rules) : list (Z * precompile) :=
  if IsOsaka rules then PrecompiledContractsOsaka
  else if IsBhilai rules then PrecompiledContractsBhilai
  else if IsPrague rules then PrecompiledContractsPrague
  else if IsNapoli rules then PrecompiledContractsNapoli
  else if IsCancun rules then PrecompiledContractsCancun
  else if IsBerlin rules then PrecompiledContractsBerlin
  else if IsIstanbul rules then PrecompiledContractsIstanbul
  else if IsByzantium rules then PrecompiledContractsByzantium
  else PrecompiledContractsHomestead.

Fixpoint table_lookup (t : list (Z * precompile)) (addr : Z) : option precompile :=
  match t with
  | [] => None
  | (a, c) :: t => if a =? addr then Some c else table_lookup t addr
  end.

(** [Precompiles(rules)[addr]]. *)
Definition Precompiles (rules : Rules) (addr : Z) : option PrecompiledContract :=
  native <$> table_lookup (table_of rules) addr.

(** The address lists [init] builds from the tables (Go does not fix their order). *)
Definition PrecompiledAddressesOsaka : list Z := map fst PrecompiledContractsOsaka.
Definition PrecompiledAddressesBhilai : list Z := map fst PrecompiledContractsBhilai.
Definition PrecompiledAddressesPrague : list Z := map fst PrecompiledContractsPrague.
Definition PrecompiledAddressesNapoli : list Z := map fst PrecompiledContractsNapoli.
Definition PrecompiledAddressesCancun : list Z := map fst PrecompiledContractsCancun.
Definition PrecompiledAddressesBerlin : list Z := map fst PrecompiledContractsBerlin.
Definition PrecompiledAddressesIstanbul : list Z := map fst PrecompiledContractsIstanbul.
Definition PrecompiledAddressesByzantium : list Z := map fst PrecompiledContractsByzantium.
Definition PrecompiledAddressesHomestead : list Z := map fst PrecompiledContractsHomestead.

Definition ActivePrecompiles (rules : Rules) : list Z :=
  if IsOsaka rules then PrecompiledAddressesOsaka
  else if IsBhilai rules then PrecompiledAddressesBhilai
  else if IsPrague rules then PrecompiledAddressesPrague
  else if IsNapoli rules then PrecompiledAddressesNapoli
  else if IsCancun rules then PrecompiledAddressesCancun
  else if IsBerlin rules then PrecompiledAddressesBerlin
  else if IsIstanbul rules then PrecompiledAddressesIstanbul
  else if IsByzantium rules then PrecompiledAddressesByzantium
  else PrecompiledAddressesHomestead.
End Precompiles.
