(* ===== verification/PrecompilesSpec.v ===== *)
(** * Precompiled contracts: prices and results

    The price of MODEXP is the formula of the EIPs over the integers, its result the modular
    power; every contract of every table states a price and, when that is paid, returns. *)

From Stdlib Require Import Zpow_facts.
From S2P Require Import Prelude Uint256 Params Errors Common Machine Rlp RlpSpec Blake2b Sha256 Authorization Precompiles.

Section PrecompilesSpec.
Context {U : Uint256} {US : Uint256Spec U} {K : Keccak} {E : Secp256k1} {C : Crypto} (little : bool).

(** ** Slices of fixed layouts *)

Lemma bind_slice {A} (l : bytes) lo hi (k : bytes -> Res A) :
  0 <= lo <= hi -> hi <= zlen l -> (s ← go_slice l lo hi; k s) = k (take (Z.to_nat (hi - lo)) (drop (Z.to_nat lo) l)).
Proof. intros H1 H2. by rewrite go_slice_val. Qed.

Lemma bind_getData {A} data start size (k : bytes -> Res A) :
  zlen data < 9223372036854775808 -> is_u64 start -> 0 <= size < 9223372036854775808 ->
  (s ← getData data start size; k s) = k (data_window data start size).
Proof. intros H1 H2 H3. by rewrite getData_window. Qed.

Lemma zeroes_value n : be_to_Z (replicate n x00) = 0.
Proof. induction n as [|n IH]; [reflexivity|]. cbn [replicate]. rewrite be_to_Z_cons, IH. change (byteZ x00) with 0. lia. Qed.

Lemma allZero_value b : allZero little b = (be_to_Z b =? 0).
Proof.
  rewrite allZero_correct. induction b as [|c b IH]; [reflexivity|]. cbn [forallb]. rewrite IH, be_to_Z_cons.
  pose proof (byteZ_range c). pose proof (be_to_Z_nonneg b). pose proof (Z.pow_pos_nonneg 256 (Z.of_nat (length b)) ltac:(lia) ltac:(lia)).
  destruct (Z.eqb_spec (byteZ c) 0) as [->|]; cbn [andb]; [reflexivity|]. symmetry. apply Z.eqb_neq. nia.
Qed.

(** ** MODEXP: what the header says *)

(** The [k]-th 32-byte word of the input, zero-padded. *)
Definition word_at (input : bytes) (k : Z) : Z := be_to_Z (data_window input (32 * k) 32).

(** The rest of the input. *)
Definition payload_of (input : bytes) : bytes := drop 96 input.

Lemma window_window data off size k n :
  0 <= off -> 0 <= k -> 0 <= n -> k + n <= size ->
  take (Z.to_nat n) (drop (Z.to_nat k) (data_window data off size)) = data_window data (off + k) n.
Proof.
  intros H0 H1 H2 H3. unfold data_window. rewrite Z2Nat.inj_add by lia. rewrite <- drop_drop.
  set (d := drop (Z.to_nat off) data).
  apply list_eq. intros i. destruct (decide (i < Z.to_nat n)%nat) as [Hi|Hi].
  2: { transitivity (@None byte); [|symmetry]; apply lookup_ge_None_2.
       - rewrite length_take. lia.
       - rewrite length_app, length_replicate, length_take, length_drop. lia. }
  rewrite lookup_take_lt by lia. rewrite lookup_drop.
  destruct (decide (Z.to_nat k + i < length d)%nat) as [Hd|Hd].
  - rewrite !lookup_app_l by (rewrite ?length_take, ?length_drop; lia).
    rewrite !lookup_take_lt by lia. by rewrite lookup_drop.
  - rewrite !lookup_app_r by (rewrite ?length_take, ?length_drop; lia).
    rewrite !lookup_replicate_2 by (rewrite ?length_take, ?length_drop; lia). reflexivity.
Qed.

Lemma rest_slice (input : bytes) :
  (if 96 <? zlen input then go_slice input 96 (zlen input) else go_slice input 0 0) = Val (payload_of input).
Proof.
  pose proof (zlen_nonneg input). unfold payload_of. destruct (Z.ltb_spec 96 (zlen input)).
  - rewrite go_slice_val by lia. f_equal. rewrite take_ge; [reflexivity|]. rewrite length_drop. unfold zlen. lia.
  - rewrite go_slice_val by lia. rewrite (drop_ge input 96) by (unfold zlen in *; lia). reflexivity.
Qed.

Lemma word_at_range input k : is_u256 (word_at input k).
Proof.
  unfold word_at. apply be_to_Z_32. pose proof (zlen_data_window input (32 * k) 32 ltac:(lia)). unfold zlen in *. lia.
Qed.

Lemma header_word input k lo hi :
  0 <= k <= 2 -> lo = 32 * k -> hi = lo + 32 ->
  u_SetBytes (take (Z.to_nat (hi - lo)) (drop (Z.to_nat lo) (data_window input 0 96))) = word_at input k.
Proof.
  intros Hk -> ->. rewrite (window_window input 0 96 (32 * k) (32 * k + 32 - 32 * k)) by lia.
  replace (32 * k + 32 - 32 * k) with 32 by lia.
  pose proof (zlen_data_window input (0 + 32 * k) 32 ltac:(lia)). rewrite SetBytes_spec by (unfold zlen in *; lia). reflexivity.
Qed.

(** ** MODEXP: the price *)

(** The first 32 bytes of the exponent. *)
Definition exp_head (input : bytes) : Z :=
  be_to_Z (data_window (payload_of input) (word_at input 0) (Z.min (word_at input 1) 32)).

(** The bit length of a number. *)
Definition bit_length (z : Z) : Z := if z =? 0 then 0 else Z.log2 z + 1.

Lemma bit_length_shift z n : 0 <= z -> 0 <= n -> bit_length (z * 2 ^ n) = if z =? 0 then 0 else bit_length z + n.
Proof.
  intros Hz Hn. unfold bit_length. destruct (Z.eqb_spec z 0) as [->|]; [reflexivity|].
  pose proof (Z.pow_pos_nonneg 2 n ltac:(lia) Hn). destruct (Z.eqb_spec (z * 2 ^ n) 0); [nia|].
  rewrite <- Z.shiftl_mul_pow2, Z.log2_shiftl by lia. lia.
Qed.

Lemma bit_length_head c l :
  0 < byteZ c -> bit_length (be_to_Z (c :: l)) = 8 * Z.of_nat (length l) + bit_length (byteZ c).
Proof.
  intros Hc. pose proof (byteZ_range c). rewrite be_to_Z_cons. pose proof (be_to_Z_nonneg l). pose proof (be_to_Z_bound l) as Hb.
  change 256 with (2 ^ 8) in *. rewrite <- Z.pow_mul_r in * by lia. set (n := 8 * Z.of_nat (length l)) in *.
  pose proof (Z.pow_pos_nonneg 2 n ltac:(lia) ltac:(lia)).
  unfold bit_length. destruct (Z.eqb_spec (byteZ c) 0); [lia|]. destruct (Z.eqb_spec (byteZ c * 2 ^ n + be_to_Z l) 0); [nia|].
  pose proof (Z.log2_spec (byteZ c) Hc) as [L1 L2]. pose proof (Z.log2_nonneg (byteZ c)).
  rewrite (Z.log2_unique (byteZ c * 2 ^ n + be_to_Z l) (n + Z.log2 (byteZ c))); [lia|lia|].
  rewrite Z.pow_succ_r in * by lia. rewrite Z.pow_add_r by lia. nia.
Qed.

(** The loop finds the bit length of the zero-padded head. *)
Lemma exp_width_correct headLen bs z i :
  0 <= i -> i + zlen bs + Z.of_nat z = headLen -> headLen <= 32 ->
  exp_width headLen i bs = bit_length (be_to_Z (bs ++ replicate z x00)).
Proof.
  revert i. induction bs as [|b bs IH]; intros i Hi Hl H32; cbn [exp_width app].
  - rewrite zeroes_value. reflexivity.
  - rewrite zlen_cons in Hl. pose proof (byteZ_range b). pose proof (zlen_nonneg bs).
    destruct (Z.eqb_spec (byteZ b) 0) as [Hb|Hb].
    + rewrite IH by lia. rewrite be_to_Z_cons, Hb. reflexivity.
    + rewrite bit_length_head by lia. rewrite length_app, length_replicate.
      replace (headLen - i - 1) with (zlen bs + Z.of_nat z) by lia. unfold zlen.
      change (width8 b) with (bit_length (byteZ b)). unfold u32. rewrite Z.mod_small; [lia|].
      assert (bit_length (byteZ b) <= 8).
      { unfold bit_length. destruct (byteZ b =? 0); [lia|]. assert (Z.log2 (byteZ b) < 8); [|lia]. apply Z.log2_lt_pow2; lia. }
      assert (0 <= bit_length (byteZ b)) by (unfold bit_length; destruct (byteZ b =? 0); [lia|pose proof (Z.log2_nonneg (byteZ b)); lia]).
      unfold zlen in *. lia.
Qed.

(** The price of the EIPs: 198, 2565 and 7883, over the integers. *)
Definition complexity (eip2565 osaka : bool) (x : Z) : Z :=
  if osaka then if 32 <? x then 2 * ((x + 7) / 8) ^ 2 else 16
  else if eip2565 then ((x + 7) / 8) ^ 2
  else if x <=? 64 then x ^ 2
  else if x <=? 1024 then x ^ 2 / 4 + 96 * x - 3072
  else x ^ 2 / 16 + 480 * x - 199680.

Definition iterations (osaka : bool) (expLen head : Z) : Z :=
  Z.max ((if osaka then 16 else 8) * Z.max (expLen - 32) 0 + (if head =? 0 then 0 else Z.log2 head)) 1.

Definition modexp_price (eip2565 osaka : bool) (baseLen expLen modLen head : Z) : Z :=
  let work := complexity eip2565 osaka (Z.max baseLen modLen) * iterations osaka expLen head in
  let '(divisor, minimum) := if osaka then (1, 500) else if eip2565 then (3, 200) else (20, 0) in
  if two64 <=? work then MaxUint64 else Z.max (work / divisor) minimum.

Lemma complexity_u64 (eip2565 osaka : bool) x :
  0 <= x < 2 ^ 32 ->
  (if osaka then modExpMultComplexityEip7883 else if eip2565 then modExpMultComplexityEip2565 else modExpMultComplexityEip198) x =
  complexity eip2565 osaka x /\ 0 <= complexity eip2565 osaka x < two64.
Proof.
  intros Hx. pose proof (Z.div_mod (x + 7) 8 ltac:(lia)). pose proof (Z.mod_pos_bound (x + 7) 8 ltac:(lia)).
  set (w := (x + 7) / 8) in *. assert (0 <= w <= 2 ^ 29) by lia.
  assert (Hw : 0 <= w * w <= 2 ^ 58) by nia.
  assert (E2565 : modExpMultComplexityEip2565 x = w ^ 2).
  { unfold modExpMultComplexityEip2565. rewrite (u64_id (x + 7)) by (unfold is_u64, two64; lia). fold w.
    rewrite u64_id by (unfold is_u64, two64; lia). lia. }
  unfold complexity. fold w. destruct osaka.
  { unfold modExpMultComplexityEip7883. rewrite E2565. destruct (32 <? x); [|unfold two64; lia].
    rewrite u64_id by (unfold is_u64, two64; lia). unfold two64. lia. }
  destruct eip2565; [rewrite E2565; unfold two64; lia|].
  unfold modExpMultComplexityEip198. assert (Hxx : 0 <= x * x <= (2 ^ 32 - 1) * (2 ^ 32 - 1)) by nia.
  rewrite (u64_id (x * x)) by (unfold is_u64, two64; lia). rewrite Z.pow_2_r.
  pose proof (Z.div_mod (x * x) 4 ltac:(lia)). pose proof (Z.mod_pos_bound (x * x) 4 ltac:(lia)).
  pose proof (Z.div_mod (x * x) 16 ltac:(lia)). pose proof (Z.mod_pos_bound (x * x) 16 ltac:(lia)).
  destruct (Z.leb_spec x 64); [unfold two64; nia|].
  destruct (Z.leb_spec x 1024); rewrite u64_id by (unfold is_u64, two64; nia); unfold two64; nia.
Qed.

(** The explicit part of the exponent's head, as the code slices it. *)
Lemma explicit_slice (input : bytes) B h :
  zlen input < 2 ^ 32 -> 0 <= B < 2 ^ 32 -> 0 <= h <= 32 ->
  let rest := payload_of input in
  (if B <? u32 (zlen rest) then go_slice rest B (u32 (B + Z.min h (u32 (u32 (zlen rest) - B)))) else mret []) =
  Val (take (Z.to_nat h) (drop (Z.to_nat B) rest)).
Proof.
  intros Hin HB Hh rest. assert (Hr : 0 <= zlen rest < 2 ^ 32).
  { unfold rest, payload_of, zlen in *. rewrite length_drop. lia. }
  unfold u32. rewrite (Z.mod_small (zlen rest)) by lia. destruct (Z.ltb_spec B (zlen rest)).
  - rewrite (Z.mod_small (zlen rest - B)) by lia. rewrite Z.mod_small by lia. rewrite go_slice_val by lia. f_equal.
    destruct (Z.le_gt_cases h (zlen rest - B)).
    + rewrite Z.min_l by lia. f_equal. lia.
    + rewrite Z.min_r by lia. rewrite !take_ge by (rewrite length_drop; unfold zlen in *; lia). reflexivity.
  - rewrite drop_ge by (unfold zlen in *; lia). by rewrite take_nil.
Qed.

Lemma head_bits (input : bytes) B h :
  0 <= h <= 32 ->
  exp_width h 0 (take (Z.to_nat h) (drop (Z.to_nat B) (payload_of input))) =
  bit_length (be_to_Z (data_window (payload_of input) B h)).
Proof.
  intros Hh. unfold data_window. apply exp_width_correct; [lia| |lia]. unfold zlen. rewrite length_take. lia.
Qed.

Lemma exp_head_bits input :
  0 <= word_at input 0 -> 0 <= word_at input 1 ->
  Z.max (bit_length (exp_head input)) 1 - 1 = (if exp_head input =? 0 then 0 else Z.log2 (exp_head input)) /\
  0 <= (if exp_head input =? 0 then 0 else Z.log2 (exp_head input)) < 256.
Proof.
  intros HB HX. assert (Hh : exp_head input < 256 ^ 32).
  { unfold exp_head. eapply Z.lt_le_trans; [apply be_to_Z_bound|]. apply Z.pow_le_mono_r; [lia|].
    pose proof (zlen_data_window (payload_of input) (word_at input 0) (Z.min (word_at input 1) 32) ltac:(lia)).
    unfold zlen in *. lia. }
  assert (0 <= exp_head input) by apply be_to_Z_nonneg. set (head := exp_head input) in *. unfold bit_length.
  destruct (Z.eqb_spec head 0); [lia|]. pose proof (Z.log2_nonneg head).
  assert (Z.log2 head < 256); [|lia]. apply Z.log2_lt_pow2; [lia|]. exact Hh.
Qed.

Lemma modexp_gas_value osaka minGas factor div calc cx input :
  zlen input < 2 ^ 32 -> 0 < div -> 0 <= factor <= 16 ->
  (forall x, 0 <= x < 2 ^ 32 -> calc x = cx x /\ 0 <= cx x < two64) ->
  let B := word_at input 0 in let X := word_at input 1 in let M := word_at input 2 in
  let head := exp_head input in
  let work := cx (Z.max B M) * Z.max (factor * Z.max (X - 32) 0 + (if head =? 0 then 0 else Z.log2 head)) 1 in
  modexp_gas osaka minGas factor div calc input = Val
    (if (4294967295 <? B) || (4294967295 <? M) then MaxUint64
     else if 4294967295 <? X then if negb osaka && (B =? 0) && (M =? 0) then minGas else MaxUint64
     else if two64 <=? work then MaxUint64 else Z.max (work / div) minGas).
Proof.
  intros Hin Hdiv Hf Hcalc B X M head work. pose proof (word_at_range input 0) as RB. pose proof (word_at_range input 1) as RX.
  pose proof (word_at_range input 2) as RM. fold B in RB. fold X in RX. fold M in RM.
  unfold modexp_gas. rewrite bind_getData by (unfold is_u64, two64; lia).
  pose proof (zlen_data_window input 0 96 ltac:(lia)) as HL. rewrite !bind_slice by lia.
  rewrite (header_word input 0 0 32), (header_word input 1 32 64), (header_word input 2 64 96) by lia. fold B X M.
  rewrite !GtUint64_spec, !IsZero_spec by (assumption || (unfold is_u64, two64; lia)).
  rewrite !Uint64_spec by assumption. unfold is_u256 in *.
  destruct (Z.ltb_spec 4294967295 B), (Z.ltb_spec 4294967295 M); cbn [orb]; try reflexivity.
  destruct (Z.ltb_spec 4294967295 X); [by destruct (negb osaka && (B =? 0) && (M =? 0))|].
  assert (Hu : forall z, 0 <= z <= 4294967295 -> u32 (z mod two64) = z).
  { intros z Hz. unfold u32, two64. rewrite (Z.mod_small z) by lia. apply Z.mod_small. lia. }
  rewrite !Hu by lia. rewrite rest_slice. cbn [mbind Res_bind].
  rewrite (explicit_slice input B (Z.min X 32)) by lia. cbn [mbind Res_bind].
  rewrite head_bits by lia. change (be_to_Z (data_window (payload_of input) B (Z.min X 32))) with head.
  pose proof (exp_head_bits input ltac:(fold B; lia) ltac:(fold X; lia)) as [Hbits Hlog]. fold head in Hbits, Hlog.
  assert (Htail : u32 (X - Z.min X 32) = Z.max (X - 32) 0) by (unfold u32; rewrite Z.mod_small; lia).
  destruct (Hcalc (Z.max B M) ltac:(lia)) as [Hc Hr].
  assert (0 <= factor * Z.max (X - 32) 0 <= 16 * 4294967295) by nia.
  rewrite Hbits, Htail, u64_id, Hc by (unfold is_u64, two64; lia). fold work.
  assert (Hw0 : 0 <= work) by (unfold work; nia).
  assert (Hq : (work / two64 =? 0) = negb (two64 <=? work)).
  { destruct (Z.leb_spec two64 work); cbn [negb].
    - apply Z.eqb_neq. pose proof (Z.div_str_pos work two64 ltac:(unfold two64 in *; lia)). lia.
    - apply Z.eqb_eq. apply Z.div_small. lia. }
  rewrite Hq, negb_involutive. destruct (Z.leb_spec two64 work); [reflexivity|]. by rewrite u64_id by (unfold is_u64; lia).
Qed.

Lemma modexp_gas_formula (eip2565 osaka : bool) input :
  zlen input < 2 ^ 32 ->
  let B := word_at input 0 in let X := word_at input 1 in let M := word_at input 2 in
  bigModExp_RequiredGas eip2565 osaka input = Val
    (if (4294967295 <? B) || (4294967295 <? M) then MaxUint64
     else if 4294967295 <? X then
       if negb osaka && (B =? 0) && (M =? 0) then (if osaka then 500 else if eip2565 then 200 else 0) else MaxUint64
     else modexp_price eip2565 osaka B X M (exp_head input)).
Proof.
  intros Hin B X M. unfold bigModExp_RequiredGas. destruct osaka; [|destruct eip2565].
  - exact (modexp_gas_value true 500 16 1 _ _ input Hin ltac:(lia) ltac:(lia) (complexity_u64 eip2565 true)).
  - exact (modexp_gas_value false 200 8 3 _ _ input Hin ltac:(lia) ltac:(lia) (complexity_u64 true false)).
  - exact (modexp_gas_value false 0 8 20 _ _ input Hin ltac:(lia) ltac:(lia) (complexity_u64 false false)).
Qed.

(** ** MODEXP: the result *)

(** The two parts of a length word. *)
Lemma header_parts input k a b c :
  0 <= k <= 2 -> a = 32 * k -> b = 32 * k + 24 -> c = 32 * k + 32 ->
  let h := data_window input 0 96 in
  be_to_Z (take (Z.to_nat (c - b)) (drop (Z.to_nat b) h)) = word_at input k mod two64 /\
  allZero little (take (Z.to_nat (b - a)) (drop (Z.to_nat a) h)) = (word_at input k <? two64).
Proof.
  intros Hk -> -> -> h. rewrite allZero_value. unfold h. rewrite !window_window by lia.
  replace (32 * k + 32 - (32 * k + 24)) with 8 by lia. replace (32 * k + 24 - 32 * k) with 24 by lia.
  set (hi := data_window input (0 + 32 * k) 24). set (lo := data_window input (0 + (32 * k + 24)) 8).
  assert (Hw : word_at input k = be_to_Z hi * two64 + be_to_Z lo).
  { unfold word_at. replace (data_window input (32 * k) 32) with (hi ++ lo).
    - rewrite be_to_Z_app. replace (length lo) with 8%nat; [reflexivity|].
      pose proof (zlen_data_window input (0 + (32 * k + 24)) 8 ltac:(lia)) as HL. fold lo in HL. unfold zlen in HL. lia.
    - unfold hi, lo. rewrite <- (take_drop 24 (data_window input (32 * k) 32)). f_equal.
      + pose proof (window_window input (32 * k) 32 0 24 ltac:(lia) ltac:(lia) ltac:(lia) ltac:(lia)) as Ew.
        rewrite Z.add_0_r in Ew. exact (eq_sym Ew).
      + pose proof (window_window input (32 * k) 32 24 8 ltac:(lia) ltac:(lia) ltac:(lia) ltac:(lia)) as Ew.
        rewrite <- Ew at 1. rewrite take_ge; [reflexivity|]. rewrite length_drop.
        pose proof (zlen_data_window input (32 * k) 32 ltac:(lia)). unfold zlen in *. lia. }
  assert (Hlo : 0 <= be_to_Z lo < two64).
  { split; [apply be_to_Z_nonneg|]. pose proof (be_to_Z_bound lo) as Hb.
    pose proof (zlen_data_window input (0 + (32 * k + 24)) 8 ltac:(lia)) as HL. fold lo in HL. unfold zlen in HL.
    replace (Z.of_nat (length lo)) with 8 in Hb by lia. exact Hb. }
  pose proof (be_to_Z_nonneg hi). rewrite Hw. split.
  - rewrite Z.add_comm, Z_mod_plus_full. symmetry. by apply Z.mod_small.
  - destruct (Z.eqb_spec (be_to_Z hi) 0); symmetry; [apply Z.ltb_lt|apply Z.ltb_ge]; unfold two64 in *; nia.
Qed.

Lemma LeftPadBytes_value v n :
  zlen v <= n -> zlen (LeftPadBytes v n) = n /\ be_to_Z (LeftPadBytes v n) = be_to_Z v.
Proof.
  intros Hv. pose proof (zlen_nonneg v). unfold LeftPadBytes. destruct (Z.leb_spec n (zlen v)); [split; [lia|reflexivity]|]. split.
  - unfold zlen in *. rewrite length_app, length_replicate. lia.
  - rewrite be_to_Z_app, zeroes_value. lia.
Qed.

Lemma big_Bytes_fits z n : 0 <= z < 256 ^ n -> 0 <= n -> zlen (big_Bytes z) <= n /\ be_to_Z (big_Bytes z) = z.
Proof.
  intros Hz Hn. change (big_Bytes z) with (be z). split; [|apply be_value; lia]. rewrite zlen_be.
  pose proof (byteLen_le z (Z.to_nat n)) as Hb. rewrite Z2Nat.id in Hb by lia. specialize (Hb Hz). lia.
Qed.

(** The value the three branches compute. *)
Lemma modexp_value (base exp m n : Z) :
  0 <= base -> 0 <= exp -> 0 <= m < 256 ^ n -> 0 <= n ->
  let v := if m <=? 1 then [] else if base =? 1 then big_Bytes 1 else big_Bytes (big_Exp base exp m) in
  zlen v <= n /\ be_to_Z v = if m <=? 1 then 0 else base ^ exp mod m.
Proof.
  intros Hb He Hm Hn. cbv zeta. destruct (Z.leb_spec m 1); [split; [exact Hn|reflexivity]|].
  destruct (Z.eqb_spec base 1) as [->|].
  - rewrite Z.pow_1_l, Z.mod_small by lia. apply big_Bytes_fits; lia.
  - unfold big_Exp. rewrite Zpow_mod_correct by lia. pose proof (Z.mod_pos_bound (base ^ exp) m ltac:(lia)).
    apply big_Bytes_fits; lia.
Qed.

Lemma too_long w : 0 <= w -> negb (w <? two64) || (1024 <? w mod two64) = (1024 <? w).
Proof.
  intros Hw. destruct (Z.ltb_spec w two64); cbn [negb orb].
  - by rewrite Z.mod_small by lia.
  - symmetry. apply Z.ltb_lt. unfold two64 in *. lia.
Qed.

Lemma modexp_run_value (osaka : bool) input :
  zlen input < 2 ^ 32 ->
  let B := word_at input 0 in let X := word_at input 1 in let M := word_at input 2 in
  let limit := if osaka then 1024 else 4294967295 in
  let rest := payload_of input in
  let m := be_to_Z (data_window rest (B + X) M) in
  (B <= limit -> X <= limit -> M <= limit ->
   exists out, bigModExp_Run little osaka input = Val (out, None) /\ zlen out = M /\
     be_to_Z out = if m <=? 1 then 0 else be_to_Z (data_window rest 0 B) ^ be_to_Z (data_window rest B X) mod m) /\
  (osaka = true -> limit < B \/ limit < X \/ limit < M ->
   bigModExp_Run little osaka input =
   Val ([], Some (if limit <? B then errModExpBaseLengthTooLarge
                  else if limit <? X then errModExpExponentLengthTooLarge else errModExpModulusLengthTooLarge))).
Proof.
  intros Hin B X M limit rest m. unfold bigModExp_Run. rewrite bind_getData by (unfold is_u64, two64; lia).
  pose proof (zlen_data_window input 0 96 ltac:(lia)) as HL. rewrite !bind_slice by lia.
  destruct (header_parts input 0 0 24 32 ltac:(lia) ltac:(lia) ltac:(lia) ltac:(lia)) as [-> ->].
  destruct (header_parts input 1 32 56 64 ltac:(lia) ltac:(lia) ltac:(lia) ltac:(lia)) as [-> ->].
  destruct (header_parts input 2 64 88 96 ltac:(lia) ltac:(lia) ltac:(lia) ltac:(lia)) as [-> ->].
  pose proof (word_at_range input 0) as [RB _]. pose proof (word_at_range input 1) as [RX _].
  pose proof (word_at_range input 2) as [RM _]. fold B in RB |- *. fold X in RX |- *. fold M in RM |- *.
  rewrite !too_long by assumption. split.
  - intros HB HX HM. assert (Hsmall : forall z, 0 <= z <= limit -> z mod two64 = z /\ (z <? two64) = true /\ z <= 4294967295).
    { intros z Hz. assert (z <= 4294967295) by (unfold limit in Hz; destruct osaka; lia).
      split; [apply Z.mod_small; unfold two64; lia|]. split; [apply Z.ltb_lt; unfold two64; lia|assumption]. }
    destruct (Hsmall B ltac:(lia)) as (-> & -> & HB'). destruct (Hsmall X ltac:(lia)) as (-> & -> & HX').
    destruct (Hsmall M ltac:(lia)) as (-> & -> & HM'). cbn [negb orb].
    assert (Hno : forall z, z <= limit -> osaka && (1024 <? z) = false).
    { intros z Hz. unfold limit in Hz. destruct osaka; [|reflexivity]. cbn [andb]. apply Z.ltb_ge. exact Hz. }
    rewrite !Hno by assumption. rewrite andb_true_r. destruct (Z.eqb_spec M 0) as [HM0|HM0].
    + exists []. split; [reflexivity|]. split; [by rewrite HM0|]. unfold m. rewrite HM0. reflexivity.
    + rewrite rest_slice. cbn [mbind Res_bind]. fold rest.
      assert (Hrest : zlen rest < 9223372036854775808) by (unfold rest, payload_of, zlen in *; rewrite length_drop; lia).
      rewrite !bind_getData by (unfold is_u64, two64; lia). rewrite u64_id by (unfold is_u64, two64; lia).
      rewrite bind_getData by (unfold is_u64, two64; lia). fold m. rewrite i64_id by (unfold two64; lia).
      set (b := be_to_Z (data_window rest 0 B)). set (e := be_to_Z (data_window rest B X)).
      assert (Hm : 0 <= m < 256 ^ M).
      { split; [apply be_to_Z_nonneg|]. unfold m. pose proof (be_to_Z_bound (data_window rest (B + X) M)) as Hb.
        pose proof (zlen_data_window rest (B + X) M RM) as Hz. unfold zlen in Hz. by rewrite Hz in Hb. }
      destruct (modexp_value b e m M (be_to_Z_nonneg _) (be_to_Z_nonneg _) Hm RM) as [Hv1 Hv2].
      eexists. split; [reflexivity|]. destruct (LeftPadBytes_value _ _ Hv1) as [-> ->]. split; [reflexivity|exact Hv2].
  - intros -> Hbig. cbn [andb]. unfold limit in *. destruct (1024 <? B) eqn:EB; [reflexivity|].
    destruct (1024 <? X) eqn:EX; [reflexivity|]. destruct (1024 <? M) eqn:EM; [reflexivity|].
    apply Z.ltb_ge in EB, EX, EM. lia.
Qed.

(** ** Every contract returns *)

Definition total {A} (m : Res A) : Prop := exists a, m = Val a.

Lemma total_ret {A} (a : A) : total (mret a).
Proof. by exists a. Qed.
Lemma total_bind {A B} (m : Res A) (k : A -> Res B) : total m -> (forall a, total (k a)) -> total (m ≫= k).
Proof. intros [a ->] H. apply H. Qed.
Lemma returns_slice {A} (l : bytes) lo hi (k : bytes -> Res A) :
  0 <= lo <= hi -> hi <= zlen l -> (forall s, zlen s = hi - lo -> total (k s)) -> total (s ← go_slice l lo hi; k s).
Proof.
  intros H1 H2 H. rewrite go_slice_val by lia. apply H. unfold zlen in *. rewrite length_take, length_drop. lia.
Qed.
Lemma returns_index {A B} (l : list A) i (k : A -> Res B) :
  0 <= i < zlen l -> (forall a, total (k a)) -> total (b ← go_index l i; k b).
Proof.
  intros H Hk. unfold go_index. destruct (Z.leb_spec 0 i), (Z.ltb_spec i (zlen l)); try lia. cbn [andb].
  destruct (l !! Z.to_nat i) as [a|] eqn:El; [apply Hk|]. apply lookup_ge_None_1 in El. unfold zlen in *. lia.
Qed.
Lemma returns_decode {A B} (r : Error + A) (k : A -> Res (Error + B)) : (forall a, total (k a)) -> total (decode r k).
Proof. intros H. destruct r; [by eexists|apply H]. Qed.
Lemma returns_if {A} (b : bool) (x y : Res A) : total x -> total y -> total (if b then x else y).
Proof. by destruct b. Qed.
Lemma returns_eq {A} (l n : Z) (x y : Res A) : total x -> (l = n -> total y) -> total (if negb (l =? n) then x else y).
Proof. intros Hx Hy. destruct (Z.eqb_spec l n); cbn [negb]; auto. Qed.
Lemma returns_fail e : total (fail_ e).
Proof. by eexists. Qed.
Lemma returns_getData {A} data start size (k : bytes -> Res A) :
  zlen data < 9223372036854775808 -> is_u64 start -> 0 <= size < 9223372036854775808 ->
  (forall s, zlen s = size -> total (k s)) -> total (s ← getData data start size; k s).
Proof. intros H1 H2 H3 H. rewrite getData_window by assumption. apply H. apply zlen_data_window. lia. Qed.

Ltac rstep :=
  match goal with
  | |- total (mret _) => apply total_ret
  | |- total (fail_ _) => apply returns_fail
  | |- total (go_slice _ _ _ ≫= _) => apply returns_slice; [lia|lia|intros ? ?]
  | |- total (go_index _ _ ≫= _) => apply returns_index; [lia|intros ?]
  | |- total (getData _ _ _ ≫= _) => apply returns_getData; [lia|unfold is_u64, two64; lia|lia|intros ? ?]
  | |- total (decode _ _) => apply returns_decode; intros ?
  | |- total (if negb (zlen _ =? _) then _ else _) => apply returns_eq; [|intros ?]
  | |- total (if _ then _ else _) => apply returns_if
  | |- total (match ?x with inl _ => _ | inr _ => _ end) => destruct x
  | |- total (let '(_, _) := ?x in _) => destruct x
  end.

Lemma words_zero_returns k i input : 0 <= i -> i + 8 * Z.of_nat k <= zlen input -> total (words_zero k i input).
Proof.
  revert i. induction k as [|k IH]; intros i H1 H2; cbn [words_zero]; repeat rstep. apply IH; lia.
Qed.

Lemma UnmarshalG1_returns input : total (UnmarshalCurvePointG1 input).
Proof.
  unfold UnmarshalCurvePointG1. rstep; [rstep|]. apply total_bind; [apply words_zero_returns; lia|]. intros z. repeat rstep.
Qed.
Lemma UnmarshalG2_returns input : total (UnmarshalCurvePointG2 input).
Proof.
  unfold UnmarshalCurvePointG2. rstep; [rstep|]. apply total_bind; [apply words_zero_returns; lia|]. intros z. repeat rstep.
Qed.

Lemma bn_pairs_returns k i input : 0 <= i -> i + 192 * Z.of_nat k <= zlen input -> total (bn_pairs k i input).
Proof.
  revert i. induction k as [|k IH]; intros i H1 H2; cbn [bn_pairs]; [rstep|]. rstep.
  apply total_bind; [apply UnmarshalG1_returns|]. intros ai. repeat rstep. apply total_bind; [apply UnmarshalG2_returns|].
  intros bi. rstep. apply total_bind; [apply IH; lia|]. intros r. repeat rstep.
Qed.

Lemma runBn254Add_returns input : zlen input < 2 ^ 32 -> total (runBn254Add input).
Proof.
  intros H. unfold runBn254Add. rstep. apply total_bind; [apply UnmarshalG1_returns|]. intros x. repeat rstep.
  apply total_bind; [apply UnmarshalG1_returns|]. intros y. repeat rstep.
Qed.
Lemma runBn254ScalarMul_returns input : zlen input < 2 ^ 32 -> total (runBn254ScalarMul input).
Proof.
  intros H. unfold runBn254ScalarMul. rstep. apply total_bind; [apply UnmarshalG1_returns|]. intros x. repeat rstep.
Qed.
Lemma runBn254Pairing_returns input : total (runBn254Pairing input).
Proof.
  unfold runBn254Pairing. do 2 (rstep; [rstep|]). pose proof (zlen_nonneg input). pose proof (Z.div_mod (zlen input) 192 ltac:(lia)).
  pose proof (Z.mod_pos_bound (zlen input) 192 ltac:(lia)).
  apply total_bind; [apply bn_pairs_returns; [lia|]|].
  - rewrite Z2Nat.id by (apply Z.div_pos; lia). lia.
  - intros r. repeat rstep.
Qed.

Lemma le_words_returns k i input : 0 <= i -> i + 8 * Z.of_nat k <= zlen input -> total (le_words k i input).
Proof.
  revert i. induction k as [|k IH]; intros i H1 H2; cbn [le_words]; [rstep|]. rstep.
  apply total_bind; [apply IH; lia|]. intros r. rstep.
Qed.
Lemma blake2F_returns input : total (blake2F_Run input).
Proof.
  unfold blake2F_Run, blake2FInputLength. rstep; [rstep|]. rstep. rstep; [rstep|]. rstep.
  do 3 (apply total_bind; [apply le_words_returns; lia|]; intros ?). rstep.
Qed.

Lemma top_zero_returns k i input : 0 <= i -> i + Z.of_nat k <= zlen input -> total (top_zero k i input).
Proof. revert i. induction k as [|k IH]; intros i H1 H2; cbn [top_zero]; repeat rstep. apply IH; lia. Qed.
Lemma decodeField_returns input : total (decodeBLS12381FieldElement input).
Proof.
  unfold decodeBLS12381FieldElement. rstep; [rstep|]. apply total_bind; [apply top_zero_returns; lia|]. intros ok. repeat rstep.
Qed.
Lemma coordinate_returns {B} input lo hi (k : Z -> Res (Error + B)) :
  0 <= lo <= hi -> hi <= zlen input -> (forall x, total (k x)) -> total (coordinate input lo hi k).
Proof.
  intros H1 H2 H. unfold coordinate. rstep. apply total_bind; [apply decodeField_returns|]. intros x. rstep. apply H.
Qed.
Lemma decodePointG1_returns input : total (decodePointG1 input).
Proof. unfold decodePointG1. rstep; [rstep|]. do 2 (apply coordinate_returns; [lia|lia|intros ?]). repeat rstep. Qed.
Lemma decodePointG2_returns input : total (decodePointG2 input).
Proof. unfold decodePointG2. rstep; [rstep|]. do 4 (apply coordinate_returns; [lia|lia|intros ?]). cbv zeta. repeat rstep. Qed.

Lemma g1add_returns input : total (bls12381G1Add_Run input).
Proof.
  unfold bls12381G1Add_Run. rstep; [rstep|]. rstep. apply total_bind; [apply decodePointG1_returns|]. intros p. repeat rstep.
  apply total_bind; [apply decodePointG1_returns|]. intros q. repeat rstep.
Qed.
Lemma g2add_returns input : total (bls12381G2Add_Run input).
Proof.
  unfold bls12381G2Add_Run. rstep; [rstep|]. rstep. apply total_bind; [apply decodePointG2_returns|]. intros p. repeat rstep.
  apply total_bind; [apply decodePointG2_returns|]. intros q. repeat rstep.
Qed.

Lemma point_scalars_returns {P} (dec : bytes -> Res (Error + P)) sub e size k off input :
  (forall b, total (dec b)) -> 0 < size -> 0 <= off -> off + (size + 32) * Z.of_nat k <= zlen input ->
  total (point_scalars dec sub e size k off input).
Proof.
  intros Hd Hs. revert off. induction k as [|k IH]; intros off H1 H2; cbn [point_scalars]; [rstep|]. rstep.
  apply total_bind; [apply Hd|]. intros p. do 2 rstep; [rstep|]. rstep. apply total_bind; [apply IH; lia|]. intros r. repeat rstep.
Qed.

Lemma chunks_fit (input : bytes) n : 0 < n -> zlen input mod n = 0 -> 0 + n * Z.of_nat (Z.to_nat (zlen input / n)) <= zlen input.
Proof.
  intros Hn Hm. pose proof (zlen_nonneg input). pose proof (Z.div_mod (zlen input) n ltac:(lia)).
  rewrite Z2Nat.id by (apply Z.div_pos; lia). lia.
Qed.

Lemma chunked_returns {A} (input : bytes) n (m : Res (Error + A)) (k : Error + A -> Res (bytes * option Error)) :
  0 < n -> (0 + n * Z.of_nat (Z.to_nat (zlen input / n)) <= zlen input -> total m) -> (forall r, total (k r)) ->
  total (if (zlen input =? 0) || negb (zlen input mod n =? 0) then fail_ errBLS12381InvalidInputLength else r ← m; k r).
Proof.
  intros Hn Hm Hk. destruct (zlen input =? 0); cbn [orb]; [rstep|].
  destruct (Z.eqb_spec (zlen input mod n) 0) as [E0|]; cbn [negb]; [|rstep].
  apply total_bind; [apply Hm; by apply chunks_fit|exact Hk].
Qed.

Lemma bls_pairs_returns k off input : 0 <= off -> off + 384 * Z.of_nat k <= zlen input -> total (bls_pairs k off input).
Proof.
  revert off. induction k as [|k IH]; intros off H1 H2; cbn [bls_pairs]; [rstep|]. rstep.
  apply total_bind; [apply decodePointG1_returns|]. intros p. do 2 rstep. apply total_bind; [apply decodePointG2_returns|].
  intros q. do 2 rstep; [rstep|]. rstep; [rstep|]. apply total_bind; [apply IH; lia|]. intros r. repeat rstep.
Qed.

(** ** The tables *)

Lemma table_lookup_In t a c : table_lookup t a = Some c -> In (a, c) t.
Proof.
  induction t as [|[b d] t IH]; cbn [table_lookup]; [discriminate|].
  destruct (Z.eqb_spec b a) as [->|]; [intros [= ->]; by left|right; auto].
Qed.

Lemma table_lookup_dom t a : is_Some (table_lookup t a) <-> In a (map fst t).
Proof.
  induction t as [|[b d] t IH]; cbn [table_lookup map In fst].
  - split; [intros [? [=]]|done].
  - destruct (Z.eqb_spec b a) as [->|Hn]; [split; [by left|by eexists]|]. rewrite IH. split; [by right|intros [|]; congruence].
Qed.

(** ** Paid for, every contract returns *)

Lemma modexp_empty_modulus input :
  zlen input < 2 ^ 32 -> word_at input 2 = 0 -> bigModExp_Run little false input = Val ([], None).
Proof.
  intros Hin HM. unfold bigModExp_Run. rewrite bind_getData by (unfold is_u64, two64; lia).
  pose proof (zlen_data_window input 0 96 ltac:(lia)) as HL. rewrite !bind_slice by lia.
  destruct (header_parts input 2 64 88 96 ltac:(lia) ltac:(lia) ltac:(lia) ltac:(lia)) as [-> ->]. rewrite HM. reflexivity.
Qed.

Lemma modexp_price_nonneg (eip2565 osaka : bool) B X M h :
  0 <= B < 2 ^ 32 -> 0 <= M < 2 ^ 32 -> 0 <= modexp_price eip2565 osaka B X M h.
Proof.
  intros HB HM. destruct (complexity_u64 eip2565 osaka (Z.max B M) ltac:(lia)) as [_ Hc].
  unfold modexp_price. set (w := _ * iterations osaka X h). assert (0 <= w) by (unfold w, iterations; nia).
  destruct osaka, eip2565; destruct (two64 <=? w); unfold MaxUint64; lia.
Qed.

Lemma modexp_priced (eip2565 osaka : bool) input gas :
  zlen input < 2 ^ 32 -> gas < MaxUint64 -> priced_ok (native little (bigModExp eip2565 osaka)) input gas.
Proof.
  intros Hin Hgas. eexists. split; [exact (modexp_gas_formula eip2565 osaka input Hin)|].
  pose proof (word_at_range input 0) as [RB _]. pose proof (word_at_range input 1) as [RX _].
  pose proof (word_at_range input 2) as [RM _]. pose proof (modexp_run_value osaka input Hin) as [Hok Herr].
  cbn [native RunPrecompile p_Run].
  set (B := word_at input 0) in *. set (X := word_at input 1) in *. set (M := word_at input 2) in *.
  assert (Hmax : 0 <= MaxUint64) by (unfold MaxUint64; lia).
  destruct (Z.ltb_spec 4294967295 B), (Z.ltb_spec 4294967295 M); cbn [orb]; try (split; [exact Hmax|lia]).
  destruct (Z.ltb_spec 4294967295 X).
  - destruct osaka; cbn [negb andb]; [split; [exact Hmax|lia]|]. destruct (Z.eqb_spec B 0); cbn [andb]; [|split; [exact Hmax|lia]].
    destruct (Z.eqb_spec M 0); [|split; [exact Hmax|lia]]. split; [destruct eip2565; lia|].
    intros _. eexists. by apply modexp_empty_modulus.
  - split; [apply modexp_price_nonneg; lia|]. intros _. destruct osaka.
    + destruct (decide (1024 < B \/ 1024 < X \/ 1024 < M)) as [Hbig|Hsmall]; [eexists; by apply Herr|].
      destruct Hok as (out & Eq & _); [lia..|]. by eexists.
    + destruct Hok as (out & Eq & _); [lia..|]. by eexists.
Qed.

Context {ES : Secp256k1Spec E}.

Lemma ecrecover_returns input : total (ecrecover_Run little input).
Proof.
  unfold ecrecover_Run. cbv zeta. pose proof (zlen_RightPadBytes input 128) as HL. set (p := RightPadBytes input 128) in *.
  do 2 (rstep; []). rstep. rstep. rstep; [rstep|]. do 2 (rstep; []).
  destruct (Ecrecover _ _) as [e|key] eqn:Ek; [rstep|]. apply Ecrecover_key in Ek. repeat rstep.
Qed.

Lemma msm_gas_value table mul k : zlen table = 128 -> 0 <= k -> exists g, msm_gas table mul k = Val g /\ 0 <= g.
Proof.
  intros Ht Hk. unfold msm_gas. destruct (Z.eqb_spec k 0); [by exists 0|]. rewrite Ht.
  assert (Hg : forall i, 0 <= i < 128 -> exists d, go_index table i = Val d).
  { intros i Hi. destruct (returns_index table i mret ltac:(lia) (fun a => total_ret a)) as [d Hd]. exists d.
    destruct (go_index table i); [exact Hd|discriminate..]. }
  assert (exists d, (if k <? 128 then go_index table (k - 1) else go_index table (128 - 1)) = Val d) as (d & ->).
  { destruct (Z.ltb_spec k 128); apply Hg; lia. }
  eexists. split; [reflexivity|]. apply Z.div_pos; [|lia]. apply u64_range.
Qed.

Lemma priced_const c input gas g :
  p_RequiredGas c input = Val g -> 0 <= g -> total (p_Run little c input) -> priced_ok (native little c) input gas.
Proof. intros Hg H0 [r Hr]. exists g. split; [exact Hg|]. split; [exact H0|]. intros _. by exists r. Qed.

Lemma precompile_priced c input gas :
  zlen input < 2 ^ 32 -> gas < MaxUint64 -> priced_ok (native little c) input gas.
Proof.
  intros Hin Hgas. pose proof (fun z => proj1 (u64_range z)) as Hu. pose proof (zlen_nonneg input).
  destruct c; try (by apply modexp_priced);
    try (eapply priced_const; [reflexivity|first [apply Hu|discriminate|lia]|]; cbn [p_Run];
         first [by apply total_ret|apply ecrecover_returns|by apply runBn254Add_returns|by apply runBn254ScalarMul_returns
               |apply runBn254Pairing_returns|apply g1add_returns|apply g2add_returns]).
  - unfold priced_ok. cbn [native RequiredGas RunPrecompile p_RequiredGas p_Run]. unfold blake2F_RequiredGas, blake2FInputLength.
    destruct (Z.eqb_spec (zlen input) 213); cbn [negb].
    + rewrite bind_slice by lia. eexists. split; [reflexivity|]. split; [apply be_to_Z_nonneg|]. intros _. apply blake2F_returns.
    + eexists. split; [reflexivity|]. split; [lia|]. intros _. apply blake2F_returns.
  - destruct (msm_gas_value params.Bls12381MSMDiscountTableG1 params.Bls12381G1MulGas (zlen input / 160) eq_refl
      ltac:(apply Z.div_pos; lia)) as (g & Eg & Hg).
    eapply priced_const; [exact Eg|exact Hg|]. apply chunked_returns; [lia| |intros [?|[? ?]]; rstep].
    intros Hfit. apply point_scalars_returns; [apply decodePointG1_returns|lia..].
  - destruct (msm_gas_value params.Bls12381MSMDiscountTableG2 params.Bls12381G2MulGas (zlen input / 288) eq_refl
      ltac:(apply Z.div_pos; lia)) as (g & Eg & Hg).
    eapply priced_const; [exact Eg|exact Hg|]. apply chunked_returns; [lia| |intros [?|[? ?]]; rstep].
    intros Hfit. apply point_scalars_returns; [apply decodePointG2_returns|lia..].
  - eapply priced_const; [reflexivity|apply Hu|]. apply chunked_returns; [lia| |intros [?|[? ?]]; rstep].
    intros Hfit. apply bls_pairs_returns; lia.
  - eapply priced_const; [reflexivity|discriminate|]. cbn [p_Run]. unfold bls12381MapFpToG1_Run. rstep; [rstep|].
    apply total_bind; [apply decodeField_returns|]. intros r. repeat rstep.
  - eapply priced_const; [reflexivity|discriminate|]. cbn [p_Run]. unfold bls12381MapFp2ToG2_Run. rstep; [rstep|].
    apply total_bind; [do 2 (apply coordinate_returns; [lia|lia|intros ?]); rstep|]. intros r. repeat rstep.
  - eapply priced_const; [reflexivity|discriminate|]. cbn [p_Run]. unfold PointEvaluationPrecompile, PrecompileInputLength.
    rstep; [rstep|]. do 4 (rstep; []). rstep; [rstep|]. rstep. destruct (VerifyKZGProof _ _ _ _); rstep.
  - eapply priced_const; [reflexivity|destruct eip7951; discriminate|]. cbn [p_Run]. unfold p256Verify_Run. repeat rstep.
Qed.

(** C27 Precompiles are safe to call: under any chain rules, the addresses warmed for a
    transaction are exactly the keys of the table calls are looked up in; and every contract
    of the table, on every input below 4 GiB, states a non-negative price and, when at least
    that much gas and less than 2^64 - 1 is supplied, returns a result or an error: no slice
    of the input, of the tables or of a recovered key is out of range. With a supply of
    exactly 2^64 - 1, the price MODEXP gives to lengths over 32 bits is paid and the code goes
    on to allocate them. *)
Theorem precompiles_safe rules addr :
  (In addr (ActivePrecompiles rules) <-> is_Some (Precompiles little rules addr)) /\
  forall p input gas, Precompiles little rules addr = Some p -> zlen input < 2 ^ 32 -> gas < MaxUint64 ->
    priced_ok p input gas.
Proof.
  split.
  - replace (ActivePrecompiles rules) with (map fst (table_of rules)).
    + rewrite <- table_lookup_dom. unfold Precompiles. symmetry. apply fmap_is_Some.
    + unfold ActivePrecompiles, table_of. by repeat (case_match; [reflexivity|]).
  - intros p input gas Hp Hin Hgas. unfold Precompiles in Hp. apply fmap_Some in Hp as (c & _ & ->).
    by apply precompile_priced.
Qed.

(** C28 The price of MODEXP is that of the EIPs (198, 2565, 7883) over the integers: for every
    input below 4 GiB, the 32-bit and 64-bit arithmetic of the code computes the complexity of the longer
    of base and modulus times the adjusted bit length of the exponent, whose head is
    zero-padded past the end of the input; a product over 64 bits and a base or modulus over
    32 bits long are priced out of reach, and a longer exponent as well unless base and
    modulus are empty (before EIP-7883). *)
Theorem modexp_gas_exact (eip2565 osaka : bool) input :
  zlen input < 2 ^ 32 ->
  let B := word_at input 0 in let X := word_at input 1 in let M := word_at input 2 in
  bigModExp_RequiredGas eip2565 osaka input = Val
    (if (4294967295 <? B) || (4294967295 <? M) then MaxUint64
     else if 4294967295 <? X then
       if negb osaka && (B =? 0) && (M =? 0) then (if osaka then 500 else if eip2565 then 200 else 0) else MaxUint64
     else modexp_price eip2565 osaka B X M (exp_head input)).
Proof. exact (modexp_gas_formula eip2565 osaka input). Qed.

(** MODEXP computes the modular power: for lengths up to 32 bits (1024 from Osaka on), it
    returns without an error exactly as many bytes as the modulus has, and they are the
    base to the exponent modulo the modulus, 0 for a modulus of 0 or 1, all three read from
    the input padded with zeroes; from Osaka on a longer operand is refused with the error
    for that operand, the base first. *)
Theorem modexp_correct (osaka : bool) input :
  zlen input < 2 ^ 32 ->
  let B := word_at input 0 in let X := word_at input 1 in let M := word_at input 2 in
  let limit := if osaka then 1024 else 4294967295 in
  let rest := payload_of input in
  let m := be_to_Z (data_window rest (B + X) M) in
  (B <= limit -> X <= limit -> M <= limit ->
   exists out, bigModExp_Run little osaka input = Val (out, None) /\ zlen out = M /\
     be_to_Z out = if m <=? 1 then 0 else be_to_Z (data_window rest 0 B) ^ be_to_Z (data_window rest B X) mod m) /\
  (osaka = true -> limit < B \/ limit < X \/ limit < M ->
   bigModExp_Run little osaka input =
   Val ([], Some (if limit <? B then errModExpBaseLengthTooLarge
                  else if limit <? X then errModExpExponentLengthTooLarge else errModExpModulusLengthTooLarge))).
Proof. exact (modexp_run_value osaka input). Qed.
End PrecompilesSpec.

(** ** Witnesses *)

(** Libraries that know no point: every decoding fails. *)
Definition no_point : Error := NewError "no point".
Definition no_crypto : Crypto :=
  Build_Crypto (fun _ => replicate 20 x00)
    (fun _ => inl no_point) (fun _ => []) (fun _ => false) (fun _ => false) (fun x _ => x) (fun x _ => x) (fun _ _ => inl no_point)
    (fun _ => inl no_point) (fun _ => []) (fun _ => 0) (fun _ => false) (fun _ => false) (fun x _ => x) (fun _ _ => (0, 0))
    (fun _ => false) (fun _ => false) (fun x _ => x) (fun _ _ => ((0, 0), (0, 0))) (fun _ _ => inl no_point)
    (fun _ => (0, 0)) (fun _ => ((0, 0), (0, 0))) 4096 (replicate 32 x00) (fun _ _ _ _ => None) (fun _ _ => false)
    (fun _ _ _ _ => false).

Lemma no_recovery_spec : Secp256k1Spec no_recovery.
Proof. intros h s k [=]. Qed.

Definition berlin_rules : Rules :=
  mkRules 1 true true true true true true true true false false false false false false false false.

(** 3 to the 5 modulo 7. *)
Definition modexp_input : bytes :=
  Z_to_be 32 1 ++ Z_to_be 32 1 ++ Z_to_be 32 1 ++ [x03; x05; x07].

Lemma modexp_gas_exact_witness : bigModExp_RequiredGas (U := uint256_ref) true false modexp_input = Val 200.
Proof.
  rewrite (modexp_gas_exact (US := uint256_ref_spec) true false modexp_input) by reflexivity. vm_compute. reflexivity.
Defined.

Lemma modexp_correct_witness :
  exists out, bigModExp_Run true false modexp_input = Val (out, None) /\ zlen out = 1 /\ be_to_Z out = 5.
Proof.
  destruct (modexp_correct true false modexp_input) as [(out & Eq & Hl & Hv) _]; [reflexivity|discriminate..|].
  exists out. split; [exact Eq|]. split; [exact Hl|]. rewrite Hv. reflexivity.
Defined.

Lemma precompiles_safe_witness :
  exists p, Precompiles (U := uint256_ref) (K := zero_hash) (E := no_recovery) (C := no_crypto) true berlin_rules 5 = Some p /\
    priced_ok p modexp_input 1000.
Proof.
  eexists. split; [reflexivity|].
  apply (precompiles_safe (US := uint256_ref_spec) (K := zero_hash) (C := no_crypto) (ES := no_recovery_spec) true berlin_rules 5);
    reflexivity.
Defined.
