(* ===== verification/Evm.v ===== *)
(** * Calls and creations

    [core/vm/evm.go]: the entry points of the virtual machine, [CanTransfer] of
    [core/evm.go], [Transfer] of [execution/consensus/consensus.go] and the contract
    addresses of [execution/types/create_address.go]. The interpreter is a parameter
    here ([run]); [evm_run] ties the knot. Tracing is not modelled. *)

From S2P Require Import Machine GasTable Instructions JumpTable Interpreter Rlp.
From S2P Require Import IntraBlockState.
Import params.

(** ** Contract addresses *)

Section Addresses.
Context {K : Keccak}.

(** [common.BytesToAddress(h[12:])]: the last twenty bytes of a digest. *)
Definition hash_address (h : Z) : Z := h mod two160.

(** The nonce is a [uint64]. *)
Definition CreateAddress (a nonce : Z) : Res Z :=
  let nonce := u64 nonce in
  let listLen := 21 + U64Len nonce in
  let data := replicate (Z.to_nat (listLen + 1)) x00 in
  match (pos ← EncodeListPrefix listLen;
         n ← sub_ pos (EncodeAddress (Z_to_be 20 a));
         sub_ (pos + n) (EncodeU64 nonce)) data with
  | Val (_, data) => Val (hash_address (keccak256 data))
  | Panic e => Panic e
  | OutOfFuel => OutOfFuel
  end.

Definition CreateAddress2 (b salt inithash : Z) : Z :=
  hash_address (keccak256 ([xff] ++ Z_to_be 20 b ++ Z_to_be 32 salt ++ Z_to_be 32 inithash)).
End Addresses.

Section Evm.
Context {U : Uint256} {K : Keccak} {DB : StateDB} {L : LRU}.

(** ** Transfers *)

Definition core_CanTransfer (addr amount : Z) : M ibs (bool * option Error) :=
  '(balance, err) ← GetBalance addr;
  match err with
  | Some e => mret (false, Some e)
  | None => mret (negb (u_Lt balance amount), None)
  end.

Definition consensus_Transfer (sender recipient amount : Z) (bailout : bool) : M ibs (option Error) :=
  err ← (if negb bailout then SubBalance sender amount else mret None);
  match err with
  | Some e => mret (Some e)
  | None => AddBalance recipient amount
  end.

(** ** Precompiled contracts *)

Definition RunPrecompiledContract (p : PrecompiledContract) (input : bytes) (suppliedGas : Z)
    : Res (bytes * Z * option Error) :=
  gasCost ← RequiredGas p input;
  if suppliedGas <? gasCost then mret ([], 0, Some ErrOutOfGas)
  else
    let suppliedGas := suppliedGas - gasCost in
    '(output, err) ← RunPrecompile p input;
    mret (output, suppliedGas, err).

(** ** The EVM *)

Context (env : Env).

(** [evm.interpreter.Run(contract, input, readOnly)], with the contract it leaves. *)
Context (run : Contract -> bytes -> bool -> M World (bytes * option Error * Contract)).

Definition onDB {A} (m : M ibs A) : M World A := zoom statedb with_statedb m.

Definition stateFailed (e : Error) : option Error := Some (ErrorfWW ErrIntraBlockStateFailed e).

(** A pointer that is dereferenced. *)
Definition deref (p : option Z) : M World Z :=
  match p with
  | Some v => mret v
  | None => gopanic "invalid memory address or nil pointer dereference"
  end.

(** The transfer part of [call], between the snapshot and the execution. [Some] is what
    [call] returns early. *)
Definition call_transfer (typ : Z) (caller : ContractRef) (addr : Z) (isPrecompile : bool) (gas : Z)
    (value : option Z) (bailout : bool) : M World (option (bytes * Z * option Error)) :=
  if typ =? OpCode.CALL then
    '(exists_, err) ← onDB (Exist addr);
    match err with
    | Some e => mret (Some ([], 0, stateFailed e))
    | None =>
        v ← deref value;
        if negb exists_ && (negb isPrecompile && IsSpuriousDragon (chainRules env) && u_IsZero v)
        then mret (Some ([], gas, None))
        else
          _ ← (if negb exists_ then onDB (CreateAccount addr false) else mret None);
          _ ← onDB (Transfer (Context env) (ref_Address caller) addr v bailout);
          mret None
    end
  else if typ =? OpCode.STATICCALL then
    _ ← onDB (AddBalance addr 0);
    mret None
  else mret None.

(** The contract a call runs. *)
Definition call_contract (typ : Z) (caller : ContractRef) (addr : Z) (value : option Z) (gas codeHash : Z)
    (code : bytes) : Res Contract :=
  c ← (if typ =? OpCode.CALLCODE then
         mret (NewContract caller (ref_Address caller) value gas (SkipAnalysis (config env)))
       else if typ =? OpCode.DELEGATECALL then
         AsDelegate (NewContract caller (ref_Address caller) value gas (SkipAnalysis (config env)))
       else mret (NewContract caller addr value gas (SkipAnalysis (config env))));
  mret (SetCallCode addr codeHash code c).

(** The execution part: precompile, no code, or the interpreter. [inl] is an early
    return, [inr] the result and the gas left. *)
Definition call_execute (typ : Z) (caller : ContractRef) (addr : Z) (p : option PrecompiledContract)
    (code input : bytes) (gas : Z) (value : option Z)
    : M World ((bytes * Z * option Error) + (bytes * Z * option Error)) :=
  match p with
  | Some p => r ← lift (RunPrecompiledContract p input gas); mret (inr r)
  | None =>
      if zlen code =? 0 then mret (inr ([], gas, None))
      else
        '(codeHash, err) ← onDB (ResolveCodeHash addr);
        match err with
        | Some e => mret (inl ([], 0, stateFailed e))
        | None =>
            contract ← lift (call_contract typ caller addr value gas codeHash code);
            '(ret, err, contract) ← run contract input (typ =? OpCode.STATICCALL);
            mret (inr (ret, Gas contract, err))
        end
  end.

(** After the snapshot. *)
Definition call_body (typ : Z) (caller : ContractRef) (addr : Z) (p : option PrecompiledContract)
    (code input : bytes) (gas : Z) (value : option Z) (bailout : bool) : M World (bytes * Z * option Error) :=
  snapshot ← onDB Snapshot;
  early ← call_transfer typ caller addr (match p with Some _ => true | None => false end) gas value bailout;
  match early with
  | Some r => mret r
  | None =>
      res ← call_execute typ caller addr p code input gas value;
      match res with
      | inl r => mret r
      | inr (ret, gas, err) =>
          if isSome_err err || RestoreState (config env) then
            _ ← onDB (RevertToSnapshot snapshot);
            mret (ret, if err_is err ErrExecutionReverted then gas else 0, err)
          else mret (ret, gas, err)
      end
  end.

(** The balance test of CALL and CALLCODE; [Some] is an early return. *)
Definition call_check (typ : Z) (caller : ContractRef) (gas : Z) (value : option Z) (bailout : bool)
    : M World (option (bytes * Z * option Error)) :=
  if (typ =? OpCode.CALL) || (typ =? OpCode.CALLCODE) then
    v ← deref value;
    '(canTransfer, err) ← onDB (CanTransfer (Context env) (ref_Address caller) v);
    match err with
    | Some e => mret (Some ([], 0, Some e))
    | None => mret (if negb (u_IsZero v) && negb canTransfer && negb bailout
                    then Some ([], gas, Some ErrInsufficientBalance) else None)
    end
  else mret None.

Definition call (typ : Z) (caller : ContractRef) (addr : Z) (input : bytes) (gas : Z) (value : option Z)
    (bailout : bool) : M World (bytes * Z * option Error) :=
  aborted ← Cancelled env;
  if aborted : bool then mret ([], 0, None)
  else
    depth ← gets depth;
    let p := precompiles env addr in
    '(code, err) ← match p with
                   | Some _ => mret ([], None)
                   | None => onDB (ResolveCode addr)
                   end;
    match err with
    | Some e => mret ([], 0, stateFailed e)
    | None =>
        if NoRecursion (config env) && (0 <? depth) then mret ([], gas, None)
        else if CallCreateDepth <? depth then mret ([], gas, Some ErrDepth)
        else
          early ← call_check typ caller gas value bailout;
          match early with
          | Some r => mret r
          | None => call_body typ caller addr p code input gas value bailout
          end
    end.

Definition Call caller addr input gas value bailout :=
  call OpCode.CALL caller addr input gas (Some value) bailout.
Definition CallCode caller addr input gas value :=
  call OpCode.CALLCODE caller addr input gas (Some value) false.
Definition DelegateCall caller addr input gas :=
  call OpCode.DELEGATECALL caller addr input gas None false.
Definition StaticCall caller addr input gas :=
  call OpCode.STATICCALL caller addr input gas (Some 0) false.

(** ** Creation *)

Definition maxCodeSize : Z :=
  match borIsAhmedabad env with
  | Some isAhmedabad => if isAhmedabad (BlockNumber (Context env)) then MaxCodeSizePostAhmedabad else MaxCodeSize
  | None => MaxCodeSize
  end.

(** [codeAndHash]: a zero hash is one not computed yet. *)
Record codeAndHash : Type := mkCodeAndHash { cah_code : bytes; cah_hash : Z }.

Definition NewCodeAndHash (code : bytes) : codeAndHash := mkCodeAndHash code 0.

(** [Hash]: the hash, and the value with it filled in. *)
Definition cah_Hash (c : codeAndHash) : Z * codeAndHash :=
  let h := if cah_hash c =? 0 then keccak256 (cah_code c) else cah_hash c in (h, mkCodeAndHash (cah_code c) h).

Definition SetCodeOptionalHash (addr : Z) (c : codeAndHash) (k : Contract) : Contract :=
  SetCallCode addr (cah_hash c) (cah_code c) k.

(** Before the snapshot: the checks, the nonce of the caller, the access list and the
    collision test. [Some] is what [create] returns early. *)
Definition create_prologue (caller : ContractRef) (gasRemaining value address : Z)
    (incrementNonce bailout : bool) : M World (option (bytes * Z * Z * option Error)) :=
  depth ← gets depth;
  if CallCreateDepth <? depth then mret (Some ([], 0, gasRemaining, Some ErrDepth))
  else
    '(canTransfer, err) ← onDB (CanTransfer (Context env) (ref_Address caller) value);
    match err with
    | Some e => mret (Some ([], 0, 0, Some e))
    | None =>
        if negb canTransfer && negb bailout then mret (Some ([], 0, gasRemaining, Some ErrInsufficientBalance))
        else
          early ← (if incrementNonce then
                     '(nonce, err) ← onDB (GetNonce (ref_Address caller));
                     match err with
                     | Some e => mret (Some ([], 0, 0, stateFailed e))
                     | None =>
                         if u64 (nonce + 1) <? nonce
                         then mret (Some ([], 0, gasRemaining, Some ErrNonceUintOverflow))
                         else
                           _ ← onDB (SetNonce (ref_Address caller) (u64 (nonce + 1)));
                           mret None
                     end
                   else mret None);
          match early with
          | Some r => mret (Some r)
          | None =>
              _ ← (if IsBerlin (chainRules env) then onDB (AddAddressToAccessList address) else mret false);
              '(contractHash, err) ← onDB (ResolveCodeHash address);
              match err with
              | Some e => mret (Some ([], 0, 0, stateFailed e))
              | None =>
                  '(nonce, err) ← onDB (GetNonce address);
                  match err with
                  | Some e => mret (Some ([], 0, 0, stateFailed e))
                  | None =>
                      '(hasStorage, err) ← onDB (HasStorage address);
                      match err with
                      | Some e => mret (Some ([], 0, 0, stateFailed e))
                      | None =>
                          if negb (nonce =? 0) ||
                             (negb (contractHash =? 0) && negb (contractHash =? empty_CodeHash)) || hasStorage
                          then mret (Some ([], 0, 0, Some ErrContractAddressCollision))
                          else mret None
                      end
                  end
              end
          end
    end.

(** After the constructor returned [ret]: the size and prefix rules and the price of the
    code. The code to install, if any, what is returned, the gas left and the error. *)
Definition code_checks (ret : bytes) (err : option Error) : option Error :=
  let rules := chainRules env in
  let err := match err with
             | None => if IsSpuriousDragon rules && (maxCodeSize <? zlen ret) &&
                          (negb (IsAura rules) || HasEip3860 (config env) rules)
                       then Some ErrMaxCodeSizeExceeded else None
             | Some e => Some e
             end in
  match err with
  | None => if IsLondon rules && match ret with b :: _ => byteZ b =? 0xEF | [] => false end
            then Some ErrInvalidCode else None
  | Some e => Some e
  end.

Definition create_store (address : Z) (ret : bytes) (err : option Error) (c : Contract)
    : M World (bytes * option Error * Contract) :=
  match err with
  | Some e => mret (ret, Some e, c)
  | None =>
      let createDataGas := u64 (zlen ret * CreateDataGas) in
      let '(c, ok) := UseGas createDataGas c in
      if ok : bool then _ ← onDB (SetCode address ret); mret (ret, None, c)
      else mret ([], if IsHomestead (chainRules env) then Some ErrCodeStoreOutOfGas else None, c)
  end.

Definition create_body (caller : ContractRef) (cah : codeAndHash) (gasRemaining value address : Z)
    (bailout : bool) (depth : Z) : M World (bytes * Z * Z * option Error) :=
  snapshot ← onDB Snapshot;
  _ ← onDB (CreateAccount address true);
  _ ← (if IsSpuriousDragon (chainRules env) then onDB (SetNonce address 1) else mret None);
  _ ← onDB (Transfer (Context env) (ref_Address caller) address value bailout);
  let contract := NewContract caller address (Some value) gasRemaining (SkipAnalysis (config env)) in
  let contract := SetCodeOptionalHash address cah contract in
  if NoRecursion (config env) && (0 <? depth) then mret ([], address, gasRemaining, None)
  else
    '(ret, err, contract) ← run contract [] false;
    '(ret, err, contract) ← create_store address ret (code_checks ret err) contract;
    if isSome_err err && (IsHomestead (chainRules env) || negb (err_is err ErrCodeStoreOutOfGas)) then
      _ ← onDB (RevertToSnapshot snapshot);
      let contract := if negb (err_is err ErrExecutionReverted) then (UseGas (Gas contract) contract).1 else contract in
      mret (ret, address, Gas contract, err)
    else mret (ret, address, Gas contract, err).

Definition create (caller : ContractRef) (cah : codeAndHash) (gasRemaining value address : Z)
    (incrementNonce bailout : bool) : M World (bytes * Z * Z * option Error) :=
  depth ← gets depth;
  early ← create_prologue caller gasRemaining value address incrementNonce bailout;
  match early with
  | Some r => mret r
  | None => create_body caller cah gasRemaining value address bailout depth
  end.

Definition Create (caller : ContractRef) (code : bytes) (gasRemaining endowment : Z) (bailout : bool)
    : M World (bytes * Z * Z * option Error) :=
  '(nonce, err) ← onDB (GetNonce (ref_Address caller));
  match err with
  | Some e => mret ([], 0, 0, Some e)
  | None =>
      contractAddr ← lift (CreateAddress (ref_Address caller) nonce);
      create caller (NewCodeAndHash code) gasRemaining endowment contractAddr true bailout
  end.

Definition Create2 (caller : ContractRef) (code : bytes) (gasRemaining endowment salt : Z) (bailout : bool)
    : M World (bytes * Z * Z * option Error) :=
  let '(h, cah) := cah_Hash (NewCodeAndHash code) in
  create caller cah gasRemaining endowment (CreateAddress2 (ref_Address caller) salt h) true bailout.

Definition SysCreate (caller : ContractRef) (code : bytes) (gas endowment contractAddr : Z)
    : M World (bytes * Z * option Error) :=
  '(ret, _, leftOverGas, err) ← create caller (NewCodeAndHash code) gas endowment contractAddr false false;
  mret (ret, leftOverGas, err).

Definition OverlayCreate (caller : ContractRef) (cah : codeAndHash) (gas value address : Z)
    (incrementNonce : bool) : M World (bytes * Z * Z * option Error) :=
  create caller cah gas value address incrementNonce false.

(** What the instructions see of the EVM. *)
Definition evm_ops : CallOps := mkCallOps Call CallCode DelegateCall StaticCall Create Create2.
End Evm.

(** ** The knot

    A call runs the interpreter, whose instructions call again, at most [d] levels deep;
    one loop iteration per unit of gas, and one more, is enough for the interpreter. *)
Section Knot.
Context {U : Uint256} {K : Keccak} {DB : StateDB} {L : LRU}.

Fixpoint evm_run (d : nat) (env : Env) (jt : JumpTable) (c : Contract) (input : bytes) (readOnly_ : bool)
    : M World (bytes * option Error * Contract) :=
  match d with
  | O => fun _ => OutOfFuel
  | S d => Run (S (Z.to_nat (Gas c))) (mkInterp env (evm_ops env (evm_run d env jt))) jt c input readOnly_
  end.
End Knot.
