(* ===== verification/EvmSpec.v ===== *)
(** * Failed calls leave no trace

    The calls of [Evm] over the intra-block state: a call that fails restores the state
    it started in, whatever the callee did, and a call inherits from the interpreter that
    its effect can be undone by the caller. The interpreter is only assumed to have that
    property itself ([run_tracks]). *)

From S2P Require Import Prelude Uint256 Params Errors AccessList StateDB Machine Instances.
From S2P Require Import GasTable Instructions JumpTable Interpreter Rlp IntraBlockState Evm.
From S2P Require Import JournalSpec SnapshotSpec RevertSafe.
Import params.

Section EvmSpec.
Context {U : Uint256} {K : Keccak} {R : StateReader} {L : LRU}.
#[local] Existing Instance ibs_db | 0.

(** ** Reads that only fill caches *)

Definition quiet {A} (m : M IntraBlockState A) (s : IntraBlockState) (Q : A -> IntraBlockState -> Prop) : Prop :=
  wp False m s (fun r s' => snap_ok s' /\ s' ≡ s /\ frame s s' /\ Q r s').

Lemma quiet_undoable {A} (m : M IntraBlockState A) s Q : snap_ok s -> quiet m s Q -> tracks m s Q.
Proof.
  intros H Hq. eapply wp_mono; [exact Hq|]. intros r s' (Hs & E & F & HQ). split; [|exact HQ].
  apply undoable_quiet; [assumption|apply Hs|assumption..].
Qed.

Lemma quiet_ret {A} (a : A) s Q : snap_ok s -> Q a s -> quiet (mret a) s Q.
Proof. intros H HQ. apply wp_ret. by auto using frame_refl. Qed.

Lemma quiet_seq {A B} (m : M IntraBlockState A) (k : A -> M IntraBlockState B) s P Q :
  quiet m s P -> (forall r s', snap_ok s' -> P r s' -> quiet (k r) s' Q) -> quiet (m ≫= k) s Q.
Proof.
  intros Hm Hk. apply wp_bind. eapply wp_mono; [exact Hm|]. intros r s' (Hs & E & F & HP).
  eapply wp_mono; [exact (Hk r s' Hs HP)|]. intros r' s'' (Hs' & E' & F' & HQ). split; [assumption|].
  split; [by rewrite E', E|]. split; [by eapply frame_trans|assumption].
Qed.

Lemma quiet_get a s : snap_ok s -> quiet (getStateObject a) s (fun r s' => looked a s' r).
Proof.
  intros H. destruct (getStateObject_spec s a (so_wfj _ H)) as (r & s' & E & W & Q & F & _).
  pose proof (getStateObject_tracks a s H) as Ht. unfold quiet, tracks, wp in *. rewrite E in *.
  destruct Ht as [Hu Hl]. split; [apply Hu|]. done.
Qed.

Lemma quiet_readObject {A} a (z : A) read s :
  snap_ok s ->
  (forall o s', snap_ok s' -> stateObjects s' !! a = Some o -> address o = a -> quiet (read o) s' any) ->
  quiet (readObject a z read) s any.
Proof.
  intros H Hr. eapply quiet_seq; [by apply quiet_get|]. intros r s' H' [e|Hv|o Hl Ha Hi].
  - by apply quiet_ret.
  - by apply quiet_ret.
  - destruct (deleted o); [by apply quiet_ret|auto].
Qed.

Lemma quiet_so_Code a o s :
  snap_ok s -> stateObjects s !! a = Some o -> address o = a -> quiet (so_Code o) s any.
Proof.
  intros H Hl Ha. unfold so_Code. destruct (so_code o) eqn:Ec; [by apply quiet_ret|].
  destruct (acc_CodeHash (data o) =? empty_CodeHash) eqn:Eh; [by apply quiet_ret|].
  destruct (ReadAccountCode (address o)) as [c [e|]] eqn:Er; [by apply quiet_ret|].
  assert (Hv : codev o = (c, None)) by (unfold codev; by rewrite Ec, Eh, Er).
  unfold quiet, wp, mbind, M_bind. rewrite Ha, (upd_live a _ s o Hl).
  assert (Hu : undoable s (with_objects s (<[a := so_with_code o c]> (stateObjects s)))).
  { apply (undoable_cache a o); [assumption..|]. by apply cache_code. }
  split; [apply Hu|]. split; [|done].
  apply (st_eq_rest s s); [reflexivity|by split..|]. intros b. rewrite vobj_insert.
  destruct (decide (a = b)) as [<-|]; [|apply vobj_eq_refl]. rewrite (vobj_live s a o Hl). by apply cache_code.
Qed.

Lemma quiet_GetCode a s : snap_ok s -> quiet (ibs_GetCode a) s any.
Proof.
  intros H. apply quiet_readObject; [assumption|]. intros o s' H' Hl Ha.
  eapply quiet_seq; [by apply (quiet_so_Code a)|]. intros [c err] ? ? ?. by apply quiet_ret.
Qed.

Lemma quiet_GetBalance a s : snap_ok s -> quiet (ibs_GetBalance a) s any.
Proof. intros H. apply quiet_readObject; [assumption|]. intros. by apply quiet_ret. Qed.

Lemma quiet_ResolveCode a s : snap_ok s -> quiet (ibs_ResolveCode a) s any.
Proof.
  intros H. eapply (quiet_seq _ _ _ any).
  - eapply quiet_seq; [by apply quiet_GetCode|]. intros [c err] s' H' _.
    destruct err; [by apply quiet_ret|]. destruct (ParseDelegation c); by apply quiet_ret.
  - intros [[d ok] err] s' H' _. destruct ok; [by apply quiet_GetCode|].
    destruct err; [by apply quiet_ret|by apply quiet_GetCode].
Qed.

(** ** Calls *)

Context (tol : Prop) (env : Env).
Context (run : Contract -> bytes -> bool -> M World (bytes * option Error * Contract)).

(** The transfer functions of the chain. *)
Record transfers : Prop := mkTransfers {
  tr_can : CanTransfer (Context env) = core_CanTransfer;
  tr_move : Transfer (Context env) = consensus_Transfer
}.

(** The interpreter's effect on the state can be undone, and it creates no gas. *)
Definition run_tracks : Prop := forall c i ro w, snap_ok (statedb w) -> 0 <= Gas c ->
  wp tol (run c i ro) w (fun r w' => undoable (statedb w) (statedb w') /\ 0 <= Gas r.2 <= Gas c).

Context (Htr : transfers) (Hrun : run_tracks).

Definition wtracks {A} (m : M World A) (w : World) (Q : A -> World -> Prop) : Prop :=
  wp tol m w (fun r w' => undoable (statedb w) (statedb w') /\ Q r w').

Lemma wtracks_ret {A} (a : A) w (Q : A -> World -> Prop) : snap_ok (statedb w) -> Q a w -> wtracks (mret a) w Q.
Proof. intros H HQ. apply wp_ret. split; [by apply undoable_refl|exact HQ]. Qed.

Lemma wtracks_seq {A B} (m : M World A) (k : A -> M World B) w P Q :
  snap_ok (statedb w) -> wtracks m w P ->
  (forall r w', snap_ok (statedb w') -> P r w' -> wtracks (k r) w' Q) -> wtracks (m ≫= k) w Q.
Proof.
  intros H Hm Hk. apply wp_bind. eapply wp_mono; [exact Hm|]. intros r w' [Hu HP].
  eapply wp_mono; [exact (Hk r w' (un_ok _ _ Hu) HP)|]. intros r' w'' [Hu' HQ]. split; [|exact HQ].
  eapply undoable_trans; [exact H|exact (un_ok _ _ Hu)|exact Hu|exact Hu'].
Qed.

Lemma wtracks_val {A B} (a : A) (k : A -> M World B) w Q : wtracks (k a) w Q -> wtracks (mret a ≫= k) w Q.
Proof. exact (fun H => H). Qed.

(** One step further from the state [s0]. *)
Lemma track_from s0 {A B} (m : M World A) (k : A -> M World B) w P Q :
  snap_ok s0 -> undoable s0 (statedb w) -> wtracks m w P ->
  (forall r w', undoable s0 (statedb w') -> P r w' -> wp tol (k r) w' Q) -> wp tol (m ≫= k) w Q.
Proof.
  intros H Hu Hm Hk. apply wp_bind. eapply wp_mono; [exact Hm|]. intros r w' [Hu' HP]. apply Hk; [|exact HP].
  eapply undoable_trans; [exact H|apply Hu|exact Hu|exact Hu'].
Qed.

Lemma wp_onDB {A} (m : M IntraBlockState A) w (Q : A -> World -> Prop) :
  wp False m (statedb w) (fun r s => Q r (with_statedb s w)) -> wp tol (onDB m) w Q.
Proof.
  intros H. apply wp_zoom. unfold wp in *. destruct (m (statedb w)) as [[a s]| |]; [exact H|done|done].
Qed.

Lemma wtracks_onDB {A} (m : M IntraBlockState A) w (Q : A -> IntraBlockState -> Prop) :
  tracks m (statedb w) Q -> wtracks (onDB m) w (fun r w' => Q r (statedb w')).
Proof. intros H. apply wp_onDB. exact H. Qed.

Definition wany {A} : A -> World -> Prop := fun _ _ => True.

Lemma wtracks_db {A} (m : M IntraBlockState A) w : tracks m (statedb w) any -> wtracks (onDB m) w wany.
Proof. exact (wtracks_onDB m w any). Qed.

Lemma Transfer_tracks a b v bail s :
  snap_ok s -> (b =? ripemd) && u_IsZero v = false -> tracks (consensus_Transfer a b v bail) s any.
Proof.
  intros H Hp. eapply (tracks_seq _ _ _ any).
  - assumption.
  - destruct bail; [by apply tracks_ret|by apply SubBalance_tracks].
  - intros [e|] s' H' _; [by apply tracks_ret|by apply AddBalance_tracks].
Qed.

Lemma Exist_tracks a s : snap_ok s -> tracks (ibs_Exist a) s any.
Proof.
  intros H. eapply tracks_seq; [assumption|by apply (getStateObject_tracks a)|].
  intros r s' H' [e|Hv|o Hl Ha Hi]; by apply tracks_ret.
Qed.

Lemma ResolveCodeHash_tracks a s : snap_ok s -> tracks (ibs_ResolveCodeHash a) s any.
Proof.
  intros H. eapply tracks_seq; [assumption|by apply GetDelegatedDesignation_tracks|]. intros [[d ok] err] s' H' _.
  destruct ok; [by apply GetCodeHash_tracks|]. destruct err; [by apply tracks_ret|by apply GetCodeHash_tracks].
Qed.

(** An error of the database below, after which the code does not promise to clean up. *)
Definition state_failure (err : option Error) : Prop :=
  exists e, err = Some e /\ errors_Is e ErrIntraBlockStateFailed = true.

Lemma stateFailed_is e : state_failure (stateFailed e).
Proof. by eexists. Qed.

Definition args_ok (typ : Z) (caller : ContractRef) (value : option Z) : Prop :=
  (typ = OpCode.CALL \/ typ = OpCode.CALLCODE -> exists v, value = Some v) /\
  (typ = OpCode.DELEGATECALL -> exists self ca v, caller = ContractOf self ca v).

Section OneCall.
Context (typ : Z) (caller : ContractRef) (addr : Z) (input : bytes) (gas : Z) (value : option Z) (bailout : bool).
Context (Hargs : args_ok typ caller value) (Haddr : addr <> ripemd) (Hgas : 0 <= gas).

Lemma not_ripemd v : (addr =? ripemd) && u_IsZero v = false.
Proof. by destruct (Z.eqb_spec addr ripemd). Qed.

Lemma call_transfer_tracks pre w :
  snap_ok (statedb w) -> wtracks (call_transfer env typ caller addr pre gas value bailout) w
    (fun r _ => match r with Some (_, g, err) => (state_failure err /\ g = 0) \/ (err = None /\ g = gas) | None => True end).
Proof.
  intros H. unfold call_transfer. destruct (Z.eqb_spec typ OpCode.CALL) as [Hc|].
  - eapply wtracks_seq; [assumption|apply wtracks_onDB, Exist_tracks; assumption|].
    intros [ex [e|]] w1 H1 _; [apply wtracks_ret; [assumption|left; auto using stateFailed_is]|].
    destruct Hargs as [Hv _]. destruct (Hv (or_introl Hc)) as [v ->]. cbn [deref]. apply wtracks_val.
    destruct (negb ex && _); [apply wtracks_ret; auto|].
    eapply (wtracks_seq _ _ _ wany); [assumption| |].
    { destruct (negb ex); [by apply wtracks_db, CreateAccount_tracks|by apply wtracks_ret]. }
    intros _ w2 H2 _. rewrite (tr_move Htr).
    eapply wtracks_seq; [assumption|apply wtracks_onDB, Transfer_tracks; [assumption|apply not_ripemd]|].
    intros _ w3 H3 _. by apply wtracks_ret.
  - destruct (Z.eqb_spec typ OpCode.STATICCALL); [|by apply wtracks_ret].
    eapply wtracks_seq; [assumption|apply wtracks_onDB, AddBalance_tracks; [assumption|apply not_ripemd]|].
    intros _ w1 H1 _. by apply wtracks_ret.
Qed.

Lemma call_contract_ok h code :
  exists c, call_contract env typ caller addr value gas h code = Val c /\ Gas c = gas.
Proof.
  unfold call_contract. destruct (_ =? OpCode.CALLCODE); [by eexists|].
  destruct (Z.eqb_spec typ OpCode.DELEGATECALL) as [Hd|]; [|by eexists].
  destruct Hargs as [_ Hv]. destruct (Hv Hd) as (s & ca & v & ->). by eexists.
Qed.

Lemma call_execute_tracks p code w :
  snap_ok (statedb w) -> (forall p', p = Some p' -> priced_ok p' input gas) ->
  wtracks (call_execute env run typ caller addr p code input gas value) w
    (fun r _ => match r with inl (_, g, err) => state_failure err /\ g = 0 | inr (_, g, _) => 0 <= g <= gas end).
Proof.
  intros H Hp. unfold call_execute. destruct p as [p|].
  { destruct (Hp p eq_refl) as (g & Eg & Hg0 & Hrun_p). unfold RunPrecompiledContract. rewrite Eg. cbn [mbind Res_bind].
    destruct (Z.ltb_spec gas g); [apply wtracks_ret; [assumption|lia]|].
    destruct (Hrun_p ltac:(lia)) as ([out err] & Er). rewrite Er. apply wtracks_ret; [assumption|]. lia. }
  destruct (zlen code =? 0); [apply wtracks_ret; [assumption|lia]|].
  eapply wtracks_seq; [assumption|apply wtracks_onDB, ResolveCodeHash_tracks; assumption|].
  intros [h [e|]] w1 H1 _; [apply wtracks_ret; [assumption|auto using stateFailed_is]|].
  destruct (call_contract_ok h code) as (c & Ec & Hg). unfold lift. rewrite Ec.
  apply (wtracks_val c). eapply wtracks_seq; [assumption|apply Hrun; [assumption|lia]|].
  intros [[ret err] c'] w2 H2 Hle. apply wtracks_ret; [assumption|]. cbn in Hle. lia.
Qed.

(** What a call promises: its effect can be undone; if it fails, other than because the
    database failed, the state is as it was; gas is never created, and a failure other
    than a revert leaves none unless nothing was run. *)
Definition call_promise (w : World) (r : bytes * Z * option Error) (w' : World) : Prop :=
  undoable (statedb w) (statedb w') /\ 0 <= r.1.2 <= gas /\
  forall e, r.2 = Some e -> ~ state_failure (Some e) ->
    statedb w' ≡ statedb w /\ entries (statedb w') = entries (statedb w) /\
    (e = ErrExecutionReverted \/ r.1.2 = 0 \/ (r.1.2 = gas /\ (e = ErrDepth \/ e = ErrInsufficientBalance))).

Lemma call_body_promise p code w :
  snap_ok (statedb w) -> (forall p', p = Some p' -> priced_ok p' input gas) ->
  wp tol (call_body env run typ caller addr p code input gas value bailout) w (call_promise w).
Proof.
  intros H Hp. unfold call_body. apply wp_bind, wp_onDB. unfold wp. cbn [Snapshot ibs_db ibs_Snapshot].
  fold (snapshot_of (statedb w)). pose proof (undoable_snapshot _ H) as Hsn.
  set (w1 := with_statedb _ w). assert (Hs1 : statedb w1 = snapshot_of (statedb w)) by reflexivity.
  assert (H1 : snap_ok (statedb w1)) by (rewrite Hs1; apply Hsn).
  assert (Hfrom : forall s', undoable (statedb w1) s' -> undoable (statedb w) s').
  { intros s' Hu. rewrite Hs1 in Hu. eapply undoable_trans; [exact H|apply Hsn|exact Hsn|exact Hu]. }
  (* an early return because the database failed, or without an error *)
  assert (Hearly : forall (ret : bytes) g err w', undoable (statedb w1) (statedb w') ->
    (state_failure err /\ g = 0) \/ (err = None /\ g = gas) -> call_promise w (ret, g, err) w').
  { intros ret g err w' Hu He. split; [by apply Hfrom|]. cbn [fst snd].
    destruct He as [[(e & -> & Hf) ->]|[-> ->]]; (split; [lia|]); [|discriminate].
    intros e' [= <-] Hn. destruct Hn. by exists e. }
  apply wp_bind. eapply wp_mono; [by apply call_transfer_tracks|]. intros [[[ret g] err]|] w2 [Hu2 He].
  { apply wp_ret. by apply Hearly. }
  apply wp_bind. eapply wp_mono; [apply call_execute_tracks; [apply Hu2|assumption]|].
  intros res w3 [Hu3 He3].
  assert (Hu13 : undoable (statedb w1) (statedb w3))
    by (eapply undoable_trans; [exact H1|apply Hu2|exact Hu2|exact Hu3]).
  destruct res as [[[ret g] err]|[[ret g] err]].
  { apply wp_ret. apply Hearly; [assumption|by left]. }
  destruct (isSome_err err || RestoreState (config env)) eqn:Eerr.
  - destruct (revert_reached (statedb w) (statedb w3) H) as (s4 & E4 & Hq & Hent & _ & Hu4); [by rewrite <- Hs1|].
    apply wp_bind, wp_onDB. unfold wp. cbn [RevertToSnapshot ibs_db]. rewrite E4. apply wp_ret.
    split; [exact Hu4|]. cbn [fst snd]. unfold err_is.
    destruct (bool_decide_reflect (err = Some ErrExecutionReverted)) as [->|Hne].
    + split; [lia|]. intros e [= <-] _. auto.
    + split; [lia|]. intros e -> _. auto.
  - apply wp_ret. split; [by apply Hfrom|]. cbn [fst snd]. split; [lia|].
    destruct err; [discriminate|]. discriminate.
Qed.

(** The world differs only in caches and counters the state cannot observe. *)
Definition wquiet (w w' : World) : Prop :=
  snap_ok (statedb w') /\ statedb w' ≡ statedb w /\ frame (statedb w) (statedb w').

Lemma wquiet_onDB {A} (m : M IntraBlockState A) w :
  quiet m (statedb w) any -> wp tol (onDB m) w (fun _ w' => wquiet w w').
Proof.
  intros H. apply wp_onDB. eapply wp_mono; [exact H|]. intros r s (Hs & E & F & _). done.
Qed.

Lemma promise_from w w' r w'' :
  snap_ok (statedb w) -> wquiet w w' -> call_promise w' r w'' -> call_promise w r w''.
Proof.
  intros H (Hs & E & F) (Hu & Hg & He).
  assert (Hu0 : undoable (statedb w) (statedb w')) by (apply undoable_quiet; [assumption|apply Hs|assumption..]).
  split; [eapply undoable_trans; eassumption|]. split; [assumption|]. intros e Hr Hn.
  destruct (He e Hr Hn) as (Eq & Hent & Hc). split; [by rewrite Eq, E|]. split; [|exact Hc].
  rewrite Hent. apply F.
Qed.

(** Returning from a state that was only read. *)
Lemma promise_quiet w w' ret g err :
  snap_ok (statedb w) -> wquiet w w' -> 0 <= g <= gas ->
  (forall e, err = Some e -> g = 0 \/ (g = gas /\ (e = ErrDepth \/ e = ErrInsufficientBalance))) ->
  call_promise w (ret, g, err) w'.
Proof.
  intros H (Hs & E & F) Hg He. split; [apply undoable_quiet; [assumption|apply Hs|assumption..]|].
  split; [exact Hg|]. intros e Hr _. split; [assumption|]. split; [apply F|]. cbn in Hr. specialize (He e Hr). tauto.
Qed.

Lemma call_check_quiet w :
  snap_ok (statedb w) -> wp tol (call_check env typ caller gas value bailout) w (fun r w' => wquiet w w' /\
    match r with
    | Some (_, g, err) => exists e, err = Some e /\ (g = 0 \/ (g = gas /\ e = ErrInsufficientBalance))
    | None => True
    end).
Proof.
  intros H. unfold call_check. destruct ((typ =? OpCode.CALL) || (typ =? OpCode.CALLCODE)) eqn:Et.
  2: { apply wp_ret. split; [|done]. split; [assumption|]. split; [reflexivity|apply frame_refl]. }
  destruct Hargs as [Hv _]. destruct Hv as [v ->].
  { apply orb_prop in Et as [E|E]; apply Z.eqb_eq in E; auto. }
  cbn [deref]. apply (wp_bind _ (mret v)), wp_ret. rewrite (tr_can Htr). apply wp_bind.
  eapply wp_mono; [apply wquiet_onDB|].
  { eapply quiet_seq; [by apply quiet_GetBalance|]. intros [b [e|]] s' H' _; by apply quiet_ret. }
  intros [can [e|]] w' Hq; apply wp_ret; (split; [exact Hq|]); [by eauto|].
  destruct (_ && _); [by eauto 10|done].
Qed.

Lemma call_promise_holds w :
  snap_ok (statedb w) -> (forall p, precompiles env addr = Some p -> priced_ok p input gas) ->
  wp tol (call env run typ caller addr input gas value bailout) w (call_promise w).
Proof.
  intros H Hp. unfold call, Cancelled. apply wp_bind. unfold wp at 1. set (w0 := with_abortLoads w _).
  assert (Hq0 : wquiet w w0) by (split; [exact H|]; split; [reflexivity|apply frame_refl]).
  destruct (abortLoad env (abortLoads w)).
  { apply wp_ret. apply promise_quiet; [assumption|assumption|lia|discriminate]. }
  assert (H0 : snap_ok (statedb w0)) by exact H.
  apply wp_bind, wp_gets. apply wp_bind.
  assert (Hcode : wp tol (match precompiles env addr with
                          | Some _ => mret ([], None)
                          | None => onDB (ResolveCode addr) end) w0 (fun _ w' => wquiet w0 w')).
  { destruct (precompiles env addr); [apply wp_ret; exact Hq0|]. by apply wquiet_onDB, quiet_ResolveCode. }
  eapply wp_mono; [exact Hcode|]. intros [code [e|]] w1 Hq1.
  { apply wp_ret. apply promise_quiet; [assumption|assumption|lia|auto]. }
  destruct (NoRecursion _ && _); [apply wp_ret; apply promise_quiet; [assumption|assumption|lia|discriminate]|].
  destruct (_ <? _).
  { apply wp_ret. apply promise_quiet; [assumption|assumption|lia|]. intros e [= <-]. auto. }
  apply wp_bind. eapply wp_mono; [apply call_check_quiet, Hq1|]. intros [[[ret g] err]|] w2 [Hq2 Hr].
  { apply wp_ret. apply (promise_from w0 w1); [assumption|assumption|].
    destruct Hr as (e & -> & Hg). apply promise_quiet; [apply Hq1|assumption|lia|]. intros e' [= <-]. tauto. }
  eapply wp_mono; [apply call_body_promise; [apply Hq2|assumption]|]. intros r w3 Hpr.
  apply (promise_from w0 w1); [assumption|assumption|]. apply (promise_from w1 w2); [apply Hq1|assumption..].
Qed.
End OneCall.

(** ** Creations *)

Section OneCreate.
Context (caller : ContractRef) (cah : codeAndHash) (gas value addr : Z) (incrementNonce bailout : bool).
Context (Haddr : addr <> ripemd) (Hgas : 0 <= gas).

Lemma GetNonce_tracks a s : snap_ok s -> tracks (ibs_GetNonce a) s any.
Proof. intros H. apply readObject_tracks; [assumption|]. intros. by apply tracks_ret. Qed.

Lemma CanTransfer_tracks a v s : snap_ok s -> tracks (core_CanTransfer a v) s any.
Proof.
  intros H. eapply (tracks_seq _ _ _ any); [assumption| |intros [b [e|]] s' H' _; by apply tracks_ret].
  apply quiet_undoable; [assumption|]. by apply quiet_GetBalance.
Qed.

(** The result of an early return, or nothing. *)
Definition early_gas (r : option (bytes * Z * Z * option Error)) (_ : World) : Prop :=
  match r with Some (_, _, g, err) => 0 <= g <= gas /\ isSome_err err = true | None => True end.

Lemma create_prologue_tracks w :
  snap_ok (statedb w) ->
  wtracks (create_prologue env caller gas value addr incrementNonce bailout) w early_gas.
Proof.
  intros H. assert (Hret : forall e g w', snap_ok (statedb w') -> 0 <= g <= gas ->
    wtracks (mret (Some ([], 0, g, Some e))) w' early_gas) by (intros; by apply wtracks_ret).
  unfold create_prologue. apply (wtracks_val (depth w)). destruct (_ <? _); [apply Hret; [assumption|lia]|].
  rewrite (tr_can Htr). eapply wtracks_seq; [assumption|by apply wtracks_db, CanTransfer_tracks|].
  intros [can [e|]] w1 H1 _; [apply Hret; [assumption|lia]|].
  destruct (negb can && _); [apply Hret; [assumption|lia]|].
  eapply (wtracks_seq _ _ _ early_gas); [assumption| |].
  { destruct incrementNonce; [|by apply wtracks_ret].
    eapply wtracks_seq; [assumption|by apply wtracks_db, GetNonce_tracks|].
    intros [n [e|]] w2 H2 _; [apply Hret; [assumption|lia]|].
    destruct (_ <? _); [apply Hret; [assumption|lia]|].
    eapply wtracks_seq; [assumption|by apply wtracks_db, SetNonce_tracks|]. intros _ w3 H3 _. by apply wtracks_ret. }
  intros [r|] w2 H2 Hr; [by apply wtracks_ret|].
  eapply (wtracks_seq _ _ _ wany); [assumption| |].
  { destruct (IsBerlin _); [by apply wtracks_db, AddAddress_tracks|by apply wtracks_ret]. }
  intros _ w3 H3 _. eapply wtracks_seq; [assumption|by apply wtracks_db, ResolveCodeHash_tracks|].
  intros [h [e|]] w4 H4 _; [apply Hret; [assumption|lia]|].
  eapply wtracks_seq; [assumption|by apply wtracks_db, GetNonce_tracks|].
  intros [n [e|]] w5 H5 _; [apply Hret; [assumption|lia]|].
  eapply wtracks_seq; [assumption|by apply wtracks_db, HasStorage_tracks|].
  intros [st [e|]] w6 H6 _; [apply Hret; [assumption|lia]|].
  destruct (_ || _); [apply Hret; [assumption|lia]|by apply wtracks_ret].
Qed.

Lemma UseGas_bounds g c : 0 <= Gas c -> 0 <= g -> 0 <= Gas (UseGas g c).1 <= Gas c.
Proof. intros Hc Hg. unfold UseGas. destruct (Z.ltb_spec (Gas c) g); cbn; lia. Qed.

Lemma create_store_tracks ret err c w :
  snap_ok (statedb w) -> 0 <= Gas c ->
  wtracks (create_store env addr ret err c) w (fun r _ => 0 <= Gas r.2 <= Gas c).
Proof.
  intros H Hc. unfold create_store. destruct err as [e|]; [apply wtracks_ret; [assumption|cbn; lia]|].
  pose proof (UseGas_bounds (u64 (zlen ret * CreateDataGas)) c Hc (proj1 (u64_range _))) as Hg.
  destruct (UseGas _ c) as [c' ok]. cbn [fst] in Hg. destruct ok; [|by apply wtracks_ret].
  eapply wtracks_seq; [assumption|by apply wtracks_db, SetCode_tracks|]. intros _ w1 H1 _. by apply wtracks_ret.
Qed.

(** What a creation promises after its prologue left the world [w]. *)
Definition create_promise (w : World) (r : bytes * Z * Z * option Error) (w' : World) : Prop :=
  undoable (statedb w) (statedb w') /\ 0 <= r.1.2 <= gas /\
  forall e, r.2 = Some e -> (e = ErrCodeStoreOutOfGas -> IsHomestead (chainRules env) = true) ->
    statedb w' ≡ statedb w /\ entries (statedb w') = entries (statedb w) /\ (e = ErrExecutionReverted \/ r.1.2 = 0).

Lemma create_body_promise d w :
  snap_ok (statedb w) ->
  wp tol (create_body env run caller cah gas value addr bailout d) w (create_promise w).
Proof.
  intros H. unfold create_body. apply wp_bind, wp_onDB. unfold wp. cbn [Snapshot ibs_db ibs_Snapshot].
  fold (snapshot_of (statedb w)). pose proof (undoable_snapshot _ H) as Hsn.
  set (w1 := with_statedb _ w). assert (Hs1 : statedb w1 = snapshot_of (statedb w)) by reflexivity.
  assert (H1 : snap_ok (statedb w1)) by (rewrite Hs1; apply Hsn).
  assert (Hfrom : forall s', undoable (statedb w1) s' -> undoable (statedb w) s').
  { intros s' Hu. rewrite Hs1 in Hu. eapply undoable_trans; [exact H|apply Hsn|exact Hsn|exact Hu]. }
  assert (Hnop : (addr =? ripemd) && u_IsZero value = false) by (by destruct (Z.eqb_spec addr ripemd)).
  assert (U1 : undoable (statedb w1) (statedb w1)) by by apply undoable_refl.
  apply (track_from (statedb w1) _ _ _ wany); [assumption|assumption|by apply wtracks_db, CreateAccount_tracks|].
  intros _ w2 U2 _. apply (track_from (statedb w1) _ _ _ wany); [assumption|assumption| |].
  { destruct (IsSpuriousDragon _); [apply wtracks_db, SetNonce_tracks, U2|apply wtracks_ret; [apply U2|done]]. }
  intros _ w3 U3 _. rewrite (tr_move Htr).
  apply (track_from (statedb w1) _ _ _ wany); [assumption|assumption|apply wtracks_db, Transfer_tracks; [apply U3|assumption]|].
  intros _ w4 U4 _. destruct (NoRecursion _ && _).
  { apply wp_ret. split; [by apply Hfrom|]. split; [cbn; lia|discriminate]. }
  set (c := SetCodeOptionalHash addr cah _).
  apply (track_from (statedb w1) _ _ _ (fun r _ => 0 <= Gas r.2 <= Gas c));
    [assumption|assumption|apply Hrun; [apply U4|cbn; lia]|].
  intros [[ret err] c1] w5 U5 G5. cbn [snd] in G5. change (Gas c) with gas in G5.
  eapply (track_from (statedb w1)); [assumption|assumption|apply create_store_tracks; [apply U5|lia]|].
  intros [[ret' err'] c2] w6 U6 G6. cbn [snd] in G6. destruct (isSome_err err' && _) eqn:Et.
  - destruct (revert_reached (statedb w) (statedb w6) H) as (s4 & E4 & Hq & Hent & _ & Hu4); [by rewrite <- Hs1|].
    apply wp_bind, wp_onDB. unfold wp. cbn [RevertToSnapshot ibs_db]. rewrite E4. apply wp_ret.
    split; [exact Hu4|]. cbn [fst snd]. unfold err_is.
    destruct (bool_decide_reflect (err' = Some ErrExecutionReverted)) as [->|Hne]; cbn [negb].
    + split; [lia|]. intros e [= <-] _. auto.
    + assert (G0 : Gas (UseGas (Gas c2) c2).1 = 0) by (unfold UseGas; rewrite Z.ltb_irrefl; cbn; lia).
      rewrite G0. split; [lia|]. intros e -> _. auto.
  - apply wp_ret. split; [by apply Hfrom|]. cbn [fst snd]. split; [lia|]. intros e -> Hh. cbn in Et.
    unfold err_is in Et. destruct (IsHomestead (chainRules env)); [discriminate|].
    destruct (bool_decide_reflect (Some e = Some ErrCodeStoreOutOfGas)) as [Hcs|]; [|discriminate].
    injection Hcs as Hcs. by specialize (Hh Hcs).
Qed.

(** A creation is its prologue, then either an early return or the creation proper. *)
Lemma create_promise_holds w :
  snap_ok (statedb w) ->
  wp tol (create env run caller cah gas value addr incrementNonce bailout) w (fun r w' =>
    undoable (statedb w) (statedb w') /\ 0 <= r.1.2 <= gas /\
    exists early w1, create_prologue env caller gas value addr incrementNonce bailout w = Val (early, w1) /\
      match early with
      | Some r0 => r = r0 /\ w' = w1 /\ isSome_err r.2 = true
      | None => create_promise w1 r w'
      end).
Proof.
  intros H. unfold create. apply wp_bind, wp_gets. apply wp_bind.
  pose proof (create_prologue_tracks w H) as Hp. unfold wtracks, wp in Hp. unfold wp at 1.
  destruct (create_prologue env caller gas value addr incrementNonce bailout w) as [[early w1]|e|]; [|done|exact Hp].
  destruct Hp as [Hu Hr]. destruct early as [[[[ret a] g] err]|].
  - apply wp_ret. cbn in Hr |- *. split; [assumption|]. split; [lia|]. eexists _, _. split; [reflexivity|]. tauto.
  - eapply wp_mono; [apply create_body_promise, Hu|]. intros r w' Hpr.
    split; [eapply undoable_trans; [exact H|apply Hu|exact Hu|apply Hpr]|]. split; [apply Hpr|].
    eexists _, _. split; [reflexivity|assumption].
Qed.
End OneCreate.

(** C30 Failed calls leave no trace: for every kind of call, if the interpreter's effects
    can be undone then so can the call's, gas is never created, and a call that returns an
    error (other than a failure of the database) leaves a state equivalent to the one it
    started in, with the journal unchanged; the gas is gone unless the callee reverted or
    nothing was run. The callee is not the RIPEMD precompile, whose touch is meant to survive
    a revert, and a precompile called answers at its price. *)
Theorem call_atomic typ caller addr input gas value bailout w :
  args_ok typ caller value -> addr <> ripemd -> 0 <= gas -> snap_ok (statedb w) ->
  (forall p, precompiles env addr = Some p -> priced_ok p input gas) ->
  wp tol (call env run typ caller addr input gas value bailout) w (fun r w' =>
    undoable (statedb w) (statedb w') /\ 0 <= r.1.2 <= gas /\
    forall e, r.2 = Some e -> errors_Is e ErrIntraBlockStateFailed = false ->
      statedb w' ≡ statedb w /\ entries (statedb w') = entries (statedb w) /\
      (e = ErrExecutionReverted \/ r.1.2 = 0 \/ (r.1.2 = gas /\ (e = ErrDepth \/ e = ErrInsufficientBalance)))).
Proof.
  intros Ha Hr Hg Hs Hp. eapply wp_mono; [by apply call_promise_holds|]. intros r w' (Hu & Hb & He).
  split; [assumption|]. split; [assumption|]. intros e Hre Hf. apply He; [assumption|].
  intros (e' & [= <-] & Ht). congruence.
Qed.

(** C31 A failed creation has no effect beyond its prologue (the caller's nonce and the
    access list): if the interpreter's effects can be undone then so can the creation's,
    gas is never created, and when the constructor or the code checks fail, the state is
    equivalent to the one after the prologue and the gas is gone unless the constructor
    reverted. *)
Theorem create_atomic caller cah gas value addr incrementNonce bailout w :
  addr <> ripemd -> 0 <= gas -> snap_ok (statedb w) ->
  wp tol (create env run caller cah gas value addr incrementNonce bailout) w (fun r w' =>
    undoable (statedb w) (statedb w') /\ 0 <= r.1.2 <= gas /\
    exists early w1, create_prologue env caller gas value addr incrementNonce bailout w = Val (early, w1) /\
      match early with
      | Some r0 => r = r0 /\ w' = w1 /\ isSome_err r.2 = true
      | None => forall e, r.2 = Some e -> (e = ErrCodeStoreOutOfGas -> IsHomestead (chainRules env) = true) ->
          statedb w' ≡ statedb w1 /\ entries (statedb w') = entries (statedb w1) /\
          (e = ErrExecutionReverted \/ r.1.2 = 0)
      end).
Proof.
  intros Hr Hg Hs. eapply wp_mono; [by apply create_promise_holds|]. intros r w' (Hu & Hb & early & w1 & E & He).
  split; [assumption|]. split; [assumption|]. exists early, w1. split; [assumption|].
  destruct early; [exact He|]. apply He.
Qed.
End EvmSpec.

(** ** Concrete calls *)

#[local] Existing Instance ibs_db | 0.

Definition ibs_context : BlockContext :=
  mkBlockContext core_CanTransfer consensus_Transfer (fun _ => (0, None))
    7 30000000 false 100 1700000000 (Some 0) (Some 7) (Some 5) (Some 1).
Definition ibs_env : Env :=
  mkEnv ibs_context (mkTxContext 9 (Some 3) []) all_forks (mkConfig false false false false [])
    (fun _ => None) None (fun _ => false).
Definition ibs_world (s : IntraBlockState) : World :=
  mkWorld false [] 0 0 s (mkJumpDestCache (∅ : gmap Z bitvec) 0 0) 0.

(** A callee that writes a storage slot, then runs out of gas. *)
Definition failing_run (c : Contract) (_ : bytes) (_ : bool) : M World (bytes * option Error * Contract) :=
  _ ← onDB (jop_run (JSetState 100 1 9)); mret ([], Some ErrOutOfGas, c).

Lemma failing_run_tracks tol : run_tracks tol failing_run.
Proof.
  intros c i ro w H Hg. eapply wtracks_seq; [assumption|by apply wtracks_db, jop_run_tracks|].
  intros _ w' H' _. apply wtracks_ret; [assumption|cbn; lia].
Qed.

(** The result of a run, without the state it leaves. *)
Definition outcome {A} (r : Res (A * World)) : option A :=
  match r with Val (a, _) => Some a | _ => None end.

Lemma outcome_val {A} (r : Res (A * World)) a w : r = Val (a, w) -> outcome r = Some a.
Proof. by intros ->. Qed.

Lemma ibs_transfers : transfers ibs_env.
Proof. by split. Qed.

Lemma call_atomic_witness :
  exists w', Evm.Call ibs_env failing_run (AccountRef 9) 100 [] 5000 0 false (ibs_world New)
      = Val (([], 0, Some ErrOutOfGas), w') /\ statedb w' ≡ New.
Proof.
  pose proof (call_atomic False ibs_env failing_run ibs_transfers (failing_run_tracks False)
    OpCode.CALL (AccountRef 9) 100 [] 5000 (Some 0) false (ibs_world New)) as H.
  destruct (wp_val _ _ _ (H ltac:(split; [eauto|discriminate]) ltac:(discriminate) ltac:(lia) New_ok
    ltac:(discriminate))) as (r & w' & E & _ & _ & He).
  exists w'. assert (Er : r = ([], 0, Some ErrOutOfGas)).
  { apply outcome_val in E. enough (Some r = Some ([], 0, Some ErrOutOfGas)) as [= ->] by reflexivity.
    rewrite <- E. vm_compute. reflexivity. }
  subst r. split; [exact E|]. apply (He ErrOutOfGas); reflexivity.
Defined.

Lemma create_atomic_witness :
  exists r w', Evm.create ibs_env failing_run (AccountRef 9) (NewCodeAndHash [x00]) 5000 0 300 true false (ibs_world New)
      = Val (r, w') /\ r.2 = Some ErrOutOfGas /\ r.1.2 = 0 /\ snap_ok (statedb w').
Proof.
  pose proof (create_atomic False ibs_env failing_run ibs_transfers (failing_run_tracks False)
    (AccountRef 9) (NewCodeAndHash [x00]) 5000 0 300 true false (ibs_world New)) as H.
  destruct (wp_val _ _ _ (H ltac:(discriminate) ltac:(lia) New_ok)) as (r & w' & E & Hu & _).
  exists r, w'. split; [exact E|]. assert (Er : r = ([], 300, 0, Some ErrOutOfGas)).
  { apply outcome_val in E. enough (Some r = Some ([], 300, 0, Some ErrOutOfGas)) as [= ->] by reflexivity.
    rewrite <- E. vm_compute. reflexivity. }
  subst r. split; [reflexivity|]. split; [reflexivity|]. apply Hu.
Defined.
