(* ===== verification/StateTransition.v ===== *)
(** * State transition

    [core/state_transition.go]: a message bought, checked, prepared, executed, refunded and
    paid for, over the intra-block state, the EVM and the block's gas pool. The state is
    assumed not to be versioned (parallel execution recovers panics there). Tracing is not
    modelled. *)

From S2P Require Import Prelude Uint256 Params Errors AccessList StateDB Machine IntraBlockState TxState.
From S2P Require Import Rlp RlpWriter Authorization Precompiles ChainConfig TxGas Evm.
Import params.

Section Core_errors.
(** [core/error.go]. *)
Definition core_ErrTipAboveFeeCap : Error := NewError "tip higher than fee cap".
Definition core_ErrMaxFeePerBlobGas : Error := NewError "max fee per blob gas too low".
Definition core_ErrInternalFailure : Error := NewError "internal failure".
Definition core_ErrNonceTooLow : Error := NewError "nonce too low".
Definition core_ErrNonceTooHigh : Error := NewError "nonce too high".
Definition core_ErrNonceMax : Error := NewError "nonce has max value".
Definition core_ErrMaxInitCodeSizeExceeded : Error := NewError "max initcode size exceeded".
Definition core_ErrInsufficientFunds : Error := NewError "insufficient funds for gas * price + value".
Definition core_ErrGasUintOverflow : Error := NewError "gas uint64 overflow".
Definition core_ErrIntrinsicGas : Error := NewError "intrinsic gas too low".
Definition core_ErrFeeCapTooLow : Error := NewError "fee cap less than block base fee".
Definition core_ErrSenderNoEOA : Error := NewError "sender not an eoa".
Definition core_ErrGasLimitTooHigh : Error := NewError "gas limit too high".
Definition ErrStateTransitionFailed : Error := NewError "state transition failed".
End Core_errors.

(** [Message]: what its methods return; nilable pointers are options. *)
Record Message : Type := mkMessage {
  From : Z; To : option Z;
  m_GasPrice : Z; FeeCap : option Z; TipCap : option Z;
  m_Gas : Z; BlobGas : Z; MaxFeePerBlobGas : option Z;
  m_Value : Z; m_Nonce : Z; CheckNonce : bool; Data : bytes;
  m_AccessList : list AccessTuple; Authorizations : list Authorization;
  IsFree : bool; m_BlobHashes : list Z
}.

(** [evmtypes.ExecutionResult]. *)
Record ExecutionResult : Type := mkResult {
  GasUsed : Z; res_Err : option Error; Reverted : bool; ReturnData : bytes;
  SenderInitBalance : Z; CoinbaseInitBalance : Z; FeeTipped : Z; FeeBurnt : Z;
  BurntContractAddress : Z; EvmRefund : Z
}.

Section StateTransition.
Context {U : Uint256} {K : Keccak} {E : Secp256k1} {R : StateReader} {L : LRU}.
#[local] Existing Instance ibs_db | 0.

(** The mutable part of [StateTransition]: the gas pool, the gas counters, the blob fee
    (a field of the EVM) and the world of the EVM, which holds the state. *)
Record Txn : Type := mkTxn {
  gp : GasPool; gasRemaining : Z; initialGas : Z; blobFee : Z; evm : World
}.

Definition with_gp (t : Txn) g := mkTxn g (gasRemaining t) (initialGas t) (blobFee t) (evm t).
Definition with_gasRemaining (t : Txn) g := mkTxn (gp t) g (initialGas t) (blobFee t) (evm t).
Definition with_initialGas (t : Txn) g := mkTxn (gp t) (gasRemaining t) g (blobFee t) (evm t).
Definition with_blobFee (t : Txn) f := mkTxn (gp t) (gasRemaining t) (initialGas t) f (evm t).
Definition with_evm (t : Txn) w := mkTxn (gp t) (gasRemaining t) (initialGas t) (blobFee t) w.

Definition onPool {A} (m : M GasPool A) : M Txn A := zoom gp (fun g t => with_gp t g) m.
Definition onEvm {A} (m : M World A) : M Txn A := zoom evm (fun w t => with_evm t w) m.
Definition onIbs {A} (m : M IntraBlockState A) : M Txn A := onEvm (onDB m).

(** Early returns: [m] fails with an error or continues. *)
Definition bind_err {A B} (m : M Txn (Error + A)) (k : A -> M Txn (Error + B)) : M Txn (Error + B) :=
  r ← m; match r with inl e => mret (inl e) | inr a => k a end.
Notation "x ⟵ m ; k" := (bind_err m (fun x => k)) (at level 20, m at level 100, k at level 200, only parsing).
Notation "' x ⟵ m ; k" := (bind_err m (fun x => k)) (at level 20, x pattern, m at level 100, k at level 200, only parsing).

Definition throw {A} (e : Error) : M Txn (Error + A) := mret (inl e).
Definition ok_ {A} (a : A) : M Txn (Error + A) := mret (inr a).

(** [if err != nil { return fmt.Errorf("%w: %w", ErrStateTransitionFailed, err) }]. *)
Definition failing {A} (m : M IntraBlockState (A * option Error)) : M Txn (Error + A) :=
  '(a, err) ← onIbs m;
  match err with Some e => throw (ErrorfWW ErrStateTransitionFailed e) | None => ok_ a end.
Definition failing_ (m : M IntraBlockState (option Error)) : M Txn (Error + unit) :=
  err ← onIbs m;
  match err with Some e => throw (ErrorfWW ErrStateTransitionFailed e) | None => ok_ tt end.

(** [if err := m; err != nil { return err }]. *)
Definition check (m : M Txn (option Error)) : M Txn (Error + unit) :=
  err ← m; match err with Some e => throw e | None => ok_ tt end.

(** A dereferenced pointer. *)
Definition deref_ (p : option Z) : M Txn Z :=
  match p with Some z => mret z | None => gopanic "invalid memory address or nil pointer dereference" end.

(** [x.MulOverflow(a, b)] or [x.AddOverflow(a, b)] with the error of the overflow. *)
Definition orOverflow (r : Z * bool) (e : Error) : M Txn (Error + Z) :=
  let '(z, overflow) := r in if overflow : bool then throw e else ok_ z.

(** The environment: the EVM's configuration, the chain's, and the callback of the block
    context. *)
Context (env : Env) (chainConfig : chain.Config).
Context (run : Contract -> bytes -> bool -> M World (bytes * option Error * Contract)).
Context (PostApplyMessage : option (Z -> Z -> ExecutionResult -> M IntraBlockState unit)).
Context (activePrecompiles : list Z).

Section Transition.
Context (msg : Message) (noFeeBurnAndTip : bool).

(** ** Buying gas *)

Definition errFunds : Error := ErrorfW core_ErrInsufficientFunds "address".

Definition blob_cost : M Txn (Error + Z) :=
  if IsCancun (chainRules env) then
    match BlobBaseFee (Context env) with
    | None => throw (ErrorfW core_ErrInternalFailure "Cancun is active but ExcessBlobGas is nil")
    | Some blobGasPrice =>
        blobGasVal ⟵ orOverflow (u_MulOverflow blobGasPrice (BlobGas msg))
                       (ErrorfW core_ErrInsufficientFunds "overflow converting blob gas");
        _ ⟵ check (onPool (SubBlobGas (BlobGas msg)));
        ok_ blobGasVal
    end
  else ok_ 0.

(** The balance the sender must have. *)
Definition balance_check (gasVal : Z) : M Txn (Error + Z) :=
  match FeeCap msg with
  | None => ok_ gasVal
  | Some feeCap =>
      balanceCheck ⟵ orOverflow (u_MulOverflow (m_Gas msg) feeCap) errFunds;
      balanceCheck ⟵ orOverflow (u_AddOverflow balanceCheck (m_Value msg)) errFunds;
      if IsCancun (chainRules env) then
        maxFee ← deref_ (MaxFeePerBlobGas msg);
        maxBlobFee ⟵ orOverflow (u_MulOverflow maxFee (BlobGas msg)) errFunds;
        orOverflow (u_AddOverflow balanceCheck maxBlobFee) errFunds
      else ok_ balanceCheck
  end.

Definition buyGas (gasBailout : bool) : M Txn (Error + unit) :=
  gasVal ⟵ orOverflow (u_MulOverflow (m_Gas msg) (m_GasPrice msg)) errFunds;
  blobGasVal ⟵ blob_cost;
  _ ⟵ (if negb gasBailout then
          balanceCheck ⟵ balance_check gasVal;
          '(balance, err) ← onIbs (ibs_GetBalance (From msg));
          match err with
          | Some e => throw e
          | None =>
              if u_Lt balance balanceCheck then throw (ErrorfW core_ErrInsufficientFunds "address have want")
              else
                _ ← onIbs (ibs_SubBalance (From msg) gasVal);
                _ ← onIbs (ibs_SubBalance (From msg) blobGasVal);
                ok_ tt
          end
        else ok_ tt);
  _ ⟵ check (onPool (SubGas (m_Gas msg)));
  _ ← modify (fun t => with_gasRemaining t (u64 (gasRemaining t + m_Gas msg)));
  _ ← modify (fun t => with_initialGas t (m_Gas msg));
  _ ← modify (fun t => with_blobFee t blobGasVal);
  ok_ tt.

(** ** Checks before execution *)

Definition CheckEip1559TxGasFeeCap (feeCap tipCap baseFee : option Z) (isFree : bool) : M Txn (option Error) :=
  feeCap ← deref_ feeCap;
  tipCap ← deref_ tipCap;
  if u_Lt feeCap tipCap then mret (Some (ErrorfW core_ErrTipAboveFeeCap "address"))
  else match baseFee with
       | Some baseFee =>
           if u_Lt feeCap baseFee && negb isFree then mret (Some (ErrorfW core_ErrFeeCapTooLow "address")) else mret None
       | None => mret None
       end.

(** [preCheck], the nonce and the sender. *)
Definition check_nonce : M Txn (Error + unit) :=
  if CheckNonce msg then
    stNonce ⟵ failing (ibs_GetNonce (From msg));
    if stNonce <? m_Nonce msg then throw (ErrorfW core_ErrNonceTooHigh "address")
    else if m_Nonce msg <? stNonce then throw (ErrorfW core_ErrNonceTooLow "address")
    else if u64 (stNonce + 1) <? stNonce then throw (ErrorfW core_ErrNonceMax "address")
    else
      codeHash ⟵ failing (ibs_GetCodeHash (From msg));
      if negb (codeHash =? empty_CodeHash) && negb (codeHash =? 0) then
        '(_, ok) ⟵ failing (ibs_GetDelegatedDesignation (From msg));
        if negb ok then throw (ErrorfW core_ErrSenderNoEOA "address") else ok_ tt
      else ok_ tt
  else ok_ tt.

(** [preCheck], the fee caps. *)
Definition check_fees : M Txn (Error + unit) :=
  _ ⟵ (if IsLondon (chainRules env) then
          skipCheck ← (if NoBaseFee (config env) then
                         feeCap ← deref_ (FeeCap msg);
                         if u_IsZero feeCap then tipCap ← deref_ (TipCap msg); mret (u_IsZero tipCap) else mret false
                       else mret false);
          if negb skipCheck then
            check (CheckEip1559TxGasFeeCap (FeeCap msg) (TipCap msg) (BaseFee (Context env)) (IsFree msg))
          else ok_ tt
        else ok_ tt);
  if (0 <? BlobGas msg) && IsCancun (chainRules env) then
    match BlobBaseFee (Context env) with
    | None => throw (ErrorfW core_ErrInternalFailure "Cancun is active but ExcessBlobGas is nil")
    | Some blobGasPrice =>
        if negb (NoBaseFee (config env)) then
          maxFee ← deref_ (MaxFeePerBlobGas msg);
          if u_Gt blobGasPrice maxFee then throw (ErrorfW core_ErrMaxFeePerBlobGas "address") else ok_ tt
        else ok_ tt
    end
  else ok_ tt.

Definition preCheck (gasBailout : bool) : M Txn (Error + unit) :=
  _ ⟵ check_nonce;
  _ ⟵ check_fees;
  if IsOsaka (chainRules env) && (MaxTxnGasLimit <? m_Gas msg) then throw (ErrorfW core_ErrGasLimitTooHigh "address")
  else buyGas gasBailout.

(** ** Authorizations *)

(** Steps 3 to 8 for a recovered authority. *)
Definition set_delegation (auth : Authorization) (authority : Z) : M Txn (Error + unit) :=
  codeHash ⟵ failing (ibs_GetCodeHash authority);
  usable ⟵ (if negb (codeHash =? empty_CodeHash) && negb (codeHash =? 0) then
               '(_, ok) ⟵ failing (ibs_GetDelegatedDesignation authority); ok_ ok
             else ok_ true);
  if negb usable then ok_ tt
  else
    authorityNonce ⟵ failing (ibs_GetNonce authority);
    if negb (authorityNonce =? a_Nonce auth) then ok_ tt
    else
      exists_ ⟵ failing (ibs_Exist authority);
      _ ← (if exists_ : bool then onIbs (ibs_AddRefund (PerEmptyAccountCost - PerAuthBaseCost)) else mret tt);
      _ ⟵ (if a_Address auth =? 0 then failing_ (ibs_SetCode authority [])
            else failing_ (ibs_SetCode authority (AddressToDelegation (a_Address auth))));
      failing_ (ibs_SetNonce authority (u64 (authorityNonce + 1))).

(** The loop; [b] is the scratch buffer the encoders share. *)
Fixpoint verify_loop (chainID : Z) (auths : list Authorization) (b : bytes) (verified : list Z) : M Txn (Error + list Z) :=
  match auths with
  | [] => ok_ verified
  | auth :: auths =>
      if negb (u_IsZero (a_ChainID auth)) && negb (chainID =? a_ChainID auth) then verify_loop chainID auths b verified
      else
        '(r, (_, b)) ← lift (RecoverSigner auth ([], b));
        match r with
        | inl _ => verify_loop chainID auths b verified
        | inr authority =>
            _ ⟵ set_delegation auth authority;
            verify_loop chainID auths b (verified ++ [authority])
        end
  end.

Definition verifyAuthorities (auths : list Authorization) (contractCreation : bool) (chainID : Z)
    : M Txn (Error + list Z) :=
  if 0 <? zlen auths then
    if contractCreation then throw (NewError "contract creation not allowed with type4 txs")
    else verify_loop chainID auths (replicate 32 x00) []
  else ok_ [].

(** ** The transition *)

Definition gasUsed (t : Txn) : Z := u64 (initialGas t - gasRemaining t).

Definition refundGas : M Txn unit :=
  g ← gets gasRemaining;
  _ ← onIbs (ibs_AddBalance (From msg) (u_Mul g (m_GasPrice msg)));
  onPool (AddGas g).

Definition to : Z := match To msg with Some a => a | None => 0 end.

(** The refund, and the gas the receiver of the message paid for. *)
Definition settle (refunds gasBailout : bool) (floorGas7623 : Z) : M Txn unit :=
  let rules := chainRules env in
  if refunds && negb gasBailout then
    let refundQuotient := if IsLondon rules then RefundQuotientEIP3529 else RefundQuotient in
    used ← gets gasUsed;
    counter ← onIbs GetRefund;
    let refund := Z.min (used / refundQuotient) counter in
    let used := u64 (used - refund) in
    let used := if IsPrague rules then Z.max floorGas7623 used else used in
    _ ← modify (fun t => with_gasRemaining t (u64 (initialGas t - used)));
    refundGas
  else if IsPrague rules then
    modify (fun t => with_gasRemaining t (u64 (initialGas t - Z.max floorGas7623 (gasUsed t))))
  else mret tt.

Definition effective_tip : M Txn Z :=
  if IsLondon (chainRules env) then
    feeCap ← deref_ (FeeCap msg);
    baseFee ← deref_ (BaseFee (Context env));
    if u_Gt feeCap baseFee then
      tipCap ← deref_ (TipCap msg);
      let rest := u_Sub feeCap baseFee in
      mret (if u_Lt tipCap rest then tipCap else rest)
    else mret 0
  else mret (m_GasPrice msg).

(** The tip and the burnt fee are paid out; the burnt amount and its receiver are returned. *)
Definition pay_burnt : M Txn (Z * option Z) :=
  let rules := chainRules env in
  if negb (IsFree msg) && IsLondon rules then
    burntContractAddress ← lift (chain.GetBurntContract chainConfig (BlockNumber (Context env)));
    match burntContractAddress with
    | Some a =>
        used ← gets gasUsed;
        baseFee ← deref_ (BaseFee (Context env));
        let burnAmount := u_Mul used baseFee in
        blob ← gets blobFee;
        let burnAmount := if IsAura rules && IsPrague rules then u_Add burnAmount blob else burnAmount in
        _ ← (if negb noFeeBurnAndTip then _ ← onIbs (ibs_AddBalance a burnAmount); mret tt else mret tt);
        mret (burnAmount, Some a)
    | None => mret (0, None)
    end
  else mret (0, None).

(** Everything before execution: the price paid before it, and the floor. *)
Definition before_call (gasBailout : bool) : M Txn (Error + (Z * bool)) :=
  let rules := chainRules env in
  let contractCreation := match To msg with None => true | Some _ => false end in
  let isEIP3860 := HasEip3860 (config env) rules in
  let accessTuples := m_AccessList msg in
  _ ⟵ (if negb contractCreation then
          nonce ⟵ failing (ibs_GetNonce (From msg));
          _ ← onIbs (ibs_SetNonce (From msg) (u64 (nonce + 1)));
          ok_ tt
        else ok_ tt);
  let auths := Authorizations msg in
  let '(gas, floorGas7623, overflow) :=
    IntrinsicGas (Data msg) (zlen accessTuples) (access_StorageKeys accessTuples) contractCreation
      (IsHomestead rules) (IsIstanbul rules) isEIP3860 (IsPrague rules) false (zlen auths) in
  if overflow : bool then throw core_ErrGasUintOverflow
  else
    have ← gets gasRemaining;
    if (have <? gas) || (have <? floorGas7623) then throw (ErrorfW core_ErrIntrinsicGas "have want")
    else
      verifiedAuthorities ⟵ verifyAuthorities auths contractCreation (ChainID rules);
      _ ← modify (fun t => with_gasRemaining t (u64 (gasRemaining t - gas)));
      bailout ⟵ (if gasBailout then
                    canTransfer ⟵ failing (CanTransfer (Context env) (From msg) (m_Value msg));
                    ok_ (negb (u_IsZero (m_Value msg)) && negb canTransfer)
                  else ok_ false);
      if isEIP3860 && contractCreation && (MaxInitCodeSize <? zlen (Data msg))
      then throw (ErrorfW core_ErrMaxInitCodeSizeExceeded "code size limit")
      else
        _ ⟵ failing_ (Prepare rules (From msg) (Coinbase (Context env)) (To msg) activePrecompiles accessTuples
                         verifiedAuthorities);
        ok_ (floorGas7623, bailout).

(** The call or the creation; the gas it leaves becomes the remaining gas. *)
Definition execute_message (bailout : bool) : M Txn (bytes * option Error) :=
  g ← gets gasRemaining;
  match To msg with
  | None =>
      '(ret, _, gasLeft, vmerr) ← onEvm (Create env run (AccountRef (From msg)) (Data msg) g (m_Value msg) bailout);
      _ ← modify (fun t => with_gasRemaining t gasLeft);
      mret (ret, vmerr)
  | Some _ =>
      '(ret, gasLeft, vmerr) ← onEvm (Call env run (AccountRef (From msg)) to (Data msg) g (m_Value msg) bailout);
      _ ← modify (fun t => with_gasRemaining t gasLeft);
      mret (ret, vmerr)
  end.

(** Fees, result and callback. *)
Definition after_call (senderInitBalance coinbaseInitBalance : Z) (ret : bytes) (vmerr : option Error)
    : M Txn (Error + ExecutionResult) :=
  let coinbase := Coinbase (Context env) in
  effectiveTip ← effective_tip;
  used ← gets gasUsed;
  let tipAmount := u_Mul used effectiveTip in
  _ ⟵ (if negb noFeeBurnAndTip then failing_ (ibs_AddBalance coinbase tipAmount) else ok_ tt);
  '(burnAmount, burntContractAddress) ← pay_burnt;
  used ← gets gasUsed;
  evmRefund ← onIbs GetRefund;
  let result := mkResult used vmerr (err_is vmerr ErrExecutionReverted) ret senderInitBalance coinbaseInitBalance
                  tipAmount burnAmount (default 0 burntContractAddress) evmRefund in
  _ ← (match PostApplyMessage with
       | Some f => onIbs (f (From msg) coinbase result)
       | None => mret tt
       end);
  ok_ result.

Definition TransitionDb (refunds gasBailout : bool) : M Txn (Error + ExecutionResult) :=
  let coinbase := Coinbase (Context env) in
  senderInitBalance ⟵ failing (ibs_GetBalance (From msg));
  coinbaseInitBalance ⟵ (if negb noFeeBurnAndTip then failing (ibs_GetBalance coinbase) else ok_ 0);
  _ ⟵ preCheck gasBailout;
  '(floorGas7623, bailout) ⟵ before_call gasBailout;
  '(ret, vmerr) ← execute_message bailout;
  _ ← settle refunds gasBailout floorGas7623;
  after_call senderInitBalance coinbaseInitBalance ret vmerr.

(** [ApplyFrame]: the same without the accounting. *)
Definition ApplyFrame : M Txn (Error + ExecutionResult) :=
  let coinbase := Coinbase (Context env) in
  let rules := chainRules env in
  senderInitBalance ⟵ failing (ibs_GetBalance (From msg));
  coinbaseInitBalance ⟵ failing (ibs_GetBalance coinbase);
  _ ← modify (fun t => with_gasRemaining t (u64 (gasRemaining t + m_Gas msg)));
  _ ← modify (fun t => with_initialGas t (m_Gas msg));
  let contractCreation := match To msg with None => true | Some _ => false end in
  verifiedAuthorities ⟵ verifyAuthorities (Authorizations msg) contractCreation (ChainID rules);
  if HasEip3860 (config env) rules && contractCreation && (MaxInitCodeSize <? zlen (Data msg))
  then throw (ErrorfW core_ErrMaxInitCodeSizeExceeded "code size limit")
  else
    _ ← onIbs (Prepare rules (From msg) coinbase (To msg) activePrecompiles (m_AccessList msg) verifiedAuthorities);
    g ← gets gasRemaining;
    '(ret, gasLeft, vmerr) ← onEvm (Call env run (AccountRef (From msg)) to (Data msg) g (m_Value msg) false);
    _ ← modify (fun t => with_gasRemaining t gasLeft);
    used ← gets gasUsed;
    let result := mkResult used vmerr
                    (match vmerr with Some e => errors_Is e ErrExecutionReverted | None => false end) ret
                    senderInitBalance coinbaseInitBalance 0 0 0 0 in
    _ ← (match PostApplyMessage with
         | Some f => onIbs (f (From msg) coinbase result)
         | None => mret tt
         end);
    ok_ result.
End Transition.

(** A new transition: nothing bought yet. *)
Definition NewStateTransition (g : GasPool) (w : World) : Txn := mkTxn g 0 0 0 w.

End StateTransition.
