(* ===== verification/StateTransitionSpec.v ===== *)
(** * The accounting of a transaction

    For the state transition of [StateTransition]: whatever the contracts called do, the
    gas billed lies between the floor and the limit and is what the EVM used less the
    capped refund, the block's gas pool gives up exactly the gas billed, and the tip and
    the burnt fee are that gas times their rates. The addresses of new contracts are those
    of the canonical encoding of the creator and its nonce. *)

From S2P Require Import Prelude Uint256 Params Errors Common AccessList StateDB Machine Instances.
From S2P Require Import Rlp RlpSpec RlpWriter Authorization IntraBlockState TxState.
From S2P Require Import ChainConfig TxGas Precompiles Evm JournalSpec SnapshotSpec RevertSafe EvmSpec StateTransition.
Import params.

(** ** The address of a new contract *)

Section CreateAddress.
Context {K : Keccak}.

Lemma CreateAddress_exact a n :
  CreateAddress a n =
  Val (hash_address (keccak256 (rlp_list (rlp_string (Z_to_be 20 a) ++ rlp_uint (u64 n))))).
Proof.
  unfold CreateAddress. set (u := u64 n). assert (Hu : is_u64 u) by apply u64_range.
  set (s := rlp_string (Z_to_be 20 a)). set (v := rlp_uint u).
  assert (Ha : zlen (Z_to_be 20 a) = 20) by (unfold zlen; by rewrite length_Z_to_be).
  assert (Hs : zlen s = 21).
  { unfold s. rewrite <- StringLen_exact. unfold StringLen. rewrite Ha. cbn [Z.leb Z.compare].
    destruct (Z_to_be 20 a) as [|b [|]]; [discriminate..|reflexivity]. }
  assert (Hv : 1 <= zlen v <= 9).
  { unfold v, rlp_uint. rewrite <- StringLen_exact. unfold StringLen.
    pose proof (byteLen_le u 8 ltac:(unfold is_u64, two64 in Hu; lia)). pose proof (zlen_be u) as Hb.
    destruct (Z.leb_spec 56 (zlen (be u))); [lia|]. destruct (be u) as [|b [|]]; [lia| |lia].
    unfold zlen; cbn [length]. destruct (_ <? _); lia. }
  unfold U64Len. rewrite uint_len_exact by exact Hu. fold v. unfold rlp_list. rewrite zlen_app, Hs.
  set (L := 21 + zlen v). assert (Hh : rlp_list_header L = [Zbyte (192 + L)]).
  { unfold rlp_list_header. destruct (Z.leb_spec 56 L); [lia|reflexivity]. }
  assert (Hdata : zlen (replicate (Z.to_nat (L + 1)) x00) = L + 1) by (unfold zlen; rewrite length_replicate; lia).
  unfold mbind, M_bind.
  destruct (EncodeListPrefix_writes L ltac:(change (two64 / 2) with 9223372036854775808; lia)
    (replicate (Z.to_nat (L + 1)) x00)) as (t1 & -> & L1 & T1); [destruct (Z.leb_spec 56 L); lia|].
  pose proof (EncodeAddress_writes (Z_to_be 20 a) ltac:(lia)) as Hw.
  rewrite take_ge in Hw by (rewrite length_Z_to_be; lia). fold s in Hw.
  assert (Hh1 : zlen (rlp_list_header L) = 1) by (by rewrite Hh).
  destruct (sub_writes _ _ _ _ t1 Hw T1) as (t2 & -> & L2 & T2); [lia|]. rewrite <- zlen_app.
  pose proof (encode_uint_writes be_switch64 u Hu ltac:(intros; apply be_switch64_be; unfold is_u64 in Hu; lia)) as Hw2.
  fold v in Hw2. destruct (sub_writes _ _ _ _ t2 Hw2 T2) as (t3 & E3 & L3 & T3); [rewrite zlen_app; lia|].
  unfold EncodeU64. rewrite E3. do 3 f_equal. unfold holds in T3. rewrite <- app_assoc in T3. rewrite <- T3.
  symmetry. apply take_ge. unfold zlen in *. rewrite !length_app. lia.
Qed.
End CreateAddress.

Section StateTransitionSpec.
Context {U : Uint256} {US : Uint256Spec U} {K : Keccak} {SE : Secp256k1} {R : StateReader} {L : LRU}.
#[local] Existing Instance ibs_db | 0.
Context (tol : Prop) (env : Env) (chainConfig : chain.Config).
Context (run : Contract -> bytes -> bool -> M World (bytes * option Error * Contract)).
Context (PostApplyMessage : option (Z -> Z -> ExecutionResult -> M IntraBlockState unit)).
Context (activePrecompiles : list Z) (msg : Message) (noFeeBurnAndTip : bool).
Context (Htr : transfers env) (Hrun : run_tracks tol run).

(** What the caller provides: fields of their Go types, the fee fields their fork requires,
    a burnt-contract table that parses, precompiles that answer, and a callback that keeps
    the invariant. Zero credits to the RIPEMD address are excluded, as in [permitted]. *)
Record tx_ok : Prop := mkTxOk {
  to_gas : is_u64 (m_Gas msg);
  to_price : is_u256 (m_GasPrice msg);
  to_london : IsLondon (chainRules env) = true -> exists fc tc bf,
    FeeCap msg = Some fc /\ TipCap msg = Some tc /\ BaseFee (Context env) = Some bf /\
    is_u256 fc /\ is_u256 tc /\ is_u256 bf;
  to_cancun : IsCancun (chainRules env) = true -> is_Some (MaxFeePerBlobGas msg);
  to_burnt : exists b, chain.GetBurntContract chainConfig (BlockNumber (Context env)) = Val b /\ b <> Some ripemd;
  to_from : From msg <> ripemd;
  to_coinbase : Coinbase (Context env) <> ripemd;
  to_to : To msg <> Some ripemd;
  to_created : To msg = None -> forall n, CreateAddress (From msg) n <> Val ripemd;
  to_auths : Forall auth_ok (Authorizations msg);
  to_precompiles p g : precompiles env (to msg) = Some p -> 0 <= g -> priced_ok p (Data msg) g;
  to_post f a b r s : PostApplyMessage = Some f -> snap_ok s ->
    wp False (f a b r) s (fun _ s' => snap_ok s' /\ txIndex s' = txIndex s)
}.
Context (Htx : tx_ok).

(** ** Steps that only change the world of the EVM *)

Definition ibs_of (t : Txn) : IntraBlockState := statedb (evm t).

(** The invariant of the journal, in the transaction [ti] of the block. *)
Context (ti : Z).
Definition ibs_ok (s : IntraBlockState) : Prop := snap_ok s /\ txIndex s = ti.
Definition snap (t : Txn) : Prop := ibs_ok (ibs_of t).

Definition moved (t t' : Txn) : Prop := exists w, t' = with_evm t w /\ ibs_ok (statedb w).

Lemma ibs_ok_undoable s s' : ibs_ok s -> undoable s s' -> ibs_ok s'.
Proof. intros [_ H] Hu. split; [apply Hu|]. rewrite (un_tx _ _ Hu). exact H. Qed.

Lemma moved_refl t : snap t -> moved t t.
Proof. intros H. exists (evm t). split; [by destruct t|exact H]. Qed.
Lemma moved_trans t1 t2 t3 : moved t1 t2 -> moved t2 t3 -> moved t1 t3.
Proof. intros (w & -> & _) (w' & -> & H). by exists w'. Qed.
Lemma moved_snap t t' : moved t t' -> snap t'.
Proof. by intros (w & -> & H). Qed.

Definition stays {A} (m : M Txn A) (t : Txn) : Prop := wp tol m t (fun _ t' => moved t t').

Lemma stays_ret {A} (a : A) t : snap t -> stays (mret a) t.
Proof. apply moved_refl. Qed.

Lemma stays_ok {A} (a : A) t : snap t -> stays (ok_ a) t.
Proof. apply moved_refl. Qed.
Lemma stays_throw {A} e t : snap t -> stays (throw (A := A) e) t.
Proof. apply moved_refl. Qed.

Lemma stays_bind {A B} (m : M Txn A) (k : A -> M Txn B) t :
  stays m t -> (forall a t', snap t' -> stays (k a) t') -> stays (m ≫= k) t.
Proof.
  intros Hm Hk. apply wp_bind. eapply wp_mono; [exact Hm|]. intros a t' Hmv.
  eapply wp_mono; [exact (Hk a t' (moved_snap _ _ Hmv))|]. intros b t''. by apply moved_trans.
Qed.

Lemma stays_err {A B} (m : M Txn (Error + A)) (k : A -> M Txn (Error + B)) t :
  stays m t -> (forall a t', snap t' -> stays (k a) t') -> stays (bind_err m k) t.
Proof. intros Hm Hk. apply stays_bind; [exact Hm|]. intros [e|a] t' H; [by apply stays_ret|auto]. Qed.

Lemma wp_onIbs {A} (m : M IntraBlockState A) t (Q : A -> Txn -> Prop) :
  wp False m (ibs_of t) (fun a s => Q a (with_evm t (with_statedb s (evm t)))) -> wp tol (onIbs m) t Q.
Proof. intros H. apply wp_zoom, wp_onDB. exact H. Qed.

Lemma snap_journal t : snap t -> snap_ok (ibs_of t).
Proof. by intros [H _]. Qed.

Lemma stays_ibs {A} (m : M IntraBlockState A) t : snap t -> tracks m (ibs_of t) any -> stays (onIbs m) t.
Proof.
  intros Hs H. apply wp_onIbs. eapply wp_mono; [exact H|]. intros a s [Hu _]. eexists. split; [reflexivity|].
  exact (ibs_ok_undoable _ _ Hs Hu).
Qed.

Lemma stays_failing {A} (m : M IntraBlockState (A * option Error)) t :
  snap t -> tracks m (ibs_of t) any -> stays (failing m) t.
Proof. intros Hs H. apply stays_bind; [by apply stays_ibs|]. intros [a [e|]] t' H'; by apply stays_ret. Qed.

Lemma stays_failing_ (m : M IntraBlockState (option Error)) t :
  snap t -> tracks m (ibs_of t) any -> stays (failing_ m) t.
Proof. intros Hs H. apply stays_bind; [by apply stays_ibs|]. intros [e|] t' H'; by apply stays_ret. Qed.

Lemma stays_check (m : M Txn (option Error)) t : stays m t -> stays (check m) t.
Proof. intros H. apply stays_bind; [exact H|]. intros [e|] t' H'; by apply stays_ret. Qed.

Lemma stays_if {A} (b : bool) (m1 m2 : M Txn A) t : stays m1 t -> stays m2 t -> stays (if b then m1 else m2) t.
Proof. by destruct b. Qed.

(** The state operations the transition uses. *)
Lemma GetBalance_tracks a s : snap_ok s -> tracks (ibs_GetBalance a) s any.
Proof. intros H. apply quiet_undoable; [assumption|]. by apply quiet_GetBalance. Qed.

Lemma credit_tracks a v s : a <> ripemd -> snap_ok s -> tracks (ibs_AddBalance a v) s any.
Proof. intros Ha H. apply AddBalance_tracks; [assumption|]. by destruct (Z.eqb_spec a ripemd). Qed.

Create HintDb stays.
Hint Resolve stays_ret stays_ok stays_throw stays_failing stays_failing_ stays_ibs stays_check : stays.
Hint Resolve GetBalance_tracks GetNonce_tracks GetCodeHash_tracks GetDelegatedDesignation_tracks Exist_tracks : stays.
Hint Resolve AddRefund_tracks SubBalance_tracks SetNonce_tracks SetCode_tracks credit_tracks : stays.
Hint Resolve snap_journal : stays.

(** One step of a sequence. *)
Ltac stay :=
  lazymatch goal with
  | |- stays (bind_err _ _) _ => apply stays_err; [|intros ? ? ?]
  | |- stays (_ ≫= _) _ => apply stays_bind; [|intros ? ? ?]
  | |- stays (check _) _ => apply stays_check
  | |- stays (if _ then _ else _) _ => apply stays_if
  | |- stays (let '(_, _) := ?p in _) _ => destruct p
  | |- stays (match ?o with None => _ | Some _ => _ end) _ => destruct o
  end; try (by eauto with stays).

Lemma stays_deref p t : is_Some p -> snap t -> stays (deref_ p) t.
Proof. intros [z ->] H. by apply stays_ret. Qed.

Lemma check_nonce_stays t : snap t -> stays (check_nonce msg) t.
Proof. intros H. unfold check_nonce. repeat stay. Qed.

Lemma fees_given : IsLondon (chainRules env) = true -> is_Some (FeeCap msg) /\ is_Some (TipCap msg) /\ is_Some (BaseFee (Context env)).
Proof. intros Hl. destruct (to_london Htx Hl) as (fc & tc & bf & -> & -> & -> & _). eauto. Qed.

Lemma check_fees_stays t : snap t -> stays (check_fees env msg) t.
Proof.
  intros H. unfold check_fees. stay.
  - destruct (IsLondon (chainRules env)) eqn:El; [|by eauto with stays].
    destruct (fees_given El) as (Hf & Ht & _). pose proof stays_deref. unfold CheckEip1559TxGasFeeCap. repeat stay.
  - destruct (IsCancun (chainRules env)) eqn:Ec; rewrite ?andb_false_r; [|by eauto with stays].
    pose proof stays_deref. pose proof (to_cancun Htx Ec). repeat stay.
Qed.

Lemma set_delegation_stays auth a t : snap t -> stays (set_delegation auth a) t.
Proof. intros H. unfold set_delegation. repeat stay. Qed.

Lemma RecoverSigner_returns a b : auth_ok a -> 32 <= zlen b ->
  exists r out b', RecoverSigner a ([], b) = Val (r, (out, b')) /\ 32 <= zlen b'.
Proof.
  intros Ha Hb. destruct (Z.eq_dec (a_Nonce a) MaxUint64) as [E|E].
  - unfold RecoverSigner. rewrite E. eexists _, _, _. split; [reflexivity|exact Hb].
  - destruct (RecoverSigner_exact a b Ha E Hb) as (b' & Er & Hl). rewrite Er. eexists _, _, _. split; [reflexivity|lia].
Qed.

Lemma verify_loop_stays chainID auths : Forall auth_ok auths -> forall b verified t,
  32 <= zlen b -> snap t -> stays (verify_loop chainID auths b verified) t.
Proof.
  induction 1 as [|a auths Ha _ IH]; intros b verified t Hb H; cbn [verify_loop]; [by apply stays_ret|].
  apply stays_if; [by apply IH|]. destruct (RecoverSigner_returns a b Ha Hb) as (r & out & b' & E & Hb').
  unfold stays, wp, mbind, M_bind, lift. rewrite E. destruct r as [e|authority]; [by apply IH|].
  change (stays (bind_err (set_delegation a authority) (fun _ => verify_loop chainID auths b' (verified ++ [authority]))) t).
  apply stays_err; [by apply set_delegation_stays|]. intros. by apply IH.
Qed.

Lemma verifyAuthorities_stays cc chainID t : snap t -> stays (verifyAuthorities (Authorizations msg) cc chainID) t.
Proof.
  intros H. unfold verifyAuthorities. repeat apply stays_if; [by apply stays_throw| |by apply stays_ok].
  apply verify_loop_stays; [apply (to_auths Htx)|by rewrite zlen_replicate|assumption].
Qed.
(** ** Buying gas *)

(** A step that may fail: the invariant is kept and the pool does not grow. *)
Definition shrinks (t t' : Txn) : Prop := snap t' /\ gp_gas (gp t') <= gp_gas (gp t).

Lemma moved_shrinks t t' : moved t t' -> shrinks t t'.
Proof. intros (w & -> & H). split; [exact H|cbn; lia]. Qed.

(** A step, then the rest; errors end it. *)
Lemma wp_err {A B} (m : M Txn (Error + A)) (k : A -> M Txn (Error + B)) t (Q : Error + B -> Txn -> Prop) :
  wp tol m t (fun r t' => match r with inl e => Q (inl e) t' | inr a => wp tol (k a) t' Q end) ->
  wp tol (bind_err m k) t Q.
Proof. intros H. apply wp_bind. eapply wp_mono; [exact H|]. by intros [e|a] t'. Qed.

Lemma wp_err_stays {A B} (m : M Txn (Error + A)) (k : A -> M Txn (Error + B)) t (Q : Error + B -> Txn -> Prop) :
  stays m t -> (forall e t', moved t t' -> Q (inl e) t') ->
  (forall a t', moved t t' -> wp tol (k a) t' Q) -> wp tol (bind_err m k) t Q.
Proof. intros Hm He Hk. apply wp_err. eapply wp_mono; [exact Hm|]. intros [e|a] t' Hmv; auto. Qed.

Lemma stays_overflow r e t : snap t -> stays (orOverflow r e) t.
Proof. intros H. unfold orOverflow. destruct r as [z []]; by apply moved_refl. Qed.

Lemma balance_check_stays gasVal t : snap t -> stays (balance_check env msg gasVal) t.
Proof.
  intros H. unfold balance_check. pose proof stays_overflow. pose proof stays_deref.
  destruct (IsCancun (chainRules env)) eqn:Ec; [pose proof (to_cancun Htx Ec)|]; repeat stay.
Qed.

(** The blob gas leaves the pool. *)
Definition blob_bought (b b' : Z) : Prop :=
  if IsCancun (chainRules env) then BlobGas msg <= b /\ b' = b - BlobGas msg else b' = b.

Lemma blob_cost_spec t : snap t -> wp tol (blob_cost env msg) t (fun r t' =>
  exists b, t' = with_gp t (mkGasPool (gp_gas (gp t)) b) /\ forall v, r = inr v -> blob_bought (gp_blobGas (gp t)) b).
Proof.
  intros H. assert (E0 : t = with_gp t (mkGasPool (gp_gas (gp t)) (gp_blobGas (gp t)))) by (by destruct t as [[] ? ? ? ?]).
  unfold blob_cost, blob_bought. destruct (IsCancun _); [|by eexists]. destruct (BlobBaseFee _); [|by eexists].
  unfold orOverflow. destruct (u_MulOverflow _ _) as [v []]; [by eexists|].
  unfold wp, bind_err, check, onPool, zoom, mbind, M_bind, ok_, SubBlobGas. cbn.
  destruct (Z.ltb_spec (gp_blobGas (gp t)) (BlobGas msg)); cbn.
  - exists (gp_blobGas (gp t)). split; [by destruct t as [[] ? ? ? ?]|done].
  - eexists. split; [reflexivity|]. auto.
Qed.

Definition bought (t t' : Txn) : Prop :=
  m_Gas msg <= gp_gas (gp t) /\ gp_gas (gp t') = gp_gas (gp t) - m_Gas msg /\
  gasRemaining t' = u64 (gasRemaining t + m_Gas msg) /\ initialGas t' = m_Gas msg /\
  blob_bought (gp_blobGas (gp t)) (gp_blobGas (gp t')).

Lemma buyGas_spec bail t : snap t -> wp tol (buyGas env msg bail) t (fun r t' =>
  shrinks t t' /\ (r = inr tt -> bought t t')).
Proof.
  intros H. unfold buyGas. apply wp_err_stays; [by apply stays_overflow|intros; split; [by apply moved_shrinks|done]|].
  intros gasVal t1 M1. apply wp_err. eapply wp_mono; [apply blob_cost_spec, (moved_snap _ _ M1)|].
  intros r t2 (b & E2 & Hbl). assert (S2 : snap t2) by (subst t2; apply (moved_snap _ _ M1)).
  assert (F2 : gp_gas (gp t2) = gp_gas (gp t) /\ gasRemaining t2 = gasRemaining t /\ gp_blobGas (gp t2) = b /\ gp t1 = gp t)
    by (subst t2; by destruct M1 as (w & -> & _)). clear E2. destruct F2 as (F2 & F2' & F2'' & F1).
  destruct r as [e|blobGasVal]; [split; [split; [exact S2|lia]|done]|]. specialize (Hbl _ eq_refl). rewrite F1 in Hbl.
  apply wp_err_stays.
  - pose proof balance_check_stays. repeat stay.
  - intros e t3 M3. split; [|done]. apply moved_shrinks in M3 as [S3 P3]. split; [exact S3|lia].
  - intros _ t3 (w & -> & S3). unfold wp, bind_err, check, onPool, zoom, mbind, M_bind, throw, ok_, modify, SubGas. cbn.
    pose proof (to_gas Htx) as [Hg _].
    destruct (Z.ltb_spec (gp_gas (gp t2)) (m_Gas msg)); cbn.
    + split; [split; [exact S3|cbn; lia]|done].
    + split; [split; [exact S3|cbn; lia]|]. intros _. split; [lia|]. cbn. rewrite F2, F2', F2''. auto.
Qed.

Lemma preCheck_spec bail t : snap t -> wp tol (preCheck env msg bail) t (fun r t' =>
  shrinks t t' /\ (r = inr tt -> bought t t')).
Proof.
  intros H. unfold preCheck.
  apply wp_err_stays; [by apply check_nonce_stays|intros; split; [by apply moved_shrinks|done]|]. intros _ t1 M1.
  apply wp_err_stays; [by apply check_fees_stays, (moved_snap t)|intros e t2 M2; split; [|done]|].
  { eapply moved_shrinks, moved_trans; eassumption. }
  intros _ t2 M2. pose proof (moved_trans _ _ _ M1 M2) as M. destruct (_ && _).
  - split; [by apply moved_shrinks|done].
  - eapply wp_mono; [apply buyGas_spec, (moved_snap _ _ M)|]. destruct M as (w & -> & _). auto.
Qed.

(** ** Up to the call *)

Lemma wp_stays {A B} (m : M Txn A) (k : A -> M Txn B) t Q :
  stays m t -> (forall a t', moved t t' -> wp tol (k a) t' Q) -> wp tol (m ≫= k) t Q.
Proof. intros Hm Hk. apply wp_bind. eapply wp_mono; [exact Hm|]. auto. Qed.

Lemma add_authorities_tracks l : forall s, snap_ok s -> tracks (add_authorities l) s any.
Proof.
  induction l as [|a l IH]; intros s H; cbn [add_authorities]; [by apply tracks_ret|].
  eapply tracks_seq; [assumption|by apply AddAddress_tracks|]. intros _ s' H' _. by apply IH.
Qed.

Lemma ibs_ok_rebuilt s al tr : ibs_ok s -> ibs_ok (with_transient (with_access_list s al) tr).
Proof. intros [[[] Hd Hi Hn] Ht]. split; [split; [by split|assumption..]|exact Ht]. Qed.

(** Preparing is not journalled, but keeps the invariant. *)
Lemma Prepare_keeps rules sender coinbase dst pre al auths s :
  ibs_ok s -> wp False (Prepare rules sender coinbase dst pre al auths) s (fun _ s' => ibs_ok s').
Proof.
  intros H. unfold Prepare. apply wp_bind.
  eapply (wp_mono _ _ _ (fun _ s' => ibs_ok s')).
  { destruct (IsBerlin rules); [|by apply wp_ret]. apply wp_modify.
    exact (ibs_ok_rebuilt s _ (transient_storage s) H). }
  intros _ s1 H1. apply wp_bind. eapply (wp_mono _ _ _ (fun _ s' => ibs_ok s')).
  { destruct (IsPrague rules); [|by apply wp_ret].
    eapply wp_mono; [eapply (tracks_seq _ _ _ any any)|intros ? ? [Hu _]; exact (ibs_ok_undoable _ _ H1 Hu)];
      [apply H1|apply add_authorities_tracks, H1|].
    intros _ s2 H2 _. destruct dst as [d|]; [|by apply tracks_ret].
    eapply tracks_seq; [assumption|by apply GetDelegatedDesignation_tracks|]. intros [[dd ok] [e|]] s3 H3 _; [by apply tracks_ret|].
    destruct ok; [|by apply tracks_ret]. eapply tracks_seq; [assumption|by apply AddAddress_tracks|].
    intros _ s4 H4 _. by apply tracks_ret. }
  intros [e|] s2 H2; [by apply wp_ret|]. apply wp_bind, wp_modify, wp_ret.
  exact (ibs_ok_rebuilt s2 (access_list s2) _ H2).
Qed.

Lemma Prepare_stays rules sender coinbase dst pre al auths t :
  snap t -> stays (failing_ (Prepare rules sender coinbase dst pre al auths)) t.
Proof.
  intros H. apply stays_bind; [|intros [e|] t' H'; by apply stays_ret].
  apply wp_onIbs. eapply wp_mono; [by apply Prepare_keeps|]. intros a s Hs. eexists. split; [reflexivity|exact Hs].
Qed.

Lemma can_transfer_stays t : snap t -> stays (failing (CanTransfer (Context env) (From msg) (m_Value msg))) t.
Proof. intros H. rewrite (tr_can env Htr). apply stays_failing; [exact H|]. apply CanTransfer_tracks, H. Qed.

(** The intrinsic gas and the floor of the message. *)
Definition intrinsic_of : Z * Z * bool :=
  let rules := chainRules env in
  IntrinsicGas (Data msg) (zlen (m_AccessList msg)) (access_StorageKeys (m_AccessList msg))
    (match To msg with None => true | Some _ => false end) (IsHomestead rules) (IsIstanbul rules)
    (HasEip3860 (config env) rules) (IsPrague rules) false (zlen (Authorizations msg)).

Definition same_gas (t t' : Txn) : Prop := snap t' /\ gp t' = gp t /\ initialGas t' = initialGas t.

Lemma moved_same t t' : moved t t' -> same_gas t t' /\ gasRemaining t' = gasRemaining t.
Proof. by intros (w & -> & H). Qed.

Definition prepaid (t : Txn) (r : Error + Z * bool) (t' : Txn) : Prop :=
  same_gas t t' /\ forall floor b, r = inr (floor, b) -> exists gas,
    intrinsic_of = (gas, floor, false) /\ 0 <= gas <= gasRemaining t /\ 0 <= floor <= gasRemaining t /\
    gasRemaining t' = gasRemaining t - gas.

Lemma prepaid_error t e t' : moved t t' -> prepaid t (inl e) t'.
Proof. intros M. split; [by apply moved_same|done]. Qed.

Lemma before_call_spec bail t : snap t -> is_u64 (gasRemaining t) ->
  wp tol (before_call env activePrecompiles msg bail) t (prepaid t).
Proof.
  intros H Hg. unfold before_call. apply wp_err_stays; [repeat stay|by intros; apply prepaid_error|].
  intros _ t1 M1. fold intrinsic_of. destruct intrinsic_of as [[gas floor] overflow] eqn:Ei.
  destruct (IntrinsicGas_u64 _ _ _ _ _ _ _ _ _ _ _ _ _ Ei) as [[Hgas _] [Hfl _]].
  destruct overflow; [by apply prepaid_error|]. apply wp_bind, wp_gets.
  destruct M1 as (w1 & -> & S1). cbn [gasRemaining with_evm]. destruct (_ || _) eqn:Eh; [apply prepaid_error; by eexists|].
  apply wp_err_stays; [by apply verifyAuthorities_stays|intros e t2 (w2 & -> & S2); apply prepaid_error; by eexists|].
  intros verified t2 (w2 & -> & S2). apply wp_bind, wp_modify. cbn [gasRemaining with_evm with_gasRemaining].
  rewrite u64_id by (unfold is_u64 in *; lia).
  set (t3 := with_gasRemaining _ _).
  assert (Hend : forall r t', moved t3 t' -> (forall f b, r = inr (f, b) -> f = floor) -> prepaid t r t').
  { intros r t' (w & -> & S) Hf. split; [done|]. intros f b Hr. rewrite (Hf f b Hr). exists gas. split; [exact Ei|]. cbn. lia. }
  apply wp_err_stays; [|by intros; apply Hend|].
  { pose proof can_transfer_stays. repeat stay. }
  intros bailout t4 M4. destruct (_ && _ && _); [by apply Hend|].
  apply wp_err_stays; [by apply Prepare_stays, (moved_snap t3)|intros; apply Hend; [by eapply moved_trans|done]|].
  intros _ t5 M5. apply Hend; [by eapply moved_trans|congruence].
Qed.

(** ** The call *)

Lemma Create_gas g w bail : To msg = None -> ibs_ok (statedb w) -> 0 <= g ->
  wp tol (Create env run (AccountRef (From msg)) (Data msg) g (m_Value msg) bail) w
    (fun r w' => ibs_ok (statedb w') /\ 0 <= r.1.2 <= g).
Proof.
  intros Hto H Hg. unfold Create. apply wp_bind.
  eapply wp_mono; [apply (wtracks_db tol), GetNonce_tracks, H|].
  intros [n [e|]] w1 [Hu _]; [split; [exact (ibs_ok_undoable _ _ H Hu)|cbn; lia]|]. rewrite CreateAddress_exact. apply wp_bind, wp_ret.
  eapply wp_mono; [apply (create_promise_holds tol env run Htr Hrun); [|assumption|apply Hu]|].
  - intros E. apply (to_created Htx Hto n). by rewrite CreateAddress_exact, <- E.
  - intros r w' (Hu' & Hr & _). split; [|exact Hr]. exact (ibs_ok_undoable _ _ (ibs_ok_undoable _ _ H Hu) Hu').
Qed.

Lemma Call_gas g w bail : is_Some (To msg) -> ibs_ok (statedb w) -> 0 <= g ->
  wp tol (Evm.Call env run (AccountRef (From msg)) (to msg) (Data msg) g (m_Value msg) bail) w
    (fun r w' => ibs_ok (statedb w') /\ 0 <= r.1.2 <= g).
Proof.
  intros [a Ha] H Hg. pose proof (to_to Htx) as Hto. assert (Et : to msg = a) by (unfold to; by rewrite Ha).
  eapply wp_mono; [apply (call_promise_holds tol env run Htr Hrun); try assumption|].
  - split; [eauto|discriminate].
  - rewrite Et. congruence.
  - apply H.
  - intros p Hp. by apply (to_precompiles Htx).
  - intros r w' (Hu & Hr & _). split; [exact (ibs_ok_undoable _ _ H Hu)|exact Hr].
Qed.

(** The EVM, given [g] gas in the world [w], returned [ret] and the error [vmerr] with [left_]
    gas left, in the world [w']. *)
Definition evm_returned (bail : bool) (g : Z) (w : World) (ret : bytes) (left_ : Z) (vmerr : option Error) (w' : World) : Prop :=
  match To msg with
  | None => exists a, Create env run (AccountRef (From msg)) (Data msg) g (m_Value msg) bail w = Val ((ret, a, left_, vmerr), w')
  | Some _ => Evm.Call env run (AccountRef (From msg)) (to msg) (Data msg) g (m_Value msg) bail w = Val ((ret, left_, vmerr), w')
  end.

Lemma wp_run {S A} (P : Prop) (m : M S A) s Q : wp P m s Q -> wp P m s (fun a s' => m s = Val (a, s') /\ Q a s').
Proof. unfold wp. by destruct (m s) as [[a s']| |]. Qed.

Lemma execute_spec bail t : snap t -> 0 <= gasRemaining t ->
  wp tol (execute_message env run msg bail) t (fun r t' => same_gas t t' /\ 0 <= gasRemaining t' <= gasRemaining t /\
    evm_returned bail (gasRemaining t) (evm t) r.1 (gasRemaining t') r.2 (evm t')).
Proof.
  intros H Hg. unfold execute_message, evm_returned. apply wp_bind, wp_gets. destruct (To msg) as [a|] eqn:Ea; apply wp_bind, wp_zoom.
  - eapply wp_mono; [apply wp_run, Call_gas; [by rewrite Ea|exact H|exact Hg]|].
    intros [[ret gl] err] w (E & Hs & Hr). apply wp_bind, wp_modify, wp_ret. by split.
  - eapply wp_mono; [by apply wp_run, Create_gas|].
    intros [[[ret ad] gl] err] w (E & Hs & Hr). apply wp_bind, wp_modify, wp_ret. split; [done|]. split; [done|]. by exists ad.
Qed.

(** ** After the call *)

(** The gas billed when the EVM left [left_] and the refund counter stood at [counter]. *)
Definition gas_bill (refunds gasBailout : bool) (left_ counter floor : Z) : Z :=
  let used := m_Gas msg - left_ in
  let used := if refunds && negb gasBailout
              then used - Z.min (used / (if IsLondon (chainRules env) then 5 else 2)) counter else used in
  if IsPrague (chainRules env) then Z.max floor used else used.

Lemma gas_bill_bounds refunds bail left_ counter floor :
  0 <= left_ <= m_Gas msg -> 0 <= counter -> 0 <= floor <= m_Gas msg ->
  0 <= gas_bill refunds bail left_ counter floor <= m_Gas msg.
Proof.
  intros Hl Hc Hf. unfold gas_bill. set (q := if IsLondon _ then 5 else 2).
  assert (Hq : 1 < q) by (unfold q; by destruct (IsLondon _)). set (used := m_Gas msg - left_).
  assert (0 <= used / q <= used) by (split; [apply Z.div_pos; lia|apply Z.div_le_upper_bound; nia]).
  destruct (refunds && negb bail), (IsPrague _); lia.
Qed.

Lemma settle_spec refunds bail floor t :
  snap t -> initialGas t = m_Gas msg -> 0 <= gasRemaining t <= m_Gas msg -> 0 <= floor <= m_Gas msg ->
  0 <= gp_gas (gp t) -> gp_gas (gp t) + m_Gas msg < two64 ->
  wp tol (settle env msg refunds bail floor) t (fun _ t' => snap t' /\
    gasUsed t' = gas_bill refunds bail (gasRemaining t) (refund (ibs_of t)) floor /\
    gp_blobGas (gp t') = gp_blobGas (gp t) /\
    gp_gas (gp t') = gp_gas (gp t) + (if refunds && negb bail then m_Gas msg - gasUsed t' else 0)).
Proof.
  intros H Hi Hg Hf Hp Hb. pose proof (to_gas Htx) as Hm. pose proof (wj_refund _ (so_wfj _ (proj1 H))) as Hr. unfold is_u64 in *.
  assert (Hu : gasUsed t = m_Gas msg - gasRemaining t) by (unfold gasUsed; rewrite Hi, u64_id; unfold is_u64; lia).
  pose proof (gas_bill_bounds refunds bail (gasRemaining t) (refund (ibs_of t)) floor Hg ltac:(lia) Hf) as Hbill.
  assert (Hback : forall b, 0 <= b <= m_Gas msg -> u64 (m_Gas msg - u64 (m_Gas msg - b)) = b)
    by (intros; rewrite (u64_id (_ - b)), u64_id; unfold is_u64; lia).
  unfold settle. unfold gas_bill in *. rewrite <- Hu in *. destruct (refunds && negb bail).
  - set (q := if IsLondon _ then 5 else 2) in *.
    apply wp_bind, wp_gets. apply wp_bind. apply wp_onIbs, wp_gets. apply wp_bind, wp_modify.
    replace (if IsLondon (chainRules env) then RefundQuotientEIP3529 else RefundQuotient) with q by (unfold q; by destruct (IsLondon _)).
    assert (0 <= gasUsed t / q <= gasUsed t).
    { assert (1 < q) by (unfold q; by destruct (IsLondon _)). split; [apply Z.div_pos; lia|apply Z.div_le_upper_bound; nia]. }
    rewrite (u64_id (gasUsed t - _)) by (unfold is_u64; lia).
    set (bill := if IsPrague _ then _ else _) in *. cbn [initialGas with_evm with_gasRemaining]. rewrite Hi.
    unfold refundGas. apply wp_bind, wp_gets. eapply wp_stays.
    { apply stays_ibs; [exact H|]. apply credit_tracks; [apply (to_from Htx)|apply H]. }
    intros _ t1 (w & -> & S1). unfold wp, onPool, zoom, AddGas. cbn.
    rewrite (u64_id (m_Gas msg - bill)), (u64_id (MaxUint64 - _)) by (unfold is_u64, MaxUint64, two64 in *; lia).
    destruct (Z.ltb_spec (MaxUint64 - (m_Gas msg - bill)) (gp_gas (gp t))); [unfold MaxUint64, two64 in *; lia|].
    set (t' := with_gp _ _). assert (Hused : gasUsed t' = bill).
    { unfold gasUsed, t'. cbn. rewrite Hi, u64_id by (unfold is_u64; lia). lia. }
    split; [exact S1|]. rewrite Hused. split; [reflexivity|]. split; [reflexivity|].
    cbn. apply u64_id. unfold is_u64. lia.
  - destruct (IsPrague _).
    + apply wp_modify. split; [exact H|]. unfold gasUsed at 1. cbn. rewrite Hi. split; [|split; [reflexivity|lia]].
      apply Hback. lia.
    + apply wp_ret. split; [exact H|]. split; [reflexivity|]. split; [reflexivity|lia].
Qed.

(** The rate the block producer receives. *)
Definition priority_fee : Z :=
  if IsLondon (chainRules env) then
    match FeeCap msg, TipCap msg, BaseFee (Context env) with
    | Some fc, Some tc, Some bf => Z.max 0 (Z.min tc (fc - bf))
    | _, _, _ => 0
    end
  else m_GasPrice msg.

Lemma effective_tip_spec t : wp tol (effective_tip env msg) t (fun z t' => z = priority_fee /\ is_u256 z /\ t' = t).
Proof.
  unfold effective_tip, priority_fee. destruct (IsLondon (chainRules env)) eqn:El.
  2: { apply wp_ret. split; [reflexivity|]. split; [apply (to_price Htx)|reflexivity]. }
  destruct (to_london Htx El) as (fc & tc & bf & -> & -> & -> & Hfc & Htc & Hbf).
  apply wp_bind, wp_ret. apply wp_bind, wp_ret. unfold is_u256 in *.
  rewrite Gt_spec by assumption. destruct (Z.ltb_spec bf fc).
  - apply wp_bind, wp_ret, wp_ret. rewrite Sub_spec, Z.mod_small by (unfold is_u256; lia). rewrite Lt_spec by (unfold is_u256; lia).
    destruct (Z.ltb_spec tc (fc - bf)); (split; [lia|]; split; [lia|reflexivity]).
  - apply wp_ret. split; [lia|]. split; [unfold two256; lia|reflexivity].
Qed.

(** The fee burnt on [used] gas. *)
Definition burns (used : Z) (burnt : Z) (to_ : option Z) : Prop :=
  if negb (IsFree msg) && IsLondon (chainRules env) then
    chain.GetBurntContract chainConfig (BlockNumber (Context env)) = Val to_ /\
    match to_ with
    | Some _ => IsAura (chainRules env) && IsPrague (chainRules env) = false ->
        forall bf, BaseFee (Context env) = Some bf -> burnt = (used * bf) mod two256
    | None => burnt = 0
    end
  else burnt = 0 /\ to_ = None.

Lemma gasUsed_u64 t : is_u64 (gasUsed t).
Proof. apply u64_range. Qed.

Lemma pay_burnt_spec t : snap t -> wp tol (pay_burnt env chainConfig msg noFeeBurnAndTip) t (fun r t' =>
  moved t t' /\ burns (gasUsed t) r.1 r.2).
Proof.
  intros H. unfold pay_burnt, burns. destruct (negb (IsFree msg) && IsLondon (chainRules env)) eqn:El.
  2: { apply wp_ret. split; [by apply moved_refl|done]. }
  apply andb_prop in El as [_ El]. destruct (to_london Htx El) as (fc & tc & bf & _ & _ & Eb & _ & _ & Hbf).
  destruct (to_burnt Htx) as (b & Ec & Hb). apply wp_bind. eapply wp_lift; [exact Ec|]. rewrite Ec.
  destruct b as [a|]; [|apply wp_ret; split; [by apply moved_refl|done]].
  apply wp_bind, wp_gets. rewrite Eb. apply wp_bind, wp_ret. apply wp_bind, wp_gets. eapply wp_stays.
  { apply stays_if; [|by apply stays_ret]. apply stays_bind; [|by intros; apply stays_ret].
    apply stays_ibs; [exact H|]. apply credit_tracks; [congruence|apply H]. }
  intros _ t' M. apply wp_ret. split; [exact M|]. split; [reflexivity|]. intros -> ? [= <-].
  apply Mul_spec; [apply u64_u256, gasUsed_u64|assumption].
Qed.

(** The result: what is billed, tipped and burnt. *)
Definition billed (t : Txn) (ret : bytes) (vmerr : option Error) (res : ExecutionResult) : Prop :=
  ReturnData res = ret /\ res_Err res = vmerr /\ GasUsed res = gasUsed t /\ FeeTipped res = (gasUsed t * priority_fee) mod two256 /\
  exists to_, burns (gasUsed t) (FeeBurnt res) to_ /\ BurntContractAddress res = default 0 to_.

Lemma after_call_spec b1 b2 ret vmerr t : snap t ->
  wp tol (after_call env chainConfig PostApplyMessage msg noFeeBurnAndTip b1 b2 ret vmerr) t (fun r t' =>
    moved t t' /\ forall res, r = inr res -> billed t ret vmerr res).
Proof.
  intros H. unfold after_call. apply wp_bind. eapply wp_mono; [apply effective_tip_spec|]. intros tip t0 (-> & Ht & ->).
  apply wp_bind, wp_gets. rewrite Mul_spec by (assumption || apply u64_u256, gasUsed_u64).
  apply wp_err_stays; [|by split|].
  { apply stays_if; [|by apply stays_ok]. apply stays_failing_; [exact H|]. apply credit_tracks; [apply (to_coinbase Htx)|apply H]. }
  intros _ t1 M1. apply wp_bind. eapply wp_mono; [apply pay_burnt_spec, (moved_snap _ _ M1)|].
  intros [burnt to_] t2 [M2 Hb]. pose proof (moved_trans _ _ _ M1 M2) as M. apply wp_bind, wp_gets.
  assert (E1 : gasUsed t1 = gasUsed t) by (by destruct M1 as (? & -> & _)).
  assert (E2 : gasUsed t2 = gasUsed t) by (by destruct M as (? & -> & _)). rewrite E1 in Hb. rewrite E2.
  eapply wp_stays; [apply stays_ibs; [apply (moved_snap _ _ M)|split; [apply undoable_refl, (moved_snap _ _ M)|done]]|].
  intros rf t3 M3. set (res := mkResult _ _ _ _ _ _ _ _ _ _). pose proof (moved_trans _ _ _ M M3) as M'. eapply wp_stays.
  { destruct PostApplyMessage as [f|] eqn:Ef; [|apply stays_ret, (moved_snap _ _ M')]. apply wp_onIbs.
    eapply wp_mono; [apply (to_post Htx f); [exact Ef|apply (moved_snap _ _ M')]|]. intros ? s [Hs Ht0]. eexists. split; [reflexivity|].
    split; [exact Hs|]. cbn. rewrite Ht0. apply (moved_snap _ _ M'). }
  intros _ t4 M4. apply wp_ret. split; [by eapply moved_trans|]. intros ? [= <-]. do 4 (split; [reflexivity|]). by exists to_.
Qed.

(** Everything before the EVM is called: the initial balances, the checks, the purchase of
    gas and the intrinsic gas. *)
Definition prologue (gasBailout : bool) : M Txn (Error + (Z * Z * (Z * bool))) :=
  bind_err (failing (ibs_GetBalance (From msg))) (fun senderInitBalance =>
  bind_err (if negb noFeeBurnAndTip then failing (ibs_GetBalance (Coinbase (Context env))) else ok_ 0) (fun coinbaseInitBalance =>
  bind_err (preCheck env msg gasBailout) (fun _ =>
  bind_err (before_call env activePrecompiles msg gasBailout) (fun floor_bailout =>
  ok_ (senderInitBalance, coinbaseInitBalance, floor_bailout))))).

Lemma TransitionDb_split refunds gasBailout t :
  TransitionDb env chainConfig run PostApplyMessage activePrecompiles msg noFeeBurnAndTip refunds gasBailout t =
  bind_err (prologue gasBailout) (fun '(b1, b2, (floor, bailout)) =>
    '(ret, vmerr) ← execute_message env run msg bailout;
    _ ← settle env msg refunds gasBailout floor;
    after_call env chainConfig PostApplyMessage msg noFeeBurnAndTip b1 b2 ret vmerr) t.
Proof.
  unfold TransitionDb, prologue. cbv zeta. set (m1 := failing (ibs_GetBalance (From msg))).
  set (m2 := if negb noFeeBurnAndTip then _ else _).
  unfold bind_err, mbind, M_bind, ok_. destruct (m1 t) as [[[e|b1] t1]| |]; try reflexivity.
  destruct (m2 t1) as [[[e|b2] t2]| |]; try reflexivity.
  destruct (preCheck _ _ _ t2) as [[[e|[]] t3]| |]; try reflexivity.
  by destruct (before_call _ _ _ _ t3) as [[[e|[f b]] t4]| |].
Qed.

(** What is known of a transaction that was not rejected, run in the world [w]: the gas used
    is the bill for the gas the EVM left, and the refund counter, when it was called with the
    limit less the intrinsic gas in the world the prologue leads to. *)
Record accounted (refunds gasBailout : bool) (pool : GasPool) (w : World) (pool' : GasPool) (res : ExecutionResult) : Prop := mkAccounted {
  ac_evm : exists b1 b2 intrinsic floor bailout t left_ w',
    intrinsic_of = (intrinsic, floor, false) /\
    prologue gasBailout (NewStateTransition pool w) = Val (inr (b1, b2, (floor, bailout)), t) /\
    evm_returned bailout (m_Gas msg - intrinsic) (evm t) (ReturnData res) left_ (res_Err res) w' /\
    0 <= left_ <= m_Gas msg - intrinsic /\
    GasUsed res = gas_bill refunds gasBailout left_ (refund (statedb w')) floor /\
    (IsPrague (chainRules env) = true -> floor <= GasUsed res);
  ac_gas : 0 <= GasUsed res <= m_Gas msg /\ m_Gas msg <= gp_gas pool;
  ac_pool : gp_gas pool' = gp_gas pool - (if refunds && negb gasBailout then GasUsed res else m_Gas msg);
  ac_blobs : blob_bought (gp_blobGas pool) (gp_blobGas pool');
  ac_tip : FeeTipped res = (GasUsed res * priority_fee) mod two256;
  ac_burnt : exists to_, burns (GasUsed res) (FeeBurnt res) to_ /\ BurntContractAddress res = default 0 to_
}.

(** After the prologue the gas is bought and the intrinsic gas gone. *)
Definition ready_to_call (pool : GasPool) (r : Error + (Z * Z * (Z * bool))) (t : Txn) : Prop :=
  snap t /\ gp_gas (gp t) <= gp_gas pool /\ forall b1 b2 floor bail, r = inr (b1, b2, (floor, bail)) -> exists gas,
    intrinsic_of = (gas, floor, false) /\ 0 <= gas <= m_Gas msg /\ 0 <= floor <= m_Gas msg /\
    gasRemaining t = m_Gas msg - gas /\ initialGas t = m_Gas msg /\ m_Gas msg <= gp_gas pool /\
    gp_gas (gp t) = gp_gas pool - m_Gas msg /\ blob_bought (gp_blobGas pool) (gp_blobGas (gp t)).

Lemma prologue_spec pool w gasBailout : ibs_ok (statedb w) ->
  wp tol (prologue gasBailout) (NewStateTransition pool w) (ready_to_call pool).
Proof.
  intros H. unfold prologue. set (t0 := NewStateTransition pool w). assert (H0 : snap t0) by exact H.
  pose proof (to_gas Htx) as Hm. unfold is_u64 in *.
  apply wp_err_stays; [apply stays_failing; [exact H0|apply GetBalance_tracks, H0]| |].
  { intros e t' M. destruct (moved_shrinks _ _ M) as [S P]. split; [exact S|]. by split. }
  intros b1 t1 M1. apply wp_err_stays.
  { apply stays_if; [apply stays_failing; [|apply GetBalance_tracks]|apply stays_ok]; apply (moved_snap _ _ M1). }
  { intros e t' M. destruct (moved_shrinks _ _ (moved_trans _ _ _ M1 M)) as [S P]. split; [exact S|]. by split. }
  intros b2 t2 M2. pose proof (moved_trans _ _ _ M1 M2) as (w2 & E2 & S2). rewrite E2 in *. clear E2 M1 M2 t1 t2.
  apply wp_err. eapply wp_mono; [by apply preCheck_spec|]. intros [e|[]] t3 [[S3 P3] Hb].
  { split; [exact S3|]. split; [exact P3|done]. }
  destruct (Hb eq_refl) as (B1 & B2 & B3 & B4 & B5). cbn [gasRemaining gp with_evm t0 NewStateTransition] in *.
  rewrite Z.add_0_l, u64_id in B3 by exact Hm.
  apply wp_err. eapply wp_mono; [apply before_call_spec; [exact S3|rewrite B3; exact Hm]|].
  intros r t4 [(S4 & G4 & I4) Hpre]. destruct r as [e|[floor bail]].
  { split; [exact S4|]. rewrite G4. split; [lia|done]. }
  destruct (Hpre floor bail eq_refl) as (gas & Ei & Hgas & Hfl & R4). rewrite B3 in *.
  split; [exact S4|]. rewrite G4. split; [lia|]. intros ? ? ? ? [= <- <- <- <-]. exists gas.
  rewrite I4. repeat (split; [assumption|]). assumption.
Qed.

Lemma TransitionDb_spec pool w refunds gasBailout :
  ibs_ok (statedb w) -> is_u64 (gp_gas pool) ->
  wp tol (TransitionDb env chainConfig run PostApplyMessage activePrecompiles msg noFeeBurnAndTip refunds gasBailout)
    (NewStateTransition pool w) (fun r t' =>
  ibs_ok (statedb (evm t')) /\ gp_gas (gp t') <= gp_gas pool /\
  forall res, r = inr res -> accounted refunds gasBailout pool w (gp t') res).
Proof.
  intros H Hp. unfold wp. rewrite TransitionDb_split. pose proof (to_gas Htx) as Hm. unfold is_u64 in *.
  apply wp_err. eapply wp_mono; [by apply wp_run, prologue_spec|].
  intros [e|[[b1 b2] [floor bail]]] t4 (E4 & S4 & P4 & Hpre); [split; [exact S4|split; [exact P4|done]]|].
  destruct (Hpre _ _ _ _ eq_refl) as (gas & Ei & Hgas & Hfl & R4 & I4 & B1 & B2 & B5).
  apply wp_bind. eapply wp_mono; [apply execute_spec; [exact S4|lia]|]. intros [ret vmerr] t5 ((S5 & G5 & I5) & R5 & Hevm).
  apply wp_bind. eapply wp_mono; [apply settle_spec; [exact S5|congruence|lia|lia|rewrite G5; lia..]|].
  intros _ t6 (S6 & U6 & L6 & G6). eapply wp_mono; [by apply after_call_spec|].
  intros r t7 ((w7 & -> & S7) & Hres). split; [exact S7|]. cbn [gp with_evm].
  pose proof (proj1 (wj_refund _ (so_wfj _ (proj1 S5)))) as Hc.
  pose proof (gas_bill_bounds refunds gasBailout (gasRemaining t5) _ floor ltac:(lia) Hc Hfl) as Hbb.
  rewrite <- U6 in Hbb. rewrite G5, B2 in G6. split; [destruct (refunds && _); lia|].
  intros res Hr. destruct (Hres res Hr) as (Er & Ev & Eg & Et & Hburn). rewrite <- Eg in *.
  rewrite R4 in Hevm. split; try assumption.
  - exists b1, b2, gas, floor, bail, t4, (gasRemaining t5), (evm t5). rewrite Er, Ev.
    split; [exact Ei|]. split; [exact E4|]. split; [exact Hevm|]. split; [lia|]. split; [exact U6|].
    intros HP. rewrite U6. unfold gas_bill. rewrite HP. lia.
  - by split.
  - destruct (refunds && _); lia.
  - by rewrite L6, G5.
Qed.


End StateTransitionSpec.

(** ** A concrete call *)

(** A funded account, and a contract at address 100. *)
Definition funded_reader : StateReader := {|
  ReadAccountData a := (if a =? 9 then Some (mkAccount true 4 1000000000 empty_RootHash empty_CodeHash 0 0)
                        else if a =? 100 then Some (mkAccount true 1 50 5 77 1 0) else None, None);
  ReadAccountStorage a k := (7, (a =? 100) && (k =? 1), None);
  reader_HasStorage _ := (false, None);
  ReadAccountCode a := (if a =? 100 then Some [x60; x00] else None, None);
  ReadAccountCodeSize a := (if a =? 100 then 2 else 0, None)
|}.

#[local] Existing Instance funded_reader | 0.
#[local] Existing Instance ibs_db | 0.

Definition funded_env : Env :=
  mkEnv (mkBlockContext core_CanTransfer consensus_Transfer (fun _ => (0, None))
           7 30000000 false 100 1700000000 (Some 0) (Some 7) (Some 5) (Some 1))
    (mkTxContext 9 (Some 3) []) all_forks (mkConfig false false false false []) (fun _ => None) None (fun _ => false).
Definition funded_world : World := mkWorld false [] 0 0 New (mkJumpDestCache (∅ : gmap Z bitvec) 0 0) 0.

Lemma funded_transfers : transfers funded_env.
Proof. by split. Qed.

Definition transfer_msg : Message :=
  mkMessage 9 (Some 100) 10 (Some 10) (Some 3) 30000 0 (Some 0) 5 4 true [] [] [] false [].

(** An interpreter for the contract: it writes a slot of the callee, logs, earns a refund of
    300 and uses up to 500 gas. *)
Definition storing_run (c : Contract) (_ : bytes) (_ : bool) : M World (bytes * option Error * Contract) :=
  _ ← onDB (jop_run (JSetState (self c) 1 9));
  _ ← onDB (jop_run (JAddLog (mkLog (self c) [7] [x01] 100)));
  _ ← onDB (jop_run (JAddRefund 300));
  mret ([x2a], None, with_Gas c (Gas c - Z.min 500 (Gas c))).

Lemma storing_run_tracks tol : run_tracks tol storing_run.
Proof.
  intros c i ro w H Hg. unfold storing_run.
  do 3 (eapply wtracks_seq; [assumption|by apply wtracks_db, jop_run_tracks|]; intros _ ? ? _).
  apply wtracks_ret; [assumption|cbn; lia].
Qed.

Definition transfer_result :=
  TransitionDb (E := no_recovery) funded_env chain.AllProtocolChanges storing_run None [] transfer_msg
    false true false (NewStateTransition (mkGasPool 100000 0) funded_world).

Lemma transfer_msg_ok : tx_ok funded_env chain.AllProtocolChanges None transfer_msg.
Proof.
  split; try discriminate; try (split; (discriminate || reflexivity)).
  - intros _. exists 10, 3, 7. by repeat split.
  - by eexists.
  - by exists None.
  - constructor.
Qed.

