(* ===== verification/Receipts.v ===== *)
(** * Receipts and the log bloom

    [types.Receipt] ([execution/types/receipt.go]) and the bloom filter over its logs
    ([execution/types/bloom9.go]). The filter is read here as a 2048-bit number, most
    significant byte first: adding an item sets three bits of it, and [CreateBloom] sets
    those of every address and topic and no other. *)

From S2P Require Import Prelude Uint256 StateDB Machine.

Definition BloomByteLength : Z := 256.
Definition BloomBitLength : Z := 8 * BloomByteLength.

(** [Bloom]: an array of 256 bytes. *)
Abbreviation Bloom := bytes.
Definition zeroBloom : Bloom := replicate (Z.to_nat BloomByteLength) x00.

(** Less the fields filled in when receipts are read back. *)
Record Receipt : Type := mkReceipt {
  r_Type : Z; r_Status : Z; CumulativeGasUsed : Z; r_Bloom : Bloom; r_Logs : list Log;
  r_TxHash : Z; r_ContractAddress : Z; r_GasUsed : Z; r_BlockNumber : Z; TransactionIndex : Z
}.

Section Bloom.
Context {K : Keccak}.

(** [uint((binary.BigEndian.Uint16(hashbuf[k:])&0x7ff)>>3)] and [byte(1 << (hashbuf[k+1] & 0x7))]. *)
Definition bloom_pair (hashbuf : bytes) (k : nat) : Z * Z :=
  (BloomByteLength - Z.shiftr (Z.land (be_to_Z (take 2 (drop k hashbuf))) 0x7ff) 3 - 1,
   byteZ (Zbyte (Z.shiftl 1 (Z.land (byteZ (nth (k + 1) hashbuf x00)) 7)))).

Definition bloomValues (data : bytes) : list (Z * Z) :=
  let hashbuf := take 6 (Z_to_be 32 (keccak256 data)) in
  [bloom_pair hashbuf 0; bloom_pair hashbuf 2; bloom_pair hashbuf 4].

(** [b[i] |= v]. *)
Definition or_at (b : Bloom) (iv : Z * Z) : Res Bloom :=
  x ← go_index b iv.1;
  mret (<[Z.to_nat iv.1 := Zbyte (Z.lor (byteZ x) iv.2)]> b).

Fixpoint or_all (ivs : list (Z * Z)) (b : Bloom) : Res Bloom :=
  match ivs with [] => mret b | iv :: ivs => b ← or_at b iv; or_all ivs b end.

Definition bloom_add (d : bytes) (b : Bloom) : Res Bloom := or_all (bloomValues d) b.
Definition bloom_Add : bytes -> Bloom -> Res Bloom := bloom_add.

(** The conjunction of the source, left to right. *)
Fixpoint and_all (ivs : list (Z * Z)) (b : Bloom) : Res bool :=
  match ivs with
  | [] => mret true
  | (i, v) :: ivs => x ← go_index b i; if v =? Z.land v (byteZ x) then and_all ivs b else mret false
  end.
Definition bloom_Test (topic : bytes) (b : Bloom) : Res bool := and_all (bloomValues topic) b.
Definition BloomLookup (bin : Bloom) (topic : bytes) : Res bool := bloom_Test topic bin.

Definition bloom_SetBytes (d : bytes) (b : Bloom) : Res Bloom :=
  if zlen b <? zlen d then Panic "bloom bytes too big" else mret (splice b (BloomByteLength - zlen d) d).
Definition BytesToBloom (b : bytes) : Res Bloom := bloom_SetBytes b zeroBloom.
Definition bloom_Big (b : Bloom) : Z := be_to_Z b.

Fixpoint add_topics (topics : list Z) (b : Bloom) : Res Bloom :=
  match topics with [] => mret b | t :: topics => b ← bloom_add (Z_to_be 32 t) b; add_topics topics b end.
Fixpoint add_logs (logs : list Log) (b : Bloom) : Res Bloom :=
  match logs with
  | [] => mret b
  | l :: logs =>
      b ← bloom_add (Z_to_be 20 (log_Address l)) b;
      b ← add_topics (log_Topics l) b;
      add_logs logs b
  end.
Fixpoint add_receipts (receipts : list Receipt) (b : Bloom) : Res Bloom :=
  match receipts with [] => mret b | r :: rs => b ← add_logs (r_Logs r) b; add_receipts rs b end.
Definition CreateBloom (receipts : list Receipt) : Res Bloom := add_receipts receipts zeroBloom.

(** ** Bits of a big-endian number *)

Lemma be_to_Z_testbit l : forall n, 0 <= n ->
  Z.testbit (be_to_Z l) n =
  if n / 8 <? zlen l then Z.testbit (byteZ (nth (length l - 1 - Z.to_nat (n / 8)) l x00)) (n mod 8) else false.
Proof.
  induction l as [|b l IH] using rev_ind; intros n Hn.
  { change (be_to_Z []) with 0. rewrite Z.bits_0. pose proof (Z.div_pos n 8 Hn ltac:(lia)).
    destruct (Z.ltb_spec (n / 8) (zlen (A := byte) [])) as [Hl|]; [change (zlen []) with 0 in Hl; lia|reflexivity]. }
  rewrite be_to_Z_snoc, zlen_app, length_app. change (zlen [b]) with 1. change (length [b]) with 1%nat.
  pose proof (byteZ_range b) as Hb. pose proof (zlen_nonneg l). destruct (Z.lt_ge_cases n 8) as [Hs|Hs].
  - rewrite Z.div_small, Z.mod_small by lia. destruct (Z.ltb_spec 0 (zlen l + 1)); [|lia].
    rewrite <- (Z.mod_pow2_bits_low _ 8) by lia. change (2 ^ 8) with 256.
    rewrite Z.add_comm, Z.mod_add, Z.mod_small by lia. rewrite app_nth2 by lia.
    by replace (length l + 1 - 1 - Z.to_nat 0 - length l)%nat with 0%nat by lia.
  - replace n with (n - 8 + 8) at 1 by lia. rewrite <- Z.div_pow2_bits by lia. change (2 ^ 8) with 256.
    rewrite Z.add_comm, Z.div_add, (Z.div_small (byteZ b)), Z.add_0_l by lia. rewrite IH by lia.
    assert (Hq : n / 8 = (n - 8) / 8 + 1) by (rewrite <- Z.div_add by lia; f_equal; lia).
    assert (Hm : n mod 8 = (n - 8) mod 8) by (rewrite <- (Z.mod_add (n - 8) 1) by lia; f_equal; lia).
    pose proof (Z.div_pos (n - 8) 8 ltac:(lia) ltac:(lia)). rewrite Hq, Hm.
    destruct (Z.ltb_spec ((n - 8) / 8) (zlen l)), (Z.ltb_spec ((n - 8) / 8 + 1) (zlen l + 1)); try lia.
    rewrite app_nth1 by (unfold zlen in *; lia). do 3 f_equal. unfold zlen in *. lia.
Qed.

(** ** The filter as a number *)

(** The three bits of an item. *)
Definition bloom_bit (data : bytes) (k : nat) : Z := Z.land (be_to_Z (take 2 (drop k (take 6 (Z_to_be 32 (keccak256 data)))))) 0x7ff.
Definition bloom_mask (data : bytes) : Z :=
  Z.lor (2 ^ bloom_bit data 0) (Z.lor (2 ^ bloom_bit data 2) (2 ^ bloom_bit data 4)).

Lemma bloom_bit_range data k : 0 <= bloom_bit data k < 2048.
Proof.
  unfold bloom_bit. change 0x7ff with (Z.ones 11). rewrite Z.land_ones by lia. apply Z.mod_pos_bound. lia.
Qed.

(** The index and the value of a pair are the byte and the bit in it. *)
Lemma bloom_pair_spec data (k : nat) : (k + 2 <= 6)%nat ->
  let n := bloom_bit data k in
  bloom_pair (take 6 (Z_to_be 32 (keccak256 data))) k = (255 - n / 8, 2 ^ (n mod 8)).
Proof.
  intros Hk n. unfold bloom_pair. fold (bloom_bit data k). fold n. pose proof (bloom_bit_range data k) as Hn. fold n in Hn.
  rewrite Z.shiftr_div_pow2 by lia. change (2 ^ 3) with 8. f_equal; [unfold BloomByteLength; lia|].
  set (h := take 6 _) in *. assert (Hl : length h = 6%nat) by (unfold h; rewrite length_take, length_Z_to_be; lia).
  assert (Hb : Z.land (byteZ (nth (k + 1) h x00)) 7 = n mod 8).
  { unfold n, bloom_bit. fold h. change 7 with (Z.ones 3). rewrite Z.land_ones by lia. change (2 ^ 3) with 8.
    change 0x7ff with (Z.ones 11). rewrite Z.land_ones by lia.
    assert (E : exists a, take 2 (drop k h) = [a; nth (k + 1) h x00]).
    { destruct h as [|b0 [|b1 [|b2 [|b3 [|b4 [|b5 [|]]]]]]]; try discriminate.
      destruct k as [|[|[|[|[|]]]]]; try lia; by eexists. }
    destruct E as [a ->]. change [a; nth (k + 1) h x00] with ([a] ++ [nth (k + 1) h x00]). rewrite be_to_Z_snoc.
    change (2 ^ 11) with 2048. rewrite Z.mod_mod_divide by (by exists 256).
    replace (be_to_Z [a] * 256) with (be_to_Z [a] * 32 * 8) by lia. by rewrite Z.add_comm, Z.mod_add by lia. }
  rewrite Hb. pose proof (Z.mod_pos_bound n 8 ltac:(lia)). rewrite Z.shiftl_1_l, byteZ_Zbyte. apply Z.mod_small.
  split; [lia|]. change 256 with (2 ^ 8). apply Z.pow_lt_mono_r; lia.
Qed.

Lemma or_at_spec b n : zlen b = 256 -> 0 <= n < 2048 ->
  exists b', or_at b (255 - n / 8, 2 ^ (n mod 8)) = Val b' /\ zlen b' = 256 /\ be_to_Z b' = Z.lor (be_to_Z b) (2 ^ n).
Proof.
  intros Hb Hn. pose proof (Z.div_pos n 8 ltac:(lia) ltac:(lia)). pose proof (Z.div_lt_upper_bound n 8 256 ltac:(lia) ltac:(lia)).
  pose proof (Z.mod_pos_bound n 8 ltac:(lia)) as Hm. unfold or_at. cbn [fst snd].
  assert (Hlen : length b = 256%nat) by (unfold zlen in Hb; lia).
  destruct (lookup_lt_is_Some_2 b (Z.to_nat (255 - n / 8))) as [x Hx]; [lia|].
  unfold go_index. rewrite Hx. destruct (Z.leb_spec 0 (255 - n / 8)), (Z.ltb_spec (255 - n / 8) (zlen b)); try lia.
  cbn. eexists. split; [reflexivity|]. unfold zlen in *. rewrite length_insert. split; [exact Hb|].
  apply Z.bits_inj_iff'. intros m Hm0. rewrite Z.lor_spec, !be_to_Z_testbit by lia. unfold zlen. rewrite length_insert.
  rewrite Z.pow2_bits_eqb by lia. destruct (Z.ltb_spec (m / 8) (Z.of_nat (length b))) as [Hlt|Hge].
  2: { destruct (Z.eqb_spec n m) as [<-|]; [lia|reflexivity]. }
  pose proof (Z.div_pos m 8 Hm0 ltac:(lia)). rewrite !nth_lookup.
  destruct (decide (Z.to_nat (255 - n / 8) = (length b - 1 - Z.to_nat (m / 8))%nat)) as [E|E].
  - rewrite <- E. rewrite list_lookup_insert_eq, Hx by lia. cbn [default from_option id]. rewrite byteZ_Zbyte.
    pose proof (Z.mod_pos_bound m 8 ltac:(lia)). change 256 with (2 ^ 8). rewrite Z.mod_pow2_bits_low by lia.
    rewrite Z.lor_spec, Z.pow2_bits_eqb by lia. f_equal.
    pose proof (Z.div_mod n 8 ltac:(lia)). pose proof (Z.div_mod m 8 ltac:(lia)).
    destruct (Z.eqb_spec (n mod 8) (m mod 8)), (Z.eqb_spec n m); try reflexivity; [lia|congruence].
  - rewrite list_lookup_insert_ne by exact E. destruct (Z.eqb_spec n m) as [<-|]; [lia|]. by rewrite orb_false_r.
Qed.

Lemma bloom_add_spec d b : zlen b = 256 ->
  exists b', bloom_add d b = Val b' /\ zlen b' = 256 /\ be_to_Z b' = Z.lor (be_to_Z b) (bloom_mask d).
Proof.
  intros Hb. unfold bloom_add, bloomValues. rewrite !bloom_pair_spec by lia. cbn [or_all]. unfold mbind, Res_bind.
  destruct (or_at_spec b (bloom_bit d 0) Hb (bloom_bit_range d 0)) as (b1 & -> & H1 & E1).
  destruct (or_at_spec b1 (bloom_bit d 2) H1 (bloom_bit_range d 2)) as (b2 & -> & H2 & E2).
  destruct (or_at_spec b2 (bloom_bit d 4) H2 (bloom_bit_range d 4)) as (b3 & -> & H3 & E3).
  exists b3. split; [reflexivity|]. split; [exact H3|]. unfold bloom_mask. by rewrite E3, E2, E1, !Z.lor_assoc.
Qed.

(** The items of the logs, in the order they are added. *)
Definition log_items (l : Log) : list bytes := Z_to_be 20 (log_Address l) :: map (Z_to_be 32) (log_Topics l).
Definition receipt_items (receipts : list Receipt) : list bytes := flat_map (fun r => flat_map log_items (r_Logs r)) receipts.
Definition mask_all (items : list bytes) : Z := foldr (fun d z => Z.lor (bloom_mask d) z) 0 items.

Lemma mask_all_app l1 l2 : mask_all (l1 ++ l2) = Z.lor (mask_all l1) (mask_all l2).
Proof. induction l1 as [|d l1 IH]; [reflexivity|]. unfold mask_all in *. cbn [app foldr]. by rewrite IH, Z.lor_assoc. Qed.

(** [m] ors the bits of [items] into a filter. *)
Definition sets (m : Bloom -> Res Bloom) (items : list bytes) : Prop := forall b, zlen b = 256 ->
  exists b', m b = Val b' /\ zlen b' = 256 /\ be_to_Z b' = Z.lor (be_to_Z b) (mask_all items).

Lemma sets_nil : sets mret [].
Proof. intros b Hb. exists b. rewrite Z.lor_0_r. auto. Qed.
Lemma sets_item d : sets (bloom_add d) [d].
Proof. intros b Hb. unfold mask_all. cbn [foldr]. rewrite Z.lor_0_r. by apply bloom_add_spec. Qed.
Lemma sets_seq m k i1 i2 : sets m i1 -> sets k i2 -> sets (fun b => b ← m b; k b) (i1 ++ i2).
Proof.
  intros Hm Hk b Hb. destruct (Hm b Hb) as (b1 & E1 & L1 & V1). destruct (Hk b1 L1) as (b2 & E2 & L2 & V2).
  exists b2. rewrite E1, mask_all_app. split; [exact E2|]. split; [exact L2|]. by rewrite V2, V1, Z.lor_assoc.
Qed.

Lemma add_topics_sets ts : sets (add_topics ts) (map (Z_to_be 32) ts).
Proof. induction ts as [|t ts IH]; [exact sets_nil|]. exact (sets_seq _ _ [_] _ (sets_item _) IH). Qed.

Lemma add_logs_sets ls : sets (add_logs ls) (flat_map log_items ls).
Proof.
  induction ls as [|l ls IH]; [exact sets_nil|].
  apply (sets_seq _ _ [_] (_ ++ _) (sets_item _)). by apply sets_seq; [apply add_topics_sets|].
Qed.

Lemma add_receipts_sets rs : sets (add_receipts rs) (receipt_items rs).
Proof. induction rs as [|r rs IH]; [exact sets_nil|]. apply sets_seq; [apply add_logs_sets|exact IH]. Qed.

Lemma and_all_spec b ns : zlen b = 256 -> Forall (fun n => 0 <= n < 2048) ns ->
  and_all (map (fun n => (255 - n / 8, 2 ^ (n mod 8))) ns) b = Val (forallb (Z.testbit (be_to_Z b)) ns).
Proof.
  intros Hb. induction 1 as [|n ns Hn _ IH]; [reflexivity|]. cbn [map and_all forallb].
  pose proof (Z.div_pos n 8 ltac:(lia) ltac:(lia)). pose proof (Z.div_lt_upper_bound n 8 256 ltac:(lia) ltac:(lia)).
  pose proof (Z.mod_pos_bound n 8 ltac:(lia)) as Hm. assert (Hlen : length b = 256%nat) by (unfold zlen in Hb; lia).
  destruct (lookup_lt_is_Some_2 b (Z.to_nat (255 - n / 8))) as [x Hx]; [lia|].
  unfold go_index. rewrite Hx. destruct (Z.leb_spec 0 (255 - n / 8)), (Z.ltb_spec (255 - n / 8) (zlen b)); try lia.
  cbn [andb mbind Res_bind]. rewrite be_to_Z_testbit by lia. destruct (Z.ltb_spec (n / 8) (zlen b)); [|lia].
  rewrite nth_lookup. replace (length b - 1 - Z.to_nat (n / 8))%nat with (Z.to_nat (255 - n / 8)) by lia.
  rewrite Hx. cbn [default from_option id].
  assert (E : (2 ^ (n mod 8) =? Z.land (2 ^ (n mod 8)) (byteZ x)) = Z.testbit (byteZ x) (n mod 8)).
  { destruct (Z.testbit (byteZ x) (n mod 8)) eqn:Et.
    - apply Z.eqb_eq. apply Z.bits_inj_iff'. intros m Hm0. rewrite Z.land_spec, Z.pow2_bits_eqb by lia.
      destruct (Z.eqb_spec (n mod 8) m) as [<-|]; [by rewrite Et|reflexivity].
    - apply Z.eqb_neq. intros Hq. assert (Hf : Z.testbit (2 ^ (n mod 8)) (n mod 8) = true) by (apply Z.pow2_bits_true; lia).
      rewrite Hq, Z.land_spec, Et, andb_false_r in Hf. discriminate. }
  rewrite E. destruct (Z.testbit (byteZ x) (n mod 8)); [exact IH|reflexivity].
Qed.

Lemma bloom_Test_spec d b : zlen b = 256 ->
  bloom_Test d b = Val (forallb (Z.testbit (be_to_Z b)) [bloom_bit d 0; bloom_bit d 2; bloom_bit d 4]).
Proof.
  intros Hb. unfold bloom_Test, bloomValues. rewrite !bloom_pair_spec by lia.
  apply (and_all_spec b [bloom_bit d 0; bloom_bit d 2; bloom_bit d 4] Hb).
  repeat constructor; apply bloom_bit_range.
Qed.

Lemma mask_covers d items n : In d items -> n = bloom_bit d 0 \/ n = bloom_bit d 2 \/ n = bloom_bit d 4 ->
  Z.testbit (mask_all items) n = true.
Proof.
  intros Hin Hn. assert (0 <= n) by (destruct Hn as [->|[->| ->]]; apply bloom_bit_range).
  induction items as [|x items IH]; [destruct Hin|]. unfold mask_all in *. cbn [foldr]. rewrite Z.lor_spec.
  destruct Hin as [->|Hin]; [|by rewrite IH, orb_true_r]. unfold bloom_mask. rewrite !Z.lor_spec.
  destruct Hn as [->|[->| ->]]; rewrite Z.pow2_bits_true by apply bloom_bit_range; by rewrite ?orb_true_r.
Qed.

Lemma CreateBloom_val receipts : exists bin, CreateBloom receipts = Val bin.
Proof. destruct (add_receipts_sets receipts zeroBloom) as (b & E & _); [reflexivity|]. by exists b. Qed.

(** The log bloom: for any receipts [CreateBloom] returns a 256-byte filter that, read as
    a number, has exactly the bits of the addresses and topics of the logs set; hence every
    address and topic of a log tests positive, and the filter of a block is the union of
    the filters of its receipts. *)
Theorem CreateBloom_exact receipts :
  exists bin, CreateBloom receipts = Val bin /\ zlen bin = BloomByteLength /\
    bloom_Big bin = mask_all (receipt_items receipts) /\
    (forall r l d, In r receipts -> In l (r_Logs r) -> In d (log_items l) -> bloom_Test d bin = Val true) /\
    (forall rs1 rs2 b1 b2, receipts = rs1 ++ rs2 -> CreateBloom rs1 = Val b1 -> CreateBloom rs2 = Val b2 ->
       bloom_Big bin = Z.lor (bloom_Big b1) (bloom_Big b2)).
Proof.
  assert (Hgen : forall rs, exists b, CreateBloom rs = Val b /\ zlen b = 256 /\ be_to_Z b = mask_all (receipt_items rs)).
  { intros rs. destruct (add_receipts_sets rs zeroBloom) as (b & E & L & V); [reflexivity|]. exists b.
    unfold zeroBloom in V. rewrite be_to_Z_zeros, Z.lor_0_l in V. auto. }
  destruct (Hgen receipts) as (bin & E & L & V). exists bin. split; [exact E|]. split; [exact L|]. split; [exact V|]. split.
  - intros r l d Hr Hl Hd. rewrite bloom_Test_spec by exact L. f_equal. apply forallb_forall.
    assert (Hin : In d (receipt_items receipts)).
    { apply in_flat_map. exists r. split; [exact Hr|]. apply in_flat_map. by exists l. }
    intros n Hn. rewrite V. apply (mask_covers d _ n Hin). destruct Hn as [<-|[<-|[<-|[]]]]; auto.
  - intros rs1 rs2 b1 b2 -> E1 E2. destruct (Hgen rs1) as (c1 & F1 & _ & V1). destruct (Hgen rs2) as (c2 & F2 & _ & V2).
    assert (c1 = b1) by congruence. assert (c2 = b2) by congruence. subst c1 c2.
    unfold bloom_Big. rewrite V, V1, V2. unfold receipt_items. by rewrite flat_map_app, mask_all_app.
Qed.
End Bloom.
