(* ===== verification/BlockExec.v ===== *)
(** * Block execution

    [core/evm.go], [core/state_processor.go], [core/blockchain.go] and [core/skip_analysis.go],
    with the constructor and the reset of the EVM ([core/vm/evm.go]): the contexts of a block
    and of a transaction, one transaction applied with its receipt, system calls, and a
    block executed from its first transaction to its commitment.

    A transaction and a consensus engine are interfaces of the source, so records of
    operations here; the interpreter, the Merkle root of the receipts and the writer below
    the state are parameters. Tracing is not modelled. *)

From S2P Require Import Prelude Uint256 Params Errors AccessList StateDB Machine IntraBlockState TxState.
From S2P Require Import Authorization Precompiles ChainConfig FeeMarket TxGas Evm StateTransition Receipts.
Import params.

(** [types.Header], what execution reads of it. *)
Record BlockHeader : Type := mkBlockHeader {
  fields : Header; bh_Difficulty : option Z; bh_MixDigest : Z; bh_Coinbase : Z; bh_Hash : Z;
  bh_ReceiptHash : Z; bh_Bloom : Bloom
}.

(** ** Historical blocks whose jump destinations need no analysis *)

Definition analysisBlocks : list (string * list Z) :=
  [("mainnet", [5800596; 6426298; 6426432; 11079912; 13119520; 15081051]); ("bor-mainnet", [29447463])].

Fixpoint blocks_of (l : list (string * list Z)) (name : string) : option (list Z) :=
  match l with
  | [] => None
  | (n, b) :: l => if bool_decide (n = name) then Some b else blocks_of l name
  end.

Definition core_SkipAnalysis (chainName : string) (blockNumber : Z) : bool :=
  match blocks_of analysisBlocks chainName with
  | None => false
  | Some blockNums =>
      let p := sort_Search (zlen blockNums) (fun i => blockNumber <=? nth (Z.to_nat i) blockNums 0) in
      if p =? zlen blockNums then false else negb (blockNumber =? nth (Z.to_nat p) blockNums 0)
  end.

Section BlockExec.
Context {U : Uint256} {K : Keccak} {E : Secp256k1} {C : Crypto} {R : StateReader} {L : LRU}.
#[local] Existing Instance ibs_db | 0.

(** [vm.Config] with the flags that steer its callers. *)
Record VmConfig : Type := mkVmConfig {
  vm_Config : Config; StatelessExec : bool; NoReceipts : bool; vm_ReadOnly : bool
}.
Definition with_SkipAnalysis (c : Config) (b : bool) : Config :=
  mkConfig (NoRecursion c) b (RestoreState c) (NoBaseFee c) (ExtraEips c).
Definition with_RestoreState (c : Config) (b : bool) : Config :=
  mkConfig (NoRecursion c) (SkipAnalysis c) b (NoBaseFee c) (ExtraEips c).

Definition syscall_t : Type := Z -> bytes -> M IntraBlockState (bytes * option Error).
Definition post_t : Type := Z -> Z -> ExecutionResult -> M IntraBlockState unit.

(** [consensus.EngineReader], the methods execution calls. *)
Record EngineReader : Type := mkEngineReader {
  Author : BlockHeader -> Z * option Error;
  GetTransferFunc : Z -> Z -> Z -> bool -> M IntraBlockState (option Error);
  GetPostApplyMessageFunc : option post_t;
  IsServiceTransaction : Z -> syscall_t -> M IntraBlockState bool
}.

(** ** Contexts *)

Definition nilPointer : string := "invalid memory address or nil pointer dereference".

Definition NewEVMBlockContext (header : BlockHeader) (blockHashFunc : Z -> Z * option Error)
    (engine : option EngineReader) (author : option Z) (config : chain.Config)
    : Res (BlockContext * option post_t) :=
  beneficiary ← (match author, engine with
                 | Some a, _ => mret a
                 | None, Some e => mret (Author e header).1
                 | None, None => Panic nilPointer
                 end);
  baseFee ← (match h_BaseFee (fields header) with
             | Some b => if two256 <=? b then Panic "header.BaseFee higher than 2^256-1" else mret b
             | None => mret 0
             end);
  let prevRandDao := match bh_Difficulty header with
                     | Some d => if d =? 0 then Some (bh_MixDigest header) else None
                     | None => None
                     end in
  blobBaseFee ← (match h_ExcessBlobGas (fields header) with
                 | Some x =>
                     '(price, err) ← GetBlobGasPrice config x (h_Time (fields header));
                     match err with Some _ => Panic "FakeExponential: overflow" | None => mret (Some price) end
                 | None => mret None
                 end);
  let '(transferFunc, postApplyMessageFunc) :=
    match engine with
    | Some e => (GetTransferFunc e, GetPostApplyMessageFunc e)
    | None => (consensus_Transfer, None)
    end in
  mret (mkBlockContext core_CanTransfer transferFunc blockHashFunc beneficiary (h_GasLimit (fields header)) false
          (Number (fields header)) (h_Time (fields header)) (bh_Difficulty header) (Some baseFee) prevRandDao blobBaseFee,
        postApplyMessageFunc).

Definition NewEVMTxContext (msg : Message) : TxContext := mkTxContext (From msg) (Some (m_GasPrice msg)) (m_BlobHashes msg).

(** [evmtypes.TxContext{}]. *)
Definition zeroTxContext : TxContext := mkTxContext 0 None [].

Definition with_BaseFee (b : BlockContext) (f : option Z) : BlockContext :=
  mkBlockContext (CanTransfer b) (Transfer b) (GetHash b) (Coinbase b) (GasLimit b) (MaxGasLimit b)
    (BlockNumber b) (Time b) (Difficulty b) f (PrevRanDao b) (BlobBaseFee b).
Definition with_Coinbase (b : BlockContext) (a : Z) : BlockContext :=
  mkBlockContext (CanTransfer b) (Transfer b) (GetHash b) a (GasLimit b) (MaxGasLimit b)
    (BlockNumber b) (Time b) (Difficulty b) (BaseFee b) (PrevRanDao b) (BlobBaseFee b).

(** [little] is the byte order of the platform, [abort n] whether the machine was cancelled
    at the [n]-th look, [jumpDests0] the cache of jump destinations. *)
Context (little : bool) (abort : nat -> bool) (jumpDests0 : JumpDestCache).

Definition NewEVM (blockCtx : BlockContext) (txCtx : TxContext) (chainConfig : chain.Config) (vmConfig : Config) : Res Env :=
  blockCtx ← (if NoBaseFee vmConfig then
                price ← nonnil (GasPrice txCtx);
                mret (if u_IsZero price then with_BaseFee blockCtx (Some 0) else blockCtx)
              else mret blockCtx);
  let rules := chain.BlockContext_Rules (BlockNumber blockCtx) (Time blockCtx) chainConfig in
  mret (mkEnv blockCtx txCtx rules vmConfig (Precompiles little rules)
          (match chain.Bor chainConfig with Some b => Some (chain.isForked (AhmedabadBlock b)) | None => None end) abort).

(** [Reset]: the next transaction. *)
Definition evm_Reset (env : Env) (txCtx : TxContext) : Env :=
  mkEnv (Context env) txCtx (chainRules env) (config env) (precompiles env) (borIsAhmedabad env) (abortLoad env).

(** The machine at rest, over a state. *)
Definition newWorld (s : IntraBlockState) : World := mkWorld false [] 0 0 s jumpDests0 0.

(** Run the machine on the state. *)
Definition in_world {A} (m : M World A) : M IntraBlockState A := zoom newWorld (fun w _ => statedb w) m.

(** The interpreter of a machine. *)
Context (interp : Env -> Contract -> bytes -> bool -> M World (bytes * option Error * Contract)).

(** ** System calls *)

Definition SysCallGasLimit : Z := 30000000.

(** [types.NewMessage]: absent prices are zero. *)
Definition NewMessage (from : Z) (to_ : option Z) (nonce amount gasLimit : Z) (gasPrice feeCap tipCap : option Z)
    (data : bytes) (accessList : list AccessTuple) (checkNonce isFree : bool) (maxFeePerBlobGas : option Z) : Message :=
  mkMessage from to_ (default 0 gasPrice) (Some (default 0 feeCap)) (Some (default 0 tipCap)) gasLimit 0
    (Some (default 0 maxFeePerBlobGas)) amount nonce checkNonce data accessList [] isFree [].

Definition SysCallContractWithBlockContext (contract : Z) (data : bytes) (chainConfig : chain.Config)
    (blockContext : BlockContext) (constCall : bool) (vmCfg : Config) : M IntraBlockState (bytes * option Error) :=
  let isBor := match chain.Bor chainConfig with Some _ => true | None => false end in
  let msg := NewMessage SystemAddress (Some contract) 0 0 SysCallGasLimit (Some 0) None None data [] false true None in
  let vmConfig := with_RestoreState vmCfg constCall in
  let txContext := if isBor then zeroTxContext else NewEVMTxContext msg in
  env ← lift (NewEVM blockContext txContext chainConfig vmConfig);
  '(ret, _, err) ← in_world (Call env (interp env) (AccountRef (From msg)) contract (Data msg) (m_Gas msg) (m_Value msg) false);
  match err with
  | Some _ => if isBor then mret ([], None) else mret (ret, err)
  | None => mret (ret, err)
  end.

Definition SysCallContract (contract : Z) (data : bytes) (chainConfig : chain.Config) (header : BlockHeader)
    (blockHashFunc : Z -> Z * option Error) (engine : option EngineReader) (constCall : bool) (vmCfg : Config)
    : M IntraBlockState (bytes * option Error) :=
  let author := match chain.Bor chainConfig with Some _ => bh_Coinbase header | None => SystemAddress end in
  '(blockContext, _) ← lift (NewEVMBlockContext header blockHashFunc engine (Some author) chainConfig);
  SysCallContractWithBlockContext contract data chainConfig blockContext constCall vmCfg.

Definition core_SysCreate (contract : Z) (data : bytes) (chainConfig : chain.Config) (header : BlockHeader)
    (blockHashFunc : Z -> Z * option Error) : M IntraBlockState (bytes * option Error) :=
  let msg := NewMessage contract None 0 0 SysCallGasLimit (Some 0) None None data [] false true None in
  '(blockContext, _) ← lift (NewEVMBlockContext header blockHashFunc None (Some contract) chainConfig);
  env ← lift (NewEVM blockContext (NewEVMTxContext msg) chainConfig (mkConfig false false false false []));
  '(ret, _, err) ← in_world (SysCreate env (interp env) (AccountRef (From msg)) (Data msg) (m_Gas msg) (m_Value msg) contract);
  mret (ret, err).

(** ** Messages *)

Definition with_IsFree (m : Message) (b : bool) : Message :=
  mkMessage (From m) (To m) (m_GasPrice m) (FeeCap m) (TipCap m) (m_Gas m) (BlobGas m) (MaxFeePerBlobGas m)
    (m_Value m) (m_Nonce m) (CheckNonce m) (Data m) (m_AccessList m) (Authorizations m) b (m_BlobHashes m).
Definition with_CheckNonce (m : Message) (b : bool) : Message :=
  mkMessage (From m) (To m) (m_GasPrice m) (FeeCap m) (TipCap m) (m_Gas m) (BlobGas m) (MaxFeePerBlobGas m)
    (m_Value m) (m_Nonce m) b (Data m) (m_AccessList m) (Authorizations m) (IsFree m) (m_BlobHashes m).

Section Messages.
Context (env : Env) (post : option post_t) (chainConfig : chain.Config) (engine : option EngineReader).

(** Only zero-gas transactions may be service ones. *)
Definition service_check (msg : Message) : M Txn Message :=
  feeCap ← deref_ (FeeCap msg);
  match engine with
  | Some e =>
      if u_IsZero feeCap && negb (IsFree msg) then
        free ← onIbs (IsServiceTransaction e (From msg) (fun contract data =>
                 SysCallContractWithBlockContext contract data chainConfig (with_Coinbase (Context env) SystemAddress)
                   true (config env)));
        mret (with_IsFree msg free)
      else mret msg
  | None => mret msg
  end.

Definition applyMessage (msg : Message) (refunds gasBailout noFeeBurnAndTip : bool) : M Txn (Error + ExecutionResult) :=
  msg ← service_check msg;
  TransitionDb env chainConfig (interp env) post (ActivePrecompiles (chainRules env)) msg noFeeBurnAndTip refunds gasBailout.

Definition ApplyMessage (msg : Message) (refunds gasBailout : bool) := applyMessage msg refunds gasBailout false.
Definition ApplyMessageNoFeeBurnOrTip (msg : Message) (refunds gasBailout : bool) := applyMessage msg refunds gasBailout true.
End Messages.

(** ** Transactions *)

(** [types.Transaction], the methods execution calls; [AsMessage] takes the number and the
    time the signer is made for. *)
Record Transaction : Type := mkTransaction {
  AsMessage : Z -> Z -> option Z -> Rules -> Error + Message;
  t_Type : Z; t_Hash : Z; GetBlobGas : Z; t_GetNonce : Z
}.

Context {W : StateWriter} (order : nat -> list Z -> list Z).

(** The variables a block's transactions share. *)
Record Blk : Type := mkBlk {
  b_gp : GasPool; b_gasUsed : Z; b_usedBlobGas : Z; b_ibs : IntraBlockState; b_writer : writer
}.
Definition with_ibs (b : Blk) s := mkBlk (b_gp b) (b_gasUsed b) (b_usedBlobGas b) s (b_writer b).

Definition on_ibs {A} (m : M IntraBlockState A) : M Blk A := zoom b_ibs (fun s b => with_ibs b s) m.
Definition on_written {A} (m : M (IntraBlockState * writer) A) : M Blk A :=
  zoom (fun b => (b_ibs b, b_writer b)) (fun p b => mkBlk (b_gp b) (b_gasUsed b) (b_usedBlobGas b) p.1 p.2) m.
(** A state transition on the block's pool and state. *)
Definition on_txn {A} (m : M Txn A) : M Blk A :=
  zoom (fun b => NewStateTransition (b_gp b) (newWorld (b_ibs b)))
    (fun t b => mkBlk (gp t) (b_gasUsed b) (b_usedBlobGas b) (statedb (evm t)) (b_writer b)) m.

Definition ReceiptStatusFailed : Z := 0.
Definition ReceiptStatusSuccessful : Z := 1.

Definition stamp (blockNumber : Z) (l : Log) : Log := mkLog (log_Address l) (log_Topics l) (log_Data l) blockNumber.

(** [GetLogs]: the logs of a transaction are stamped in place. *)
Definition GetLogs (txIndex blockNumber : Z) : M IntraBlockState (list Log) := fun s =>
  if zlen (logs s) <=? txIndex then Val ([], s)
  else
    match go_index (logs s) txIndex with
    | Val l => Val (map (stamp blockNumber) l, with_logs s (<[Z.to_nat txIndex := map (stamp blockNumber) l]> (logs s)) (logSize s))
    | Panic e => Panic e
    | OutOfFuel => OutOfFuel
    end.

Section Transactions.
Context (chainConfig : chain.Config) (engine : option EngineReader) (header : BlockHeader) (cfg : VmConfig).

(** The receipt of an applied transaction. *)
Definition make_receipt (txn : Transaction) (msg : Message) (result : ExecutionResult) : M Blk Receipt :=
  let blockNum := Number (fields header) in
  cumulative ← gets b_gasUsed;
  contractAddress ← (match To msg with
                     | None => lift (CreateAddress (From msg) (t_GetNonce txn))
                     | Some _ => mret 0
                     end);
  ti ← gets (fun b => txIndex (b_ibs b));
  ls ← on_ibs (GetLogs ti blockNum);
  let status := match res_Err result with Some _ => ReceiptStatusFailed | None => ReceiptStatusSuccessful end in
  let receipt bloom := mkReceipt (t_Type txn) status cumulative bloom ls (t_Hash txn) contractAddress (GasUsed result) blockNum ti in
  bloom ← lift (CreateBloom [receipt zeroBloom]);
  mret (receipt bloom).

Definition applyTransaction (env : Env) (post : option post_t) (txn : Transaction)
    : M Blk (Error + (option Receipt * bytes)) :=
  let rules := chainRules env in
  match AsMessage txn (Number (fields header)) (h_Time (fields header)) (h_BaseFee (fields header)) rules with
  | inl err => mret (inl err)
  | inr msg =>
      let msg := with_CheckNonce msg (negb (StatelessExec cfg)) in
      let env := evm_Reset env (NewEVMTxContext msg) in
      r ← on_txn (ApplyMessage env post chainConfig engine msg true false);
      match r with
      | inl err => mret (inl err)
      | inr result =>
          err ← on_written (FinalizeTx order rules);
          match err with
          | Some e => mret (inl e)
          | None =>
              _ ← modify (fun b => mkBlk (b_gp b) (u64 (b_gasUsed b + GasUsed result)) (u64 (b_usedBlobGas b + GetBlobGas txn))
                                     (b_ibs b) (b_writer b));
              receipt ← (if negb (NoReceipts cfg) then r ← make_receipt txn msg result; mret (Some r) else mret None);
              mret (inr (receipt, ReturnData result))
          end
      end
  end.

Context (chainName : string) (blockHashFunc : Z -> Z * option Error).

Definition CreateEVM (author : option Z) (vmCfg : Config) : Res (Env * option post_t) :=
  let vmCfg := with_SkipAnalysis vmCfg (core_SkipAnalysis chainName (Number (fields header))) in
  '(blockContext, post) ← NewEVMBlockContext header blockHashFunc engine author chainConfig;
  env ← NewEVM blockContext zeroTxContext chainConfig vmCfg;
  mret (env, post).

Definition ApplyTransaction (author : option Z) (txn : Transaction) : M Blk (Error + (option Receipt * bytes)) :=
  '(env, post) ← lift (CreateEVM author (vm_Config cfg));
  applyTransaction env post txn.

Definition ApplyTransactionWithEVM (txn : Transaction) (env : Env) (post : option post_t) : M Blk (Error + (option Receipt * bytes)) :=
  applyTransaction env post txn.

(** ** A block *)

(** [consensus.Engine], the methods that frame the transactions. *)
Record Engine : Type := mkEngine {
  engine_Initialize : (bool -> syscall_t) -> M IntraBlockState unit;
  engine_FinalizeAndAssemble : list Receipt -> syscall_t -> M IntraBlockState (Error + Z)
}.
Context (frame_ : Engine) (DeriveSha : list Receipt -> Z).

(** [GetHashFn(header, nil)]. *)
Context (refHashFunc : Z -> Z * option Error).

Definition errBlock : Error := NewError "could not apply txn".

(** The loop over the transactions: the receipts, and the indices of the rejected ones. *)
Fixpoint transactions_loop (i : Z) (txns : list Transaction) : M Blk (Error + (list Receipt * list Z)) :=
  match txns with
  | [] => mret (inr ([], []))
  | txn :: txns =>
      _ ← on_ibs (modify (SetTxContext i));
      r ← ApplyTransaction None txn;
      match r with
      | inl err =>
          if negb (StatelessExec cfg) then mret (inl (ErrorfWW errBlock err))
          else
            rest ← transactions_loop (i + 1) txns;
            match rest with
            | inl e => mret (inl e)
            | inr (receipts, rejected) => mret (inr (receipts, i :: rejected))
            end
      | inr (receipt, _) =>
          rest ← transactions_loop (i + 1) txns;
          match rest with
          | inl e => mret (inl e)
          | inr (receipts, rejected) =>
              mret (inr (match receipt with
                         | Some r => if negb (NoReceipts cfg) then r :: receipts else receipts
                         | None => receipts
                         end, rejected))
          end
      end
  end.

Definition errGasUsed : Error := NewError "gas used by execution, in header".
Definition errBlobGasUsed : Error := NewError "blob gas used by execution, in header".
Definition errReceipts : Error := NewError "mismatched receipt headers".
Definition errBloom : Error := NewError "bloom computed by execution, in header".

Definition syscall_of (constCall : bool) : syscall_t := fun contract data =>
  SysCallContract contract data chainConfig header refHashFunc engine constCall (mkConfig false false false false []).

Definition InitializeBlockExecution : M Blk (option Error) :=
  _ ← on_ibs (engine_Initialize frame_ syscall_of);
  '(blockContext, _) ← lift (NewEVMBlockContext header refHashFunc engine None chainConfig);
  _ ← on_written (FinalizeTx order (chain.BlockContext_Rules (BlockNumber blockContext) (Time blockContext) chainConfig));
  mret None.

Definition FinalizeBlockExecution (receipts : list Receipt) : M Blk (Error + Z) :=
  r ← on_ibs (engine_FinalizeAndAssemble frame_ receipts (syscall_of false));
  match r with
  | inl e => mret (inl e)
  | inr root =>
      '(blockContext, _) ← lift (NewEVMBlockContext header refHashFunc engine None chainConfig);
      err ← on_written (CommitBlock order (chain.BlockContext_Rules (BlockNumber blockContext) (Time blockContext) chainConfig));
      match err with Some e => mret (inl (ErrorfWW (NewError "committing block failed") e)) | None => mret (inr root) end
  end.

(** The result, less the transaction root, the hash of the logs, the difficulty and the
    state-sync receipt of Bor. *)
Record EphemeralExecResult : Type := mkEphemeral {
  StateRoot : Z; ReceiptRoot : Z; er_Bloom : Bloom; er_Receipts : list Receipt; Rejected : list Z; er_GasUsed : Z
}.

(** The checks against the header, in their order, once the transactions are applied. *)
Definition check_header (receipts : list Receipt) : M Blk (Error + Bloom) :=
  let h := fields header in
  gasUsed ← gets b_gasUsed;
  usedBlobGas ← gets b_usedBlobGas;
  if negb (StatelessExec cfg) && chain.IsByzantium chainConfig (Number h) && negb (NoReceipts cfg) &&
     negb (DeriveSha receipts =? bh_ReceiptHash header)
  then mret (inl errReceipts)
  else if negb (StatelessExec cfg) && negb (gasUsed =? h_GasUsed h) then mret (inl errGasUsed)
  else if match h_BlobGasUsed h with Some b => negb (usedBlobGas =? b) | None => false end then mret (inl errBlobGasUsed)
  else if negb (NoReceipts cfg) then
    bloom ← lift (CreateBloom receipts);
    if negb (StatelessExec cfg) && negb (bool_decide (bloom = bh_Bloom header)) then mret (inl errBloom) else mret (inr bloom)
  else mret (inr zeroBloom).

Definition execute_block (txns : list Transaction) : M Blk (Error + EphemeralExecResult) :=
  _ ← InitializeBlockExecution;
  r ← transactions_loop 0 txns;
  match r with
  | inl e => mret (inl e)
  | inr (receipts, rejected) =>
      b ← check_header receipts;
      match b with
      | inl e => mret (inl e)
      | inr bloom =>
          if vm_ReadOnly cfg then gopanic nilPointer
          else
            root ← FinalizeBlockExecution receipts;
            match root with
            | inl e => mret (inl e)
            | inr root =>
                gasUsed ← gets b_gasUsed;
                mret (inr (mkEphemeral root (DeriveSha receipts) bloom receipts rejected gasUsed))
            end
      end
  end.

(** The pool of a block is its gas limit and the blob limit of its time. *)
Definition ExecuteBlockEphemerally (txns : list Transaction) (w : writer) : Res (Error + EphemeralExecResult) :=
  maxBlobGas ← chain.GetMaxBlobGasPerBlock chainConfig (h_Time (fields header));
  '(_, gp) ← (_ ← AddGas (h_GasLimit (fields header)); AddBlobGas maxBlobGas) (mkGasPool 0 0);
  '(r, _) ← execute_block txns (mkBlk gp 0 0 New w);
  mret r.

Definition with_Bloom (r : Receipt) (b : Bloom) : Receipt :=
  mkReceipt (r_Type r) (r_Status r) (CumulativeGasUsed r) b (r_Logs r) (r_TxHash r) (r_ContractAddress r) (r_GasUsed r)
    (r_BlockNumber r) (TransactionIndex r).

(** [for _, r := range receipts { r.Bloom = types.CreateBloom(types.Receipts{r}) }]. *)
Fixpoint set_blooms (receipts : list Receipt) : Res (list Receipt) :=
  match receipts with
  | [] => mret []
  | r :: rs => b ← CreateBloom [r]; rs ← set_blooms rs; mret (with_Bloom r b :: rs)
  end.

(** The error, and the receipt hash the header has afterwards: a block being mined gets its
    own. [skip] is the environment's switch. *)
Definition BlockPostValidation (skip : bool) (gasUsed blobGasUsed : Z) (checkReceipts : bool) (receipts : list Receipt)
    (isMining : bool) : Res (option Error * Z) :=
  let h := fields header in
  let unchanged := bh_ReceiptHash header in
  if negb (gasUsed =? h_GasUsed h) then mret (Some errGasUsed, unchanged)
  else if match h_BlobGasUsed h with Some b => negb (blobGasUsed =? b) | None => false end then mret (Some errBlobGasUsed, unchanged)
  else if checkReceipts && negb skip then
    receipts ← set_blooms receipts;
    let receiptHash := DeriveSha receipts in
    if negb (receiptHash =? bh_ReceiptHash header) then
      if isMining then mret (None, receiptHash) else mret (Some errReceipts, unchanged)
    else
      lbloom ← CreateBloom receipts;
      mret (if negb (bool_decide (lbloom = bh_Bloom header)) then Some errBloom else None, unchanged)
  else mret (None, unchanged).
End Transactions.
End BlockExec.
