(* ===== verification/BlockExecSpec.v ===== *)
(** * Blocks add up

    For the block execution of [BlockExec]: finalising a transaction keeps the invariant of
    the journal, and a block that is accepted has a receipt per transaction whose gas adds
    up to the gas of the header, within the block's limits. *)

From S2P Require Import Prelude Uint256 Params Errors Common AccessList StateDB Machine Instances.
From S2P Require Import Authorization IntraBlockState TxState ChainConfig FeeMarket TxGas Precompiles PrecompilesSpec Evm.
From S2P Require Import JournalSpec SnapshotSpec RevertSafe EvmSpec StateTransition StateTransitionSpec Receipts BlockExec.
Import params.

(** ** After a transaction *)

Section Finalize.
Context {U : Uint256} {K : Keccak} {R : StateReader} {W : StateWriter}.
Context (order : nat -> list Z -> list Z) (Horder : forall k l, order k l ≡ₚ l).
Context (Hwriter : forall x s, wp False (write_ x) s (fun _ _ => True)).
Context (ti : Z).

Abbreviation SW := (IntraBlockState * writer)%type.

(** [m] returns, keeps the invariant, and no live object disappears. *)
Definition fin {A} (m : M SW A) (p : SW) : Prop := wp False m p (fun _ p' =>
  ibs_ok ti p'.1 /\ forall b, is_Some (stateObjects p.1 !! b) -> is_Some (stateObjects p'.1 !! b)).

Lemma fin_ret {A} (a : A) (p : SW) : ibs_ok ti p.1 -> fin (mret a) p.
Proof. intros H. apply wp_ret. by split. Qed.

Lemma fin_bind {A B} (m : M SW A) (k : A -> M SW B) p :
  fin m p -> (forall a p', ibs_ok ti p'.1 -> (forall b, is_Some (stateObjects p.1 !! b) -> is_Some (stateObjects p'.1 !! b)) -> fin (k a) p') ->
  fin (m ≫= k) p.
Proof.
  intros Hm Hk. apply wp_bind. eapply wp_mono; [exact Hm|]. intros a p' [H P].
  eapply wp_mono; [exact (Hk a p' H P)|]. intros b p'' [H' P']. split; [exact H'|]. auto.
Qed.

Lemma fin_try (m k : M SW (option Error)) p :
  fin m p -> (forall p', ibs_ok ti p'.1 -> (forall b, is_Some (stateObjects p.1 !! b) -> is_Some (stateObjects p'.1 !! b)) -> fin k p') ->
  fin (try_ m k) p.
Proof. intros Hm Hk. apply fin_bind; [exact Hm|]. intros [e|] p' H P; [by apply fin_ret|auto]. Qed.

Lemma fin_write x p : ibs_ok ti p.1 -> fin (onWriter (write_ x)) p.
Proof. intros H. apply wp_zoom. eapply wp_mono; [apply Hwriter|]. intros a s _. by split. Qed.

Lemma fin_gets {A} (f : IntraBlockState -> A) p : ibs_ok ti p.1 -> fin (onState (gets f)) p.
Proof. intros H. apply wp_zoom, wp_gets. by split. Qed.

Lemma fin_upd a g p : keeps g -> ibs_ok ti p.1 -> fin (onState (upd_object a g)) p.
Proof.
  intros Hg [[[Hi Hn Ho Ht Hl Hr] Hd Hid Hnx] Htx]. apply wp_zoom. unfold upd_object. apply wp_modify. cbn. split.
  - split; [|exact Htx]. split; [|assumption..]. split; try assumption. intros b o. cbn.
    destruct (decide (a = b)) as [<-|Hb]; [|rewrite lookup_alter_ne by assumption; apply Ho].
    rewrite lookup_alter_eq. destruct (stateObjects p.1 !! a) as [o0|] eqn:E; [|discriminate]. intros [= <-].
    destruct (Ho a o0 E) as [H1 H2], (Hg o0) as [K1 K2]. split; [congruence|auto].
  - intros b [o Eb]. destruct (decide (a = b)) as [<-|Hb]; [rewrite lookup_alter_eq, Eb; by eexists|].
    rewrite lookup_alter_ne by assumption. by eexists.
Qed.

Lemma keeps_deleted b : keeps (fun o => so_with_deleted o b).
Proof. by split. Qed.
Lemma keeps_flags : keeps (fun o => so_with_flags o (selfdestructed o) false (createdContract o)).
Proof. by split. Qed.
Lemma keeps_origin k v : keeps (fun o => so_with_origin o (<[k := v]> (originStorage o)) (blockOriginStorage o)).
Proof. by split. Qed.

Lemma fin_storage a keys : forall p, ibs_ok ti p.1 -> is_Some (stateObjects p.1 !! a) -> fin (updateStotage_loop a keys) p.
Proof.
  induction keys as [|k keys IH]; intros p H Hp; cbn [updateStotage_loop]; [by apply fin_ret|].
  unfold fin. apply wp_bind, wp_zoom, wp_gets. destruct Hp as [o Eo]. rewrite Eo. destruct p as [s w]. cbn [fst snd] in *.
  apply fin_bind; [by apply fin_write|]. intros [e|] p1 H1 P1; [by apply fin_ret|].
  apply fin_bind; [by apply fin_upd; [apply keeps_origin|]|]. intros _ p2 H2 P2. apply IH; [exact H2|]. apply P2, P1. by eexists.
Qed.

Lemma fin_updateAccount e161 aura a o dirty p :
  ibs_ok ti p.1 -> stateObjects p.1 !! a = Some o -> fin (updateAccount order e161 aura a o dirty) p.
Proof.
  intros H Ho. unfold updateAccount. apply fin_try.
  - destruct (_ || _); [|by apply fin_ret]. apply fin_try; [by apply fin_write|]. intros p1 H1 P1.
    apply fin_bind; [by apply fin_upd; [apply keeps_deleted|]|]. intros _ p2 H2 P2. by apply fin_ret.
  - intros p1 H1 P1. destruct (_ && _); [|by apply fin_ret].
    apply fin_bind; [by apply fin_upd; [apply keeps_deleted|]|]. intros _ p2 H2 P2. apply fin_try.
    { destruct (so_code o); [|by apply fin_ret]. destruct (dirtyCode o); [by apply fin_write|by apply fin_ret]. }
    intros p3 H3 P3. apply fin_try; [destruct (createdContract o); [by apply fin_write|by apply fin_ret]|].
    intros p4 H4 P4. apply fin_try; [|intros p5 H5 P5; by apply fin_write].
    apply fin_storage; [exact H4|]. apply P4, P3, P2, P1. by eexists.
Qed.

Lemma fin_mark a p : ibs_ok ti p.1 -> fin (onState (mark_dirty a)) p.
Proof.
  intros [[[] Hd Hid Hnx] Htx]. apply wp_zoom. unfold mark_dirty. apply wp_modify. split; [|done].
  split; [|exact Htx]. split; [by split|assumption..].
Qed.

Lemma fin_loop rules addrs : forall p, ibs_ok ti p.1 -> fin (finalize_loop order rules addrs) p.
Proof.
  induction addrs as [|a addrs IH]; intros p H; cbn [finalize_loop]; [by apply fin_ret|].
  unfold fin. apply wp_bind, wp_zoom, wp_gets. destruct p as [s w]. cbn [fst snd] in *.
  destruct (stateObjects s !! a) as [o|] eqn:Eo; [|by apply (IH (s, w))].
  apply fin_try; [by apply fin_updateAccount|]. intros p1 H1 P1.
  apply fin_bind; [by apply fin_upd; [apply keeps_flags|]|]. intros _ p2 H2 P2.
  apply fin_bind; [by apply fin_mark|]. intros _ p3 H3 P3. by apply IH.
Qed.

Lemma fin_write_set rules addrs : forall p, ibs_ok ti p.1 -> fin (write_set_loop order rules addrs) p.
Proof.
  induction addrs as [|a addrs IH]; intros p H; cbn [write_set_loop]; [by apply fin_ret|].
  unfold fin. apply wp_bind, wp_zoom, wp_gets. destruct p as [s w]. cbn [fst snd] in *.
  destruct (stateObjects s !! a) as [o|] eqn:Eo; [|by apply (IH (s, w))].
  apply fin_try; [by apply fin_updateAccount|]. intros p1 H1 P1. by apply IH.
Qed.

Lemma fin_clear p : ibs_ok ti p.1 -> fin (_ ← onState (modify clearJournalAndRefund); mret (None (A := Error))) p.
Proof.
  intros [[[] Hd Hid Hnx] Htx]. apply fin_bind; [|intros; by apply fin_ret]. apply wp_zoom, wp_modify. split; [|done].
  split; [|exact Htx]. split; [split; try assumption; unfold is_u64, two64; cbn; lia|..]; cbn; intros *; rewrite ?lookup_empty, ?lookup_nil; done.
Qed.

Lemma load_nothing (p : SW) : ibs_ok ti p.1 -> exists keys, (fun s => range order 1 (balanceInc s)) p.1 = keys /\ keys = [].
Proof.
  intros [[[Hi] _] _]. eexists. split; [reflexivity|]. cbn beta. rewrite Hi. unfold range. rewrite map_to_list_empty.
  apply Permutation_nil_r, Horder.
Qed.

(** Finalising a transaction, and committing a block. *)
Lemma FinalizeTx_keeps rules p : ibs_ok ti p.1 -> fin (FinalizeTx order rules) p.
Proof.
  intros H. unfold FinalizeTx, fin. apply wp_bind, wp_zoom, wp_gets. destruct (load_nothing p H) as (keys & E & ->).
  cbn beta in E. rewrite E. destruct p as [s w]. cbn [fst snd] in *. apply wp_bind, wp_zoom, wp_ret. apply wp_bind, wp_zoom, wp_gets.
  apply (fin_try _ _ (s, w)); [by apply fin_loop|]. intros p1 H1 P1. by apply fin_clear.
Qed.

Lemma CommitBlock_keeps rules p : ibs_ok ti p.1 -> fin (CommitBlock order rules) p.
Proof.
  intros H. unfold CommitBlock, fin. apply wp_bind, wp_zoom, wp_gets. destruct (load_nothing p H) as (keys & E & ->).
  cbn beta in E. rewrite E. destruct p as [s w]. cbn [fst snd] in *. apply wp_bind, wp_zoom, wp_ret.
  unfold MakeWriteSet. apply wp_bind, wp_zoom, wp_modify. apply wp_bind, wp_zoom, wp_gets. cbn [fst snd].
  set (s1 := with_objectsDirty s _). assert (H1 : ibs_ok ti s1) by (destruct H as [[[] Hd Hid Hnx] Htx]; split; [split; [by split|assumption..]|exact Htx]).
  apply (fin_try _ _ (s1, w)); [by apply fin_write_set|]. intros p1 H1' P1. by apply fin_clear.
Qed.
End Finalize.

(** ** Transactions and system calls of a block *)

Section Block.
Context {U : Uint256} {US : Uint256Spec U} {K : Keccak} {SE : Secp256k1} {C : Crypto} {R : StateReader} {L : LRU} {W : StateWriter}.
#[local] Existing Instance ibs_db | 0.
Context (little : bool) (abort : nat -> bool) (jumpDests0 : JumpDestCache).
Context (tol : Prop) (interp : Env -> Contract -> bytes -> bool -> M World (bytes * option Error * Contract)).
Context (Hinterp : forall env, transfers env -> run_tracks tol (interp env)).
Context (order : nat -> list Z -> list Z) (Horder : forall k l, order k l ≡ₚ l).
Context (Hwriter : forall x s, wp False (write_ x) s (fun _ _ => True)).
Context (chainConfig : chain.Config) (e : EngineReader) (header : BlockHeader) (cfg : VmConfig) (chainName : string).
Context (blockHashFunc refHashFunc : Z -> Z * option Error) (frame_ : Engine) (DeriveSha : list Receipt -> Z).

Lemma wp_weaken {S A} (m : M S A) s Q : wp False m s Q -> wp tol m s Q.
Proof. unfold wp. destruct (m s) as [[a s']|e0|]; auto. contradiction. Qed.

(** A system call to a contract that is neither a precompile nor the RIPEMD address keeps
    the invariant of the journal. *)
Definition block_rules : Rules := chain.BlockContext_Rules (Number (fields header)) (h_Time (fields header)) chainConfig.
Definition sys_target (contract : Z) : Prop := contract <> ripemd /\ Precompiles little block_rules contract = None.
Definition sys_keeps (ti : Z) (sys : syscall_t) : Prop := forall contract data s,
  sys_target contract -> ibs_ok ti s -> wp tol (sys contract data) s (fun _ s' => ibs_ok ti s').

(** The engine moves value with the plain transfer function, and touches the state only
    through what keeps the invariant. *)
Record engine_ok : Prop := mkEngineOk {
  eo_transfer : GetTransferFunc e = consensus_Transfer;
  eo_service ti from sys s : sys_keeps ti sys -> ibs_ok ti s ->
    wp tol (IsServiceTransaction e from sys) s (fun _ s' => ibs_ok ti s');
  eo_initialize ti sys s : (forall b, sys_keeps ti (sys b)) -> ibs_ok ti s ->
    wp tol (engine_Initialize frame_ sys) s (fun _ s' => ibs_ok ti s');
  eo_assemble ti receipts sys s : sys_keeps ti sys -> ibs_ok ti s ->
    wp tol (engine_FinalizeAndAssemble frame_ receipts sys) s (fun _ s' => ibs_ok ti s')
}.
Context (Hengine : engine_ok).

(** *** Contexts *)

Record of_block (bc : BlockContext) : Prop := mkOfBlock {
  ob_can : CanTransfer bc = core_CanTransfer;
  ob_move : Transfer bc = consensus_Transfer;
  ob_number : BlockNumber bc = Number (fields header);
  ob_time : Time bc = h_Time (fields header)
}.

(** Whether the context of a block can be built depends on the header alone. *)
Lemma context_exists f1 f2 a1 a2 bc post :
  NewEVMBlockContext header f1 (Some e) a1 chainConfig = Val (bc, post) ->
  of_block bc /\ post = GetPostApplyMessageFunc e /\
  exists bc', NewEVMBlockContext header f2 (Some e) a2 chainConfig = Val (bc', post) /\ of_block bc'.
Proof.
  unfold NewEVMBlockContext. cbn [mbind Res_bind mret Res_ret].
  destruct a1, a2, (h_BaseFee (fields header)) as [b|]; try destruct (two256 <=? b); try discriminate;
    (destruct (h_ExcessBlobGas (fields header)) as [x|];
      [destruct (GetBlobGasPrice chainConfig x _) as [[price [|]]| |]; try discriminate|]);
    intros [= <- <-]; (split; [split; try reflexivity; apply Hengine|]); (split; [reflexivity|]);
    (eexists; split; [reflexivity|]); split; try reflexivity; apply Hengine.
Qed.

Lemma NewEVM_exact bc tx vmCfg : NoBaseFee vmCfg = false \/ is_Some (GasPrice tx) -> of_block bc ->
  exists env, NewEVM little abort bc tx chainConfig vmCfg = Val env /\ transfers env /\ chainRules env = block_rules /\
    config env = vmCfg /\ precompiles env = Precompiles little block_rules /\
    (NoBaseFee vmCfg = false -> Context env = bc).
Proof.
  intros Hg [Hc Hm Hn Ht]. unfold NewEVM. destruct (NoBaseFee vmCfg).
  - destruct Hg as [|[g ->]]; [discriminate|]. cbn [mbind Res_bind mret Res_ret nonnil]. eexists. split; [reflexivity|].
    unfold block_rules. destruct (u_IsZero g); cbn; rewrite Hn, Ht; repeat split; done.
  - cbn [mbind Res_bind mret Res_ret]. eexists. split; [reflexivity|]. unfold block_rules. cbn. rewrite Hn, Ht. repeat split; done.
Qed.

Lemma syscall_keeps ti bc constCall vmCfg : NoBaseFee vmCfg = false -> of_block bc ->
  sys_keeps ti (fun contract data =>
    SysCallContractWithBlockContext little abort jumpDests0 interp contract data chainConfig bc constCall vmCfg).
Proof.
  intros Hb Hbc contract data s [Hr Hp] Hs. unfold SysCallContractWithBlockContext.
  match goal with |- context [NewEVM _ _ bc ?t _ _] => generalize t; intros tx end.
  destruct (NewEVM_exact bc tx (with_RestoreState vmCfg constCall)) as (env & -> & Htr & _ & _ & Hpre & _); [by left|assumption|].
  apply wp_bind, wp_ret. apply wp_bind. unfold in_world. apply wp_zoom.
  eapply wp_mono; [apply (call_promise_holds tol env (interp env) Htr (Hinterp env Htr)); try assumption|].
  - split; [eauto|discriminate].
  - unfold NewMessage, SysCallGasLimit. cbn. lia.
  - apply Hs.
  - intros p Ep. rewrite Hpre, Hp in Ep. discriminate.
  - intros [[ret g] err] w (Hu & _). pose proof (ibs_ok_undoable _ _ _ Hs Hu) as H'.
    destruct err; [destruct (chain.Bor chainConfig)|]; exact H'.
Qed.

(** *** A transaction *)

Context (env0 : Env) (post : option post_t).
Context (Henv : CreateEVM little abort chainConfig (Some e) header chainName blockHashFunc None (vm_Config cfg) = Val (env0, post)).
Context (Hbase : NoBaseFee (vm_Config cfg) = false).

Lemma env0_exact : transfers env0 /\ chainRules env0 = block_rules /\ NoBaseFee (config env0) = false /\ of_block (Context env0) /\
  forall f a, exists bc, NewEVMBlockContext header f (Some e) a chainConfig = Val (bc, post) /\ of_block bc.
Proof.
  pose proof Henv as H. unfold CreateEVM in H.
  destruct (NewEVMBlockContext header blockHashFunc (Some e) None chainConfig) as [[bc p]| |] eqn:Eb; [|discriminate..].
  set (vc := with_SkipAnalysis _ _) in H. destruct (context_exists _ blockHashFunc _ None _ _ Eb) as (Hbc & -> & _).
  destruct (NewEVM_exact bc zeroTxContext vc) as (env & Ee & Htr & Hru & Hcf & _ & Hcx); [by left|assumption|].
  cbn [mbind Res_bind mret Res_ret] in H. rewrite Ee in H. injection H as <- <-. rewrite Hcf, (Hcx Hbase).
  repeat (split; [assumption|]). intros f a. destruct (context_exists _ f _ a _ _ Eb) as (_ & _ & H). exact H.
Qed.

(** What is required of a transaction: the message made of it is acceptable to the state
    transition, has a fee cap, and carries the blob gas of the transaction. *)
Definition tx_good (txn : Transaction) : Prop := forall msg,
  AsMessage txn (Number (fields header)) (h_Time (fields header)) (h_BaseFee (fields header)) block_rules = inr msg ->
  tx_ok env0 chainConfig post msg /\ is_Some (FeeCap msg) /\ BlobGas msg = GetBlobGas txn /\ 0 <= GetBlobGas txn.

(** Neither the flags of the message nor the origin matter to [tx_ok]. *)
Lemma tx_ok_flags tx msg free : tx_ok env0 chainConfig post msg ->
  tx_ok (evm_Reset env0 tx) chainConfig post (with_IsFree msg free).
Proof. intros []. by split. Qed.

Lemma service_check_keeps ti tx msg pool s : ibs_ok ti s -> is_Some (FeeCap msg) ->
  wp tol (service_check little abort jumpDests0 interp (evm_Reset env0 tx) chainConfig (Some e) msg)
    (NewStateTransition pool (newWorld jumpDests0 s)) (fun msg' t =>
  (exists w, t = NewStateTransition pool w /\ ibs_ok ti (statedb w)) /\ exists free, msg' = with_IsFree msg free).
Proof.
  intros Hs [fc Ef]. unfold service_check. rewrite Ef. apply wp_bind, wp_ret. destruct (_ && _).
  - apply wp_bind, wp_zoom, wp_zoom. destruct env0_exact as (_ & _ & Hb & Hof & _).
    eapply wp_mono; [apply (eo_service Hengine ti); [|exact Hs]|].
    + apply syscall_keeps; [exact Hb|]. destruct Hof. by split.
    + intros free s' Hs'. apply wp_ret. split; [|by eexists]. eexists. split; [reflexivity|exact Hs'].
  - apply wp_ret. split; [eexists; split; [reflexivity|exact Hs]|]. exists (IsFree msg). by destruct msg.
Qed.

Definition cancun : bool := IsCancun block_rules.

(** The gas of an accepted transaction leaves the pools. *)
Definition took (blob : Z) (pool pool' : GasPool) (res : ExecutionResult) : Prop :=
  0 <= GasUsed res /\ 0 <= gp_gas pool' /\ gp_gas pool' = gp_gas pool - GasUsed res /\
  (cancun = true -> blob <= gp_blobGas pool /\ gp_blobGas pool' = gp_blobGas pool - blob).

Lemma ApplyMessage_took ti tx msg pool s : ibs_ok ti s -> is_u64 (gp_gas pool) ->
  tx_ok env0 chainConfig post msg -> is_Some (FeeCap msg) ->
  wp tol (ApplyMessage little abort jumpDests0 interp (evm_Reset env0 tx) post chainConfig (Some e) msg true false)
    (NewStateTransition pool (newWorld jumpDests0 s)) (fun r t =>
  ibs_ok ti (statedb (evm t)) /\ forall res, r = inr res -> took (BlobGas msg) pool (gp t) res).
Proof.
  intros Hs Hp Hok Hf. unfold ApplyMessage, applyMessage. apply wp_bind.
  eapply wp_mono; [by apply service_check_keeps|]. intros msg' t [(w & -> & Hw) [free ->]].
  destruct env0_exact as (Htr & Hru & _). set (env := evm_Reset env0 tx).
  assert (Htr' : transfers env) by (by destruct Htr).
  eapply wp_mono; [apply (TransitionDb_spec tol env chainConfig (interp env) post _ (with_IsFree msg free) false Htr' (Hinterp env Htr')
    (tx_ok_flags tx msg free Hok) ti pool w true false Hw Hp)|].
  intros r t' (Hs' & _ & Hacc). split; [exact Hs'|]. intros res Hr.
  destruct (Hacc res Hr) as [_ [Hu Hm] Hg Hb _ _]. cbn [andb negb] in Hg.
  split; [lia|]. split; [lia|]. split; [exact Hg|]. intros Hc. unfold blob_bought in Hb.
  change (chainRules env) with (chainRules env0) in Hb. unfold cancun in Hc. rewrite Hru, Hc in Hb. exact Hb.
Qed.

Context (Hstateful : StatelessExec cfg = false) (Hreceipts : NoReceipts cfg = false).

Lemma GetLogs_keeps ti n s : ibs_ok ti s -> wp False (GetLogs ti n) s (fun _ s' => ibs_ok ti s').
Proof.
  intros [[[Hi Hn Ho Ht Hl Hr] Hd Hid Hnx] Htx]. unfold wp, GetLogs.
  assert (Hs : ibs_ok ti s) by (split; [split; [by split|assumption..]|exact Htx]).
  destruct (Z.leb_spec (zlen (logs s)) ti); [exact Hs|]. unfold go_index.
  destruct (lookup_lt_is_Some_2 (logs s) (Z.to_nat ti)) as [l El]; [unfold zlen in *; lia|]. rewrite El.
  destruct (Z.leb_spec 0 ti); [|lia]. destruct (Z.ltb_spec ti (zlen (logs s))); [|lia]. cbn [andb].
  split; [|exact Htx]. split; [|assumption..]. split; try assumption.
  unfold zlen in *. cbn. by rewrite length_insert.
Qed.

Lemma make_receipt_spec ti txn msg result b : ibs_ok ti (b_ibs b) ->
  wp tol (make_receipt header txn msg result) b (fun r b' =>
    (exists s, b' = with_ibs b s /\ ibs_ok ti s) /\ r_GasUsed r = GasUsed result /\ CumulativeGasUsed r = b_gasUsed b /\
    TransactionIndex r = ti /\ r_TxHash r = t_Hash txn /\
    r_Status r = match res_Err result with Some _ => ReceiptStatusFailed | None => ReceiptStatusSuccessful end).
Proof.
  intros H. unfold make_receipt. apply wp_bind, wp_gets. apply wp_bind.
  apply (wp_mono _ _ _ (fun _ b' => b' = b)); [destruct (To msg); [by apply wp_ret|eapply wp_lift; [apply CreateAddress_exact|done]]|].
  intros ca ? ->. apply wp_bind, wp_gets. destruct H as [H Hti]. rewrite Hti.
  apply wp_bind, wp_zoom. eapply wp_mono; [apply wp_weaken, (GetLogs_keeps ti); by split|]. intros ls s Hs.
  apply wp_bind. edestruct CreateBloom_val as [bloom Eb]. eapply wp_lift; [exact Eb|]. apply wp_ret.
  split; [by exists s|]. by repeat split.
Qed.

(** *** The loop *)

Context (maxBlobGas : Z).

(** The gas used and the pools add up to the limits of the block. *)
Record pooled (b : Blk) : Prop := mkPooled {
  po_used : 0 <= b_gasUsed b;
  po_left : 0 <= gp_gas (b_gp b);
  po_gas : b_gasUsed b + gp_gas (b_gp b) = h_GasLimit (fields header);
  po_blob : cancun = true -> 0 <= b_usedBlobGas b /\ 0 <= gp_blobGas (b_gp b) /\
    b_usedBlobGas b + gp_blobGas (b_gp b) = maxBlobGas
}.
Context (Hlimit : is_u64 (h_GasLimit (fields header))) (Hblobs : is_u64 maxBlobGas).

Definition receipt_of (i cumulative : Z) (txn : Transaction) (r : Receipt) : Prop :=
  TransactionIndex r = i /\ r_TxHash r = t_Hash txn /\ 0 <= r_GasUsed r /\ CumulativeGasUsed r = cumulative + r_GasUsed r.

Lemma ApplyTransaction_spec ti txn b : ibs_ok ti (b_ibs b) -> pooled b -> tx_good txn ->
  wp tol (ApplyTransaction little abort jumpDests0 interp order chainConfig (Some e) header cfg chainName blockHashFunc None txn) b
    (fun r b' => forall o, r = inr o -> ibs_ok ti (b_ibs b') /\ pooled b' /\
      (cancun = true -> b_usedBlobGas b' = b_usedBlobGas b + GetBlobGas txn) /\
      exists rc, o.1 = Some rc /\ receipt_of ti (b_gasUsed b) txn rc /\ b_gasUsed b' = b_gasUsed b + r_GasUsed rc).
Proof.
  intros Hs [P1 P2 P3 P4] Htx. unfold ApplyTransaction. rewrite Henv. apply wp_bind, wp_ret. unfold applyTransaction.
  destruct env0_exact as (_ & Hru & _). rewrite Hru. destruct (AsMessage txn _ _ _ _) as [err|msg] eqn:Em; [by intros ?|].
  destruct (Htx msg Em) as (Hok & Hfc & Hblob & Hb0). rewrite Hstateful, Hreceipts. cbn [negb].
  set (m := with_CheckNonce msg true). set (tx := NewEVMTxContext m). unfold is_u64 in *.
  assert (Hok' : tx_ok env0 chainConfig post m) by (destruct Hok; by split).
  apply wp_bind, wp_zoom. eapply wp_mono; [apply (ApplyMessage_took ti tx m); [exact Hs|unfold is_u64; lia|exact Hok'|exact Hfc]|].
  intros [err|res] t [Hs1 Hres]; [by intros ?|]. destruct (Hres res eq_refl) as (T1 & T2 & T3 & T4).
  change (BlobGas m) with (BlobGas msg) in T4. rewrite Hblob in T4.
  apply wp_bind, wp_zoom. eapply wp_mono; [apply wp_weaken, (FinalizeTx_keeps order Horder Hwriter ti); exact Hs1|].
  intros [err|] p [Hs2 _]; [by intros ?|]. apply wp_bind, wp_modify. cbn [b_gp b_gasUsed b_usedBlobGas b_ibs b_writer].
  rewrite (u64_id (b_gasUsed b + _)) by (unfold is_u64; lia). apply wp_bind, wp_bind.
  eapply wp_mono; [by apply (make_receipt_spec ti)|]. intros r b' ((s & -> & Hs3) & R1 & R2 & R3 & R4 & _). apply wp_ret, wp_ret.
  intros ? [= <-]. cbn in *.
  assert (Hbl : cancun = true -> u64 (b_usedBlobGas b + GetBlobGas txn) = b_usedBlobGas b + GetBlobGas txn).
  { intros Hc. specialize (P4 Hc). specialize (T4 Hc). apply u64_id. unfold is_u64. lia. }
  split; [exact Hs3|]. split.
  { split; cbn; [lia..|]. intros Hc. rewrite (Hbl Hc). specialize (P4 Hc). specialize (T4 Hc). lia. }
  split; [exact Hbl|]. exists r. split; [reflexivity|]. split; [|lia]. split; [exact R3|]. split; [exact R4|]. lia.
Qed.

(** The receipts of the transactions from the [i]-th on, [cumulative] gas being used before. *)
Fixpoint receipts_of (i cumulative : Z) (txns : list Transaction) (rs : list Receipt) : Prop :=
  match txns, rs with
  | [], [] => True
  | txn :: txns, r :: rs => receipt_of i cumulative txn r /\ receipts_of (i + 1) (CumulativeGasUsed r) txns rs
  | _, _ => False
  end.

Definition Zsum (l : list Z) : Z := fold_right Z.add 0 l.
Definition gas_sum (rs : list Receipt) : Z := Zsum (map r_GasUsed rs).
Definition blob_sum (txns : list Transaction) : Z := Zsum (map GetBlobGas txns).

Lemma SetTxContext_ok i s : snap_ok s -> 0 <= txIndex s <= i -> ibs_ok i (SetTxContext i s).
Proof. intros [[] Hd Hid Hn] Hi. split; [|reflexivity]. split; [split; cbn; (assumption || lia)|assumption..]. Qed.

Lemma transactions_spec txns : forall i b,
  Forall tx_good txns -> snap_ok (b_ibs b) -> txIndex (b_ibs b) <= i -> pooled b ->
  wp tol (transactions_loop little abort jumpDests0 interp order chainConfig (Some e) header cfg chainName blockHashFunc i txns) b
    (fun r b' => forall rs rejected, r = inr (rs, rejected) ->
      rejected = [] /\ snap_ok (b_ibs b') /\ pooled b' /\ receipts_of i (b_gasUsed b) txns rs /\
      b_gasUsed b' = b_gasUsed b + gas_sum rs /\
      (cancun = true -> b_usedBlobGas b' = b_usedBlobGas b + blob_sum txns)).
Proof.
  induction txns as [|txn txns IH]; intros i b Hgood Hs Hi Hp; cbn [transactions_loop].
  { intros ? ? [= <- <-]. split; [reflexivity|]. split; [exact Hs|]. split; [exact Hp|]. cbn. split; [done|]. split; [lia|]. intros _. lia. }
  apply Forall_cons in Hgood as [Ht Hgood]. pose proof (wj_tx _ (so_wfj _ Hs)).
  apply wp_bind, wp_zoom, wp_modify. apply wp_bind.
  eapply wp_mono; [apply (ApplyTransaction_spec i txn (with_ibs b (SetTxContext i (b_ibs b)))); [by apply SetTxContext_ok|by destruct Hp|exact Ht]|].
  intros [err|[o ret]] b1 H1; [rewrite Hstateful; by intros ? ?|]. destruct (H1 _ eq_refl) as ([Hs1 Hi1] & Hp1 & Hb1 & rc & E1 & Hrc & Eg).
  cbn in E1, Hrc, Eg, Hb1. subst o. apply wp_bind. eapply wp_mono; [apply IH; [exact Hgood|exact Hs1|lia|exact Hp1]|].
  intros [err|[rs rej]] b2 H2; [by intros ? ?|]. destruct (H2 _ _ eq_refl) as (-> & Hs2 & Hp2 & Hrs & Eg2 & Eb2).
  rewrite Hreceipts. intros ? ? [= <- <-]. split; [reflexivity|]. split; [exact Hs2|]. split; [exact Hp2|].
  destruct Hrc as (R1 & R2 & R3 & R4). split; [|split].
  - split; [done|]. by rewrite R4, <- Eg.
  - change (gas_sum (rc :: rs)) with (r_GasUsed rc + gas_sum rs). lia.
  - intros Hc. change (blob_sum (txn :: txns)) with (GetBlobGas txn + blob_sum txns). specialize (Eb2 Hc). specialize (Hb1 Hc). lia.
Qed.

(** *** The whole block *)

Lemma InitializeBlock_keeps ti b : ibs_ok ti (b_ibs b) -> pooled b ->
  wp tol (InitializeBlockExecution little abort jumpDests0 interp order chainConfig (Some e) header frame_ refHashFunc) b
    (fun _ b' => ibs_ok ti (b_ibs b') /\ pooled b' /\ b_gasUsed b' = b_gasUsed b /\ b_usedBlobGas b' = b_usedBlobGas b).
Proof.
  intros Hs Hp. destruct env0_exact as (_ & _ & _ & _ & Hctx). unfold InitializeBlockExecution.
  apply wp_bind, wp_zoom. eapply wp_mono; [apply (eo_initialize Hengine ti); [|exact Hs]|].
  - intros cc contract data s Htg Hi. unfold syscall_of, SysCallContract.
    destruct (Hctx refHashFunc (Some (match chain.Bor chainConfig with Some _ => bh_Coinbase header | None => SystemAddress end))) as (bc & -> & Hof).
    apply wp_bind, wp_ret. by apply (syscall_keeps ti bc).
  - intros [] s Hs1. destruct (Hctx refHashFunc None) as (bc & -> & Hof). apply wp_bind, wp_ret.
    apply wp_bind, wp_zoom. eapply wp_mono; [apply wp_weaken, (FinalizeTx_keeps order Horder Hwriter ti); exact Hs1|].
    intros err p [Hs2 _]. apply wp_ret. split; [exact Hs2|]. split; [by destruct Hp|done].
Qed.

Lemma FinalizeBlock_returns ti receipts b : ibs_ok ti (b_ibs b) ->
  wp tol (FinalizeBlockExecution little abort jumpDests0 interp order chainConfig (Some e) header frame_ refHashFunc receipts) b
    (fun _ b' => b_gasUsed b' = b_gasUsed b).
Proof.
  intros Hs. destruct env0_exact as (_ & _ & _ & _ & Hctx). unfold FinalizeBlockExecution.
  apply wp_bind, wp_zoom. eapply wp_mono; [apply (eo_assemble Hengine ti); [|exact Hs]|].
  - intros contract data s Htg Hi. unfold syscall_of, SysCallContract.
    destruct (Hctx refHashFunc (Some (match chain.Bor chainConfig with Some _ => bh_Coinbase header | None => SystemAddress end))) as (bc & -> & Hof).
    apply wp_bind, wp_ret. by apply (syscall_keeps ti bc).
  - intros [err|root] s Hs1; [by apply wp_ret|]. destruct (Hctx refHashFunc None) as (bc & -> & Hof). apply wp_bind, wp_ret.
    apply wp_bind, wp_zoom. eapply wp_mono; [apply wp_weaken, (CommitBlock_keeps order Horder Hwriter ti); exact Hs1|].
    intros [err|] p _; by apply wp_ret.
Qed.

(** What the header commits to. *)
Definition header_met (rs : list Receipt) (used blob : Z) (bloom : Bloom) : Prop :=
  used = h_GasUsed (fields header) /\
  (chain.IsByzantium chainConfig (Number (fields header)) = true -> DeriveSha rs = bh_ReceiptHash header) /\
  (forall x, h_BlobGasUsed (fields header) = Some x -> blob = x) /\
  CreateBloom rs = Val bloom /\ bloom = bh_Bloom header.

Lemma check_header_spec rs b : wp tol (check_header chainConfig header cfg DeriveSha rs) b (fun r b' =>
  b' = b /\ forall bloom, r = inr bloom -> header_met rs (b_gasUsed b) (b_usedBlobGas b) bloom).
Proof.
  unfold check_header, header_met. rewrite Hstateful, Hreceipts. cbn [negb andb]. apply wp_bind, wp_gets, wp_bind, wp_gets.
  destruct (chain.IsByzantium _ _) eqn:Ez; cbn [andb].
  - destruct (Z.eqb_spec (DeriveSha rs) (bh_ReceiptHash header)); [|by split]. cbn [negb].
    destruct (Z.eqb_spec (b_gasUsed b) (h_GasUsed (fields header))); [|by split]. cbn [negb].
    destruct (CreateBloom_val rs) as [bloom Eb].
    destruct (h_BlobGasUsed (fields header)) as [x|]; [destruct (Z.eqb_spec (b_usedBlobGas b) x); [|by split]|]; cbn [negb];
      (apply wp_bind; eapply wp_lift; [exact Eb|]); case_bool_decide; (split; [reflexivity|]); intros ? [= <-]; eauto 10 with congruence.
  - destruct (Z.eqb_spec (b_gasUsed b) (h_GasUsed (fields header))); [|by split]. cbn [negb].
    destruct (CreateBloom_val rs) as [bloom Eb].
    destruct (h_BlobGasUsed (fields header)) as [x|]; [destruct (Z.eqb_spec (b_usedBlobGas b) x); [|by split]|]; cbn [negb];
      (apply wp_bind; eapply wp_lift; [exact Eb|]); case_bool_decide; (split; [reflexivity|]); intros ? [= <-]; eauto 10 with congruence.
Qed.

(** An accepted block: a receipt per transaction, in order, with the running total of the
    gas; the totals are those of the header and within the block's limits. *)
Record adds_up (txns : list Transaction) (res : EphemeralExecResult) : Prop := mkAddsUp {
  au_receipts : receipts_of 0 0 txns (er_Receipts res);
  au_rejected : Rejected res = [];
  au_used : er_GasUsed res = gas_sum (er_Receipts res);
  au_limit : 0 <= er_GasUsed res <= h_GasLimit (fields header);
  au_blobs : cancun = true -> 0 <= blob_sum txns <= maxBlobGas;
  au_header : exists blob, header_met (er_Receipts res) (er_GasUsed res) blob (er_Bloom res) /\ (cancun = true -> blob = blob_sum txns);
  au_root : ReceiptRoot res = DeriveSha (er_Receipts res)
}.

Lemma execute_block_spec txns b : Forall tx_good txns -> vm_ReadOnly cfg = false ->
  ibs_ok 0 (b_ibs b) -> pooled b -> b_gasUsed b = 0 -> b_usedBlobGas b = 0 ->
  wp tol (execute_block little abort jumpDests0 interp order chainConfig (Some e) header cfg chainName blockHashFunc frame_ DeriveSha refHashFunc txns) b
    (fun r _ => forall res, r = inr res -> adds_up txns res).
Proof.
  intros Hgood Hro Hs Hp Hg0 Hb0. unfold execute_block. apply wp_bind.
  eapply wp_mono; [by apply (InitializeBlock_keeps 0)|]. intros _ b1 ([Hs1 Hi1] & Hp1 & Eg1 & Eb1). apply wp_bind.
  eapply wp_mono; [apply (transactions_spec txns 0 b1 Hgood Hs1 ltac:(lia) Hp1)|].
  intros [err|[rs rej]] b2 H2; [by intros ?|]. destruct (H2 _ _ eq_refl) as (-> & Hs2 & Hp2 & Hrs & Eg2 & Eb2).
  apply wp_bind. eapply wp_mono; [apply check_header_spec|]. intros [err|bloom] ? [-> Hh]; [by intros ?|].
  rewrite Hro. apply wp_bind. eapply wp_mono; [apply (FinalizeBlock_returns (txIndex (b_ibs b2))); by split|].
  intros [err|root] b3 Eg3; [by intros ?|]. apply wp_bind, wp_gets, wp_ret. intros ? [= <-].
  assert (Eg : b_gasUsed b1 = 0) by lia. assert (Eb : b_usedBlobGas b1 = 0) by lia.
  rewrite Eg in Hrs, Eg2. rewrite Eb in Eb2. destruct Hp2 as [P1 P2 P3 P4].
  split; cbn [er_Receipts er_GasUsed Rejected ReceiptRoot er_Bloom];
    [exact Hrs|reflexivity|lia|lia| |exists (b_usedBlobGas b2); split; [by rewrite Eg3; apply Hh|exact Eb2]|reflexivity].
  intros Hc. specialize (Eb2 Hc). specialize (P4 Hc). lia.
Qed.
Context (Hmax : chain.GetMaxBlobGasPerBlock chainConfig (h_Time (fields header)) = Val maxBlobGas).

(** The pool of a block before its first transaction. *)
Lemma new_pool : (_ ← AddGas (h_GasLimit (fields header)); AddBlobGas maxBlobGas) (mkGasPool 0 0) =
  Val (tt, mkGasPool (h_GasLimit (fields header)) maxBlobGas).
Proof.
  pose proof Hlimit. pose proof Hblobs. unfold is_u64, mbind, M_bind, AddGas, AddBlobGas in *. cbn [gp_gas gp_blobGas].
  rewrite (u64_id (MaxUint64 - h_GasLimit _)), (u64_id (MaxUint64 - maxBlobGas)) by (unfold is_u64, MaxUint64, two64 in *; lia).
  destruct (Z.ltb_spec (MaxUint64 - h_GasLimit (fields header)) 0); [unfold MaxUint64, two64 in *; lia|].
  cbn [gp_gas gp_blobGas]. rewrite !Z.add_0_l, !u64_id by assumption.
  destruct (Z.ltb_spec (MaxUint64 - maxBlobGas) 0); [unfold MaxUint64, two64 in *; lia|reflexivity].
Qed.

End Block.

(** ** A block with one call of a contract *)

#[local] Existing Instance funded_reader | 0.
#[local] Existing Instance ibs_db | 0.

Definition null_writer : StateWriter := {| writer := unit; write_ _ := mret None |}.
#[local] Existing Instance null_writer | 0.

Definition plain_engine : EngineReader :=
  mkEngineReader (fun _ => (7, None)) consensus_Transfer None (fun _ _ => mret false).
Definition plain_frame : Engine := mkEngine (fun _ => mret tt) (fun _ _ => mret (inr 0)).
(** The bloom of the contract's log. *)
Definition call_bloom : Bloom := Eval vm_compute in match CreateBloom [mkReceipt 0 0 0 zeroBloom [mkLog 100 [7] [x01] 100] 0 0 0 0 0] with Val b => b | _ => zeroBloom end.
Definition block_header : BlockHeader :=
  mkBlockHeader (mkHeader 100 30000000 21200 1700000000 (Some 7) (Some 0) (Some 0) None) (Some 0) 5 7 0 0 call_bloom.
Definition block_cfg : VmConfig := mkVmConfig (mkConfig false false false false []) false false false.
Definition block_tx : Transaction := mkTransaction (fun _ _ _ _ => inr transfer_msg) 2 11 0 4.
Definition empty_cache : JumpDestCache := mkJumpDestCache (∅ : gmap Z bitvec) 0 0.
Definition never (_ : nat) : bool := false.
Definition storing_interp (_ : Env) := storing_run.
Definition one_call : Res (Error + EphemeralExecResult) :=
  ExecuteBlockEphemerally (E := no_recovery) (C := no_crypto) true never empty_cache storing_interp (fun _ l => l) chain.AllProtocolChanges
    (Some plain_engine) block_header block_cfg "" (fun _ => (0, None)) plain_frame (fun _ => 0) (fun _ => (0, None)) [block_tx] tt.

Lemma plain_engine_ok : engine_ok (SE := no_recovery) (C := no_crypto) true False chain.AllProtocolChanges plain_engine block_header plain_frame.
Proof. split; [reflexivity|intros; assumption..]. Qed.

Definition block_env0 : Res (Env * option post_t) :=
  CreateEVM (E := no_recovery) (C := no_crypto) true never chain.AllProtocolChanges (Some plain_engine) block_header "" (fun _ => (0, None)) None
    (vm_Config block_cfg).

Lemma block_tx_good env post : block_env0 = Val (env, post) ->
  tx_good chain.AllProtocolChanges block_header env post block_tx.
Proof.
  intros E. unfold block_env0, CreateEVM, NewEVMBlockContext in E. cbn in E.
  destruct (GetBlobGasPrice _ _ _) as [[price [|]]| |]; [discriminate| |discriminate..]. injection E as <- <-.
  intros msg [= <-]. split; [|split; [by eexists|done]]. split; try discriminate; try (split; (discriminate || reflexivity)).
  - intros _. exists 10, 3, 7. by repeat split.
  - by eexists.
  - by exists None.
  - constructor.
Qed.

