(* ===== verification/Select.v ===== *)
(** * Selecting the k-th bit of a word

    [erigon-lib/common/bitutil/select.go]: the position of the [k]-th set bit of a 64-bit
    word, by broadword arithmetic and a table; and the functions of [math/bits] it and the
    Elias-Fano sequences use. *)

From S2P Require Import Prelude.

(** ** [math/bits] *)

(** The set bits of [x] below [n]. *)
Fixpoint ones (n : nat) (x : Z) : Z :=
  match n with O => 0 | S n => Z.b2z (Z.testbit x (Z.of_nat n)) + ones n x end.

Definition OnesCount64 (x : Z) : Z := ones 64 x.
Definition LeadingZeros64 (x : Z) : Z := if x =? 0 then 64 else 63 - Z.log2 x.
Definition TrailingZeros64 (x : Z) : Z :=
  match List.find (fun i => Z.testbit x (Z.of_nat i)) (seq 0 64) with Some i => Z.of_nat i | None => 64 end.

(** Shifts of 64-bit words; shifting out all bits gives 0. *)
Definition shl64 (x n : Z) : Z := u64 (Z.shiftl x n).

(** ** [Select64] *)

(** The digits of a string. *)
Definition digits (s : string) : list Z :=
  map (fun a => Z.of_N (Ascii.N_of_ascii a) - 48) (String.list_ascii_of_string s).

(** Position of the [r]-th set bit of the byte [b], at [b + 256 * r]; 8 when there is none. *)
Definition kSelectInByte : list Z := concat (map digits
  ["80102010301020104010201030102010501020103010201040102010301020106010201030102010401020103010201050102010301020104010201030102010";
   "70102010301020104010201030102010501020103010201040102010301020106010201030102010401020103010201050102010301020104010201030102010";
   "88818221833132218441422143313221855152215331322154414221433132218661622163313221644142214331322165515221533132215441422143313221";
   "87717221733132217441422143313221755152215331322154414221433132217661622163313221644142214331322165515221533132215441422143313221";
   "88888882888383328884844284434332888585528553533285545442544343328886866286636332866464426443433286656552655353326554544254434332";
   "88878772877373328774744274434332877575527553533275545442544343328776766276636332766464426443433276656552655353326554544254434332";
   "88888888888888838888888488848443888888858885855388858554855454438888888688868663888686648664644388868665866565538665655465545443";
   "88888887888787738887877487747443888787758775755387757554755454438887877687767663877676647664644387767665766565537665655465545443";
   "88888888888888888888888888888884888888888888888588888885888585548888888888888886888888868886866488888886888686658886866586656554";
   "88888888888888878888888788878774888888878887877588878775877575548888888788878776888787768776766488878776877676658776766576656554";
   "88888888888888888888888888888888888888888888888888888888888888858888888888888888888888888888888688888888888888868888888688868665";
   "88888888888888888888888888888887888888888888888788888887888787758888888888888887888888878887877688888887888787768887877687767665";
   "88888888888888888888888888888888888888888888888888888888888888888888888888888888888888888888888888888888888888888888888888888886";
   "88888888888888888888888888888888888888888888888888888888888888878888888888888888888888888888888788888888888888878888888788878776";
   "88888888888888888888888888888888888888888888888888888888888888888888888888888888888888888888888888888888888888888888888888888888";
   "88888888888888888888888888888888888888888888888888888888888888888888888888888888888888888888888888888888888888888888888888888887"]).

Definition kOnesStep4 : Z := 0x1111111111111111.
Definition kOnesStep8 : Z := 0x0101010101010101.
Definition kLAMBDAsStep8 : Z := 0x80 * kOnesStep8.
Definition kOnesStep4x3 : Z := 0x3 * kOnesStep4.
Definition kOnesStep4xA : Z := 0xA * kOnesStep4.
Definition kOnesStep8xF : Z := 0xF * kOnesStep8.

(** The number of set bits of each byte, in that byte, and their running sums. *)
Definition byte_counts (x : Z) : Z :=
  let s := u64 (x - Z.shiftr (Z.land x kOnesStep4xA) 1) in
  let s := u64 (Z.land s kOnesStep4x3 + Z.land (Z.shiftr s 2) kOnesStep4x3) in
  Z.land (u64 (s + Z.shiftr s 4)) kOnesStep8xF.

Definition Select64 (x k : Z) : Res Z :=
  let byteSums := u64 (byte_counts x * kOnesStep8) in
  let place := OnesCount64 (Z.land (u64 (Z.lor (u64 (k * kOnesStep8)) kLAMBDAsStep8 - byteSums)) kLAMBDAsStep8) * 8 in
  let byteRank := u64 (k - Z.land (Z.shiftr (shl64 byteSums 8) place) 0xFF) in
  t ← go_index kSelectInByte (Z.lor (Z.land (Z.shiftr x place) 0xFF) (shl64 byteRank 8));
  mret (place + t).

(** ** Numbers by blocks of bits *)

Lemma testbit_block w b y n : 0 <= w -> 0 <= b < 2 ^ w -> 0 <= n ->
  Z.testbit (b + 2 ^ w * y) n = if n <? w then Z.testbit b n else Z.testbit y (n - w).
Proof.
  intros Hw Hb Hn. assert (0 < 2 ^ w) by (apply Z.pow_pos_nonneg; lia). destruct (Z.ltb_spec n w).
  - rewrite <- (Z.mod_pow2_bits_low (b + 2 ^ w * y) w n) by lia. f_equal. rewrite Z.mul_comm, Z.mod_add by lia. by apply Z.mod_small.
  - replace n with (n - w + w) at 1 by lia. rewrite <- Z.div_pow2_bits by lia. f_equal.
    rewrite Z.mul_comm, Z.div_add by lia. by rewrite Z.div_small.
Qed.

Lemma land_block w b c y z : 0 <= w -> 0 <= b < 2 ^ w -> 0 <= c < 2 ^ w ->
  Z.land (b + 2 ^ w * y) (c + 2 ^ w * z) = Z.land b c + 2 ^ w * Z.land y z.
Proof.
  intros Hw Hb Hc. assert (Hl : 0 <= Z.land b c < 2 ^ w).
  { split; [apply Z.land_nonneg; lia|]. destruct (Z.eq_dec (Z.land b c) 0) as [->|Hne]; [lia|].
    apply Z.log2_lt_pow2; [pose proof (proj2 (Z.land_nonneg b c)); lia|]. eapply Z.le_lt_trans; [apply Z.log2_land; lia|].
    destruct (Z.eq_dec b 0) as [->|]; [by rewrite Z.land_0_l in Hne|]. destruct (Z.eq_dec c 0) as [->|]; [by rewrite Z.land_0_r in Hne|].
    apply Z.min_lt_iff. left. apply Z.log2_lt_pow2; lia. }
  apply Z.bits_inj'. intros n Hn. rewrite Z.land_spec, !testbit_block by assumption. by destruct (n <? w); rewrite Z.land_spec.
Qed.

Lemma ones_nonneg n x : 0 <= ones n x <= Z.of_nat n.
Proof. induction n; cbn [ones]; [lia|]. destruct (Z.testbit x (Z.of_nat n)); cbn [Z.b2z]; lia. Qed.

Lemma ones_ext n x y : (forall i, 0 <= i < Z.of_nat n -> Z.testbit x i = Z.testbit y i) -> ones n x = ones n y.
Proof. induction n as [|n IH]; intros H; [reflexivity|]. cbn [ones]. rewrite H by lia. rewrite IH; [reflexivity|]. intros; apply H; lia. Qed.

Lemma ones_add m n x : ones (m + n) x = ones m x + ones n (Z.shiftr x (Z.of_nat m)).
Proof.
  induction n as [|n IH]; [rewrite Nat.add_0_r; symmetry; apply Z.add_0_r|]. rewrite <- plus_n_Sm. cbn [ones]. rewrite IH, Z.shiftr_spec by lia.
  replace (Z.of_nat n + Z.of_nat m) with (Z.of_nat (m + n)) by lia. ring.
Qed.

Lemma ones_block m n b y : 0 <= b < 2 ^ Z.of_nat m -> ones (m + n) (b + 2 ^ Z.of_nat m * y) = ones m b + ones n y.
Proof.
  intros Hb. assert (0 < 2 ^ Z.of_nat m) by (apply Z.pow_pos_nonneg; lia). rewrite ones_add. f_equal.
  - apply ones_ext. intros i Hi. rewrite testbit_block by lia. destruct (Z.ltb_spec i (Z.of_nat m)); [reflexivity|lia].
  - f_equal. rewrite Z.shiftr_div_pow2, Z.mul_comm, Z.div_add by lia. by rewrite Z.div_small.
Qed.

(** The number with the given bytes, least significant first. *)
Fixpoint le_val (bs : list Z) : Z := match bs with [] => 0 | b :: bs => b + 2 ^ 8 * le_val bs end.
Definition small (m : Z) (bs : list Z) : Prop := Forall (fun b => 0 <= b < m) bs.

Lemma le_val_bound bs : small (2 ^ 8) bs -> 0 <= le_val bs < 2 ^ (8 * zlen bs).
Proof.
  induction 1 as [|b bs Hb _ IH]; [vm_compute; split; [discriminate|reflexivity]|]. cbn [le_val]. rewrite zlen_cons, Z.mul_add_distr_l, Z.pow_add_r by (pose proof (zlen_nonneg bs); lia).
  change (8 * 1) with 8. nia.
Qed.

(** The bytes of a number. *)
Fixpoint le_bytes (n : nat) (x : Z) : list Z := match n with O => [] | S n => x mod 2 ^ 8 :: le_bytes n (x / 2 ^ 8) end.

Lemma le_bytes_small n : forall x, small (2 ^ 8) (le_bytes n x).
Proof. induction n; intros x; constructor; [apply Z.mod_pos_bound; lia|apply IHn]. Qed.

Lemma le_val_bytes n : forall x, 0 <= x < 2 ^ (8 * Z.of_nat n) -> le_val (le_bytes n x) = x.
Proof.
  induction n as [|n IH]; intros x Hx; [cbn in *; lia|]. cbn [le_bytes le_val]. rewrite IH.
  - pose proof (Z.div_mod x (2 ^ 8)). lia.
  - rewrite Nat2Z.inj_succ in Hx. replace (8 * Z.succ (Z.of_nat n)) with (8 + 8 * Z.of_nat n) in Hx by lia. rewrite Z.pow_add_r in Hx by lia.
    split; [apply Z.div_pos; lia|apply Z.div_lt_upper_bound; lia].
Qed.

(** A property of all numbers below [n] that can be computed. *)
Lemma below (P : Z -> bool) n : forallb P (map Z.of_nat (seq 0 n)) = true -> forall b, 0 <= b < Z.of_nat n -> P b = true.
Proof.
  intros H b Hb. rewrite forallb_forall in H. apply H. apply in_map_iff. exists (Z.to_nat b). split; [lia|]. apply in_seq. lia.
Qed.

(** ** The counts of the bytes *)

Definition f1 (x : Z) : Z := x - Z.shiftr (Z.land x kOnesStep4xA) 1.
Definition f2 (s : Z) : Z := Z.land s kOnesStep4x3 + Z.land (Z.shiftr s 2) kOnesStep4x3.
Definition f3 (s : Z) : Z := Z.land (s + Z.shiftr s 4) kOnesStep8xF.

(** A mask that repeats a byte is that byte over itself, for numbers with a free top byte. *)
Lemma land_mask m b y : m / 2 ^ 8 = m mod 2 ^ 56 -> 0 <= b < 2 ^ 8 -> 0 <= y < 2 ^ 56 ->
  Z.land (b + 2 ^ 8 * y) m = Z.land b (m mod 2 ^ 8) + 2 ^ 8 * Z.land y m.
Proof.
  intros E Hb Hy. assert (Ey : Z.land y m = Z.land y (m / 2 ^ 8)).
  { pose proof (land_block 56 y (m mod 2 ^ 56) 0 (m / 2 ^ 56) ltac:(lia) ltac:(lia) (Z.mod_pos_bound m (2 ^ 56) ltac:(lia))) as H.
    rewrite Z.mul_0_r, Z.add_0_r, Z.add_comm, <- Z.div_mod in H by lia. rewrite H, Z.land_0_l, E. lia. }
  rewrite Ey, <- land_block by (try apply Z.mod_pos_bound; lia). f_equal. pose proof (Z.div_mod m (2 ^ 8)). lia.
Qed.

Lemma land_le_r a b : 0 <= a -> 0 <= b -> 0 <= Z.land a b <= b.
Proof.
  intros Ha Hb. assert (H : 0 <= Z.land a b) by (apply Z.land_nonneg; by left). split; [exact H|].
  assert (E : b - Z.land a b = Z.ldiff b (Z.land a b)).
  { apply Z.sub_nocarry_ldiff, Z.bits_inj'. intros n Hn. rewrite Z.ldiff_spec, Z.land_spec, Z.testbit_0_l.
    by destruct (Z.testbit a n), (Z.testbit b n). }
  assert (0 <= Z.ldiff b (Z.land a b)) by (apply Z.ldiff_nonneg; by left). lia.
Qed.

Lemma shiftr_2n x n k : 0 <= k -> 2 ^ k = n -> Z.shiftr x k = x / n.
Proof. intros Hk <-. by apply Z.shiftr_div_pow2. Qed.

Lemma f1_cons b y : 0 <= b < 2 ^ 8 -> 0 <= y < 2 ^ 56 -> f1 (b + 2 ^ 8 * y) = f1 b + 2 ^ 8 * f1 y.
Proof.
  intros Hb Hy. unfold f1. rewrite land_mask by (reflexivity || assumption).
  assert (E0 : Z.land b kOnesStep4xA = Z.land b (kOnesStep4xA mod 2 ^ 8)).
  { pose proof (land_mask kOnesStep4xA b 0 eq_refl Hb ltac:(lia)) as H. by rewrite Z.mul_0_r, Z.land_0_l, Z.mul_0_r, !Z.add_0_r in H. }
  rewrite E0. set (c := Z.land b _). set (d := Z.land y _). rewrite !(shiftr_2n _ 2 1) by lia.
  assert (Hd : d mod 2 = 0).
  { rewrite <- Z.bit0_mod. unfold d. by rewrite Z.land_spec, andb_false_r. }
  replace ((c + 2 ^ 8 * d) / 2) with (c / 2 + 2 ^ 8 * (d / 2)); [lia|].
  pose proof (Z.div_mod d 2). replace (c + 2 ^ 8 * d) with (c + (2 ^ 8 * (d / 2)) * 2) by lia. rewrite Z.div_add; lia.
Qed.

Lemma f1_range x : 0 <= x -> 0 <= f1 x <= x.
Proof.
  intros Hx. unfold f1. pose proof (land_le_r kOnesStep4xA x ltac:(done) Hx) as H. rewrite Z.land_comm in H.
  rewrite (shiftr_2n _ 2 1) by lia. assert (0 <= Z.land x kOnesStep4xA / 2 <= Z.land x kOnesStep4xA); [|lia].
  split; [apply Z.div_pos; lia|apply Z.div_le_upper_bound; lia].
Qed.

Lemma f2_cons B Y : 0 <= B < 2 ^ 8 -> 0 <= Y < 2 ^ 56 -> f2 (B + 2 ^ 8 * Y) = f2 B + 2 ^ 8 * f2 Y.
Proof.
  intros HB HY. unfold f2. rewrite !(shiftr_2n _ 4 2) by lia.
  replace ((B + 2 ^ 8 * Y) / 4) with ((B / 4 + 64 * (Y mod 4)) + 2 ^ 8 * (Y / 4)).
  2: { pose proof (Z.div_mod Y 4). replace (B + 2 ^ 8 * Y) with (B + (64 * Y) * 4) by lia. rewrite Z.div_add by lia. lia. }
  assert (0 <= B / 4 < 64) by (split; [apply Z.div_pos; lia|apply Z.div_lt_upper_bound; lia]).
  pose proof (Z.mod_pos_bound Y 4). assert (0 <= Y / 4 < 2 ^ 56) by (split; [apply Z.div_pos; lia|apply Z.div_lt_upper_bound; lia]).
  rewrite !land_mask by (reflexivity || lia).
  assert (E0 : forall z, 0 <= z < 2 ^ 8 -> Z.land z kOnesStep4x3 = Z.land z (kOnesStep4x3 mod 2 ^ 8)).
  { intros z Hz. pose proof (land_mask kOnesStep4x3 z 0 eq_refl Hz ltac:(lia)) as H'. by rewrite Z.mul_0_r, Z.land_0_l, Z.mul_0_r, !Z.add_0_r in H'. }
  rewrite (E0 B), (E0 (B / 4)) by lia.
  assert (E1 : Z.land (B / 4 + 64 * (Y mod 4)) (kOnesStep4x3 mod 2 ^ 8) = Z.land (B / 4) (kOnesStep4x3 mod 2 ^ 8)).
  { pose proof (land_block 6 (B / 4) (kOnesStep4x3 mod 2 ^ 8) (Y mod 4) 0 ltac:(lia) ltac:(lia) ltac:(done)) as H'.
    rewrite Z.land_0_r, Z.mul_0_r, !Z.add_0_r in H'. exact H'. }
  rewrite E1. lia.
Qed.

Lemma le_val_half bs : small 128 bs -> 2 * le_val bs <= 2 ^ (8 * zlen bs) - 1.
Proof.
  induction 1 as [|b bs Hb _ IH]; [vm_compute; discriminate|]. cbn [le_val]. pose proof (zlen_nonneg bs).
  rewrite zlen_cons. replace (8 * (1 + zlen bs)) with (8 + 8 * zlen bs) by lia. rewrite Z.pow_add_r; lia.
Qed.

(** Both nibbles at most 6. *)
Definition nibbles (s : Z) : Prop := 0 <= s mod 16 <= 6 /\ 0 <= s / 16 <= 6.

Lemma f3_cons s T : nibbles s -> 0 <= T -> T mod 16 <= 6 -> T + T / 16 < 2 ^ 56 ->
  f3 (s + 2 ^ 8 * T) = (s + s / 16) mod 16 + 2 ^ 8 * f3 T.
Proof.
  intros [[H1 H2] [H3 H4]] HT Hr Hb. unfold f3. rewrite !(shiftr_2n _ 16 4) by lia.
  pose proof (Z.div_mod s 16 ltac:(lia)). pose proof (Z.div_mod T 16 ltac:(lia)). pose proof (Z.mod_pos_bound T 16 ltac:(lia)).
  assert (Ed : (s + 2 ^ 8 * T) / 16 = s / 16 + 16 * T).
  { replace (s + 2 ^ 8 * T) with (s + (16 * T) * 16) by lia. by rewrite Z.div_add. }
  assert (0 <= T / 16) by (apply Z.div_pos; lia). set (lo := s + s / 16 + 16 * (T mod 16)).
  replace (s + 2 ^ 8 * T + (s + 2 ^ 8 * T) / 16) with (lo + 2 ^ 8 * (T + T / 16)) by (unfold lo; lia).
  rewrite land_mask by (reflexivity || lia). f_equal. change (kOnesStep8xF mod 2 ^ 8) with (Z.ones 4). rewrite Z.land_ones by lia.
  unfold lo. replace (s + s / 16 + 16 * (T mod 16)) with (s + s / 16 + T mod 16 * 2 ^ 4) by lia. by rewrite Z.mod_add.
Qed.

Definition byte_ok (b : Z) : bool :=
  (0 <=? f1 b) && (f1 b <? 2 ^ 8) && (f2 (f1 b) mod 16 <=? 6) && (f2 (f1 b) / 16 <=? 6) && (0 <=? f2 (f1 b)) &&
  ((f2 (f1 b) + f2 (f1 b) / 16) mod 16 =? ones 8 b).

Lemma byte_facts b : 0 <= b < 2 ^ 8 -> 0 <= f1 b < 2 ^ 8 /\ nibbles (f2 (f1 b)) /\ 0 <= f2 (f1 b) < 128 /\
  (f2 (f1 b) + f2 (f1 b) / 16) mod 16 = ones 8 b.
Proof.
  intros Hb. assert (H : byte_ok b = true) by (apply (below byte_ok 256); [vm_compute; reflexivity|exact Hb]).
  unfold byte_ok in H. repeat (apply andb_prop in H as [H ?]).
  repeat match goal with H : _ = true |- _ => first [apply Z.leb_le in H|apply Z.ltb_lt in H|apply Z.eqb_eq in H] end.
  pose proof (Z.div_mod (f2 (f1 b)) 16 ltac:(lia)). pose proof (Z.mod_pos_bound (f2 (f1 b)) 16 ltac:(lia)).
  assert (0 <= f2 (f1 b) / 16) by (apply Z.div_pos; lia). unfold nibbles. lia.
Qed.

Lemma map_bytes_f1 bs : small (2 ^ 8) bs -> zlen bs <= 8 -> f1 (le_val bs) = le_val (map f1 bs).
Proof.
  induction 1 as [|b bs Hb Hs IH]; intros Hl; [reflexivity|]. rewrite zlen_cons in Hl. cbn [le_val map].
  rewrite f1_cons, IH; [reflexivity|lia|assumption|]. pose proof (le_val_bound bs Hs).
  assert (2 ^ (8 * zlen bs) <= 2 ^ 56) by (apply Z.pow_le_mono_r; lia). lia.
Qed.

Lemma map_bytes_f2 bs : small (2 ^ 8) bs -> zlen bs <= 8 -> f2 (le_val bs) = le_val (map f2 bs).
Proof.
  induction 1 as [|b bs Hb Hs IH]; intros Hl; [reflexivity|]. rewrite zlen_cons in Hl. cbn [le_val map].
  rewrite f2_cons, IH; [reflexivity|lia|assumption|]. pose proof (le_val_bound bs Hs).
  assert (2 ^ (8 * zlen bs) <= 2 ^ 56) by (apply Z.pow_le_mono_r; lia). lia.
Qed.

Lemma map_bytes_f3 ss : Forall nibbles ss -> small 128 ss -> zlen ss <= 8 ->
  f3 (le_val ss) = le_val (map (fun s => (s + s / 16) mod 16) ss).
Proof.
  intros Hn. induction Hn as [|s ss Hs Hn IH]; intros Hsm Hl; [reflexivity|]. rewrite zlen_cons in Hl. cbn [le_val map].
  apply Forall_cons in Hsm as [H1 H2]. pose proof (le_val_half ss H2). pose proof (zlen_nonneg ss).
  assert (2 ^ (8 * zlen ss) <= 2 ^ 56) by (apply Z.pow_le_mono_r; lia).
  assert (Hp : 0 <= le_val ss).
  { apply le_val_bound. eapply Forall_impl; [exact H2|]. cbn. lia. }
  assert (Hm : le_val ss mod 16 <= 6).
  { destruct ss as [|t ts]; [vm_compute; discriminate|]. cbn [le_val]. replace (t + 2 ^ 8 * le_val ts) with (t + (16 * le_val ts) * 16) by lia.
    rewrite Z.mod_add by lia. apply Forall_cons in Hn as [[[] _] _]. lia. }
  rewrite f3_cons, IH by (assumption || lia || (assert (le_val ss / 16 <= le_val ss) by (apply Z.div_le_upper_bound; lia); lia)). reflexivity.
Qed.

(** Every byte of [byte_counts] counts the bits of that byte. *)
Lemma byte_counts_exact bs : small (2 ^ 8) bs -> length bs = 8%nat -> byte_counts (le_val bs) = le_val (map (ones 8) bs).
Proof.
  intros Hs Hl. assert (Hz : zlen bs = 8) by (unfold zlen; lia). pose proof (le_val_bound bs Hs) as Hb. rewrite Hz in Hb.
  assert (Hf1 : small (2 ^ 8) (map f1 bs)) by (apply Forall_map; eapply Forall_impl; [exact Hs|]; intros b Hbb; apply (byte_facts b Hbb)).
  assert (Hf2 : small 128 (map f2 (map f1 bs))).
  { rewrite map_map. apply Forall_map. eapply Forall_impl; [exact Hs|]. intros b Hbb. apply (byte_facts b Hbb). }
  assert (Hnb : Forall nibbles (map f2 (map f1 bs))).
  { rewrite map_map. apply Forall_map. eapply Forall_impl; [exact Hs|]. intros b Hbb. apply (byte_facts b Hbb). }
  assert (L1 : zlen (map f1 bs) = 8) by (unfold zlen; rewrite length_map; lia).
  assert (L2 : zlen (map f2 (map f1 bs)) = 8) by (unfold zlen; rewrite !length_map; lia).
  change (byte_counts (le_val bs)) with (Z.land (u64 (u64 (f2 (u64 (f1 (le_val bs)))) + Z.shiftr (u64 (f2 (u64 (f1 (le_val bs))))) 4)) kOnesStep8xF).
  rewrite map_bytes_f1 by (assumption || lia). pose proof (le_val_bound _ Hf1) as B1. rewrite L1 in B1.
  rewrite (u64_id (le_val (map f1 bs))) by (unfold is_u64; rewrite two64_pow; exact B1).
  rewrite map_bytes_f2 by (assumption || lia). set (ss := map f2 _) in *. pose proof (le_val_half ss Hf2) as B2. rewrite L2 in B2.
  assert (B3 : 0 <= le_val ss) by (apply le_val_bound; eapply Forall_impl; [exact Hf2|]; cbn; lia).
  rewrite (u64_id (le_val ss)) by (unfold is_u64; rewrite two64_pow; change (8 * 8) with 64 in B2; lia).
  rewrite u64_id.
  2: { rewrite (shiftr_2n _ 16 4) by lia. assert (0 <= le_val ss / 16 <= le_val ss) by (split; [apply Z.div_pos; lia|apply Z.div_le_upper_bound; lia]).
       unfold is_u64. rewrite two64_pow. change (8 * 8) with 64 in B2. lia. }
  change (f3 (le_val ss) = le_val (map (ones 8) bs)). rewrite map_bytes_f3 by (assumption || lia). f_equal.
  unfold ss. rewrite !map_map. apply map_ext_Forall. eapply Forall_impl; [exact Hs|]. intros b Hbb. apply (byte_facts b Hbb).
Qed.

(** ** The byte of the k-th bit *)

Fixpoint sum (cs : list Z) : Z := match cs with [] => 0 | c :: cs => c + sum cs end.

Fixpoint running (acc : Z) (cs : list Z) : list Z :=
  match cs with [] => [] | c :: cs => (acc + c) :: running (acc + c) cs end.

Definition at_most (k C : Z) : Z := if C <=? k then 1 else 0.

Lemma running_above k cs : forall acc, Forall (fun c => 0 <= c) cs -> k < acc -> sum (map (at_most k) (running acc cs)) = 0.
Proof.
  induction cs as [|c cs IH]; intros acc H Ha; [reflexivity|]. apply Forall_cons in H as [Hc H]. cbn [running map sum]. unfold at_most at 1.
  destruct (Z.leb_spec (acc + c) k); [lia|]. apply IH; [exact H|lia].
Qed.

Lemma running_pick k cs : forall acc, Forall (fun c => 0 <= c) cs -> acc <= k < acc + sum cs ->
  exists m, (m < length cs)%nat /\ sum (map (at_most k) (running acc cs)) = Z.of_nat m /\
    nth m (acc :: running acc cs) 0 = acc + sum (take m cs) /\ acc + sum (take m cs) <= k < acc + sum (take m cs) + nth m cs 0.
Proof.
  induction cs as [|c cs IH]; intros acc H Hk; [cbn in Hk; lia|]. apply Forall_cons in H as [Hc H]. cbn [running map sum length] in *.
  unfold at_most at 1. destruct (Z.leb_spec (acc + c) k).
  - destruct (IH (acc + c) H ltac:(lia)) as (m & Hm & Hs & Hn & Hr). exists (S m). split; [lia|]. split; [lia|].
    change (take (S m) (c :: cs)) with (c :: take m cs). cbn [sum].
    change (nth (S m) (acc :: acc + c :: running (acc + c) cs) 0) with (nth m (acc + c :: running (acc + c) cs) 0).
    change (nth (S m) (c :: cs) 0) with (nth m cs 0). rewrite Hn. lia.
  - exists 0%nat. split; [lia|]. rewrite running_above by (assumption || lia). cbn. lia.
Qed.

Lemma running_sums cs : length cs = 8%nat -> Forall (fun c => 0 <= c <= 8) cs ->
  u64 (le_val cs * kOnesStep8) = le_val (running 0 cs) /\
  shl64 (le_val (running 0 cs)) 8 = le_val (take 8 (0 :: running 0 cs)) /\ Forall (fun C => 0 <= C <= 64) (running 0 cs).
Proof.
  intros Hl H. destruct cs as [|c0 [|c1 [|c2 [|c3 [|c4 [|c5 [|c6 [|c7 [|]]]]]]]]]; try discriminate.
  repeat (apply Forall_cons in H as [? H]). cbn [running take le_val]. unfold shl64, u64. rewrite Z.shiftl_mul_pow2 by lia.
  split; [|split; [|repeat constructor; lia]]; symmetry.
  - apply (Z.mod_unique _ _ (le_val [c1 + c2 + c3 + c4 + c5 + c6 + c7; c2 + c3 + c4 + c5 + c6 + c7; c3 + c4 + c5 + c6 + c7;
      c4 + c5 + c6 + c7; c5 + c6 + c7; c6 + c7; c7])); unfold two64, kOnesStep8; cbn [le_val]; lia.
  - apply (Z.mod_unique _ _ (c0 + c1 + c2 + c3 + c4 + c5 + c6 + c7)); unfold two64; lia.
Qed.

Lemma land_lambda bs : small (2 ^ 8) bs -> zlen bs <= 8 -> Z.land (le_val bs) kLAMBDAsStep8 = le_val (map (fun b => Z.land b 128) bs).
Proof.
  induction 1 as [|b bs Hb Hs IH]; intros Hl; [reflexivity|]. rewrite zlen_cons in Hl. cbn [le_val map].
  pose proof (le_val_bound bs Hs). assert (2 ^ (8 * zlen bs) <= 2 ^ 56) by (apply Z.pow_le_mono_r; lia).
  rewrite land_mask, IH by (reflexivity || lia). reflexivity.
Qed.

Lemma ones_le_val bs : small (2 ^ 8) bs -> ones (8 * length bs) (le_val bs) = sum (map (ones 8) bs).
Proof.
  induction 1 as [|b bs Hb Hs IH]; [reflexivity|]. cbn [length le_val map sum]. replace (8 * S (length bs))%nat with (8 + 8 * length bs)%nat by lia.
  rewrite (ones_block 8), IH by exact Hb. reflexivity.
Qed.

(** The [m]-th byte, its bits, and the bits below. *)
Lemma byte_at bs : small (2 ^ 8) bs -> forall m t, (m < length bs)%nat -> (t < 8)%nat ->
  Z.land (Z.shiftr (le_val bs) (Z.of_nat m * 8)) 0xFF = nth m bs 0 /\
  Z.testbit (le_val bs) (Z.of_nat m * 8 + Z.of_nat t) = Z.testbit (nth m bs 0) (Z.of_nat t) /\
  ones (m * 8 + t) (le_val bs) = sum (take m (map (ones 8) bs)) + ones t (nth m bs 0).
Proof.
  induction 1 as [|b bs Hb Hs IH]; intros m t Hm Ht; [cbn in Hm; lia|]. cbn [length le_val map] in *. destruct m as [|m].
  - cbn [nth take sum]. rewrite Z.mul_0_l, Z.shiftr_0_r, Z.add_0_l. split; [|split].
    + change 0xFF with (Z.ones 8). rewrite Z.land_ones, Z.mul_comm, Z.mod_add by lia. by apply Z.mod_small.
    + rewrite testbit_block by lia. by destruct (Z.ltb_spec (Z.of_nat t) 8); [|lia].
    + cbn [Nat.mul Nat.add]. rewrite Z.add_0_l. apply ones_ext. intros i Hi. rewrite testbit_block by lia. by destruct (Z.ltb_spec i 8); [|lia].
  - destruct (IH m t ltac:(lia) Ht) as (H1 & H2 & H3). cbn [nth]. split; [|split].
    + rewrite <- H1. f_equal. replace (Z.of_nat (S m) * 8) with (8 + Z.of_nat m * 8) by lia. rewrite <- Z.shiftr_shiftr by lia. f_equal.
      rewrite Z.shiftr_div_pow2, Z.mul_comm, Z.div_add by lia. by rewrite Z.div_small.
    + rewrite testbit_block by lia. destruct (Z.ltb_spec (Z.of_nat (S m) * 8 + Z.of_nat t) 8); [lia|]. rewrite <- H2. f_equal. lia.
    + replace (S m * 8 + t)%nat with (8 + (m * 8 + t))%nat by lia. rewrite (ones_block 8), H3 by exact Hb.
      change (take (S m) (ones 8 b :: map (ones 8) bs)) with (ones 8 b :: take m (map (ones 8) bs)). cbn [sum]. lia.
Qed.

(** The table holds the position of every set bit of a byte. *)
Definition table_ok (i : Z) : bool :=
  let b := i mod 256 in let r := i / 256 in
  match kSelectInByte !! Z.to_nat i with
  | Some t => if r <? ones 8 b then (0 <=? t) && (t <? 8) && Z.testbit b t && (ones (Z.to_nat t) b =? r) else true
  | None => false
  end.

Lemma table_select b r : 0 <= b < 256 -> 0 <= r < ones 8 b -> exists t, go_index kSelectInByte (b + 256 * r) = Val t /\
  0 <= t < 8 /\ Z.testbit b t = true /\ ones (Z.to_nat t) b = r.
Proof.
  intros Hb Hr. pose proof (ones_nonneg 8 b). assert (H' : table_ok (b + 256 * r) = true).
  { apply (below table_ok 2048); [vm_compute; reflexivity|lia]. }
  unfold table_ok in H'. rewrite (Z.mul_comm 256), Z.mod_add, Z.div_add, (Z.mod_small b), (Z.div_small b), Z.add_0_l in H' by lia.
  rewrite (Z.mul_comm 256). destruct (kSelectInByte !! Z.to_nat (b + r * 256)) as [t|] eqn:E; [|discriminate].
  destruct (Z.ltb_spec r (ones 8 b)); [|lia]. exists t. unfold go_index. rewrite E.
  change (zlen kSelectInByte) with 2048. destruct (Z.leb_spec 0 (b + r * 256)); [|lia]. destruct (Z.ltb_spec (b + r * 256) 2048); [|lia].
  split; [reflexivity|]. repeat (apply andb_prop in H' as [H' ?]). split; [lia|]. split; [assumption|lia].
Qed.

(** [p] is the position of the [k]-th set bit of [x], counting from 0. *)
Definition selects (x k p : Z) : Prop := 0 <= p /\ Z.testbit x p = true /\ ones (Z.to_nat p) x = k.

Definition step_ok (k : Z) : bool := Z.lor (u64 (k * kOnesStep8)) kLAMBDAsStep8 =? le_val (replicate 8 (k + 128)).
Definition above_ok (v : Z) : bool := ones 8 (Z.land v 128) =? (if 128 <=? v then 1 else 0).

(** The bytes whose running sum is at most [k] are counted. *)
Lemma place_exact k Cs : 0 <= k < 64 -> length Cs = 8%nat -> Forall (fun C => 0 <= C <= 64) Cs ->
  OnesCount64 (Z.land (u64 (Z.lor (u64 (k * kOnesStep8)) kLAMBDAsStep8 - le_val Cs)) kLAMBDAsStep8) = sum (map (at_most k) Cs).
Proof.
  intros Hk Hl HC. assert (Hs : step_ok k = true) by (apply (below step_ok 64); [vm_compute; reflexivity|lia]).
  apply Z.eqb_eq in Hs. rewrite Hs. set (vs := map (fun C => k + 128 - C) Cs).
  assert (Ev : le_val (replicate 8 (k + 128)) - le_val Cs = le_val vs).
  { unfold vs. clear HC. destruct Cs as [|c0 [|c1 [|c2 [|c3 [|c4 [|c5 [|c6 [|c7 [|]]]]]]]]]; try discriminate. cbn [replicate le_val map]. lia. }
  assert (Hv : small (2 ^ 8) vs) by (apply Forall_map; eapply Forall_impl; [exact HC|]; cbn; lia).
  assert (Lv : zlen vs = 8) by (unfold vs, zlen; rewrite length_map, Hl; reflexivity).
  pose proof (le_val_bound vs Hv) as B. rewrite Lv in B. rewrite Ev, u64_id by (unfold is_u64; rewrite two64_pow; exact B).
  rewrite land_lambda by (assumption || lia). unfold OnesCount64.
  assert (H128 : forall v, 0 <= v < 2 ^ 8 -> above_ok v = true /\ 0 <= Z.land v 128 < 2 ^ 8).
  { intros v Hvv. split; [apply (below above_ok 256); [vm_compute; reflexivity|lia]|]. pose proof (land_le_r v 128). lia. }
  set (ls := map _ vs). assert (Hls : small (2 ^ 8) ls) by (apply Forall_map; eapply Forall_impl; [exact Hv|]; intros v Hvv; apply (H128 v Hvv)).
  replace 64%nat with (8 * length ls)%nat by (unfold ls, vs; rewrite !length_map; lia). rewrite ones_le_val by exact Hls.
  f_equal. unfold ls, vs. rewrite !map_map. apply map_ext_Forall. eapply Forall_impl; [exact HC|]. intros C HCC. cbn beta in HCC.
  destruct (H128 (k + 128 - C) ltac:(lia)) as [Ha _]. apply Z.eqb_eq in Ha. rewrite Ha. unfold at_most.
  destruct (Z.leb_spec 128 (k + 128 - C)), (Z.leb_spec C k); lia.
Qed.

Lemma Select64_selects x k : is_u64 x -> 0 <= k < OnesCount64 x -> exists p, Select64 x k = Val p /\ p < 64 /\ selects x k p.
Proof.
  intros Hx Hk. set (bs := le_bytes 8 x). pose proof (le_bytes_small 8 x) as Hs. fold bs in Hs.
  assert (Ex : x = le_val bs) by (unfold bs; rewrite le_val_bytes; [reflexivity|unfold is_u64 in Hx; rewrite two64_pow in Hx; exact Hx]).
  assert (Hl : length bs = 8%nat) by reflexivity. clearbody bs. subst x. set (cs := map (ones 8) bs).
  assert (Hcs : Forall (fun c => 0 <= c <= 8) cs) by (apply Forall_map, Forall_true; intros b; apply (ones_nonneg 8 b)).
  assert (Lc : length cs = 8%nat) by (unfold cs; by rewrite length_map).
  pose proof (ones_nonneg 64 (le_val bs)) as Hon. unfold OnesCount64 in Hk.
  assert (Etot : ones 64 (le_val bs) = sum cs).
  { replace 64%nat with (8 * length bs)%nat by lia. by apply ones_le_val. }
  destruct (running_sums cs Lc Hcs) as (E1 & E2 & HC). assert (LR : length (running 0 cs) = 8%nat).
  { clear - Lc. destruct cs as [|c0 [|c1 [|c2 [|c3 [|c4 [|c5 [|c6 [|c7 [|]]]]]]]]]; try discriminate. reflexivity. }
  unfold Select64. rewrite byte_counts_exact by assumption. fold cs. rewrite E1, place_exact by (assumption || lia). rewrite E2.
  destruct (running_pick k cs 0) as (m & Hm & Es & En & Hr); [eapply Forall_impl; [exact Hcs|]; cbn; lia|lia|].
  rewrite Es. set (Ds := take 8 (0 :: running 0 cs)).
  assert (HDs : small (2 ^ 8) Ds) by (apply Forall_take, Forall_cons; split; [lia|]; eapply Forall_impl; [exact HC|]; cbn; lia).
  assert (LD : length Ds = 8%nat) by (unfold Ds; rewrite length_take; cbn [length]; lia).
  destruct (byte_at Ds HDs m 0%nat ltac:(lia) ltac:(lia)) as (-> & _ & _).
  assert (ED : nth m Ds 0 = sum (take m cs)).
  { unfold Ds. rewrite !Z.add_0_l in En. rewrite <- En, nth_firstn. by destruct (Nat.ltb_spec m 8); [|lia]. }
  rewrite ED, Z.add_0_l in *. assert (Ec : nth m cs 0 = ones 8 (nth m bs 0)).
  { unfold cs. change 0 with (ones 8 0) at 1. apply map_nth. }
  pose proof (ones_nonneg 8 (nth m bs 0)) as Hb8. destruct (byte_at bs Hs m 0%nat ltac:(lia) ltac:(lia)) as (-> & _ & _).
  set (b := nth m bs 0) in *. set (r := k - sum (take m cs)).
  assert (Hb : 0 <= b < 256) by (unfold b; eapply Forall_nth; [exact Hs|lia]).
  rewrite (u64_id r) by (unfold is_u64, two64, r; lia). unfold shl64. rewrite Z.shiftl_mul_pow2, (u64_id (r * 2 ^ 8)) by (unfold is_u64, two64, r; lia).
  replace (Z.lor b (r * 2 ^ 8)) with (b + 256 * r).
  2: { apply Z.bits_inj'. intros n Hn. change 256 with (2 ^ 8). rewrite testbit_block, Z.lor_spec, Z.mul_pow2_bits by lia.
       destruct (Z.ltb_spec n 8); [rewrite (Z.testbit_neg_r r (n - 8)) by lia; by rewrite orb_false_r|].
       rewrite (Z.bits_above_log2 b n), orb_false_l; [reflexivity|lia|]. destruct (Z.eq_dec b 0) as [->|]; [cbn; lia|].
       assert (Z.log2 b < 8) by (apply Z.log2_lt_pow2; lia). lia. }
  destruct (table_select b r Hb ltac:(unfold r; lia)) as (t & -> & Ht & Hbit & Hrank).
  cbn [mbind Res_bind mret Res_ret]. exists (Z.of_nat m * 8 + t). split; [reflexivity|]. split; [lia|].
  destruct (byte_at bs Hs m (Z.to_nat t) ltac:(lia) ltac:(lia)) as (_ & B2 & B3). rewrite Z2Nat.id in B2 by lia.
  split; [lia|]. split; [rewrite B2; exact Hbit|]. replace (Z.to_nat (Z.of_nat m * 8 + t)) with (m * 8 + Z.to_nat t)%nat by lia.
  rewrite B3. fold b cs. rewrite Hrank. unfold r. lia.
Qed.

(** [Select64] is selection in a word: for every 64-bit [x] and every rank [k] below the
    number of its set bits, the word-parallel byte counts, the broadcast comparison and the
    table of bytes find the position of the set bit with exactly [k] set bits below it. *)
Theorem Select64_correct x k : is_u64 x -> 0 <= k < OnesCount64 x ->
  exists p, Select64 x k = Val p /\ 0 <= p < 64 /\ Z.testbit x p = true /\ ones (Z.to_nat p) x = k.
Proof. intros Hx Hk. destruct (Select64_selects x k Hx Hk) as (p & E & Hp & H0 & Hb & Hr). exists p. auto with lia. Qed.

Lemma Select64_correct_witness : is_u64 11529215046068469841 /\ OnesCount64 11529215046068469841 = 5 /\
  exists p, Select64 11529215046068469841 3 = Val p /\ 0 <= p < 64 /\
    Z.testbit 11529215046068469841 p = true /\ ones (Z.to_nat p) 11529215046068469841 = 3.
Proof.
  split; [unfold is_u64, two64; lia|]. split; [vm_compute; reflexivity|].
  apply Select64_correct; [unfold is_u64, two64; lia|]. replace (OnesCount64 11529215046068469841) with 5 by (vm_compute; reflexivity). lia.
Defined.
