(* ===== verification/EliasFano.v ===== *)
(** * Elias-Fano sequences

    [db/recsplit/eliasfano32/elias_fano.go]: a monotone sequence of 64-bit numbers in a
    compressed form with constant-time access. The low bits of the items lie side by side
    in [lowerBits]; the high bits are the positions of the set bits of [upperBits]; [jump]
    has the position of every 2^14-th and, relative to it, of every 2^8-th set bit.

    The three areas are disjoint slices of one array in the source, [data]; here they are
    lists of 64-bit words and [data] is their concatenation. *)

From S2P Require Import Prelude Errors Common Select.

(** ** Words *)

(** [a &^ b]. *)
Definition andnot (a b : Z) : Z := Z.ldiff a b.

(** [ws[i] = v]. *)
Definition set_word (ws : list Z) (i v : Z) : Res (list Z) :=
  if (0 <=? i) && (i <? zlen ws) then mret (<[Z.to_nat i := v]> ws) else Panic "index out of range".

(** [make([]uint64, n)]. *)
Definition make_words (n : Z) : Res (list Z) :=
  if n <? 0 then Panic "makeslice: len out of range" else mret (replicate (Z.to_nat n) 0).

Definition set_ (bits : list Z) (pos : Z) : Res (list Z) :=
  w ← go_index bits (pos / 64);
  set_word bits (pos / 64) (Z.lor w (shl64 1 (pos mod 64))).

Definition setBits (bits : list Z) (start width value : Z) : Res (list Z) :=
  let idx64 := Z.shiftr start 6 in
  let shift := Z.land start 63 in
  let mask := shl64 (u64 (shl64 1 width - 1)) shift in
  w ← go_index bits idx64;
  bits ← set_word bits idx64 (Z.lor (andnot w mask) (shl64 value shift));
  if 64 <? shift + width then set_word bits (idx64 + 1) (Z.shiftr value (64 - shift)) else mret bits.

(** ** The sequence *)

Definition log2q : Z := 8.
Definition q : Z := Z.shiftl 1 log2q.
Definition qMask : Z := q - 1.
Definition superQ : Z := Z.shiftl 1 14.
Definition superQMask : Z := superQ - 1.
Definition qPerSuperQ : Z := superQ / q.
Definition superQSize : Z := 1 + qPerSuperQ / 2.

Record EliasFano : Type := mkEF {
  lowerBits : list Z; upperBits : list Z; ef_jump : list Z;
  lowerBitsMask : Z; ef_count : Z; ef_u : Z; ef_l : Z; maxOffset : Z; ef_i : Z; wordsUpperBits : Z
}.

Definition jumpSizeWords (count : Z) : Z :=
  let n := u64 (count + 1) in
  let size := u64 ((n / superQ) * superQSize) in
  i64 (if negb (n mod superQ =? 0) then u64 (size + (1 + ((n mod superQ + q - 1) / q + 3) / 2)) else size).

(** The width of the low parts, and the sizes of the areas in words. *)
Definition low_width (count u : Z) : Z :=
  let d := u / u64 (count + 1) in
  if d =? 0 then 0 else Z.lxor 63 (LeadingZeros64 d).
Definition wordsLower (count l : Z) : Z := i64 (u64 (u64 (u64 (count + 1) * l) + 63) / 64 + 1).
Definition wordsUpper (count u l : Z) : Z := i64 (u64 (u64 (u64 (count + 1) + Z.shiftr u l) + 63) / 64).

(** [deriveFields] cuts the areas out of [data], fresh zeroes when there is none yet. *)
Definition deriveFields (data : option (list Z)) (count u maxOffset i : Z) : Res (EliasFano * Z) :=
  if u64 (count + 1) =? 0 then Panic "integer divide by zero" else
  let l := low_width count u in
  let lowerBitsMask := u64 (shl64 1 l - 1) in
  let wordsLowerBits := wordsLower count l in
  let wordsUpperBits := wordsUpper count u l in
  let totalWords := wordsLowerBits + wordsUpperBits + jumpSizeWords count in
  data ← (match data with None => make_words totalWords | Some d => go_slice d 0 totalWords end);
  lower ← go_slice data 0 wordsLowerBits;
  upper ← go_slice data wordsLowerBits (wordsLowerBits + wordsUpperBits);
  jump ← go_slice data (wordsLowerBits + wordsUpperBits) (zlen data);
  mret (mkEF lower upper jump lowerBitsMask count u l maxOffset i 0, wordsUpperBits).

Definition with_words (ef : EliasFano) (n : Z) : EliasFano :=
  mkEF (lowerBits ef) (upperBits ef) (ef_jump ef) (lowerBitsMask ef) (ef_count ef) (ef_u ef) (ef_l ef) (maxOffset ef) (ef_i ef) n.
Definition with_areas (ef : EliasFano) lower upper i : EliasFano :=
  mkEF lower upper (ef_jump ef) (lowerBitsMask ef) (ef_count ef) (ef_u ef) (ef_l ef) (maxOffset ef) i (wordsUpperBits ef).
Definition with_jump (ef : EliasFano) j : EliasFano :=
  mkEF (lowerBits ef) (upperBits ef) j (lowerBitsMask ef) (ef_count ef) (ef_u ef) (ef_l ef) (maxOffset ef) (ef_i ef) (wordsUpperBits ef).

Definition NewEliasFano (count maxOffset : Z) : Res EliasFano :=
  if count =? 0 then Panic "too small count"
  else
    '(ef, words) ← deriveFields None (u64 (count - 1)) (u64 (maxOffset + 1)) maxOffset 0;
    mret (with_words ef words).

Definition AddOffset (offset : Z) (ef : EliasFano) : Res EliasFano :=
  lower ← (if negb (ef_l ef =? 0)
           then setBits (lowerBits ef) (u64 (ef_i ef * ef_l ef)) (ef_l ef) (Z.land offset (lowerBitsMask ef))
           else mret (lowerBits ef));
  upper ← set_ (upperBits ef) (u64 (Z.shiftr offset (ef_l ef) + ef_i ef));
  mret (with_areas ef lower upper (u64 (ef_i ef + 1))).

(** ** Building the index of positions *)

(** The counter of set bits, the position of the last 2^14-th one, and the index. *)
Record BuildState : Type := mkBuild { b_c : Z; b_lastSuperQ : Z; b_jump : list Z }.

(** The word and the shift of the entry of the [c]-th bit. *)
Definition jump_slot (c : Z) : Z * Z :=
  let jumpInsideSuperQ := (c mod superQ) / q in
  ((c / superQ) * superQSize + 1 + Z.shiftr jumpInsideSuperQ 1, 32 * (jumpInsideSuperQ mod 2)).

(** A set bit at position [pos]. *)
Definition build_bit (pos : Z) (s : BuildState) : Res BuildState :=
  let c := b_c s in
  s ← (if Z.land c superQMask =? 0 then
         jump ← set_word (b_jump s) ((c / superQ) * superQSize) pos; mret (mkBuild c pos jump)
       else mret s);
  if negb (Z.land c qMask =? 0) then mret (mkBuild (u64 (c + 1)) (b_lastSuperQ s) (b_jump s))
  else
    let offset := u64 (pos - b_lastSuperQ s) in
    if Z.shiftl 1 32 <=? offset then Panic ""
    else
      let '(idx64, shift) := jump_slot c in
      let mask := shl64 0xffffffff shift in
      w ← go_index (b_jump s) idx64;
      jump ← set_word (b_jump s) idx64 (Z.lor (andnot w mask) (shl64 offset shift));
      mret (mkBuild (u64 (c + 1)) (b_lastSuperQ s) jump).

(** The bits [b .. 63] of the [i]-th word, which holds [w]. *)
Fixpoint build_bits (n : nat) (w i b : Z) (s : BuildState) : Res BuildState :=
  match n with
  | O => mret s
  | S n =>
      s ← (if Z.land w (shl64 1 b) =? 0 then mret s else build_bit (u64 (i * 64 + b)) s);
      build_bits n w i (b + 1) s
  end.

Fixpoint build_words (n : nat) (upper : list Z) (i : Z) (s : BuildState) : Res BuildState :=
  match n with
  | O => mret s
  | S n =>
      w ← go_index upper i;
      s ← build_bits 64 w i 0 s;
      build_words n upper (i + 1) s
  end.

Definition Build (ef : EliasFano) : Res EliasFano :=
  s ← build_words (Z.to_nat (wordsUpperBits ef)) (upperBits ef) 0 (mkBuild 0 0 (ef_jump ef));
  mret (with_jump ef (b_jump s)).

(** ** Access *)

(** The 64 bits from position [start] on. *)
Definition lower_window (lower : list Z) (start : Z) : Res Z :=
  let idx64 := start / 64 in
  let shift := start mod 64 in
  w ← go_index lower idx64;
  let low := Z.shiftr w shift in
  if 0 <? shift then w' ← go_index lower (idx64 + 1); mret (Z.lor low (shl64 w' (64 - shift))) else mret low.

(** [for bitCount := OnesCount64(window); bitCount <= d; ...]: to the word with the bit. *)
Fixpoint scan (fuel : nat) (upper : list Z) (currWord window d : Z) : Res (Z * Z * Z) :=
  match fuel with
  | O => OutOfFuel
  | S fuel =>
      let bitCount := OnesCount64 window in
      if bitCount <=? d then
        window ← go_index upper (u64 (currWord + 1));
        scan fuel upper (u64 (currWord + 1)) window (d - bitCount)
      else mret (currWord, window, d)
  end.

(** The position of the [i]-th set bit: the word, the window it was found in, and its place. *)
Definition select_upper (ef : EliasFano) (i : Z) : Res (Z * Z * Z) :=
  let '(idx64, shift) := jump_slot i in
  j0 ← go_index (ef_jump ef) ((i / superQ) * superQSize);
  j1 ← go_index (ef_jump ef) idx64;
  let jump := u64 (j0 + Z.shiftr (Z.land j1 (shl64 0xffffffff shift)) shift) in
  w ← go_index (upperBits ef) (jump / 64);
  '(currWord, window, d) ←
    scan (S (length (upperBits ef))) (upperBits ef) (jump / 64) (Z.land w (shl64 MaxUint64 (jump mod 64))) (Z.land i qMask);
  sel ← Select64 window d;
  mret (currWord, window, sel).

Record Found : Type := mkFound { f_val : Z; f_window : Z; f_sel : Z; f_currWord : Z; f_lower : Z }.

Definition get (ef : EliasFano) (i : Z) : Res Found :=
  lower ← lower_window (lowerBits ef) (u64 (i * ef_l ef));
  '(currWord, window, sel) ← select_upper ef i;
  let val := Z.lor (shl64 (u64 (currWord * 64 + sel - i)) (ef_l ef)) (Z.land lower (lowerBitsMask ef)) in
  mret (mkFound val window sel currWord lower).

Definition Get (ef : EliasFano) (i : Z) : Res Z := r ← get ef i; mret (f_val r).

(** [for window == 0 { currWord++; window = upperBits[currWord] }]. *)
Fixpoint skip_zero (fuel : nat) (upper : list Z) (currWord window : Z) : Res (Z * Z) :=
  match fuel with
  | O => OutOfFuel
  | S fuel =>
      if window =? 0 then
        window ← go_index upper (u64 (currWord + 1)); skip_zero fuel upper (u64 (currWord + 1)) window
      else mret (currWord, window)
  end.

Definition Get2 (ef : EliasFano) (i : Z) : Res (Z * Z) :=
  r ← get ef i;
  let window := Z.land (f_window r) (shl64 (shl64 MaxUint64 (f_sel r)) 1) in
  '(currWord, window) ← skip_zero (S (length (upperBits ef))) (upperBits ef) (f_currWord r) window;
  let lower := Z.shiftr (f_lower r) (ef_l ef) in
  let valNext := Z.lor (shl64 (u64 (currWord * 64 + TrailingZeros64 window - i - 1)) (ef_l ef)) (Z.land lower (lowerBitsMask ef)) in
  mret (f_val r, valNext).

Definition ef_upper (ef : EliasFano) (i : Z) : Res Z :=
  '(currWord, _, sel) ← select_upper ef i;
  mret (u64 (currWord * 64 + sel - i)).

Definition ef_Max (ef : EliasFano) : Z := maxOffset ef.
Definition ef_Min (ef : EliasFano) : Res Z := Get ef 0.
Definition ef_Count (ef : EliasFano) : Z := u64 (ef_count ef + 1).

(** ** Searching *)

(** [sort.Search] with a test that may panic. *)
Fixpoint search_loop (fuel : nat) (f : Z -> Res bool) (i j : Z) : Res Z :=
  match fuel with
  | O => mret i
  | S fuel =>
      if i <? j then
        let h := (i + j) / 2 in
        b ← f h;
        if negb b then search_loop fuel f (h + 1) j else search_loop fuel f i h
      else mret i
  end.
Definition sort_SearchM (n : Z) (f : Z -> Res bool) : Res Z := search_loop (Z.to_nat n) f 0 n.

(** The items from the [j]-th on, or down from the [j]-th last, up to the first that fits. *)
Fixpoint walk_up (fuel : nat) (ef : EliasFano) (v j : Z) : Res (option (Z * Z)) :=
  match fuel with
  | O => OutOfFuel
  | S fuel =>
      if j <=? ef_count ef then
        r ← get ef j;
        if v <=? f_val r then mret (Some (f_val r, j)) else walk_up fuel ef v (u64 (j + 1))
      else mret None
  end.
Fixpoint walk_down (fuel : nat) (ef : EliasFano) (v j : Z) : Res (option (Z * Z)) :=
  match fuel with
  | O => OutOfFuel
  | S fuel =>
      if j <=? ef_count ef then
        let idx := u64 (ef_count ef - j) in
        r ← get ef idx;
        if f_val r <=? v then mret (Some (f_val r, idx)) else walk_down fuel ef v (u64 (j + 1))
      else mret None
  end.

(** The value, its index and whether it was found. *)
Definition search (ef : EliasFano) (v : Z) (reverse : bool) : Res (Z * Z * bool) :=
  if v =? 0 then
    min ← ef_Min ef;
    if reverse then mret (0, 0, min =? 0) else mret (min, 0, true)
  else if v =? ef_Max ef then mret (ef_Max ef, ef_count ef, true)
  else if ef_Max ef <? v then
    if reverse then mret (ef_Max ef, ef_count ef, true) else mret (0, 0, false)
  else
    let hi := Z.shiftr v (ef_l ef) in
    let n := i64 (u64 (ef_count ef + 1)) in
    i ← sort_SearchM n (fun i =>
      if reverse then u ← ef_upper ef (u64 (ef_count ef - i)); mret (u <=? hi)
      else u ← ef_upper ef i; mret (hi <=? u));
    r ← (if reverse then walk_down (S (Z.to_nat n)) ef v i else walk_up (S (Z.to_nat n)) ef v i);
    mret (match r with Some (val, j) => (val, j, true) | None => (0, 0, false) end).

Definition ef_Seek (ef : EliasFano) (v : Z) : Res (Z * bool) :=
  '(n, _, ok) ← search ef v false; mret (n, ok).

(** ** Iterators *)

(** The slices and constants an iterator copies from its sequence are read from it here. *)
Record EliasFanoIter : Type := mkIter {
  it_reverse : bool; it_upper : Z; it_upperIdx : Z; it_lowerIdx : Z; it_upperMask : Z; itemsIterated : Z
}.

Definition ErrIteratorExhausted : Error := NewError "iterator exhausted".

Section Iterators.
Context (ef : EliasFano).

Definition upperStep : Z := shl64 1 (ef_l ef).

Definition it_init (it : EliasFanoIter) : EliasFanoIter :=
  if negb (itemsIterated it =? 0) then it
  else if it_reverse it then
    let higherBitsMaxValue := Z.shiftr (ef_u ef) (ef_l ef) in
    let lastUpperBitIdx := u64 (u64 (ef_count ef + 1) + higherBitsMaxValue) in
    mkIter (it_reverse it) (shl64 higherBitsMaxValue (ef_l ef)) (lastUpperBitIdx / 64) (u64 (ef_count ef * ef_l ef))
      (Z.shiftr (shl64 1 (lastUpperBitIdx mod 64)) 1) (itemsIterated it)
  else mkIter (it_reverse it) (it_upper it) (it_upperIdx it) (it_lowerIdx it) 1 (itemsIterated it).

Definition ef_Iterator : EliasFanoIter := it_init (mkIter false 0 0 0 0 0).
Definition ReverseIterator : EliasFanoIter := it_init (mkIter true 0 0 0 0 0).

Definition HasNext (it : EliasFanoIter) : bool := itemsIterated it <=? ef_count ef.

Definition it_Reset (it : EliasFanoIter) : EliasFanoIter := it_init (mkIter (it_reverse it) 0 0 0 0 0).

Definition it_Seek (n : Z) (it : EliasFanoIter) : Res EliasFanoIter :=
  let it := it_Reset it in
  '(_, nextI, ok) ← search ef n (it_reverse it);
  if negb ok then mret (mkIter (it_reverse it) (it_upper it) (it_upperIdx it) (it_lowerIdx it) (it_upperMask it) (u64 (ef_count ef + 1)))
  else if (nextI =? 0) && negb (it_reverse it) then mret it
  else if (nextI =? ef_count ef) && it_reverse it then mret it
  else if it_reverse it then
    let iterated := u64 (ef_count ef - nextI) in
    r ← get ef (u64 (nextI + 1));
    mret (mkIter true (andnot (f_val r) (Z.land (f_lower r) (lowerBitsMask ef))) (f_currWord r)
            (u64 (it_lowerIdx it - iterated * ef_l ef)) (if 0 <? f_sel r then shl64 1 (f_sel r - 1) else 0) iterated)
  else
    r ← get ef (u64 (nextI - 1));
    mret (mkIter false (andnot (f_val r) (Z.land (f_lower r) (lowerBitsMask ef))) (f_currWord r)
            (u64 (nextI * ef_l ef)) (shl64 1 (f_sel r + 1)) nextI).

(** The upper part, the word and the mask of a position. *)
Definition cursor : Type := Z * Z * Z.

Fixpoint increment_loop (fuel : nat) (c : cursor) : Res cursor :=
  match fuel with
  | O => OutOfFuel
  | S fuel =>
      let '(upper, idx, mask) := c in
      w ← go_index (upperBits ef) idx;
      if Z.land w mask =? 0 then
        let upper := u64 (upper + upperStep) in
        let mask := shl64 mask 1 in
        if mask =? 0 then increment_loop fuel (upper, u64 (idx + 1), 1) else increment_loop fuel (upper, idx, mask)
      else mret c
  end.

Definition increment (it : EliasFanoIter) : Res EliasFanoIter :=
  let '(idx, mask) := if it_upperMask it =? 0 then (u64 (it_upperIdx it + 1), 1) else (it_upperIdx it, it_upperMask it) in
  '(upper, idx, mask) ← increment_loop (S (64 * length (upperBits ef))) (it_upper it, idx, mask);
  mret (mkIter (it_reverse it) upper idx (u64 (it_lowerIdx it + ef_l ef)) (shl64 mask 1) (itemsIterated it)).

(** To the previous word. *)
Definition previous (idx : Z) : Res (Z * Z) :=
  if idx =? 0 then Panic "decrement: unexpected efi.upperIdx underflow" else mret (idx - 1, shl64 1 63).

Fixpoint decrement_loop (fuel : nat) (c : cursor) : Res cursor :=
  match fuel with
  | O => OutOfFuel
  | S fuel =>
      let '(upper, idx, mask) := c in
      w ← go_index (upperBits ef) idx;
      if Z.land w mask =? 0 then
        if upper <? upperStep then Panic "decrement: unexpected efi.upper underflow"
        else
          let upper := upper - upperStep in
          let mask := Z.shiftr mask 1 in
          '(idx, mask) ← (if mask =? 0 then previous idx else mret (idx, mask));
          decrement_loop fuel (upper, idx, mask)
      else mret c
  end.

Definition decrement (it : EliasFanoIter) : Res EliasFanoIter :=
  '(idx, mask) ← (if it_upperMask it =? 0 then previous (it_upperIdx it) else mret (it_upperIdx it, it_upperMask it));
  '(upper, idx, mask) ← decrement_loop (S (64 * length (upperBits ef))) (it_upper it, idx, mask);
  mret (mkIter (it_reverse it) upper idx (u64 (it_lowerIdx it - ef_l ef)) (Z.shiftr mask 1) (itemsIterated it)).

Definition moveNext (it : EliasFanoIter) : Res EliasFanoIter :=
  it ← (if it_reverse it then decrement it else increment it);
  mret (mkIter (it_reverse it) (it_upper it) (it_upperIdx it) (it_lowerIdx it) (it_upperMask it) (u64 (itemsIterated it + 1))).

Definition it_Next (it : EliasFanoIter) : Res (Z * option Error * EliasFanoIter) :=
  if negb (HasNext it) then mret (0, Some ErrIteratorExhausted, it)
  else
    lower ← lower_window (lowerBits ef) (it_lowerIdx it);
    it ← moveNext it;
    mret (Z.lor (it_upper it) (Z.land lower (lowerBitsMask ef)), None, it).
End Iterators.

(** ** The bytes of a sequence *)

Section Bytes.
(** Whether the platform keeps the least significant byte first. *)
Context (little : bool).

Definition word_bytes (w : Z) : bytes := if little then reverse (Z_to_be 8 w) else Z_to_be 8 w.

(** [unsafe.Slice] over the bytes, in words. *)
Fixpoint bytes_words (n : nat) (b : bytes) : list Z :=
  match n with O => [] | S n => NativeEndian_Uint64 little (take 8 b) :: bytes_words n (drop 8 b) end.

Definition ef_data (ef : EliasFano) : list Z := lowerBits ef ++ upperBits ef ++ ef_jump ef.

Definition AppendBytes (ef : EliasFano) (buf : bytes) : bytes :=
  buf ++ Z_to_be 8 (ef_count ef) ++ Z_to_be 8 (ef_u ef) ++ concat (map word_bytes (ef_data ef)).

(** [Write] to a writer that takes everything. *)
Definition ef_Write (ef : EliasFano) : bytes := AppendBytes ef [].

Definition read_header (r : bytes) : Res (Z * Z * list Z) :=
  c ← go_slice r 0 8;
  u ← go_slice r 8 16;
  _ ← go_index r 16;
  mret (be_to_Z c, be_to_Z u, bytes_words (Z.to_nat ((zlen r - 16) / 8)) (drop 16 r)).

Definition ReadEliasFano (r : bytes) : Res (EliasFano * Z) :=
  '(count, u, data) ← read_header r;
  '(ef, _) ← deriveFields (Some data) count u (u64 (u - 1)) 0;
  mret (ef, 16 + 8 * zlen (ef_data ef)).

Definition ef_Reset (ef : EliasFano) (r : bytes) : Res EliasFano :=
  '(count, u, data) ← read_header r;
  '(ef', _) ← deriveFields (Some data) count u (u64 (u - 1)) (ef_i ef);
  mret (with_words ef' (wordsUpperBits ef)).

Definition eliasfano_Max (r : bytes) : Res Z := u ← go_slice r 8 16; mret (u64 (be_to_Z u - 1)).
Definition eliasfano_Count (r : bytes) : Res Z := c ← go_slice r 0 8; mret (u64 (be_to_Z c + 1)).

(** The first item, without building the rest. *)
Definition eliasfano_Min (r : bytes) : Res Z :=
  '(count, u, p) ← read_header r;
  if u64 (count + 1) =? 0 then Panic "integer divide by zero" else
  let l := low_width count u in
  let wordsLowerBits := wordsLower count l in
  let wordsUpperBits := wordsUpper count u l in
  lowerBits ← go_slice p 0 wordsLowerBits;
  upperBits ← go_slice p wordsLowerBits (wordsLowerBits + wordsUpperBits);
  jump ← go_slice p (wordsLowerBits + wordsUpperBits) (zlen p);
  lower ← go_index lowerBits 0;
  j0 ← go_index jump 0;
  j1 ← go_index jump 1;
  let j := u64 (j0 + Z.land j1 0xffffffff) in
  w ← go_index upperBits (j / 64);
  let window := Z.land w (shl64 MaxUint64 (j mod 64)) in
  '(currWord, window) ← (if OnesCount64 window <=? 0 then w ← go_index upperBits (u64 (j / 64 + 1)); mret (u64 (j / 64 + 1), w)
                         else mret (j / 64, window));
  sel ← Select64 window 0;
  mret (Z.lor (shl64 (u64 (currWord * 64 + sel)) l) (Z.land lower (u64 (shl64 1 l - 1)))).

Definition eliasfano_Seek (data : bytes) (n : Z) : Res (Z * bool) := '(ef, _) ← ReadEliasFano data; ef_Seek ef n.
End Bytes.

(** ** Rebased sequences *)

(** [rebased_elias_fano.go]: the items relative to a base. *)
Record RebasedEliasFano : Type := mkRebased { baseNum : Z; reb_ef : EliasFano }.

Definition reb_Get (r : RebasedEliasFano) (i : Z) : Res Z := x ← Get (reb_ef r) i; mret (u64 (baseNum r + x)).
Definition reb_Min (r : RebasedEliasFano) : Res Z := x ← ef_Min (reb_ef r); mret (u64 (baseNum r + x)).
Definition reb_Max (r : RebasedEliasFano) : Z := u64 (baseNum r + ef_Max (reb_ef r)).
Definition reb_Count (r : RebasedEliasFano) : Z := ef_Count (reb_ef r).
Definition reb_Seek (r : RebasedEliasFano) (v : Z) : Res (Z * bool) :=
  let v := if v <? baseNum r then baseNum r else v in
  '(n, found) ← ef_Seek (reb_ef r) (u64 (v - baseNum r));
  mret (u64 (baseNum r + n), found).
Definition reb_Reset (little : bool) (r : RebasedEliasFano) (base : Z) (raw : bytes) : Res RebasedEliasFano :=
  ef ← ef_Reset little (reb_ef r) raw; mret (mkRebased base ef).

(** The base and the direction of a wrapped iterator are those of its sequence and of the
    iterator inside. *)
Definition reb_Iterator (r : RebasedEliasFano) : EliasFanoIter := ef_Iterator (reb_ef r).
Definition reb_ReverseIterator (r : RebasedEliasFano) : EliasFanoIter := ReverseIterator (reb_ef r).
Definition reb_it_HasNext (r : RebasedEliasFano) (it : EliasFanoIter) : bool := HasNext (reb_ef r) it.
Definition reb_it_Next (r : RebasedEliasFano) (it : EliasFanoIter) : Res (Z * option Error * EliasFanoIter) :=
  '(n, err, it) ← it_Next (reb_ef r) it; mret (u64 (baseNum r + n), err, it).
Definition reb_it_Seek (r : RebasedEliasFano) (v : Z) (it : EliasFanoIter) : Res EliasFanoIter :=
  if v <? baseNum r then
    it ← it_Seek (reb_ef r) 0 it;
    if it_reverse it then '(_, _, it) ← it_Next (reb_ef r) it; mret it else mret it
  else it_Seek (reb_ef r) (u64 (v - baseNum r)) it.
