(* ===== verification/EliasFanoSpec.v ===== *)
(** * Elias-Fano sequences hold what was put into them

    For [EliasFano]: the words of the areas are seen as one number ([wval]); writing an item
    adds its low bits and one high bit to these numbers, the index has the positions of the
    high bits, and access finds them back. *)

From Stdlib Require Import Sorting.Sorted.
From S2P Require Import Prelude Errors Common Select EliasFano.

(** ** Areas as numbers *)

Definition words (ws : list Z) : Prop := Forall is_u64 ws.

Fixpoint wval (ws : list Z) : Z := match ws with [] => 0 | w :: ws => w + 2 ^ 64 * wval ws end.

Lemma wval_nonneg ws : words ws -> 0 <= wval ws.
Proof. induction 1 as [|w ws Hw _ IH]; [cbn; lia|]. cbn [wval]. unfold is_u64 in Hw. lia. Qed.

Lemma is_u64_pow w : is_u64 w -> 0 <= w < 2 ^ 64.
Proof. unfold is_u64. by rewrite two64_pow. Qed.

Lemma wval_bound ws : words ws -> wval ws < 2 ^ (64 * zlen ws).
Proof.
  induction 1 as [|w l Hw _ IH]; [vm_compute; reflexivity|]. cbn [wval]. rewrite zlen_cons. replace (64 * (1 + zlen l)) with (64 + 64 * zlen l) by lia.
  pose proof (zlen_nonneg l). rewrite Z.pow_add_r by lia. apply is_u64_pow in Hw. lia.
Qed.

Lemma wval_bit ws : words ws -> forall n, 0 <= n -> Z.testbit (wval ws) n = Z.testbit (nth (Z.to_nat (n / 64)) ws 0) (n mod 64).
Proof.
  induction 1 as [|w ws Hw _ IH]; intros n Hn; [by rewrite nth_overflow, !Z.testbit_0_l by (cbn; lia)|]. cbn [wval].
  rewrite testbit_block by (auto using is_u64_pow || lia). destruct (Z.ltb_spec n 64).
  - rewrite Z.div_small, Z.mod_small by lia. reflexivity.
  - rewrite IH by lia. replace n with (n - 64 + 1 * 64) at 3 4 by lia. rewrite Z.div_add, Z.mod_add by lia.
    pose proof (Z.div_pos (n - 64) 64 ltac:(lia) ltac:(lia)). rewrite Z2Nat.inj_add by lia. rewrite Nat.add_comm. reflexivity.
Qed.

Lemma nth_words ws i : words ws -> is_u64 (nth i ws 0).
Proof.
  intros H. destruct (Nat.lt_ge_cases i (length ws)) as [Hi|Hi]; [by apply Forall_nth|].
  rewrite nth_overflow by exact Hi. unfold is_u64, two64. lia.
Qed.

Lemma nth_insert (ws : list Z) i j v : (i < length ws)%nat -> nth j (<[i := v]> ws) 0 = if decide (i = j) then v else nth j ws 0.
Proof.
  intros Hi. rewrite !nth_lookup. case_decide as Hij; [subst j; by rewrite list_lookup_insert_eq|by rewrite list_lookup_insert_ne].
Qed.

Lemma go_index_nth (ws : list Z) i : 0 <= i < zlen ws -> go_index ws i = Val (nth (Z.to_nat i) ws 0).
Proof.
  intros Hi. unfold go_index. destruct (Z.leb_spec 0 i); [|lia]. destruct (Z.ltb_spec i (zlen ws)); [|lia]. cbn [andb].
  destruct (lookup_lt_is_Some_2 ws (Z.to_nat i)) as [w Ew]; [unfold zlen in *; lia|]. rewrite Ew. by rewrite (nth_lookup_Some _ _ _ _ Ew).
Qed.

Lemma set_word_val (ws : list Z) i v : 0 <= i < zlen ws -> set_word ws i v = Val (<[Z.to_nat i := v]> ws).
Proof.
  intros Hi. unfold set_word. destruct (Z.leb_spec 0 i); [|lia]. destruct (Z.ltb_spec i (zlen ws)); [|lia]. reflexivity.
Qed.

Lemma words_insert ws i v : words ws -> is_u64 v -> words (<[i := v]> ws).
Proof. intros H Hv. by apply Forall_insert. Qed.

Lemma is_u64_bits x : 0 <= x -> (forall n, 64 <= n -> Z.testbit x n = false) -> is_u64 x.
Proof.
  intros Hx H. unfold is_u64. rewrite two64_pow. split; [exact Hx|]. destruct (Z.eq_dec x 0) as [->|]; [lia|].
  apply Z.log2_lt_pow2; [lia|]. destruct (Z.lt_ge_cases (Z.log2 x) 64) as [|Hl]; [assumption|].
  pose proof (Z.bit_log2 x ltac:(lia)) as Hb. rewrite (H _ Hl) in Hb. discriminate.
Qed.

Lemma u64_bit x n : is_u64 x -> 64 <= n -> Z.testbit x n = false.
Proof.
  intros Hx Hn. apply is_u64_pow in Hx. destruct (Z.eq_dec x 0) as [->|]; [apply Z.testbit_0_l|].
  apply Z.bits_above_log2; [lia|]. assert (Z.log2 x < 64) by (apply Z.log2_lt_pow2; lia). lia.
Qed.

(** The bits of a shifted word. *)
Lemma shl64_bit x s n : 0 <= s -> 0 <= n -> Z.testbit (shl64 x s) n = (n <? 64) && Z.testbit x (n - s).
Proof.
  intros Hs Hn. unfold shl64, u64. rewrite two64_pow. destruct (Z.ltb_spec n 64).
  - rewrite Z.mod_pow2_bits_low, Z.shiftl_spec by lia. reflexivity.
  - rewrite Z.mod_pow2_bits_high by lia. reflexivity.
Qed.

Lemma shl64_range x s : is_u64 (shl64 x s).
Proof. apply u64_range. Qed.

Lemma pow2_bit p n : 0 <= p -> Z.testbit (2 ^ p) n = (n =? p).
Proof. intros Hp. rewrite Z.pow2_bits_eqb by exact Hp. apply Z.eqb_sym. Qed.

Lemma one_bit n : Z.testbit 1 n = (n =? 0).
Proof. exact (pow2_bit 0 n ltac:(lia)). Qed.

(** A position by word and place. *)
Lemma same_position n p : 0 <= n -> 0 <= p -> (n =? p) = bool_decide (Z.to_nat (n / 64) = Z.to_nat (p / 64)) && (n mod 64 =? p mod 64).
Proof.
  intros Hn Hp. pose proof (Z.div_mod n 64). pose proof (Z.div_mod p 64).
  pose proof (Z.div_pos n 64). pose proof (Z.div_pos p 64). case_bool_decide; destruct (Z.eqb_spec n p), (Z.eqb_spec (n mod 64) (p mod 64)); try reflexivity; subst; lia.
Qed.

Lemma position_in (ws : list Z) p : 0 <= p < 64 * zlen ws -> 0 <= p / 64 < zlen ws /\ 0 <= p mod 64 < 64 /\ (Z.to_nat (p / 64) < length ws)%nat.
Proof.
  intros Hp. pose proof (Z.mod_pos_bound p 64 ltac:(lia)). assert (0 <= p / 64 < zlen ws) by (split; [apply Z.div_pos; lia|apply Z.div_lt_upper_bound; lia]).
  split; [assumption|]. split; [assumption|]. unfold zlen in *. lia.
Qed.

Lemma set_exact ws pos : words ws -> 0 <= pos < 64 * zlen ws ->
  exists ws', set_ ws pos = Val ws' /\ words ws' /\ zlen ws' = zlen ws /\ wval ws' = Z.lor (wval ws) (2 ^ pos).
Proof.
  intros H Hp. destruct (position_in ws pos Hp) as (Hi & Hm & Hn). unfold set_. rewrite go_index_nth by exact Hi.
  cbn [mbind Res_bind]. rewrite set_word_val by exact Hi. eexists. split; [reflexivity|].
  assert (Hw : words (<[Z.to_nat (pos / 64):=Z.lor (nth (Z.to_nat (pos / 64)) ws 0) (shl64 1 (pos mod 64))]> ws)).
  { apply words_insert; [exact H|]. pose proof (nth_words ws (Z.to_nat (pos / 64)) H) as Hx. apply is_u64_bits.
    - apply Z.lor_nonneg. split; [apply Hx|apply shl64_range].
    - intros n Hn'. rewrite Z.lor_spec, shl64_bit by lia. rewrite u64_bit by assumption. by destruct (Z.ltb_spec n 64); [lia|]. }
  split; [exact Hw|]. split; [unfold zlen; by rewrite length_insert|].
  apply Z.bits_inj'. intros n Hn'. rewrite wval_bit, Z.lor_spec, pow2_bit, wval_bit by (assumption || lia).
  rewrite nth_insert by exact Hn. rewrite (same_position n pos) by lia.
  case_decide as Hd; case_bool_decide as Hb; try congruence.
  - rewrite Z.lor_spec, shl64_bit, one_bit by (try apply Z.mod_pos_bound; lia). pose proof (Z.mod_pos_bound n 64 ltac:(lia)).
    rewrite Hd. destruct (Z.ltb_spec (n mod 64) 64); [|lia]. f_equal. cbn [andb]. lia.
  - cbn [andb]. by rewrite orb_false_r.
Qed.

Lemma bit_above x s n : 0 <= x < 2 ^ s -> s <= n -> Z.testbit x n = false.
Proof.
  intros Hx Hn. destruct (Z.eq_dec x 0) as [->|]; [apply Z.testbit_0_l|]. apply Z.bits_above_log2; [lia|].
  assert (Z.log2 x < s) by (apply Z.log2_lt_pow2; lia). lia.
Qed.

Lemma ldiff_u64 w m : is_u64 w -> is_u64 (Z.ldiff w m).
Proof.
  intros Hw. apply is_u64_bits; [apply Z.ldiff_nonneg; left; apply Hw|]. intros n Hn. by rewrite Z.ldiff_spec, u64_bit by assumption.
Qed.

Lemma lor_u64 a b : is_u64 a -> is_u64 b -> is_u64 (Z.lor a b).
Proof.
  intros Ha Hb. apply is_u64_bits; [apply Z.lor_nonneg; split; [apply Ha|apply Hb]|]. intros n Hn. by rewrite Z.lor_spec, !u64_bit by assumption.
Qed.

Lemma shiftr_u64 a n : 0 <= n -> is_u64 a -> is_u64 (Z.shiftr a n).
Proof.
  intros Hn Ha. apply is_u64_bits; [apply Z.shiftr_nonneg, Ha|]. intros m Hm. rewrite Z.shiftr_spec by lia. apply u64_bit; [exact Ha|lia].
Qed.

(** The place of bit [n] relative to [start], in terms of words. *)
Lemma split_start n start : 0 <= n -> 0 <= start ->
  n - start = 64 * (n / 64 - start / 64) + n mod 64 - start mod 64 /\ 0 <= n mod 64 < 64 /\ 0 <= start mod 64 < 64 /\ 0 <= n / 64 /\ 0 <= start / 64.
Proof.
  intros Hn Hs. pose proof (Z.div_mod n 64). pose proof (Z.div_mod start 64). pose proof (Z.mod_pos_bound n 64). pose proof (Z.mod_pos_bound start 64).
  pose proof (Z.div_pos n 64). pose proof (Z.div_pos start 64). lia.
Qed.

Lemma setBits_exact ws start width value : words ws -> 0 <= start -> 0 < width < 64 -> start + width <= 64 * zlen ws ->
  0 <= value < 2 ^ width -> wval ws < 2 ^ start ->
  exists ws', setBits ws start width value = Val ws' /\ words ws' /\ zlen ws' = zlen ws /\ wval ws' = Z.lor (wval ws) (value * 2 ^ start).
Proof.
  intros H Hs Hw Hfit Hv Hlow. pose proof (wval_nonneg ws H) as Hnn. unfold setBits.
  rewrite (shiftr_2n start 64 6) by lia.
  change 63 with (Z.ones 6). rewrite Z.land_ones by lia. change (2 ^ 6) with 64.
  destruct (position_in ws start ltac:(lia)) as (Hi & Hm & Hn). rewrite go_index_nth by exact Hi. cbn [mbind Res_bind]. rewrite set_word_val by exact Hi.
  cbn [mbind Res_bind]. set (mask := shl64 _ _). set (idx := Z.to_nat (start / 64)) in *. set (w := nth idx ws 0). set (sh := start mod 64) in *.
  set (w1 := Z.lor (andnot w mask) (shl64 value sh)). assert (Hv64 : is_u64 value).
  { unfold is_u64. rewrite two64_pow. assert (2 ^ width <= 2 ^ 64) by (apply Z.pow_le_mono_r; lia). lia. }
  assert (Hw1 : is_u64 w1) by (apply lor_u64; [apply ldiff_u64, nth_words, H|apply shl64_range]).
  assert (Hmask : forall r, 0 <= r < sh -> Z.testbit mask r = false).
  { intros r Hr. unfold mask. rewrite shl64_bit by lia. rewrite (Z.testbit_neg_r _ (r - sh)) by lia. apply andb_false_r. }
  assert (Hrest : forall j n, 0 <= n -> j = Z.to_nat (n / 64) -> j <> idx -> (j = S idx -> sh + width <= 64) ->
     Z.testbit (nth j ws 0) (n mod 64) = Z.testbit (Z.lor (wval ws) (value * 2 ^ start)) n).
  { intros j n Hn' -> Hne Hj. rewrite Z.lor_spec, Z.mul_pow2_bits, wval_bit by (assumption || lia).
    destruct (split_start n start Hn' Hs) as (E & B1 & B2 & B3 & B4). destruct (Z.lt_ge_cases n start).
    - rewrite (Z.testbit_neg_r value) by lia. by rewrite orb_false_r.
    - rewrite (bit_above value width); [by rewrite orb_false_r|exact Hv|]. unfold sh, idx in *.
      destruct (Z.eq_dec (n / 64) (start / 64 + 1)) as [En|En]; [specialize (Hj ltac:(lia)); lia|]. lia. }
  assert (Hfirst : forall n, 0 <= n -> idx = Z.to_nat (n / 64) -> Z.testbit w1 (n mod 64) = Z.testbit (Z.lor (wval ws) (value * 2 ^ start)) n).
  { intros n Hn' E. unfold w1, andnot. destruct (split_start n start Hn' Hs) as (En & B1 & B2 & B3 & B4).
    rewrite !Z.lor_spec, Z.ldiff_spec, shl64_bit, Z.mul_pow2_bits, wval_bit by (assumption || lia). rewrite <- E. fold w sh.
    destruct (Z.ltb_spec (n mod 64) 64); [|lia]. cbn [andb]. replace (n - start) with (n mod 64 - sh) by (unfold sh, idx in *; lia). f_equal.
    destruct (Z.lt_ge_cases (n mod 64) sh) as [Hr|Hr]; [rewrite Hmask by lia; by rewrite andb_true_r|].
    assert (Hz : Z.testbit (wval ws) n = false) by (apply (bit_above _ start); unfold sh, idx in *; lia).
    rewrite wval_bit, <- E in Hz by assumption. fold w in Hz. by rewrite Hz. }
  destruct (Z.ltb_spec 64 (sh + width)) as [Hover|Hfits].
  - assert (Hi2 : 0 <= start / 64 + 1 < zlen ws) by (pose proof (Z.div_mod start 64); unfold sh in *; lia).
    rewrite set_word_val by (unfold zlen in *; rewrite length_insert; exact Hi2). eexists. split; [reflexivity|].
    set (w2 := Z.shiftr value (64 - sh)). assert (Hw2 : is_u64 w2) by (apply shiftr_u64; [lia|exact Hv64]).
    replace (Z.to_nat (start / 64 + 1)) with (S idx) by (unfold idx; lia).
    split; [by repeat apply words_insert|]. split; [unfold zlen; by rewrite !length_insert|].
    apply Z.bits_inj'. intros n Hn'. rewrite wval_bit by (assumption || by repeat apply words_insert).
    rewrite nth_insert by (rewrite length_insert; unfold zlen in *; lia). case_decide as Hd.
    + destruct (split_start n start Hn' Hs) as (En & B1 & B2 & B3 & B4). unfold w2.
      rewrite Z.shiftr_spec, Z.lor_spec, Z.mul_pow2_bits by lia. rewrite (bit_above (wval ws) start) by (unfold sh, idx in *; lia).
      cbn [orb]. f_equal. unfold sh, idx in *. lia.
    + rewrite nth_insert by exact Hn. case_decide as Hd2; [by apply Hfirst|]. apply Hrest; [exact Hn'|reflexivity|congruence|]. congruence.
  - eexists. split; [reflexivity|]. split; [by apply words_insert|]. split; [unfold zlen; by rewrite length_insert|].
    apply Z.bits_inj'. intros n Hn'. rewrite wval_bit by (assumption || by apply words_insert). rewrite nth_insert by exact Hn.
    case_decide as Hd; [by apply Hfirst|]. apply Hrest; [exact Hn'|reflexivity|congruence|]. intros _. exact Hfits.
Qed.

Lemma at_word r k : 0 <= r < 64 -> (r + k * 64) / 64 = k /\ (r + k * 64) mod 64 = r.
Proof. intros Hr. rewrite Z.div_add, Z.mod_add by lia. rewrite (Z.div_small r), (Z.mod_small r) by lia. lia. Qed.

Lemma lower_window_exact ws start : words ws -> 0 <= start -> start / 64 < zlen ws -> (0 < start mod 64 -> start / 64 + 1 < zlen ws) ->
  lower_window ws start = Val (Z.shiftr (wval ws) start mod 2 ^ 64).
Proof.
  intros H Hs Hfit Hfit2. pose proof (Z.mod_pos_bound start 64 ltac:(lia)) as Hm. pose proof (Z.div_pos start 64 ltac:(lia) ltac:(lia)).
  unfold lower_window. rewrite (go_index_nth ws (start / 64)) by lia. cbn [mbind Res_bind]. pose proof (Z.div_mod start 64 ltac:(lia)).
  assert (Hbits : forall n, 0 <= n -> Z.testbit (Z.shiftr (wval ws) start mod 2 ^ 64) n =
    (n <? 64) && Z.testbit (nth (Z.to_nat ((n + start) / 64)) ws 0) ((n + start) mod 64)).
  { intros n Hn. destruct (Z.ltb_spec n 64); [|by rewrite Z.mod_pow2_bits_high by lia]. cbn [andb].
    rewrite Z.mod_pow2_bits_low, Z.shiftr_spec, wval_bit by (assumption || lia). reflexivity. }
  destruct (Z.ltb_spec 0 (start mod 64)) as [Hsh|Hsh]; [rewrite go_index_nth by (specialize (Hfit2 Hsh); lia); cbn [mbind Res_bind]|];
    cbn [mret Res_ret]; f_equal; apply Z.bits_inj'; intros n Hn; rewrite Hbits by exact Hn.
  - rewrite Z.lor_spec, Z.shiftr_spec, shl64_bit by lia. destruct (Z.ltb_spec n 64); cbn [andb].
    2: { rewrite u64_bit, orb_false_r; [reflexivity|apply nth_words, H|lia]. }
    destruct (Z.lt_ge_cases (n + start mod 64) 64).
    + rewrite (Z.testbit_neg_r _ (n - _)), orb_false_r by lia.
      replace (n + start) with (n + start mod 64 + (start / 64) * 64) by lia.
      by destruct (at_word (n + start mod 64) (start / 64) ltac:(lia)) as [-> ->].
    + rewrite u64_bit, orb_false_l by (apply nth_words, H || lia).
      replace (n + start) with (n + start mod 64 - 64 + (start / 64 + 1) * 64) by lia.
      destruct (at_word (n + start mod 64 - 64) (start / 64 + 1) ltac:(lia)) as [-> ->]. f_equal. lia.
  - rewrite Z.shiftr_spec by lia. destruct (Z.ltb_spec n 64); cbn [andb].
    + replace (n + start) with (n + start / 64 * 64) by lia.
      destruct (at_word n (start / 64) ltac:(lia)) as [-> ->]. f_equal. lia.
    + apply u64_bit; [apply nth_words, H|lia].
Qed.

(** ** Low parts *)

Fixpoint lowval (l : Z) (xs : list Z) : Z := match xs with [] => 0 | x :: xs => x mod 2 ^ l + 2 ^ l * lowval l xs end.

Lemma lowval_bound l xs : 0 <= l -> 0 <= lowval l xs < 2 ^ (l * zlen xs).
Proof.
  intros Hl. induction xs as [|x xs IH]; [change (zlen (@nil Z)) with 0; rewrite Z.mul_0_r; cbn; lia|]. cbn [lowval].
  pose proof (zlen_nonneg xs). assert (0 < 2 ^ l) by (apply Z.pow_pos_nonneg; lia). pose proof (Z.mod_pos_bound x (2 ^ l) ltac:(lia)).
  rewrite zlen_cons. replace (l * (1 + zlen xs)) with (l + l * zlen xs) by lia. rewrite Z.pow_add_r by nia. nia.
Qed.

Lemma lowval_snoc l xs x : 0 <= l -> lowval l (xs ++ [x]) = lowval l xs + (x mod 2 ^ l) * 2 ^ (l * zlen xs).
Proof.
  intros Hl. induction xs as [|y xs IH]; cbn [lowval app]; [change (zlen (@nil Z)) with 0; rewrite !Z.mul_0_r, Z.pow_0_r; lia|].
  rewrite IH, zlen_cons. replace (l * (1 + zlen xs)) with (l + l * zlen xs) by lia. pose proof (zlen_nonneg xs). rewrite Z.pow_add_r by nia. ring.
Qed.

Lemma lowval_get l xs : 0 <= l -> forall j, (j < length xs)%nat ->
  Z.shiftr (lowval l xs) (Z.of_nat j * l) mod 2 ^ l = nth j xs 0 mod 2 ^ l.
Proof.
  intros Hl. assert (0 < 2 ^ l) by (apply Z.pow_pos_nonneg; lia).
  induction xs as [|x xs IH]; intros j Hj; [cbn in Hj; lia|]. cbn [lowval length] in *. pose proof (Z.mod_pos_bound x (2 ^ l) ltac:(lia)).
  destruct j as [|j].
  - rewrite Z.mul_0_l, Z.shiftr_0_r, Z.mul_comm, Z.mod_add, Z.mod_mod by lia. reflexivity.
  - change (nth (S j) (x :: xs) 0) with (nth j xs 0). rewrite <- IH by lia. f_equal. replace (Z.of_nat (S j) * l) with (l + Z.of_nat j * l) by lia.
    rewrite <- Z.shiftr_shiftr by nia. f_equal. rewrite Z.shiftr_div_pow2, Z.mul_comm, Z.div_add by lia. by rewrite Z.div_small.
Qed.

Lemma lor_add a v s : 0 <= s -> 0 <= a < 2 ^ s -> Z.lor a (v * 2 ^ s) = a + v * 2 ^ s.
Proof.
  intros Hs Ha. apply Z.bits_inj'. intros n Hn. rewrite (Z.mul_comm v), testbit_block, Z.lor_spec, (Z.mul_comm (2 ^ s)), Z.mul_pow2_bits by lia.
  destruct (Z.ltb_spec n s); [rewrite (Z.testbit_neg_r v) by lia; by rewrite orb_false_r|by rewrite (bit_above a s)].
Qed.

(** ** High parts *)

(** [U] has exactly the bits at the positions [ps], in increasing order. *)
Record marks (U : Z) (ps : list Z) : Prop := mkMarks {
  mk_nonneg : 0 <= U;
  mk_select i : (i < length ps)%nat -> selects U (Z.of_nat i) (nth i ps 0);
  mk_total N : U < 2 ^ Z.of_nat N -> ones N U = zlen ps
}.

Lemma marks_nil : marks 0 [].
Proof. split; [lia|intros i Hi; cbn in Hi; lia|]. intros N _. induction N as [|N IH]; [reflexivity|]. cbn [ones]. by rewrite IH, Z.testbit_0_l. Qed.

Lemma ones_setbit U p n : 0 <= p -> Z.testbit U p = false -> ones n (Z.lor U (2 ^ p)) = ones n U + Z.b2z (p <? Z.of_nat n).
Proof.
  intros Hp Hb. induction n as [|n IH]; [cbn [ones]; destruct (Z.ltb_spec p (Z.of_nat 0)); cbn; lia|]. cbn [ones].
  rewrite IH, Z.lor_spec, pow2_bit by lia. destruct (Z.eqb_spec (Z.of_nat n) p) as [<-|Hne].
  - rewrite Hb. destruct (Z.ltb_spec (Z.of_nat n) (Z.of_nat n)); [lia|]. destruct (Z.ltb_spec (Z.of_nat n) (Z.of_nat (S n))); cbn; lia.
  - rewrite orb_false_r. destruct (Z.ltb_spec p (Z.of_nat n)), (Z.ltb_spec p (Z.of_nat (S n))); cbn [Z.b2z]; lia.
Qed.

Lemma bits_below_pow2 x s : 0 <= s -> 0 <= x -> (forall n, s <= n -> Z.testbit x n = false) -> x < 2 ^ s.
Proof.
  intros Hs Hx H. destruct (Z.eq_dec x 0) as [->|]; [apply Z.pow_pos_nonneg; lia|]. apply Z.log2_lt_pow2; [lia|].
  destruct (Z.lt_ge_cases (Z.log2 x) s) as [|Hl]; [assumption|]. pose proof (Z.bit_log2 x ltac:(lia)) as Hb. rewrite (H _ Hl) in Hb. discriminate.
Qed.

Lemma marks_snoc U ps p : marks U ps -> 0 <= p -> U < 2 ^ p -> marks (Z.lor U (2 ^ p)) (ps ++ [p]) /\ Z.lor U (2 ^ p) < 2 ^ (p + 1).
Proof.
  intros [Hu Hs Ht] Hp Hlt. assert (Hb : Z.testbit U p = false) by (apply (bit_above _ p); lia).
  assert (Hup : Z.lor U (2 ^ p) < 2 ^ (p + 1)).
  { apply bits_below_pow2; [lia|apply Z.lor_nonneg; split; [exact Hu|apply Z.pow_nonneg; lia]|].
    intros n Hn. rewrite Z.lor_spec, pow2_bit, (bit_above U p) by lia. destruct (Z.eqb_spec n p); [lia|reflexivity]. }
  split; [|exact Hup]. split.
  - apply Z.lor_nonneg. split; [exact Hu|apply Z.pow_nonneg; lia].
  - intros i Hi. rewrite length_app in Hi. cbn [length] in Hi. destruct (Nat.lt_ge_cases i (length ps)) as [Hlt'|Hge].
    + rewrite app_nth1 by exact Hlt'. destruct (Hs i Hlt') as (H1 & H2 & H3). split; [exact H1|]. rewrite Z.lor_spec, H2. split; [reflexivity|].
      rewrite ones_setbit, H3 by assumption. destruct (Z.lt_ge_cases (nth i ps 0) p) as [Hq|Hq].
      * destruct (Z.ltb_spec p (Z.of_nat (Z.to_nat (nth i ps 0)))); cbn; lia.
      * rewrite (bit_above U p) in H2 by lia. discriminate.
    + assert (i = length ps) as -> by lia. rewrite app_nth2, Nat.sub_diag by lia. cbn [nth]. split; [exact Hp|].
      rewrite Z.lor_spec, pow2_bit, Z.eqb_refl, orb_true_r by lia. split; [reflexivity|]. rewrite ones_setbit by assumption.
      rewrite Z2Nat.id by lia. destruct (Z.ltb_spec p p); [lia|]. rewrite Ht by (rewrite Z2Nat.id by lia; exact Hlt). unfold zlen. cbn. lia.
  - intros N HN. rewrite ones_setbit by assumption. assert (HpN : p < Z.of_nat N).
    { destruct (Z.lt_ge_cases p (Z.of_nat N)) as [|Hge]; [assumption|]. assert (Hbit : Z.testbit (Z.lor U (2 ^ p)) p = false).
      { apply (bit_above _ (Z.of_nat N)); [|exact Hge]. split; [apply Z.lor_nonneg; split; [exact Hu|apply Z.pow_nonneg; lia]|exact HN]. }
      rewrite Z.lor_spec, pow2_bit, Z.eqb_refl, orb_true_r in Hbit by lia. discriminate. }
    rewrite Ht by (eapply Z.lt_trans; [exact Hlt|apply Z.pow_lt_mono_r; lia]).
    destruct (Z.ltb_spec p (Z.of_nat N)); [|lia]. unfold zlen. rewrite length_app. cbn. lia.
Qed.

(** Ranks and positions determine each other. *)
Lemma ones_mono x m k : (m <= k)%nat -> ones m x <= ones k x.
Proof. intros H. replace k with (m + (k - m))%nat by lia. rewrite ones_add. pose proof (ones_nonneg (k - m) (Z.shiftr x (Z.of_nat m))). lia. Qed.

Lemma ones_after x p : 0 <= p -> Z.testbit x p = true -> ones (Z.to_nat (p + 1)) x = ones (Z.to_nat p) x + 1.
Proof. intros Hp Hb. replace (Z.to_nat (p + 1)) with (S (Z.to_nat p)) by lia. cbn [ones]. rewrite Z2Nat.id, Hb by lia. cbn [Z.b2z]. lia. Qed.

Lemma selects_lt x k p k' p' : selects x k p -> selects x k' p' -> p < p' -> k < k'.
Proof.
  intros (H1 & H2 & H3) (H1' & H2' & H3') Hlt. pose proof (ones_after x p H1 H2).
  pose proof (ones_mono x (Z.to_nat (p + 1)) (Z.to_nat p') ltac:(lia)). lia.
Qed.

Lemma selects_unique x k p p' : selects x k p -> selects x k p' -> p = p'.
Proof. intros H H'. destruct (Z.lt_trichotomy p p') as [L|[E|L]]; [|exact E|]; [pose proof (selects_lt _ _ _ _ _ H H' L)|pose proof (selects_lt _ _ _ _ _ H' H L)]; lia. Qed.

Lemma marks_mono U ps i j : marks U ps -> (i < j)%nat -> (j < length ps)%nat -> nth i ps 0 < nth j ps 0.
Proof.
  intros M Hij Hj. pose proof (mk_select _ _ M i ltac:(lia)) as Hi. pose proof (mk_select _ _ M j Hj) as Hjs.
  destruct (Z.lt_trichotomy (nth i ps 0) (nth j ps 0)) as [L|[E|L]]; [exact L| |].
  - rewrite E in Hi. destruct Hi as (_ & _ & R1), Hjs as (_ & _ & R2). lia.
  - pose proof (selects_lt _ _ _ _ _ Hjs Hi L). lia.
Qed.

Lemma marks_bit U ps p : marks U ps -> 0 <= p -> Z.testbit U p = true ->
  let c := ones (Z.to_nat p) U in 0 <= c < zlen ps /\ nth (Z.to_nat c) ps 0 = p.
Proof.
  intros M Hp Hb c. pose proof (ones_nonneg (Z.to_nat p) U) as Hc. fold c in Hc. pose proof (ones_after U p Hp Hb) as Ha. fold c in Ha.
  assert (Hlt : c < zlen ps).
  { set (N := Z.to_nat (Z.max (p + 1) (Z.log2 U + 1))). assert (HN : ones N U = zlen ps).
    { apply (mk_total _ _ M). destruct (Z.eq_dec U 0) as [->|HU]; [rewrite Z.testbit_0_l in Hb; discriminate|].
      pose proof (mk_nonneg _ _ M). apply Z.log2_lt_pow2; unfold N; lia. }
    pose proof (ones_mono U (Z.to_nat (p + 1)) N ltac:(unfold N; lia)). lia. }
  split; [lia|]. apply (selects_unique U c).
  - pose proof (mk_select _ _ M (Z.to_nat c) ltac:(unfold zlen in *; lia)) as H. by rewrite Z2Nat.id in H by lia.
  - by split.
Qed.

(** ** Half words *)

Definition half (w s : Z) : Z := Z.shiftr (Z.land w (shl64 0xffffffff s)) s.

Lemma half_bit w s k : s = 0 \/ s = 32 -> 0 <= k -> Z.testbit (half w s) k = (k <? 32) && Z.testbit w (k + s).
Proof.
  intros Hs Hk. unfold half. rewrite Z.shiftr_spec, Z.land_spec, shl64_bit by lia. change 0xffffffff with (Z.ones 32).
  replace (k + s - s) with k by lia. destruct (Z.ltb_spec k 32).
  - rewrite Z.ones_spec_low by lia. destruct (Z.ltb_spec (k + s) 64); [|lia]. by rewrite andb_true_r.
  - rewrite Z.ones_spec_high by lia. by rewrite !andb_false_r.
Qed.

Lemma half_write w v s : s = 0 \/ s = 32 -> is_u64 w -> 0 <= v < 2 ^ 32 ->
  let w' := Z.lor (andnot w (shl64 0xffffffff s)) (shl64 v s) in
  is_u64 w' /\ half w' s = v /\ forall s', s' = 0 \/ s' = 32 -> s' <> s -> half w' s' = half w s'.
Proof.
  intros Hs Hw Hv w'. assert (Hbit : forall k, 0 <= k -> Z.testbit w' k = (Z.testbit w k && negb ((k <? 64) && Z.testbit (Z.ones 32) (k - s))) || ((k <? 64) && Z.testbit v (k - s))).
  { intros k Hk. unfold w', andnot. by rewrite Z.lor_spec, Z.ldiff_spec, !shl64_bit by lia. }
  split; [apply lor_u64; [by apply ldiff_u64|apply shl64_range]|]. split.
  - apply Z.bits_inj'. intros k Hk. rewrite half_bit, Hbit by (assumption || lia). replace (k + s - s) with k by lia. destruct (Z.ltb_spec k 32).
    + rewrite Z.ones_spec_low by lia. destruct (Z.ltb_spec (k + s) 64); [|lia]. cbn [andb negb]. by rewrite andb_false_r.
    + by rewrite (bit_above v 32) by lia.
  - intros s' Hs' Hne. apply Z.bits_inj'. intros k Hk. rewrite !half_bit, Hbit by (assumption || lia). destruct (Z.ltb_spec k 32); [|reflexivity]. cbn [andb].
    assert (Hz : Z.testbit (Z.ones 32) (k + s' - s) = false /\ Z.testbit v (k + s' - s) = false).
    { destruct Hs as [->| ->], Hs' as [->| ->]; try lia.
      - split; [apply Z.ones_spec_high; lia|apply (bit_above v 32); lia].
      - split; apply Z.testbit_neg_r; lia. }
    destruct Hz as [-> ->]. rewrite !andb_false_r. by rewrite andb_true_r, orb_false_r.
Qed.

(** ** The entries of the index *)

Definition super_idx (c : Z) : Z := (c / superQ) * superQSize.

Lemma slot_shift c : 0 <= c -> (jump_slot c).2 = 0 \/ (jump_slot c).2 = 32.
Proof. intros Hc. cbn. pose proof (Z.mod_pos_bound (c mod superQ / q) 2 ltac:(lia)). lia. Qed.

Lemma slot_super c k : 0 <= c -> 0 <= k -> (jump_slot c).1 <> super_idx k.
Proof.
  intros Hc Hk. cbn. unfold super_idx. rewrite (shiftr_2n _ 2 1) by lia. change superQ with 16384. change superQSize with 33. change q with 256.
  Z.div_mod_to_equations. lia.
Qed.

Lemma slot_inj c k : 0 <= c -> 0 <= k -> c mod 256 = 0 -> k mod 256 = 0 -> jump_slot c = jump_slot k -> c = k.
Proof.
  intros Hc Hk H1 H2. unfold jump_slot. change superQ with 16384. change superQSize with 33. change q with 256. rewrite !(shiftr_2n _ 2 1) by lia.
  intros [= E1 E2]. Z.div_mod_to_equations. lia.
Qed.

Lemma super_inj c k : 0 <= c -> 0 <= k -> c mod superQ = 0 -> k mod superQ = 0 -> super_idx c = super_idx k -> c = k.
Proof. unfold super_idx. change superQ with 16384. change superQSize with 33. intros. Z.div_mod_to_equations. lia. Qed.

(** ** Filling a sequence *)

Lemma lxor63 k : 0 <= k < 64 -> Z.lxor 63 (63 - k) = k.
Proof.
  intros Hk. apply Z.eqb_eq. apply (below (fun k => Z.lxor 63 (63 - k) =? k) 64); [vm_compute; reflexivity|exact Hk].
Qed.

Lemma make_words_zero k : words (replicate k 0) /\ wval (replicate k 0) = 0.
Proof. split; [apply Forall_replicate; unfold is_u64, two64; lia|]. induction k; cbn [replicate wval]; lia. Qed.

(** [sort.Search] of a monotone test finds its first index. *)
Lemma search_loop_exact (f : Z -> Res bool) (g : Z -> bool) N fuel : forall i j,
  (forall h, 0 <= h < N -> f h = Val (g h)) -> (forall h h', 0 <= h <= h' -> h' < N -> g h = true -> g h' = true) ->
  0 <= i <= j -> j <= N -> j - i <= Z.of_nat fuel ->
  (forall h, 0 <= h < i -> g h = false) -> (forall h, j <= h < N -> g h = true) ->
  exists k, search_loop fuel f i j = Val k /\ 0 <= k <= N /\ (forall h, 0 <= h < k -> g h = false) /\ (forall h, k <= h < N -> g h = true).
Proof.
  induction fuel as [|fuel IH]; intros i j Hf Hg Hij HjN Hfu Hlo Hhi; cbn [search_loop].
  { exists i. assert (i = j) by lia. subst j. split; [reflexivity|]. split; [lia|auto]. }
  destruct (Z.ltb_spec i j); [|assert (i = j) by lia; subst j; exists i; split; [reflexivity|]; split; [lia|auto]].
  assert (Hh : i <= (i + j) / 2 < j) by (Z.div_mod_to_equations; lia). rewrite Hf by lia. cbn [mbind Res_bind].
  destruct (g ((i + j) / 2)) eqn:E; cbn [negb]; apply IH; try assumption; try lia.
  - intros h Hh'. apply (Hg ((i + j) / 2)); [lia|lia|exact E].
  - intros h Hh'. destruct (g h) eqn:E'; [|reflexivity]. rewrite (Hg h ((i + j) / 2)) in E; [discriminate|lia|lia|exact E'].
Qed.

Section Sequence.
(** The announced number of items and the largest. *)
Context (n mx : Z) (Hn : 1 <= n <= 2 ^ 30) (Hmx : 0 <= mx < MaxUint64).

Definition low : Z := low_width (n - 1) (mx + 1).
Definition wl : Z := (n * low + 63) / 64 + 1.
Definition wu : Z := (n + (mx + 1) / 2 ^ low + 63) / 64.
Definition js : Z := (n / superQ) * superQSize +
  if n mod superQ =? 0 then 0 else 1 + ((n mod superQ + q - 1) / q + 3) / 2.

Lemma low_spec : 0 <= low < 64 /\ 0 <= (mx + 1) / 2 ^ low < 2 * n.
Proof.
  unfold low, low_width. replace (n - 1 + 1) with n by lia. rewrite u64_id by (unfold is_u64, two64; lia).
  assert (0 <= (mx + 1) / n) by (apply Z.div_pos; lia). destruct (Z.eqb_spec ((mx + 1) / n) 0) as [E|E].
  - apply Z.div_small_iff in E; [|lia]. rewrite Z.pow_0_r, Z.div_1_r. lia.
  - unfold LeadingZeros64. destruct (Z.eqb_spec ((mx + 1) / n) 0); [lia|]. set (d := (mx + 1) / n) in *.
    assert (Hd : d < 2 ^ 64). { unfold MaxUint64 in Hmx. apply Z.le_lt_trans with (mx + 1); [apply Z.div_le_upper_bound; nia|lia]. }
    assert (Hl : 0 <= Z.log2 d < 64) by (split; [apply Z.log2_nonneg|apply Z.log2_lt_pow2; lia]).
    rewrite lxor63 by exact Hl. split; [exact Hl|]. pose proof (Z.log2_spec d ltac:(lia)) as [_ Hs]. rewrite Z.pow_succ_r in Hs by lia.
    assert (0 < 2 ^ Z.log2 d) by (apply Z.pow_pos_nonneg; lia). split; [apply Z.div_pos; lia|]. apply Z.div_lt_upper_bound; [lia|].
    pose proof (Z.mul_succ_div_gt (mx + 1) n ltac:(lia)) as Hg. fold d in Hg. nia.
Qed.

Lemma sizes_exact : wordsLower (n - 1) low = wl /\ wordsUpper (n - 1) (mx + 1) low = wu /\ jumpSizeWords (n - 1) = js /\
  1 <= wl < 2 ^ 36 /\ 1 <= wu < 2 ^ 26 /\ 0 <= js < 2 ^ 30 /\ n * low <= 64 * (wl - 1) /\ n + (mx + 1) / 2 ^ low <= 64 * wu.
Proof.
  destruct low_spec as [Hl Hh]. unfold wordsLower, wordsUpper, jumpSizeWords, js. rewrite !Z.shiftr_div_pow2 by lia. replace (n - 1 + 1) with n by lia.
  rewrite (u64_id n) by (unfold is_u64, two64; lia). rewrite (u64_id (n * low)), (u64_id (n * low + 63)) by (unfold is_u64, two64; nia).
  rewrite (u64_id (n + _)), (u64_id (n + _ + 63)) by (unfold is_u64, two64; lia). fold wl wu.
  assert (B1 : 1 <= wl < 2 ^ 36 /\ n * low <= 64 * (wl - 1)).
  { unfold wl. pose proof (Z.div_mod (n * low + 63) 64). pose proof (Z.mod_pos_bound (n * low + 63) 64). nia. }
  assert (B2 : 1 <= wu < 2 ^ 26 /\ n + (mx + 1) / 2 ^ low <= 64 * wu).
  { unfold wu. pose proof (Z.div_mod (n + (mx + 1) / 2 ^ low + 63) 64). pose proof (Z.mod_pos_bound (n + (mx + 1) / 2 ^ low + 63) 64). lia. }
  change superQ with 16384 in *. change superQSize with 33 in *. change q with 256 in *.
  pose proof (Z.div_mod n 16384 ltac:(lia)) as D. pose proof (Z.mod_pos_bound n 16384 ltac:(lia)) as M.
  set (k := n / 16384) in *. set (r := n mod 16384) in *. assert (B3 : 0 <= (r + 256 - 1) / 256 < 65).
  { split; [apply Z.div_pos; lia|apply Z.div_lt_upper_bound; lia]. }
  assert (B4 : 0 <= ((r + 256 - 1) / 256 + 3) / 2 <= 40) by (split; [apply Z.div_pos; lia|apply Z.div_le_upper_bound; lia]).
  rewrite (u64_id (k * 33)) by (unfold is_u64, two64; lia). rewrite (u64_id (k * 33 + _)) by (unfold is_u64, two64; lia).
  rewrite !i64_id by (try destruct (negb _); lia). destruct (Z.eqb_spec r 0); cbn [negb]; lia.
Qed.

Lemma New_exact : NewEliasFano n mx =
  Val (mkEF (replicate (Z.to_nat wl) 0) (replicate (Z.to_nat wu) 0) (replicate (Z.to_nat js) 0) (Z.ones low) (n - 1) (mx + 1) low mx 0 wu).
Proof.
  destruct sizes_exact as (E1 & E2 & E3 & B1 & B2 & B3 & _). destruct low_spec as [Hl _]. unfold NewEliasFano, deriveFields.
  destruct (Z.eqb_spec n 0); [lia|]. rewrite (u64_id (n - 1)), (u64_id (mx + 1)) by (unfold is_u64, two64, MaxUint64 in *; lia).
  fold low. rewrite E1, E2, E3. replace (n - 1 + 1) with n by lia. rewrite (u64_id n) by (unfold is_u64, two64; lia).
  destruct (Z.eqb_spec n 0); [lia|]. unfold make_words. destruct (Z.ltb_spec (wl + wu + js) 0); [lia|]. cbn [mbind Res_bind mret Res_ret].
  assert (Ed : replicate (Z.to_nat (wl + wu + js)) 0 = replicate (Z.to_nat wl) 0 ++ replicate (Z.to_nat wu) 0 ++ replicate (Z.to_nat js) 0).
  { rewrite <- !replicate_add. f_equal. lia. }
  rewrite Ed, !go_slice_val by (rewrite ?zlen_app, ?zlen_replicate; lia). cbn [mbind Res_bind mret Res_ret]. rewrite !zlen_app, !zlen_replicate.
  unfold with_words. cbn [lowerBits upperBits ef_jump lowerBitsMask ef_count ef_u ef_l maxOffset ef_i]. do 2 f_equal.
  - rewrite drop_0. rewrite take_app_le by (rewrite length_replicate; lia). apply take_ge. rewrite length_replicate. lia.
  - rewrite drop_app_ge by (rewrite length_replicate; lia). rewrite length_replicate, Nat.sub_diag, drop_0.
    rewrite take_app_le by (rewrite length_replicate; lia). apply take_ge. rewrite length_replicate. lia.
  - rewrite drop_app_ge by (rewrite length_replicate; lia). rewrite drop_app_ge by (rewrite !length_replicate; lia).
    rewrite !length_replicate. replace (Z.to_nat (wl + wu) - Z.to_nat wl - Z.to_nat wu)%nat with 0%nat by lia.
    rewrite drop_0. apply take_ge. rewrite length_replicate. lia.
  - unfold shl64. rewrite Z.ones_equiv, Z.shiftl_mul_pow2, Z.mul_1_l by lia. assert (0 < 2 ^ low) by (apply Z.pow_pos_nonneg; lia).
    assert (2 ^ low <= 2 ^ 63) by (apply Z.pow_le_mono_r; lia). rewrite (u64_id (2 ^ low)), u64_id by (unfold is_u64, two64; lia). lia.
Qed.

(** The positions of the high bits of [xs], whose first item is the [i]-th. *)
Fixpoint positions (i : Z) (xs : list Z) : list Z :=
  match xs with [] => [] | x :: xs => (x / 2 ^ low + i) :: positions (i + 1) xs end.

Lemma positions_snoc xs x : forall i, positions i (xs ++ [x]) = positions i xs ++ [x / 2 ^ low + (i + zlen xs)].
Proof.
  induction xs as [|y xs IH]; intros i; cbn [positions app]; [change (zlen (@nil Z)) with 0; by rewrite Z.add_0_r|]. rewrite IH, zlen_cons. do 4 f_equal. lia.
Qed.

Lemma length_positions xs : forall i, length (positions i xs) = length xs.
Proof. induction xs as [|x xs IH]; intros i; cbn [positions length]; [reflexivity|by rewrite IH]. Qed.

Lemma nth_positions xs : forall i j, (j < length xs)%nat -> nth j (positions i xs) 0 = nth j xs 0 / 2 ^ low + (i + Z.of_nat j).
Proof.
  induction xs as [|x xs IH]; intros i j Hj; cbn [length] in Hj; [lia|]. destruct j as [|j]; cbn [positions nth]; [lia|].
  rewrite IH by lia. lia.
Qed.

Definition top (xs : list Z) : Z := List.last xs 0 / 2 ^ low + zlen xs.

Record adding (xs : list Z) (ef : EliasFano) : Prop := mkAdding {
  ad_lower : words (lowerBits ef) /\ zlen (lowerBits ef) = wl /\ wval (lowerBits ef) = lowval low xs;
  ad_upper : words (upperBits ef) /\ zlen (upperBits ef) = wu /\ marks (wval (upperBits ef)) (positions 0 xs) /\ wval (upperBits ef) < 2 ^ top xs;
  ad_rest : ef = mkEF (lowerBits ef) (upperBits ef) (replicate (Z.to_nat js) 0) (Z.ones low) (n - 1) (mx + 1) low mx (zlen xs) wu
}.

Lemma New_adding : exists ef, NewEliasFano n mx = Val ef /\ adding [] ef.
Proof.
  rewrite New_exact. eexists. split; [reflexivity|]. destruct sizes_exact as (_ & _ & _ & B1 & B2 & _).
  destruct (make_words_zero (Z.to_nat wl)) as [W1 V1], (make_words_zero (Z.to_nat wu)) as [W2 V2]. split; cbn [lowerBits upperBits].
  - rewrite zlen_replicate, V1. split; [exact W1|]. split; [lia|reflexivity].
  - rewrite zlen_replicate, V2. split; [exact W2|]. split; [lia|]. split; [apply marks_nil|]. unfold top. cbn [List.last].
    change (zlen (@nil Z)) with 0. rewrite Z.add_0_r. apply Z.pow_pos_nonneg; [lia|]. apply Z.div_pos; [lia|].
    apply Z.pow_pos_nonneg; [lia|apply low_spec].
  - reflexivity.
Qed.

Lemma AddOffset_adding xs x ef : adding xs ef -> zlen xs < n -> List.last xs 0 <= x <= mx -> 0 <= List.last xs 0 ->
  exists ef', AddOffset x ef = Val ef' /\ adding (xs ++ [x]) ef'.
Proof.
  intros [(L1 & L2 & L3) (U1 & U2 & U3 & U4) Hef] Hlen Hx Hlast. destruct low_spec as [Hl Hh].
  destruct sizes_exact as (_ & _ & _ & B1 & B2 & _ & F1 & F2). pose proof (zlen_nonneg xs).
  assert (Hp : 0 < 2 ^ low) by (apply Z.pow_pos_nonneg; lia).
  unfold AddOffset. rewrite Hef. cbn [lowerBits upperBits lowerBitsMask ef_l ef_i].
  rewrite Z.land_ones, Z.shiftr_div_pow2 by lia. pose proof (Z.mod_pos_bound x (2 ^ low) Hp) as Hm.
  assert (Hlow : exists lower, (if negb (low =? 0) then setBits (lowerBits ef) (u64 (zlen xs * low)) low (x mod 2 ^ low) else mret (lowerBits ef)) = Val lower /\
    words lower /\ zlen lower = wl /\ wval lower = lowval low (xs ++ [x])).
  { destruct (Z.eqb_spec low 0) as [E|E]; cbn [negb].
    - exists (lowerBits ef). split; [reflexivity|]. split; [exact L1|]. split; [exact L2|]. rewrite L3, lowval_snoc by lia.
      rewrite E, Z.pow_0_r, Z.mod_1_r. lia.
    - rewrite u64_id by (unfold is_u64, two64; nia). pose proof (lowval_bound low xs ltac:(lia)) as Hb.
      destruct (setBits_exact (lowerBits ef) (zlen xs * low) low (x mod 2 ^ low)) as (ws & -> & W1 & W2 & W3);
        [exact L1|nia|lia|rewrite L2; nia|exact Hm|rewrite L3, Z.mul_comm; apply Hb|].
      exists ws. split; [reflexivity|]. split; [exact W1|]. split; [congruence|]. rewrite W3, L3, lowval_snoc, lor_add by (rewrite 1?Z.mul_comm; lia).
      by rewrite (Z.mul_comm (zlen xs)). }
  destruct Hlow as (lower & -> & W1 & W2 & W3). cbn [mbind Res_bind].
  assert (Hxl : List.last xs 0 / 2 ^ low <= x / 2 ^ low) by (apply Z.div_le_mono; lia).
  assert (Hxu : x / 2 ^ low <= (mx + 1) / 2 ^ low) by (apply Z.div_le_mono; lia).
  assert (Hx0 : 0 <= x / 2 ^ low) by (apply Z.div_pos; lia).
  rewrite (u64_id (x / 2 ^ low + zlen xs)) by (unfold is_u64, two64; lia). set (p := x / 2 ^ low + zlen xs).
  destruct (set_exact (upperBits ef) p U1) as (upper & -> & V1 & V2 & V3); [rewrite U2; unfold p; lia|]. cbn [mbind Res_bind mret Res_ret].
  destruct (marks_snoc _ _ p U3) as [M1 M2]; [unfold p; lia|eapply Z.lt_le_trans; [exact U4|]; apply Z.pow_le_mono_r; unfold top, p; lia|].
  eexists. split; [reflexivity|]. split; cbn [lowerBits upperBits with_areas].
  - auto.
  - rewrite V3. split; [exact V1|]. split; [congruence|]. rewrite positions_snoc, Z.add_0_l. split; [exact M1|].
    unfold top. rewrite last_last, zlen_app. replace (x / 2 ^ low + (zlen xs + zlen [x])) with (p + 1) by (unfold p, zlen; cbn; lia). exact M2.
  - unfold with_areas. cbn. rewrite u64_id by (unfold is_u64, two64; lia). f_equal. rewrite zlen_app. reflexivity.
Qed.

Fixpoint fill (xs : list Z) (ef : EliasFano) : Res EliasFano :=
  match xs with [] => mret ef | x :: xs => ef ← AddOffset x ef; fill xs ef end.

Lemma fill_adding xs : forall ys ef, adding ys ef -> zlen (ys ++ xs) <= n -> 0 <= List.last ys 0 ->
  StronglySorted Z.le (List.last ys 0 :: xs) -> Forall (fun x => x <= mx) xs ->
  exists ef', fill xs ef = Val ef' /\ adding (ys ++ xs) ef'.
Proof.
  induction xs as [|x xs IH]; intros ys ef Ha Hl H0 Hs Hm; cbn [fill]; [exists ef; by rewrite app_nil_r|].
  apply Forall_cons in Hm as [Hx Hm]. apply StronglySorted_inv in Hs as [Hs Hf]. apply Forall_cons in Hf as [Hle _].
  rewrite zlen_app, zlen_cons in Hl. pose proof (zlen_nonneg xs).
  destruct (AddOffset_adding ys x ef Ha) as (ef1 & -> & H1); [lia|lia|lia|]. cbn [mbind Res_bind].
  destruct (IH (ys ++ [x]) ef1 H1) as (ef2 & E2 & H2); [rewrite !zlen_app; unfold zlen in *; cbn; lia|rewrite last_last; lia|by rewrite last_last|exact Hm|].
  exists ef2. split; [exact E2|]. by rewrite <- app_assoc in H2.
Qed.

(** ** Building the index *)

Lemma slot_fits c : 0 <= c < n -> 0 <= (jump_slot c).1 < js /\ 0 <= super_idx c < js.
Proof.
  intros Hc. unfold js, super_idx. cbn. rewrite (shiftr_2n _ 2 1) by lia. change superQ with 16384. change superQSize with 33. change q with 256.
  destruct (Z.eqb_spec (n mod 16384) 0); Z.div_mod_to_equations; lia.
Qed.

Section Index.
Context (U : Z) (ps : list Z) (HM : marks U ps) (Hps : zlen ps = n) (Hsmall : U < 2 ^ (64 * wu)).

Definition at_ (k : Z) : Z := nth (Z.to_nat k) ps 0.

Lemma wu_small : 64 * wu < 2 ^ 32.
Proof.
  destruct low_spec as [_ Hh]. unfold wu. pose proof (Z.div_mod (n + (mx + 1) / 2 ^ low + 63) 64 ltac:(lia)).
  pose proof (Z.mod_pos_bound (n + (mx + 1) / 2 ^ low + 63) 64 ltac:(lia)). lia.
Qed.

Lemma at_selects k : 0 <= k < n -> selects U k (at_ k).
Proof. intros Hk. pose proof (mk_select _ _ HM (Z.to_nat k) ltac:(unfold zlen in *; lia)) as H. by rewrite Z2Nat.id in H by lia. Qed.

Lemma at_range k : 0 <= k < n -> 0 <= at_ k < 64 * wu.
Proof.
  intros Hk. destruct (at_selects k Hk) as (H1 & H2 & _). split; [exact H1|].
  destruct (Z.lt_ge_cases (at_ k) (64 * wu)) as [|Hge]; [assumption|]. rewrite (bit_above U (64 * wu)) in H2; [discriminate| |exact Hge].
  split; [apply (mk_nonneg _ _ HM)|exact Hsmall].
Qed.

Lemma at_mono k k' : 0 <= k <= k' -> k' < n -> at_ k <= at_ k'.
Proof.
  intros H H'. destruct (Z.eq_dec k k') as [->|]; [lia|]. apply Z.lt_le_incl, (marks_mono U); [exact HM|lia|unfold zlen in *; lia].
Qed.

(** The entry of the [k]-th bit. *)
Definition entry (jump : list Z) (k : Z) : Z := half (nth (Z.to_nat (jump_slot k).1) jump 0) (jump_slot k).2.

(** The entries of the first [c] bits are right. *)
Definition indexed (jump : list Z) (c : Z) : Prop := words jump /\ zlen jump = js /\ forall k, 0 <= k < c ->
  (k mod superQ = 0 -> nth (Z.to_nat (super_idx k)) jump 0 = at_ k) /\
  (k mod 256 = 0 -> entry jump k = at_ k - at_ (k - k mod superQ)).

Lemma indexed_super jump c : indexed jump c -> 0 <= c < n -> c mod superQ = 0 ->
  indexed (<[Z.to_nat (super_idx c) := at_ c]> jump) c /\ nth (Z.to_nat (super_idx c)) (<[Z.to_nat (super_idx c) := at_ c]> jump) 0 = at_ c.
Proof.
  intros (W & L & I) Hc Hm. destruct (slot_fits c Hc) as [_ F]. pose proof (at_range c Hc). pose proof wu_small.
  assert (HL : (Z.to_nat (super_idx c) < length jump)%nat) by (unfold zlen in *; lia). split.
  - split; [apply words_insert; [exact W|unfold is_u64, two64; lia]|]. split; [unfold zlen; rewrite length_insert; exact L|].
    intros k Hk. destruct (I k Hk) as [I1 I2]. destruct (slot_fits k ltac:(lia)) as [Fk Fk']. split.
    + intros Hkm. rewrite nth_insert by exact HL. case_decide as E; [|by apply I1].
      assert (c = k) by (apply super_inj; lia). lia.
    + intros Hk256. unfold entry. rewrite nth_insert by exact HL. case_decide as E; [|by apply I2].
      pose proof (slot_super k c ltac:(lia) ltac:(lia)). lia.
  - rewrite nth_insert by exact HL. by case_decide.
Qed.

Lemma indexed_entry jump c : indexed jump c -> 0 <= c < n -> c mod 256 = 0 ->
  (c mod superQ = 0 -> nth (Z.to_nat (super_idx c)) jump 0 = at_ c) ->
  let '(idx, s) := jump_slot c in
  indexed (<[Z.to_nat idx := Z.lor (andnot (nth (Z.to_nat idx) jump 0) (shl64 0xffffffff s)) (shl64 (at_ c - at_ (c - c mod superQ)) s)]> jump) (c + 1).
Proof.
  intros (W & L & I) Hc H256 Hsup. destruct (slot_fits c Hc) as [F _]. destruct (jump_slot c) as [idx s] eqn:Es.
  pose proof (slot_shift c ltac:(lia)) as Hs. rewrite Es in Hs. cbn [fst snd] in Hs, F.
  pose proof (Z.mod_pos_bound c superQ ltac:(reflexivity)) as Hms. pose proof (at_range c Hc). pose proof wu_small.
  assert (Hc0 : 0 <= c - c mod superQ <= c) by (pose proof (Z.mod_le c superQ ltac:(lia) ltac:(reflexivity)); lia).
  pose proof (at_range (c - c mod superQ) ltac:(lia)). pose proof (at_mono (c - c mod superQ) c Hc0 ltac:(lia)).
  set (v := at_ c - _) in *. assert (HL : (Z.to_nat idx < length jump)%nat) by (unfold zlen in *; lia).
  destruct (half_write (nth (Z.to_nat idx) jump 0) v s Hs (nth_words _ _ W) ltac:(unfold v; lia)) as (X1 & X2 & X3). set (w' := Z.lor _ _) in *.
  split; [by apply words_insert|]. split; [unfold zlen; rewrite length_insert; exact L|]. intros k Hk.
  assert (Hkn : 0 <= k < n) by lia. destruct (slot_fits k Hkn) as [Fk Fk']. split.
  - intros Hkm. rewrite nth_insert by exact HL. case_decide as E.
    { pose proof (slot_super c k ltac:(lia) ltac:(lia)) as Hne. rewrite Es in Hne. cbn [fst] in Hne. lia. }
    destruct (Z.eq_dec k c) as [->|]; [by apply Hsup|]. apply I; [lia|exact Hkm].
  - intros Hk256. unfold entry. rewrite nth_insert by exact HL. case_decide as E.
    + destruct (Z.eq_dec k c) as [->|Hne]; [rewrite Es; exact X2|].
      rewrite X3; [|apply slot_shift; lia|].
      * replace (Z.to_nat idx) with (Z.to_nat (jump_slot k).1) by lia. apply I; [lia|exact Hk256].
      * intros E2. apply Hne. apply slot_inj; try lia. rewrite Es. destruct (jump_slot k) as [ik sk]. cbn [fst snd] in *. f_equal; lia.
    + destruct (Z.eq_dec k c) as [->|Hne]; [rewrite Es in E; cbn in E; congruence|]. apply I; [lia|exact Hk256].
Qed.

Record indexing (P : Z) (s : BuildState) : Prop := mkIndexing {
  ix_c : b_c s = ones (Z.to_nat P) U;
  ix_last : 0 < b_c s -> b_lastSuperQ s = at_ ((b_c s - 1) - (b_c s - 1) mod superQ);
  ix_jump : indexed (b_jump s) (b_c s)
}.

Lemma land_low c k : 0 <= k -> Z.land c (2 ^ k - 1) = c mod 2 ^ k.
Proof. intros Hk. rewrite <- Z.land_ones by exact Hk. f_equal. rewrite Z.ones_equiv. lia. Qed.

Lemma build_bit_indexing P s : 0 <= P < 64 * wu -> Z.testbit U P = true -> indexing P s ->
  exists s', build_bit P s = Val s' /\ indexing (P + 1) s'.
Proof.
  intros HP Hb [Hc Hlast Hix]. destruct (marks_bit U ps P HM ltac:(lia) Hb) as [Hcn Hat]. rewrite <- Hc, Hps in *. set (c := b_c s) in *.
  change (nth (Z.to_nat c) ps 0) with (at_ c) in Hat. pose proof (ones_after U P ltac:(lia) Hb) as Ha. rewrite <- Hc in Ha.
  destruct (slot_fits c Hcn) as [F1 F2]. pose proof wu_small. unfold build_bit. fold c.
  replace (Z.land c superQMask) with (c mod superQ) by (symmetry; apply (land_low c 14); lia).
  replace (Z.land c qMask) with (c mod 256) by (symmetry; apply (land_low c 8); lia).
  assert (Hstep : exists jump, (if c mod superQ =? 0 then jump ← set_word (b_jump s) ((c / superQ) * superQSize) P; mret (mkBuild c P jump) else mret s) =
      Val (mkBuild c (at_ (c - c mod superQ)) jump) /\ indexed jump c /\ (c mod superQ = 0 -> nth (Z.to_nat (super_idx c)) jump 0 = at_ c)).
  { destruct (Z.eqb_spec (c mod superQ) 0) as [E|E].
    - fold (super_idx c). rewrite set_word_val by (destruct Hix as (_ & -> & _); exact F2). rewrite <- Hat.
      destruct (indexed_super _ c Hix Hcn E) as [I1 I2]. eexists. cbn [mbind Res_bind mret Res_ret]. rewrite E, Z.sub_0_r. split; [reflexivity|]. by split.
    - exists (b_jump s). split; [|by split]. assert (c <> 0) by (intros E0; by rewrite E0 in E). assert (0 < c) by lia.
      change superQ with 16384 in *.
      rewrite <- (Z.mod_unique (c - 1) 16384 (c / 16384) (c mod 16384 - 1)) in Hlast; [|pose proof (Z.mod_pos_bound c 16384 ltac:(lia)); lia|pose proof (Z.div_mod c 16384 ltac:(lia)); lia].
      replace (c - c mod 16384) with (c - 1 - (c mod 16384 - 1)) by lia. rewrite <- Hlast by assumption. by destruct s. }
  destruct Hstep as (jump & -> & Hi & Hsup). cbn [mbind Res_bind b_c b_lastSuperQ b_jump].
  assert (Hdone : forall j, indexed j (c + 1) -> indexing (P + 1) (mkBuild (u64 (c + 1)) (at_ (c - c mod superQ)) j)).
  { intros j Hj. rewrite u64_id by (unfold is_u64, two64; lia). split; cbn [b_c b_lastSuperQ b_jump]; [lia| |exact Hj].
    intros _. by replace (c + 1 - 1) with c by lia. }
  destruct (Z.eqb_spec (c mod 256) 0) as [E|E]; cbn [negb].
  - pose proof (at_mono (c - c mod superQ) c) as Hmono. pose proof (Z.mod_pos_bound c superQ ltac:(reflexivity)).
    pose proof (Z.mod_le c superQ ltac:(lia) ltac:(reflexivity)). pose proof (at_range (c - c mod superQ) ltac:(lia)).
    rewrite <- Hat in Hdone |- *. rewrite u64_id by (unfold is_u64, two64; lia). change (Z.shiftl 1 32) with (2 ^ 32).
    destruct (Z.leb_spec (2 ^ 32) (at_ c - at_ (c - c mod superQ))); [lia|].
    pose proof (indexed_entry jump c Hi Hcn E Hsup) as Hent. destruct (jump_slot c) as [idx sh]. cbn [fst] in F1.
    rewrite go_index_nth by (destruct Hi as (_ & -> & _); exact F1). cbn [mbind Res_bind].
    rewrite set_word_val by (destruct Hi as (_ & -> & _); exact F1). cbn [mbind Res_bind mret Res_ret]. eexists. split; [reflexivity|]. by apply Hdone.
  - eexists. split; [reflexivity|]. apply Hdone. destruct Hi as (W & L & I). split; [exact W|]. split; [exact L|]. intros k Hk.
    destruct (Z.eq_dec k c) as [->|]; [split; [exact Hsup|congruence]|apply I; lia].
Qed.

Context (upper : list Z) (Hup : words upper) (Hlen : zlen upper = wu) (HU : wval upper = U).

Lemma upper_bit i b : 0 <= i -> 0 <= b < 64 -> Z.testbit U (i * 64 + b) = Z.testbit (nth (Z.to_nat i) upper 0) b.
Proof.
  intros Hi Hb. rewrite <- HU, wval_bit by (assumption || lia). replace (i * 64 + b) with (b + i * 64) by lia.
  by destruct (at_word b i Hb) as [-> ->].
Qed.

Lemma land_bit w b : 0 <= b < 64 -> (Z.land w (shl64 1 b) =? 0) = negb (Z.testbit w b).
Proof.
  intros Hb. destruct (Z.testbit w b) eqn:E; cbn [negb].
  - apply Z.eqb_neq. intros H. assert (Hz : Z.testbit (Z.land w (shl64 1 b)) b = false) by (rewrite H; apply Z.testbit_0_l).
    rewrite Z.land_spec, E, shl64_bit, one_bit in Hz by lia. destruct (Z.ltb_spec b 64); [|lia]. destruct (Z.eqb_spec (b - b) 0); [discriminate|lia].
  - apply Z.eqb_eq, Z.bits_inj'. intros k Hk. rewrite Z.land_spec, shl64_bit, one_bit, Z.testbit_0_l by lia.
    destruct (Z.eqb_spec (k - b) 0) as [Ek|]; [|by rewrite !andb_false_r]. replace k with b by lia. by rewrite E.
Qed.

Lemma indexing_skip P s : 0 <= P -> Z.testbit U P = false -> indexing P s -> indexing (P + 1) s.
Proof.
  intros HP Hb [H1 H2 H3]. split; [|exact H2|exact H3]. rewrite H1. replace (Z.to_nat (P + 1)) with (S (Z.to_nat P)) by lia.
  cbn [ones]. rewrite Z2Nat.id, Hb by lia. reflexivity.
Qed.

Lemma build_bits_indexing i k : forall b s, 0 <= i < wu -> b + Z.of_nat k = 64 -> 0 <= b -> indexing (i * 64 + b) s ->
  exists s', build_bits k (nth (Z.to_nat i) upper 0) i b s = Val s' /\ indexing (i * 64 + 64) s'.
Proof.
  induction k as [|k IH]; intros b s Hi Hbk Hb Hs; cbn [build_bits]; [exists s; split; [reflexivity|]; replace (i * 64 + 64) with (i * 64 + b) by lia; exact Hs|].
  pose proof wu_small. rewrite land_bit, <- upper_bit by lia. rewrite u64_id by (unfold is_u64, two64; lia).
  destruct (Z.testbit U (i * 64 + b)) eqn:E; cbn [negb].
  - destruct (build_bit_indexing (i * 64 + b) s ltac:(lia) E Hs) as (s1 & -> & H1). cbn [mbind Res_bind]. apply IH; try lia.
    by replace (i * 64 + (b + 1)) with (i * 64 + b + 1) by lia.
  - cbn [mbind Res_bind mret Res_ret]. apply IH; try lia. replace (i * 64 + (b + 1)) with (i * 64 + b + 1) by lia. apply indexing_skip; [lia|exact E|exact Hs].
Qed.

Lemma build_words_indexing k : forall i s, 0 <= i -> i + Z.of_nat k = wu -> indexing (i * 64) s ->
  exists s', build_words k upper i s = Val s' /\ indexing (wu * 64) s'.
Proof.
  induction k as [|k IH]; intros i s Hi Hk Hs; cbn [build_words]; [exists s; split; [reflexivity|]; replace (wu * 64) with (i * 64) by lia; exact Hs|].
  rewrite go_index_nth by lia. cbn [mbind Res_bind]. destruct (build_bits_indexing i 64 0 s) as (s1 & -> & H1); [lia|lia|lia|by rewrite Z.add_0_r|].
  cbn [mbind Res_bind]. apply IH; try lia. by replace ((i + 1) * 64) with (i * 64 + 64) by lia.
Qed.

Lemma build_index jump0 : words jump0 -> zlen jump0 = js ->
  exists s, build_words (Z.to_nat wu) upper 0 (mkBuild 0 0 jump0) = Val s /\ indexed (b_jump s) n.
Proof.
  intros W L. destruct sizes_exact as (_ & _ & _ & _ & B2 & _). destruct (build_words_indexing (Z.to_nat wu) 0 (mkBuild 0 0 jump0)) as (s & E & [H1 H2 H3]); [lia|lia| |].
  - split; cbn; [reflexivity|lia|]. split; [exact W|]. split; [exact L|]. intros k Hk. lia.
  - exists s. split; [exact E|]. rewrite (mk_total _ _ HM) in H1 by (rewrite Z2Nat.id by lia; by rewrite Z.mul_comm). rewrite H1, Hps in H3. exact H3.
Qed.

(** ** Finding the i-th high bit *)

(** [window] has the bits of word [cw] from [m] on. *)
Definition window_of (cw m window : Z) : Prop := is_u64 window /\ 0 <= m <= 64 /\ 0 <= cw < wu /\
  forall r, 0 <= r < 64 -> Z.testbit window r = (m <=? r) && Z.testbit U (64 * cw + r).

Lemma ones_window cw m window : window_of cw m window -> forall r, (r <= 64)%nat ->
  ones r window = if m <=? Z.of_nat r then ones (Z.to_nat (64 * cw) + r) U - ones (Z.to_nat (64 * cw + m)) U else 0.
Proof.
  intros (_ & Hm & Hcw & Hb). induction r as [|r IH]; intros Hr.
  - destruct (Z.leb_spec m (Z.of_nat 0)) as [Hz|]; [|reflexivity]. replace (Z.to_nat (64 * cw + m)) with (Z.to_nat (64 * cw) + 0)%nat by lia. cbn [ones]. lia.
  - cbn [ones]. rewrite IH, Hb by lia. replace (Z.to_nat (64 * cw) + S r)%nat with (S (Z.to_nat (64 * cw) + r)) by lia. cbn [ones].
    replace (Z.of_nat (Z.to_nat (64 * cw) + r)) with (64 * cw + Z.of_nat r) by lia.
    destruct (Z.leb_spec m (Z.of_nat r)), (Z.leb_spec m (Z.of_nat (S r))); cbn [andb Z.b2z]; try lia.
    replace (Z.to_nat (64 * cw + m)) with (S (Z.to_nat (64 * cw) + r)) by lia. cbn [ones].
    replace (Z.of_nat (Z.to_nat (64 * cw) + r)) with (64 * cw + Z.of_nat r) by lia. cbn [Z.b2z]. lia.
Qed.

(** The [i]-th bit lies after [p] bits with at most [i] set. *)
Lemma at_after i p : 0 <= i < n -> 0 <= p -> ones (Z.to_nat p) U <= i -> p <= at_ i.
Proof.
  intros Hi Hp Ho. destruct (at_selects i Hi) as (H1 & H2 & H3). destruct (Z.le_gt_cases p (at_ i)) as [|Hlt]; [assumption|].
  pose proof (ones_after U (at_ i) H1 H2). pose proof (ones_mono U (Z.to_nat (at_ i + 1)) (Z.to_nat p) ltac:(lia)). lia.
Qed.

Lemma full_window cw : 0 <= cw < wu -> window_of cw 0 (nth (Z.to_nat cw) upper 0).
Proof.
  intros Hc. split; [by apply nth_words|]. split; [lia|]. split; [exact Hc|]. intros r Hr. destruct (Z.leb_spec 0 r); [|lia]. cbn [andb].
  replace (64 * cw + r) with (cw * 64 + r) by lia. by rewrite upper_bit by lia.
Qed.

Lemma scan_exact i fuel : forall cw m window d, 0 <= i < n -> window_of cw m window -> 64 * cw + m <= at_ i ->
  d + ones (Z.to_nat (64 * cw + m)) U = i -> 0 <= d -> wu - cw < Z.of_nat fuel ->
  exists cw' m' window' d', scan fuel upper cw window d = Val (cw', window', d') /\ window_of cw' m' window' /\
    d' + ones (Z.to_nat (64 * cw' + m')) U = i /\ 0 <= d' < OnesCount64 window'.
Proof.
  induction fuel as [|fuel IH]; intros cw m window d Hi Hw Hat Hd Hd0 Hf; [destruct Hw as (_ & _ & Hc & _); lia|]. cbn [scan].
  pose proof (ones_window cw m window Hw 64%nat ltac:(lia)) as Hones. destruct Hw as (W1 & W2 & W3 & W4).
  destruct (Z.leb_spec m (Z.of_nat 64)); [|lia]. destruct (Z.leb_spec (OnesCount64 window) d) as [Hle|Hgt].
  - unfold OnesCount64 in Hle. replace (Z.to_nat (64 * cw) + 64)%nat with (Z.to_nat (64 * (cw + 1))) in Hones by lia.
    assert (Hafter : 64 * (cw + 1) <= at_ i) by (apply at_after; lia). pose proof (at_range i Hi). pose proof wu_small.
    rewrite u64_id by (unfold is_u64, two64; lia). rewrite go_index_nth by lia. cbn [mbind Res_bind].
    apply (IH (cw + 1) 0); try assumption; [apply full_window; lia|lia| |unfold OnesCount64; lia|lia]. rewrite Z.add_0_r. unfold OnesCount64. lia.
  - exists cw, m, window, d. split; [reflexivity|]. split; [done|]. split; [exact Hd|]. lia.
Qed.

(** The window in which the bit was found, and its place there. *)
Definition found (i cw window sel : Z) : Prop := 0 <= cw < wu /\ 0 <= sel < 64 /\ cw * 64 + sel = at_ i /\
  is_u64 window /\ forall r, sel <= r < 64 -> Z.testbit window r = Z.testbit U (64 * cw + r).

Lemma select_upper_exact ef i : upperBits ef = upper -> indexed (ef_jump ef) n -> 0 <= i < n ->
  exists cw window sel, select_upper ef i = Val (cw, window, sel) /\ found i cw window sel.
Proof.
  intros Eu (W & L & I) Hi. unfold select_upper. rewrite Eu. set (i0 := i - i mod 256).
  pose proof (Z.mod_pos_bound i 256 ltac:(lia)) as Hm. pose proof (Z.mod_le i 256 ltac:(lia) ltac:(lia)).
  assert (Hslot : jump_slot i = jump_slot i0 /\ super_idx i = super_idx i0 /\ i0 mod 256 = 0 /\ i0 mod superQ = i0 - (i0 - i0 mod superQ) /\
    super_idx i = super_idx (i0 - i0 mod superQ) /\ (i0 - i0 mod superQ) mod superQ = 0 /\ 0 <= i0 - i0 mod superQ <= i0).
  { unfold jump_slot, super_idx, i0. change superQ with 16384. change superQSize with 33. change q with 256. rewrite !(shiftr_2n _ 2 1) by lia.
    assert (E : i / 16384 = (i - i mod 256) / 16384) by (Z.div_mod_to_equations; lia).
    assert (E2 : (i mod 16384) / 256 = ((i - i mod 256) mod 16384) / 256) by (Z.div_mod_to_equations; lia). rewrite <- E, <- E2.
    split; [reflexivity|]. split; [reflexivity|]. Z.div_mod_to_equations. lia. }
  destruct Hslot as (S1 & S2 & S3 & _ & S5 & S6 & S7). destruct (slot_fits i Hi) as [F1 F2]. fold (super_idx i).
  destruct (I i0 ltac:(unfold i0; lia)) as [_ I2]. destruct (I (i0 - i0 mod superQ) ltac:(unfold i0 in *; lia)) as [I1 _].
  specialize (I1 S6). specialize (I2 S3). unfold entry in I2. rewrite <- S1 in I2. rewrite <- S5 in I1.
  destruct (jump_slot i) as [idx sh]. cbn [fst snd] in *. rewrite !go_index_nth by lia. cbn [mbind Res_bind].
  rewrite I1. fold (half (nth (Z.to_nat idx) (ef_jump ef) 0) sh). rewrite I2.
  assert (Hi0 : 0 <= i0 < n) by (unfold i0; lia). pose proof (at_range i0 Hi0) as Ha. pose proof wu_small.
  replace (at_ (i0 - i0 mod superQ) + (at_ i0 - at_ (i0 - i0 mod superQ))) with (at_ i0) by lia. rewrite u64_id by (unfold is_u64, two64; lia).
  destruct (position_in upper (at_ i0) ltac:(lia)) as (P1 & P2 & P3). rewrite go_index_nth by exact P1. cbn [mbind Res_bind].
  set (cw := at_ i0 / 64) in *. set (m := at_ i0 mod 64) in *. assert (Eat : 64 * cw + m = at_ i0) by (pose proof (Z.div_mod (at_ i0) 64); unfold cw, m; lia).
  replace (Z.land i qMask) with (i mod 256) by (symmetry; apply (land_low i 8); lia).
  assert (Hwin : window_of cw m (Z.land (nth (Z.to_nat cw) upper 0) (shl64 MaxUint64 m))).
  { destruct (full_window cw ltac:(lia)) as (X1 & _ & _ & X4). split; [|split; [lia|split; [lia|]]].
    - pose proof (land_le_r (shl64 MaxUint64 m) (nth (Z.to_nat cw) upper 0) (proj1 (shl64_range _ _)) (proj1 X1)) as Hl. rewrite Z.land_comm in Hl.
      unfold is_u64 in *. lia.
    - intros r Hr. rewrite Z.land_spec, X4, shl64_bit by lia. destruct (Z.leb_spec 0 r); [|lia]. destruct (Z.ltb_spec r 64); [|lia]. cbn [andb].
      change MaxUint64 with (Z.ones 64). destruct (Z.leb_spec m r); [rewrite Z.ones_spec_low by lia; by rewrite andb_true_r|].
      rewrite (Z.testbit_neg_r (Z.ones 64)) by lia. by rewrite andb_false_r. }
  destruct (at_selects i0 Hi0) as (_ & _ & R0).
  destruct (scan_exact i (S (length upper)) cw m _ (i mod 256) Hi Hwin) as (cw' & m' & w' & d' & -> & Hw' & Hd' & Hd0);
    [rewrite Eat; apply at_mono; unfold i0; lia|rewrite Eat, R0; unfold i0; lia|lia|unfold zlen in *; lia|].
  cbn [mbind Res_bind]. destruct (Select64_selects w' d' (proj1 Hw') Hd0) as (sel & -> & Hsel & S0 & Sb & Sr). cbn [mbind Res_bind mret Res_ret].
  exists cw', w', sel. split; [reflexivity|]. pose proof (ones_window cw' m' w' Hw' (Z.to_nat sel) ltac:(lia)) as Ho.
  destruct Hw' as (W1 & W2 & W3 & W4). rewrite W4 in Sb by lia. apply andb_prop in Sb as [Sm Sb]. apply Z.leb_le in Sm.
  split; [exact W3|]. split; [lia|]. rewrite Z2Nat.id in Ho by lia. destruct (Z.leb_spec m' sel); [|lia]. split.
  - apply (selects_unique U i); [|by apply at_selects]. split; [lia|]. replace (cw' * 64 + sel) with (64 * cw' + sel) by lia. split; [exact Sb|].
    replace (Z.to_nat (64 * cw' + sel)) with (Z.to_nat (64 * cw') + Z.to_nat sel)%nat by lia. lia.
  - split; [exact W1|]. intros r Hr. rewrite W4 by lia. destruct (Z.leb_spec m' r); [reflexivity|lia].
Qed.
End Index.

(** ** A built sequence *)

Record holds_items (xs : list Z) (ef : EliasFano) : Prop := mkHolds {
  hi_count : zlen xs = n;
  hi_items : Forall (fun x => 0 <= x <= mx) xs;
  hi_sorted : StronglySorted Z.le xs;
  hi_lower : words (lowerBits ef) /\ zlen (lowerBits ef) = wl /\ wval (lowerBits ef) = lowval low xs;
  hi_upper : words (upperBits ef) /\ zlen (upperBits ef) = wu /\ marks (wval (upperBits ef)) (positions 0 xs);
  hi_jump : indexed (positions 0 xs) (ef_jump ef) n;
  hi_fields : lowerBitsMask ef = Z.ones low /\ ef_count ef = n - 1 /\ ef_l ef = low /\ maxOffset ef = mx /\ ef_u ef = mx + 1
}.

Definition build (xs : list Z) : Res EliasFano := ef ← NewEliasFano n mx; ef ← fill xs ef; Build ef.

Lemma upper_small xs U : zlen xs = n -> Forall (fun x => 0 <= x <= mx) xs -> U < 2 ^ top xs -> U < 2 ^ (64 * wu).
Proof.
  intros Hl Hx HU. eapply Z.lt_le_trans; [exact HU|]. apply Z.pow_le_mono_r; [lia|]. destruct sizes_exact as (_ & _ & _ & _ & _ & _ & _ & F2).
  destruct low_spec as [Hl0 _]. assert (0 < 2 ^ low) by (apply Z.pow_pos_nonneg; lia). unfold top. rewrite Hl.
  assert (List.last xs 0 / 2 ^ low <= (mx + 1) / 2 ^ low); [|lia]. apply Z.div_le_mono; [lia|].
  destruct (exists_last (l := xs)) as (ys & y & ->); [intros ->; unfold zlen in Hl; cbn in Hl; lia|]. rewrite last_last.
  apply Forall_app in Hx as [_ Hy]. apply Forall_cons in Hy as [Hy _]. lia.
Qed.

Lemma build_exact xs : zlen xs = n -> Forall (fun x => 0 <= x <= mx) xs -> StronglySorted Z.le xs ->
  exists ef, build xs = Val ef /\ holds_items xs ef.
Proof.
  intros Hl Hx Hs. unfold build. destruct New_adding as (ef0 & -> & H0). cbn [mbind Res_bind].
  destruct (fill_adding xs [] ef0 H0) as (ef & -> & [(L1 & L2 & L3) (U1 & U2 & U3 & U4) Hef]).
  { cbn [app]. lia. } { cbn. lia. }
  { cbn [List.last]. constructor; [exact Hs|]. eapply Forall_impl; [exact Hx|]. cbn. lia. }
  { eapply Forall_impl; [exact Hx|]. cbn. lia. }
  cbn [app mbind Res_bind] in *. unfold Build. rewrite Hef. cbn [wordsUpperBits upperBits ef_jump].
  assert (Lp : zlen (positions 0 xs) = n) by (unfold zlen; rewrite length_positions; exact Hl).
  destruct (build_index _ _ U3 Lp (upper_small xs _ Hl Hx U4) (upperBits ef) U1 U2 eq_refl (replicate (Z.to_nat js) 0)) as (s & -> & Hi).
  { apply make_words_zero. }
  { rewrite zlen_replicate. destruct sizes_exact as (_ & _ & _ & _ & _ & B3 & _). lia. }
  cbn [mbind Res_bind mret Res_ret]. eexists. split; [reflexivity|]. unfold with_jump. by split; cbn [lowerBits upperBits ef_jump lowerBitsMask ef_count ef_l maxOffset ef_u].
Qed.

Section Built.
Context (xs : list Z) (ef : EliasFano) (H : holds_items xs ef).

Definition item (i : Z) : Z := nth (Z.to_nat i) xs 0.
Abbreviation U := (wval (upperBits ef)).
Abbreviation ps := (positions 0 xs).

Lemma ps_len : zlen ps = n.
Proof. unfold zlen. rewrite length_positions. apply (hi_count _ _ H). Qed.

Lemma item_range i : 0 <= i < n -> 0 <= item i <= mx.
Proof.
  intros Hi. apply (Forall_nth (fun x => 0 <= x <= mx) 0 xs); [apply (hi_items _ _ H)|]. pose proof (hi_count _ _ H). unfold zlen in *. lia.
Qed.

Lemma sorted_nth (l : list Z) : StronglySorted Z.le l -> forall i j, (i <= j < length l)%nat -> nth i l 0 <= nth j l 0.
Proof.
  induction 1 as [|x l Hs IH Hx]; intros i j Hij; cbn [length] in Hij; [lia|]. destruct i as [|i], j as [|j]; cbn [nth]; try lia.
  - apply (Forall_nth (Z.le x) 0 l); [exact Hx|lia].
  - apply IH. lia.
Qed.

Lemma item_mono i j : 0 <= i <= j -> j < n -> item i <= item j.
Proof. intros Hi Hj. apply sorted_nth; [apply (hi_sorted _ _ H)|]. pose proof (hi_count _ _ H). unfold zlen in *. lia. Qed.

Lemma at_item i : 0 <= i < n -> at_ ps i = item i / 2 ^ low + i.
Proof.
  intros Hi. unfold at_, item. rewrite nth_positions by (pose proof (hi_count _ _ H); unfold zlen in *; lia). lia.
Qed.

(** All bits lie in the area. *)
Lemma U_small : U < 2 ^ (64 * wu).
Proof.
  destruct (hi_upper _ _ H) as (W & L & _). rewrite <- L. by apply wval_bound.
Qed.

Lemma select_item i : 0 <= i < n -> exists cw window sel, select_upper ef i = Val (cw, window, sel) /\ found U ps i cw window sel.
Proof.
  intros Hi. destruct (hi_upper _ _ H) as (W & L & M).
  exact (select_upper_exact U ps M ps_len U_small (upperBits ef) W L eq_refl ef i eq_refl (hi_jump _ _ H) Hi).
Qed.

(** Item [i] from its two parts. *)
Lemma rejoin x : 0 <= x < two64 -> Z.lor (shl64 (x / 2 ^ low) low) (x mod 2 ^ low) = x.
Proof.
  intros Hx. destruct low_spec as [Hl _]. assert (Hp : 0 < 2 ^ low) by (apply Z.pow_pos_nonneg; lia). pose proof (Z.mod_pos_bound x (2 ^ low) Hp).
  pose proof (Z.div_mod x (2 ^ low) ltac:(lia)). pose proof (Z.div_pos x (2 ^ low) ltac:(lia) ltac:(lia)).
  unfold shl64. rewrite Z.shiftl_mul_pow2, u64_id by (unfold is_u64; lia). rewrite Z.lor_comm, lor_add; lia.
Qed.

Lemma low_window i : 0 <= i < n -> exists w, lower_window (lowerBits ef) (u64 (i * low)) = Val w /\ w = Z.shiftr (lowval low xs) (i * low) mod 2 ^ 64.
Proof.
  intros Hi. destruct (hi_lower _ _ H) as (W & L & V). destruct low_spec as [Hl _]. rewrite u64_id by (unfold is_u64, two64; nia).
  rewrite lower_window_exact; [rewrite V; by eexists|exact W|nia|rewrite L; unfold wl|rewrite L; unfold wl].
  - assert (i * low / 64 <= (n * low + 63) / 64) by (apply Z.div_le_mono; nia). lia.
  - intros Hs. assert (0 < low) by (destruct (Z.eq_dec low 0) as [E|]; [rewrite E, Z.mul_0_r in Hs; rewrite Zmod_0_l in Hs; lia|lia]).
    assert (i * low / 64 + 1 <= (n * low + 63) / 64); [|lia]. rewrite <- Z.div_add by lia. apply Z.div_le_mono; nia.
Qed.

Lemma mod_mod_pow a b c : 0 <= b <= c -> (a mod 2 ^ c) mod 2 ^ b = a mod 2 ^ b.
Proof.
  intros Hb. apply Z.mod_mod_divide. exists (2 ^ (c - b)). rewrite <- Z.pow_add_r by lia. f_equal. lia.
Qed.

Lemma get_exact i : 0 <= i < n -> exists r, get ef i = Val r /\ f_val r = item i /\
  found U ps i (f_currWord r) (f_window r) (f_sel r) /\ f_lower r = Z.shiftr (lowval low xs) (i * low) mod 2 ^ 64.
Proof.
  intros Hi. destruct (hi_fields _ _ H) as (Em & _ & El & _). unfold get. rewrite El, Em. destruct (low_window i Hi) as (w & -> & Ew). cbn [mbind Res_bind].
  destruct (select_item i Hi) as (cw & window & sel & -> & Hf). cbn [mbind Res_bind mret Res_ret]. eexists. split; [reflexivity|]. cbn [f_val f_currWord f_window f_sel f_lower].
  split; [|by split]. destruct Hf as (_ & _ & Ea & _). rewrite at_item in Ea by exact Hi. pose proof (item_range i Hi) as Hr. destruct low_spec as [Hl _].
  assert (Hd : 0 <= item i / 2 ^ low <= item i).
  { assert (0 < 2 ^ low) by (apply Z.pow_pos_nonneg; lia). split; [apply Z.div_pos; lia|apply Z.div_le_upper_bound; nia]. }
  replace (cw * 64 + sel - i) with (item i / 2 ^ low) by lia. unfold MaxUint64 in Hmx. rewrite u64_id by (unfold is_u64, two64; lia).
  rewrite Z.land_ones by lia. rewrite Ew, mod_mod_pow by lia. rewrite <- (Z2Nat.id i) at 2 by lia.
  rewrite lowval_get by (pose proof (hi_count _ _ H); unfold zlen in *; lia). fold (item i). apply rejoin. unfold two64. lia.
Qed.

Lemma Get_exact i : 0 <= i < n -> Get ef i = Val (item i).
Proof. intros Hi. unfold Get. destruct (get_exact i Hi) as (r & -> & Er & _). cbn [mbind Res_bind mret Res_ret]. by rewrite Er. Qed.

Lemma upper_exact i : 0 <= i < n -> ef_upper ef i = Val (item i / 2 ^ low).
Proof.
  intros Hi. unfold ef_upper. destruct (select_item i Hi) as (cw & window & sel & -> & Hf). cbn [mbind Res_bind mret Res_ret].
  destruct Hf as (_ & _ & Ea & _). rewrite at_item in Ea by exact Hi. replace (cw * 64 + sel - i) with (item i / 2 ^ low) by lia.
  pose proof (item_range i Hi). destruct low_spec as [Hl _]. assert (0 < 2 ^ low) by (apply Z.pow_pos_nonneg; lia).
  assert (0 <= item i / 2 ^ low <= item i) by (split; [apply Z.div_pos; lia|apply Z.div_le_upper_bound; nia]).
  rewrite u64_id; [reflexivity|]. unfold is_u64, two64, MaxUint64 in *. lia.
Qed.

(** *** Two neighbours *)

Lemma TrailingZeros_exact w : is_u64 w -> w <> 0 ->
  0 <= TrailingZeros64 w < 64 /\ Z.testbit w (TrailingZeros64 w) = true /\ ones (Z.to_nat (TrailingZeros64 w)) w = 0.
Proof.
  intros Hw Hne. unfold TrailingZeros64. destruct (List.find _ _) as [r|] eqn:E.
  - pose proof (find_some _ _ E) as [Hin Hb]. apply in_seq in Hin. split; [lia|]. split; [exact Hb|]. rewrite Nat2Z.id.
    assert (Hz : forall k, (k < r)%nat -> Z.testbit w (Z.of_nat k) = false).
    { intros k Hk.
      assert (G : forall m s0, (s0 <= k)%nat -> List.find (fun i => Z.testbit w (Z.of_nat i)) (seq s0 m) = Some r -> Z.testbit w (Z.of_nat k) = false).
      { induction m as [|m IH]; intros s0 Hs Hf; cbn in Hf; [discriminate|]. destruct (Z.testbit w (Z.of_nat s0)) eqn:Eb.
        - injection Hf as <-. lia.
        - destruct (Nat.eq_dec s0 k) as [->|]; [exact Eb|]. apply (IH (S s0)); [lia|exact Hf]. }
      exact (G 64%nat 0%nat ltac:(lia) E). }
    clear - Hz. induction r as [|r IH]; [reflexivity|]. cbn [ones]. rewrite Hz by lia. rewrite IH by (intros; apply Hz; lia). reflexivity.
  - exfalso. apply Hne. apply Z.bits_inj'. intros k Hk. rewrite Z.testbit_0_l. destruct (Z.lt_ge_cases k 64); [|by apply u64_bit].
    pose proof (find_none _ _ E (Z.to_nat k)) as Hf. cbn beta in Hf. rewrite Z2Nat.id in Hf by lia. apply Hf. apply in_seq. lia.
Qed.

Lemma skip_zero_exact i fuel : forall cw m window, 0 <= i < n -> window_of U cw m window ->
  ones (Z.to_nat (64 * cw + m)) U = i -> wu - cw < Z.of_nat fuel ->
  exists cw' window', skip_zero fuel (upperBits ef) cw window = Val (cw', window') /\
    cw' * 64 + TrailingZeros64 window' = at_ ps i.
Proof.
  destruct (hi_upper _ _ H) as (W & L & M). pose proof (at_selects U ps M ps_len) as Hsel.
  induction fuel as [|fuel IH]; intros cw m window Hi Hw Ho Hf; [destruct Hw as (_ & _ & Hc & _); lia|]. cbn [skip_zero].
  pose proof (ones_window U cw m window Hw) as Hones. destruct (Z.eqb_spec window 0) as [E|E].
  - specialize (Hones 64%nat ltac:(lia)). destruct Hw as (W1 & W2 & W3 & W4). destruct (Z.leb_spec m (Z.of_nat 64)); [|lia].
    assert (Hz : ones 64 window = 0) by (rewrite E; vm_compute; reflexivity). rewrite Hz in Hones.
    replace (Z.to_nat (64 * cw) + 64)%nat with (Z.to_nat (64 * (cw + 1))) in Hones by lia.
    assert (Hafter : 64 * (cw + 1) <= at_ ps i) by (apply (at_after U ps M ps_len); lia).
    pose proof (at_range U ps M ps_len U_small i Hi). pose proof wu_small. rewrite u64_id by (unfold is_u64, two64; lia).
    rewrite go_index_nth by lia. cbn [mbind Res_bind]. apply (IH (cw + 1) 0); [exact Hi|apply (full_window U (upperBits ef)); (assumption || reflexivity || lia)|rewrite Z.add_0_r; lia|lia].
  - cbn [mret Res_ret]. exists cw, window. split; [reflexivity|]. destruct (TrailingZeros_exact window (proj1 Hw) E) as (T1 & T2 & T3).
    set (t := TrailingZeros64 window) in *. specialize (Hones (Z.to_nat t) ltac:(lia)). destruct Hw as (W1 & W2 & W3 & W4).
    rewrite W4 in T2 by lia. apply andb_prop in T2 as [Tm T2]. apply Z.leb_le in Tm. rewrite Z2Nat.id in Hones by lia.
    destruct (Z.leb_spec m t); [|lia]. apply (selects_unique U i); [|by apply Hsel]. split; [lia|].
    replace (cw * 64 + t) with (64 * cw + t) by lia. split; [exact T2|].
    replace (Z.to_nat (64 * cw + t)) with (Z.to_nat (64 * cw) + Z.to_nat t)%nat by lia. lia.
Qed.

Lemma Get2_exact i : 0 <= i -> i + 1 < n -> 2 * low <= 64 -> Get2 ef i = Val (item i, item (i + 1)).
Proof.
  intros H0 Hi Hwide. destruct (hi_upper _ _ H) as (W & L & M). destruct (hi_fields _ _ H) as (Em & _ & El & _).
  unfold Get2. destruct (get_exact i ltac:(lia)) as (r & -> & Er & (F1 & F2 & F3 & F4 & F5) & Elow). cbn [mbind Res_bind]. rewrite Er.
  set (cw := f_currWord r) in *. set (sel := f_sel r) in *. set (window := Z.land (f_window r) _).
  assert (Hbits : forall k, 0 <= k -> Z.testbit (shl64 (shl64 MaxUint64 sel) 1) k = (k <? 64) && (sel + 1 <=? k)).
  { intros k Hk. rewrite shl64_bit by lia. destruct (Z.ltb_spec k 64); [|reflexivity]. cbn [andb]. destruct (Z.leb_spec (sel + 1) k).
    - rewrite shl64_bit by lia. change MaxUint64 with (Z.ones 64). rewrite Z.ones_spec_low by lia. destruct (Z.ltb_spec (k - 1) 64); [reflexivity|lia].
    - destruct (Z.eq_dec k 0) as [->|]; [apply Z.testbit_neg_r; lia|]. rewrite shl64_bit by lia. rewrite (Z.testbit_neg_r MaxUint64) by lia. apply andb_false_r. }
  destruct (at_selects U ps M ps_len i ltac:(lia)) as (S1 & S2 & S3). pose proof (ones_after U (at_ ps i) S1 S2) as Hafter.
  assert (Hw : window_of U cw (sel + 1) window).
  { split; [|split; [lia|split; [exact F1|]]].
    - unfold window. pose proof (land_le_r (shl64 (shl64 MaxUint64 sel) 1) (f_window r) (proj1 (shl64_range _ _)) (proj1 F4)) as Hl. rewrite Z.land_comm in Hl.
      unfold is_u64 in *. lia.
    - intros k Hk. unfold window. rewrite Z.land_spec, Hbits by lia. destruct (Z.ltb_spec k 64); [|lia]. destruct (Z.leb_spec (sel + 1) k); cbn [andb].
      + by rewrite F5, andb_true_r by lia.
      + apply andb_false_r. }
  destruct (skip_zero_exact (i + 1) (S (length (upperBits ef))) cw (sel + 1) window ltac:(lia) Hw) as (cw' & w' & -> & Eat);
    [replace (64 * cw + (sel + 1)) with (at_ ps i + 1) by lia; lia|unfold zlen in *; lia|].
  cbn [mbind Res_bind mret Res_ret]. rewrite El, Em. do 2 f_equal. rewrite at_item in Eat by lia.
  pose proof (item_range (i + 1) ltac:(lia)) as Hr. destruct low_spec as [Hl _].
  assert (Hd : 0 <= item (i + 1) / 2 ^ low <= item (i + 1)).
  { assert (0 < 2 ^ low) by (apply Z.pow_pos_nonneg; lia). split; [apply Z.div_pos; lia|apply Z.div_le_upper_bound; nia]. }
  replace (cw' * 64 + TrailingZeros64 w' - i - 1) with (item (i + 1) / 2 ^ low) by lia. unfold MaxUint64 in Hmx. rewrite u64_id by (unfold is_u64, two64; lia).
  rewrite Z.land_ones by lia. replace (Z.shiftr (f_lower r) low mod 2 ^ low) with (item (i + 1) mod 2 ^ low); [apply rejoin; unfold two64; lia|].
  unfold item. rewrite <- lowval_get by (pose proof (hi_count _ _ H); unfold zlen in *; lia). rewrite Z2Nat.id by lia. rewrite Elow.
  apply Z.bits_inj'. intros k Hk. destruct (Z.lt_ge_cases k low).
  - rewrite !Z.mod_pow2_bits_low, !Z.shiftr_spec, Z.mod_pow2_bits_low, Z.shiftr_spec by lia. f_equal. lia.
  - by rewrite !Z.mod_pow2_bits_high by lia.
Qed.

(** *** Searching *)

Context (Hlast : item (n - 1) = mx).

Lemma walk_up_exact v fuel : forall j, v <= mx -> 0 <= j < n -> n - j < Z.of_nat fuel ->
  exists k, walk_up fuel ef v j = Val (Some (item k, k)) /\ j <= k < n /\ v <= item k /\ forall h, j <= h < k -> item h < v.
Proof.
  destruct (hi_fields _ _ H) as (_ & Ec & _). induction fuel as [|fuel IH]; intros j Hv Hj Hf; [lia|]. cbn [walk_up]. rewrite Ec.
  destruct (Z.leb_spec j (n - 1)); [|lia]. destruct (get_exact j Hj) as (r & -> & Er & _). cbn [mbind Res_bind]. rewrite Er.
  destruct (Z.leb_spec v (item j)) as [Hle|Hgt]; [exists j; split; [reflexivity|]; split; [lia|]; split; [exact Hle|]; intros; lia|].
  assert (j <> n - 1) by (intros ->; lia). rewrite u64_id by (unfold is_u64, two64; lia).
  destruct (IH (j + 1) Hv ltac:(lia) ltac:(lia)) as (k & E & Hk & Hvk & Hb). exists k. split; [exact E|]. split; [lia|]. split; [exact Hvk|].
  intros h Hh. destruct (Z.eq_dec h j) as [->|]; [exact Hgt|apply Hb; lia].
Qed.

Lemma walk_down_exact v fuel : forall j, 0 <= j <= n -> n - j < Z.of_nat fuel -> exists r, walk_down fuel ef v j = Val r /\
  match r with
  | Some (x, k) => 0 <= k <= n - 1 - j /\ x = item k /\ x <= v /\ forall h, k < h <= n - 1 - j -> v < item h
  | None => forall h, 0 <= h <= n - 1 - j -> v < item h
  end.
Proof.
  destruct (hi_fields _ _ H) as (_ & Ec & _). induction fuel as [|fuel IH]; intros j Hj Hf; [lia|]. cbn [walk_down]. rewrite Ec.
  destruct (Z.leb_spec j (n - 1)); [|exists None; split; [reflexivity|]; intros; lia]. rewrite (u64_id (n - 1 - j)) by (unfold is_u64, two64; lia).
  destruct (get_exact (n - 1 - j) ltac:(lia)) as (r & -> & Er & _). cbn [mbind Res_bind]. rewrite Er.
  destruct (Z.leb_spec (item (n - 1 - j)) v) as [Hle|Hgt].
  - eexists. split; [reflexivity|]. cbn beta iota. split; [lia|]. split; [reflexivity|]. split; [exact Hle|]. intros; lia.
  - rewrite u64_id by (unfold is_u64, two64; lia). destruct (IH (j + 1) ltac:(lia) ltac:(lia)) as (o & E & Ho). exists o. split; [exact E|].
    assert (Hstep : forall h, h <= n - 1 - j -> h <= n - 1 - (j + 1) \/ h = n - 1 - j) by lia.
    destruct o as [[x k]|].
    + destruct Ho as (K1 & K2 & K3 & K4). split; [lia|]. split; [exact K2|]. split; [exact K3|]. intros h Hh. destruct (Hstep h ltac:(lia)) as [| ->]; [apply K4; lia|exact Hgt].
    + intros h Hh. destruct (Hstep h ltac:(lia)) as [| ->]; [apply Ho; lia|exact Hgt].
Qed.

(** [k] is the index of the least item from [v] on, or of the greatest one up to [v]. *)
Definition least_from (v k : Z) : Prop := 0 <= k < n /\ v <= item k /\ forall h, 0 <= h < n -> v <= item h -> item k <= item h.
Definition greatest_to (v k : Z) : Prop := 0 <= k < n /\ item k <= v /\ forall h, 0 <= h < n -> item h <= v -> item h <= item k.

Lemma div_lt_inv a b : a / 2 ^ low < b / 2 ^ low -> a < b.
Proof.
  intros Hd. destruct (Z.lt_ge_cases a b) as [|Hge]; [assumption|]. destruct low_spec as [Hl _].
  pose proof (Z.div_le_mono b a (2 ^ low) ltac:(apply Z.pow_pos_nonneg; lia) Hge). lia.
Qed.

Lemma last_index : i64 (u64 (ef_count ef + 1)) = n.
Proof.
  destruct (hi_fields _ _ H) as (_ & -> & _). replace (n - 1 + 1) with n by lia. rewrite u64_id by (unfold is_u64, two64; lia). apply i64_id. lia.
Qed.

Lemma search_up v : 0 <= v -> exists x k, search ef v false = Val (if v <=? mx then (x, k, true) else (0, 0, false)) /\
  (v <= mx -> x = item k /\ least_from v k).
Proof.
  intros Hv. destruct (hi_fields _ _ H) as (_ & Ec & El & Ex & _). unfold search. rewrite last_index. unfold ef_Max. rewrite Ex, El, Ec.
  pose proof (fun h Hh => proj2 (item_range h Hh)) as Hmx'.
  destruct (Z.eqb_spec v 0) as [->|Hv0].
  { unfold ef_Min. rewrite Get_exact by lia. exists (item 0), 0. destruct (Z.leb_spec 0 mx); [|lia]. split; [reflexivity|]. intros _.
    split; [reflexivity|]. split; [lia|]. split; [apply item_range; lia|]. intros h Hh _. apply item_mono; lia. }
  destruct (Z.eqb_spec v mx) as [->|Hvm].
  { exists mx, (n - 1). rewrite Z.leb_refl. split; [reflexivity|]. intros _. split; [congruence|]. split; [lia|]. rewrite Hlast. split; [lia|]. intros h Hh Hle. exact Hle. }
  destruct (Z.ltb_spec mx v); [exists 0, 0; destruct (Z.leb_spec v mx); [lia|]; split; [reflexivity|lia]|]. destruct low_spec as [Hl _].
  assert (Hp : 0 < 2 ^ low) by (apply Z.pow_pos_nonneg; lia). rewrite Z.shiftr_div_pow2 by lia.
  destruct (search_loop_exact (fun i => u ← ef_upper ef i; mret (v / 2 ^ low <=? u)) (fun i => v / 2 ^ low <=? item i / 2 ^ low) n (Z.to_nat n) 0 n) as (k0 & Ek & Hk0 & Hlo & Hhi).
  { intros h Hh. by rewrite upper_exact by exact Hh. }
  { intros h h' Hh Hh' Hg. apply Z.leb_le in Hg. apply Z.leb_le. pose proof (Z.div_le_mono (item h) (item h') (2 ^ low) Hp (item_mono h h' Hh Hh')). lia. }
  1-5: intros; lia.
  unfold sort_SearchM. rewrite Ek. cbn [mbind Res_bind]. assert (Hk0n : k0 < n).
  { destruct (Z.lt_ge_cases k0 n) as [|Hge]; [assumption|]. specialize (Hlo (n - 1) ltac:(lia)). apply Z.leb_gt in Hlo. apply div_lt_inv in Hlo. lia. }
  destruct (walk_up_exact v (S (Z.to_nat n)) k0 ltac:(lia) ltac:(lia) ltac:(lia)) as (k & -> & Hk & Hvk & Hb). cbn [mbind Res_bind mret Res_ret].
  exists (item k), k. destruct (Z.leb_spec v mx); [|lia]. split; [reflexivity|]. intros _. split; [reflexivity|]. split; [lia|]. split; [exact Hvk|].
  intros h Hh Hvh. apply item_mono; [|lia]. split; [lia|]. destruct (Z.le_gt_cases k h) as [|Hlt]; [assumption|exfalso].
  destruct (Z.lt_ge_cases h k0) as [Hh0|]; [|pose proof (Hb h ltac:(lia)); lia]. specialize (Hlo h ltac:(lia)). apply Z.leb_gt in Hlo. apply div_lt_inv in Hlo. lia.
Qed.

Lemma search_down v : 0 <= v -> exists x k ok, search ef v true = Val (x, k, ok) /\
  if ok then x = item k /\ greatest_to v k else forall h, 0 <= h < n -> v < item h.
Proof.
  intros Hv. destruct (hi_fields _ _ H) as (_ & Ec & El & Ex & _). unfold search. rewrite last_index. unfold ef_Max. rewrite Ex, El, Ec.
  pose proof (fun h Hh => proj2 (item_range h Hh)) as Hmx'. assert (Hlastok : forall w, mx <= w -> greatest_to w (n - 1)).
  { intros w Hw. split; [lia|]. rewrite Hlast. split; [exact Hw|]. intros h Hh _. by apply Hmx'. }
  destruct (Z.eqb_spec v 0) as [->|Hv0].
  { unfold ef_Min. rewrite Get_exact by lia. exists 0, 0, (item 0 =? 0). split; [reflexivity|]. pose proof (item_range 0 ltac:(lia)).
    destruct (Z.eqb_spec (item 0) 0) as [E|E].
    - split; [congruence|]. split; [lia|]. split; [lia|]. intros h Hh Hle. lia.
    - intros h Hh. pose proof (item_mono 0 h ltac:(lia) ltac:(lia)). lia. }
  destruct (Z.eqb_spec v mx) as [->|Hvm]; [exists mx, (n - 1), true; split; [reflexivity|]; split; [congruence|apply Hlastok; lia]|].
  destruct (Z.ltb_spec mx v); [exists mx, (n - 1), true; split; [reflexivity|]; split; [congruence|apply Hlastok; lia]|]. destruct low_spec as [Hl _].
  assert (Hp : 0 < 2 ^ low) by (apply Z.pow_pos_nonneg; lia). rewrite Z.shiftr_div_pow2 by lia.
  destruct (search_loop_exact (fun i => u ← ef_upper ef (u64 (n - 1 - i)); mret (u <=? v / 2 ^ low)) (fun i => item (n - 1 - i) / 2 ^ low <=? v / 2 ^ low) n (Z.to_nat n) 0 n) as (k0 & Ek & Hk0 & Hlo & Hhi).
  { intros h Hh. rewrite u64_id by (unfold is_u64, two64; lia). by rewrite upper_exact by lia. }
  { intros h h' Hh Hh' Hg. apply Z.leb_le in Hg. apply Z.leb_le.
    pose proof (Z.div_le_mono (item (n - 1 - h')) (item (n - 1 - h)) (2 ^ low) Hp (item_mono (n - 1 - h') (n - 1 - h) ltac:(lia) ltac:(lia))). lia. }
  1-5: intros; lia.
  unfold sort_SearchM. rewrite Ek. cbn [mbind Res_bind].
  destruct (walk_down_exact v (S (Z.to_nat n)) k0 ltac:(lia) ltac:(lia)) as (o & -> & Ho). cbn [mbind Res_bind mret Res_ret].
  assert (Habove : forall h, n - 1 - k0 < h < n -> v < item h).
  { intros h Hh. specialize (Hlo (n - 1 - h) ltac:(lia)). apply Z.leb_gt in Hlo. replace (n - 1 - (n - 1 - h)) with h in Hlo by lia. by apply div_lt_inv in Hlo. }
  destruct o as [[x k]|].
  - destruct Ho as (K1 & -> & K3 & K4). exists (item k), k, true. split; [reflexivity|]. split; [reflexivity|]. split; [lia|]. split; [exact K3|].
    intros h Hh Hle. apply item_mono; [|lia]. split; [lia|]. destruct (Z.le_gt_cases h k) as [|Hgt]; [assumption|exfalso].
    destruct (Z.le_gt_cases h (n - 1 - k0)); [pose proof (K4 h ltac:(lia))|pose proof (Habove h ltac:(lia))]; lia.
  - exists 0, 0, false. split; [reflexivity|]. intros h Hh. destruct (Z.le_gt_cases h (n - 1 - k0)); [apply Ho|apply Habove]; lia.
Qed.
End Built.
End Sequence.
