(* ===== verification/EliasFanoIterSpec.v ===== *)
(** * Iterators over Elias-Fano sequences

    For [EliasFano]: an iterator yields the items in order (in reverse order when reversed),
    from any point it is sent to; reading the bytes of a sequence gives the sequence back. *)

From Stdlib Require Import Sorting.Sorted.
From S2P Require Import Prelude Errors Common Select EliasFano EliasFanoSpec.

Section Iterate.
Context (n mx : Z) (Hn : 1 <= n <= 2 ^ 30) (Hmx : 0 <= mx < MaxUint64).
Context (xs : list Z) (ef : EliasFano) (H : holds_items n mx xs ef).

Abbreviation U := (wval (upperBits ef)).
Abbreviation ps := (positions n mx 0 xs).
Abbreviation low := (low n mx).
Abbreviation wu := (wu n mx).
Abbreviation at_ := (at_ ps).
Abbreviation item := (item xs).

Lemma HM : marks U ps.
Proof. apply (hi_upper _ _ _ _ H). Qed.
Lemma Hlen : zlen (upperBits ef) = wu.
Proof. apply (hi_upper _ _ _ _ H). Qed.
Lemma Hwords : words (upperBits ef).
Proof. apply (hi_upper _ _ _ _ H). Qed.
Lemma Hsel i : 0 <= i < n -> selects U i (at_ i).
Proof. eapply at_selects; eauto using HM, ps_len. Qed.
Lemma Hrange i : 0 <= i < n -> 0 <= at_ i < 64 * wu.
Proof. eapply at_range; eauto using HM, ps_len, U_small. Qed.
Lemma Hitem i : 0 <= i < n -> at_ i = item i / 2 ^ low + i.
Proof. eapply at_item; eauto. Qed.
Lemma irange i : 0 <= i < n -> 0 <= item i <= mx.
Proof. eapply item_range; eauto. Qed.
Lemma low64 : 0 <= low < 64 /\ 0 < 2 ^ low.
Proof. destruct (low_spec n mx Hn Hmx) as [Hl _]. split; [exact Hl|apply Z.pow_pos_nonneg; lia]. Qed.
Lemma wu32 : 64 * wu < 2 ^ 32.
Proof. by apply wu_small. Qed.

Lemma upper_bit_of idx b : 0 <= idx -> 0 <= b < 64 -> Z.testbit (nth (Z.to_nat idx) (upperBits ef) 0) b = Z.testbit U (idx * 64 + b).
Proof. intros Hi Hb. symmetry. eapply upper_bit; eauto using Hwords. Qed.

Lemma step_exact : upperStep ef = 2 ^ low.
Proof.
  destruct (hi_fields _ _ _ _ H) as (_ & _ & El & _). destruct low64 as [Hl Hp]. unfold upperStep. rewrite El. unfold shl64.
  rewrite Z.shiftl_mul_pow2, Z.mul_1_l, u64_id by (try (unfold is_u64, two64; assert (2 ^ low <= 2 ^ 63) by (apply Z.pow_le_mono_r; lia)); lia). reflexivity.
Qed.

Lemma mask_pow b : 0 <= b < 64 -> shl64 1 b = 2 ^ b.
Proof.
  intros Hb. unfold shl64. assert (0 < 2 ^ b) by (apply Z.pow_pos_nonneg; lia). assert (2 ^ b <= 2 ^ 63) by (apply Z.pow_le_mono_r; lia).
  rewrite Z.shiftl_mul_pow2, Z.mul_1_l, u64_id by (try (unfold is_u64, two64); lia). reflexivity.
Qed.

Lemma mask_nonzero b : 0 <= b < 64 -> (shl64 1 b =? 0) = false.
Proof. intros Hb. rewrite mask_pow by exact Hb. apply Z.eqb_neq. pose proof (Z.pow_pos_nonneg 2 b). lia. Qed.

Lemma mask_next b : 0 <= b < 64 -> shl64 (shl64 1 b) 1 = shl64 1 (b + 1) /\ (shl64 1 (b + 1) =? 0) = (b =? 63).
Proof.
  intros Hb. assert (E : shl64 (shl64 1 b) 1 = shl64 1 (b + 1)).
  { apply Z.bits_inj'. intros k Hk. rewrite (shl64_bit (shl64 1 b)), (shl64_bit 1 (b + 1)) by lia. destruct (Z.ltb_spec k 64); [|reflexivity]. cbn [andb].
    destruct (Z.eq_dec k 0) as [->|]; [rewrite !Z.testbit_neg_r by lia; reflexivity|].
    rewrite shl64_bit by lia. destruct (Z.ltb_spec (k - 1) 64); [|lia]. cbn [andb]. f_equal. lia. }
  split; [exact E|]. destruct (Z.eqb_spec b 63) as [->|]; [reflexivity|]. rewrite mask_pow by lia. apply Z.eqb_neq.
  pose proof (Z.pow_pos_nonneg 2 (b + 1)). lia.
Qed.

(** ** Forward *)

(** The cursor stands before bit [P], [k] items having been passed. *)
Definition before (k P upper idx mask : Z) : Prop :=
  exists b, P = 64 * idx + b /\ 0 <= b <= 64 /\ mask = shl64 1 b /\ 0 <= idx /\
    ones (Z.to_nat P) U = k /\ upper = (P - k) * 2 ^ low.

(** The upper parts stay below the largest item. *)
Lemma upper_bound k P : 0 <= k < n -> 0 <= P <= at_ k -> (P - k) * 2 ^ low <= item k.
Proof.
  intros Hk HP. destruct low64 as [_ Hp]. rewrite Hitem in HP by exact Hk. pose proof (Z.div_mod (item k) (2 ^ low) ltac:(lia)).
  pose proof (Z.mod_pos_bound (item k) (2 ^ low) Hp). nia.
Qed.

Lemma rank_le P : ones (Z.to_nat P) U <= Z.of_nat (Z.to_nat P).
Proof. apply ones_nonneg. Qed.

Lemma increment_loop_exact k fuel : forall P b idx, 0 <= k < n -> P = 64 * idx + b -> 0 <= b < 64 -> 0 <= idx ->
  ones (Z.to_nat P) U = k -> P <= at_ k -> at_ k - P < Z.of_nat fuel ->
  exists idx' b', increment_loop ef fuel ((P - k) * 2 ^ low, idx, shl64 1 b) = Val ((at_ k - k) * 2 ^ low, idx', shl64 1 b') /\
    at_ k = 64 * idx' + b' /\ 0 <= b' < 64 /\ 0 <= idx'.
Proof.
  induction fuel as [|fuel IH]; intros P b idx Hk HP Hb Hidx Ho Hle Hf; [lia|]. cbn [increment_loop].
  pose proof (Hrange k Hk) as Hr. pose proof wu32. rewrite go_index_nth by (rewrite Hlen; lia). cbn [mbind Res_bind].
  rewrite (land_bit n mx) by exact Hb. rewrite upper_bit_of by lia. replace (idx * 64 + b) with P by lia.
  destruct (Z.testbit U P) eqn:Eb; cbn [negb].
  - assert (P = at_ k) as -> by (apply (selects_unique U k); [split; [lia|by split]|by apply Hsel]).
    exists idx, b. split; [reflexivity|]. lia.
  - assert (Hlt : P < at_ k) by (destruct (Z.eq_dec P (at_ k)) as [E|]; [destruct (Hsel k Hk) as (_ & B & _); congruence|lia]).
    assert (Ho' : ones (Z.to_nat (P + 1)) U = k).
    { replace (Z.to_nat (P + 1)) with (S (Z.to_nat P)) by lia. cbn [ones]. rewrite Z2Nat.id, Eb by lia. cbn [Z.b2z]. lia. }
    pose proof (upper_bound k (P + 1) Hk ltac:(lia)) as Hub. pose proof (irange k Hk). pose proof (rank_le P). destruct low64 as [_ Hp].
    rewrite step_exact. unfold MaxUint64 in Hmx. rewrite u64_id by (unfold is_u64, two64; nia).
    replace ((P - k) * 2 ^ low + 2 ^ low) with ((P + 1 - k) * 2 ^ low) by lia.
    destruct (mask_next b Hb) as [-> E0]. rewrite E0. destruct (Z.eqb_spec b 63) as [->|].
    + rewrite u64_id by (unfold is_u64, two64; lia). apply (IH (P + 1) 0 (idx + 1)); lia || assumption.
    + apply (IH (P + 1) (b + 1) idx); lia || assumption.
Qed.

Lemma increment_exact k P it : 0 <= k < n -> before k P (it_upper it) (it_upperIdx it) (it_upperMask it) ->
  exists idx mask, increment ef it = Val (mkIter (it_reverse it) ((item k / 2 ^ low) * 2 ^ low) idx (u64 (it_lowerIdx it + ef_l ef)) mask (itemsIterated it)) /\
    before (k + 1) (at_ k + 1) ((item k / 2 ^ low) * 2 ^ low) idx mask.
Proof.
  intros Hk (b & EP & Hb & Em & Hidx & Ho & Eu). unfold increment. rewrite Em. pose proof wu32. pose proof (Hrange k Hk) as Hr. pose proof Hlen as HL.
  assert (Hle : P <= at_ k) by (eapply at_after; eauto using HM, ps_len; lia). rewrite Eu.
  assert (Hstart : exists idx' b', (if shl64 1 b =? 0 then (u64 (it_upperIdx it + 1), 1) else (it_upperIdx it, shl64 1 b)) = (idx', shl64 1 b') /\
     P = 64 * idx' + b' /\ 0 <= b' < 64 /\ 0 <= idx').
  { destruct (Z.eq_dec b 64) as [->|].
    - exists (it_upperIdx it + 1), 0. change (shl64 1 64 =? 0) with true. cbn iota. rewrite u64_id by (unfold is_u64, two64; lia). split; [reflexivity|lia].
    - exists (it_upperIdx it), b. rewrite mask_nonzero by lia. split; [reflexivity|lia]. }
  destruct Hstart as (idx0 & b0 & -> & E1 & E2 & E3).
  destruct (increment_loop_exact k (S (64 * length (upperBits ef))) P b0 idx0 Hk E1 E2 E3 Ho Hle) as (idx & b' & -> & F1 & F2 & F3); [unfold zlen in HL; lia|].
  cbn [mbind Res_bind mret Res_ret]. rewrite Hitem in * by exact Hk. replace (item k / 2 ^ low + k - k) with (item k / 2 ^ low) by lia.
  eexists _, _. split; [reflexivity|]. exists (b' + 1). destruct (mask_next b' F2) as [-> _]. destruct (Hsel k Hk) as (S1 & S2 & S3).
  rewrite Hitem in S1, S2, S3 by exact Hk. split; [lia|]. split; [lia|]. split; [reflexivity|]. split; [lia|]. split; [rewrite ones_after by assumption; lia|]. lia.
Qed.

(** ** Backward *)

Definition back_mask (b : Z) : Z := Z.shiftr (shl64 1 b) 1.

Lemma back_mask_exact b : 0 <= b < 64 -> back_mask b = if b =? 0 then 0 else shl64 1 (b - 1).
Proof.
  intros Hb. unfold back_mask. rewrite mask_pow by exact Hb. destruct (Z.eqb_spec b 0) as [->|]; [reflexivity|].
  rewrite mask_pow, (shiftr_2n _ 2 1) by lia. replace b with (1 + (b - 1)) at 1 by lia. rewrite Z.pow_add_r by lia. change (2 ^ 1) with 2.
  rewrite Z.mul_comm. apply Z.div_mul. lia.
Qed.

(** The cursor stands after bit [P - 1], [r] items being left. *)
Definition after (r P upper idx mask : Z) : Prop :=
  exists b, P = 64 * idx + b /\ 0 <= b < 64 /\ mask = back_mask b /\ 0 <= idx /\
    ones (Z.to_nat P) U = r /\ upper = (P - r) * 2 ^ low.

Lemma above_at r P : 0 < r <= n -> 0 <= P -> ones (Z.to_nat P) U = r -> at_ (r - 1) < P.
Proof.
  intros Hr HP Ho. destruct (Hsel (r - 1) ltac:(lia)) as (_ & _ & S). destruct (Z.lt_ge_cases (at_ (r - 1)) P) as [|Hge]; [assumption|].
  pose proof (ones_mono U (Z.to_nat P) (Z.to_nat (at_ (r - 1))) ltac:(lia)). lia.
Qed.

Lemma decrement_loop_exact r fuel : forall p c idx, 0 < r <= n -> p = 64 * idx + c -> 0 <= c < 64 -> 0 <= idx -> p < 64 * wu ->
  ones (Z.to_nat (p + 1)) U = r -> p - at_ (r - 1) < Z.of_nat fuel ->
  exists idx' c', decrement_loop ef fuel ((p + 1 - r) * 2 ^ low, idx, shl64 1 c) = Val ((at_ (r - 1) + 1 - r) * 2 ^ low, idx', shl64 1 c') /\
    at_ (r - 1) = 64 * idx' + c' /\ 0 <= c' < 64 /\ 0 <= idx'.
Proof.
  induction fuel as [|fuel IH]; intros p c idx Hr Hp Hc Hidx Hfit Ho Hf; pose proof (above_at r (p + 1) Hr ltac:(lia) Ho) as Habove; [lia|]. cbn [decrement_loop].
  pose proof (Hrange (r - 1) ltac:(lia)). rewrite go_index_nth by (rewrite Hlen; lia). cbn [mbind Res_bind].
  rewrite (land_bit n mx) by exact Hc. rewrite upper_bit_of by lia. replace (idx * 64 + c) with p by lia.
  destruct (Z.testbit U p) eqn:Eb; cbn [negb].
  - assert (p = at_ (r - 1)) as <-.
    { apply (selects_unique U (r - 1)); [split; [lia|split; [exact Eb|]]|apply Hsel; lia]. rewrite ones_after in Ho by (assumption || lia). lia. }
    exists idx, c. split; [reflexivity|]. lia.
  - assert (Ho' : ones (Z.to_nat p) U = r).
    { rewrite <- Ho. replace (Z.to_nat (p + 1)) with (S (Z.to_nat p)) by lia. cbn [ones]. rewrite Z2Nat.id, Eb by lia. cbn [Z.b2z]. lia. }
    pose proof (above_at r p Hr ltac:(lia) Ho'). pose proof (rank_le p). destruct low64 as [_ Hpos]. rewrite step_exact.
    destruct (Z.ltb_spec ((p + 1 - r) * 2 ^ low) (2 ^ low)); [nia|]. replace ((p + 1 - r) * 2 ^ low - 2 ^ low) with ((p - 1 + 1 - r) * 2 ^ low) by lia.
    fold (back_mask c). rewrite back_mask_exact by exact Hc. destruct (Z.eqb_spec c 0) as [->|].
    + cbn [Z.eqb]. unfold previous. destruct (Z.eqb_spec idx 0); [lia|]. cbn [mbind Res_bind mret Res_ret].
      apply (IH (p - 1) 63 (idx - 1)); try lia. by replace (p - 1 + 1) with p by lia.
    + rewrite mask_nonzero by lia. cbn [mbind Res_bind mret Res_ret]. apply (IH (p - 1) (c - 1) idx); try lia. by replace (p - 1 + 1) with p by lia.
Qed.

Lemma decrement_exact r P it : 0 < r <= n -> P <= 64 * wu -> after r P (it_upper it) (it_upperIdx it) (it_upperMask it) ->
  exists idx mask, decrement ef it = Val (mkIter (it_reverse it) ((item (r - 1) / 2 ^ low) * 2 ^ low) idx (u64 (it_lowerIdx it - ef_l ef)) mask (itemsIterated it)) /\
    after (r - 1) (at_ (r - 1)) ((item (r - 1) / 2 ^ low) * 2 ^ low) idx mask.
Proof.
  intros Hr HPw (b & EP & Hb & Em & Hidx & Ho & Eu). unfold decrement. rewrite Em, Eu, back_mask_exact by exact Hb. pose proof Hlen as HL.
  pose proof (above_at r P Hr ltac:(lia) Ho) as Hab. pose proof (Hrange (r - 1) ltac:(lia)).
  assert (Hstart : exists idx' c', (if (if b =? 0 then 0 else shl64 1 (b - 1)) =? 0 then previous (it_upperIdx it) else mret (it_upperIdx it, if b =? 0 then 0 else shl64 1 (b - 1))) =
     Val (idx', shl64 1 c') /\ P - 1 = 64 * idx' + c' /\ 0 <= c' < 64 /\ 0 <= idx').
  { destruct (Z.eqb_spec b 0) as [->|].
    - cbn [Z.eqb]. unfold previous. destruct (Z.eqb_spec (it_upperIdx it) 0); [lia|]. exists (it_upperIdx it - 1), 63. split; [reflexivity|lia].
    - exists (it_upperIdx it), (b - 1). rewrite mask_nonzero by lia. split; [reflexivity|lia]. }
  destruct Hstart as (idx0 & c0 & -> & E1 & E2 & E3). cbn [mbind Res_bind]. replace ((P - r) * 2 ^ low) with ((P - 1 + 1 - r) * 2 ^ low) by lia.
  destruct (decrement_loop_exact r (S (64 * length (upperBits ef))) (P - 1) c0 idx0 Hr E1 E2 E3) as (idx & c' & -> & F1 & F2 & F3);
    [lia|by replace (P - 1 + 1) with P by lia|unfold zlen in HL; lia|].
  cbn [mbind Res_bind mret Res_ret]. pose proof (Hitem (r - 1) ltac:(lia)) as Ei. replace (at_ (r - 1) + 1 - r) with (item (r - 1) / 2 ^ low) by lia.
  eexists _, _. split; [reflexivity|]. destruct (Hsel (r - 1) ltac:(lia)) as (S1 & S2 & S3). exists c'. split; [exact F1|]. split; [exact F2|].
  split; [reflexivity|]. split; [exact F3|]. split; [exact S3|]. f_equal. lia.
Qed.

(** ** Draining *)

Fixpoint drain (fuel : nat) (it : EliasFanoIter) : Res (list Z) :=
  match fuel with
  | O => OutOfFuel
  | S fuel => if HasNext ef it then '(x, _, it) ← it_Next ef it; l ← drain fuel it; mret (x :: l) else mret []
  end.

(** Ready to yield item [k], or the [k]-th from the end. *)
Definition ready (k : Z) (it : EliasFanoIter) : Prop :=
  it_reverse it = false /\ itemsIterated it = k /\ 0 <= k <= n /\
  (k < n -> it_lowerIdx it = u64 (k * low) /\ exists P, before k P (it_upper it) (it_upperIdx it) (it_upperMask it)).
Definition ready_back (k : Z) (it : EliasFanoIter) : Prop :=
  it_reverse it = true /\ itemsIterated it = k /\ 0 <= k <= n /\
  (k < n -> it_lowerIdx it = u64 ((n - 1 - k) * low) /\ exists P, P <= 64 * wu /\ after (n - k) P (it_upper it) (it_upperIdx it) (it_upperMask it)).

Lemma count_exact : ef_count ef = n - 1 /\ ef_l ef = low /\ lowerBitsMask ef = Z.ones low.
Proof. destruct (hi_fields _ _ _ _ H) as (E1 & E2 & E3 & _). auto. Qed.

Lemma joined i w : 0 <= i < n -> w = Z.shiftr (lowval low xs) (i * low) mod 2 ^ 64 -> Z.lor (item i / 2 ^ low * 2 ^ low) (Z.land w (Z.ones low)) = item i.
Proof.
  intros Hi ->. destruct low64 as [Hl Hp]. rewrite Z.land_ones, mod_mod_pow by lia. rewrite <- (Z2Nat.id i) at 2 by lia.
  rewrite lowval_get by (pose proof (hi_count _ _ _ _ H); unfold zlen in *; lia). change (nth (Z.to_nat i) xs 0) with (item i).
  pose proof (Z.div_mod (item i) (2 ^ low) ltac:(lia)). pose proof (Z.mod_pos_bound (item i) (2 ^ low) Hp). rewrite Z.lor_comm, lor_add by lia. lia.
Qed.

Lemma Next_ready k it : ready k it -> k < n -> exists it', it_Next ef it = Val (item k, None, it') /\ ready (k + 1) it'.
Proof.
  intros (R1 & R2 & R3 & R4) Hk. destruct (R4 Hk) as [Elo [P HP]]. destruct count_exact as (Ec & El & Em). unfold it_Next, HasNext. rewrite R2, Ec.
  destruct (Z.leb_spec k (n - 1)); [|lia]. cbn [negb]. rewrite Elo. destruct (low_window n mx Hn Hmx xs ef H k ltac:(lia)) as (w & -> & Ew). cbn [mbind Res_bind].
  unfold moveNext. rewrite R1. destruct (increment_exact k P it ltac:(lia) HP) as (idx & mask & -> & Hb). cbn [mbind Res_bind mret Res_ret it_reverse it_upper it_upperIdx it_lowerIdx it_upperMask itemsIterated].
  rewrite Em, (joined k w ltac:(lia) Ew). eexists. split; [reflexivity|]. rewrite R2, (u64_id (k + 1)) by (unfold is_u64, two64; lia).
  split; [exact R1|]. split; [reflexivity|]. split; [lia|]. intros _. cbn [it_lowerIdx it_upper it_upperIdx it_upperMask]. split; [|by eexists].
  rewrite Elo, El. unfold u64. rewrite Zplus_mod_idemp_l. f_equal. lia.
Qed.

Lemma Next_back k it : ready_back k it -> k < n -> exists it', it_Next ef it = Val (item (n - 1 - k), None, it') /\ ready_back (k + 1) it'.
Proof.
  intros (R1 & R2 & R3 & R4) Hk. destruct (R4 Hk) as [Elo [P [HPw HP]]]. destruct count_exact as (Ec & El & Em). unfold it_Next, HasNext. rewrite R2, Ec.
  destruct (Z.leb_spec k (n - 1)); [|lia]. cbn [negb]. rewrite Elo. destruct (low_window n mx Hn Hmx xs ef H (n - 1 - k) ltac:(lia)) as (w & -> & Ew). cbn [mbind Res_bind].
  unfold moveNext. rewrite R1. destruct (decrement_exact (n - k) P it ltac:(lia) HPw HP) as (idx & mask & -> & Hb). replace (n - k - 1) with (n - 1 - k) in * by lia.
  cbn [mbind Res_bind mret Res_ret it_reverse it_upper it_upperIdx it_lowerIdx it_upperMask itemsIterated].
  rewrite Em, (joined (n - 1 - k) w ltac:(lia) Ew). eexists. split; [reflexivity|]. rewrite R2, (u64_id (k + 1)) by (unfold is_u64, two64; lia).
  split; [exact R1|]. split; [reflexivity|]. split; [lia|]. intros _. cbn [it_lowerIdx it_upper it_upperIdx it_upperMask]. split.
  - rewrite Elo, El. unfold u64. rewrite Zminus_mod_idemp_l. f_equal. lia.
  - exists (at_ (n - 1 - k)). pose proof (Hrange (n - 1 - k) ltac:(lia)). split; [lia|]. by replace (n - (k + 1)) with (n - 1 - k) by lia.
Qed.

Lemma drain_ready fuel : forall k it, ready k it -> n - k < Z.of_nat fuel -> drain fuel it = Val (drop (Z.to_nat k) xs).
Proof.
  pose proof (hi_count _ _ _ _ H) as Hc. destruct count_exact as (Ec & _).
  induction fuel as [|fuel IH]; intros k it R Hf; pose proof R as (R1 & R2 & R3 & _); [lia|]. cbn [drain]. unfold HasNext. rewrite R2, Ec.
  destruct (Z.leb_spec k (n - 1)); [|rewrite drop_ge by (unfold zlen in *; lia); reflexivity].
  destruct (Next_ready k it R ltac:(lia)) as (it' & -> & R'). cbn [mbind Res_bind]. rewrite (IH _ _ R') by lia. cbn [mbind Res_bind mret Res_ret]. f_equal.
  rewrite (drop_S xs (item k) (Z.to_nat k)); [f_equal; f_equal; lia|]. destruct (nth_lookup_or_length xs (Z.to_nat k) 0) as [E|E]; [exact E|unfold zlen in *; lia].
Qed.

Lemma drain_back fuel : forall k it, ready_back k it -> n - k < Z.of_nat fuel -> drain fuel it = Val (reverse (take (Z.to_nat (n - k)) xs)).
Proof.
  pose proof (hi_count _ _ _ _ H) as Hc. destruct count_exact as (Ec & _).
  induction fuel as [|fuel IH]; intros k it R Hf; pose proof R as (R1 & R2 & R3 & _); [lia|]. cbn [drain]. unfold HasNext. rewrite R2, Ec.
  destruct (Z.leb_spec k (n - 1)); [|replace (Z.to_nat (n - k)) with 0%nat by lia; reflexivity].
  destruct (Next_back k it R ltac:(lia)) as (it' & -> & R'). cbn [mbind Res_bind]. rewrite (IH _ _ R') by lia. cbn [mbind Res_bind mret Res_ret]. f_equal.
  replace (Z.to_nat (n - k)) with (S (Z.to_nat (n - (k + 1)))) by lia. rewrite (take_S_r xs _ (item (n - 1 - k))), reverse_snoc; [reflexivity|].
  destruct (nth_lookup_or_length xs (Z.to_nat (n - (k + 1))) 0) as [E|E]; [|unfold zlen in *; lia]. rewrite E. unfold EliasFanoSpec.item. do 3 f_equal. lia.
Qed.

(** ** Starting and seeking *)

Lemma Iterator_ready : ready 0 (ef_Iterator ef).
Proof.
  split; [reflexivity|]. split; [reflexivity|]. split; [lia|]. intros _. split; [reflexivity|]. exists 0, 0. cbn. repeat split; try lia.
Qed.

Lemma past_all : ones (Z.to_nat (n + (mx + 1) / 2 ^ low)) U = n /\ n + (mx + 1) / 2 ^ low <= 64 * wu /\ 0 <= (mx + 1) / 2 ^ low.
Proof.
  destruct low64 as [_ Hp]. assert (H0 : 0 <= (mx + 1) / 2 ^ low) by (apply Z.div_pos; lia). split; [|split; [|exact H0]].
  - rewrite (mk_total _ _ HM); [by apply (ps_len n mx xs ef)|]. rewrite Z2Nat.id by lia. apply bits_below_pow2; [lia|apply (mk_nonneg _ _ HM)|].
    intros p Hge. destruct (Z.testbit U p) eqn:E; [exfalso|reflexivity]. destruct (marks_bit U ps p HM ltac:(lia) E) as [Hc Hat].
    rewrite (ps_len n mx xs ef H) in Hc. set (c := ones _ U) in *. change (nth (Z.to_nat c) ps 0) with (at_ c) in Hat. rewrite Hitem in Hat by exact Hc.
    pose proof (irange c Hc). pose proof (Z.div_le_mono (item c) (mx + 1) (2 ^ low) Hp ltac:(lia)). lia.
  - apply (sizes_exact n mx Hn Hmx).
Qed.

Lemma ReverseIterator_ready : ready_back 0 (ReverseIterator ef).
Proof.
  destruct (hi_fields _ _ _ _ H) as (_ & Ec & El & Ex & Eu). destruct past_all as (Po & Pw & P0). destruct low64 as [Hl Hp]. pose proof wu32.
  unfold ReverseIterator, it_init. cbn [itemsIterated it_reverse Z.eqb negb]. rewrite Ec, El, Eu. replace (n - 1 + 1) with n by lia.
  rewrite (u64_id n), Z.shiftr_div_pow2, (u64_id (n + _)) by (unfold is_u64, two64; lia). set (P := n + (mx + 1) / 2 ^ low) in *.
  split; [reflexivity|]. split; [reflexivity|]. split; [lia|]. intros _. cbn [it_lowerIdx it_upper it_upperIdx it_upperMask]. split; [by rewrite Z.sub_0_r|].
  exists P. split; [exact Pw|]. exists (P mod 64). pose proof (Z.div_mod P 64 ltac:(lia)). pose proof (Z.mod_pos_bound P 64 ltac:(lia)).
  split; [lia|]. split; [lia|]. split; [reflexivity|]. split; [apply Z.div_pos; lia|]. rewrite Z.sub_0_r. split; [exact Po|].
  replace (P - n) with ((mx + 1) / 2 ^ low) by (unfold P; lia). unfold shl64. rewrite Z.shiftl_mul_pow2, u64_id; [reflexivity| |lia].
  pose proof (Z.mul_div_le (mx + 1) (2 ^ low) Hp). unfold is_u64, two64, MaxUint64 in *. nia.
Qed.

Lemma high_part x : 0 <= x -> andnot x (x mod 2 ^ low) = x / 2 ^ low * 2 ^ low.
Proof.
  intros Hx. destruct low64 as [Hl Hp]. unfold andnot. rewrite <- Z.sub_nocarry_ldiff.
  - pose proof (Z.div_mod x (2 ^ low) ltac:(lia)). lia.
  - apply Z.bits_inj'. intros k Hk. rewrite Z.ldiff_spec, Z.testbit_0_l. destruct (Z.lt_ge_cases k low).
    + rewrite Z.mod_pow2_bits_low by lia. apply andb_negb_r.
    + by rewrite Z.mod_pow2_bits_high by lia.
Qed.

(** What [get] leaves for a cursor. *)
Lemma get_cursor i : 0 <= i < n -> exists r, get ef i = Val r /\ andnot (f_val r) (Z.land (f_lower r) (lowerBitsMask ef)) = item i / 2 ^ low * 2 ^ low /\
  0 <= f_currWord r /\ 0 <= f_sel r < 64 /\ at_ i = 64 * f_currWord r + f_sel r.
Proof.
  intros Hi. destruct (get_exact n mx Hn Hmx xs ef H i Hi) as (r & E & Ev & (F1 & F2 & F3 & _) & Elow). exists r. split; [exact E|].
  destruct count_exact as (_ & _ & Em). destruct low64 as [Hl Hp]. rewrite Ev, Em, Elow, Z.land_ones, mod_mod_pow by lia.
  rewrite <- (Z2Nat.id i) at 2 by lia. rewrite lowval_get by (pose proof (hi_count _ _ _ _ H); unfold zlen in *; lia).
  change (nth (Z.to_nat i) xs 0) with (item i). split; [apply high_part, irange, Hi|]. split; [lia|]. split; [lia|]. lia.
Qed.

Context (Hlast : item (n - 1) = mx).

Lemma Seek_ready v it : it_reverse it = false -> 0 <= v -> exists it' k, it_Seek ef v it = Val it' /\ ready k it' /\
  (v <= mx -> least_from n xs v k) /\ (mx < v -> k = n).
Proof.
  intros Hrev Hv. destruct count_exact as (Ec & El & Em). unfold it_Seek. assert (E0 : it_Reset ef it = ef_Iterator ef) by (unfold it_Reset, ef_Iterator; by rewrite Hrev).
  rewrite E0. change (it_reverse (ef_Iterator ef)) with false. destruct (search_up n mx Hn Hmx xs ef H Hlast v Hv) as (x & k & -> & Hs). cbn [mbind Res_bind].
  destruct (Z.leb_spec v mx) as [Hle|Hgt]; cbn [negb].
  2: { eexists _, n. split; [reflexivity|]. split; [|split; [lia|reflexivity]]. split; [reflexivity|]. split; [cbn; rewrite Ec, u64_id by (unfold is_u64, two64; lia); lia|].
       split; [lia|]. lia. }
  destruct (Hs Hle) as [_ Hlf]. pose proof Hlf as [Hk _]. rewrite andb_true_r, andb_false_r. destruct (Z.eqb_spec k 0) as [->|].
  { eexists _, 0. split; [reflexivity|]. split; [apply Iterator_ready|]. split; [by intros|lia]. }
  rewrite (u64_id (k - 1)) by (unfold is_u64, two64; lia). destruct (get_cursor (k - 1) ltac:(lia)) as (r & -> & Eu & C1 & C2 & C3). cbn [mbind Res_bind mret Res_ret].
  rewrite Eu. eexists _, k. split; [reflexivity|]. split; [|split; [by intros|lia]]. split; [reflexivity|]. split; [reflexivity|]. split; [lia|]. intros _.
  cbn [it_lowerIdx it_upper it_upperIdx it_upperMask]. rewrite El. split; [reflexivity|]. exists (at_ (k - 1) + 1), (f_sel r + 1).
  destruct (Hsel (k - 1) ltac:(lia)) as (S1 & S2 & S3). rewrite ones_after by assumption. pose proof (Hitem (k - 1) ltac:(lia)).
  split; [lia|]. split; [lia|]. split; [reflexivity|]. split; [lia|]. split; [lia|]. f_equal. lia.
Qed.

Lemma Seek_back v it : it_reverse it = true -> 0 <= v -> exists it' k, it_Seek ef v it = Val it' /\ ready_back k it' /\
  ((k < n /\ greatest_to n xs v (n - 1 - k)) \/ (k = n /\ forall h, 0 <= h < n -> v < item h)).
Proof.
  intros Hrev Hv. destruct count_exact as (Ec & El & Em). unfold it_Seek. assert (E0 : it_Reset ef it = ReverseIterator ef) by (unfold it_Reset, ReverseIterator; by rewrite Hrev).
  pose proof ReverseIterator_ready as (R1 & _ & _ & R4). destruct (R4 ltac:(lia)) as [Rlo _].
  rewrite E0, R1. destruct (search_down n mx Hn Hmx xs ef H Hlast v Hv) as (x & k & ok & -> & Hs). cbn [mbind Res_bind]. destruct ok; cbn [negb].
  2: { eexists _, n. split; [reflexivity|]. split; [|by right]. split; [reflexivity|]. split; [cbn; rewrite Ec, u64_id by (unfold is_u64, two64; lia); lia|]. split; [lia|]. lia. }
  destruct Hs as [_ Hg]. pose proof Hg as [Hk _]. rewrite andb_false_r, andb_true_r, Ec. destruct (Z.eqb_spec k (n - 1)) as [->|].
  { eexists _, 0. split; [reflexivity|]. split; [apply ReverseIterator_ready|]. left. rewrite Z.sub_0_r. split; [lia|exact Hg]. }
  rewrite (u64_id (k + 1)), (u64_id (n - 1 - k)) by (unfold is_u64, two64; lia).
  destruct (get_cursor (k + 1) ltac:(lia)) as (r & -> & Eu & C1 & C2 & C3). cbn [mbind Res_bind mret Res_ret]. rewrite Eu, El, Rlo.
  eexists _, (n - 1 - k). split; [reflexivity|]. split; [|left; replace (n - 1 - (n - 1 - k)) with k by lia; split; [lia|exact Hg]].
  split; [reflexivity|]. split; [reflexivity|]. split; [lia|]. intros _. cbn [it_lowerIdx it_upper it_upperIdx it_upperMask]. split.
  - unfold u64. rewrite Zminus_mod_idemp_l. f_equal. lia.
  - exists (at_ (k + 1)). pose proof (Hrange (k + 1) ltac:(lia)). split; [lia|]. exists (f_sel r). split; [exact C3|]. split; [exact C2|]. split.
    + rewrite back_mask_exact by exact C2. destruct (Z.ltb_spec 0 (f_sel r)), (Z.eqb_spec (f_sel r) 0); try lia; reflexivity.
    + split; [exact C1|]. destruct (Hsel (k + 1) ltac:(lia)) as (_ & _ & S3). pose proof (Hitem (k + 1) ltac:(lia)). split; [lia|]. f_equal. lia.
Qed.
End Iterate.

(** ** Bytes *)

Section Bytes.
Context (little : bool).

Lemma word_bytes_back w : is_u64 w -> length (word_bytes little w) = 8%nat /\ NativeEndian_Uint64 little (word_bytes little w) = w.
Proof.
  intros Hw. unfold word_bytes, NativeEndian_Uint64. assert (E : be_to_Z (Z_to_be 8 w) = w).
  { rewrite be_to_Z_Z_to_be by apply Hw. apply Z.mod_small. exact Hw. }
  destruct little; rewrite ?length_reverse, ?reverse_involutive; split; try exact E; apply length_Z_to_be.
Qed.

Lemma words_back ws : words ws -> forall rest, bytes_words little (length ws) (concat (map (word_bytes little) ws) ++ rest) = ws.
Proof.
  induction 1 as [|w ws Hw _ IH]; intros rest; [reflexivity|]. destruct (word_bytes_back w Hw) as [Hl Hv]. cbn [length bytes_words map concat].
  rewrite <- app_assoc, take_app_le, drop_app_ge by lia. rewrite take_ge, Hv by lia. by rewrite Hl, Nat.sub_diag, drop_0, IH.
Qed.

Lemma zlen_words ws : words ws -> zlen (concat (map (word_bytes little) ws)) = 8 * zlen ws.
Proof.
  induction 1 as [|w ws Hw _ IH]; [reflexivity|]. cbn [map concat]. rewrite zlen_app, IH, zlen_cons. destruct (word_bytes_back w Hw) as [Hl _]. unfold zlen at 1. lia.
Qed.

Context (n mx : Z) (Hn : 1 <= n <= 2 ^ 30) (Hmx : 0 <= mx < MaxUint64).

Lemma header_back count u ws : is_u64 count -> is_u64 u -> words ws -> ws <> [] ->
  read_header little (Z_to_be 8 count ++ Z_to_be 8 u ++ concat (map (word_bytes little) ws)) = Val (count, u, ws).
Proof.
  intros Hc Hu Hw Hne. unfold read_header. pose proof (zlen_words ws Hw) as Hl. set (b := concat _) in *.
  assert (Lc : zlen (Z_to_be 8 count) = 8) by (unfold zlen; by rewrite length_Z_to_be).
  assert (Lu : zlen (Z_to_be 8 u) = 8) by (unfold zlen; by rewrite length_Z_to_be).
  assert (Hb : 1 <= zlen ws) by (destruct ws; [congruence|rewrite zlen_cons; pose proof (zlen_nonneg ws); lia]).
  rewrite !go_slice_val by (rewrite ?zlen_app; lia). change (Z.to_nat (8 - 0)) with 8%nat. change (Z.to_nat (16 - 8)) with 8%nat. change (Z.to_nat 0) with 0%nat. change (Z.to_nat 8) with 8%nat.
  cbn [mbind Res_bind]. rewrite drop_0. rewrite (take_app_le (Z_to_be 8 count)), take_ge by (rewrite length_Z_to_be; lia).
  rewrite (drop_app_ge (Z_to_be 8 count)) by (rewrite length_Z_to_be; lia). rewrite length_Z_to_be, Nat.sub_diag, drop_0.
  rewrite (take_app_le (Z_to_be 8 u)), take_ge by (rewrite length_Z_to_be; lia).
  destruct (go_index_val (Z_to_be 8 count ++ Z_to_be 8 u ++ b) 16) as (x & -> & _); [rewrite !zlen_app; lia|]. cbn [mbind Res_bind mret Res_ret].
  rewrite !be_to_Z_Z_to_be by (apply Hc || apply Hu). change (256 ^ Z.of_nat 8) with two64. rewrite (Z.mod_small count two64 Hc), (Z.mod_small u two64 Hu).
  do 2 f_equal. rewrite !zlen_app, Lc, Lu, Hl. replace (8 + (8 + 8 * zlen ws) - 16) with (zlen ws * 8) by lia. rewrite Z.div_mul by lia.
  rewrite app_assoc, drop_app_ge by (rewrite length_app, !length_Z_to_be; lia). rewrite length_app, !length_Z_to_be, drop_0.
  unfold zlen. rewrite Nat2Z.id. unfold b. rewrite <- (app_nil_r (concat _)). by apply words_back.
Qed.

Context (xs : list Z) (ef : EliasFano) (H : holds_items n mx xs ef).

Lemma data_words : words (ef_data ef) /\ zlen (ef_data ef) = wl n mx + wu n mx + js n /\ ef_data ef <> [].
Proof.
  destruct (hi_lower _ _ _ _ H) as (W1 & L1 & _), (hi_upper _ _ _ _ H) as (W2 & L2 & _), (hi_jump _ _ _ _ H) as (W3 & L3 & _).
  assert (Hl : zlen (ef_data ef) = wl n mx + wu n mx + js n) by (unfold ef_data; rewrite !zlen_app; lia).
  split; [by repeat apply Forall_app_2|]. split; [exact Hl|]. intros E. rewrite E in Hl. change (zlen (@nil Z)) with 0 in Hl.
  destruct (sizes_exact n mx Hn Hmx) as (_ & _ & _ & B1 & B2 & B3 & _). lia.
Qed.

Lemma slices_back i : exists ef', deriveFields (Some (ef_data ef)) (n - 1) (mx + 1) mx i = Val (ef', wu n mx) /\ holds_items n mx xs ef' /\
  lowerBits ef' = lowerBits ef /\ upperBits ef' = upperBits ef /\ ef_jump ef' = ef_jump ef.
Proof.
  destruct (hi_lower _ _ _ _ H) as (W1 & L1 & V1), (hi_upper _ _ _ _ H) as (W2 & L2 & M2), (hi_jump _ _ _ _ H) as (W3 & L3 & I3).
  destruct (sizes_exact n mx Hn Hmx) as (E1 & E2 & E3 & B1 & B2 & B3 & _). destruct (low_spec n mx Hn Hmx) as [Hl _].
  destruct data_words as (_ & Ld & _). unfold deriveFields. replace (n - 1 + 1) with n by lia. rewrite (u64_id n) by (unfold is_u64, two64; lia).
  destruct (Z.eqb_spec n 0); [lia|]. change (low_width (n - 1) (mx + 1)) with (low n mx). rewrite E1, E2, E3.
  rewrite go_slice_val by lia. cbn [mbind Res_bind]. rewrite drop_0, Z.sub_0_r. rewrite take_ge by (unfold zlen in *; lia).
  rewrite !go_slice_val by lia. cbn [mbind Res_bind mret Res_ret]. rewrite Ld. unfold ef_data.
  eexists. split; [reflexivity|]. cbn [lowerBits upperBits ef_jump].
  assert (A1 : take (Z.to_nat (wl n mx - 0)) (drop (Z.to_nat 0) (lowerBits ef ++ upperBits ef ++ ef_jump ef)) = lowerBits ef).
  { change (Z.to_nat 0) with 0%nat. rewrite drop_0, Z.sub_0_r, take_app_le, take_ge by (unfold zlen in *; lia). reflexivity. }
  assert (A2 : take (Z.to_nat (wl n mx + wu n mx - wl n mx)) (drop (Z.to_nat (wl n mx)) (lowerBits ef ++ upperBits ef ++ ef_jump ef)) = upperBits ef).
  { rewrite drop_app_ge by (unfold zlen in *; lia). replace (Z.to_nat (wl n mx) - length (lowerBits ef))%nat with 0%nat by (unfold zlen in *; lia).
    rewrite drop_0, take_app_le, take_ge by (unfold zlen in *; lia). reflexivity. }
  assert (A3 : take (Z.to_nat (wl n mx + wu n mx + js n - (wl n mx + wu n mx))) (drop (Z.to_nat (wl n mx + wu n mx)) (lowerBits ef ++ upperBits ef ++ ef_jump ef)) = ef_jump ef).
  { rewrite drop_app_ge by (unfold zlen in *; lia). rewrite drop_app_ge by (unfold zlen in *; lia).
    replace (Z.to_nat (wl n mx + wu n mx) - length (lowerBits ef) - length (upperBits ef))%nat with 0%nat by (unfold zlen in *; lia).
    rewrite drop_0, take_ge by (unfold zlen in *; lia). reflexivity. }
  rewrite A1, A2, A3. split; [|auto]. destruct H as [H1 H2 H3 _ _ _ _].
  split; cbn [lowerBits upperBits ef_jump lowerBitsMask ef_count ef_l maxOffset ef_u]; try assumption; [by split|by split|by split|].
  split; [|auto]. rewrite mask_pow by (assumption || lia). rewrite Z.ones_equiv. assert (0 < 2 ^ low n mx) by (apply Z.pow_pos_nonneg; lia).
  assert (2 ^ low n mx <= 2 ^ 63) by (apply Z.pow_le_mono_r; lia). rewrite u64_id by (unfold is_u64, two64; lia). lia.
Qed.

Lemma Read_exact : exists ef', ReadEliasFano little (ef_Write little ef) = Val (ef', zlen (ef_Write little ef)) /\ holds_items n mx xs ef'.
Proof.
  destruct (hi_fields _ _ _ _ H) as (_ & Ec & _ & _ & Eu). destruct data_words as (Wd & Ld & Hne). unfold ReadEliasFano, ef_Write, AppendBytes. cbn [app].
  rewrite Ec, Eu, header_back; [|unfold is_u64, two64, MaxUint64 in *; lia..|exact Wd|exact Hne]. cbn [mbind Res_bind].
  replace (u64 (mx + 1 - 1)) with mx by (rewrite u64_id; unfold is_u64, two64, MaxUint64 in *; lia).
  destruct (slices_back 0) as (ef' & -> & Hh & A1 & A2 & A3). cbn [mbind Res_bind mret Res_ret]. exists ef'. split; [|exact Hh]. do 2 f_equal.
  rewrite !zlen_app, zlen_words by exact Wd. unfold zlen at 2 3. rewrite !length_Z_to_be. unfold ef_data at 1. rewrite A1, A2, A3. fold (ef_data ef). lia.
Qed.

(** [Reset] of any sequence to the bytes. *)
Lemma Reset_exact ef0 : exists ef', ef_Reset little ef0 (ef_Write little ef) = Val ef' /\ holds_items n mx xs ef'.
Proof.
  destruct (hi_fields _ _ _ _ H) as (_ & Ec & _ & _ & Eu). destruct data_words as (Wd & Ld & Hne). unfold ef_Reset, ef_Write, AppendBytes. cbn [app].
  rewrite Ec, Eu, header_back; [|unfold is_u64, two64, MaxUint64 in *; lia..|exact Wd|exact Hne]. cbn [mbind Res_bind].
  replace (u64 (mx + 1 - 1)) with mx by (rewrite u64_id; unfold is_u64, two64, MaxUint64 in *; lia).
  destruct (slices_back (ef_i ef0)) as (ef' & -> & [H1 H2 H3 H4 H5 H6 H7] & _). cbn [mbind Res_bind mret Res_ret]. eexists. split; [reflexivity|]. by constructor.
Qed.
End Bytes.

(** ** What a sequence promises *)

(** The sequences that can be built: [n] items in increasing order, at most [mx]. *)
Record sequence (n mx : Z) (xs : list Z) : Prop := mkSequence {
  sq_size : 1 <= n <= 2 ^ 30;
  sq_max : 0 <= mx < MaxUint64;
  sq_len : zlen xs = n;
  sq_items : Forall (fun x => 0 <= x <= mx) xs;
  sq_sorted : StronglySorted Z.le xs
}.

(** C26 Elias-Fano sequences keep what is put into them: for up to 2^30 items in increasing
    order, building the sequence and its index never panics; afterwards every item is read
    back by its index, and together with the next one as long as the low parts of two items
    fit in a word; the iterators yield the items in order and in reverse order; and the
    bytes written are read back as a sequence with the same items. *)
Theorem elias_fano_roundtrip n mx xs little : sequence n mx xs ->
  exists ef, build n mx xs = Val ef /\ ef_Count ef = n /\
    (forall i, 0 <= i < n -> Get ef i = Val (item xs i)) /\
    (forall i, 0 <= i -> i + 1 < n -> 2 * ef_l ef <= 64 -> Get2 ef i = Val (item xs i, item xs (i + 1))) /\
    drain ef (S (length xs)) (ef_Iterator ef) = Val xs /\
    drain ef (S (length xs)) (ReverseIterator ef) = Val (reverse xs) /\
    exists ef', ReadEliasFano little (ef_Write little ef) = Val (ef', zlen (ef_Write little ef)) /\
      forall i, 0 <= i < n -> Get ef' i = Val (item xs i).
Proof.
  intros [Hn Hmx Hl Hx Hs]. destruct (build_exact n mx Hn Hmx xs Hl Hx Hs) as (ef & E & H). exists ef. split; [exact E|].
  destruct (hi_fields _ _ _ _ H) as (_ & Ec & El & _). assert (Hfuel : n - 0 < Z.of_nat (S (length xs))) by (unfold zlen in Hl; lia).
  split; [unfold ef_Count; rewrite Ec, u64_id; unfold is_u64, two64; lia|].
  split; [intros i Hi; by apply (Get_exact n mx)|]. split; [intros i H0 Hi Hw; rewrite El in Hw; by apply (Get2_exact n mx)|].
  split; [by apply (drain_ready n mx Hn Hmx xs ef H _ 0), Hfuel; apply Iterator_ready|]. split.
  - rewrite (drain_back n mx Hn Hmx xs ef H _ 0 _ (ReverseIterator_ready n mx Hn Hmx xs ef H) Hfuel). rewrite take_ge by (unfold zlen in Hl; lia). reflexivity.
  - destruct (Read_exact little n mx Hn Hmx xs ef H) as (ef' & Er & H'). exists ef'. split; [exact Er|]. intros i Hi. by apply (Get_exact n mx).
Qed.

(** Seeking in an Elias-Fano sequence: when the announced maximum is the last item,
    [Seek v] returns the least item that is at least [v], and reports none exactly above
    the maximum; an iterator sent to [v] yields all the items from such an item on, and a
    reverse one all the items from the greatest that is at most [v] down, or nothing when
    every item is greater. *)
Theorem elias_fano_seek n mx xs v : sequence n mx xs -> item xs (n - 1) = mx -> 0 <= v ->
  exists ef, build n mx xs = Val ef /\
    (exists k, ef_Seek ef v = Val (if v <=? mx then (item xs k, true) else (0, false)) /\ (v <= mx -> least_from n xs v k)) /\
    (exists it k, it_Seek ef v (ef_Iterator ef) = Val it /\ drain ef (S (length xs)) it = Val (drop (Z.to_nat k) xs) /\
       (v <= mx -> least_from n xs v k) /\ (mx < v -> k = n)) /\
    (exists it k, it_Seek ef v (ReverseIterator ef) = Val it /\ drain ef (S (length xs)) it = Val (reverse (take (Z.to_nat k) xs)) /\
       ((0 < k /\ greatest_to n xs v (k - 1)) \/ (k = 0 /\ forall h, 0 <= h < n -> v < item xs h))).
Proof.
  intros [Hn Hmx Hl Hx Hs] Hlast Hv. destruct (build_exact n mx Hn Hmx xs Hl Hx Hs) as (ef & E & H). exists ef. split; [exact E|]. split; [|split].
  - destruct (search_up n mx Hn Hmx xs ef H Hlast v Hv) as (x & k & Es & Hk). exists k. unfold ef_Seek. rewrite Es.
    destruct (Z.leb_spec v mx); [|split; [reflexivity|lia]]. destruct (Hk ltac:(lia)) as [-> Hf]. by split.
  - destruct (Seek_ready n mx Hn Hmx xs ef H Hlast v (ef_Iterator ef) eq_refl Hv) as (it & k & Es & R & H1 & H2). exists it, k. split; [exact Es|].
    split; [apply (drain_ready n mx Hn Hmx xs ef H _ k it R); destruct R as (_ & _ & R3 & _); unfold zlen in Hl; lia|by split].
  - assert (Hrev : it_reverse (ReverseIterator ef) = true) by apply (ReverseIterator_ready n mx Hn Hmx xs ef H).
    destruct (Seek_back n mx Hn Hmx xs ef H Hlast v _ Hrev Hv) as (it & k & Es & R & Hc). exists it, (n - k). split; [exact Es|].
    split; [apply (drain_back n mx Hn Hmx xs ef H _ k it R); destruct R as (_ & _ & R3 & _); unfold zlen in Hl; lia|].
    destruct Hc as [[K1 K2]|[-> K2]]; [left; split; [lia|]; by replace (n - k - 1) with (n - 1 - k) by lia|right; split; [lia|exact K2]].
Qed.

(** A sequence whose low parts are some bits wide and whose upper part has gaps. *)
Definition sample : list Z := [0; 1; 5; 7; 100; 1000; 1000; 2047].

Lemma sample_sequence : sequence 8 2047 sample.
Proof.
  constructor; [lia|unfold MaxUint64; lia|reflexivity|repeat constructor; lia|].
  repeat (constructor; [|repeat constructor; lia]). constructor.
Qed.

Lemma elias_fano_roundtrip_witness :
  sequence 8 2047 sample /\
  exists ef, build 8 2047 sample = Val ef /\ ef_Count ef = 8 /\
    (forall i, 0 <= i < 8 -> Get ef i = Val (item sample i)) /\
    (forall i, 0 <= i -> i + 1 < 8 -> 2 * ef_l ef <= 64 -> Get2 ef i = Val (item sample i, item sample (i + 1))) /\
    drain ef (S (length sample)) (ef_Iterator ef) = Val sample /\
    drain ef (S (length sample)) (ReverseIterator ef) = Val (reverse sample) /\
    exists ef', ReadEliasFano true (ef_Write true ef) = Val (ef', zlen (ef_Write true ef)) /\
      forall i, 0 <= i < 8 -> Get ef' i = Val (item sample i).
Proof. split; [apply sample_sequence|]. apply (elias_fano_roundtrip 8 2047 sample true). apply sample_sequence. Defined.

Lemma elias_fano_seek_witness :
  sequence 8 2047 sample /\ item sample (8 - 1) = 2047 /\
  exists ef, build 8 2047 sample = Val ef /\
    (exists k, ef_Seek ef 101 = Val (if 101 <=? 2047 then (item sample k, true) else (0, false)) /\ (101 <= 2047 -> least_from 8 sample 101 k)) /\
    (exists it k, it_Seek ef 101 (ef_Iterator ef) = Val it /\ drain ef (S (length sample)) it = Val (drop (Z.to_nat k) sample) /\
       (101 <= 2047 -> least_from 8 sample 101 k) /\ (2047 < 101 -> k = 8)) /\
    (exists it k, it_Seek ef 101 (ReverseIterator ef) = Val it /\ drain ef (S (length sample)) it = Val (reverse (take (Z.to_nat k) sample)) /\
       ((0 < k /\ greatest_to 8 sample 101 (k - 1)) \/ (k = 0 /\ forall h, 0 <= h < 8 -> 101 < item sample h))).
Proof.
  split; [apply sample_sequence|]. split; [vm_compute; reflexivity|].
  apply (elias_fano_seek 8 2047 sample 101); [apply sample_sequence|vm_compute; reflexivity|lia].
Defined.

(** [Get2] does not return the next item when the low parts of two neighbours do not fit
    in one word: in the sequence [0; 2^41 - 1] the low parts are 40 bits wide, and the item
    after the first comes back without the bits of its low part that lie beyond bit 63 of
    the window, although [Get] reads it in full. *)
Theorem Get2_wide_wrong :
  match build 2 (2 ^ 41 - 1) [0; 2 ^ 41 - 1] with
  | Val ef => ef_l ef = 40 /\ Get ef 1 = Val (2 ^ 41 - 1) /\ Get2 ef 0 = Val (0, 1099528404991)
  | _ => False
  end.
Proof. vm_compute. auto. Qed.
