(* ===== verification/MultiEncSeq.v ===== *)
(** * Sequences of numbers in more than one encoding

    [db/recsplit/simpleseq/simple_sequence.go] keeps a few numbers as 32-bit distances from
    a base; [db/recsplit/multiencseq] writes a sequence in that form when it is short and
    as a rebased Elias-Fano sequence otherwise, with a first byte that says which, and
    reads either form, or the older plain Elias-Fano form, back behind one interface. *)

From S2P Require Import Prelude Errors Common Select EliasFano.

(** ** Simple sequences *)

(** The bytes given to [Reset] are shared with the caller; nothing here writes to them
    afterwards. *)
Record SimpleSequence : Type := mkSimple { ss_baseNum : Z; ss_raw : bytes; ss_pos : Z }.

(** [make([]byte, count*4)]: a length above 2^63 does not fit an [int]. *)
Definition NewSimpleSequence (baseNum count : Z) : Res SimpleSequence :=
  let n := u64 (count * 4) in
  if i64 n <? 0 then Panic "makeslice: len out of range"
  else mret (mkSimple baseNum (replicate (Z.to_nat n) x00) 0).

Definition ss_Get (s : SimpleSequence) (i : Z) : Res Z :=
  let idx := u64 (i * 4) in
  b ← go_slice (ss_raw s) idx (u64 (idx + 4));
  mret (u64 (ss_baseNum s + be_to_Z b)).

Definition ss_Count (s : SimpleSequence) : Z := zlen (ss_raw s) / 4.
Definition ss_Min (s : SimpleSequence) : Res Z := ss_Get s 0.
Definition ss_Max (s : SimpleSequence) : Res Z := ss_Get s (u64 (ss_Count s - 1)).

Definition ss_AddOffset (offset : Z) (s : SimpleSequence) : Res SimpleSequence :=
  _ ← go_slice (ss_raw s) (i64 (ss_pos s * 4)) (i64 ((ss_pos s + 1) * 4));
  let raw := splice (ss_raw s) (i64 (ss_pos s * 4)) (Z_to_be 4 (u64 (offset - ss_baseNum s))) in
  mret (mkSimple (ss_baseNum s) raw (i64 (ss_pos s + 1))).

Definition ss_Reset (baseNum : Z) (raw : bytes) : SimpleSequence := mkSimple baseNum raw (zlen raw / 4).
Definition ReadSimpleSequence (baseNum : Z) (raw : bytes) : SimpleSequence := ss_Reset baseNum raw.
Definition ss_AppendBytes (s : SimpleSequence) (buf : bytes) : bytes := buf ++ ss_raw s.

Definition ss_search (s : SimpleSequence) (v : Z) : Res (Z * bool) :=
  let c := ss_Count s in
  idx ← sort_SearchM c (fun i => x ← ss_Get s i; mret (v <=? x));
  mret (if c <=? idx then (0, false) else (idx, true)).

Definition ss_reverseSearch (s : SimpleSequence) (v : Z) : Res (Z * bool) :=
  let c := ss_Count s in
  idx ← sort_SearchM c (fun i => x ← ss_Get s (u64 (c - i - 1)); mret (x <=? v));
  mret (if c <=? idx then (0, false) else (c - idx - 1, true)).

Definition ss_Seek (s : SimpleSequence) (v : Z) : Res (Z * bool) :=
  '(idx, found) ← ss_search s v;
  if negb found then mret (0, false) else x ← ss_Get s idx; mret (x, true).

(** Iterators are positions. *)
Definition SimpleSequenceIterator : Type := Z.
Definition ReverseSimpleSequenceIterator : Type := Z.

Definition ss_Iterator (s : SimpleSequence) : SimpleSequenceIterator := 0.
Definition ss_ReverseIterator (s : SimpleSequence) : ReverseSimpleSequenceIterator := ss_Count s - 1.

Definition ssi_HasNext (s : SimpleSequence) (pos : SimpleSequenceIterator) : bool := pos <? ss_Count s.
Definition ssi_Next (s : SimpleSequence) (pos : SimpleSequenceIterator) : Res (Z * option Error * SimpleSequenceIterator) :=
  if negb (ssi_HasNext s pos) then mret (0, Some ErrIteratorExhausted, pos)
  else v ← ss_Get s (u64 pos); mret (v, None, i64 (pos + 1)).
Definition ssi_Seek (s : SimpleSequence) (v : Z) : Res SimpleSequenceIterator :=
  '(idx, found) ← ss_search s v; mret (if negb found then ss_Count s else idx).

Definition rssi_HasNext (pos : ReverseSimpleSequenceIterator) : bool := 0 <=? pos.
Definition rssi_Next (s : SimpleSequence) (pos : ReverseSimpleSequenceIterator) : Res (Z * option Error * ReverseSimpleSequenceIterator) :=
  if negb (rssi_HasNext pos) then mret (0, Some ErrIteratorExhausted, pos)
  else v ← ss_Get s (u64 pos); mret (v, None, i64 (pos - 1)).
Definition rssi_Seek (s : SimpleSequence) (v : Z) : Res ReverseSimpleSequenceIterator :=
  '(idx, found) ← ss_reverseSearch s v; mret (if negb found then -1 else idx).

(** ** Building *)

Definition PlainEliasFano : Z := 0.
Definition SimpleEncoding : Z := 128.
Definition RebasedEliasFano_ : Z := 144.
Definition PlainEliasFanoMask : Z := 128.
Definition SimpleEncodingMask : Z := 240.
Definition SimpleEncodingSizeMask : Z := 15.

Definition SIMPLE_SEQUENCE_MAX_THRESHOLD : Z := 16.

Record SequenceBuilder : Type := mkBuilder { sb_baseNum : Z; sb_ef : EliasFano }.

Definition NewBuilder (baseNum count maxOffset : Z) : Res SequenceBuilder :=
  ef ← NewEliasFano count maxOffset; mret (mkBuilder baseNum ef).
Definition sb_AddOffset (offset : Z) (b : SequenceBuilder) : Res SequenceBuilder :=
  ef ← AddOffset offset (sb_ef b); mret (mkBuilder (sb_baseNum b) ef).
Definition sb_Build (b : SequenceBuilder) : Res SequenceBuilder :=
  ef ← Build (sb_ef b); mret (mkBuilder (sb_baseNum b) ef).

(** [for it := b.ef.Iterator(); it.HasNext(); { n, err := it.Next(); ... }]: what the body
    does with each item; an error is a panic. *)
Fixpoint each {A} (fuel : nat) (ef : EliasFano) (it : EliasFanoIter) (body : Z -> A -> Res A) (a : A) : Res A :=
  match fuel with
  | O => OutOfFuel
  | S fuel =>
      if HasNext ef it then
        '(n, err, it) ← it_Next ef it;
        match err with
        | Some _ => Panic "err"
        | None => a ← body n a; each fuel ef it body a
        end
      else mret a
  end.
Definition each_item {A} (ef : EliasFano) (body : Z -> A -> Res A) (a : A) : Res A :=
  each (S (Z.to_nat (ef_count ef + 1))) ef (ef_Iterator ef) body a.

Definition simpleEncoding (b : SequenceBuilder) (buf : bytes) : Res bytes :=
  let count := ef_Count (sb_ef b) in
  let enc := Z.lor (Z.land (u64 (count - 1) mod 256) 15) SimpleEncoding in
  each_item (sb_ef b) (fun n buf => mret (buf ++ Z_to_be 4 (u64 (n - sb_baseNum b)))) (buf ++ [Zbyte enc]).

Section Platform.
Context (little : bool).

Definition rebasedEliasFano (b : SequenceBuilder) (buf : bytes) : Res bytes :=
  let buf := buf ++ [Zbyte RebasedEliasFano_] in
  rbef ← NewEliasFano (ef_Count (sb_ef b)) (u64 (ef_Max (sb_ef b) - sb_baseNum b));
  rbef ← each_item (sb_ef b) (fun n rbef => AddOffset (u64 (n - sb_baseNum b)) rbef) rbef;
  rbef ← Build rbef;
  mret (AppendBytes little rbef buf).

Definition sb_AppendBytes (b : SequenceBuilder) (buf : bytes) : Res bytes :=
  if ef_Count (sb_ef b) <=? SIMPLE_SEQUENCE_MAX_THRESHOLD then simpleEncoding b buf else rebasedEliasFano b buf.

(** ** Reading *)

Record SequenceReader : Type := mkReader { currentEnc : Z; sr_ref : RebasedEliasFano; sseq : SimpleSequence }.

(** The zero value. *)
Definition zeroReader : SequenceReader := mkReader 0 (mkRebased 0 (mkEF [] [] [] 0 0 0 0 0 0 0)) (mkSimple 0 [] 0).

Definition unknownEncoding {A} : Res A := Panic "unknown sequence encoding".

Definition sr_Reset (baseNum : Z) (raw : bytes) (s : SequenceReader) : Res SequenceReader :=
  b0 ← go_index raw 0;
  if Z.land (byteZ b0) PlainEliasFanoMask =? 0 then
    ref ← reb_Reset little (sr_ref s) 0 raw; mret (mkReader PlainEliasFano ref (sseq s))
  else if byteZ b0 =? RebasedEliasFano_ then
    rest ← go_slice raw 1 (zlen raw);
    ref ← reb_Reset little (sr_ref s) baseNum rest; mret (mkReader RebasedEliasFano_ ref (sseq s))
  else if Z.land (byteZ b0) SimpleEncodingMask =? SimpleEncoding then
    rest ← go_slice raw 1 (zlen raw);
    mret (mkReader SimpleEncoding (sr_ref s) (ss_Reset baseNum rest))
  else unknownEncoding.

Definition ReadMultiEncSeq (baseNum : Z) (raw : bytes) : Res SequenceReader := sr_Reset baseNum raw zeroReader.

Definition multiencseq_Count (baseNum : Z) (data : bytes) : Res Z :=
  b0 ← go_index data 0;
  if Z.land (byteZ b0) PlainEliasFanoMask =? 0 then eliasfano_Count data
  else if byteZ b0 =? RebasedEliasFano_ then rest ← go_slice data 1 (zlen data); eliasfano_Count rest
  else if Z.land (byteZ b0) SimpleEncodingMask =? SimpleEncoding then mret (Z.land (byteZ b0) SimpleEncodingSizeMask + 1)
  else unknownEncoding.

(** [switch s.currentEnc]. *)
Definition by_encoding {A} (s : SequenceReader) (simple ef : Res A) : Res A :=
  if currentEnc s =? SimpleEncoding then simple
  else if (currentEnc s =? PlainEliasFano) || (currentEnc s =? RebasedEliasFano_) then ef
  else unknownEncoding.

Definition sr_Get (s : SequenceReader) (i : Z) : Res Z := by_encoding s (ss_Get (sseq s) i) (reb_Get (sr_ref s) i).
Definition sr_Min (s : SequenceReader) : Res Z := by_encoding s (ss_Min (sseq s)) (reb_Min (sr_ref s)).
Definition sr_Max (s : SequenceReader) : Res Z := by_encoding s (ss_Max (sseq s)) (mret (reb_Max (sr_ref s))).
Definition sr_Count (s : SequenceReader) : Res Z := by_encoding s (mret (ss_Count (sseq s))) (mret (reb_Count (sr_ref s))).
Definition sr_seek (s : SequenceReader) (v : Z) : Res (Z * bool) := by_encoding s (ss_Seek (sseq s) v) (reb_Seek (sr_ref s) v).

Definition multiencseq_Seek (baseNum : Z) (data : bytes) (n : Z) : Res (Z * bool) :=
  seq ← ReadMultiEncSeq baseNum data; sr_seek seq n.

(** What [Iterator] and [ReverseIterator] return behind the interface [stream.U64]. *)
Inductive U64 : Type :=
| SimpleIt (pos : SimpleSequenceIterator)
| ReverseSimpleIt (pos : ReverseSimpleSequenceIterator)
| RebasedIt (it : EliasFanoIter).

Definition sr_Iterator (s : SequenceReader) (from : Z) : Res U64 :=
  by_encoding s
    (if 0 <? from then pos ← ssi_Seek (sseq s) (u64 from); mret (SimpleIt pos) else mret (SimpleIt (ss_Iterator (sseq s))))
    (let it := reb_Iterator (sr_ref s) in
     if 0 <? from then it ← reb_it_Seek (sr_ref s) (u64 from) it; mret (RebasedIt it) else mret (RebasedIt it)).

Definition sr_ReverseIterator (s : SequenceReader) (v : Z) : Res U64 :=
  by_encoding s
    (if 0 <? v then pos ← rssi_Seek (sseq s) (u64 v); mret (ReverseSimpleIt pos) else mret (ReverseSimpleIt (ss_ReverseIterator (sseq s))))
    (let it := reb_ReverseIterator (sr_ref s) in
     if 0 <? v then it ← reb_it_Seek (sr_ref s) (u64 v) it; mret (RebasedIt it) else mret (RebasedIt it)).

Definition u64_HasNext (s : SequenceReader) (it : U64) : bool :=
  match it with
  | SimpleIt pos => ssi_HasNext (sseq s) pos
  | ReverseSimpleIt pos => rssi_HasNext pos
  | RebasedIt it => reb_it_HasNext (sr_ref s) it
  end.
Definition u64_Next (s : SequenceReader) (it : U64) : Res (Z * option Error * U64) :=
  match it with
  | SimpleIt pos => '(v, err, pos) ← ssi_Next (sseq s) pos; mret (v, err, SimpleIt pos)
  | ReverseSimpleIt pos => '(v, err, pos) ← rssi_Next (sseq s) pos; mret (v, err, ReverseSimpleIt pos)
  | RebasedIt it => '(v, err, it) ← reb_it_Next (sr_ref s) it; mret (v, err, RebasedIt it)
  end.
End Platform.
