(* ===== verification/MultiEncSeqSpec.v ===== *)
(** * Sequences behind one interface: correctness

    What a reader of a strictly increasing sequence relies on, as a class of operations
    with its laws; that simple sequences and rebased Elias-Fano sequences both keep it, and
    so does the reader that chooses between them, on the bytes the builder writes. *)

From Stdlib Require Import Sorted.
From S2P Require Import Prelude Errors Common Select EliasFano EliasFanoSpec EliasFanoIterSpec MultiEncSeq.

(** ** The interface *)

Class Sequence (S I : Type) : Type := {
  seq_Get : S -> Z -> Res Z;
  seq_Count : S -> Res Z;
  seq_Min : S -> Res Z;
  seq_Max : S -> Res Z;
  seq_Seek : S -> Z -> Res (Z * bool);
  seq_Iterator : S -> Z -> Res I;
  seq_ReverseIterator : S -> Z -> Res I;
  seq_HasNext : S -> I -> bool;
  seq_Next : S -> I -> Res (Z * option Error * I)
}.

(** The items an iterator yields until it has no more. *)
Fixpoint drained {S I} `{Sequence S I} (fuel : nat) (s : S) (it : I) : Res (list Z) :=
  match fuel with
  | O => OutOfFuel
  | Datatypes.S fuel =>
      if seq_HasNext s it then
        '(x, err, it) ← seq_Next s it;
        match err with Some _ => Panic "err" | None => l ← drained fuel s it; mret (x :: l) end
      else mret []
  end.

(** [s] stands for the strictly increasing list [xs]. *)
Record represents {S I} `{Sequence S I} (xs : list Z) (s : S) : Prop := mkRepresents {
  rp_Get : forall i, 0 <= i < zlen xs -> seq_Get s i = Val (item xs i);
  rp_Count : seq_Count s = Val (zlen xs);
  rp_Min : seq_Min s = Val (item xs 0);
  rp_Max : seq_Max s = Val (item xs (zlen xs - 1));
  rp_Seek : forall v, is_u64 v -> exists x,
    seq_Seek s v = Val (match filter (fun y => v <= y) xs with y :: _ => (y, true) | [] => (x, false) end);
  rp_Iterator : forall from, - 2 ^ 63 <= from < 2 ^ 63 -> exists it,
    seq_Iterator s from = Val it /\ drained (Datatypes.S (length xs)) s it = Val (filter (fun y => from <= y) xs);
  rp_ReverseIterator : forall v, - 2 ^ 63 <= v < 2 ^ 63 -> exists it,
    seq_ReverseIterator s v = Val it /\
    drained (Datatypes.S (length xs)) s it = Val (reverse (if 0 <? v then filter (fun y => y <= v) xs else xs))
}.

#[export] Instance SimpleSequence_Sequence : Sequence SimpleSequence (Z + Z) := {|
  seq_Get := ss_Get; seq_Count s := mret (ss_Count s); seq_Min := ss_Min; seq_Max := ss_Max; seq_Seek := ss_Seek;
  seq_Iterator s from :=
    if 0 <? from then pos ← ssi_Seek s (u64 from); mret (inl pos) else mret (inl (ss_Iterator s));
  seq_ReverseIterator s v :=
    if 0 <? v then pos ← rssi_Seek s (u64 v); mret (inr pos) else mret (inr (ss_ReverseIterator s));
  seq_HasNext s it := match it with inl pos => ssi_HasNext s pos | inr pos => rssi_HasNext pos end;
  seq_Next s it :=
    match it with
    | inl pos => '(v, err, pos) ← ssi_Next s pos; mret (v, err, inl pos)
    | inr pos => '(v, err, pos) ← rssi_Next s pos; mret (v, err, inr pos)
    end |}.

#[export] Instance RebasedEliasFano_Sequence : Sequence RebasedEliasFano EliasFanoIter := {|
  seq_Get := reb_Get; seq_Count s := mret (reb_Count s); seq_Min := reb_Min; seq_Max s := mret (reb_Max s); seq_Seek := reb_Seek;
  seq_Iterator s from :=
    let it := reb_Iterator s in if 0 <? from then reb_it_Seek s (u64 from) it else mret it;
  seq_ReverseIterator s v :=
    let it := reb_ReverseIterator s in if 0 <? v then reb_it_Seek s (u64 v) it else mret it;
  seq_HasNext := reb_it_HasNext; seq_Next := reb_it_Next |}.

#[export] Instance SequenceReader_Sequence : Sequence SequenceReader U64 := {|
  seq_Get := sr_Get; seq_Count := sr_Count; seq_Min := sr_Min; seq_Max := sr_Max; seq_Seek := sr_seek;
  seq_Iterator := sr_Iterator; seq_ReverseIterator := sr_ReverseIterator; seq_HasNext := u64_HasNext; seq_Next := u64_Next |}.

(** ** Strictly increasing lists *)

Lemma filter_none {A} (P : A -> Prop) `{forall x, Decision (P x)} l : Forall (fun x => ~ P x) l -> filter P l = [].
Proof. induction 1 as [|x l Hx _ IH]; [reflexivity|]. by rewrite filter_cons_False, IH. Qed.

Section Lists.
Context (xs : list Z) (Hs : StronglySorted Z.lt xs).

Lemma strict_le (l : list Z) : StronglySorted Z.lt l -> StronglySorted Z.le l.
Proof. induction 1 as [|x l _ IH Hx]; constructor; [exact IH|]. eapply Forall_impl; [exact Hx|]. cbn. lia. Qed.

Lemma strict_nth (l : list Z) : StronglySorted Z.lt l -> forall i j, (i < j < length l)%nat -> nth i l 0 < nth j l 0.
Proof.
  induction 1 as [|x l _ IH Hx]; intros i j Hij; cbn [length] in Hij; [lia|]. destruct j as [|j]; [lia|]. destruct i as [|i]; cbn [nth].
  - eapply Forall_nth in Hx; [exact Hx|lia].
  - apply IH. lia.
Qed.

Lemma item_strict i j : 0 <= i < j -> j < zlen xs -> item xs i < item xs j.
Proof. intros Hij Hj. unfold item. apply strict_nth; [exact Hs|]. unfold zlen in Hj. lia. Qed.

Lemma filter_from v k : 0 <= k <= zlen xs -> (forall h, 0 <= h < k -> item xs h < v) -> (forall h, k <= h < zlen xs -> v <= item xs h) ->
  filter (fun y => v <= y) xs = drop (Z.to_nat k) xs.
Proof.
  intros Hk Hlo Hhi. unfold zlen in *. rewrite <- (take_drop (Z.to_nat k) xs) at 1. rewrite filter_app.
  rewrite (filter_none _ (take _ _)), app_nil_l; [apply filter_all|]; apply (Forall_nth _ 0); intros i Hi.
  - rewrite length_drop in Hi. rewrite nth_skipn. specialize (Hhi (k + Z.of_nat i) ltac:(lia)). unfold item in Hhi.
    by replace (Z.to_nat (k + Z.of_nat i)) with (Z.to_nat k + i)%nat in Hhi by lia.
  - rewrite length_take in Hi. rewrite nth_firstn. destruct (Nat.ltb_spec i (Z.to_nat k)); [|lia].
    specialize (Hlo (Z.of_nat i) ltac:(lia)). unfold item in Hlo. rewrite Nat2Z.id in Hlo. lia.
Qed.

Lemma filter_upto v k : 0 <= k <= zlen xs -> (forall h, 0 <= h < k -> item xs h <= v) -> (forall h, k <= h < zlen xs -> v < item xs h) ->
  filter (fun y => y <= v) xs = take (Z.to_nat k) xs.
Proof.
  intros Hk Hlo Hhi. unfold zlen in *. rewrite <- (take_drop (Z.to_nat k) xs) at 1. rewrite filter_app.
  rewrite (filter_none _ (drop _ _)), app_nil_r; [apply filter_all|]; apply (Forall_nth _ 0); intros i Hi.
  - rewrite length_take in Hi. rewrite nth_firstn. destruct (Nat.ltb_spec i (Z.to_nat k)); [|lia].
    specialize (Hlo (Z.of_nat i) ltac:(lia)). unfold item in Hlo. by rewrite Nat2Z.id in Hlo.
  - rewrite length_drop in Hi. rewrite nth_skipn. specialize (Hhi (k + Z.of_nat i) ltac:(lia)). unfold item in Hhi.
    replace (Z.to_nat (k + Z.of_nat i)) with (Z.to_nat k + i)%nat in Hhi by lia. lia.
Qed.

Lemma filter_head v k : 0 <= k < zlen xs -> (forall h, 0 <= h < k -> item xs h < v) -> (forall h, k <= h < zlen xs -> v <= item xs h) ->
  exists l, filter (fun y => v <= y) xs = item xs k :: l.
Proof.
  intros Hk Hlo Hhi. rewrite (filter_from v k) by (auto with lia). unfold zlen in Hk.
  exists (drop (Datatypes.S (Z.to_nat k)) xs). apply drop_S. destruct (nth_lookup_or_length xs (Z.to_nat k) 0) as [E|]; [exact E|lia].
Qed.

End Lists.

(** ** Iterators *)

(** An iterator with an invariant that counts the items it has yielded. *)
Lemma drained_counted {S I} `{Sequence S I} (s : S) (ys : list Z) (R : Z -> I -> Prop) :
  (forall k it, R k it -> 0 <= k < zlen ys -> seq_HasNext s it = true /\ exists it', seq_Next s it = Val (item ys k, None, it') /\ R (k + 1) it') ->
  (forall it, R (zlen ys) it -> seq_HasNext s it = false) ->
  forall fuel k it, R k it -> 0 <= k <= zlen ys -> zlen ys - k < Z.of_nat fuel -> drained fuel s it = Val (drop (Z.to_nat k) ys).
Proof.
  intros Hstep Hend. induction fuel as [|fuel IH]; intros k it HR Hk Hf; [lia|]. cbn [drained]. destruct (Z.eq_dec k (zlen ys)) as [->|Hne].
  - rewrite Hend by exact HR. unfold zlen. rewrite Nat2Z.id, drop_ge by lia. reflexivity.
  - destruct (Hstep k it HR ltac:(lia)) as (-> & it' & -> & HR'). cbn [mbind Res_bind]. rewrite (IH (k + 1)) by (assumption || lia).
    cbn [mbind Res_bind mret Res_ret]. unfold zlen in *. replace (Z.to_nat (k + 1)) with (Datatypes.S (Z.to_nat k)) by lia.
    rewrite (drop_S ys (item ys k) (Z.to_nat k)); [reflexivity|]. destruct (nth_lookup_or_length ys (Z.to_nat k) 0) as [E|]; [exact E|lia].
Qed.

(** An iterator seen through an interface yields the same items. *)
Lemma drained_embed {S I T J} `{Sequence S I} `{Sequence T J} (s : S) (t : T) (emb : I -> J) :
  (forall it, seq_HasNext t (emb it) = seq_HasNext s it) ->
  (forall it, seq_Next t (emb it) = ('(v, err, it) ← seq_Next s it; mret (v, err, emb it))) ->
  forall fuel it, drained fuel t (emb it) = drained fuel s it.
Proof.
  intros Hh Hn. induction fuel as [|fuel IH]; intros it; [reflexivity|]. cbn [drained]. rewrite Hh, Hn. destruct (seq_HasNext s it); [|reflexivity].
  destruct (seq_Next s it) as [[[v err] it']| |]; [|reflexivity..]. cbn. destruct err; [reflexivity|]. by rewrite IH.
Qed.

Lemma item_reverse (xs : list Z) k : 0 <= k < zlen xs -> item (reverse xs) k = item xs (zlen xs - 1 - k).
Proof.
  intros Hk. unfold item, zlen in *. rewrite !nth_lookup. rewrite reverse_lookup by lia. by replace (Z.to_nat (Z.of_nat (length xs) - 1 - k)) with (length xs - Datatypes.S (Z.to_nat k))%nat by lia.
Qed.

Lemma i64_int z : - 2 ^ 63 <= z < 2 ^ 63 -> i64 z = z.
Proof.
  intros Hz. destruct (Z.lt_ge_cases z 0); [|apply i64_id; lia]. unfold i64. replace (z mod two64) with (z + two64).
  - unfold two64. destruct (Z.ltb_spec (z + 18446744073709551616) 9223372036854775808); lia.
  - apply (Z.mod_unique z two64 (-1)); unfold two64; lia.
Qed.

Lemma zlen_reverse {A} (l : list A) : zlen (reverse l) = zlen l.
Proof. unfold zlen. by rewrite length_reverse. Qed.

(** ** Simple sequences *)

Section Simple.
Context (base : Z) (xs : list Z) (Hs : StronglySorted Z.lt xs) (Hne : 0 < zlen xs <= 2 ^ 30).
Context (Hb : 0 <= base) (Hx : Forall (fun x => base <= x < two64 /\ x - base < 2 ^ 32) xs).

(** What the encoder writes after the first byte. *)
Definition deltas : bytes := concat (map (fun x => Z_to_be 4 (u64 (x - base))) xs).

Lemma item_simple i : 0 <= i < zlen xs -> base <= item xs i < two64 /\ item xs i - base < 2 ^ 32.
Proof. intros Hi. unfold zlen in Hi. apply (proj1 (Forall_nth _ 0 xs) Hx). lia. Qed.

Lemma chunks_length {A} (f : A -> bytes) (l : list A) : (forall x, length (f x) = 4%nat) -> length (concat (map f l)) = (4 * length l)%nat.
Proof. intros Hf. induction l as [|x l IH]; [reflexivity|]. cbn [map concat]. rewrite length_app, Hf, IH. cbn [length]. lia. Qed.

Lemma chunk_at {A} (f : A -> bytes) (l : list A) d : (forall x, length (f x) = 4%nat) -> forall i, (i < length l)%nat ->
  take 4 (drop (4 * i) (concat (map f l))) = f (nth i l d).
Proof.
  intros Hf. induction l as [|x l IH]; intros i Hi; cbn [length] in Hi; [lia|]. cbn [map concat]. destruct i as [|i]; cbn [nth].
  - rewrite Nat.mul_0_r, drop_0, take_app_le, take_ge by (rewrite ?Hf; lia). reflexivity.
  - rewrite drop_app_ge by (rewrite Hf; lia). rewrite Hf. replace (4 * Datatypes.S i - 4)%nat with (4 * i)%nat by lia. apply IH. lia.
Qed.

Definition simple : SimpleSequence := ss_Reset base deltas.

Lemma simple_Count : ss_Count simple = zlen xs.
Proof.
  unfold ss_Count, simple, ss_Reset, deltas, zlen. cbn [ss_raw]. rewrite chunks_length by (intros; apply length_Z_to_be).
  rewrite Nat2Z.inj_mul. rewrite Z.mul_comm. by apply Z.div_mul.
Qed.

Lemma simple_Get i : 0 <= i < zlen xs -> ss_Get simple i = Val (item xs i).
Proof.
  intros Hi. destruct (item_simple i Hi) as [H1 H2]. unfold ss_Get. rewrite (u64_id (i * 4)), u64_id by (unfold is_u64, two64; lia).
  assert (L : zlen deltas = 4 * zlen xs) by (unfold zlen, deltas; rewrite chunks_length by (intros; apply length_Z_to_be); lia).
  rewrite go_slice_val by (cbn [ss_raw simple ss_Reset]; lia). cbn [mbind Res_bind ss_raw ss_baseNum simple ss_Reset].
  replace (Z.to_nat (i * 4 + 4 - i * 4)) with 4%nat by lia. replace (Z.to_nat (i * 4)) with (4 * Z.to_nat i)%nat by lia.
  unfold deltas. rewrite (chunk_at _ _ 0) by (try (intros; apply length_Z_to_be); unfold zlen in Hi; lia). fold (item xs i).
  rewrite be_to_Z_Z_to_be by apply u64_range. unfold two64 in *. rewrite (u64_id (item xs i - base)) by (unfold is_u64, two64; lia).
  rewrite Z.mod_small by lia. rewrite u64_id by (unfold is_u64, two64; lia). cbn. f_equal. lia.
Qed.

(** The index at which [search] stops. *)
Lemma simple_search v : exists k, 0 <= k <= zlen xs /\ ss_search simple v = Val (if zlen xs <=? k then (0, false) else (k, true)) /\
  (forall h, 0 <= h < k -> item xs h < v) /\ (forall h, k <= h < zlen xs -> v <= item xs h).
Proof.
  destruct (search_loop_exact (fun i => x ← ss_Get simple i; mret (v <=? x)) (fun i => v <=? item xs i) (zlen xs) (Z.to_nat (zlen xs)) 0 (zlen xs))
    as (k & E & Hk & Hlo & Hhi).
  { intros h Hh. by rewrite simple_Get by lia. }
  { intros h h' Hh Hh' Hg. apply Z.leb_le in Hg. apply Z.leb_le. destruct (Z.eq_dec h h') as [->|]; [exact Hg|]. pose proof (item_strict xs Hs h h' ltac:(lia) Hh'). lia. }
  1-5: intros; lia.
  exists k. split; [lia|]. unfold ss_search. rewrite simple_Count. unfold sort_SearchM. rewrite E. split; [reflexivity|].
  split; intros h Hh; [apply Z.leb_gt|apply Z.leb_le]; auto.
Qed.

Lemma simple_reverseSearch v : exists k, 0 <= k <= zlen xs /\ ss_reverseSearch simple v = Val (if k <=? 0 then (0, false) else (k - 1, true)) /\
  (forall h, 0 <= h < k -> item xs h <= v) /\ (forall h, k <= h < zlen xs -> v < item xs h).
Proof.
  destruct (search_loop_exact (fun i => x ← ss_Get simple (u64 (zlen xs - i - 1)); mret (x <=? v)) (fun i => item xs (zlen xs - i - 1) <=? v) (zlen xs) (Z.to_nat (zlen xs)) 0 (zlen xs))
    as (k & E & Hk & Hlo & Hhi).
  { intros h Hh. rewrite u64_id by (unfold is_u64, two64; lia). by rewrite simple_Get by lia. }
  { intros h h' Hh Hh' Hg. apply Z.leb_le in Hg. apply Z.leb_le. destruct (Z.eq_dec h h') as [->|]; [exact Hg|].
       pose proof (item_strict xs Hs (zlen xs - h' - 1) (zlen xs - h - 1) ltac:(lia) ltac:(lia)). lia. }
  1-5: intros; lia.
  exists (zlen xs - k). split; [lia|]. unfold ss_reverseSearch. rewrite simple_Count. unfold sort_SearchM. rewrite E. cbn [mbind Res_bind mret Res_ret]. split; [|split].
  - destruct (Z.leb_spec (zlen xs) k), (Z.leb_spec (zlen xs - k) 0); try lia; reflexivity.
  - intros h Hh. apply Z.leb_le. replace h with (zlen xs - (zlen xs - h - 1) - 1) by lia. apply Hhi. lia.
  - intros h Hh. apply Z.leb_gt. replace h with (zlen xs - (zlen xs - h - 1) - 1) by lia. apply Hlo. lia.
Qed.

Lemma simple_drained k : 0 <= k <= zlen xs -> drained (Datatypes.S (length xs)) simple (inl k : Z + Z) = Val (drop (Z.to_nat k) xs).
Proof.
  intros Hk. apply (drained_counted simple xs (fun k it => it = inl k)); [|intros it ->|reflexivity|exact Hk|unfold zlen in *; lia].
  - intros i it -> Hi. cbn. unfold ssi_Next, ssi_HasNext. rewrite simple_Count. destruct (Z.ltb_spec i (zlen xs)); [|lia]. split; [reflexivity|]. cbn [negb].
    rewrite u64_id by (unfold is_u64, two64; lia). rewrite simple_Get by exact Hi. rewrite i64_id by lia. cbn. eauto.
  - cbn. unfold ssi_HasNext. rewrite simple_Count. apply Z.ltb_irrefl.
Qed.

Lemma simple_drained_back k : 0 <= k <= zlen xs -> drained (Datatypes.S (length xs)) simple (inr (k - 1) : Z + Z) = Val (reverse (take (Z.to_nat k) xs)).
Proof.
  intros Hk. rewrite (drained_counted simple (reverse xs) (fun i it => it = inr (zlen xs - 1 - i)) ) with (k := zlen xs - k).
  - rewrite drop_reverse. unfold zlen in *. do 3 f_equal. lia.
  - intros i it -> Hi. rewrite zlen_reverse in Hi. cbn. unfold rssi_Next, rssi_HasNext. destruct (Z.leb_spec 0 (zlen xs - 1 - i)); [|lia]. split; [reflexivity|]. cbn [negb].
    rewrite u64_id by (unfold is_u64, two64; lia). rewrite simple_Get, item_reverse, i64_int by lia. cbn. eexists. split; [reflexivity|]. f_equal. lia.
  - intros it ->. rewrite zlen_reverse. cbn. unfold rssi_HasNext. apply Z.leb_gt. lia.
  - f_equal. lia.
  - rewrite zlen_reverse. lia.
  - rewrite zlen_reverse. unfold zlen in *. lia.
Qed.

Lemma simple_represents : represents xs simple.
Proof.
  assert (H0 : 0 <= item xs 0) by (destruct (item_simple 0 ltac:(lia)); lia).
  split; cbn [seq_Get seq_Count seq_Min seq_Max seq_Seek seq_Iterator seq_ReverseIterator SimpleSequence_Sequence].
  - apply simple_Get.
  - by rewrite simple_Count.
  - apply simple_Get. lia.
  - unfold ss_Max. rewrite simple_Count, u64_id by (unfold is_u64, two64; lia). apply simple_Get. lia.
  - intros v Hv. exists 0. unfold ss_Seek. destruct (simple_search v) as (k & Hk & -> & Hlo & Hhi). cbn [mbind Res_bind].
    destruct (Z.leb_spec (zlen xs) k).
    + rewrite (filter_from xs v k), drop_ge by first [assumption | lia | unfold zlen in *; lia]. reflexivity.
    + rewrite simple_Get by lia. destruct (filter_head xs v k ltac:(lia) Hlo Hhi) as [l ->]. reflexivity.
  - intros from Hf. destruct (Z.ltb_spec 0 from).
    + rewrite u64_id by (unfold is_u64, two64; lia). unfold ssi_Seek. destruct (simple_search from) as (k & Hk & -> & Hlo & Hhi). cbn [mbind Res_bind mret Res_ret].
      exists (inl k). rewrite simple_drained, (filter_from xs from k) by auto. split; [|reflexivity].
      destruct (Z.leb_spec (zlen xs) k); cbn; [|reflexivity]. rewrite simple_Count. do 2 f_equal. lia.
    + exists (inl 0). split; [reflexivity|]. rewrite simple_drained, (filter_from xs from 0) by (lia || (intros h Hh; destruct (item_simple h ltac:(lia)); lia)). reflexivity.
  - intros v Hv. destruct (Z.ltb_spec 0 v).
    + rewrite u64_id by (unfold is_u64, two64; lia). unfold rssi_Seek. destruct (simple_reverseSearch v) as (k & Hk & -> & Hlo & Hhi). cbn [mbind Res_bind mret Res_ret].
      exists (inr (k - 1)). rewrite simple_drained_back, (filter_upto xs v k) by auto. split; [|reflexivity].
      destruct (Z.leb_spec k 0); cbn; [|reflexivity]. do 2 f_equal. lia.
    + unfold ss_ReverseIterator. rewrite simple_Count. exists (inr (zlen xs - 1)). split; [reflexivity|]. rewrite simple_drained_back by lia.
      rewrite take_ge by (unfold zlen; lia). reflexivity.
Qed.
End Simple.

(** ** Rebased sequences *)

Section Rebased.
Context (base : Z) (xs : list Z) (Hs : StronglySorted Z.lt xs) (Hne : 0 < zlen xs <= 2 ^ 30).
Context (Hb : 0 <= base) (Hx : Forall (fun x => base <= x < MaxUint64) xs).

Abbreviation sz := (zlen xs).
Definition rebased : list Z := map (fun x => x - base) xs.
Definition top_ : Z := item xs (sz - 1) - base.

Lemma item_from i : 0 <= i < sz -> base <= item xs i < MaxUint64.
Proof. intros Hi. unfold zlen in Hi. apply (proj1 (Forall_nth _ 0 xs) Hx). lia. Qed.

Lemma item_rebased i : 0 <= i < sz -> item rebased i = item xs i - base.
Proof.
  intros Hi. unfold item, rebased, zlen in *. rewrite (nth_indep _ 0 (0 - base)) by (rewrite length_map; lia).
  apply (map_nth (fun x => x - base)).
Qed.

Lemma item_le_top i : 0 <= i < sz -> item xs i <= item xs (sz - 1).
Proof. intros Hi. destruct (Z.eq_dec i (sz - 1)) as [->|]; [lia|]. pose proof (item_strict xs Hs i (sz - 1) ltac:(lia) ltac:(lia)). lia. Qed.

Lemma zlen_rebased : zlen rebased = sz.
Proof. unfold rebased, zlen. by rewrite length_map. Qed.

Lemma Hn_ : 1 <= sz <= 2 ^ 30.
Proof. lia. Qed.
Lemma Htop : 0 <= top_ < MaxUint64.
Proof. unfold top_. pose proof (item_from (sz - 1) ltac:(lia)). lia. Qed.
Lemma Hlast_ : item rebased (sz - 1) = top_.
Proof. apply item_rebased. lia. Qed.

Lemma shifted_sorted (l : list Z) : StronglySorted Z.lt l -> StronglySorted Z.le (map (fun x => x - base) l).
Proof. induction 1 as [|x l _ IH Hl]; cbn [map]; constructor; [exact IH|]. apply Forall_map. eapply Forall_impl; [exact Hl|]. cbn. lia. Qed.

Lemma rebased_sorted : StronglySorted Z.le rebased.
Proof. by apply shifted_sorted. Qed.

Lemma rebased_range : Forall (fun y => 0 <= y <= top_) rebased.
Proof.
  apply (Forall_nth _ 0). intros i Hi. unfold rebased in Hi. rewrite length_map in Hi.
  pose proof (item_rebased (Z.of_nat i) ltac:(unfold zlen; lia)) as E. unfold item in E at 1. rewrite Nat2Z.id in E. rewrite E. unfold top_.
  pose proof (item_from (Z.of_nat i) ltac:(unfold zlen; lia)). pose proof (item_le_top (Z.of_nat i) ltac:(unfold zlen; lia)). lia.
Qed.

Lemma item_rebased_strict i j : 0 <= i < j -> j < sz -> item rebased i < item rebased j.
Proof. intros Hi Hj. rewrite !item_rebased by lia. pose proof (item_strict xs Hs i j Hi Hj). lia. Qed.

(** A least item splits the sequence at its index, and so does a greatest one. *)
Lemma least_splits w k : least_from sz rebased w k -> (forall h, 0 <= h < k -> item xs h < base + w) /\ (forall h, k <= h < sz -> base + w <= item xs h).
Proof.
  intros (Hk & Hw & Hmin). split; intros h Hh.
  - pose proof (item_rebased_strict h k Hh ltac:(lia)). specialize (Hmin h ltac:(lia)). rewrite !item_rebased in * by lia. lia.
  - destruct (Z.eq_dec h k) as [->|]; rewrite item_rebased in Hw by lia; [lia|]. pose proof (item_strict xs Hs k h ltac:(lia) ltac:(lia)). lia.
Qed.
Lemma greatest_splits w k : greatest_to sz rebased w k -> (forall h, 0 <= h < k + 1 -> item xs h <= base + w) /\ (forall h, k + 1 <= h < sz -> base + w < item xs h).
Proof.
  intros (Hk & Hw & Hmax). split; intros h Hh.
  - rewrite item_rebased in Hw by lia. destruct (Z.eq_dec h k) as [->|]; [lia|]. pose proof (item_strict xs Hs h k ltac:(lia) ltac:(lia)). lia.
  - pose proof (item_rebased_strict k h ltac:(lia) ltac:(lia)). specialize (Hmax h ltac:(lia)). rewrite !item_rebased in * by lia. lia.
Qed.

Context (ef : EliasFano) (H : holds_items sz top_ rebased ef).
Definition reb : RebasedEliasFano := mkRebased base ef.

Lemma reb_value i : 0 <= i < sz -> u64 (base + item rebased i) = item xs i.
Proof. intros Hi. pose proof (item_from i Hi). rewrite item_rebased by exact Hi. rewrite u64_id; [lia|unfold is_u64, two64, MaxUint64 in *; lia]. Qed.

Lemma reb_drained k it : ready sz top_ ef k it -> 0 <= k <= sz -> drained (Datatypes.S (length xs)) reb it = Val (drop (Z.to_nat k) xs).
Proof.
  intros HR Hk. destruct (count_exact sz top_ rebased ef H) as (Ec & _).
  apply (drained_counted reb xs (ready sz top_ ef)); [|intros it' R|exact HR|exact Hk|unfold zlen in *; lia].
  - intros i it' R Hi. cbn. unfold reb_it_HasNext, HasNext. pose proof R as (_ & Ei & _). cbn [reb_ef reb]. rewrite Ei, Ec. destruct (Z.leb_spec i (sz - 1)); [|lia]. split; [reflexivity|].
    destruct (Next_ready sz top_ Hn_ Htop rebased ef H i it' R ltac:(lia)) as (it2 & E & R2). unfold reb_it_Next. cbn [reb_ef reb baseNum]. rewrite E. cbn. rewrite reb_value by lia. eauto.
  - cbn. unfold reb_it_HasNext, HasNext. destruct R as (_ & Ei & _). cbn [reb_ef reb]. rewrite Ei, Ec. apply Z.leb_gt. lia.
Qed.

Lemma reb_drained_back k it : ready_back sz top_ ef k it -> 0 <= k <= sz -> drained (Datatypes.S (length xs)) reb it = Val (reverse (take (Z.to_nat (sz - k)) xs)).
Proof.
  intros HR Hk. destruct (count_exact sz top_ rebased ef H) as (Ec & _).
  rewrite (drained_counted reb (reverse xs) (ready_back sz top_ ef)) with (k := k); rewrite ?zlen_reverse; [..|exact HR|lia|unfold zlen in *; lia].
  - rewrite drop_reverse. unfold zlen in *. do 3 f_equal. lia.
  - intros i it' R Hi. cbn. unfold reb_it_HasNext, HasNext. pose proof R as (_ & Ei & _). cbn [reb_ef reb]. rewrite Ei, Ec. destruct (Z.leb_spec i (sz - 1)); [|lia]. split; [reflexivity|].
    destruct (Next_back sz top_ Hn_ Htop rebased ef H i it' R ltac:(lia)) as (it2 & E & R2). unfold reb_it_Next. cbn [reb_ef reb baseNum]. rewrite E. cbn.
    rewrite reb_value, item_reverse by lia. eauto.
  - intros it' R. cbn. unfold reb_it_HasNext, HasNext. destruct R as (_ & Ei & _). cbn [reb_ef reb]. rewrite Ei, Ec. apply Z.leb_gt. lia.
Qed.

Lemma reb_Get_exact i : 0 <= i < sz -> reb_Get reb i = Val (item xs i).
Proof. intros Hi. unfold reb_Get. cbn [reb_ef reb baseNum]. rewrite (Get_exact sz top_ Hn_ Htop rebased ef H i Hi). cbn. by rewrite reb_value. Qed.

Lemma reb_Seek_exact v : is_u64 v -> exists x,
  reb_Seek reb v = Val (match filter (fun y => v <= y) xs with y :: _ => (y, true) | [] => (x, false) end).
Proof.
  intros Hv. unfold reb_Seek. cbn [reb_ef reb baseNum]. set (v' := if v <? base then base else v).
  assert (Hv' : 0 <= v' - base < two64 /\ (v <= v') /\ (v' = base \/ v' = v)) by (unfold v', is_u64 in *; destruct (Z.ltb_spec v base); lia).
  rewrite (u64_id (v' - base)) by (unfold is_u64; lia). unfold ef_Seek.
  destruct (search_up sz top_ Hn_ Htop rebased ef H Hlast_ (v' - base) ltac:(lia)) as (x & k & -> & Hk). exists (u64 (base + 0)).
  destruct (Z.leb_spec (v' - base) top_) as [Hle|Hgt]; cbn [mbind Res_bind mret Res_ret].
  - destruct (Hk Hle) as [-> Hl]. pose proof Hl as (Hk0 & _). destruct (least_splits _ _ Hl) as [Hlo Hhi].
    destruct (filter_head xs v k Hk0) as [l ->]; [..|by rewrite reb_value].
    + intros h Hh. specialize (Hlo h Hh). pose proof (item_from h ltac:(lia)). lia.
    + intros h Hh. specialize (Hhi h Hh). lia.
  - assert (v' = v). { destruct Hv' as (_ & _ & [->|]); [|assumption]. pose proof Htop. lia. }
    rewrite (filter_none _ xs); [reflexivity|]. apply (Forall_nth _ 0). intros i Hi. pose proof (item_le_top (Z.of_nat i) ltac:(unfold zlen; lia)) as E.
    unfold item in E at 1. rewrite Nat2Z.id in E. unfold top_ in Hgt. lia.
Qed.

(** Forward and backward positioning. *)
Lemma reb_it_Seek_exact v : is_u64 v -> exists it, reb_it_Seek reb v (reb_Iterator reb) = Val it /\
  drained (Datatypes.S (length xs)) reb it = Val (filter (fun y => v <= y) xs).
Proof.
  intros Hv. unfold reb_it_Seek, reb_Iterator. cbn [reb_ef reb baseNum].
  assert (Hrev : it_reverse (ef_Iterator ef) = false) by reflexivity.
  assert (Hgo : forall w, 0 <= w -> (v = base + w \/ (w = 0 /\ v <= base)) -> exists it, it_Seek ef w (ef_Iterator ef) = Val it /\ it_reverse it = false /\
    drained (Datatypes.S (length xs)) reb it = Val (filter (fun y => v <= y) xs)).
  { intros w Hw Hvw. destruct (Seek_ready sz top_ Hn_ Htop rebased ef H Hlast_ w (ef_Iterator ef) Hrev Hw) as (it & k & E & R & Hk1 & Hk2).
    exists it. split; [exact E|]. pose proof R as (Rr & _ & Rk & _). split; [exact Rr|]. rewrite (reb_drained k it R Rk). f_equal. symmetry.
    destruct (Z.le_gt_cases w top_) as [Hle|Hgt].
    - destruct (least_splits _ _ (Hk1 Hle)) as [Hlo Hhi]. apply filter_from; [exact Rk|..]; intros h Hh; [specialize (Hlo h Hh)|specialize (Hhi h Hh)]; pose proof (item_from h ltac:(lia)); lia.
    - rewrite (Hk2 Hgt). apply filter_from; [lia|..]; intros h Hh; [|lia]. pose proof (item_le_top h Hh). pose proof Htop. unfold top_ in *. lia. }
  destruct (Z.ltb_spec v base).
  - destruct (Hgo 0 ltac:(lia) ltac:(lia)) as (it & E & Er & Ed). rewrite E. cbn [mbind Res_bind]. rewrite Er. eauto.
  - unfold is_u64 in Hv. rewrite u64_id by (unfold is_u64; lia). destruct (Hgo (v - base) ltac:(lia) ltac:(lia)) as (it & E & _ & Ed). eauto.
Qed.

Lemma reb_it_Seek_back v : is_u64 v -> exists it, reb_it_Seek reb v (reb_ReverseIterator reb) = Val it /\
  drained (Datatypes.S (length xs)) reb it = Val (reverse (filter (fun y => y <= v) xs)).
Proof.
  intros Hv. unfold reb_it_Seek, reb_ReverseIterator. cbn [reb_ef reb baseNum].
  pose proof (ReverseIterator_ready sz top_ Hn_ Htop rebased ef H) as (Hrev & _).
  assert (Hgo : forall w, 0 <= w -> exists it k, it_Seek ef w (ReverseIterator ef) = Val it /\ ready_back sz top_ ef k it /\
    (forall h, 0 <= h < sz - k -> item xs h <= base + w) /\ (forall h, sz - k <= h < sz -> base + w < item xs h)).
  { intros w Hw. destruct (Seek_back sz top_ Hn_ Htop rebased ef H Hlast_ w _ Hrev Hw) as (it & k & E & R & Hc). exists it, k. split; [exact E|]. split; [exact R|].
    destruct Hc as [[K1 K2]|[-> K2]].
    - replace (sz - k) with (sz - 1 - k + 1) by lia. by apply greatest_splits.
    - split; intros h Hh; [lia|]. specialize (K2 h ltac:(lia)). rewrite item_rebased in K2 by lia. lia. }
  destruct (Z.ltb_spec v base).
  - destruct (Hgo 0 ltac:(lia)) as (it & k & E & R & Hlo & Hhi). rewrite E. cbn [mbind Res_bind]. pose proof R as (Rr & Ei & Rk & _). rewrite Rr.
    rewrite (filter_upto xs v 0) by (first [lia | intros h Hh; try lia; pose proof (item_from h ltac:(lia)); lia]). change (reverse (take (Z.to_nat 0) xs)) with (@nil Z).
    assert (Hk : sz - 1 <= k). { destruct (Z.le_gt_cases (sz - 1) k); [assumption|exfalso]. pose proof (Hlo 1 ltac:(lia)). pose proof (item_strict xs Hs 0 1 ltac:(lia) ltac:(lia)). pose proof (item_from 0 ltac:(lia)). lia. }
    destruct (Z.eq_dec k sz) as [->|].
    + unfold it_Next. destruct (count_exact sz top_ rebased ef H) as (Ec & _). unfold HasNext. rewrite Ei, Ec. destruct (Z.leb_spec sz (sz - 1)); [lia|]. cbn [mbind Res_bind mret Res_ret negb]. exists it. split; [reflexivity|].
      rewrite (reb_drained_back sz it R) by lia. by rewrite Z.sub_diag.
    + destruct (Next_back sz top_ Hn_ Htop rebased ef H k it R ltac:(lia)) as (it2 & E2 & R2). rewrite E2. cbn [mbind Res_bind mret Res_ret]. exists it2. split; [reflexivity|].
      rewrite (reb_drained_back (k + 1) it2 R2) by lia. by replace (sz - (k + 1)) with 0 by lia.
  - unfold is_u64 in Hv. rewrite u64_id by (unfold is_u64; lia). destruct (Hgo (v - base) ltac:(lia)) as (it & k & E & R & Hlo & Hhi). exists it. split; [exact E|].
    pose proof R as (_ & _ & Rk & _). rewrite (reb_drained_back k it R Rk). f_equal. f_equal. symmetry.
    apply filter_upto; [lia|..]; intros h Hh; [specialize (Hlo h Hh)|specialize (Hhi h Hh)]; lia.
Qed.

Lemma reb_represents : represents xs reb.
Proof.
  destruct (hi_fields _ _ _ _ H) as (_ & Ec & _ & Em & _).
  split; cbn [seq_Get seq_Count seq_Min seq_Max seq_Seek seq_Iterator seq_ReverseIterator RebasedEliasFano_Sequence].
  - apply reb_Get_exact.
  - unfold reb_Count, ef_Count. cbn [reb_ef reb]. rewrite Ec, u64_id by (unfold is_u64, two64; lia). cbn. f_equal. lia.
  - apply reb_Get_exact. lia.
  - unfold reb_Max, ef_Max. cbn [reb_ef reb baseNum]. rewrite Em, <- Hlast_, reb_value by lia. reflexivity.
  - apply reb_Seek_exact.
  - intros from Hf. destruct (Z.ltb_spec 0 from).
    + rewrite u64_id by (unfold is_u64, two64; lia). apply reb_it_Seek_exact. unfold is_u64, two64. lia.
    + exists (ef_Iterator ef). split; [reflexivity|]. rewrite (reb_drained 0 _ (Iterator_ready sz top_ Hn_ ef)) by lia. f_equal. symmetry.
      apply filter_from; [lia|..]; intros h Hh; [lia|]. pose proof (item_from h Hh). lia.
  - intros v Hv. destruct (Z.ltb_spec 0 v).
    + rewrite u64_id by (unfold is_u64, two64; lia). apply reb_it_Seek_back. unfold is_u64, two64. lia.
    + exists (ReverseIterator ef). split; [reflexivity|]. rewrite (reb_drained_back 0 _ (ReverseIterator_ready _ _ Hn_ Htop _ _ H)) by lia.
      rewrite take_ge by (unfold zlen; lia). reflexivity.
Qed.
End Rebased.

(** ** The reader *)

Definition simple_it (it : Z + Z) : U64 := match it with inl pos => SimpleIt pos | inr pos => ReverseSimpleIt pos end.

Lemma reader_simple xs s : currentEnc s = SimpleEncoding -> represents xs (sseq s) -> represents xs s.
Proof.
  intros Ee [H1 H2 H3 H4 H5 H6 H7].
  assert (Hby : forall A (a b : Res A), by_encoding s a b = a) by (intros; unfold by_encoding; by rewrite Ee).
  assert (Hd : forall fuel it, drained fuel s (simple_it it) = drained fuel (sseq s) it).
  { apply (drained_embed (sseq s) s simple_it); intros [pos|pos]; [reflexivity..| |]; cbn; [destruct ssi_Next as [[[??]?]| |]|destruct rssi_Next as [[[??]?]| |]]; reflexivity. }
  split; cbn [seq_Get seq_Count seq_Min seq_Max seq_Seek seq_Iterator seq_ReverseIterator SequenceReader_Sequence];
    unfold sr_Get, sr_Count, sr_Min, sr_Max, sr_seek, sr_Iterator, sr_ReverseIterator; try (rewrite Hby; assumption).
  - intros i Hi. rewrite Hby. by apply H1.
  - intros v Hv. rewrite Hby. by apply H5.
  - intros from Hf. rewrite Hby. destruct (H6 from Hf) as (it & E & <-). exists (simple_it it). split; [|apply Hd]. cbn in E.
    destruct (0 <? from); [destruct ssi_Seek|]; cbn in E |- *; try discriminate; injection E as <-; reflexivity.
  - intros v Hv. rewrite Hby. destruct (H7 v Hv) as (it & E & <-). exists (simple_it it). split; [|apply Hd]. cbn in E.
    destruct (0 <? v); [destruct rssi_Seek|]; cbn in E |- *; try discriminate; injection E as <-; reflexivity.
Qed.

Lemma reader_rebased xs s : currentEnc s = PlainEliasFano \/ currentEnc s = RebasedEliasFano_ -> represents xs (sr_ref s) -> represents xs s.
Proof.
  intros Ee [H1 H2 H3 H4 H5 H6 H7].
  assert (Hby : forall A (a b : Res A), by_encoding s a b = b) by (intros; unfold by_encoding; by destruct Ee as [-> | ->]).
  assert (Hd : forall fuel it, drained fuel s (RebasedIt it) = drained fuel (sr_ref s) it).
  { apply (drained_embed (sr_ref s) s RebasedIt); reflexivity. }
  split; cbn [seq_Get seq_Count seq_Min seq_Max seq_Seek seq_Iterator seq_ReverseIterator SequenceReader_Sequence];
    unfold sr_Get, sr_Count, sr_Min, sr_Max, sr_seek, sr_Iterator, sr_ReverseIterator; try (rewrite Hby; assumption).
  - intros i Hi. rewrite Hby. by apply H1.
  - intros v Hv. rewrite Hby. by apply H5.
  - intros from Hf. rewrite Hby. destruct (H6 from Hf) as (it & E & <-). exists (RebasedIt it). split; [|apply Hd]. cbn in E |- *.
    destruct (0 <? from); [rewrite E|injection E as ->]; reflexivity.
  - intros v Hv. rewrite Hby. destruct (H7 v Hv) as (it & E & <-). exists (RebasedIt it). split; [|apply Hd]. cbn in E |- *.
    destruct (0 <? v); [rewrite E|injection E as ->]; reflexivity.
Qed.

(** ** The builder *)

Fixpoint run_body {A} (body : Z -> A -> Res A) (xs : list Z) (a : A) : Res A :=
  match xs with [] => mret a | x :: xs => a ← body x a; run_body body xs a end.

Lemma each_exact {A} n mx (Hn : 1 <= n <= 2 ^ 30) (Hmx : 0 <= mx < MaxUint64) xs ef (H : holds_items n mx xs ef) (body : Z -> A -> Res A) fuel :
  forall k it a, ready n mx ef k it -> n - k < Z.of_nat fuel -> each fuel ef it body a = run_body body (drop (Z.to_nat k) xs) a.
Proof.
  pose proof (hi_count _ _ _ _ H) as Hl. destruct (count_exact n mx xs ef H) as (Ec & _).
  induction fuel as [|fuel IH]; intros k it a R Hf; pose proof R as (_ & Ei & Rk & _); [lia|]. cbn [each]. unfold HasNext. rewrite Ei, Ec.
  destruct (Z.leb_spec k (n - 1)).
  - destruct (Next_ready n mx Hn Hmx xs ef H k it R ltac:(lia)) as (it' & -> & R'). cbn [mbind Res_bind].
    rewrite (drop_S xs (item xs k) (Z.to_nat k)) by (destruct (nth_lookup_or_length xs (Z.to_nat k) 0) as [E|]; [exact E|unfold zlen in *; lia]). cbn [run_body].
    destruct (body (item xs k) a) as [a'| |]; cbn [mbind Res_bind]; [|reflexivity..]. rewrite (IH (k + 1)) by (assumption || lia).
    by replace (Z.to_nat (k + 1)) with (Datatypes.S (Z.to_nat k)) by lia.
  - rewrite drop_ge by (unfold zlen in *; lia). reflexivity.
Qed.

Lemma each_item_exact {A} n mx (Hn : 1 <= n <= 2 ^ 30) (Hmx : 0 <= mx < MaxUint64) xs ef (H : holds_items n mx xs ef) (body : Z -> A -> Res A) a :
  each_item ef body a = run_body body xs a.
Proof.
  destruct (count_exact n mx xs ef H) as (Ec & _). unfold each_item.
  rewrite (each_exact n mx Hn Hmx xs ef H body _ 0); [reflexivity|by apply Iterator_ready|rewrite Ec; lia].
Qed.

Lemma run_append (f : Z -> bytes) xs : forall buf, run_body (fun x buf => mret (buf ++ f x)) xs buf = Val (buf ++ concat (map f xs)).
Proof. induction xs as [|x xs IH]; intros buf; cbn [run_body map concat mbind Res_bind mret Res_ret]; [by rewrite app_nil_r|]. etransitivity; [apply IH|]. by rewrite <- app_assoc. Qed.

Lemma run_fill (f : Z -> Z) xs : forall ef, run_body (fun x ef => AddOffset (f x) ef) xs ef = fill (map f xs) ef.
Proof. induction xs as [|x xs IH]; intros ef; [reflexivity|]. cbn [run_body map fill]. destruct (AddOffset (f x) ef); cbn [mbind Res_bind]; [apply IH|reflexivity..]. Qed.

(** The calls of a writer: the offsets one after the other, then [Build]. *)
Fixpoint sb_fill (xs : list Z) (b : SequenceBuilder) : Res SequenceBuilder :=
  match xs with [] => mret b | x :: xs => b ← sb_AddOffset x b; sb_fill xs b end.
Definition written (base : Z) (xs : list Z) : Res SequenceBuilder :=
  b ← NewBuilder base (zlen xs) (item xs (zlen xs - 1)); b ← sb_fill xs b; sb_Build b.

Lemma sb_fill_exact base xs : forall ef, sb_fill xs (mkBuilder base ef) = (ef ← fill xs ef; mret (mkBuilder base ef)).
Proof. induction xs as [|x xs IH]; intros ef; [reflexivity|]. cbn [sb_fill fill]. unfold sb_AddOffset. cbn [sb_ef sb_baseNum]. destruct (AddOffset x ef); cbn; [apply IH|reflexivity..]. Qed.

Lemma written_exact base xs : written base xs = (ef ← build (zlen xs) (item xs (zlen xs - 1)) xs; mret (mkBuilder base ef)).
Proof.
  unfold written, build, NewBuilder. destruct (NewEliasFano _ _) as [ef| |]; cbn [mbind Res_bind mret Res_ret]; [|reflexivity..]. rewrite sb_fill_exact.
  destruct (fill xs ef) as [ef'| |]; cbn [mbind Res_bind mret Res_ret]; [|reflexivity..]. reflexivity.
Qed.

(** ** The bytes *)

(** What a writer may put into a sequence: strictly increasing offsets from the base on;
    short sequences are written with 32-bit distances. *)
Record increasing (base : Z) (xs : list Z) : Prop := mkIncreasing {
  inc_size : 0 < zlen xs <= 2 ^ 30;
  inc_base : 0 <= base;
  inc_items : Forall (fun x => base <= x < MaxUint64) xs;
  inc_sorted : StronglySorted Z.lt xs;
  inc_short : zlen xs <= SIMPLE_SEQUENCE_MAX_THRESHOLD -> item xs (zlen xs - 1) - base < 2 ^ 32
}.

Lemma simple_tag n : 0 < n <= 16 -> let b := byteZ (Zbyte (Z.lor (Z.land (u64 (n - 1) mod 256) 15) SimpleEncoding)) in
  Z.land b PlainEliasFanoMask = 128 /\ b <> RebasedEliasFano_ /\ Z.land b SimpleEncodingMask = SimpleEncoding /\ Z.land b SimpleEncodingSizeMask + 1 = n.
Proof.
  intros Hn. assert (Hc : Forall (fun n => let b := byteZ (Zbyte (Z.lor (Z.land (u64 (n - 1) mod 256) 15) SimpleEncoding)) in
    Z.land b PlainEliasFanoMask = 128 /\ b <> RebasedEliasFano_ /\ Z.land b SimpleEncodingMask = SimpleEncoding /\ Z.land b SimpleEncodingSizeMask + 1 = n) (map Z.of_nat (seq 1 16))).
  { repeat constructor; vm_compute; discriminate. }
  rewrite Forall_forall in Hc. apply Hc. apply list_elem_of_In, in_map_iff. exists (Z.to_nat n). split; [lia|]. apply in_seq. lia.
Qed.

Lemma tail_of {A} (a : A) l : go_slice (a :: l) 1 (zlen (a :: l)) = Val l.
Proof.
  rewrite go_slice_val by (rewrite ?zlen_cons; pose proof (zlen_nonneg l); lia). f_equal. cbn [Z.to_nat Pos.to_nat]. change (drop (Pos.to_nat 1) (a :: l)) with l.
  apply take_ge. rewrite zlen_cons. unfold zlen. lia.
Qed.

Lemma head_of {A} (a : A) l : go_index (a :: l) 0 = Val a.
Proof. unfold go_index. rewrite zlen_cons. pose proof (zlen_nonneg l). destruct (Z.ltb_spec 0 (1 + zlen l)); [reflexivity|lia]. Qed.

Section Bytes.
Context (little : bool) (base : Z) (xs : list Z) (Hi : increasing base xs).

Lemma simple_bytes b buf : sb_baseNum b = base -> holds_items (zlen xs) (item xs (zlen xs - 1)) xs (sb_ef b) -> ef_Count (sb_ef b) = zlen xs ->
  simpleEncoding b buf = Val (buf ++ Zbyte (Z.lor (Z.land (u64 (zlen xs - 1) mod 256) 15) SimpleEncoding) :: deltas base xs).
Proof.
  intros Eb H Ec. destruct Hi as [H1 H2 H3 H4 H5]. unfold simpleEncoding. rewrite Ec, Eb.
  rewrite (each_item_exact (zlen xs) (item xs (zlen xs - 1)) ltac:(lia) ltac:(pose proof (item_from base xs H3 (zlen xs - 1) ltac:(lia)); lia) xs (sb_ef b) H).
  rewrite run_append, <- app_assoc. reflexivity.
Qed.

Lemma rebased_bytes b buf : sb_baseNum b = base -> holds_items (zlen xs) (item xs (zlen xs - 1)) xs (sb_ef b) -> ef_Count (sb_ef b) = zlen xs ->
  exists ef, rebasedEliasFano little b buf = Val (buf ++ Zbyte RebasedEliasFano_ :: ef_Write little ef) /\ holds_items (zlen xs) (top_ base xs) (rebased base xs) ef.
Proof.
  intros Eb H Ec. destruct Hi as [H1 H2 H3 H4 H5]. pose proof (item_from base xs H3 (zlen xs - 1) ltac:(lia)) as Hl. pose proof (Htop base xs H1 H2 H3) as Ht.
  destruct (build_exact (zlen xs) (top_ base xs) ltac:(lia) Ht (rebased base xs) (zlen_rebased base xs) (rebased_range base xs H4 H3) (rebased_sorted base xs H4)) as (ef & E & Hef).
  exists ef. split; [|exact Hef]. unfold rebasedEliasFano, build in *. rewrite Ec, Eb. destruct (hi_fields _ _ _ _ H) as (_ & _ & _ & Em & _). unfold ef_Max. rewrite Em.
  rewrite u64_id by (unfold is_u64, two64, MaxUint64 in *; lia). fold (top_ base xs). destruct (NewEliasFano _ _) as [ef0| |]; cbn [mbind Res_bind] in E |- *; [|discriminate..].
  rewrite (each_item_exact (zlen xs) (item xs (zlen xs - 1)) ltac:(lia) ltac:(lia) xs (sb_ef b) H), run_fill.
  assert (Em' : map (fun x => u64 (x - base)) xs = rebased base xs).
  { apply map_ext_Forall. eapply Forall_impl; [exact H3|]. cbn. intros x Hx. apply u64_id. unfold is_u64, two64, MaxUint64 in *. lia. }
  rewrite Em'. destruct (fill _ ef0) as [ef1| |]; cbn [mbind Res_bind] in E |- *; [|discriminate..]. rewrite E. cbn [mbind Res_bind mret Res_ret].
  unfold ef_Write, AppendBytes. f_equal. by rewrite <- app_assoc.
Qed.

Lemma count_of_bytes n mx ys ef rest : 1 <= n <= 2 ^ 30 -> holds_items n mx ys ef -> eliasfano_Count (AppendBytes little ef [] ++ rest) = Val n.
Proof.
  intros Hn H. destruct (hi_fields _ _ _ _ H) as (_ & Ec & _). unfold eliasfano_Count, AppendBytes. rewrite Ec. cbn [app]. rewrite <- app_assoc.
  pose proof (length_Z_to_be 8 (n - 1)) as L. set (c := Z_to_be 8 (n - 1)) in *. rewrite go_slice_val; [|lia|rewrite zlen_app; pose proof (zlen_nonneg ((Z_to_be 8 (ef_u ef) ++ concat (map (word_bytes little) (ef_data ef))) ++ rest)); unfold zlen at 1; lia].
  change (Z.to_nat 0) with 0%nat. change (Z.to_nat (8 - 0)) with 8%nat. rewrite drop_0, take_app_le, take_ge by lia. cbn [mbind Res_bind mret Res_ret]. unfold c.
  rewrite be_to_Z_Z_to_be by lia. change (256 ^ Z.of_nat 8) with two64. rewrite Z.mod_small by (unfold two64; lia). rewrite u64_id by (unfold is_u64, two64; lia). f_equal. lia.
Qed.

Lemma read_rebased ef : holds_items (zlen xs) (top_ base xs) (rebased base xs) ef ->
  exists r, ReadMultiEncSeq little base (Zbyte RebasedEliasFano_ :: ef_Write little ef) = Val r /\ represents xs r.
Proof.
  intros H. destruct Hi as [H1 H2 H3 H4 H5]. unfold ReadMultiEncSeq, sr_Reset. rewrite head_of. cbn [mbind Res_bind]. change (byteZ (Zbyte RebasedEliasFano_)) with 144.
  cbn [Z.land Z.eqb PlainEliasFanoMask Pos.land RebasedEliasFano_ Pos.eqb]. rewrite tail_of. cbn [mbind Res_bind]. unfold reb_Reset.
  destruct (Reset_exact little (zlen xs) (top_ base xs) ltac:(lia) (Htop base xs H1 H2 H3) (rebased base xs) ef H (reb_ef (sr_ref zeroReader))) as (ef' & -> & H').
  cbn [mbind Res_bind mret Res_ret]. eexists. split; [reflexivity|]. apply reader_rebased; [right; reflexivity|]. by apply reb_represents.
Qed.

Lemma read_plain ef : holds_items (zlen xs) (item xs (zlen xs - 1)) xs ef ->
  exists r, ReadMultiEncSeq little base (ef_Write little ef) = Val r /\ represents xs r.
Proof.
  intros H. destruct Hi as [H1 H2 H3 H4 H5]. destruct (hi_fields _ _ _ _ H) as (_ & Ec & _). unfold ReadMultiEncSeq, sr_Reset.
  assert (E0 : exists l, ef_Write little ef = x00 :: l).
  { unfold ef_Write, AppendBytes. rewrite Ec. cbn [app Z_to_be]. rewrite !Zdiv.Zdiv_Zdiv by lia. rewrite !(Z.div_small (zlen xs - 1)) by lia. eexists. reflexivity. }
  destruct E0 as [l El]. assert (Eg : go_index (ef_Write little ef) 0 = Val x00) by (rewrite El; apply head_of). rewrite Eg. cbn [mbind Res_bind]. change (Z.land (byteZ x00) PlainEliasFanoMask =? 0) with true. unfold reb_Reset.
  pose proof (item_from base xs H3 (zlen xs - 1) ltac:(lia)) as Hl.
  destruct (Reset_exact little (zlen xs) (item xs (zlen xs - 1)) ltac:(lia) ltac:(lia) xs ef H (reb_ef (sr_ref zeroReader))) as (ef' & -> & H').
  cbn [mbind Res_bind mret Res_ret]. eexists. split; [reflexivity|]. apply reader_rebased; [left; reflexivity|]. cbn [sr_ref].
  apply reb_represents; [assumption|lia|lia|eapply Forall_impl; [exact H3|]; cbn; lia|]. unfold top_. rewrite Z.sub_0_r.
  replace (rebased 0 xs) with xs; [exact H'|]. unfold rebased. symmetry. rewrite <- map_id. apply map_ext. intros x. apply Z.sub_0_r.
Qed.

Lemma read_simple : zlen xs <= SIMPLE_SEQUENCE_MAX_THRESHOLD -> let bs := Zbyte (Z.lor (Z.land (u64 (zlen xs - 1) mod 256) 15) SimpleEncoding) :: deltas base xs in
  multiencseq_Count base bs = Val (zlen xs) /\ exists r, ReadMultiEncSeq little base bs = Val r /\ represents xs r.
Proof.
  intros Hsm bs. destruct Hi as [H1 H2 H3 H4 H5]. destruct (simple_tag (zlen xs) ltac:(unfold SIMPLE_SEQUENCE_MAX_THRESHOLD in *; lia)) as (T1 & T2 & T3 & T4).
  unfold multiencseq_Count, ReadMultiEncSeq, sr_Reset, bs. rewrite head_of. cbn [mbind Res_bind]. rewrite T1, T3, T4, Z.eqb_refl. apply Z.eqb_neq in T2. rewrite T2. split; [reflexivity|].
  rewrite tail_of. cbn [Z.eqb mbind Res_bind mret Res_ret]. eexists. split; [reflexivity|]. apply reader_simple; [reflexivity|].
  apply (simple_represents base xs); [assumption|lia|assumption|]. apply (Forall_nth _ 0). intros i Hl.
  pose proof (item_from base xs H3 (Z.of_nat i) ltac:(unfold zlen; lia)) as A. pose proof (item_le_top xs H4 (Z.of_nat i) ltac:(unfold zlen; lia)) as B.
  unfold item in A, B at 1. rewrite Nat2Z.id in A, B. specialize (H5 Hsm). unfold MaxUint64, two64 in *. lia.
Qed.
End Bytes.

(** C25 A sequence is read back from the bytes its builder wrote, whichever encoding was
    chosen: for a strictly increasing list of up to 2^30 offsets from the base on (within
    32 bits of it when there are at most 16), building and encoding never panic; the count
    is in the bytes; and the reader of the bytes, as well as the reader of the older plain
    form, stands for the list: items by index, least and greatest, the first item from a
    value on, and iteration in both directions from any value are those of the list. *)
Theorem sequence_reader_refines little base xs buf : increasing base xs ->
  exists b bs, written base xs = Val b /\ sb_AppendBytes little b buf = Val (buf ++ bs) /\
    multiencseq_Count base bs = Val (zlen xs) /\
    (exists r, ReadMultiEncSeq little base bs = Val r /\ represents xs r) /\
    (exists r, ReadMultiEncSeq little base (ef_Write little (sb_ef b)) = Val r /\ represents xs r).
Proof.
  intros Hi. pose proof Hi as [H1 H2 H3 H4 H5]. pose proof (item_from base xs H3 (zlen xs - 1) ltac:(lia)) as Hl.
  destruct (build_exact (zlen xs) (item xs (zlen xs - 1)) ltac:(lia) ltac:(lia) xs eq_refl) as (ef & E & H); [|by apply strict_le|].
  { apply (Forall_nth _ 0). intros i Hlt. pose proof (item_from base xs H3 (Z.of_nat i) ltac:(unfold zlen; lia)) as A.
    pose proof (item_le_top xs H4 (Z.of_nat i) ltac:(unfold zlen; lia)) as B. unfold item in A, B at 1. rewrite Nat2Z.id in A, B. lia. }
  rewrite written_exact, E. cbn [mbind Res_bind mret Res_ret]. destruct (hi_fields _ _ _ _ H) as (_ & Ec & _).
  assert (Ecount : ef_Count ef = zlen xs) by (unfold ef_Count; rewrite Ec, u64_id; unfold is_u64, two64; lia).
  exists (mkBuilder base ef). unfold sb_AppendBytes. cbn [sb_ef]. rewrite Ecount. destruct (Z.leb_spec (zlen xs) SIMPLE_SEQUENCE_MAX_THRESHOLD) as [Hsm|_].
  - destruct (read_simple little base xs Hi Hsm) as [Hc Hr]. eexists. split; [reflexivity|]. split; [by apply simple_bytes|]. split; [exact Hc|]. split; [exact Hr|]. by apply read_plain.
  - destruct (rebased_bytes little base xs Hi (mkBuilder base ef) buf eq_refl H Ecount) as (ef' & Eb & H'). eexists. split; [reflexivity|]. split; [exact Eb|].
    split; [|split; [by apply read_rebased|by apply read_plain]]. unfold multiencseq_Count. rewrite head_of. cbn [mbind Res_bind]. change (byteZ (Zbyte RebasedEliasFano_)) with 144.
    cbn [Z.land Z.eqb PlainEliasFanoMask Pos.land RebasedEliasFano_ Pos.eqb]. rewrite tail_of. cbn [mbind Res_bind]. unfold ef_Write. rewrite <- (app_nil_r (AppendBytes _ _ _)).
    apply (count_of_bytes little (zlen xs) (top_ base xs) (rebased base xs)); [lia|exact H'].
Qed.

Definition sample_offsets : list Z := [1000; 1001; 1063; 1064; 5000; 5001; 90000; 90001; 90002; 90010; 90100; 91000; 92000; 93000; 94000; 95000; 96000; 97000].

Lemma sequence_reader_refines_witness : increasing 1000 sample_offsets /\
  exists b bs, written 1000 sample_offsets = Val b /\ sb_AppendBytes true b [] = Val ([] ++ bs) /\
    multiencseq_Count 1000 bs = Val (zlen sample_offsets) /\
    (exists r, ReadMultiEncSeq true 1000 bs = Val r /\ represents sample_offsets r) /\
    (exists r, ReadMultiEncSeq true 1000 (ef_Write true (sb_ef b)) = Val r /\ represents sample_offsets r).
Proof.
  assert (H : increasing 1000 sample_offsets).
  { split; [vm_compute; split; [reflexivity|discriminate]|lia|repeat (constructor; [unfold MaxUint64; lia|]); constructor| |vm_compute; auto].
    repeat (constructor; [|repeat (constructor; [lia|]); constructor]). constructor. }
  split; [exact H|]. apply (sequence_reader_refines true 1000 sample_offsets [] H).
Defined.

(** The condition on short sequences is needed: an offset 2^32 from the base comes back as
    the base itself. *)
Lemma simple_encoding_truncates :
  (b ← written 5 [2 ^ 32 + 5]; bs ← sb_AppendBytes true b []; r ← ReadMultiEncSeq true 5 bs; sr_Get r 0) = Val 5.
Proof. vm_compute. reflexivity. Qed.
