(* ===== verification/ValidatorSet.v ===== *)
(** * The validator set of Bor

    [polygon/heimdall/validator_set.go]: the validators of a span with their voting powers
    and proposer priorities, the rotation of the proposer by weighted round robin, and the
    update of a set by a list of changes. A set keeps its validators sorted by address.

    The validators of a set are pointers in the source. No two sets and no caller share
    them, with one exception: [Proposer] points to a validator whose priority may change
    later, also through another copy of the set. Only its address, which never changes, is
    used by the operations here, so the model keeps the address. *)

From S2P Require Import Prelude Errors Common RlpWriter.

Definition MaxInt64 : Z := 9223372036854775807.
Definition MinInt64 : Z := -9223372036854775808.

Definition MaxTotalVotingPower : Z := MaxInt64 / 8.
Definition PriorityWindowSizeFactor : Z := 2.

Record Validator : Type := mkValidator { v_ID : Z; v_Address : Z; VotingPower : Z; ProposerPriority : Z }.

Definition with_priority (v : Validator) (p : Z) : Validator := mkValidator (v_ID v) (v_Address v) (VotingPower v) p.
Definition with_power (v : Validator) (p : Z) : Validator := mkValidator (v_ID v) (v_Address v) p (ProposerPriority v).

Definition NewValidator (address votingPower : Z) : Validator := mkValidator 0 address votingPower 0.

(** ** Bytes *)

(** [big.NewInt(0).SetInt64(power).Bytes()]: the absolute value, shortest form; at most 8
    bytes, so the copy never goes out of range. *)
Definition PowerBytes (v : Validator) : bytes := Z_to_be 20 (Z.abs (VotingPower v)).
Definition HeaderBytes (v : Validator) : bytes := addr_bytes (v_Address v) ++ PowerBytes v.

Definition errInvalidValidatorsBytes : Error := NewError "invalid validators bytes".

(** [big.Int.Int64]: the low 64 bits, as a signed number. *)
Fixpoint parse_loop (n : nat) (b : bytes) : list Validator :=
  match n with
  | O => []
  | S n => NewValidator (be_to_Z (take 20 b)) (i64 (be_to_Z (take 20 (drop 20 b)))) :: parse_loop n (drop 40 b)
  end.
Definition ParseValidators (b : bytes) : list Validator * option Error :=
  if negb (zlen b mod 40 =? 0) then ([], Some errInvalidValidatorsBytes)
  else (parse_loop (Z.to_nat (zlen b / 40)) b, None).

Record MinimalVal : Type := mkMinimal { m_ID : Z; m_VotingPower : Z; m_Signer : Z }.
Definition v_MinimalVal (v : Validator) : MinimalVal := mkMinimal (v_ID v) (u64 (VotingPower v)) (v_Address v).
Definition ValidatorsToMinimalValidators (vals : list Validator) : list MinimalVal := map v_MinimalVal vals.

(** ** Arithmetic that saturates *)

Definition safeAdd (a b : Z) : Z * bool :=
  if (0 <? b) && (MaxInt64 - b <? a) then (-1, true)
  else if (b <? 0) && (a <? MinInt64 - b) then (-1, true)
  else (i64 (a + b), false).
Definition safeSub (a b : Z) : Z * bool :=
  if (0 <? b) && (a <? MinInt64 + b) then (-1, true)
  else if (b <? 0) && (MaxInt64 + b <? a) then (-1, true)
  else (i64 (a - b), false).
Definition safeAddClip (a b : Z) : Z :=
  let '(c, overflow) := safeAdd a b in
  if overflow then if b <? 0 then MinInt64 else MaxInt64 else c.
Definition safeSubClip (a b : Z) : Z :=
  let '(c, overflow) := safeSub a b in
  if overflow then if 0 <? b then MinInt64 else MaxInt64 else c.

(** ** The set *)

Record ValidatorSet : Type := mkSet {
  Validators : list Validator; Proposer : option Z; totalVotingPower : Z; validatorsMap : gmap Z Z
}.

Definition with_validators (s : ValidatorSet) (l : list Validator) : ValidatorSet := mkSet l (Proposer s) (totalVotingPower s) (validatorsMap s).
Definition with_total (s : ValidatorSet) (t : Z) : ValidatorSet := mkSet (Validators s) (Proposer s) t (validatorsMap s).
Definition with_proposer (s : ValidatorSet) (p : option Z) : ValidatorSet := mkSet (Validators s) p (totalVotingPower s) (validatorsMap s).

Definition emptySet : ValidatorSet := mkSet [] None 0 ∅.

Definition IsEmpty (s : ValidatorSet) : bool := zlen (Validators s) =? 0.
Definition ValidatorAddresses (s : ValidatorSet) : list Z := map v_Address (Validators s).
Definition Signers (s : ValidatorSet) : list Z := map v_Address (Validators s).
Definition vals_Size (s : ValidatorSet) : Z := zlen (Validators s).

(** [for i, val := range vals { m[val.Address] = i }]. *)
Fixpoint index_map (i : Z) (l : list Validator) (m : gmap Z Z) : gmap Z Z :=
  match l with [] => m | v :: l => index_map (i + 1) l (<[v_Address v := i]> m) end.
Definition UpdateValidatorMap (s : ValidatorSet) : ValidatorSet :=
  mkSet (Validators s) (Proposer s) (totalVotingPower s) (index_map 0 (Validators s) ∅).

Definition vals_Copy (s : ValidatorSet) : ValidatorSet :=
  mkSet (Validators s) (Proposer s) (totalVotingPower s) (index_map 0 (Validators s) ∅).

Definition HasAddress (s : ValidatorSet) (a : Z) : bool :=
  match validatorsMap s !! a with Some _ => true | None => false end.
Definition GetByAddress (s : ValidatorSet) (a : Z) : Res (Z * option Validator) :=
  match validatorsMap s !! a with
  | Some idx => v ← go_index (Validators s) idx; mret (idx, Some v)
  | None => mret (-1, None)
  end.
Definition GetByIndex (s : ValidatorSet) (i : Z) : option (Z * Validator) :=
  if (i <? 0) || (zlen (Validators s) <=? i) then None
  else match Validators s !! Z.to_nat i with Some v => Some (v_Address v, v) | None => None end.

(** ** Total voting power *)

Definition errTotalVotingPowerExceeded : Error := NewError "Total voting power should be guarded to not exceed the maximum".

Fixpoint sum_powers (l : list Validator) (sum : Z) : Z * option Error :=
  match l with
  | [] => (sum, None)
  | v :: l =>
      let sum := safeAddClip sum (VotingPower v) in
      if MaxTotalVotingPower <? sum then (sum, Some errTotalVotingPowerExceeded) else sum_powers l sum
  end.
Definition UpdateTotalVotingPower (s : ValidatorSet) : option Error * ValidatorSet :=
  match sum_powers (Validators s) 0 with
  | (sum, None) => (None, with_total s sum)
  | (_, Some e) => (Some e, s)
  end.
Definition TotalVotingPower (s : ValidatorSet) : Res (Z * ValidatorSet) :=
  if totalVotingPower s =? 0 then
    match UpdateTotalVotingPower s with
    | (Some _, _) => Panic "total voting power exceeded"
    | (None, s) => mret (totalVotingPower s, s)
    end
  else mret (totalVotingPower s, s).

(** ** Priorities *)

(** The one with the higher priority, the smaller address when they are equal; the first
    argument may be nil. *)
Definition v_Cmp (v : option Validator) (other : Validator) : Res Validator :=
  match v with
  | None => mret other
  | Some v =>
      if ProposerPriority other <? ProposerPriority v then mret v
      else if ProposerPriority v <? ProposerPriority other then mret other
      else if v_Address v =? v_Address other then Panic "Cannot compare identical validators"
      else if v_Address v <? v_Address other then mret v
      else mret other
  end.

Fixpoint most_priority (l : list Validator) (res : option Validator) : Res (option Validator) :=
  match l with
  | [] => mret res
  | v :: l => r ← v_Cmp res v; most_priority l (Some r)
  end.
Definition getValWithMostPriority (s : ValidatorSet) : Res (option Validator) := most_priority (Validators s) None.

Fixpoint find_proposer (l : list Validator) (proposer : option Validator) : Res (option Validator) :=
  match l with
  | [] => mret proposer
  | v :: l =>
      match proposer with
      | Some p => if v_Address v =? v_Address p then find_proposer l proposer else r ← v_Cmp proposer v; find_proposer l (Some r)
      | None => r ← v_Cmp None v; find_proposer l (Some r)
      end
  end.
Definition findProposer (s : ValidatorSet) : Res (option Validator) := find_proposer (Validators s) None.

(** The address of the proposer. *)
Definition GetProposer (s : ValidatorSet) : Res (option Z * ValidatorSet) :=
  if zlen (Validators s) =? 0 then mret (None, s)
  else
    s ← (match Proposer s with
         | None => p ← findProposer s; mret (with_proposer s (option_map v_Address p))
         | Some _ => mret s
         end);
    match Proposer s with Some p => mret (Some p, s) | None => Panic "nil pointer dereference" end.

Definition priorities_max (l : list Validator) : Z := fold_left (fun m v => if m <? ProposerPriority v then ProposerPriority v else m) l MinInt64.
Definition priorities_min (l : list Validator) : Z := fold_left (fun m v => if ProposerPriority v <? m then ProposerPriority v else m) l MaxInt64.
Definition computeMaxMinPriorityDiff (s : ValidatorSet) : Res Z :=
  if IsEmpty s then Panic "empty validator set"
  else
    let diff := i64 (priorities_max (Validators s) - priorities_min (Validators s)) in
    mret (if diff <? 0 then i64 (-1 * diff) else diff).

Definition RescalePriorities (diffMax : Z) (s : ValidatorSet) : Res ValidatorSet :=
  if IsEmpty s then Panic "empty validator set"
  else if diffMax <=? 0 then mret s
  else
    diff ← computeMaxMinPriorityDiff s;
    let ratio := i64 (diff + diffMax - 1) ÷ diffMax in
    if diffMax <? diff then
      if ratio =? 0 then Panic "integer divide by zero"
      else mret (with_validators s (map (fun v => with_priority v (i64 (ProposerPriority v ÷ ratio))) (Validators s)))
    else mret s.

(** [sum.Div(sum, big.NewInt(n))] rounds down. *)
Definition computeAvgProposerPriority (s : ValidatorSet) : Res Z :=
  let n := zlen (Validators s) in
  let sum := fold_left (fun a v => a + ProposerPriority v) (Validators s) 0 in
  if n =? 0 then Panic "division by zero"
  else
    let avg := sum / n in
    if (MinInt64 <=? avg) && (avg <=? MaxInt64) then mret avg else Panic "Cannot represent avg ProposerPriority as an int64".

Definition shiftByAvgProposerPriority (s : ValidatorSet) : Res ValidatorSet :=
  if IsEmpty s then Panic "empty validator set"
  else
    avg ← computeAvgProposerPriority s;
    mret (with_validators s (map (fun v => with_priority v (safeSubClip (ProposerPriority v) avg)) (Validators s))).

(** [mostest.ProposerPriority = p] through the pointer into the set. *)
Definition set_priority (a p : Z) (l : list Validator) : list Validator :=
  map (fun v => if v_Address v =? a then with_priority v p else v) l.

Definition incrementProposerPriority (s : ValidatorSet) : Res (option Z * ValidatorSet) :=
  let s := with_validators s (map (fun v => with_priority v (safeAddClip (ProposerPriority v) (VotingPower v))) (Validators s)) in
  mostest ← getValWithMostPriority s;
  '(total, s) ← TotalVotingPower s;
  match mostest with
  | None => Panic "nil pointer dereference"
  | Some m => mret (Some (v_Address m), with_validators s (set_priority (v_Address m) (safeSubClip (ProposerPriority m) total) (Validators s)))
  end.

Fixpoint increment_times (times : nat) (proposer : option Z) (s : ValidatorSet) : Res (option Z * ValidatorSet) :=
  match times with
  | O => mret (proposer, s)
  | S times => '(proposer, s) ← incrementProposerPriority s; increment_times times proposer s
  end.

Definition IncrementProposerPriority (times : Z) (s : ValidatorSet) : Res ValidatorSet :=
  if IsEmpty s then Panic "empty validator set"
  else if times <=? 0 then Panic "Cannot call IncrementProposerPriority with non-positive times"
  else
    '(total, s) ← TotalVotingPower s;
    s ← RescalePriorities (i64 (PriorityWindowSizeFactor * total)) s;
    s ← shiftByAvgProposerPriority s;
    '(proposer, s) ← increment_times (Z.to_nat times) None s;
    mret (with_proposer s proposer).

Definition CopyIncrementProposerPriority (times : Z) (s : ValidatorSet) : Res ValidatorSet :=
  IncrementProposerPriority times (vals_Copy s).

(** ** Changes *)

(** [sort.Sort(ValidatorsByAddress(changes))]. The order of entries with the same address,
    which [sort.Sort] leaves open, only matters for which error reports them. *)
Fixpoint insert_sorted (v : Validator) (l : list Validator) : list Validator :=
  match l with
  | [] => [v]
  | w :: l' => if v_Address v <=? v_Address w then v :: l else w :: insert_sorted v l'
  end.
Definition sort_by_address (l : list Validator) : list Validator := fold_right insert_sorted [] l.

Definition errDuplicateEntry : Error := NewError "duplicate entry".
Definition errNegativePower : Error := NewError "voting power can't be negative".
Definition errPowerTooHigh : Error := NewError "to prevent clipping/ overflow, voting power can't be higher".

Fixpoint split_changes (prev : option Z) (l updates removals : list Validator) : list Validator * list Validator * option Error :=
  match l with
  | [] => (updates, removals, None)
  | v :: l =>
      if match prev with Some a => v_Address v =? a | None => false end then ([], [], Some errDuplicateEntry)
      else if VotingPower v <? 0 then ([], [], Some errNegativePower)
      else if MaxTotalVotingPower <? VotingPower v then ([], [], Some errPowerTooHigh)
      else if VotingPower v =? 0 then split_changes (Some (v_Address v)) l updates (removals ++ [v])
      else split_changes (Some (v_Address v)) l (updates ++ [v]) removals
  end.
Definition processChanges (origChanges : list Validator) : list Validator * list Validator * option Error :=
  split_changes None (sort_by_address origChanges) [] [].

Definition errExceedMax : Error := NewError "failed to add/update validator, total voting power would exceed the max allowed".

Fixpoint verify_updates (updates : list Validator) (s : ValidatorSet) (total numNew : Z) : Res (Z * Z * option Error) :=
  match updates with
  | [] => mret (total, numNew, None)
  | u :: updates =>
      '(_, val) ← GetByAddress s (v_Address u);
      let '(total, numNew) :=
        match val with
        | None => (i64 (total + VotingPower u), numNew + 1)
        | Some v => (i64 (total + i64 (VotingPower u - VotingPower v)), numNew)
        end in
      if MaxTotalVotingPower <? total then mret (0, 0, Some errExceedMax) else verify_updates updates s total numNew
  end.
Definition verifyUpdates (updates : list Validator) (s : ValidatorSet) : Res (Z * Z * option Error * ValidatorSet) :=
  '(total, s) ← TotalVotingPower s;
  '(total, numNew, err) ← verify_updates updates s total 0;
  mret (total, numNew, err, s).

Fixpoint computeNewPriorities (updates : list Validator) (s : ValidatorSet) (updatedTotalVotingPower : Z) : Res (list Validator) :=
  match updates with
  | [] => mret []
  | u :: updates =>
      '(_, val) ← GetByAddress s (v_Address u);
      let p := match val with
               | None => i64 (- i64 (updatedTotalVotingPower + Z.shiftr updatedTotalVotingPower 3))
               | Some v => ProposerPriority v
               end in
      rest ← computeNewPriorities updates s updatedTotalVotingPower;
      mret (with_priority u p :: rest)
  end.

(** The merge of two sorted lists; an update replaces the validator it is for. *)
Fixpoint merge_updates (fuel : nat) (existing updates : list Validator) : list Validator :=
  match fuel with
  | O => []
  | S fuel =>
      match existing, updates with
      | e :: existing', u :: updates' =>
          if v_Address e <? v_Address u then e :: merge_updates fuel existing' updates
          else if v_Address e =? v_Address u then u :: merge_updates fuel existing' updates'
          else u :: merge_updates fuel existing updates'
      | _, _ => existing ++ updates
      end
  end.
Definition applyUpdates (updates : list Validator) (s : ValidatorSet) : ValidatorSet :=
  with_validators s (merge_updates (S (length (Validators s) + length updates)) (Validators s) updates).

Definition errNotFound : Error := NewError "failed to find validator to remove".

Fixpoint verify_removals (deletes : list Validator) (s : ValidatorSet) : Res (option Error) :=
  match deletes with
  | [] => mret None
  | d :: deletes =>
      '(_, val) ← GetByAddress s (v_Address d);
      match val with None => mret (Some errNotFound) | Some _ => verify_removals deletes s end
  end.
Definition verifyRemovals (deletes : list Validator) (s : ValidatorSet) : Res (option Error) :=
  err ← verify_removals deletes s;
  match err with
  | Some e => mret (Some e)
  | None => if zlen (Validators s) <? zlen deletes then Panic "more deletes than validators" else mret None
  end.

(** [existing[0]] of an empty list, and a kept validator with no room left in [merged],
    are index panics. *)
Fixpoint remove_loop (existing deletes : list Validator) (room : Z) : Res (list Validator) :=
  match deletes with
  | [] => if zlen existing <=? room then mret existing else Panic "index out of range"
  | d :: deletes' =>
      match existing with
      | [] => Panic "index out of range"
      | e :: existing' =>
          if v_Address e =? v_Address d then remove_loop existing' deletes' room
          else if room <=? 0 then Panic "index out of range"
          else l ← remove_loop existing' deletes (room - 1); mret (e :: l)
      end
  end.
Definition applyRemovals (deletes : list Validator) (s : ValidatorSet) : Res ValidatorSet :=
  let room := zlen (Validators s) - zlen deletes in
  if room <? 0 then Panic "makeslice: len out of range"
  else l ← remove_loop (Validators s) deletes room; mret (with_validators s l).

Definition updateValidators (updates deletes : list Validator) (s : ValidatorSet) : Res ValidatorSet :=
  s ← applyRemovals deletes (applyUpdates updates s);
  mret (UpdateValidatorMap s).

Definition errZeroPower : Error := NewError "cannot process validators with voting power 0".
Definition errEmptySet : Error := NewError "applying the validator changes would result in empty set".

Definition updateWithChangeSet (changes : list Validator) (allowDeletes : bool) (s : ValidatorSet) : Res (option Error * ValidatorSet) :=
  if zlen changes <? 1 then mret (None, s)
  else
    match processChanges changes with
    | (_, _, Some e) => mret (Some e, s)
    | (updates, deletes, None) =>
        if negb allowDeletes && negb (zlen deletes =? 0) then mret (Some errZeroPower, s)
        else
          err ← verifyRemovals deletes s;
          match err with
          | Some e => mret (Some e, s)
          | None =>
              '(updatedTotalVotingPower, numNewValidators, err, s) ← verifyUpdates updates s;
              match err with
              | Some e => mret (Some e, s)
              | None =>
                  if (numNewValidators =? 0) && (zlen (Validators s) =? zlen deletes) then mret (Some errEmptySet, s)
                  else
                    updates ← computeNewPriorities updates s updatedTotalVotingPower;
                    s ← updateValidators updates deletes s;
                    match UpdateTotalVotingPower s with
                    | (Some e, s) => mret (Some e, s)
                    | (None, s) =>
                        '(total, s) ← TotalVotingPower s;
                        s ← RescalePriorities (i64 (PriorityWindowSizeFactor * total)) s;
                        s ← shiftByAvgProposerPriority s;
                        mret (None, s)
                    end
              end
          end
    end.

Definition UpdateWithChangeSet (changes : list Validator) (s : ValidatorSet) : Res (option Error * ValidatorSet) :=
  updateWithChangeSet changes true s.

Definition NewValidatorSet (valz : list Validator) : Res ValidatorSet :=
  '(err, s) ← updateWithChangeSet valz false emptySet;
  match err with
  | Some _ => Panic "cannot create validator set"
  | None => if 0 <? zlen valz then IncrementProposerPriority 1 s else mret s
  end.

(** ** Replacing the powers of a set *)

Fixpoint validatorContains (a : list Validator) (x : Validator) : option Validator :=
  match a with
  | [] => None
  | n :: a => if v_Address n =? v_Address x then Some n else validatorContains a x
  end.

Definition new_power (newVals : list Validator) (ov : Validator) : Validator :=
  match validatorContains newVals ov with Some f => with_power ov (VotingPower f) | None => with_power ov 0 end.

Fixpoint add_missing (newVals changes : list Validator) : list Validator :=
  match newVals with
  | [] => changes
  | nv :: newVals =>
      add_missing newVals (match validatorContains changes nv with Some _ => changes | None => changes ++ [nv] end)
  end.

(** The old validators are changed in place, in the set itself, before it is updated with
    them; an error is only logged. *)
Definition GetUpdatedValidatorSet (old : ValidatorSet) (newVals : list Validator) : Res ValidatorSet :=
  let v := with_validators old (map (new_power newVals) (Validators old)) in
  let changes := add_missing newVals (Validators v) in
  '(_, v) ← UpdateWithChangeSet changes v;
  mret v.

(** ** Succession *)

Definition errUnauthorizedProposer : Error := NewError "Proposer is not a part of the producer set".
Definition errUnauthorizedSigner : Error := NewError "Signer is not a part of the producer set".

Definition GetSignerSuccessionNumber (signer : Z) (s : ValidatorSet) : Res (Z * option Error * ValidatorSet) :=
  '(proposer, s) ← GetProposer s;
  match proposer with
  | None => mret (-1, Some errUnauthorizedProposer, s)
  | Some p =>
      '(proposerIndex, _) ← GetByAddress s p;
      if proposerIndex <? 0 then mret (-1, Some errUnauthorizedProposer, s)
      else
        '(signerIndex, _) ← GetByAddress s signer;
        if signerIndex <? 0 then mret (-1, Some errUnauthorizedSigner, s)
        else
          let indexDiff := signerIndex - proposerIndex in
          mret (if indexDiff <? 0 then indexDiff + zlen (Validators s) else indexDiff, None, s)
  end.

Definition Difficulty (signer : Z) (s : ValidatorSet) : Res (Z * option Error * ValidatorSet) :=
  '(indexDiff, err, s) ← GetSignerSuccessionNumber signer s;
  match err with
  | Some e => mret (0, Some (ErrorfW e "ValidatorSet.Difficulty"), s)
  | None => mret (u64 (zlen (Validators s) - indexDiff), None, s)
  end.

Definition SafeDifficulty (signer : Z) (s : ValidatorSet) : Res (Z * ValidatorSet) :=
  if signer =? 0 then mret (1, s)
  else
    '(d, err, s) ← Difficulty signer s;
    match err with None => mret (d, s) | Some _ => mret (0, s) end.
