(* ===== verification/ValidatorSetSpec.v ===== *)
(** * The validator set: rotation and updates

    For [ValidatorSet]: the rotation of the proposer never saturates, gives every validator
    its share of the rounds up to a constant and so never starves one; an update of a set
    either fails and changes nothing or has exactly the effect of the changes on the powers;
    succession numbers order the signers from the proposer on. *)

From Stdlib Require Import Sorting.Sorted.
From S2P Require Import Prelude Errors Common RlpWriter ValidatorSet MultiEncSeqSpec.

(** ** Sums *)

Definition powers (l : list Validator) : Z := fold_right (fun v a => VotingPower v + a) 0 l.
Definition priorities (l : list Validator) : Z := fold_right (fun v a => ProposerPriority v + a) 0 l.

Definition int64 (z : Z) : Prop := MinInt64 <= z <= MaxInt64.

Lemma i64_int64 z : int64 z -> i64 z = z.
Proof. intros Hz. apply i64_int. unfold int64, MinInt64, MaxInt64 in Hz. lia. Qed.

Lemma safeAddClip_exact a b : int64 (a + b) -> safeAddClip a b = a + b.
Proof.
  intros H. unfold safeAddClip, safeAdd. pose proof (i64_int64 _ H) as E. unfold int64 in H.
  destruct (Z.ltb_spec 0 b), (Z.ltb_spec (MaxInt64 - b) a), (Z.ltb_spec b 0), (Z.ltb_spec a (MinInt64 - b)); cbn; lia.
Qed.
Lemma safeSubClip_exact a b : int64 (a - b) -> safeSubClip a b = a - b.
Proof.
  intros H. unfold safeSubClip, safeSub. pose proof (i64_int64 _ H) as E. unfold int64 in H.
  destruct (Z.ltb_spec 0 b), (Z.ltb_spec a (MinInt64 + b)), (Z.ltb_spec b 0), (Z.ltb_spec (MaxInt64 + b) a); cbn; lia.
Qed.

Lemma priorities_fold l : forall a, fold_left (fun a v => a + ProposerPriority v) l a = a + priorities l.
Proof. induction l as [|v l IH]; intros a; cbn [fold_left priorities fold_right]; [lia|]. rewrite IH. unfold priorities. lia. Qed.

Lemma max_fold l : forall m, let r := fold_left (fun m v => if m <? ProposerPriority v then ProposerPriority v else m) l m in
  m <= r /\ Forall (fun v => ProposerPriority v <= r) l /\ (r = m \/ exists v, v ∈ l /\ ProposerPriority v = r).
Proof.
  induction l as [|v l IH]; intros m; cbn [fold_left]; [split; [lia|]; split; [constructor|auto]|].
  destruct (IH (if m <? ProposerPriority v then ProposerPriority v else m)) as (H1 & H2 & H3). cbn zeta in *. set (r := fold_left _ l _) in *.
  destruct (Z.ltb_spec m (ProposerPriority v)); (split; [lia|]; split; [constructor; [lia|exact H2]|]);
    (destruct H3 as [H3|(w & Hw & E)]; [|right; exists w; split; [by constructor|exact E]]); [right; exists v; split; [constructor|auto]|auto].
Qed.
Lemma min_fold l : forall m, let r := fold_left (fun m v => if ProposerPriority v <? m then ProposerPriority v else m) l m in
  r <= m /\ Forall (fun v => r <= ProposerPriority v) l /\ (r = m \/ exists v, v ∈ l /\ ProposerPriority v = r).
Proof.
  induction l as [|v l IH]; intros m; cbn [fold_left]; [split; [lia|]; split; [constructor|auto]|].
  destruct (IH (if ProposerPriority v <? m then ProposerPriority v else m)) as (H1 & H2 & H3). cbn zeta in *. set (r := fold_left _ l _) in *.
  destruct (Z.ltb_spec (ProposerPriority v) m); (split; [lia|]; split; [constructor; [lia|exact H2]|]);
    (destruct H3 as [H3|(w & Hw & E)]; [|right; exists w; split; [by constructor|exact E]]); [right; exists v; split; [constructor|auto]|auto].
Qed.

(** ** Well-formed sets *)

(** The bound on priorities that keeps every computation with them within 64 bits. *)
Definition prio_bound : Z := 2 ^ 61.

Definition in_order (l : list Validator) : Prop := StronglySorted Z.lt (map v_Address l).

Record wf_list (l : list Validator) : Prop := mkWfList {
  wl_order : in_order l;
  wl_powers : Forall (fun v => 0 < VotingPower v) l;
  wl_total : powers l <= MaxTotalVotingPower;
  wl_prio : Forall (fun v => - prio_bound <= ProposerPriority v <= prio_bound) l
}.
Record wf (s : ValidatorSet) : Prop := mkWf {
  wf_vals : wf_list (Validators s);
  wf_cached : totalVotingPower s = powers (Validators s);
  wf_map : validatorsMap s = index_map 0 (Validators s) ∅
}.

Lemma powers_nonneg l : Forall (fun v => 0 < VotingPower v) l -> zlen l <= powers l.
Proof. induction 1 as [|v l Hv _ IH]; [reflexivity|]. rewrite zlen_cons. cbn [powers fold_right]. unfold powers in IH. lia. Qed.

Lemma power_le l v : Forall (fun v => 0 < VotingPower v) l -> v ∈ l -> VotingPower v <= powers l.
Proof.
  induction 1 as [|w l Hw Hl IH]; intros Hv; [by apply not_elem_of_nil in Hv|]. pose proof (powers_nonneg l Hl). pose proof (zlen_nonneg l).
  apply elem_of_cons in Hv as [->|Hv]; cbn [powers fold_right]; unfold powers in *; [lia|]. specialize (IH Hv). lia.
Qed.

Lemma sum_powers_exact l : forall a, 0 <= a -> Forall (fun v => 0 < VotingPower v) l -> a + powers l <= MaxTotalVotingPower -> sum_powers l a = (a + powers l, None).
Proof.
  induction l as [|v l IH]; intros a Ha Hp Ht; cbn [sum_powers powers fold_right] in *; [by rewrite Z.add_0_r|]. apply Forall_cons in Hp as [Hv Hl].
  fold (powers l) in *. pose proof (powers_nonneg l Hl). pose proof (zlen_nonneg l).
  assert (MaxTotalVotingPower < MaxInt64) by (vm_compute; reflexivity). rewrite safeAddClip_exact by (unfold int64, MinInt64; lia).
  destruct (Z.ltb_spec MaxTotalVotingPower (a + VotingPower v)); [lia|]. rewrite IH by (assumption || lia). f_equal. lia.
Qed.

Lemma TotalVotingPower_exact s : wf_list (Validators s) -> totalVotingPower s = powers (Validators s) -> TotalVotingPower s = Val (powers (Validators s), s).
Proof.
  intros H E. unfold TotalVotingPower, UpdateTotalVotingPower. destruct H as [_ H2 H3 _]. rewrite sum_powers_exact by (assumption || lia).
  destruct (Z.eqb_spec (totalVotingPower s) 0); [|by rewrite E]. cbn. rewrite Z.add_0_l, <- E. by destruct s.
Qed.

(** ** Finding a validator *)

Fixpoint find (a : Z) (l : list Validator) : option (Z * Validator) :=
  match l with
  | [] => None
  | v :: l => if v_Address v =? a then Some (0, v) else match find a l with Some (i, w) => Some (i + 1, w) | None => None end
  end.

Lemma find_spec a l i v : find a l = Some (i, v) -> 0 <= i < zlen l /\ l !! Z.to_nat i = Some v /\ v_Address v = a.
Proof.
  revert i v. induction l as [|w l IH]; intros i v E; [discriminate|]. cbn [find] in E. rewrite zlen_cons. pose proof (zlen_nonneg l).
  destruct (Z.eqb_spec (v_Address w) a); [injection E as <- <-; split; [lia|auto]|]. destruct (find a l) as [[j u]|]; [|discriminate]. injection E as <- <-.
  destruct (IH j u eq_refl) as (H1 & H2 & H3). split; [lia|]. split; [|exact H3]. by replace (Z.to_nat (j + 1)) with (S (Z.to_nat j)) by lia.
Qed.

Lemma find_none a l : find a l = None <-> a ∉ map v_Address l.
Proof.
  induction l as [|w l IH]; cbn [find map]; [split; [intros _; apply not_elem_of_nil|reflexivity]|]. rewrite not_elem_of_cons.
  destruct (Z.eqb_spec (v_Address w) a); [split; [discriminate|intros [? ?]; congruence]|]. rewrite <- IH. destruct (find a l) as [[? ?]|]; split; try discriminate; [intros [_ ?]; discriminate|intros _; split; [congruence|reflexivity]|reflexivity].
Qed.

Lemma in_order_nodup l : in_order l -> NoDup (map v_Address l).
Proof.
  unfold in_order. induction (map v_Address l) as [|a l' IH]; intros H; [constructor|]. apply StronglySorted_inv in H as [H1 H2]. constructor; [|auto].
  intros Hin. rewrite Forall_forall in H2. specialize (H2 a Hin). lia.
Qed.

Lemma index_map_exact a l : forall i m, NoDup (map v_Address l) -> index_map i l m !! a = match find a l with Some (j, _) => Some (i + j) | None => m !! a end.
Proof.
  induction l as [|v l IH]; intros i m Hd; cbn [index_map find map] in *; [reflexivity|]. apply NoDup_cons in Hd as [Hn Hd]. rewrite IH by exact Hd.
  destruct (Z.eqb_spec (v_Address v) a) as [<-|Hne].
  - apply find_none in Hn. rewrite Hn, lookup_insert_eq, Z.add_0_r. reflexivity.
  - destruct (find a l) as [[j w]|]; [f_equal; lia|]. by rewrite lookup_insert_ne.
Qed.

Lemma GetByAddress_exact s a : in_order (Validators s) -> validatorsMap s = index_map 0 (Validators s) ∅ ->
  GetByAddress s a = Val (match find a (Validators s) with Some (i, v) => (i, Some v) | None => (-1, None) end).
Proof.
  intros Ho Em. unfold GetByAddress. rewrite Em, index_map_exact by by apply in_order_nodup. destruct (find a (Validators s)) as [[i v]|] eqn:E; [|by rewrite lookup_empty].
  destruct (find_spec _ _ _ _ E) as (H1 & H2 & _). rewrite Z.add_0_l. destruct (go_index_val (Validators s) i H1) as (w & Ew & Hw). rewrite Ew. rewrite H2 in Hw. injection Hw as <-. reflexivity.
Qed.

(** ** Rescaling and centring *)

Definition reprio (f : Validator -> Z) (l : list Validator) : list Validator := map (fun v => with_priority v (f v)) l.

Lemma reprio_addresses f l : map v_Address (reprio f l) = map v_Address l.
Proof. unfold reprio. by rewrite map_map. Qed.
Lemma reprio_powers f l : powers (reprio f l) = powers l.
Proof. induction l as [|v l IH]; [reflexivity|]. unfold powers in *. cbn [reprio map fold_right VotingPower with_priority]. fold (reprio f l). by rewrite IH. Qed.
Lemma reprio_zlen f l : zlen (reprio f l) = zlen l.
Proof. unfold reprio, zlen. by rewrite length_map. Qed.
Lemma reprio_Forall f l (P : Validator -> Prop) : Forall P (reprio f l) <-> Forall (fun v => P (with_priority v (f v))) l.
Proof. unfold reprio. apply Forall_map. Qed.

Lemma reprio_wf f l : wf_list l -> Forall (fun v => - prio_bound <= f v <= prio_bound) l -> wf_list (reprio f l).
Proof.
  intros [H1 H2 H3 H4] Hf. split.
  - unfold in_order. by rewrite reprio_addresses.
  - apply reprio_Forall. exact H2.
  - by rewrite reprio_powers.
  - apply reprio_Forall. exact Hf.
Qed.

(** The same validators, each with a priority of its own. *)
Definition spread (l : list Validator) (d : Z) : Prop := forall v w, v ∈ l -> w ∈ l -> ProposerPriority v - ProposerPriority w <= d.

Lemma spread_reprio f l d : (forall v w, v ∈ l -> w ∈ l -> f v - f w <= d) -> spread (reprio f l) d.
Proof.
  intros H v w Hv Hw. unfold reprio in *. apply list_elem_of_fmap in Hv as (v0 & -> & Hv), Hw as (w0 & -> & Hw). cbn. by apply H.
Qed.

Lemma extremes l : l <> [] -> Forall (fun v => - prio_bound <= ProposerPriority v <= prio_bound) l ->
  (exists v w, v ∈ l /\ w ∈ l /\ priorities_max l = ProposerPriority v /\ priorities_min l = ProposerPriority w) /\
  Forall (fun v => priorities_min l <= ProposerPriority v <= priorities_max l) l.
Proof.
  intros Hne Hb. destruct (max_fold l MinInt64) as (A1 & A2 & A3), (min_fold l MaxInt64) as (B1 & B2 & B3).
  fold (priorities_max l) in *. fold (priorities_min l) in *. cbn zeta in *. split.
  - destruct l as [|x l']; [done|]. set (l := x :: l') in *. assert (Hx : x ∈ l) by constructor. rewrite Forall_forall in Hb, A2, B2. pose proof (Hb x Hx). pose proof (A2 x Hx). pose proof (B2 x Hx).
    unfold prio_bound, MinInt64, MaxInt64 in *. destruct A3 as [A3|(v & Hv & Ev)]; [lia|]. destruct B3 as [B3|(w & Hw & Ew)]; [lia|]. exists v, w. auto.
  - apply Forall_and. split; assumption.
Qed.

Lemma quot_spread a b r d : 0 < r -> a - b <= r * d -> b <= a -> a ÷ r - b ÷ r <= d.
Proof.
  intros Hr Hd Hab. assert (Hdiv : forall x, 0 <= x -> x ÷ r = x / r) by (intros; apply Z.quot_div_nonneg; lia).
  assert (Hneg : forall x, x <= 0 -> x ÷ r = - ((- x) / r)) by (intros x Hx; rewrite <- (Z.opp_involutive x) at 1; rewrite Z.quot_opp_l by lia; rewrite Hdiv by lia; reflexivity).
  destruct (Z.le_gt_cases 0 b), (Z.le_gt_cases 0 a); try lia.
  - rewrite !Hdiv by lia. Z.div_mod_to_equations. nia.
  - rewrite (Hdiv a), (Hneg b) by lia. Z.div_mod_to_equations. nia.
  - rewrite !Hneg by lia. Z.div_mod_to_equations. nia.
Qed.

Lemma quot_small p r b : 0 < r -> - b <= p <= b -> - b <= p ÷ r <= b.
Proof.
  intros Hr Hp. assert (Z.abs (p ÷ r) <= Z.abs p).
  { rewrite <- Z.quot_abs by lia. rewrite (Z.abs_eq r) by lia. rewrite Z.quot_div_nonneg by lia. apply Z.div_le_upper_bound; nia. }
  lia.
Qed.

Lemma is_empty s : Validators s <> [] -> IsEmpty s = false.
Proof. intros H. unfold IsEmpty. destruct (Validators s) as [|v l]; [done|]. rewrite zlen_cons. pose proof (zlen_nonneg l). apply Z.eqb_neq. lia. Qed.

Lemma Rescale_exact s D : Validators s <> [] -> Forall (fun v => - prio_bound <= ProposerPriority v <= prio_bound) (Validators s) -> 0 < D <= 2 * MaxTotalVotingPower ->
  exists f, RescalePriorities D s = Val (with_validators s (reprio f (Validators s))) /\
    spread (reprio f (Validators s)) D /\ Forall (fun v => - prio_bound <= f v <= prio_bound) (Validators s).
Proof.
  intros Hne Hb HD. unfold RescalePriorities. rewrite is_empty by exact Hne. destruct (Z.leb_spec D 0); [lia|]. unfold computeMaxMinPriorityDiff. rewrite is_empty by exact Hne.
  destruct (extremes _ Hne Hb) as ((v1 & v2 & Hv1 & Hv2 & E1 & E2) & Hall). rewrite Forall_forall in Hall. pose proof (Hall v1 Hv1) as B1.
  set (mx := priorities_max (Validators s)) in *. set (mn := priorities_min (Validators s)) in *. pose proof Hb as Hb'. rewrite Forall_forall in Hb'. pose proof (Hb' v1 Hv1). pose proof (Hb' v2 Hv2).
  assert (HM : MaxTotalVotingPower = 1152921504606846975) by reflexivity. unfold prio_bound in *.
  rewrite (i64_int (mx - mn)) by lia. destruct (Z.ltb_spec (mx - mn) 0); [lia|]. cbn [mbind Res_bind mret Res_ret]. rewrite i64_int by lia.
  assert (Hspread : forall v w, v ∈ Validators s -> w ∈ Validators s -> ProposerPriority v - ProposerPriority w <= mx - mn) by (intros v w Hv Hw; pose proof (Hall v Hv); pose proof (Hall w Hw); lia).
  destruct (Z.ltb_spec D (mx - mn)).
  - rewrite Z.quot_div_nonneg by lia. set (r := (mx - mn + D - 1) / D). assert (Hr : 0 < r /\ mx - mn <= r * D) by (unfold r; Z.div_mod_to_equations; nia).
    destruct (Z.eqb_spec r 0); [lia|]. exists (fun v => i64 (ProposerPriority v ÷ r)). split; [reflexivity|].
    assert (Hf : forall v, v ∈ Validators s -> i64 (ProposerPriority v ÷ r) = ProposerPriority v ÷ r /\ - 2 ^ 61 <= ProposerPriority v ÷ r <= 2 ^ 61).
    { intros v Hv. pose proof (quot_small (ProposerPriority v) r (2 ^ 61) ltac:(lia) (Hb' v Hv)). split; [apply i64_int; lia|assumption]. }
    split; [|apply Forall_forall; intros v Hv; destruct (Hf v Hv) as [-> ?]; assumption]. apply spread_reprio. intros v w Hv Hw. destruct (Hf v Hv) as [-> _], (Hf w Hw) as [-> _].
    destruct (Z.le_gt_cases (ProposerPriority w) (ProposerPriority v)) as [Hle|Hgt]; [apply quot_spread; [lia|pose proof (Hspread v w Hv Hw); nia|exact Hle]|].
    pose proof (Z.quot_le_mono (ProposerPriority v) (ProposerPriority w) r ltac:(lia) ltac:(lia)). lia.
  - exists ProposerPriority. assert (E : reprio ProposerPriority (Validators s) = Validators s) by (unfold reprio; rewrite <- map_id; apply map_ext; by intros []). rewrite E. split; [by destruct s|].
    split; [intros v w Hv Hw; pose proof (Hspread v w Hv Hw); lia|exact Hb].
Qed.

Lemma priorities_between l a b : Forall (fun v => a <= ProposerPriority v <= b) l -> a * zlen l <= priorities l <= b * zlen l.
Proof. induction 1 as [|v l Hv _ IH]; [unfold zlen, priorities; cbn [length fold_right]; lia|]. rewrite zlen_cons. cbn [priorities fold_right]. fold (priorities l). lia. Qed.

Lemma priorities_shift l c : priorities (reprio (fun v => ProposerPriority v - c) l) = priorities l - c * zlen l.
Proof. induction l as [|v l IH]; [unfold zlen, priorities; cbn [reprio map length fold_right]; lia|]. rewrite zlen_cons. unfold priorities in *. cbn [reprio map fold_right ProposerPriority with_priority]. fold (reprio (fun v => ProposerPriority v - c) l). rewrite IH. lia. Qed.

Lemma reprio_ext f g l : (forall v, v ∈ l -> f v = g v) -> reprio f l = reprio g l.
Proof. intros H. unfold reprio. apply map_ext_in. intros v Hv. by rewrite H by by apply list_elem_of_In. Qed.

(** Centred: the priorities add up to less than one each, and lie within the window. *)
Record centred (T : Z) (l : list Validator) : Prop := mkCentred {
  ce_sum : 0 <= priorities l < zlen l;
  ce_low : Forall (fun v => - (2 * T) <= ProposerPriority v) l
}.

Lemma Shift_exact s D : Validators s <> [] -> Forall (fun v => - prio_bound <= ProposerPriority v <= prio_bound) (Validators s) -> spread (Validators s) D ->
  exists f, shiftByAvgProposerPriority s = Val (with_validators s (reprio f (Validators s))) /\
    0 <= priorities (reprio f (Validators s)) < zlen (Validators s) /\ Forall (fun v => - D <= f v <= D) (Validators s).
Proof.
  intros Hne Hb Hs. unfold shiftByAvgProposerPriority, computeAvgProposerPriority. rewrite is_empty, priorities_fold, Z.add_0_l by exact Hne. set (l := Validators s) in *.
  assert (Hn : 0 < zlen l) by (destruct l as [|x l']; [done|]; rewrite zlen_cons; pose proof (zlen_nonneg l'); lia).
  destruct (Z.eqb_spec (zlen l) 0); [lia|]. set (avg := priorities l / zlen l).
  destruct (extremes l Hne Hb) as ((v1 & v2 & Hv1 & Hv2 & E1 & E2) & Hall). pose proof (priorities_between l _ _ Hall) as Hsum. set (mx := priorities_max l) in *. set (mn := priorities_min l) in *.
  rewrite Forall_forall in Hb, Hall. pose proof (Hb v1 Hv1). pose proof (Hb v2 Hv2). unfold prio_bound in *.
  assert (Havg : mn <= avg <= mx) by (unfold avg; split; [apply Z.div_le_lower_bound; lia|apply Z.div_le_upper_bound; lia]).
  assert (HI : (MinInt64 <=? avg) && (avg <=? MaxInt64) = true) by (unfold MinInt64, MaxInt64; destruct (Z.leb_spec (-9223372036854775808) avg), (Z.leb_spec avg 9223372036854775807); cbn; lia).
  rewrite HI. cbn [mbind Res_bind mret Res_ret]. exists (fun v => safeSubClip (ProposerPriority v) avg). split; [reflexivity|].
  assert (Hf : forall v, v ∈ l -> safeSubClip (ProposerPriority v) avg = ProposerPriority v - avg).
  { intros v Hv. apply safeSubClip_exact. pose proof (Hb v Hv). unfold int64, MinInt64, MaxInt64. lia. }
  rewrite (reprio_ext _ (fun v => ProposerPriority v - avg)) by exact Hf. rewrite priorities_shift. split.
  - unfold avg. pose proof (Z.div_mod (priorities l) (zlen l) ltac:(lia)). pose proof (Z.mod_pos_bound (priorities l) (zlen l) Hn). nia.
  - apply Forall_forall. intros v Hv. rewrite Hf by exact Hv. pose proof (Hall v Hv). pose proof (Hs v1 v2 Hv1 Hv2). lia.
Qed.

(** Scaling and centring as [IncrementProposerPriority] and the updates do it. *)
Definition normalise (s : ValidatorSet) : Res ValidatorSet :=
  '(total, s) ← TotalVotingPower s;
  s ← RescalePriorities (i64 (PriorityWindowSizeFactor * total)) s;
  shiftByAvgProposerPriority s.

Lemma MaxTotal : MaxTotalVotingPower = 1152921504606846975.
Proof. reflexivity. Qed.

Lemma normalise_exact s : Validators s <> [] -> wf_list (Validators s) -> totalVotingPower s = powers (Validators s) ->
  exists f, normalise s = Val (with_validators s (reprio f (Validators s))) /\ wf_list (reprio f (Validators s)) /\
    centred (powers (Validators s)) (reprio f (Validators s)) /\ Forall (fun v => f v <= 2 * powers (Validators s)) (Validators s).
Proof.
  intros Hne Hw Et. unfold normalise. rewrite TotalVotingPower_exact by assumption. cbn [mbind Res_bind]. pose proof Hw as [W1 W2 W3 W4]. pose proof (powers_nonneg _ W2) as Hp. pose proof MaxTotal as HM.
  assert (0 < powers (Validators s)) by (destruct (Validators s) as [|x l]; [done|]; rewrite zlen_cons in Hp; pose proof (zlen_nonneg l); lia).
  unfold PriorityWindowSizeFactor. rewrite i64_int by lia. destruct (Rescale_exact s (2 * powers (Validators s)) Hne W4 ltac:(lia)) as (f & -> & Hs & Hf). cbn [mbind Res_bind].
  set (l := Validators s) in *. set (s1 := with_validators s (reprio f l)). assert (Hne1 : Validators s1 <> []) by (unfold s1; cbn; unfold reprio; destruct l; [done|discriminate]).
  destruct (Shift_exact s1 (2 * powers l) Hne1 ltac:(apply reprio_Forall; exact Hf) Hs) as (g & -> & Hsum & Hg). cbn [Validators s1 with_validators] in *.
  assert (Er : reprio g (reprio f l) = reprio (fun v => g (with_priority v (f v))) l) by (unfold reprio; rewrite map_map; reflexivity). rewrite Er, reprio_zlen in *. apply reprio_Forall in Hg.
  exists (fun v => g (with_priority v (f v))). split; [reflexivity|]. split; [apply reprio_wf; [exact Hw|]; eapply Forall_impl; [exact Hg|]; cbn; unfold prio_bound; lia|].
  split; [|eapply Forall_impl; [exact Hg|]; cbn; lia]. split; [by rewrite reprio_zlen|]. apply reprio_Forall. eapply Forall_impl; [exact Hg|]. cbn. lia.
Qed.

(** ** One round *)

Definition leads (m v : Validator) : Prop :=
  ProposerPriority v < ProposerPriority m \/ (ProposerPriority v = ProposerPriority m /\ v_Address m <= v_Address v).

Lemma v_Cmp_exact r v : v_Address r <> v_Address v -> exists m, v_Cmp (Some r) v = Val m /\ (m = r \/ m = v) /\ leads m r /\ leads m v.
Proof.
  intros Hne. unfold v_Cmp, leads. destruct (Z.ltb_spec (ProposerPriority v) (ProposerPriority r)); [exists r; split; [done|]; split; [auto|]; lia|].
  destruct (Z.ltb_spec (ProposerPriority r) (ProposerPriority v)); [exists v; split; [done|]; split; [auto|]; lia|].
  destruct (Z.eqb_spec (v_Address r) (v_Address v)); [done|]. destruct (Z.ltb_spec (v_Address r) (v_Address v)); [exists r|exists v]; (split; [done|]; split; [auto|]; lia).
Qed.

Lemma leads_trans a b c : leads a b -> leads b c -> leads a c.
Proof. unfold leads. lia. Qed.

Lemma most_priority_exact l : forall r, NoDup (v_Address r :: map v_Address l) ->
  exists m, most_priority l (Some r) = Val (Some m) /\ m ∈ r :: l /\ Forall (leads m) (r :: l).
Proof.
  induction l as [|v l IH]; intros r Hd; cbn [most_priority map] in *.
  { exists r. split; [done|]. split; [constructor|]. constructor; [right; lia|constructor]. }
  apply NoDup_cons in Hd as [Hr Hd]. pose proof Hd as Hd'. apply NoDup_cons in Hd' as [Hv Hl]. apply not_elem_of_cons in Hr as [Hrv Hrl].
  destruct (v_Cmp_exact r v Hrv) as (m & -> & Hm & L1 & L2). cbn [mbind Res_bind]. destruct (IH m) as (m' & -> & Hin & Hall).
  { constructor; [|exact Hl]. destruct Hm as [-> | ->]; assumption. }
  exists m'. split; [done|]. apply Forall_cons in Hall as [Hmm Hall]. split.
  - apply elem_of_cons in Hin as [->|Hin]; [destruct Hm as [-> | ->]; [constructor|do 2 constructor]|do 2 constructor; exact Hin].
  - constructor; [by eapply leads_trans|]. constructor; [by eapply leads_trans|exact Hall].
Qed.

Lemma getVal_exact s : in_order (Validators s) -> Validators s <> [] ->
  exists m, getValWithMostPriority s = Val (Some m) /\ m ∈ Validators s /\ Forall (leads m) (Validators s).
Proof.
  intros Ho Hne. unfold getValWithMostPriority. apply in_order_nodup in Ho. destruct (Validators s) as [|v l]; [done|]. cbn [most_priority v_Cmp mbind Res_bind mret Res_ret]. by apply most_priority_exact.
Qed.

(** The priorities after a round in which [a] proposes. *)
Definition step (a T : Z) (l : list Validator) : list Validator :=
  reprio (fun v => ProposerPriority v + VotingPower v - (if v_Address v =? a then T else 0)) l.

Lemma priorities_add l f : priorities (reprio (fun v => ProposerPriority v + f v) l) = priorities l + fold_right (fun v s => f v + s) 0 l.
Proof. induction l as [|v l IH]; [reflexivity|]. unfold priorities in *. cbn [reprio map fold_right ProposerPriority with_priority]. fold (reprio (fun v => ProposerPriority v + f v) l). rewrite IH. lia. Qed.

Lemma charged_once a T l : NoDup (map v_Address l) -> a ∈ map v_Address l -> fold_right (fun v s => VotingPower v - (if v_Address v =? a then T else 0) + s) 0 l = powers l - T.
Proof.
  assert (Hnone : forall l, a ∉ map v_Address l -> fold_right (fun v s => VotingPower v - (if v_Address v =? a then T else 0) + s) 0 l = powers l).
  { clear l. induction l as [|v l IH]; intros Hn; [reflexivity|]. cbn [map] in Hn. apply not_elem_of_cons in Hn as [Hv Hn]. unfold powers in *. cbn [fold_right]. rewrite IH by exact Hn. destruct (Z.eqb_spec (v_Address v) a); [congruence|lia]. }
  induction l as [|v l IH]; intros Hd Ha; cbn [map] in *; [by apply not_elem_of_nil in Ha|]. apply NoDup_cons in Hd as [Hv Hd]. unfold powers in *. cbn [fold_right].
  destruct (Z.eqb_spec (v_Address v) a) as [<-|Hne]; [rewrite Hnone by exact Hv; unfold powers; lia|]. apply elem_of_cons in Ha as [Ha|Ha]; [congruence|]. rewrite IH by assumption. lia.
Qed.

Lemma others_bound l v b : v ∈ l -> Forall (fun w => b <= ProposerPriority w) l -> ProposerPriority v + b * (zlen l - 1) <= priorities l.
Proof.
  intros Hv Hb. induction Hb as [|w l Hw Hl IH]; [by apply not_elem_of_nil in Hv|]. rewrite zlen_cons. cbn [priorities fold_right]. fold (priorities l).
  assert (Hsum : b * zlen l <= priorities l). { clear - Hl. induction Hl as [|x l Hx _ IH]; [unfold zlen, priorities; cbn [length fold_right]; lia|]. rewrite zlen_cons. cbn [priorities fold_right]. fold (priorities l). lia. }
  apply elem_of_cons in Hv as [->|Hv]; [lia|]. specialize (IH Hv). lia.
Qed.

(** Room for the priorities: they stay below the number of validators times the window. *)
Definition room (l : list Validator) : Prop := zlen l * (2 * powers l + 1) + powers l <= prio_bound.

Lemma centred_upper T l v : 0 <= T -> centred T l -> v ∈ l -> ProposerPriority v <= zlen l * (2 * T + 1).
Proof. intros HT [H1 H2] Hv. pose proof (others_bound l v _ Hv H2). nia. Qed.

Lemma step_addresses a T l : map v_Address (step a T l) = map v_Address l.
Proof. apply reprio_addresses. Qed.

Lemma highest_positive (l : list Validator) (q : Validator -> Z) m : l <> [] -> m ∈ l -> Forall (fun v => q v <= q m) l -> 0 < fold_right (fun v s => q v + s) 0 l -> 0 < q m.
Proof.
  intros _ _ Hall Hs. destruct (Z.lt_ge_cases 0 (q m)) as [|Hle]; [assumption|exfalso]. enough (fold_right (fun v s => q v + s) 0 l <= 0) by lia. clear Hs.
  induction Hall as [|x l Hx _ IH]; cbn [fold_right]; lia.
Qed.

Lemma address_unique l v w : NoDup (map v_Address l) -> v ∈ l -> w ∈ l -> v_Address v = v_Address w -> v = w.
Proof.
  intros Hd Hv Hw Ev. apply list_elem_of_lookup in Hv as [i Hi], Hw as [j Hj]. assert (i = j).
  { apply (NoDup_lookup (map v_Address l) i j (v_Address w) Hd); change (map v_Address l) with (v_Address <$> l); rewrite list_lookup_fmap; [rewrite Hi; cbn; by rewrite Ev|by rewrite Hj]. }
  subst j. congruence.
Qed.

Lemma raised_sum l : fold_right (fun v s => ProposerPriority v + VotingPower v + s) 0 l = priorities l + powers l.
Proof. induction l as [|v l IH]; [reflexivity|]. unfold priorities, powers in *. cbn [fold_right]. rewrite IH. lia. Qed.

Lemma round_exact s : Validators s <> [] -> wf_list (Validators s) -> totalVotingPower s = powers (Validators s) -> centred (powers (Validators s)) (Validators s) -> room (Validators s) ->
  exists a, incrementProposerPriority s = Val (Some a, with_validators s (step a (powers (Validators s)) (Validators s))) /\ a ∈ map v_Address (Validators s) /\
    wf_list (step a (powers (Validators s)) (Validators s)) /\ centred (powers (Validators s)) (step a (powers (Validators s)) (Validators s)).
Proof.
  intros Hne Hw Et Hc Hroom. set (l := Validators s) in *. set (T := powers l) in *. pose proof Hw as [W1 W2 W3 W4]. pose proof (in_order_nodup l W1) as Hd. unfold room in Hroom. fold T in Hroom, W3.
  assert (Hn : 0 < zlen l <= T). { pose proof (powers_nonneg l W2). destruct l as [|x l']; [done|]. rewrite zlen_cons in *. pose proof (zlen_nonneg l'). fold T in H. lia. }
  pose proof MaxTotal as HM. unfold prio_bound in *.
  assert (Hrange : forall v, v ∈ l -> - (2 * T) <= ProposerPriority v <= zlen l * (2 * T + 1) /\ 0 < VotingPower v <= T).
  { intros v Hv. pose proof (centred_upper T l v ltac:(lia) Hc Hv). destruct Hc as [_ Hlow]. rewrite Forall_forall in Hlow, W2. pose proof (power_le l v ltac:(apply Forall_forall; exact W2) Hv). specialize (Hlow v Hv). specialize (W2 v Hv). fold T in H0. lia. }
  unfold incrementProposerPriority. fold l. set (q := fun v => ProposerPriority v + VotingPower v).
  assert (Eq : map (fun v => with_priority v (safeAddClip (ProposerPriority v) (VotingPower v))) l = reprio q l).
  { apply (reprio_ext _ q). intros v Hv. apply safeAddClip_exact. pose proof (Hrange v Hv). unfold int64, MinInt64, MaxInt64. nia. }
  rewrite Eq. set (s1 := with_validators s (reprio q l)). destruct (getVal_exact s1) as (m & -> & Hm & Hlead).
  { unfold in_order, s1. cbn [Validators with_validators]. rewrite reprio_addresses. exact W1. }
  { unfold s1. cbn. unfold reprio. destruct l; [done|discriminate]. }
  cbn [mbind Res_bind]. unfold s1 in *. cbn [Validators with_validators] in Hm, Hlead |- *. rewrite TotalVotingPower_exact; cbn [Validators with_validators totalVotingPower];
    [|apply reprio_wf; [exact Hw|]; apply Forall_forall; intros v Hv; pose proof (Hrange v Hv); unfold prio_bound, q; nia|by rewrite reprio_powers].
  cbn [mbind Res_bind mret Res_ret]. rewrite reprio_powers. fold T. unfold reprio in Hm. apply list_elem_of_fmap in Hm as (m0 & -> & Hm0). cbn [v_Address ProposerPriority with_priority]. fold (reprio q l) in Hlead.
  pose proof (Hrange m0 Hm0) as Rm. rewrite safeSubClip_exact by (unfold int64, MinInt64, MaxInt64, q; nia). set (a := v_Address m0).
  assert (Ha : a ∈ map v_Address l) by (apply list_elem_of_fmap; exists m0; auto).
  assert (Hsame : forall v, v ∈ l -> v_Address v = a -> v = m0) by (intros v Hv Ev; by apply (address_unique l)).
  assert (Estep : set_priority a (q m0 - T) (reprio q l) = step a T l).
  { unfold set_priority, step, reprio. rewrite map_map. apply map_ext_in. intros v Hv. apply list_elem_of_In in Hv. cbn [v_Address with_priority]. destruct (Z.eqb_spec (v_Address v) a) as [Ev|]; unfold with_priority; cbn; f_equal; unfold q; [|lia].
    rewrite (Hsame v Hv Ev). reflexivity. }
  cbn [Validators with_validators]. rewrite Estep. exists a. split; [reflexivity|]. split; [exact Ha|].
  assert (Hq : 0 < q m0).
  { apply (highest_positive l q m0 Hne Hm0).
    - apply Forall_forall. intros v Hv. unfold reprio in Hlead. rewrite Forall_map, Forall_forall in Hlead. specialize (Hlead v Hv). unfold leads in Hlead. cbn in Hlead. lia.
    - destruct Hc as [Hs _]. unfold q. rewrite raised_sum. fold T. lia. }
  assert (Hnew : forall v, v ∈ l -> - (2 * T) <= ProposerPriority v + VotingPower v - (if v_Address v =? a then T else 0) <= zlen l * (2 * T + 1) + T).
  { intros v Hv. pose proof (Hrange v Hv). destruct (Z.eqb_spec (v_Address v) a) as [Ev|]; [|lia]. rewrite (Hsame v Hv Ev) in *. unfold q in Hq. lia. }
  split; [apply reprio_wf; [exact Hw|]; apply Forall_forall; intros v Hv; pose proof (Hnew v Hv); unfold prio_bound; nia|]. split.
  - unfold step. rewrite reprio_zlen. rewrite (reprio_ext _ (fun v => ProposerPriority v + (VotingPower v - (if v_Address v =? a then T else 0)))) by (intros; lia).
    rewrite priorities_add, charged_once by assumption. unfold T. rewrite Z.sub_diag, Z.add_0_r. apply Hc.
  - apply reprio_Forall. cbn. apply Forall_forall. intros v Hv. apply (Hnew v Hv).
Qed.

(** ** Rotation *)

(** The proposers of the next [k] rounds. *)
Fixpoint proposers (k : nat) (s : ValidatorSet) : Res (list Z * ValidatorSet) :=
  match k with
  | O => mret ([], s)
  | S k =>
      '(p, s) ← incrementProposerPriority s;
      '(ps, s) ← proposers k s;
      mret (match p with Some a => a :: ps | None => ps end, s)
  end.

(** How often [a] is among them. *)
Definition turns (a : Z) (ps : list Z) : Z := zlen (filter (fun b => b = a) ps).

Lemma turns_cons a b ps : turns a (b :: ps) = (if a =? b then 1 else 0) + turns a ps.
Proof. unfold turns. rewrite filter_cons. destruct (Z.eqb_spec a b), (decide (b = a)); try congruence; [by rewrite zlen_cons|lia]. Qed.

Definition rotated (k : Z) (ps : list Z) (T : Z) (l : list Validator) : list Validator :=
  reprio (fun v => ProposerPriority v + k * VotingPower v - T * turns (v_Address v) ps) l.

Lemma proposers_exact k : forall s, Validators s <> [] -> wf_list (Validators s) -> totalVotingPower s = powers (Validators s) -> centred (powers (Validators s)) (Validators s) -> room (Validators s) ->
  exists ps, proposers k s = Val (ps, with_validators s (rotated (Z.of_nat k) ps (powers (Validators s)) (Validators s))) /\ length ps = k /\
    Forall (fun a => a ∈ map v_Address (Validators s)) ps /\
    wf_list (rotated (Z.of_nat k) ps (powers (Validators s)) (Validators s)) /\ centred (powers (Validators s)) (rotated (Z.of_nat k) ps (powers (Validators s)) (Validators s)).
Proof.
  induction k as [|k IH]; intros s Hne Hw Et Hc Hr.
  - exists []. assert (E : rotated (Z.of_nat 0) [] (powers (Validators s)) (Validators s) = Validators s).
    { unfold rotated, reprio. rewrite <- map_id. apply map_ext. intros [i a w p]. unfold with_priority. cbn [v_ID v_Address VotingPower ProposerPriority]. change (turns a []) with 0. f_equal. lia. }
    rewrite E. split; [by destruct s|]. auto.
  - cbn [proposers]. destruct (round_exact s Hne Hw Et Hc Hr) as (a & -> & Ha & Hw1 & Hc1). cbn [mbind Res_bind]. set (l := Validators s) in *. set (T := powers l) in *.
    set (s1 := with_validators s (step a T l)). destruct (IH s1) as (ps & E & Hl & Hp & Hw2 & Hc2); unfold s1; cbn [Validators with_validators totalVotingPower];
      rewrite ?(reprio_powers _ l : powers (step a T l) = T); try assumption.
    { unfold step, reprio. destruct l; [done|discriminate]. }
    { unfold room, step. rewrite reprio_zlen, reprio_powers. exact Hr. }
    unfold s1 in *. cbn [Validators with_validators] in *. rewrite (reprio_powers _ l : powers (step a T l) = T) in *. rewrite step_addresses in Hp.
    assert (Er : rotated (Z.of_nat k) ps T (step a T l) = rotated (Z.of_nat (S k)) (a :: ps) T l).
    { unfold rotated, step, reprio. rewrite map_map. apply map_ext. intros v. unfold with_priority. cbn [v_ID v_Address VotingPower ProposerPriority]. f_equal. rewrite turns_cons. destruct (Z.eqb_spec (v_Address v) a); lia. }
    rewrite Er in *. rewrite E. cbn [mbind Res_bind mret Res_ret]. exists (a :: ps). split; [reflexivity|]. split; [by rewrite <- Hl|]. split; [by constructor|]. by split.
Qed.

Lemma increment_times_exact k : forall p s ps s', proposers k s = Val (ps, s') -> length ps = k ->
  increment_times k p s = Val (match List.rev ps with a :: _ => Some a | [] => p end, s').
Proof.
  induction k as [|k IH]; intros p s ps s' E Hl; cbn [proposers increment_times] in *; [injection E as <- <-; reflexivity|].
  destruct (incrementProposerPriority s) as [[p1 s1]| |]; cbn [mbind Res_bind] in *; [|discriminate..].
  destruct (proposers k s1) as [[ps1 s2]| |] eqn:E1; cbn [mbind Res_bind mret Res_ret] in *; [|discriminate..]. injection E as <- <-.
  assert (Hlen : length ps1 = k /\ exists a, p1 = Some a).
  { assert (Hall : forall j t, match proposers j t with Val (q, _) => (length q <= j)%nat | _ => True end).
    { clear. induction j as [|j IH]; intros t; cbn [proposers]; [cbn; lia|]. destruct (incrementProposerPriority t) as [[p t']| |]; cbn [mbind Res_bind]; [|trivial..].
      specialize (IH t'). destruct (proposers j t') as [[q t2]| |]; cbn; [|trivial..]. destruct p; cbn; lia. }
    specialize (Hall k s1). rewrite E1 in Hall. destruct p1 as [a|]; cbn in Hl; [split; [lia|eauto]|lia]. }
  destruct Hlen as [Hlen [a ->]]. rewrite (IH _ _ _ _ E1 Hlen). cbn [List.rev]. destruct (List.rev ps1); reflexivity.
Qed.

Lemma index_map_addresses l : forall l' i m, map v_Address l = map v_Address l' -> index_map i l m = index_map i l' m.
Proof. induction l as [|v l IH]; intros [|v' l'] i m E; try discriminate; [reflexivity|]. cbn [map] in E. injection E as E1 E2. cbn [index_map]. rewrite E1. by apply IH. Qed.

Lemma wf_reprio s f p : wf s -> wf_list (reprio f (Validators s)) -> wf (with_proposer (with_validators s (reprio f (Validators s))) p).
Proof.
  intros [H1 H2 H3] Hw. split; cbn [Validators with_proposer with_validators totalVotingPower validatorsMap]; [exact Hw|by rewrite reprio_powers|].
  rewrite H3. apply index_map_addresses. symmetry. apply reprio_addresses.
Qed.

(** C23 The proposers rotate fairly: from a well-formed, non-empty set of [n] validators whose
    total power [T] leaves room for the priorities, [n * (2 * T + 1) + T <= 2^61] (as a
    hundred validators with a total power of 2^53), any number of rounds runs without a panic
    and without ever saturating a priority, and leaves a well-formed set with the same
    validators; a validator with power [w] of a total [T] proposes [times * w / T]
    times, up to four more and at most a fixed number less, so that each validator proposes
    again and again. *)
Theorem proposer_rotation_fair s times : wf s -> Validators s <> [] -> room (Validators s) -> 0 < times ->
  let T := powers (Validators s) in
  exists s1 ps s2 s', normalise s = Val s1 /\ proposers (Z.to_nat times) s1 = Val (ps, s2) /\ zlen ps = times /\
    IncrementProposerPriority times s = Val s' /\ wf s' /\ s' = with_proposer s2 (last ps) /\
    Validators s' = rotated times ps T (Validators s1) /\ map v_Address (Validators s') = map v_Address (Validators s) /\
    (forall v, v ∈ Validators s ->
       times * VotingPower v - (zlen (Validators s) + 1) * (2 * T + 1) <= T * turns (v_Address v) ps <= times * VotingPower v + 4 * T).
Proof.
  intros Hwf Hne Hr Ht T. pose proof Hwf as [Hw Et Em]. destruct (normalise_exact s Hne Hw Et) as (f & En & Hw1 & Hc1 & Hf). set (l := Validators s) in *. fold T in Hc1, Hf.
  set (s1 := with_validators s (reprio f l)) in *. assert (ET : powers (reprio f l) = T) by apply reprio_powers.
  destruct (proposers_exact (Z.to_nat times) s1) as (ps & Ep & Hl & Hin & Hw2 & Hc2); unfold s1 in *; cbn [Validators with_validators totalVotingPower] in *; rewrite ?ET in *; try assumption.
  { unfold reprio. destruct l; [done|discriminate]. }
  { unfold room. rewrite reprio_zlen, ET. exact Hr. }
  rewrite Z2Nat.id in * by lia. set (l2 := rotated times ps T (reprio f l)) in *.
  exists (with_validators s (reprio f l)), ps, (with_validators (with_validators s (reprio f l)) l2), (with_proposer (with_validators (with_validators s (reprio f l)) l2) (last ps)).
  assert (El2 : exists g, l2 = reprio g l) by (unfold l2, rotated, reprio; rewrite map_map; eexists; apply map_ext; reflexivity). destruct El2 as [g Eg].
  split; [exact En|]. split; [exact Ep|]. split; [unfold zlen; lia|]. split; [|split; [|split; [reflexivity|split; [reflexivity|split]]]].
  - unfold IncrementProposerPriority. rewrite is_empty by exact Hne. destruct (Z.leb_spec times 0); [lia|]. unfold normalise in En. destruct (TotalVotingPower s) as [[tot sa]| |]; cbn [mbind Res_bind] in *; [|discriminate..].
    destruct (RescalePriorities _ sa) as [sb| |]; cbn [mbind Res_bind] in *; [|discriminate..]. rewrite En. cbn [mbind Res_bind]. rewrite (increment_times_exact _ _ _ _ _ Ep Hl). cbn [mbind Res_bind mret Res_ret].
    do 2 f_equal. destruct (List.rev ps) as [|a r] eqn:Er.
    + apply (f_equal (@length Z)) in Er. rewrite length_rev in Er. cbn in Er. lia.
    + apply (f_equal (@List.rev Z)) in Er. rewrite List.rev_involutive in Er. rewrite Er. cbn [List.rev]. by rewrite last_snoc.
  - rewrite Eg in *. apply (wf_reprio s g (last ps) Hwf Hw2).
  - cbn [Validators with_proposer with_validators]. rewrite Eg. apply reprio_addresses.
  - intros v Hv. assert (Hv1 : with_priority v (f v) ∈ reprio f l) by (unfold reprio; apply list_elem_of_fmap; eauto).
    assert (Hv2 : with_priority v (f v + times * VotingPower v - T * turns (v_Address v) ps) ∈ l2).
    { unfold l2, rotated. unfold reprio at 1. apply list_elem_of_fmap. exists (with_priority v (f v)). auto. }
    pose proof (powers_nonneg l (wl_powers l Hw)) as Hp. pose proof (zlen_nonneg l).
    pose proof (centred_upper T _ _ ltac:(unfold T; lia) Hc2 Hv2) as Hup. destruct Hc2 as [_ Hlo2]. destruct Hc1 as [_ Hlo1]. rewrite Forall_forall in Hlo1, Hlo2, Hf.
    specialize (Hlo1 _ Hv1). specialize (Hlo2 _ Hv2). specialize (Hf v Hv). cbn [ProposerPriority with_priority] in *. rewrite Eg, reprio_zlen in Hup. lia.
Qed.

(** A set of three validators, in the middle of its rotation. *)
Definition sample_validators : list Validator := [mkValidator 2 3 1 1; mkValidator 1 5 10 10; mkValidator 3 9 100 (-11)].
Definition sample_set : ValidatorSet := mkSet sample_validators (Some 9) 111 (index_map 0 sample_validators ∅).

Lemma sample_wf : wf sample_set.
Proof.
  split; [|reflexivity|reflexivity]. split.
  - repeat (constructor; [|repeat constructor; cbn; lia]). constructor.
  - repeat constructor; cbn; lia.
  - vm_compute. discriminate.
  - unfold prio_bound. repeat constructor; cbn; lia.
Qed.

Lemma proposer_rotation_fair_witness : wf sample_set /\ room (Validators sample_set) /\
  let T := powers (Validators sample_set) in
  exists s1 ps s2 s', normalise sample_set = Val s1 /\ proposers (Z.to_nat 1000) s1 = Val (ps, s2) /\ zlen ps = 1000 /\
    IncrementProposerPriority 1000 sample_set = Val s' /\ wf s' /\ s' = with_proposer s2 (last ps) /\
    Validators s' = rotated 1000 ps T (Validators s1) /\ map v_Address (Validators s') = map v_Address (Validators sample_set) /\
    (forall v, v ∈ Validators sample_set ->
       1000 * VotingPower v - (zlen (Validators sample_set) + 1) * (2 * T + 1) <= T * turns (v_Address v) ps <= 1000 * VotingPower v + 4 * T).
Proof.
  assert (Hr : room (Validators sample_set)) by (unfold room, prio_bound; vm_compute; discriminate). split; [apply sample_wf|]. split; [exact Hr|].
  apply (proposer_rotation_fair sample_set 1000); [apply sample_wf|discriminate|exact Hr|lia].
Defined.
