(* ===== verification/ValidatorUpdateSpec.v ===== *)
(** * Updates of the validator set

    For [ValidatorSet]: the lists a set is updated with are merged and removed in address
    order; an accepted update has exactly the effect of the changes on the powers, and a
    rejected one none. *)

From Stdlib Require Import Sorting.Sorted.
From S2P Require Import Prelude Errors Common RlpWriter ValidatorSet MultiEncSeqSpec ValidatorSetSpec.

(** ** Validators by address *)

Fixpoint get (a : Z) (l : list Validator) : option Validator :=
  match l with [] => None | v :: l => if v_Address v =? a then Some v else get a l end.

Lemma find_get a l : get a l = option_map snd (find a l).
Proof. induction l as [|v l IH]; [reflexivity|]. cbn [get find]. destruct (v_Address v =? a); [reflexivity|]. rewrite IH. by destruct (find a l) as [[? ?]|]. Qed.

Lemma get_some a l v : get a l = Some v -> v ∈ l /\ v_Address v = a.
Proof.
  induction l as [|w l IH]; [discriminate|]. cbn [get]. destruct (Z.eqb_spec (v_Address w) a) as [E|]; [intros [= <-]; split; [constructor|exact E]|].
  intros E. destruct (IH E) as [H1 H2]. split; [by constructor|exact H2].
Qed.

Lemma get_none a l : get a l = None <-> a ∉ map v_Address l.
Proof. rewrite find_get, <- find_none. by destruct (find a l) as [[? ?]|]. Qed.

Lemma get_of l v : NoDup (map v_Address l) -> v ∈ l -> get (v_Address v) l = Some v.
Proof.
  intros Hd Hv. destruct (get (v_Address v) l) as [w|] eqn:E.
  - apply get_some in E as [Hw Ea]. f_equal. by apply (address_unique l).
  - apply get_none in E. destruct E. apply list_elem_of_fmap. eauto.
Qed.

Lemma get_perm a l l' : NoDup (map v_Address l) -> l ≡ₚ l' -> get a l = get a l'.
Proof.
  intros Hd Hp. assert (Hm : map v_Address l ≡ₚ map v_Address l') by (by apply (fmap_Permutation v_Address)). assert (Hd' : NoDup (map v_Address l')) by (by rewrite <- Hm).
  destruct (get a l) as [v|] eqn:E.
  - apply get_some in E as [Hv <-]. symmetry. apply get_of; [exact Hd'|]. by rewrite <- Hp.
  - symmetry. apply get_none. apply get_none in E. by rewrite <- Hm.
Qed.

Lemma get_cons_order v l a : in_order (v :: l) -> a < v_Address v -> get a (v :: l) = None.
Proof.
  intros Ho Ha. apply get_none. unfold in_order in Ho. cbn [map] in *. apply StronglySorted_inv in Ho as [_ Hf]. rewrite Forall_forall in Hf.
  rewrite not_elem_of_cons. split; [lia|]. intros Hin. specialize (Hf a Hin). lia.
Qed.

Lemma Forall_addresses (P : Z -> Prop) l : Forall P (map v_Address l) <-> Forall (fun v => P (v_Address v)) l.
Proof. apply Forall_map. Qed.

Lemma in_order_tail v l : in_order (v :: l) -> in_order l /\ Forall (fun w => v_Address v < v_Address w) l.
Proof. unfold in_order. cbn [map]. intros H. apply StronglySorted_inv in H as [H1 H2]. split; [exact H1|]. by apply (proj1 (Forall_addresses _ _)). Qed.

Lemma in_order_cons v l : in_order l -> Forall (fun w => v_Address v < v_Address w) l -> in_order (v :: l).
Proof. intros H1 H2. unfold in_order. cbn [map]. constructor; [exact H1|]. by apply Forall_addresses. Qed.

(** ** Sorting and splitting the changes *)

Lemma insert_perm v l : insert_sorted v l ≡ₚ v :: l.
Proof. induction l as [|w l IH]; [reflexivity|]. cbn [insert_sorted]. destruct (v_Address v <=? v_Address w); [reflexivity|]. rewrite IH. apply Permutation_swap. Qed.

Lemma sort_perm l : sort_by_address l ≡ₚ l.
Proof. induction l as [|v l IH]; [reflexivity|]. cbn [sort_by_address fold_right]. fold (sort_by_address l). rewrite insert_perm. by rewrite IH. Qed.

Lemma insert_ordered v l : StronglySorted Z.le (map v_Address l) -> StronglySorted Z.le (map v_Address (insert_sorted v l)).
Proof.
  induction l as [|w l IH]; intros H; [repeat constructor|]. cbn [insert_sorted]. destruct (Z.leb_spec (v_Address v) (v_Address w)).
  - cbn [map] in *. constructor; [exact H|]. apply StronglySorted_inv in H as [_ Hf]. constructor; [lia|]. eapply Forall_impl; [exact Hf|]. cbn. lia.
  - cbn [map] in H |- *. apply StronglySorted_inv in H as [H1 H2]. constructor; [by apply IH|]. apply Forall_addresses. apply (proj1 (Forall_addresses _ _)) in H2.
    eapply Permutation_Forall; [symmetry; apply insert_perm|]. constructor; [lia|exact H2].
Qed.

Lemma sort_ordered l : StronglySorted Z.le (map v_Address (sort_by_address l)).
Proof. induction l as [|v l IH]; [constructor|]. cbn [sort_by_address fold_right]. by apply insert_ordered. Qed.

Definition is_update (v : Validator) : Prop := VotingPower v <> 0.
Definition is_removal (v : Validator) : Prop := VotingPower v = 0.
#[export] Instance is_update_dec v : Decision (is_update v) := _.
#[export] Instance is_removal_dec v : Decision (is_removal v) := _.

Lemma split_exact l : forall prev u r, StronglySorted Z.le (map v_Address l) -> (forall a, prev = Some a -> Forall (fun v => a <= v_Address v) l) ->
  (exists x y e, split_changes prev l u r = (x, y, Some e)) \/
  (split_changes prev l u r = (u ++ filter is_update l, r ++ filter is_removal l, None) /\ in_order l /\
   (forall a, prev = Some a -> Forall (fun v => a < v_Address v) l) /\ Forall (fun v => 0 <= VotingPower v <= MaxTotalVotingPower) l).
Proof.
  induction l as [|v l IH]; intros prev u r Hs Hp; cbn [split_changes].
  { right. rewrite !filter_nil, !app_nil_r. split; [done|]. split; [constructor|]. split; [intros; constructor|constructor]. }
  cbn [map] in Hs. apply StronglySorted_inv in Hs as [Hs Hf]. apply (proj1 (Forall_addresses _ _)) in Hf.
  assert (Hprev : forall a, prev = Some a -> v_Address v <> a -> Forall (fun v => a < v_Address v) (v :: l)).
  { intros a Ea Hne. specialize (Hp a Ea). apply Forall_cons in Hp as [Hv _]. constructor; [lia|]. eapply Forall_impl; [exact Hf|]. cbn. lia. }
  destruct (match prev with Some a => v_Address v =? a | None => false end) eqn:Edup; [left; eauto|].
  destruct (Z.ltb_spec (VotingPower v) 0); [left; eauto|]. destruct (Z.ltb_spec MaxTotalVotingPower (VotingPower v)); [left; eauto|].
  assert (Hnext : forall a, Some (v_Address v) = Some a -> Forall (fun w => a <= v_Address w) l) by (intros a [= <-]; exact Hf).
  assert (Hdone : in_order l -> (forall a, Some (v_Address v) = Some a -> Forall (fun w => a < v_Address w) l) -> Forall (fun v => 0 <= VotingPower v <= MaxTotalVotingPower) l ->
    in_order (v :: l) /\ (forall a, prev = Some a -> Forall (fun v => a < v_Address v) (v :: l)) /\ Forall (fun v => 0 <= VotingPower v <= MaxTotalVotingPower) (v :: l)).
  { intros H1 H2 H3. split; [by apply in_order_cons, H2|]. split; [|constructor; [lia|exact H3]]. intros a Ea. apply Hprev; [exact Ea|]. subst prev. by apply Z.eqb_neq in Edup. }
  destruct (Z.eqb_spec (VotingPower v) 0) as [E0|E0].
  - destruct (IH (Some (v_Address v)) u (r ++ [v]) Hs Hnext) as [Herr|(-> & H1 & H2 & H3)]; [by left|right]. rewrite (filter_cons_False is_update), (filter_cons_True is_removal), <- app_assoc by (unfold is_update, is_removal; lia). split; [done|auto].
  - destruct (IH (Some (v_Address v)) (u ++ [v]) r Hs Hnext) as [Herr|(-> & H1 & H2 & H3)]; [by left|right]. rewrite (filter_cons_True is_update), (filter_cons_False is_removal), <- app_assoc by (unfold is_update, is_removal; lia). split; [done|auto].
Qed.

Lemma in_order_filter (P : Validator -> Prop) `{forall v, Decision (P v)} l : in_order l -> in_order (filter P l).
Proof.
  induction l as [|v l IH]; intros Ho; [constructor|]. apply in_order_tail in Ho as [H1 H2]. rewrite filter_cons. destruct (decide (P v)); [|auto].
  apply in_order_cons; [auto|]. apply Forall_forall. intros w Hw. apply list_elem_of_filter in Hw as [_ Hw]. rewrite Forall_forall in H2. auto.
Qed.

Lemma get_filter (P : Validator -> Prop) `{forall v, Decision (P v)} a l : NoDup (map v_Address l) ->
  get a (filter P l) = match get a l with Some v => if decide (P v) then Some v else None | None => None end.
Proof.
  induction l as [|v l IH]; intros Hd; [reflexivity|]. cbn [map] in Hd. apply NoDup_cons in Hd as [Hv Hd]. rewrite filter_cons. cbn [get]. specialize (IH Hd).
  destruct (decide (P v)) as [Hp|Hp]; cbn [get]; destruct (Z.eqb_spec (v_Address v) a) as [E|E]; try assumption.
  - by rewrite decide_True.
  - rewrite decide_False by exact Hp. rewrite IH. subst a. apply get_none in Hv. by rewrite Hv.
Qed.

(** ** Merging *)

Lemma merge_order fuel : forall l us, (length l + length us < fuel)%nat -> in_order l -> in_order us ->
  in_order (merge_updates fuel l us) /\
  (forall a, get a (merge_updates fuel l us) = match get a us with Some u => Some u | None => get a l end) /\
  (forall b, Forall (fun v => b < v_Address v) l -> Forall (fun v => b < v_Address v) us -> Forall (fun v => b < v_Address v) (merge_updates fuel l us)).
Proof.
  induction fuel as [|fuel IH]; intros l us Hf Hl Hu; [lia|]. cbn [merge_updates]. destruct l as [|e l].
  { cbn [app get]. split; [exact Hu|]. split; [intros a; by destruct (get a us)|auto]. }
  destruct us as [|u us].
  { rewrite app_nil_r. auto. }
  pose proof (in_order_tail _ _ Hl) as [Hl1 Hl2]. pose proof (in_order_tail _ _ Hu) as [Hu1 Hu2]. cbn [length] in Hf.
  destruct (Z.ltb_spec (v_Address e) (v_Address u)) as [Hlt|Hge]; [|destruct (Z.eqb_spec (v_Address e) (v_Address u)) as [Heq|Hne]].
  - destruct (IH l (u :: us) ltac:(cbn [length]; lia) Hl1 Hu) as (H1 & H2 & H3). assert (Hbig : Forall (fun v => v_Address e < v_Address v) (u :: us)) by (constructor; [lia|]; eapply Forall_impl; [exact Hu2|]; cbn; lia).
    split; [apply in_order_cons; auto|]. split; [|intros b A B; apply Forall_cons in A as [A1 A2]; constructor; auto]. intros a. cbn [get]. destruct (Z.eqb_spec (v_Address e) a) as [<-|Hne].
    + assert (E : get (v_Address e) (u :: us) = None) by (by apply get_cons_order). cbn [get] in E. by rewrite E.
    + apply H2.
  - destruct (IH l us ltac:(lia) Hl1 Hu1) as (H1 & H2 & H3). split; [apply in_order_cons; [exact H1|]; apply H3; [rewrite <- Heq; exact Hl2|exact Hu2]|].
    split; [|intros b A B; apply Forall_cons in A as [A1 A2], B as [B1 B2]; constructor; auto]. intros a. cbn [get]. rewrite Heq. destruct (v_Address u =? a); [reflexivity|apply H2].
  - destruct (IH (e :: l) us ltac:(cbn [length]; lia) Hl Hu1) as (H1 & H2 & H3). assert (Hbig : Forall (fun v => v_Address u < v_Address v) (e :: l)) by (constructor; [lia|]; eapply Forall_impl; [exact Hl2|]; cbn; lia).
    split; [apply in_order_cons; auto|]. split; [|intros b A B; apply Forall_cons in B as [B1 B2]; constructor; auto]. intros a. cbn [get]. destruct (Z.eqb_spec (v_Address u) a) as [<-|]; [reflexivity|apply H2].
Qed.

(** What an update adds to the total, and whether it adds a validator. *)
Definition delta (l : list Validator) (u : Validator) : Z := VotingPower u - match get (v_Address u) l with Some v => VotingPower v | None => 0 end.
Definition fresh_ (l : list Validator) (u : Validator) : Z := match get (v_Address u) l with Some _ => 0 | None => 1 end.
Definition total_of (f : Validator -> Z) (us : list Validator) : Z := fold_right (fun u a => f u + a) 0 us.

Lemma total_of_ext f g us : (forall u, u ∈ us -> f u = g u) -> total_of f us = total_of g us.
Proof. induction us as [|u us IH]; intros H; [reflexivity|]. unfold total_of in *. cbn [fold_right]. rewrite (H u) by constructor. rewrite IH; [reflexivity|]. intros w Hw. apply H. by constructor. Qed.

Lemma get_tail e l u : v_Address e <> v_Address u -> get (v_Address u) (e :: l) = get (v_Address u) l.
Proof. intros H. cbn [get]. by destruct (Z.eqb_spec (v_Address e) (v_Address u)). Qed.

Lemma merge_totals fuel : forall l us, (length l + length us < fuel)%nat -> in_order l -> in_order us ->
  powers (merge_updates fuel l us) = powers l + total_of (delta l) us /\ zlen (merge_updates fuel l us) = zlen l + total_of (fresh_ l) us.
Proof.
  induction fuel as [|fuel IH]; intros l us Hf Hl Hu; [lia|]. cbn [merge_updates]. destruct l as [|e l].
  { cbn [app]. split; [|unfold zlen at 2; cbn [length]]; induction us as [|u us IHu]; try reflexivity; apply in_order_tail in Hu as [Hu _]; specialize (IHu ltac:(cbn [length] in *; lia) Hu).
    - unfold powers, total_of, delta in *. cbn [fold_right get] in *. rewrite IHu. lia.
    - rewrite zlen_cons, IHu. unfold total_of, fresh_. cbn [fold_right get]. lia. }
  destruct us as [|u us].
  { rewrite app_nil_r. unfold total_of. cbn [fold_right]. lia. }
  pose proof (in_order_tail _ _ Hl) as [Hl1 Hl2]. pose proof (in_order_tail _ _ Hu) as [Hu1 Hu2]. cbn [length] in Hf.
  assert (Hskip : v_Address e <= v_Address u -> forall w, w ∈ us -> get (v_Address w) (e :: l) = get (v_Address w) l).
  { intros Hle w Hw. apply get_tail. rewrite Forall_forall in Hu2. specialize (Hu2 w Hw). lia. }
  destruct (Z.ltb_spec (v_Address e) (v_Address u)) as [Hlt|Hge]; [|destruct (Z.eqb_spec (v_Address e) (v_Address u)) as [Heq|Hne]].
  - destruct (IH l (u :: us) ltac:(cbn [length]; lia) Hl1 Hu) as [H1 H2].
    assert (Hsame : forall w, w ∈ u :: us -> get (v_Address w) (e :: l) = get (v_Address w) l) by (intros w Hw; apply elem_of_cons in Hw as [->|Hw]; [apply get_tail; lia|apply Hskip; [lia|exact Hw]]).
    rewrite zlen_cons, H2. split; [|rewrite zlen_cons, (total_of_ext (fresh_ (e :: l)) (fresh_ l)) by (intros w Hw; unfold fresh_; by rewrite Hsame); lia].
    unfold powers in *. cbn [fold_right]. rewrite H1, (total_of_ext (delta (e :: l)) (delta l)) by (intros w Hw; unfold delta; by rewrite Hsame). lia.
  - destruct (IH l us ltac:(lia) Hl1 Hu1) as [H1 H2]. assert (Eg : get (v_Address u) (e :: l) = Some e) by (cbn [get]; by rewrite Heq, Z.eqb_refl).
    unfold total_of. cbn [fold_right]. fold (total_of (delta (e :: l)) us) (total_of (fresh_ (e :: l)) us).
    rewrite (total_of_ext (delta (e :: l)) (delta l)), (total_of_ext (fresh_ (e :: l)) (fresh_ l)) by (intros w Hw; unfold delta, fresh_; by rewrite Hskip by (lia || exact Hw)).
    rewrite !zlen_cons, H2. assert (Ed : delta (e :: l) u = VotingPower u - VotingPower e) by (unfold delta; by rewrite Eg). assert (Ef : fresh_ (e :: l) u = 0) by (unfold fresh_; by rewrite Eg).
    rewrite Ed, Ef. split; [|lia]. unfold powers in *. cbn [fold_right]. rewrite H1. lia.
  - destruct (IH (e :: l) us ltac:(cbn [length]; lia) Hl Hu1) as [H1 H2]. assert (Eg : get (v_Address u) (e :: l) = None) by (apply get_cons_order; [exact Hl|lia]).
    unfold total_of. cbn [fold_right]. fold (total_of (delta (e :: l)) us) (total_of (fresh_ (e :: l)) us). rewrite zlen_cons, H2.
    assert (Ed : delta (e :: l) u = VotingPower u) by (unfold delta; rewrite Eg; lia). assert (Ef : fresh_ (e :: l) u = 1) by (unfold fresh_; by rewrite Eg). rewrite Ed, Ef. split; [|lia].
    unfold powers in *. cbn [fold_right] in *. rewrite H1. lia.
Qed.

Definition merged (l us : list Validator) : list Validator := merge_updates (S (length l + length us)) l us.

Lemma merge_positive l us : in_order l -> in_order us -> Forall (fun v => 0 < VotingPower v) l -> Forall (fun v => 0 < VotingPower v) us -> Forall (fun v => 0 < VotingPower v) (merged l us).
Proof.
  intros Hl Hu Pl Pu. destruct (merge_order (S (length l + length us)) l us ltac:(lia) Hl Hu) as (H1 & H2 & _). apply Forall_forall. intros v Hv.
  pose proof (get_of _ v (in_order_nodup _ H1) Hv) as E. unfold merged in *. rewrite H2 in E. rewrite Forall_forall in Pl, Pu.
  destruct (get (v_Address v) us) eqn:E2; [injection E as ->; apply get_some in E2 as [? _]; auto|apply get_some in E as [? _]; auto].
Qed.

(** ** Removing *)

Lemma removals_fit l ds : in_order ds -> Forall (fun d => v_Address d ∈ map v_Address l) ds -> zlen ds <= zlen l.
Proof.
  intros Ho Hf. assert (Hsub : map v_Address ds ⊆+ map v_Address l).
  { apply NoDup_submseteq; [by apply in_order_nodup|]. intros a Ha. apply list_elem_of_fmap in Ha as (d & -> & Hd). rewrite Forall_forall in Hf. auto. }
  apply submseteq_length in Hsub. rewrite !length_map in Hsub. unfold zlen. lia.
Qed.

Definition kept (ds : list Validator) (v : Validator) : Prop := v_Address v ∉ map v_Address ds.
#[export] Instance kept_dec ds v : Decision (kept ds v) := _.

Lemma filter_kept_ext ds ds' (l : list Validator) : (forall v, v ∈ l -> kept ds v <-> kept ds' v) -> filter (kept ds) l = filter (kept ds') l.
Proof.
  induction l as [|v l IH]; intros H; [reflexivity|]. rewrite !filter_cons. rewrite IH by (intros w Hw; apply H; by constructor). pose proof (H v ltac:(constructor)).
  destruct (decide (kept ds v)), (decide (kept ds' v)); tauto || reflexivity.
Qed.

Lemma remove_exact l : forall ds, in_order l -> in_order ds -> Forall (fun d => v_Address d ∈ map v_Address l) ds ->
  remove_loop l ds (zlen l - zlen ds) = Val (filter (kept ds) l).
Proof.
  induction l as [|e l IH]; intros [|d ds] Hl Hd Hf.
  - reflexivity.
  - apply Forall_cons in Hf as [Hf _]. by apply not_elem_of_nil in Hf.
  - cbn [remove_loop]. change (zlen (@nil Validator)) with 0. rewrite Z.sub_0_r. destruct (Z.leb_spec (zlen (e :: l)) (zlen (e :: l))); [|lia].
    rewrite (filter_all (kept []) (e :: l)); [reflexivity|]. apply Forall_forall. intros v _. unfold kept. cbn. apply not_elem_of_nil.
  - apply in_order_tail in Hl as [Hl1 Hl2]. pose proof Hd as Hd0. apply in_order_tail in Hd as [Hd1 Hd2]. pose proof Hf as Hf0. apply Forall_cons in Hf as [Hfd Hf]. rewrite Forall_forall in Hf, Hl2, Hd2. cbn [map] in *.
    cbn [remove_loop]. destruct (Z.eqb_spec (v_Address e) (v_Address d)) as [Heq|Hne].
    + replace (zlen (e :: l) - zlen (d :: ds)) with (zlen l - zlen ds) by (rewrite !zlen_cons; lia). rewrite IH; [|assumption..|].
      * rewrite filter_cons_False by (unfold kept; cbn [map]; rewrite Heq; intros Hk; apply Hk; constructor). f_equal. apply filter_kept_ext. intros v Hv. specialize (Hl2 v Hv).
        unfold kept. cbn [map]. rewrite not_elem_of_cons. split; [intros H; split; [lia|exact H]|tauto].
      * apply Forall_forall. intros x Hx. specialize (Hf x Hx). specialize (Hd2 x Hx). apply elem_of_cons in Hf as [Hf|Hf]; [lia|exact Hf].
    + assert (Hin : Forall (fun x => v_Address x ∈ map v_Address l) (d :: ds)).
      { apply Forall_forall. intros x Hx. rewrite Forall_forall in Hf0. specialize (Hf0 x Hx). apply elem_of_cons in Hf0 as [E|Hin]; [|exact Hin]. apply elem_of_cons in Hfd as [E2|Hfd]; [congruence|].
        apply list_elem_of_fmap in Hfd as (w & Ew & Hw). specialize (Hl2 w Hw). apply elem_of_cons in Hx as [->|Hx]; [lia|]. specialize (Hd2 x Hx). lia. }
      pose proof (removals_fit l (d :: ds) Hd0 Hin). rewrite zlen_cons at 1. destruct (Z.leb_spec (1 + zlen l - zlen (d :: ds)) 0); [lia|].
      replace (zlen (e :: l) - zlen (d :: ds) - 1) with (zlen l - zlen (d :: ds)) by (rewrite (zlen_cons e); lia). rewrite IH by assumption. cbn [mbind Res_bind mret Res_ret].
      rewrite filter_cons_True; [reflexivity|]. unfold kept. cbn [map]. rewrite not_elem_of_cons. split; [exact Hne|]. intros Hin'. apply list_elem_of_fmap in Hin' as (x & Ex & Hx).
      rewrite Forall_forall in Hin. specialize (Hin x ltac:(by constructor)). apply list_elem_of_fmap in Hin as (w & Ew & Hw). specialize (Hl2 w Hw). lia.
Qed.

(** ** Checking the changes *)

Section Checks.
Context (s : ValidatorSet) (Hwf : wf s).
Abbreviation l := (Validators s).

Lemma order_of : in_order l.
Proof. apply Hwf. Qed.

Lemma Get_exact_ a : GetByAddress s a = Val (match find a l with Some (i, v) => (i, Some v) | None => (-1, None) end).
Proof. apply GetByAddress_exact; apply Hwf. Qed.

Lemma in_order_app_l us vs : in_order (us ++ vs) -> in_order us.
Proof.
  induction us as [|u us IH]; intros H; [constructor|]. cbn [app] in H. apply in_order_tail in H as [H1 H2]. apply in_order_cons; [auto|]. by apply Forall_app in H2 as [H2 _].
Qed.

Lemma total_of_app f us vs : total_of f (us ++ vs) = total_of f us + total_of f vs.
Proof. unfold total_of. induction us as [|u us IH]; cbn [app fold_right]; [lia|]. rewrite IH. lia. Qed.

Lemma partial_total us : in_order us -> Forall (fun v => 0 < VotingPower v) us -> 0 <= powers l + total_of (delta l) us.
Proof.
  intros Hu Hp. destruct (merge_totals (S (length l + length us)) l us ltac:(lia) order_of Hu) as [E _]. rewrite <- E.
  pose proof (powers_nonneg _ (merge_positive l us order_of Hu (wl_powers _ (wf_vals s Hwf)) Hp)) as H. pose proof (zlen_nonneg (merged l us)). unfold merged in *. lia.
Qed.

Lemma verify_updates_exact us : forall pre, in_order (pre ++ us) -> Forall (fun v => 0 < VotingPower v <= MaxTotalVotingPower) (pre ++ us) ->
  powers l + total_of (delta l) pre <= MaxTotalVotingPower ->
  (exists e, verify_updates us s (powers l + total_of (delta l) pre) (total_of (fresh_ l) pre) = Val (0, 0, Some e)) \/
  (verify_updates us s (powers l + total_of (delta l) pre) (total_of (fresh_ l) pre) = Val (powers l + total_of (delta l) (pre ++ us), total_of (fresh_ l) (pre ++ us), None) /\
   powers l + total_of (delta l) (pre ++ us) <= MaxTotalVotingPower).
Proof.
  induction us as [|u us IH]; intros pre Ho Hp Ht; cbn [verify_updates]; [rewrite app_nil_r in *; right; auto|].
  rewrite Get_exact_. cbn [mbind Res_bind]. assert (E1 : pre ++ u :: us = (pre ++ [u]) ++ us) by (by rewrite <- app_assoc).
  assert (Ed : total_of (delta l) (pre ++ [u]) = total_of (delta l) pre + delta l u) by (rewrite total_of_app; unfold total_of at 2; cbn [fold_right]; lia).
  assert (Ef : total_of (fresh_ l) (pre ++ [u]) = total_of (fresh_ l) pre + fresh_ l u) by (rewrite total_of_app; unfold total_of at 2; cbn [fold_right]; lia).
  pose proof (partial_total (pre ++ [u])) as Hlow. rewrite E1 in Ho, Hp |- *. specialize (Hlow (in_order_app_l _ _ Ho)).
  pose proof Hp as Hp'. apply Forall_app in Hp' as [Hpu _]. specialize (Hlow ltac:(eapply Forall_impl; [exact Hpu|]; cbn; lia)). rewrite Ed in Hlow.
  apply Forall_app in Hpu as [Hpp Hu1]. apply Forall_cons in Hu1 as [Hu1 _]. pose proof MaxTotal as HM.
  pose proof (partial_total pre (in_order_app_l _ _ (in_order_app_l _ _ Ho)) ltac:(eapply Forall_impl; [exact Hpp|]; cbn; lia)) as Hlow0.
  assert (Hstep : (let '(total, numNew) := match snd (match find (v_Address u) l with Some (i, v) => (i, Some v) | None => (-1, None) end) with
      | None => (i64 (powers l + total_of (delta l) pre + VotingPower u), total_of (fresh_ l) pre + 1)
      | Some v => (i64 (powers l + total_of (delta l) pre + i64 (VotingPower u - VotingPower v)), total_of (fresh_ l) pre) end in (total, numNew)) =
    (powers l + total_of (delta l) (pre ++ [u]), total_of (fresh_ l) (pre ++ [u]))).
  { rewrite Ed, Ef. assert (E2 : delta l u = VotingPower u - match find (v_Address u) l with Some (_, v) => VotingPower v | None => 0 end) by (unfold delta; rewrite find_get; by destruct (find _ l) as [[? ?]|]).
    assert (E3 : fresh_ l u = match find (v_Address u) l with Some _ => 0 | None => 1 end) by (unfold fresh_; rewrite find_get; by destruct (find _ l) as [[? ?]|]).
    rewrite E2 in Hlow |- *. rewrite E3. pose proof (wl_powers _ (wf_vals s Hwf)) as Hpos. destruct (find (v_Address u) l) as [[i v]|] eqn:Efd; cbn [snd].
    - destruct (find_spec _ _ _ _ Efd) as (_ & Hin & _). apply list_elem_of_lookup_2 in Hin. pose proof (power_le l v Hpos Hin) as Hv. pose proof (wl_total _ (wf_vals s Hwf)).
      rewrite Forall_forall in Hpos. specialize (Hpos v Hin). rewrite (i64_int (VotingPower u - VotingPower v)), i64_int by lia. f_equal; lia.
    - rewrite i64_int by lia. f_equal; lia. }
  destruct (find (v_Address u) l) as [[i v]|]; cbn [snd] in Hstep |- *; injection Hstep as -> ->.
  all: destruct (Z.ltb_spec MaxTotalVotingPower (powers l + total_of (delta l) (pre ++ [u]))); [left; eauto|apply IH; assumption].
Qed.

Lemma verifyUpdates_exact us : in_order us -> Forall (fun v => 0 < VotingPower v <= MaxTotalVotingPower) us ->
  (exists e, verifyUpdates us s = Val (0, 0, Some e, s)) \/
  (verifyUpdates us s = Val (powers (merged l us), zlen (merged l us) - zlen l, None, s) /\ powers (merged l us) <= MaxTotalVotingPower).
Proof.
  intros Ho Hp. unfold verifyUpdates. rewrite TotalVotingPower_exact by apply Hwf. cbn [mbind Res_bind].
  destruct (verify_updates_exact us [] Ho Hp) as [[e E]|[E Ht]]; [unfold total_of; cbn [fold_right]; pose proof (wl_total _ (wf_vals s Hwf)); lia|..];
    unfold total_of at 1 2 in E; cbn [fold_right] in E; rewrite Z.add_0_r in E; rewrite E; cbn [mbind Res_bind mret Res_ret app] in *; [left; eauto|right].
  destruct (merge_totals (S (length l + length us)) l us ltac:(lia) order_of Ho) as [E1 E2]. unfold merged. rewrite E1, E2. split; [|exact Ht]. do 4 f_equal. lia.
Qed.

(** New validators start at -1.125 times the total, the others keep their priority. *)
Definition priced (T : Z) (u : Validator) : Validator :=
  with_priority u (match get (v_Address u) l with None => - (T + T / 8) | Some v => ProposerPriority v end).

Lemma computeNew_exact T us : 0 <= T <= MaxTotalVotingPower -> computeNewPriorities us s T = Val (map (priced T) us).
Proof.
  intros HT. induction us as [|u us IH]; [reflexivity|]. cbn [computeNewPriorities]. rewrite Get_exact_. cbn [mbind Res_bind].
  cbn [map]. assert (Ep : priced T u = with_priority u (match find (v_Address u) l with None => - (T + T / 8) | Some (_, v) => ProposerPriority v end)) by (unfold priced; rewrite find_get; by destruct (find _ l) as [[? ?]|]).
  rewrite Ep. pose proof MaxTotal. rewrite Z.shiftr_div_pow2 by lia. change (2 ^ 3) with 8.
  assert (0 <= T / 8 <= T) by (split; [apply Z.div_pos|apply Z.div_le_upper_bound]; lia).
  destruct (find (v_Address u) l) as [[i v]|]; rewrite IH; cbn [mbind Res_bind mret Res_ret]; [reflexivity|]. rewrite (i64_int (T + T / 8)), i64_int by lia. reflexivity.
Qed.

Lemma priced_facts T us : map v_Address (map (priced T) us) = map v_Address us /\ (forall a, get a (map (priced T) us) = option_map (priced T) (get a us)) /\
  total_of (delta l) (map (priced T) us) = total_of (delta l) us.
Proof.
  split; [rewrite map_map; reflexivity|]. split; [intros a; induction us as [|u us IH]; [reflexivity|]; cbn [map get]; change (v_Address (priced T u)) with (v_Address u); by destruct (v_Address u =? a)|].
  induction us as [|u us IH]; [reflexivity|]. unfold total_of in *. cbn [map fold_right]. rewrite IH. reflexivity.
Qed.

Lemma verify_removals_exact ds : (exists e, verify_removals ds s = Val (Some e)) \/ (verify_removals ds s = Val None /\ Forall (fun d => v_Address d ∈ map v_Address l) ds).
Proof.
  induction ds as [|d ds IH]; [right; split; [reflexivity|constructor]|]. cbn [verify_removals]. rewrite Get_exact_. cbn [mbind Res_bind].
  destruct (find (v_Address d) l) as [[i v]|] eqn:E; [|left; eauto]. destruct IH as [[e E2]|[E2 Hf]]; [left; eauto|right]. split; [exact E2|]. constructor; [|exact Hf].
  destruct (find_spec _ _ _ _ E) as (_ & Hin & <-). apply list_elem_of_lookup_2 in Hin. apply list_elem_of_fmap. eauto.
Qed.

Lemma verifyRemovals_exact ds : in_order ds ->
  (exists e, verifyRemovals ds s = Val (Some e)) \/ (verifyRemovals ds s = Val None /\ Forall (fun d => v_Address d ∈ map v_Address l) ds).
Proof.
  intros Ho. unfold verifyRemovals. destruct (verify_removals_exact ds) as [[e ->]|[-> Hf]]; cbn [mbind Res_bind]; [left; eauto|right]. split; [|exact Hf].
  pose proof (removals_fit l ds Ho Hf). destruct (Z.ltb_spec (zlen l) (zlen ds)); [lia|reflexivity].
Qed.
End Checks.

(** ** The update *)

Definition power_of (a : Z) (l : list Validator) : option Z := option_map VotingPower (get a l).

Lemma power_reprio a f l : power_of a (reprio f l) = power_of a l.
Proof. unfold power_of. induction l as [|v l IH]; [reflexivity|]. unfold reprio in *. cbn [map get v_Address with_priority]. destruct (v_Address v =? a); [reflexivity|exact IH]. Qed.

Lemma powers_filter (P : Validator -> Prop) `{forall v, Decision (P v)} l : Forall (fun v => 0 < VotingPower v) l -> powers (filter P l) <= powers l.
Proof. induction 1 as [|v l Hv _ IH]; [reflexivity|]. rewrite filter_cons. unfold powers in *. destruct (decide (P v)); cbn [fold_right]; lia. Qed.

Lemma priced_fresh s T us : total_of (fresh_ (Validators s)) (map (priced s T) us) = total_of (fresh_ (Validators s)) us.
Proof. induction us as [|u us IH]; [reflexivity|]. unfold total_of in *. cbn [map fold_right]. rewrite IH. reflexivity. Qed.

Lemma Forall_filter_ {A} (P Q : A -> Prop) `{forall v, Decision (Q v)} l : Forall P l -> Forall P (filter Q l).
Proof. intros H'. rewrite Forall_forall in H' |- *. intros v Hv. apply list_elem_of_filter in Hv as [_ Hv]. auto. Qed.

Section Update.
Context (s : ValidatorSet) (Hwf : wf s) (us ds : list Validator).
Context (Hus : in_order us) (Hds : in_order ds) (Pus : Forall (fun v => 0 < VotingPower v <= MaxTotalVotingPower) us).
Context (Hin : Forall (fun d => v_Address d ∈ map v_Address (Validators s)) ds) (Hdis : forall a, a ∈ map v_Address ds -> a ∉ map v_Address us).
Abbreviation l := (Validators s).
Abbreviation T := (powers (merged l us)).
Context (HT : T <= MaxTotalVotingPower).

Definition applied : list Validator := filter (kept ds) (merged l (map (priced s T) us)).

Lemma priced_order : in_order (map (priced s T) us).
Proof. unfold in_order. destruct (priced_facts s T us) as [-> _]. exact Hus. Qed.

Lemma merged_facts : in_order (merged l (map (priced s T) us)) /\ powers (merged l (map (priced s T) us)) = T /\ zlen (merged l (map (priced s T) us)) = zlen (merged l us) /\
  (forall a, get a (merged l (map (priced s T) us)) = match get a us with Some u => Some (priced s T u) | None => get a l end).
Proof.
  pose proof (order_of s Hwf) as Hl. pose proof priced_order as Hp. destruct (priced_facts s T us) as (_ & Eg & Ed).
  destruct (merge_order (S (length l + length (map (priced s T) us))) l (map (priced s T) us) ltac:(lia) Hl Hp) as (H1 & H2 & _).
  destruct (merge_totals (S (length l + length (map (priced s T) us))) l (map (priced s T) us) ltac:(lia) Hl Hp) as (H3 & H4).
  destruct (merge_totals (S (length l + length us)) l us ltac:(lia) Hl Hus) as (H5 & H6). fold (merged l us) in *. fold (merged l (map (priced s T) us)) in *.
  split; [exact H1|]. split; [rewrite H3, Ed; by symmetry|]. split; [rewrite H4, priced_fresh; by symmetry|]. intros a. rewrite H2, Eg. by destruct (get a us).
Qed.

Lemma T_range : 0 <= T.
Proof.
  pose proof (powers_nonneg _ (merge_positive l us (order_of s Hwf) Hus (wl_powers _ (wf_vals s Hwf)) ltac:(eapply Forall_impl; [exact Pus|]; cbn; lia))). pose proof (zlen_nonneg (merged l us)). lia.
Qed.

Lemma applied_wf : wf_list applied.
Proof.
  destruct merged_facts as (M1 & M2 & _ & M4). pose proof (wf_vals s Hwf) as [_ W2 W3 W4]. pose proof T_range.
  assert (Hpos : Forall (fun v => 0 < VotingPower v) (merged l (map (priced s T) us))).
  { apply merge_positive; [apply order_of, Hwf|apply priced_order|exact W2|]. apply Forall_map. eapply Forall_impl; [exact Pus|]. cbn. lia. }
  split; unfold applied.
  - by apply in_order_filter.
  - by apply Forall_filter_.
  - pose proof (powers_filter (kept ds) _ Hpos). lia.
  - apply Forall_filter_. apply Forall_forall. intros v Hv. pose proof (get_of _ v (in_order_nodup _ M1) Hv) as E. rewrite M4 in E. rewrite Forall_forall in W4.
    destruct (get (v_Address v) us) as [u|]; [|apply get_some in E as [E _]; auto]. injection E as <-. unfold priced. cbn [ProposerPriority with_priority v_Address].
    destruct (get (v_Address u) l) as [w|] eqn:Ew; [apply get_some in Ew as [Ew _]; auto|]. pose proof MaxTotal. unfold prio_bound.
    assert (0 <= T / 8 <= T) by (split; [apply Z.div_pos|apply Z.div_le_upper_bound]; lia). lia.
Qed.

Lemma applied_power a : power_of a applied = if decide (a ∈ map v_Address ds) then None else match get a us with Some u => Some (VotingPower u) | None => power_of a l end.
Proof.
  destruct merged_facts as (M1 & _ & _ & M4). unfold power_of, applied. rewrite get_filter by by apply in_order_nodup. rewrite M4.
  destruct (decide (a ∈ map v_Address ds)) as [Ha|Ha].
  - pose proof (Hdis a Ha) as Hn. apply get_none in Hn. rewrite Hn. destruct (get a l) as [v|] eqn:E; [|reflexivity]. apply get_some in E as [_ Ea]. rewrite decide_False; [reflexivity|]. unfold kept. rewrite Ea. tauto.
  - destruct (get a us) as [u|] eqn:E; [apply get_some in E as [_ Ea]; rewrite decide_True; [reflexivity|unfold kept; change (v_Address (priced s T u)) with (v_Address u); by rewrite Ea]|].
    destruct (get a l) as [v|] eqn:El; [|reflexivity]. apply get_some in El as [_ Ea]. rewrite decide_True; [reflexivity|]. unfold kept. by rewrite Ea.
Qed.

Lemma applied_nonempty : negb ((zlen (merged l us) - zlen l =? 0) && (zlen l =? zlen ds)) = true -> applied <> [].
Proof.
  intros Hc E. destruct merged_facts as (M1 & _ & M3 & _). assert (Hall : Forall (fun v => v_Address v ∈ map v_Address ds) (merged l (map (priced s T) us))).
  { apply Forall_forall. intros v Hv. destruct (decide (v_Address v ∈ map v_Address ds)) as [|Hn]; [assumption|exfalso]. unfold applied in E. eapply (filter_nil_not_elem_of (kept ds) _ v E Hn Hv). }
  pose proof (removals_fit ds _ M1 Hall) as H1. pose proof (removals_fit l ds Hds Hin) as H2. rewrite M3 in H1.
  destruct (merge_totals (S (length l + length us)) l us ltac:(lia) (order_of s Hwf) Hus) as (_ & H6). fold (merged l us) in H6.
  assert (0 <= total_of (fresh_ l) us) by (clear; induction us as [|u us' IH]; unfold total_of in *; cbn [fold_right]; [lia|]; unfold fresh_ at 1; destruct (get _ _); lia).
  destruct (Z.eqb_spec (zlen (merged l us) - zlen l) 0), (Z.eqb_spec (zlen l) (zlen ds)); cbn in Hc; try discriminate; lia.
Qed.

(** Applying the changes, up to the centring of the priorities. *)
Lemma updateValidators_exact : updateValidators (map (priced s T) us) ds s = Val (UpdateValidatorMap (with_validators s applied)).
Proof.
  destruct merged_facts as (M1 & _ & M3 & M4). unfold updateValidators, applyRemovals, applyUpdates. cbn [Validators with_validators]. fold (merged l (map (priced s T) us)).
  assert (Hin' : Forall (fun d => v_Address d ∈ map v_Address (merged l (map (priced s T) us))) ds).
  { eapply Forall_impl; [exact Hin|]. cbn. intros d Hd. destruct (decide (v_Address d ∈ map v_Address (merged l (map (priced s T) us)))) as [|Hn]; [assumption|exfalso].
    apply get_none in Hn. rewrite M4 in Hn. destruct (get (v_Address d) us); [discriminate|]. by apply get_none in Hn. }
  pose proof (removals_fit _ ds Hds Hin'). destruct (Z.ltb_spec (zlen (merged l (map (priced s T) us)) - zlen ds) 0); [lia|]. rewrite remove_exact by assumption. reflexivity.
Qed.
End Update.

Lemma same_proposer s : with_proposer s (Proposer s) = s.
Proof. by destruct s. Qed.

(** Once the checks have passed. *)
Lemma settle_update s us ds : wf s -> in_order us -> in_order ds -> Forall (fun v => 0 < VotingPower v <= MaxTotalVotingPower) us ->
  Forall (fun d => v_Address d ∈ map v_Address (Validators s)) ds -> (forall a, a ∈ map v_Address ds -> a ∉ map v_Address us) ->
  powers (merged (Validators s) us) <= MaxTotalVotingPower -> applied s us ds <> [] ->
  exists s1 s', UpdateTotalVotingPower (UpdateValidatorMap (with_validators s (applied s us ds))) = (None, s1) /\ normalise s1 = Val s' /\ wf s' /\ Validators s' <> [] /\
    (forall a, power_of a (Validators s') = power_of a (applied s us ds)) /\ centred (powers (Validators s')) (Validators s') /\
    Forall (fun v => ProposerPriority v <= 2 * powers (Validators s')) (Validators s').
Proof.
  intros Hwf Hus Hds Pus Hin Hdis HT Hne. pose proof (applied_wf s Hwf us ds Hus Pus HT) as Hw. set (R := applied s us ds) in *.
  unfold UpdateTotalVotingPower. cbn [Validators UpdateValidatorMap with_validators]. rewrite sum_powers_exact by (try apply Hw; lia). rewrite Z.add_0_l.
  eexists. set (s3 := with_total _ (powers R)). assert (Hs3 : wf s3) by (split; [exact Hw|reflexivity|reflexivity]).
  destruct (normalise_exact s3) as (f & En & Hw' & Hc & Hf); [exact Hne|exact Hw|reflexivity|]. exists (with_validators s3 (reprio f R)). split; [reflexivity|]. split; [exact En|].
  cbn [Validators with_validators]. split; [rewrite <- (same_proposer (with_validators _ _)); by apply (wf_reprio s3)|]. rewrite reprio_powers. change (Validators s3) with R in *.
  split; [unfold reprio; destruct R; [done|discriminate]|]. split; [intros a; apply power_reprio|]. split; [exact Hc|]. apply reprio_Forall. exact Hf.
Qed.

(** What the changes ask for. *)
Definition requested (changes : list Validator) (s : ValidatorSet) (a : Z) : option Z :=
  match get a changes with
  | Some u => if VotingPower u =? 0 then None else Some (VotingPower u)
  | None => power_of a (Validators s)
  end.

Lemma requested_split c s a : in_order c ->
  (if decide (a ∈ map v_Address (filter is_removal c)) then None else match get a (filter is_update c) with Some u => Some (VotingPower u) | None => power_of a (Validators s) end) = requested c s a.
Proof.
  intros Ho. pose proof (in_order_nodup c Ho) as Hd. unfold requested. pose proof (get_filter is_removal a c Hd) as Er. pose proof (get_filter is_update a c Hd) as Eu.
  destruct (get a c) as [u|] eqn:E.
  - destruct (Z.eqb_spec (VotingPower u) 0) as [H0|H0].
    + rewrite decide_True in Er by exact H0. rewrite decide_True; [reflexivity|]. destruct (decide (a ∈ map v_Address (filter is_removal c))) as [|Hn]; [assumption|]. apply get_none in Hn. congruence.
    + rewrite decide_False in Er by exact H0. rewrite decide_True in Eu by exact H0. apply get_none in Er. rewrite decide_False by exact Er. by rewrite Eu.
  - apply get_none in Er. rewrite decide_False by exact Er. by rewrite Eu.
Qed.

(** C24 An update of a well-formed validator set does what the changes ask, or nothing: the
    call never panics; when it reports an error the set is unchanged; otherwise no validator
    was changed twice, the power of every address is the one requested (none for a removed
    validator, the old one when it is not mentioned), the set is well formed and not empty,
    and the priorities are centred and within two totals of zero. *)
Theorem UpdateWithChangeSet_refines changes s : wf s -> changes <> [] ->
  exists err s', UpdateWithChangeSet changes s = Val (err, s') /\ wf s' /\
    match err with
    | Some _ => s' = s
    | None =>
        NoDup (map v_Address changes) /\ Validators s' <> [] /\ (forall a, power_of a (Validators s') = requested changes s a) /\
        centred (powers (Validators s')) (Validators s') /\ Forall (fun v => ProposerPriority v <= 2 * powers (Validators s')) (Validators s')
    end.
Proof.
  intros Hwf Hne. unfold UpdateWithChangeSet, updateWithChangeSet.
  destruct (Z.ltb_spec (zlen changes) 1) as [Hlt|_]; [destruct changes as [|c cs]; [done|]; rewrite zlen_cons in Hlt; pose proof (zlen_nonneg cs); lia|].
  unfold processChanges. set (c := sort_by_address changes).
  destruct (split_exact c None [] [] (sort_ordered changes) ltac:(discriminate)) as [(x & y & e & ->)|(-> & Ho & _ & Hp)]; [exists (Some e), s; auto|].
  cbn [app negb andb]. set (us := filter is_update c). set (ds := filter is_removal c).
  assert (Hus : in_order us) by by apply in_order_filter. assert (Hds : in_order ds) by by apply in_order_filter.
  assert (Pus : Forall (fun v => 0 < VotingPower v <= MaxTotalVotingPower) us).
  { apply Forall_forall. intros v Hv. apply list_elem_of_filter in Hv as [Hu Hv]. unfold is_update in Hu. rewrite Forall_forall in Hp. specialize (Hp v Hv). lia. }
  assert (Hdis : forall a, a ∈ map v_Address ds -> a ∉ map v_Address us).
  { intros a Ha Hu. apply list_elem_of_fmap in Ha as (d & -> & Hd), Hu as (u & E & Hu). apply list_elem_of_filter in Hd as [D1 D2], Hu as [U1 U2].
    rewrite (address_unique c d u (in_order_nodup c Ho) D2 U2 E) in D1. by apply U1. }
  destruct (verifyRemovals_exact s Hwf ds Hds) as [[e ->]|[-> Hin]]; cbn [mbind Res_bind]; [exists (Some e), s; auto|].
  destruct (verifyUpdates_exact s Hwf us Hus Pus) as [[e ->]|[-> HT]]; cbn [mbind Res_bind]; [exists (Some e), s; auto|].
  destruct ((zlen (merged (Validators s) us) - zlen (Validators s) =? 0) && (zlen (Validators s) =? zlen ds)) eqn:Ec; [eexists (Some _), s; auto|].
  rewrite computeNew_exact by first [assumption | split; [by apply T_range|exact HT]]. cbn [mbind Res_bind]. rewrite updateValidators_exact by assumption. cbn [mbind Res_bind].
  destruct (settle_update s us ds Hwf Hus Hds Pus Hin Hdis HT) as (s1 & s' & E1 & E2 & Hw' & Hn' & Hpow & Hc & Hup); [apply applied_nonempty; try assumption; by rewrite Ec|].
  rewrite E1. unfold normalise in E2. destruct (TotalVotingPower s1) as [[tot sa]| |]; cbn [mbind Res_bind] in *; [|discriminate..].
  destruct (RescalePriorities _ sa) as [sb| |]; cbn [mbind Res_bind] in *; [|discriminate..]. rewrite E2. cbn [mbind Res_bind mret Res_ret]. exists None, s'. split; [reflexivity|]. split; [exact Hw'|].
  pose proof (in_order_nodup c Ho) as Hd. assert (Hm : map v_Address c ≡ₚ map v_Address changes) by apply (fmap_Permutation v_Address), sort_perm.
  split; [by rewrite <- Hm|]. split; [exact Hn'|]. split; [|auto]. intros a. rewrite Hpow, applied_power by assumption. unfold us, ds. rewrite requested_split by exact Ho.
  unfold requested. by rewrite (get_perm a c changes Hd (sort_perm changes)).
Qed.

(** ** Succession *)

Lemma find_lookup l : NoDup (map v_Address l) -> forall i v, l !! i = Some v -> find (v_Address v) l = Some (Z.of_nat i, v).
Proof.
  induction l as [|w l IH]; intros Hd i v Hi; [discriminate|]. cbn [map] in Hd. apply NoDup_cons in Hd as [Hw Hd]. cbn [find]. destruct i as [|i]; cbn in Hi.
  - injection Hi as ->. by rewrite Z.eqb_refl.
  - destruct (Z.eqb_spec (v_Address w) (v_Address v)) as [E|_]; [|rewrite (IH Hd i v Hi); do 2 f_equal; lia].
    destruct Hw. rewrite E. apply list_elem_of_fmap. exists v. split; [reflexivity|]. by eapply list_elem_of_lookup_2.
Qed.

Lemma Succession_exact s j p i v : wf s -> Validators s !! j = Some p -> Proposer s = Some (v_Address p) -> Validators s !! i = Some v ->
  GetSignerSuccessionNumber (v_Address v) s = Val ((Z.of_nat i - Z.of_nat j) mod zlen (Validators s), None, s).
Proof.
  intros Hwf Hj Hp Hi. pose proof (in_order_nodup _ (order_of s Hwf)) as Hd. pose proof (lookup_lt_Some _ _ _ Hj) as Lj. pose proof (lookup_lt_Some _ _ _ Hi) as Li.
  unfold GetSignerSuccessionNumber, GetProposer. destruct (Z.eqb_spec (zlen (Validators s)) 0); [unfold zlen in *; lia|]. rewrite Hp. cbn [mbind Res_bind mret Res_ret]. rewrite Hp. cbn [mbind Res_bind mret Res_ret].
  rewrite (Get_exact_ s Hwf (v_Address p)), (find_lookup _ Hd j p Hj). cbn [mbind Res_bind]. destruct (Z.ltb_spec (Z.of_nat j) 0); [lia|]. rewrite (Get_exact_ s Hwf (v_Address v)), (find_lookup _ Hd i v Hi). cbn [mbind Res_bind].
  destruct (Z.ltb_spec (Z.of_nat i) 0); [lia|]. cbn [mret Res_ret]. do 3 f_equal. unfold zlen in *. destruct (Z.ltb_spec (Z.of_nat i - Z.of_nat j) 0).
  - apply (Z.mod_unique _ _ (-1)); lia.
  - symmetry. apply Z.mod_small. lia.
Qed.

(** Difficulties rank the signers: counting from the proposer on in address order, and
    around the end, the proposer has the difficulty [n] of the size of the set, each next
    signer one less, so that every difficulty from 1 to [n] belongs to exactly one signer;
    an address outside the set gets an error. *)
Theorem Difficulty_ranks s j p : wf s -> Validators s !! j = Some p -> Proposer s = Some (v_Address p) ->
  let n := zlen (Validators s) in
  (forall i v, Validators s !! i = Some v -> Difficulty (v_Address v) s = Val (n - (Z.of_nat i - Z.of_nat j) mod n, None, s)) /\
  (forall d, 1 <= d <= n -> exists i v, Validators s !! i = Some v /\ Difficulty (v_Address v) s = Val (d, None, s) /\
     forall w, w ∈ Validators s -> Difficulty (v_Address w) s = Val (d, None, s) -> w = v) /\
  (forall a, a ∉ map v_Address (Validators s) -> exists e, Difficulty a s = Val (0, Some e, s)).
Proof.
  intros Hwf Hj Hp n. pose proof (lookup_lt_Some _ _ _ Hj) as Lj. assert (Hn : 0 < n) by (unfold n, zlen; lia). pose proof (wf_vals s Hwf) as [_ W2 W3 _]. pose proof (powers_nonneg _ W2) as Hpw. pose proof MaxTotal. fold n in Hpw.
  assert (Hex : forall i v, Validators s !! i = Some v -> Difficulty (v_Address v) s = Val (n - (Z.of_nat i - Z.of_nat j) mod n, None, s)).
  { intros i v Hi. unfold Difficulty. rewrite (Succession_exact s j p i v Hwf Hj Hp Hi). cbn [mbind Res_bind mret Res_ret]. fold n. pose proof (Z.mod_pos_bound (Z.of_nat i - Z.of_nat j) n Hn). rewrite u64_id by (unfold is_u64, two64; lia). reflexivity. }
  split; [exact Hex|]. split.
  - intros d Hd. set (i := Z.to_nat ((n - d + Z.of_nat j) mod n)). pose proof (Z.mod_pos_bound (n - d + Z.of_nat j) n Hn) as Hb. destruct (lookup_lt_is_Some_2 (Validators s) i) as [v Hv]; [unfold i, n, zlen in *; lia|].
    assert (Ed : forall k, (0 <= k < n) -> n - (k - Z.of_nat j) mod n = d -> k = (n - d + Z.of_nat j) mod n).
    { intros k Hk E. replace (n - d) with ((k - Z.of_nat j) mod n) by lia. rewrite Zplus_mod_idemp_l. replace (k - Z.of_nat j + Z.of_nat j) with k by lia. symmetry. by apply Z.mod_small. }
    exists i, v. split; [exact Hv|]. split.
    + rewrite (Hex i v Hv). do 3 f_equal. unfold i. rewrite Z2Nat.id by lia. rewrite Zminus_mod_idemp_l. replace (n - d + Z.of_nat j - Z.of_nat j) with (n - d) by lia.
      destruct (Z.eq_dec d n) as [->|]; [rewrite Z.sub_diag, Z.mod_0_l by lia; lia|]. rewrite Z.mod_small by lia. lia.
    + intros w Hw E. apply list_elem_of_lookup in Hw as [k Hk]. rewrite (Hex k w Hk) in E. injection E as E. pose proof (lookup_lt_Some _ _ _ Hk) as Lk. specialize (Ed (Z.of_nat k) ltac:(unfold n, zlen; lia) E).
      assert (k = i) by (unfold i; lia). subst k. congruence.
  - intros a Ha. unfold Difficulty, GetSignerSuccessionNumber, GetProposer. fold n. destruct (Z.eqb_spec n 0); [lia|]. rewrite Hp. cbn [mbind Res_bind mret Res_ret]. rewrite Hp. cbn [mbind Res_bind mret Res_ret].
    rewrite (Get_exact_ s Hwf (v_Address p)), (find_lookup _ (in_order_nodup _ (order_of s Hwf)) j p Hj). cbn [mbind Res_bind]. destruct (Z.ltb_spec (Z.of_nat j) 0); [lia|]. rewrite (Get_exact_ s Hwf a). apply find_none in Ha. rewrite Ha. cbn. eauto.
Qed.

(** ** Bytes *)

Lemma parse_header vs : Forall (fun v => 0 <= v_Address v < two160 /\ 0 <= VotingPower v <= MaxInt64) vs ->
  ParseValidators (concat (map HeaderBytes vs)) = (map (fun v => NewValidator (v_Address v) (VotingPower v)) vs, None).
Proof.
  intros Hv. unfold ParseValidators. assert (Hl : forall vs, zlen (concat (map HeaderBytes vs)) = 40 * zlen vs).
  { clear. induction vs as [|v vs IH]; [reflexivity|]. cbn [map concat]. rewrite zlen_app, IH, zlen_cons. unfold HeaderBytes, addr_bytes, PowerBytes. rewrite zlen_app. unfold zlen at 1 2. rewrite !length_Z_to_be. lia. }
  rewrite Hl. replace (40 * zlen vs) with (zlen vs * 40) by lia. rewrite Z.mod_mul, Z.div_mul by lia. cbn [Z.eqb negb]. f_equal. unfold zlen. rewrite Nat2Z.id.
  induction Hv as [|v vs [Ha Hp] _ IH]; [reflexivity|]. cbn [map concat length parse_loop]. assert (La : length (addr_bytes (v_Address v)) = 20%nat) by apply length_Z_to_be. assert (Lp : length (PowerBytes v) = 20%nat) by apply length_Z_to_be.
  set (rest := concat (map HeaderBytes vs)) in *. set (n := length vs) in *. change (HeaderBytes v) with (addr_bytes (v_Address v) ++ PowerBytes v).
  assert (E1 : take 20 ((addr_bytes (v_Address v) ++ PowerBytes v) ++ rest) = addr_bytes (v_Address v)) by (rewrite <- app_assoc, take_app_le, take_ge by lia; reflexivity).
  assert (E2 : take 20 (drop 20 ((addr_bytes (v_Address v) ++ PowerBytes v) ++ rest)) = PowerBytes v) by (rewrite <- app_assoc, drop_app_ge, La, Nat.sub_diag, drop_0, take_app_le, take_ge by lia; reflexivity).
  assert (E3 : drop 40 ((addr_bytes (v_Address v) ++ PowerBytes v) ++ rest) = rest) by (rewrite drop_app_ge, length_app, La, Lp by (rewrite length_app; lia); reflexivity).
  rewrite E1, E2, E3, IH. unfold addr_bytes, PowerBytes. rewrite !be_to_Z_Z_to_be by lia.
  change (256 ^ Z.of_nat 20) with two160. unfold MaxInt64 in Hp. rewrite (Z.mod_small (v_Address v)) by exact Ha. rewrite Z.abs_eq, Z.mod_small by (unfold two160; lia). rewrite i64_int by lia. reflexivity.
Qed.

(** ** Instances *)

Definition sample_changes : list Validator := [mkValidator 0 11 50 0; mkValidator 1 5 0 0; mkValidator 2 3 7 0].

Lemma UpdateWithChangeSet_refines_witness : wf sample_set /\
  exists err s', UpdateWithChangeSet sample_changes sample_set = Val (err, s') /\ wf s' /\
    match err with
    | Some _ => s' = sample_set
    | None =>
        NoDup (map v_Address sample_changes) /\ Validators s' <> [] /\ (forall a, power_of a (Validators s') = requested sample_changes sample_set a) /\
        centred (powers (Validators s')) (Validators s') /\ Forall (fun v => ProposerPriority v <= 2 * powers (Validators s')) (Validators s')
    end.
Proof. split; [apply sample_wf|]. apply UpdateWithChangeSet_refines; [apply sample_wf|discriminate]. Defined.

(** These changes are accepted. *)
Lemma sample_accepted : exists s', UpdateWithChangeSet sample_changes sample_set = Val (None, s').
Proof. vm_compute. eauto. Qed.

Lemma Difficulty_ranks_witness : wf sample_set /\ Validators sample_set !! 2%nat = Some (mkValidator 3 9 100 (-11)) /\
  let n := zlen (Validators sample_set) in
  (forall i v, Validators sample_set !! i = Some v -> Difficulty (v_Address v) sample_set = Val (n - (Z.of_nat i - Z.of_nat 2) mod n, None, sample_set)) /\
  (forall d, 1 <= d <= n -> exists i v, Validators sample_set !! i = Some v /\ Difficulty (v_Address v) sample_set = Val (d, None, sample_set) /\
     forall w, w ∈ Validators sample_set -> Difficulty (v_Address w) sample_set = Val (d, None, sample_set) -> w = v) /\
  (forall a, a ∉ map v_Address (Validators sample_set) -> exists e, Difficulty a sample_set = Val (0, Some e, sample_set)).
Proof. split; [apply sample_wf|]. split; [reflexivity|]. apply (Difficulty_ranks sample_set 2 (mkValidator 3 9 100 (-11))); [apply sample_wf|reflexivity|reflexivity]. Defined.

(** [GetUpdatedValidatorSet] changes the powers in place before it updates the set, and only
    logs the error: with no validators left the update is rejected, and the set it returns
    has powers of zero under the old total. *)
Lemma GetUpdatedValidatorSet_unchecked :
  match GetUpdatedValidatorSet sample_set [] with
  | Val s' => map VotingPower (Validators s') = [0; 0; 0] /\ totalVotingPower s' = 111
  | _ => False
  end.
Proof. vm_compute. auto. Qed.
