(* ===== verification/ForkId.v ===== *)
(** * Fork identifiers

    [p2p/forkid/forkid.go] (EIP-2124): the checksum of the forks a node has passed with the
    next one it knows, and the filter that decides by it which peers are on a compatible
    chain. [crc32] is Go's: the IEEE polynomial, a byte at a time. *)

From stdpp Require Import sorting.
From S2P Require Import Prelude Errors Machine ChainConfig.
Import chain.

(** ** Checksums *)

Definition crc_bit (crc : Z) : Z := if Z.testbit crc 0 then Z.lxor (Z.shiftr crc 1) 0xedb88320 else Z.shiftr crc 1.
Definition crc_table (b : Z) : Z := Nat.iter 8 crc_bit b.
Definition not32 (x : Z) : Z := Z.lxor x 0xffffffff.
Definition crc32_Update (crc : Z) (p : bytes) : Z :=
  not32 (fold_left (fun crc b => Z.lxor (crc_table (Z.lxor (Z.land crc 255) (byteZ b))) (Z.shiftr crc 8)) p (not32 crc)).
Definition ChecksumIEEE (p : bytes) : Z := crc32_Update 0 p.

Definition ChecksumUpdate (hash fork : Z) : Z := crc32_Update hash (Z_to_be 8 fork).
Definition ChecksumToBytes (hash : Z) : bytes := Z_to_be 4 hash.

(** ** Identifiers *)

Record ID : Type := mkID { id_Hash : bytes; Activation : Z; Next : Z }.

Definition ErrRemoteStale : Error := NewError "remote needs update".
Definition ErrLocalIncompatibleOrStale : Error := NewError "local incompatible or needs update".

(** The forks up to the first one not passed: the checksum and the last activation, and
    that fork. *)
Fixpoint pass_forks (head : Z) (forks : list Z) (hash activation : Z) {struct forks} : Z * Z * option Z :=
  match forks with
  | [] => (hash, activation, None)
  | fork :: forks =>
      if fork <=? head then pass_forks head forks (ChecksumUpdate hash fork) fork else (hash, activation, Some fork)
  end.

Definition NewIDFromForks (heightForks timeForks : list Z) (genesis : bytes) (headHeight headTime : Z) : ID :=
  match pass_forks headHeight heightForks (ChecksumIEEE genesis) 0 with
  | (hash, activation, Some fork) => mkID (ChecksumToBytes hash) activation fork
  | (hash, activation, None) =>
      match pass_forks headTime timeForks hash activation with
      | (hash, activation, next) => mkID (ChecksumToBytes hash) activation (match next with Some fork => fork | None => 0 end)
      end
  end.

Definition NextForkHashFromForks (heightForks timeForks : list Z) (genesis : bytes) (headHeight headTime : Z) : bytes :=
  let id := NewIDFromForks heightForks timeForks genesis headHeight headTime in
  if Next id =? 0 then id_Hash id else ChecksumToBytes (ChecksumUpdate (be_to_Z (id_Hash id)) (Next id)).

(** ** The filter *)

Definition forkIsTimeBased (fork : Z) : bool := 1670000000 <=? fork.

(** The checksums after each fork, the genesis first. *)
Fixpoint fork_sums (hash : Z) (forks : list Z) {struct forks} : list bytes :=
  ChecksumToBytes hash :: match forks with [] => [] | fork :: forks => fork_sums (ChecksumUpdate hash fork) forks end.

(** The first index whose checksum is [h], and what [f] says of it. *)
Fixpoint find_sum (h : bytes) (sums : list bytes) (j : nat) : option nat :=
  match sums with
  | [] => None
  | s :: sums => if decide (s = h) then Some j else find_sum h sums (S j)
  end.

Section Filter.
Context (headHeight headTime : Z).

Definition fork_passed (fork : Z) : bool := (fork <? headHeight) || (forkIsTimeBased fork && (fork <? headTime)).

(** The decision at the first fork that is not passed, the [i]-th. *)
Definition decide_fork (forks : list Z) (sums : list bytes) (i : nat) (id : ID) : Res (option Error) :=
  match sums !! i with
  | None => Panic "index out of range"
  | Some s =>
      if decide (s = id_Hash id) then
        if (0 <? Next id) && ((Next id <=? headHeight) || (forkIsTimeBased (Next id) && (Next id <=? headTime)))
        then mret (Some ErrLocalIncompatibleOrStale)
        else mret None
      else
        match find_sum (id_Hash id) (take i sums) 0 with
        | Some j =>
            match forks !! j with
            | None => Panic "index out of range"
            | Some fork => if negb (fork =? Next id) then mret (Some ErrRemoteStale) else mret None
            end
        | None =>
            match find_sum (id_Hash id) (drop (S i) sums) (S i) with
            | Some _ => mret None
            | None => mret (Some ErrLocalIncompatibleOrStale)
            end
        end
  end.

Fixpoint filter_loop (rest forks : list Z) (sums : list bytes) (i : nat) (id : ID) : Res (option Error) :=
  match rest with
  | [] => mret None
  | fork :: rest => if fork_passed fork then filter_loop rest forks sums (S i) id else decide_fork forks sums i id
  end.

Definition newFilter (heightForks timeForks : list Z) (genesis : bytes) (id : ID) : Res (option Error) :=
  let forks := heightForks ++ timeForks in
  let sums := fork_sums (ChecksumIEEE genesis) forks in
  let forks := forks ++ [MaxUint64] in
  filter_loop forks forks sums 0 id.
End Filter.

Definition NewFilterFromForks (heightForks timeForks : list Z) (genesis : bytes) (headHeight headTime : Z) : ID -> Res (option Error) :=
  newFilter headHeight headTime heightForks timeForks genesis.

(** ** The forks of a configuration *)

(** The loop that shortens the slice where two neighbours are equal. *)
Fixpoint RemoveDuplicatesFromSorted (l : list Z) : list Z :=
  match l with
  | x :: (y :: _) as l' => if x =? y then RemoveDuplicatesFromSorted l' else x :: RemoveDuplicatesFromSorted l'
  | _ => l
  end.

(** The fields whose name ends in "Block", resp. "Time", and whose type is [*big.Int]. *)
Definition block_fields (c : Config) : list (option Z) :=
  [HomesteadBlock c; DAOForkBlock c; TangerineWhistleBlock c; SpuriousDragonBlock c; ByzantiumBlock c; ConstantinopleBlock c; PetersburgBlock c;
   IstanbulBlock c; MuirGlacierBlock c; BerlinBlock c; LondonBlock c; ArrowGlacierBlock c; GrayGlacierBlock c; MergeNetsplitBlock c].
Definition time_fields (c : Config) : list (option Z) :=
  [ShanghaiTime c; CancunTime c; PragueTime c; OsakaTime c; Bpo1Time c; Bpo2Time c; Bpo3Time c; Bpo4Time c; Bpo5Time c].

Definition bor_fields (c : Config) : list (option Z) :=
  match Bor c with Some b => [AgraBlock b; NapoliBlock b; BhilaiBlock b] | None => [] end.

Definition given (l : list (option Z)) : list Z := map big_Uint64 (omap id l).

Definition drop_zero (l : list Z) : list Z := match l with 0 :: l => l | _ => l end.

(** [posdaoTransition] is [config.Aura.PosdaoTransition], when there is one. *)
Definition GatherForks (c : Config) (posdaoTransition : option Z) (genesisTime : Z) : list Z * list Z :=
  let heightForks := given (block_fields c) ++ omap id [posdaoTransition] ++ given (bor_fields c) in
  let timeForks := filter (fun t => genesisTime < t) (given (time_fields c)) in
  (drop_zero (RemoveDuplicatesFromSorted (merge_sort Z.le heightForks)), drop_zero (RemoveDuplicatesFromSorted (merge_sort Z.le timeForks))).

Definition NewStaticFilter (c : Config) (posdaoTransition : option Z) (genesisHash : bytes) (genesisTime : Z) : ID -> Res (option Error) :=
  let '(heightForks, timeForks) := GatherForks c posdaoTransition genesisTime in
  newFilter 0 genesisTime heightForks timeForks genesisHash.

(** ** Compatible nodes accept each other *)

(** The checksum of the mainnet genesis, and after its first fork, as in the EIP. *)
Example frontier_sum : let genesis := Z_to_be 32 0xd4e56740f876aef8c010b86a40d5f56745a118d0906a34e69aec8c0db1cb8fa3 in
  ChecksumIEEE genesis = 0xfc64ec04 /\ ChecksumUpdate (ChecksumIEEE genesis) 1150000 = 0x97c2c34c.
Proof. vm_compute. auto. Qed.

#[local] Opaque crc32_Update ChecksumUpdate ChecksumIEEE.

(** The checksum of the first [k] forks. *)
Lemma fork_sums_length hash forks : length (fork_sums hash forks) = S (length forks).
Proof. revert hash. induction forks as [|f forks IH]; intros hash; cbn [fork_sums length]; [reflexivity|]. by rewrite IH. Qed.

(** How many of the leading forks are passed. *)
Fixpoint leading (p : Z -> bool) (forks : list Z) : nat :=
  match forks with [] => O | f :: forks => if p f then S (leading p forks) else O end.

Lemma leading_le p forks : (leading p forks <= length forks)%nat.
Proof. induction forks as [|f forks IH]; cbn [leading length]; [lia|]. destruct (p f); lia. Qed.

Lemma leading_stops p forks f : forks !! leading p forks = Some f -> p f = false.
Proof. induction forks as [|g forks IH]; cbn [leading]; [discriminate|]. destruct (p g) eqn:E; cbn; [exact IH|]. by intros [= <-]. Qed.

Lemma fold_take_cons {A B} (g : A -> B -> A) n b l h : fold_left g (take (S n) (b :: l)) h = fold_left g (take n l) (g h b).
Proof. reflexivity. Qed.

Lemma pass_forks_exact head forks : forall hash act, exists act',
  pass_forks head forks hash act = (fold_left ChecksumUpdate (take (leading (fun f => f <=? head) forks) forks) hash, act', forks !! leading (fun f => f <=? head) forks).
Proof.
  induction forks as [|f forks IH]; intros hash act; cbn [pass_forks leading]; [eexists; reflexivity|].
  destruct (f <=? head); [|eexists; reflexivity]. destruct (IH (ChecksumUpdate hash f) f) as [act' E]. exists act'. rewrite fold_take_cons. rewrite E. reflexivity.
Qed.

Lemma fork_sums_lookup forks : forall hash k, (k <= length forks)%nat -> fork_sums hash forks !! k = Some (ChecksumToBytes (fold_left ChecksumUpdate (take k forks) hash)).
Proof.
  induction forks as [|f forks IH]; intros hash k Hk; cbn [fork_sums length] in *.
  - assert (k = O) by lia. subst k. reflexivity.
  - destruct k as [|k]; [reflexivity|]. rewrite fold_take_cons. rewrite <- IH by lia. reflexivity.
Qed.

(** The identifier of a node is that of some number of leading forks, with the next one. *)
Lemma NewID_exact hf tf genesis h t : exists k, (k <= length (hf ++ tf))%nat /\
  fork_sums (ChecksumIEEE genesis) (hf ++ tf) !! k = Some (id_Hash (NewIDFromForks hf tf genesis h t)) /\
  Next (NewIDFromForks hf tf genesis h t) = default 0 ((hf ++ tf) !! k).
Proof.
  unfold NewIDFromForks. destruct (pass_forks_exact h hf (ChecksumIEEE genesis) 0) as [a1 E1]. rewrite E1. set (k1 := leading (fun f => f <=? h) hf) in *.
  pose proof (leading_le (fun f => f <=? h) hf) as Hk1. fold k1 in Hk1. destruct (hf !! k1) as [f|] eqn:Ef.
  - exists k1. rewrite length_app. split; [lia|]. rewrite fork_sums_lookup by (rewrite length_app; lia). rewrite take_app_le by lia. cbn [id_Hash Next]. split; [reflexivity|].
    rewrite lookup_app_l by (by eapply lookup_lt_Some). by rewrite Ef.
  - apply lookup_ge_None in Ef. destruct (pass_forks_exact t tf (fold_left ChecksumUpdate (take k1 hf) (ChecksumIEEE genesis)) a1) as [a2 E2]. rewrite E2. set (k2 := leading (fun f => f <=? t) tf) in *.
    pose proof (leading_le (fun f => f <=? t) tf) as Hk2. fold k2 in Hk2. exists (length hf + k2)%nat. rewrite length_app. split; [lia|]. rewrite fork_sums_lookup by (rewrite length_app; lia).
    cbn [id_Hash Next]. split; [|rewrite lookup_app_r by lia; replace (length hf + k2 - length hf)%nat with k2 by lia; by destruct (tf !! k2)].
    rewrite take_app_ge by lia. replace (length hf + k2 - length hf)%nat with k2 by lia. rewrite fold_left_app. replace (take k1 hf) with hf by (symmetry; apply take_ge; lia). reflexivity.
Qed.

Lemma filter_loop_exact hh ht rest : forall forks sums i id, filter_loop hh ht rest forks sums i id =
  if decide (leading (fork_passed hh ht) rest < length rest)%nat then decide_fork hh ht forks sums (i + leading (fork_passed hh ht) rest) id else mret None.
Proof.
  induction rest as [|f rest IH]; intros forks sums i id; cbn [filter_loop leading length]; [by rewrite decide_False by lia|].
  destruct (fork_passed hh ht f); [|rewrite decide_True by lia; by rewrite Nat.add_0_r]. rewrite IH.
  destruct (decide (leading (fork_passed hh ht) rest < length rest)%nat); [rewrite decide_True by lia|by rewrite decide_False by lia]. f_equal. lia.
Qed.

Lemma find_sum_exact h sums : forall j, match find_sum h sums j with
  | Some k => (j <= k)%nat /\ sums !! (k - j)%nat = Some h
  | None => h ∉ sums
  end.
Proof.
  induction sums as [|s sums IH]; intros j; cbn [find_sum]; [apply not_elem_of_nil|]. destruct (decide (s = h)) as [->|Hne]; [by rewrite Nat.sub_diag|].
  specialize (IH (S j)). destruct (find_sum h sums (S j)) as [k|].
  - destruct IH as [H1 H2]. split; [lia|]. by replace (k - j)%nat with (S (k - S j)) by lia.
  - by rewrite not_elem_of_cons.
Qed.

(** C38 Nodes with the same forks are compatible: whatever heads the two are at, a node accepts
    the identifier of the other, provided the checksums along the forks are distinct and its
    own head is not exactly at a fork. The filter never indexes out of range. *)
Theorem same_forks_accepted hf tf genesis hh ht h t :
  NoDup (fork_sums (ChecksumIEEE genesis) (hf ++ tf)) -> is_u64 hh -> is_u64 ht -> hh ∉ hf ++ tf -> ht ∉ hf ++ tf ->
  NewFilterFromForks hf tf genesis hh ht (NewIDFromForks hf tf genesis h t) = Val None.
Proof.
  intros Hd Hh Ht Nh Nt. destruct (NewID_exact hf tf genesis h t) as (k & Hk & Es & En). set (id := NewIDFromForks hf tf genesis h t) in *. set (forks := hf ++ tf) in *.
  set (sums := fork_sums (ChecksumIEEE genesis) forks) in *. unfold NewFilterFromForks, newFilter. fold forks sums. rewrite filter_loop_exact.
  set (i := leading (fork_passed hh ht) (forks ++ [MaxUint64])). assert (Hi : (i <= length forks)%nat).
  { pose proof (leading_le (fork_passed hh ht) (forks ++ [MaxUint64])) as Hle. fold i in Hle. rewrite length_app in Hle. cbn [length] in Hle. destruct (decide (i = S (length forks))) as [E|]; [exfalso|lia].
    assert (Hlast : forall l, leading (fork_passed hh ht) (l ++ [MaxUint64]) <> S (length l)).
    { induction l as [|f l IH]; cbn [app leading length].
      - unfold fork_passed, MaxUint64. unfold is_u64, two64 in *. destruct (Z.ltb_spec 18446744073709551615 hh), (Z.ltb_spec 18446744073709551615 ht); try lia. by rewrite andb_false_r.
      - destruct (fork_passed hh ht f); [intros [= E']; by apply IH|discriminate]. }
    by apply (Hlast forks). }
  rewrite decide_True by (rewrite length_app; cbn [length]; lia). rewrite Nat.add_0_l. unfold decide_fork.
  destruct (lookup_lt_is_Some_2 sums i) as [s Hsi]; [unfold sums; rewrite fork_sums_length; lia|]. rewrite Hsi. destruct (decide (s = id_Hash id)) as [->|Hne].
  - assert (i = k) by (eapply NoDup_lookup; eauto). subst k. destruct ((0 <? Next id) && _) eqn:Ec; [exfalso|reflexivity]. apply andb_true_iff in Ec as [Ep Ec]. apply Z.ltb_lt in Ep.
    destruct (forks !! i) as [f|] eqn:Ef; cbn in En; [|lia]. assert (Hstop : fork_passed hh ht f = false).
    { apply (leading_stops _ (forks ++ [MaxUint64])). fold i. rewrite lookup_app_l by (by eapply lookup_lt_Some). exact Ef. }
    apply list_elem_of_lookup_2 in Ef. rewrite En in Ec. unfold fork_passed in Hstop. apply orb_false_iff in Hstop as [H1 H2]. apply Z.ltb_ge in H1. destruct (Z.leb_spec f hh) as [Hle|].
    + apply Nh. by replace hh with f by lia.
    + cbn [orb] in Ec. apply andb_true_iff in Ec as [Et Ec]. rewrite Et in H2. cbn in H2. apply Z.ltb_ge in H2. apply Z.leb_le in Ec. apply Nt. by replace ht with f by lia.
  - pose proof (find_sum_exact (id_Hash id) (take i sums) 0) as Hf. destruct (find_sum (id_Hash id) (take i sums) 0) as [j|].
    + destruct Hf as [_ Hj]. rewrite Nat.sub_0_r in Hj. pose proof (lookup_lt_Some _ _ _ Hj) as Lj. rewrite length_take in Lj. rewrite lookup_take_lt in Hj by lia.
      assert (j = k) by (eapply NoDup_lookup; eauto). subst k. rewrite lookup_app_l by lia. destruct (lookup_lt_is_Some_2 forks j) as [f Ef]; [lia|]. rewrite Ef in En |- *. cbn in En. by rewrite En, Z.eqb_refl.
    + pose proof (find_sum_exact (id_Hash id) (drop (S i) sums) (S i)) as Hg. destruct (find_sum _ (drop (S i) sums) (S i)); [reflexivity|exfalso].
      destruct (decide (k < i)%nat); [apply Hf; apply (list_elem_of_lookup_2 _ k); by rewrite lookup_take_lt|]. destruct (decide (k = i)) as [->|]; [congruence|].
      apply Hg. apply (list_elem_of_lookup_2 _ (k - S i)%nat). rewrite lookup_drop. by replace (S i + (k - S i))%nat with k by lia.
Qed.

(** C40 At a fork block itself the filter is wrong by one: a node whose head is the first fork
    block rejects, as incompatible, every node with the same forks that has not reached it
    yet, because the loop takes the fork as not passed while the check of the announced next
    fork takes it as passed. *)
Theorem boundary_rejected f hf tf genesis ht h t : 0 < f < 1670000000 -> h < f ->
  NewFilterFromForks (f :: hf) tf genesis f ht (NewIDFromForks (f :: hf) tf genesis h t) = Val (Some ErrLocalIncompatibleOrStale).
Proof.
  intros Hf Hh. unfold NewIDFromForks. cbn [pass_forks]. destruct (Z.leb_spec f h); [lia|]. unfold NewFilterFromForks, newFilter. cbn [app filter_loop]. unfold fork_passed.
  rewrite Z.ltb_irrefl. unfold forkIsTimeBased at 1. destruct (Z.leb_spec 1670000000 f); [lia|]. cbn [andb orb]. unfold decide_fork. cbn [fork_sums lookup list_lookup id_Hash Next].
  rewrite decide_True by reflexivity. destruct (Z.ltb_spec 0 f); [|lia]. rewrite Z.leb_refl. reflexivity.
Qed.

(** ** The forks gathered are in order *)

Lemma dedup_head x l : exists l', RemoveDuplicatesFromSorted (x :: l) = x :: l' .
Proof.
  revert x. induction l as [|y l IH]; intros x; [by exists []|]. cbn [RemoveDuplicatesFromSorted]. destruct (Z.eqb_spec x y) as [->|]; [apply IH|eauto].
Qed.

Lemma dedup_exact l : StronglySorted Z.le l -> StronglySorted Z.lt (RemoveDuplicatesFromSorted l) /\ forall z, z ∈ RemoveDuplicatesFromSorted l <-> z ∈ l.
Proof.
  induction l as [|x l IH]; intros Hs; [split; [constructor|reflexivity]|]. apply StronglySorted_inv in Hs as [Hs Hf]. destruct (IH Hs) as [H1 H2]. destruct l as [|y l]; [split; [repeat constructor|reflexivity]|].
  change (RemoveDuplicatesFromSorted (x :: y :: l)) with (if x =? y then RemoveDuplicatesFromSorted (y :: l) else x :: RemoveDuplicatesFromSorted (y :: l)).
  destruct (Z.eqb_spec x y) as [->|Hne].
  - split; [exact H1|]. intros z. rewrite H2, !elem_of_cons. tauto.
  - split; [|intros z; rewrite elem_of_cons, H2, (elem_of_cons (y :: l) z x); tauto]. constructor; [exact H1|]. apply Forall_forall. intros z Hz.
    destruct (dedup_head y l) as [l' El]. rewrite El in *. apply Forall_cons in Hf as [Hxy _]. apply elem_of_cons in Hz as [->|Hz]; [lia|].
    apply StronglySorted_inv in H1 as [_ H1]. rewrite Forall_forall in H1. specialize (H1 z Hz). lia.
Qed.

Lemma gathered_exact l : Forall (fun x => 0 <= x) l ->
  StronglySorted Z.lt (drop_zero (RemoveDuplicatesFromSorted (merge_sort Z.le l))) /\
  forall z, z ∈ drop_zero (RemoveDuplicatesFromSorted (merge_sort Z.le l)) <-> z ∈ l /\ z <> 0.
Proof.
  intros Hl. destruct (dedup_exact (merge_sort Z.le l)) as [H1 H2]; [apply StronglySorted_merge_sort; apply _|].
  assert (Hin : forall z, z ∈ RemoveDuplicatesFromSorted (merge_sort Z.le l) <-> z ∈ l) by (intros z; by rewrite H2, (merge_sort_Permutation Z.le l)).
  set (r := RemoveDuplicatesFromSorted (merge_sort Z.le l)) in *. clearbody r. rewrite Forall_forall in Hl. destruct r as [|x r]; [split; [constructor|]; intros z; rewrite <- Hin; split; [intros Hz; by apply not_elem_of_nil in Hz|tauto]|].
  apply StronglySorted_inv in H1 as [H1 Hf]. rewrite Forall_forall in Hf. assert (Hx : 0 <= x) by (apply Hl, Hin; constructor). destruct x as [|p|p]; cbn [drop_zero].
  - split; [exact H1|]. intros z. rewrite <- Hin, elem_of_cons. split; [|intuition congruence]. intros Hz. specialize (Hf z Hz). split; [tauto|lia].
  - split; [constructor; [exact H1|by apply Forall_forall]|]. intros z. rewrite <- Hin. split; [|tauto]. intros Hz. split; [exact Hz|]. apply elem_of_cons in Hz as [->|Hz]; [lia|]. specialize (Hf z Hz). lia.
  - lia.
Qed.

Lemma elem_of_optional (o : option Z) f : f ∈ omap id [o] <-> o = Some f.
Proof. destruct o as [p|]; cbn; [rewrite list_elem_of_singleton|rewrite elem_of_nil]; split; congruence || tauto. Qed.

(** [GatherForks] lists the forks of a configuration: heights and times each strictly
    increasing and without zero, the heights exactly those that a field gives, the times
    exactly those after the genesis. *)
Lemma GatherForks_exact c posdao genesisTime : (forall p, posdao = Some p -> is_u64 p) -> 0 <= genesisTime ->
  let '(heightForks, timeForks) := GatherForks c posdao genesisTime in
  StronglySorted Z.lt heightForks /\ StronglySorted Z.lt timeForks /\
  (forall f, f ∈ heightForks <-> f <> 0 /\ (f ∈ given (block_fields c) \/ posdao = Some f \/ f ∈ given (bor_fields c))) /\
  (forall f, f ∈ timeForks <-> genesisTime < f /\ f ∈ given (time_fields c)).
Proof.
  intros Hp Hg. assert (Hgiven : forall l, Forall (fun x => 0 <= x) (given l)).
  { intros l. apply Forall_map, Forall_forall. intros x _. unfold big_Uint64. apply Z.mod_pos_bound. unfold two64. lia. }
  unfold GatherForks. set (hs := given (block_fields c) ++ omap id [posdao] ++ given (bor_fields c)). set (ts := filter _ (given (time_fields c))).
  assert (H1 : Forall (fun x => 0 <= x) hs).
  { unfold hs. apply Forall_app. split; [apply Hgiven|]. apply Forall_app. split; [|apply Hgiven]. destruct posdao as [p|]; cbn; [|constructor]. specialize (Hp p eq_refl). constructor; [apply Hp|constructor]. }
  assert (H2 : Forall (fun x => 0 <= x) ts) by (apply Forall_forall; intros z Hz; apply list_elem_of_filter in Hz as [Hz _]; lia).
  destruct (gathered_exact hs H1) as [A1 A2], (gathered_exact ts H2) as [B1 B2]. split; [exact A1|]. split; [exact B1|]. split; intros f.
  - rewrite A2. unfold hs. rewrite !elem_of_app, elem_of_optional. tauto.
  - rewrite B2. unfold ts. rewrite list_elem_of_filter. split; [tauto|]. intros [? ?]. split; [tauto|lia].
Qed.

(** ** Instances *)

#[local] Transparent crc32_Update ChecksumUpdate ChecksumIEEE.

Definition demo_genesis : bytes := Z_to_be 32 0xd4e56740f876aef8c010b86a40d5f56745a118d0906a34e69aec8c0db1cb8fa3.

Lemma same_forks_accepted_witness : NoDup (fork_sums (ChecksumIEEE demo_genesis) ([1150000; 1920000] ++ [1681338455])) /\
  NewFilterFromForks [1150000; 1920000] [1681338455] demo_genesis 1920001 1600000000 (NewIDFromForks [1150000; 1920000] [1681338455] demo_genesis 1200000 1500000000) = Val None.
Proof.
  assert (Hd : NoDup (fork_sums (ChecksumIEEE demo_genesis) ([1150000; 1920000] ++ [1681338455]))) by (apply (bool_decide_unpack _); vm_compute; exact I).
  split; [exact Hd|]. apply same_forks_accepted; [exact Hd|unfold is_u64, two64; lia..| |]; apply (bool_decide_unpack _); vm_compute; exact I.
Defined.

Lemma boundary_rejected_witness :
  NewFilterFromForks [1150000; 1920000] [1681338455] demo_genesis 1150000 1600000000 (NewIDFromForks [1150000; 1920000] [1681338455] demo_genesis 1149999 1500000000) = Val (Some ErrLocalIncompatibleOrStale).
Proof. apply (boundary_rejected 1150000); lia. Defined.
