(* ===== verification/HeaderRlp.v ===== *)
(** * Block headers and withdrawals: encoding

    [types.Header] ([execution/types/block.go]) with its RLP encoding, its size and hash,
    and [types.Withdrawal] ([withdrawal.go]). The encoders share a pooled scratch buffer of
    32 bytes. Hashes and addresses are numbers, the bloom filter, the nonce and the extra
    data are bytes. The encoding is the canonical RLP list of the fields, provided the
    integers fit in 31 bytes: one of 32 bytes does not fit in the scratch buffer. *)

From S2P Require Import Prelude Uint256 Errors Machine Rlp RlpSpec RlpParse RlpWriter.

(** ** The encoders *)

Record BlkHeader : Type := mkBlk {
  b_ParentHash : Z; b_UncleHash : Z; b_Coinbase : Z; b_Root : Z; b_TxHash : Z; b_ReceiptHash : Z; b_Bloom : bytes;
  b_Difficulty : option Z; b_Number : option Z; b_GasLimit : Z; b_GasUsed : Z; b_Time : Z; b_Extra : bytes;
  b_MixDigest : Z; b_Nonce : bytes; b_AuRaStep : Z; b_AuRaSeal : bytes; b_BaseFee : option Z; b_WithdrawalsHash : option Z;
  b_BlobGasUsed : option Z; b_ExcessBlobGas : option Z; b_ParentBeaconBlockRoot : option Z; b_RequestsHash : option Z
}.

(** [h[:]] of a [common.Hash]. *)
Definition hash_bytes (h : Z) : bytes := Z_to_be 32 h.

Definition EncodeNonce (i : Z) : bytes := Z_to_be 8 i.

(** [encodingSize += size] where the pointer is not nil. *)
Definition opt_size {A} (o : option A) (size : A -> Z) : Z := match o with Some a => size a | None => 0 end.

Definition h_EncodingSize (h : BlkHeader) : Z :=
  33 + 33 + 21 + 33 + 33 + 33 + 259 +
  1 + opt_size (b_Difficulty h) BigIntLenExcludingHead +
  1 + opt_size (b_Number h) BigIntLenExcludingHead +
  1 + IntLenExcludingHead (b_GasLimit h) +
  1 + IntLenExcludingHead (b_GasUsed h) +
  1 + IntLenExcludingHead (b_Time h) +
  StringLen (b_Extra h) +
  (if negb (zlen (b_AuRaSeal h) =? 0) then
     1 + IntLenExcludingHead (b_AuRaStep h) + (ListPrefixLen (zlen (b_AuRaSeal h)) + zlen (b_AuRaSeal h))
   else 33 + 9) +
  opt_size (b_BaseFee h) (fun f => 1 + BigIntLenExcludingHead f) +
  opt_size (b_WithdrawalsHash h) (fun _ => 33) +
  opt_size (b_BlobGasUsed h) (fun g => 1 + IntLenExcludingHead g) +
  opt_size (b_ExcessBlobGas h) (fun g => 1 + IntLenExcludingHead g) +
  opt_size (b_ParentBeaconBlockRoot h) (fun _ => 33) +
  opt_size (b_RequestsHash h) (fun _ => 33).

(** [w.Write(b[:1])] and [w.Write(p)], then [k]. *)
Definition tagged (p : bytes) (k : M (bytes * bytes) (option Error)) : M (bytes * bytes) (option Error) :=
  try_w (w_WriteSlice 0 1) (try_w (w_Write p) k).

Definition hash_item (x : Z) (k : M (bytes * bytes) (option Error)) : M (bytes * bytes) (option Error) :=
  _ ← scratch (put 0 (Zbyte (128 + 32))); tagged (hash_bytes x) k.

(** [if p != nil { ... }], then [k]. *)
Definition opt_item {A} (o : option A) (item : A -> M (bytes * bytes) (option Error) -> M (bytes * bytes) (option Error))
    (k : M (bytes * bytes) (option Error)) : M (bytes * bytes) (option Error) :=
  match o with Some a => item a k | None => k end.

Definition encode_seal (h : BlkHeader) (k : M (bytes * bytes) (option Error)) : M (bytes * bytes) (option Error) :=
  if 0 <? zlen (b_AuRaSeal h) then try_w (EncodeInt (b_AuRaStep h)) (try_w (EncodeString (b_AuRaSeal h)) k)
  else
    hash_item (b_MixDigest h)
      (_ ← scratch (put 0 (Zbyte (128 + 8))); tagged (b_Nonce h) k).

Definition encode_fields (h : BlkHeader) : M (bytes * bytes) (option Error) :=
  try_w (EncodeStructSizePrefix (h_EncodingSize h))
    (_ ← scratch (put 0 (Zbyte (128 + 32)));
     tagged (hash_bytes (b_ParentHash h))
     (tagged (hash_bytes (b_UncleHash h))
     (_ ← scratch (put 0 (Zbyte (128 + 20)));
      tagged (addr_bytes (b_Coinbase h))
      (_ ← scratch (put 0 (Zbyte (128 + 32)));
       tagged (hash_bytes (b_Root h))
       (tagged (hash_bytes (b_TxHash h))
       (tagged (hash_bytes (b_ReceiptHash h))
       (_ ← scratch (puts 0 [Zbyte (183 + 2); Zbyte 1; Zbyte 0]);
        try_w (w_WriteSlice 0 3)
        (try_w (w_Write (b_Bloom h))
        (try_w (EncodeBigInt (b_Difficulty h))
        (try_w (EncodeBigInt (b_Number h))
        (try_w (EncodeInt (b_GasLimit h))
        (try_w (EncodeInt (b_GasUsed h))
        (try_w (EncodeInt (b_Time h))
        (try_w (EncodeString (b_Extra h))
        (encode_seal h
        (opt_item (b_BaseFee h) (fun f => try_w (EncodeBigInt (Some f)))
        (opt_item (b_WithdrawalsHash h) hash_item
        (opt_item (b_BlobGasUsed h) (fun g => try_w (EncodeInt g))
        (opt_item (b_ExcessBlobGas h) (fun g => try_w (EncodeInt g))
        (opt_item (b_ParentBeaconBlockRoot h) hash_item
        (opt_item (b_RequestsHash h) hash_item
        (mret None)))))))))))))))))))))).

(** [newEncodingBuf()]: the pooled buffer, zeroed. *)
Definition newEncodingBuf : bytes := replicate 32 x00.

(** The encoding written to a [bytes.Buffer]: the buffer afterwards and the error. *)
Definition with_buf (enc : M (bytes * bytes) (option Error)) : M bytes (option Error) := fun out =>
  match enc (out, newEncodingBuf) with
  | Val (err, (out, _)) => Val (err, out)
  | Panic e => Panic e
  | OutOfFuel => OutOfFuel
  end.

Definition h_EncodeRLP (h : BlkHeader) : M bytes (option Error) := with_buf (encode_fields h).

Section Hash.
Context {K : Keccak}.

(** [rlpHash(h)]: the errors of the encoder are ignored. *)
Definition rlpHash (enc : M bytes (option Error)) : Res Z :=
  match enc [] with
  | Val (_, out) => Val (keccak256 out)
  | Panic e => Panic e
  | OutOfFuel => OutOfFuel
  end.

(** [h.Hash()] of a header that is not changed any more: the cached hash, when there is
    one, is that of the header. *)
Definition h_Hash (h : BlkHeader) : Res Z := rlpHash (h_EncodeRLP h).
End Hash.

Definition IsUint64 (i : Z) : bool := (0 <=? i) && (i <? two64).
Definition big_BitLen (i : Z) : Z := Len64 (Z.abs i).

Definition SanityCheck (h : BlkHeader) : option Error :=
  if match b_Number h with Some n => negb (IsUint64 n) | None => false end then Some (NewError "too large block number")
  else if match b_Difficulty h with Some d => 192 <? big_BitLen d | None => false end then Some (NewError "too large block difficulty")
  else if 100 * 1024 <? zlen (b_Extra h) then Some (NewError "too large block extradata")
  else if match b_BaseFee h with Some f => 256 <? big_BitLen f | None => false end then Some (NewError "too large base fee")
  else None.

Record Withdrawal : Type := mkWithdrawal { w_Index : Z; w_Validator : Z; w_Address : Z; w_Amount : Z }.

Definition wd_EncodingSize (w : Withdrawal) : Z :=
  21 + 1 + IntLenExcludingHead (w_Index w) + 1 + IntLenExcludingHead (w_Validator w) + 1 + IntLenExcludingHead (w_Amount w).

Definition wd_fields (w : Withdrawal) : M (bytes * bytes) (option Error) :=
  try_w (EncodeStructSizePrefix (wd_EncodingSize w))
  (try_w (EncodeInt (w_Index w))
  (try_w (EncodeInt (w_Validator w))
  (_ ← scratch (put 0 (Zbyte (128 + 20)));
   tagged (addr_bytes (w_Address w))
   (EncodeInt (w_Amount w))))).
Definition wd_EncodeRLP (w : Withdrawal) : M bytes (option Error) := with_buf (wd_fields w).

(** ** What they write *)

(** The canonical list of the fields. *)
Definition rlp_list (items : list bytes) : bytes := rlp_list_header (zlen (mjoin items)) ++ mjoin items.

Definition opt_rlp {A} (o : option A) (f : A -> bytes) : list bytes := match o with Some a => [f a] | None => [] end.

Definition items_with (seal : list bytes) (h : BlkHeader) : list bytes :=
  [rlp_string (hash_bytes (b_ParentHash h)); rlp_string (hash_bytes (b_UncleHash h)); rlp_string (addr_bytes (b_Coinbase h));
   rlp_string (hash_bytes (b_Root h)); rlp_string (hash_bytes (b_TxHash h)); rlp_string (hash_bytes (b_ReceiptHash h)); rlp_string (b_Bloom h);
   rlp_uint (default 0 (b_Difficulty h)); rlp_uint (default 0 (b_Number h)); rlp_uint (b_GasLimit h); rlp_uint (b_GasUsed h); rlp_uint (b_Time h);
   rlp_string (b_Extra h)] ++
  seal ++
  opt_rlp (b_BaseFee h) rlp_uint ++ opt_rlp (b_WithdrawalsHash h) (fun x => rlp_string (hash_bytes x)) ++
  opt_rlp (b_BlobGasUsed h) rlp_uint ++ opt_rlp (b_ExcessBlobGas h) rlp_uint ++
  opt_rlp (b_ParentBeaconBlockRoot h) (fun x => rlp_string (hash_bytes x)) ++ opt_rlp (b_RequestsHash h) (fun x => rlp_string (hash_bytes x)).

(** Step and seal of AuRa, or the mix digest and the nonce. *)
Definition aura_items (h : BlkHeader) : list bytes := [rlp_uint (b_AuRaStep h); rlp_string (b_AuRaSeal h)].
Definition pow_items (h : BlkHeader) : list bytes := [rlp_string (hash_bytes (b_MixDigest h)); rlp_string (b_Nonce h)].
Definition header_items (h : BlkHeader) : list bytes := items_with (if 0 <? zlen (b_AuRaSeal h) then aura_items h else pow_items h) h.

Definition header_rlp (h : BlkHeader) : bytes := rlp_list (header_items h).

(** Two to the 248: the integers that fit in the scratch buffer with their tag. *)
Definition wide (i : Z) : Prop := 0 <= i < 2 ^ 248.
Definition opt_all {A} (P : A -> Prop) (o : option A) : Prop := match o with Some a => P a | None => True end.

(** The fields have their Go types and fit; a seal is not a single small byte. *)
Record header_ok (h : BlkHeader) : Prop := mkHeaderOk {
  ok_hashes : Forall is_u256 [b_ParentHash h; b_UncleHash h; b_Root h; b_TxHash h; b_ReceiptHash h; b_MixDigest h];
  ok_coinbase : 0 <= b_Coinbase h < two160;
  ok_bloom : zlen (b_Bloom h) = 256;
  ok_nonce : zlen (b_Nonce h) = 8;
  ok_difficulty : opt_all wide (b_Difficulty h);
  ok_number : opt_all wide (b_Number h);
  ok_words : Forall is_u64 [b_GasLimit h; b_GasUsed h; b_Time h; b_AuRaStep h];
  ok_extra : go_len (b_Extra h);
  ok_seal : go_len (b_AuRaSeal h);
  ok_seal_long : zlen (b_AuRaSeal h) <> 1;
  ok_basefee : opt_all wide (b_BaseFee h);
  ok_withdrawals : opt_all is_u256 (b_WithdrawalsHash h);
  ok_blobgas : opt_all is_u64 (b_BlobGasUsed h);
  ok_excess : opt_all is_u64 (b_ExcessBlobGas h);
  ok_beacon : opt_all is_u256 (b_ParentBeaconBlockRoot h);
  ok_requests : opt_all is_u256 (b_RequestsHash h)
}.

(** From a scratch buffer that starts with [t]. *)
Definition emits_at (t : byte) (enc : M (bytes * bytes) (option Error)) (x : bytes) : Prop :=
  forall out buf, 32 <= zlen buf -> buf !! 0%nat = Some t ->
    exists buf', enc (out, buf) = Val (None, (out ++ x, buf')) /\ zlen buf' = zlen buf.

Lemma emits_any t enc x : emits 32 enc x -> emits_at t enc x.
Proof. intros H out buf Hb _. by apply H. Qed.

Lemma emits_tag t k y : emits_at t k y -> emits 32 (_ ← scratch (put 0 t); k) y.
Proof.
  intros H out buf Hb. rewrite (scratch_step _ tt buf (<[0%nat := t]> buf)) by (apply put0; lia).
  destruct (H out (<[0%nat := t]> buf)) as (buf' & E & L); [rewrite zlen_insert; lia|apply list_lookup_insert_eq; unfold zlen in Hb; lia|].
  exists buf'. by rewrite zlen_insert in L.
Qed.

Lemma emits_tagged_item t p k y : emits_at t k y -> emits_at t (tagged p k) ((t :: p) ++ y).
Proof.
  intros H out buf Hb Ht. destruct (H ((out ++ [t]) ++ p) buf Hb Ht) as (buf' & E & L). exists buf'. split; [|exact L].
  assert (Es : go_slice buf 0 1 = Val [t]) by (destruct buf as [|x buf]; [discriminate|]; injection Ht as ->; by rewrite go_slice_val by lia).
  unfold tagged, try_w at 1, mbind at 1, M_bind at 1. rewrite (w_WriteSlice_eq 0 1 out buf [t] Es).
  unfold try_w at 1, mbind at 1, M_bind at 1. unfold w_Write. cbn [fst snd]. rewrite E. by rewrite <- !app_assoc.
Qed.

Lemma rlp_fixed p : 1 < zlen p < 56 -> rlp_string p = Zbyte (128 + zlen p) :: p.
Proof. intros H. apply rlp_string_short; [lia|]. intros b ->. change (zlen [b]) with 1 in H. lia. Qed.

Lemma zlen_Z_to_be n z : zlen (Z_to_be n z) = Z.of_nat n.
Proof. unfold zlen. by rewrite length_Z_to_be. Qed.

Lemma rlp_hash x : rlp_string (hash_bytes x) = Zbyte (128 + 32) :: hash_bytes x.
Proof. unfold hash_bytes. rewrite rlp_fixed; rewrite zlen_Z_to_be; [reflexivity|lia]. Qed.
Lemma rlp_addr x : rlp_string (addr_bytes x) = Zbyte (128 + 20) :: addr_bytes x.
Proof. unfold addr_bytes. rewrite rlp_fixed; rewrite zlen_Z_to_be; [reflexivity|lia]. Qed.
Lemma rlp_bloom b : zlen b = 256 -> rlp_string b = [Zbyte (183 + 2); Zbyte 1; Zbyte 0] ++ b.
Proof. intros E. unfold rlp_string. rewrite E. reflexivity. Qed.
Lemma rlp_nonce b : zlen b = 8 -> rlp_string b = Zbyte (128 + 8) :: b.
Proof. intros E. rewrite rlp_fixed by lia. by rewrite E. Qed.

Lemma hash_item_emits x k y : emits 32 k y -> emits 32 (hash_item x k) (rlp_string (hash_bytes x) ++ y).
Proof. intros H. rewrite rlp_hash. apply emits_tag, emits_tagged_item, emits_any, H. Qed.

Lemma emits_bloom p k y : emits 32 k y -> zlen p = 256 ->
  emits 32 (_ ← scratch (puts 0 [Zbyte (183 + 2); Zbyte 1; Zbyte 0]); try_w (w_WriteSlice 0 3) (try_w (w_Write p) k)) (rlp_string p ++ y).
Proof.
  intros H Hp out buf Hb. set (t := [Zbyte (183 + 2); Zbyte 1; Zbyte 0]). destruct buf as [|b0 [|b1 [|b2 buf]]]; [by cbn in Hb..|].
  destruct (H ((out ++ t) ++ p) (t ++ buf)) as (buf' & E & L); [exact Hb|]. exists buf'. split; [|exact L].
  rewrite (scratch_step _ tt _ (t ++ buf)).
  2: { unfold t. cbn [puts]. unfold mbind, M_bind. rewrite !put_eq by (rewrite ?zlen_insert, !zlen_cons; pose proof (zlen_nonneg buf); lia). reflexivity. }
  unfold try_w at 1, mbind at 1, M_bind at 1. rewrite (w_WriteSlice_eq 0 3 out (t ++ buf) t) by (rewrite go_slice_val by (rewrite ?zlen_app; pose proof (zlen_nonneg buf); change (zlen t) with 3; lia); reflexivity).
  unfold try_w at 1, mbind at 1, M_bind at 1. unfold w_Write. cbn [fst snd]. rewrite E. rewrite (rlp_bloom p Hp). fold t. by rewrite <- !app_assoc.
Qed.

Lemma wide_emits i : wide i -> emits 32 (EncodeBigInt (Some i)) (rlp_uint i).
Proof.
  intros Hi. apply EncodeBigInt_emits_in; [unfold wide in Hi; unfold two256; lia|]. pose proof (byteLen_le i 31) as H.
  change (256 ^ Z.of_nat 31) with (2 ^ 248) in H. unfold wide in Hi. lia.
Qed.

Lemma wide_opt_emits o : opt_all wide o -> emits 32 (EncodeBigInt o) (rlp_uint (default 0 o)).
Proof.
  destruct o as [i|]; cbn [opt_all default]; [apply wide_emits|]. intros _. apply (emits_weaken 1); [lia|].
  change (rlp_uint 0) with [Zbyte 128]. apply emits_byte.
Qed.

Lemma opt_item_emits {A} (o : option A) item f k y :
  (forall a, o = Some a -> emits 32 k y -> emits 32 (item a k) (f a ++ y)) -> emits 32 k y -> emits 32 (opt_item o item k) (mjoin (opt_rlp o f) ++ y).
Proof. destruct o as [a|]; intros H Hk; [|exact Hk]. cbn [opt_item opt_rlp]. change (mjoin [f a]) with (f a ++ []). rewrite app_nil_r. by apply H. Qed.

Lemma int_emits i k y : is_u64 i -> emits 32 k y -> emits 32 (try_w (EncodeInt i) k) (rlp_uint i ++ y).
Proof. intros Hi Hk. apply emits_seq; [|exact Hk]. apply (emits_weaken 9); [lia|]. by apply EncodeInt_emits. Qed.

Lemma big_emits o k y : opt_all wide o -> emits 32 k y -> emits 32 (try_w (EncodeBigInt o) k) (rlp_uint (default 0 o) ++ y).
Proof. intros Hi Hk. apply emits_seq; [|exact Hk]. by apply wide_opt_emits. Qed.

Lemma string_emits s k y : go_len s -> emits 32 k y -> emits 32 (try_w (EncodeString s) k) (rlp_string s ++ y).
Proof. intros Hs Hk. apply emits_seq; [|exact Hk]. apply (emits_weaken 9); [lia|]. apply EncodeString_emits. unfold go_len in Hs. unfold two64. lia. Qed.

Lemma seal_emits h k y : header_ok h -> emits 32 k y ->
  emits 32 (encode_seal h k) (mjoin (if 0 <? zlen (b_AuRaSeal h) then [rlp_uint (b_AuRaStep h); rlp_string (b_AuRaSeal h)]
    else [rlp_string (hash_bytes (b_MixDigest h)); rlp_string (b_Nonce h)]) ++ y).
Proof.
  intros Hok Hk. unfold encode_seal. destruct (0 <? zlen (b_AuRaSeal h)); cbn [mjoin list_join]; rewrite app_nil_r, <- app_assoc.
  - pose proof (ok_words h Hok) as Hw. rewrite !Forall_cons in Hw. apply int_emits; [apply Hw|]. apply string_emits; [apply Hok|exact Hk].
  - apply hash_item_emits. rewrite rlp_nonce by apply Hok. apply emits_tag, emits_tagged_item, emits_any, Hk.
Qed.

Lemma zlen_join_cons x l : zlen (mjoin (x :: l)) = zlen x + zlen (mjoin l : bytes).
Proof. apply zlen_app. Qed.
Lemma mjoin_app_bytes (l k : list bytes) : mjoin (l ++ k) = mjoin l ++ mjoin k.
Proof. apply join_app. Qed.
Lemma zlen_join_app (l k : list bytes) : zlen (mjoin (l ++ k)) = zlen (mjoin l) + zlen (mjoin k).
Proof. by rewrite mjoin_app_bytes, zlen_app. Qed.

Lemma wide_u256 i : wide i -> is_u256 i.
Proof. unfold wide, is_u256, two256. lia. Qed.

Lemma opt_big_size o : opt_all wide o -> 1 + opt_size o BigIntLenExcludingHead = zlen (rlp_uint (default 0 o)).
Proof.
  destruct o as [i|]; cbn [opt_all opt_size default]; [|reflexivity]. intros Hi. rewrite <- wide_len_exact by (by apply wide_u256).
  unfold BigIntLenExcludingHead. by rewrite Z.abs_eq by apply Hi.
Qed.

Lemma zlen_hash_item x : zlen (rlp_string (hash_bytes x)) = 33.
Proof. rewrite rlp_hash, zlen_cons. unfold hash_bytes. rewrite zlen_Z_to_be. reflexivity. Qed.

Lemma opt_item_size {A} (o : option A) (f : A -> bytes) size (P : A -> Prop) :
  (forall a, P a -> size a = zlen (f a)) -> opt_all P o -> opt_size o size = zlen (mjoin (opt_rlp o f)).
Proof. intros H. destruct o as [a|]; cbn [opt_all opt_size opt_rlp]; [|reflexivity]. intros Ha. rewrite zlen_join_cons, <- (H a Ha). change (zlen (mjoin [] : bytes)) with 0. lia. Qed.

Lemma seal_size h : header_ok h ->
  (if negb (zlen (b_AuRaSeal h) =? 0) then
     1 + IntLenExcludingHead (b_AuRaStep h) + (ListPrefixLen (zlen (b_AuRaSeal h)) + zlen (b_AuRaSeal h))
   else 33 + 9) = zlen (mjoin (if 0 <? zlen (b_AuRaSeal h) then [rlp_uint (b_AuRaStep h); rlp_string (b_AuRaSeal h)]
    else [rlp_string (hash_bytes (b_MixDigest h)); rlp_string (b_Nonce h)])).
Proof.
  intros Hok. pose proof (zlen_nonneg (b_AuRaSeal h)). pose proof (ok_seal_long h Hok). pose proof (ok_seal h Hok) as Hl. unfold go_len in Hl.
  pose proof (ok_words h Hok) as Hw. rewrite !Forall_cons in Hw. destruct Hw as (_ & _ & _ & Hw & _).
  destruct (Z.eqb_spec (zlen (b_AuRaSeal h)) 0) as [E|E], (Z.ltb_spec 0 (zlen (b_AuRaSeal h))); try lia; cbn [negb]; rewrite !zlen_join_cons; change (zlen (mjoin [] : bytes)) with 0.
  - rewrite zlen_hash_item, rlp_nonce by apply Hok. rewrite zlen_cons, (ok_nonce h Hok). reflexivity.
  - rewrite <- IntLen_exact by exact Hw. rewrite <- StringLen_exact, ListPrefixLen_exact by (unfold two64; lia). unfold StringLen, rlp_list_header.
    destruct (56 <=? zlen (b_AuRaSeal h)) eqn:E6; [rewrite zlen_cons, zlen_be; rewrite byteLen_Z by lia; lia|]. destruct (b_AuRaSeal h) as [|x [|y l]]; [by cbn in *..|]. change (zlen [_]) with 1. lia.
Qed.

Lemma header_size h : header_ok h -> h_EncodingSize h = zlen (mjoin (header_items h)).
Proof.
  intros Hok. unfold header_items, items_with, aura_items, pow_items. rewrite !zlen_join_app, !zlen_join_cons. change (zlen (mjoin [] : bytes)) with 0. rewrite <- seal_size by exact Hok.
  rewrite !zlen_hash_item, rlp_addr, zlen_cons, (rlp_bloom _ (ok_bloom h Hok)), zlen_app, (ok_bloom h Hok). unfold addr_bytes. rewrite zlen_Z_to_be.
  pose proof (ok_words h Hok) as Hw. rewrite !Forall_cons in Hw. destruct Hw as (W1 & W2 & W3 & _).
  rewrite <- (opt_big_size _ (ok_difficulty h Hok)), <- (opt_big_size _ (ok_number h Hok)), <- !IntLen_exact, <- StringLen_exact by assumption.
  rewrite <- (opt_item_size (b_BaseFee h) rlp_uint (fun f => 1 + BigIntLenExcludingHead f) wide (fun a Ha => opt_big_size (Some a) Ha)) by apply Hok.
  rewrite <- !(opt_item_size _ (fun x => rlp_string (hash_bytes x)) (fun _ => 33) is_u256 (fun a _ => eq_sym (zlen_hash_item a))) by apply Hok.
  rewrite <- !(opt_item_size _ rlp_uint (fun g => 1 + IntLenExcludingHead g) is_u64 (fun a Ha => IntLen_exact a Ha)) by apply Hok.
  unfold h_EncodingSize. change (zlen [Zbyte (183 + 2); Zbyte 1; Zbyte 0]) with 3. lia.
Qed.

Lemma zlen_rlp_string_le s : go_len s -> zlen (rlp_string s) <= 9 + zlen s.
Proof.
  intros Hs. unfold go_len in Hs. pose proof (zlen_nonneg s). rewrite <- StringLen_exact. unfold StringLen. destruct (56 <=? zlen s).
  - rewrite byteLen_Z by lia. pose proof (byteLen_le (zlen s) 8) as Hb. change (256 ^ Z.of_nat 8) with two64 in Hb. unfold two64 in Hb. lia.
  - destruct s as [|b [|c s]]; [lia|destruct (byteZ b <? 128); lia|lia].
Qed.

Lemma zlen_rlp_uint_le i : is_u256 i -> zlen (rlp_uint i) <= 41.
Proof.
  intros Hi. pose proof (byteLen_le i 32) as H. change (256 ^ Z.of_nat 32) with two256 in H. unfold is_u256 in Hi. specialize (H Hi).
  unfold rlp_uint. pose proof (zlen_rlp_string_le (be i)) as H2. unfold go_len in H2. rewrite zlen_be in H2. lia.
Qed.

Lemma opt_uint_le o P : (forall i, P i -> is_u256 i) -> opt_all P o -> zlen (mjoin (opt_rlp o rlp_uint)) <= 41.
Proof. intros HP. destruct o as [i|]; cbn [opt_all opt_rlp]; [|intros _; by cbn]. intros Hi. rewrite zlen_join_cons. change (zlen (mjoin [] : bytes)) with 0. pose proof (zlen_rlp_uint_le i (HP i Hi)). lia. Qed.

Lemma opt_hash_le o : zlen (mjoin (opt_rlp o (fun x => rlp_string (hash_bytes x)))) <= 33.
Proof. destruct o as [i|]; cbn [opt_rlp]; [|by cbn]. rewrite zlen_join_cons, zlen_hash_item. by cbn. Qed.

Lemma header_items_le h : header_ok h -> zlen (mjoin (header_items h)) < 2 ^ 52.
Proof.
  intros Hok. unfold header_items, items_with, aura_items, pow_items. rewrite !zlen_join_app, !zlen_join_cons. change (zlen (mjoin [] : bytes)) with 0.
  pose proof (ok_words h Hok) as Hw. rewrite !Forall_cons in Hw. destruct Hw as (W1 & W2 & W3 & W4 & _).
  assert (HD : forall o, opt_all wide o -> zlen (rlp_uint (default 0 o)) <= 41) by (intros [i|] Hi; [apply zlen_rlp_uint_le; by apply wide_u256|by vm_compute]).
  pose proof (HD _ (ok_difficulty h Hok)). pose proof (HD _ (ok_number h Hok)). pose proof (opt_uint_le _ _ wide_u256 (ok_basefee h Hok)).
  pose proof (opt_uint_le _ _ u64_u256 (ok_blobgas h Hok)). pose proof (opt_uint_le _ _ u64_u256 (ok_excess h Hok)).
  pose proof (opt_hash_le (b_WithdrawalsHash h)). pose proof (opt_hash_le (b_ParentBeaconBlockRoot h)). pose proof (opt_hash_le (b_RequestsHash h)).
  pose proof (zlen_rlp_uint_le _ (u64_u256 _ W1)). pose proof (zlen_rlp_uint_le _ (u64_u256 _ W2)). pose proof (zlen_rlp_uint_le _ (u64_u256 _ W3)). pose proof (zlen_rlp_uint_le _ (u64_u256 _ W4)).
  pose proof (zlen_rlp_string_le _ (ok_extra h Hok)). pose proof (zlen_rlp_string_le _ (ok_seal h Hok)). pose proof (ok_extra h Hok). pose proof (ok_seal h Hok). unfold go_len in *.
  assert (zlen (mjoin (if 0 <? zlen (b_AuRaSeal h) then [rlp_uint (b_AuRaStep h); rlp_string (b_AuRaSeal h)] else [rlp_string (hash_bytes (b_MixDigest h)); rlp_string (b_Nonce h)])) <= 200 + 2 ^ 48).
  { destruct (0 <? _); rewrite !zlen_join_cons; change (zlen (mjoin [] : bytes)) with 0; [lia|]. rewrite zlen_hash_item, rlp_nonce, zlen_cons, (ok_nonce h Hok) by apply Hok. lia. }
  rewrite !zlen_hash_item, rlp_addr, zlen_cons, (rlp_bloom _ (ok_bloom h Hok)), zlen_app, (ok_bloom h Hok). unfold addr_bytes. rewrite zlen_Z_to_be. change (zlen [Zbyte (183 + 2); Zbyte 1; Zbyte 0]) with 3. lia.
Qed.

Lemma header_emits h : header_ok h -> emits 32 (encode_fields h) (header_rlp h).
Proof.
  intros Hok. unfold encode_fields, header_rlp, rlp_list. rewrite header_size by exact Hok. pose proof (header_items_le h Hok). pose proof (zlen_nonneg (mjoin (header_items h))).
  apply emits_seq; [apply (emits_weaken 9); [lia|]; apply EncodeStructSizePrefix_emits; unfold two64; lia|].
  pose proof (ok_words h Hok) as Hw. rewrite !Forall_cons in Hw. destruct Hw as (W1 & W2 & W3 & _).
  unfold header_items, items_with, aura_items, pow_items. rewrite !mjoin_app_bytes. cbn [mjoin list_join]. rewrite !rlp_hash, rlp_addr, <- !app_assoc. rewrite app_nil_l.
  apply emits_tag, emits_tagged_item, emits_tagged_item, emits_any, emits_tag, emits_tagged_item, emits_any, emits_tag, emits_tagged_item, emits_tagged_item, emits_tagged_item, emits_any.
  apply emits_bloom; [|apply Hok]. apply big_emits; [apply Hok|]. apply big_emits; [apply Hok|]. do 3 (apply int_emits; [assumption|]). apply string_emits; [apply Hok|].
  apply seal_emits; [exact Hok|]. apply opt_item_emits; [intros f Ef Hk; apply (big_emits (Some f)); [pose proof (ok_basefee h Hok) as Hb; by rewrite Ef in Hb|exact Hk]|].
  apply opt_item_emits; [intros; by apply hash_item_emits|].
  apply opt_item_emits; [intros g Eg Hk; apply int_emits; [pose proof (ok_blobgas h Hok) as Hb; by rewrite Eg in Hb|exact Hk]|].
  apply opt_item_emits; [intros g Eg Hk; apply int_emits; [pose proof (ok_excess h Hok) as Hb; by rewrite Eg in Hb|exact Hk]|].
  apply opt_item_emits; [intros; by apply hash_item_emits|]. rewrite <- (app_nil_r (mjoin (opt_rlp (b_RequestsHash h) _))).
  apply opt_item_emits; [intros; by apply hash_item_emits|]. apply emits_nil.
Qed.

(** What a header is written as, and that its size is announced right. *)
Lemma EncodeRLP_exact h out : header_ok h -> h_EncodeRLP h out = Val (None, out ++ header_rlp h).
Proof. intros Hok. unfold h_EncodeRLP, with_buf. destruct (header_emits h Hok out newEncodingBuf ltac:(by cbn)) as (buf & -> & _). reflexivity. Qed.

Record withdrawal_ok (w : Withdrawal) : Prop := mkWdOk {
  wd_words : Forall is_u64 [w_Index w; w_Validator w; w_Amount w];
  wd_addr : 0 <= w_Address w < two160
}.

Definition wd_items (w : Withdrawal) : list bytes := [rlp_uint (w_Index w); rlp_uint (w_Validator w); rlp_string (addr_bytes (w_Address w)); rlp_uint (w_Amount w)].

Lemma wd_size w : withdrawal_ok w -> wd_EncodingSize w = zlen (mjoin (wd_items w)).
Proof.
  intros Hok. pose proof (wd_words w Hok) as Hw. rewrite !Forall_cons in Hw. destruct Hw as (W1 & W2 & W3 & _). unfold wd_items. rewrite !zlen_join_cons, <- !IntLen_exact by assumption.
  rewrite rlp_addr, zlen_cons. unfold addr_bytes. rewrite zlen_Z_to_be. unfold wd_EncodingSize. change (zlen (mjoin [] : bytes)) with 0. lia.
Qed.

Lemma wd_EncodeRLP_exact w out : withdrawal_ok w -> wd_EncodeRLP w out = Val (None, out ++ rlp_list (wd_items w)).
Proof.
  intros Hok. pose proof (wd_words w Hok) as Hw. rewrite !Forall_cons in Hw. destruct Hw as (W1 & W2 & W3 & _).
  assert (He : emits 32 (wd_fields w) (rlp_list (wd_items w))).
  { unfold wd_fields, rlp_list. rewrite wd_size by exact Hok. apply emits_seq.
    - apply (emits_weaken 9); [lia|]. apply EncodeStructSizePrefix_emits. split; [apply zlen_nonneg|]. rewrite <- wd_size by exact Hok. unfold wd_EncodingSize.
      pose proof (zlen_rlp_uint_le _ (u64_u256 _ W1)) as L1. pose proof (zlen_rlp_uint_le _ (u64_u256 _ W2)) as L2. pose proof (zlen_rlp_uint_le _ (u64_u256 _ W3)) as L3. rewrite <- IntLen_exact in L1, L2, L3 by assumption. unfold two64. lia.
    - unfold wd_items. cbn [mjoin list_join]. rewrite rlp_addr. apply int_emits; [exact W1|]. apply int_emits; [exact W2|]. apply emits_tag, emits_tagged_item, emits_any. rewrite app_nil_r. apply (emits_weaken 9); [lia|]. by apply EncodeInt_emits. }
  unfold wd_EncodeRLP, with_buf. destruct (He out newEncodingBuf ltac:(by cbn)) as (buf & -> & _). reflexivity.
Qed.

(** The size of an AuRa seal is counted as that of a list: wrong for a single small byte. *)
Example aura_seal_size :
  let h := mkBlk 1 2 3 4 5 6 (replicate 256 x01) (Some 0) (Some 1) 30000000 21000 1710338135 [] 0 (replicate 8 x00) 5 [x01] None None None None None None in
  h_EncodingSize h = zlen (mjoin (header_items h)) + 1.
Proof. vm_compute. reflexivity. Qed.
