(* ===== verification/RlpStream.v ===== *)
(** * RLP: the stream decoder

    [Stream] of [execution/rlp/decode.go] over a byte slice: the kind and size of the value
    ahead, the stack of the lists being read, the optional limit on the input. The scratch
    buffer for integers has no entry: what a method leaves in it is not read by another.
    Values come back with an error as [Error + A]. *)

From S2P Require Import Prelude Errors Rlp.

(** ** Errors *)

Definition EOL : Error := NewError "rlp: end of list".
Definition ErrExpectedString : Error := NewError "rlp: expected String or Byte".
Definition ErrExpectedList : Error := NewError "rlp: expected List".
Definition ErrCanonInt : Error := NewError "rlp: non-canonical integer format".
Definition ErrCanonSize : Error := NewError "rlp: non-canonical size information".
Definition ErrElemTooLarge : Error := NewError "rlp: element is larger than containing list".
Definition ErrValueTooLarge : Error := NewError "rlp: value size exceeds available input length".
Definition ErrMoreThanOneValue : Error := NewError "rlp: input contains more than one value".
Definition errNotInList : Error := NewError "rlp: call of ListEnd outside of any list".
Definition errNotAtEOL : Error := NewError "rlp: call of ListEnd not positioned at EOL".
Definition errUintOverflow : Error := NewError "rlp: uint overflow".
Definition io_EOF : Error := NewError "EOF".
Definition io_ErrUnexpectedEOF : Error := NewError "unexpected EOF".
Definition errWrongSize : Error := NewError "input value has wrong size".
Definition errInvalidBool : Error := NewError "rlp: invalid boolean value".

(** ** The stream *)

Inductive Kind : Type := Byte | String | List.
#[export] Instance Kind_eq_dec : EqDecision Kind.
Proof. solve_decision. Defined.

Record listpos : Type := mkPos { lp_pos : Z; lp_size : Z }.

(** [kind] is [None] for the -1 of the source; the innermost list is the head of [stack]. *)
Record Stream : Type := mkStream {
  s_r : bytes; s_remaining : Z; s_limited : bool; s_kind : option Kind; s_size : Z; s_byteval : byte;
  s_kinderr : option Error; s_stack : list listpos
}.

Definition with_r (x : bytes) (s : Stream) : Stream := mkStream x (s_remaining s) (s_limited s) (s_kind s) (s_size s) (s_byteval s) (s_kinderr s) (s_stack s).
Definition with_remaining (x : Z) (s : Stream) : Stream := mkStream (s_r s) x (s_limited s) (s_kind s) (s_size s) (s_byteval s) (s_kinderr s) (s_stack s).
Definition with_kind (x : option Kind) (s : Stream) : Stream := mkStream (s_r s) (s_remaining s) (s_limited s) x (s_size s) (s_byteval s) (s_kinderr s) (s_stack s).
Definition with_size (x : Z) (s : Stream) : Stream := mkStream (s_r s) (s_remaining s) (s_limited s) (s_kind s) x (s_byteval s) (s_kinderr s) (s_stack s).
Definition with_byteval (x : byte) (s : Stream) : Stream := mkStream (s_r s) (s_remaining s) (s_limited s) (s_kind s) (s_size s) x (s_kinderr s) (s_stack s).
Definition with_kinderr (x : option Error) (s : Stream) : Stream := mkStream (s_r s) (s_remaining s) (s_limited s) (s_kind s) (s_size s) (s_byteval s) x (s_stack s).
Definition with_stack (x : list listpos) (s : Stream) : Stream := mkStream (s_r s) (s_remaining s) (s_limited s) (s_kind s) (s_size s) (s_byteval s) (s_kinderr s) x.

(** [Reset] on a byte slice; without an explicit limit a [bytes.Reader] gives one
    ([discover]), any other reader none. *)
Definition s_Reset (r : bytes) (inputLimit : Z) (discover : bool) (s : Stream) : Stream :=
  let s :=
    if 0 <? inputLimit then mkStream r inputLimit true None 0 x00 None []
    else if discover then mkStream r (zlen r) true None 0 x00 None []
    else mkStream r (s_remaining s) false None 0 x00 None [] in
  s.

(** [new(Stream)]: the zero kind is [Byte]. *)
Definition zeroStream : Stream := mkStream [] 0 false (Some Byte) 0 x00 None [].
Definition NewStream (r : bytes) (inputLimit : Z) (discover : bool) : Stream := s_Reset r inputLimit discover zeroStream.
Definition NewListStream (r : bytes) (len : Z) (discover : bool) : Stream :=
  with_size len (with_kind (Some List) (s_Reset r len discover zeroStream)).

(** [if err != nil { return ..., err }]. *)
Definition try_s {S A B} (m : M S (Error + A)) (k : A -> M S (Error + B)) : M S (Error + B) :=
  r ← m; match r with inl e => mret (inl e) | inr a => k a end.

(** ** Reading *)

Definition willRead (n : Z) : M Stream (option Error) :=
  _ ← modify (with_kind None);
  s ← gets id;
  let over := match s_stack s with tos :: _ => u64 (lp_size tos - lp_pos tos) <? n | [] => false end in
  if over then mret (Some ErrElemTooLarge)
  else
    _ ← modify (fun s => match s_stack s with
                         | tos :: rest => with_stack (mkPos (u64 (lp_pos tos + n)) (lp_size tos) :: rest) s
                         | [] => s
                         end);
    if s_limited s then
      if s_remaining s <? n then mret (Some ErrValueTooLarge)
      else _ ← modify (with_remaining (s_remaining s - n)); mret None
    else mret None.

(** The loop of [Read] calls on a byte slice: all that is asked for, or what there is and
    an end of file. *)
Definition readFull (n : Z) : M Stream (Error + bytes) :=
  e ← willRead n;
  match e with
  | Some e => mret (inl e)
  | None =>
      r ← gets s_r;
      if zlen r <? n then _ ← modify (with_r []); mret (inl io_ErrUnexpectedEOF)
      else _ ← modify (with_r (drop (Z.to_nat n) r)); mret (inr (take (Z.to_nat n) r))
  end.

Definition readByte : M Stream (Error + byte) :=
  e ← willRead 1;
  match e with
  | Some e => mret (inl e)
  | None =>
      r ← gets s_r;
      match r with
      | [] => mret (inl io_ErrUnexpectedEOF)
      | b :: r => _ ← modify (with_r r); mret (inr b)
      end
  end.

Definition readUint (size : Z) : M Stream (Error + Z) :=
  if size =? 0 then _ ← modify (with_kind None); mret (inr 0)
  else if size =? 1 then try_s readByte (fun b => mret (inr (byteZ b)))
  else
    try_s (readFull size) (fun buffer =>
      match buffer with
      | b :: _ => if byteZ b =? 0 then mret (inl ErrCanonSize) else mret (inr (be_to_Z buffer))
      | [] => gopanic "index out of range"
      end).

(** The size of a long string or list. *)
Definition long_size (k : Kind) (size : Z) : M Stream (Kind * Z * option Error) :=
  r ← readUint size;
  match r with
  | inl e => mret (k, 0, Some e)
  | inr size => mret (k, size, if size <? 56 then Some ErrCanonSize else None)
  end.

Definition readKind : M Stream (Kind * Z * option Error) :=
  rb ← readByte;
  match rb with
  | inl err =>
      s ← gets id;
      match s_stack s with
      | [] =>
          if errors_Is err io_ErrUnexpectedEOF then mret (Byte, 0, Some io_EOF)
          else if errors_Is err ErrValueTooLarge then mret (Byte, 0, Some io_EOF)
          else mret (Byte, 0, Some err)
      | _ => mret (Byte, 0, Some err)
      end
  | inr b =>
      _ ← modify (with_byteval x00);
      let v := byteZ b in
      if v <? 0x80 then _ ← modify (with_byteval b); mret (Byte, 0, None)
      else if v <? 0xB8 then mret (String, v - 0x80, None)
      else if v <? 0xC0 then long_size String (v - 0xB7)
      else if v <? 0xF8 then mret (List, v - 0xC0, None)
      else long_size List (v - 0xF7)
  end.

(** What [Kind] checks of a size it has just read. *)
Definition size_error (s : Stream) (size : Z) : option Error :=
  match s_stack s with
  | [] => if s_limited s && (s_remaining s <? size) then Some ErrValueTooLarge else None
  | tos :: _ => if u64 (lp_size tos - lp_pos tos) <? size then Some ErrElemTooLarge else None
  end.

Definition s_Kind : M Stream (Error + Kind * Z) :=
  s ← gets id;
  match s_kind s with
  | Some k => mret (match s_kinderr s with Some e => inl e | None => inr (k, s_size s) end)
  | None =>
      _ ← modify (with_kinderr None);
      if match s_stack s with tos :: _ => lp_pos tos =? lp_size tos | [] => false end then mret (inl EOL)
      else
        '(k, size, err) ← readKind;
        s ← gets id;
        let err := match err with Some e => Some e | None => size_error s size end in
        _ ← modify (fun s => with_kinderr err (with_size size (with_kind (Some k) s)));
        mret (match err with Some e => inl e | None => inr (k, size) end)
  end.

(** [make([]byte, n)]. *)
Definition make_bytes (n : Z) : M Stream unit :=
  if n <? 281474976710656 then mret tt else gopanic "makeslice: len out of range".

(** A single byte where the string form was read. *)
Definition small_string (b : bytes) : bool := match b with [x] => byteZ x <? 128 | _ => false end.

Definition s_Bytes : M Stream (Error + bytes) :=
  try_s s_Kind (fun '(kind, size) =>
    match kind with
    | Byte => _ ← modify (with_kind None); b ← gets s_byteval; mret (inr [b])
    | String =>
        _ ← make_bytes size;
        try_s (readFull size) (fun b => if small_string b then mret (inl ErrCanonSize) else mret (inr b))
    | List => mret (inl ErrExpectedString)
    end).

(** [ReadBytes(b)] for a buffer of [len] bytes. *)
Definition s_ReadBytes (len : Z) : M Stream (Error + bytes) :=
  try_s s_Kind (fun '(kind, size) =>
    match kind with
    | Byte =>
        if negb (len =? 1) then mret (inl errWrongSize)
        else b ← gets s_byteval; _ ← modify (with_kind None); mret (inr [b])
    | String =>
        if negb (len =? size) then mret (inl errWrongSize)
        else try_s (readFull len) (fun b => if small_string b then mret (inl ErrCanonSize) else mret (inr b))
    | List => mret (inl ErrExpectedString)
    end).

Definition headsize (size : Z) : Z := if size <? 56 then 1 else 1 + BitLenToByteLen (Len64 size).
Definition puthead (smalltag largetag size : Z) : bytes :=
  if size <? 56 then [Zbyte (smalltag + size)]
  else let b := be_switch64 size in Zbyte (largetag + zlen b) :: b.

Definition s_Raw : M Stream (Error + bytes) :=
  try_s s_Kind (fun '(kind, size) =>
    match kind with
    | Byte => _ ← modify (with_kind None); b ← gets s_byteval; mret (inr [b])
    | _ =>
        _ ← make_bytes (u64 (headsize size + size));
        try_s (readFull size) (fun content =>
          mret (inr ((if decide (kind = String) then puthead 0x80 0xB7 size else puthead 0xC0 0xF7 size) ++ content)))
    end).

Definition s_uint (maxbits : Z) : M Stream (Error + Z) :=
  try_s s_Kind (fun '(kind, size) =>
    match kind with
    | Byte =>
        b ← gets s_byteval;
        if byteZ b =? 0 then mret (inl ErrCanonInt)
        else _ ← modify (with_kind None); mret (inr (byteZ b))
    | String =>
        if maxbits / 8 <? size then mret (inl errUintOverflow)
        else
          r ← readUint size;
          match r with
          | inl err => if errors_Is err ErrCanonSize then mret (inl ErrCanonInt) else mret (inl err)
          | inr v => if (0 <? size) && (v <? 128) then mret (inl ErrCanonSize) else mret (inr v)
          end
    | List => mret (inl ErrExpectedString)
    end).
Definition s_Uint : M Stream (Error + Z) := s_uint 64.

Definition s_Bool : M Stream (Error + bool) :=
  try_s (s_uint 8) (fun num =>
    if num =? 0 then mret (inr false) else if num =? 1 then mret (inr true) else mret (inl errInvalidBool)).

(** The test for leading zeros at the end. *)
Definition no_leading_zero (buffer : bytes) : M Stream (Error + bytes) :=
  match buffer with
  | b :: _ => if byteZ b =? 0 then mret (inl ErrCanonInt) else mret (inr buffer)
  | [] => mret (inr [])
  end.

Definition bigIntBytes : M Stream (Error + bytes) :=
  try_s s_Kind (fun '(kind, size) =>
    match kind with
    | List => mret (inl ErrExpectedString)
    | Byte => b ← gets s_byteval; _ ← modify (with_kind None); no_leading_zero [b]
    | String =>
        if size =? 0 then _ ← modify (with_kind None); no_leading_zero []
        else if size <=? 32 then
          try_s (readFull size) (fun buffer => if small_string buffer then mret (inl ErrCanonSize) else no_leading_zero buffer)
        else
          _ ← make_bytes size;
          try_s (readFull size) no_leading_zero
    end).

Definition Uint256Bytes : M Stream (Error + bytes) :=
  try_s bigIntBytes (fun b => if 32 <? zlen b then mret (inl errUintOverflow) else mret (inr b)).

(** [b, err := s.Uint256Bytes()] and [new(big.Int).SetBytes(b)]. *)
Definition s_BigInt : M Stream (Error + Z) := try_s Uint256Bytes (fun b => mret (inr (be_to_Z b))).

(** ** Lists *)

Definition NewList (size : Z) : M Stream unit := modify (fun s => with_size 0 (with_kind None (with_stack (mkPos 0 size :: s_stack s) s))).

Definition s_List : M Stream (Error + Z) :=
  try_s s_Kind (fun '(kind, size) =>
    if negb (bool_decide (kind = List)) then mret (inl ErrExpectedList) else _ ← NewList size; mret (inr size)).

Definition ListEnd : M Stream (option Error) :=
  s ← gets id;
  match s_stack s with
  | [] => mret (Some errNotInList)
  | tos :: rest =>
      if negb (lp_pos tos =? lp_size tos) then mret (Some errNotAtEOL)
      else
        let rest := match rest with up :: rest => mkPos (u64 (lp_pos up + lp_size tos)) (lp_size up) :: rest | [] => [] end in
        _ ← modify (fun s => with_size 0 (with_kind None (with_stack rest s)));
        mret None
  end.

(** [if err := s.ListEnd(); err != nil { return wrapped }; return nil]. *)
Definition end_list {A} (wrap : Error -> Error) (v : A) : M Stream (Error + A) :=
  e ← ListEnd; mret (match e with Some e => inl (wrap e) | None => inr v end).

(** A field that may be absent at the end of the list. *)
Definition opt_field {A B} (op : M Stream (Error + A)) (wrap close_wrap : Error -> Error) (absent : B) (k : A -> M Stream (Error + B)) : M Stream (Error + B) :=
  r ← op;
  match r with
  | inl err => if errors_Is err EOL then end_list close_wrap absent else mret (inl (wrap err))
  | inr a => k a
  end.

Definition listLimit (s : Stream) : bool * Z :=
  match s_stack s with [] => (false, 0) | a :: _ => (true, u64 (lp_size a - lp_pos a)) end.
Definition MoreDataInList (s : Stream) : bool := 0 <? (listLimit s).2.

(** [DecodeBytes(b, val)] for a type with a decoder of its own. *)
Definition DecodeBytes {A} (dec : M Stream (Error + A)) (b : bytes) : Res (Error + A) :=
  match dec (s_Reset b (zlen b) false zeroStream) with
  | Val (inl e, _) => Val (inl e)
  | Val (inr v, s) => if 0 <? zlen (s_r s) then Val (inl ErrMoreThanOneValue) else Val (inr v)
  | Panic e => Panic e
  | OutOfFuel => OutOfFuel
  end.
