(* ===== verification/RlpStreamSpec.v ===== *)
(** * RLP: what the stream decoder accepts

    In a stream with an input limit, each reading method of [Stream] either reads exactly
    the canonical encoding of the value it returns and moves past it, or returns an error;
    it accepts every canonical encoding that fits in the current list, and returns [EOL]
    exactly at the end of the list. It never panics. *)

From S2P Require Import Prelude Errors Rlp RlpSpec RlpParse RlpStream.

(** ** Reading bytes *)

(** A limited stream at the bytes [r], inside the lists [stk]. *)
Definition st (r : bytes) (stk : list listpos) (k : option Kind) (n : Z) (b : byte) (e : option Error) : Stream :=
  mkStream r (zlen r) true k n b e stk.

Definition room (r : bytes) (stk : list listpos) : Z := match stk with [] => zlen r | t :: _ => lp_size t - lp_pos t end.
Definition adv (n : Z) (stk : list listpos) : list listpos := match stk with t :: rest => mkPos (lp_pos t + n) (lp_size t) :: rest | [] => [] end.
Definition fits (r : bytes) (stk : list listpos) : Prop :=
  go_len r /\ match stk with t :: _ => 0 <= lp_pos t <= lp_size t /\ lp_size t < two64 /\ lp_size t - lp_pos t <= zlen r | [] => True end.
Definition too_large (stk : list listpos) : Error := match stk with [] => ErrValueTooLarge | _ => ErrElemTooLarge end.

Lemma u64_sub t : 0 <= lp_pos t <= lp_size t -> lp_size t < two64 -> u64 (lp_size t - lp_pos t) = lp_size t - lp_pos t.
Proof. intros H1 H2. apply u64_id. unfold is_u64. lia. Qed.

Lemma willRead_eq r stk k z b e n : fits r stk -> 0 <= n ->
  willRead n (st r stk k z b e) =
  if room r stk <? n then Val (Some (too_large stk), st r stk None z b e)
  else Val (None, mkStream r (zlen r - n) true None z b e (adv n stk)).
Proof.
  intros [_ Hf] Hn. unfold willRead, room, too_large, adv. destruct stk as [|t stk].
  - unfold mbind, M_bind, modify, gets. cbn. by destruct (zlen r <? n).
  - destruct Hf as (H1 & H2 & H3). unfold mbind, M_bind, modify, gets. cbn. rewrite u64_sub by assumption. destruct (Z.ltb_spec (lp_size t - lp_pos t) n); [reflexivity|].
    cbn. destruct (Z.ltb_spec (zlen r) n); [lia|]. cbn. rewrite u64_id by (unfold is_u64; lia). reflexivity.
Qed.

Lemma room_le r stk : fits r stk -> 0 <= room r stk <= zlen r.
Proof. intros [_ H]. unfold room. pose proof (zlen_nonneg r). destruct stk as [|t stk]; [lia|]. lia. Qed.

Lemma fits_adv n r stk : fits r stk -> 0 <= n <= room r stk -> fits (drop (Z.to_nat n) r) (adv n stk) /\ room (drop (Z.to_nat n) r) (adv n stk) = room r stk - n.
Proof.
  intros Hf Hn. pose proof (room_le r stk Hf) as Hr. destruct Hf as [Hl Hf].
  assert (E : zlen (drop (Z.to_nat n) r) = zlen r - n) by (unfold zlen in *; rewrite length_drop; lia).
  unfold fits, room, adv, go_len in *. rewrite !E. destruct stk as [|t stk]; [split; [|lia]; split; [lia|exact I]|].
  cbn [lp_pos lp_size]. split; [|lia]. split; [lia|]. split; [lia|]. split; lia.
Qed.

Lemma readFull_eq r stk k z b e n : fits r stk -> 0 <= n ->
  readFull n (st r stk k z b e) =
  if room r stk <? n then Val (inl (too_large stk), st r stk None z b e)
  else Val (inr (take (Z.to_nat n) r), st (drop (Z.to_nat n) r) (adv n stk) None z b e).
Proof.
  intros Hf Hn. unfold readFull. unfold mbind at 1, M_bind at 1. rewrite willRead_eq by assumption. destruct (Z.ltb_spec (room r stk) n); [reflexivity|].
  pose proof (room_le r stk Hf). unfold mbind, M_bind, gets, modify. cbn [s_r]. destruct (Z.ltb_spec (zlen r) n); [lia|]. unfold st, with_r. cbn.
  replace (zlen (drop (Z.to_nat n) r)) with (zlen r - n) by (unfold zlen in *; rewrite length_drop; lia). reflexivity.
Qed.

Lemma readByte_eq r stk k z b e : fits r stk ->
  readByte (st r stk k z b e) =
  if room r stk <? 1 then Val (inl (too_large stk), st r stk None z b e)
  else match r with [] => Panic "" | x :: r => Val (inr x, st r (adv 1 stk) None z b e) end.
Proof.
  intros Hf. unfold readByte. unfold mbind at 1, M_bind at 1. rewrite willRead_eq by (assumption || lia). destruct (Z.ltb_spec (room r stk) 1); [reflexivity|].
  pose proof (room_le r stk Hf). destruct r as [|x r]; [change (zlen (@nil byte)) with 0 in *; lia|]. unfold mbind, M_bind, gets, modify, st. cbn.
  rewrite zlen_cons. by replace (1 + zlen r - 1) with (zlen r) by lia.
Qed.

(** The bytes of a size or of an integer of [m] bytes. *)
Lemma readUint_eq r stk k z b e m : fits r stk -> 1 <= m ->
  readUint m (st r stk k z b e) =
  if room r stk <? m then Val (inl (too_large stk), st r stk None z b e)
  else Val (match take (Z.to_nat m) r with
            | x :: _ => if (1 <? m) && (byteZ x =? 0) then inl ErrCanonSize else inr (be_to_Z (take (Z.to_nat m) r))
            | [] => inl EOL
            end, st (drop (Z.to_nat m) r) (adv m stk) None z b e).
Proof.
  intros Hf Hm. unfold readUint. pose proof (room_le r stk Hf). destruct (Z.eqb_spec m 0); [lia|]. destruct (Z.eqb_spec m 1) as [->|].
  - unfold try_s. unfold mbind, M_bind. rewrite readByte_eq by assumption. destruct (Z.ltb_spec (room r stk) 1); [reflexivity|].
    destruct r as [|x r]; [change (zlen (@nil byte)) with 0 in *; lia|]. cbn. unfold be_to_Z. cbn. reflexivity.
  - unfold try_s. unfold mbind, M_bind. rewrite readFull_eq by (assumption || lia). destruct (Z.ltb_spec (room r stk) m); [reflexivity|].
    destruct r as [|x r]; [change (zlen (@nil byte)) with 0 in *; lia|]. destruct (Z.to_nat m) as [|m'] eqn:Em; [lia|]. cbn [take drop]. destruct (Z.ltb_spec 1 m); [|lia]. cbn [andb].
    by destruct (byteZ x =? 0).
Qed.

(** ** The head of a value *)

Definition str_header (n : Z) : bytes := if 56 <=? n then Zbyte (183 + Z.of_nat (byteLen n)) :: be n else [Zbyte (128 + n)].

Definition head (k : Kind) (n : Z) (b : byte) (hd : bytes) : Prop :=
  match k with
  | Byte => n = 0 /\ hd = [b] /\ byteZ b < 128
  | String => 0 <= n < two64 /\ hd = str_header n
  | List => 0 <= n < two64 /\ hd = rlp_list_header n
  end.

Definition kind_byte (k : Kind) (b : byte) : byte := match k with Byte => b | _ => x00 end.

Lemma adv_adv m n stk : adv m (adv n stk) = adv (n + m) stk.
Proof. destruct stk as [|t stk]; [reflexivity|]. cbn. f_equal. f_equal. lia. Qed.

Lemma byteLen_size n : 56 <= n < two64 -> (1 <= byteLen n <= 8)%nat.
Proof.
  intros Hn. destruct (byteLen_bounds n) as [H _]; [lia|]. pose proof (byteLen_le n 8) as H2. change (256 ^ Z.of_nat 8) with two64 in H2. lia.
Qed.

(** The bytes after the tag of a long value. *)
Lemma long_size_exact K r stk z b e m : fits r stk -> 1 <= m <= 8 ->
  match long_size K m (st r stk None z b e) with
  | Val (K', n, None, s') => K' = K /\ 56 <= n < two64 /\ Z.of_nat (byteLen n) = m /\ exists r', r = be n ++ r' /\ m <= room r stk /\ s' = st r' (adv m stk) None z b e
  | Val (_, _, Some e, _) => errors_Is e EOL = false
  | _ => False
  end.
Proof.
  intros Hf Hm. unfold long_size, mbind, M_bind. rewrite readUint_eq by (assumption || lia). destruct (Z.ltb_spec (room r stk) m); [by destruct stk|].
  pose proof (room_le r stk Hf). assert (HL : length (take (Z.to_nat m) r) = Z.to_nat m) by (rewrite length_take; unfold zlen in *; lia).
  destruct (take (Z.to_nat m) r) as [|x l] eqn:Et; [cbn in HL; lia|]. destruct ((1 <? m) && (byteZ x =? 0)) eqn:Ez; [reflexivity|].
  set (n := be_to_Z (x :: l)) in *. cbn [mret M_ret]. destruct (Z.ltb_spec n 56) as [Hlt|Hge]; [reflexivity|].
  assert (Hx : byteZ x <> 0).
  { apply andb_false_iff in Ez as [Ez|Ez]; [|by apply Z.eqb_neq in Ez]. apply Z.ltb_ge in Ez. assert (m = 1) by lia. subst m. destruct l; [|discriminate].
    unfold n in Hge. rewrite be_to_Z_cons in Hge. change (be_to_Z []) with 0 in Hge. cbn in Hge. lia. }
  assert (Eb : be n = x :: l) by (by apply be_canonical). assert (Hlen : Z.of_nat (byteLen n) = m) by (rewrite <- length_be, Eb, HL; lia).
  assert (Hn : n < two64). { destruct (byteLen_bounds n) as [_ [_ Hb]]; [lia|]. assert (256 ^ Z.of_nat (byteLen n) <= 256 ^ 8) by (apply Z.pow_le_mono_r; lia). change (256 ^ 8) with two64 in *. lia. }
  split; [reflexivity|]. split; [lia|]. split; [exact Hlen|]. exists (drop (Z.to_nat m) r). split; [|split; [lia|reflexivity]]. rewrite Eb, <- Et. symmetry. apply take_drop.
Qed.

Lemma long_size_complete K r' stk z b e n : 56 <= n < two64 -> fits (be n ++ r') stk -> Z.of_nat (byteLen n) <= room (be n ++ r') stk ->
  long_size K (Z.of_nat (byteLen n)) (st (be n ++ r') stk None z b e) = Val (K, n, None, st r' (adv (Z.of_nat (byteLen n)) stk) None z b e).
Proof.
  intros Hn Hf Hr. pose proof (byteLen_size n Hn) as Hb. unfold long_size, mbind, M_bind. rewrite readUint_eq by (assumption || lia). destruct (Z.ltb_spec (room (be n ++ r') stk) (Z.of_nat (byteLen n))); [lia|].
  rewrite Nat2Z.id. rewrite <- (length_be n). rewrite take_app_length, drop_app_length. destruct (be_head n ltac:(lia)) as (x & l & Ex & Hx). rewrite Ex.
  destruct (Z.eqb_spec (byteZ x) 0); [done|]. rewrite andb_false_r, <- Ex. rewrite be_value by lia. cbn [mret M_ret]. destruct (Z.ltb_spec n 56); [lia|]. reflexivity.
Qed.

(** At the end of the innermost list. *)
Definition at_end (stk : list listpos) : bool := match stk with t :: _ => lp_pos t =? lp_size t | [] => false end.

Lemma at_end_room r stk : fits r stk -> at_end stk = true -> room r stk = 0.
Proof. intros _. unfold at_end, room. destruct stk as [|t stk]; [discriminate|]. intros E%Z.eqb_eq. lia. Qed.

Lemma not_end_room r t stk : fits r (t :: stk) -> at_end (t :: stk) = false -> 0 < room r (t :: stk).
Proof. intros [_ Hf]. unfold at_end, room. intros E%Z.eqb_neq. lia. Qed.

Lemma size_error_eq r stk k z b e n : fits r stk -> size_error (st r stk k z b e) n = if room r stk <? n then Some (too_large stk) else None.
Proof.
  intros [_ Hf]. unfold size_error, room, too_large. destruct stk as [|t stk]; cbn [s_stack s_limited s_remaining st andb].
  - unfold st. cbn. by destruct (zlen r <? n).
  - unfold st. cbn. rewrite u64_sub by tauto. by destruct (lp_size t - lp_pos t <? n).
Qed.

Lemma readKind_sound r stk z b e : fits r stk -> (stk = [] \/ 0 < room r stk) ->
  match readKind (st r stk None z b e) with
  | Val (k, n, None, s') => exists hd r' bv, r = hd ++ r' /\ head k n bv hd /\ 0 < zlen hd <= room r stk /\ s' = st r' (adv (zlen hd) stk) None z (kind_byte k bv) e
  | Val (_, _, Some x, _) => errors_Is x EOL = false
  | _ => False
  end.
Proof.
  intros Hf Hroom. unfold readKind. unfold mbind at 1, M_bind at 1. rewrite readByte_eq by assumption. destruct (Z.ltb_spec (room r stk) 1) as [Hs|Hs].
  { destruct stk as [|t stk]; [reflexivity|]. destruct Hroom as [?|?]; [discriminate|lia]. }
  pose proof (room_le r stk Hf). destruct r as [|x r]; [change (zlen (@nil byte)) with 0 in *; lia|].
  destruct (fits_adv 1 (x :: r) stk Hf ltac:(lia)) as [Hf1 Hr1]. change (drop (Z.to_nat 1) (x :: r)) with r in *. pose proof (byteZ_range x) as Hx.
  unfold mbind at 1, M_bind at 1, modify at 1. cbn [with_byteval st].
  destruct (Z.ltb_spec (byteZ x) 0x80) as [H1|H1].
  { cbn. exists [x], r, x. split; [reflexivity|]. split; [split; [reflexivity|split; [reflexivity|lia]]|]. split; [change (zlen [x]) with 1; lia|]. reflexivity. }
  destruct (Z.ltb_spec (byteZ x) 0xB8) as [H2|H2].
  { cbn. exists [x], r, x00. split; [reflexivity|]. split; [|split; [change (zlen [x]) with 1; lia|reflexivity]]. split; [unfold two64; lia|]. unfold str_header. destruct (Z.leb_spec 56 (byteZ x - 0x80)); [lia|]. by rewrite Zplus_minus, Zbyte_byteZ. }
  destruct (Z.ltb_spec (byteZ x) 0xC0) as [H3|H3].
  { pose proof (long_size_exact String r (adv 1 stk) z x00 e (byteZ x - 0xB7) Hf1 ltac:(lia)) as HL. unfold st in HL |- *. cbn [s_r s_remaining s_limited s_kind s_size s_kinderr s_stack] in HL |- *.
    destruct (long_size String (byteZ x - 183) _) as [[[[K n] [x'|]] s']| |]; [exact HL| |contradiction..]. destruct HL as (-> & Hn & Hb & r' & -> & Hm & ->).
    exists (x :: be n), r', x00. split; [reflexivity|]. split; [|rewrite zlen_cons, zlen_be, Hb; split; [lia|]; rewrite adv_adv; reflexivity]. split; [lia|]. unfold str_header. destruct (Z.leb_spec 56 n); [|lia]. by rewrite Hb, Zplus_minus, Zbyte_byteZ. }
  destruct (Z.ltb_spec (byteZ x) 0xF8) as [H4|H4].
  { cbn. exists [x], r, x00. split; [reflexivity|]. split; [|split; [change (zlen [x]) with 1; lia|reflexivity]]. split; [unfold two64; lia|]. unfold rlp_list_header. destruct (Z.leb_spec 56 (byteZ x - 0xC0)); [lia|]. by rewrite Zplus_minus, Zbyte_byteZ. }
  pose proof (long_size_exact List r (adv 1 stk) z x00 e (byteZ x - 0xF7) Hf1 ltac:(lia)) as HL. unfold st in HL |- *. cbn [s_r s_remaining s_limited s_kind s_size s_kinderr s_stack] in HL |- *.
  destruct (long_size List (byteZ x - 247) _) as [[[[K n] [x'|]] s']| |]; [exact HL| |contradiction..]. destruct HL as (-> & Hn & Hb & r' & -> & Hm & ->).
  exists (x :: be n), r', x00. split; [reflexivity|]. split; [|rewrite zlen_cons, zlen_be, Hb; split; [lia|]; rewrite adv_adv; reflexivity]. split; [lia|]. unfold rlp_list_header. destruct (Z.leb_spec 56 n); [|lia]. by rewrite Hb, Zplus_minus, Zbyte_byteZ.
Qed.

Lemma Kind_sound r stk z b e : fits r stk ->
  match s_Kind (st r stk None z b e) with
  | Val (inr (k, n), s') => exists hd r' bv, r = hd ++ r' /\ head k n bv hd /\ 0 < zlen hd /\ zlen hd + n <= room r stk /\ s' = st r' (adv (zlen hd) stk) (Some k) n (kind_byte k bv) None
  | Val (inl x, s') => if at_end stk then x = EOL /\ s' = st r stk None z b None else errors_Is x EOL = false
  | _ => False
  end.
Proof.
  intros Hf. unfold s_Kind. unfold mbind at 1, M_bind at 1, gets at 1. cbn [id s_kind st]. unfold mbind at 1, M_bind at 1, modify at 1. cbn [s_stack st]. fold (at_end stk).
  destruct (at_end stk) eqn:Ee; [split; reflexivity|]. assert (Hroom : stk = [] \/ 0 < room r stk) by (destruct stk as [|t stk]; [by left|right; by apply not_end_room]).
  unfold mbind at 1, M_bind at 1. change (with_kinderr None (st r stk None z b e)) with (st r stk None z b None). pose proof (readKind_sound r stk z b None Hf Hroom) as HK.
  destruct (readKind _) as [[[[k n] [x|]] s']| |]; [exact HK| |contradiction..]. destruct HK as (hd & r' & bv & -> & Hh & Hlen & ->).
  unfold mbind at 1, M_bind at 1, gets at 1. cbn [id]. destruct (fits_adv (zlen hd) (hd ++ r') stk Hf ltac:(lia)) as [Hf' Hr']. unfold zlen in Hf', Hr' at 1. rewrite Nat2Z.id, drop_app_length in Hf', Hr'.
  rewrite size_error_eq by exact Hf'. fold (zlen hd) in *. rewrite Hr'. unfold mbind, M_bind, modify. destruct (Z.ltb_spec (room (hd ++ r') stk - zlen hd) n); [cbn; by destruct stk|].
  cbn. exists hd, r', bv. split; [reflexivity|]. split; [exact Hh|]. split; [lia|]. split; [lia|]. reflexivity.
Qed.

Lemma readKind_complete hd r' stk z b e k n bv : head k n bv hd -> fits (hd ++ r') stk -> zlen hd <= room (hd ++ r') stk ->
  readKind (st (hd ++ r') stk None z b e) = Val (k, n, None, st r' (adv (zlen hd) stk) None z (kind_byte k bv) e).
Proof.
  intros Hh Hf Hr. assert (Hhd : exists x tl, hd = x :: tl).
  { destruct k; destruct Hh as (? & H); [destruct H as [-> _]; eauto| |]; subst hd; [unfold str_header|unfold rlp_list_header]; destruct (56 <=? n); eauto. }
  destruct Hhd as (x & tl & ->). pose proof (room_le _ stk Hf). pose proof (zlen_nonneg tl). rewrite zlen_cons in Hr.
  unfold readKind. unfold mbind at 1, M_bind at 1. rewrite readByte_eq by assumption. destruct (Z.ltb_spec (room ((x :: tl) ++ r') stk) 1); [lia|]. cbn [app].
  destruct (fits_adv 1 ((x :: tl) ++ r') stk Hf ltac:(lia)) as [Hf1 Hr1]. change (drop (Z.to_nat 1) ((x :: tl) ++ r')) with (tl ++ r') in *.
  unfold mbind at 1, M_bind at 1, modify at 1. unfold st, with_byteval. cbn [s_r s_remaining s_limited s_kind s_size s_kinderr s_stack].
  destruct k; cbn [head] in Hh.
  - destruct Hh as (-> & [= -> ->] & Hx). destruct (Z.ltb_spec (byteZ bv) 0x80); [reflexivity|lia].
  - destruct Hh as (Hn & Ehd). unfold str_header in Ehd. destruct (Z.leb_spec 56 n).
    + injection Ehd as -> ->. pose proof (byteLen_size n ltac:(lia)) as Hb. assert (Ex : byteZ (Zbyte (183 + Z.of_nat (byteLen n))) = 183 + Z.of_nat (byteLen n)) by (rewrite byteZ_Zbyte; apply Z.mod_small; lia).
      rewrite Ex. destruct (Z.ltb_spec (183 + Z.of_nat (byteLen n)) 0x80), (Z.ltb_spec (183 + Z.of_nat (byteLen n)) 0xB8), (Z.ltb_spec (183 + Z.of_nat (byteLen n)) 0xC0); try lia.
      replace (183 + Z.of_nat (byteLen n) - 0xB7) with (Z.of_nat (byteLen n)) by lia. rewrite zlen_be in Hr.
      pose proof (long_size_complete String r' (adv 1 stk) z x00 e n ltac:(lia) Hf1 ltac:(rewrite Hr1; lia)) as HL. unfold st in HL. rewrite HL. rewrite adv_adv, zlen_cons, zlen_be. reflexivity.
    + injection Ehd as -> ->. assert (Ex : byteZ (Zbyte (128 + n)) = 128 + n) by (rewrite byteZ_Zbyte; apply Z.mod_small; lia). rewrite Ex.
      destruct (Z.ltb_spec (128 + n) 0x80), (Z.ltb_spec (128 + n) 0xB8); try lia. replace (128 + n - 0x80) with n by lia. reflexivity.
  - destruct Hh as (Hn & Ehd). unfold rlp_list_header in Ehd. destruct (Z.leb_spec 56 n).
    + injection Ehd as -> ->. pose proof (byteLen_size n ltac:(lia)) as Hb. assert (Ex : byteZ (Zbyte (247 + Z.of_nat (byteLen n))) = 247 + Z.of_nat (byteLen n)) by (rewrite byteZ_Zbyte; apply Z.mod_small; lia).
      rewrite Ex. destruct (Z.ltb_spec (247 + Z.of_nat (byteLen n)) 0x80), (Z.ltb_spec (247 + Z.of_nat (byteLen n)) 0xB8), (Z.ltb_spec (247 + Z.of_nat (byteLen n)) 0xC0), (Z.ltb_spec (247 + Z.of_nat (byteLen n)) 0xF8); try lia.
      replace (247 + Z.of_nat (byteLen n) - 0xF7) with (Z.of_nat (byteLen n)) by lia. rewrite zlen_be in Hr.
      pose proof (long_size_complete List r' (adv 1 stk) z x00 e n ltac:(lia) Hf1 ltac:(rewrite Hr1; lia)) as HL. unfold st in HL. rewrite HL. rewrite adv_adv, zlen_cons, zlen_be. reflexivity.
    + injection Ehd as -> ->. assert (Ex : byteZ (Zbyte (192 + n)) = 192 + n) by (rewrite byteZ_Zbyte; apply Z.mod_small; lia). rewrite Ex.
      destruct (Z.ltb_spec (192 + n) 0x80), (Z.ltb_spec (192 + n) 0xB8), (Z.ltb_spec (192 + n) 0xC0), (Z.ltb_spec (192 + n) 0xF8); try lia. replace (192 + n - 0xC0) with n by lia. reflexivity.
Qed.

Lemma head_len k n bv hd : head k n bv hd -> 0 < zlen hd /\ 0 <= n.
Proof.
  destruct k; intros (Hn & H); [destruct H as [-> _]; change (zlen [bv]) with 1; lia| |]; subst hd; [unfold str_header|unfold rlp_list_header]; destruct (56 <=? n); rewrite zlen_cons; pose proof (zlen_nonneg (be n)); change (zlen (@nil byte)) with 0; lia.
Qed.

Lemma Kind_complete hd r' stk z b e k n bv : head k n bv hd -> fits (hd ++ r') stk -> zlen hd + n <= room (hd ++ r') stk ->
  s_Kind (st (hd ++ r') stk None z b e) = Val (inr (k, n), st r' (adv (zlen hd) stk) (Some k) n (kind_byte k bv) None).
Proof.
  intros Hh Hf Hr. destruct (head_len _ _ _ _ Hh) as [Hl Hn]. unfold s_Kind. unfold mbind at 1, M_bind at 1, gets at 1. cbn [id s_kind st]. unfold mbind at 1, M_bind at 1, modify at 1. cbn [s_stack st]. fold (at_end stk).
  destruct (at_end stk) eqn:Ee; [rewrite (at_end_room _ _ Hf Ee) in Hr; lia|]. unfold mbind at 1, M_bind at 1. change (with_kinderr None (st (hd ++ r') stk None z b e)) with (st (hd ++ r') stk None z b None).
  rewrite (readKind_complete hd r' stk z b None k n bv Hh Hf) by lia. unfold mbind at 1, M_bind at 1, gets at 1. cbn [id].
  destruct (fits_adv (zlen hd) (hd ++ r') stk Hf ltac:(lia)) as [Hf' Hr']. unfold zlen in Hf', Hr' at 1. rewrite Nat2Z.id, drop_app_length in Hf', Hr'. fold (zlen hd) in *.
  rewrite size_error_eq by exact Hf'. rewrite Hr'. destruct (Z.ltb_spec (room (hd ++ r') stk - zlen hd) n); [lia|]. reflexivity.
Qed.

(** ** Values *)

(** [op] reads the values [v] with [ok v], written [enc v]. *)
Record codec {A} (op : M Stream (Error + A)) (enc : A -> bytes) (ok : A -> Prop) : Prop := mkCodec {
  c_sound : forall r stk z b e, fits r stk ->
    match op (st r stk None z b e) with
    | Val (inr v, s') => ok v /\ exists r' z' b' e', r = enc v ++ r' /\ zlen (enc v) <= room r stk /\ s' = st r' (adv (zlen (enc v)) stk) None z' b' e'
    | Val (inl x, s') => if at_end stk then x = EOL /\ s' = st r stk None z b None else errors_Is x EOL = false
    | _ => False
    end;
  c_complete : forall v r' stk z b e, ok v -> fits (enc v ++ r') stk -> zlen (enc v) <= room (enc v ++ r') stk ->
    exists z' b' e', op (st (enc v ++ r') stk None z b e) = Val (inr v, st r' (adv (zlen (enc v)) stk) None z' b' e')
}.

Lemma rlp_string_head s : small_string s = false -> rlp_string s = str_header (zlen s) ++ s.
Proof.
  intros Hs. unfold rlp_string, str_header. destruct (56 <=? zlen s); [reflexivity|]. destruct s as [|x [|y s]]; [reflexivity| |reflexivity].
  cbn [small_string] in Hs. rewrite Hs. reflexivity.
Qed.
Lemma rlp_string_byte b : byteZ b < 128 -> rlp_string [b] = [b].
Proof. intros Hb. unfold rlp_string. change (56 <=? zlen [b]) with false. cbv iota. by destruct (Z.ltb_spec (byteZ b) 128); [|lia]. Qed.

(** The contents of a string whose head has been read. *)
Lemma body_eq hd r' stk k n b : fits (hd ++ r') stk -> 0 <= n -> zlen hd + n <= room (hd ++ r') stk ->
  readFull n (st r' (adv (zlen hd) stk) k n b None) = Val (inr (take (Z.to_nat n) r'), st (drop (Z.to_nat n) r') (adv (zlen hd + n) stk) None n b None) /\ zlen (take (Z.to_nat n) r') = n.
Proof.
  intros Hf Hn Hr. pose proof (zlen_nonneg hd). pose proof (room_le _ _ Hf) as Hle. destruct (fits_adv (zlen hd) (hd ++ r') stk Hf ltac:(lia)) as [Hf' Hr']. unfold zlen in Hf', Hr' at 1. rewrite Nat2Z.id, drop_app_length in Hf', Hr'. fold (zlen hd) in *.
  rewrite zlen_app in Hle. rewrite readFull_eq by assumption. rewrite Hr'. destruct (Z.ltb_spec (room (hd ++ r') stk - zlen hd) n); [lia|]. rewrite adv_adv.
  split; [reflexivity|]. unfold zlen in *. rewrite length_take. lia.
Qed.

Lemma kind_head_end stk hd r' k n bv : head k n bv hd -> fits (hd ++ r') stk -> zlen hd + n <= room (hd ++ r') stk -> at_end stk = false.
Proof. intros Hh Hf Hr. destruct (head_len _ _ _ _ Hh). destruct (at_end stk) eqn:E; [|reflexivity]. rewrite (at_end_room _ _ Hf E) in Hr. lia. Qed.

(** A method that starts with [Kind] and whose body [f] reads the value whose head [Kind]
    found. *)
Lemma codec_kind {A} (f : Kind * Z -> M Stream (Error + A)) (enc : A -> bytes) (ok : A -> Prop) :
  (forall hd r' stk k n bv, head k n bv hd -> fits (hd ++ r') stk -> zlen hd + n <= room (hd ++ r') stk ->
    match f (k, n) (st r' (adv (zlen hd) stk) (Some k) n (kind_byte k bv) None) with
    | Val (inr v, s') => ok v /\ exists r'' z' b' e', hd ++ r' = enc v ++ r'' /\ zlen (enc v) <= room (hd ++ r') stk /\ s' = st r'' (adv (zlen (enc v)) stk) None z' b' e'
    | Val (inl x, _) => errors_Is x EOL = false
    | _ => False
    end) ->
  (forall v, ok v -> exists k n bv hd body, enc v = hd ++ body /\ zlen body = n /\ head k n bv hd /\
    forall r' stk, fits (hd ++ body ++ r') stk -> zlen hd + n <= room (hd ++ body ++ r') stk ->
      exists z' b' e', f (k, n) (st (body ++ r') (adv (zlen hd) stk) (Some k) n (kind_byte k bv) None) = Val (inr v, st r' (adv (zlen hd + n) stk) None z' b' e')) ->
  codec (try_s s_Kind f) enc ok.
Proof.
  intros Hs Hc. split.
  - intros r stk z b e Hf. unfold try_s, mbind, M_bind. pose proof (Kind_sound r stk z b e Hf) as HK. destruct (s_Kind _) as [[[x|[k n]] s']| |]; [exact HK| |contradiction..].
    destruct HK as (hd & r' & bv & -> & Hh & Hl & Hr & ->). specialize (Hs hd r' stk k n bv Hh Hf Hr). rewrite (kind_head_end stk hd r' k n bv Hh Hf Hr).
    destruct (f (k, n) _) as [[[x|v] s']| |]; assumption.
  - intros v r' stk z b e Hv Hf Hr. destruct (Hc v Hv) as (k & n & bv & hd & body & E & Hn & Hh & H). rewrite E in *. rewrite <- app_assoc in *. rewrite zlen_app, Hn in *.
    unfold try_s, mbind, M_bind. rewrite (Kind_complete hd (body ++ r') stk z b e k n bv Hh Hf Hr). apply H; assumption.
Qed.

Lemma codec_ext {A} (op op' : M Stream (Error + A)) enc ok : (forall s, op s = op' s) -> codec op' enc ok -> codec op enc ok.
Proof. intros E [H1 H2]. split; [intros r stk z b e Hf; rewrite E; by apply H1|]. intros v r' stk z b e Hv Hf Hr. setoid_rewrite E. by apply H2. Qed.

Lemma try_s_ext {S A B} (m : M S (Error + A)) (f g : A -> M S (Error + B)) s : (forall a s, f a s = g a s) -> try_s m f s = try_s m g s.
Proof. intros E. unfold try_s, mbind, M_bind. destruct (m s) as [[[x|a] s']| |]; auto. Qed.

Lemma try_s_assoc {S A B C} (m : M S (Error + A)) (f : A -> M S (Error + B)) (g : B -> M S (Error + C)) s :
  try_s (try_s m f) g s = try_s m (fun a => try_s (f a) g) s.
Proof. unfold try_s, mbind, M_bind. destruct (m s) as [[[x|a] s']| |]; reflexivity. Qed.

Lemma string_split v : go_len v -> exists k bv hd body, rlp_string v = hd ++ body /\ head k (zlen body) bv hd /\
  ((k = Byte /\ hd = [bv] /\ v = [bv] /\ body = []) \/ (k = String /\ body = v /\ small_string v = false)).
Proof.
  intros Hl. pose proof (zlen_nonneg v). destruct (small_string v) eqn:Hs.
  - destruct v as [|x [|y v]]; try discriminate. cbn [small_string] in Hs. apply Z.ltb_lt in Hs. exists Byte, x, [x], []. rewrite rlp_string_byte by exact Hs.
    split; [reflexivity|]. split; [split; [reflexivity|split; [reflexivity|exact Hs]]|]. left. auto.
  - exists String, x00, (str_header (zlen v)), v. split; [by apply rlp_string_head|]. split; [split; [unfold go_len in Hl; unfold two64; lia|reflexivity]|]. right. auto.
Qed.

Lemma app_body {A} (body r : list A) n : zlen body = n -> take (Z.to_nat n) (body ++ r) = body /\ drop (Z.to_nat n) (body ++ r) = r.
Proof. intros <-. unfold zlen. rewrite Nat2Z.id. split; [apply take_app_length|apply drop_app_length]. Qed.

(** What is left after a string of [n] bytes: the contents are its value. *)
Lemma string_read hd r' stk n bv (b : byte) : head String n bv hd -> fits (hd ++ r') stk -> zlen hd + n <= room (hd ++ r') stk ->
  let v := take (Z.to_nat n) r' in
  readFull n (st r' (adv (zlen hd) stk) (Some String) n b None) = Val (inr v, st (drop (Z.to_nat n) r') (adv (zlen hd + n) stk) None n b None) /\
  zlen v = n /\ go_len v /\ hd ++ r' = (hd ++ v) ++ drop (Z.to_nat n) r' /\ hd = str_header n.
Proof.
  intros Hh Hf Hr v. destruct Hh as [Hn Ehd]. destruct (body_eq hd r' stk (Some String) n b Hf ltac:(lia) Hr) as [E HL]. split; [exact E|]. split; [exact HL|].
  split; [|split; [unfold v; by rewrite <- app_assoc, take_drop|exact Ehd]]. destruct Hf as [Hg _]. unfold go_len in *. rewrite zlen_app in Hg. pose proof (zlen_nonneg hd).
  unfold v. unfold zlen in *. rewrite length_take. lia.
Qed.

Lemma Bytes_codec : codec s_Bytes rlp_string go_len.
Proof.
  apply codec_kind.
  - intros hd r' stk k n bv Hh Hf Hr. destruct k.
    + destruct Hh as (-> & -> & Hb). cbn [kind_byte]. split; [reflexivity|]. exists r', 0, bv, None. cbn [s_byteval st with_kind]. rewrite (rlp_string_byte bv Hb). split; [reflexivity|]. split; [|reflexivity]. lia.
    + destruct (string_read hd r' stk n bv x00 Hh Hf Hr) as (E & HL & Hg & Es & Ehd). unfold mbind at 1, M_bind at 1, make_bytes. unfold go_len in Hg. destruct (Z.ltb_spec n 281474976710656); [|lia].
      unfold try_s, mbind, M_bind. cbn [mret M_ret kind_byte]. rewrite E. destruct (small_string _) eqn:Hs; [reflexivity|]. cbn. split; [exact Hg|]. rewrite (rlp_string_head _ Hs), HL, <- Ehd.
      exists (drop (Z.to_nat n) r'), n, x00, None. split; [exact Es|]. rewrite zlen_app, HL. split; [lia|reflexivity].
    + reflexivity.
  - intros v Hv. destruct (string_split v Hv) as (k & bv & hd & body & E & Hh & Hk). exists k, (zlen body), bv, hd, body. split; [exact E|]. split; [reflexivity|]. split; [exact Hh|].
    intros r' stk Hf Hr. destruct Hk as [(-> & -> & -> & ->)|(-> & -> & Hs)].
    + exists 0, bv, None. reflexivity.
    + exists (zlen v), x00, None. destruct (string_read hd (v ++ r') stk (zlen v) bv x00 Hh Hf Hr) as (E2 & _ & Hg & _). destruct (app_body v r' (zlen v) eq_refl) as [E3 E4]. rewrite E3, E4 in *.
      unfold mbind at 1, M_bind at 1, make_bytes. unfold go_len in Hg. destruct (Z.ltb_spec (zlen v) 281474976710656); [|lia]. unfold try_s, mbind, M_bind. cbn [mret M_ret kind_byte]. rewrite E2, Hs. reflexivity.
Qed.

Lemma ReadBytes_codec len : 0 <= len < 281474976710656 -> codec (s_ReadBytes len) rlp_string (fun v => zlen v = len).
Proof.
  intros Hlen. apply codec_kind.
  - intros hd r' stk k n bv Hh Hf Hr. destruct k.
    + destruct Hh as (-> & -> & Hb). cbn [kind_byte]. destruct (Z.eqb_spec len 1) as [->|]; [|reflexivity]. split; [reflexivity|]. exists r', 0, bv, None. cbn [s_byteval st with_kind]. rewrite (rlp_string_byte bv Hb). split; [reflexivity|]. split; [|reflexivity]. lia.
    + destruct (string_read hd r' stk n bv x00 Hh Hf Hr) as (E & HL & Hg & Es & Ehd). destruct (Z.eqb_spec len n) as [->|]; [|reflexivity].
      unfold try_s, mbind, M_bind. cbn [negb kind_byte]. rewrite E. destruct (small_string _) eqn:Hs; [reflexivity|]. cbn. split; [exact HL|]. rewrite (rlp_string_head _ Hs), HL, <- Ehd.
      exists (drop (Z.to_nat n) r'), n, x00, None. split; [exact Es|]. rewrite zlen_app, HL. split; [lia|reflexivity].
    + reflexivity.
  - intros v Hv. destruct (string_split v) as (k & bv & hd & body & E & Hh & Hk); [unfold go_len; lia|]. exists k, (zlen body), bv, hd, body. split; [exact E|]. split; [reflexivity|]. split; [exact Hh|].
    intros r' stk Hf Hr. destruct Hk as [(-> & -> & -> & ->)|(-> & -> & Hs)].
    + exists 0, bv, None. change (zlen [bv]) with 1 in Hv. subst len. reflexivity.
    + exists (zlen v), x00, None. destruct (string_read hd (v ++ r') stk (zlen v) bv x00 Hh Hf Hr) as (E2 & _). destruct (app_body v r' (zlen v) eq_refl) as [E3 E4]. rewrite E3, E4 in *.
      rewrite Hv in *. rewrite Z.eqb_refl. unfold try_s, mbind, M_bind. cbn [negb kind_byte]. rewrite E2, Hs. reflexivity.
Qed.

(** Integers: a string without leading zeros. *)
Lemma be_to_Z_single x : be_to_Z [x] = byteZ x.
Proof. unfold be_to_Z. cbn. lia. Qed.

Lemma be_to_Z_range l : 0 <= be_to_Z l < 256 ^ Z.of_nat (length l).
Proof. split; [apply be_to_Z_nonneg|apply be_to_Z_bound]. Qed.

Lemma be_bound l k : zlen l <= Z.of_nat k -> 0 <= be_to_Z l < 256 ^ Z.of_nat k.
Proof.
  intros Hl. pose proof (be_to_Z_range l) as Hr. assert (256 ^ Z.of_nat (length l) <= 256 ^ Z.of_nat k) by (apply Z.pow_le_mono_r; unfold zlen in Hl; lia). lia.
Qed.

Lemma be_len v k : 0 <= v < 256 ^ Z.of_nat k -> zlen (be v) <= Z.of_nat k.
Proof. intros Hv. rewrite zlen_be. pose proof (byteLen_le v k Hv). lia. Qed.

Lemma be_small v : 0 <= v -> small_string (be v) = true <-> 0 < v < 128.
Proof.
  intros Hv. destruct (decide (v = 0)) as [->|]; [change (be 0) with (@nil byte); cbn; split; [discriminate|lia]|].
  destruct (be_head v ltac:(lia)) as (x & l & E & Hx). pose proof (be_value v Hv) as Ev. rewrite E in *. destruct l as [|y l]; cbn [small_string].
  - rewrite be_to_Z_single in Ev. rewrite Z.ltb_lt. lia.
  - split; [discriminate|]. intros H. exfalso. rewrite be_to_Z_cons in Ev. pose proof (byteZ_range x). pose proof (be_to_Z_range (y :: l)) as [Hr _]. assert (256 <= 256 ^ Z.of_nat (length (y :: l))) by (apply (Z.pow_le_mono_r 256 1); cbn [length]; lia). nia.
Qed.

Lemma Uint_codec : codec s_Uint rlp_uint is_u64.
Proof.
  apply codec_kind.
  - intros hd r' stk k n bv Hh Hf Hr. destruct k; [|destruct Hh as [Hn Ehd]|reflexivity].
    + destruct Hh as (-> & -> & Hb). cbn [kind_byte]. unfold mbind at 1, M_bind at 1, gets. cbn [s_byteval st]. destruct (Z.eqb_spec (byteZ bv) 0) as [|Hnz]; [reflexivity|]. cbn -[room adv is_u64 rlp_uint].
      pose proof (byteZ_range bv). split; [unfold is_u64, two64; lia|]. assert (E : be (byteZ bv) = [bv]) by (rewrite <- be_to_Z_single; by apply be_canonical).
      exists r', 0, bv, None. unfold rlp_uint. rewrite E, rlp_string_byte by exact Hb. split; [reflexivity|]. split; [change (bv :: r') with ([bv] ++ r'); lia|reflexivity].
    + change (64 / 8) with 8. destruct (Z.ltb_spec 8 n); [reflexivity|]. destruct (decide (n = 0)) as [->|Hn0].
      { cbn -[room adv is_u64 rlp_uint]. split; [unfold is_u64, two64; lia|]. exists r', 0, x00, None. subst hd. split; [reflexivity|]. split; [|reflexivity]. change (zlen (rlp_uint 0)) with (zlen (str_header 0)). lia. }
      destruct (fits_adv (zlen hd) (hd ++ r') stk Hf) as [Hf' Hr']; [pose proof (zlen_nonneg hd); lia|]. unfold zlen in Hf', Hr' at 1. rewrite Nat2Z.id, drop_app_length in Hf', Hr'. fold (zlen hd) in *.
      unfold mbind at 1, M_bind at 1. rewrite readUint_eq by (assumption || lia). rewrite Hr'. destruct (Z.ltb_spec (room (hd ++ r') stk - zlen hd) n); [lia|].
      pose proof (room_le _ _ Hf') as Hle. rewrite Hr' in Hle. assert (HL : zlen (take (Z.to_nat n) r') = n) by (unfold zlen in *; rewrite length_take; lia).
      destruct (take (Z.to_nat n) r') as [|x l] eqn:Et; [change (zlen (@nil byte)) with 0 in HL; lia|]. destruct ((1 <? n) && (byteZ x =? 0)) eqn:Ez; [reflexivity|]. destruct (Z.ltb_spec 0 n); [|lia]. cbn [andb].
      destruct (Z.ltb_spec (be_to_Z (x :: l)) 128) as [|Hbig]; [reflexivity|]. cbn -[room adv is_u64 rlp_uint be_to_Z drop].
      assert (Hx : byteZ x <> 0). { apply andb_false_iff in Ez as [Ez|Ez]; [|by apply Z.eqb_neq in Ez]. apply Z.ltb_ge in Ez. destruct l; [rewrite be_to_Z_single in Hbig; lia|rewrite !zlen_cons in HL; pose proof (zlen_nonneg l); lia]. }
      pose proof (be_bound (x :: l) 8 ltac:(lia)) as Hv. change (256 ^ Z.of_nat 8) with two64 in Hv. split; [exact Hv|]. assert (E : be (be_to_Z (x :: l)) = x :: l) by (by apply be_canonical).
      exists (drop (Z.to_nat n) r'), n, x00, None. assert (Hsm : small_string (x :: l) = false) by (rewrite <- E; apply not_true_iff_false; rewrite be_small by lia; lia).
      unfold rlp_uint. rewrite E, (rlp_string_head _ Hsm), HL, <- Ehd, <- app_assoc, <- Et, take_drop. split; [reflexivity|]. rewrite zlen_app. rewrite Et, HL. split; [lia|]. by rewrite adv_adv.
  - intros v Hv. pose proof (be_len v 8) as Hlen. change (256 ^ Z.of_nat 8) with two64 in Hlen. specialize (Hlen Hv). destruct (string_split (be v)) as (k & bv & hd & body & E & Hh & Hk); [unfold go_len; lia|].
    exists k, (zlen body), bv, hd, body. split; [exact E|]. split; [reflexivity|]. split; [exact Hh|]. unfold is_u64 in Hv. pose proof (be_value v ltac:(lia)) as Ev.
    intros r' stk Hf Hr. destruct Hk as [(-> & -> & Eb & ->)|(-> & -> & Hs)].
    + exists 0, bv, None. rewrite Eb, be_to_Z_single in Ev. unfold mbind at 1, M_bind at 1, gets. cbn [s_byteval st kind_byte]. destruct (Z.eqb_spec (byteZ bv) 0) as [Ez|].
      { exfalso. rewrite Ez in Ev. subst v. discriminate. } cbn -[adv]. by rewrite Ev.
    + change (64 / 8) with 8. destruct (Z.ltb_spec 8 (zlen (be v))); [lia|]. exists (zlen (be v)), x00, None. destruct (decide (v = 0)) as [->|Hv0]; [cbn -[adv]; by rewrite Z.add_0_r|].
      destruct (be_head v ltac:(lia)) as (x & l & Ex & Hx). destruct (fits_adv (zlen hd) (hd ++ be v ++ r') stk Hf) as [Hf' Hr']; [pose proof (zlen_nonneg hd); pose proof (zlen_nonneg (be v)); lia|].
      unfold zlen in Hf', Hr' at 1. rewrite Nat2Z.id, drop_app_length in Hf', Hr'. fold (zlen hd) in *. assert (1 <= zlen (be v)) by (rewrite Ex, zlen_cons; pose proof (zlen_nonneg l); lia).
      unfold mbind at 1, M_bind at 1. rewrite readUint_eq by (assumption || lia). rewrite Hr'. destruct (Z.ltb_spec (room (hd ++ be v ++ r') stk - zlen hd) (zlen (be v))); [lia|].
      destruct (app_body (be v) r' (zlen (be v)) eq_refl) as [E3 E4]. rewrite E3, E4. rewrite Ex. destruct (Z.eqb_spec (byteZ x) 0); [done|]. rewrite andb_false_r, <- Ex, Ev, adv_adv.
      destruct (Z.ltb_spec v 128); [|by rewrite andb_false_r]. exfalso. assert (small_string (be v) = true) by (apply be_small; lia). congruence.
Qed.

(** The end of [bigIntBytes] and what [Uint256Bytes] adds. *)
Definition big_end (buffer : bytes) : M Stream (Error + Z) :=
  try_s (no_leading_zero buffer) (fun a => try_s (if 32 <? zlen a then mret (inl errUintOverflow) else mret (inr a)) (fun b => mret (inr (be_to_Z b)))).

Lemma big_end_exact buffer s : big_end buffer s =
  Val (match buffer with
       | x :: _ => if byteZ x =? 0 then inl ErrCanonInt else if 32 <? zlen buffer then inl errUintOverflow else inr (be_to_Z buffer)
       | [] => inr 0
       end, s).
Proof. unfold big_end, try_s, no_leading_zero. destruct buffer as [|x l]; [reflexivity|]. destruct (byteZ x =? 0); [reflexivity|]. unfold mbind, M_bind. cbn -[zlen be_to_Z]. by destruct (32 <? zlen (x :: l)). Qed.

Definition big_body : Kind * Z -> M Stream (Error + Z) := fun '(kind, size) =>
  match kind with
  | List => mret (inl ErrExpectedString)
  | Byte => b ← gets s_byteval; _ ← modify (with_kind None); big_end [b]
  | String =>
      if size =? 0 then _ ← modify (with_kind None); big_end []
      else if size <=? 32 then
        try_s (readFull size) (fun buffer => if small_string buffer then mret (inl ErrCanonSize) else big_end buffer)
      else _ ← make_bytes size; try_s (readFull size) big_end
  end.

Lemma BigInt_unfold s : s_BigInt s = try_s s_Kind big_body s.
Proof.
  unfold s_BigInt, Uint256Bytes. rewrite try_s_assoc. unfold bigIntBytes. rewrite try_s_assoc. apply try_s_ext. intros [k n] s'.
  destruct k; [reflexivity| |reflexivity]. cbn [big_body]. destruct (n =? 0); [reflexivity|].
  unfold big_end. destruct (n <=? 32); unfold try_s, mbind, M_bind; [|destruct (make_bytes n s') as [[[] s2]| |]; try reflexivity]; destruct (readFull n _) as [[[x|v] s3]| |]; try reflexivity.
  by destruct (small_string v).
Qed.

Lemma BigInt_codec : codec s_BigInt rlp_uint is_u256.
Proof.
  apply (codec_ext _ _ _ _ BigInt_unfold). apply codec_kind.
  - intros hd r' stk k n bv Hh Hf Hr. destruct k; [| |reflexivity].
    + destruct Hh as (-> & -> & Hb). cbn [big_body kind_byte]. unfold mbind, M_bind, gets, modify. cbn [s_byteval st]. rewrite big_end_exact. destruct (Z.eqb_spec (byteZ bv) 0) as [|Hnz]; [reflexivity|]. change (32 <? zlen [bv]) with false. cbv iota.
      rewrite be_to_Z_single. pose proof (byteZ_range bv). split; [unfold is_u256, two256; lia|]. assert (E : be (byteZ bv) = [bv]) by (rewrite <- be_to_Z_single; by apply be_canonical).
      exists r', 0, bv, None. unfold rlp_uint. rewrite E, rlp_string_byte by exact Hb. split; [reflexivity|]. split; [lia|reflexivity].
    + cbn [big_body]. destruct (Z.eqb_spec n 0) as [->|Hn0].
      { unfold mbind, M_bind, modify. rewrite big_end_exact. split; [unfold is_u256, two256; lia|]. destruct Hh as [_ ->]. exists r', 0, x00, None. split; [reflexivity|]. split; [|reflexivity]. change (zlen (rlp_uint 0)) with (zlen (str_header 0)). lia. }
      destruct (string_read hd r' stk n bv x00 Hh Hf Hr) as (E & HL & Hg & Es & Ehd). set (v := take (Z.to_nat n) r') in *. cbn [kind_byte] in *.
      assert (HE : match big_end v (st (drop (Z.to_nat n) r') (adv (zlen hd + n) stk) None n x00 None) with
                   | Val (inr w, s') => small_string v = false -> is_u256 w /\ exists r'' z' b' e', hd ++ r' = rlp_uint w ++ r'' /\ zlen (rlp_uint w) <= room (hd ++ r') stk /\ s' = st r'' (adv (zlen (rlp_uint w)) stk) None z' b' e'
                   | Val (inl x, _) => errors_Is x EOL = false
                   | _ => False end).
      { rewrite big_end_exact. destruct v as [|x l]; [change (zlen (@nil byte)) with 0 in HL; destruct Hh; lia|]. destruct (Z.eqb_spec (byteZ x) 0) as [|Hx]; [reflexivity|]. destruct (Z.ltb_spec 32 (zlen (x :: l))); [reflexivity|]. intros Hs.
        pose proof (be_bound (x :: l) 32 ltac:(lia)) as Hv. change (256 ^ Z.of_nat 32) with two256 in Hv. split; [exact Hv|]. exists (drop (Z.to_nat n) r'), n, x00, None. unfold rlp_uint. rewrite (be_canonical x l Hx), (rlp_string_head _ Hs), HL, <- Ehd.
        split; [exact Es|]. rewrite zlen_app, HL. split; [lia|reflexivity]. }
      destruct (n <=? 32) eqn:En.
      * unfold try_s, mbind, M_bind. rewrite E. destruct (small_string v); [reflexivity|]. destruct (big_end v _) as [[[x|w] s']| |]; auto.
      * apply Z.leb_gt in En. unfold mbind at 1, M_bind at 1, make_bytes. unfold go_len in Hg. destruct (Z.ltb_spec n 281474976710656); [|lia]. unfold try_s, mbind, M_bind. cbn [mret M_ret]. rewrite E.
        assert (small_string v = false) by (destruct v as [|x [|y l]]; [reflexivity|change (zlen [x]) with 1 in HL; lia|reflexivity]). destruct (big_end v _) as [[[x|w] s']| |]; auto.
  - intros v Hv. pose proof (be_len v 32) as Hlen. change (256 ^ Z.of_nat 32) with two256 in Hlen. specialize (Hlen Hv). destruct (string_split (be v)) as (k & bv & hd & body & E & Hh & Hk); [unfold go_len; lia|].
    exists k, (zlen body), bv, hd, body. split; [exact E|]. split; [reflexivity|]. split; [exact Hh|]. unfold is_u256 in Hv. pose proof (be_value v ltac:(lia)) as Ev.
    intros r' stk Hf Hr. destruct Hk as [(-> & -> & Eb & ->)|(-> & -> & Hs)]; cbn [big_body].
    + exists 0, bv, None. rewrite Eb, be_to_Z_single in Ev. unfold mbind, M_bind, gets, modify. cbn [s_byteval st kind_byte]. rewrite big_end_exact. destruct (Z.eqb_spec (byteZ bv) 0) as [Ez|].
      { exfalso. rewrite Ez in Ev. subst v. discriminate. } change (32 <? zlen [bv]) with false. cbv iota. by rewrite be_to_Z_single, Ev.
    + exists (zlen (be v)), x00, None. destruct (decide (v = 0)) as [->|Hv0]; [change (be 0) with (@nil byte); cbn -[adv]; by rewrite Z.add_0_r|].
      destruct (be_head v ltac:(lia)) as (x & l & Ex & Hx). assert (1 <= zlen (be v)) by (rewrite Ex, zlen_cons; pose proof (zlen_nonneg l); lia). destruct (Z.eqb_spec (zlen (be v)) 0); [lia|].
      destruct (string_read hd (be v ++ r') stk (zlen (be v)) bv x00 Hh Hf Hr) as (E2 & _). destruct (app_body (be v) r' (zlen (be v)) eq_refl) as [E3 E4]. rewrite E3, E4 in *. destruct (Z.leb_spec (zlen (be v)) 32); [|lia].
      unfold try_s, mbind, M_bind. cbn [kind_byte]. rewrite E2, Hs, big_end_exact. rewrite Ex. destruct (Z.eqb_spec (byteZ x) 0); [done|]. rewrite <- Ex. destruct (Z.ltb_spec 32 (zlen (be v))); [lia|]. by rewrite Ev.
Qed.

(** ** Sequences of values in a list *)

(** [op] returns [v] exactly on the bytes [x] with [R v x]. *)
Record reads {A} (op : M Stream (Error + A)) (R : A -> bytes -> Prop) : Prop := mkReads {
  r_sound : forall r stk z b e, fits r stk ->
    match op (st r stk None z b e) with
    | Val (inr v, s') => exists x r' z' b' e', r = x ++ r' /\ R v x /\ zlen x <= room r stk /\ s' = st r' (adv (zlen x) stk) None z' b' e'
    | Val (inl _, _) => True
    | _ => False
    end;
  r_complete : forall v x r' stk z b e, R v x -> fits (x ++ r') stk -> zlen x <= room (x ++ r') stk ->
    exists z' b' e', op (st (x ++ r') stk None z b e) = Val (inr v, st r' (adv (zlen x) stk) None z' b' e')
}.

(** [op] reads the rest [x] of the only open list and closes it. *)
Record closes {A} (op : M Stream (Error + A)) (R : A -> bytes -> Prop) : Prop := mkCloses {
  l_sound : forall r t z b e, fits r [t] ->
    match op (st r [t] None z b e) with
    | Val (inr v, s') => exists x r' z' b' e', r = x ++ r' /\ R v x /\ zlen x = room r [t] /\ s' = st r' [] None z' b' e'
    | Val (inl _, _) => True
    | _ => False
    end;
  l_complete : forall v x r' t z b e, R v x -> fits (x ++ r') [t] -> zlen x = room (x ++ r') [t] ->
    exists z' b' e', op (st (x ++ r') [t] None z b e) = Val (inr v, st r' [] None z' b' e')
}.

Lemma reads_codec {A} (op : M Stream (Error + A)) enc ok : codec op enc ok -> reads op (fun v x => ok v /\ x = enc v).
Proof.
  intros [Hs Hc]. split.
  - intros r stk z b e Hf. specialize (Hs r stk z b e Hf). destruct (op _) as [[[x|v] s']| |]; [exact I| |contradiction..]. destruct Hs as (Hv & r' & z' & b' & e' & -> & Hl & ->). exists (enc v), r', z', b', e'. auto.
  - intros v x r' stk z b e [Hv ->] Hf Hr. by apply Hc.
Qed.

Lemma fits_app x r' stk : fits (x ++ r') stk -> zlen x <= room (x ++ r') stk -> fits r' (adv (zlen x) stk) /\ room r' (adv (zlen x) stk) = room (x ++ r') stk - zlen x.
Proof.
  intros Hf Hr. pose proof (zlen_nonneg x). destruct (fits_adv (zlen x) (x ++ r') stk Hf ltac:(lia)) as [H1 H2]. unfold zlen in H1, H2 at 1. rewrite Nat2Z.id, drop_app_length in H1, H2. auto.
Qed.

Lemma closes_bind {A B} (op : M Stream (Error + A)) (k : A -> M Stream (Error + B)) R1 R2 : reads op R1 -> (forall a, closes (k a) (R2 a)) ->
  closes (try_s op k) (fun v x => exists a x1 x2, x = x1 ++ x2 /\ R1 a x1 /\ R2 a v x2).
Proof.
  intros [Hs Hc] Hk. split.
  - intros r t z b e Hf. unfold try_s, mbind, M_bind. specialize (Hs r [t] z b e Hf). destruct (op _) as [[[x|a] s']| |]; [exact I| |contradiction..].
    destruct Hs as (x1 & r1 & z1 & b1 & e1 & -> & H1 & Hl & ->). destruct (fits_app x1 r1 [t] Hf Hl) as [Hf1 Hr1]. pose proof (l_sound _ _ (Hk a) r1 (mkPos (lp_pos t + zlen x1) (lp_size t)) z1 b1 e1 Hf1) as HS. cbn [adv] in *.
    destruct (k a _) as [[[x|v] s']| |]; [exact I| |contradiction..]. destruct HS as (x2 & r2 & z2 & b2 & e2 & -> & H2 & Hl2 & ->). exists (x1 ++ x2), r2, z2, b2, e2. rewrite <- app_assoc. split; [reflexivity|].
    split; [eauto 10|]. split; [|reflexivity]. rewrite zlen_app, Hl2, Hr1. lia.
  - intros v x r' t z b e (a & x1 & x2 & -> & H1 & H2) Hf Hl. rewrite <- app_assoc in *. rewrite zlen_app in Hl. pose proof (zlen_nonneg x2). destruct (Hc a x1 (x2 ++ r') [t] z b e H1 Hf ltac:(lia)) as (z1 & b1 & e1 & E).
    destruct (fits_app x1 (x2 ++ r') [t] Hf ltac:(lia)) as [Hf1 Hr1]. cbn [adv] in *. unfold try_s, mbind, M_bind. rewrite E. apply (l_complete _ _ (Hk a)); [exact H2|exact Hf1|]. lia.
Qed.

Lemma ListEnd_eq r t z b e : ListEnd (st r [t] None z b e) = if lp_pos t =? lp_size t then Val (None, st r [] None 0 b e) else Val (Some errNotAtEOL, st r [t] None z b e).
Proof. unfold ListEnd, mbind, M_bind, gets, modify. cbn. by destruct (lp_pos t =? lp_size t). Qed.

Lemma closes_end {A} wrap (v0 : A) : closes (end_list wrap v0) (fun v x => x = [] /\ v = v0).
Proof.
  split.
  - intros r t z b e Hf. unfold end_list, mbind, M_bind. rewrite ListEnd_eq. destruct (Z.eqb_spec (lp_pos t) (lp_size t)); [|exact I]. exists [], r, 0, b, e. split; [reflexivity|]. split; [auto|]. split; [unfold room; change (zlen (@nil byte)) with 0; lia|reflexivity].
  - intros v x r' t z b e [-> ->] Hf Hl. unfold end_list, mbind, M_bind. change ([] ++ r') with r'. rewrite ListEnd_eq. change (zlen (@nil byte)) with 0 in Hl. unfold room in Hl. destruct (Z.eqb_spec (lp_pos t) (lp_size t)); [|lia]. eauto.
Qed.

Lemma closes_opt {A B} (op : M Stream (Error + A)) wrap cwrap (absent : B) k enc ok R2 : codec op enc ok -> (forall v, 0 < zlen (enc v)) -> (forall a, closes (k a) (R2 a)) ->
  closes (opt_field op wrap cwrap absent k) (fun v x => (x = [] /\ v = absent) \/ exists a x2, ok a /\ x = enc a ++ x2 /\ R2 a v x2).
Proof.
  intros [Hs Hc] Hpos Hk. split.
  - intros r t z b e Hf. unfold opt_field. unfold mbind at 1, M_bind at 1. specialize (Hs r [t] z b e Hf). destruct (op _) as [[[x|a] s']| |]; [| |contradiction..].
    + destruct (at_end [t]); [destruct Hs as [-> ->]|by rewrite Hs]. change (errors_Is EOL EOL) with true. cbv iota. pose proof (l_sound _ _ (closes_end cwrap absent) r t z b None Hf) as HS.
      destruct (end_list cwrap absent _) as [[[x|v] s']| |]; [exact I| |contradiction..]. destruct HS as (x & r' & z' & b' & e' & -> & H & Hl & ->). exists x, r', z', b', e'. auto.
    + destruct Hs as (Ha & r1 & z1 & b1 & e1 & -> & Hl & ->). destruct (fits_app (enc a) r1 [t] Hf Hl) as [Hf1 Hr1]. pose proof (l_sound _ _ (Hk a) r1 (mkPos (lp_pos t + zlen (enc a)) (lp_size t)) z1 b1 e1 Hf1) as HS. cbn [adv] in *.
      destruct (k a _) as [[[x|v] s']| |]; [exact I| |contradiction..]. destruct HS as (x2 & r2 & z2 & b2 & e2 & -> & H2 & Hl2 & ->). exists (enc a ++ x2), r2, z2, b2, e2. rewrite <- app_assoc. split; [reflexivity|].
      split; [right; eauto 10|]. split; [|reflexivity]. rewrite zlen_app, Hl2, Hr1. lia.
  - intros v x r' t z b e [[-> ->]|(a & x2 & Ha & -> & H2)] Hf Hl.
    + unfold opt_field. unfold mbind at 1, M_bind at 1. specialize (Hs ([] ++ r') [t] z b e Hf). change (zlen (@nil byte)) with 0 in Hl. destruct (op _) as [[[x|a] s']| |]; [| |contradiction..].
      * unfold at_end in Hs. unfold room in Hl. destruct (Z.eqb_spec (lp_pos t) (lp_size t)); [|lia]. destruct Hs as [-> ->]. change (errors_Is EOL EOL) with true. cbv iota. apply (l_complete _ _ (closes_end cwrap absent)); auto.
      * exfalso. destruct Hs as (_ & r1 & z1 & b1 & e1 & _ & Hl1 & _). specialize (Hpos a). lia.
    + rewrite <- app_assoc in *. rewrite zlen_app in Hl. pose proof (zlen_nonneg x2). destruct (Hc a (x2 ++ r') [t] z b e Ha Hf ltac:(lia)) as (z1 & b1 & e1 & E). destruct (fits_app (enc a) (x2 ++ r') [t] Hf ltac:(lia)) as [Hf1 Hr1]. cbn [adv] in *.
      unfold opt_field. unfold mbind at 1, M_bind at 1. rewrite E. apply (l_complete _ _ (Hk a)); [exact H2|exact Hf1|]. lia.
Qed.

Lemma closes_guard {A} (c : bool) e0 (k : M Stream (Error + A)) R : closes k R -> closes (if c then mret (inl e0) else k) (fun v x => c = false /\ R v x).
Proof.
  intros [Hs Hc]. split.
  - intros r t z b e Hf. destruct c; [exact I|]. specialize (Hs r t z b e Hf). destruct (k _) as [[[x|v] s']| |]; [exact I| |contradiction..]. destruct Hs as (x & r' & z' & b' & e' & -> & H & Hl & ->). exists x, r', z', b', e'. auto.
  - intros v x r' t z b e [-> HR] Hf Hl. by apply Hc.
Qed.

(** ** A whole input *)

Lemma List_sound r z b e : go_len r ->
  match s_List (st r [] None z b e) with
  | Val (inr n, s') => exists r' b', r = rlp_list_header n ++ r' /\ 0 <= n <= zlen r' /\ n < two64 /\ s' = st r' [mkPos 0 n] None 0 b' None
  | Val (inl _, _) => True
  | _ => False
  end.
Proof.
  intros Hg. unfold s_List, try_s, mbind, M_bind. pose proof (Kind_sound r [] z b e (conj Hg I)) as HK. destruct (s_Kind _) as [[[x|[k n]] s']| |]; [exact I| |contradiction..].
  destruct HK as (hd & r' & bv & -> & Hh & _ & Hr & ->). destruct k; [exact I..|]. destruct Hh as [Hn ->]. cbn. exists r', x00. unfold room in Hr. rewrite zlen_app in Hr. split; [reflexivity|]. split; [lia|]. split; [lia|reflexivity].
Qed.

Lemma List_complete n r' z b e : go_len (rlp_list_header n ++ r') -> 0 <= n <= zlen r' ->
  exists b', s_List (st (rlp_list_header n ++ r') [] None z b e) = Val (inr n, st r' [mkPos 0 n] None 0 b' None).
Proof.
  intros Hg Hn. assert (Hh : head List n x00 (rlp_list_header n)). { split; [|reflexivity]. unfold go_len in Hg. rewrite zlen_app in Hg. pose proof (zlen_nonneg (rlp_list_header n)). unfold two64. lia. }
  exists x00. unfold s_List, try_s, mbind, M_bind. rewrite (Kind_complete _ r' [] z b e List n x00 Hh (conj Hg I)) by (unfold room; rewrite zlen_app; lia). reflexivity.
Qed.

Section Decode.
Context {A : Type} (k : M Stream (Error + A)) (R : A -> bytes -> Prop) (Hk : closes k R).

Lemma DecodeBytes_sound b : go_len b ->
  match DecodeBytes (try_s s_List (fun _ => k)) b with
  | Val (inr v) => exists x, b = rlp_list_header (zlen x) ++ x /\ R v x
  | Val (inl _) => True
  | _ => False
  end.
Proof.
  intros Hg. destruct b as [|b0 b]; [exact I|]. set (b1 := b0 :: b) in *. unfold DecodeBytes, s_Reset. assert (Hpos : 0 < zlen b1) by (unfold b1; rewrite zlen_cons; pose proof (zlen_nonneg b); lia).
  destruct (Z.ltb_spec 0 (zlen b1)); [|lia]. change (mkStream b1 (zlen b1) true None 0 x00 None []) with (st b1 [] None 0 x00 None). unfold try_s, mbind, M_bind.
  pose proof (List_sound b1 0 x00 None Hg) as HL. destruct (s_List _) as [[[x|n] s']| |]; [exact I| |contradiction..]. destruct HL as (r' & b' & E & Hn & Hn2 & ->).
  assert (Hf : fits r' [mkPos 0 n]). { split; [unfold go_len in *; rewrite E, zlen_app in Hg; pose proof (zlen_nonneg (rlp_list_header n)); lia|]. cbn. lia. }
  pose proof (l_sound _ _ Hk r' (mkPos 0 n) 0 b' None Hf) as HS. destruct (k _) as [[[x|v] s']| |]; [exact I| |contradiction..]. destruct HS as (x & r2 & z2 & b2 & e2 & -> & HR & Hl & ->).
  cbn [s_r st]. destruct (Z.ltb_spec 0 (zlen r2)) as [|H0]; [exact I|]. exists x. unfold room in Hl. cbn in Hl. replace (zlen x) with n by lia. split; [|exact HR]. rewrite E. f_equal.
  destruct r2 as [|y r2]; [apply app_nil_r|]. rewrite zlen_cons in H0. pose proof (zlen_nonneg r2). lia.
Qed.

Lemma DecodeBytes_complete v x : R v x -> go_len (rlp_list_header (zlen x) ++ x) -> DecodeBytes (try_s s_List (fun _ => k)) (rlp_list_header (zlen x) ++ x) = Val (inr v).
Proof.
  intros HR Hg. set (b1 := rlp_list_header (zlen x) ++ x) in *. unfold DecodeBytes, s_Reset. pose proof (zlen_nonneg x).
  assert (Hpos : 0 < zlen b1). { unfold b1. rewrite zlen_app. destruct (head_len List (zlen x) x00 (rlp_list_header (zlen x))) as [Hh _]; [|lia]. split; [|reflexivity]. unfold go_len, b1 in Hg. rewrite zlen_app in Hg. pose proof (zlen_nonneg (rlp_list_header (zlen x))). unfold two64. lia. }
  destruct (Z.ltb_spec 0 (zlen b1)); [|lia]. change (mkStream b1 (zlen b1) true None 0 x00 None []) with (st b1 [] None 0 x00 None). unfold try_s, mbind, M_bind. unfold b1.
  destruct (List_complete (zlen x) x 0 x00 None Hg ltac:(lia)) as [b' E]. rewrite E. assert (Hf : fits (x ++ []) [mkPos 0 (zlen x)]).
  { rewrite app_nil_r. unfold b1 in Hg. unfold go_len in Hg. rewrite zlen_app in Hg. pose proof (zlen_nonneg (rlp_list_header (zlen x))). split; [unfold go_len; lia|]. cbn. unfold two64. lia. }
  destruct (l_complete _ _ Hk v x [] (mkPos 0 (zlen x)) 0 b' None HR Hf) as (z2 & b2 & e2 & E2); [cbn; lia|]. rewrite app_nil_r in E2. rewrite E2. reflexivity.
Qed.
End Decode.
