(* ===== verification/HeaderDecode.v ===== *)
(** * Block headers and withdrawals: decoding

    [Header.DecodeRLP] and [Withdrawal.DecodeRLP] over the stream decoder. What the encoders
    write is read back, and the decoder accepts nothing else, but for one form: an AuRa
    header with an empty seal, which stands for the same header as a zero mix digest and
    nonce. Integers of 32 bytes are accepted although the encoder cannot write them. *)

From S2P Require Import Prelude Uint256 Errors Machine Rlp RlpSpec RlpParse RlpWriter RlpStream RlpStreamSpec HeaderRlp.

(** ** The decoders *)

(** [if ... err != nil { return fmt.Errorf("read ...: %w", err) }]. *)
Definition rd {A} (msg : string) (op : M Stream (Error + A)) : M Stream (Error + A) :=
  r ← op; mret (match r with inl e => inl (ErrorfW e msg) | inr a => inr a end).
Definition wrap (msg : string) (e : Error) : Error := ErrorfW e msg.

(** [s.ReadBytes(h[:])] into a hash or an address. *)
Definition read_fixed (msg : string) (n : Z) : M Stream (Error + Z) := try_s (rd msg (s_ReadBytes n)) (fun b => mret (inr (be_to_Z b))).

(** The mix digest and nonce, or the AuRa step and seal; the other pair keeps its value. *)
Definition decode_seal (h : BlkHeader) : M Stream (Error + (Z * bytes * Z * bytes)) :=
  try_s (rd "read MixDigest" s_Kind) (fun '(_, size) =>
    if negb (size =? 32) then
      try_s (rd "read AuRaStep" s_Uint) (fun step =>
      try_s (rd "read AuRaSeal" s_Bytes) (fun seal => mret (inr (b_MixDigest h, b_Nonce h, step, seal))))
    else
      try_s (read_fixed "read MixDigest" 32) (fun mix =>
      try_s (rd "read Nonce" (s_ReadBytes 8)) (fun nonce => mret (inr (mix, nonce, b_AuRaStep h, b_AuRaSeal h))))).

(** A 32-byte string read by [s.Bytes()]. *)
Definition sized {B} (msg : string) (b : bytes) (k : Z -> M Stream (Error + B)) : M Stream (Error + B) :=
  if negb (zlen b =? 32) then mret (inl (NewError msg)) else k (be_to_Z b).

(** The fields that may be missing at the end, [mk] the header with them. *)
Definition decode_optional (h : BlkHeader) (mk : option Z -> option Z -> option Z -> option Z -> option Z -> option Z -> BlkHeader) : M Stream (Error + BlkHeader) :=
  opt_field s_BigInt (wrap "read BaseFee") (wrap "close header struct (no BaseFee)")
    (mk None (b_WithdrawalsHash h) (b_BlobGasUsed h) (b_ExcessBlobGas h) (b_ParentBeaconBlockRoot h) (b_RequestsHash h)) (fun fee =>
  opt_field s_Bytes (wrap "read WithdrawalsHash") (wrap "close header struct (no WithdrawalsHash)")
    (mk (Some fee) None (b_BlobGasUsed h) (b_ExcessBlobGas h) (b_ParentBeaconBlockRoot h) (b_RequestsHash h)) (fun b =>
  sized "wrong size for WithdrawalsHash" b (fun withdrawals =>
  opt_field s_Uint (wrap "read BlobGasUsed") (wrap "close header struct (no BlobGasUsed)")
    (mk (Some fee) (Some withdrawals) None (b_ExcessBlobGas h) (b_ParentBeaconBlockRoot h) (b_RequestsHash h)) (fun blobGasUsed =>
  opt_field s_Uint (wrap "read ExcessBlobGas") (wrap "close header struct (no ExcessBlobGas)")
    (mk (Some fee) (Some withdrawals) (Some blobGasUsed) None (b_ParentBeaconBlockRoot h) (b_RequestsHash h)) (fun excessBlobGas =>
  opt_field s_Bytes (wrap "read ParentBeaconBlockRoot") (wrap "close header struct (no ParentBeaconBlockRoot)")
    (mk (Some fee) (Some withdrawals) (Some blobGasUsed) (Some excessBlobGas) None (b_RequestsHash h)) (fun b =>
  sized "wrong size for ParentBeaconBlockRoot" b (fun beacon =>
  opt_field s_Bytes (wrap "read RequestsHash") (wrap "close header struct (no RequestsHash)")
    (mk (Some fee) (Some withdrawals) (Some blobGasUsed) (Some excessBlobGas) (Some beacon) None) (fun b =>
  sized "wrong size for RequestsHash" b (fun requests =>
  end_list (wrap "close header struct")
    (mk (Some fee) (Some withdrawals) (Some blobGasUsed) (Some excessBlobGas) (Some beacon) (Some requests))))))))))).

Definition decode_fields (h : BlkHeader) : M Stream (Error + BlkHeader) :=
  try_s (read_fixed "read ParentHash" 32) (fun parent =>
  try_s (read_fixed "read UncleHash" 32) (fun uncle =>
  try_s (read_fixed "read Coinbase" 20) (fun coinbase =>
  try_s (read_fixed "read Root" 32) (fun root =>
  try_s (read_fixed "read TxHash" 32) (fun txHash =>
  try_s (read_fixed "read ReceiptHash" 32) (fun receiptHash =>
  try_s (rd "read Bloom" (s_ReadBytes 256)) (fun bloom =>
  try_s (rd "read Difficulty" s_BigInt) (fun difficulty =>
  try_s (rd "read Number" s_BigInt) (fun number =>
  try_s (rd "read GasLimit" s_Uint) (fun gasLimit =>
  try_s (rd "read GasUsed" s_Uint) (fun gasUsed =>
  try_s (rd "read Time" s_Uint) (fun time =>
  try_s (rd "read Extra" s_Bytes) (fun extra =>
  try_s (decode_seal h) (fun '(mix, nonce, step, seal) =>
  decode_optional h
    (mkBlk parent uncle coinbase root txHash receiptHash bloom (Some difficulty) (Some number) gasLimit gasUsed time extra mix nonce step seal))))))))))))))).

Definition h_DecodeRLP (h : BlkHeader) : M Stream (Error + BlkHeader) := try_s s_List (fun _ => decode_fields h).

(** [new(Header)]. *)
Definition zeroHeader : BlkHeader := mkBlk 0 0 0 0 0 0 (replicate 256 x00) None None 0 0 0 [] 0 (replicate 8 x00) 0 [] None None None None None None.

Definition wd_decode_fields : M Stream (Error + Withdrawal) :=
  try_s (rd "read Index" s_Uint) (fun index =>
  try_s (rd "read Validator" s_Uint) (fun validator =>
  try_s (read_fixed "read Address" 20) (fun address =>
  try_s (rd "read Amount" s_Uint) (fun amount =>
  end_list id (mkWithdrawal index validator address amount))))).
Definition wd_DecodeRLP : M Stream (Error + Withdrawal) := try_s s_List (fun _ => wd_decode_fields).

(** ** What they read *)

Lemma reads_rd {A} msg (op : M Stream (Error + A)) R : reads op R -> reads (rd msg op) R.
Proof.
  intros [Hs Hc]. split.
  - intros r stk z b e Hf. unfold rd, mbind, M_bind. specialize (Hs r stk z b e Hf). destruct (op _) as [[[x|v] s']| |]; [exact I|exact Hs|contradiction..].
  - intros v x r' stk z b e HR Hf Hr. destruct (Hc v x r' stk z b e HR Hf Hr) as (z' & b' & e' & E). exists z', b', e'. unfold rd, mbind, M_bind. by rewrite E.
Qed.

Lemma reads_bind {A B} (op : M Stream (Error + A)) (k : A -> M Stream (Error + B)) R1 R2 : reads op R1 -> (forall a, reads (k a) (R2 a)) ->
  reads (try_s op k) (fun v x => exists a x1 x2, x = x1 ++ x2 /\ R1 a x1 /\ R2 a v x2).
Proof.
  intros [Hs Hc] Hk. split.
  - intros r t z b e Hf. unfold try_s, mbind, M_bind. specialize (Hs r t z b e Hf). destruct (op _) as [[[x|a] s']| |]; [exact I| |contradiction..].
    destruct Hs as (x1 & r1 & z1 & b1 & e1 & -> & H1 & Hl & ->). destruct (fits_app x1 r1 t Hf Hl) as [Hf1 Hr1]. pose proof (r_sound _ _ (Hk a) r1 (adv (zlen x1) t) z1 b1 e1 Hf1) as HS.
    destruct (k a _) as [[[x|v] s']| |]; [exact I| |contradiction..]. destruct HS as (x2 & r2 & z2 & b2 & e2 & -> & H2 & Hl2 & ->). exists (x1 ++ x2), r2, z2, b2, e2. rewrite <- app_assoc. split; [reflexivity|].
    split; [eauto 10|]. rewrite zlen_app, adv_adv. split; [lia|reflexivity].
  - intros v x r' t z b e (a & x1 & x2 & -> & H1 & H2) Hf Hl. rewrite <- app_assoc in *. rewrite zlen_app in Hl. pose proof (zlen_nonneg x2). destruct (Hc a x1 (x2 ++ r') t z b e H1 Hf ltac:(lia)) as (z1 & b1 & e1 & E).
    destruct (fits_app x1 (x2 ++ r') t Hf ltac:(lia)) as [Hf1 Hr1]. unfold try_s, mbind, M_bind. rewrite E. rewrite zlen_app, <- adv_adv. apply (r_complete _ _ (Hk a)); [exact H2|exact Hf1|]. lia.
Qed.

Lemma reads_ret {A} (v0 : A) : reads (mret (inr v0)) (fun v x => x = [] /\ v = v0).
Proof.
  assert (Ha : forall stk, adv 0 stk = stk) by (intros [|[p n] stk]; [reflexivity|]; cbn; f_equal; f_equal; lia). split.
  - intros r stk z b e Hf. exists [], r, z, b, e. pose proof (room_le r stk Hf). change (zlen (@nil byte)) with 0. rewrite Ha. repeat split; auto; lia.
  - intros v x r' stk z b e [-> ->] Hf Hr. exists z, b, e. change (zlen (@nil byte)) with 0. by rewrite Ha.
Qed.

Lemma reads_iff {A} (op : M Stream (Error + A)) R R' : (forall v x, R v x <-> R' v x) -> reads op R -> reads op R'.
Proof.
  intros HE [Hs Hc]. split.
  - intros r stk z b e Hf. specialize (Hs r stk z b e Hf). destruct (op _) as [[[x|v] s']| |]; [exact I| |contradiction..]. destruct Hs as (x & r' & z' & b' & e' & -> & HR & Hl & ->). exists x, r', z', b', e'. rewrite <- HE. auto.
  - intros v x r' stk z b e HR. apply Hc. by apply HE.
Qed.

(** A number stored in [n] bytes. *)
Lemma fixed_reads msg n : (1 < n < 256)%nat -> reads (read_fixed msg (Z.of_nat n)) (fun v x => 0 <= v < 256 ^ Z.of_nat n /\ x = rlp_string (Z_to_be n v)).
Proof.
  intros Hn. eapply reads_iff; [|apply reads_bind; [apply reads_rd, reads_codec, ReadBytes_codec; lia|intros a; apply reads_ret]]. cbv beta. intros v x. split.
  - intros (a & x1 & x2 & -> & (Ha & ->) & -> & ->). rewrite app_nil_r. split; [apply be_bound; lia|]. f_equal. rewrite <- (Z_to_be_be_to_Z a) at 1. f_equal. unfold zlen in Ha. lia.
  - intros (Hv & ->). exists (Z_to_be n v), (rlp_string (Z_to_be n v)), []. rewrite app_nil_r. split; [reflexivity|]. split; [split; [apply zlen_Z_to_be|reflexivity]|]. split; [reflexivity|]. rewrite be_to_Z_Z_to_be, Z.mod_small; lia.
Qed.

(** A method that starts with [Kind] is not disturbed by an earlier call of it. *)
Definition kind_first {A} (op : M Stream (Error + A)) : Prop := forall s s' kn, s_Kind s = Val (inr kn, s') -> op s' = op s.

Lemma Kind_again s s' kn : s_Kind s = Val (inr kn, s') -> s_Kind s' = Val (inr kn, s').
Proof.
  unfold s_Kind. unfold mbind at 1, M_bind at 1, gets at 1. cbn [id]. destruct (s_kind s) as [k|] eqn:Ek.
  - unfold mret, M_ret. destruct (s_kinderr s) eqn:Ee; [discriminate|]. intros [= <- <-]. unfold mbind at 1, M_bind at 1, gets at 1. cbn [id]. rewrite Ek, Ee. reflexivity.
  - unfold mbind at 1, M_bind at 1, modify at 1. destruct (match s_stack s with [] => false | tos :: _ => lp_pos tos =? lp_size tos end); [discriminate|]. unfold mbind at 1, M_bind at 1.
    destruct (readKind _) as [[[[k n] err] s1]| |]; [|discriminate..]. unfold mbind at 1, M_bind at 1, gets at 1. cbn [id]. unfold mbind at 1, M_bind at 1, modify at 1. unfold mret at 1, M_ret at 1.
    destruct (match err with Some e => Some e | None => size_error s1 n end); [discriminate|]. intros [= <- <-]. reflexivity.
Qed.

Lemma kind_first_kind {A} (f : Kind * Z -> M Stream (Error + A)) : kind_first (try_s s_Kind f).
Proof. intros s s' kn E. unfold try_s, mbind, M_bind. by rewrite (Kind_again _ _ _ E), E. Qed.
Lemma kind_first_rd {A} msg (op : M Stream (Error + A)) : kind_first op -> kind_first (rd msg op).
Proof. intros H s s' kn E. unfold rd, mbind, M_bind. by rewrite (H _ _ _ E). Qed.
Lemma kind_first_try {A B} (op : M Stream (Error + A)) (k : A -> M Stream (Error + B)) : kind_first op -> kind_first (try_s op k).
Proof. intros H s s' kn E. unfold try_s, mbind, M_bind. by rewrite (H _ _ _ E). Qed.

Definition hash_rlp (v : Z) : bytes := rlp_string (hash_bytes v).

Lemma hash_reads msg : reads (read_fixed msg 32) (fun v x => is_u256 v /\ x = hash_rlp v).
Proof. apply (fixed_reads msg 32). lia. Qed.
Lemma addr_reads msg : reads (read_fixed msg 20) (fun v x => 0 <= v < two160 /\ x = rlp_string (addr_bytes v)).
Proof. apply (fixed_reads msg 20). lia. Qed.

Section Seal.
Context (h0 : BlkHeader).

Definition aura_seal : M Stream (Error + (Z * bytes * Z * bytes)) :=
  try_s (rd "read AuRaStep" s_Uint) (fun step => try_s (rd "read AuRaSeal" s_Bytes) (fun seal => mret (inr (b_MixDigest h0, b_Nonce h0, step, seal)))).
Definition pow_seal : M Stream (Error + (Z * bytes * Z * bytes)) :=
  try_s (read_fixed "read MixDigest" 32) (fun mix => try_s (rd "read Nonce" (s_ReadBytes 8)) (fun nonce => mret (inr (mix, nonce, b_AuRaStep h0, b_AuRaSeal h0)))).

Definition aura_rel (v : Z * bytes * Z * bytes) (x : bytes) : Prop :=
  exists step seal, v = (b_MixDigest h0, b_Nonce h0, step, seal) /\ is_u64 step /\ go_len seal /\ x = rlp_uint step ++ rlp_string seal.
Definition pow_rel (v : Z * bytes * Z * bytes) (x : bytes) : Prop :=
  exists mix nonce, v = (mix, nonce, b_AuRaStep h0, b_AuRaSeal h0) /\ is_u256 mix /\ zlen nonce = 8 /\ x = hash_rlp mix ++ rlp_string nonce.

Lemma aura_reads : reads aura_seal aura_rel.
Proof.
  eapply reads_iff; [|apply reads_bind; [apply reads_rd, reads_codec, Uint_codec|intros step; apply reads_bind; [apply reads_rd, reads_codec, Bytes_codec|intros seal; apply reads_ret]]]. cbv beta. intros v x. split.
  - intros (step & x1 & x2 & -> & (H1 & ->) & seal & x3 & x4 & -> & (H2 & ->) & -> & ->). exists step, seal. by rewrite app_nil_r.
  - intros (step & seal & -> & H1 & H2 & ->). exists step, (rlp_uint step), (rlp_string seal). split; [reflexivity|]. split; [auto|]. exists seal, (rlp_string seal), []. by rewrite app_nil_r.
Qed.

Lemma pow_reads : reads pow_seal pow_rel.
Proof.
  eapply reads_iff; [|apply reads_bind; [apply hash_reads|intros mix; apply reads_bind; [apply reads_rd, reads_codec, ReadBytes_codec; lia|intros nonce; apply reads_ret]]]. cbv beta. intros v x. split.
  - intros (mix & x1 & x2 & -> & (H1 & ->) & nonce & x3 & x4 & -> & (H2 & ->) & -> & ->). exists mix, nonce. by rewrite app_nil_r.
  - intros (mix & nonce & -> & H1 & H2 & ->). exists mix, (hash_rlp mix), (rlp_string nonce). split; [reflexivity|]. split; [auto|]. exists nonce, (rlp_string nonce), []. by rewrite app_nil_r.
Qed.

Lemma aura_first : kind_first aura_seal.
Proof. apply kind_first_try, kind_first_rd, kind_first_kind. Qed.
Lemma pow_first : kind_first pow_seal.
Proof. apply kind_first_try, kind_first_try, kind_first_rd, kind_first_kind. Qed.

(** The size ahead tells the two forms apart. *)
Lemma seal_reads : reads (decode_seal h0) (fun v x => aura_rel v x \/ pow_rel v x).
Proof.
  assert (HU : forall s, decode_seal h0 s = match s_Kind s with
    | Val (inr (_, n), s') => if n =? 32 then pow_seal s' else aura_seal s' | Val (inl e, s') => Val (inl (ErrorfW e "read MixDigest"), s') | Panic e => Panic e | OutOfFuel => OutOfFuel end).
  { intros s. unfold decode_seal. unfold try_s at 1, mbind at 1, M_bind at 1. unfold rd at 1, mbind at 1, M_bind at 1. destruct (s_Kind s) as [[[x|[k n]] s']| |]; [reflexivity| |reflexivity..]. cbn [mret M_ret]. by destruct (n =? 32). }
  split.
  - intros r stk z b e Hf. rewrite HU. pose proof (Kind_sound r stk z b e Hf) as HK. destruct (s_Kind _) as [[[x|[k n]] s']| |] eqn:Ek; [exact I| |contradiction..].
    destruct (n =? 32); [rewrite (pow_first _ _ _ Ek); pose proof (r_sound _ _ pow_reads r stk z b e Hf) as HS|rewrite (aura_first _ _ _ Ek); pose proof (r_sound _ _ aura_reads r stk z b e Hf) as HS];
      match goal with |- match ?m with _ => _ end => destruct m as [[[x|v] s2]| |]; [exact I| |contradiction..] end; destruct HS as (x & r' & z' & b' & e' & ? & ? & ? & ?); exists x, r', z', b', e'; auto.
  - intros v x r' stk z b e [HR|HR] Hf Hr; rewrite HU.
    + pose proof HR as (step & seal & _ & H1 & H2 & Ex). assert (Hb : zlen (be step) <= 8) by (apply (be_len step 8), H1). destruct (string_split (be step)) as (k & bv & hd & body & E & Hh & Hk); [unfold go_len; lia|].
      assert (Ex2 : x ++ r' = hd ++ (body ++ rlp_string seal ++ r')) by (rewrite Ex; unfold rlp_uint; by rewrite E, <- !app_assoc). assert (Hl : zlen body <= 8) by (destruct Hk as [(_ & _ & _ & ->)|(_ & -> & _)]; [by cbn|lia]).
      assert (Ek : s_Kind (st (x ++ r') stk None z b e) = Val (inr (k, zlen body), st (body ++ rlp_string seal ++ r') (adv (zlen hd) stk) (Some k) (zlen body) (kind_byte k bv) None)).
      { rewrite Ex2. apply Kind_complete; [exact Hh|by rewrite <- Ex2|]. rewrite <- Ex2. rewrite Ex in Hr at 1. unfold rlp_uint in Hr. rewrite E, !zlen_app in Hr. pose proof (zlen_nonneg (rlp_string seal)). lia. }
      rewrite Ek. destruct (Z.eqb_spec (zlen body) 32); [lia|]. rewrite (aura_first _ _ _ Ek). by apply (r_complete _ _ aura_reads).
    + pose proof HR as (mix & nonce & _ & H1 & H2 & Ex). assert (Hz : zlen (hash_bytes mix) = 32) by apply zlen_Z_to_be.
      assert (Ex2 : x ++ r' = str_header 32 ++ (hash_bytes mix ++ rlp_string nonce ++ r')) by (rewrite Ex; unfold hash_rlp; rewrite rlp_hash; by rewrite <- app_assoc).
      assert (Ek : s_Kind (st (x ++ r') stk None z b e) = Val (inr (String, 32), st (hash_bytes mix ++ rlp_string nonce ++ r') (adv (zlen (str_header 32)) stk) (Some String) 32 (kind_byte String x00) None)).
      { rewrite Ex2. apply Kind_complete; [split; [unfold two64; lia|reflexivity]|by rewrite <- Ex2|]. rewrite <- Ex2. rewrite Ex in Hr at 1. unfold hash_rlp in Hr. rewrite rlp_hash, zlen_app, zlen_cons, Hz in Hr. pose proof (zlen_nonneg (rlp_string nonce)). change (zlen (str_header 32)) with 1. lia. }
      rewrite Ek. destruct (Z.eqb_spec 32 32); [|lia]. rewrite (pow_first _ _ _ Ek). by apply (r_complete _ _ pow_reads).
Qed.
End Seal.

Lemma closes_iff {A} (op : M Stream (Error + A)) R R' : (forall v x, R v x <-> R' v x) -> closes op R -> closes op R'.
Proof.
  intros HE [Hs Hc]. split.
  - intros r t z b e Hf. specialize (Hs r t z b e Hf). destruct (op _) as [[[x|v] s']| |]; [exact I| |contradiction..]. destruct Hs as (x & r' & z' & b' & e' & -> & HR & Hl & ->). exists x, r', z', b', e'. rewrite <- HE. auto.
  - intros v x r' t z b e HR. apply Hc. by apply HE.
Qed.

Lemma rlp_string_pos v : 0 < zlen (rlp_string v).
Proof.
  rewrite <- StringLen_exact. unfold StringLen. pose proof (zlen_nonneg v). destruct (56 <=? zlen v) eqn:E.
  - apply Z.leb_le in E. rewrite byteLen_Z by lia. lia.
  - destruct v as [|b [|c v]]; [lia|destruct (byteZ b <? 128); lia|lia].
Qed.

Lemma closes_opt_hash {B} w cw msg (absent : B) (k : Z -> M Stream (Error + B)) R2 : (forall a, closes (k a) (R2 a)) ->
  closes (opt_field s_Bytes w cw absent (fun b => sized msg b k)) (fun v x => (x = [] /\ v = absent) \/ exists a x2, is_u256 a /\ x = hash_rlp a ++ x2 /\ R2 a v x2).
Proof.
  intros Hk. eapply closes_iff; [|eapply closes_opt; [apply Bytes_codec|apply rlp_string_pos|intros b; apply closes_guard, Hk]]. cbv beta. intros v x. apply or_iff_compat_l. split.
  - intros (b & x2 & Hg & -> & Hb & HR). apply negb_false_iff, Z.eqb_eq in Hb. exists (be_to_Z b), x2. split; [apply (be_bound b 32); lia|]. split; [|exact HR]. unfold hash_rlp, hash_bytes. f_equal. f_equal. rewrite <- (Z_to_be_be_to_Z b) at 1. f_equal. unfold zlen in Hb. lia.
  - intros (a & x2 & Ha & -> & HR). exists (hash_bytes a), x2. assert (E : zlen (hash_bytes a) = 32) by apply zlen_Z_to_be. split; [unfold go_len; lia|]. split; [reflexivity|]. rewrite E. split; [reflexivity|].
    unfold hash_bytes. rewrite be_to_Z_Z_to_be by apply Ha. change (256 ^ Z.of_nat 32) with two256. by rewrite Z.mod_small by apply Ha.
Qed.

(** The optional fields are present up to some field. *)
Definition opt_prefix (f w g e p q : option Z) : Prop :=
  (f = None -> w = None) /\ (w = None -> g = None) /\ (g = None -> e = None) /\ (e = None -> p = None) /\ (p = None -> q = None).
Definition opt_ranges (f w g e p q : option Z) : Prop :=
  opt_all is_u256 f /\ opt_all is_u256 w /\ opt_all is_u64 g /\ opt_all is_u64 e /\ opt_all is_u256 p /\ opt_all is_u256 q.
Definition opt_items (f w g e p q : option Z) : list bytes :=
  opt_rlp f rlp_uint ++ opt_rlp w hash_rlp ++ opt_rlp g rlp_uint ++ opt_rlp e rlp_uint ++ opt_rlp p hash_rlp ++ opt_rlp q hash_rlp.

Lemma optional_closes mk : closes (decode_optional zeroHeader mk)
  (fun v x => exists f w g e p q, opt_prefix f w g e p q /\ opt_ranges f w g e p q /\ v = mk f w g e p q /\ x = mjoin (opt_items f w g e p q)).
Proof.
  eapply closes_iff; [|eapply closes_opt; [apply BigInt_codec|intros v; apply rlp_string_pos|intros f]; apply closes_opt_hash; intros w;
    eapply closes_opt; [apply Uint_codec|intros v; apply rlp_string_pos|intros g]; eapply closes_opt; [apply Uint_codec|intros v; apply rlp_string_pos|intros e];
    apply closes_opt_hash; intros p; apply closes_opt_hash; intros q; apply closes_end].
  cbv beta. intros v x. unfold opt_prefix, opt_ranges, opt_items. split.
  - intros [[-> ->]|(f & x1 & Hf & -> & [[-> ->]|(w & x2 & Hw & -> & [[-> ->]|(g & x3 & Hg & -> & [[-> ->]|(e & x4 & He & -> & [[-> ->]|(p & x5 & Hp & -> & [[-> ->]|(q & x6 & Hq & -> & -> & ->)])])])])])].
    + exists None, None, None, None, None, None. repeat split; auto.
    + exists (Some f), None, None, None, None, None. repeat split; auto; discriminate || apply Hf.
    + exists (Some f), (Some w), None, None, None, None. repeat split; auto; discriminate || apply Hf || apply Hw.
    + exists (Some f), (Some w), (Some g), None, None, None. repeat split; auto; discriminate || apply Hf || apply Hw || apply Hg.
    + exists (Some f), (Some w), (Some g), (Some e), None, None. repeat split; auto; discriminate || apply Hf || apply Hw || apply Hg || apply He.
    + exists (Some f), (Some w), (Some g), (Some e), (Some p), None. repeat split; auto; discriminate || apply Hf || apply Hw || apply Hg || apply He || apply Hp.
    + exists (Some f), (Some w), (Some g), (Some e), (Some p), (Some q). repeat split; auto; discriminate || apply Hf || apply Hw || apply Hg || apply He || apply Hp || apply Hq.
  - intros (f & w & g & e & p & q & (P1 & P2 & P3 & P4 & P5) & (R1 & R2 & R3 & R4 & R5 & R6) & -> & ->).
    destruct f as [f|]; [right|rewrite P1, P2, P3, P4, P5 by auto; by left]. exists f, (mjoin (opt_rlp w hash_rlp ++ opt_rlp g rlp_uint ++ opt_rlp e rlp_uint ++ opt_rlp p hash_rlp ++ opt_rlp q hash_rlp)). split; [exact R1|]. split; [reflexivity|].
    destruct w as [w|]; [right|rewrite P2, P3, P4, P5 by auto; by left]. exists w, (mjoin (opt_rlp g rlp_uint ++ opt_rlp e rlp_uint ++ opt_rlp p hash_rlp ++ opt_rlp q hash_rlp)). split; [exact R2|]. split; [reflexivity|].
    destruct g as [g|]; [right|rewrite P3, P4, P5 by auto; by left]. exists g, (mjoin (opt_rlp e rlp_uint ++ opt_rlp p hash_rlp ++ opt_rlp q hash_rlp)). split; [exact R3|]. split; [reflexivity|].
    destruct e as [e|]; [right|rewrite P4, P5 by auto; by left]. exists e, (mjoin (opt_rlp p hash_rlp ++ opt_rlp q hash_rlp)). split; [exact R4|]. split; [reflexivity|].
    destruct p as [p|]; [right|rewrite P5 by auto; by left]. exists p, (mjoin (opt_rlp q hash_rlp)). split; [exact R5|]. split; [reflexivity|].
    destruct q as [q|]; [right|by left]. exists q, []. auto.
Qed.

(** The rest of a header from its seal on. *)
Lemma tail_closes (mk : Z -> bytes -> Z -> bytes -> option Z -> option Z -> option Z -> option Z -> option Z -> option Z -> BlkHeader) :
  closes (try_s (decode_seal zeroHeader) (fun '(mix, nonce, step, seal) => decode_optional zeroHeader (mk mix nonce step seal)))
    (fun v x => exists mix nonce step seal x1 f w g e p q, (aura_rel zeroHeader (mix, nonce, step, seal) x1 \/ pow_rel zeroHeader (mix, nonce, step, seal) x1) /\
      opt_prefix f w g e p q /\ opt_ranges f w g e p q /\ v = mk mix nonce step seal f w g e p q /\ x = x1 ++ mjoin (opt_items f w g e p q)).
Proof.
  eapply closes_iff; [|apply (closes_bind _ _ _ (fun a v x => exists f w g e p q, opt_prefix f w g e p q /\ opt_ranges f w g e p q /\
    v = mk a.1.1.1 a.1.1.2 a.1.2 a.2 f w g e p q /\ x = mjoin (opt_items f w g e p q)) (seal_reads zeroHeader)); intros [[[mix nonce] step] seal]; apply optional_closes].
  cbv beta. intros v x. split.
  - intros ([[[mix nonce] step] seal] & x1 & x2 & -> & H1 & f & w & g & e & p & q & H2 & H3 & -> & ->). exists mix, nonce, step, seal, x1, f, w, g, e, p, q. auto.
  - intros (mix & nonce & step & seal & x1 & f & w & g & e & p & q & H1 & H2 & H3 & -> & ->). exists (mix, nonce, step, seal), x1, (mjoin (opt_items f w g e p q)). split; [reflexivity|]. split; [exact H1|]. exists f, w, g, e, p, q. auto.
Qed.

(** The values the fields of a decoded header can have. *)
Record in_range (h : BlkHeader) : Prop := mkInRange {
  ir_hashes : Forall is_u256 [b_ParentHash h; b_UncleHash h; b_Root h; b_TxHash h; b_ReceiptHash h; b_MixDigest h];
  ir_coinbase : 0 <= b_Coinbase h < two160;
  ir_bloom : zlen (b_Bloom h) = 256;
  ir_nonce : zlen (b_Nonce h) = 8;
  ir_difficulty : exists d, b_Difficulty h = Some d /\ is_u256 d;
  ir_number : exists n, b_Number h = Some n /\ is_u256 n;
  ir_words : Forall is_u64 [b_GasLimit h; b_GasUsed h; b_Time h; b_AuRaStep h];
  ir_extra : go_len (b_Extra h);
  ir_seal : go_len (b_AuRaSeal h);
  ir_prefix : opt_prefix (b_BaseFee h) (b_WithdrawalsHash h) (b_BlobGasUsed h) (b_ExcessBlobGas h) (b_ParentBeaconBlockRoot h) (b_RequestsHash h);
  ir_ranges : opt_ranges (b_BaseFee h) (b_WithdrawalsHash h) (b_BlobGasUsed h) (b_ExcessBlobGas h) (b_ParentBeaconBlockRoot h) (b_RequestsHash h)
}.

(** No mix digest and nonce, or no step and seal. *)
Definition aura_form (h : BlkHeader) : Prop := b_MixDigest h = 0 /\ b_Nonce h = replicate 8 x00.
Definition pow_form (h : BlkHeader) : Prop := b_AuRaStep h = 0 /\ b_AuRaSeal h = [].

Definition fields_rel (h : BlkHeader) (x : bytes) : Prop :=
  in_range h /\ ((aura_form h /\ x = mjoin (items_with (aura_items h) h)) \/ (pow_form h /\ x = mjoin (items_with (pow_items h) h))).

Ltac fields := cbn [b_ParentHash b_UncleHash b_Coinbase b_Root b_TxHash b_ReceiptHash b_Bloom b_Difficulty b_Number b_GasLimit b_GasUsed b_Time b_Extra b_MixDigest b_Nonce b_AuRaStep b_AuRaSeal b_BaseFee b_WithdrawalsHash b_BlobGasUsed b_ExcessBlobGas b_ParentBeaconBlockRoot b_RequestsHash] in *.

Lemma fields_closes : closes (decode_fields zeroHeader) fields_rel.
Proof.
  eapply closes_iff; [|do 2 (apply closes_bind; [apply hash_reads|intros ?]); apply closes_bind; [apply addr_reads|intros ?]; do 3 (apply closes_bind; [apply hash_reads|intros ?]);
    apply closes_bind; [apply reads_rd, reads_codec, (ReadBytes_codec 256); lia|intros ?]; do 2 (apply closes_bind; [apply reads_rd, reads_codec, BigInt_codec|intros ?]);
    do 3 (apply closes_bind; [apply reads_rd, reads_codec, Uint_codec|intros ?]); apply closes_bind; [apply reads_rd, reads_codec, Bytes_codec|intros ?]; apply tail_closes].
  cbv beta. intros v x. split.
  - intros (parent & x1 & y1 & -> & (H1 & ->) & uncle & x2 & y2 & -> & (H2 & ->) & coinbase & x3 & y3 & -> & (H3 & ->) & root & x4 & y4 & -> & (H4 & ->) & txh & x5 & y5 & -> & (H5 & ->) &
      rh & x6 & y6 & -> & (H6 & ->) & bloom & x7 & y7 & -> & (H7 & ->) & diff & x8 & y8 & -> & (H8 & ->) & num & x9 & y9 & -> & (H9 & ->) & gl & x10 & y10 & -> & (H10 & ->) & gu & x11 & y11 & -> & (H11 & ->) &
      time & x12 & y12 & -> & (H12 & ->) & extra & x13 & y13 & -> & (H13 & ->) & mix & nonce & step & seal & x14 & f & w & g & e & p & q & Hseal & Hpre & Hran & -> & ->).
    assert (Z0 : is_u256 0) by (unfold is_u256, two256; lia). assert (Z1 : is_u64 0) by (unfold is_u64, two64; lia).
    destruct Hseal as [(step' & seal' & [= -> -> <- <-] & S1 & S2 & ->)|(mix' & nonce' & [= <- <- -> ->] & S1 & S2 & ->)].
    + split; [constructor; fields; try assumption; try reflexivity; try (eexists; split; [reflexivity|assumption]); rewrite !Forall_cons; auto 10 using Forall_nil|].
      left. split; [split; reflexivity|]. unfold items_with, aura_items. rewrite !mjoin_app_bytes. cbn [mjoin list_join]; fields; cbn [default].
      unfold opt_items. rewrite !mjoin_app_bytes, !app_nil_r, <- !app_assoc. reflexivity.
    + split; [constructor; fields; try assumption; try reflexivity; try (eexists; split; [reflexivity|assumption]); rewrite !Forall_cons; auto 10 using Forall_nil|].
      right. split; [split; reflexivity|]. unfold items_with, pow_items. rewrite !mjoin_app_bytes. cbn [mjoin list_join]; fields; cbn [default].
      unfold opt_items. rewrite !mjoin_app_bytes, !app_nil_r, <- !app_assoc. reflexivity.
  - destruct v as [parent uncle coinbase root txh rh bloom diff num gl gu time extra mix nonce step seal f w g e p q]. intros [[Hh H3 H7 Hn (d & Ed & H8) (n & En & H9) Hw H13 Hs Hpre Hran] Hform]. fields. subst diff num.
    rewrite !Forall_cons in Hh. rewrite !Forall_cons in Hw. destruct Hh as (H1 & H2 & H4 & H5 & H6 & H7' & _), Hw as (H10 & H11 & H12 & H12' & _).
    assert (Hx : exists x14, (aura_rel zeroHeader (mix, nonce, step, seal) x14 \/ pow_rel zeroHeader (mix, nonce, step, seal) x14) /\
      x = hash_rlp parent ++ hash_rlp uncle ++ rlp_string (addr_bytes coinbase) ++ hash_rlp root ++ hash_rlp txh ++ hash_rlp rh ++ rlp_string bloom ++ rlp_uint d ++ rlp_uint n ++ rlp_uint gl ++ rlp_uint gu ++ rlp_uint time ++ rlp_string extra ++ x14 ++ mjoin (opt_items f w g e p q)).
    { destruct Hform as [[[Em En] ->]|[[Es Ea] ->]]; fields; unfold items_with, aura_items, pow_items; rewrite !mjoin_app_bytes; cbn [mjoin list_join]; fields; cbn [default];
        unfold opt_items; rewrite !mjoin_app_bytes, !app_nil_r, <- !app_assoc.
      - exists (rlp_uint step ++ rlp_string seal). split; [left; exists step, seal; subst mix nonce; auto|]. by rewrite <- !app_assoc.
      - exists (hash_rlp mix ++ rlp_string nonce). split; [right; exists mix, nonce; subst step seal; auto|]. by rewrite <- !app_assoc. }
    destruct Hx as (x14 & Hseal & ->).
    do 13 (do 3 eexists; split; [reflexivity|]; split; [split; [|reflexivity]; eassumption|]). exists mix, nonce, step, seal, x14, f, w, g, e, p, q. auto.
Qed.

(** ** Headers *)

(** A header as the protocol makes them: it can be written, difficulty and number are set,
    the optional fields are present up to some field, and it has one kind of seal. *)
Record complete (h : BlkHeader) : Prop := mkComplete {
  cm_ok : header_ok h;
  cm_difficulty : b_Difficulty h <> None;
  cm_number : b_Number h <> None;
  cm_prefix : opt_prefix (b_BaseFee h) (b_WithdrawalsHash h) (b_BlobGasUsed h) (b_ExcessBlobGas h) (b_ParentBeaconBlockRoot h) (b_RequestsHash h);
  cm_seal : if 0 <? zlen (b_AuRaSeal h) then aura_form h else pow_form h;
  cm_size : go_len (header_rlp h)
}.

Lemma opt_wide_u256 o : opt_all wide o -> opt_all is_u256 o.
Proof. destruct o; [apply wide_u256|done]. Qed.

Lemma complete_rel h : complete h -> fields_rel h (mjoin (header_items h)).
Proof.
  intros [Hok Hd Hn Hp Hs _]. split.
  - destruct Hok. constructor; try assumption.
    + destruct (b_Difficulty h) as [d|]; [|done]. exists d. split; [reflexivity|]. by apply wide_u256.
    + destruct (b_Number h) as [n|]; [|done]. exists n. split; [reflexivity|]. by apply wide_u256.
    + unfold opt_ranges. auto 10 using opt_wide_u256.
  - unfold header_items. destruct (0 <? zlen (b_AuRaSeal h)); auto.
Qed.

(** C19 A header that is written is read back: the bytes [EncodeRLP] writes for a header the
    protocol can make, decoded into a new header, give the same header. *)
Theorem header_roundtrip h : complete h ->
  exists b, h_EncodeRLP h [] = Val (None, b) /\ DecodeBytes (h_DecodeRLP zeroHeader) b = Val (inr h).
Proof.
  intros Hc. exists (header_rlp h). split; [by apply EncodeRLP_exact, Hc|]. apply (DecodeBytes_complete _ _ fields_closes); [by apply complete_rel|apply Hc].
Qed.

(** C20 Decoding a header never panics, and what it accepts is canonical: the input is the
    encoding of the header returned, so that no two inputs give the same header; the only
    other input accepted for a header without a seal is the one with an empty AuRa seal. *)
Theorem header_decode_canonical b : go_len b ->
  match DecodeBytes (h_DecodeRLP zeroHeader) b with
  | Val (inr h) => in_range h /\ (b = header_rlp h \/ b_AuRaSeal h = [] /\ aura_form h /\ b = rlp_list (items_with (aura_items h) h))
  | Val (inl _) => True
  | _ => False
  end.
Proof.
  intros Hb. pose proof (DecodeBytes_sound _ _ fields_closes b Hb) as HD. unfold h_DecodeRLP. destruct (DecodeBytes _ b) as [[x|h]| |]; [exact I| |contradiction..].
  destruct HD as (x & -> & Hr & [[Hf ->]|[[Hf1 Hf2] ->]]); (split; [exact Hr|]); unfold header_rlp, header_items.
  - destruct (b_AuRaSeal h) as [|y l] eqn:Es; [right; auto|left]. change (0 <? zlen (y :: l)) with true. reflexivity.
  - left. rewrite Hf2. reflexivity.
Qed.

(** ** Withdrawals *)

Lemma wd_closes : closes wd_decode_fields (fun w x => withdrawal_ok w /\ x = mjoin (wd_items w)).
Proof.
  eapply closes_iff; [|do 2 (apply closes_bind; [apply reads_rd, reads_codec, Uint_codec|intros ?]); apply closes_bind; [apply addr_reads|intros ?]; apply closes_bind; [apply reads_rd, reads_codec, Uint_codec|intros ?]; apply closes_end].
  cbv beta. intros v x. split.
  - intros (i & x1 & y1 & -> & (H1 & ->) & va & x2 & y2 & -> & (H2 & ->) & a & x3 & y3 & -> & (H3 & ->) & am & x4 & y4 & -> & (H4 & ->) & -> & ->). split; [constructor; cbn [w_Index w_Validator w_Amount w_Address]; [auto|exact H3]|].
    unfold wd_items. reflexivity.
  - destruct v as [i va a am]. intros [[Hw Ha] ->]. cbn [w_Index w_Validator w_Amount w_Address] in *. rewrite !Forall_cons in Hw. destruct Hw as (H1 & H2 & H3 & _). unfold wd_items. cbn [w_Index w_Validator w_Amount w_Address mjoin list_join].
    do 3 eexists; split; [reflexivity|]; split; [split; [exact H1|reflexivity]|]. do 3 eexists; split; [reflexivity|]; split; [split; [exact H2|reflexivity]|]. do 3 eexists; split; [reflexivity|]; split; [split; [exact Ha|reflexivity]|].
    do 3 eexists; split; [reflexivity|]; split; [split; [exact H3|reflexivity]|]. auto.
Qed.

(** A withdrawal is read back, and only its encoding is. *)
Lemma withdrawal_roundtrip w : withdrawal_ok w -> wd_EncodeRLP w [] = Val (None, rlp_list (wd_items w)) /\ DecodeBytes wd_DecodeRLP (rlp_list (wd_items w)) = Val (inr w).
Proof.
  intros Hw. split; [by apply wd_EncodeRLP_exact|]. apply (DecodeBytes_complete _ _ wd_closes); [auto|]. pose proof (wd_words w Hw) as H. rewrite !Forall_cons in H. destruct H as (W1 & W2 & W3 & _).
  assert (Hl : 0 <= zlen (mjoin (wd_items w)) < 200).
  { split; [apply zlen_nonneg|]. unfold wd_items. rewrite !zlen_join_cons, rlp_addr, zlen_cons. unfold addr_bytes. rewrite zlen_Z_to_be. change (zlen (mjoin [] : bytes)) with 0.
    pose proof (zlen_rlp_uint_le _ (u64_u256 _ W1)). pose proof (zlen_rlp_uint_le _ (u64_u256 _ W2)). pose proof (zlen_rlp_uint_le _ (u64_u256 _ W3)). lia. }
  unfold go_len. rewrite zlen_app, <- ListPrefixLen_exact by (unfold two64; lia). unfold ListPrefixLen. destruct (56 <=? _); [|lia]. rewrite u64_id by (unfold is_u64, two64; lia). rewrite byteLen_Z by lia.
  pose proof (byteLen_le (zlen (mjoin (wd_items w))) 2) as H. change (256 ^ Z.of_nat 2) with 65536 in H. lia.
Qed.

(** ** Instances *)

(** The header of a block after Cancun, and one whose base fee takes 32 bytes. *)
Definition demo_header (fee : Z) : BlkHeader :=
  mkBlk 1 2 3 4 5 6 (replicate 256 x01) (Some 0) (Some 19500000) 30000000 21000 1710338135 [x61; x62] 7 (replicate 8 x00) 0 [] (Some fee) (Some 8) (Some 131072) (Some 0) (Some 9) None.

Lemma demo_complete : complete (demo_header 7).
Proof.
  constructor; [constructor|..]; fields; rewrite ?Forall_cons, ?Forall_nil; unfold opt_prefix, pow_form; cbn [opt_all]; unfold is_u256, is_u64, wide, two256, two160, two64, go_len; try done; try (repeat split; (lia || done)).
Qed.

Lemma header_roundtrip_witness : complete (demo_header 7) /\ exists b, h_EncodeRLP (demo_header 7) [] = Val (None, b) /\ DecodeBytes (h_DecodeRLP zeroHeader) b = Val (inr (demo_header 7)).
Proof. split; [exact demo_complete|]. apply (header_roundtrip (demo_header 7) demo_complete). Defined.

Lemma header_decode_canonical_witness : go_len (header_rlp (demo_header 7)) /\
  match DecodeBytes (h_DecodeRLP zeroHeader) (header_rlp (demo_header 7)) with
  | Val (inr h) => in_range h /\ (header_rlp (demo_header 7) = header_rlp h \/ b_AuRaSeal h = [] /\ aura_form h /\ header_rlp (demo_header 7) = rlp_list (items_with (aura_items h) h))
  | Val (inl _) => True
  | _ => False
  end.
Proof. split; [vm_compute; reflexivity|]. apply header_decode_canonical. vm_compute. reflexivity. Defined.

(** A header whose base fee takes 32 bytes is accepted by the decoder and by
    [SanityCheck], but cannot be encoded, hence not hashed: the encoder's scratch buffer
    has no room for the number and its tag. *)
Theorem wide_base_fee_panics :
  let h := demo_header (2 ^ 248) in
  DecodeBytes (h_DecodeRLP zeroHeader) (header_rlp h) = Val (inr h) /\ SanityCheck h = None /\ exists e, h_EncodeRLP h [] = Panic e.
Proof. cbv zeta. split; [vm_compute; reflexivity|]. split; [vm_compute; reflexivity|]. eexists. vm_compute. reflexivity. Qed.

(** An empty AuRa seal stands for a zero mix digest and nonce: two inputs, one header. *)
Example empty_seal_accepted :
  let h := mkBlk 1 2 3 4 5 6 (replicate 256 x01) (Some 0) (Some 1) 30000000 21000 1710338135 [] 0 (replicate 8 x00) 0 [] None None None None None None in
  DecodeBytes (h_DecodeRLP zeroHeader) (header_rlp h) = Val (inr h) /\
  DecodeBytes (h_DecodeRLP zeroHeader) (rlp_list (items_with (aura_items h) h)) = Val (inr h) /\ header_rlp h <> rlp_list (items_with (aura_items h) h).
Proof. cbv zeta. split; [vm_compute; reflexivity|]. split; [vm_compute; reflexivity|]. vm_compute. discriminate. Qed.
