(* ===== verification/Consensus.v ===== *)
(** * What the consensus engines share

    The errors of [execution/consensus/errors.go], the reader of the chain they are given
    ([ChainHeaderReader], [ChainReader]), and the header as they and the fee market see it. *)

From S2P Require Import Prelude Errors ChainConfig FeeMarket HeaderRlp.

Definition ErrUnknownAncestor : Error := NewError "unknown ancestor".
Definition ErrFutureBlock : Error := NewError "block in the future".
Definition ErrUnexpectedWithdrawals : Error := NewError "unexpected withdrawals".
Definition ErrUnexpectedRequests : Error := NewError "unexpected requests".
Definition ErrUnknownAncestorTD : Error := NewError "unknown ancestor TD".
Definition ErrInvalidNumber : Error := NewError "invalid block number".

(** [empty.UncleHash]. *)
Definition emptyUncleHash : Z := 0x1dcc4de8dec75d7aab85b567b6ccd41ad312451b948a7413f0a142fd40d49347.

(** [header.Number.Uint64()]. *)
Definition number_of (h : BlkHeader) : Res Z := n ← nonnil (b_Number h); mret (big_Uint64 n).

(** The fields the fee market reads; the number is not nil where it is called. *)
Definition fee_fields (h : BlkHeader) : Header :=
  mkHeader (default 0 (b_Number h)) (b_GasLimit h) (b_GasUsed h) (b_Time h) (b_BaseFee h) (b_BlobGasUsed h) (b_ExcessBlobGas h) (b_ParentBeaconBlockRoot h).

(** The chain as an engine reads it; of a block, the uncles. *)
Record ChainReader : Type := mkChainReader {
  cr_Config : chain.Config; GetHeader : Z -> Z -> option BlkHeader; GetHeaderByNumber : Z -> option BlkHeader; GetTd : Z -> Z -> option Z; GetUncles : Z -> Z -> option (list BlkHeader)
}.
