(* ===== verification/Clique.v ===== *)
(** * Clique: proof of authority

    The consensus engine of [execution/consensus/clique]: the snapshot of the signers and of
    their pending votes ([snapshot.go]), its replay along the headers, the checks of a header
    ([verifier.go]), and what a signer puts into a header it prepares ([clique.go]).
    Headers are [types.Header]; addresses are numbers, ordered as their bytes. The caches and
    the database are third-party: a lookup finds what was added or nothing. The local clock,
    the choice of a proposal and the signing function are arguments; sealing waits for its
    time in another goroutine, which is not modelled. *)

From stdpp Require Import gmap sorting.
From S2P Require Import Prelude Uint256 Errors Machine ChainConfig FeeMarket Authorization Rlp RlpSpec RlpWriter HeaderRlp Consensus.

(** ** Errors and constants *)

Definition errUnknownBlock : Error := NewError "unknown block".
Definition errInvalidCheckpointBeneficiary : Error := NewError "beneficiary in checkpoint block non-zero".
Definition errInvalidVote : Error := NewError "vote nonce not 0x00..0 or 0xff..f".
Definition errInvalidCheckpointVote : Error := NewError "vote nonce in checkpoint block non-zero".
Definition errMissingVanity : Error := NewError "extra-data 32 byte vanity prefix missing".
Definition errMissingSignature : Error := NewError "extra-data 65 byte signature suffix missing".
Definition errExtraSigners : Error := NewError "non-checkpoint block contains extra signer list".
Definition errInvalidCheckpointSigners : Error := NewError "invalid signer list on checkpoint block".
Definition errMismatchingCheckpointSigners : Error := NewError "mismatching signer list on checkpoint block".
Definition errInvalidMixDigest : Error := NewError "non-zero mix digest".
Definition errInvalidUncleHash : Error := NewError "non empty uncle hash".
Definition errInvalidDifficulty : Error := NewError "invalid difficulty".
Definition errWrongDifficulty : Error := NewError "wrong difficulty".
Definition errInvalidTimestamp : Error := NewError "invalid timestamp".
Definition errInvalidVotingChain : Error := NewError "invalid voting chain".
Definition ErrUnauthorizedSigner : Error := NewError "unauthorized signer".
Definition ErrRecentlySigned : Error := NewError "recently signed".

Definition epochLength : Z := 30000.
Definition ExtraVanity : Z := 32.
Definition ExtraSeal : Z := 65.
Definition NonceAuthVote : bytes := replicate 8 xff.
Definition nonceDropVote : bytes := replicate 8 x00.
Definition DiffInTurn : Z := 2.
Definition diffNoTurn : Z := 1.
Definition FullImmutabilityThreshold : Z := 5000.

Record CliqueConfig : Type := mkCliqueConfig { Period : Z; Epoch : Z }.

(** The configuration [New] keeps. *)
Definition New_config (c : CliqueConfig) : CliqueConfig := if Epoch c =? 0 then mkCliqueConfig (Period c) epochLength else c.

(** ** Snapshots *)

Record Vote : Type := mkVote { v_Signer : Z; v_Block : Z; v_Address : Z; v_Authorize : bool }.
Record Tally : Type := mkTally { t_Authorize : bool; t_Votes : Z }.

Record Snapshot : Type := mkSnapshot {
  sn_config : CliqueConfig; sn_Number : Z; sn_Hash : Z; Signers : gset Z; Recents : gmap Z Z; Votes : list Vote; sn_Tally : gmap Z Tally
}.

Definition with_Signers (x : gset Z) (s : Snapshot) : Snapshot := mkSnapshot (sn_config s) (sn_Number s) (sn_Hash s) x (Recents s) (Votes s) (sn_Tally s).
Definition with_Recents (x : gmap Z Z) (s : Snapshot) : Snapshot := mkSnapshot (sn_config s) (sn_Number s) (sn_Hash s) (Signers s) x (Votes s) (sn_Tally s).
Definition with_Votes (x : list Vote) (s : Snapshot) : Snapshot := mkSnapshot (sn_config s) (sn_Number s) (sn_Hash s) (Signers s) (Recents s) x (sn_Tally s).
Definition with_Tally (x : gmap Z Tally) (s : Snapshot) : Snapshot := mkSnapshot (sn_config s) (sn_Number s) (sn_Hash s) (Signers s) (Recents s) (Votes s) x.
Definition with_config (x : CliqueConfig) (s : Snapshot) : Snapshot := mkSnapshot x (sn_Number s) (sn_Hash s) (Signers s) (Recents s) (Votes s) (sn_Tally s).
Definition with_Head (n h : Z) (s : Snapshot) : Snapshot := mkSnapshot (sn_config s) n h (Signers s) (Recents s) (Votes s) (sn_Tally s).

Definition newSnapshot (config : CliqueConfig) (number hash : Z) (signers : list Z) : Snapshot :=
  mkSnapshot config number hash (list_to_set signers) ∅ [] ∅.

Definition validVote (address : Z) (authorize : bool) (s : Snapshot) : bool :=
  let signer := bool_decide (address ∈ Signers s) in (signer && negb authorize) || (negb signer && authorize).

Definition cast (address : Z) (authorize : bool) (s : Snapshot) : bool * Snapshot :=
  if negb (validVote address authorize s) then (false, s)
  else
    match sn_Tally s !! address with
    | Some old => (true, with_Tally (<[address := mkTally (t_Authorize old) (t_Votes old + 1)]> (sn_Tally s)) s)
    | None => (true, with_Tally (<[address := mkTally authorize 1]> (sn_Tally s)) s)
    end.

Definition uncast (address : Z) (authorize : bool) (s : Snapshot) : bool * Snapshot :=
  match sn_Tally s !! address with
  | None => (false, s)
  | Some tally =>
      if negb (eqb (t_Authorize tally) authorize) then (false, s)
      else if 1 <? t_Votes tally then (true, with_Tally (<[address := mkTally (t_Authorize tally) (t_Votes tally - 1)]> (sn_Tally s)) s)
      else (true, with_Tally (delete address (sn_Tally s)) s)
  end.

(** [uint64(len(snap.Signers)/2 + 1)]. *)
Definition limit (s : Snapshot) : Z := Z.of_nat (size (Signers s)) / 2 + 1.

(** [if limit := ...; number >= limit { delete(snap.Recents, number-limit) }]. *)
Definition expire (number : Z) (s : Snapshot) : Snapshot :=
  if limit s <=? number then with_Recents (delete (number - limit s) (Recents s)) s else s.

(** The loop that discards the signer's previous vote on the address: the first one. *)
Fixpoint discard_loop (seen votes : list Vote) (signer address : Z) (s : Snapshot) : Snapshot :=
  match votes with
  | [] => s
  | v :: votes =>
      if (v_Signer v =? signer) && (v_Address v =? address)
      then with_Votes (seen ++ votes) (uncast (v_Address v) (v_Authorize v) s).2
      else discard_loop (seen ++ [v]) votes signer address s
  end.

(** The votes a removed signer cast, uncast and dropped one by one. *)
Fixpoint drop_cast_by (votes : list Vote) (who : Z) (s : Snapshot) : list Vote * Snapshot :=
  match votes with
  | [] => ([], s)
  | v :: votes =>
      if v_Signer v =? who then drop_cast_by votes who (uncast (v_Address v) (v_Authorize v) s).2
      else let '(kept, s) := drop_cast_by votes who s in (v :: kept, s)
  end.

(** "If the vote passed, update the list of signers". *)
Definition settle_vote (number coinbase : Z) (s : Snapshot) : Snapshot :=
  let tally := default (mkTally false 0) (sn_Tally s !! coinbase) in
  if Z.of_nat (size (Signers s)) / 2 <? t_Votes tally then
    let s :=
      if t_Authorize tally then with_Signers ({[coinbase]} ∪ Signers s) s
      else
        let s := with_Signers (Signers s ∖ {[coinbase]}) s in
        let s := expire number s in
        let '(kept, s) := drop_cast_by (Votes s) coinbase s in
        with_Votes kept s in
    let s := with_Votes (filter (fun v => v_Address v <> coinbase) (Votes s)) s in
    with_Tally (delete coinbase (sn_Tally s)) s
  else s.

(** The vote of a nonce. *)
Definition vote_of (nonce : bytes) : option bool :=
  if decide (nonce = NonceAuthVote) then Some true else if decide (nonce = nonceDropVote) then Some false else None.

(** [x % m] panics on zero. *)
Definition go_mod (x m : Z) : Res Z := if m =? 0 then Panic "integer divide by zero" else mret (x mod m).

(** ** The signer of a header *)

Class SigCache : Type := { sigcache : Type; sig_Peek : Z -> sigcache -> option Z; sig_Add : Z -> Z -> sigcache -> sigcache }.
(** An addition may evict other entries. *)
Class SigCacheSpec (C : SigCache) : Prop := sig_Add_spec k v c k' v' : sig_Peek k' (sig_Add k v c) = Some v' -> (k' = k /\ v' = v) \/ sig_Peek k' c = Some v'.

(** The cache of snapshots: [snap_Get] may refresh recency, [snap_Add] may evict;
    [snap_contents] is what a lookup would find. *)
Class SnapCache : Type := { snapcache : Type; snap_Get : Z -> snapcache -> option Snapshot * snapcache; snap_Add : Z -> Snapshot -> snapcache -> snapcache }.
Class SnapCacheSpec (C : SnapCache) : Type := {
  snap_contents : snapcache -> Z -> option Snapshot;
  snap_Get_spec k c : (snap_Get k c).1 = snap_contents c k /\ forall k', snap_contents (snap_Get k c).2 k' = snap_contents c k';
  snap_Add_spec k v c k' v' : snap_contents (snap_Add k v c) k' = Some v' -> (k' = k /\ v' = v) \/ snap_contents c k' = Some v'
}.

(** The table of snapshots, by number and hash. Nothing is found where the read or the
    decoding fails; the configuration is not stored. *)
Class SnapDB : Type := { snapdb : Type; db_Get : Z -> Z -> snapdb -> option Snapshot; db_Put : Z -> Z -> Snapshot -> snapdb -> Error + snapdb }.
Class SnapDBSpec (D : SnapDB) : Prop := {
  db_Put_spec n h s d d' n' h' s' : db_Put n h s d = inr d' -> db_Get n' h' d' = Some s' ->
    (n' = n /\ h' = h /\ forall c, with_config c s' = with_config c s) \/ db_Get n' h' d = Some s';
  db_Put_keeps n h s d d' n' h' : db_Put n h s d = inr d' -> is_Some (db_Get n' h' d) -> is_Some (db_Get n' h' d')
}.

Definition non_negative (o : option Z) : bool := match o with Some i => 0 <=? i | None => true end.

(** What the reflection-driven encoder writes for the list of fields of [encodeSigHeader];
    it refuses negative numbers. *)
Definition encodeSigHeader (h : BlkHeader) : Res bytes :=
  extra ← go_slice (b_Extra h) 0 (zlen (b_Extra h) - ExtraSeal);
  if negb (non_negative (b_Difficulty h) && non_negative (b_Number h) && non_negative (b_BaseFee h)) then Panic "can't encode"
  else
    mret (rlp_list (
      [rlp_string (hash_bytes (b_ParentHash h)); rlp_string (hash_bytes (b_UncleHash h)); rlp_string (addr_bytes (b_Coinbase h));
       rlp_string (hash_bytes (b_Root h)); rlp_string (hash_bytes (b_TxHash h)); rlp_string (hash_bytes (b_ReceiptHash h)); rlp_string (b_Bloom h);
       rlp_uint (default 0 (b_Difficulty h)); rlp_uint (default 0 (b_Number h)); rlp_uint (b_GasLimit h); rlp_uint (b_GasUsed h); rlp_uint (b_Time h);
       rlp_string extra; rlp_string (hash_bytes (b_MixDigest h)); rlp_string (b_Nonce h)] ++
      opt_rlp (b_BaseFee h) rlp_uint)).
Definition CliqueRLP : BlkHeader -> Res bytes := encodeSigHeader.

Section Clique.
Context {K : Keccak} {E : Secp256k1} {C : SigCache} {SC : SnapCache} {SD : SnapDB}.

Definition SealHash (h : BlkHeader) : Res Z := b ← encodeSigHeader h; mret (keccak256 b).

(** [ecrecover] after the cache: the signer by the signature at the end of the extra data. *)
Definition recover (h : BlkHeader) : Res (Error + Z) :=
  if zlen (b_Extra h) <? ExtraSeal then mret (inl errMissingSignature)
  else
    signature ← go_slice (b_Extra h) (zlen (b_Extra h) - ExtraSeal) (zlen (b_Extra h));
    hash ← SealHash h;
    match Ecrecover (hash_bytes hash) signature with
    | inl err => mret (inl err)
    | inr pubkey => key ← go_slice pubkey 1 (zlen pubkey); mret (inr (keccak256 key mod two160))
    end.

Definition ecrecover (h : BlkHeader) : M sigcache (Error + Z) :=
  hash ← lift (h_Hash h);
  known ← gets (sig_Peek hash);
  match known with
  | Some address => mret (inr address)
  | None =>
      r ← lift (recover h);
      match r with
      | inl err => mret (inl err)
      | inr signer => _ ← modify (sig_Add hash signer); mret (inr signer)
      end
  end.
Definition Author : BlkHeader -> M sigcache (Error + Z) := ecrecover.

(** ** Replaying headers *)

(** The vote of a header whose signer is authorised. *)
Definition count_vote (number signer coinbase : Z) (nonce : bytes) (s : Snapshot) : Error + Snapshot :=
  let s := with_Recents (<[number := signer]> (Recents s)) s in
  let s := discard_loop [] (Votes s) signer coinbase s in
  match vote_of nonce with
  | None => inl errInvalidVote
  | Some authorize =>
      let '(counted, s) := cast coinbase authorize s in
      let s := if counted then with_Votes (Votes s ++ [mkVote signer number coinbase authorize]) s else s in
      inr (settle_vote number coinbase s)
  end.

(** The checks of the signer: authorised, and not among the recent ones. *)
Definition check_signer (signer : Z) (s : Snapshot) : option Error :=
  if negb (bool_decide (signer ∈ Signers s)) then Some ErrUnauthorizedSigner
  else if existsb (fun kv => kv.2 =? signer) (map_to_list (Recents s)) then Some ErrRecentlySigned
  else None.

(** One iteration of the loop of [apply]. *)
Definition apply_header (epoch : Z) (s : Snapshot) (header : BlkHeader) : M sigcache (Error + Snapshot) :=
  number ← lift (number_of header);
  m ← lift (go_mod number epoch);
  let s := if m =? 0 then with_Tally ∅ (with_Votes [] s) else s in
  let s := expire number s in
  r ← ecrecover header;
  match r with
  | inl err => mret (inl err)
  | inr signer =>
      match check_signer signer s with
      | Some err => mret (inl err)
      | None => mret (count_vote number signer (b_Coinbase header) (b_Nonce header) s)
      end
  end.

Fixpoint apply_headers (epoch : Z) (s : Snapshot) (headers : list BlkHeader) : M sigcache (Error + Snapshot) :=
  match headers with
  | [] => mret (inr s)
  | h :: headers =>
      r ← apply_header epoch s h;
      match r with inl err => mret (inl err) | inr s => apply_headers epoch s headers end
  end.

(** Each header's number is one more than that of the one before. *)
Fixpoint contiguous (headers : list BlkHeader) : Res bool :=
  match headers with
  | a :: (b :: _) as rest =>
      nb ← number_of b; na ← number_of a;
      if negb (nb =? u64 (na + 1)) then mret false else contiguous rest
  | _ => mret true
  end.

(** [copy] makes new maps, and the snapshot is a value here. *)
Definition sn_apply (s : Snapshot) (headers : list BlkHeader) : M sigcache (Error + Snapshot) :=
  match headers with
  | [] => mret (inr s)
  | first :: _ =>
      ok ← lift (contiguous headers);
      if negb ok then mret (inl errInvalidVotingChain)
      else
        n0 ← lift (number_of first);
        if negb (n0 =? u64 (sn_Number s + 1)) then mret (inl errInvalidVotingChain)
        else
          r ← apply_headers (Epoch (sn_config s)) s headers;
          match r with
          | inl err => mret (inl err)
          | inr snap =>
              match last headers with
              | None => gopanic "index out of range"
              | Some l => hash ← lift (h_Hash l); mret (inr (with_Head (u64 (sn_Number snap + zlen headers)) hash snap))
              end
          end
  end.

(** ** Turns *)

(** Addresses in ascending order of their bytes. *)
Definition GetSigners (s : Snapshot) : list Z := merge_sort Z.le (elements (Signers s)).

Fixpoint offset_of (signer : Z) (signers : list Z) : Z :=
  match signers with [] => 0 | x :: signers => if x =? signer then 0 else 1 + offset_of signer signers end.

Definition inturn (number signer : Z) (s : Snapshot) : Res bool :=
  let signers := GetSigners s in
  m ← go_mod number (zlen signers);
  mret (m =? offset_of signer signers).

Definition calcDifficulty (s : Snapshot) (signer : Z) : Res Z :=
  inturn (u64 (sn_Number s + 1)) signer s ≫= fun t : bool => mret (if t then DiffInTurn else diffNoTurn).

(** ** Verification *)

(** The test of the recent signers in [verifySeal]: [seen > number-limit] in 64 bits. *)
Definition seal_recent (number signer : Z) (s : Snapshot) : bool :=
  existsb (fun kv => (kv.2 =? signer) && (u64 (number - limit s) <? kv.1)) (map_to_list (Recents s)).

Definition verifySeal (fakeDiff : bool) (header : BlkHeader) (snap : Snapshot) : M sigcache (option Error) :=
  number ← lift (number_of header);
  if number =? 0 then mret (Some errUnknownBlock)
  else
    r ← ecrecover header;
    match r with
    | inl err => mret (Some err)
    | inr signer =>
        if negb (bool_decide (signer ∈ Signers snap)) then mret (Some ErrUnauthorizedSigner)
        else if seal_recent number signer snap then mret (Some ErrRecentlySigned)
        else if fakeDiff then mret None
        else
          t ← lift (inturn number signer snap);
          d ← lift (nonnil (b_Difficulty header));
          if t && negb (d =? DiffInTurn) then mret (Some errWrongDifficulty)
          else if negb t && negb (d =? diffNoTurn) then mret (Some errWrongDifficulty)
          else mret None
    end.

(** The signers listed in the extra data of a checkpoint. *)
Definition signers_bytes (s : Snapshot) : bytes := mjoin (map addr_bytes (GetSigners s)).

Fixpoint extra_signers (n : nat) (extra : bytes) : list Z :=
  match n with O => [] | S n => be_to_Z (take 20 extra) :: extra_signers n (drop 20 extra) end.

(** The checks of [verifyHeader] that need no other header; [now] is the local time. *)
Definition verify_standalone (config : CliqueConfig) (now : Z) (header : BlkHeader) : Res (option Error) :=
  match b_Number header with
  | None => mret (Some errUnknownBlock)
  | Some n =>
      let number := big_Uint64 n in
      if u64 now <? b_Time header then mret (Some ErrFutureBlock)
      else
        m ← go_mod number (Epoch config);
        let checkpoint := m =? 0 in
        let signersBytes := zlen (b_Extra header) - ExtraVanity - ExtraSeal in
        mret (
          if checkpoint && negb (b_Coinbase header =? 0) then Some errInvalidCheckpointBeneficiary
          else if bool_decide (vote_of (b_Nonce header) = None) then Some errInvalidVote
          else if checkpoint && negb (bool_decide (b_Nonce header = nonceDropVote)) then Some errInvalidCheckpointVote
          else if zlen (b_Extra header) <? ExtraVanity then Some errMissingVanity
          else if zlen (b_Extra header) <? ExtraVanity + ExtraSeal then Some errMissingSignature
          else if negb checkpoint && negb (signersBytes =? 0) then Some errExtraSigners
          else if checkpoint && negb (signersBytes mod 20 =? 0) then Some errInvalidCheckpointSigners
          else if negb (b_MixDigest header =? 0) then Some errInvalidMixDigest
          else if negb (b_UncleHash header =? emptyUncleHash) then Some errInvalidUncleHash
          else if (0 <? number) && match b_Difficulty header with Some d => negb (d =? DiffInTurn) && negb (d =? diffNoTurn) | None => true end then Some errInvalidDifficulty
          else if bool_decide (b_WithdrawalsHash header <> None) then Some ErrUnexpectedWithdrawals
          else if bool_decide (b_RequestsHash header <> None) then Some ErrUnexpectedRequests
          else None)
  end.

(** The checks against the parent. *)
Definition verify_parent (chainConfig : chain.Config) (config : CliqueConfig) (header parent : BlkHeader) : Res (option Error) :=
  number ← number_of header;
  if b_Time header <? u64 (b_Time parent + Period config) then mret (Some errInvalidTimestamp)
  else
    err ← (if negb (chain.IsLondon chainConfig number) then
             mret (match b_BaseFee header with
                   | Some _ => Some (NewError "invalid baseFee before fork")
                   | None => VerifyGaslimit (b_GasLimit parent) (b_GasLimit header)
                   end)
           else VerifyEip1559Header chainConfig (fee_fields parent) (fee_fields header) false);
    match err with
    | Some e => mret (Some e)
    | None => mret (VerifyAbsenceOfCancunHeaderFields (fee_fields header))
    end.

(** The list of signers of a checkpoint. *)
Definition verify_checkpoint (config : CliqueConfig) (header : BlkHeader) (snap : Snapshot) : Res (option Error) :=
  number ← number_of header;
  m ← go_mod number (Epoch config);
  if m =? 0 then
    listed ← go_slice (b_Extra header) ExtraVanity (zlen (b_Extra header) - ExtraSeal);
    mret (if bool_decide (listed = signers_bytes snap) then None else Some errMismatchingCheckpointSigners)
  else mret None.

(** ** The snapshot of a block *)

(** What the engine is made with. *)
Record Engine : Type := mkEngine { e_config : CliqueConfig; CheckpointInterval : Z; FakeDiff : bool }.

(** What it keeps: the caches, the database, the proposals to vote for and the key to sign
    with. *)
Record CliqueState : Type := mkCliqueState {
  signatures : sigcache; recents : snapcache; DB : snapdb; proposals : gmap Z bool; c_signer : Z; signFn : Z -> bytes -> Error + bytes
}.
Definition with_signatures (x : sigcache) (c : CliqueState) : CliqueState := mkCliqueState x (recents c) (DB c) (proposals c) (c_signer c) (signFn c).
Definition with_recents (x : snapcache) (c : CliqueState) : CliqueState := mkCliqueState (signatures c) x (DB c) (proposals c) (c_signer c) (signFn c).
Definition with_DB (x : snapdb) (c : CliqueState) : CliqueState := mkCliqueState (signatures c) (recents c) x (proposals c) (c_signer c) (signFn c).
Definition with_proposals (x : gmap Z bool) (c : CliqueState) : CliqueState := mkCliqueState (signatures c) (recents c) (DB c) x (c_signer c) (signFn c).

(** A computation on the cache of signatures. *)
Definition on_signatures {A} (m : M sigcache A) : M CliqueState A := fun c =>
  match m (signatures c) with Val (a, x) => Val (a, with_signatures x c) | Panic e => Panic e | OutOfFuel => OutOfFuel end.

Definition recents_Get (hash : Z) : M CliqueState (option Snapshot) := fun c =>
  let '(r, x) := snap_Get hash (recents c) in Val (r, with_recents x c).
Definition recents_Add (hash : Z) (s : Snapshot) : M CliqueState () := modify (fun c => with_recents (snap_Add hash s (recents c)) c).

Definition loadSnapshot (config : CliqueConfig) (num hash : Z) : M CliqueState (option Snapshot) := gets (fun c => with_config config <$> db_Get num hash (DB c)).
Definition store (s : Snapshot) : M CliqueState (option Error) := fun c =>
  match db_Put (sn_Number s) (sn_Hash s) s (DB c) with inl err => Val (Some err, c) | inr db => Val (None, with_DB db c) end.

Definition Authorize (signer : Z) (sign : Z -> bytes -> Error + bytes) (c : CliqueState) : CliqueState := mkCliqueState (signatures c) (recents c) (DB c) (proposals c) signer sign.
Definition Propose (address : Z) (auth : bool) (c : CliqueState) : CliqueState := with_proposals (<[address := auth]> (proposals c)) c.
Definition Discard (address : Z) (c : CliqueState) : CliqueState := with_proposals (delete address (proposals c)) c.

(** The signers of a checkpoint, from its extra data. *)
Definition checkpoint_signers (checkpoint : BlkHeader) : Res (list Z) :=
  let n := Z.quot (zlen (b_Extra checkpoint) - ExtraVanity - ExtraSeal) 20 in
  if n <? 0 then Panic "makeslice: len out of range" else mret (extra_signers (Z.to_nat n) (drop (Z.to_nat ExtraVanity) (b_Extra checkpoint))).

Context (chain_ : ChainReader) (eng : Engine).

(** "consider the checkpoint trusted and snapshot it". *)
Definition trusted_checkpoint (number : Z) (headers : list BlkHeader) : Res (option BlkHeader) :=
  m ← (if number =? 0 then mret 0 else go_mod number (Epoch (e_config eng)));
  mret (if (number =? 0) || ((m =? 0) && ((FullImmutabilityThreshold <? zlen headers) || bool_decide (GetHeaderByNumber chain_ (u64 (number - 1)) = None)))
        then GetHeaderByNumber chain_ number else None).

(** The header to move back over, and the parents left: the last explicit parent, or the
    one in the database. *)
Definition pick_header (number hash : Z) (parents : list BlkHeader) : Res (Error + BlkHeader * list BlkHeader) :=
  match last parents with
  | Some header =>
      h ← h_Hash header;
      n ← (if h =? hash then number_of header else mret 0);
      mret (if negb (h =? hash) || negb (n =? number) then inl ErrUnknownAncestor else inr (header, take (length parents - 1) parents))
  | None => mret (match GetHeader chain_ hash number with None => inl ErrUnknownAncestor | Some header => inr (header, []) end)
  end.

(** The loop of [Snapshot]: back from a block to one whose snapshot is known. *)
Fixpoint gather (fuel : nat) (number hash : Z) (parents headers : list BlkHeader) : M CliqueState (Error + Snapshot * list BlkHeader) :=
  match fuel with
  | O => fun _ => OutOfFuel
  | S fuel =>
      cached ← recents_Get hash;
      match cached with
      | Some s => mret (inr (s, headers))
      | None =>
          c ← lift (go_mod number (CheckpointInterval eng));
          loaded ← (if c =? 0 then loadSnapshot (e_config eng) number hash else mret None);
          match loaded with
          | Some s => mret (inr (s, headers))
          | None =>
              trusted ← lift (trusted_checkpoint number headers);
              match trusted with
              | Some checkpoint =>
                  h ← lift (h_Hash checkpoint);
                  signers ← lift (checkpoint_signers checkpoint);
                  let snap := newSnapshot (e_config eng) number h signers in
                  err ← store snap;
                  match err with
                  | Some e => mret (inl e)
                  | None => mret (inr (snap, headers))
                  end
              | None =>
                  picked ← lift (pick_header number hash parents);
                  match picked with
                  | inl e => mret (inl e)
                  | inr (header, parents) => gather fuel (u64 (number - 1)) (b_ParentHash header) parents (headers ++ [header])
                  end
              end
          end
      end
  end.

Definition Snapshot_ (fuel : nat) (number hash : Z) (parents : list BlkHeader) : M CliqueState (Error + Snapshot) :=
  g ← gather fuel number hash parents [];
  match g with
  | inl err => mret (inl err)
  | inr (snap, headers) =>
      r ← on_signatures (sn_apply snap (rev headers));
      match r with
      | inl err => mret (inl err)
      | inr snap =>
          _ ← recents_Add (sn_Hash snap) snap;
          c ← lift (go_mod (sn_Number snap) (CheckpointInterval eng));
          err ← (if (c =? 0) && (0 <? zlen headers) then store snap else mret None);
          match err with
          | Some e => mret (inl e)
          | None => mret (inr snap)
          end
      end
  end.

(** ** Headers *)

Definition verifyCascadingFields (fuel : nat) (header : BlkHeader) (parents : list BlkHeader) : M CliqueState (option Error) :=
  number ← lift (number_of header);
  if number =? 0 then mret None
  else
    match (match last parents with Some p => Some p | None => GetHeader chain_ (b_ParentHash header) (number - 1) end) with
    | None => mret (Some ErrUnknownAncestor)
    | Some parent =>
        n ← lift (number_of parent);
        h ← lift (if n =? number - 1 then h_Hash parent else mret 0);
        if negb (n =? number - 1) || negb (h =? b_ParentHash header) then mret (Some ErrUnknownAncestor)
        else
          err ← lift (verify_parent (cr_Config chain_) (e_config eng) header parent);
          match err with
          | Some e => mret (Some e)
          | None =>
              r ← Snapshot_ fuel (number - 1) (b_ParentHash header) parents;
              match r with
              | inl e => mret (Some e)
              | inr snap =>
                  err ← lift (verify_checkpoint (e_config eng) header snap);
                  match err with
                  | Some e => mret (Some e)
                  | None => on_signatures (verifySeal (FakeDiff eng) header snap)
                  end
              end
          end
    end.

Definition verifyHeader (fuel : nat) (now : Z) (header : BlkHeader) (parents : list BlkHeader) : M CliqueState (option Error) :=
  err ← lift (verify_standalone (e_config eng) now header);
  match err with
  | Some e => mret (Some e)
  | None => verifyCascadingFields fuel header parents
  end.
Definition VerifyHeader (fuel : nat) (now : Z) (header : BlkHeader) : M CliqueState (option Error) := verifyHeader fuel now header [].

Definition VerifyUncles (uncles : list BlkHeader) : option Error := if 0 <? zlen uncles then Some (NewError "uncles not allowed") else None.

Definition VerifySeal (fuel : nat) (header : BlkHeader) : M CliqueState (option Error) :=
  n ← lift (number_of header);
  h ← lift (h_Hash header);
  r ← Snapshot_ fuel n h [];
  match r with
  | inl e => mret (Some e)
  | inr snap => on_signatures (verifySeal (FakeDiff eng) header snap)
  end.

(** ** Sealing *)

(** The proposals that make sense; one is picked at random, the [i]-th. *)
Definition prepare_vote (props : gmap Z bool) (i : nat) (snap : Snapshot) : Res (Z * bytes) :=
  let addresses : list (Z * bool) := filter (fun kv => validVote kv.1 kv.2 snap = true) (map_to_list props) in
  match addresses with
  | [] => mret (0, nonceDropVote)
  | _ =>
      match (addresses !! i : option (Z * bool)) with
      | None => Panic "index out of range"
      | Some (address, authorize) => mret (address, if authorize then NonceAuthVote else nonceDropVote)
      end
  end.

Definition prepare_extra (checkpoint : bool) (extra : bytes) (snap : Snapshot) : bytes :=
  let extra := if zlen extra <? ExtraVanity then extra ++ replicate (Z.to_nat (ExtraVanity - zlen extra)) x00 else extra in
  let extra := take (Z.to_nat ExtraVanity) extra in
  (if checkpoint then extra ++ signers_bytes snap else extra) ++ replicate (Z.to_nat ExtraSeal) x00.

Definition with_prepared (h : BlkHeader) (coinbase : Z) (nonce : bytes) (difficulty : Z) (extra : bytes) (time : Z) : BlkHeader :=
  mkBlk (b_ParentHash h) (b_UncleHash h) coinbase (b_Root h) (b_TxHash h) (b_ReceiptHash h) (b_Bloom h) (Some difficulty) (b_Number h) (b_GasLimit h) (b_GasUsed h) time
    extra 0 nonce (b_AuRaStep h) (b_AuRaSeal h) (b_BaseFee h) (b_WithdrawalsHash h) (b_BlobGasUsed h) (b_ExcessBlobGas h) (b_ParentBeaconBlockRoot h) (b_RequestsHash h).

Definition Prepare (fuel : nat) (i : nat) (now : Z) (header : BlkHeader) : M CliqueState (Error + BlkHeader) :=
  number ← lift (number_of header);
  r ← Snapshot_ fuel (u64 (number - 1)) (b_ParentHash header) [];
  match r with
  | inl e => mret (inl e)
  | inr snap =>
      m ← lift (go_mod number (Epoch (e_config eng)));
      let checkpoint := m =? 0 in
      props ← gets proposals;
      '(coinbase, nonce) ← lift (if negb checkpoint then prepare_vote props i snap else mret (0, nonceDropVote));
      signer ← gets c_signer;
      difficulty ← lift (calcDifficulty snap signer);
      let extra := prepare_extra checkpoint (b_Extra header) snap in
      match GetHeader chain_ (b_ParentHash header) (u64 (number - 1)) with
      | None => mret (inl ErrUnknownAncestor)
      | Some parent =>
          let time := u64 (b_Time parent + Period (e_config eng)) in
          let time := if time <? u64 now then u64 now else time in
          mret (inr (with_prepared header coinbase nonce difficulty extra time))
      end
  end.

(** What [Seal] decides: an error, to pause for want of transactions (a nil result is sent),
    to wait for other signers, or the header with its seal. *)
Inductive SealResult : Type := SealError (e : Error) | SealPaused | SealWait | SealHeader (h : BlkHeader).

Definition with_extra (extra : bytes) (h : BlkHeader) : BlkHeader :=
  mkBlk (b_ParentHash h) (b_UncleHash h) (b_Coinbase h) (b_Root h) (b_TxHash h) (b_ReceiptHash h) (b_Bloom h) (b_Difficulty h) (b_Number h) (b_GasLimit h) (b_GasUsed h) (b_Time h)
    extra (b_MixDigest h) (b_Nonce h) (b_AuRaStep h) (b_AuRaSeal h) (b_BaseFee h) (b_WithdrawalsHash h) (b_BlobGasUsed h) (b_ExcessBlobGas h) (b_ParentBeaconBlockRoot h) (b_RequestsHash h).

Definition Seal (fuel : nat) (emptyBlock : bool) (header : BlkHeader) : M CliqueState SealResult :=
  number ← lift (number_of header);
  if number =? 0 then mret (SealError errUnknownBlock)
  else if (Period (e_config eng) =? 0) && emptyBlock then mret SealPaused
  else
    signer ← gets c_signer;
    sign ← gets signFn;
    r ← Snapshot_ fuel (number - 1) (b_ParentHash header) [];
    match r with
    | inl e => mret (SealError e)
    | inr snap =>
        if negb (bool_decide (signer ∈ Signers snap)) then mret (SealError (ErrorfW ErrUnauthorizedSigner "Clique.Seal"))
        else if existsb (fun kv => (kv.2 =? signer) && ((number <? limit snap) || (u64 (number - limit snap) <? kv.1))) (map_to_list (Recents snap)) then mret SealWait
        else
          d ← lift (nonnil (b_Difficulty header));
          message ← lift (CliqueRLP header);
          match sign signer message with
          | inl err => mret (SealError err)
          | inr sighash =>
              let at_ := zlen (b_Extra header) - ExtraSeal in
              if at_ <? 0 then gopanic "slice bounds out of range"
              else mret (SealHeader (with_extra (splice (b_Extra header) at_ (take (Z.to_nat ExtraSeal) sighash)) header))
          end
    end.

Definition CalcDifficulty (fuel : nat) (parentNumber parentHash : Z) : M CliqueState (option Z) :=
  r ← Snapshot_ fuel parentNumber parentHash [];
  match r with
  | inl _ => mret None
  | inr snap => signer ← gets c_signer; d ← lift (calcDifficulty snap signer); mret (Some d)
  end.
End Clique.
