(* ===== verification/CliqueSpec.v ===== *)
(** * Clique: what the snapshots keep

    The voting of the signers, against a machine that has only the set of signers and the
    set of pending ballots: the list of votes and the cached tally of the snapshot stay in
    step with it. The recent signers: nobody signs twice within the window, and more than
    half of the signers may always sign next. *)

From stdpp Require Import gmap sorting.
From S2P Require Import Prelude Uint256 Errors Machine ChainConfig FeeMarket Authorization Rlp RlpSpec RlpWriter HeaderRlp Consensus Clique.

(** ** Votes and tallies *)

Definition count (a : Z) (votes : list Vote) : Z := zlen (filter (fun v => v_Address v = a) votes).

(** The tally is the count of the votes, all of which on [a] ask for [f a]. *)
Definition tallied (f : Z -> bool) (votes : list Vote) (t : gmap Z Tally) : Prop :=
  (forall v, v ∈ votes -> v_Authorize v = f (v_Address v)) /\
  forall a, t !! a = if count a votes =? 0 then None else Some (mkTally (f a) (count a votes)).

Lemma count_cons a v votes : count a (v :: votes) = (if decide (v_Address v = a) then 1 else 0) + count a votes.
Proof. unfold count. rewrite filter_cons. destruct (decide (v_Address v = a)); [apply zlen_cons|lia]. Qed.
Lemma count_app a l k : count a (l ++ k) = count a l + count a k.
Proof. unfold count. by rewrite filter_app, zlen_app. Qed.
Lemma count_nonneg a votes : 0 <= count a votes.
Proof. apply zlen_nonneg. Qed.
#[local] Hint Resolve count_nonneg : core.

Lemma count_perm a l k : Permutation l k -> count a l = count a k.
Proof. intros H. unfold count, zlen. by rewrite H. Qed.

Lemma tallied_perm f l k t : Permutation l k -> tallied f l t -> tallied f k t.
Proof. intros H [H1 H2]. split; [intros v Hv; apply H1; by rewrite H|]. intros a. by rewrite <- (count_perm a l k H). Qed.

Lemma uncast_rest address authorize s : let s' := (uncast address authorize s).2 in
  s' = with_Tally (sn_Tally s') s.
Proof. unfold uncast. destruct s as [cfg n h sg rc vt tl]. cbn. destruct (tl !! address) as [t|]; [|reflexivity]. destruct (negb _); [reflexivity|]. by destruct (1 <? _). Qed.

(** Uncasting a vote that was counted. *)
Lemma uncast_tallied f v rest s : tallied f (v :: rest) (sn_Tally s) -> tallied f rest (sn_Tally (uncast (v_Address v) (v_Authorize v) s).2).
Proof.
  intros [H1 H2]. split; [intros w Hw; apply H1; by constructor|]. intros a. unfold uncast. rewrite H2, count_cons, decide_True by reflexivity. pose proof (count_nonneg (v_Address v) rest).
  destruct (Z.eqb_spec (1 + count (v_Address v) rest) 0); [lia|]. cbn [t_Authorize t_Votes]. rewrite (H1 v) by constructor. rewrite eqb_reflx. cbn [negb].
  destruct (Z.ltb_spec 1 (1 + count (v_Address v) rest)); cbn [snd sn_Tally with_Tally]; (destruct (decide (a = v_Address v)) as [->|Hne]; [rewrite ?lookup_insert_eq, ?lookup_delete_eq|rewrite ?lookup_insert_ne, ?lookup_delete_ne by congruence]).
  - destruct (Z.eqb_spec (count (v_Address v) rest) 0); [lia|]. f_equal. f_equal. lia.
  - by rewrite H2, count_cons, decide_False by congruence.
  - destruct (Z.eqb_spec (count (v_Address v) rest) 0); [reflexivity|lia].
  - by rewrite H2, count_cons, decide_False by congruence.
Qed.

(** Casting a vote. *)
Lemma cast_tallied f votes address authorize s signer number : tallied f votes (sn_Tally s) -> validVote address authorize s = true -> f address = authorize ->
  let '(counted, s') := cast address authorize s in counted = true /\ s' = with_Tally (sn_Tally s') s /\ tallied f (votes ++ [mkVote signer number address authorize]) (sn_Tally s').
Proof.
  intros [H1 H2] Hv Hf. unfold cast. rewrite Hv. cbn [negb]. rewrite H2. assert (Hin : forall v, v ∈ votes ++ [mkVote signer number address authorize] -> v_Authorize v = f (v_Address v)).
  { intros v. rewrite elem_of_app, list_elem_of_singleton. intros [Hin| ->]; [by apply H1|]. cbn. congruence. }
  pose proof (count_nonneg address votes).
  destruct (Z.eqb_spec (count address votes) 0); (split; [reflexivity|]); (split; [reflexivity|]); (split; [exact Hin|]); intros a; cbn [sn_Tally with_Tally t_Authorize t_Votes];
    rewrite count_app, (count_cons a _ []); cbn [v_Address]; change (count a []) with 0; (destruct (decide (address = a)) as [<-|Hne]; [rewrite lookup_insert_eq|rewrite lookup_insert_ne, H2 by congruence; rewrite ?Z.add_0_r; reflexivity]).
  - destruct (Z.eqb_spec (count address votes + (1 + 0)) 0); [lia|]. rewrite Hf, e. reflexivity.
  - destruct (Z.eqb_spec (count address votes + (1 + 0)) 0); [lia|]. reflexivity.
Qed.

(** The pair of a vote: who on whom. *)
Definition pair_of (v : Vote) : Z * Z := (v_Signer v, v_Address v).
Definition is_on (signer address : Z) (v : Vote) : Prop := v_Signer v = signer /\ v_Address v = address.
#[local] Instance is_on_dec signer address v : Decision (is_on signer address v).
Proof. unfold is_on. apply _. Defined.

Lemma discard_loop_exact f signer address s : forall votes seen, Votes s = seen ++ votes -> tallied f (seen ++ votes) (sn_Tally s) -> NoDup (map pair_of (seen ++ votes)) ->
  let s' := discard_loop seen votes signer address s in
  s' = with_Votes (Votes s') (with_Tally (sn_Tally s') s) /\ Votes s' = seen ++ filter (fun v => ~ is_on signer address v) votes /\ tallied f (Votes s') (sn_Tally s').
Proof.
  induction votes as [|v votes IH]; intros seen HV HT HN; cbn [discard_loop].
  - rewrite HV, !app_nil_r in *. split; [destruct s; cbn in *; by subst|]. auto.
  - rewrite filter_cons. destruct ((v_Signer v =? signer) && (v_Address v =? address)) eqn:Em.
    + apply andb_true_iff in Em as [E1 E2]. apply Z.eqb_eq in E1, E2. rewrite decide_False by (intros Hn; apply Hn; split; assumption). cbn zeta.
      assert (Hrest : filter (fun w => ~ is_on signer address w) votes = votes).
      { apply filter_all. apply Forall_forall. intros w Hw [H1 H2]. rewrite map_app in HN. apply NoDup_app in HN as (_ & _ & HN). cbn [map] in HN. apply NoDup_cons in HN as [HN _]. apply HN. replace (pair_of v) with (pair_of w) by (unfold pair_of; congruence). by apply list_elem_of_fmap_2. }
      rewrite Hrest. pose proof (uncast_rest (v_Address v) (v_Authorize v) s) as HU. pose proof (uncast_tallied f v (seen ++ votes) s) as HC. set (s1 := (uncast (v_Address v) (v_Authorize v) s).2) in *. cbn zeta in HU.
      split; [rewrite HU; reflexivity|]. split; [reflexivity|]. cbn. apply HC. eapply tallied_perm; [|exact HT]. symmetry. apply Permutation_middle.
    + rewrite decide_True by (intros [H1 H2]; rewrite H1, H2, !Z.eqb_refl in Em; discriminate). replace (seen ++ v :: votes) with ((seen ++ [v]) ++ votes) in * by (by rewrite <- app_assoc).
      destruct (IH (seen ++ [v]) HV HT HN) as (H1 & H2 & H3). split; [exact H1|]. split; [|exact H3]. rewrite H2. by rewrite <- app_assoc.
Qed.

Lemma drop_cast_by_exact f who : forall votes seen s, tallied f (seen ++ votes) (sn_Tally s) ->
  let '(kept, s') := drop_cast_by votes who s in kept = filter (fun v => v_Signer v <> who) votes /\ s' = with_Tally (sn_Tally s') s /\ tallied f (seen ++ kept) (sn_Tally s').
Proof.
  induction votes as [|v votes IH]; intros seen s HT; cbn [drop_cast_by]; [split; [reflexivity|]; split; [by destruct s|exact HT]|].
  rewrite filter_cons. destruct (Z.eqb_spec (v_Signer v) who) as [Ew|Hne].
  - rewrite decide_False by (intros H; by apply H). pose proof (uncast_rest (v_Address v) (v_Authorize v) s) as HU. pose proof (uncast_tallied f v (seen ++ votes) s) as HC. set (s1 := (uncast (v_Address v) (v_Authorize v) s).2) in *. cbn zeta in HU.
    specialize (IH seen s1). destruct (drop_cast_by votes who s1) as [kept s']. destruct IH as (H1 & H2 & H3); [apply HC; eapply tallied_perm; [|exact HT]; symmetry; apply Permutation_middle|].
    split; [exact H1|]. split; [rewrite H2; rewrite HU; reflexivity|exact H3].
  - rewrite decide_True by exact Hne. specialize (IH (seen ++ [v]) s). destruct (drop_cast_by votes who s) as [kept s']. destruct IH as (H1 & H2 & H3); [by rewrite <- app_assoc|]. split; [by rewrite H1|]. split; [exact H2|]. by rewrite <- app_assoc in H3.
Qed.

(** ** Voting *)

(** What a vote on [a] can ask for. *)
Definition wants (signers : gset Z) (a : Z) : bool := negb (bool_decide (a ∈ signers)).

Record voting_ok (s : Snapshot) : Prop := mkVotingOk {
  vo_tally : tallied (wants (Signers s)) (Votes s) (sn_Tally s);
  vo_nodup : NoDup (map pair_of (Votes s));
  vo_signers : forall v, v ∈ Votes s -> v_Signer v ∈ Signers s
}.

(** The signers and the pending ballots, who on whom: a ballot on a signer asks for its
    removal, on another account for its admission. *)
Record Authority : Type := mkAuthority { au_signers : gset Z; au_ballots : gset (Z * Z) }.

Definition au_count (a : Z) (b : gset (Z * Z)) : Z := Z.of_nat (size (filter (fun p => p.2 = a) b)).

(** A signer's vote on [coinbase]: it replaces its earlier ballot, and a ballot of more than
    half of the signers is carried out. *)
Definition au_vote (signer coinbase : Z) (authorize : bool) (x : Authority) : Authority :=
  let member := bool_decide (coinbase ∈ au_signers x) in
  let b := au_ballots x ∖ {[(signer, coinbase)]} in
  let b := if xorb member authorize then {[(signer, coinbase)]} ∪ b else b in
  if Z.of_nat (size (au_signers x)) / 2 <? au_count coinbase b then
    if member then mkAuthority (au_signers x ∖ {[coinbase]}) (filter (fun p => p.1 <> coinbase /\ p.2 <> coinbase) b)
    else mkAuthority ({[coinbase]} ∪ au_signers x) (filter (fun p => p.2 <> coinbase) b)
  else mkAuthority (au_signers x) b.

Definition ballots (votes : list Vote) : gset (Z * Z) := list_to_set (map pair_of votes).
Definition authority (s : Snapshot) : Authority := mkAuthority (Signers s) (ballots (Votes s)).

Lemma elem_of_ballots p votes : p ∈ ballots votes <-> exists v, v ∈ votes /\ p = pair_of v.
Proof. unfold ballots. rewrite elem_of_list_to_set, list_elem_of_fmap. firstorder. Qed.

Lemma ballots_filter (P : Vote -> Prop) (Q : Z * Z -> Prop) `{!forall v, Decision (P v), !forall p, Decision (Q p)} votes :
  (forall v, P v <-> Q (pair_of v)) -> ballots (filter P votes) = filter Q (ballots votes).
Proof.
  intros HPQ. apply set_eq. intros p. rewrite elem_of_filter, !elem_of_ballots. setoid_rewrite list_elem_of_filter. split.
  - intros (v & [HP Hv] & ->). split; [by apply HPQ|eauto].
  - intros [HQ (v & Hv & ->)]. exists v. rewrite HPQ. auto.
Qed.

Lemma NoDup_filter_map {A B} (g : A -> B) (P : A -> Prop) `{!forall x, Decision (P x)} l : NoDup (map g l) -> NoDup (map g (filter P l)).
Proof.
  induction l as [|x l IH]; [done|]. cbn [map]. rewrite NoDup_cons, filter_cons. intros [Hn Hd]. destruct (decide (P x)); [|auto]. cbn [map]. apply NoDup_cons. split; [|auto].
  intros Hin. apply Hn. apply list_elem_of_fmap in Hin as (y & -> & Hy). apply list_elem_of_filter in Hy as [_ Hy]. by apply list_elem_of_fmap_2.
Qed.

Lemma count_ballots a votes : NoDup (map pair_of votes) -> au_count a (ballots votes) = count a votes.
Proof.
  intros Hd. unfold au_count, count. rewrite <- (ballots_filter (fun v => v_Address v = a) (fun p => p.2 = a)) by done. unfold ballots. rewrite size_list_to_set by (by apply NoDup_filter_map).
  unfold zlen. by rewrite length_map.
Qed.

(** The votes on an account are settled. *)
Lemma tallied_filter f f' votes t c : tallied f votes t -> (forall a, a <> c -> f' a = f a) -> tallied f' (filter (fun v => v_Address v <> c) votes) (delete c t).
Proof.
  intros [H1 H2] Hf. split.
  - intros v [Hc Hv]%list_elem_of_filter. rewrite Hf by exact Hc. by apply H1.
  - intros a. assert (E : count a (filter (fun v => v_Address v <> c) votes) = if decide (a = c) then 0 else count a votes).
    { clear H1 H2. induction votes as [|v votes IH]; [by destruct (decide (a = c))|]. rewrite filter_cons, count_cons. destruct (decide (v_Address v <> c)) as [Hv|Hv]; [rewrite count_cons|]; rewrite IH; repeat case_decide; congruence || lia. }
    rewrite E. destruct (decide (a = c)) as [->|Hne]; [by rewrite lookup_delete_eq|]. rewrite lookup_delete_ne, H2, Hf by congruence. reflexivity.
Qed.

Lemma wants_remove signers c a : a <> c -> wants (signers ∖ {[c]}) a = wants signers a.
Proof. intros H. unfold wants. f_equal. apply bool_decide_ext. set_solver. Qed.
Lemma wants_add signers c a : a <> c -> wants ({[c]} ∪ signers) a = wants signers a.
Proof. intros H. unfold wants. f_equal. apply bool_decide_ext. set_solver. Qed.

Lemma expire_rest number s : expire number s = with_Recents (Recents (expire number s)) s.
Proof. unfold expire. destruct (limit s <=? number); [reflexivity|]. by destruct s. Qed.

Lemma settle_vote_exact number c s : voting_ok s ->
  let s' := settle_vote number c s in
  voting_ok s' /\ authority s' = (if Z.of_nat (size (Signers s)) / 2 <? count c (Votes s) then
    if bool_decide (c ∈ Signers s) then mkAuthority (Signers s ∖ {[c]}) (filter (fun p => p.1 <> c /\ p.2 <> c) (ballots (Votes s)))
    else mkAuthority ({[c]} ∪ Signers s) (filter (fun p => p.2 <> c) (ballots (Votes s)))
  else authority s).
Proof.
  intros [HT HN HS]. unfold settle_vote. pose proof HT as [H1 H2]. rewrite H2. pose proof (count_nonneg c (Votes s)).
  assert (Hh : 0 <= Z.of_nat (size (Signers s)) / 2) by (apply Z.div_pos; lia). cbv zeta.
  destruct (Z.eqb_spec (count c (Votes s)) 0) as [E0|E0]; unfold default; cbn [t_Votes t_Authorize id].
  { rewrite E0. destruct (Z.ltb_spec (Z.of_nat (size (Signers s)) / 2) 0); [lia|]. split; [exact (mkVotingOk s HT HN HS)|reflexivity]. }
  destruct (Z.ltb_spec (Z.of_nat (size (Signers s)) / 2) (count c (Votes s))) as [Hp|]; [|split; [exact (mkVotingOk s HT HN HS)|reflexivity]].
  change (wants (Signers s) c) with (negb (bool_decide (c ∈ Signers s))). destruct (bool_decide_reflect (c ∈ Signers s)) as [Hc|Hc]; cbn [negb].
  - set (s1 := expire number (with_Signers (Signers s ∖ {[c]}) s)). assert (E1 : s1 = with_Recents (Recents s1) (with_Signers (Signers s ∖ {[c]}) s)) by apply expire_rest.
    assert (HV : Votes s1 = Votes s) by (by rewrite E1). assert (HTl : sn_Tally s1 = sn_Tally s) by (by rewrite E1). assert (HSg : Signers s1 = Signers s ∖ {[c]}) by (by rewrite E1). clearbody s1.
    pose proof (drop_cast_by_exact (wants (Signers s)) c (Votes s1) [] s1) as HD. destruct (drop_cast_by (Votes s1) c s1) as [kept s2]. rewrite HTl, HV in HD. destruct (HD HT) as (-> & E2 & HT2). cbn [app] in HT2.
    assert (HF : filter (fun v => v_Address v <> c) (filter (fun v => v_Signer v <> c) (Votes s)) = filter (fun v => v_Signer v <> c /\ v_Address v <> c) (Votes s)).
    { rewrite list_filter_filter. apply list_filter_iff. intros v. tauto. }
    cbn [Votes with_Votes sn_Tally with_Tally]. split.
    + constructor; cbn [Signers Votes sn_Tally with_Votes with_Tally].
      * rewrite E2. cbn [Signers with_Tally]. rewrite HSg. apply (tallied_filter (wants (Signers s))); [exact HT2|]. intros a Ha. by apply wants_remove.
      * rewrite HF. by apply NoDup_filter_map.
      * intros v. rewrite HF, list_elem_of_filter. intros [[Hv1 Hv2] Hv]. rewrite E2. cbn [Signers with_Tally]. rewrite HSg. apply HS in Hv. set_solver.
    + unfold authority. cbn [Signers Votes with_Votes with_Tally]. rewrite HF, E2. cbn [Signers with_Tally]. rewrite HSg. f_equal. apply ballots_filter. done.
  - cbn [Votes with_Votes sn_Tally with_Tally with_Signers Signers]. split.
    + constructor; cbn [Signers Votes sn_Tally with_Votes with_Tally with_Signers].
      * apply (tallied_filter (wants (Signers s))); [exact HT|]. intros a Ha. by apply wants_add.
      * by apply NoDup_filter_map.
      * intros v. rewrite list_elem_of_filter. intros [Hv1 Hv]. apply HS in Hv. set_solver.
    + unfold authority. cbn [Signers Votes with_Votes with_Tally with_Signers]. f_equal. apply ballots_filter. done.
Qed.

Lemma xor_valid c authorize s : validVote c authorize s = xorb (bool_decide (c ∈ Signers s)) authorize.
Proof. unfold validVote. by destruct (bool_decide (c ∈ Signers s)), authorize. Qed.

Lemma ballots_remove signer c votes : ballots (filter (fun v => ~ is_on signer c v) votes) = ballots votes ∖ {[(signer, c)]}.
Proof.
  rewrite (ballots_filter _ (fun p => p <> (signer, c))); [|intros v; unfold is_on, pair_of; split; [intros H [= ? ?]; tauto|intros H [E1 E2]; apply H; congruence]].
  apply set_eq. intros p. rewrite elem_of_filter, elem_of_difference, elem_of_singleton. tauto.
Qed.

(** The snapshot just before a vote is settled: the signer's earlier ballot is replaced. *)
Lemma count_vote_split number signer c nonce s : voting_ok s -> signer ∈ Signers s ->
  match vote_of nonce with
  | Some authorize => exists s', count_vote number signer c nonce s = inr (settle_vote number c s') /\ voting_ok s' /\
      (sn_config s', sn_Number s', sn_Hash s', Signers s') = (sn_config s, sn_Number s, sn_Hash s, Signers s) /\ Recents s' = <[number := signer]> (Recents s) /\
      ballots (Votes s') = (if xorb (bool_decide (c ∈ Signers s)) authorize then {[(signer, c)]} ∪ (ballots (Votes s) ∖ {[(signer, c)]}) else ballots (Votes s) ∖ {[(signer, c)]})
  | None => count_vote number signer c nonce s = inl errInvalidVote
  end.
Proof.
  intros [HT HN HS] Hs. unfold count_vote. set (s0 := with_Recents _ s). pose proof (discard_loop_exact (wants (Signers s)) signer c s0 (Votes s0) [] eq_refl HT HN) as HD. cbn zeta in HD. cbn [app] in HD.
  set (s1 := discard_loop [] (Votes s0) signer c s0) in *. destruct HD as (E1 & EV & HT1). change (Votes s0) with (Votes s) in EV. clearbody s1. assert (HSg : Signers s1 = Signers s) by (by rewrite E1).
  destruct (vote_of nonce) as [authorize|]; [|reflexivity]. assert (Hn1 : NoDup (map pair_of (Votes s1))) by (rewrite EV; by apply NoDup_filter_map).
  assert (HS1 : forall v, v ∈ Votes s1 -> v_Signer v ∈ Signers s) by (intros v; rewrite EV; intros [_ Hv]%list_elem_of_filter; by apply HS).
  rewrite <- (ballots_remove signer c (Votes s)), <- EV. destruct (validVote c authorize s1) eqn:Ev.
  - pose proof (cast_tallied (wants (Signers s)) (Votes s1) c authorize s1 signer number HT1 Ev) as HC. rewrite xor_valid, HSg in Ev.
    assert (Hw : wants (Signers s) c = authorize) by (unfold wants; by destruct (bool_decide (c ∈ Signers s)), authorize). specialize (HC Hw). rewrite Ev. destruct (cast c authorize s1) as [counted s2]. destruct HC as (-> & E2 & HT2).
    eexists. split; [reflexivity|]. set (s3 := with_Votes _ s2). assert (HSg3 : Signers s3 = Signers s) by (unfold s3; rewrite E2; cbn; exact HSg). assert (HV2 : Votes s2 = Votes s1) by (by rewrite E2).
    assert (HV3 : Votes s3 = Votes s1 ++ [mkVote signer number c authorize]) by (unfold s3; cbn; by rewrite HV2).
    split; [constructor; rewrite ?HSg3, ?HV3; [exact HT2| |]|].
    + rewrite map_app. cbn [map]. apply NoDup_app. split; [exact Hn1|]. split; [|apply NoDup_singleton]. intros p Hp Hq. apply list_elem_of_singleton in Hq. subst p. apply list_elem_of_fmap in Hp as (v & Ev2 & Hv). rewrite EV in Hv. apply list_elem_of_filter in Hv as [Hv _]. apply Hv. unfold pair_of in Ev2. cbn in Ev2. injection Ev2 as E3 E4. split; congruence.
    + intros v. rewrite elem_of_app, list_elem_of_singleton. intros [Hv| ->]; [by apply HS1|exact Hs].
    + split; [unfold s3; rewrite E2, E1; reflexivity|]. split; [unfold s3; rewrite E2, E1; reflexivity|]. apply set_eq. intros p. rewrite HV3, elem_of_union, elem_of_singleton, !elem_of_ballots. setoid_rewrite elem_of_app. setoid_rewrite list_elem_of_singleton.
      split; [intros (v & [Hv| ->] & ->); [right; eauto|left; reflexivity]|]. intros [->|(v & Hv & ->)]; [exists (mkVote signer number c authorize); split; [by right|reflexivity]|eauto].
  - unfold cast. rewrite Ev. cbn [negb]. rewrite xor_valid, HSg in Ev. rewrite Ev. exists s1. split; [reflexivity|]. split; [constructor; rewrite ?HSg; assumption|]. split; [by rewrite E1|]. split; [by rewrite E1|reflexivity].
Qed.

(** The vote of an authorised signer is counted as the machine of ballots counts it. *)
Lemma count_vote_exact number signer c nonce s : voting_ok s -> signer ∈ Signers s ->
  match vote_of nonce with
  | Some authorize => exists s', count_vote number signer c nonce s = inr s' /\ voting_ok s' /\ authority s' = au_vote signer c authorize (authority s)
  | None => count_vote number signer c nonce s = inl errInvalidVote
  end.
Proof.
  intros Hok Hs. pose proof (count_vote_split number signer c nonce s Hok Hs) as HC. destruct (vote_of nonce) as [authorize|]; [|exact HC]. destruct HC as (s3 & -> & Hok3 & [= _ _ _ HSg] & _ & Hb).
  eexists. split; [reflexivity|]. destruct (settle_vote_exact number c s3 Hok3) as [H1 H2]. split; [exact H1|]. rewrite H2, HSg, <- (count_ballots c (Votes s3)) by apply Hok3.
  unfold au_vote, authority. cbn [au_signers au_ballots]. rewrite Hb, HSg. reflexivity.
Qed.

(** ** Recent signers *)

(** The recent signers signed within the window before block [n], each once. *)
Record recents_in (n : Z) (s : Snapshot) : Prop := mkRecentsIn {
  ri_window : forall k a, Recents s !! k = Some a -> 1 <= k <= n /\ n < k + limit s;
  ri_once : forall k k' a, Recents s !! k = Some a -> Recents s !! k' = Some a -> k = k'
}.

Lemma limit_pos s : 1 <= limit s.
Proof. unfold limit. pose proof (Z.div_pos (Z.of_nat (size (Signers s))) 2). lia. Qed.

(** The window moves on by a block. *)
Lemma expire_recents n s : recents_in n s ->
  (forall k a, Recents (expire (n + 1) s) !! k = Some a -> Recents s !! k = Some a /\ 1 <= k <= n /\ n + 1 < k + limit s) /\
  (forall k a, Recents s !! k = Some a -> n + 1 < k + limit s -> Recents (expire (n + 1) s) !! k = Some a).
Proof.
  intros [H1 H2]. unfold expire. destruct (Z.leb_spec (limit s) (n + 1)); cbn [Recents with_Recents]; split.
  - intros k a. rewrite lookup_delete_Some. intros [Hne Hk]. split; [exact Hk|]. pose proof (H1 k a Hk). lia.
  - intros k a Hk Hl. rewrite lookup_delete_ne by lia. exact Hk.
  - intros k a Hk. split; [exact Hk|]. pose proof (H1 k a Hk). lia.
  - auto.
Qed.

Lemma size_remove (c : Z) (X : gset Z) : (size X - 1 <= size (X ∖ {[c]}) <= size X)%nat.
Proof.
  split; [|apply subseteq_size; set_solver]. destruct (decide (c ∈ X)) as [Hc|Hc]; [rewrite size_difference by set_solver; rewrite size_singleton; lia|].
  replace (X ∖ {[c]}) with X by set_solver. lia.
Qed.

Lemma limit_remove c s : limit s - 1 <= limit (with_Signers (Signers s ∖ {[c]}) s) <= limit s.
Proof.
  unfold limit. cbn [Signers with_Signers]. pose proof (size_remove c (Signers s)) as [H1 H2]. split.
  - assert ((Z.of_nat (size (Signers s)) - 1) / 2 <= Z.of_nat (size (Signers s ∖ {[c]})) / 2) by (apply Z.div_le_mono; lia). assert (Z.of_nat (size (Signers s)) / 2 - 1 <= (Z.of_nat (size (Signers s)) - 1) / 2) by (apply Z.div_le_lower_bound; [lia|]; pose proof (Z.mul_div_le (Z.of_nat (size (Signers s))) 2); lia). lia.
  - assert (Z.of_nat (size (Signers s ∖ {[c]})) / 2 <= Z.of_nat (size (Signers s)) / 2) by (apply Z.div_le_mono; lia). lia.
Qed.

Lemma limit_add c s : limit s <= limit (with_Signers ({[c]} ∪ Signers s) s).
Proof. unfold limit. cbn [Signers with_Signers]. assert (size (Signers s) <= size ({[c]} ∪ Signers s))%nat by (apply subseteq_size; set_solver). assert (Z.of_nat (size (Signers s)) / 2 <= Z.of_nat (size ({[c]} ∪ Signers s)) / 2) by (apply Z.div_le_mono; lia). lia. Qed.

Lemma settle_recents number c s : voting_ok s -> recents_in number s -> recents_in number (settle_vote number c s).
Proof.
  intros Hok [H1 H2]. unfold settle_vote. destruct (_ <? t_Votes _); [|by constructor]. cbv zeta. set (t := default _ _). destruct (t_Authorize t).
  - constructor; cbn [Recents with_Votes with_Tally with_Signers]; [|exact H2]. intros k a Hk. destruct (H1 k a Hk). pose proof (limit_add c s). unfold limit in *. cbn [Signers with_Votes with_Tally with_Signers] in *. lia.
  - set (s0 := with_Signers (Signers s ∖ {[c]}) s). set (s1 := expire number s0). pose proof (drop_cast_by_exact (wants (Signers s)) c (Votes s1) [] s1) as HD. destruct (drop_cast_by (Votes s1) c s1) as [kept s2].
    destruct HD as (_ & E2 & _). { unfold s1. rewrite expire_rest. apply Hok. } pose proof (limit_remove c s) as HL. fold s0 in HL.
    assert (HR : forall k a, Recents s1 !! k = Some a -> Recents s !! k = Some a /\ number < k + limit s0).
    { intros k a. unfold s1, expire. destruct (Z.leb_spec (limit s0) number); cbn [Recents with_Recents].
      - rewrite lookup_delete_Some. change (Recents s0) with (Recents s). intros [Hne Hk]. destruct (H1 k a Hk). split; [exact Hk|lia].
      - change (Recents s0) with (Recents s). intros Hk. destruct (H1 k a Hk). split; [exact Hk|lia]. }
    assert (HS1 : Signers s1 = Signers s0) by (unfold s1; by rewrite expire_rest). clearbody s1. constructor; cbn [Recents with_Votes with_Tally]; rewrite E2; cbn [Recents with_Tally].
    + intros k a Hk. destruct (HR k a Hk) as [Hk' Hl]. destruct (H1 k a Hk'). unfold limit in *. cbn [Signers with_Votes with_Tally]. rewrite HS1. lia.
    + intros k k' a Hk Hk'. apply HR in Hk as [Hk _]. apply HR in Hk' as [Hk' _]. eauto.
Qed.

Lemma check_signer_None signer s : check_signer signer s = None <-> signer ∈ Signers s /\ forall k, Recents s !! k <> Some signer.
Proof.
  unfold check_signer. destruct (bool_decide_reflect (signer ∈ Signers s)) as [Hs|Hs]; cbn [negb]; [|split; [discriminate|tauto]].
  destruct (existsb _ _) eqn:Ee.
  - split; [discriminate|]. intros [_ H]. apply existsb_exists in Ee as ([k a] & Hin & Ea). apply Z.eqb_eq in Ea. cbn in Ea. subst a. exfalso. apply (H k). apply elem_of_map_to_list. by apply list_elem_of_In.
  - split; [|reflexivity]. intros _. split; [exact Hs|]. intros k Hk. apply not_true_iff_false in Ee. apply Ee. apply existsb_exists. exists (k, signer). split; [by apply list_elem_of_In, elem_of_map_to_list|]. apply Z.eqb_refl.
Qed.

Lemma count_vote_recents n signer c nonce s s' : voting_ok s -> 0 <= n -> recents_in n s -> check_signer signer (expire (n + 1) s) = None ->
  count_vote (n + 1) signer c nonce (expire (n + 1) s) = inr s' -> recents_in (n + 1) s'.
Proof.
  intros Hok Hn Hr Hc HE. destruct (expire_recents n s Hr) as [HR1 _]. apply check_signer_None in Hc as [Hs Hnone]. set (s1 := expire (n + 1) s) in *. assert (E1 : s1 = with_Recents (Recents s1) s) by apply expire_rest.
  assert (Hok1 : voting_ok s1) by (rewrite E1; destruct Hok; by constructor). assert (Hl1 : limit s1 = limit s) by (by rewrite E1). pose proof (limit_pos s).
  pose proof (count_vote_split (n + 1) signer c nonce s1 Hok1 Hs) as HC. destruct (vote_of nonce); [|congruence]. destruct HC as (s3 & E3 & Hok3 & [= _ _ _ HSg] & HR3 & _). rewrite E3 in HE. injection HE as <-.
  apply settle_recents; [exact Hok3|]. assert (Hl3 : limit s3 = limit s) by (unfold limit; rewrite HSg; exact Hl1). constructor; rewrite HR3.
  - intros k a. rewrite Hl3. destruct (decide (k = n + 1)) as [->|Hne]; [lia|]. rewrite lookup_insert_ne by congruence. intros Hk. destruct (HR1 k a Hk) as (_ & H1 & H2). lia.
  - intros k k' a. destruct (decide (k = n + 1)) as [->|Hne], (decide (k' = n + 1)) as [->|Hne']; rewrite ?lookup_insert_eq; rewrite ?lookup_insert_ne by congruence; [reflexivity|intros [= <-] Hk; by apply Hnone in Hk|intros Hk [= <-]; by apply Hnone in Hk|].
    intros Hk Hk'. apply HR1 in Hk as [Hk _]. apply HR1 in Hk' as [Hk' _]. by eapply (ri_once _ _ Hr).
Qed.

(** ** Progress *)

Lemma keys_bound {A} (m : gmap Z A) lo len : 0 <= len -> (forall k a, m !! k = Some a -> lo <= k < lo + len) -> Z.of_nat (size m) <= len.
Proof.
  intros Hl H. rewrite <- size_dom. assert (Hsub : dom m ⊆@{gset Z} list_to_set (seqZ lo len)).
  { intros k Hk. apply elem_of_dom in Hk as [a Ha]. apply elem_of_list_to_set, elem_of_seqZ. pose proof (H k a Ha). lia. }
  apply subseteq_size in Hsub. rewrite size_list_to_set in Hsub by apply NoDup_seqZ. rewrite length_seqZ in Hsub. lia.
Qed.

Lemma size_union_le (X Y : gset Z) : (size (X ∪ Y) <= size X + size Y)%nat.
Proof. rewrite size_union_alt. assert (size (Y ∖ X) <= size Y)%nat by (apply subseteq_size; set_solver). lia. Qed.

(** Who may sign block [n]. *)
Definition may_sign (n : Z) (s : Snapshot) : gset Z := filter (fun a => check_signer a (expire n s) = None) (Signers s).

Lemma may_sign_size n s : 0 <= n -> recents_in n s -> Z.of_nat (size (Signers s)) - Z.of_nat (size (Signers s)) / 2 <= Z.of_nat (size (may_sign (n + 1) s)).
Proof.
  intros Hn Hr. destruct (expire_recents n s Hr) as [HR _]. set (s1 := expire (n + 1) s) in *. assert (HS1 : Signers s1 = Signers s) by (unfold s1; by rewrite expire_rest).
  assert (Hrec : Z.of_nat (size (Recents s1)) <= Z.of_nat (size (Signers s)) / 2).
  { apply (keys_bound _ (n + 2 - limit s)); [apply Z.div_pos; lia|]. intros k a Hk. destruct (HR k a Hk) as (_ & H1 & H2). unfold limit in *. lia. }
  set (busy := list_to_set (map snd (map_to_list (Recents s1))) : gset Z). assert (Hb : (size busy <= size (Recents s1))%nat).
  { unfold busy. clear. rewrite <- (length_map_to_list (Recents s1)). induction (map_to_list (Recents s1)) as [|[k a] l IH]; cbn [map list_to_set length snd]; [by rewrite size_empty|].
    pose proof (size_union_le {[a]} (list_to_set (map snd l))) as H. rewrite size_singleton in H. lia. }
  assert (Hsub : Signers s ⊆ may_sign (n + 1) s ∪ busy).
  { intros a Ha. destruct (decide (check_signer a s1 = None)) as [Hc|Hc]; [apply elem_of_union_l; by apply elem_of_filter|]. apply elem_of_union_r. unfold busy. apply elem_of_list_to_set, list_elem_of_fmap.
    destruct (decide (Exists (fun kv => kv.2 = a) (map_to_list (Recents s1)))) as [He|He]; [apply Exists_exists in He as ([k b] & Hin & Eb); exists (k, b); auto|].
    exfalso. apply Hc. apply check_signer_None. rewrite HS1. split; [exact Ha|]. intros k Hk. apply He. apply Exists_exists. exists (k, a). split; [by apply elem_of_map_to_list|reflexivity]. }
  apply subseteq_size in Hsub. pose proof (size_union_le (may_sign (n + 1) s) busy). lia.
Qed.
