(* ===== verification/CliqueReplaySpec.v ===== *)
(** * Clique: replaying headers

    [Snapshot.apply] over a cache of signatures, against the machine of ballots: whatever a
    consistent cache holds, a contiguous run of headers gives the authority that the votes in
    the headers give, or the error of the first header that is refused. The check of a seal
    agrees with the replay once the chain is longer than the window of recent signers, and
    misses a repeated signer before. *)

From stdpp Require Import gmap sorting.
From S2P Require Import Prelude Uint256 Errors Machine ChainConfig FeeMarket Authorization Rlp RlpSpec RlpWriter HeaderRlp Consensus Clique CliqueSpec.

(** ** Signatures *)

Section Replay.
Context {K : Keccak} {E : Secp256k1} {C : SigCache} {CS : SigCacheSpec C}.
(** The headers in play: their hashes tell their signers apart. *)
Context (U : list BlkHeader).
Context (Hash_signer : forall h h' k, h ∈ U -> h' ∈ U -> h_Hash h = Val k -> h_Hash h' = Val k -> recover h = recover h').

Definition consistent (c : sigcache) : Prop := forall h k a, h ∈ U -> h_Hash h = Val k -> sig_Peek k c = Some a -> recover h = Val (inr a).

Lemma ecrecover_exact h k r c : h ∈ U -> h_Hash h = Val k -> recover h = Val r -> consistent c -> exists c', ecrecover h c = Val (r, c') /\ consistent c'.
Proof.
  intros HU Hh Hr Hc. unfold ecrecover, mbind, M_bind, lift, gets. rewrite Hh. destruct (sig_Peek k c) as [a|] eqn:Ep.
  - pose proof (Hc h k a HU Hh Ep) as Ha. assert (r = inr a) by congruence. subst r. exists c. auto.
  - rewrite Hr. destruct r as [e|a]; [exists c; auto|]. exists (sig_Add k a c). split; [reflexivity|]. intros h' k' a' HU' Hh' Hp. apply sig_Add_spec in Hp as [[-> ->]|Hp]; [|by eapply Hc].
    rewrite <- Hr. eapply Hash_signer; eauto.
Qed.

(** What the replay reads of a header. *)
Record Fact : Type := mkFact { f_number : Z; f_signer : Error + Z; f_coinbase : Z; f_nonce : bytes }.

Definition fact_of (h : BlkHeader) (f : Fact) : Prop :=
  h ∈ U /\ number_of h = Val (f_number f) /\ (exists k, h_Hash h = Val k) /\ recover h = Val (f_signer f) /\ f_coinbase f = b_Coinbase h /\ f_nonce f = b_Nonce h.

Definition header_result (epoch : Z) (s : Snapshot) (f : Fact) : Error + Snapshot :=
  let s := if f_number f mod epoch =? 0 then with_Tally ∅ (with_Votes [] s) else s in
  let s := expire (f_number f) s in
  match f_signer f with
  | inl err => inl err
  | inr signer => match check_signer signer s with Some err => inl err | None => count_vote (f_number f) signer (f_coinbase f) (f_nonce f) s end
  end.

Fixpoint replay (epoch : Z) (s : Snapshot) (facts : list Fact) : Error + Snapshot :=
  match facts with
  | [] => inr s
  | f :: facts => match header_result epoch s f with inl err => inl err | inr s => replay epoch s facts end
  end.

Lemma apply_header_exact epoch s h f c : epoch <> 0 -> fact_of h f -> consistent c -> exists c', apply_header epoch s h c = Val (header_result epoch s f, c') /\ consistent c'.
Proof.
  intros He (HU & Hn & (k & Hk) & Hr & Hcb & Hno) Hc. destruct (ecrecover_exact h k _ c HU Hk Hr Hc) as (c' & Ec & Hc'). exists c'. split; [|exact Hc'].
  unfold apply_header, header_result, go_mod. unfold mbind, M_bind, lift. rewrite Hn. destruct (Z.eqb_spec epoch 0); [done|]. cbn [mret Res_ret]. rewrite Ec, Hcb, Hno.
  destruct (f_signer f) as [e|signer]; [reflexivity|]. by destruct (check_signer _ _).
Qed.

Lemma apply_headers_exact epoch : epoch <> 0 -> forall hs fs s c, Forall2 fact_of hs fs -> consistent c -> exists c', apply_headers epoch s hs c = Val (replay epoch s fs, c') /\ consistent c'.
Proof.
  intros He hs fs s c HF. revert s c. induction HF as [|h f hs fs Hf _ IH]; intros s c Hc; cbn [apply_headers replay]; [exists c; auto|].
  destruct (apply_header_exact epoch s h f c He Hf Hc) as (c1 & E1 & Hc1). unfold mbind, M_bind. rewrite E1. destruct (header_result epoch s f) as [e|s1]; [exists c1; auto|]. by apply IH.
Qed.

(** Numbered from [n + 1] on. *)
Fixpoint chain_from (n : Z) (facts : list Fact) : bool :=
  match facts with [] => true | f :: facts => (f_number f =? u64 (n + 1)) && chain_from (f_number f) facts end.

Lemma contiguous_exact h f hs fs : Forall2 fact_of (h :: hs) (f :: fs) -> contiguous (h :: hs) = Val (chain_from (f_number f) fs).
Proof.
  revert h f fs. induction hs as [|h2 hs IH]; intros h f fs HF; inversion HF as [|? ? ? ? H1 H2]; subst; inversion H2 as [|? f2 ? fs2 H3 H4]; subst; [reflexivity|].
  change (contiguous (h :: h2 :: hs)) with (number_of h2 ≫= fun nb : Z => number_of h ≫= fun na : Z => if negb (nb =? u64 (na + 1)) then mret false else contiguous (h2 :: hs)). cbn [chain_from].
  destruct H1 as (_ & E1 & _), H3 as (? & E3 & ?). rewrite E1, E3. cbn [mbind Res_bind]. destruct (Z.eqb_spec (f_number f2) (u64 (f_number f + 1))); [|reflexivity]. cbn [negb andb]. by apply IH.
Qed.

(** The whole of [apply]: the result does not depend on the cache. *)
Lemma sn_apply_exact s hs fs c : Epoch (sn_config s) <> 0 -> Forall2 fact_of hs fs -> consistent c ->
  exists c' hash, consistent c' /\ sn_apply s hs c = Val (
    match fs with
    | [] => inr s
    | _ => if chain_from (sn_Number s) fs then
             match replay (Epoch (sn_config s)) s fs with inl e => inl e | inr s1 => inr (with_Head (u64 (sn_Number s1 + zlen fs)) hash s1) end
           else inl errInvalidVotingChain
    end, c') /\ (forall l, last hs = Some l -> h_Hash l = Val hash).
Proof.
  intros He HF Hc. destruct HF as [|h f hs fs Hf HF]; [exists c, 0; repeat split; [exact Hc|discriminate]|]. assert (HA : Forall2 fact_of (h :: hs) (f :: fs)) by (constructor; assumption). destruct (last (h :: hs)) as [l|] eqn:El; [|by apply last_None in El].
  assert (Hl : exists k, h_Hash l = Val k). { apply last_Some in El as [hs' El]. rewrite El in HA. apply Forall2_app_inv_l in HA as (f1 & f2 & _ & HA & _). inversion HA as [|? ? ? ? (_ & _ & Hk & _)]. exact Hk. }
  destruct Hl as [hash Hhash]. destruct (apply_headers_exact _ He (h :: hs) (f :: fs) s c HA Hc) as (c1 & E1 & Hc1). pose proof Hf as (_ & En & _).
  assert (Elen : zlen (h :: hs) = zlen (f :: fs)) by (unfold zlen; by rewrite (Forall2_length _ _ _ HA)).
  assert (EC : contiguous (h :: hs) = Val (chain_from (f_number f) fs)) by (by apply contiguous_exact).
  unfold sn_apply. unfold mbind at 1, M_bind at 1, lift at 1. rewrite EC. cbn [chain_from]. destruct (chain_from (f_number f) fs); [|rewrite andb_false_r; exists c, hash; repeat split; [exact Hc|congruence]].
  rewrite andb_true_r. cbn [negb]. unfold mbind at 1, M_bind at 1, lift at 1. rewrite En. destruct (f_number f =? u64 (sn_Number s + 1)); [|exists c, hash; repeat split; [exact Hc|congruence]].
  cbn [negb]. unfold mbind at 1, M_bind at 1. rewrite E1. destruct (replay _ s (f :: fs)) as [e|s1]; [exists c1, hash; repeat split; [exact Hc1|congruence]|].
  rewrite El. unfold mbind, M_bind, lift. rewrite Hhash, Elen. exists c1, hash. repeat split; [exact Hc1|congruence].
Qed.

(** ** The machine of ballots *)

(** Votes from block [n + 1] on; ballots are forgotten at the checkpoints. *)
Fixpoint au_run (epoch n : Z) (x : Authority) (votes : list (Z * Z * bool)) : Authority :=
  match votes with
  | [] => x
  | (signer, coinbase, authorize) :: votes =>
      let x := if (n + 1) mod epoch =? 0 then mkAuthority (au_signers x) ∅ else x in
      au_run epoch (n + 1) (au_vote signer coinbase authorize x) votes
  end.

Definition vote_fact (f : Fact) (v : Z * Z * bool) : Prop := f_signer f = inr v.1.1 /\ v.1.2 = f_coinbase f /\ vote_of (f_nonce f) = Some v.2.

Definition head_of (s : Snapshot) : CliqueConfig * Z * Z := (sn_config s, sn_Number s, sn_Hash s).

Lemma uncast_head a b s : head_of (uncast a b s).2 = head_of s.
Proof. by rewrite uncast_rest. Qed.
Lemma drop_cast_by_head who : forall votes s, head_of (drop_cast_by votes who s).2 = head_of s.
Proof.
  induction votes as [|v votes IH]; intros s; [reflexivity|]. cbn [drop_cast_by]. destruct (v_Signer v =? who); [rewrite IH; apply uncast_head|]. specialize (IH s). by destruct (drop_cast_by votes who s).
Qed.
Lemma settle_head number c s : head_of (settle_vote number c s) = head_of s.
Proof.
  unfold settle_vote. destruct (_ <? _); [|reflexivity]. destruct (t_Authorize _); [reflexivity|]. set (s1 := expire number _). assert (E1 : head_of s1 = head_of s) by (unfold s1; by rewrite expire_rest).
  pose proof (drop_cast_by_head c (Votes s1) s1) as HD. destruct (drop_cast_by (Votes s1) c s1) as [kept s2]. cbn [snd] in HD. rewrite <- E1, <- HD. reflexivity.
Qed.

Lemma header_result_inv epoch n s f s' : voting_ok s -> 0 <= n -> recents_in n s -> f_number f = n + 1 -> header_result epoch s f = inr s' ->
  voting_ok s' /\ recents_in (n + 1) s' /\ head_of s' = head_of s /\
  exists v, vote_fact f v /\ forall rest, au_run epoch (n + 1) (authority s') rest = au_run epoch n (authority s) (v :: rest).
Proof.
  intros Hok Hn Hr Hnum. unfold header_result. rewrite Hnum. set (s0 := if (n + 1) mod epoch =? 0 then _ else s). cbv zeta.
  assert (Hok0 : voting_ok s0 /\ recents_in n s0 /\ head_of s0 = head_of s /\ authority s0 = if (n + 1) mod epoch =? 0 then mkAuthority (Signers s) ∅ else authority s).
  { unfold s0. destruct ((n + 1) mod epoch =? 0); [|auto]. split; [|split; [destruct Hr; by constructor|split; reflexivity]]. constructor; cbn; [split; [intros v Hv; by apply not_elem_of_nil in Hv|intros a; by rewrite lookup_empty]|constructor|intros v Hv; by apply not_elem_of_nil in Hv]. }
  clearbody s0. destruct Hok0 as (Hok0 & Hr0 & Hh0 & Ha0). destruct (f_signer f) as [e|signer] eqn:Es; [discriminate|]. destruct (check_signer signer (expire (n + 1) s0)) eqn:Ec; [discriminate|]. intros HV.
  pose proof (count_vote_recents n signer _ _ s0 s' Hok0 Hn Hr0 Ec HV) as Hr'. apply check_signer_None in Ec as [Hs _].
  set (s1 := expire (n + 1) s0) in *. assert (E1 : s1 = with_Recents (Recents s1) s0) by apply expire_rest. assert (Hok1 : voting_ok s1) by (rewrite E1; destruct Hok0; by constructor).
  assert (Ha1 : authority s1 = authority s0) by (by rewrite E1). assert (Hh1 : head_of s1 = head_of s0) by (by rewrite E1).
  pose proof (count_vote_exact (n + 1) signer (f_coinbase f) (f_nonce f) s1 Hok1 Hs) as HC. pose proof (count_vote_split (n + 1) signer (f_coinbase f) (f_nonce f) s1 Hok1 Hs) as HC2.
  destruct (vote_of (f_nonce f)) as [authorize|] eqn:Ev; [|congruence]. destruct HC as (s2 & E2 & Hok2 & Ha2). rewrite HV in E2. injection E2 as <-. destruct HC2 as (s3 & E3 & _ & Hh3 & _). rewrite HV in E3. injection E3 as E3.
  split; [exact Hok2|]. split; [exact Hr'|]. split.
  { rewrite E3, settle_head. injection Hh3 as H1 H2 H3 _. unfold head_of in *. congruence. }
  exists (signer, f_coinbase f, authorize). split; [by repeat split|]. intros rest. cbn [au_run]. rewrite Ha2, Ha1, Ha0. reflexivity.
Qed.

(** Numbers count up from [n + 1]. *)
Fixpoint numbered (n : Z) (facts : list Fact) : Prop := match facts with [] => True | f :: facts => f_number f = n + 1 /\ numbered (n + 1) facts end.

Lemma chain_numbered facts : forall n, 0 <= n -> n + zlen facts < two64 -> chain_from n facts = true <-> numbered n facts.
Proof.
  induction facts as [|f facts IH]; intros n Hn Hl; cbn [chain_from numbered]; [tauto|]. rewrite zlen_cons in Hl. pose proof (zlen_nonneg facts). rewrite u64_id by (unfold is_u64; lia). rewrite andb_true_iff, Z.eqb_eq. split.
  - intros [-> H1]. split; [reflexivity|]. apply IH; [lia|lia|exact H1].
  - intros [-> H1]. split; [reflexivity|]. apply IH; [lia|lia|exact H1].
Qed.

Lemma replay_inv epoch facts : forall n s s', voting_ok s -> 0 <= n -> recents_in n s -> numbered n facts -> replay epoch s facts = inr s' ->
  voting_ok s' /\ recents_in (n + zlen facts) s' /\ head_of s' = head_of s /\ exists votes, Forall2 vote_fact facts votes /\ authority s' = au_run epoch n (authority s) votes.
Proof.
  induction facts as [|f facts IH]; intros n s s' Hok Hn Hr Hnum HE; cbn [replay] in HE.
  - injection HE as <-. change (zlen (@nil Fact)) with 0. rewrite Z.add_0_r. split; [exact Hok|]. split; [exact Hr|]. split; [reflexivity|]. exists []. split; [constructor|reflexivity].
  - destruct Hnum as [Hf Hnum]. destruct (header_result epoch s f) as [e|s1] eqn:E1; [discriminate|]. destruct (header_result_inv epoch n s f s1 Hok Hn Hr Hf E1) as (Hok1 & Hr1 & Hh1 & v & Hv & Ha).
    destruct (IH (n + 1) s1 s' Hok1 ltac:(lia) Hr1 Hnum HE) as (H1 & H2 & H3 & votes & Hvs & Ha2). split; [exact H1|]. rewrite zlen_cons. replace (n + (1 + zlen facts)) with (n + 1 + zlen facts) by lia. split; [exact H2|]. split; [congruence|].
    exists (v :: votes). split; [by constructor|]. rewrite Ha2. apply Ha.
Qed.

(** The first header that is refused. *)
Lemma replay_error epoch facts : forall s e, replay epoch s facts = inl e -> exists pre f post s1, facts = pre ++ f :: post /\ replay epoch s pre = inr s1 /\ header_result epoch s1 f = inl e.
Proof.
  induction facts as [|f facts IH]; intros s e HE; [discriminate|]. cbn [replay] in HE. destruct (header_result epoch s f) as [e'|s1] eqn:E1.
  - injection HE as <-. exists [], f, facts, s. auto.
  - destruct (IH s1 e HE) as (pre & f' & post & s2 & -> & H1 & H2). exists (f :: pre), f', post, s2. split; [reflexivity|]. split; [|exact H2]. cbn [replay]. by rewrite E1.
Qed.

(** A well-formed snapshot. *)
Record snapshot_ok (s : Snapshot) : Prop := mkSnapshotOk {
  so_epoch : 0 < Epoch (sn_config s);
  so_number : 0 <= sn_Number s;
  so_voting : voting_ok s;
  so_recents : recents_in (sn_Number s) s
}.

Lemma newSnapshot_ok config number hash signers : 0 < Epoch config -> 0 <= number -> snapshot_ok (newSnapshot config number hash signers).
Proof.
  intros He Hn. constructor; cbn; [exact He|exact Hn|constructor; cbn; [split; [intros v Hv; by apply not_elem_of_nil in Hv|intros a; by rewrite lookup_empty]|constructor|intros v Hv; by apply not_elem_of_nil in Hv]|].
  constructor; cbn; intros ? ?; rewrite lookup_empty; discriminate.
Qed.

(** C12 Replaying headers is what the votes in them say: whatever a consistent cache of
    signatures holds, [apply] on headers numbered from the snapshot's gives a well-formed
    snapshot whose signers and pending ballots are those of the machine of ballots after the
    same votes, or the error of the first header that is refused. *)
Theorem apply_refines s headers facts c : snapshot_ok s -> Forall2 fact_of headers facts -> consistent c -> numbered (sn_Number s) facts -> sn_Number s + zlen facts < two64 ->
  exists r c', sn_apply s headers c = Val (r, c') /\ consistent c' /\
  match r with
  | inr s' => snapshot_ok s' /\ sn_Number s' = sn_Number s + zlen headers /\ exists votes, Forall2 vote_fact facts votes /\ authority s' = au_run (Epoch (sn_config s)) (sn_Number s) (authority s) votes
  | inl e => exists pre f post s1, facts = pre ++ f :: post /\ replay (Epoch (sn_config s)) s pre = inr s1 /\ header_result (Epoch (sn_config s)) s1 f = inl e
  end.
Proof.
  intros [He Hn Hv Hr] HF Hc Hnum Hlen. destruct (sn_apply_exact s headers facts c ltac:(lia) HF Hc) as (c' & hash & Hc' & EA & _). eexists _, c'. split; [exact EA|]. split; [exact Hc'|]. assert (El : zlen headers = zlen facts) by (unfold zlen; by rewrite (Forall2_length _ _ _ HF)).
  destruct facts as [|f facts]; [split; [by constructor|]; rewrite El; split; [change (zlen (@nil Fact)) with 0; lia|]; exists []; split; [constructor|reflexivity]|].
  rewrite (proj2 (chain_numbered (f :: facts) (sn_Number s) Hn Hlen) Hnum). destruct (replay _ s (f :: facts)) as [e|s1] eqn:ER; [by apply replay_error|].
  destruct (replay_inv _ _ _ _ _ Hv Hn Hr Hnum ER) as (H1 & H2 & H3 & votes & H4 & H5). injection H3 as Hcf Hnm Hhs. pose proof (zlen_nonneg (f :: facts)). rewrite Hnm, u64_id by (unfold is_u64; lia).
  split; [constructor; cbn; [by rewrite Hcf|lia|by destruct H1|]|].
  - destruct H2 as [W1 W2]. constructor; cbn [Recents with_Head sn_Number]; [intros k a Hk; destruct (W1 k a Hk); unfold limit in *; cbn [Signers with_Head]; lia|exact W2].
  - split; [cbn; lia|]. exists votes. split; [exact H4|]. rewrite <- H5. reflexivity.
Qed.
End Replay.

(** The chain of a clique never gets stuck for want of a signer: in a well-formed snapshot
    at least half of the signers, rounded up, are authorised and not recent for the next
    block. *)
Theorem half_may_sign s : snapshot_ok s ->
  Z.of_nat (size (Signers s)) - Z.of_nat (size (Signers s)) / 2 <= Z.of_nat (size (may_sign (sn_Number s + 1) s)).
Proof. intros [He Hn Hv Hr]. by apply may_sign_size. Qed.

(** ** The head of a snapshot does not matter to the replay *)

Section Head.
Context (n h : Z).
#[local] Abbreviation wh := (with_Head n h).

Lemma uncast_wh a b s : (uncast a b (wh s)).2 = wh (uncast a b s).2.
Proof. unfold uncast. destruct s as [cf n0 h0 sg rc vt tl]. cbn. destruct (tl !! a) as [t|]; [|reflexivity]. destruct (negb _); [reflexivity|]. by destruct (1 <? _). Qed.
Lemma discard_wh sg ad : forall votes seen s, discard_loop seen votes sg ad (wh s) = wh (discard_loop seen votes sg ad s).
Proof. induction votes as [|v votes IH]; intros seen s; [reflexivity|]. cbn [discard_loop]. destruct (_ && _); [|apply IH]. rewrite uncast_wh. by destruct (uncast _ _ s) as [b []]. Qed.
Lemma drop_wh who : forall votes s, drop_cast_by votes who (wh s) = ((drop_cast_by votes who s).1, wh (drop_cast_by votes who s).2).
Proof.
  induction votes as [|v votes IH]; intros s; [reflexivity|]. cbn [drop_cast_by]. destruct (v_Signer v =? who); [rewrite uncast_wh; apply IH|]. rewrite IH. by destruct (drop_cast_by votes who s).
Qed.
Lemma expire_wh m s : expire m (wh s) = wh (expire m s).
Proof. unfold expire. change (limit (wh s)) with (limit s). by destruct (limit s <=? m). Qed.
Lemma cast_wh a b s : cast a b (wh s) = ((cast a b s).1, wh (cast a b s).2).
Proof. unfold cast. change (validVote a b (wh s)) with (validVote a b s). destruct (negb _); [reflexivity|]. cbn [sn_Tally with_Head]. by destruct (sn_Tally s !! a). Qed.
Lemma settle_wh m c s : settle_vote m c (wh s) = wh (settle_vote m c s).
Proof.
  unfold settle_vote. cbn [sn_Tally with_Head]. change (Signers (wh s)) with (Signers s). destruct (_ <? _); [|reflexivity]. destruct (t_Authorize _); [reflexivity|].
  change (with_Signers (Signers s ∖ {[c]}) (wh s)) with (wh (with_Signers (Signers s ∖ {[c]}) s)). rewrite expire_wh. set (s1 := expire m _). change (Votes (wh s1)) with (Votes s1). rewrite drop_wh. by destruct (drop_cast_by (Votes s1) c s1).
Qed.

Definition lift_wh (r : Error + Snapshot) : Error + Snapshot := match r with inl e => inl e | inr s => inr (wh s) end.

Lemma count_vote_wh m sg c nonce s : count_vote m sg c nonce (wh s) = lift_wh (count_vote m sg c nonce s).
Proof.
  unfold count_vote. change (with_Recents (<[m := sg]> (Recents (wh s))) (wh s)) with (wh (with_Recents (<[m := sg]> (Recents s)) s)). set (s0 := with_Recents _ s). change (Votes (wh s0)) with (Votes s0). rewrite discard_wh. set (s1 := discard_loop _ _ _ _ _).
  destruct (vote_of nonce) as [b|]; [|reflexivity]. rewrite cast_wh. destruct (cast c b s1) as [counted s2]. cbn [fst snd lift_wh]. f_equal. rewrite <- settle_wh. by destruct counted.
Qed.
Lemma header_result_wh epoch s f : header_result epoch (wh s) f = lift_wh (header_result epoch s f).
Proof.
  unfold header_result. replace (if f_number f mod epoch =? 0 then with_Tally ∅ (with_Votes [] (wh s)) else wh s) with (wh (if f_number f mod epoch =? 0 then with_Tally ∅ (with_Votes [] s) else s)) by (by destruct (_ =? _)).
  rewrite expire_wh. set (s1 := expire _ _). destruct (f_signer f) as [e|sg]; [reflexivity|]. change (check_signer sg (wh s1)) with (check_signer sg s1). destruct (check_signer sg s1); [reflexivity|]. apply count_vote_wh.
Qed.
Lemma replay_wh epoch fs : forall s, replay epoch (wh s) fs = lift_wh (replay epoch s fs).
Proof. induction fs as [|f fs IH]; intros s; [reflexivity|]. cbn [replay]. rewrite header_result_wh. destruct (header_result epoch s f) as [e|s1]; [reflexivity|]. apply IH. Qed.
End Head.

Lemma replay_app epoch f1 f2 : forall s, replay epoch s (f1 ++ f2) = match replay epoch s f1 with inl e => inl e | inr s1 => replay epoch s1 f2 end.
Proof. induction f1 as [|f f1 IH]; intros s; [reflexivity|]. cbn [app replay]. destruct (header_result epoch s f); [reflexivity|]. apply IH. Qed.

(** ** The check of a seal *)

Lemma seal_recent_exact n a s : recents_in n s -> 0 <= n -> n + 1 < two64 -> limit s < 2 ^ 63 ->
  seal_recent (n + 1) a s = true <-> limit s <= n + 1 /\ exists k, Recents (expire (n + 1) s) !! k = Some a.
Proof.
  intros Hr Hn Hu Hl. destruct (expire_recents n s Hr) as [H1 H2]. pose proof (limit_pos s). unfold seal_recent. rewrite existsb_exists. split.
  - intros ([k b] & Hin & Hb). apply list_elem_of_In, elem_of_map_to_list in Hin. cbn in Hb. apply andb_true_iff in Hb as [Hb1 Hb2]. apply Z.eqb_eq in Hb1. subst b. apply Z.ltb_lt in Hb2. destruct (ri_window _ _ Hr k a Hin) as [Hk1 Hk2].
    destruct (Z.leb_spec (limit s) (n + 1)) as [Hle|Hgt].
    + rewrite u64_id in Hb2 by (unfold is_u64; lia). split; [lia|]. exists k. apply H2; [exact Hin|lia].
    + exfalso. unfold u64 in Hb2. replace ((n + 1 - limit s) mod two64) with (n + 1 - limit s + two64) in Hb2 by (symmetry; rewrite <- (Z_mod_plus_full _ 1), Z.mul_1_l; apply Z.mod_small; unfold two64 in *; lia). unfold two64 in *. lia.
  - intros [Hle (k & Hk)]. destruct (H1 k a Hk) as (Hin & Hk1 & Hk2). exists (k, a). split; [by apply list_elem_of_In, elem_of_map_to_list|]. cbn. rewrite Z.eqb_refl. cbn. apply Z.ltb_lt. rewrite u64_id by (unfold is_u64; lia). lia.
Qed.

Lemma GetSigners_length s : zlen (GetSigners s) = Z.of_nat (size (Signers s)).
Proof. unfold GetSigners, zlen. by rewrite (Permutation_length (merge_sort_Permutation Z.le (elements (Signers s)))). Qed.

Lemma signers_nonempty a s : a ∈ Signers s -> zlen (GetSigners s) <> 0.
Proof. intros Ha. rewrite GetSigners_length. intros E0. assert (size (Signers s) = 0%nat) as H0 by lia. apply size_empty_inv in H0. set_solver. Qed.

(** The difficulty of the signer [a] at block [n]. *)
Definition turn_difficulty (n a : Z) (s : Snapshot) : Z := if n mod zlen (GetSigners s) =? offset_of a (GetSigners s) then DiffInTurn else diffNoTurn.

(** [verifySeal] in terms of the signer. *)
Definition seal_result (fakeDiff : bool) (n a : Z) (d : option Z) (s : Snapshot) : option Error :=
  if negb (bool_decide (a ∈ Signers s)) then Some ErrUnauthorizedSigner
  else if seal_recent n a s then Some ErrRecentlySigned
  else if fakeDiff then None
  else if bool_decide (d = Some (turn_difficulty n a s)) then None else Some errWrongDifficulty.

Section Seal.
Context {K : Keccak} {E : Secp256k1} {C : SigCache} {CS : SigCacheSpec C}.
Context (U : list BlkHeader).
Context (Hash_signer : forall h h' k, h ∈ U -> h' ∈ U -> h_Hash h = Val k -> h_Hash h' = Val k -> recover h = recover h').

Lemma verifySeal_exact fakeDiff h f s c : fact_of U h f -> 0 < f_number f -> b_Difficulty h <> None -> consistent U c ->
  exists c', verifySeal fakeDiff h s c = Val (match f_signer f with inl e => Some e | inr a => seal_result fakeDiff (f_number f) a (b_Difficulty h) s end, c') /\ consistent U c'.
Proof.
  intros (HU & Hn & (k & Hk) & Hr & _ & _) Hpos Hd Hc. destruct (ecrecover_exact U Hash_signer h k _ c HU Hk Hr Hc) as (c' & Ec & Hc'). exists c'. split; [|exact Hc'].
  unfold verifySeal, seal_result, turn_difficulty. unfold mbind at 1, M_bind at 1, lift at 1. rewrite Hn. destruct (Z.eqb_spec (f_number f) 0); [lia|]. unfold mbind at 1, M_bind at 1. rewrite Ec. destruct (f_signer f) as [e|a]; [reflexivity|].
  destruct (bool_decide_reflect (a ∈ Signers s)) as [Hin|]; [|reflexivity]. cbn [negb]. destruct (seal_recent _ _ _); [reflexivity|]. destruct fakeDiff; [reflexivity|].
  unfold inturn, go_mod. destruct (Z.eqb_spec (zlen (GetSigners s)) 0) as [E0|_]; [by apply (signers_nonempty a s) in Hin|]. unfold mbind, M_bind, lift, Res_bind. cbn [mret Res_ret nonnil]. destruct (b_Difficulty h) as [d|]; [|done]. cbn [nonnil].
  destruct (f_number f mod zlen (GetSigners s) =? offset_of a (GetSigners s)); cbn [andb negb mret Res_ret M_ret].
  - destruct (Z.eqb_spec d DiffInTurn) as [->|]; [by rewrite bool_decide_true|]. by rewrite bool_decide_false by congruence.
  - destruct (Z.eqb_spec d diffNoTurn) as [->|]; [by rewrite bool_decide_true|]. by rewrite bool_decide_false by congruence.
Qed.

(** A header whose seal is accepted can be replayed: once the chain is at least as long as
    the window of recent signers, the signer [verifySeal] accepts on the snapshot of the
    parent is one [apply] accepts, so the block has a snapshot of its own. *)
Theorem verified_seal_applies fakeDiff h f s c c' : snapshot_ok s -> fact_of U h f -> consistent U c -> f_number f = sn_Number s + 1 -> f_number f < two64 -> limit s < 2 ^ 63 ->
  limit s <= f_number f -> vote_of (b_Nonce h) <> None -> b_Difficulty h <> None -> verifySeal fakeDiff h s c = Val (None, c') ->
  exists s', header_result (Epoch (sn_config s)) s f = inr s'.
Proof.
  intros [He Hn Hv Hr] Hf Hc Hnum Hu Hl Hlim Hvote Hd HS. pose proof Hf as (HU & En & (k & Hk) & Hrec & Hcb & Hno).
  destruct (verifySeal_exact fakeDiff h f s c Hf ltac:(lia) Hd Hc) as (c2 & E2 & _). rewrite E2 in HS. injection HS as HS _. destruct (f_signer f) as [e|a] eqn:Ea; [discriminate|]. unfold seal_result in HS.
  destruct (bool_decide_reflect (a ∈ Signers s)) as [Hin|]; [|discriminate]. cbn [negb] in HS. destruct (seal_recent (f_number f) a s) eqn:Es; [discriminate|].
  unfold header_result. set (s0 := if _ =? 0 then _ else s). cbv zeta. rewrite Ea.
  assert (H0 : voting_ok s0 /\ Signers s0 = Signers s /\ Recents s0 = Recents s). { unfold s0. destruct (_ =? 0); [|auto]. split; [|auto]. constructor; cbn; [split; [intros v Hv0; by apply not_elem_of_nil in Hv0|intros x; by rewrite lookup_empty]|constructor|intros v Hv0; by apply not_elem_of_nil in Hv0]. }
  clearbody s0. destruct H0 as (Hv0 & HS0 & HR0). assert (Hl0 : limit s0 = limit s) by (unfold limit; by rewrite HS0). assert (EX : Recents (expire (f_number f) s0) = Recents (expire (f_number f) s)) by (unfold expire; rewrite Hl0; destruct (_ <=? _); cbn; by rewrite HR0).
  assert (Hsg : Signers (expire (f_number f) s0) = Signers s) by (by rewrite expire_rest). assert (Hchk : check_signer a (expire (f_number f) s0) = None).
  { apply check_signer_None. rewrite Hsg, EX. split; [exact Hin|]. intros j Hj. apply not_true_iff_false in Es. apply Es. rewrite Hnum in *. apply seal_recent_exact; [exact Hr|lia|lia|exact Hl|]. eauto. }
  rewrite Hchk. assert (Hv1 : voting_ok (expire (f_number f) s0)) by (rewrite expire_rest; destruct Hv0; by constructor).
  pose proof (count_vote_exact (f_number f) a (f_coinbase f) (f_nonce f) (expire (f_number f) s0) Hv1) as HC. rewrite Hsg in HC. specialize (HC Hin). rewrite Hno in *. destruct (vote_of (b_Nonce h)); [|done]. destruct HC as (s' & E' & _). eauto.
Qed.

(** C39 While the chain is shorter than the window, the subtraction of the window from the
    block number wraps around: [verifySeal] accepts a header by a signer that has just
    signed and whose difficulty is the one of its turn, on which [apply] fails, so that no block can be built on it. *)
Theorem early_repeat_accepted h f a j s c : snapshot_ok s -> fact_of U h f -> consistent U c -> f_number f = sn_Number s + 1 -> f_number f < two64 -> limit s < 2 ^ 63 ->
  f_number f < limit s -> f_signer f = inr a -> a ∈ Signers s -> Recents s !! j = Some a -> b_Difficulty h = Some (turn_difficulty (f_number f) a s) ->
  (exists c', verifySeal false h s c = Val (None, c')) /\ header_result (Epoch (sn_config s)) s f = inl ErrRecentlySigned.
Proof.
  intros [He Hn Hv Hr] Hf Hc Hnum Hu Hl Hlim Ha Hin Hj Hd. split.
  - destruct (verifySeal_exact false h f s c Hf ltac:(lia) ltac:(congruence) Hc) as (c2 & E2 & _). exists c2. rewrite E2, Ha. unfold seal_result. rewrite bool_decide_true by exact Hin. cbn [negb].
    destruct (seal_recent (f_number f) a s) eqn:Es; [|rewrite Hd; by rewrite bool_decide_true]. rewrite Hnum in Es. apply seal_recent_exact in Es; [lia|exact Hr|lia|lia|exact Hl].
  - unfold header_result. set (s0 := if _ =? 0 then _ else s). cbv zeta. rewrite Ha. assert (H0 : Signers s0 = Signers s /\ Recents s0 = Recents s) by (unfold s0; by destruct (_ =? 0)). clearbody s0. destruct H0 as [HS0 HR0].
    unfold expire. replace (limit s0) with (limit s) by (unfold limit; by rewrite HS0). destruct (Z.leb_spec (limit s) (f_number f)); [lia|]. unfold check_signer. rewrite HS0, bool_decide_true by exact Hin. cbn [negb].
    replace (existsb (fun kv => kv.2 =? a) (map_to_list (Recents s0))) with true; [reflexivity|]. symmetry. apply existsb_exists. exists (j, a). split; [rewrite HR0; by apply list_elem_of_In, elem_of_map_to_list|]. apply Z.eqb_refl.
Qed.
End Seal.
