(* ===== verification/CliqueChainSpec.v ===== *)
(** * Clique: a chain

    The engine on a chain of headers: the snapshot of a block is the replay of the headers
    from the genesis, whichever snapshots are cached or stored; a header that a signer
    prepares and seals on top of the chain is accepted by the others. *)

From stdpp Require Import gmap sorting.
From S2P Require Import Prelude Uint256 Errors Machine ChainConfig FeeMarket Authorization Rlp RlpSpec RlpWriter HeaderRlp Consensus Clique CliqueSpec CliqueReplaySpec.

Section Chain.
Context {K : Keccak} {E : Secp256k1} {C : SigCache} {CS : SigCacheSpec C} {SC : SnapCache} {SCS : SnapCacheSpec SC} {SD : SnapDB} {SDS : SnapDBSpec SD}.
Context (chain_ : ChainReader) (eng : Engine) (U : list BlkHeader).
(** The blocks up to [N], their hashes, and what the replay reads of them. *)
Context (N : Z) (blk : Z -> BlkHeader) (hash : Z -> Z) (fact : Z -> Fact) (signers0 : list Z).

#[local] Abbreviation epoch := (Epoch (e_config eng)).
Definition genesis : Snapshot := newSnapshot (e_config eng) 0 (hash 0) signers0.

(** The snapshot of block [n]. *)
Definition snapshot_at (n : Z) (s : Snapshot) : Prop := exists r, replay epoch genesis (map fact (seqZ 1 n)) = inr r /\ s = with_Head n (hash n) r.

(** A chain of blocks after its genesis that the reader has and the replay accepts, and a
    database that can be written. *)
Record chain_ok : Prop := mkChainOk {
  co_len : 0 <= N < two64 - 1;
  co_epoch : 0 < epoch;
  co_interval : CheckpointInterval eng <> 0;
  co_hashes : forall h h' k, h ∈ U -> h' ∈ U -> h_Hash h = Val k -> h_Hash h' = Val k -> recover h = recover h';
  co_blocks : forall n, 0 <= n <= N -> number_of (blk n) = Val n /\ h_Hash (blk n) = Val (hash n) /\ GetHeader chain_ (hash n) n = Some (blk n) /\ GetHeaderByNumber chain_ n = Some (blk n);
  co_parents : forall n, 0 <= n < N -> b_ParentHash (blk (n + 1)) = hash n;
  co_facts : forall n, 1 <= n <= N -> fact_of U (blk n) (fact n);
  co_genesis : checkpoint_signers (blk 0) = Val signers0;
  co_valid : exists r, replay epoch genesis (map fact (seqZ 1 N)) = inr r;
  co_distinct : forall n m, 0 <= n <= N -> 0 <= m <= N -> hash n = hash m -> n = m;
  co_store : forall n h s d, exists d', db_Put n h s d = inr d'
}.

(** What is cached or stored for the blocks of the chain are their snapshots. *)
Record engine_ok (c : CliqueState) : Prop := mkEngineOk {
  eo_signatures : consistent U (signatures c);
  eo_recents : forall n s, 0 <= n <= N -> snap_contents (recents c) (hash n) = Some s -> snapshot_at n s;
  eo_DB : forall n s, 0 <= n <= N -> db_Get n (hash n) (DB c) = Some s -> snapshot_at n (with_config (e_config eng) s)
}.
Context (OK : chain_ok).

Lemma facts_split j n : 0 <= j <= n -> map fact (seqZ 1 n) = map fact (seqZ 1 j) ++ map fact (seqZ (j + 1) (n - j)).
Proof. intros H. rewrite <- map_app. f_equal. replace n with (j + (n - j)) at 1 by lia. rewrite seqZ_app by lia. f_equal. f_equal. lia. Qed.

Lemma replay_to n : 0 <= n <= N -> exists r, replay epoch genesis (map fact (seqZ 1 n)) = inr r.
Proof. intros Hn. destruct (co_valid OK) as [r Hr]. rewrite (facts_split n N Hn), replay_app in Hr. destruct (replay epoch genesis (map fact (seqZ 1 n))); [discriminate|eauto]. Qed.

Lemma genesis_at : snapshot_at 0 genesis.
Proof. exists genesis. split; reflexivity. Qed.

Lemma fact_number n : 1 <= n <= N -> f_number (fact n) = n.
Proof. intros Hn. destruct (co_facts OK n Hn) as (_ & H1 & _). destruct (co_blocks OK n ltac:(lia)) as (H2 & _). congruence. Qed.

Lemma facts_numbered len : forall j, 0 <= j -> 0 <= len -> j + len <= N -> numbered j (map fact (seqZ (j + 1) len)).
Proof.
  intros j Hj Hl. revert j Hj. pattern len. apply natlike_ind; [intros j Hj _; exact I| |exact Hl]. intros x Hx IH j Hj HN. rewrite seqZ_cons by lia. cbn [map numbered]. split; [apply fact_number; lia|].
  replace (Z.succ (j + 1)) with (j + 1 + 1) by lia. replace (Z.pred (Z.succ x)) with x by lia. apply IH; lia.
Qed.

Lemma facts_of j len : 0 <= j -> j + len <= N -> Forall2 (fact_of U) (map blk (seqZ (j + 1) len)) (map fact (seqZ (j + 1) len)).
Proof.
  intros Hj HN. assert (H : Forall (fun k => 1 <= k <= N) (seqZ (j + 1) len)) by (apply Forall_forall; intros k Hk; apply elem_of_seqZ in Hk; lia).
  induction H as [|k l Hk _ IH]; cbn [map]; constructor; [by apply (co_facts OK)|exact IH].
Qed.

Lemma go_mod_val x m : m <> 0 -> go_mod x m = Val (x mod m).
Proof. intros Hm. unfold go_mod. by destruct (Z.eqb_spec m 0). Qed.

Lemma res_bind_val {A B} (a : A) (f : A -> Res B) : (Val a ≫= f) = f a.
Proof. reflexivity. Qed.

Lemma replayed_config n r : 0 <= n <= N -> replay epoch genesis (map fact (seqZ 1 n)) = inr r -> sn_config r = e_config eng.
Proof.
  intros Hn Hr. assert (HG : snapshot_ok genesis) by (apply newSnapshot_ok; [apply (co_epoch OK)|lia]). destruct HG as [_ _ HV HR]. destruct (replay_inv epoch _ 0 genesis r HV ltac:(lia) HR (facts_numbered n 0 ltac:(lia) ltac:(lia) ltac:(lia)) Hr) as (_ & _ & Hh & _). by injection Hh as ->.
Qed.

Lemma step_lift {S A B} (x : Res A) (a : A) (f : A -> M S B) (s : S) : x = Val a -> (lift x ≫= f) s = f a s.
Proof. intros ->. reflexivity. Qed.
Lemma step_bind {S A B} (m : M S A) (a : A) (f : A -> M S B) (s s' : S) : m s = Val (a, s') -> (m ≫= f) s = f a s'.
Proof. intros Hm. unfold mbind, M_bind. by rewrite Hm. Qed.

(** ** The state of the engine *)

(** Proposals and the key to sign with are the same, and the database has kept what it had. *)
Record same_key (c c' : CliqueState) : Prop := mkSameKey {
  sk_proposals : proposals c' = proposals c;
  sk_signer : c_signer c' = c_signer c;
  sk_signFn : signFn c' = signFn c;
  sk_DB : forall n k, is_Some (db_Get n k (DB c)) -> is_Some (db_Get n k (DB c'))
}.

Lemma same_key_trans c1 c2 c3 : same_key c1 c2 -> same_key c2 c3 -> same_key c1 c3.
Proof. intros [] []. split; [congruence..|auto]. Qed.

(** What the database has for a block. *)
Definition loaded (m : Z) (c : CliqueState) : option Snapshot := if m mod CheckpointInterval eng =? 0 then with_config (e_config eng) <$> db_Get m (hash m) (DB c) else None.

(** The snapshot of block [j] is in the database, or at hand. *)
Definition stored (j : Z) (c : CliqueState) : Prop := is_Some (loaded j c).
Definition known (j : Z) (c : CliqueState) : Prop := is_Some (snap_contents (recents c) (hash j)) \/ stored j c.

(** The search for a snapshot from block [m], with the headers up to [n] gathered, ends
    before there are more of them than [FullImmutabilityThreshold], at the genesis or at a
    snapshot at hand. Beyond that it stops at the next checkpoint and trusts the signers
    listed there. *)
Definition anchored_at (at_hand : Z -> CliqueState -> Prop) (n m : Z) (c : CliqueState) : Prop :=
  n <= FullImmutabilityThreshold \/ exists j, n - FullImmutabilityThreshold <= j <= m /\ at_hand j c.
Definition anchored (at_hand : Z -> CliqueState -> Prop) (n : Z) (c : CliqueState) : Prop := anchored_at at_hand n n c.

Lemma stored_kept j c c' : same_key c c' -> stored j c -> stored j c'.
Proof. intros Hk. unfold stored, loaded. destruct (_ =? 0); [|done]. rewrite !fmap_is_Some. apply (sk_DB _ _ Hk). Qed.

Lemma anchored_kept n c c' : same_key c c' -> anchored stored n c -> anchored stored n c'.
Proof. intros Hk [H|(j & Hj & H)]; [by left|right; exists j; eauto using stored_kept]. Qed.

Lemma anchored_known n c : anchored stored n c -> anchored known n c.
Proof. intros [H|(j & Hj & H)]; [by left|right; exists j; split; [exact Hj|by right]]. Qed.

Lemma snapshot_at_head n s : 0 <= n <= N -> snapshot_at n s -> sn_Number s = n /\ sn_Hash s = hash n /\ with_config (e_config eng) s = s.
Proof. intros Hn (r & Hr & ->). split; [reflexivity|]. split; [reflexivity|]. unfold with_config, with_Head. cbn. by rewrite (replayed_config n r Hn Hr). Qed.

Lemma get_ok k c : engine_ok c -> exists c', recents_Get k c = Val (snap_contents (recents c) k, c') /\ engine_ok c' /\ same_key c c' /\ forall j, known j c -> known j c'.
Proof.
  intros [H1 H2 H3]. destruct (snap_Get_spec k (recents c)) as [E1 E2]. unfold recents_Get. destruct (snap_Get k (recents c)) as [r x]. cbn [fst snd] in E1, E2. subst r. eexists. split; [reflexivity|]. split; [|split; [by split|]].
  - constructor; cbn; [exact H1| |exact H3]. intros n s Hn. rewrite E2. by apply H2.
  - intros j. unfold known. cbn. by rewrite E2.
Qed.

Lemma add_ok n s c : 0 <= n <= N -> snapshot_at n s -> engine_ok c -> exists c', recents_Add (sn_Hash s) s c = Val ((), c') /\ engine_ok c' /\ same_key c c'.
Proof.
  intros Hn Hs [H1 H2 H3]. eexists. split; [reflexivity|]. split; [|by split]. destruct (snapshot_at_head n s Hn Hs) as (_ & -> & _). constructor; cbn; [exact H1| |exact H3]. intros m s' Hm Hg. apply snap_Add_spec in Hg as [[Hk ->]|Hg]; [|by apply H2].
  apply (co_distinct OK) in Hk; [by subst|exact Hm|exact Hn].
Qed.

Lemma store_ok n s c : 0 <= n <= N -> snapshot_at n s -> engine_ok c -> exists c', store s c = Val (None, c') /\ engine_ok c' /\ same_key c c'.
Proof.
  intros Hn Hs [H1 H2 H3]. destruct (snapshot_at_head n s Hn Hs) as (En & Eh & Ec). unfold store. rewrite En, Eh. destruct (co_store OK n (hash n) s (DB c)) as [d' Ed]. rewrite Ed. eexists. split; [reflexivity|]. split; [|split; try done; cbn; intros; by eapply db_Put_keeps]. constructor; cbn; [exact H1|exact H2|].
  intros m s' Hm Hg. destruct (db_Put_spec _ _ _ _ _ _ _ _ Ed Hg) as [(-> & _ & Hc)|Hg']; [rewrite Hc, Ec; exact Hs|by apply H3].
Qed.

Lemma loaded_exact m c : 0 <= m <= N -> engine_ok c ->
  (if m mod CheckpointInterval eng =? 0 then loadSnapshot (e_config eng) m (hash m) else mret None) c = Val (loaded m c, c) /\ forall s, loaded m c = Some s -> snapshot_at m s.
Proof.
  intros Hm Hc. unfold loaded. destruct (_ =? 0); split; try reflexivity; [|discriminate]. intros s Hs. apply fmap_Some in Hs as (s' & Hs & ->). by apply (eo_DB _ Hc).
Qed.

(** Only the genesis is trusted. *)
Lemma trusted_exact m headers : 0 <= m <= N -> zlen headers <= FullImmutabilityThreshold -> trusted_checkpoint chain_ eng m headers = Val (if m =? 0 then Some (blk 0) else None).
Proof.
  intros Hm Hl. unfold trusted_checkpoint. destruct (Z.eqb_spec m 0) as [->|Hm0].
  - change (mret 0) with (Val 0). rewrite res_bind_val. cbn [orb]. destruct (co_blocks OK 0 Hm) as (_ & _ & _ & ->). reflexivity.
  - rewrite go_mod_val by (pose proof (co_epoch OK); lia). rewrite res_bind_val. cbn [orb]. pose proof (co_len OK). rewrite u64_id by (unfold is_u64; lia).
    destruct (co_blocks OK (m - 1) ltac:(lia)) as (_ & _ & _ & ->). destruct (Z.ltb_spec FullImmutabilityThreshold (zlen headers)); [lia|]. rewrite bool_decide_false by discriminate. cbn [orb]. by rewrite andb_false_r.
Qed.

(** The anchor lies below a block whose snapshot is not at hand. *)
Lemma anchored_step n m c c1 : anchored_at known n m c -> snap_contents (recents c) (hash m) = None -> loaded m c1 = None -> same_key c c1 -> (forall j, known j c -> known j c1) -> anchored_at known n (m - 1) c1.
Proof.
  intros [H|(j & Hj & H)] Ec El Hk Hn; [by left|right; exists j]. split; [|by apply Hn]. destruct (decide (j = m)) as [->|]; [|lia]. exfalso. destruct H as [H|H]; [rewrite Ec in H; by destruct H|]. apply (stored_kept m c c1 Hk) in H. unfold stored in H. rewrite El in H. by destruct H.
Qed.

(** From any block back to one whose snapshot is known. *)
Lemma gather_exact n : 0 <= n <= N -> forall m fuel c, 0 <= m <= n -> (Z.to_nat m < fuel)%nat -> engine_ok c -> anchored_at known n m c ->
  exists j s c', 0 <= j <= m /\ snapshot_at j s /\ engine_ok c' /\ same_key c c' /\
    gather chain_ eng fuel m (hash m) [] (rev (map blk (seqZ (m + 1) (n - m)))) c = Val (inr (s, rev (map blk (seqZ (j + 1) (n - j)))), c').
Proof.
  intros Hn m fuel c Hm Hf. revert m c Hm Hf. induction fuel as [|fuel IH]; intros m c Hm Hf Hc HA; [lia|]. cbn [gather]. destruct (get_ok (hash m) c Hc) as (c1 & E1 & Hc1 & Hk1 & Hn1). rewrite (step_bind _ _ _ _ _ E1). destruct (snap_contents (recents c) (hash m)) as [s|] eqn:Ec.
  { exists m, s, c1. split; [lia|]. split; [apply (eo_recents _ Hc); [lia|exact Ec]|]. split; [exact Hc1|]. split; [exact Hk1|reflexivity]. }
  rewrite (step_lift _ _ _ _ (go_mod_val m _ (co_interval OK))). destruct (loaded_exact m c1) as (El & Hl); [lia|exact Hc1|]. rewrite (step_bind _ _ _ _ _ El). destruct (loaded m c1) as [s|] eqn:El1.
  { exists m, s, c1. split; [lia|]. split; [by apply Hl|]. split; [exact Hc1|]. split; [exact Hk1|reflexivity]. }
  assert (Hlen : zlen (rev (map blk (seqZ (m + 1) (n - m)))) = n - m) by (unfold zlen; rewrite length_rev, length_map, length_seqZ; lia). rewrite (step_lift _ _ _ _ (trusted_exact m _ ltac:(lia) ltac:(rewrite Hlen; destruct HA as [|(? & ? & _)]; lia))).
  destruct (co_blocks OK m ltac:(lia)) as (H1 & H2 & H3 & H4). destruct (Z.eqb_spec m 0) as [->|Hm0].
  - rewrite (step_lift _ _ _ _ H2), (step_lift _ _ _ _ (co_genesis OK)). cbv zeta. fold genesis. destruct (store_ok 0 genesis c1 ltac:(lia) genesis_at Hc1) as (c2 & E2 & Hc2 & Hk2). rewrite (step_bind _ _ _ _ _ E2). exists 0, genesis, c2. split; [lia|]. split; [apply genesis_at|]. split; [exact Hc2|]. split; [by eapply same_key_trans|reflexivity].
  - assert (EP : pick_header chain_ m (hash m) [] = Val (inr (blk m, []))) by (unfold pick_header; cbn [last]; by rewrite H3). rewrite (step_lift _ _ _ _ EP). pose proof (co_len OK).
    assert (Hu : u64 (m - 1) = m - 1) by (apply u64_id; unfold is_u64; lia). rewrite Hu.
    assert (Hp : b_ParentHash (blk m) = hash (m - 1)). { replace m with (m - 1 + 1) at 1 by lia. apply (co_parents OK). lia. } rewrite Hp.
    replace (rev (map blk (seqZ (m + 1) (n - m))) ++ [blk m]) with (rev (map blk (seqZ (m - 1 + 1) (n - (m - 1))))).
    + destruct (IH (m - 1) c1 ltac:(lia) ltac:(lia) Hc1 (anchored_step n m c c1 HA Ec El1 Hk1 Hn1)) as (j & s & c' & Hj & Hs & Hc' & Hk' & EG). exists j, s, c'. split; [lia|]. split; [exact Hs|]. split; [exact Hc'|]. split; [by eapply same_key_trans|exact EG].
    + rewrite (seqZ_cons (m - 1 + 1)) by lia. cbn [map rev]. replace (Z.succ (m - 1 + 1)) with (m + 1) by lia. replace (Z.pred (n - (m - 1))) with (n - m) by lia. by replace (m - 1 + 1) with m by lia.
Qed.

(** Applying the headers between two blocks. *)
Lemma apply_between j n s c : 0 <= j <= n -> n <= N -> snapshot_at j s -> consistent U c ->
  exists c' s', sn_apply s (map blk (seqZ (j + 1) (n - j))) c = Val (inr s', c') /\ consistent U c' /\ snapshot_at n s'.
Proof.
  intros Hj HN (r & Hr & ->) Hc. assert (Hcfg : sn_config r = e_config eng) by (apply (replayed_config j); [lia|exact Hr]). destruct (replay_to n ltac:(lia)) as [rn Hrn]. pose proof Hrn as Hsplit. rewrite (facts_split j n Hj), replay_app, Hr in Hsplit.
  assert (HF : Forall2 (fact_of U) (map blk (seqZ (j + 1) (n - j))) (map fact (seqZ (j + 1) (n - j)))) by (apply facts_of; lia). pose proof (co_epoch OK) as Hep.
  destruct (sn_apply_exact U (co_hashes OK) (with_Head j (hash j) r) _ _ c ltac:(cbn; rewrite Hcfg; lia) HF Hc) as (c' & k & Hc' & EA & Hl). cbn [sn_config with_Head sn_Number] in EA. rewrite Hcfg in EA.
  destruct (decide (j = n)) as [->|Hne].
  { rewrite Z.sub_diag in *. exists c', (with_Head n (hash n) r). split; [exact EA|]. split; [exact Hc'|]. by exists r. }
  assert (Hcons : seqZ (j + 1) (n - j) = (j + 1) :: seqZ (Z.succ (j + 1)) (Z.pred (n - j))) by (apply seqZ_cons; lia).
  assert (Hch : chain_from j (map fact (seqZ (j + 1) (n - j))) = true).
  { apply chain_numbered; [lia| |apply facts_numbered; lia]. unfold zlen. rewrite length_map, length_seqZ. pose proof (co_len OK). lia. }
  rewrite Hch in EA. rewrite replay_wh, Hsplit in EA. cbn [lift_wh] in EA. assert (Hlen : zlen (map fact (seqZ (j + 1) (n - j))) = n - j) by (unfold zlen; rewrite length_map, length_seqZ; lia). rewrite Hlen in EA.
  cbn [sn_Number with_Head] in EA. replace (u64 (j + (n - j))) with n in EA by (replace (j + (n - j)) with n by lia; symmetry; apply u64_id; pose proof (co_len OK); unfold is_u64; lia).
  assert (Hk : k = hash n).
  { assert (HL : last (map blk (seqZ (j + 1) (n - j))) = Some (blk n)). { replace (n - j) with ((n - j - 1) + 1) by lia. rewrite seqZ_app by lia. rewrite map_app, last_app. replace (j + 1 + (n - j - 1)) with n by lia. rewrite (seqZ_cons n) by lia. change (seqZ (Z.succ n) (Z.pred 1)) with (@nil Z). reflexivity. }
    specialize (Hl _ HL). destruct (co_blocks OK n ltac:(lia)) as (_ & H2 & _). congruence. }
  subst k. exists c', (with_Head n (hash n) rn). split; [|split; [exact Hc'|by exists rn]]. rewrite EA. rewrite Hcons. reflexivity.
Qed.

Lemma Snapshot_exact n fuel c : 0 <= n <= N -> (Z.to_nat n < fuel)%nat -> engine_ok c -> anchored known n c ->
  exists s c', Snapshot_ chain_ eng fuel n (hash n) [] c = Val (inr s, c') /\ engine_ok c' /\ same_key c c' /\ snapshot_at n s.
Proof.
  intros Hn Hf Hc HA. destruct (gather_exact n Hn n fuel c ltac:(lia) Hf Hc HA) as (j & s & c1 & Hj & Hs & Hc1 & Hk1 & EG). rewrite Z.sub_diag in EG. change (rev (map blk (seqZ (n + 1) 0))) with (@nil BlkHeader) in EG.
  destruct (apply_between j n s (signatures c1) Hj ltac:(lia) Hs (eo_signatures _ Hc1)) as (x & s' & EA & Hx & Hs'). set (c2 := with_signatures x c1). assert (Hc2 : engine_ok c2) by (destruct Hc1 as [_ G2 G3]; constructor; [exact Hx|exact G2|exact G3]). assert (Hk2 : same_key c1 c2) by (by split).
  destruct (add_ok n s' c2 Hn Hs' Hc2) as (c3 & E3 & Hc3 & Hk3). destruct (store_ok n s' c3 Hn Hs' Hc3) as (c4 & E4 & Hc4 & Hk4). pose proof (same_key_trans _ _ _ Hk1 (same_key_trans _ _ _ Hk2 Hk3)) as Hk.
  assert (EO : on_signatures (sn_apply s (rev (rev (map blk (seqZ (j + 1) (n - j)))))) c1 = Val (inr s', c2)) by (unfold on_signatures; rewrite rev_involutive, EA; reflexivity).
  unfold Snapshot_. rewrite (step_bind _ _ _ _ _ EG), (step_bind _ _ _ _ _ EO), (step_bind _ _ _ _ _ E3), (step_lift _ _ _ _ (go_mod_val _ _ (co_interval OK))). exists s'. destruct (_ && _); [exists c4|exists c3].
  - rewrite (step_bind _ _ _ _ _ E4). split; [reflexivity|]. split; [exact Hc4|]. split; [by eapply same_key_trans|exact Hs'].
  - rewrite (step_bind _ None _ c3 c3 eq_refl). auto.
Qed.

(** C11 The snapshot of a block is the replay of its chain: on a chain of any length below
    2^64 - 1 that the node has, with distinct hashes, and whose headers are valid, [Snapshot]
    returns, within as many steps as there are blocks, the snapshot that the headers since
    the genesis give, and what it caches and stores are snapshots of the chain. What is cached
    or stored for blocks of the chain must be their snapshots, the database must accept
    writes, and the block must be anchored: the genesis or a cached or stored snapshot lies
    among its last 5000 (FullImmutabilityThreshold) ancestors. Without an anchor the search
    goes on to a checkpoint and trusts the signers listed there, with no recent signers. *)
Theorem Snapshot_replays n fuel c : 0 <= n <= N -> (Z.to_nat n < fuel)%nat -> engine_ok c -> anchored known n c ->
  exists r c', replay epoch genesis (map fact (seqZ 1 n)) = inr r /\ Snapshot_ chain_ eng fuel n (hash n) [] c = Val (inr (with_Head n (hash n) r), c') /\ engine_ok c'.
Proof. intros Hn Hf Hc HA. destruct (Snapshot_exact n fuel c Hn Hf Hc HA) as (s & c' & E1 & Hc' & _ & r & Hr & ->). eauto. Qed.
End Chain.
