(* ===== verification/CliqueSealSpec.v ===== *)
(** * Clique: sealing

    A signer that may sign the next block of a chain prepares a header and seals it; every
    node that has the chain accepts it, whichever snapshots and signatures it has cached. *)

From stdpp Require Import gmap sorting.
From S2P Require Import Prelude Uint256 Errors Machine ChainConfig FeeMarket Authorization Rlp RlpSpec RlpWriter HeaderRlp Consensus Clique CliqueSpec CliqueReplaySpec CliqueChainSpec.

(** ** The extra data *)

Lemma zlen_addr_bytes a : zlen (addr_bytes a) = 20.
Proof. unfold addr_bytes. by rewrite zlen_Z_to_be. Qed.

Lemma zlen_signers_bytes s : zlen (signers_bytes s) = 20 * zlen (GetSigners s).
Proof.
  unfold signers_bytes. induction (GetSigners s) as [|a l IH]; [reflexivity|]. cbn [map]. rewrite zlen_join_cons, zlen_addr_bytes, IH, zlen_cons. lia.
Qed.

(** The vanity, padded or cut to its length. *)
Definition vanity (extra : bytes) : bytes := take (Z.to_nat ExtraVanity) (if zlen extra <? ExtraVanity then extra ++ replicate (Z.to_nat (ExtraVanity - zlen extra)) x00 else extra).

(** What precedes the seal. *)
Definition extra_prefix (checkpoint : bool) (extra : bytes) (s : Snapshot) : bytes :=
  vanity extra ++ (if checkpoint then signers_bytes s else []).

Lemma prepare_extra_eq cp extra s : prepare_extra cp extra s = extra_prefix cp extra s ++ replicate (Z.to_nat ExtraSeal) x00.
Proof. unfold prepare_extra, extra_prefix. destruct cp; [reflexivity|by rewrite app_nil_r]. Qed.

Lemma zlen_vanity extra : zlen (vanity extra) = ExtraVanity.
Proof.
  pose proof (zlen_nonneg extra). unfold vanity, ExtraVanity in *. destruct (Z.ltb_spec (zlen extra) 32); unfold zlen in *; rewrite length_take; [rewrite length_app, length_replicate|]; lia.
Qed.

Lemma zlen_extra_prefix cp extra s : zlen (extra_prefix cp extra s) = ExtraVanity + (if cp then 20 * zlen (GetSigners s) else 0).
Proof. unfold extra_prefix. rewrite zlen_app, zlen_vanity. destruct cp; [by rewrite zlen_signers_bytes|reflexivity]. Qed.

Lemma go_slice_front {A} (p q : list A) : go_slice (p ++ q) 0 (zlen p) = Val p.
Proof.
  pose proof (zlen_nonneg p). pose proof (zlen_nonneg q). rewrite go_slice_val by (rewrite ?zlen_app; lia). f_equal. rewrite Z.sub_0_r. change (Z.to_nat 0) with 0%nat. rewrite drop_0. unfold zlen. rewrite Nat2Z.id. apply take_app_length.
Qed.

Lemma go_slice_back {A} (p q : list A) : go_slice (p ++ q) (zlen p) (zlen (p ++ q)) = Val q.
Proof.
  pose proof (zlen_nonneg p). pose proof (zlen_nonneg q). rewrite go_slice_val by (rewrite ?zlen_app; lia). f_equal. rewrite zlen_app. unfold zlen. rewrite Nat2Z.id, drop_app_length. apply take_ge. lia.
Qed.

Lemma splice_seal {A} (p q sig : list A) : length q = length sig -> splice (p ++ q) (zlen p) sig = p ++ sig.
Proof. intros Hl. unfold splice, zlen. rewrite Nat2Z.id, take_app_length, <- Hl, drop_ge by (rewrite length_app; lia). by rewrite app_nil_r. Qed.

Lemma go_slice_mid {A} (p q r : list A) : go_slice (p ++ q ++ r) (zlen p) (zlen p + zlen q) = Val q.
Proof.
  pose proof (zlen_nonneg p). pose proof (zlen_nonneg q). pose proof (zlen_nonneg r). rewrite go_slice_val by (rewrite ?zlen_app; lia). f_equal. replace (zlen p + zlen q - zlen p) with (zlen q) by lia. unfold zlen. rewrite !Nat2Z.id, drop_app_length. apply take_app_length.
Qed.

(** The listed signers of a checkpoint. *)
Lemma listed_exact extra s sig : go_slice (extra_prefix true extra s ++ sig) ExtraVanity (zlen (extra_prefix true extra s)) = Val (signers_bytes s).
Proof. rewrite <- (zlen_vanity extra). unfold extra_prefix. rewrite zlen_app, <- app_assoc. apply go_slice_mid. Qed.

(** The hash to sign leaves the seal out. *)
Lemma encodeSigHeader_seal h p q sig : b_Extra h = p ++ q -> zlen q = ExtraSeal -> zlen sig = ExtraSeal -> encodeSigHeader (with_extra (p ++ sig) h) = encodeSigHeader h.
Proof.
  intros Hx Hq Hs. unfold encodeSigHeader. cbn [b_Extra with_extra]. rewrite Hx, !zlen_app, Hq, Hs. replace (zlen p + ExtraSeal - ExtraSeal) with (zlen p) by lia. rewrite !go_slice_front. reflexivity.
Qed.

(** ** A signer's key *)

Section Key.
Context {K : Keccak} {E : Secp256k1}.

(** [signFn] signs for [signer]: its signatures have 65 bytes, and the key they recover to is
    the signer's. *)
Definition signs (signer : Z) (signFn : Z -> bytes -> Error + bytes) : Prop :=
  forall message, exists sig key, signFn signer message = inr sig /\ zlen sig = ExtraSeal /\ Ecrecover (hash_bytes (keccak256 message)) sig = inr key /\ 1 <= zlen key /\ keccak256 (drop 1 key) mod two160 = signer.

Lemma recover_sealed signer h p sig key message : b_Extra h = p ++ sig -> zlen sig = ExtraSeal -> encodeSigHeader h = Val message ->
  Ecrecover (hash_bytes (keccak256 message)) sig = inr key -> 1 <= zlen key -> keccak256 (drop 1 key) mod two160 = signer -> recover h = Val (inr signer).
Proof.
  intros Hx Hs Hm He Hk Ha. unfold recover. rewrite Hx. pose proof (zlen_nonneg p). assert (EL : zlen (p ++ sig) - ExtraSeal = zlen p) by (rewrite zlen_app; lia). rewrite EL. destruct (Z.ltb_spec (zlen (p ++ sig)) ExtraSeal); [lia|].
  rewrite go_slice_back. unfold SealHash. rewrite Hm. cbn [mbind Res_bind mret Res_ret]. rewrite He. rewrite go_slice_val by lia. cbn [mbind Res_bind mret Res_ret]. do 2 f_equal. rewrite <- Ha. do 2 f_equal. change (Z.to_nat 1) with 1%nat. apply take_ge. rewrite length_drop. unfold zlen. lia.
Qed.
End Key.

(** ** The next block of a chain *)

Section Sealing.
Context {K : Keccak} {E : Secp256k1} {C : SigCache} {CS : SigCacheSpec C} {SC : SnapCache} {SCS : SnapCacheSpec SC} {SD : SnapDB} {SDS : SnapDBSpec SD}.
Context (chain_ : ChainReader) (eng : Engine) (U : list BlkHeader).
Context (N : Z) (blk : Z -> BlkHeader) (hash : Z -> Z) (fact : Z -> Fact) (signers0 : list Z).
Context (OK : chain_ok chain_ eng U N blk hash fact signers0).

#[local] Abbreviation epoch := (Epoch (e_config eng)).
#[local] Abbreviation good := (engine_ok eng U N hash fact signers0).
#[local] Abbreviation within c := (anchored (known eng hash) N c).

(** The fee market's rules for a header on top of the chain. *)
Definition fee_rules (header : BlkHeader) : Prop :=
  if chain.IsLondon (cr_Config chain_) (N + 1) then VerifyEip1559Header (cr_Config chain_) (fee_fields (blk N)) (fee_fields header) false = Val None
  else b_BaseFee header = None /\ VerifyGaslimit (b_GasLimit (blk N)) (b_GasLimit header) = None.

(** A header to prepare on top of the chain. *)
Record candidate (header : BlkHeader) : Prop := mkCandidate {
  cd_number : b_Number header = Some (N + 1);
  cd_parent : b_ParentHash header = hash N;
  cd_uncles : b_UncleHash header = emptyUncleHash;
  cd_fee : fee_rules header;
  cd_base : non_negative (b_BaseFee header) = true;
  cd_shanghai : b_WithdrawalsHash header = None /\ b_RequestsHash header = None;
  cd_cancun : b_BlobGasUsed header = None /\ b_ExcessBlobGas header = None /\ b_ParentBeaconBlockRoot header = None
}.

(** What [Prepare] and [Seal] make of it. *)
Definition prepared_time (now : Z) : Z :=
  let time := u64 (b_Time (blk N) + Period (e_config eng)) in if time <? u64 now then u64 now else time.

Definition sealed_header (header : BlkHeader) (snap : Snapshot) (vote : Z * bytes) (signer now : Z) (sig : bytes) : BlkHeader :=
  with_prepared header vote.1 vote.2 (turn_difficulty (N + 1) signer snap) (extra_prefix ((N + 1) mod epoch =? 0) (b_Extra header) snap ++ sig) (prepared_time now).

Lemma next_number : 0 < N + 1 < two64 /\ u64 (N + 1) = N + 1 /\ u64 (N + 1 - 1) = N /\ big_Uint64 (N + 1) = N + 1.
Proof.
  pose proof (co_len _ _ _ _ _ _ _ _ OK). assert (0 < N + 1 < two64) by lia. repeat split; try lia.
  - apply u64_id. unfold is_u64. lia.
  - replace (N + 1 - 1) with N by lia. apply u64_id. unfold is_u64. lia.
  - unfold big_Uint64. rewrite Z.abs_eq, Z.mod_small; lia.
Qed.

(** The vote of a prepared header is one the nonce can express. *)
Lemma prepare_vote_nonce props i s v : prepare_vote props i s = Val v -> v.2 = NonceAuthVote \/ v.2 = nonceDropVote.
Proof.
  unfold prepare_vote. set (l := filter _ _). clearbody l. destruct l as [|x l]; [intros H; injection H as <-; by right|]. destruct ((x :: l) !! i) as [[a b]|]; [|discriminate]. intros H. injection H as <-. destruct b; [by left|by right].
Qed.

(** The vote of the block after the chain. *)
Definition next_vote (props : gmap Z bool) (i : nat) (snap : Snapshot) : Res (Z * bytes) :=
  if negb ((N + 1) mod epoch =? 0) then prepare_vote props i snap else mret (0, nonceDropVote).

Lemma calcDifficulty_exact signer snap : signer ∈ Signers snap -> sn_Number snap = N -> calcDifficulty snap signer = Val (turn_difficulty (N + 1) signer snap).
Proof.
  intros Hs Hn. unfold calcDifficulty, inturn, turn_difficulty. rewrite Hn. destruct next_number as (_ & -> & _ & _). rewrite go_mod_val by (by apply (signers_nonempty signer)). by rewrite !res_bind_val.
Qed.

Lemma candidate_number header : b_Number header = Some (N + 1) -> number_of header = Val (N + 1).
Proof. intros Hn. unfold number_of. rewrite Hn. cbn [nonnil mbind Res_bind mret Res_ret]. by destruct next_number as (_ & _ & _ & ->). Qed.

Lemma epoch_nonzero : epoch <> 0.
Proof. pose proof (co_epoch _ _ _ _ _ _ _ _ OK). lia. Qed.

Lemma head_snapshot fuel s c : (Z.to_nat N < fuel)%nat -> good c -> within c -> snapshot_at eng hash fact signers0 N s -> exists c', Snapshot_ chain_ eng fuel N (hash N) [] c = Val (inr s, c') /\ good c' /\ same_key c c'.
Proof.
  intros Hf Hc HA Hs. pose proof (co_len _ _ _ _ _ _ _ _ OK). destruct (Snapshot_exact _ _ _ _ _ _ _ _ OK N fuel c ltac:(lia) Hf Hc HA) as (s' & c' & ES & Hc' & Hk & Hs'). exists c'. split; [|auto]. rewrite ES. destruct Hs as (r & Hr1 & ->), Hs' as (r' & Hr2 & ->). congruence.
Qed.

Lemma Prepare_exact fuel i now header s v c : candidate header -> (Z.to_nat N < fuel)%nat -> good c -> within c ->
  snapshot_at eng hash fact signers0 N s -> c_signer c ∈ Signers s -> next_vote (proposals c) i s = Val v ->
  exists c', Prepare chain_ eng fuel i now header c = Val (inr (sealed_header header s v (c_signer c) now (replicate (Z.to_nat ExtraSeal) x00)), c') /\ good c' /\ same_key c c'.
Proof.
  intros [Hn Hp _ _ _ _ _] Hf Hc HA Hs Hsig Hv. destruct next_number as (Hr & Hu & Hu1 & Hb). pose proof (co_len _ _ _ _ _ _ _ _ OK). destruct (head_snapshot fuel s c Hf Hc HA Hs) as (c' & ES & Hc' & Hk).
  assert (HN : sn_Number s = N) by (destruct Hs as (r & _ & ->); reflexivity). pose proof Hk as [K1 K2 _ _]. exists c'. split; [|auto]. unfold Prepare. rewrite (step_lift _ _ _ _ (candidate_number header Hn)), Hu1, Hp, (step_bind _ _ _ _ _ ES).
  rewrite (step_lift _ _ _ _ (go_mod_val _ _ epoch_nonzero)). cbv zeta. rewrite (step_bind (gets proposals) (proposals c) _ c' c') by (unfold gets; by rewrite K1). unfold next_vote in Hv. rewrite (step_lift _ _ _ _ Hv). destruct v as [cb nonce]. rewrite (step_bind (gets c_signer) (c_signer c) _ c' c') by (unfold gets; by rewrite K2).
  rewrite (step_lift _ _ _ _ (calcDifficulty_exact (c_signer c) s Hsig HN)). destruct (co_blocks _ _ _ _ _ _ _ _ OK N ltac:(lia)) as (_ & _ & -> & _). rewrite prepare_extra_eq. reflexivity.
Qed.

(** A signer the next block of the chain may have. *)
Definition ready (signer : Z) (s : Snapshot) : Prop := signer ∈ Signers s /\ check_signer signer (expire (N + 1) s) = None.

Lemma ready_not_recent signer s : ready signer s ->
  existsb (fun kv => (kv.2 =? signer) && ((N + 1 <? limit s) || (u64 (N + 1 - limit s) <? kv.1))) (map_to_list (Recents s)) = false.
Proof.
  intros [_ Hc]. apply check_signer_None in Hc as [_ Hc]. apply not_true_iff_false. rewrite existsb_exists. intros ([k a] & Hin & Hb). apply list_elem_of_In, elem_of_map_to_list in Hin. cbn [fst snd] in Hb. apply andb_true_iff in Hb as [Ha Hb]. apply Z.eqb_eq in Ha. subst a.
  apply (Hc k). unfold expire. destruct next_number as (Hr & _). pose proof (limit_pos s). destruct (Z.leb_spec (limit s) (N + 1)) as [Hle|]; [|exact Hin]. cbn [Recents with_Recents]. rewrite lookup_delete_ne; [exact Hin|].
  destruct (Z.ltb_spec (N + 1) (limit s)); [lia|]. cbn [orb] in Hb. apply Z.ltb_lt in Hb. rewrite u64_id in Hb by (unfold is_u64; lia). lia.
Qed.

Lemma ready_seal signer s : ready signer s -> seal_recent (N + 1) signer s = false.
Proof.
  intros Hr. pose proof (ready_not_recent signer s Hr) as HF. apply not_true_iff_false in HF. apply not_true_iff_false. intros HT. apply HF. unfold seal_recent in HT. rewrite existsb_exists in *. destruct HT as (kv & Hin & Hb). exists kv. split; [exact Hin|].
  apply andb_true_iff in Hb as [-> ->]. by rewrite orb_true_r.
Qed.

Lemma turn_difficulty_cases n a s : turn_difficulty n a s = DiffInTurn \/ turn_difficulty n a s = diffNoTurn.
Proof. unfold turn_difficulty. destruct (_ =? _); auto. Qed.

(** The message of a candidate exists, and does not depend on the seal. *)
Lemma sealed_message header s v signer now : candidate header -> exists message, forall sig, zlen sig = ExtraSeal -> encodeSigHeader (sealed_header header s v signer now sig) = Val message.
Proof.
  intros [Hn _ _ _ Hb _ _]. set (zeros := replicate (Z.to_nat ExtraSeal) x00). assert (Hz : zlen zeros = ExtraSeal) by reflexivity. assert (HM : exists message, encodeSigHeader (sealed_header header s v signer now zeros) = Val message).
  { unfold encodeSigHeader, sealed_header. cbn [b_Extra with_prepared b_Difficulty b_Number b_BaseFee]. rewrite zlen_app, Hz. replace (zlen _ + ExtraSeal - ExtraSeal) with (zlen (extra_prefix ((N + 1) mod epoch =? 0) (b_Extra header) s)) by lia. rewrite go_slice_front, res_bind_val, Hn, Hb. destruct next_number as (Hr & _).
    assert (HD : non_negative (Some (turn_difficulty (N + 1) signer s)) = true) by (destruct (turn_difficulty_cases (N + 1) signer s) as [-> | ->]; reflexivity). assert (HN : non_negative (Some (N + 1)) = true) by (apply Z.leb_le; lia). rewrite HD, HN. eexists. reflexivity. }
  destruct HM as [message HM]. exists message. intros sig Hs. rewrite <- HM. apply (encodeSigHeader_seal (sealed_header header s v signer now zeros) (extra_prefix ((N + 1) mod epoch =? 0) (b_Extra header) s) zeros sig); [reflexivity|exact Hz|exact Hs].
Qed.

Lemma Seal_exact fuel emptyBlock header s v now c : candidate header -> (Z.to_nat N < fuel)%nat -> good c -> within c -> snapshot_at eng hash fact signers0 N s -> ready (c_signer c) s -> signs (c_signer c) (signFn c) ->
  (Period (e_config eng) =? 0) && emptyBlock = false ->
  exists sig c', zlen sig = ExtraSeal /\ Seal chain_ eng fuel emptyBlock (sealed_header header s v (c_signer c) now (replicate (Z.to_nat ExtraSeal) x00)) c = Val (SealHeader (sealed_header header s v (c_signer c) now sig), c') /\
    good c' /\ recover (sealed_header header s v (c_signer c) now sig) = Val (inr (c_signer c)).
Proof.
  intros Hcd Hf Hc HA Hs Hr Hk Hp. pose proof Hcd as [Hn Hph _ _ _ _ _]. destruct next_number as (Hpos & Hu & Hu1 & Hb). destruct (head_snapshot fuel s c Hf Hc HA Hs) as (c' & ES & Hc' & _). set (signer := c_signer c) in *. destruct (sealed_message header s v signer now Hcd) as [message HM]. destruct (Hk message) as (sig & key & E1 & Hl & E2 & Hk1 & Hk2).
  exists sig, c'. split; [exact Hl|]. split; [|split; [exact Hc'|]].
  - unfold Seal. set (h := sealed_header header s v signer now (replicate (Z.to_nat ExtraSeal) x00)). rewrite (step_lift (number_of h) (N + 1) _ _ (candidate_number h Hn)). destruct (Z.eqb_spec (N + 1) 0); [lia|]. rewrite Hp. change (b_ParentHash h) with (b_ParentHash header). rewrite Hph. replace (N + 1 - 1) with N by lia.
    rewrite (step_bind (gets c_signer) signer _ c c) by reflexivity. rewrite (step_bind (gets signFn) (signFn c) _ c c) by reflexivity. rewrite (step_bind _ _ _ _ _ ES). rewrite bool_decide_true by apply Hr. cbn [negb]. rewrite (ready_not_recent signer s Hr).
    change (b_Difficulty h) with (Some (turn_difficulty (N + 1) signer s)). rewrite (step_lift _ (turn_difficulty (N + 1) signer s)) by reflexivity. rewrite (step_lift (CliqueRLP h) message) by (by apply HM). rewrite E1.
    change (b_Extra h) with (extra_prefix ((N + 1) mod epoch =? 0) (b_Extra header) s ++ replicate (Z.to_nat ExtraSeal) x00). set (p := extra_prefix _ _ _). cbv zeta. replace (zlen (p ++ replicate (Z.to_nat ExtraSeal) x00) - ExtraSeal) with (zlen p) by (rewrite zlen_app, zlen_replicate; unfold ExtraSeal; lia).
    pose proof (zlen_nonneg p). destruct (Z.ltb_spec (zlen p) 0); [lia|]. rewrite take_ge by (unfold zlen in Hl; lia). rewrite splice_seal by (rewrite length_replicate; unfold zlen in Hl; lia). reflexivity.
  - eapply recover_sealed; [reflexivity|exact Hl|by apply HM|exact E2|exact Hk1|exact Hk2].
Qed.

(** ** The checks of the sealed header *)

Section Sealed.
Context (header : BlkHeader) (s : Snapshot) (v : Z * bytes) (signer now : Z) (sig : bytes).
Context (Hcd : candidate header) (Hsig : zlen sig = ExtraSeal).
#[local] Abbreviation sealed := (sealed_header header s v signer now sig).

Lemma sealed_standalone now' : (v.2 = NonceAuthVote \/ v.2 = nonceDropVote) -> ((N + 1) mod epoch = 0 -> v = (0, nonceDropVote)) -> b_Time sealed <= u64 now' ->
  verify_standalone (e_config eng) now' sealed = Val None.
Proof.
  intros Hv Hcp Ht. destruct Hcd as [Hn _ Hun _ _ [Hw Hq] _]. unfold verify_standalone. change (b_Number sealed) with (b_Number header). rewrite Hn. destruct next_number as (Hpos & _ & _ & Hb). cbv zeta. rewrite Hb. destruct (Z.ltb_spec (u64 now') (b_Time sealed)); [lia|].
  rewrite (go_mod_val _ _ epoch_nonzero), res_bind_val. unfold mret, Res_ret. f_equal.
  change (b_Nonce sealed) with v.2. change (b_Coinbase sealed) with v.1. change (b_MixDigest sealed) with 0. change (b_UncleHash sealed) with (b_UncleHash header). change (b_WithdrawalsHash sealed) with (b_WithdrawalsHash header). change (b_RequestsHash sealed) with (b_RequestsHash header). rewrite Hun, Hw, Hq, !Z.eqb_refl.
  assert (HL : zlen (b_Extra sealed) = ExtraVanity + (if (N + 1) mod epoch =? 0 then 20 * zlen (GetSigners s) else 0) + ExtraSeal) by (change (b_Extra sealed) with (extra_prefix ((N + 1) mod epoch =? 0) (b_Extra header) s ++ sig); by rewrite zlen_app, zlen_extra_prefix, Hsig).
  assert (HV : bool_decide (vote_of v.2 = None) = false) by (destruct Hv as [-> | ->]; reflexivity). assert (HD : match b_Difficulty sealed with Some d => negb (d =? DiffInTurn) && negb (d =? diffNoTurn) | None => true end = false).
  { change (b_Difficulty sealed) with (Some (turn_difficulty (N + 1) signer s)). destruct (turn_difficulty_cases (N + 1) signer s) as [-> | ->]; reflexivity. }
  pose proof (zlen_nonneg (GetSigners s)). rewrite HD, HV, HL, andb_false_r. assert (EV : ExtraVanity = 32) by reflexivity. assert (EQ : ExtraSeal = 65) by reflexivity.
  destruct (Z.eqb_spec ((N + 1) mod epoch) 0) as [Hz|Hz]; cbn [negb andb].
  - rewrite (Hcp Hz). cbn [fst snd negb Z.eqb andb]. rewrite bool_decide_true by reflexivity. cbn [negb]. destruct (Z.ltb_spec (ExtraVanity + 20 * zlen (GetSigners s) + ExtraSeal) ExtraVanity); [lia|]. destruct (Z.ltb_spec (ExtraVanity + 20 * zlen (GetSigners s) + ExtraSeal) (ExtraVanity + ExtraSeal)); [lia|].
    replace (ExtraVanity + 20 * zlen (GetSigners s) + ExtraSeal - ExtraVanity - ExtraSeal) with (zlen (GetSigners s) * 20) by lia. rewrite Z_mod_mult. reflexivity.
  - replace (ExtraVanity + 0 + ExtraSeal - ExtraVanity - ExtraSeal) with 0 by lia. reflexivity.
Qed.

Lemma sealed_parent : verify_parent (cr_Config chain_) (e_config eng) sealed (blk N) = Val None.
Proof.
  destruct Hcd as [Hn _ _ Hfee _ _ (H1 & H2 & H3)]. unfold verify_parent. rewrite (candidate_number sealed Hn), res_bind_val. change (b_Time sealed) with (prepared_time now). assert (Ht : (prepared_time now <? u64 (b_Time (blk N) + Period (e_config eng))) = false).
  { apply Z.ltb_ge. unfold prepared_time. cbv zeta. destruct (Z.ltb_spec (u64 (b_Time (blk N) + Period (e_config eng))) (u64 now)); lia. }
  rewrite Ht. assert (HA : VerifyAbsenceOfCancunHeaderFields (fee_fields sealed) = None) by (unfold VerifyAbsenceOfCancunHeaderFields; cbn [fee_fields h_BlobGasUsed h_ExcessBlobGas h_ParentBeaconBlockRoot sealed_header with_prepared b_BlobGasUsed b_ExcessBlobGas b_ParentBeaconBlockRoot]; by rewrite H1, H2, H3).
  unfold fee_rules in Hfee. destruct (chain.IsLondon (cr_Config chain_) (N + 1)); cbn [negb].
  - change (VerifyEip1559Header (cr_Config chain_) (fee_fields (blk N)) (fee_fields sealed) false) with (VerifyEip1559Header (cr_Config chain_) (fee_fields (blk N)) (fee_fields header) false). rewrite Hfee, res_bind_val. by rewrite HA.
  - destruct Hfee as [Hb Hg]. change (b_BaseFee sealed) with (b_BaseFee header). change (b_GasLimit sealed) with (b_GasLimit header). rewrite Hb, Hg. change (mret None) with (@Val (option Error) None) at 1. rewrite res_bind_val. by rewrite HA.
Qed.

Lemma sealed_checkpoint : verify_checkpoint (e_config eng) sealed s = Val None.
Proof.
  destruct Hcd as [Hn _ _ _ _ _ _]. unfold verify_checkpoint. rewrite (candidate_number sealed Hn), res_bind_val, (go_mod_val _ _ epoch_nonzero), res_bind_val. change (b_Extra sealed) with (extra_prefix ((N + 1) mod epoch =? 0) (b_Extra header) s ++ sig). destruct ((N + 1) mod epoch =? 0); [|reflexivity].
  rewrite zlen_app, Hsig. replace (zlen _ + ExtraSeal - ExtraSeal) with (zlen (extra_prefix true (b_Extra header) s)) by lia. rewrite listed_exact, res_bind_val. by rewrite bool_decide_true.
Qed.

Lemma sealed_verifies fuel now' c k : (v.2 = NonceAuthVote \/ v.2 = nonceDropVote) -> ((N + 1) mod epoch = 0 -> v = (0, nonceDropVote)) -> b_Time sealed <= u64 now' ->
  (Z.to_nat N < fuel)%nat -> good c -> within c -> snapshot_at eng hash fact signers0 N s -> ready signer s -> sealed ∈ U -> h_Hash sealed = Val k -> recover sealed = Val (inr signer) ->
  exists c', VerifyHeader chain_ eng fuel now' sealed c = Val (None, c').
Proof.
  intros Hv Hcp Ht Hf Hc HA Hs Hr HU Hk Hrec. pose proof Hcd as [Hn Hp _ _ _ _ _]. destruct (head_snapshot fuel s c Hf Hc HA Hs) as (c1 & ES & Hc1 & _). destruct next_number as (Hpos & _). pose proof (co_len _ _ _ _ _ _ _ _ OK). destruct (co_blocks _ _ _ _ _ _ _ _ OK N ltac:(lia)) as (B1 & B2 & B3 & _).
  assert (HF : fact_of U sealed (mkFact (N + 1) (inr signer) v.1 v.2)) by (split; [exact HU|]; split; [exact (candidate_number sealed Hn)|]; split; [by exists k|]; split; [exact Hrec|]; split; reflexivity).
  destruct (verifySeal_exact U (co_hashes _ _ _ _ _ _ _ _ OK) (FakeDiff eng) sealed _ s (signatures c1) HF ltac:(cbn; lia) ltac:(discriminate) (eo_signatures _ _ _ _ _ _ _ Hc1)) as (x & EV & _). exists (with_signatures x c1).
  unfold VerifyHeader, verifyHeader. rewrite (step_lift _ _ _ _ (sealed_standalone now' Hv Hcp Ht)). unfold verifyCascadingFields. rewrite (step_lift _ _ _ _ (candidate_number sealed Hn)). destruct (Z.eqb_spec (N + 1) 0); [lia|]. cbn [last]. change (b_ParentHash sealed) with (b_ParentHash header). rewrite Hp. replace (N + 1 - 1) with N by lia. rewrite B3.
  rewrite (step_lift _ _ _ _ B1), Z.eqb_refl, (step_lift _ _ _ _ B2), Z.eqb_refl. cbn [negb orb]. rewrite (step_lift _ _ _ _ sealed_parent), (step_bind _ _ _ _ _ ES), (step_lift _ _ _ _ sealed_checkpoint). unfold on_signatures. rewrite EV. do 2 f_equal. cbn [f_signer f_number]. unfold seal_result. rewrite bool_decide_true by apply Hr. cbn [negb]. rewrite (ready_seal signer s Hr). destruct (FakeDiff eng); [reflexivity|]. by rewrite bool_decide_true.
Qed.
End Sealed.

(** C10 A signer's block is accepted: on top of a valid chain of any length below 2^64 - 1, a
    signer that may sign the next block prepares a header and seals it without error, and
    every node with the chain accepts the sealed header once its time has come. For the signer
    and the node alike, what is cached or stored for blocks of the chain are their snapshots,
    the database accepts writes and keeps what it has, and the head is anchored: the genesis
    or a snapshot at hand (for the signer, one in the database) lies among its last 5000
    ancestors. The signing function must sign for the signer, blocks must not be empty when
    the period is 0, and a header is determined by its hash among the ones considered. *)
Theorem sealed_header_verifies header i emptyBlock r now fuel c : candidate header -> replay epoch (genesis eng hash signers0) (map fact (seqZ 1 N)) = inr r -> c_signer c ∈ may_sign (N + 1) r ->
  (exists v, next_vote (proposals c) i r = Val v) -> signs (c_signer c) (signFn c) -> (Period (e_config eng) =? 0) && emptyBlock = false -> (Z.to_nat N < fuel)%nat -> good c -> anchored (stored eng hash) N c ->
  exists prepared sealed c1 c2, Prepare chain_ eng fuel i now header c = Val (inr prepared, c1) /\ Seal chain_ eng fuel emptyBlock prepared c1 = Val (SealHeader sealed, c2) /\
    forall now' k c3, sealed ∈ U -> h_Hash sealed = Val k -> b_Time sealed <= u64 now' -> good c3 -> within c3 -> exists c4, VerifyHeader chain_ eng fuel now' sealed c3 = Val (None, c4).
Proof.
  intros Hcd Hrep Hm (v & Hv) Hk Hp Hf Hc HA. set (s := with_Head N (hash N) r). assert (Hs : snapshot_at eng hash fact signers0 N s) by (exists r; split; [exact Hrep|reflexivity]). apply elem_of_filter in Hm as [Hm1 Hm2].
  assert (Hr : ready (c_signer c) s) by (split; [exact Hm2|]; unfold s; rewrite expire_wh; exact Hm1). assert (Hvs : next_vote (proposals c) i s = Val v) by exact Hv.
  destruct (Prepare_exact fuel i now header s v c Hcd Hf Hc (anchored_known _ _ _ _ HA) Hs Hm2 Hvs) as (c1 & EP & Hc1 & HK). pose proof HK as [_ K2 K3 _]. rewrite <- K2, <- K3 in Hk. rewrite <- K2 in Hr, EP. destruct (Seal_exact fuel emptyBlock header s v now c1 Hcd Hf Hc1 (anchored_known _ _ _ _ (anchored_kept _ _ _ _ _ HK HA)) Hs Hr Hk Hp) as (sig & c2 & Hl & EZ & _ & Hrec).
  eexists _, _, c1, c2. split; [exact EP|]. split; [exact EZ|]. intros now' k c3 HU Hh Ht Hc3 HA3.
  assert (H1 : (v.2 = NonceAuthVote \/ v.2 = nonceDropVote) /\ ((N + 1) mod epoch = 0 -> v = (0, nonceDropVote))).
  { unfold next_vote in Hv. destruct (Z.eqb_spec ((N + 1) mod epoch) 0); cbn [negb] in Hv; [injection Hv as <-; split; [by right|done]|]. split; [by eapply prepare_vote_nonce|done]. }
  exact (sealed_verifies header s v _ now sig Hcd Hl fuel now' c3 k (proj1 H1) (proj2 H1) Ht Hf Hc3 HA3 Hs Hr HU Hh Hrec).
Qed.
End Sealing.
