(* ===== verification/CliqueDemo.v ===== *)
(** * Clique: a small chain

    Four signers and a chain of two blocks, with a hash function and a signature scheme in
    place of the real ones: the theorems on Clique at work on concrete headers. *)

From stdpp Require Import gmap sorting.
From S2P Require Import Prelude Uint256 Errors Machine ChainConfig FeeMarket Authorization Rlp RlpSpec RlpWriter HeaderRlp Consensus Clique CliqueSpec CliqueReplaySpec CliqueChainSpec CliqueSealSpec.

(** A polynomial hash; a signature holds the key of its signer. *)
#[local] Instance demo_keccak : Keccak := fun b => fold_left (fun acc x => (acc * 263 + byteZ x + 1) mod 1000003) b 0.
#[local] Instance demo_ecrecover : Secp256k1 := fun _ sig => inr (x04 :: take 20 sig).
#[local] Instance demo_sigcache : SigCache := {| sigcache := gmap Z Z; sig_Peek k c := c !! k; sig_Add k v c := <[k := v]> c |}.
#[local] Instance demo_sigcache_spec : SigCacheSpec demo_sigcache.
Proof. intros k v c k' v'. cbn. destruct (decide (k' = k)) as [->|Hk]; [rewrite lookup_insert_eq; intros H; injection H as ->; by left|]. rewrite lookup_insert_ne by done. by right. Qed.

(** A cache of snapshots, and a database that forgets the configurations. *)
#[local] Instance demo_snapcache : SnapCache := {| snapcache := gmap Z Snapshot; snap_Get k c := (c !! k, c); snap_Add k v c := <[k := v]> c |}.
#[local] Instance demo_snapcache_spec : SnapCacheSpec demo_snapcache.
Proof.
  refine {| snap_contents (c : @snapcache demo_snapcache) k := (c : gmap Z Snapshot) !! k |}; [by split|]. intros k v c k' v'. cbn. destruct (decide (k' = k)) as [->|Hk]; [rewrite lookup_insert_eq; intros H; injection H as ->; by left|]. rewrite lookup_insert_ne by done. by right.
Defined.
#[local] Instance demo_snapdb : SnapDB := {| snapdb := gmap (Z * Z) Snapshot; db_Get n h d := d !! (n, h); db_Put n h s d := inr (<[(n, h) := with_config (mkCliqueConfig 0 0) s]> d) |}.
#[local] Instance demo_snapdb_spec : SnapDBSpec demo_snapdb.
Proof.
  split.
  - intros n h s d d' n' h' s'. cbn. intros H. injection H as <-. destruct (decide ((n', h') = (n, h))) as [E|Hk]; [injection E as -> ->; rewrite lookup_insert_eq; intros H; injection H as <-; by left|]. rewrite lookup_insert_ne by congruence. by right.
  - intros n h s d d' n' h'. cbn. intros H. injection H as <-. rewrite lookup_insert_is_Some. destruct (decide ((n, h) = (n', h'))); auto.
Qed.

Definition no_cache : sigcache := (∅ : gmap Z Z).

Definition demo_sig (x : byte) : bytes := replicate 20 x ++ replicate 45 x00.
Definition demo_addr (x : byte) : Z := demo_keccak (replicate 20 x) mod two160.

Definition demo_signFn (x : byte) (_ : Z) (_ : bytes) : Error + bytes := inr (demo_sig x).

Definition demo_signers : list Z := map demo_addr [x01; x02; x03; x04].
Definition demo_config : CliqueConfig := mkCliqueConfig 15 30000.
Definition demo_snap (h : Z) : Snapshot := newSnapshot demo_config 0 h demo_signers.

Definition demo_blk (number parent coinbase : Z) (nonce : bytes) (difficulty time : Z) (extra : bytes) : BlkHeader :=
  mkBlk parent emptyUncleHash coinbase 0 0 0 (replicate 256 x00) (Some difficulty) (Some number) 8000000 0 time extra 0 nonce 0 [] None None None None None None.
Definition hash_or_zero (h : BlkHeader) : Z := match h_Hash h with Val k => k | _ => 0 end.

(** Block 1 votes for a fifth signer, block 2 against the first one. *)
Definition blk0 : BlkHeader := demo_blk 0 0 0 nonceDropVote 1 1000 (replicate 32 x00 ++ mjoin (map addr_bytes demo_signers) ++ replicate 65 x00).
Definition signed (number parent : Z) (coinbase : Z) (nonce : bytes) (who : byte) : BlkHeader :=
  demo_blk number parent coinbase nonce (turn_difficulty number (demo_addr who) (demo_snap 0)) (1000 + 15 * number) (replicate 32 x00 ++ demo_sig who).
Definition hash0 : Z := Eval vm_compute in hash_or_zero blk0.
Definition blk1 : BlkHeader := signed 1 hash0 (demo_addr x05) NonceAuthVote x01.
Definition hash1 : Z := Eval vm_compute in hash_or_zero blk1.
Definition blk2 : BlkHeader := signed 2 hash1 (demo_addr x01) nonceDropVote x02.
Definition hash2 : Z := Eval vm_compute in hash_or_zero blk2.
Definition blk3 : BlkHeader := signed 3 hash2 (demo_addr x05) NonceAuthVote x03.
(** Block 2 by the signer of block 1. *)
Definition again : BlkHeader := signed 2 hash1 0 nonceDropVote x01.

Definition demo_U : list BlkHeader := [blk1; blk2; blk3; again].
Definition demo_block (n : Z) : BlkHeader := if n =? 0 then blk0 else if n =? 1 then blk1 else blk2.
Definition demo_hash (n : Z) : Z := if n =? 0 then hash0 else if n =? 1 then hash1 else hash2.
Definition fact_at (number : Z) (who : byte) (h : BlkHeader) : Fact := mkFact number (inr (demo_addr who)) (b_Coinbase h) (b_Nonce h).
Definition demo_fact (n : Z) : Fact := if n =? 1 then fact_at 1 x01 blk1 else fact_at 2 x02 blk2.

Definition demo_chain : ChainReader :=
  mkChainReader chain.TestChainConfig
    (fun h n => if (0 <=? n) && (n <=? 2) && (h =? demo_hash n) then Some (demo_block n) else None)
    (fun n => if (0 <=? n) && (n <=? 2) then Some (demo_block n) else None)
    (fun _ _ => None) (fun _ _ => None).
Definition demo_engine : Engine := mkEngine demo_config 1024 false.
(** Nothing is cached or stored yet; the key of signer [x] is in use. *)
Definition demo_state (x : byte) : CliqueState := mkCliqueState no_cache (∅ : gmap Z Snapshot) (∅ : gmap (Z * Z) Snapshot) {[demo_addr x05 := true]} (demo_addr x) (demo_signFn x).

(** ** Its headers *)

Lemma demo_hashes h h' k : h ∈ demo_U -> h' ∈ demo_U -> h_Hash h = Val k -> h_Hash h' = Val k -> recover h = recover h'.
Proof.
  intros H1 H2 E1 E2. assert (HN : NoDup (map hash_or_zero demo_U)) by (apply (bool_decide_unpack _); vm_compute; exact I). apply list_elem_of_lookup in H1 as [i Hi]. apply list_elem_of_lookup in H2 as [j Hj].
  assert (i = j) as -> by (eapply (NoDup_lookup _ i j k HN); rewrite list_lookup_fmap; [rewrite Hi|rewrite Hj]; cbn [fmap option_fmap option_map]; unfold hash_or_zero; [rewrite E1|rewrite E2]; reflexivity). congruence.
Qed.

Lemma demo_fact_of n h who : h ∈ demo_U -> number_of h = Val n -> h_Hash h = Val (hash_or_zero h) -> recover h = Val (inr (demo_addr who)) -> fact_of demo_U h (fact_at n who h).
Proof. intros H1 H2 H3 H4. split; [exact H1|]. split; [exact H2|]. split; [by eexists|]. split; [exact H4|]. split; reflexivity. Qed.

Lemma fact_blk1 : fact_of demo_U blk1 (fact_at 1 x01 blk1).
Proof. apply demo_fact_of; [unfold demo_U; set_solver|vm_compute; reflexivity..]. Qed.
Lemma fact_blk2 : fact_of demo_U blk2 (fact_at 2 x02 blk2).
Proof. apply demo_fact_of; [unfold demo_U; set_solver|vm_compute; reflexivity..]. Qed.
Lemma fact_blk3 : fact_of demo_U blk3 (fact_at 3 x03 blk3).
Proof. apply demo_fact_of; [unfold demo_U; set_solver|vm_compute; reflexivity..]. Qed.
Lemma fact_again : fact_of demo_U again (fact_at 2 x01 again).
Proof. apply demo_fact_of; [unfold demo_U; set_solver|vm_compute; reflexivity..]. Qed.

Lemma demo_empty_cache : consistent demo_U no_cache.
Proof. intros h k a _ _ H. change ((∅ : gmap Z Z) !! k = Some a) in H. rewrite lookup_empty in H. discriminate. Qed.

Lemma demo_chain_ok : chain_ok demo_chain demo_engine demo_U 2 demo_block demo_hash demo_fact demo_signers.
Proof.
  constructor.
  - split; reflexivity || discriminate.
  - reflexivity.
  - discriminate.
  - exact demo_hashes.
  - intros n Hn. assert (n = 0 \/ n = 1 \/ n = 2) as [-> | [-> | ->]] by lia; vm_compute; auto.
  - intros n Hn. assert (n = 0 \/ n = 1) as [-> | ->] by lia; vm_compute; reflexivity.
  - intros n Hn. assert (n = 1 \/ n = 2) as [-> | ->] by lia; [exact fact_blk1|exact fact_blk2].
  - vm_compute. reflexivity.
  - eexists. vm_compute. reflexivity.
  - intros n m Hn Hm. assert (n = 0 \/ n = 1 \/ n = 2) as [-> | [-> | ->]] by lia; assert (m = 0 \/ m = 1 \/ m = 2) as [-> | [-> | ->]] by lia; vm_compute; congruence.
  - intros n h s d. eexists. reflexivity.
Qed.

Lemma demo_state_ok x : engine_ok demo_engine demo_U 2 demo_hash demo_fact demo_signers (demo_state x).
Proof.
  constructor; [exact demo_empty_cache|intros n s _ H; change ((∅ : gmap Z Snapshot) !! demo_hash n = Some s) in H; by rewrite lookup_empty in H|].
  intros n s _ H. change ((∅ : gmap (Z * Z) Snapshot) !! (n, demo_hash n) = Some s) in H. by rewrite lookup_empty in H.
Qed.

(** The chain is short enough for the search to end at the genesis. *)
Lemma demo_anchored x : anchored (known demo_engine demo_hash) 2 (demo_state x).
Proof. left. discriminate. Qed.
Lemma demo_anchored_store x : anchored (stored demo_engine demo_hash) 2 (demo_state x).
Proof. left. discriminate. Qed.

Lemma replay_ok s0 facts s h : snapshot_ok s0 -> numbered (sn_Number s0) facts -> replay (Epoch (sn_config s0)) s0 facts = inr s -> snapshot_ok (with_Head (sn_Number s0 + zlen facts) h s).
Proof.
  intros [He Hn HV HR] Hnum E. destruct (replay_inv _ facts _ _ s HV Hn HR Hnum E) as ([V1 V2 V3] & [R1 R2] & Hh & _). injection Hh as Hc _ _. pose proof (zlen_nonneg facts). constructor; cbn; [by rewrite Hc|lia|by constructor|by constructor].
Qed.
Lemma genesis_ok h : snapshot_ok (demo_snap h).
Proof. apply (newSnapshot_ok demo_config 0 h demo_signers); [reflexivity|lia]. Qed.

(** The snapshots of blocks 1 and 2. *)
Definition demo_replay (facts : list Fact) : Snapshot :=
  match replay 30000 (demo_snap (demo_hash 0)) facts with inr s => with_Head (0 + zlen facts) (demo_hash (zlen facts)) s | inl _ => demo_snap 0 end.
Definition snap1 : Snapshot := demo_replay [demo_fact 1].
Definition snap2 : Snapshot := demo_replay [demo_fact 1; demo_fact 2].

Lemma demo_replay_ok facts : numbered 0 facts -> snapshot_ok (demo_replay facts).
Proof.
  intros Hn. unfold demo_replay. destruct (replay 30000 (demo_snap (demo_hash 0)) facts) as [e|s] eqn:E; [apply genesis_ok|]. exact (replay_ok (demo_snap (demo_hash 0)) facts s _ (genesis_ok _) Hn E).
Qed.
Lemma snap1_ok : snapshot_ok snap1.
Proof. apply demo_replay_ok. by repeat split. Qed.
Lemma snap2_ok : snapshot_ok snap2.
Proof. apply demo_replay_ok. by repeat split. Qed.

(** ** The theorems at work *)

Lemma demo_applies : match sn_apply (demo_snap (demo_hash 0)) [blk1; blk2] no_cache with Val (inr _, _) => True | _ => False end.
Proof. vm_compute. exact I. Qed.

Lemma apply_refines_witness : exists r c', sn_apply (demo_snap (demo_hash 0)) [blk1; blk2] no_cache = Val (r, c') /\ exists s', r = inr s' /\ snapshot_ok s' /\ sn_Number s' = 2.
Proof.
  destruct (apply_refines demo_U demo_hashes (demo_snap (demo_hash 0)) [blk1; blk2] [fact_at 1 x01 blk1; fact_at 2 x02 blk2] no_cache) as (r & c' & E & _ & Hr).
  - apply genesis_ok.
  - constructor; [exact fact_blk1|]. constructor; [exact fact_blk2|constructor].
  - exact demo_empty_cache.
  - by repeat split.
  - vm_compute. reflexivity.
  - exists r, c'. split; [exact E|]. pose proof demo_applies as HA. rewrite E in HA. destruct r as [e|s']; [exact (False_ind _ HA)|]. exists s'. split; [reflexivity|]. destruct Hr as (H1 & H2 & _). split; [exact H1|]. rewrite H2. reflexivity.
Defined.

Lemma half_may_sign_witness : 2 <= Z.of_nat (size (may_sign (sn_Number snap2 + 1) snap2)).
Proof. pose proof (half_may_sign snap2 snap2_ok) as H. replace (Z.of_nat (size (Signers snap2))) with 4 in H by (vm_compute; reflexivity). exact H. Defined.

Lemma verified_seal_applies_witness : exists s', header_result 30000 snap2 (fact_at 3 x03 blk3) = inr s'.
Proof.
  assert (ES : exists c', verifySeal false blk3 snap2 no_cache = Val (None, c')) by (eexists; vm_compute; reflexivity). destruct ES as [c' ES].
  refine (verified_seal_applies demo_U demo_hashes false blk3 (fact_at 3 x03 blk3) snap2 no_cache c' snap2_ok fact_blk3 demo_empty_cache _ _ _ _ _ _ ES); vm_compute; congruence.
Defined.

Lemma early_repeat_accepted_witness : (exists c', verifySeal false again snap1 no_cache = Val (None, c')) /\ header_result 30000 snap1 (fact_at 2 x01 again) = inl ErrRecentlySigned.
Proof.
  refine (early_repeat_accepted demo_U demo_hashes again (fact_at 2 x01 again) (demo_addr x01) 1 snap1 no_cache snap1_ok fact_again demo_empty_cache _ _ _ _ _ _ _ _); vm_compute; congruence.
Defined.

Lemma Snapshot_replays_witness : exists r c', replay 30000 (demo_snap (demo_hash 0)) [demo_fact 1; demo_fact 2] = inr r /\ Snapshot_ demo_chain demo_engine 3 2 (demo_hash 2) [] (demo_state x03) = Val (inr (with_Head 2 (demo_hash 2) r), c').
Proof.
  destruct (Snapshot_replays demo_chain demo_engine demo_U 2 demo_block demo_hash demo_fact demo_signers demo_chain_ok 2 3 (demo_state x03) ltac:(lia) ltac:(lia) (demo_state_ok x03) (demo_anchored x03)) as (r & c' & H1 & H2 & _). exists r, c'. split; [exact H1|exact H2].
Defined.

(** The third signer's turn: it proposes the fifth account, and what it seals is block 3. *)
Definition to_prepare : BlkHeader := demo_blk 3 (demo_hash 2) 0 [] 0 0 [].

Lemma demo_candidate : candidate demo_chain 2 demo_block demo_hash to_prepare.
Proof. constructor; vm_compute; auto. Qed.
Lemma demo_signs : signs (demo_addr x03) (demo_signFn x03).
Proof. intros message. exists (demo_sig x03), (x04 :: replicate 20 x03). split; [reflexivity|]. split; [reflexivity|]. split; [reflexivity|]. split; [discriminate|reflexivity]. Qed.

Lemma demo_made :
  match Prepare demo_chain demo_engine 5 0 900 to_prepare (demo_state x03) with
  | Val (inr p, c1) => match Seal demo_chain demo_engine 5 false p c1 with Val (SealHeader h, _) => h = blk3 | _ => False end
  | _ => False
  end.
Proof. vm_compute. reflexivity. Qed.
Definition replayed2 : Snapshot := with_Head 0 (demo_hash 0) snap2.
Lemma demo_replayed : replay (Epoch (e_config demo_engine)) (genesis demo_engine demo_hash demo_signers) (map demo_fact (seqZ 1 2)) = inr replayed2.
Proof. vm_compute. reflexivity. Qed.
Lemma demo_may_sign : demo_addr x03 ∈ may_sign (2 + 1) replayed2.
Proof. apply (bool_decide_unpack _). vm_compute. exact I. Qed.
Lemma demo_next_vote : exists v, next_vote demo_engine 2 {[demo_addr x05 := true]} 0 replayed2 = Val v.
Proof. eexists. vm_compute. reflexivity. Qed.
Lemma blk3_hash : h_Hash blk3 = Val (hash_or_zero blk3).
Proof. vm_compute. reflexivity. Qed.
Lemma blk3_time : b_Time blk3 <= u64 2000.
Proof. vm_compute. discriminate. Qed.

Lemma sealed_header_verifies_witness : exists c, VerifyHeader demo_chain demo_engine 5 2000 blk3 (demo_state x01) = Val (None, c).
Proof.
  destruct (sealed_header_verifies demo_chain demo_engine demo_U 2 demo_block demo_hash demo_fact demo_signers demo_chain_ok to_prepare 0 false replayed2 900 5 (demo_state x03)
    demo_candidate demo_replayed demo_may_sign demo_next_vote demo_signs eq_refl ltac:(lia) (demo_state_ok x03) (demo_anchored_store x03)) as (p & h & c1 & c2 & EP & EZ & HV).
  pose proof demo_made as HM. rewrite EP, EZ in HM. subst h. exact (HV 2000 _ (demo_state x01) (proj1 fact_blk3) blk3_hash blk3_time (demo_state_ok x01) (demo_anchored x01)).
Defined.
