(* ===== verification/Ethash.v ===== *)
(** * Ethash: proof of work

    The engine of [execution/consensus/ethash]: the difficulty of a block, over big integers
    ([consensus.go]) and over 256-bit ones ([difficulty.go]); the checks of headers and of
    uncles; rewards; the proof of work itself ([algorithm.go]): the dataset and hashimoto.
    Keccak-512 is third-party, as is Keccak-256. The caches of an epoch, which [ethash.go]
    keeps in memory and in files, are arguments. *)

From stdpp Require Import gmap.
From S2P Require Import Prelude Uint256 Errors Machine ChainConfig FeeMarket Rlp RlpSpec RlpWriter HeaderRlp Consensus.

(** ** Difficulty over big integers *)

Definition DifficultyBoundDivisor : Z := 2048.
Definition MinimumDifficulty : Z := 131072.
Definition DurationLimit : Z := 13.
Definition expDiffPeriod : Z := 100000.

(** [makeDifficultyCalculator]; divisions are of [big.Int] by a positive number. *)
Definition makeDifficultyCalculator (bombDelay time parentTime parentDifficulty parentNumber parentUncleHash : Z) : Z :=
  let bombDelayFromParent := u64 (bombDelay - 1) in
  let x := (time - parentTime) / 9 in
  let x := if parentUncleHash =? emptyUncleHash then 1 - x else 2 - x in
  let x := if x <? -99 then -99 else x in
  let y := parentDifficulty / DifficultyBoundDivisor in
  let x := parentDifficulty + y * x in
  let x := if x <? MinimumDifficulty then MinimumDifficulty else x in
  let fakeBlockNumber := if bombDelayFromParent <=? parentNumber then u64 (parentNumber - bombDelayFromParent) else 0 in
  let periodCount := fakeBlockNumber / expDiffPeriod in
  if 1 <? periodCount then x + 2 ^ (periodCount - 2) else x.

Definition calcDifficultyEip5133 : Z -> Z -> Z -> Z -> Z -> Z := makeDifficultyCalculator 11400000.
Definition calcDifficultyEip4345 : Z -> Z -> Z -> Z -> Z -> Z := makeDifficultyCalculator 10700000.
Definition calcDifficultyEip3554 : Z -> Z -> Z -> Z -> Z -> Z := makeDifficultyCalculator 9700000.
Definition calcDifficultyEip2384 : Z -> Z -> Z -> Z -> Z -> Z := makeDifficultyCalculator 9000000.
Definition calcDifficultyConstantinople : Z -> Z -> Z -> Z -> Z -> Z := makeDifficultyCalculator 5000000.
Definition calcDifficultyByzantium : Z -> Z -> Z -> Z -> Z -> Z := makeDifficultyCalculator 3000000.

Definition calcDifficultyHomestead (time parentTime parentDifficulty parentNumber : Z) (_ : Z) : Z :=
  let x := (time - parentTime) / 10 in
  let x := 1 - x in
  let x := if x <? -99 then -99 else x in
  let y := parentDifficulty / DifficultyBoundDivisor in
  let x := parentDifficulty + y * x in
  let x := if x <? MinimumDifficulty then MinimumDifficulty else x in
  let periodCount := u64 (parentNumber + 1) / expDiffPeriod in
  if 1 <? periodCount then x + 2 ^ (periodCount - 2) else x.

Definition calcDifficultyFrontier (time parentTime parentDifficulty parentNumber : Z) (_ : Z) : Z :=
  let adjust := parentDifficulty / DifficultyBoundDivisor in
  let diff := if time - parentTime <? DurationLimit then parentDifficulty + adjust else parentDifficulty - adjust in
  let diff := if diff <? MinimumDifficulty then MinimumDifficulty else diff in
  let periodCount := u64 (parentNumber + 1) / expDiffPeriod in
  if 1 <? periodCount then Z.max (diff + 2 ^ (periodCount - 2)) MinimumDifficulty else diff.

(** A nil difficulty is dereferenced by every rule. *)
Definition CalcDifficulty (config : chain.Config) (time parentTime : Z) (parentDifficulty : option Z) (parentNumber parentUncleHash : Z) : Res Z :=
  d ← nonnil parentDifficulty;
  let next := u64 (parentNumber + 1) in
  mret ((if chain.IsGrayGlacier config next then calcDifficultyEip5133
         else if chain.IsArrowGlacier config next then calcDifficultyEip4345
         else if chain.IsLondon config next then calcDifficultyEip3554
         else if chain.IsMuirGlacier config next then calcDifficultyEip2384
         else if chain.IsConstantinople config next then calcDifficultyConstantinople
         else if chain.IsByzantium config next then calcDifficultyByzantium
         else if chain.IsHomestead config next then calcDifficultyHomestead
         else calcDifficultyFrontier) time parentTime d parentNumber parentUncleHash).

(** ** Difficulty over 256-bit integers *)

Definition frontierDurationLimit : Z := 13.
Definition minimumDifficulty : Z := 131072.
Definition expDiffPeriodUint : Z := 100000.
Definition difficultyBoundDivisor : Z := 11.

Section U256.
Context {U : Uint256}.

Definition CalcDifficultyFrontierU256 (time : Z) (parent : BlkHeader) : Res Z :=
  d ← nonnil (b_Difficulty parent);
  let pDiff := (u_FromBig d).1 in
  let adjust := u_Rsh pDiff difficultyBoundDivisor in
  let pDiff := if u64 (time - b_Time parent) <? frontierDurationLimit then u_Add pDiff adjust else u_Sub pDiff adjust in
  let pDiff := if u_LtUint64 pDiff minimumDifficulty then minimumDifficulty else pDiff in
  n ← number_of parent;
  let periodCount := u64 (n + 1) / expDiffPeriodUint in
  mret (if 1 <? periodCount then u_Add pDiff (u_Lsh 1 (periodCount - 2)) else pDiff).

Definition CalcDifficultyHomesteadU256 (time : Z) (parent : BlkHeader) : Res Z :=
  d ← nonnil (b_Difficulty parent);
  let pDiff := (u_FromBig d).1 in
  let adjust := u_Rsh pDiff difficultyBoundDivisor in
  let x := u64 (time - b_Time parent) / 10 in
  let '(x, neg) := if x =? 0 then (1, false) else if 100 <=? x then (99, true) else (x - 1, true) in
  let adjust := u_Mul adjust x in
  let pDiff := if neg : bool then u_Sub pDiff adjust else u_Add pDiff adjust in
  let pDiff := if u_LtUint64 pDiff minimumDifficulty then minimumDifficulty else pDiff in
  n ← number_of parent;
  let periodCount := u64 (1 + n) / expDiffPeriodUint in
  mret (if 1 <? periodCount then u_Add pDiff (u_Lsh 1 (periodCount - 2)) else pDiff).

Definition MakeDifficultyCalculatorU256 (bombDelay time : Z) (parent : BlkHeader) : Res Z :=
  let bombDelayFromParent := u64 (bombDelay - 1) in
  let x := u64 (time - b_Time parent) / 9 in
  let c := if negb (b_UncleHash parent =? emptyUncleHash) then 2 else 1 in
  let xNeg := c <=? x in
  let x := if xNeg then x - c else c - x in
  let x := if 99 <? x then 99 else x in
  d ← nonnil (b_Difficulty parent);
  let pDiff := (u_FromBig d).1 in
  let y := u_Rsh pDiff difficultyBoundDivisor in
  let z := u_Mul y x in
  let y := if xNeg then u_Sub pDiff z else u_Add pDiff z in
  let y := if u_LtUint64 y minimumDifficulty then minimumDifficulty else y in
  pNum ← number_of parent;
  mret (if bombDelayFromParent <=? pNum then
          let fakeBlockNumber := pNum - bombDelayFromParent in
          if 2 * expDiffPeriodUint <=? fakeBlockNumber then u_Add (u_Lsh 1 (fakeBlockNumber / expDiffPeriodUint - 2)) y else y
        else y).
End U256.

(** ** The dataset and hashimoto *)

Definition u32 (z : Z) : Z := z mod 2 ^ 32.
Definition mixBytes : Z := 128.
Definition hashBytes : Z := 64.
Definition hashWords : Z := 16.
Definition datasetParents : nat := 256.
Definition loopAccesses : nat := 64.
Definition primeFNV : Z := 0x01000193.

Definition le_Uint32 (b : bytes) : Z := be_to_Z (rev (take 4 b)).
Definition le_PutUint32 (x : Z) : bytes := rev (Z_to_be 4 x).
(** Words in little-endian bytes, and back. *)
Definition put_words (ws : list Z) : bytes := mjoin (map le_PutUint32 ws).
Fixpoint get_words (n : nat) (b : bytes) : list Z :=
  match n with O => [] | S n => le_Uint32 b :: get_words n (drop 4 b) end.

Definition fnv (a b : Z) : Z := Z.lxor (u32 (a * primeFNV)) b.
Definition fnvHash16 (mix data : list Z) : Res (list Z) := if zlen data <? 16 then Panic "index out of range" else mret (zip_with fnv mix data).
Definition fnvHash32 (mix data : list Z) : Res (list Z) := if zlen data <? 32 then Panic "index out of range" else mret (zip_with fnv mix data).

Class Keccak512 : Type := keccak512 : bytes -> bytes.
Class Keccak512Spec (K : Keccak512) : Prop := keccak512_length b : zlen (keccak512 b) = 64.

Section Hashimoto.
Context {K : Keccak} {K5 : Keccak512}.

(** The loop over the parents of an item. *)
Fixpoint mix_parents (cache : list Z) (rows index : Z) (n : nat) (i : Z) (intMix : list Z) : Res (list Z) :=
  match n with
  | O => mret intMix
  | S n =>
      w ← go_index intMix (i mod 16);
      let parent := fnv (Z.lxor index i) w mod rows in
      data ← go_slice cache (u32 (parent * hashWords)) (zlen cache);
      intMix ← fnvHash16 intMix data;
      mix_parents cache rows index n (i + 1) intMix
  end.

Definition generateDatasetItem (cache : list Z) (index : Z) : Res bytes :=
  let rows := u32 (zlen cache / hashWords) in
  if rows =? 0 then Panic "integer divide by zero"
  else
    row ← go_slice cache (u32 (index mod rows * hashWords)) (u32 (index mod rows * hashWords) + 16);
    let mix := put_words (match row with w :: ws => Z.lxor w index :: ws | [] => [] end) in
    let mix := keccak512 mix in
    intMix ← mix_parents cache rows index datasetParents 0 (get_words 16 mix);
    mret (keccak512 (put_words intMix)).

(** The rows one goroutine writes. *)
Definition dataset_segment (size threads id : Z) : list Z :=
  let batch := u64 (size + hashBytes * threads - 1) / (hashBytes * threads) in
  let first := u64 (id * batch) in
  let limit := u64 (first + batch) in
  let limit := if size / hashBytes <? limit then size / hashBytes else limit in
  seqZ first (limit - first).

(** One write: the item at its place among the words of the dataset; the progress report
    divides by a hundredth of the number of items. *)
Definition write_item (cache : list Z) (index : Z) (dest : list Z) : Res (list Z) :=
  item ← generateDatasetItem cache (u32 index);
  if zlen dest * 4 / hashBytes / 100 =? 0 then Panic "integer divide by zero"
  else mret (splice dest (index * hashWords) (get_words 16 item)).

Fixpoint write_items (cache : list Z) (order : list Z) (dest : list Z) : Res (list Z) :=
  match order with [] => mret dest | index :: order => dest ← write_item cache index dest; write_items cache order dest end.

(** The goroutines together, in an order of their writes. *)
Definition dataset_writes (size threads : Z) : list Z := mjoin (map (dataset_segment size threads) (seqZ 0 threads)).
Definition generateDataset (order : list Z) (cache dest : list Z) : Res (list Z) := write_items cache order dest.

Section Mix.
Context (lookup : Z -> Res (list Z)).

Fixpoint mix_loop (n : nat) (i rows seedHead : Z) (mix : list Z) : Res (list Z) :=
  match n with
  | O => mret mix
  | S n =>
      w ← go_index mix (i mod zlen mix);
      if rows =? 0 then Panic "integer divide by zero"
      else
        let parent := fnv (Z.lxor (u32 i) seedHead) w mod rows in
        a ← lookup (u32 (2 * parent));
        b ← lookup (u32 (2 * parent + 1));
        mix ← fnvHash32 mix (take 16 a ++ take 16 b);
        mix_loop n (i + 1) rows seedHead mix
  end.
End Mix.

(** [mix[i/4] = fnv(fnv(fnv(mix[i], mix[i+1]), mix[i+2]), mix[i+3])]: the word written has
    been read already. *)
Fixpoint compress (mix : list Z) : list Z :=
  match mix with a :: b :: c :: d :: mix => fnv (fnv (fnv a b) c) d :: compress mix | _ => [] end.

(** [hash] is a [common.Hash], [nonce] a [uint64]; the second result is read as a number. *)
Definition hashimoto (hash nonce size : Z) (lookup : Z -> Res (list Z)) : Res (bytes * Z) :=
  let rows := u32 (size / mixBytes) in
  let seed := keccak512 (hash_bytes hash ++ rev (Z_to_be 8 nonce)) in
  let seedHead := le_Uint32 seed in
  let mix := get_words 16 seed in
  mix ← mix_loop lookup loopAccesses 0 rows seedHead (mix ++ mix);
  let digest := put_words (compress mix) in
  mret (digest, keccak256 (seed ++ digest)).

Definition hashimotoLight (size : Z) (cache : list Z) (hash nonce : Z) : Res (bytes * Z) :=
  hashimoto hash nonce size (fun index => item ← generateDatasetItem cache index; mret (get_words 16 item)).

Definition hashimotoFull (dataset : list Z) (hash nonce : Z) : Res (bytes * Z) :=
  hashimoto hash nonce (zlen dataset * 4) (fun index =>
    let offset := u32 (index * hashWords) in go_slice dataset offset (u32 (offset + hashWords))).
End Hashimoto.
