(* ===== verification/EthashSpec.v ===== *)
(** * Ethash: the difficulty, the dataset and hashimoto

    The difficulty over 256-bit integers is the difficulty over big integers; it stays within
    the bounds of the yellow paper. However many goroutines generate the dataset and however
    their writes interleave, the dataset is the same, and the proof of work computed from it
    is the one computed from the cache alone. *)

From stdpp Require Import sorting.
From S2P Require Import Prelude Uint256 Errors Machine ChainConfig FeeMarket HeaderRlp Consensus Ethash.

(** A difficulty and a block number the 256-bit arithmetic has room for. *)
Definition u256_room (pd n : Z) : Prop := 0 <= pd < 2 ^ 254 /\ 0 <= n < 25599999.

Section U256.
Context {U : Uint256} {US : Uint256Spec U}.

Lemma eighth pd : 0 <= pd -> 0 <= pd / 2048 /\ 2048 * (pd / 2048) <= pd.
Proof. intros H. pose proof (Z.div_pos pd 2048 H ltac:(lia)). pose proof (Z.mul_div_le pd 2048 ltac:(lia)). lia. Qed.

(** Raising and lowering by at most 99 parts in 2048. *)
Lemma u_raise pd x : 0 <= pd < 2 ^ 254 -> 0 <= x <= 99 -> u_Add pd (u_Mul (u_Rsh pd difficultyBoundDivisor) x) = pd + pd / 2048 * x.
Proof.
  intros Hp Hx. destruct (eighth pd ltac:(lia)) as [H1 H2]. assert (Hn : 0 <= pd / 2048 * x <= pd) by nia. assert (HR : u_Rsh pd difficultyBoundDivisor = pd / 2048) by (apply Rsh_spec; unfold is_u256, two256, difficultyBoundDivisor; lia). rewrite HR.
  rewrite Mul_spec by (unfold is_u256, two256; lia). rewrite (Z.mod_small (_ * _)) by (unfold two256; lia). rewrite Add_spec by (unfold is_u256, two256; lia). apply Z.mod_small. unfold two256. lia.
Qed.
Lemma u_lower pd x : 0 <= pd < 2 ^ 254 -> 0 <= x <= 99 -> u_Sub pd (u_Mul (u_Rsh pd difficultyBoundDivisor) x) = pd - pd / 2048 * x.
Proof.
  intros Hp Hx. destruct (eighth pd ltac:(lia)) as [H1 H2]. assert (Hn : 0 <= pd / 2048 * x <= pd) by nia. assert (HR : u_Rsh pd difficultyBoundDivisor = pd / 2048) by (apply Rsh_spec; unfold is_u256, two256, difficultyBoundDivisor; lia). rewrite HR.
  rewrite Mul_spec by (unfold is_u256, two256; lia). rewrite (Z.mod_small (_ * _)) by (unfold two256; lia). rewrite Sub_spec by (unfold is_u256, two256; lia). apply Z.mod_small. unfold two256. lia.
Qed.

Lemma u_clamp y : 0 <= y < 2 ^ 255 -> (if u_LtUint64 y minimumDifficulty then minimumDifficulty else y) = if y <? MinimumDifficulty then MinimumDifficulty else y.
Proof. intros Hy. rewrite LtUint64_spec; [reflexivity|unfold is_u256, two256; lia|unfold is_u64, minimumDifficulty, two64; lia]. Qed.

Lemma u_bomb y p : 0 <= y < 2 ^ 255 -> 2 <= p <= 255 -> u_Add y (u_Lsh 1 (p - 2)) = y + 2 ^ (p - 2) /\ u_Add (u_Lsh 1 (p - 2)) y = y + 2 ^ (p - 2).
Proof.
  intros Hy Hp. assert (Hb : 0 < 2 ^ (p - 2) <= 2 ^ 253) by (split; [apply Z.pow_pos_nonneg; lia|apply Z.pow_le_mono_r; lia]). assert (HL : u_Lsh 1 (p - 2) = 2 ^ (p - 2)) by (rewrite Lsh_spec, Z.mul_1_l by (unfold is_u256, two256; lia); apply Z.mod_small; unfold two256; lia). rewrite HL.
  split; (rewrite Add_spec by (unfold is_u256, two256; lia)); rewrite Z.mod_small by (unfold two256; lia); lia.
Qed.

Lemma raised_bound pd x : 0 <= pd < 2 ^ 254 -> -99 <= x <= 99 -> 0 <= pd + pd / 2048 * x < 2 ^ 255.
Proof. intros Hp Hx. destruct (eighth pd ltac:(lia)) as [H1 H2]. nia. Qed.

Lemma clamp_bound y : 0 <= y < 2 ^ 255 -> 0 <= (if y <? MinimumDifficulty then MinimumDifficulty else y) < 2 ^ 255.
Proof. intros Hy. unfold MinimumDifficulty. destruct (_ <? _); lia. Qed.

Context (time : Z) (parent : BlkHeader) (pd n : Z).
Context (Hd : b_Difficulty parent = Some pd) (Hn : b_Number parent = Some n) (Hroom : u256_room pd n).
Context (Htime : 0 <= b_Time parent <= time) (Hmax : time < two64).

Lemma elapsed_exact : u64 (time - b_Time parent) = time - b_Time parent.
Proof. apply u64_id. unfold is_u64. lia. Qed.
Lemma parent_number : number_of parent = Val n.
Proof. unfold number_of. rewrite Hn. cbn. f_equal. unfold big_Uint64. destruct Hroom. rewrite Z.abs_eq, Z.mod_small; unfold two64; lia. Qed.
Lemma parent_difficulty : (u_FromBig pd).1 = pd.
Proof. destruct Hroom. rewrite FromBig_spec by lia. cbn. apply Z.mod_small. unfold two256. lia. Qed.

Lemma period_bound m : 0 <= m <= n + 1 -> 0 <= m / 100000 <= 255.
Proof. intros Hm. destruct Hroom as [_ H]. split; [apply Z.div_pos; lia|]. apply Z.lt_succ_r. apply Z.div_lt_upper_bound; lia. Qed.

Lemma frontier_exact u : CalcDifficultyFrontierU256 time parent = Val (calcDifficultyFrontier time (b_Time parent) pd n u).
Proof.
  destruct Hroom as [Hp Hb]. unfold CalcDifficultyFrontierU256. rewrite Hd. cbn [nonnil mbind Res_bind mret Res_ret]. rewrite parent_difficulty, parent_number, elapsed_exact. cbn [mbind Res_bind mret Res_ret]. unfold calcDifficultyFrontier. f_equal.
  set (y := if time - b_Time parent <? frontierDurationLimit then _ else _). assert (Ey : y = if time - b_Time parent <? DurationLimit then pd + pd / DifficultyBoundDivisor else pd - pd / DifficultyBoundDivisor).
  { pose proof (u_raise pd 1 Hp ltac:(lia)) as H1. pose proof (u_lower pd 1 Hp ltac:(lia)) as H2. assert (HR : u_Rsh pd difficultyBoundDivisor = pd / 2048) by (apply Rsh_spec; unfold is_u256, two256, difficultyBoundDivisor; lia).
    destruct (eighth pd ltac:(lia)). rewrite HR, Mul_spec, Z.mul_1_r, Z.mod_small in H1, H2 by (unfold is_u256, two256; lia). unfold y, frontierDurationLimit, DurationLimit, DifficultyBoundDivisor. rewrite HR, H1, H2. reflexivity. }
  rewrite Ey. clear Ey y. set (y := if time - b_Time parent <? DurationLimit then _ else _). assert (Hy : 0 <= y < 2 ^ 255) by (pose proof (raised_bound pd 1 Hp ltac:(lia)); pose proof (raised_bound pd (-1) Hp ltac:(lia)); unfold y, DifficultyBoundDivisor; destruct (_ <? DurationLimit); lia). rewrite (u_clamp y Hy).
  pose proof (clamp_bound y Hy) as Hc. set (w := if y <? MinimumDifficulty then _ else y) in *. assert (Hw : MinimumDifficulty <= w) by (unfold w; destruct (Z.ltb_spec y MinimumDifficulty); lia). unfold expDiffPeriodUint, expDiffPeriod. rewrite u64_id by (unfold is_u64, two64; lia).
  pose proof (period_bound (n + 1) ltac:(lia)) as HP. destruct (Z.ltb_spec 1 ((n + 1) / 100000)); [|reflexivity]. destruct (u_bomb w ((n + 1) / 100000) Hc ltac:(lia)) as [-> _]. symmetry. apply Z.max_l. pose proof (Z.pow_nonneg 2 ((n + 1) / 100000 - 2) ltac:(lia)). lia.
Qed.

Lemma homestead_exact u : CalcDifficultyHomesteadU256 time parent = Val (calcDifficultyHomestead time (b_Time parent) pd n u).
Proof.
  destruct Hroom as [Hp Hb]. unfold CalcDifficultyHomesteadU256. rewrite Hd. cbn [nonnil mbind Res_bind mret Res_ret]. rewrite parent_difficulty, parent_number, elapsed_exact. unfold calcDifficultyHomestead. set (q := (time - b_Time parent) / 10). assert (Hq : 0 <= q) by (apply Z.div_pos; lia).
  set (x := if 1 - q <? -99 then -99 else 1 - q). assert (HE : exists a neg, (if q =? 0 then (1, false) else if 100 <=? q then (99, true) else (q - 1, true)) = (a, neg) /\ 0 <= a <= 99 /\ x = if neg : bool then - a else a).
  { unfold x. destruct (Z.eqb_spec q 0); [exists 1, false; repeat split; try lia; destruct (Z.ltb_spec (1 - q) (-99)); lia|]. destruct (Z.leb_spec 100 q); [exists 99, true|exists (q - 1), true]; repeat split; try lia; destruct (Z.ltb_spec (1 - q) (-99)); lia. }
  destruct HE as (a & neg & -> & Ha & Hx). cbn [mbind Res_bind mret Res_ret]. f_equal.
  set (y := if neg then _ else _). assert (Ey : y = pd + pd / DifficultyBoundDivisor * x) by (unfold y, DifficultyBoundDivisor; rewrite Hx; destruct neg; [rewrite u_lower by assumption; ring|by apply u_raise]). rewrite Ey.
  assert (Hy : 0 <= pd + pd / DifficultyBoundDivisor * x < 2 ^ 255) by (apply raised_bound; [exact Hp|destruct neg; lia]). rewrite (u_clamp _ Hy). pose proof (clamp_bound _ Hy) as Hc. set (w := if pd + pd / DifficultyBoundDivisor * x <? MinimumDifficulty then _ else _) in *.
  unfold expDiffPeriodUint, expDiffPeriod. rewrite (Z.add_comm 1 n), u64_id by (unfold is_u64, two64; lia). pose proof (period_bound (n + 1) ltac:(lia)) as HP. destruct (Z.ltb_spec 1 ((n + 1) / 100000)); [|reflexivity]. by destruct (u_bomb w ((n + 1) / 100000) Hc ltac:(lia)) as [-> _].
Qed.

Lemma calculator_exact delay : 1 <= delay <= two64 ->
  MakeDifficultyCalculatorU256 delay time parent = Val (makeDifficultyCalculator delay time (b_Time parent) pd n (b_UncleHash parent)).
Proof.
  intros Hdl. destruct Hroom as [Hp Hb]. unfold MakeDifficultyCalculatorU256. rewrite Hd. cbn [nonnil mbind Res_bind mret Res_ret]. rewrite parent_difficulty, parent_number, elapsed_exact. unfold makeDifficultyCalculator. rewrite (u64_id (delay - 1)) by (unfold is_u64; lia). set (q := (time - b_Time parent) / 9). assert (Hq : 0 <= q) by (apply Z.div_pos; lia).
  set (c := if negb (b_UncleHash parent =? emptyUncleHash) then 2 else 1). replace (if b_UncleHash parent =? emptyUncleHash then 1 - q else 2 - q) with (c - q) by (unfold c; by destruct (b_UncleHash parent =? emptyUncleHash)). assert (Hcc : c = 1 \/ c = 2) by (unfold c; destruct (negb _); auto). clearbody c.
  set (x := if c - q <? -99 then -99 else c - q). set (a := if 99 <? (if c <=? q then q - c else c - q) then 99 else if c <=? q then q - c else c - q). assert (Hx : 0 <= a <= 99 /\ x = if c <=? q then - a else a).
  { unfold x, a. destruct (Z.leb_spec c q); [destruct (Z.ltb_spec 99 (q - c)), (Z.ltb_spec (c - q) (-99)); lia|destruct (Z.ltb_spec 99 (c - q)), (Z.ltb_spec (c - q) (-99)); lia]. }
  destruct Hx as [Ha Hx]. cbn [mbind Res_bind mret Res_ret]. f_equal. set (y := if c <=? q then u_Sub _ _ else _). assert (Ey : y = pd + pd / DifficultyBoundDivisor * x) by (unfold y, DifficultyBoundDivisor; rewrite Hx; destruct (c <=? q); [rewrite u_lower by assumption; ring|by apply u_raise]). rewrite Ey.
  assert (Hy : 0 <= pd + pd / DifficultyBoundDivisor * x < 2 ^ 255) by (apply raised_bound; [exact Hp|destruct (c <=? q); lia]). rewrite (u_clamp _ Hy). pose proof (clamp_bound _ Hy) as Hc. set (w := if pd + pd / DifficultyBoundDivisor * x <? MinimumDifficulty then _ else _) in *.
  unfold expDiffPeriodUint, expDiffPeriod. destruct (Z.leb_spec (delay - 1) n) as [Hle|Hgt]; [|reflexivity]. rewrite u64_id by (unfold is_u64, two64; lia). pose proof (period_bound (n - (delay - 1)) ltac:(lia)) as HP.
  destruct (Z.leb_spec (2 * 100000) (n - (delay - 1))) as [H2|H2].
  - assert (2 <= (n - (delay - 1)) / 100000) by (apply Z.div_le_lower_bound; lia). destruct (Z.ltb_spec 1 ((n - (delay - 1)) / 100000)); [|lia]. by destruct (u_bomb w ((n - (delay - 1)) / 100000) Hc ltac:(lia)) as [_ ->].
  - assert ((n - (delay - 1)) / 100000 < 2) by (apply Z.div_lt_upper_bound; lia). destruct (Z.ltb_spec 1 ((n - (delay - 1)) / 100000)); [lia|reflexivity].
Qed.
End U256.

(** C17 The difficulty over 256-bit integers is the difficulty over big integers, for the
    Frontier, Homestead and later rules with any delay of the bomb, whenever the timestamps
    increase and the parent's difficulty and number leave room for the sums. *)
Theorem difficulty_u256_exact {U : Uint256} {US : Uint256Spec U} time parent pd n u : b_Difficulty parent = Some pd -> b_Number parent = Some n -> u256_room pd n -> 0 <= b_Time parent <= time -> time < two64 ->
  CalcDifficultyFrontierU256 time parent = Val (calcDifficultyFrontier time (b_Time parent) pd n u) /\
  CalcDifficultyHomesteadU256 time parent = Val (calcDifficultyHomestead time (b_Time parent) pd n u) /\
  forall delay, 1 <= delay <= two64 -> MakeDifficultyCalculatorU256 delay time parent = Val (makeDifficultyCalculator delay time (b_Time parent) pd n (b_UncleHash parent)).
Proof. intros Hd Hn Hr Ht Hm. split; [by apply frontier_exact|]. split; [by apply homestead_exact|]. intros delay Hdl. by apply calculator_exact. Qed.

(** ** Bounds *)

(** A difficulty as the rules make it: the parent's, moved by [k] parts in 2048 and not
    below the minimum, and the bomb. *)
Definition ruled (pd n d : Z) : Prop := exists k bomb,
  -99 <= k <= 2 /\ d = Z.max MinimumDifficulty (pd + pd / 2048 * k) + bomb /\
  0 <= bomb /\ (n + 1 < 200000 -> bomb = 0) /\ (200000 <= n + 1 -> bomb <= 2 ^ ((n + 1) / 100000 - 2)).

Lemma clamp_max y : (if y <? MinimumDifficulty then MinimumDifficulty else y) = Z.max MinimumDifficulty y.
Proof. destruct (Z.ltb_spec y MinimumDifficulty); lia. Qed.

(** The bomb of a block number, real or fake. *)
Lemma bomb_ruled pd n y k m : y = Z.max MinimumDifficulty (pd + pd / 2048 * k) -> -99 <= k <= 2 -> 0 <= m <= n + 1 -> ruled pd n (if 1 <? m / 100000 then y + 2 ^ (m / 100000 - 2) else y).
Proof.
  intros Hy Hk Hm. exists k. assert (Hd : m / 100000 <= (n + 1) / 100000) by (apply Z.div_le_mono; lia). destruct (Z.ltb_spec 1 (m / 100000)) as [Hp|Hp]; [exists (2 ^ (m / 100000 - 2))|exists 0].
  - split; [exact Hk|]. split; [lia|]. split; [apply Z.pow_nonneg; lia|]. split; [|intros _; apply Z.pow_le_mono_r; lia]. intros Hs. exfalso. assert ((n + 1) / 100000 < 2) by (apply Z.div_lt_upper_bound; lia). lia.
  - split; [exact Hk|]. split; [lia|]. split; [lia|]. split; [done|]. intros _. apply Z.pow_nonneg. lia.
Qed.

Lemma calculator_ruled delay time ptime pd n u : 0 <= n < two64 -> 1 <= delay <= two64 -> ptime <= time -> ruled pd n (makeDifficultyCalculator delay time ptime pd n u).
Proof.
  intros Hn Hd Ht. unfold makeDifficultyCalculator. rewrite (u64_id (delay - 1)) by (unfold is_u64; lia). set (q := (time - ptime) / 9). assert (Hq : 0 <= q) by (apply Z.div_pos; lia). set (x := if u =? emptyUncleHash then 1 - q else 2 - q). rewrite clamp_max. apply (bomb_ruled _ _ _ (if x <? -99 then -99 else x)); [reflexivity| |].
  - unfold x. destruct (u =? emptyUncleHash); [destruct (Z.ltb_spec (1 - q) (-99))|destruct (Z.ltb_spec (2 - q) (-99))]; lia.
  - destruct (Z.leb_spec (delay - 1) n); [rewrite u64_id by (unfold is_u64; lia)|]; lia.
Qed.

Lemma homestead_ruled time ptime pd n u : 0 <= n -> n + 1 < two64 -> ptime <= time -> ruled pd n (calcDifficultyHomestead time ptime pd n u).
Proof.
  intros Hn Hd Ht. unfold calcDifficultyHomestead. set (q := (time - ptime) / 10). assert (Hq : 0 <= q) by (apply Z.div_pos; lia). rewrite clamp_max. rewrite u64_id by (unfold is_u64; lia). apply (bomb_ruled _ _ _ (if 1 - q <? -99 then -99 else 1 - q)); [reflexivity| |lia]. destruct (Z.ltb_spec (1 - q) (-99)); lia.
Qed.

Lemma frontier_ruled time ptime pd n u : 0 <= n -> n + 1 < two64 -> ruled pd n (calcDifficultyFrontier time ptime pd n u).
Proof.
  intros Hn Hd. unfold calcDifficultyFrontier. rewrite clamp_max. rewrite u64_id by (unfold is_u64; lia). set (y := Z.max MinimumDifficulty _). rewrite Z.max_l by (pose proof (Z.pow_nonneg 2 ((n + 1) / expDiffPeriod - 2) ltac:(lia)); unfold y; lia).
  apply (bomb_ruled _ _ _ (if time - ptime <? DurationLimit then 1 else -1)); [|destruct (_ <? _); lia|lia]. unfold y, DifficultyBoundDivisor. f_equal. destruct (_ <? _); lia.
Qed.

(** Whatever the fork, the difficulty of a block is its parent's moved by at most 99 parts
    in 2048 down and 2 up, not below the minimum, plus the bomb, a power of two that is
    absent for the first 200,000 blocks. *)
Theorem CalcDifficulty_bounds config time ptime pd n u : 0 <= n -> n + 1 < two64 -> ptime <= time ->
  exists d, CalcDifficulty config time ptime (Some pd) n u = Val d /\ ruled pd n d.
Proof.
  intros Hn Hu Ht. eexists. split; [reflexivity|]. assert (HC : forall delay, 1 <= delay <= two64 -> ruled pd n (makeDifficultyCalculator delay time ptime pd n u)) by (intros delay Hd; apply calculator_ruled; lia).
  repeat match goal with |- context [if ?b then _ else _] => destruct b; [first [apply HC; unfold two64; lia|by apply homestead_ruled]|] end. by apply frontier_ruled.
Qed.

Lemma CalcDifficulty_bounds_witness : exists d, CalcDifficulty chain.AllProtocolChanges 1500 1490 (Some 1000000) 300000 0 = Val d /\ ruled 1000000 300000 d.
Proof. apply CalcDifficulty_bounds; [lia|reflexivity|lia]. Defined.

Definition demo_parent : BlkHeader :=
  mkBlk 0 emptyUncleHash 0 0 0 0 [] (Some 5000000000) (Some 4200000) 8000000 0 1500000000 [] 0 [] 0 [] None None None None None None.
Lemma difficulty_u256_exact_witness : @CalcDifficultyHomesteadU256 uint256_ref 1500000021 demo_parent = Val (calcDifficultyHomestead 1500000021 1500000000 5000000000 4200000 0).
Proof.
  destruct (@difficulty_u256_exact uint256_ref uint256_ref_spec 1500000021 demo_parent 5000000000 4200000 0 eq_refl eq_refl) as (_ & H & _); [split; lia|cbn; lia|reflexivity|exact H].
Defined.

(** ** The dataset and hashimoto *)

Lemma zlen_get_words n : forall b, zlen (get_words n b) = Z.of_nat n.
Proof. induction n as [|n IH]; intros b; [reflexivity|]. cbn [get_words]. rewrite zlen_cons, IH. lia. Qed.

Section Hashimoto.
Context {K : Keccak} {K5 : Keccak512}.
Context (cache : list Z) (Hrows : 16 <= zlen cache) (Hcache : zlen cache < 2 ^ 32).

Let rows := zlen cache / 16.

Lemma rows_bound : 1 <= rows /\ rows * 16 <= zlen cache /\ u32 (zlen cache / hashWords) = rows.
Proof.
  unfold rows, hashWords, u32. pose proof (Z.div_le_lower_bound (zlen cache) 16 1 ltac:(lia) ltac:(lia)). pose proof (Z.mul_div_le (zlen cache) 16 ltac:(lia)). split; [lia|]. split; [lia|]. apply Z.mod_small. split; [lia|]. apply Z.div_lt_upper_bound; lia.
Qed.

(** A row of the cache. *)
Lemma row_at p : 0 <= p < rows -> u32 (p * hashWords) = p * 16 /\ p * 16 + 16 <= zlen cache.
Proof. intros Hp. destruct rows_bound as (_ & H & _). unfold hashWords, u32. split; [apply Z.mod_small|]; nia. Qed.

Lemma mix_parents_total index n : forall i m, 0 <= i -> zlen m = 16 -> exists r, mix_parents cache rows index n i m = Val r /\ zlen r = 16.
Proof.
  induction n as [|n IH]; intros i m Hi Hm; cbn [mix_parents]; [by exists m|]. pose proof (Z.mod_pos_bound i 16 ltac:(lia)). destruct (go_index_val m (i mod 16) ltac:(lia)) as (w & -> & _). cbn [mbind Res_bind]. set (p := fnv _ w mod rows). destruct rows_bound as (Hr & _). assert (Hp : 0 <= p < rows) by (apply Z.mod_pos_bound; lia). destruct (row_at p Hp) as [-> Hle]. rewrite go_slice_val by lia. cbn [mbind Res_bind].
  set (d := take _ _). assert (Hd : zlen d = zlen cache - p * 16) by (apply zlen_slice; lia). unfold fnvHash16. destruct (Z.ltb_spec (zlen d) 16); [lia|]. cbn [mbind Res_bind mret Res_ret]. apply IH; [lia|]. unfold zlen in *. rewrite length_zip_with. lia.
Qed.

(** The words of an item. *)
Definition item_words (index : Z) : list Z := match generateDatasetItem cache index with Val b => get_words 16 b | _ => [] end.

Lemma item_total index : 0 <= index -> exists b, generateDatasetItem cache index = Val b /\ item_words index = get_words 16 b.
Proof.
  intros Hi. unfold item_words, generateDatasetItem. destruct rows_bound as (Hr & Hl & ->). destruct (Z.eqb_spec rows 0); [lia|]. assert (Hp : 0 <= index mod rows < rows) by (apply Z.mod_pos_bound; lia). destruct (row_at _ Hp) as [-> Hle]. rewrite go_slice_val by lia. cbn [mbind Res_bind].
  destruct (mix_parents_total index datasetParents 0 (get_words 16 (keccak512 (put_words match take (Z.to_nat (index mod rows * 16 + 16 - index mod rows * 16)) (drop (Z.to_nat (index mod rows * 16)) cache) with w :: ws => Z.lxor w index :: ws | [] => [] end))) ltac:(lia) (zlen_get_words 16 _)) as (r & -> & _).
  cbn [mbind Res_bind mret Res_ret]. eauto.
Qed.

Lemma item_words_length index : 0 <= index -> length (item_words index) = 16%nat.
Proof. intros Hi. destruct (item_total index Hi) as (b & _ & ->). pose proof (zlen_get_words 16 b). unfold zlen in *. lia. Qed.

(** ** The dataset *)

(** The [i]-th row of a dataset. *)
Definition chunk (i : Z) (l : list Z) : list Z := take 16 (drop (Z.to_nat (16 * i)) l).

Lemma chunk_splice i j l w : 0 <= i -> 0 <= j -> length w = 16%nat -> 16 * i + 16 <= zlen l -> 16 * j + 16 <= zlen l ->
  chunk j (splice l (i * hashWords) w) = if decide (j = i) then w else chunk j l.
Proof.
  intros Hi Hj Hw Hl Hlj. unfold chunk, splice, hashWords, zlen in *. destruct (decide (j = i)) as [->|Hne].
  - rewrite drop_app_ge by (rewrite length_take; lia). rewrite length_take. replace (Z.to_nat (16 * i) - _)%nat with 0%nat by lia. rewrite drop_0, <- Hw. apply take_app_length.
  - destruct (decide (j < i)).
    + rewrite drop_app_le by (rewrite length_take; lia). rewrite take_app_le by (rewrite length_drop, length_take; lia). rewrite !take_drop_commute, take_take. f_equal. f_equal. lia.
    + rewrite drop_app_ge by (rewrite length_take; lia). rewrite length_take. rewrite drop_app_ge by lia. rewrite drop_drop. f_equal. f_equal. lia.
Qed.

Lemma zlen_splice_item (l : list Z) i w : 0 <= i -> length w = 16%nat -> 16 * i + 16 <= zlen l -> zlen (splice l (i * hashWords) w) = zlen l.
Proof. intros Hi Hw Hl. apply zlen_splice; unfold hashWords, zlen in *; lia. Qed.

Lemma write_items_exact m : m < 2 ^ 32 -> 100 <= m -> forall order dest, zlen dest = 16 * m -> Forall (fun i => 0 <= i < m) order ->
  exists out, write_items cache order dest = Val out /\ zlen out = 16 * m /\ forall j, 0 <= j < m -> chunk j out = if decide (j ∈ order) then item_words j else chunk j dest.
Proof.
  intros Hm Hbig. induction order as [|i order IH]; intros dest Hd Ho; [exists dest; split; [reflexivity|]; split; [exact Hd|]; intros j _; rewrite decide_False by apply not_elem_of_nil; reflexivity|].
  apply Forall_cons in Ho as [Hi Ho]. cbn [write_items]. unfold write_item. assert (Hu : u32 i = i) by (unfold u32; apply Z.mod_small; lia). rewrite Hu. destruct (item_total i ltac:(lia)) as (b & -> & Hb). cbn [mbind Res_bind]. rewrite <- Hb.
  rewrite Hd. unfold hashBytes. replace (16 * m * 4) with (m * 64) by lia. rewrite Z.div_mul by lia. destruct (Z.eqb_spec (m / 100) 0) as [E0|_]; [pose proof (Z.div_le_lower_bound m 100 1 ltac:(lia) ltac:(lia)); lia|]. cbn [mbind Res_bind mret Res_ret].
  pose proof (item_words_length i ltac:(lia)) as Hw. destruct (IH (splice dest (i * hashWords) (item_words i))) as (out & EO & HO & HC); [rewrite zlen_splice_item by (try lia; exact Hw); exact Hd|exact Ho|].
  exists out. split; [exact EO|]. split; [exact HO|]. intros j Hj. rewrite (HC j Hj). destruct (decide (j ∈ order)) as [Hin|Hin]; [by rewrite decide_True by (by right)|].
  rewrite chunk_splice by (try lia; exact Hw). destruct (decide (j = i)) as [->|Hne]; [by rewrite decide_True by left|]. rewrite decide_False; [reflexivity|]. rewrite not_elem_of_cons. auto.
Qed.

(** ** The segments of the goroutines *)

Lemma segment_exact m threads id : 0 <= m < 2 ^ 32 -> 1 <= threads < 2 ^ 16 -> 0 <= id < threads ->
  exists batch, batch = (m + threads - 1) / threads /\ 0 <= batch <= m /\ dataset_segment (m * 64) threads id = seqZ (id * batch) (Z.min m (id * batch + batch) - id * batch).
Proof.
  intros Hm Ht Hid. exists ((m + threads - 1) / threads). split; [reflexivity|]. set (batch := _ / threads). assert (Hb : 0 <= batch <= m).
  { unfold batch. split; [apply Z.div_pos; lia|]. destruct (decide (m = 0)) as [->|]; [rewrite Z.div_small by lia; lia|]. apply Z.lt_succ_r, Z.div_lt_upper_bound; nia. }
  split; [exact Hb|]. unfold dataset_segment, hashBytes. assert (EB : u64 (m * 64 + 64 * threads - 1) / (64 * threads) = batch).
  { rewrite u64_id by (unfold is_u64, two64; lia). unfold batch. rewrite <- Z.div_div by lia. f_equal. replace (m * 64 + 64 * threads - 1) with ((m + threads - 1) * 64 + 63) by lia. rewrite Z.div_add_l by lia. change (63 / 64) with 0. lia. }
  rewrite EB. rewrite (u64_id (id * batch)) by (unfold is_u64, two64; nia). rewrite (u64_id (id * batch + batch)) by (unfold is_u64, two64; nia). rewrite Z.div_mul by lia. f_equal. destruct (Z.ltb_spec m (id * batch + batch)); lia.
Qed.

Lemma segments_join m threads : 0 <= m < 2 ^ 32 -> 1 <= threads < 2 ^ 16 -> dataset_writes (m * 64) threads = seqZ 0 m.
Proof.
  intros Hm Ht. unfold dataset_writes. set (batch := (m + threads - 1) / threads). assert (HB : 0 <= batch /\ m <= threads * batch).
  { unfold batch. split; [apply Z.div_pos; lia|]. pose proof (Z.mul_succ_div_gt (m + threads - 1) threads ltac:(lia)). lia. }
  assert (HS : forall k, 0 <= k <= threads -> mjoin (map (dataset_segment (m * 64) threads) (seqZ 0 k)) = seqZ 0 (Z.min m (k * batch))).
  { intros k Hk. assert (Hk0 : 0 <= k) by lia. revert Hk. pattern k. apply natlike_ind; [intros _; rewrite Z.mul_0_l, Z.min_r by lia; reflexivity| |exact Hk0].
    intros j Hj IH Hk. replace (Z.succ j) with (j + 1) by lia. rewrite seqZ_app by lia. rewrite map_app, join_app, IH by lia. destruct (segment_exact m threads j Hm Ht ltac:(lia)) as (b & -> & _ & ES). fold batch in ES. rewrite Z.add_0_l. rewrite (seqZ_cons j) by lia. cbn [map mjoin list_join]. change (seqZ (Z.succ j) (Z.pred 1)) with (@nil Z). cbn [map mjoin list_join]. rewrite app_nil_r, ES.
    destruct (Z.le_ge_cases m (j * batch)) as [Hle|Hge].
    - rewrite (Z.min_l m (j * batch)) by lia. rewrite (Z.min_l m ((j + 1) * batch)) by nia. rewrite (seqZ_nil (j * batch)) by lia. by rewrite app_nil_r.
    - rewrite (Z.min_r m (j * batch)) by lia. replace ((j + 1) * batch) with (j * batch + batch) by lia. assert (0 <= j * batch) by nia. rewrite <- (Z.add_0_l (j * batch)) at 2. rewrite <- seqZ_app by lia. f_equal. lia. }
  rewrite (HS threads ltac:(lia)). by rewrite Z.min_l by lia.
Qed.

(** ** Hashimoto *)

(** The loop reads rows below twice the number of pages only. *)
Lemma mix_loop_exact (l1 l2 : Z -> Res (list Z)) pages seedHead : 1 <= pages < 2 ^ 31 -> (forall i, 0 <= i < 2 * pages -> l1 i = Val (item_words i) /\ l2 i = Val (item_words i)) ->
  forall n i mix, 0 <= i -> zlen mix = 32 -> exists r, mix_loop l1 n i pages seedHead mix = Val r /\ mix_loop l2 n i pages seedHead mix = Val r.
Proof.
  intros Hp HL. induction n as [|n IH]; intros i mix Hi Hm; cbn [mix_loop]; [by exists mix|]. rewrite Hm. pose proof (Z.mod_pos_bound i 32 ltac:(lia)). destruct (go_index_val mix (i mod 32) ltac:(lia)) as (w & -> & _). cbn [mbind Res_bind]. destruct (Z.eqb_spec pages 0); [lia|].
  set (p := fnv _ w mod pages). assert (Hpp : 0 <= p < pages) by (apply Z.mod_pos_bound; lia). assert (E0 : u32 (2 * p) = 2 * p) by (unfold u32; apply Z.mod_small; lia). assert (E1 : u32 (2 * p + 1) = 2 * p + 1) by (unfold u32; apply Z.mod_small; lia). rewrite E0, E1.
  destruct (HL (2 * p) ltac:(lia)) as [-> ->]. destruct (HL (2 * p + 1) ltac:(lia)) as [-> ->]. cbn [mbind Res_bind]. pose proof (item_words_length (2 * p) ltac:(lia)) as H1. pose proof (item_words_length (2 * p + 1) ltac:(lia)) as H2. rewrite !take_ge by lia. unfold fnvHash32. set (d := item_words (2 * p) ++ item_words (2 * p + 1)). assert (Hd : zlen d = 32) by (unfold d, zlen; rewrite length_app; lia).
  destruct (Z.ltb_spec (zlen d) 32); [lia|]. cbn [mbind Res_bind mret Res_ret]. apply IH; [lia|]. unfold zlen in *. rewrite length_zip_with. lia.
Qed.

Lemma full_lookup m dataset i : 0 <= i < m -> 16 * m < 2 ^ 32 -> zlen dataset = 16 * m -> chunk i dataset = item_words i -> go_slice dataset (u32 (i * hashWords)) (u32 (u32 (i * hashWords) + hashWords)) = Val (item_words i).
Proof.
  intros Hi Hm Hl Hc. unfold hashWords, u32. rewrite (Z.mod_small (i * 16)) by lia. rewrite Z.mod_small by lia. rewrite go_slice_val by lia. f_equal. rewrite <- Hc. unfold chunk. replace (i * 16 + 16 - i * 16) with 16 by lia. change (Z.to_nat 16) with 16%nat. do 2 f_equal. lia.
Qed.

(** C16 The proof of work does not depend on how it is computed: for any number of goroutines
    and any interleaving of their writes, the generated dataset gives the same digest and
    result as the verification from the cache alone, and neither fails, for a dataset of at
    least a hundred rows and less than 2^32 words. *)
Theorem hashimoto_light_full m threads order dest hash nonce : 100 <= m -> 16 * m < 2 ^ 32 -> 1 <= threads < 2 ^ 16 -> zlen dest = 16 * m -> Permutation order (dataset_writes (m * 64) threads) ->
  exists dataset r, generateDataset order cache dest = Val dataset /\ hashimotoFull dataset hash nonce = Val r /\ hashimotoLight (m * 64) cache hash nonce = Val r.
Proof.
  intros Hm Hw Ht Hd HP. rewrite segments_join in HP by lia. assert (HO : Forall (fun i => 0 <= i < m) order) by (apply Forall_forall; intros i Hi; rewrite HP in Hi; apply elem_of_seqZ in Hi; lia).
  destruct (write_items_exact m ltac:(lia) Hm order dest Hd HO) as (dataset & EG & HL & HC). exists dataset. 
  pose proof (Z.mul_div_le m 2 ltac:(lia)). pose proof (Z.div_le_lower_bound m 2 50 ltac:(lia) ltac:(lia)). assert (EP : u32 (m * 64 / mixBytes) = m / 2) by (unfold mixBytes, u32; replace (m * 64 / 128) with (m / 2) by (rewrite <- (Z.div_mul_cancel_r m 2 64) by lia; reflexivity); apply Z.mod_small; lia).
  unfold hashimotoFull, hashimotoLight, hashimoto. rewrite HL. replace (16 * m * 4) with (m * 64) by lia. rewrite EP. set (seed := keccak512 _).
  set (l1 := fun index : Z => go_slice dataset (u32 (index * hashWords)) (u32 (u32 (index * hashWords) + hashWords))). set (l2 := fun index : Z => item ← generateDatasetItem cache index; mret (get_words 16 item)).
  destruct (mix_loop_exact l1 l2 (m / 2) (le_Uint32 seed) ltac:(lia)) with (n := loopAccesses) (i := 0) (mix := get_words 16 seed ++ get_words 16 seed) as (r & E1 & E2); [|lia|by rewrite zlen_app, zlen_get_words|].
  - intros i Hi. split; [|unfold l2; destruct (item_total i ltac:(lia)) as (b & -> & ->); reflexivity]. unfold l1. apply (full_lookup m); [lia|exact Hw|exact HL|]. rewrite HC by lia. rewrite decide_True; [reflexivity|]. rewrite HP. apply elem_of_seqZ. lia.
  - eexists. split; [exact EG|]. cbv zeta. fold l1. rewrite E1, E2. cbn [mbind Res_bind mret Res_ret]. split; reflexivity.
Qed.
End Hashimoto.

(** ** A small dataset *)

#[local] Instance demo_keccak : Keccak := fun b => be_to_Z (take 32 b).
#[local] Instance demo_keccak512 : Keccak512 := fun b => take 64 (b ++ replicate 64 x01).

Lemma hashimoto_light_full_witness : exists dataset r, generateDataset (rev (dataset_writes (100 * 64) 3)) (replicate 32 7) (replicate 1600 0) = Val dataset /\ hashimotoFull dataset 5 9 = Val r /\ hashimotoLight (100 * 64) (replicate 32 7) 5 9 = Val r.
Proof. apply (hashimoto_light_full (replicate 32 7) ltac:(vm_compute; discriminate) ltac:(vm_compute; reflexivity) 100 3); [lia|lia|lia|reflexivity|]. symmetry. apply Permutation_rev. Defined.
