(* ===== verification/EthashRules.v ===== *)
(** * Ethash: headers, uncles and rewards

    The checks of a header against its parent ([VerifyHeaderBasics], [verifyHeader]) and of
    its seal, the uncles of a block ([VerifyUncles]) and the rewards ([AccumulateRewards]) of
    [execution/consensus/ethash/consensus.go], with [misc/dao.go]'s check of the extra data.
    The local clock and the caches of the proof of work are arguments. *)

From stdpp Require Import gmap.
From S2P Require Import Prelude Uint256 Errors AccessList StateDB Machine ChainConfig FeeMarket Rlp RlpSpec RlpWriter HeaderRlp Consensus Ethash.

Definition errOlderBlockTime : Error := NewError "timestamp older than parent".
Definition errTooManyUncles : Error := NewError "too many uncles".
Definition errDuplicateUncle : Error := NewError "duplicate uncle".
Definition errUncleIsAncestor : Error := NewError "uncle is ancestor".
Definition errDanglingUncle : Error := NewError "uncle's parent is not ancestor".
Definition errInvalidDifficulty : Error := NewError "non-positive difficulty".
Definition errInvalidMixDigest : Error := NewError "invalid mix digest".
Definition errInvalidPoW : Error := NewError "invalid proof-of-work".
Definition ErrBadProDAOExtra : Error := NewError "bad DAO pro-fork extra-data".

Definition MaximumExtraDataSize : Z := 32.
Definition MaxBlockGasLimit : Z := 0x7fffffffffffffff.
Definition allowedFutureBlockTimeSeconds : Z := 15.
Definition maxUncles : Z := 2.
(** "dao-hard-fork". *)
Definition DAOForkBlockExtra : bytes := Z_to_be 13 0x64616f2d686172642d666f726b.
Definition DAOForkExtraRange : Z := 10.

Definition VerifyDAOHeaderExtraData (config : chain.Config) (number : Z) (header : BlkHeader) : option Error :=
  match chain.DAOForkBlock config with
  | None => None
  | Some fork =>
      if (number <? fork) || (fork + DAOForkExtraRange <=? number) then None
      else if bool_decide (b_Extra header = DAOForkBlockExtra) then None else Some ErrBadProDAOExtra
  end.

(** The gas limit and the base fee. *)
Definition verify_fee (config : chain.Config) (number : Z) (header parent : BlkHeader) (skipGasLimit : bool) : Res (option Error) :=
  if negb (chain.IsLondon config (big_Uint64 number)) then
    mret (match b_BaseFee header with
          | Some _ => Some (NewError "invalid baseFee before fork")
          | None => if negb skipGasLimit then VerifyGaslimit (b_GasLimit parent) (b_GasLimit header) else None
          end)
  else
    _ ← (if negb skipGasLimit || bool_decide (b_BaseFee header <> None) then nonnil (b_Number parent) else mret 0);
    VerifyEip1559Header config (fee_fields parent) (fee_fields header) skipGasLimit.

Definition VerifyHeaderBasics (config : chain.Config) (now : Z) (header parent : BlkHeader) (checkTimestamp skipGasLimit : bool) : Res (option Error) :=
  if MaximumExtraDataSize <? zlen (b_Extra header) then mret (Some (NewError "extra-data too long"))
  else if checkTimestamp && (u64 (now + allowedFutureBlockTimeSeconds) <? b_Time header) then mret (Some ErrFutureBlock)
  else if b_Time header <=? b_Time parent then mret (Some errOlderBlockTime)
  else if MaxBlockGasLimit <? b_GasLimit header then mret (Some (NewError "invalid gasLimit"))
  else if b_GasLimit header <? b_GasUsed header then mret (Some (NewError "invalid gasUsed"))
  else
    number ← nonnil (b_Number header);
    err ← verify_fee config number header parent skipGasLimit;
    match err with
    | Some e => mret (Some e)
    | None =>
        match VerifyAbsenceOfCancunHeaderFields (fee_fields header) with
        | Some e => mret (Some e)
        | None =>
            parentNumber ← nonnil (b_Number parent);
            mret (if negb (number - parentNumber =? 1) then Some ErrInvalidNumber
                  else if bool_decide (b_WithdrawalsHash header <> None) then Some ErrUnexpectedWithdrawals
                  else if bool_decide (b_RequestsHash header <> None) then Some ErrUnexpectedRequests
                  else VerifyDAOHeaderExtraData config number header)
        end
    end.

Section Engine.
Context {K : Keccak} {K5 : Keccak512}.

(** What the reflection-driven encoder writes for the list of fields; it writes nothing for
    a negative number, and the error is dropped. *)
Definition SealHash (h : BlkHeader) : Z :=
  keccak256 (
    if (default 0 (b_Difficulty h) <? 0) || (default 0 (b_Number h) <? 0) || (default 0 (b_BaseFee h) <? 0) then []
    else rlp_list (
      [rlp_string (hash_bytes (b_ParentHash h)); rlp_string (hash_bytes (b_UncleHash h)); rlp_string (addr_bytes (b_Coinbase h));
       rlp_string (hash_bytes (b_Root h)); rlp_string (hash_bytes (b_TxHash h)); rlp_string (hash_bytes (b_ReceiptHash h)); rlp_string (b_Bloom h);
       rlp_uint (default 0 (b_Difficulty h)); rlp_uint (default 0 (b_Number h)); rlp_uint (b_GasLimit h); rlp_uint (b_GasUsed h); rlp_uint (b_Time h);
       rlp_string (b_Extra h)] ++ opt_rlp (b_BaseFee h) rlp_uint)).

(** The verification cache and the size of the dataset at a block. *)
Context (cache : Z -> list Z) (datasetSize : Z -> Z).

(** The light verification, which is the one the engine asks for. *)
Definition verifySeal (header : BlkHeader) : Res (option Error) :=
  difficulty ← nonnil (b_Difficulty header);
  if difficulty <=? 0 then mret (Some errInvalidDifficulty)
  else
    number ← number_of header;
    '(digest, result) ← hashimotoLight (datasetSize number) (cache number) (SealHash header) (be_to_Z (b_Nonce header));
    mret (if negb (bool_decide (hash_bytes (b_MixDigest header) = digest)) then Some errInvalidMixDigest
          else if two256 / difficulty <? result then Some errInvalidPoW
          else None).
Definition VerifySeal : BlkHeader -> Res (option Error) := verifySeal.

Definition verifyHeader (config : chain.Config) (now : Z) (header parent : BlkHeader) (uncle seal : bool) : Res (option Error) :=
  err ← VerifyHeaderBasics config now header parent (negb uncle) false;
  match err with
  | Some e => mret (Some e)
  | None =>
      _ ← h_Hash parent;
      parentNumber ← number_of parent;
      expected ← CalcDifficulty config (b_Time header) (b_Time parent) (b_Difficulty parent) parentNumber (b_UncleHash parent);
      difficulty ← nonnil (b_Difficulty header);
      if negb (expected =? difficulty) then mret (Some (NewError "invalid difficulty"))
      else if seal then VerifySeal header
      else mret None
  end.

Context (chain_ : ChainReader) (now : Z).

Definition VerifyHeader (header : BlkHeader) (seal : bool) : Res (option Error) :=
  number ← number_of header;
  hash ← h_Hash header;
  match GetHeader chain_ hash number with
  | Some _ => mret None
  | None =>
      if number =? 0 then mret None
      else
        match GetHeader chain_ (b_ParentHash header) (number - 1) with
        | None => mret (Some ErrUnknownAncestor)
        | Some parent => verifyHeader (cr_Config chain_) now header parent false seal
        end
  end.

(** ** Uncles *)

Fixpoint add_hashes (uncles : list BlkHeader) (acc : gset Z) : Res (gset Z) :=
  match uncles with [] => mret acc | u :: uncles => h ← h_Hash u; add_hashes uncles ({[h]} ∪ acc) end.

(** Up to seven ancestors, and the uncles they included. *)
Fixpoint past (n : nat) (number parent : Z) (uncles : gset Z) (ancestors : gmap Z BlkHeader) : Res (gset Z * gmap Z BlkHeader) :=
  match n with
  | O => mret (uncles, ancestors)
  | S n =>
      match GetHeader chain_ parent number with
      | None => mret (uncles, ancestors)
      | Some ancestorHeader =>
          let ancestors := <[parent := ancestorHeader]> ancestors in
          if negb (b_UncleHash ancestorHeader =? emptyUncleHash) then
            match GetUncles chain_ parent number with
            | None => mret (uncles, ancestors)
            | Some included =>
                uncles ← add_hashes included uncles;
                past n (u64 (number - 1)) (b_ParentHash ancestorHeader) uncles ancestors
            end
          else past n (u64 (number - 1)) (b_ParentHash ancestorHeader) uncles ancestors
      end
  end.

Definition getUncles (header : BlkHeader) : Res (gset Z * gmap Z BlkHeader) :=
  number ← number_of header;
  '(uncles, ancestors) ← past 7 (u64 (number - 1)) (b_ParentHash header) ∅ ∅;
  hash ← h_Hash header;
  mret ({[hash]} ∪ uncles, <[hash := header]> ancestors).

(** The set of uncles is shared by the calls. *)
Definition VerifyUncle (header uncle : BlkHeader) (ancestors : gmap Z BlkHeader) (seal : bool) : M (gset Z) (option Error) :=
  hash ← lift (h_Hash uncle);
  uncles ← gets id;
  if bool_decide (hash ∈ uncles) then mret (Some errDuplicateUncle)
  else
    _ ← modify (fun uncles => {[hash]} ∪ uncles);
    if bool_decide (ancestors !! hash <> None) then mret (Some errUncleIsAncestor)
    else
      match ancestors !! b_ParentHash uncle with
      | None => mret (Some errDanglingUncle)
      | Some parent =>
          if b_ParentHash uncle =? b_ParentHash header then mret (Some errDanglingUncle)
          else lift (verifyHeader (cr_Config chain_) now uncle parent true seal)
      end.

Fixpoint verify_each (header : BlkHeader) (ancestors : gmap Z BlkHeader) (uncles : list BlkHeader) : M (gset Z) (option Error) :=
  match uncles with
  | [] => mret None
  | uncle :: uncles =>
      err ← VerifyUncle header uncle ancestors true;
      match err with Some e => mret (Some e) | None => verify_each header ancestors uncles end
  end.

Definition VerifyUncles (header : BlkHeader) (uncles : list BlkHeader) : Res (option Error) :=
  if maxUncles <? zlen uncles then mret (Some errTooManyUncles)
  else if zlen uncles =? 0 then mret None
  else
    '(uncleBlocks, ancestors) ← getUncles header;
    match verify_each header ancestors uncles uncleBlocks with
    | Val (err, _) => mret err
    | Panic e => Panic e
    | OutOfFuel => OutOfFuel
    end.

(** The changes to the header are the difficulty. *)
Definition Prepare (header : BlkHeader) : Res (Error + Z) :=
  number ← number_of header;
  match GetHeader chain_ (b_ParentHash header) (u64 (number - 1)) with
  | None => mret (inl ErrUnknownAncestor)
  | Some parent =>
      parentNumber ← number_of parent;
      _ ← h_Hash parent;
      d ← CalcDifficulty (cr_Config chain_) (b_Time header) (b_Time parent) (b_Difficulty parent) parentNumber (b_UncleHash parent);
      mret (inr d)
  end.
End Engine.

(** ** Rewards *)

Definition FrontierBlockReward : Z := 5 * 10 ^ 18.
Definition ByzantiumBlockReward : Z := 3 * 10 ^ 18.
Definition ConstantinopleBlockReward : Z := 2 * 10 ^ 18.

Definition block_reward (config : chain.Config) (number : Z) : Z :=
  let blockReward := FrontierBlockReward in
  let blockReward := if chain.IsByzantium config number then ByzantiumBlockReward else blockReward in
  if chain.IsConstantinople config number then ConstantinopleBlockReward else blockReward.

Inductive RewardKind : Type := RewardAuthor | RewardEmptyStep | RewardExternal | RewardUncle.
Record Reward : Type := mkReward { Beneficiary : Z; Kind : RewardKind; Amount : Z }.

Section Rewards.
Context {U : Uint256}.

(** [uint256.FromBig] of a nil number is a nil pointer. *)
Fixpoint uncle_rewards (blockReward headerNum : Z) (uncles : list BlkHeader) (reward : Z) : Res (Z * list Z) :=
  match uncles with
  | [] => mret (reward, [])
  | uncle :: uncles =>
      n ← nonnil (b_Number uncle);
      let r := u_Add (u_FromBig n).1 8 in
      let r := u_Sub r headerNum in
      let r := u_Mul r blockReward in
      let r := u_Rsh r 3 in
      '(reward, rest) ← uncle_rewards blockReward headerNum uncles (u_Add reward (u_Rsh blockReward 5));
      mret (reward, r :: rest)
  end.

Definition AccumulateRewards (config : chain.Config) (header : BlkHeader) (uncles : list BlkHeader) : Res (Z * list Z) :=
  n ← nonnil (b_Number header);
  let blockReward := block_reward config (big_Uint64 n) in
  uncle_rewards blockReward (u_FromBig n).1 uncles blockReward.

Definition CalculateRewards (config : chain.Config) (header : BlkHeader) (uncles : list BlkHeader) : Res (list Reward) :=
  '(minerReward, uncleRewards) ← AccumulateRewards config header uncles;
  mret (mkReward (b_Coinbase header) RewardAuthor minerReward :: zip_with (fun uncle r => mkReward (b_Coinbase uncle) RewardUncle r) uncles uncleRewards).

Context {DB : StateDB}.

(** The errors of [AddBalance] are dropped. *)
Fixpoint add_rewards (rewards : list (Z * Z)) : M ibs unit :=
  match rewards with [] => mret tt | (a, r) :: rewards => _ ← AddBalance a r; add_rewards rewards end.

Definition accumulateRewards (config : chain.Config) (header : BlkHeader) (uncles : list BlkHeader) : M ibs unit :=
  '(minerReward, uncleRewards) ← lift (AccumulateRewards config header uncles);
  _ ← add_rewards (zip_with (fun uncle r => (b_Coinbase uncle, r)) uncles uncleRewards);
  add_rewards [(b_Coinbase header, minerReward)].
End Rewards.
