(* ===== verification/EthashRulesSpec.v ===== *)
(** * Ethash: what accepted uncles are, and what they earn

    The uncles of an accepted block are at most two, distinct, not included by its last seven
    ancestors, and children of one of these that is not the parent; so the 256-bit
    arithmetic of the rewards is exact and the issuance of a block is bounded. At the end the
    theorem at work on a block with an uncle, with a hash function and a proof of work that is
    easy to find in place of the real ones. *)

From stdpp Require Import gmap.
From S2P Require Import Prelude Uint256 Errors AccessList StateDB Machine ChainConfig FeeMarket HeaderRlp Consensus Ethash EthashSpec EthashRules.

(** The reader gives headers by their number, there are fewer than 2^63 blocks, and it has
    the uncles of the blocks it has the headers of: none where the header says so. *)
Record reader_ok (chain_ : ChainReader) : Prop := mkReaderOk {
  ro_number hash n h : GetHeader chain_ hash n = Some h -> b_Number h = Some n /\ 0 <= n < 2 ^ 63;
  ro_uncles hash n h : GetHeader chain_ hash n = Some h -> exists included, GetUncles chain_ hash n = Some included /\ (b_UncleHash h = emptyUncleHash -> included = [])
}.

(** [line number parent i k h]: from the block [parent] at [number] back, the [i]-th block is
    [h], with hash [k]. *)
Inductive line (chain_ : ChainReader) : Z -> Z -> nat -> Z -> BlkHeader -> Prop :=
| line_first number parent h : GetHeader chain_ parent number = Some h -> line chain_ number parent 1 parent h
| line_back number parent a i k h : GetHeader chain_ parent number = Some a -> line chain_ (number - 1) (b_ParentHash a) i k h -> line chain_ number parent (S i) k h.

(** ** Headers *)

Lemma verify_basics_inv config now header parent ts skip : VerifyHeaderBasics config now header parent ts skip = Val None ->
  exists pn, b_Number parent = Some pn /\ b_Number header = Some (pn + 1) /\ b_Time parent < b_Time header.
Proof.
  unfold VerifyHeaderBasics. destruct (_ <? zlen _); [discriminate|]. destruct (_ && _); [discriminate|]. destruct (Z.leb_spec (b_Time header) (b_Time parent)); [discriminate|]. destruct (_ <? b_GasLimit header); [discriminate|]. destruct (_ <? b_GasUsed header); [discriminate|].
  destruct (b_Number header) as [n|]; [|discriminate]. cbn [nonnil mbind Res_bind mret Res_ret]. destruct (verify_fee config n header parent skip) as [[e|]| |]; try discriminate. cbn [mbind Res_bind mret Res_ret]. destruct (VerifyAbsenceOfCancunHeaderFields _); [discriminate|].
  destruct (b_Number parent) as [pn|]; [|discriminate]. cbn [nonnil mbind Res_bind mret Res_ret]. destruct (Z.eqb_spec (n - pn) 1); [|discriminate]. intros _. exists pn. split; [reflexivity|]. split; [f_equal; lia|lia].
Qed.

Section Engine.
Context {K : Keccak} {K5 : Keccak512}.
Context (cache : Z -> list Z) (datasetSize : Z -> Z) (chain_ : ChainReader) (now : Z).

Lemma verifyHeader_inv config header parent uncle seal : verifyHeader cache datasetSize config now header parent uncle seal = Val None ->
  exists pn, b_Number parent = Some pn /\ b_Number header = Some (pn + 1) /\ b_Time parent < b_Time header.
Proof.
  unfold verifyHeader. destruct (VerifyHeaderBasics config now header parent (negb uncle) false) as [[e|]| |] eqn:EB; try discriminate. intros _. by apply verify_basics_inv in EB.
Qed.

#[local] Opaque verifyHeader h_Hash.

(** ** Ancestors *)

Context (HR : reader_ok chain_).

Lemma line_number number parent i k h : line chain_ number parent i k h -> (1 <= i)%nat /\ b_Number h = Some (number + 1 - Z.of_nat i) /\ 0 <= number + 1 - Z.of_nat i < 2 ^ 63 /\ 0 <= number < 2 ^ 63 /\ (i = 1%nat -> k = parent).
Proof.
  induction 1 as [number parent h H|number parent a i k h H _ (I1 & I2 & I3 & I4 & _)]; apply (ro_number _ HR) in H as [H1 H2].
  - replace (number + 1 - Z.of_nat 1) with number by lia. by repeat split; try lia.
  - split; [lia|]. replace (number + 1 - Z.of_nat (S i)) with (number - 1 + 1 - Z.of_nat i) by lia. repeat split; try assumption; lia.
Qed.

Lemma add_hashes_spec : forall l acc acc', add_hashes l acc = Val acc' -> acc ⊆ acc' /\ forall u h, u ∈ l -> h_Hash u = Val h -> h ∈ acc'.
Proof.
  induction l as [|u l IH]; intros acc acc' HE; cbn [add_hashes] in HE; [injection HE as <-; split; [done|]; intros u h Hu; by apply not_elem_of_nil in Hu|].
  destruct (h_Hash u) as [x| |] eqn:Ex; try discriminate. cbn [mbind Res_bind] in HE. apply IH in HE as [H1 H2]. split; [set_solver|]. intros v h Hv Hh. apply elem_of_cons in Hv as [->|Hv]; [|by eapply H2]. assert (x = h) as -> by congruence. set_solver.
Qed.

(** What [past] gathers: the blocks of the line, all of them, and every uncle they included. *)
Record gathered (n : nat) (number parent : Z) (uncles : gset Z) (ancestors : gmap Z BlkHeader) (u' : gset Z) (a' : gmap Z BlkHeader) : Prop := mkGathered {
  ga_sound k h : a' !! k = Some h -> ancestors !! k = Some h \/ exists i, (i <= n)%nat /\ line chain_ number parent i k h;
  ga_keeps : uncles ⊆ u' /\ dom ancestors ⊆ dom a';
  ga_complete i k h : (i <= n)%nat -> line chain_ number parent i k h -> k ∈ dom a' /\ forall included u x, GetUncles chain_ k (number + 1 - Z.of_nat i) = Some included -> u ∈ included -> h_Hash u = Val x -> x ∈ u'
}.

Lemma gathered_none n number parent uncles ancestors : (forall i k h, (i <= n)%nat -> ~ line chain_ number parent i k h) -> gathered n number parent uncles ancestors uncles ancestors.
Proof. intros HN. split; [by left|done|]. intros i k h Hi Hl. by apply HN in Hl. Qed.

(** One block of the line and the rest. *)
Lemma gathered_cons n number parent anc included uncles uncles1 ancestors u' a' : GetHeader chain_ parent number = Some anc -> GetUncles chain_ parent number = Some included ->
  uncles ⊆ uncles1 -> (forall u x, u ∈ included -> h_Hash u = Val x -> x ∈ uncles1) -> gathered n (number - 1) (b_ParentHash anc) uncles1 (<[parent := anc]> ancestors) u' a' -> gathered (S n) number parent uncles ancestors u' a'.
Proof.
  intros EG EU Hsub Hin [G1 [G2 G3] G4]. rewrite dom_insert in G3. split.
  - intros k h Hk. apply G1 in Hk as [Hk|(i & Hi & Hl)]; [|right; exists (S i); split; [lia|by eapply line_back]]. apply lookup_insert_Some in Hk as [[<- <-]|[_ Hk]]; [|by left]. right. exists 1%nat. split; [lia|by constructor].
  - split; [set_solver|set_solver].
  - intros i k h Hi Hl. inversion Hl as [? ? ? H1|? ? a j ? ? H1 H2]; subst.
    + split; [set_solver|]. intros inc u x. replace (number + 1 - Z.of_nat 1) with number by lia. intros Hg Hu Hx. assert (inc = included) as -> by congruence. apply G2. by apply (Hin u).
    + assert (a = anc) as -> by congruence. replace (number + 1 - Z.of_nat (S j)) with (number - 1 + 1 - Z.of_nat j) by lia. apply (G4 j k h); [lia|exact H2].
Qed.

Lemma no_line number parent : ~ 0 <= number < 2 ^ 63 -> forall i k h, ~ line chain_ number parent i k h.
Proof. intros Hn i k h Hl. by apply line_number in Hl as (_ & _ & _ & Hl & _). Qed.

Lemma past_spec n : forall number parent uncles ancestors u' a', -1 <= number < 2 ^ 63 -> past chain_ n (u64 number) parent uncles ancestors = Val (u', a') -> gathered n number parent uncles ancestors u' a'.
Proof.
  induction n as [|n IH]; intros number parent uncles ancestors u' a' Hnum HE; cbn [past] in HE; [injection HE as <- <-; apply gathered_none; intros i k h Hi Hl; apply line_number in Hl as [Hl _]; lia|].
  destruct (decide (number = -1)) as [->|Hpos].
  { destruct (GetHeader chain_ parent (u64 (-1))) eqn:EG; [apply (ro_number _ HR) in EG as [_ EG]; change (u64 (-1)) with 18446744073709551615 in EG; lia|]. injection HE as <- <-. apply gathered_none. intros i k h _. apply no_line. lia. }
  rewrite u64_id in HE by (unfold is_u64, two64; lia). destruct (GetHeader chain_ parent number) as [anc|] eqn:EG.
  2:{ injection HE as <- <-. apply gathered_none. intros i k h _ Hl. inversion Hl; congruence. }
  destruct (ro_uncles _ HR _ _ _ EG) as (included & EU & Hempty). destruct (Z.eqb_spec (b_UncleHash anc) emptyUncleHash) as [E0|_]; cbn [negb] in HE.
  - eapply gathered_cons; [exact EG|exact EU|done| |by apply IH in HE; [exact HE|lia]]. rewrite (Hempty E0). intros u x Hu. by apply not_elem_of_nil in Hu.
  - rewrite EU in HE. destruct (add_hashes included uncles) as [u1| |] eqn:EA; try discriminate. cbn [mbind Res_bind] in HE. apply add_hashes_spec in EA as [A1 A2]. eapply gathered_cons; [exact EG|exact EU|exact A1|exact A2|by apply IH in HE; [exact HE|lia]].
Qed.

Lemma VerifyUncle_inv header uncle ancestors seal s s' : VerifyUncle cache datasetSize chain_ now header uncle ancestors seal s = Val (None, s') ->
  exists h p pn, h_Hash uncle = Val h /\ (h ∉ s) /\ s' = ({[h]} ∪ s) /\ ancestors !! h = None /\ ancestors !! b_ParentHash uncle = Some p /\ b_ParentHash uncle <> b_ParentHash header /\ b_Number p = Some pn /\ b_Number uncle = Some (pn + 1).
Proof.
  unfold VerifyUncle, mbind, M_bind, lift, gets, modify. destruct (h_Hash uncle) as [h| |]; try discriminate. cbn [id]. destruct (bool_decide_reflect (h ∈ s)) as [|Hin]; [discriminate|]. destruct (bool_decide_reflect (ancestors !! h <> None)) as [|Hanc]; [discriminate|].
  assert (Hno : ancestors !! h = None) by (destruct (ancestors !! h); [exfalso; by apply Hanc|reflexivity]). destruct (ancestors !! b_ParentHash uncle) as [p|]; [|discriminate]. destruct (Z.eqb_spec (b_ParentHash uncle) (b_ParentHash header)); [discriminate|]. destruct (verifyHeader cache datasetSize (cr_Config chain_) now uncle p true seal) as [[e|]| |] eqn:EV; try discriminate.
  intros H. injection H as <-. apply verifyHeader_inv in EV as (pn & H1 & H2 & _). exists h, p, pn. by repeat split.
Qed.

(** An uncle that is checked: not one of the given ancestors, but the child of one that is
    not the block's own parent. *)
Definition uncle_of (header : BlkHeader) (ancestors : gmap Z BlkHeader) (uncle : BlkHeader) (hash : Z) : Prop :=
  h_Hash uncle = Val hash /\ ancestors !! hash = None /\ b_ParentHash uncle <> b_ParentHash header /\ exists p pn, ancestors !! b_ParentHash uncle = Some p /\ b_Number p = Some pn /\ b_Number uncle = Some (pn + 1).

Lemma verify_each_inv header ancestors : forall uncles s s', verify_each cache datasetSize chain_ now header ancestors uncles s = Val (None, s') ->
  exists hashes, Forall2 (uncle_of header ancestors) uncles hashes /\ NoDup hashes /\ Forall (fun h => h ∉ s) hashes.
Proof.
  induction uncles as [|uncle uncles IH]; intros s s' HE; cbn [verify_each] in HE; [exists []; split; [constructor|]; split; constructor|]. unfold mbind, M_bind in HE. destruct (VerifyUncle cache datasetSize chain_ now header uncle ancestors true s) as [[[e|] s1]| |] eqn:E1; try discriminate.
  apply VerifyUncle_inv in E1 as (h & p & pn & H1 & H2 & -> & H0 & H3 & H4 & H5 & H6). destruct (IH _ _ HE) as (hashes & HF & HN & HS). exists (h :: hashes). split; [constructor; [split; [exact H1|]; split; [exact H0|]; split; [exact H4|]; by exists p, pn|exact HF]|]. split.
  - constructor; [|exact HN]. intros Hin. rewrite Forall_forall in HS. specialize (HS h Hin). set_solver.
  - constructor; [exact H2|]. eapply Forall_impl; [exact HS|]. intros x Hx. set_solver.
Qed.

#[local] Opaque verify_each past.

(** The [i]-th ancestor of a block at number [N]; the first is its parent. *)
Definition ancestor (header : BlkHeader) (N : Z) (i : nat) (k : Z) (h : BlkHeader) : Prop := (i <= 7)%nat /\ line chain_ (N - 1) (b_ParentHash header) i k h.

(** An uncle that a block at number [N] may include: the child of one of its seven last
    ancestors but not of the parent; neither the block nor one of these ancestors; and not
    among the uncles they included. *)
Record valid_uncle (header : BlkHeader) (N hash : Z) (u : BlkHeader) (x : Z) : Prop := mkValidUncle {
  vu_hash : h_Hash u = Val x;
  vu_child : exists i p, (2 <= i)%nat /\ ancestor header N i (b_ParentHash u) p /\ 0 <= N - Z.of_nat i /\ b_Number p = Some (N - Z.of_nat i) /\ b_Number u = Some (N - Z.of_nat i + 1);
  vu_new : x <> hash /\ forall i h, ~ ancestor header N i x h;
  vu_unrewarded : forall i k h included v, ancestor header N i k h -> GetUncles chain_ k (N - Z.of_nat i) = Some included -> v ∈ included -> h_Hash v <> Val x
}.

(** The accepted uncles of a block at number [N] with hash [hash]. *)
Definition accepted_uncles (header : BlkHeader) (N hash : Z) (uncles : list BlkHeader) (hashes : list Z) : Prop :=
  zlen uncles <= 2 /\ NoDup hashes /\ Forall2 (valid_uncle header N hash) uncles hashes.

Lemma valid_uncle_number header N hash u x : valid_uncle header N hash u x -> exists n, b_Number u = Some n /\ 0 < n /\ N - 6 <= n < N.
Proof. intros [_ (i & p & Hi & [Hi7 _] & H1 & _ & H2) _ _]. exists (N - Z.of_nat i + 1). split; [exact H2|lia]. Qed.

Lemma getUncles_inv header N hash us anc : number_of header = Val N -> h_Hash header = Val hash -> getUncles chain_ header = Val (us, anc) ->
  exists us0 anc0, past chain_ 7 (u64 (N - 1)) (b_ParentHash header) ∅ ∅ = Val (us0, anc0) /\ us = {[hash]} ∪ us0 /\ anc = <[hash := header]> anc0.
Proof.
  intros HN Hh. unfold getUncles. rewrite HN, Hh. cbn [mbind Res_bind]. destruct (past _ _ _ _ _ _) as [[us0 anc0]| |]; try discriminate. cbn [mbind Res_bind mret Res_ret]. intros H. injection H as <- <-. eauto.
Qed.

Lemma VerifyUncles_cases header uncles : VerifyUncles cache datasetSize chain_ now header uncles = Val None ->
  uncles = [] \/ (zlen uncles <= 2 /\ exists us anc s', getUncles chain_ header = Val (us, anc) /\ verify_each cache datasetSize chain_ now header anc uncles us = Val (None, s')).
Proof.
  unfold VerifyUncles. destruct (Z.ltb_spec maxUncles (zlen uncles)) as [|Hlen]; [discriminate|]. unfold maxUncles in Hlen. destruct (Z.eqb_spec (zlen uncles) 0) as [E0|_].
  { intros _. left. destruct uncles; [reflexivity|]. rewrite zlen_cons in E0. pose proof (zlen_nonneg uncles). lia. }
  destruct (getUncles chain_ header) as [[us anc]| |]; try discriminate. cbn [mbind Res_bind]. destruct (verify_each _ _ _ _ _ _ _ _) as [[e s']| |] eqn:EV; try discriminate. intros H. injection H as ->. right. split; [lia|]. eauto.
Qed.

(** An uncle that passed the checks against what [getUncles] gathered. *)
Lemma checked_uncle N header hash us0 anc0 u x : gathered 7 (N - 1) (b_ParentHash header) ∅ ∅ us0 anc0 -> b_ParentHash u <> hash -> uncle_of header (<[hash := header]> anc0) u x -> x ∉ {[hash]} ∪ us0 -> valid_uncle header N hash u x.
Proof.
  intros [G1 _ G3] Hu (H1 & H0 & H2 & p & pn & H3 & H4 & H5) Hx. rewrite lookup_insert_ne in H3 by congruence. apply lookup_insert_None in H0 as [H0 Hh]. split.
  - exact H1.
  - apply G1 in H3 as [H3|(i & Hi & Hl)]; [by rewrite lookup_empty in H3|]. destruct (line_number _ _ _ _ _ Hl) as (L1 & L2 & L3 & _ & L4). replace (N - 1 + 1 - Z.of_nat i) with (N - Z.of_nat i) in * by lia. assert (pn = N - Z.of_nat i) as -> by congruence.
    exists i, p. split; [|split; [by split|split; [lia|by split]]]. destruct (decide (i = 1%nat)) as [E1|]; [exfalso; by apply H2, L4|lia].
  - split; [congruence|]. intros i h [Hi Hl]. apply (G3 _ _ _ Hi) in Hl as [Hl _]. by apply not_elem_of_dom in H0.
  - intros i k h included v [Hi Hl] Hg Hv Hk. apply (G3 _ _ _ Hi) in Hl as [_ Hl]. replace (N - 1 + 1 - Z.of_nat i) with (N - Z.of_nat i) in Hl by lia. specialize (Hl included v x Hg Hv Hk). set_solver.
Qed.

Lemma VerifyUncles_inv header uncles N hash : number_of header = Val N -> 0 <= N < 2 ^ 63 -> h_Hash header = Val hash -> Forall (fun u => b_ParentHash u <> hash) uncles ->
  VerifyUncles cache datasetSize chain_ now header uncles = Val None -> exists hashes, accepted_uncles header N hash uncles hashes.
Proof.
  intros HN Hb Hh Hno HV. apply VerifyUncles_cases in HV as [->|(Hlen & us & anc & s' & EG & EV)]; [exists []; split; [change (zlen (@nil BlkHeader)) with 0; lia|]; split; constructor|].
  destruct (getUncles_inv _ _ _ _ _ HN Hh EG) as (us0 & anc0 & EP & -> & ->). apply past_spec in EP; [|lia]. apply verify_each_inv in EV as (hashes & HF & HD & HS). exists hashes. split; [exact Hlen|]. split; [exact HD|]. clear HD Hlen. induction HF as [|u h us' hs Hu _ IH]; [constructor|].
  apply Forall_cons in Hno as [Hu1 Hno]. apply Forall_cons in HS as [Hs1 HS]. constructor; [by eapply checked_uncle|by apply IH].
Qed.
End Engine.

(** ** Rewards *)

Definition total (l : list Z) : Z := foldr Z.add 0 l.

(** The reward of an uncle at number [n] of a block at [N]: as many eighths of the block's as
    it is less than eight blocks behind. *)
Definition uncle_share (R N : Z) (u : BlkHeader) (r : Z) : Prop := exists n, b_Number u = Some n /\ 8 * r = (8 - (N - n)) * R /\ 0 <= 8 * r <= 7 * R.

Lemma block_reward_cases config n : exists q, block_reward config n = 32 * q /\ 0 < q < 2 ^ 58.
Proof.
  unfold block_reward, ConstantinopleBlockReward, ByzantiumBlockReward, FrontierBlockReward. destruct (chain.IsConstantinople config n); [exists 62500000000000000; lia|]. destruct (chain.IsByzantium config n); [exists 93750000000000000; lia|exists 156250000000000000; lia].
Qed.

Section Rewards.
Context {U : Uint256} {US : Uint256Spec U}.

Lemma uncle_rewards_exact q N : 0 < q < 2 ^ 58 -> 0 <= N < 2 ^ 63 -> forall uncles reward, Forall (fun u => exists n, b_Number u = Some n /\ 0 < n /\ N - 6 <= n < N) uncles -> 0 <= reward -> reward + zlen uncles * q < 2 ^ 128 ->
  exists rs, uncle_rewards (32 * q) N uncles reward = Val (reward + zlen uncles * q, rs) /\ Forall2 (uncle_share (32 * q) N) uncles rs.
Proof.
  intros Hq HN. induction uncles as [|u uncles IH]; intros reward HF Hr Hs; cbn [uncle_rewards].
  { exists []. change (zlen (@nil BlkHeader)) with 0. rewrite Z.mul_0_l, Z.add_0_r. split; [reflexivity|constructor]. }
  apply Forall_cons in HF as [(n & Hn & Hp & Hb) HF]. rewrite zlen_cons in *. pose proof (zlen_nonneg uncles). rewrite Hn. cbn [nonnil mbind Res_bind mret Res_ret]. assert (E1 : (u_FromBig n).1 = n) by (rewrite FromBig_spec by lia; cbn; apply Z.mod_small; unfold two256; lia).
  assert (E2 : u_Add n 8 = n + 8) by (rewrite Add_spec by (unfold is_u256, two256; lia); apply Z.mod_small; unfold two256; lia). assert (E3 : u_Sub (n + 8) N = 8 - (N - n)) by (rewrite Sub_spec by (unfold is_u256, two256; lia); rewrite Z.mod_small by (unfold two256; lia); lia).
  assert (E4 : u_Mul (8 - (N - n)) (32 * q) = (8 - (N - n)) * (32 * q)) by (rewrite Mul_spec by (unfold is_u256, two256; nia); apply Z.mod_small; unfold two256; nia). assert (E5 : u_Rsh ((8 - (N - n)) * (32 * q)) 3 = (8 - (N - n)) * (4 * q)).
  { rewrite Rsh_spec by (unfold is_u256, two256; nia). replace ((8 - (N - n)) * (32 * q)) with ((8 - (N - n)) * (4 * q) * 2 ^ 3) by (change (2 ^ 3) with 8; ring). apply Z.div_mul. lia. }
  assert (E6 : u_Rsh (32 * q) 5 = q). { rewrite Rsh_spec by (unfold is_u256, two256; lia). replace (32 * q) with (q * 2 ^ 5) by (change (2 ^ 5) with 32; ring). apply Z.div_mul. lia. }
  rewrite E1, E2, E3, E4, E5, E6. assert (E7 : u_Add reward q = reward + q) by (rewrite Add_spec by (unfold is_u256, two256; nia); apply Z.mod_small; unfold two256; nia). rewrite E7. destruct (IH (reward + q) HF ltac:(lia) ltac:(lia)) as (rs & -> & HS). cbn [mbind Res_bind mret Res_ret].
  eexists. split; [f_equal; f_equal; lia|]. constructor; [|exact HS]. exists n. split; [exact Hn|]. split; [ring|]. nia.
Qed.

Lemma shares_total R N uncles rs : Forall2 (uncle_share R N) uncles rs -> 8 * total rs <= 7 * (zlen uncles * R).
Proof. induction 1 as [|u r us rs (n & _ & _ & Hr) _ IH]; [reflexivity|]. rewrite zlen_cons. cbn [total foldr]. unfold total in IH. lia. Qed.

Context {K : Keccak} {K5 : Keccak512}.

(** C18 The uncles of an accepted block are at most two, distinct, children of one of its last
    seven ancestors but not of its parent, neither the block nor one of these ancestors, and
    not among the uncles they included; so their rewards are exact, without wrap-around: the
    miner gets the block's reward and a 32nd of it per uncle, each uncle an eighth less per
    block it is behind, and a block issues less than three times its reward. The chain reader
    gives headers by number and has the uncles of the headers it has (none where the header
    says so), block numbers are below 2^63, and no uncle has the block itself as its parent,
    which the hash of the uncles in the header rules out in practice. *)
Theorem uncle_rewards_sound cache datasetSize chain_ now config header uncles N hash : reader_ok chain_ -> b_Number header = Some N -> 0 <= N < 2 ^ 63 -> h_Hash header = Val hash -> Forall (fun u => b_ParentHash u <> hash) uncles ->
  VerifyUncles cache datasetSize chain_ now header uncles = Val None ->
  exists hashes rs, let R := block_reward config N in accepted_uncles chain_ header N hash uncles hashes /\ AccumulateRewards config header uncles = Val (R + zlen uncles * (R / 32), rs) /\ Forall2 (uncle_share R N) uncles rs /\ R + zlen uncles * (R / 32) + total rs < 3 * R.
Proof.
  intros HR HN Hb Hh Hno HV. assert (EN : big_Uint64 N = N) by (unfold big_Uint64; rewrite Z.abs_eq, Z.mod_small; unfold two64; lia). assert (Hnum : number_of header = Val N) by (unfold number_of; rewrite HN; cbn; by rewrite EN).
  destruct (VerifyUncles_inv cache datasetSize chain_ now HR header uncles N hash Hnum Hb Hh Hno HV) as (hashes & HA). pose proof HA as (Hlen & _ & HF). assert (HF' : Forall (fun u => exists n, b_Number u = Some n /\ 0 < n /\ N - 6 <= n < N) uncles) by (clear - HF; induction HF as [|u h us hs Hu _ IH]; constructor; [by eapply valid_uncle_number|assumption]).
  destruct (block_reward_cases config N) as (q & ER & Hq). pose proof (zlen_nonneg uncles). destruct (uncle_rewards_exact q N Hq Hb uncles (32 * q) HF' ltac:(lia) ltac:(nia)) as (rs & EU & HS). exists hashes, rs. cbv zeta. rewrite ER. split; [exact HA|]. assert (E32 : 32 * q / 32 = q) by (rewrite Z.mul_comm; apply Z.div_mul; lia). rewrite E32.
  split; [|split; [exact HS|pose proof (shares_total _ _ _ _ HS); nia]]. unfold AccumulateRewards. rewrite HN. cbn [nonnil mbind Res_bind mret Res_ret]. rewrite EN, ER. assert (EB : (u_FromBig N).1 = N) by (rewrite FromBig_spec by lia; cbn; apply Z.mod_small; unfold two256; lia). rewrite EB. exact EU.
Qed.
End Rewards.

(** ** A block with an uncle *)

#[local] Instance demo_poly : Keccak := fun b => fold_left (fun acc x => (acc * 263 + byteZ x + 1) mod 1000003) b 0.
#[local] Instance zero_keccak512 : Keccak512 := fun _ => replicate 64 x00.

(** ** The proof of work of a constant hash function *)

Lemma zero_item cache i b : generateDatasetItem cache i = Val b -> b = replicate 64 x00.
Proof.
  unfold generateDatasetItem. destruct (_ =? 0); [discriminate|]. destruct (go_slice _ _ _) as [row| |]; try discriminate. cbn [mbind Res_bind]. destruct (mix_parents _ _ _ _ _ _) as [m| |]; try discriminate. cbn [mbind Res_bind mret Res_ret]. intros H. by injection H as <-.
Qed.

Lemma zero_mix (l : Z -> Res (list Z)) pages : 1 <= pages -> (forall i, 0 <= i -> l i = Val (replicate 16 0)) -> forall n i, 0 <= i -> mix_loop l n i pages 0 (replicate 32 0) = Val (replicate 32 0).
Proof.
  intros Hp HL. induction n as [|n IH]; intros i Hi; cbn [mix_loop]; [reflexivity|]. change (zlen (replicate 32 0)) with 32. pose proof (Z.mod_pos_bound i 32 ltac:(lia)). destruct (go_index_val (replicate 32 0) (i mod 32) ltac:(change (zlen (replicate 32 0)) with 32; lia)) as (w & -> & _). cbn [mbind Res_bind]. destruct (Z.eqb_spec pages 0); [lia|].
  rewrite !HL by (unfold u32; apply Z.mod_pos_bound; lia). cbn [mbind Res_bind]. change (fnvHash32 (replicate 32 0) (take 16 (replicate 16 0) ++ take 16 (replicate 16 0))) with (Val (replicate 32 0)). cbn [mbind Res_bind]. apply IH. lia.
Qed.

Lemma zero_light size cache h n : 16 <= zlen cache < 2 ^ 32 -> 128 <= size < 2 ^ 32 -> exists r, hashimotoLight size cache h n = Val (replicate 32 x00, r) /\ r = demo_poly (replicate 96 x00).
Proof.
  intros Hc Hs. unfold hashimotoLight, hashimoto. change (keccak512 _) with (replicate 64 x00). change (get_words 16 (replicate 64 x00) ++ get_words 16 (replicate 64 x00)) with (replicate 32 0). change (le_Uint32 (replicate 64 x00)) with 0. assert (EP : u32 (size / mixBytes) = size / 128).
  { unfold u32, mixBytes. apply Z.mod_small. split; [apply Z.div_pos; lia|apply Z.div_lt_upper_bound; lia]. }
  cbv zeta. rewrite EP, zero_mix; [|apply Z.div_le_lower_bound; lia| |lia]. { eexists. split; reflexivity. }
  intros i Hi. destruct (item_total cache ltac:(lia) ltac:(lia) i Hi) as (b & Eb & _). rewrite Eb. apply zero_item in Eb as ->. reflexivity.
Qed.

#[local] Opaque hashimotoLight.

(** A header without a mix digest is sealed. *)
Lemma zero_seal cache size header d n : b_Difficulty header = Some d -> 0 < d -> number_of header = Val n -> b_MixDigest header = 0 -> demo_poly (replicate 96 x00) <= two256 / d -> 16 <= zlen (cache n) < 2 ^ 32 -> 128 <= size n < 2 ^ 32 -> verifySeal cache size header = Val None.
Proof.
  intros Hd Hp Hn Hm Hr Hc Hs. unfold verifySeal. rewrite Hd. cbn [nonnil mbind Res_bind mret Res_ret]. destruct (Z.leb_spec d 0); [lia|]. rewrite Hn. cbn [mbind Res_bind]. destruct (zero_light (size n) (cache n) (SealHash header) (be_to_Z (b_Nonce header)) Hc Hs) as (r & -> & ->). cbn [mbind Res_bind mret Res_ret].
  rewrite Hm. rewrite bool_decide_true by reflexivity. cbn [negb]. destruct (Z.ltb_spec (two256 / d) (demo_poly (replicate 96 x00))); [lia|reflexivity].
Qed.

(** ** The chain *)

Definition blk (number parent difficulty : Z) (extra : bytes) : BlkHeader :=
  mkBlk parent emptyUncleHash 7 0 0 0 (replicate 256 x00) (Some difficulty) (Some number) 8000000 0 (1000 + 13 * number) extra 0 (replicate 8 x00) 0 [] None None None None None None.
Definition hash_of (h : BlkHeader) : Z := match h_Hash h with Val k => k | _ => 0 end.
Definition difficulty4 : Z := Eval vm_compute in match CalcDifficulty chain.TestChainConfig 1052 1039 (Some 200000) 3 emptyUncleHash with Val d => d | _ => 0 end.

Definition blk3 : BlkHeader := blk 3 1 200000 [].
Definition hash3 : Z := Eval vm_compute in hash_of blk3.
Definition blk4 : BlkHeader := blk 4 hash3 difficulty4 [].
Definition hash4 : Z := Eval vm_compute in hash_of blk4.
Definition uncle4 : BlkHeader := blk 4 hash3 difficulty4 [x01].
Definition blk5 : BlkHeader := blk 5 hash4 200000 [].
Definition hash5 : Z := Eval vm_compute in hash_of blk5.

Definition demo_chain : ChainReader :=
  mkChainReader chain.TestChainConfig (fun h n => if (h =? hash3) && (n =? 3) then Some blk3 else if (h =? hash4) && (n =? 4) then Some blk4 else None) (fun _ => None) (fun _ _ => None) (fun _ _ => Some []).
Definition demo_cache (_ : Z) : list Z := replicate 16 1.
Definition demo_size (_ : Z) : Z := 1024.

Lemma demo_reader : reader_ok demo_chain.
Proof.
  split; intros hash n h; cbn [GetHeader demo_chain]; [|intros _; by exists []]. destruct (Z.eqb_spec hash hash3), (Z.eqb_spec n 3), (Z.eqb_spec hash hash4), (Z.eqb_spec n 4); cbn [andb]; intros H; try discriminate H; injection H as <-; first [exfalso; lia|subst n; split; [reflexivity|lia]].
Qed.

Lemma uncle_seal : verifySeal demo_cache demo_size uncle4 = Val None.
Proof. apply (zero_seal _ _ _ difficulty4 4); [reflexivity|reflexivity|reflexivity|reflexivity|vm_compute; discriminate|split; vm_compute; [discriminate|reflexivity]|split; vm_compute; [discriminate|reflexivity]]. Qed.

Lemma uncle_header : verifyHeader demo_cache demo_size chain.TestChainConfig 2000 uncle4 blk3 true true = Val None.
Proof.
  unfold verifyHeader. assert (EB : VerifyHeaderBasics chain.TestChainConfig 2000 uncle4 blk3 (negb true) false = Val None) by (vm_compute; reflexivity). rewrite EB. cbn [mbind Res_bind]. assert (EH : h_Hash blk3 = Val hash3) by (vm_compute; reflexivity). rewrite EH. cbn [mbind Res_bind].
  change (number_of blk3) with (Val 3 : Res Z). cbn [mbind Res_bind]. assert (ED : CalcDifficulty chain.TestChainConfig (b_Time uncle4) (b_Time blk3) (b_Difficulty blk3) 3 (b_UncleHash blk3) = Val difficulty4) by (vm_compute; reflexivity). rewrite ED. cbn [mbind Res_bind].
  change (b_Difficulty uncle4) with (Some difficulty4). cbn [nonnil mbind Res_bind mret Res_ret]. rewrite Z.eqb_refl. cbn [negb]. exact uncle_seal.
Qed.

(** The ancestors of block 5. *)
Definition anc5 : gmap Z BlkHeader := <[hash5 := blk5]> (<[hash3 := blk3]> (<[hash4 := blk4]> ∅)).
Lemma blk5_past : getUncles demo_chain blk5 = Val ({[hash5]} ∪ ∅, anc5).
Proof. vm_compute. reflexivity. Qed.
Definition uhash4 : Z := Eval vm_compute in hash_of uncle4.

Lemma uncle_verified : VerifyUncle demo_cache demo_size demo_chain 2000 blk5 uncle4 anc5 true ({[hash5]} ∪ ∅) = Val (None, {[uhash4]} ∪ ({[hash5]} ∪ ∅)).
Proof.
  unfold VerifyUncle. assert (EH : h_Hash uncle4 = Val uhash4) by (vm_compute; reflexivity). unfold mbind, M_bind, lift, gets, modify. rewrite EH. cbn [id]. rewrite bool_decide_false by (apply (bool_decide_unpack _); vm_compute; exact I). rewrite bool_decide_false by (intros H; apply H; vm_compute; reflexivity).
  change (b_ParentHash uncle4) with hash3. assert (EA : anc5 !! hash3 = Some blk3) by (vm_compute; reflexivity). rewrite EA. change (hash3 =? b_ParentHash blk5) with false. cbv iota. change (cr_Config demo_chain) with chain.TestChainConfig. by rewrite uncle_header.
Qed.

Lemma demo_uncles : VerifyUncles demo_cache demo_size demo_chain 2000 blk5 [uncle4] = Val None.
Proof. unfold VerifyUncles. change (maxUncles <? zlen [uncle4]) with false. change (zlen [uncle4] =? 0) with false. cbv iota. rewrite blk5_past. cbn [mbind Res_bind verify_each]. unfold mbind, M_bind. by rewrite uncle_verified. Qed.

Lemma blk5_hash : h_Hash blk5 = Val hash5.
Proof. vm_compute. reflexivity. Qed.

(** The miner gets 2 ether and a 32nd, the uncle seven eighths. *)
Lemma uncle_rewards_sound_witness : exists hashes rs, accepted_uncles demo_chain blk5 5 hash5 [uncle4] hashes /\ @AccumulateRewards uint256_ref chain.TestChainConfig blk5 [uncle4] = Val (2062500000000000000, rs) /\ Forall2 (uncle_share 2000000000000000000 5) [uncle4] rs.
Proof.
  destruct (@uncle_rewards_sound uint256_ref uint256_ref_spec _ _ demo_cache demo_size demo_chain 2000 chain.TestChainConfig blk5 [uncle4] 5 hash5 demo_reader eq_refl ltac:(lia) blk5_hash ltac:(constructor; [vm_compute; discriminate|constructor]) demo_uncles) as (hashes & rs & H1 & H2 & H3 & _).
  exists hashes, rs. split; [exact H1|]. split; [exact H2|exact H3].
Defined.
