(* ===== verification/Merge.v ===== *)
(** * The Merge: proof of stake on the execution layer

    The engine of [execution/consensus/merge/merge.go]: it hands a block to the engine before
    it until the terminal total difficulty is reached, and applies the rules of EIP-3675 and
    its successors after that; with the system operations of [execution/consensus/misc]:
    withdrawals, deposits (EIP-6110), requests (EIP-7002, 7251, 7685), beacon roots (EIP-4788)
    and block hashes (EIP-2935). The engine before the merge is an interface of the source,
    hence a record of operations here; a system call is an argument. *)

From stdpp Require Import gmap.
From S2P Require Import Prelude Uint256 Params Errors AccessList StateDB Machine ChainConfig FeeMarket HeaderRlp Sha256 Consensus Ethash EthashRules.

Definition ProofOfStakeDifficulty : Z := 0.
Definition ProofOfStakeNonce : bytes := replicate 8 x00.
Definition errInvalidDifficulty : Error := NewError "invalid difficulty".
Definition errInvalidNonce : Error := NewError "invalid nonce".
Definition errInvalidUncleHash : Error := NewError "non empty uncle hash".

Definition IsPoSHeader (header : BlkHeader) : Res bool :=
  match b_Difficulty header with None => Panic "IsPoSHeader called with invalid difficulty" | Some d => mret (d =? ProofOfStakeDifficulty) end.

(** ** Deposits *)

Definition BLSPubKeyLen : Z := 48.
Definition WithdrawalCredentialsLen : Z := 32.
Definition BLSSigLen : Z := 96.
Definition DepositLogLen : Z := 576.
Definition depositTopic : Z := 0x649bbc62d0e31342afea4e5cd82d4049e7e1ee912fc0889aa790803be39038c5.
Definition InvalidDepositLogErr : Error := NewError "invalid deposit log: unsupported data layout".

(** [uint256.NewInt(0).SetBytes(data[at:at+32])]. *)
Definition word_at (data : bytes) (at_ : Z) : Res Z := b ← go_slice data at_ (at_ + 32); mret (be_to_Z b).

Definition validateDepositLog (data : bytes) : Res (option Error) :=
  if negb (zlen data =? DepositLogLen) then mret (Some InvalidDepositLogErr)
  else
    pubkeyOffset ← word_at data 0; withdrawalCredentialsOffset ← word_at data 32; amountOffset ← word_at data 64; signatureOffset ← word_at data 96; indexOffset ← word_at data 128;
    if negb (pubkeyOffset =? 160) || negb (withdrawalCredentialsOffset =? 256) || negb (amountOffset =? 320) || negb (signatureOffset =? 384) || negb (indexOffset =? 512) then mret (Some InvalidDepositLogErr)
    else
      pubkeySize ← word_at data 160; withdrawalCredentialsSize ← word_at data 256; amountSize ← word_at data 320; signatureSize ← word_at data 384; indexSize ← word_at data 512;
      if negb (pubkeySize =? BLSPubKeyLen) || negb (withdrawalCredentialsSize =? WithdrawalCredentialsLen) || negb (amountSize =? 8) || negb (signatureSize =? BLSSigLen) || negb (indexSize =? 8) then mret (Some InvalidDepositLogErr)
      else mret None.

(** [lengthPrefixPointsTo] of [execution/abi/unpack.go]. *)
Definition lengthPrefixPointsTo (index : Z) (output : bytes) : Res (Error + Z * Z) :=
  word ← go_slice output index (index + 32);
  let bigOffsetEnd := be_to_Z word + 32 in
  if zlen output <? bigOffsetEnd then mret (inl (NewError "abi: offset would go over slice boundary"))
  else if 2 ^ 63 <=? bigOffsetEnd then mret (inl (NewError "abi offset larger than int64"))
  else
    l ← go_slice output (bigOffsetEnd - 32) bigOffsetEnd;
    let totalSize := bigOffsetEnd + be_to_Z l in
    if 2 ^ 63 <=? totalSize then mret (inl (NewError "abi: length larger than int64"))
    else if zlen output <? totalSize then mret (inl (NewError "abi: length insufficient"))
    else mret (inr (bigOffsetEnd, be_to_Z l)).

(** [toGoType] at the type [bytes]. *)
Definition toGoType_bytes (index : Z) (output : bytes) : Res (Error + bytes) :=
  if zlen output <? index + 32 then mret (inl (NewError "abi: length insufficient"))
  else
    r ← lengthPrefixPointsTo index output;
    match r with
    | inl e => mret (inl e)
    | inr (begin_, length_) => b ← go_slice output begin_ (begin_ + length_); mret (inr b)
    end.

(** [UnpackValues] for a list of arguments of the type [bytes]. *)
Fixpoint unpack_bytes (n : nat) (index : Z) (data : bytes) : Res (Error + list bytes) :=
  match n with
  | O => mret (inr [])
  | S n =>
      r ← toGoType_bytes (index * 32) data;
      match r with
      | inl e => mret (inl e)
      | inr b =>
          rest ← unpack_bytes n (index + 1) data;
          mret (match rest with inl e => inl e | inr l => inr (b :: l) end)
      end
  end.

Definition unpackDepositLog (data : bytes) : Res (Error + bytes) :=
  err ← validateDepositLog data;
  match err with
  | Some e => mret (inl e)
  | None =>
      du ← unpack_bytes 5 0 data;
      match du with
      | inl e => mret (inl e)
      | inr fields => mret (inr (concat fields))
      end
  end.

Record FlatRequest : Type := mkFlatRequest { Type_ : byte; RequestData : bytes }.
Definition DepositRequestType : byte := x00.
Definition WithdrawalRequestType : byte := x01.
Definition ConsolidationRequestType : byte := x02.

Fixpoint deposit_data (depositContractAddress : Z) (logs : list Log) (reqData : bytes) : Res (Error + bytes) :=
  match logs with
  | [] => mret (inr reqData)
  | l :: logs =>
      if (log_Address l =? depositContractAddress) && bool_decide (head (log_Topics l) = Some depositTopic) then
        d ← unpackDepositLog (log_Data l);
        match d with
        | inl _ => mret (inl (NewError "unable to parse deposit data"))
        | inr d => deposit_data depositContractAddress logs (reqData ++ d)
        end
      else deposit_data depositContractAddress logs reqData
  end.

Definition ParseDepositLogs (logs : list Log) (depositContractAddress : Z) : Res (Error + option FlatRequest) :=
  r ← deposit_data depositContractAddress logs [];
  mret (match r with
        | inl e => inl e
        | inr reqData => inr (if 0 <? zlen reqData then Some (mkFlatRequest DepositRequestType reqData) else None)
        end).

(** [FlatRequests.Hash] of a list that is not nil. *)
Definition requests_Hash (rs : list FlatRequest) : Z :=
  be_to_Z (Sum256 (mjoin (map (fun t => if zlen (RequestData t) =? 0 then [] else Sum256 (Type_ t :: RequestData t)) rs))).

(** ** The rules of a header *)

Section Header.
Context {U : Uint256}.

Definition verify_cancun (config : chain.Config) (header parent : BlkHeader) : Res (option Error) :=
  if negb (chain.IsCancun config (b_Time header)) then mret (VerifyAbsenceOfCancunHeaderFields (fee_fields header))
  else
    match VerifyPresenceOfCancunHeaderFields (fee_fields header) with
    | Some e => mret (Some e)
    | None =>
        expectedExcessBlobGas ← CalcExcessBlobGas config (fee_fields parent) (b_Time header);
        have ← nonnil (b_ExcessBlobGas header);
        mret (if negb (have =? expectedExcessBlobGas) then Some (NewError "invalid excessBlobGas")
              else if chain.IsPrague config (b_Time header) && bool_decide (b_RequestsHash header = None) then Some (NewError "missing requestsHash")
              else if negb (chain.IsPrague config (b_Time header)) && bool_decide (b_RequestsHash header <> None) then Some ErrUnexpectedRequests
              else None)
    end.

Definition verifyHeader (config : chain.Config) (header parent : BlkHeader) : Res (option Error) :=
  if MaximumExtraDataSize <? zlen (b_Extra header) then mret (Some (NewError "extra-data longer than 32 bytes"))
  else if b_Time header <=? b_Time parent then mret (Some errOlderBlockTime)
  else
    difficulty ← nonnil (b_Difficulty header);
    if negb (difficulty =? ProofOfStakeDifficulty) then mret (Some errInvalidDifficulty)
    else if negb (bool_decide (b_Nonce header = ProofOfStakeNonce)) then mret (Some errInvalidNonce)
    else if MaxBlockGasLimit <? b_GasLimit header then mret (Some (NewError "invalid gasLimit"))
    else if b_GasLimit header <? b_GasUsed header then mret (Some (NewError "invalid gasUsed"))
    else
      number ← nonnil (b_Number header);
      parentNumber ← nonnil (b_Number parent);
      if negb (number - parentNumber =? 1) then mret (Some ErrInvalidNumber)
      else if negb (b_UncleHash header =? emptyUncleHash) then mret (Some errInvalidUncleHash)
      else
        err ← VerifyEip1559Header config (fee_fields parent) (fee_fields header) false;
        match err with
        | Some e => mret (Some e)
        | None =>
            let shanghai := chain.IsShanghai config (b_Time header) in
            if shanghai && bool_decide (b_WithdrawalsHash header = None) then mret (Some (NewError "missing withdrawalsHash"))
            else if negb shanghai && bool_decide (b_WithdrawalsHash header <> None) then mret (Some ErrUnexpectedWithdrawals)
            else verify_cancun config header parent
        end.
End Header.

(** ** The engine *)

Section Engine.
Context {U : Uint256} {DB : StateDB}.

(** [consensus.SystemCall]; nil slices are [None]. *)
Definition SystemCall : Type := Z -> option bytes -> M ibs (Error + option bytes).

(** The engine before the merge. *)
Record Eth1Engine : Type := mkEth1Engine {
  eth1_Author : BlkHeader -> Res (Z * option Error);
  eth1_VerifyHeader : BlkHeader -> bool -> Res (option Error);
  eth1_VerifyUncles : BlkHeader -> list BlkHeader -> Res (option Error);
  eth1_Prepare : BlkHeader -> Res (Error + BlkHeader);
  eth1_CalculateRewards : BlkHeader -> list BlkHeader -> SystemCall -> M ibs (Error + list Reward);
  eth1_Finalize : BlkHeader -> list BlkHeader -> SystemCall -> M ibs (Error + option (list FlatRequest));
  eth1_CalcDifficulty : Z -> Z -> option Z -> Z -> Z -> Res (option Z);
  eth1_Initialize : BlkHeader -> M ibs unit;
  is_aura : bool;
  ExecuteSystemWithdrawals : list Withdrawal -> SystemCall -> M ibs (option Error)
}.
Context (eth1Engine : Eth1Engine) (chain_ : ChainReader).
(** Fields of the configuration that only the merge reads. *)
Context (TerminalTotalDifficulty : option Z) (TerminalTotalDifficultyPassed : bool).

Definition IsTTDReached (parentHash number : Z) : Error + bool :=
  match TerminalTotalDifficulty with
  | None => inr false
  | Some ttd => match GetTd chain_ parentHash number with None => inl ErrUnknownAncestorTD | Some td => inr (ttd <=? td) end
  end.

Definition Author (header : BlkHeader) : Res (Z * option Error) :=
  pos ← IsPoSHeader header;
  if negb pos then eth1_Author eth1Engine header else mret (b_Coinbase header, None).

Definition VerifyHeader (header : BlkHeader) : Res (option Error) :=
  number ← number_of header;
  match IsTTDReached (b_ParentHash header) (u64 (number - 1)) with
  | inl err => mret (Some err)
  | inr false => eth1_VerifyHeader eth1Engine header (negb TerminalTotalDifficultyPassed)
  | inr true =>
      match GetHeader chain_ (b_ParentHash header) (u64 (number - 1)) with
      | None => mret (Some ErrUnknownAncestor)
      | Some parent => verifyHeader (cr_Config chain_) header parent
      end
  end.

Definition VerifyUncles (header : BlkHeader) (uncles : list BlkHeader) : Res (option Error) :=
  pos ← IsPoSHeader header;
  if negb pos then eth1_VerifyUncles eth1Engine header uncles
  else mret (if 0 <? zlen uncles then Some (NewError "uncles not allowed") else None).

Definition with_pos (h : BlkHeader) : BlkHeader :=
  mkBlk (b_ParentHash h) (b_UncleHash h) (b_Coinbase h) (b_Root h) (b_TxHash h) (b_ReceiptHash h) (b_Bloom h) (Some ProofOfStakeDifficulty) (b_Number h) (b_GasLimit h) (b_GasUsed h) (b_Time h)
    (b_Extra h) (b_MixDigest h) ProofOfStakeNonce (b_AuRaStep h) (b_AuRaSeal h) (b_BaseFee h) (b_WithdrawalsHash h) (b_BlobGasUsed h) (b_ExcessBlobGas h) (b_ParentBeaconBlockRoot h) (b_RequestsHash h).

Definition Prepare (header : BlkHeader) : Res (Error + BlkHeader) :=
  number ← number_of header;
  match IsTTDReached (b_ParentHash header) (u64 (number - 1)) with
  | inl err => mret (inl err)
  | inr false => eth1_Prepare eth1Engine header
  | inr true => mret (inr (with_pos header))
  end.

Definition CalcDifficulty (time parentTime : Z) (parentDifficulty : option Z) (parentNumber parentHash parentUncleHash : Z) : Res (option Z) :=
  match IsTTDReached parentHash parentNumber with
  | inl _ => mret None
  | inr false => eth1_CalcDifficulty eth1Engine time parentTime parentDifficulty parentNumber parentUncleHash
  | inr true => mret (Some ProofOfStakeDifficulty)
  end.

Definition CalculateRewards (header : BlkHeader) (uncles : list BlkHeader) (syscall : SystemCall) : M ibs (Error + list Reward) :=
  pos ← lift (IsPoSHeader header);
  if negb pos || is_aura eth1Engine then eth1_CalculateRewards eth1Engine header uncles syscall else mret (inr []).

(** The errors of [AddBalance] are dropped. *)
Fixpoint credit (rewards : list (Z * Z)) : M ibs unit :=
  match rewards with [] => mret tt | (a, amount) :: rewards => _ ← AddBalance a amount; credit rewards end.

Definition GWei : Z := 1000000000.

Definition apply_withdrawals (withdrawals : option (list Withdrawal)) (syscall : SystemCall) : M ibs (option Error) :=
  match withdrawals with
  | None => mret None
  | Some ws =>
      if is_aura eth1Engine then ExecuteSystemWithdrawals eth1Engine ws syscall
      else _ ← credit (map (fun w => (w_Address w, u_Mul (w_Amount w) GWei)) ws); mret None
  end.

(** [DequeueWithdrawalRequests7002] and [DequeueConsolidationRequests7251]. *)
Definition dequeue (address : Z) (type : byte) (syscall : SystemCall) : M ibs (Error + option FlatRequest) :=
  '(codeSize, err) ← GetCodeSize address;
  match err with
  | Some e => mret (inl e)
  | None =>
      if codeSize =? 0 then mret (inl (NewError "Syscall failure: Empty Code"))
      else
        r ← syscall address None;
        mret (match r with
              | inl _ => inl (NewError "Unprecedented Syscall failure")
              | inr None => inr None
              | inr (Some res) => inr (Some (mkFlatRequest type res))
              end)
  end.
Definition DequeueWithdrawalRequests7002 : SystemCall -> M ibs (Error + option FlatRequest) := dequeue params.WithdrawalRequestAddress WithdrawalRequestType.
Definition DequeueConsolidationRequests7251 : SystemCall -> M ibs (Error + option FlatRequest) := dequeue params.ConsolidationRequestAddress ConsolidationRequestType.

(** The logs of the receipts; a receipt may be nil. *)
Fixpoint all_logs (receipts : list (option (list Log))) : Error + list Log :=
  match receipts with
  | [] => inr []
  | None :: _ => inl (NewError "nil receipt")
  | Some logs :: receipts => match all_logs receipts with inl e => inl e | inr rest => inr (logs ++ rest) end
  end.

Definition opt_request (r : option FlatRequest) : list FlatRequest := match r with Some r => [r] | None => [] end.

Definition collect_requests (header : BlkHeader) (receipts : list (option (list Log))) (syscall : SystemCall) : M ibs (Error + list FlatRequest) :=
  match all_logs receipts with
  | inl e => mret (inl e)
  | inr logs =>
      deposits ← lift (ParseDepositLogs logs (chain.DepositContract (cr_Config chain_)));
      match deposits with
      | inl _ => mret (inl (NewError "error: could not parse requests logs"))
      | inr depositReqs =>
          w ← DequeueWithdrawalRequests7002 syscall;
          match w with
          | inl e => mret (inl e)
          | inr withdrawalReq =>
              c ← DequeueConsolidationRequests7251 syscall;
              match c with
              | inl e => mret (inl e)
              | inr consolidations =>
                  let rs := opt_request depositReqs ++ opt_request withdrawalReq ++ opt_request consolidations in
                  mret (match b_RequestsHash header with
                        | Some h => if negb (h =? requests_Hash rs) then inl (NewError "error: invalid requests root hash in header") else inr rs
                        | None => inr rs
                        end)
              end
          end
      end
  end.

Definition Finalize (header : BlkHeader) (uncles : list BlkHeader) (receipts : list (option (list Log))) (withdrawals : option (list Withdrawal)) (syscall : SystemCall) (skipReceiptsEval : bool)
    : M ibs (Error + option (list FlatRequest)) :=
  pos ← lift (IsPoSHeader header);
  if negb pos then eth1_Finalize eth1Engine header uncles syscall
  else
    rewards ← CalculateRewards header uncles syscall;
    match rewards with
    | inl e => mret (inl e)
    | inr rewards =>
        _ ← credit (map (fun r => (Beneficiary r, Amount r)) rewards);
        err ← apply_withdrawals withdrawals syscall;
        match err with
        | Some e => mret (inl e)
        | None =>
            if chain.IsPrague (cr_Config chain_) (b_Time header) && negb skipReceiptsEval then
              r ← collect_requests header receipts syscall;
              mret (match r with inl e => inl e | inr rs => inr (Some rs) end)
            else mret (inr None)
        end
    end.

(** [header.RequestsHash = hash]. *)
Definition with_requests_hash (h : BlkHeader) (hash : option Z) : BlkHeader :=
  mkBlk (b_ParentHash h) (b_UncleHash h) (b_Coinbase h) (b_Root h) (b_TxHash h) (b_ReceiptHash h) (b_Bloom h) (b_Difficulty h) (b_Number h) (b_GasLimit h) (b_GasUsed h) (b_Time h)
    (b_Extra h) (b_MixDigest h) (b_Nonce h) (b_AuRaStep h) (b_AuRaSeal h) (b_BaseFee h) (b_WithdrawalsHash h) (b_BlobGasUsed h) (b_ExcessBlobGas h) (b_ParentBeaconBlockRoot h) hash.

(** The header given to [NewBlockForAsembling] and the requests, after the merge. *)
Definition FinalizeAndAssemble (header : BlkHeader) (uncles : list BlkHeader) (receipts : list (option (list Log))) (withdrawals : option (list Withdrawal)) (syscall : SystemCall)
    (eth1_FinalizeAndAssemble : M ibs (Error + BlkHeader * option (list FlatRequest))) : M ibs (Error + BlkHeader * option (list FlatRequest)) :=
  pos ← lift (IsPoSHeader header);
  if negb pos then eth1_FinalizeAndAssemble
  else
    r ← Finalize (with_requests_hash header None) uncles receipts withdrawals syscall false;
    mret (match r with
          | inl e => inl e
          | inr outRequests =>
              inr (with_requests_hash header (if chain.IsPrague (cr_Config chain_) (b_Time header) then option_map requests_Hash outRequests else None), outRequests)
          end).

(** ** The start of a block *)

(** The error of the call is logged. *)
Definition ApplyBeaconRootEip4788 (parentBeaconBlockRoot : option Z) (syscall : SystemCall) : M ibs unit :=
  root ← lift (nonnil parentBeaconBlockRoot);
  _ ← syscall params.BeaconRootsAddress (Some (hash_bytes root));
  mret tt.

Definition BlockHashHistoryServeWindow : Z := 8191.
Definition storeHash (num hash : Z) : M ibs (option Error) :=
  SetState params.HistoryStorageAddress (num mod BlockHashHistoryServeWindow) hash.
Definition StoreBlockHashesEip2935 (header : BlkHeader) : M ibs (option Error) :=
  '(codeSize, err) ← GetCodeSize params.HistoryStorageAddress;
  match err with
  | Some e => mret (Some e)
  | None =>
      if codeSize =? 0 then mret None
      else
        headerNum ← lift (number_of header);
        if headerNum =? 0 then mret None else storeHash (headerNum - 1) (b_ParentHash header)
  end.

Definition Initialize (header : BlkHeader) (syscall : SystemCall) : M ibs unit :=
  pos ← lift (IsPoSHeader header);
  _ ← (if negb pos then eth1_Initialize eth1Engine header else mret tt);
  _ ← (if chain.IsCancun (cr_Config chain_) (b_Time header) then ApplyBeaconRootEip4788 (b_ParentBeaconBlockRoot header) syscall else mret tt);
  if chain.IsPrague (cr_Config chain_) (b_Time header) then _ ← StoreBlockHashesEip2935 header; mret tt else mret tt.
End Engine.
