(* ===== verification/MergeSpec.v ===== *)
(** * The Merge: deposits, requests and the chain of headers

    The deposits of a block are exactly the fields of the deposit events in its logs; a block
    that is assembled finalizes to the same requests; and the headers accepted after the merge
    form a chain on which the next header always gets a verdict. *)

From stdpp Require Import gmap.
From S2P Require Import Prelude Uint256 Params Errors AccessList StateDB Machine ChainConfig ChainConfigSpec FeeMarket FeeMarketSpec HeaderRlp Sha256 Consensus Ethash EthashRules Merge.

(** ** Deposits *)

(** The chunk of a concatenation that begins after the first [k] chunks. *)
Lemma go_slice_chunk (cs : list bytes) k c lo hi :
  cs !! k = Some c -> lo = zlen (concat (take k cs)) -> hi = lo + zlen c -> go_slice (concat cs) lo hi = Val c.
Proof.
  intros Hk -> ->.
  assert (E : concat cs = concat (take k cs) ++ c ++ concat (drop (S k) cs)) by (rewrite <- (take_drop_middle cs k c Hk) at 1; by rewrite concat_app).
  rewrite E.
  pose proof (zlen_nonneg (concat (take k cs))). pose proof (zlen_nonneg c). pose proof (zlen_nonneg (concat (drop (S k) cs))).
  rewrite go_slice_val by (rewrite ?zlen_app; lia). f_equal. unfold zlen.
  rewrite drop_app_length' by lia. by rewrite take_app_length' by lia.
Qed.

(** A deposit, with the bytes that pad its fields in the event. *)
Record Deposit : Type := mkDeposit { pubkey : bytes; credentials : bytes; amount : bytes; signature : bytes; index : bytes; pad_pubkey : bytes; pad_amount : bytes; pad_index : bytes }.

Definition deposit_wf (d : Deposit) : Prop :=
  zlen (pubkey d) = 48 /\ zlen (credentials d) = 32 /\ zlen (amount d) = 8 /\ zlen (signature d) = 96 /\ zlen (index d) = 8 /\
  zlen (pad_pubkey d) = 16 /\ zlen (pad_amount d) = 24 /\ zlen (pad_index d) = 24.

(** The ABI encoding of the event of the deposit contract. *)
Definition word (z : Z) : bytes := Z_to_be 32 z.
Definition deposit_chunks (d : Deposit) : list bytes :=
  [word 160; word 256; word 320; word 384; word 512; word 48; pubkey d; pad_pubkey d; word 32; credentials d; word 8; amount d; pad_amount d; word 96; signature d; word 8; index d; pad_index d].
Definition deposit_event (d : Deposit) : bytes := concat (deposit_chunks d).
Definition deposit_bytes (d : Deposit) : bytes := concat [pubkey d; credentials d; amount d; signature d; index d].

Lemma zlen_word z : zlen (word z) = 32.
Proof. unfold zlen, word. by rewrite length_Z_to_be. Qed.

Lemma be_word z : 0 <= z < 1000 -> be_to_Z (word z) = z.
Proof. intros H. unfold word. rewrite be_to_Z_Z_to_be by lia. apply Z.mod_small. change (256 ^ Z.of_nat 32) with two256. change two256 with (2 ^ 256). lia. Qed.

Lemma event_chunk_at d k c lo hi : deposit_wf d -> deposit_chunks d !! k = Some c ->
  lo = zlen (concat (take k (deposit_chunks d))) -> hi = lo + zlen c -> go_slice (deposit_event d) lo hi = Val c.
Proof. intros _. apply go_slice_chunk. Qed.

Ltac chunk_lens := unfold deposit_chunks; cbn [concat firstn app]; rewrite ?zlen_app, ?zlen_word; change (zlen (@nil byte)) with 0; unfold deposit_wf in *; lia.

Lemma zlen_event d : deposit_wf d -> zlen (deposit_event d) = 576.
Proof. intros H. unfold deposit_event. chunk_lens. Qed.

Lemma word_at_event d k z lo : deposit_wf d -> deposit_chunks d !! k = Some (word z) -> 0 <= z < 1000 ->
  lo = zlen (concat (take k (deposit_chunks d))) -> word_at (deposit_event d) lo = Val z.
Proof.
  intros Hd Hk Hz Hlo. unfold word_at. rewrite (event_chunk_at d k (word z)) by (rewrite ?zlen_word; auto).
  cbn [mbind Res_bind mret Res_ret]. by rewrite be_word.
Qed.

Ltac at_chunk k lo := erewrite (word_at_event _ k _ lo); [|eassumption|reflexivity|lia|chunk_lens]; cbn [mbind Res_bind].

Lemma validate_event d : deposit_wf d -> validateDepositLog (deposit_event d) = Val None.
Proof.
  intros H. unfold validateDepositLog. rewrite zlen_event by assumption. change (negb (576 =? DepositLogLen)) with false. cbn match.
  at_chunk 0%nat 0. at_chunk 1%nat 32. at_chunk 2%nat 64. at_chunk 3%nat 96. at_chunk 4%nat 128. cbn [negb orb Z.eqb Pos.eqb].
  at_chunk 5%nat 160. at_chunk 8%nat 256. at_chunk 10%nat 320. at_chunk 13%nat 384. at_chunk 15%nat 512. reflexivity.
Qed.

(** A field of the type [bytes]: its offset is chunk [i], its length chunk [k], and it is the next chunk. *)
Lemma toGoType_chunk d i k off len c : deposit_wf d ->
  deposit_chunks d !! i = Some (word off) -> deposit_chunks d !! k = Some (word len) -> deposit_chunks d !! S k = Some c ->
  off = zlen (concat (take k (deposit_chunks d))) -> zlen c = len -> off + 32 + len <= 576 -> 0 <= len ->
  toGoType_bytes (zlen (concat (take i (deposit_chunks d)))) (deposit_event d) = Val (inr c).
Proof.
  intros Hd Hi Hk Hc Hoff Hlen Hle H0. unfold toGoType_bytes, lengthPrefixPointsTo.
  pose proof (zlen_nonneg (concat (take k (deposit_chunks d)))) as Hnn.
  assert (Hin : zlen (concat (take i (deposit_chunks d))) + 32 <= 576).
  { rewrite <- (zlen_event d Hd). unfold deposit_event. rewrite <- (take_drop_middle _ _ _ Hi) at 2.
    rewrite concat_app. cbn [concat]. rewrite !zlen_app, zlen_word. pose proof (zlen_nonneg (concat (drop (S i) (deposit_chunks d)))). lia. }
  rewrite zlen_event by assumption. destruct (Z.ltb_spec 576 (zlen (concat (take i (deposit_chunks d))) + 32)); [lia|].
  rewrite (event_chunk_at d i (word off)) by (rewrite ?zlen_word; auto). cbn [mbind Res_bind]. rewrite be_word by lia.
  destruct (Z.ltb_spec 576 (off + 32)); [lia|]. destruct (Z.leb_spec (2 ^ 63) (off + 32)); [lia|].
  rewrite (event_chunk_at d k (word len)) by (rewrite ?zlen_word; auto; lia). cbn [mbind Res_bind]. rewrite be_word by lia.
  destruct (Z.leb_spec (2 ^ 63) (off + 32 + len)); [lia|]. destruct (Z.ltb_spec 576 (off + 32 + len)); [lia|]. cbn [mret Res_ret mbind Res_bind].
  rewrite (event_chunk_at d (S k) c); [reflexivity|assumption|assumption| |lia].
  rewrite (take_S_r _ _ _ Hk), concat_app, zlen_app. cbn [concat]. rewrite app_nil_r, zlen_word. lia.
Qed.

Lemma unpack_event d : deposit_wf d -> unpackDepositLog (deposit_event d) = Val (inr (deposit_bytes d)).
Proof.
  intros H. unfold unpackDepositLog. rewrite validate_event by assumption. cbn [mbind Res_bind].
  assert (Hf : forall i j k off len c, deposit_chunks d !! i = Some (word off) -> deposit_chunks d !! k = Some (word len) -> deposit_chunks d !! S k = Some c ->
    off = zlen (concat (take k (deposit_chunks d))) -> zlen c = len -> off + 32 + len <= 576 -> 0 <= len -> j * 32 = zlen (concat (take i (deposit_chunks d))) ->
    toGoType_bytes (j * 32) (deposit_event d) = Val (inr c)).
  { intros. replace (j * 32) with (zlen (concat (take i (deposit_chunks d)))). by eapply toGoType_chunk. }
  destruct H as (H1 & H2 & H3 & H4 & H5 & H6 & H7 & H8).
  cbn [unpack_bytes].
  rewrite (Hf 0%nat (0) 5%nat _ _ _ eq_refl eq_refl eq_refl); [|chunk_lens..]. cbn [mbind Res_bind].
  rewrite (Hf 1%nat (0 + 1) 8%nat _ _ _ eq_refl eq_refl eq_refl); [|chunk_lens..]. cbn [mbind Res_bind].
  rewrite (Hf 2%nat (0 + 1 + 1) 10%nat _ _ _ eq_refl eq_refl eq_refl); [|chunk_lens..]. cbn [mbind Res_bind].
  rewrite (Hf 3%nat (0 + 1 + 1 + 1) 13%nat _ _ _ eq_refl eq_refl eq_refl); [|chunk_lens..]. cbn [mbind Res_bind].
  rewrite (Hf 4%nat (0 + 1 + 1 + 1 + 1) 15%nat _ _ _ eq_refl eq_refl eq_refl); [|chunk_lens..]. reflexivity.
Qed.

(** Consecutive pieces of a list. *)
Fixpoint pieces (l : bytes) (at_ : nat) (ns : list nat) : list bytes :=
  match ns with [] => [] | n :: ns => take n (drop at_ l) :: pieces l (at_ + n) ns end.

Lemma concat_pieces l at_ ns : concat (pieces l at_ ns) = take (sum_list ns) (drop at_ l).
Proof.
  revert at_. induction ns as [|n ns IH]; intros at_; [reflexivity|]. cbn [pieces concat sum_list sum_list_with id].
  by rewrite IH, <- drop_drop, take_take_drop.
Qed.

Lemma word_piece (data : bytes) a z : zlen data = 576 -> (a + 32 <= 576)%nat -> be_to_Z (take 32 (drop a data)) = z -> word z = take 32 (drop a data).
Proof.
  intros Hl Ha <-. unfold word. rewrite <- (Z_to_be_be_to_Z (take 32 (drop a data))) at 2. f_equal.
  unfold zlen in Hl. rewrite length_take, length_drop. lia.
Qed.

Lemma word_at_val (data : bytes) at_ : zlen data = 576 -> 0 <= at_ <= 544 -> word_at data at_ = Val (be_to_Z (take 32 (drop (Z.to_nat at_) data))).
Proof. intros Hl Ha. unfold word_at. rewrite go_slice_val by lia. by replace (Z.to_nat (at_ + 32 - at_)) with 32%nat by lia. Qed.

Definition deposit_of (data : bytes) : Deposit :=
  let f n a := take n (drop a data) in
  mkDeposit (f 48%nat 192%nat) (f 32%nat 288%nat) (f 8%nat 352%nat) (f 96%nat 416%nat) (f 8%nat 544%nat) (f 16%nat 240%nat) (f 24%nat 360%nat) (f 24%nat 552%nat).

Lemma validate_exact data :
  (deposit_wf (deposit_of data) /\ data = deposit_event (deposit_of data)) \/ validateDepositLog data = Val (Some InvalidDepositLogErr).
Proof.
  unfold validateDepositLog. destruct (Z.eqb_spec (zlen data) DepositLogLen) as [Hl|Hl]; [|by right]. cbn [negb].
  unfold DepositLogLen in Hl. rewrite !word_at_val by lia. cbn [mbind Res_bind].
  match goal with |- _ \/ (if ?c then _ else _) = _ => destruct c eqn:E1 end; [by right|].
  match goal with |- _ \/ (if ?c then _ else _) = _ => destruct c eqn:E2 end; [by right|]. left.
  rewrite !orb_false_iff, !negb_false_iff, !Z.eqb_eq in E1, E2.
  destruct E1 as ((((O1 & O2) & O3) & O4) & O5), E2 as ((((L1 & L2) & L3) & L4) & L5).
  split; [unfold deposit_wf, deposit_of, zlen in *; cbn [pubkey credentials amount signature index pad_pubkey pad_amount pad_index];
    rewrite !length_take, !length_drop; lia|].
  assert (Hc : deposit_chunks (deposit_of data) = pieces data 0 [32;32;32;32;32;32;48;16;32;32;32;8;24;32;96;32;8;24]%nat).
  { unfold deposit_chunks. cbn [pieces]. repeat (apply f_equal2; [first [reflexivity | apply word_piece; [assumption|lia|assumption]]|]). reflexivity. }
  unfold deposit_event. rewrite Hc, concat_pieces, drop_0, take_ge; [reflexivity|]. unfold zlen in Hl. change (sum_list _) with 576%nat. lia.
Qed.

Lemma unpack_exact data :
  (deposit_wf (deposit_of data) /\ data = deposit_event (deposit_of data) /\ unpackDepositLog data = Val (inr (deposit_bytes (deposit_of data)))) \/
  ((forall d, deposit_wf d -> data <> deposit_event d) /\ unpackDepositLog data = Val (inl InvalidDepositLogErr)).
Proof.
  destruct (validate_exact data) as [[Hw He]|Hv].
  - left. split_and!; [assumption..|]. rewrite He at 1. by apply unpack_event.
  - right. split; [|unfold unpackDepositLog; by rewrite Hv].
    intros d Hd ->. rewrite validate_event in Hv by assumption. discriminate.
Qed.

Definition is_deposit (addr : Z) (l : Log) : Prop := log_Address l = addr /\ head (log_Topics l) = Some depositTopic.
#[local] Instance is_deposit_dec addr l : Decision (is_deposit addr l).
Proof. unfold is_deposit. apply _. Defined.

Lemma deposit_data_exact addr logs acc :
  let events := map log_Data (filter (is_deposit addr) logs) in
  (exists ds, events = map deposit_event ds /\ Forall deposit_wf ds /\ deposit_data addr logs acc = Val (inr (acc ++ concat (map deposit_bytes ds)))) \/
  ((exists data, data ∈ events /\ forall d, deposit_wf d -> data <> deposit_event d) /\ exists e, deposit_data addr logs acc = Val (inl e)).
Proof.
  revert acc. induction logs as [|l logs IH]; intros acc; cbn zeta.
  { left. exists []. split_and!; [reflexivity|constructor|]. cbn. by rewrite app_nil_r. }
  cbn [deposit_data]. rewrite filter_cons.
  assert (Hb : (log_Address l =? addr) && bool_decide (head (log_Topics l) = Some depositTopic) = bool_decide (is_deposit addr l)).
  { apply Bool.eq_iff_eq_true. by rewrite andb_true_iff, Z.eqb_eq, !bool_decide_eq_true. }
  rewrite Hb. destruct (decide (is_deposit addr l)) as [Hd|Hd]; [rewrite bool_decide_true by assumption|rewrite bool_decide_false by assumption; apply IH].
  destruct (unpack_exact (log_Data l)) as [(Hw & He & Hu)|(Hno & Hu)]; rewrite Hu; cbn [mbind Res_bind].
  - destruct (IH (acc ++ deposit_bytes (deposit_of (log_Data l)))) as [(ds & E & Hf & Hr)|((data & Hin & Hno) & e & Hr)]; rewrite Hr.
    + left. exists (deposit_of (log_Data l) :: ds). cbn [map]. rewrite E, <- He. split_and!; [reflexivity|by constructor|]. cbn [concat]. by rewrite app_assoc.
    + right. split; [|eauto]. exists data. split; [by right|assumption].
  - right. split; [|eauto]. eexists. split; [by left|assumption].
Qed.

(** C15 The deposit request of a block: parsing the logs never panics. When the data of every
    deposit event of the deposit contract is the encoding of a deposit, the request holds the
    public key, credentials, amount, signature and index of each in order (192 bytes), and
    there is none when there are no events; otherwise an error is returned. *)
Theorem ParseDepositLogs_exact logs addr :
  let events := map log_Data (filter (is_deposit addr) logs) in
  (exists ds, events = map deposit_event ds /\ Forall deposit_wf ds /\
     ParseDepositLogs logs addr =
     Val (inr (match ds with [] => None | _ => Some (mkFlatRequest DepositRequestType (concat (map deposit_bytes ds))) end))) \/
  ((exists data, data ∈ events /\ forall d, deposit_wf d -> data <> deposit_event d) /\ exists e, ParseDepositLogs logs addr = Val (inl e)).
Proof.
  cbn zeta. unfold ParseDepositLogs.
  destruct (deposit_data_exact addr logs []) as [(ds & E & Hf & Hr)|(Hno & e & Hr)]; rewrite Hr; cbn [mbind Res_bind mret Res_ret]; [left|right; eauto].
  exists ds. split_and!; [assumption..|]. do 2 f_equal. destruct ds as [|d ds]; [reflexivity|]. cbn [map concat app].
  inversion Hf as [|? ? Hd _]; subst. unfold deposit_bytes at 1. cbn [concat]. rewrite !zlen_app.
  pose proof (zlen_nonneg (concat (map deposit_bytes ds))). change (zlen (@nil byte)) with 0. unfold deposit_wf in Hd.
  destruct (Z.ltb_spec 0 (zlen (pubkey d) + (zlen (credentials d) + (zlen (amount d) + (zlen (signature d) + (zlen (index d) + 0)))) + zlen (concat (map deposit_bytes ds)))); [reflexivity|lia].
Qed.

(** ** Requests *)

Section Requests.
Context {U : Uint256} {DB : StateDB} (eth1Engine : Eth1Engine) (chain_ : ChainReader).
#[local] Notation Finalize := (Merge.Finalize eth1Engine chain_).

(** The check of the requests against the hash of a header. *)
Definition check_hash (hash : option Z) (r : Error + list FlatRequest) : Error + list FlatRequest :=
  match r, hash with
  | inr rs, Some h => if negb (h =? requests_Hash rs) then inl (NewError "error: invalid requests root hash in header") else inr rs
  | _, _ => r
  end.

Lemma collect_hash header hash receipts syscall st :
  collect_requests chain_ (with_requests_hash header hash) receipts syscall st =
  match collect_requests chain_ (with_requests_hash header None) receipts syscall st with
  | Val (r, st) => Val (check_hash hash r, st) | Panic e => Panic e | OutOfFuel => OutOfFuel
  end.
Proof.
  unfold collect_requests. destruct (all_logs receipts) as [e|logs]; [done|].
  unfold mbind, M_bind, lift. destruct (ParseDepositLogs _ _) as [[e|deposits]| |]; try done.
  destruct (DequeueWithdrawalRequests7002 syscall st) as [[[e|w] st1]| |]; try done.
  destruct (DequeueConsolidationRequests7251 syscall st1) as [[[e|c] st2]| |]; try done; by destruct hash.
Qed.

(** [Finalize] after the merge, without AuRa. *)
Lemma Finalize_pos header uncles receipts ws syscall st :
  is_aura eth1Engine = false -> b_Difficulty header = Some 0 ->
  Finalize header uncles receipts ws syscall false st =
  match apply_withdrawals eth1Engine ws syscall st with
  | Val (Some e, st) => Val (inl e, st)
  | Val (None, st) =>
      if chain.IsPrague (cr_Config chain_) (b_Time header) then
        match collect_requests chain_ header receipts syscall st with
        | Val (inl e, st) => Val (inl e, st) | Val (inr rs, st) => Val (inr (Some rs), st) | Panic e => Panic e | OutOfFuel => OutOfFuel
        end
      else Val (inr None, st)
  | Panic e => Panic e | OutOfFuel => OutOfFuel
  end.
Proof.
  intros Ha Hd. unfold Merge.Finalize, CalculateRewards, IsPoSHeader. rewrite Hd, Ha. change (0 =? ProofOfStakeDifficulty) with true.
  unfold mbind, M_bind, lift. cbn [mret Res_ret M_ret negb orb map credit].
  destruct (apply_withdrawals eth1Engine ws syscall st) as [[[e|] st1]| |]; try done. destruct (chain.IsPrague _ _); [|done]. cbn [andb].
  by destruct (collect_requests _ _ receipts syscall st1) as [[[e|rs] st2]| |].
Qed.

Lemma Finalize_hash header hash uncles receipts ws syscall st :
  is_aura eth1Engine = false -> b_Difficulty header = Some 0 ->
  Finalize (with_requests_hash header hash) uncles receipts ws syscall false st =
  match Finalize (with_requests_hash header None) uncles receipts ws syscall false st with
  | Val (inr (Some rs), st) => Val (match check_hash hash (inr rs) with inl e => inl e | inr rs => inr (Some rs) end, st)
  | r => r
  end.
Proof.
  intros Ha Hd. rewrite !Finalize_pos by done. cbn [with_requests_hash b_Time].
  destruct (apply_withdrawals eth1Engine ws syscall st) as [[[e|] st1]| |]; try done. destruct (chain.IsPrague _ _); [|done].
  rewrite collect_hash. destruct (collect_requests _ _ receipts syscall st1) as [[[e|rs] st2]| |]; try done. unfold check_hash.
  destruct hash as [h|]; [|done]. by destruct (negb (h =? requests_Hash rs)).
Qed.

(** C14 A block assembled after the merge is accepted when it is finalized again from the same
    state: it gives the same requests and the same state, and from the Prague fork on a header
    that differs only by another hash of the requests is refused. The engine of the blocks
    before the merge is not AuRa. *)
Theorem assembled_finalizes header uncles receipts ws syscall other st st' h rs :
  is_aura eth1Engine = false -> b_Difficulty header = Some 0 ->
  FinalizeAndAssemble eth1Engine chain_ header uncles receipts ws syscall other st = Val (inr (h, rs), st') ->
  Finalize h uncles receipts ws syscall false st = Val (inr rs, st') /\
  (chain.IsPrague (cr_Config chain_) (b_Time header) = true ->
   forall hash, b_RequestsHash h <> Some hash ->
   exists e, Finalize (with_requests_hash h (Some hash)) uncles receipts ws syscall false st = Val (inl e, st')).
Proof.
  intros Ha Hd. unfold FinalizeAndAssemble, IsPoSHeader. rewrite Hd. change (0 =? ProofOfStakeDifficulty) with true. unfold mbind, M_bind, lift. cbn [mret Res_ret negb].
  destruct (Finalize (with_requests_hash header None) uncles receipts ws syscall false st) as [[[e|out] st1]| |] eqn:Ef; try done.
  intros [= <- <- <-]. set (x := if chain.IsPrague _ _ then _ else _).
  split.
  - rewrite (Finalize_hash header x), Ef by assumption. unfold x. destruct out as [out|]; [|done].
    destruct (chain.IsPrague _ _); [|done]. cbn [option_map check_hash]. by rewrite Z.eqb_refl.
  - intros Hp hash Hne. subst x. rewrite Hp in *. cbn [with_requests_hash b_RequestsHash] in Hne.
    change (with_requests_hash (with_requests_hash header (option_map requests_Hash out)) (Some hash)) with (with_requests_hash header (Some hash)).
    rewrite Finalize_hash, Ef by assumption. destruct out as [out|]; cbn [check_hash option_map] in *.
    + destruct (Z.eqb_spec hash (requests_Hash out)); [by subst|]. eauto.
    + exfalso. revert Ef. rewrite Finalize_pos by done. cbn [with_requests_hash b_Time]. rewrite Hp.
      destruct (apply_withdrawals eth1Engine ws syscall st) as [[[e|] st2]| |]; try done.
      by destruct (collect_requests _ _ receipts syscall st2) as [[[e|rs'] st3]| |].
Qed.
End Requests.

(** ** The chain of headers *)

(** Blob parameters are always found when the schedule of the chain has no nil entry. *)
Lemma blob_field_returns f c t :
  (forall name v, chain.BlobSchedule c !! name = Some v -> v <> None) -> 0 <= t -> exists z, chain.blob_field f c t = Val z.
Proof.
  intros Hs Ht. set (P := fun m : gmap Z (option BlobConfig) => (exists v, m !! 0 = Some v) /\ forall k v, m !! k = Some v -> v <> None).
  assert (Hi : forall k v m, P m -> P (<[k := Some v]> m)).
  { intros k v m [[v0 H0] Hall]. split.
    - destruct (decide (k = 0)) as [->|]; [rewrite lookup_insert_eq|rewrite lookup_insert_ne by done]; eauto.
    - intros k' v' [[_ <-]|[_ H]]%lookup_insert_Some; [done|eauto]. }
  assert (Hd : forall x v m, P m -> P (chain.set_default x v m)) by (intros [x|] v m H; [by apply Hi|done]).
  assert (Ho : forall n x m, P m -> P (chain.set_override c n x m)).
  { intros n x m H. unfold chain.set_override. destruct (chain.BlobSchedule c !! n) as [[v|]|] eqn:E, x; try done; [by apply Hi|by apply Hs in E]. }
  assert (HP : P (chain.parsedBlobSchedule c)).
  { unfold chain.parsedBlobSchedule. repeat (apply Ho || apply Hd). split; [by eexists|]. by intros k v [_ <-]%lookup_singleton_Some. }
  unfold chain.blob_field, chain.GetBlobConfig. destruct HP as [[v0 H0] Hall].
  destruct (ConfigValueLookup_spec None (chain.parsedBlobSchedule c) t (parsedBlobSchedule_nonempty c)) as (v & -> & Hv). cbn [mbind Res_bind].
  destruct Hv as [[Hlt _]|(k & Hk & _)]; [apply Hlt in H0; lia|]. apply Hall in Hk. destruct v as [v|]; [by eexists|done].
Qed.

Section Chain.
Context {U : Uint256} (config : chain.Config).

Lemma CalcExcessBlobGas_returns h t :
  (forall name v, chain.BlobSchedule config !! name = Some v -> v <> None) -> 0 <= t -> chain.IsOsaka config t = false ->
  exists e, CalcExcessBlobGas config h t = Val e.
Proof.
  intros Hs Ht Ho. unfold CalcExcessBlobGas, chain.GetTargetBlobsPerBlock. destruct (blob_field_returns Target config t Hs Ht) as [z ->]. cbn [mbind Res_bind].
  rewrite Ho. destruct (_ <? _); by eexists.
Qed.

Lemma i64_signed z : - 2 ^ 63 <= z < 2 ^ 63 -> i64 z = z.
Proof.
  intros H. destruct (decide (0 <= z)); [apply i64_id; lia|]. unfold i64.
  replace (z mod two64) with (z + two64) by (rewrite <- (Z.mod_small (z + two64) two64) by (unfold two64; lia); rewrite <- Z.add_mod_idemp_r, Z.mod_same, Z.add_0_r by done; done).
  destruct (Z.ltb_spec (z + two64) 9223372036854775808); unfold two64 in *; lia.
Qed.

Lemma VerifyGaslimit_accepts p h : 0 <= p < 2 ^ 63 -> 0 <= h < 2 ^ 63 -> VerifyGaslimit p h = None -> Z.abs (p - h) < p / 1024 /\ 5000 <= h.
Proof.
  intros Hp Hh. unfold VerifyGaslimit. rewrite (i64_signed p), (i64_signed h), (i64_signed (p - h)) by lia.
  replace (u64 (if p - h <? 0 then i64 ((p - h) * -1) else p - h)) with (Z.abs (p - h)).
  2: { destruct (Z.ltb_spec (p - h) 0); [rewrite i64_signed by lia|]; rewrite u64_id by (unfold is_u64, two64; lia); lia. }
  change params.GasLimitBoundDivisor with 1024. change params.MinBlockGasLimit with 5000.
  destruct (Z.leb_spec (p / 1024) (Z.abs (p - h))); [done|]. destruct (Z.ltb_spec h 5000); [done|]. lia.
Qed.

(** A header as it is decoded: the integers fit their types and the pointers are set. *)
Definition decoded (h : BlkHeader) : Prop :=
  0 <= b_GasLimit h /\ 0 <= b_GasUsed h /\ 0 <= b_Time h /\ b_Difficulty h <> None /\ b_Number h <> None.

(** A header the next one can be checked against. *)
Record sound_head (h : BlkHeader) (n : Z) : Prop := {
  sd_number : b_Number h = Some n;
  sd_london : chain.IsLondon config (big_Uint64 n) = true;
  sd_fee : exists b, b_BaseFee h = Some b /\ 0 <= b;
  sd_limit : 5000 <= b_GasLimit h < 2 ^ 63;
  sd_used : 0 <= b_GasUsed h <= b_GasLimit h
}.

(** What an accepted header says of itself and of its parent. *)
Record pos_child (parent header : BlkHeader) (n b : Z) : Prop := {
  pc_number : b_Number header = Some (n + 1);
  pc_time : b_Time parent < b_Time header;
  pc_difficulty : b_Difficulty header = Some 0;
  pc_uncles : b_UncleHash header = emptyUncleHash;
  pc_fee : b_BaseFee header = Some (base_fee_step (getBaseFeeChangeDenominator (chain.Bor config) (big_Uint64 n)) b (b_GasUsed parent) (b_GasLimit parent / 2));
  pc_drift : Z.abs (b_GasLimit parent - b_GasLimit header) < b_GasLimit parent / 1024;
  pc_limit : 5000 <= b_GasLimit header < 2 ^ 63;
  pc_used : b_GasUsed header <= b_GasLimit header
}.

Lemma head_priced h n b : sound_head h n -> b_BaseFee h = Some b -> 0 <= b -> priced config (fee_fields h) b.
Proof. intros [Hn Hl _ Hg Hu] Hb H0. split; cbn [fee_fields Number h_BaseFee h_GasLimit h_GasUsed]; rewrite ?Hn; cbn [default]; done || lia. Qed.

(** The fee step never goes below zero. *)
Lemma base_fee_step_nonneg d b used t : 0 < d -> 0 <= b -> 0 < t -> 0 <= used -> 0 <= base_fee_step d b used t.
Proof.
  intros Hd Hb Ht Hu. unfold base_fee_step. destruct (Z.eqb_spec used t); [done|]. destruct (Z.ltb_spec t used); [lia|].
  pose proof (div_div_le b (t - used) t d Hb ltac:(lia) Ht Hd). assert (b / d <= b) by (apply Z.div_le_upper_bound; nia). lia.
Qed.

Lemma verifyHeader_child parent header n b :
  sound_head parent n -> b_BaseFee parent = Some b -> 0 <= b -> decoded header ->
  Merge.verifyHeader config header parent = Val None -> pos_child parent header n b.
Proof.
  intros Hs Hb H0 (Hgl & Hgu & _ & Hd & Hn). destruct (Hs) as [Hpn Hl _ Hpl Hpu]. unfold Merge.verifyHeader.
  destruct (b_Difficulty header) as [df|] eqn:Ed; [|done]. destruct (b_Number header) as [m|] eqn:En; [|done]. rewrite Hpn.
  destruct (_ <? zlen _); [done|]. destruct (Z.leb_spec (b_Time header) (b_Time parent)); [done|]. cbn [nonnil mbind Res_bind mret Res_ret].
  destruct (Z.eqb_spec df ProofOfStakeDifficulty) as [->|]; [|done]. cbn [negb]. destruct (negb _); [done|].
  destruct (Z.ltb_spec MaxBlockGasLimit (b_GasLimit header)); [done|]. destruct (Z.ltb_spec (b_GasLimit header) (b_GasUsed header)); [done|].
  destruct (Z.eqb_spec (m - n) 1); [|done]. destruct (Z.eqb_spec (b_UncleHash header) emptyUncleHash); [|done]. cbn [negb].
  destruct (VerifyEip1559Header config (fee_fields parent) (fee_fields header) false) as [[err|]| |] eqn:Ev; try done. intros _.
  pose proof (verified_fee _ _ _ _ _ (head_priced _ _ _ Hs Hb H0) Ev) as Hf. cbn [fee_fields h_BaseFee Number h_GasUsed h_GasLimit] in Hf. rewrite Hpn in Hf.
  assert (Hg : VerifyGaslimit (b_GasLimit parent) (b_GasLimit header) = None).
  { revert Ev. unfold VerifyEip1559Header. cbn [fee_fields Number h_GasLimit]. rewrite Hpn. change (default 0 (Some n)) with n. rewrite Hl. cbn [negb]. by destruct (VerifyGaslimit _ _). }
  unfold MaxBlockGasLimit in *. apply VerifyGaslimit_accepts in Hg; [|lia..]. split; try done; try lia. by rewrite En; f_equal; lia.
Qed.

Lemma verifyHeader_returns parent header n :
  sound_head parent n -> decoded header ->
  (chain.IsCancun config (b_Time header) = true -> exists e, CalcExcessBlobGas config (fee_fields parent) (b_Time header) = Val e) ->
  exists verdict, Merge.verifyHeader config header parent = Val verdict.
Proof.
  intros Hs (_ & _ & _ & Hd & Hn) He. destruct (Hs) as [Hpn Hl (b & Hb & H0) _ _]. unfold Merge.verifyHeader, VerifyEip1559Header, verify_cancun.
  rewrite (CalcBaseFee_step _ _ _ (head_priced _ _ _ Hs Hb H0)), Hpn. destruct (b_Difficulty header) as [df|]; [|done]. destruct (b_Number header) as [m|] eqn:En; [|done].
  cbn [nonnil mbind Res_bind mret Res_ret]. destruct (_ <? zlen _); [by eexists|]. repeat (destruct (_ <=? _); [by eexists|]). do 2 (destruct (negb _); [by eexists|]).
  do 2 (destruct (_ <? _); [by eexists|]). do 2 (destruct (negb _); [by eexists|]).
  destruct (if negb false then _ else None); [by eexists|]. destruct (h_BaseFee (fee_fields header)) as [f|]; [|by eexists]. cbn [mbind Res_bind].
  destruct (if negb _ then _ else None); [by eexists|]. do 2 (destruct (_ && bool_decide _); [by eexists|]).
  destruct (chain.IsCancun config (b_Time header)); [|by eexists]. cbn [negb]. destruct (VerifyPresenceOfCancunHeaderFields (fee_fields header)) as [err|] eqn:Ep; [by eexists|].
  destruct (He eq_refl) as [e ->]. revert Ep. unfold VerifyPresenceOfCancunHeaderFields. cbn [fee_fields h_BlobGasUsed h_ExcessBlobGas].
  destruct (b_BlobGasUsed header); [|done]. destruct (b_ExcessBlobGas header); [|done]. intros _. by eexists.
Qed.

(** Headers accepted one after the other, each of them on the one before. *)
Fixpoint accepted (parent : BlkHeader) (hs : list BlkHeader) : Prop :=
  match hs with
  | [] => True
  | h :: hs => decoded h /\ Merge.verifyHeader config h parent = Val None /\ accepted h hs
  end.

Lemma last_cons_default {A} (l : list A) a d : List.last (a :: l) d = List.last l a.
Proof. revert a d. induction l as [|b l IH]; intros a d; [done|]. transitivity (List.last (b :: l) d); [done|]. by rewrite !IH. Qed.

Lemma accepted_head anchor hs n :
  (forall k, n <= k -> chain.IsLondon config k = true) -> sound_head anchor n -> 0 <= n -> n + zlen hs < two64 -> accepted anchor hs ->
  sound_head (List.last hs anchor) (n + zlen hs) /\ b_Time anchor + zlen hs <= b_Time (List.last hs anchor) /\
  Forall (fun h => b_Difficulty h = Some 0 /\ b_UncleHash h = emptyUncleHash) hs.
Proof.
  revert anchor n. induction hs as [|h hs IH]; intros anchor n HL Hs Hn Hlen Ha.
  { change (zlen []) with 0. rewrite !Z.add_0_r. split_and!; [done|cbn; lia|constructor]. }
  destruct Ha as (Hd & Hv & Ha). rewrite zlen_cons in *. pose proof (zlen_nonneg hs). destruct (sd_fee _ _ Hs) as (b & Hb & H0).
  pose proof (verifyHeader_child _ _ _ _ Hs Hb H0 Hd Hv) as Hc. destruct Hs as [_ _ _ Hl Hu].
  assert (Hs' : sound_head h (n + 1)).
  { destruct Hc as [? ? ? ? Hf ? ? ?]. split; [done|rewrite big_Uint64_id by (unfold is_u64; lia); apply HL; lia| |lia|destruct Hd; lia].
    eexists. split; [done|]. pose proof (denominator_values (chain.Bor config) (big_Uint64 n)) as Hden. cbn in Hden.
    apply base_fee_step_nonneg; [lia|lia|apply Z.div_str_pos; lia|lia]. }
  destruct (IH h (n + 1) ltac:(intros; apply HL; lia) Hs' ltac:(lia) ltac:(lia) Ha) as (H1 & H2 & H3).
  rewrite last_cons_default.
  destruct Hc. split_and!; [by replace (n + (1 + zlen hs)) with (n + 1 + zlen hs) by lia|lia|by constructor].
Qed.

(** C13 After the merge the headers form a chain that can always be continued: from a London
    header on, accepted headers have consecutive numbers, strictly increasing times,
    difficulty 0, no uncles, a base fee, and a gas limit of at least 5000 that holds the gas
    used; and checking any decoded header on the last of them returns a verdict. Accepting it
    means that it has the next number, a later time, the base fee of EIP-1559 and a gas limit
    within one part in 1024 of its parent's. (London is active from the first header on, no
    entry of the configured blob schedule is nil, and from Osaka on the blob price of the
    parent must fit 256 bits, as the code panics otherwise.) *)
Theorem pos_chain_continues anchor hs n header :
  (forall k, n <= k -> chain.IsLondon config k = true) ->
  (forall name v, chain.BlobSchedule config !! name = Some v -> v <> None) ->
  sound_head anchor n -> 0 <= n -> n + zlen hs < two64 -> accepted anchor hs -> decoded header ->
  (chain.IsOsaka config (b_Time header) = true -> exists e, CalcExcessBlobGas config (fee_fields (List.last hs anchor)) (b_Time header) = Val e) ->
  let parent := List.last hs anchor in
  sound_head parent (n + zlen hs) /\ b_Time anchor + zlen hs <= b_Time parent /\
  Forall (fun h => b_Difficulty h = Some 0 /\ b_UncleHash h = emptyUncleHash) hs /\
  exists verdict b, Merge.verifyHeader config header parent = Val verdict /\ b_BaseFee parent = Some b /\
    (verdict = None -> pos_child parent header (n + zlen hs) b).
Proof.
  intros HL Hb Hs Hn Hlen Ha Hd Ho parent. destruct (accepted_head anchor hs n HL Hs Hn Hlen Ha) as (H1 & H2 & H3). fold parent in H1, H2.
  split_and!; [done..|]. destruct (sd_fee _ _ H1) as (b & Hfee & H0).
  destruct (verifyHeader_returns parent header (n + zlen hs) H1 Hd) as [verdict Hv].
  { intros _. destruct (chain.IsOsaka config (b_Time header)) eqn:E; [by apply Ho|]. apply CalcExcessBlobGas_returns; [done|apply Hd|done]. }
  exists verdict, b. split_and!; [done..|]. intros ->. by eapply verifyHeader_child.
Qed.
End Chain.

(** ** Witnesses *)

#[local] Existing Instance uint256_ref | 0.

Definition pos_header (n time limit used fee : Z) (requests : option Z) : BlkHeader :=
  mkBlk 0 emptyUncleHash 0 0 0 0 (replicate 256 x00) (Some 0) (Some n) limit used time [] 0 (replicate 8 x00) 0 [] (Some fee)
    (Some 0) (Some 0) (Some 0) (Some 0) requests.

Lemma pos_chain_continues_witness :
  let anchor := pos_header 100 1000 30000000 30000000 800 (Some 0) in
  let child := pos_header 101 1012 30000000 0 900 (Some 0) in
  let next := pos_header 102 1024 30029000 15000000 788 (Some 0) in
  exists b, b_BaseFee child = Some b /\ pos_child chain.AllProtocolChanges child next 101 b.
Proof.
  intros anchor child next.
  destruct (pos_chain_continues chain.AllProtocolChanges anchor [child] 100 next) as (_ & _ & _ & verdict & b & Hv & Hb & Hc).
  - intros k Hk. change (chain.IsLondon chain.AllProtocolChanges k) with (0 <=? k). apply Z.leb_le. lia.
  - intros name v. change (chain.BlobSchedule chain.AllProtocolChanges) with (∅ : gmap string (option BlobConfig)). by rewrite lookup_empty.
  - split; [reflexivity|reflexivity|by exists 800|cbn; lia|cbn; lia].
  - lia.
  - reflexivity.
  - split; [split_and!; done|]. split; [vm_compute; reflexivity|done].
  - split_and!; done.
  - discriminate.
  - exists b. split; [exact Hb|]. apply Hc. assert (E : Merge.verifyHeader chain.AllProtocolChanges next child = Val None) by (vm_compute; reflexivity).
    cbn [List.last] in Hv. congruence.
Defined.

(** Balances, and code at every address. *)
#[local] Instance ledger_state : StateDB := {|
  ibs := gmap Z Z;
  GetBalance a := fun s => Val ((default 0 (s !! a), None), s);
  AddBalance a v := fun s => Val (None, <[a := default 0 (s !! a) + v]> s);
  SubBalance a v := fun s => Val (None, <[a := default 0 (s !! a) - v]> s);
  GetNonce _ := mret (0, None);
  SetNonce _ _ := mret None;
  GetCode _ := mret ([x00], None);
  GetCodeSize _ := mret (1, None);
  GetCodeHash _ := mret (0, None);
  SetCode _ _ := mret None;
  ResolveCode _ := mret ([x00], None);
  ResolveCodeHash _ := mret (0, None);
  GetDelegatedDesignation _ := mret (0, false, None);
  GetState _ _ := mret (0, None);
  GetCommittedState _ _ := mret (0, None);
  SetState _ _ _ := mret None;
  HasStorage _ := mret (false, None);
  GetTransientState _ _ := mret 0;
  SetTransientState _ _ _ := mret tt;
  Exist _ := mret (true, None);
  Empty _ := mret (false, None);
  HasSelfdestructed _ := mret (false, None);
  Selfdestruct _ := mret (false, None);
  Selfdestruct6780 _ := mret None;
  CreateAccount _ _ := mret None;
  AddLog _ := mret tt;
  AddRefund _ := mret tt;
  SubRefund _ := mret None;
  AddAddressToAccessList _ := mret true;
  AddSlotToAccessList _ _ := mret (true, true);
  Snapshot := mret 0;
  RevertToSnapshot _ := mret tt
|}.

Definition no_engine : Eth1Engine :=
  mkEth1Engine (fun _ => Panic "no engine") (fun _ _ => Panic "no engine") (fun _ _ => Panic "no engine") (fun _ => Panic "no engine") (fun _ _ _ _ => Panic "no engine")
    (fun _ _ _ _ => Panic "no engine") (fun _ _ _ _ _ => Panic "no engine") (fun _ _ => Panic "no engine") false (fun _ _ _ => Panic "no engine").
Definition pos_reader : ChainReader := mkChainReader chain.AllProtocolChanges (fun _ _ => None) (fun _ => None) (fun _ _ => None) (fun _ _ => None).
Definition echo_call : SystemCall := fun addr _ => mret (inr (Some (if addr =? params.WithdrawalRequestAddress then [x07] else []))).
Definition demo_deposit : Deposit :=
  mkDeposit (replicate 48 x01) (replicate 32 x02) (replicate 8 x03) (replicate 96 x04) (replicate 8 x05) (replicate 16 x00) (replicate 24 x00) (replicate 24 x00).
Definition demo_receipt : option (list Log) := Some [mkLog 0 [depositTopic] (deposit_event demo_deposit) 0].
Definition demo_assemble : M ibs (Error + BlkHeader * option (list FlatRequest)) :=
  FinalizeAndAssemble no_engine pos_reader (pos_header 101 1012 30000000 0 900 None) [] [demo_receipt] (Some [mkWithdrawal 0 0 7 3]) echo_call (mret (inl (NewError "no engine"))).

Lemma demo_assembles : exists h rs st, demo_assemble ∅ = Val (inr (h, Some rs), st) /\ st !! 7 = Some 3000000000 /\ length rs = 3%nat /\ b_RequestsHash h <> Some 0.
Proof. eexists _, _, _. split; [vm_compute; reflexivity|]. split; [vm_compute; reflexivity|]. split; [reflexivity|discriminate]. Qed.

Lemma assembled_finalizes_witness :
  exists h rs st e, Merge.Finalize no_engine pos_reader h [] [demo_receipt] (Some [mkWithdrawal 0 0 7 3]) echo_call false ∅ = Val (inr (Some rs), st) /\ length rs = 3%nat /\
    Merge.Finalize no_engine pos_reader (with_requests_hash h (Some 0)) [] [demo_receipt] (Some [mkWithdrawal 0 0 7 3]) echo_call false ∅ = Val (inl e, st).
Proof.
  destruct demo_assembles as (h & rs & st & E & _ & Hl & Hh).
  destruct (assembled_finalizes no_engine pos_reader (pos_header 101 1012 30000000 0 900 None) [] [demo_receipt] (Some [mkWithdrawal 0 0 7 3]) echo_call (mret (inl (NewError "no engine"))) ∅ st h (Some rs) eq_refl eq_refl E) as [H1 H2].
  destruct (H2 eq_refl 0 Hh) as [e He]. exists h, rs, st, e. by split_and!.
Defined.
